(* ===== verification/_CoqProject ===== *)
-Q . S2P
Prelude.v
SatCounter.v
Misc.v
Memory.v
BPredBase.v
BPredProtocol.v
BPredGlobalHist.v
BPred2bC.v
BPred2lev.v
BPredBimode.v
BPredYags.v
BPredSkewed.v
BPredPerceptron.v
BPredTageHist.v
BPredTage.v
BPredPath.v
BPredBlg.v
BPredAlloyed.v
BPredStatic.v
FusionBase.v
FusionTables.v
FusionColt.v
RAS.v
BTBList.v
BTB.v
BPred.v
BPredPool.v
Dispatch.v
BPredAll.v
MemDep.v
CacheSet.v
CacheRepl.v
CachePolicy.v
CacheSafety.v
CacheHeap.v
Dram.v
MemCtrl.v
Bus.v
Buffer.v
ShadowMopQ.v
OracleDeps.v
Oracle.v
OracleInv.v
OracleSteps.v
OracleOrder.v
OracleRecover.v
OracleRun.v
CacheState.v
CacheMSHR.v
CachePipes.v
CachePrefetch.v
Prefetch.v
CacheProcess.v
CacheInv.v
CacheStages.v
CacheRun.v
Coherence.v
Hierarchy.v
HierarchyRun.v
Uops.v
RS.v
LSQ.v
LSQInv.v
LSQOps.v
LSQCommit.v
LSQRun.v
ROB.v
Backend.v
BackHeap.v
BackInv.v
BackLinks.v
BackStations.v
BackState.v
BackDispatch.v
BackExec.v
BackCommit.v
BackSquash.v
BackRecover.v
BackRun.v
