(* ===== verification/Prelude.v ===== *)
(** * XIOSim: a verification library for the simulator

    XIOSim (src/xiosim) is a cycle-level simulator of x86 cores and of the memory system
    around them.  This library translates its components into Rocq and proves what makes
    them correct.  This file is the prelude that all of them share; the rest of this
    comment is a map of the library.

    ** How the code is modelled

    A method of the source is a function from the state of its object to a [result]: the
    new state (and the value returned), or the [fault] that the C++ code would run into
    (an index out of bounds, a null pointer, a failed assertion, a call of [fatal], a
    division by zero).  [let* x := e in k] is the sequence of two such steps, [wp r Q]
    says that [r] has no fault and ends in [Q], [sim R r s] that two runs fail alike or
    end related by [R].  Integers are [Z] with the wrap-around of their width written out
    ([u64], [i32], ...); arrays are lists read and written through [aget] and [aset],
    which fault outside their bounds; pointers into a pool are indices.  Classes with
    virtual methods are type classes with their laws, and each implementation is an
    instance; a client is proved against the laws.  A comment "Source: file:lines symbol"
    in front of a definition names the code it translates.

    Loops run over lists or by [for_range] and [find_range], whose bounds are those of
    the source; where a loop has no such bound (the walks of CacheHeap and BTBList, the
    page loops of Memory, the clock policy of CacheSet) it takes fuel that the definition
    computes from the data, and the theorems show that it does not run out: running out is
    the fault [Diverge], which they exclude.

    ** Shared libraries

    Prelude (the monad, integers, arrays, loops), Misc (modinc, moddec, circular buffers as lists), SatCounter
    (2bitc.h), Dispatch (virtual calls as sums).

    ** Branch prediction: zesto-bpred.cpp, zesto-bpred.h, ZCOMPS-bpred, -fusion, -ras, -btb

    - BPredBase: the base class of the direction predictors and their interface.
      BPred2bC, BPred2lev, BPredBimode, BPredYags, BPredSkewed, BPredPerceptron,
      BPredTage (with BPredTageHist), BPredPath, BPredBlg, BPredAlloyed, BPredStatic: the
      predictors.  BPredGlobalHist: what those with a table of history registers share.
    - FusionBase, FusionTables, FusionColt: the meta-predictors.
    - RAS: the return address stacks; BTBList, BTB: the target buffers.
    - BPred: the predictor of a core over the four interfaces; BPredPool: its pool of state
      caches; BPredProtocol: the clients of a direction predictor; BPredAll: the theorems
      for every mix of the components.

    The theorems: no order of lookups, updates, recoveries and flushes faults, state
    caches are never shared, a misprediction restores histories and the return stack
    exactly; the tables refine saturating counters, recency lists and a 512-bit history;
    TAGE takes its longest match.  Where the code does not do what it means to (the skewed
    vote, the count mode of BLG, the 8-bit counters of COLT) a theorem says what it does.

    ** Caches: zesto-cache.cpp, zesto-cache.h, zesto-prefetch.cpp, ZCOMPS-prefetch

    - CacheSet, CacheRepl, CachePolicy, CacheSafety: the sets, their recency
      lists, the six replacement policies, the warm-up of the last level.
    - CacheHeap, CachePipes: the event heaps of the pipes; CacheState, CacheMSHR: the
      state and the miss registers with their counts; CachePrefetch: the prefetch queue,
      buffer and filter; Prefetch: the prefetchers.
    - CacheProcess: the five stages of a cycle, and enqueue and fill, over the interface
      [CacheEnv] of the controller, the neighbouring caches, the core and random();
      CacheInv: the invariant and the laws [CacheEnvLaws] of the environment; CacheStages,
      CacheRun: each stage, each cycle and whole runs keep them.

    The theorems: a set loses no block but its victim, and LRU is inclusive; the heaps
    are priority queues and the FIFO a bounded queue; in a run of any length
    every request accepted is answered exactly once or still in the cache; a cache that
    sleeps has no work.

    ** The memory hierarchy: ZCOMPS-coherence, zesto-noc.cpp

    - Bus: the buses between the caches and the front-side bus.
    - Coherence: the controllers, and the state they connect: all caches, the buses, the
      memory controller with its DRAM, the cores that ask; seen from one of the caches it is
      an environment [CacheEnv].
    - Hierarchy: that environment keeps the laws [CacheEnvLaws], because what a cache has in
      flight is what the caches above it and the memory controller owe it (CacheState: the
      cores of the lines, which the answers need); HierarchyRun: runs of the whole.

    The theorem: through any number of levels no request of the cores is lost or answered
    twice, and nothing faults, whatever the order in which caches, memory controller and
    cores take their cycles, with controllers of both classes at any level.  The levels have
    the same MSHR banks, without which prefetches from below fail an assertion
    (prefetch_needs_same_banks), and no prefetch buffers.

    ** Main memory: memory.cpp, zesto-MC.h, zesto-dram.h, ZCOMPS-MC, ZCOMPS-dram

    - Memory: the page tables of the address spaces over one pool of physical pages.
    - Dram: the interface of a DRAM and its three models; MemCtrl: the memory
      controller over any DRAM, and its runs.

    The theorems: translations never alias; mapping and unmapping reach one page too far;
    the bursts on the data bus of the SDRAM do not overlap; the ring of the controller is a
    list, loses no request and starves none.

    ** The oracle: zesto-oracle.cpp, shadow_MopQ.cpp, uop_cracker.h, pintool/buffer.h

    - Buffer: the circular queue of the feeder; ShadowMopQ: the handshakes in flight with
      the wrong paths that hang off them.
    - OracleDeps: the rename table and the links between the uops (install, commit and undo
      of mappings and dependencies) as a graph over a heap of uops.
    - Oracle: the state of core_oracle_t and its methods, over the interface [PipeEnv] of
      the other stages and the predictor, and over a decoder.
    - OracleInv, OracleSteps: the heap of uops and the graph through undo, squash, exec and
      commit; OracleSteps: also from a handshake to a macro-op; OracleOrder, OracleRecover: the
      order of the macro-ops in flight, kept by every method.
    - OracleRun: sessions of the feeder, the fetch stage, the pipeline and commit.

    The theorems: no session faults but by a flush of the oldest macro-op, whose assertion
    fails (flush_of_oldest_faults); up to there the oracle refines a queue of handshakes, each of
    which commits as the macro-op made from it, through wrong paths, recoveries and replays;
    the graph is the dataflow of the uops in flight and leaks no node; right and wrong path
    are in order and in step with the shadow MopQ.  The uops of a replayed wrong path may be
    those of an older one (stale_wrong_path_handshake).

    ** Memory dependence prediction: zesto-memdep.cpp, ZCOMPS-memdep

    - MemDep: the four predictors behind one interface.  The load wait table refines a log of
      the violations since its last reset.

    ** The out-of-order back end: ZPIPE-alloc, ZPIPE-exec, ZPIPE-commit (the DPM files)

    - Uops: the fields of macro-ops and uops that the stages behind the oracle work on.
    - RS: the reservation stations, with one entry for a fused set of uops, and every
      sequence of dispatches, executions and squashes of them.
    - LSQ: the load queue, the store queue with its main and its senior part, and the
      callbacks of the caches, over the interface [StoreMem] of the data cache, the TLB and
      the memory repeater.  LSQInv, LSQOps: the invariant, with the requests of each store
      that are not answered; LSQCommit: a store on its way to the caches, over the laws
      [StoreMemLaws]; LSQRun: every sequence of operations and answers.
    - ROB: the reorder buffer, with one entry for a fused set of uops.
    - Backend: the state of all of these with the ready queues and the load of the ports,
      and on it the end of the allocation pipe (dispatch), the way to a functional unit
      (go_to_ALU), the whole commit stage (step) and both recoveries (recover, recover_all).
      What commit calls of the oracle and the predictor is the interface [CommitEnv].
    - BackHeap: a list of uops as its fused sets, and what the updates of uops leave alone
      (BackLinks: those of their links); BackInv: the invariant, which reads every structure
      off one list of uops in program order; BackStations: its part for the reservation
      stations; BackState: the whole, with the laws [CommitEnvLaws].
    - BackDispatch, BackExec, BackCommit, BackSquash, BackRecover: each operation keeps it
      and does not fault.  The commit loop has fuel for the width and the uops in flight,
      the walk of a recovery for the size of the reorder buffer, that over a fused set for
      the 64 uops of a flow: none of them runs out.
    - BackRun: any sequence of macro-ops that arrive, allocations, executions, answers of
      the caches, commit cycles, recoveries and nukes; and such a run, evaluated.

    The theorems: reservation stations and queues are the lists of the uops in flight and no
    assertion fails; a store leaves the senior queue exactly when all its parts are
    answered, and an answer for an earlier owner of the entry changes nothing.  With a repeater
    this needs one that answers after its enqueue has returned, which the stub in the repository
    does not (repeater_must_not_answer_at_once).  For the back end as a whole: at any time the reorder buffer, the reservation stations,
    the queues and the port counters are read off one list of uops in program order; a
    commit cycle takes its oldest uops, also with a wrong path in flight; a recovery leaves
    exactly the uops up to its branch, a nuke none; and no assertion fails on the way.

    ** Not modelled

    Of the pipeline models of ZPIPE-*: fetch and decode, the pipe of the allocation stage,
    and the issue logic of the execution stage, whose writes to uops in flight are an event of
    BackRun that keeps named conditions (a uop completes only after it has gone to a
    functional unit, ports and links stay).  The runs of BackRun do not use a slot of the
    MopQ again, dispatch a fused set as a whole before one of its uops executes, have no
    HELIX signals, and end before the 64-bit action ids run out; a nuke comes between two
    macro-ops; a repeater, where there is one, answers after its enqueue has returned
    ([RepeaterLater]), as the default one, the external librepeater, must: the stub in the
    repository does not.  The in-order and STM models repeat the DPM ones.  Decoding and uop cracking
    (decode.cpp, uop_cracker.cpp) are built on the XED library, MC-dramsim on DRAMSim2,
    zesto-power.cpp on McPAT.  Registration and printing of statistics and options
    (stats.cpp, zesto-config.cpp) are input and output.  The pintool directory
    instruments a program through Pin; sim.cpp, sim-loop.cpp and slices.cpp drive the
    components, and what the theorems need of the order of their calls is in the runs
    of CacheRun, MemCtrl, HierarchyRun, OracleRun and BackRun.  Each run passes over the
    events that its callers cannot bring about in a state, which its [step] lists.  Caches with a
    prefetch buffer are modelled, but the runs have none.

    ** This file

    - [fault] and [result]: the ways a run of the C++ code can go wrong, as values of an
      error monad with the notation [let* x := e in k];
    - [wp r Q] with the rules that the proofs apply to binds, array accesses and loops,
      and [sim];
    - [aget]/[aset]: C array accesses by a (possibly negative) [int] index;
    - [u64], [i32], ...: the wrap-around of the machine integer types, and the
      bounds of masked values ([x & mask]);
    - [for_range] and [find_range]: the [for] loops of the source, without and
      with a [break]. *)

From Stdlib Require Import ZArith Lia Bool.
From stdpp Require Export base gmap list numbers.

#[global] Open Scope Z_scope.

(** ** Faults and the error monad *)

Inductive fault : Set :=
  | OutOfBounds   (* an index outside the allocated array *)
  | NullDeref     (* a null pointer is dereferenced *)
  | AssertFail    (* [assert]/[zesto_assert] fails *)
  | Fatal         (* [fatal(...)] ends the simulation *)
  | DivByZero     (* [x/0] or [x%0] *)
  | Diverge.      (* a loop that runs past every bound the data gives it *)

#[export] Instance fault_eq_dec : EqDecision fault.
Proof. solve_decision. Defined.

Inductive result (A : Type) : Type :=
  | Ok (a : A)
  | Fault (e : fault).
Arguments Ok {A} a.
Arguments Fault {A} e.

Definition rbind {A B} (r : result A) (k : A → result B) : result B :=
  match r with Ok a => k a | Fault e => Fault e end.

Definition rmap {A B} (f : A → B) (r : result A) : result B :=
  match r with Ok a => Ok (f a) | Fault e => Fault e end.

Declare Scope result_scope.
Delimit Scope result_scope with result.
Notation "'let*' x := r 'in' k" := (rbind r (λ x, k))
  (at level 10, x name, r at level 100, k at level 200) : result_scope.
Notation "'let*' ' p := r 'in' k" := (rbind r (λ x, match x with p => k end))
  (at level 10, p pattern, r at level 100, k at level 200, only parsing) : result_scope.
#[global] Open Scope result_scope.

(** [guard_or b e]: go on when [b] holds, stop with the fault [e] otherwise. *)
Definition guard_or (b : bool) (e : fault) : result unit :=
  if b then Ok tt else Fault e.

Definition of_option {A} (e : fault) (o : option A) : result A :=
  match o with Some a => Ok a | None => Fault e end.

(** The run has no fault and its value satisfies [Q]. *)
Definition wp {A} (r : result A) (Q : A → Prop) : Prop :=
  match r with Ok a => Q a | Fault _ => False end.

Section wp_rules.
Context {A B : Type}.

Lemma wp_ret (a : A) (Q : A → Prop) : Q a → wp (Ok a) Q.
Proof. done. Qed.

Lemma wp_bind (r : result A) (k : A → result B) (Q : B → Prop) :
    wp r (λ a, wp (k a) Q) → wp (rbind r k) Q.
Proof. by destruct r. Qed.

Lemma wp_bind_inv (r : result A) (k : A → result B) (Q : B → Prop) :
    wp (rbind r k) Q → wp r (λ a, wp (k a) Q).
Proof. by destruct r. Qed.

Lemma wp_mono (r : result A) (P Q : A → Prop) :
    wp r P → (∀ a, P a → Q a) → wp r Q.
Proof. destruct r; simpl; auto. Qed.

Lemma wp_exists (r : result A) (Q : A → Prop) :
    wp r Q ↔ ∃ a, r = Ok a ∧ Q a.
Proof.
    split; [|by intros (a & -> & H)].
    destruct r as [a|e]; simpl; [eauto | done].
  Qed.

Lemma wp_ok (r : result A) (Q : A → Prop) (a : A) :
    r = Ok a → wp r Q → Q a.
Proof. by intros ->. Qed.

Lemma wp_and (r : result A) (P Q : A → Prop) :
    wp r P → wp r Q → wp r (λ a, P a ∧ Q a).
Proof. by destruct r. Qed.

Lemma wp_guard (b : bool) (e : fault) (Q : unit → Prop) :
    b = true → Q tt → wp (guard_or b e) Q.
Proof. by intros ->. Qed.

Lemma bind_Ok_inv (r : result A) (k : A → result B) (b : B) :
    rbind r k = Ok b → ∃ a, r = Ok a ∧ k a = Ok b.
Proof. destruct r; [eauto | done]. Qed.
End wp_rules.

(** ** Simulation *)

(** Two runs that fail alike or end in related states. *)
Definition sim {A B} (R : A → B → Prop) (r : result A) (s : result B) : Prop :=
  match r, s with Ok a, Ok b => R a b | Fault x, Fault y => x = y | _, _ => False end.

Lemma sim_bind {A B C D} (R : A → B → Prop) (S : C → D → Prop) r s (k : A → result C) (h : B → result D) :
  sim R r s → (∀ a b, R a b → sim S (k a) (h b)) → sim S (rbind r k) (rbind s h).
Proof. destruct r, s; simpl; naive_solver. Qed.

Lemma sim_refl {A} (r : result A) : sim (=) r r.
Proof. by destruct r. Qed.

Lemma sim_mono {A B} (R S : A → B → Prop) r s : sim R r s → (∀ a b, R a b → S a b) → sim S r s.
Proof. destruct r, s; simpl; auto. Qed.

Lemma sim_wp {A B} (R : A → B → Prop) r s (Q : B → Prop) : sim R r s → wp s Q → wp r (λ a, ∃ b, R a b ∧ Q b).
Proof. destruct r, s; simpl; try done. eauto. Qed.

(** ** Machine integers *)

Definition wrap_u (w x : Z) : Z := x mod 2 ^ w.
Definition wrap_s (w x : Z) : Z := (x + 2 ^ (w - 1)) mod 2 ^ w - 2 ^ (w - 1).

(** [md_addr_t] and [uint64_t] (an LP64 build), [int], [short], [char]. *)
Definition u64 (x : Z) : Z := wrap_u 64 x.
Definition u32 (x : Z) : Z := wrap_u 32 x.
Definition u8 (x : Z) : Z := wrap_u 8 x.
Definition i64 (x : Z) : Z := wrap_s 64 x.
Definition i32 (x : Z) : Z := wrap_s 32 x.
Definition i16 (x : Z) : Z := wrap_s 16 x.
Definition i8 (x : Z) : Z := wrap_s 8 x.

Lemma wrap_u_range w x : 0 ≤ w → 0 ≤ wrap_u w x < 2 ^ w.
Proof. intros. apply Z.mod_pos_bound. by apply Z.pow_pos_nonneg. Qed.

Lemma wrap_u_small w x : 0 ≤ x < 2 ^ w → wrap_u w x = x.
Proof. apply Z.mod_small. Qed.

Lemma wrap_s_small w x :
  0 < w → - 2 ^ (w - 1) ≤ x < 2 ^ (w - 1) → wrap_s w x = x.
Proof.
  intros Hw Hx. unfold wrap_s.
  assert (2 ^ w = 2 * 2 ^ (w - 1)) as E.
  { rewrite <- Z.pow_succ_r by lia. f_equal. lia. }
  rewrite Z.mod_small; lia.
Qed.

Lemma wrap_s_range w x : 0 < w → - 2 ^ (w - 1) ≤ wrap_s w x < 2 ^ (w - 1).
Proof.
  intros Hw. unfold wrap_s.
  assert (2 ^ w = 2 * 2 ^ (w - 1)) as E.
  { rewrite <- Z.pow_succ_r by lia. f_equal. lia. }
  pose proof (Z.mod_pos_bound (x + 2 ^ (w - 1)) (2 ^ w)) as H.
  assert (0 < 2 ^ (w - 1)) by (apply Z.pow_pos_nonneg; lia). lia.
Qed.

(** The low [w] bits of a value survive a signed wrap to [w] bits. *)
Lemma wrap_s_mod w x : 0 < w → wrap_s w x mod 2 ^ w = x mod 2 ^ w.
Proof.
  intros Hw. unfold wrap_s.
  assert (0 < 2 ^ w) by (apply Z.pow_pos_nonneg; lia).
  rewrite Zminus_mod_idemp_l. f_equal. lia.
Qed.

Lemma i32_small x : - 2 ^ 31 ≤ x < 2 ^ 31 → i32 x = x.
Proof. intros. apply (wrap_s_small 32); lia. Qed.

Lemma i16_small x : - 2 ^ 15 ≤ x < 2 ^ 15 → i16 x = x.
Proof. intros. apply (wrap_s_small 16); lia. Qed.

Lemma i8_small x : - 2 ^ 7 ≤ x < 2 ^ 7 → i8 x = x.
Proof. intros. apply (wrap_s_small 8); lia. Qed.

Lemma u64_small x : 0 ≤ x < 2 ^ 64 → u64 x = x.
Proof. apply (wrap_u_small 64). Qed.

Lemma u8_small x : 0 ≤ x < 2 ^ 8 → u8 x = x.
Proof. apply (wrap_u_small 8). Qed.

Lemma u64_range x : 0 ≤ u64 x < 2 ^ 64.
Proof. by apply (wrap_u_range 64). Qed.

Lemma i32_range x : - 2 ^ 31 ≤ i32 x < 2 ^ 31.
Proof. by apply (wrap_s_range 32). Qed.

(** ** Masks and powers of two *)

(** [IS_POW2] and the argument checks of valcheck.h. *)
Definition is_pow2 (x : Z) : bool := Z.land (x - 1) x =? 0.
Definition check_ppow2 (x : Z) : bool := is_pow2 x && (1 <=? x).

Lemma check_ppow2_spec x : check_ppow2 x = true → ∃ k, 0 ≤ k ∧ x = 2 ^ k.
Proof.
  unfold check_ppow2, is_pow2. intros [H1 H2]%andb_true_iff.
  apply Z.eqb_eq in H1. apply Z.leb_le in H2.
  pose proof (Z.log2_spec x ltac:(lia)) as [Hlo Hhi].
  pose proof (Z.log2_nonneg x) as Hk. exists (Z.log2 x). split; [done|].
  destruct (decide (x = 2 ^ Z.log2 x)) as [|Hne]; [done|exfalso].
  assert (Z.log2 (x - 1) = Z.log2 x) as E.
  { apply Z.log2_unique; [done|]. lia. }
  assert (0 < 2 ^ Z.log2 x) by (apply Z.pow_pos_nonneg; lia).
  assert (Z.testbit (Z.land (x - 1) x) (Z.log2 x) = true) as Hb.
  { rewrite Z.land_spec. apply andb_true_iff. split; [|apply Z.bit_log2; lia].
    rewrite <- E at 1. apply Z.bit_log2. lia. }
  rewrite H1, Z.bits_0 in Hb. done.
Qed.

Lemma check_ppow2_pos x : check_ppow2 x = true → 1 ≤ x.
Proof. unfold check_ppow2. intros [_ H]%andb_true_iff. lia. Qed.

Lemma land_bound x m : 0 ≤ m → 0 ≤ Z.land x m ≤ m.
Proof.
  intros Hm. split; [apply Z.land_nonneg; lia|].
  assert (m - Z.land x m = Z.ldiff m (Z.land x m)) as E.
  { apply Z.sub_nocarry_ldiff. apply Z.bits_inj'. intros n _.
    rewrite Z.ldiff_spec, Z.land_spec, Z.bits_0.
    by destruct (Z.testbit x n), (Z.testbit m n). }
  assert (0 ≤ Z.ldiff m (Z.land x m)) by (apply Z.ldiff_nonneg; lia). lia.
Qed.

(** An index masked with [size - 1] is inside a table of [size] entries. *)
Lemma land_mask_range x n : 1 ≤ n → 0 ≤ Z.land x (n - 1) < n.
Proof. intros. pose proof (land_bound x (n - 1)). lia. Qed.

Lemma shiftl_1_l k : 0 ≤ k → Z.shiftl 1 k = 2 ^ k.
Proof. intros. by rewrite Z.shiftl_mul_pow2, Z.mul_1_l. Qed.

Lemma land_pow2_mask x k : 0 ≤ k → Z.land x (2 ^ k - 1) = x mod 2 ^ k.
Proof. intros. by rewrite <- Z.land_ones, Z.ones_equiv. Qed.

(** [(h << 1) | b] on a nonnegative history. *)
Lemma lor_shiftl_bit h (b : bool) : Z.lor (Z.shiftl h 1) (Z.b2z b) = 2 * h + Z.b2z b.
Proof.
  rewrite Z.shiftl_mul_pow2 by lia. change (2 ^ 1) with 2.
  rewrite <- Z.lxor_lor, <- Z.add_nocarry_lxor; [lia| |];
  apply Z.bits_inj'; intros n Hn; rewrite Z.land_spec, Z.bits_0;
  rewrite (Z.mul_comm h 2);
  (destruct (decide (n = 0)) as [->|];
    [by rewrite Z.testbit_even_0
    | replace (Z.testbit (Z.b2z b) n) with false by (by destruct b, n); by rewrite andb_false_r]).
Qed.

Lemma testbit_above v n i : 0 ≤ v < 2 ^ n → 0 ≤ n ≤ i → Z.testbit v i = false.
Proof.
  intros Hv Hi. rewrite <- (Z.mod_small v (2 ^ n)) by done.
  apply Z.mod_pow2_bits_high. lia.
Qed.

Lemma testbit_pow2 k i : 0 ≤ k → Z.testbit (2 ^ k) i = (i =? k).
Proof. intros. rewrite Z.pow2_bits_eqb by done. apply Z.eqb_sym. Qed.

(** ** Pointers *)

(** A pointer into an array is the index it points at; [None] is the null pointer. *)
Definition deref (p : option Z) : result Z := of_option NullDeref p.

(** ** C arrays *)

Definition aget {A} (l : list A) (i : Z) : result A :=
  if i <? 0 then Fault OutOfBounds else of_option OutOfBounds (l !! Z.to_nat i).

Definition aset {A} (l : list A) (i : Z) (x : A) : result (list A) :=
  if (0 <=? i) && (i <? Z.of_nat (length l)) then Ok (<[Z.to_nat i := x]> l)
  else Fault OutOfBounds.

Section arrays.
Context {A : Type}.
Implicit Types (l : list A) (P : A → Prop).

Lemma aget_ok l i : 0 ≤ i < Z.of_nat (length l) →
    ∃ x, l !! Z.to_nat i = Some x ∧ aget l i = Ok x.
Proof.
    intros Hi. unfold aget. destruct (Z.ltb_spec i 0); [lia|].
    destruct (l !! Z.to_nat i) as [x|] eqn:E; [by exists x|].
    apply lookup_ge_None in E. lia.
  Qed.

Lemma aget_inv l i x : aget l i = Ok x →
    0 ≤ i < Z.of_nat (length l) ∧ l !! Z.to_nat i = Some x.
Proof.
    unfold aget. destruct (Z.ltb_spec i 0); [done|].
    destruct (l !! Z.to_nat i) as [y|] eqn:E; simpl; [|done].
    intros [= ->]. apply lookup_lt_Some in E as ?. split; [lia|done].
  Qed.

Lemma aset_ok l i x : 0 ≤ i < Z.of_nat (length l) →
    aset l i x = Ok (<[Z.to_nat i := x]> l).
Proof.
    intros Hi. unfold aset.
    by rewrite (proj2 (Z.leb_le 0 i)), (proj2 (Z.ltb_lt _ _)) by lia.
  Qed.

Lemma aset_inv l i x l' : aset l i x = Ok l' →
    0 ≤ i < Z.of_nat (length l) ∧ l' = <[Z.to_nat i := x]> l.
Proof.
    unfold aset. destruct (Z.leb_spec 0 i), (Z.ltb_spec i (Z.of_nat (length l)));
      simpl; intros H'; try done. injection H' as <-. split; [lia|done].
  Qed.

Lemma aset_fault l i x : ¬ 0 ≤ i < Z.of_nat (length l) → aset l i x = Fault OutOfBounds.
Proof.
    intros. unfold aset.
    destruct (Z.leb_spec 0 i), (Z.ltb_spec i (Z.of_nat (length l))); simpl; try done. lia.
  Qed.

Lemma wp_aget l i (Q : A → Prop) :
    0 ≤ i < Z.of_nat (length l) →
    (∀ x, l !! Z.to_nat i = Some x → Q x) → wp (aget l i) Q.
Proof. intros Hi HQ. destruct (aget_ok l i Hi) as (x & Hx & ->). simpl. auto. Qed.

  (** The form the safety proofs use: an invariant of the elements. *)
Lemma wp_aget_Forall P l i (Q : A → Prop) :
    Forall P l → 0 ≤ i < Z.of_nat (length l) →
    (∀ x, l !! Z.to_nat i = Some x → P x → Q x) → wp (aget l i) Q.
Proof.
    intros HP Hi HQ. apply wp_aget; [done|]. intros x Hx.
    apply HQ; [done|]. by eapply Forall_lookup_1.
  Qed.

Lemma wp_aset l i x (Q : list A → Prop) :
    0 ≤ i < Z.of_nat (length l) → Q (<[Z.to_nat i := x]> l) → wp (aset l i x) Q.
Proof. intros Hi HQ. by rewrite aset_ok. Qed.

Lemma aget_aset_eq l i x l' : aset l i x = Ok l' → aget l' i = Ok x.
Proof.
    intros [Hi ->]%aset_inv. unfold aget. destruct (Z.ltb_spec i 0); [lia|].
    rewrite list_lookup_insert_eq by lia. done.
  Qed.

Lemma aget_aset_ne l i j x l' :
    aset l i x = Ok l' → i ≠ j → aget l' j = aget l j.
Proof.
    intros [Hi ->]%aset_inv Hij. unfold aget. destruct (Z.ltb_spec j 0); [done|].
    rewrite list_lookup_insert_ne by lia. done.
  Qed.

Lemma length_aset l i x l' : aset l i x = Ok l' → length l' = length l.
Proof. intros [_ ->]%aset_inv. apply length_insert. Qed.

Lemma Forall_aset P l i x l' :
    aset l i x = Ok l' → Forall P l → P x → Forall P l'.
Proof. intros [_ ->]%aset_inv ??. by apply Forall_insert. Qed.
End arrays.

Lemma aget_lookup {A} (l : list A) i x : 0 ≤ i → l !! Z.to_nat i = Some x → aget l i = Ok x.
Proof. intros Hi E. unfold aget. rewrite (proj2 (Z.ltb_ge i 0)) by done. by rewrite E. Qed.

Lemma aset_lookup {A} (l : list A) i x y : 0 ≤ i → l !! Z.to_nat i = Some x → aset l i y = Ok (<[Z.to_nat i := y]> l).
Proof. intros Hi E. apply aset_ok. apply lookup_lt_Some in E. lia. Qed.

(** Two-dimensional arrays ([x[i][j]]), allocated row by row. *)
Definition aget2 {A} (l : list (list A)) (i j : Z) : result A :=
  let* row := aget l i in aget row j.

Definition aset2 {A} (l : list (list A)) (i j : Z) (x : A) : result (list (list A)) :=
  let* row := aget l i in let* row' := aset row j x in aset l i row'.

Definition row_ok {A} (n : Z) (P : A → Prop) (row : list A) : Prop :=
  Z.of_nat (length row) = n ∧ Forall P row.

Lemma row_ok_replicate {A} n (P : A → Prop) x :
  0 ≤ n → P x → row_ok n P (replicate (Z.to_nat n) x).
Proof. intros. split; [rewrite length_replicate; lia|by apply Forall_replicate]. Qed.

Lemma row_ok_insert {A} n (P : A → Prop) l i x :
  row_ok n P l → P x → row_ok n P (<[i := x]> l).
Proof. intros [? ?] ?. split; [by rewrite length_insert|by apply Forall_insert]. Qed.

(** Read-modify-write of one element, [a[i] = f(a[i])]. *)
Definition amodify {A} (l : list A) (i : Z) (f : A → A) : result (list A) :=
  let* x := aget l i in aset l i (f x).

Section rows.
Context {A : Type} (n : Z) (P : A → Prop).

Lemma wp_aget_row l i (Q : A → Prop) : row_ok n P l → 0 ≤ i < n →
  (∀ x, P x → Q x) → wp (aget l i) Q.
Proof.
  intros [Hn HP] Hi HQ. apply (wp_aget_Forall P); [done|lia|]. auto.
Qed.

Lemma wp_aset_row l i x (Q : list A → Prop) : row_ok n P l → 0 ≤ i < n → P x →
  (∀ l', row_ok n P l' → Q l') → wp (aset l i x) Q.
Proof.
  intros Hl Hi Hx HQ. apply wp_aset; [destruct Hl; lia|]. by apply HQ, row_ok_insert.
Qed.

Lemma wp_amodify_row l i f (Q : list A → Prop) : row_ok n P l → 0 ≤ i < n →
  (∀ x, P x → P (f x)) → (∀ l', row_ok n P l' → Q l') → wp (amodify l i f) Q.
Proof.
  intros Hl Hi Hf HQ. apply wp_bind, wp_aget_row; [done..|]. intros x Hx.
  apply wp_aset_row; auto.
Qed.
End rows.

Section arrays2.
Context {A : Type}.
Implicit Types (l : list (list A)) (P : A → Prop).

Lemma wp_aget2 P n l i j (Q : A → Prop) :
  Forall (row_ok n P) l → 0 ≤ i < Z.of_nat (length l) → 0 ≤ j < n →
  (∀ x, aget2 l i j = Ok x → P x → Q x) → wp (aget2 l i j) Q.
Proof.
  intros Hl Hi Hj HQ. unfold aget2 in *. destruct (aget_ok l i Hi) as (row & Hr & E).
  rewrite E in *. simpl in *. pose proof (Forall_lookup_1 _ _ _ _ Hl Hr) as [Hn HP].
  destruct (aget_ok row j ltac:(lia)) as (x & Hx & Ex). rewrite Ex in *. simpl.
  apply HQ; [done|]. by eapply Forall_lookup_1.
Qed.

Lemma wp_aset2 P n l i j x (Q : list (list A) → Prop) :
  Forall (row_ok n P) l → 0 ≤ i < Z.of_nat (length l) → 0 ≤ j < n → P x →
  (∀ l', aset2 l i j x = Ok l' → length l' = length l → Forall (row_ok n P) l' → Q l') →
  wp (aset2 l i j x) Q.
Proof.
  intros Hl Hi Hj Hx HQ. unfold aset2 in *. destruct (aget_ok l i Hi) as (row & Hr & E).
  rewrite E in *. simpl in *. pose proof (Forall_lookup_1 _ _ _ _ Hl Hr) as [Hn HP].
  rewrite aset_ok in * by lia. simpl in *. rewrite aset_ok in * by lia. simpl in *.
  apply HQ; [done|by rewrite length_insert|]. apply Forall_insert; [done|].
  split; [by rewrite length_insert|by apply Forall_insert].
Qed.

Lemma aget2_aset2_eq l i j x l' : aset2 l i j x = Ok l' → aget2 l' i j = Ok x.
Proof.
  unfold aset2, aget2. intros H. apply bind_Ok_inv in H as (row & E & H).
  apply bind_Ok_inv in H as (row' & E' & H). rewrite (aget_aset_eq _ _ _ _ H). simpl.
  by eapply aget_aset_eq.
Qed.

Lemma aget2_aset2_ne l i j i' j' x l' : aset2 l i j x = Ok l' → (i, j) ≠ (i', j') →
  aget2 l' i' j' = aget2 l i' j'.
Proof.
  unfold aset2, aget2. intros H Hne. apply bind_Ok_inv in H as (row & E & H).
  apply bind_Ok_inv in H as (row' & E' & H). destruct (decide (i = i')) as [<-|].
  - rewrite (aget_aset_eq _ _ _ _ H), E. simpl. eapply aget_aset_ne; [done|congruence].
  - by rewrite (aget_aset_ne _ _ _ _ _ H).
Qed.

Lemma length_aset2 l i j x l' : aset2 l i j x = Ok l' → length l' = length l.
Proof.
  unfold aset2. intros H. apply bind_Ok_inv in H as (row & E & H).
  apply bind_Ok_inv in H as (row' & E' & H). by eapply length_aset.
Qed.
End arrays2.

(** Ragged arrays: the predicate on a row depends on its number. *)
Definition rows_ok {A} (R : nat → list A → Prop) (l : list (list A)) : Prop :=
  ∀ i row, l !! i = Some row → R i row.

Lemma rows_ok_insert {A} (R : nat → list A → Prop) l i row :
  rows_ok R l → R i row → rows_ok R (<[i := row]> l).
Proof.
  intros Hl HR j r Hj. destruct (decide (i = j)) as [<-|Hne].
  - destruct (decide (i < length l)%nat).
    + rewrite list_lookup_insert_eq in Hj by done. by injection Hj as <-.
    + rewrite list_insert_ge in Hj by lia. by apply Hl.
  - rewrite list_lookup_insert_ne in Hj by done. by apply Hl.
Qed.

(** Read-modify-write of one cell, [x[i][j] = f(x[i][j])]. *)
Definition amodify2 {A} (l : list (list A)) (i j : Z) (f : A → A) : result (list (list A)) :=
  let* e := aget2 l i j in aset2 l i j (f e).

Section ragged.
Context {A : Type}.
Variable n : nat → Z.
Variable P : nat → A → Prop.

(** Row [i] has [n i] entries that satisfy [P i]. *)
Definition ragged (l : list (list A)) : Prop := rows_ok (λ i, row_ok (n i) (P i)) l.

Lemma wp_aget2_ragged l i j (Q : A → Prop) :
  ragged l → 0 ≤ i < Z.of_nat (length l) → 0 ≤ j < n (Z.to_nat i) →
  (∀ x, aget2 l i j = Ok x → P (Z.to_nat i) x → Q x) → wp (aget2 l i j) Q.
Proof.
  intros Hl Hi Hj HQ. unfold aget2 in *. destruct (aget_ok l i Hi) as (row & Hr & E).
  rewrite E in *. simpl in *. pose proof (Hl _ _ Hr) as [Hn HP].
  destruct (aget_ok row j ltac:(lia)) as (x & Hx & Ex). rewrite Ex in *. simpl.
  apply HQ; [done|]. by eapply Forall_lookup_1.
Qed.

Lemma wp_aset2_ragged l i j x (Q : list (list A) → Prop) :
  ragged l → 0 ≤ i < Z.of_nat (length l) → 0 ≤ j < n (Z.to_nat i) → P (Z.to_nat i) x →
  (∀ l', length l' = length l → ragged l' → Q l') → wp (aset2 l i j x) Q.
Proof.
  intros Hl Hi Hj Hx HQ. unfold aset2. destruct (aget_ok l i Hi) as (row & Hr & E).
  rewrite E. simpl. pose proof (Hl _ _ Hr) as [Hn HP].
  rewrite aset_ok by lia. simpl. rewrite aset_ok by lia. simpl.
  apply HQ; [by rewrite length_insert|]. apply rows_ok_insert; [done|].
  by apply row_ok_insert.
Qed.

Lemma wp_amodify2_ragged l i j f (Q : list (list A) → Prop) :
  ragged l → 0 ≤ i < Z.of_nat (length l) → 0 ≤ j < n (Z.to_nat i) →
  (∀ x, P (Z.to_nat i) x → P (Z.to_nat i) (f x)) →
  (∀ l', length l' = length l → ragged l' → Q l') → wp (amodify2 l i j f) Q.
Proof.
  intros Hl Hi Hj Hf HQ. apply wp_bind, wp_aget2_ragged; [done..|].
  intros x _ Hx. apply wp_aset2_ragged; auto.
Qed.
End ragged.

Lemma single_insert {A} (l : list A) i x : length l = 1%nat → 0 ≤ i < Z.of_nat (length l) →
  <[Z.to_nat i := x]> l = [x].
Proof.
  destruct l as [|y [|]]; try done. simpl. intros _ ?. by replace i with 0 by lia.
Qed.

Lemma single_lookup {A} (l : list A) i x d : length l = 1%nat → l !! Z.to_nat i = Some x →
  default d (head l) = x.
Proof.
  destruct l as [|y [|]]; try done. simpl. intros _. by destruct (Z.to_nat i); intros [=].
Qed.

(** ** Loops *)

(** [for (i = lo; i < lo + n; i++) a = f i a] *)
Fixpoint for_loop {A} (n : nat) (lo : Z) (f : Z → A → result A) (a : A) : result A :=
  match n with
  | O => Ok a
  | S n => let* a' := f lo a in for_loop n (lo + 1) f a'
  end.

(** [for (i = lo; i < hi; i++) a = f i a] *)
Definition for_range {A} (lo hi : Z) (f : Z → A → result A) (a : A) : result A :=
  for_loop (Z.to_nat (hi - lo)) lo f a.

(** [for (i = lo; i < lo + n; i++) if (p i) break;]: the index of the [break]. *)
Fixpoint find_loop (n : nat) (lo : Z) (p : Z → result bool) : result (option Z) :=
  match n with
  | O => Ok None
  | S n => let* b := p lo in if b then Ok (Some lo) else find_loop n (lo + 1) p
  end.

Definition find_range (lo hi : Z) (p : Z → result bool) : result (option Z) :=
  find_loop (Z.to_nat (hi - lo)) lo p.

(** [for (i = hi; i > lo; i--) if (p i) break;] *)
Fixpoint find_down_loop (n : nat) (hi : Z) (p : Z → result bool) : result (option Z) :=
  match n with
  | O => Ok None
  | S n => let* b := p hi in if b then Ok (Some hi) else find_down_loop n (hi - 1) p
  end.

Definition find_down (hi lo : Z) (p : Z → result bool) : result (option Z) :=
  find_down_loop (Z.to_nat (hi - lo)) hi p.

Lemma wp_for_loop {A} (I : Z → A → Prop) n lo f (a : A) :
  I lo a →
  (∀ i b, lo ≤ i < lo + Z.of_nat n → I i b → wp (f i b) (I (i + 1))) →
  wp (for_loop n lo f a) (I (lo + Z.of_nat n)).
Proof.
  revert lo a. induction n as [|n IH]; intros lo a H0 Hf; simpl.
  { rewrite Z.add_0_r. done. }
  apply wp_bind. eapply wp_mono; [apply Hf; [lia|done]|]. intros b Hb.
  replace (lo + Z.of_nat (S n)) with (lo + 1 + Z.of_nat n) by lia.
  apply IH; [done|]. intros i c Hi. apply Hf. lia.
Qed.

(** The loop rule: [I i] is the invariant before the iteration of [i]. *)
Lemma wp_for_range {A} (I : Z → A → Prop) lo hi f (a : A) (Q : A → Prop) :
  lo ≤ hi → I lo a →
  (∀ i b, lo ≤ i < hi → I i b → wp (f i b) (I (i + 1))) →
  (∀ b, I hi b → Q b) →
  wp (for_range lo hi f a) Q.
Proof.
  intros Hle H0 Hf HQ. unfold for_range. eapply wp_mono.
  - apply (wp_for_loop I); [done|]. intros i b Hi. apply Hf. lia.
  - intros b Hb. apply HQ. by replace hi with (lo + Z.of_nat (Z.to_nat (hi - lo))) by lia.
Qed.

(** A loop that rewrites the cells [lo + d .. hi + d - 1] of an array one by one. *)
Lemma wp_for_cells {A} (f : Z → A → A) lo hi d (l : list A) (Q : list A → Prop) :
  lo ≤ hi → 0 ≤ lo + d → hi + d ≤ Z.of_nat (length l) →
  (∀ l', length l' = length l →
     (∀ j : nat, l' !! j = if decide (lo + d ≤ Z.of_nat j < hi + d)
                           then f (Z.of_nat j - d) <$> l !! j else l !! j) → Q l') →
  wp (for_range lo hi (λ i l, let* x := aget l (i + d) in aset l (i + d) (f i x)) l) Q.
Proof.
  intros Hle Hlo Hhi HQ.
  apply (wp_for_range (λ i l', length l' = length l ∧
     ∀ j : nat, l' !! j = if decide (lo + d ≤ Z.of_nat j < i + d)
                          then f (Z.of_nat j - d) <$> l !! j else l !! j)); [done| | |].
  - split; [done|]. intros j. by rewrite decide_False by lia.
  - intros i l' Hi [Hl Hj]. apply wp_bind, wp_aget; [lia|]. intros x Hx.
    rewrite Hj, decide_False in Hx by lia. apply wp_aset; [lia|].
    split; [by rewrite length_insert|]. intros j.
    destruct (decide (j = Z.to_nat (i + d))) as [->|Hne].
    + rewrite list_lookup_insert_eq by lia. rewrite decide_True by lia. rewrite Hx. simpl.
      do 2 f_equal. lia.
    + rewrite list_lookup_insert_ne by done. rewrite Hj.
      destruct (decide (lo + d ≤ Z.of_nat j < i + d)), (decide (lo + d ≤ Z.of_nat j < i + 1 + d));
        (done || lia).
  - intros b [Hl Hj]. by apply HQ.
Qed.

Lemma wp_find_loop n lo p (Q : option Z → Prop) :
  (∀ i, lo ≤ i < lo + Z.of_nat n → wp (p i) (λ _, True)) →
  (∀ i, lo ≤ i < lo + Z.of_nat n → p i = Ok true →
        (∀ j, lo ≤ j < i → p j = Ok false) → Q (Some i)) →
  ((∀ j, lo ≤ j < lo + Z.of_nat n → p j = Ok false) → Q None) →
  wp (find_loop n lo p) Q.
Proof.
  revert lo Q. induction n as [|n IH]; intros lo Q Hp HS HN; simpl.
  { apply HN. lia. }
  assert (wp (p lo) (λ _, True)) as Hlo by (apply Hp; lia).
  destruct (p lo) as [[|]|e] eqn:E; simpl in *; [| |done].
  { apply HS; [lia|done|lia]. }
  apply IH.
  - intros i Hi. apply Hp. lia.
  - intros i Hi Hpi Hj. apply HS; [lia|done|]. intros j ?.
    destruct (decide (j = lo)) as [->|]; [done|]. apply Hj. lia.
  - intros Hj. apply HN. intros j ?.
    destruct (decide (j = lo)) as [->|]; [done|]. apply Hj. lia.
Qed.

Lemma wp_find_range lo hi p (Q : option Z → Prop) :
  lo ≤ hi →
  (∀ i, lo ≤ i < hi → wp (p i) (λ _, True)) →
  (∀ i, lo ≤ i < hi → p i = Ok true → (∀ j, lo ≤ j < i → p j = Ok false) → Q (Some i)) →
  ((∀ j, lo ≤ j < hi → p j = Ok false) → Q None) →
  wp (find_range lo hi p) Q.
Proof.
  intros Hle Hp HS HN. unfold find_range.
  apply wp_find_loop.
  - intros i Hi. apply Hp. lia.
  - intros i Hi. apply HS. lia.
  - intros Hj. apply HN. intros j ?. apply Hj. lia.
Qed.

Lemma wp_find_down_loop n hi p (Q : option Z → Prop) :
  (∀ i, hi - Z.of_nat n < i ≤ hi → wp (p i) (λ _, True)) →
  (∀ i, hi - Z.of_nat n < i ≤ hi → p i = Ok true →
        (∀ j, i < j ≤ hi → p j = Ok false) → Q (Some i)) →
  ((∀ j, hi - Z.of_nat n < j ≤ hi → p j = Ok false) → Q None) →
  wp (find_down_loop n hi p) Q.
Proof.
  revert hi Q. induction n as [|n IH]; intros hi Q Hp HS HN; simpl.
  { apply HN. lia. }
  assert (wp (p hi) (λ _, True)) as Hhi by (apply Hp; lia).
  destruct (p hi) as [[|]|e] eqn:E; simpl in *; [| |done].
  { apply HS; [lia|done|lia]. }
  apply IH.
  - intros i Hi. apply Hp. lia.
  - intros i Hi Hpi Hj. apply HS; [lia|done|]. intros j ?.
    destruct (decide (j = hi)) as [->|]; [done|]. apply Hj. lia.
  - intros Hj. apply HN. intros j ?.
    destruct (decide (j = hi)) as [->|]; [done|]. apply Hj. lia.
Qed.

Lemma wp_find_down hi lo p (Q : option Z → Prop) :
  lo ≤ hi →
  (∀ i, lo < i ≤ hi → wp (p i) (λ _, True)) →
  (∀ i, lo < i ≤ hi → p i = Ok true → (∀ j, i < j ≤ hi → p j = Ok false) → Q (Some i)) →
  ((∀ j, lo < j ≤ hi → p j = Ok false) → Q None) →
  wp (find_down hi lo p) Q.
Proof.
  intros Hle Hp HS HN. unfold find_down.
  apply wp_find_down_loop.
  - intros i Hi. apply Hp. lia.
  - intros i Hi. apply HS. lia.
  - intros Hj. apply HN. intros j ?. apply Hj. lia.
Qed.

(** ** Automation *)

Create HintDb xio.
Create Rewrite HintDb xio_len.
#[export] Hint Rewrite @length_insert @length_replicate : xio_len.

(** Run the bind structure of an operation: side conditions are left to the caller. *)
Ltac wp_step :=
  lazymatch goal with
  | |- wp (rbind _ _) _ => apply wp_bind
  | |- wp (Ok _) _ => apply wp_ret
  | |- wp (guard_or _ _) _ => apply wp_guard
  | |- wp (if ?b then _ else _) _ => destruct b eqn:?
  | |- wp (let '(_, _) := ?p in _) _ => destruct p eqn:?
  end; simpl.

(** Take apart a hypothesis [op = Ok v] of an operation built from binds. *)
Ltac inv_ok :=
  repeat match goal with
  | H : (rbind _ _) = Ok _ |- _ => apply bind_Ok_inv in H as (? & ? & H)
  | H : Ok _ = Ok _ |- _ => injection H as H; subst
  | H : Fault _ = Ok _ |- _ => discriminate H
  | H : (if ?b then _ else _) = Ok _ |- _ => destruct b eqn:?
  | H : guard_or ?b _ = Ok _ |- _ => unfold guard_or in H; destruct b eqn:?
  | H : (let '(_, _) := ?p in _) = Ok _ |- _ => destruct p eqn:?
  | H : (_, _) = (_, _) |- _ => injection H as H; subst
  end.

(** One array access: the bound is left to [lia], an invariant of the elements
    ([Forall P l] among the hypotheses) is passed on to the value read. *)
Ltac wp_array :=
  lazymatch goal with
  | |- wp (aget ?l ?i) _ =>
      first
        [ match goal with H : Forall ?P l |- _ =>
            apply (wp_aget_Forall P _ _ _ H); [try lia | intros ? ? ?] end
        | apply wp_aget; [try lia | intros ? ?] ]
  | |- wp (aset _ _ _) _ =>
      apply wp_aset; [rewrite ?length_insert; try lia|]
  end; simpl.

Ltac wp_go := repeat first [wp_array | wp_step].

(** Reads and writes that succeeded, as facts about the list. *)
Ltac inv_arrays :=
  repeat match goal with
  | H : aget _ _ = Ok _ |- _ => apply aget_inv in H as [? ?]
  | H : aset _ _ _ = Ok _ |- _ => apply aset_inv in H as [? ->]
  end.
