(* ===== verification/SatCounter.v ===== *)
(** * SatCounter: the two-bit saturating counters of src/xiosim/2bitc.h

    A counter is an [unsigned char] whose bit 0 is the predicted direction and
    whose bit 1 is the hysteresis bit; its transitions are the packed tables of
    the header, looked up by shifts.  The theorems relate the tables to the
    intended saturating counter on [0..3] (strongly not taken ... strongly
    taken). *)

From S2P Require Import Prelude.

(** Source: src/xiosim/2bitc.h:4-4 my2bc_t. *)
Definition my2bc_t : Type := Z.

(** Source: src/xiosim/2bitc.h:6-6 _2BC_TABLE. *)
Definition _2BC_TABLE : Z := 0xD4E8.

(** Source: src/xiosim/2bitc.h:49-49 _2BC_CINC_TABLE. *)
Definition _2BC_CINC_TABLE : Z := 0xF6D8.

(** Source: src/xiosim/2bitc.h:50-50 _2BC_CDEC_TABLE. *)
Definition _2BC_CDEC_TABLE : Z := 0x7290.

(** Source: src/xiosim/2bitc.h:55-55 MY2BC_STRONG_TAKEN. *)
Definition MY2BC_STRONG_TAKEN : my2bc_t := 3.

(** Source: src/xiosim/2bitc.h:56-56 MY2BC_WEAKLY_TAKEN. *)
Definition MY2BC_WEAKLY_TAKEN : my2bc_t := 1.

(** Source: src/xiosim/2bitc.h:57-57 MY2BC_WEAKLY_NT. *)
Definition MY2BC_WEAKLY_NT : my2bc_t := 2.

(** Source: src/xiosim/2bitc.h:58-58 MY2BC_STRONG_NT. *)
Definition MY2BC_STRONG_NT : my2bc_t := 0.

(** Source: src/xiosim/2bitc.h:9-9 MY2BC_DIR. *)
Definition MY2BC_DIR (ctr : my2bc_t) : Z := Z.land ctr 1.

(** The value of [MY2BC_DIR] converted to [bool]. *)
Definition dir_of (ctr : my2bc_t) : bool := negb (MY2BC_DIR ctr =? 0).

(** Source: src/xiosim/2bitc.h:12-12 MY2BC_UPDATE. *)
Definition MY2BC_UPDATE (ctr : my2bc_t) (dir : bool) : my2bc_t :=
  u8 (Z.land (Z.shiftr _2BC_TABLE (Z.shiftl (Z.shiftl ctr 1 + Z.b2z dir) 1)) 3).

(** Source: src/xiosim/2bitc.h:52-52 MY2BC_COND_INC. *)
Definition MY2BC_COND_INC (ctr : my2bc_t) (p : bool) : my2bc_t :=
  u8 (Z.land (Z.shiftr _2BC_CINC_TABLE (Z.shiftl (Z.shiftl ctr 1 + Z.b2z p) 1)) 3).

(** Source: src/xiosim/2bitc.h:53-53 MY2BC_COND_DEC. *)
Definition MY2BC_COND_DEC (ctr : my2bc_t) (p : bool) : my2bc_t :=
  u8 (Z.land (Z.shiftr _2BC_CDEC_TABLE (Z.shiftl (Z.shiftl ctr 1 + Z.b2z p) 1)) 3).

(** The initial value of most tables, [(i & 1) ? weakly taken : weakly not taken]. *)
Definition weak_init (i : Z) : my2bc_t :=
  if Z.land i 1 =? 0 then MY2BC_WEAKLY_NT else MY2BC_WEAKLY_TAKEN.

(** A value that fits the counter's two bits. *)
Definition ctr_ok (c : my2bc_t) : Prop := 0 ≤ c < 4.

(** ** The abstract counter: strongly NT < weakly NT < weakly T < strongly T *)

Definition level (c : my2bc_t) : Z :=
  match c with 0 => 0 | 2 => 1 | 1 => 2 | _ => 3 end.

Definition sat_inc (x : Z) : Z := Z.min 3 (x + 1).
Definition sat_dec (x : Z) : Z := Z.max 0 (x - 1).

Ltac case_ctr c H :=
  unfold ctr_ok in H;
  assert (c = 0 ∨ c = 1 ∨ c = 2 ∨ c = 3) as [-> | [-> | [-> | ->]]] by lia.

Lemma land_3_ok x : ctr_ok (u8 (Z.land x 3)).
Proof.
  pose proof (land_bound x 3 ltac:(lia)). unfold ctr_ok. rewrite u8_small; lia.
Qed.

Lemma MY2BC_UPDATE_ok c b : ctr_ok (MY2BC_UPDATE c b).
Proof. apply land_3_ok. Qed.

Lemma MY2BC_COND_INC_ok c b : ctr_ok (MY2BC_COND_INC c b).
Proof. apply land_3_ok. Qed.

Lemma MY2BC_COND_DEC_ok c b : ctr_ok (MY2BC_COND_DEC c b).
Proof. apply land_3_ok. Qed.

Lemma weak_init_ok i : ctr_ok (weak_init i).
Proof. unfold weak_init, ctr_ok. destruct (_ =? _); vm_compute; split; congruence. Qed.

(** A table of [n] counters initialised to the weak states. *)
Lemma weak_table_ok n : 0 ≤ n → row_ok n ctr_ok (weak_init <$> seqZ 0 n).
Proof.
  intros. split; [rewrite length_fmap, length_seqZ; lia|].
  apply Forall_fmap, Forall_true. intros. apply weak_init_ok.
Qed.

Lemma weak_states_ok : ctr_ok MY2BC_WEAKLY_NT ∧ ctr_ok MY2BC_WEAKLY_TAKEN ∧ ctr_ok 3 ∧ ctr_ok 0.
Proof. unfold ctr_ok, MY2BC_WEAKLY_NT, MY2BC_WEAKLY_TAKEN. lia. Qed.

#[export] Hint Resolve MY2BC_UPDATE_ok MY2BC_COND_INC_ok MY2BC_COND_DEC_ok weak_init_ok : xio.

Lemma level_update c b : ctr_ok c →
  level (MY2BC_UPDATE c b) = if b then sat_inc (level c) else sat_dec (level c).
Proof. intros H. by case_ctr c H; destruct b. Qed.

Lemma dir_level c : ctr_ok c → dir_of c = (2 <=? level c).
Proof. intros H. by case_ctr c H. Qed.

Lemma level_cond_inc c p : ctr_ok c →
  level (MY2BC_COND_INC c p) = if p then sat_inc (level c) else level c.
Proof. intros H. by case_ctr c H; destruct p. Qed.

Lemma level_cond_dec c p : ctr_ok c →
  level (MY2BC_COND_DEC c p) = if p then sat_dec (level c) else level c.
Proof. intros H. by case_ctr c H; destruct p. Qed.

(** C24. The packed tables of 2bitc.h implement the intended saturating counter:
    under the order strongly-not-taken, weakly-not-taken, weakly-taken,
    strongly-taken, [MY2BC_UPDATE] moves one step towards the outcome and
    saturates at both ends, the conditional forms move only when the predicate
    holds, and the direction bit says which half of the range the counter is in. *)
Theorem my2bc_tables_refine_saturating_counter (c : my2bc_t) (b : bool) :
  ctr_ok c →
  level (MY2BC_UPDATE c b) = (if b then sat_inc (level c) else sat_dec (level c)) ∧
  level (MY2BC_COND_INC c b) = (if b then sat_inc (level c) else level c) ∧
  level (MY2BC_COND_DEC c b) = (if b then sat_dec (level c) else level c) ∧
  dir_of c = (2 <=? level c) ∧
  ctr_ok (MY2BC_UPDATE c b) ∧ ctr_ok (MY2BC_COND_INC c b) ∧ ctr_ok (MY2BC_COND_DEC c b).
Proof.
  intros H. split_and!;
    auto using level_update, level_cond_inc, level_cond_dec, dir_level with xio.
Qed.

Lemma my2bc_tables_refine_saturating_counter_witness :
  ctr_ok 1 ∧ level (MY2BC_UPDATE 1 true) = 3.
Proof.
  assert (ctr_ok 1) as H by (split; lia). split; [exact H|].
  destruct (my2bc_tables_refine_saturating_counter 1 true H) as [E _]. exact E.
Defined.

(** Two outcomes in the same direction decide the prediction, whatever came before. *)
Lemma two_updates_decide c b : ctr_ok c →
  dir_of (MY2BC_UPDATE (MY2BC_UPDATE c b) b) = b.
Proof. intros H. by case_ctr c H; destruct b. Qed.
