(* ===== verification/Misc.v ===== *)
(** * Misc: the modular-index helpers of src/xiosim/misc.h, and circular buffers

    Circular buffers all over the simulator step their indices with [modinc]
    and [moddec].

    The queues of the simulator (prefetch requests, memory requests, reorder buffer,
    load and store queues) are arrays with a head, a tail and a count whose indices step
    with [modinc] and [moddec].  [window] is the abstract list of the entries in order;
    the lemmas say what pushes, pops, squashes and updates in place do to it. *)

From S2P Require Import Prelude.

(** Source: src/xiosim/misc.h:105-111 modinc. *)
Definition modinc (x m : Z) : Z :=
  let xinc := i32 (x + 1) in if xinc =? m then 0 else xinc.

(** Source: src/xiosim/misc.h:114-120 moddec. *)
Definition moddec (x m : Z) : Z :=
  let xdec := i32 (x - 1) in if x =? 0 then i32 (m - 1) else xdec.

(** Source: src/xiosim/misc.h:123-129 mod2m. *)
Definition mod2m (x m : Z) : Z := if m <=? x then i32 (x - m) else x.

Lemma modinc_range x m : 0 ≤ x < m → m < 2 ^ 31 → 0 ≤ modinc x m < m.
Proof.
  intros. unfold modinc. rewrite i32_small by lia. destruct (Z.eqb_spec (x + 1) m); lia.
Qed.

Lemma moddec_range x m : 0 ≤ x < m → m < 2 ^ 31 → 0 ≤ moddec x m < m.
Proof.
  intros. unfold moddec. rewrite !i32_small by lia. destruct (Z.eqb_spec x 0); lia.
Qed.

Lemma modinc_mod x m : 0 ≤ x < m → m < 2 ^ 31 → modinc x m = (x + 1) mod m.
Proof.
  intros. unfold modinc. rewrite i32_small by lia. destruct (Z.eqb_spec (x + 1) m) as [->|].
  - by rewrite Z.mod_same by lia.
  - by rewrite Z.mod_small by lia.
Qed.

Lemma moddec_mod x m : 0 ≤ x < m → m < 2 ^ 31 → moddec x m = (x - 1) mod m.
Proof.
  intros. unfold moddec. rewrite !i32_small by lia. destruct (Z.eqb_spec x 0) as [->|].
  - replace (0 - 1) with (m - 1 + (-1) * m) by lia. rewrite Z.mod_add, Z.mod_small; lia.
  - by rewrite Z.mod_small by lia.
Qed.

Lemma mod2m_mod x m : 0 ≤ x < 2 * m → m < 2 ^ 30 → mod2m x m = x mod m.
Proof.
  intros. unfold mod2m. destruct (Z.leb_spec m x).
  - rewrite i32_small by lia. replace x with (x - m + 1 * m) at 2 by lia.
    rewrite Z.mod_add, Z.mod_small; lia.
  - by rewrite Z.mod_small by lia.
Qed.

(** The two steps undo each other. *)
Lemma moddec_modinc x m : 0 ≤ x < m → m < 2 ^ 31 → moddec (modinc x m) m = x.
Proof.
  intros. rewrite moddec_mod by (try apply modinc_range; lia). rewrite modinc_mod by lia.
  rewrite Zminus_mod_idemp_l. replace (x + 1 - 1) with x by lia. by apply Z.mod_small.
Qed.

Lemma modinc_moddec x m : 0 ≤ x < m → m < 2 ^ 31 → modinc (moddec x m) m = x.
Proof.
  intros. rewrite modinc_mod by (try apply moddec_range; lia). rewrite moddec_mod by lia.
  rewrite Zplus_mod_idemp_l. replace (x - 1 + 1) with x by lia. by apply Z.mod_small.
Qed.

#[export] Hint Resolve modinc_range moddec_range : xio.

Module ring.

(** The array index of the [j]th entry. *)
Definition slot (size head j : Z) : Z := (head + j) mod size.

Definition window {A} (l : list A) (size head num : Z) : list A :=
  omap (λ j, l !! Z.to_nat (slot size head j)) (seqZ 0 num).

Record ring_ok {A} (l : list A) (size head num tail : Z) : Prop := {
  r_size : 1 ≤ size < 2 ^ 31;
  r_len : Z.of_nat (length l) = size;
  r_num : 0 ≤ num ≤ size;
  r_head : 0 ≤ head < size;
  r_tail : tail = slot size head num
}.

Section slots.
Variables (size head : Z).
Hypothesis Hsize : 1 ≤ size < 2 ^ 31.
Hypothesis Hhead : 0 ≤ head < size.

Lemma slot_in_range j : 0 ≤ slot size head j < size.
Proof. apply Z.mod_pos_bound. lia. Qed.

Lemma slot_0 : slot size head 0 = head.
Proof. unfold slot. rewrite Z.add_0_r. by apply Z.mod_small. Qed.

Lemma slot_full : slot size head size = head.
Proof. unfold slot. rewrite <- (Z.mul_1_l size) at 1. rewrite Z.mod_add by lia. by apply Z.mod_small. Qed.

Lemma modinc_slot j : modinc (slot size head j) size = slot size head (j + 1).
Proof.
  pose proof (slot_in_range j). rewrite modinc_mod by lia. unfold slot. rewrite Zplus_mod_idemp_l. f_equal. lia.
Qed.

Lemma moddec_slot j : moddec (slot size head j) size = slot size head (j - 1).
Proof.
  pose proof (slot_in_range j). rewrite moddec_mod by lia. unfold slot. rewrite Zminus_mod_idemp_l. f_equal. lia.
Qed.

(** The slots from the next head on. *)
Lemma slot_shift j : slot size (modinc head size) j = slot size head (j + 1).
Proof.
  rewrite <- slot_0 at 1. rewrite modinc_slot. unfold slot. rewrite Zplus_mod_idemp_l. f_equal. lia.
Qed.

Lemma slot_inj i j : 0 ≤ i < size → 0 ≤ j < size → slot size head i = slot size head j → i = j.
Proof.
  intros Hi Hj E. unfold slot in E.
  pose proof (Z.div_mod (head + i) size ltac:(lia)) as Di. pose proof (Z.div_mod (head + j) size ltac:(lia)) as Dj.
  rewrite E in Di. set (d := (head + i) / size - (head + j) / size).
  assert (i - j = size * d) as Ed by (unfold d; lia). assert (d = 0) as E0; [|rewrite E0 in Ed; lia].
  destruct (Z.lt_trichotomy d 0) as [|[|]]; [exfalso; nia|done|exfalso; nia].
Qed.

(** Every index is the slot of some entry. *)
Lemma slot_surj i : 0 ≤ i < size → ∃ j, 0 ≤ j < size ∧ slot size head j = i.
Proof.
  intros Hi. exists ((i - head) mod size). split; [apply Z.mod_pos_bound; lia|]. unfold slot.
  rewrite Z.add_mod_idemp_r by lia. replace (head + (i - head)) with i by lia. by apply Z.mod_small.
Qed.
End slots.

Section window.
Context {A : Type}.
Implicit Types (l : list A) (x : A).

Lemma window_0 l size head : window l size head 0 = [].
Proof. done. Qed.

Lemma slot_get l size head num tail j : ring_ok l size head num tail →
  ∃ x, l !! Z.to_nat (slot size head j) = Some x ∧ aget l (slot size head j) = Ok x.
Proof. intros [Hs Hl _ Hh _]. apply aget_ok. pose proof (slot_in_range size head Hs j). lia. Qed.

Lemma window_length l size head num tail : ring_ok l size head num tail → Z.of_nat (length (window l size head num)) = num.
Proof.
  intros Hr. pose proof Hr as [Hs Hl Hn Hh _]. unfold window.
  assert (∀ xs : list Z, length (omap (λ j, l !! Z.to_nat (slot size head j)) xs) = length xs) as ->;
    [|rewrite length_seqZ; lia].
  induction xs as [|j xs IH]; [done|]. csimpl. destruct (slot_get _ _ _ _ _ j Hr) as (x & -> & _). simpl. by rewrite IH.
Qed.

(** The first entries and the others. *)
Lemma window_app l size head n m : 0 ≤ n → 0 ≤ m →
  window l size head (n + m) = window l size head n ++ omap (λ j, l !! Z.to_nat (slot size head j)) (seqZ n m).
Proof. intros. unfold window. by rewrite seqZ_app, omap_app, Z.add_0_l by lia. Qed.

Lemma window_snoc l size head n x : 0 ≤ n → l !! Z.to_nat (slot size head n) = Some x →
  window l size head (n + 1) = window l size head n ++ [x].
Proof. intros Hn E. rewrite window_app by lia. rewrite seqZ_cons, seqZ_nil by lia. csimpl. by rewrite E. Qed.

Lemma window_lookup l size head num tail j : ring_ok l size head num tail → 0 ≤ j < num →
  window l size head num !! Z.to_nat j = l !! Z.to_nat (slot size head j).
Proof.
  intros Hr Hj. destruct (slot_get _ _ _ _ _ j Hr) as (x & E & _). rewrite E.
  assert (ring_ok l size head j (slot size head j)) as Hrj by (destruct Hr; by split; try lia).
  replace num with (j + 1 + (num - (j + 1))) by lia. rewrite window_app by lia. rewrite (window_snoc _ _ _ _ x) by (done || lia).
  pose proof (window_length _ _ _ _ _ Hrj). rewrite lookup_app_l by (rewrite length_app; simpl; lia).
  rewrite lookup_app_r by lia. by replace (Z.to_nat j - length (window l size head j))%nat with 0%nat by lia.
Qed.

Lemma window_ext l l' size head num : (∀ j, 0 ≤ j < num → l !! Z.to_nat (slot size head j) = l' !! Z.to_nat (slot size head j)) →
  window l size head num = window l' size head num.
Proof.
  intros E. unfold window. apply list_omap_ext, Forall_Forall2_diag, list.Forall_forall. intros j Hj%elem_of_seqZ. apply E. lia.
Qed.

(** A write to a slot that is not in the window. *)
Lemma window_insert_out l size head num tail j x : ring_ok l size head num tail → num ≤ j < size →
  window (<[Z.to_nat (slot size head j) := x]> l) size head num = window l size head num.
Proof.
  intros [Hs Hl Hn Hh _] Hj. apply window_ext. intros i Hi. rewrite list_lookup_insert_ne; [done|].
  intros E. pose proof (slot_in_range size head Hs i). pose proof (slot_in_range size head Hs j).
  assert (j = i); [|lia]. apply (slot_inj size head Hs); lia.
Qed.

(** An update of an entry in place. *)
Lemma window_insert l size head num tail j x : ring_ok l size head num tail → 0 ≤ j < num →
  ring_ok (<[Z.to_nat (slot size head j) := x]> l) size head num tail ∧
  window (<[Z.to_nat (slot size head j) := x]> l) size head num = <[Z.to_nat j := x]> (window l size head num).
Proof.
  intros Hr Hj. pose proof Hr as [Hs Hl Hn Hh Ht].
  assert (ring_ok (<[Z.to_nat (slot size head j) := x]> l) size head num tail) as Hr' by (by split; rewrite ?length_insert).
  split; [done|]. apply list_eq. intros i. pose proof (window_length _ _ _ _ _ Hr) as Hwl. pose proof (window_length _ _ _ _ _ Hr') as Hwl'.
  destruct (decide (Z.of_nat i < num)) as [Hi|].
  2: { rewrite (proj2 (lookup_ge_None _ i)) by lia. symmetry. apply lookup_ge_None. rewrite length_insert. lia. }
  rewrite <- (Nat2Z.id i), (window_lookup _ _ _ _ _ _ Hr') by lia. pose proof (slot_in_range size head Hs j).
  destruct (decide (Z.of_nat i = j)) as [->|Hne].
  - rewrite !list_lookup_insert_eq; [done|lia|lia].
  - rewrite !list_lookup_insert_ne; [by rewrite (window_lookup _ _ _ _ _ _ Hr) by lia|lia|].
    intros E. pose proof (slot_in_range size head Hs (Z.of_nat i)).
    assert (j = Z.of_nat i); [|congruence]. apply (slot_inj size head Hs); lia.
Qed.

(** An entry joins at the tail. *)
Lemma window_push l size head num tail x : ring_ok l size head num tail → num < size →
  ring_ok (<[Z.to_nat tail := x]> l) size head (num + 1) (modinc tail size) ∧
  window (<[Z.to_nat tail := x]> l) size head (num + 1) = window l size head num ++ [x].
Proof.
  intros Hr Hn. pose proof Hr as [Hs Hl Hnum Hh ->]. pose proof (slot_in_range size head Hs num).
  split; [split; rewrite ?length_insert; try done; try lia; by apply modinc_slot|].
  rewrite (window_snoc _ _ _ _ x) by (try lia; apply list_lookup_insert_eq; lia).
  by rewrite (window_insert_out _ _ _ _ _ _ _ Hr) by lia.
Qed.

(** The entry at the head leaves. *)
Lemma window_pop l size head num tail : ring_ok l size head num tail → 1 ≤ num →
  ring_ok l size (modinc head size) (num - 1) tail ∧
  ∃ x, aget l head = Ok x ∧ window l size head num = x :: window l size (modinc head size) (num - 1).
Proof.
  intros Hr Hn. pose proof Hr as [Hs Hl Hnum Hh ->]. split.
  - split; try done; try lia; [apply modinc_range; lia|]. rewrite slot_shift by done. f_equal. lia.
  - destruct (slot_get _ _ _ _ _ 0 Hr) as (x & E & G). rewrite slot_0 in G by done. exists x. split; [done|].
    unfold window. rewrite seqZ_cons by lia. csimpl. rewrite E. f_equal. replace (Z.pred num) with (num - 1) by lia.
    change (Z.succ 0) with (1 + 0). rewrite <- (fmap_add_seqZ 1 0 (num - 1)).
    apply list_omap_ext, Forall2_fmap_l, Forall_Forall2_diag, list.Forall_forall. intros j _. simpl.
    by rewrite slot_shift, Z.add_comm by done.
Qed.

(** The youngest entry is squashed. *)
Lemma window_squash l size head num tail : ring_ok l size head num tail → 1 ≤ num →
  ring_ok l size head (num - 1) (moddec tail size) ∧
  ∃ x, aget l (moddec tail size) = Ok x ∧ window l size head num = window l size head (num - 1) ++ [x].
Proof.
  intros Hr Hn. pose proof Hr as [Hs Hl Hnum Hh ->]. rewrite moddec_slot by done. split; [by split; try lia|].
  destruct (slot_get _ _ _ _ _ (num - 1) Hr) as (x & E & G). exists x. split; [done|].
  replace num with (num - 1 + 1) at 1 by lia. by apply window_snoc; [lia|].
Qed.

(** All entries are at their initial values. *)
Lemma ring_create size x : 1 ≤ size < 2 ^ 31 → ring_ok (replicate (Z.to_nat size) x) size 0 0 0.
Proof.
  intros Hs. split; try lia; [rewrite length_replicate; lia|]. unfold slot. rewrite Z.mod_0_l; lia.
Qed.

(** ** The slots outside the window *)

Definition free (P : A → Prop) (l : list A) (size head num : Z) : Prop :=
  ∀ j x, num ≤ j < size → aget l (slot size head j) = Ok x → P x.

(** The slot at the tail, when the ring is not full. *)
Lemma free_tail P l size head num tail x : ring_ok l size head num tail → free P l size head num → num < size → aget l tail = Ok x → P x.
Proof. intros [] Hf Hn G. subst tail. apply (Hf num x); [lia|done]. Qed.

Lemma free_insert P l size head num tail j x : ring_ok l size head num tail → 0 ≤ j < num → free P l size head num →
  free P (<[Z.to_nat (slot size head j) := x]> l) size head num.
Proof.
  intros [Hs _ Hn Hh _] Hj Hf i y Hi G. apply (Hf i y Hi). apply aget_inv in G as [_ G].
  pose proof (slot_in_range size head Hs i). pose proof (slot_in_range size head Hs j). rewrite list_lookup_insert_ne in G.
  - by apply aget_lookup; [lia|].
  - intros E. assert (j = i); [|lia]. apply (slot_inj size head Hs); lia.
Qed.

Lemma free_push P l size head num tail x : ring_ok l size head num tail → num < size → free P l size head num →
  free P (<[Z.to_nat tail := x]> l) size head (num + 1).
Proof.
  intros [Hs _ Hn Hh ->] Hlt Hf i y Hi G. apply (Hf i y ltac:(lia)). apply aget_inv in G as [_ G].
  pose proof (slot_in_range size head Hs i). pose proof (slot_in_range size head Hs num). rewrite list_lookup_insert_ne in G.
  - by apply aget_lookup; [lia|].
  - intros E. assert (num = i); [|lia]. apply (slot_inj size head Hs); lia.
Qed.

(** The slot of the head becomes free. *)
Lemma free_pop (P : A → Prop) l size head num tail x : ring_ok l size head num tail → 1 ≤ num → P x → free P l size head num →
  free P (<[Z.to_nat head := x]> l) size (modinc head size) (num - 1).
Proof.
  intros [Hs Hl Hn Hh _] Hlt Hx Hf i y Hi G. rewrite slot_shift in G by done. apply aget_inv in G as [_ G].
  destruct (decide (i + 1 = size)) as [E|].
  - rewrite E, slot_full in G by done. rewrite list_lookup_insert_eq in G by lia. by injection G as <-.
  - pose proof (slot_in_range size head Hs (i + 1)). rewrite list_lookup_insert_ne in G.
    + apply (Hf (i + 1) y); [lia|]. by apply aget_lookup; [lia|].
    + intros E. assert (0 = i + 1); [|lia]. apply (slot_inj size head Hs); [lia|lia|]. rewrite slot_0 by done. lia.
Qed.

End window.
End ring.
