(* ===== verification/Memory.v ===== *)
(** * Memory: the virtual memory of the simulated processes

    The page tables of memory.cpp, one per address space, over one pool of physical
    pages that are handed out in order and never taken back.  The claims: two mapped
    pages never share a physical page, in one address space or in two, the page counts
    are exact, and what a call maps and unmaps, which is one page more than the range
    it was asked for. *)

From S2P Require Import Prelude.

(** Source: src/xiosim/memory.h:18-20 PAGE_SIZE. *)
Definition PAGE_SIZE : Z := 4096.
Definition PAGE_SHIFT : Z := 12.
Definition PAGE_MASK : Z := 4096 - 1.
(** Source: src/xiosim/memory.h:54-56 page_round_up. *)
Definition page_round_up (addr : Z) : Z := Z.land (u64 (addr + PAGE_MASK)) (Z.lnot PAGE_MASK).
(** Source: src/xiosim/memory.h:59-61 page_round_down. *)
Definition page_round_down (addr : Z) : Z := Z.land addr (Z.lnot PAGE_MASK).
(** Source: src/xiosim/memory.h:64-66 page_offset. *)
Definition page_offset (addr : Z) : Z := Z.land addr PAGE_MASK.
(** Source: src/xiosim/memory.h:74-77 page_table_address. *)
Definition page_table_address (asid addr : Z) : Z :=
  Z.land (u64 (Z.shiftl (Z.shiftr addr PAGE_SHIFT) 4 + asid + 524288)) 67108863.

Lemma land_lnot_mask x n : 0 ≤ n → Z.land x (Z.lnot (2 ^ n - 1)) = x - x mod 2 ^ n.
Proof.
  intros Hn. rewrite Z.sub_1_r, <- Z.ones_equiv.
  rewrite <- Z.ldiff_land, Z.ldiff_ones_r by done.
  rewrite Z.shiftr_div_pow2, Z.shiftl_mul_pow2 by done.
  pose proof (Z.div_mod x (2 ^ n) ltac:(apply Z.pow_nonzero; lia)). lia.
Qed.

Module memory.

(** ** The state *)

(** Source: src/xiosim/memory.cpp:27-34 page_tables.
    The file's variables; virtual page numbers to physical page numbers. *)
Record t : Type := mk {
  num_address_spaces : Z;
  page_tables : list (gmap Z Z);
  page_count : list Z;
  brk_point : list Z;
  phys_page_count : Z;
  next_ppn_to_allocate : Z
}.

(** Before [init], with the initial values of the variables. *)
Definition initial : t := mk 0 [] [] [] 0 256.

(** Source: src/xiosim/memory.cpp:48-58 init. *)
Definition init (num_processes : Z) (m : t) : t :=
  let n := Z.to_nat num_processes in
  mk num_processes (replicate n ∅) (replicate n 0) (replicate n 0) (phys_page_count m) (next_ppn_to_allocate m).

(** [assert(asid >= 0 && asid < num_address_spaces)] *)
Definition check_asid (m : t) (asid : Z) : result unit :=
  guard_or ((0 <=? asid) && (asid <? num_address_spaces m)) AssertFail.

(** Source: src/xiosim/memory.cpp:127-132 mem_is_mapped. *)
Definition mem_is_mapped (m : t) (asid addr : Z) : result bool :=
  let* _ := check_asid m asid in
  let* pt := aget (page_tables m) asid in
  Ok (bool_decide (is_Some (pt !! Z.shiftr addr PAGE_SHIFT))).

(** Source: src/xiosim/memory.cpp:90-96 mem_newmap.
    The next physical page goes to a virtual page. *)
Definition map_page (m : t) (asid curr_addr : Z) : result t :=
  let* pts := amodify (page_tables m) asid (<[Z.shiftr curr_addr PAGE_SHIFT := next_ppn_to_allocate m]>) in
  let* counts := amodify (page_count m) asid (λ n, n + 1) in
  Ok (mk (num_address_spaces m) pts counts (brk_point m) (phys_page_count m + 1) (u64 (next_ppn_to_allocate m + 1))).

(** Source: src/xiosim/memory.cpp:118-122 mem_delmap. *)
Definition unmap_page (m : t) (asid curr_addr : Z) : result t :=
  let* pts := amodify (page_tables m) asid (delete (Z.shiftr curr_addr PAGE_SHIFT)) in
  let* counts := amodify (page_count m) asid (λ n, n - 1) in
  Ok (mk (num_address_spaces m) pts counts (brk_point m) (phys_page_count m - 1) (next_ppn_to_allocate m)).

(** The loop over the pages of a range: [for (curr = addr; curr <= last && curr; curr +=
    PAGE_SIZE)]; the pages whose being mapped is [found] are passed over. *)
Fixpoint page_loop (fuel : nat) (found : bool) (f : t → Z → Z → result t) (m : t) (asid curr last : Z) : result t :=
  match fuel with
  | O => Fault Diverge
  | S fuel =>
      if (curr <=? last) && negb (curr =? 0) then
        let* mapped := mem_is_mapped m asid curr in
        let* m := if eqb mapped found then Ok m else f m asid curr in
        page_loop fuel found f m asid (u64 (curr + PAGE_SIZE)) last
      else Ok m
  end.

(** A range has that many pages, and one more for the end of the loop. *)
Definition pages (addr last : Z) : nat := S (Z.to_nat ((last - addr) / PAGE_SIZE + 1)).

(** Source: src/xiosim/memory.cpp:71-98 mem_newmap. *)
Definition mem_newmap (m : t) (asid addr length : Z) : result t :=
  let* _ := check_asid m asid in
  let* _ := guard_or (negb (addr =? 0)) AssertFail in
  let* _ := guard_or (page_offset addr =? 0) Fatal in
  let last_addr := page_round_up (u64 (addr + length)) in
  page_loop (pages addr last_addr) true map_page m asid addr last_addr.

(** Source: src/xiosim/memory.cpp:100-124 mem_delmap. *)
Definition mem_delmap (m : t) (asid addr length : Z) : result t :=
  let* _ := check_asid m asid in
  let* _ := guard_or (page_offset addr =? 0) Fatal in
  let last_addr := page_round_up (u64 (addr + length)) in
  page_loop (pages addr last_addr) false unmap_page m asid addr last_addr.

(** Source: src/xiosim/memory.cpp:135-139 get_brk. *)
Definition get_brk (m : t) (asid : Z) : result Z :=
  let* _ := check_asid m asid in aget (brk_point m) asid.

(** Source: src/xiosim/memory.cpp:142-146 set_brk. *)
Definition set_brk (m : t) (asid brk_ : Z) : result t :=
  let* _ := check_asid m asid in
  let* l := aset (brk_point m) asid brk_ in
  Ok (mk (num_address_spaces m) (page_tables m) (page_count m) l (phys_page_count m) (next_ppn_to_allocate m)).

Definition DO_NOT_TRANSLATE : Z := -1.

(** Source: src/xiosim/memory.cpp:148-165 v2p_translate. *)
Definition v2p_translate (m : t) (asid addr : Z) : result Z :=
  if asid =? DO_NOT_TRANSLATE then Ok addr
  else
    let* _ := check_asid m asid in
    let* mapped := mem_is_mapped m asid addr in
    if mapped then
      let* pt := aget (page_tables m) asid in
      Ok (u64 (u64 (Z.shiftl (default 0 (pt !! Z.shiftr addr PAGE_SHIFT)) PAGE_SHIFT) + page_offset addr))
    else Ok (page_offset addr).

(** Source: src/xiosim/memory.cpp:167-172 notify_write. *)
Definition notify_write (m : t) (asid addr : Z) : result t :=
  let* mapped := mem_is_mapped m asid addr in
  if mapped then Ok m else mem_newmap m asid (page_round_down addr) PAGE_SIZE.

(** Source: src/xiosim/memory.cpp:174-185 notify_mmap. *)
Definition notify_mmap (m : t) (asid addr length : Z) (mod_brk : bool) : result t :=
  let page_addr := page_round_down addr in
  let page_length := page_round_up length in
  let* m := mem_newmap m asid page_addr page_length in
  let* curr_brk := get_brk m asid in
  if mod_brk && (curr_brk <? page_addr) then set_brk m asid (u64 (page_addr + page_length)) else Ok m.

(** Source: src/xiosim/memory.cpp:187-191 notify_munmap. *)
Definition notify_munmap (m : t) (asid addr length : Z) : result t :=
  mem_delmap m asid (page_round_up addr) length.

(** Source: src/xiosim/memory.cpp:193-213 update_brk. *)
Definition update_brk (m : t) (asid brk_end : Z) (do_mmap : bool) : result t :=
  let* _ := guard_or (negb (brk_end =? 0)) AssertFail in
  let* m :=
    if do_mmap then
      let* old_brk_end := get_brk m asid in
      if old_brk_end <? brk_end then
        notify_mmap m asid (page_round_up old_brk_end) (page_round_up (u64 (brk_end - old_brk_end))) false
      else if brk_end <? old_brk_end then
        notify_munmap m asid (page_round_up brk_end) (page_round_up (u64 (old_brk_end - brk_end)))
      else Ok m
    else Ok m in
  set_brk m asid brk_end.

(** Source: src/xiosim/memory.cpp:215-226 map_stack. *)
Definition map_stack (m : t) (asid sp bos : Z) : result t :=
  let* _ := guard_or (negb (sp =? 0)) AssertFail in
  let* _ := guard_or (negb (bos =? 0)) AssertFail in
  let page_start := page_round_down sp in
  let page_end := page_round_up bos in
  mem_newmap m asid page_start (u64 (page_end - page_start)).

(** ** Pages and addresses *)

Lemma page_split x : 0 ≤ x < 2 ^ 64 → x - x mod 4096 = PAGE_SIZE * (x / 4096) ∧ 0 ≤ x / 4096 < 2 ^ 52.
Proof.
  intros Hx. pose proof (Z.div_mod x 4096 ltac:(lia)). split; [unfold PAGE_SIZE; lia|].
  split; [apply Z.div_pos; lia|apply Z.div_lt_upper_bound; lia].
Qed.

Lemma round_down_page addr : 0 ≤ addr < 2 ^ 64 → page_round_down addr = PAGE_SIZE * (addr / 4096).
Proof. intros H. unfold page_round_down. change PAGE_MASK with (2 ^ 12 - 1). rewrite (land_lnot_mask addr 12) by done. by apply page_split. Qed.

Lemma round_up_page addr : page_round_up addr = PAGE_SIZE * (u64 (addr + PAGE_MASK) / 4096).
Proof.
  unfold page_round_up. set (x := u64 _). change PAGE_MASK with (2 ^ 12 - 1). rewrite (land_lnot_mask x 12) by done.
  apply page_split, u64_range.
Qed.

Lemma round_up_small addr : 0 ≤ addr → addr + PAGE_MASK < 2 ^ 64 → page_round_up addr = PAGE_SIZE * ((addr + PAGE_MASK) / 4096).
Proof. intros H1 H2. rewrite round_up_page, u64_small; [done|]. unfold PAGE_MASK in *. lia. Qed.

Lemma page_of x : 0 ≤ x < 2 ^ 64 → page_offset x = 0 → ∃ v, x = PAGE_SIZE * v ∧ 0 ≤ v < 2 ^ 52.
Proof.
  intros Hx. unfold page_offset. change PAGE_MASK with (2 ^ 12 - 1). rewrite (land_pow2_mask x 12) by done. intros E. exists (x / 4096).
  destruct (page_split x Hx) as [H1 H2]. split; [|done]. change (2 ^ 12) with 4096 in E. lia.
Qed.

Lemma offset_page v : page_offset (PAGE_SIZE * v) = 0.
Proof. unfold page_offset. change PAGE_MASK with (2 ^ 12 - 1). rewrite (land_pow2_mask _ 12) by done. unfold PAGE_SIZE. rewrite Z.mul_comm. by apply Z_mod_mult. Qed.

Lemma vpn_page v : Z.shiftr (PAGE_SIZE * v) PAGE_SHIFT = v.
Proof.
  unfold PAGE_SIZE, PAGE_SHIFT. rewrite Z.shiftr_div_pow2, Z.mul_comm by done. by apply Z.div_mul.
Qed.

Lemma page_div v : PAGE_SIZE * v / 4096 = v.
Proof. unfold PAGE_SIZE. rewrite Z.mul_comm. by apply Z.div_mul. Qed.

(** The walk over the pages [v] to [w]. *)
Lemma wp_page_loop (I : Z → t → Prop) found f asid v w m (Q : t → Prop) : 0 < v → 0 ≤ w < 2 ^ 52 → I v m →
  (∀ p m, v ≤ p ≤ w → I p m → wp (mem_is_mapped m asid (PAGE_SIZE * p))
    (λ b, if eqb b found then I (p + 1) m else wp (f m asid (PAGE_SIZE * p)) (I (p + 1)))) →
  (∀ m, I (Z.max v (w + 1)) m → Q m) →
  wp (page_loop (pages (PAGE_SIZE * v) (PAGE_SIZE * w)) found f m asid (PAGE_SIZE * v) (PAGE_SIZE * w)) Q.
Proof.
  intros Hv Hw HI Hstep HQ. unfold pages. rewrite <- Z.mul_sub_distr_l, Z.mul_comm, Z.div_mul by done.
  destruct (decide (w < v)) as [Hlt|Hle].
  { cbn [page_loop]. rewrite (proj2 (Z.leb_gt _ _)) by (unfold PAGE_SIZE; lia). simpl. apply HQ. by replace (Z.max v (w + 1)) with v by lia. }
  remember (Z.to_nat (w - v + 1)) as n eqn:En. revert v m Hv HI Hstep HQ Hle En.
  induction n as [|n IH]; intros v m Hv HI Hstep HQ Hle En; [lia|]. cbn [page_loop].
  rewrite (proj2 (Z.leb_le _ _)), (proj2 (Z.eqb_neq _ _)) by (unfold PAGE_SIZE; lia). cbn [negb andb].
  specialize (Hstep v m ltac:(lia) HI) as Hv'. apply wp_exists in Hv' as (b & -> & Hb). cbn [rbind].
  assert (wp (if eqb b found then Ok m else f m asid (PAGE_SIZE * v)) (I (v + 1))) as Hnext by by destruct (eqb b found).
  eapply wp_bind, wp_mono; [exact Hnext|]. intros m' HI'. destruct (decide (v = w)) as [->|Hne].
  - assert (Q m') as Hq by (apply HQ; by replace (Z.max w (w + 1)) with (w + 1) by lia).
    replace (PAGE_SIZE * w + PAGE_SIZE) with (PAGE_SIZE * (w + 1)) by lia.
    assert (n = 0%nat) as -> by lia. cbn [page_loop].
    destruct (decide (w + 1 = 2 ^ 52)) as [->|].
    + change (u64 (PAGE_SIZE * 2 ^ 52)) with 0. by rewrite andb_false_r.
    + rewrite u64_small by (unfold PAGE_SIZE; lia). by rewrite (proj2 (Z.leb_gt _ _)) by (unfold PAGE_SIZE; lia).
  - replace (PAGE_SIZE * v + PAGE_SIZE) with (PAGE_SIZE * (v + 1)) by lia. rewrite u64_small by (unfold PAGE_SIZE; lia).
    apply IH; [lia|done| | |lia|lia].
    + intros p m1 Hp. apply Hstep. lia.
    + intros m1. replace (Z.max (v + 1) (w + 1)) with (Z.max v (w + 1)) by lia. apply HQ.
Qed.

(** ** The invariant *)

(** The physical page of a virtual page. *)
Definition frame (m : t) (asid vpn : Z) : option Z :=
  match aget (page_tables m) asid with Ok pt => pt !! vpn | Fault _ => None end.

Definition total (l : list Z) : Z := foldr Z.add 0 l.

Record mem_ok (m : t) : Prop := {
  ok_spaces : Z.of_nat (length (page_tables m)) = num_address_spaces m;
  ok_brks : Z.of_nat (length (brk_point m)) = num_address_spaces m;
  ok_counts : Forall2 (λ pt n, n = Z.of_nat (size pt)) (page_tables m) (page_count m);
  ok_total : phys_page_count m = total (page_count m);
  ok_next : 256 ≤ next_ppn_to_allocate m;
  ok_frames : ∀ a v p, frame m a v = Some p → 256 ≤ p < next_ppn_to_allocate m;
  ok_inj : ∀ a v a' v' p, frame m a v = Some p → frame m a' v' = Some p → a = a' ∧ v = v';
  ok_brk_range : Forall (λ b, 0 ≤ b < 2 ^ 64) (brk_point m)
}.

Definition in_range (m : t) (asid : Z) : Prop := 0 ≤ asid < num_address_spaces m.

Lemma check_ok m asid : in_range m asid → check_asid m asid = Ok tt.
Proof. intros [H1 H2]. unfold check_asid. by rewrite (proj2 (Z.leb_le _ _)), (proj2 (Z.ltb_lt _ _)). Qed.

Lemma table_ok m asid : mem_ok m → in_range m asid → ∃ pt n, aget (page_tables m) asid = Ok pt ∧
  page_tables m !! Z.to_nat asid = Some pt ∧ page_count m !! Z.to_nat asid = Some n ∧ aget (page_count m) asid = Ok n.
Proof.
  intros [Hl _ Hc _ _ _ _ _] Ha. destruct (aget_ok (page_tables m) asid) as (pt & E & G); [unfold in_range in Ha; lia|].
  destruct (Forall2_lookup_l _ _ _ _ _ Hc E) as (n & En & _). exists pt, n. repeat (split; [done|]).
  apply aget_lookup; [apply Ha|done].
Qed.

Lemma mapped_ok m asid addr : mem_ok m → in_range m asid →
  mem_is_mapped m asid addr = Ok (bool_decide (is_Some (frame m asid (Z.shiftr addr PAGE_SHIFT)))).
Proof.
  intros Hm Ha. unfold mem_is_mapped, frame. rewrite check_ok by done.
  destruct (table_ok m asid Hm Ha) as (pt & n & -> & _). done.
Qed.

Lemma total_insert l i x y : l !! i = Some x → total (<[i := y]> l) = total l - x + y.
Proof.
  unfold total. revert i. induction l as [|z l IH]; intros [|i] E; simpl in *; try done; [injection E as ->; lia|].
  rewrite (IH _ E). lia.
Qed.

(** A page table and its count are replaced. *)
Lemma frame_insert m asid pt f counts brks phys next : in_range m asid → mem_ok m → aget (page_tables m) asid = Ok pt →
  ∀ a v, frame (mk (num_address_spaces m) (<[Z.to_nat asid := f pt]> (page_tables m)) counts brks phys next) a v =
    if decide (a = asid) then f pt !! v else frame m a v.
Proof.
  intros [Ha _] Hm E a v. unfold frame. simpl. apply aget_inv in E as [Hr E]. destruct (decide (a = asid)) as [->|Hne].
  - rewrite (aget_lookup _ asid (f pt)); [done|done|]. rewrite list_lookup_insert_eq; [done|by eapply lookup_lt_Some].
  - unfold aget. destruct (decide (0 ≤ a)) as [Hp|]; [|by rewrite (proj2 (Z.ltb_lt a 0)) by lia].
    rewrite list_lookup_insert_ne by lia. done.
Qed.

Lemma map_page_ok m asid p : mem_ok m → in_range m asid → frame m asid p = None → next_ppn_to_allocate m < 2 ^ 64 - 1 →
  wp (map_page m asid (PAGE_SIZE * p)) (λ m', mem_ok m' ∧ num_address_spaces m' = num_address_spaces m ∧
    next_ppn_to_allocate m' = next_ppn_to_allocate m + 1 ∧ brk_point m' = brk_point m ∧
    ∀ a v, frame m' a v = if decide (a = asid ∧ v = p) then Some (next_ppn_to_allocate m) else frame m a v).
Proof.
  intros Hm Ha Hp Hnext. destruct (table_ok m asid Hm Ha) as (pt & n & Gt & Et & En & Gn).
  unfold map_page, amodify. rewrite vpn_page, Gt, Gn. cbn [rbind].
  pose proof Hm as [H1 H2 H3 H4 H5 H6 H7 H8]. pose proof (list.Forall2_length _ _ _ H3) as Hlen.
  unfold in_range in Ha. rewrite !aset_ok by lia. cbn [rbind wp]. rewrite u64_small by lia.
  assert (pt !! p = None) as Hnone by (unfold frame in Hp; by rewrite Gt in Hp).
  set (m' := mk _ _ _ _ _ _).
  assert (∀ a v, frame m' a v = if decide (a = asid ∧ v = p) then Some (next_ppn_to_allocate m) else frame m a v) as Hf.
  { intros a v. unfold m'. rewrite (frame_insert m asid pt (<[p := next_ppn_to_allocate m]>)) by done.
    destruct (decide (a = asid)) as [->|]; [|by rewrite decide_False by intuition].
    destruct (decide (v = p)) as [->|]; [rewrite decide_True by done; by rewrite lookup_insert_eq|].
    rewrite decide_False, lookup_insert_ne by intuition. unfold frame. by rewrite Gt. }
  split; [|by repeat split]. split; simpl; try done; try lia.
  - by rewrite length_insert.
  - apply Forall2_insert; [done|]. rewrite (Forall2_lookup_lr _ _ _ _ _ _ H3 Et En), map_size_insert_None by done. lia.
  - rewrite (total_insert _ _ _ _ En), H4. lia.
  - intros a v q. rewrite Hf. case_decide; [intros [= <-]; lia|]. intros E%H6. lia.
  - intros a v a' v' q. rewrite !Hf. repeat case_decide.
    + intros _ _. intuition congruence.
    + intros [= <-] E%H6. lia.
    + intros E%H6 [= <-]. lia.
    + apply H7.
Qed.

Lemma unmap_page_ok m asid p : mem_ok m → in_range m asid → is_Some (frame m asid p) →
  wp (unmap_page m asid (PAGE_SIZE * p)) (λ m', mem_ok m' ∧ num_address_spaces m' = num_address_spaces m ∧
    next_ppn_to_allocate m' = next_ppn_to_allocate m ∧ brk_point m' = brk_point m ∧
    ∀ a v, frame m' a v = if decide (a = asid ∧ v = p) then None else frame m a v).
Proof.
  intros Hm Ha [q Hq]. destruct (table_ok m asid Hm Ha) as (pt & n & Gt & Et & En & Gn).
  unfold unmap_page, amodify. rewrite vpn_page, Gt, Gn. cbn [rbind].
  pose proof Hm as [H1 H2 H3 H4 H5 H6 H7 H8]. pose proof (list.Forall2_length _ _ _ H3) as Hlen.
  unfold in_range in Ha. rewrite !aset_ok by lia. cbn [rbind wp].
  assert (pt !! p = Some q) as Hsome by (unfold frame in Hq; by rewrite Gt in Hq).
  set (m' := mk _ _ _ _ _ _).
  assert (∀ a v, frame m' a v = if decide (a = asid ∧ v = p) then None else frame m a v) as Hf.
  { intros a v. unfold m'. rewrite (frame_insert m asid pt (delete p)) by done.
    destruct (decide (a = asid)) as [->|]; [|by rewrite decide_False by intuition].
    destruct (decide (v = p)) as [->|]; [rewrite decide_True by done; by rewrite lookup_delete_eq|].
    rewrite decide_False, lookup_delete_ne by intuition. unfold frame. by rewrite Gt. }
  split; [|by repeat split]. split; simpl; try done; try lia.
  - by rewrite length_insert.
  - apply Forall2_insert; [done|]. rewrite (Forall2_lookup_lr _ _ _ _ _ _ H3 Et En), map_size_delete_Some by eauto.
    assert (size pt ≠ 0%nat) by (apply map_size_ne_0_lookup; eauto). lia.
  - rewrite (total_insert _ _ _ _ En), H4. lia.
  - intros a v r. rewrite Hf. case_decide; [done|]. apply H6.
  - intros a v a' v' r. rewrite !Hf. repeat case_decide; try done. apply H7.
Qed.

(** ** What a call maps and unmaps *)

(** The last page that a call on [length] bytes from page [v] on visits. *)
Definition last_page (v length : Z) : Z := u64 (u64 (PAGE_SIZE * v + length) + PAGE_MASK) / 4096.

Lemma last_page_range v length : 0 ≤ last_page v length < 2 ^ 52.
Proof. unfold last_page. apply page_split, u64_range. Qed.

(** What the operations leave alone. *)
Record kept (m m' : t) (new : Z) : Prop := {
  k_ok : mem_ok m';
  k_num : num_address_spaces m' = num_address_spaces m;
  k_brk : brk_point m' = brk_point m;
  k_next : next_ppn_to_allocate m ≤ next_ppn_to_allocate m' ≤ next_ppn_to_allocate m + new
}.

(** The pages of [asid] that satisfy [P] are mapped now, as they were if they were. *)
Definition mapped_too (m m' : t) (asid : Z) (P : Z → Prop) : Prop :=
  (∀ a x, is_Some (frame m' a x) ↔ is_Some (frame m a x) ∨ a = asid ∧ P x) ∧
  ∀ a x q, frame m a x = Some q → frame m' a x = Some q.

Lemma mapped_too_step m m1 m2 asid (P P' : Z → Prop) p : mapped_too m m1 asid P → (∀ x, P' x ↔ P x ∨ x = p) →
  (∀ a x, is_Some (frame m2 a x) ↔ is_Some (frame m1 a x) ∨ a = asid ∧ x = p) →
  (∀ a x q, frame m1 a x = Some q → frame m2 a x = Some q) → mapped_too m m2 asid P'.
Proof.
  intros [H1 H2] HP H3 H4. split.
  - intros a x. rewrite H3, H1, HP. clear. tauto.
  - intros a x q E. by apply H4, H2.
Qed.

Lemma newmap_ok m asid v length : mem_ok m → in_range m asid → next_ppn_to_allocate m ≤ 2 ^ 53 → 0 < v < 2 ^ 52 →
  wp (mem_newmap m asid (PAGE_SIZE * v) length) (λ m', kept m m' (2 ^ 52) ∧
    mapped_too m m' asid (λ x, v ≤ x ≤ last_page v length)).
Proof.
  intros Hm Ha Hn Hv. unfold mem_newmap. rewrite check_ok, offset_page by done. cbn [rbind].
  rewrite (proj2 (Z.eqb_neq (PAGE_SIZE * v) 0)) by (unfold PAGE_SIZE; lia). cbn [negb guard_or rbind Z.eqb].
  rewrite round_up_page. fold (last_page v length). pose proof (last_page_range v length) as Hw. set (w := last_page v length) in *.
  apply (wp_page_loop (λ p m', kept m m' (p - v) ∧ mapped_too m m' asid (λ x, v ≤ x < p))); [lia|done| | |].
  - split; [split; [done|done|done|lia]|]. split; [|done]. intros a x. split; [by left|]. intros [|[_ ?]]; [done|lia].
  - intros p m1 Hp [[Hm1 En Eb Ex] Ht]. assert (in_range m1 asid) as Ha1 by (unfold in_range in *; by rewrite En).
    rewrite (mapped_ok m1 asid _ Hm1 Ha1), vpn_page. cbn [wp]. case_bool_decide as Es; simpl.
    + split; [split; [done|done|done|lia]|]. apply (mapped_too_step m m1 m1 asid _ _ p Ht); [lia| |done].
      intros a x. split; [by left|]. intros [|[-> ->]]; done.
    + assert (frame m1 asid p = None) as Hf by (destruct (frame m1 asid p); [by destruct Es|done]).
      eapply wp_mono; [apply map_page_ok; [done|done|done|lia]|]. intros m2 (Hm2 & En2 & Ex2 & Eb2 & Hf2).
      split; [split; [done|congruence|congruence|lia]|]. apply (mapped_too_step m m1 m2 asid _ _ p Ht); [lia| |].
      * intros a x. rewrite Hf2. case_decide as Ed; [split; [by right|by eexists]|]. split; [by left|]. by intros [|].
      * intros a x q E. rewrite Hf2. case_decide as Ed; [destruct Ed as [-> ->]; congruence|done].
  - intros m' [[Hm' En Eb Ex] [H1 H2]]. split; [split; [done|done|done|lia]|]. split; [|done].
    intros a x. rewrite H1. split; (intros [|[-> ?]]; [by left|right; split; [done|lia]]).
Qed.

Lemma delmap_ok m asid v length : mem_ok m → in_range m asid → 0 ≤ v < 2 ^ 52 →
  wp (mem_delmap m asid (PAGE_SIZE * v) length) (λ m', kept m m' 0 ∧
    ∀ a x, frame m' a x = if decide (a = asid ∧ 0 < v ∧ v ≤ x ≤ last_page v length) then None else frame m a x).
Proof.
  intros Hm Ha Hv. unfold mem_delmap. rewrite check_ok, offset_page by done. cbn [rbind guard_or Z.eqb].
  rewrite round_up_page. fold (last_page v length). pose proof (last_page_range v length) as Hw. set (w := last_page v length) in *.
  destruct (decide (v = 0)) as [->|].
  { cbn [page_loop pages]. rewrite Z.mul_0_r, andb_false_r. split; [split; [done|done|done|lia]|].
    intros a x. rewrite decide_False; [done|lia]. }
  apply (wp_page_loop (λ p m', kept m m' 0 ∧ ∀ a x, frame m' a x = if decide (a = asid ∧ v ≤ x < p) then None else frame m a x)); [lia|done| | |].
  - split; [split; [done|done|done|lia]|]. intros a x. rewrite decide_False; [done|lia].
  - intros p m1 Hp [[Hm1 En Eb Ex] Hf]. assert (in_range m1 asid) as Ha1 by (unfold in_range in *; by rewrite En).
    rewrite (mapped_ok m1 asid _ Hm1 Ha1), vpn_page. cbn [wp].
    assert (∀ m2, (∀ a x, frame m2 a x = if decide (a = asid ∧ x = p) then None else frame m1 a x) →
      ∀ a x, frame m2 a x = if decide (a = asid ∧ v ≤ x < p + 1) then None else frame m a x) as Hstep.
    { intros m2 H2 a x. rewrite H2, Hf. repeat case_decide; try done; lia. }
    case_bool_decide as Es; simpl.
    + eapply wp_mono; [by apply unmap_page_ok|]. intros m2 (Hm2 & En2 & Ex2 & Eb2 & Hf2).
      split; [split; [done|congruence|congruence|lia]|]. by apply Hstep.
    + split; [split; [done|done|done|lia]|]. apply Hstep. intros a x. case_decide as Ed; [|done].
      destruct Ed as [-> ->]. destruct (frame m1 asid p); [by destruct Es|done].
  - intros m' [[Hm' En Eb Ex] Hf]. split; [split; [done|done|done|lia]|].
    intros a x. rewrite Hf. repeat case_decide; try done; lia.
Qed.

(** ** The operations *)

Lemma brk_ok m asid : mem_ok m → in_range m asid → ∃ b, get_brk m asid = Ok b ∧ aget (brk_point m) asid = Ok b ∧ 0 ≤ b < 2 ^ 64.
Proof.
  intros [_ Hl _ _ _ _ _ Hb] Ha. unfold get_brk. rewrite check_ok by done. cbn [rbind].
  destruct (aget_ok (brk_point m) asid) as (b & E & ->); [unfold in_range in Ha; lia|]. exists b. do 2 (split; [done|]).
  exact (Forall_lookup_1 _ _ _ _ Hb E).
Qed.

Lemma set_brk_ok m asid b : mem_ok m → in_range m asid → 0 ≤ b < 2 ^ 64 →
  wp (set_brk m asid b) (λ m', mem_ok m' ∧ num_address_spaces m' = num_address_spaces m ∧
    next_ppn_to_allocate m' = next_ppn_to_allocate m ∧ page_tables m' = page_tables m).
Proof.
  intros [H1 H2 H3 H4 H5 H6 H7 H8] Ha Hb. unfold set_brk. rewrite check_ok by done. cbn [rbind].
  rewrite aset_ok by (unfold in_range in Ha; lia). cbn [rbind wp]. split; [|done].
  split; simpl; try done; [by rewrite length_insert|by apply Forall_insert].
Qed.

(** Operations of the clients. *)
Inductive op : Type :=
  | Write (asid addr : Z)
  | Mmap (asid addr length : Z) (mod_brk : bool)
  | Munmap (asid addr length : Z)
  | Brk (asid brk_end : Z) (do_mmap : bool)
  | Stack (asid sp bos : Z).

Definition step (o : op) (m : t) : result t :=
  match o with
  | Write asid addr => notify_write m asid addr
  | Mmap asid addr length mod_brk => notify_mmap m asid addr length mod_brk
  | Munmap asid addr length => notify_munmap m asid addr length
  | Brk asid brk_end do_mmap => update_brk m asid brk_end do_mmap
  | Stack asid sp bos => map_stack m asid sp bos
  end.

Definition u64_ok (x : Z) : Prop := 0 ≤ x < 2 ^ 64.

(** What the assertions ask for: an address space of the system, nothing mapped at
    page 0, a program break that has been set before it grows. *)
Definition op_ok (m : t) (o : op) : Prop :=
  match o with
  | Write asid addr | Mmap asid addr _ _ => in_range m asid ∧ 4096 ≤ addr < 2 ^ 64
  | Munmap asid addr _ => in_range m asid ∧ u64_ok addr
  | Brk asid brk_end do_mmap => in_range m asid ∧ 0 < brk_end < 2 ^ 64 ∧
      (do_mmap = true → ∀ b, aget (brk_point m) asid = Ok b → b < brk_end → page_round_up b ≠ 0)
  | Stack asid sp bos => in_range m asid ∧ 4096 ≤ sp < 2 ^ 64 ∧ 0 < bos < 2 ^ 64
  end.

Lemma page_number addr : 4096 ≤ addr < 2 ^ 64 → page_round_down addr = PAGE_SIZE * (addr / 4096) ∧ 0 < addr / 4096 < 2 ^ 52.
Proof.
  intros H. rewrite round_down_page by lia. split; [done|]. destruct (page_split addr) as [_ ?]; [lia|].
  split; [apply Z.div_str_pos|]; lia.
Qed.

Lemma up_page addr : ∃ v, page_round_up addr = PAGE_SIZE * v ∧ 0 ≤ v < 2 ^ 52.
Proof. rewrite round_up_page. eexists. split; [done|]. apply page_split, u64_range. Qed.

Lemma kept_spaces m m' new : kept m m' new → num_address_spaces m' = num_address_spaces m.
Proof. by intros []. Qed.

(** The effect of an operation that maps no more than the addresses hold. *)
Definition stepped (m m' : t) : Prop :=
  mem_ok m' ∧ num_address_spaces m' = num_address_spaces m ∧ next_ppn_to_allocate m' ≤ next_ppn_to_allocate m + 2 ^ 52.

Lemma stepped_refl m : mem_ok m → stepped m m.
Proof. intros Hm. split; [done|]. split; [done|lia]. Qed.

Lemma kept_stepped m m' new : new ≤ 2 ^ 52 → kept m m' new → stepped m m'.
Proof. intros Hn [H1 H2 _ H3]. split; [done|]. split; [done|]. lia. Qed.

Lemma mmap_ok m asid v length mod_brk : mem_ok m → in_range m asid → next_ppn_to_allocate m ≤ 2 ^ 53 → 0 < v < 2 ^ 52 →
  wp (notify_mmap m asid (PAGE_SIZE * v) length mod_brk) (λ m', stepped m m' ∧
    mapped_too m m' asid (λ x, v ≤ x ≤ last_page v (page_round_up length))).
Proof.
  intros Hm Ha Hn Hv. unfold notify_mmap. rewrite round_down_page by (unfold PAGE_SIZE; lia).
  rewrite page_div.
  eapply wp_bind, wp_mono; [by apply newmap_ok|]. intros m1 [Hk Ht]. pose proof Hk as [Hm1 En _ Ex].
  assert (in_range m1 asid) as Ha1 by (unfold in_range in *; by rewrite En).
  destruct (brk_ok m1 asid Hm1 Ha1) as (b & -> & _). cbn [rbind]. destruct (_ && _).
  - eapply wp_mono; [apply set_brk_ok; [done|done|apply u64_range]|]. intros m2 (Hm2 & En2 & Ex2 & Et2).
    split; [split; [done|split; [congruence|lia]]|]. unfold mapped_too, frame in *. by rewrite Et2.
  - split; [|done]. apply (kept_stepped _ _ (2 ^ 52)); [lia|done].
Qed.

Lemma munmap_ok m asid addr length : mem_ok m → in_range m asid →
  wp (notify_munmap m asid addr length) (stepped m).
Proof.
  intros Hm Ha. unfold notify_munmap. destruct (up_page addr) as (v & -> & Hv).
  eapply wp_mono; [by apply delmap_ok|]. intros m' [Hk _]. apply (kept_stepped _ _ 0); [lia|done].
Qed.

Lemma newmap_stepped m asid v length : mem_ok m → in_range m asid → next_ppn_to_allocate m ≤ 2 ^ 52 → 0 < v < 2 ^ 52 →
  wp (mem_newmap m asid (PAGE_SIZE * v) length) (stepped m).
Proof.
  intros Hm Ha Hn Hv. eapply wp_mono; [apply newmap_ok; [done|done|lia|done]|]. intros m' [Hk _].
  apply (kept_stepped _ _ (2 ^ 52)); [lia|done].
Qed.

Lemma brk_stepped m asid brk_end do_mmap : mem_ok m → next_ppn_to_allocate m ≤ 2 ^ 52 → op_ok m (Brk asid brk_end do_mmap) →
  wp (update_brk m asid brk_end do_mmap) (stepped m).
Proof.
  intros Hm Hn (Ha & Hb & Hold). unfold update_brk. rewrite (proj2 (Z.eqb_neq _ _)) by lia. cbn [negb guard_or rbind].
  apply wp_bind. apply (wp_mono _ (stepped m)).
  - destruct do_mmap; [|by apply stepped_refl]. destruct (brk_ok m asid Hm Ha) as (b & -> & Gb & Hbr). cbn [rbind].
    destruct (Z.ltb_spec b brk_end) as [Hlt|]; [|destruct (_ <? _); [by apply munmap_ok|by apply stepped_refl]].
    specialize (Hold eq_refl b Gb Hlt). destruct (up_page b) as (v & Ev & Hv). rewrite Ev in *.
    eapply wp_mono; [apply mmap_ok; [done|done|lia|]|by intros m' [? _]]. unfold PAGE_SIZE in Hold. lia.
  - intros m1 (Hm1 & En & Ex). eapply wp_mono; [apply set_brk_ok; [done| |lia]|].
    + unfold in_range in *. by rewrite En.
    + intros m2 (Hm2 & En2 & Ex2 & _). split; [done|]. split; [congruence|lia].
Qed.

Lemma op_stepped m o : mem_ok m → next_ppn_to_allocate m ≤ 2 ^ 52 → op_ok m o → wp (step o m) (stepped m).
Proof.
  intros Hm Hn. destruct o as [asid addr|asid addr length mod_brk|asid addr length|asid brk_end do_mmap|asid sp bos]; cbn [op_ok step].
  - intros [Ha Haddr]. unfold notify_write. rewrite mapped_ok by done. cbn [rbind]. case_match; [by apply stepped_refl|].
    destruct (page_number addr Haddr) as [-> Hv]. by apply newmap_stepped.
  - intros [Ha Haddr]. pose proof (page_number addr Haddr) as [Ev Hv].
    assert (notify_mmap m asid addr length mod_brk = notify_mmap m asid (PAGE_SIZE * (addr / 4096)) length mod_brk) as ->.
    { unfold notify_mmap. rewrite Ev. rewrite (round_down_page (PAGE_SIZE * _)) by (unfold PAGE_SIZE; lia).
      by rewrite page_div. }
    eapply wp_mono; [apply mmap_ok; [done|done|lia|done]|by intros m' [? _]].
  - intros [Ha _]. by apply munmap_ok.
  - by apply brk_stepped.
  - intros (Ha & Hsp & Hbos). unfold map_stack. rewrite !(proj2 (Z.eqb_neq _ _)) by lia. cbn [negb guard_or rbind].
    destruct (page_number sp Hsp) as [-> Hv]. by apply newmap_stepped.
Qed.

(** The states of a system of [n] processes, as long as the physical address space
    lasts. *)
Inductive reachable (n : Z) : t → Prop :=
  | reach_init : reachable n (init n initial)
  | reach_step m o m' : reachable n m → next_ppn_to_allocate m ≤ 2 ^ 52 → op_ok m o → step o m = Ok m' → reachable n m'.

Lemma init_ok n : 0 ≤ n → mem_ok (init n initial).
Proof.
  intros Hn. unfold init. simpl. assert (∀ a v p, frame (init n initial) a v = Some p → False) as Hno.
  { intros a v p. unfold frame, init. simpl. destruct (aget _ a) as [pt|] eqn:E; [|done].
    apply aget_inv in E as [_ E]. apply lookup_replicate in E as [-> _]. by rewrite lookup_empty. }
  split; simpl; rewrite ?length_replicate; try lia.
  - apply Forall2_replicate. by rewrite map_size_empty.
  - induction (Z.to_nat n); simpl; [done|]. by rewrite <- IHn0.
  - intros a v p E. by apply Hno in E.
  - intros a v a' v' p E. by apply Hno in E.
  - apply Forall_replicate. lia.
Qed.

Lemma reachable_ok n m : 0 ≤ n → reachable n m → mem_ok m.
Proof.
  intros Hn. induction 1 as [|m o m' _ IH Hx Ho Hs]; [by apply init_ok|].
  pose proof (op_stepped m o IH Hx Ho) as Hw. rewrite Hs in Hw. apply Hw.
Qed.

Definition mapped (m : t) (asid addr : Z) : Prop := mem_is_mapped m asid addr = Ok true.

Lemma mapped_translation m asid addr : mem_ok m → next_ppn_to_allocate m ≤ 2 ^ 52 → u64_ok addr → mapped m asid addr →
  ∃ p, frame m asid (addr / 4096) = Some p ∧ v2p_translate m asid addr = Ok (4096 * p + addr mod 4096).
Proof.
  intros Hm Hn Hu. unfold mapped, v2p_translate. intros E. rewrite E. cbn [rbind].
  unfold mem_is_mapped in E. apply bind_Ok_inv in E as ([] & Ec & E). rewrite Ec. cbn [rbind].
  unfold check_asid in Ec. destruct (_ && _) eqn:Er in Ec; [|done]. apply andb_true_iff in Er as [Er1%Z.leb_le Er2%Z.ltb_lt].
  rewrite (proj2 (Z.eqb_neq _ _)) by (unfold DO_NOT_TRANSLATE; lia).
  apply bind_Ok_inv in E as (pt & Ept & [= E%bool_decide_eq_true]). rewrite Ept. cbn [rbind].
  change (Z.shiftr addr PAGE_SHIFT) with (Z.shiftr addr 12) in *. rewrite Z.shiftr_div_pow2 in * by done.
  change (2 ^ 12) with 4096 in *. destruct E as [p E]. exists p. rewrite E. simpl.
  assert (frame m asid (addr / 4096) = Some p) as Hf by (unfold frame; by rewrite Ept). split; [done|].
  pose proof (ok_frames _ Hm _ _ _ Hf). unfold PAGE_SHIFT, page_offset. rewrite Z.shiftl_mul_pow2 by done.
  change (2 ^ 12) with 4096. change PAGE_MASK with (2 ^ 12 - 1). rewrite land_pow2_mask by done. change (2 ^ 12) with 4096.
  pose proof (Z.mod_pos_bound addr 4096 ltac:(lia)). rewrite !u64_small by (rewrite ?u64_small; lia). f_equal. lia.
Qed.

(** C12. Physical memory is never shared.  However the processes of a system write, map,
    unmap, move their program breaks and set up their stacks, as long as the 2^52
    physical pages last: no operation that its callers may ask for fails, two mapped
    addresses translate to the same physical address only when they are the same address
    of the same address space, no mapped address translates into the first megabyte, and
    the page counts are the numbers of mapped pages. *)
Theorem translations_never_alias n m : 0 ≤ n → reachable n m → next_ppn_to_allocate m ≤ 2 ^ 52 →
  (∀ o, op_ok m o → ∃ m', step o m = Ok m') ∧
  (∀ a x a' x', u64_ok x → u64_ok x' → mapped m a x → mapped m a' x' →
    v2p_translate m a x = v2p_translate m a' x' → a = a' ∧ x = x') ∧
  (∀ a x, u64_ok x → mapped m a x → ∃ p, v2p_translate m a x = Ok p ∧ 2 ^ 20 ≤ p) ∧
  page_count m = (λ pt, Z.of_nat (size pt)) <$> page_tables m ∧ phys_page_count m = total (page_count m).
Proof.
  intros Hn Hr Hx. pose proof (reachable_ok n m Hn Hr) as Hm. repeat split.
  - intros o Ho. pose proof (op_stepped m o Hm Hx Ho) as Hw. apply wp_exists in Hw as (m' & -> & _). by exists m'.
  - destruct (mapped_translation m a x Hm Hx H H1) as (p & Hp & E), (mapped_translation m a' x' Hm Hx H0 H2) as (p' & Hp' & E').
    rewrite E, E' in H3. injection H3 as H3. pose proof (Z.mod_pos_bound x 4096 ltac:(lia)).
    pose proof (Z.mod_pos_bound x' 4096 ltac:(lia)). assert (p = p') as <- by lia. by destruct (ok_inj _ Hm _ _ _ _ _ Hp Hp').
  - destruct (mapped_translation m a x Hm Hx H H1) as (p & Hp & E), (mapped_translation m a' x' Hm Hx H0 H2) as (p' & Hp' & E').
    rewrite E, E' in H3. injection H3 as H3. pose proof (Z.mod_pos_bound x 4096 ltac:(lia)).
    pose proof (Z.mod_pos_bound x' 4096 ltac:(lia)). assert (p = p') as <- by lia.
    destruct (ok_inj _ Hm _ _ _ _ _ Hp Hp') as [_ Ev]. pose proof (Z.div_mod x 4096 ltac:(lia)). pose proof (Z.div_mod x' 4096 ltac:(lia)). lia.
  - intros a x Hu Ha. destruct (mapped_translation m a x Hm Hx Hu Ha) as (p & Hp & E). eexists. split; [done|].
    pose proof (ok_frames _ Hm _ _ _ Hp). pose proof (Z.mod_pos_bound x 4096 ltac:(lia)). lia.
  - pose proof (ok_counts _ Hm) as Hc. clear -Hc. by induction Hc as [|pt n pts ns -> _ IH]; [|rewrite fmap_cons, <- IH].
  - apply Hm.
Qed.

(** Two processes, the first of which has mapped two pages at 4 MB. *)
Definition demo : t :=
  match step (Mmap 0 4194304 8192 true) (init 2 initial) with Ok m => m | Fault _ => initial end.

Lemma demo_reachable : reachable 2 demo.
Proof.
  apply (reach_step 2 (init 2 initial) (Mmap 0 4194304 8192 true)); [apply reach_init|by vm_compute|by vm_compute|by vm_compute].
Qed.

Lemma translations_never_alias_witness :
  v2p_translate demo 0 4198400 = Ok 1052672 ∧ mapped demo 0 4198400 ∧ mapped demo 0 4194304 ∧
  ∀ a x a' x', u64_ok x → u64_ok x' → mapped demo a x → mapped demo a' x' →
    v2p_translate demo a x = v2p_translate demo a' x' → a = a' ∧ x = x'.
Proof.
  do 3 (split; [vm_compute; reflexivity|]).
  apply (translations_never_alias 2 demo ltac:(done) demo_reachable ltac:(by vm_compute)).
Defined.

Lemma last_page_exact v length : 0 < v → 0 ≤ length → PAGE_SIZE * v + length + 4095 < 2 ^ 64 →
  last_page v length = v + (length + 4095) / 4096.
Proof.
  intros Hv Hl Hmax. unfold last_page. unfold PAGE_SIZE in *. rewrite (u64_small (4096 * v + length)) by lia.
  unfold PAGE_MASK. rewrite u64_small by lia.
  replace (4096 * v + length + (4096 - 1)) with (length + 4095 + v * 4096) by lia.
  rewrite Z.div_add by done. lia.
Qed.

(** C36. What a mapping call reaches.  For a range of [length] bytes from page [v] on,
    which covers the [n] pages [v] to [v + n - 1]: [notify_mmap] maps the pages [v] to
    [v + n] of that address space that were not mapped, one page more than the range, and
    keeps every translation there was; [notify_munmap] unmaps exactly the pages [v] to
    [v + n], the page behind the range with them, whatever it holds. *)
Theorem mapping_takes_page_behind m asid v length : mem_ok m → next_ppn_to_allocate m ≤ 2 ^ 52 → in_range m asid →
  0 < v → 0 ≤ length → PAGE_SIZE * v + length + 8191 < 2 ^ 64 →
  let n := (length + 4095) / 4096 in
  wp (notify_mmap m asid (PAGE_SIZE * v) length false) (λ m',
    (∀ a x, is_Some (frame m' a x) ↔ is_Some (frame m a x) ∨ a = asid ∧ v ≤ x ≤ v + n) ∧
    ∀ a x q, frame m a x = Some q → frame m' a x = Some q) ∧
  wp (notify_munmap m asid (PAGE_SIZE * v) length) (λ m',
    ∀ a x, frame m' a x = if decide (a = asid ∧ v ≤ x ≤ v + n) then None else frame m a x).
Proof.
  intros Hm Hn Ha Hv Hl Hmax n. assert (v < 2 ^ 52) as Hv52 by (unfold PAGE_SIZE in Hmax; lia).
  assert (0 ≤ n ∧ 4096 * n ≤ length + 4095) as [Hn0 Hn1].
  { split; [apply Z.div_pos; lia|]. pose proof (Z.mul_div_le (length + 4095) 4096 ltac:(lia)). unfold n. lia. }
  split.
  - eapply wp_mono; [apply mmap_ok; [done|done|lia|done]|]. intros m' [_ [H1 H2]]. split; [|done].
    rewrite round_up_small in H1 by (unfold PAGE_MASK, PAGE_SIZE in *; lia). change (length + PAGE_MASK) with (length + 4095) in H1.
    fold n in H1. rewrite last_page_exact in H1 by (unfold PAGE_SIZE in *; lia).
    replace ((PAGE_SIZE * n + 4095) / 4096) with n in H1; [done|].
    unfold PAGE_SIZE. rewrite (Z.mul_comm 4096 n), Z.div_add_l by done. change (4095 / 4096) with 0. lia.
  - unfold notify_munmap. rewrite round_up_small by (unfold PAGE_MASK, PAGE_SIZE in *; lia).
    replace ((PAGE_SIZE * v + PAGE_MASK) / 4096) with v.
    2: { unfold PAGE_SIZE. rewrite (Z.mul_comm 4096 v), Z.div_add_l by done. change (PAGE_MASK / 4096) with 0. lia. }
    eapply wp_mono; [apply delmap_ok; [done|done|lia]|]. intros m' [_ Hf] a x. rewrite Hf, last_page_exact by lia. fold n.
    repeat case_decide; try done; lia.
Qed.

(** Unmapping the first page of two takes the second one away as well. *)
Lemma mapping_takes_page_behind_witness :
  mapped demo 0 4198400 ∧
  (let* m := notify_munmap demo 0 4194304 4096 in mem_is_mapped m 0 4198400) = Ok false ∧
  wp (notify_munmap demo 0 4194304 4096) (λ m',
    ∀ a x, frame m' a x = if decide (a = 0 ∧ 1024 ≤ x ≤ 1025) then None else frame demo a x).
Proof.
  split; [vm_compute; reflexivity|]. split; [vm_compute; reflexivity|].
  apply (mapping_takes_page_behind demo 0 1024 4096 (reachable_ok 2 demo ltac:(done) demo_reachable)); by vm_compute.
Defined.

End memory.
