(* ===== verification/BPredBase.v ===== *)
(** * BPredBase: the base class of the branch direction predictors and its interface

    [bpred_dir_t] of src/xiosim/zesto-bpred.h: the statistics every predictor
    keeps, the default [update], [spec_update], [recover] and [flush], and the
    virtual interface as a type class ([DirPredictor]) with the laws each
    implementation promises to its client [bpred_t] ([DirPredictorOk]).  The
    laws are about memory safety (the pointers a lookup leaves in the state
    container stay valid), and about the statistics (a branch is counted once).

    [random()] is outside the program: the operations that draw from it take
    the drawn value as the argument [rnd]. *)

From S2P Require Import Prelude.

(** The arguments of the predictor operations: the branch's address, the
    taken-branch target, the actual next address and the actual direction. *)
Record bp_args : Type := mk_args {
  PC : Z;
  tPC : Z;
  oPC : Z;
  outcome : bool
}.

(** Source: src/xiosim/zesto-bpred.h:192-196 bpred_dir_t.
    The statistics; [frozen] once the core has reached its instruction limit. *)
Record dstats : Type := mk_dstats {
  num_hits : Z;
  lookups : Z;
  updates : Z;
  spec_updates : Z;
  frozen : bool
}.

(** Source: src/xiosim/zesto-bpred.h:173-178 bpred_sc_t.
    The default state container. *)
Record bpred_sc_t : Type := mk_bpred_sc { sc_updated : bool }.

(** Source: src/xiosim/zesto-bpred.cpp:149-156 bpred_dir_t::init. *)
Definition init_stats : dstats := mk_dstats 0 0 0 0 false.

(** [BPRED_STAT(lookups++;)] *)
Definition count_lookup (st : dstats) : dstats :=
  if frozen st then st
  else mk_dstats (num_hits st) (lookups st + 1) (updates st) (spec_updates st) (frozen st).

(** [BPRED_STAT(updates++;) BPRED_STAT(num_hits += hit;)] *)
Definition count_update (st : dstats) (hit : bool) : dstats :=
  if frozen st then st
  else mk_dstats (num_hits st + Z.b2z hit) (lookups st) (updates st + 1)
         (spec_updates st) (frozen st).

(** [BPRED_STAT(spec_updates++;)] *)
Definition count_spec_update (st : dstats) : dstats :=
  if frozen st then st
  else mk_dstats (num_hits st) (lookups st) (updates st) (spec_updates st + 1) (frozen st).

(** [if(!sc->updated) { ...statistics...; sc->updated = true; }]: the statistics
    after an update through a container whose flag is [upd]. *)
Definition stats_after_update (st : dstats) (upd outcome our_pred : bool) : dstats :=
  if upd then st else count_update st (Bool.eqb our_pred outcome).

(** Source: src/xiosim/zesto-bpred.cpp:158-172 bpred_dir_t::update. *)
Definition base_update (st : dstats) (sc : bpred_sc_t) (a : bp_args) (our_pred : bool)
  : dstats * bpred_sc_t :=
  if negb (sc_updated sc) then
    (count_update st (Bool.eqb our_pred (outcome a)), mk_bpred_sc true)
  else (st, sc).

(** Source: src/xiosim/zesto-bpred.cpp:174-183 bpred_dir_t::spec_update. *)
Definition base_spec_update (st : dstats) : dstats := count_spec_update st.

(** Source: src/xiosim/zesto-bpred.cpp:185-190 bpred_dir_t::recover. *)
Definition base_recover {S C : Type} (s : S) (sc : C) (outcome : bool) : result (S * C) :=
  Ok (s, sc).

(** Source: src/xiosim/zesto-bpred.cpp:192-195 bpred_dir_t::flush. *)
Definition base_flush {S C : Type} (s : S) (sc : C) : result (S * C) := Ok (s, sc).

(** Source: src/xiosim/zesto-bpred.cpp:229-235 bpred_dir_t::reset_stats. *)
Definition reset_stats (st : dstats) : dstats := mk_dstats 0 0 0 0 (frozen st).

(** Source: src/xiosim/zesto-bpred.cpp:237-243 bpred_dir_t::get_cache. *)
Definition base_get_cache : bpred_sc_t := mk_bpred_sc false.

(** ** The virtual interface *)

(** Source: src/xiosim/zesto-bpred.h:203-245 bpred_dir_t.
    [S] is the predictor's state, [C] its state container. *)
Class DirPredictor (S C : Type) := {
  dp_stats : S → dstats;
  dp_updated : C → bool;
  dp_lookup : S → C → bp_args → Z → result (S * C * bool);
  dp_update : S → C → bp_args → bool → Z → result (S * C);
  dp_spec_update : S → C → bp_args → bool → result (S * C);
  dp_recover : S → C → bool → result (S * C);
  dp_flush : S → C → result (S * C);
  dp_get_cache : S → C;
  dp_reset_stats : S → S;
  dp_with_stats : S → dstats → S
}.

(** [keeps wf ref s s']: [s'] is well formed and every container that was valid
    for [s] is valid for [s']. *)
Definition keeps {S C : Type} (wf : S → Prop) (ref : S → C → Prop) (s s' : S) : Prop :=
  wf s' ∧ ∀ c, ref s c → ref s' c.

Lemma keeps_refl {S C} (wf : S → Prop) (ref : S → C → Prop) s : wf s → keeps wf ref s s.
Proof. done. Qed.

Lemma keeps_trans {S C} (wf : S → Prop) (ref : S → C → Prop) s1 s2 s3 :
  keeps wf ref s1 s2 → keeps wf ref s2 s3 → keeps wf ref s1 s3.
Proof. intros [? H1] [? H2]. split; auto. Qed.

(** The laws.  [dp_wf] is the representation invariant, [dp_ref s c] says that
    [c] was filled by a lookup and its pointers are valid in [s]. *)
Class DirPredictorOk (S C : Type) `{DP : !DirPredictor S C} := {
  dp_wf : S → Prop;
  dp_ref : S → C → Prop;
  dp_reset_ok : ∀ s, dp_wf s → keeps dp_wf dp_ref s (dp_reset_stats s) ∧
    dp_stats (dp_reset_stats s) = reset_stats (dp_stats s);
  dp_with_stats_ok : ∀ s st, dp_wf s → keeps dp_wf dp_ref s (dp_with_stats s st) ∧
    dp_stats (dp_with_stats s st) = st;
  dp_lookup_ok : ∀ s c a rnd, dp_wf s →
    wp (dp_lookup s c a rnd) (λ '(s', c', _),
      keeps dp_wf dp_ref s s' ∧ dp_ref s' c' ∧
      dp_stats s' = count_lookup (dp_stats s) ∧ dp_updated c' = false);
  dp_update_ok : ∀ s c a our_pred rnd, dp_wf s → dp_ref s c →
    wp (dp_update s c a our_pred rnd) (λ '(s', c'),
      keeps dp_wf dp_ref s s' ∧ dp_ref s' c' ∧
      dp_stats s' = stats_after_update (dp_stats s) (dp_updated c) (outcome a) our_pred ∧
      dp_updated c' = true);
  dp_spec_update_ok : ∀ s c a our_pred, dp_wf s → dp_ref s c →
    wp (dp_spec_update s c a our_pred) (λ '(s', c'),
      keeps dp_wf dp_ref s s' ∧ dp_ref s' c' ∧
      dp_stats s' = count_spec_update (dp_stats s) ∧ dp_updated c' = dp_updated c);
  dp_recover_ok : ∀ s c o, dp_wf s → dp_ref s c →
    wp (dp_recover s c o) (λ '(s', c'),
      keeps dp_wf dp_ref s s' ∧ dp_ref s' c' ∧
      dp_stats s' = dp_stats s ∧ dp_updated c' = dp_updated c);
  dp_flush_ok : ∀ s c, dp_wf s → dp_ref s c →
    wp (dp_flush s c) (λ '(s', c'),
      keeps dp_wf dp_ref s s' ∧ dp_ref s' c' ∧
      dp_stats s' = dp_stats s ∧ dp_updated c' = dp_updated c)
}.

(** ** Direction predictors with a recoverable history

    [H] is the branch history the predictor keeps ([hp_shift] pushes one
    outcome): a lookup saves it in the container, [spec_update] pushes the
    prediction, [recover] restores the saved history and pushes the actual
    outcome, [flush] restores it unchanged.  Some predictors only repair a
    global history: [hp_on s] says that the configuration of [s] does. *)
Class HistPredictor (S C H : Type) `{DP : !DirPredictor S C} := {
  hp_on : S → Prop;
  hp_hist : S → H;
  hp_saved : S → C → H;
  hp_shift : S → H → bool → H
}.

(** The predictors [s] and [s'] interpret histories in the same way. *)
Definition same_history_format {S C H : Type} `{HP : HistPredictor S C H} (s s' : S) : Prop :=
  hp_on s' ∧ hp_saved s' = hp_saved s ∧ hp_shift s' = hp_shift s.

Class HistPredictorOk (S C H : Type) `{HP : HistPredictor S C H} := {
  hp_lookup_ok : ∀ s c a rnd s' c' p, hp_on s → dp_lookup s c a rnd = Ok (s', c', p) →
    hp_hist s' = hp_hist s ∧ hp_saved s c' = hp_hist s ∧ same_history_format s s';
  hp_update_ok : ∀ s c a p rnd s' c', hp_on s → dp_update s c a p rnd = Ok (s', c') →
    hp_hist s' = hp_hist s ∧ same_history_format s s';
  hp_spec_update_ok : ∀ s c a p s' c', hp_on s → dp_spec_update s c a p = Ok (s', c') →
    hp_hist s' = hp_shift s (hp_hist s) p ∧ same_history_format s s';
  hp_recover_ok : ∀ s c o s' c', hp_on s → dp_recover s c o = Ok (s', c') →
    hp_hist s' = hp_shift s (hp_saved s c) o ∧ same_history_format s s';
  hp_flush_ok : ∀ s c s' c', hp_on s → dp_flush s c = Ok (s', c') →
    hp_hist s' = hp_saved s c ∧ same_history_format s s'
}.

(** ** Branch history registers held in an [int] *)

(** [(1<<history_length)-1] *)
Definition history_mask_of (history_length : Z) : Z := i32 (i32 (Z.shiftl 1 history_length) - 1).

(** [(bhr<<1)|b] *)
Definition bhr_push (bhr : Z) (b : bool) : Z := Z.lor (i32 (Z.shiftl bhr 1)) (Z.b2z b).

(** [PC^(bhr<<xorshift)] and [(PC<<history_length)|bhr], assigned to an [int]. *)
Definition xor_index (pc bhr xorshift : Z) : Z :=
  i32 (Z.lxor pc (u64 (i32 (Z.shiftl bhr xorshift)))).
Definition concat_index (pc bhr history_length : Z) : Z :=
  i32 (Z.lor (u64 (Z.shiftl pc history_length)) (u64 bhr)).

(** [xorshift = std::log2(size)-history_length; if(xorshift < 0) xorshift = 0;] *)
Definition xorshift_of (size history_length : Z) : Z :=
  if Z.log2 size - history_length <? 0 then 0 else Z.log2 size - history_length.

Lemma testbit_land_low x k n : 0 ≤ k → 0 ≤ n →
  Z.testbit (Z.land x (2 ^ k - 1)) n = Z.testbit x n && (n <? k).
Proof.
  intros Hk Hn. rewrite land_pow2_mask by done.
  destruct (Z.ltb_spec n k).
  - rewrite Z.mod_pow2_bits_low by lia. by rewrite andb_true_r.
  - rewrite Z.mod_pow2_bits_high by lia. by rewrite andb_false_r.
Qed.

(** Masking after a push forgets what was above the mask before the push. *)
Lemma bhr_push_land x k b : 0 ≤ k ≤ 31 →
  Z.land (bhr_push (Z.land x (2 ^ k - 1)) b) (2 ^ k - 1) =
  Z.land (bhr_push x b) (2 ^ k - 1).
Proof.
  intros Hk. apply Z.bits_inj'. intros n Hn.
  rewrite !testbit_land_low by lia. destruct (Z.ltb_spec n k); [|by rewrite !andb_false_r].
  rewrite !andb_true_r. unfold bhr_push. rewrite !Z.lor_spec. f_equal.
  assert (∀ y, Z.testbit (i32 y) n = Z.testbit y n) as Hlow.
  { intros y. rewrite <- (Z.mod_pow2_bits_low (i32 y) 32), <- (Z.mod_pow2_bits_low y 32) by lia.
    f_equal. by apply (wrap_s_mod 32). }
  rewrite !Hlow. destruct (decide (n = 0)) as [->|].
  - by rewrite !Z.shiftl_spec_low by lia.
  - rewrite !Z.shiftl_spec by lia. rewrite testbit_land_low by lia.
    destruct (Z.ltb_spec (n - 1) k); [by rewrite andb_true_r|lia].
Qed.

Lemma history_mask_of_pow2 k : 0 ≤ k ≤ 30 → history_mask_of k = 2 ^ k - 1.
Proof.
  intros Hk. unfold history_mask_of. rewrite shiftl_1_l by lia.
  assert (0 < 2 ^ k ≤ 2 ^ 30) by (split; [apply Z.pow_pos_nonneg|apply Z.pow_le_mono_r]; lia).
  rewrite !i32_small; try lia. rewrite i32_small; lia.
Qed.
