(* ===== verification/BPredProtocol.v ===== *)
(** * BPredProtocol: runs of a direction predictor, against its interface

    The front end keeps one state container per in-flight branch and calls the
    predictor in any interleaving: look a branch up, speculatively update,
    train at commit, recover or flush.  This file models such a client as a
    machine over the [DirPredictor] interface and proves, from the laws alone,
    that no interleaving faults, that the statistics stay consistent, and that
    recovery from a misprediction restores the branch history exactly whatever
    the wrong path did.  Every predictor of the development inherits the
    theorems through its instances. *)

From S2P Require Import Prelude BPredBase.

Record machine (S C : Type) : Type := mk_machine {
  m_pred : S;
  m_inflight : gmap nat C   (* the containers of the in-flight branches *)
}.
Arguments mk_machine {S C} _ _.
Arguments m_pred {S C} _.
Arguments m_inflight {S C} _.

Inductive event : Type :=
  | ELookup (i : nat) (a : bp_args) (rnd : Z)
  | EUpdate (i : nat) (a : bp_args) (our_pred : bool) (rnd : Z)
  | ESpecUpdate (i : nat) (a : bp_args) (our_pred : bool)
  | ERecover (i : nat) (o : bool)
  | EFlush (i : nat).

Definition ev_target (e : event) : nat :=
  match e with
  | ELookup i _ _ | EUpdate i _ _ _ | ESpecUpdate i _ _ | ERecover i _ | EFlush i => i
  end.

Section machine.
Context {S C : Type} `{DP : !DirPredictor S C}.

(** Store a pair (predictor, container) back. *)
Definition put (m : machine S C) (i : nat) (sc : S * C) : machine S C :=
  mk_machine sc.1 (<[i := sc.2]> (m_inflight m)).

(** A lookup may use a new container; the other operations need one that a
    lookup has filled. *)
Definition enabled (m : machine S C) (e : event) : bool :=
  match e with
  | ELookup _ _ _ => true
  | _ => bool_decide (is_Some (m_inflight m !! ev_target e))
  end.

Definition deref_sc (o : option C) : result C := of_option NullDeref o.

Definition exec (m : machine S C) (e : event) : result (machine S C) :=
  match e with
  | ELookup i a rnd =>
      let c := default (dp_get_cache (m_pred m)) (m_inflight m !! i) in
      let* x := dp_lookup (m_pred m) c a rnd in Ok (put m i x.1)
  | EUpdate i a p rnd =>
      let* c := deref_sc (m_inflight m !! i) in
      let* x := dp_update (m_pred m) c a p rnd in Ok (put m i x)
  | ESpecUpdate i a p =>
      let* c := deref_sc (m_inflight m !! i) in
      let* x := dp_spec_update (m_pred m) c a p in Ok (put m i x)
  | ERecover i o =>
      let* c := deref_sc (m_inflight m !! i) in
      let* x := dp_recover (m_pred m) c o in Ok (put m i x)
  | EFlush i =>
      let* c := deref_sc (m_inflight m !! i) in
      let* x := dp_flush (m_pred m) c in Ok (put m i x)
  end.

Fixpoint exec_all (m : machine S C) (es : list event) : result (machine S C) :=
  match es with
  | [] => Ok m
  | e :: es => let* m' := exec m e in exec_all m' es
  end.

(** One enabled operation of the client. *)
Definition step (m m' : machine S C) : Prop :=
  ∃ e, enabled m e = true ∧ exec m e = Ok m'.

(** The in-flight branches that have not been trained on yet. *)
Definition pending (cs : gmap nat C) : nat :=
  size (filter (λ kc, dp_updated kc.2 = false) cs).

Lemma pending_insert_fresh cs i c : cs !! i = None →
  pending (<[i := c]> cs) = (pending cs + if dp_updated c then 0 else 1)%nat.
Proof.
  intros Hi. unfold pending. destruct (dp_updated c) eqn:E.
  - rewrite map_filter_insert_False by (simpl; congruence).
    rewrite map_filter_delete, delete_id; [lia|].
    apply map_lookup_filter_None. by left.
  - rewrite map_filter_insert_True by done.
    rewrite map_size_insert_None; [lia|].
    apply map_lookup_filter_None. by left.
Qed.

Lemma pending_insert cs i c :
  pending (<[i := c]> cs) = (pending (delete i cs) + if dp_updated c then 0 else 1)%nat.
Proof.
  rewrite <- insert_delete_eq. apply pending_insert_fresh. apply lookup_delete_eq.
Qed.

Lemma pending_delete cs i c : cs !! i = Some c →
  pending cs = (pending (delete i cs) + if dp_updated c then 0 else 1)%nat.
Proof. intros Hi. rewrite <- pending_insert. by rewrite insert_id. Qed.

Lemma pending_delete_le cs i : (pending (delete i cs) ≤ pending cs)%nat.
Proof.
  destruct (cs !! i) as [c|] eqn:E.
  - rewrite (pending_delete _ _ _ E). lia.
  - by rewrite delete_id.
Qed.

Section safe.
Context `{OK : !DirPredictorOk S C}.

(** The statistics are consistent: every counted update belongs to a lookup. *)
Definition stats_inv (m : machine S C) : Prop :=
  let st := dp_stats (m_pred m) in
  num_hits st ≤ updates st ≤ lookups st ∧
  (frozen st = false → updates st + Z.of_nat (pending (m_inflight m)) ≤ lookups st).

Definition machine_inv (m : machine S C) : Prop :=
  dp_wf (m_pred m) ∧
  (∀ i c, m_inflight m !! i = Some c → dp_ref (m_pred m) c) ∧
  stats_inv m.

Lemma put_refs m i s' c' :
  (∀ j c, m_inflight m !! j = Some c → dp_ref (m_pred m) c) →
  keeps dp_wf dp_ref (m_pred m) s' → dp_ref s' c' →
  ∀ j c, m_inflight (put m i (s', c')) !! j = Some c → dp_ref (m_pred (put m i (s', c'))) c.
Proof.
  intros Hall [_ Hk] Hc j c. simpl. rewrite lookup_insert.
  case_decide; [by intros [= <-]|]. intros Hj. by apply Hk, (Hall j).
Qed.

Lemma stats_inv_lookup m i s' c' : stats_inv m →
  dp_stats s' = count_lookup (dp_stats (m_pred m)) → dp_updated c' = false →
  stats_inv (put m i (s', c')).
Proof.
  unfold stats_inv. simpl. intros (Hle & Hp) -> Hu.
  rewrite pending_insert, Hu. pose proof (pending_delete_le (m_inflight m) i).
  unfold count_lookup. destruct (frozen (dp_stats (m_pred m))) eqn:E; simpl.
  - split; [lia|congruence].
  - specialize (Hp eq_refl). split; lia.
Qed.

Lemma stats_inv_update m i c s' c' hit : stats_inv m →
  m_inflight m !! i = Some c →
  dp_stats s' = (if dp_updated c then dp_stats (m_pred m)
                 else count_update (dp_stats (m_pred m)) hit) →
  dp_updated c' = true →
  stats_inv (put m i (s', c')).
Proof.
  unfold stats_inv. simpl. intros (Hle & Hp) Hi -> Hu.
  rewrite pending_insert, Hu. rewrite (pending_delete _ _ _ Hi) in Hp.
  unfold count_update.
  destruct (dp_updated c), (frozen (dp_stats (m_pred m))) eqn:E; simpl; try congruence.
  - split; [lia|congruence].
  - specialize (Hp eq_refl). split; lia.
  - split; [lia|congruence].
  - specialize (Hp eq_refl). destruct hit; simpl; split; lia.
Qed.

Lemma stats_inv_other m i c s' c' : stats_inv m →
  m_inflight m !! i = Some c →
  dp_stats s' = dp_stats (m_pred m) ∨ dp_stats s' = count_spec_update (dp_stats (m_pred m)) →
  dp_updated c' = dp_updated c →
  stats_inv (put m i (s', c')).
Proof.
  unfold stats_inv. simpl. intros (Hle & Hp) Hi Hs Hu.
  rewrite pending_insert, Hu, <- (pending_delete _ _ _ Hi).
  destruct Hs as [-> | ->]; [done|].
  unfold count_spec_update. by destruct (frozen (dp_stats (m_pred m))) eqn:E; simpl; rewrite ?E.
Qed.

Lemma enabled_inflight m e :
  enabled m e = true →
  match e with ELookup _ _ _ => True | _ => ∃ c, m_inflight m !! ev_target e = Some c end.
Proof. destruct e; simpl; try done; by intros ?%bool_decide_eq_true. Qed.

(** One step: an enabled operation does not fault and keeps the invariant. *)
Lemma exec_safe m e :
  machine_inv m → enabled m e = true → wp (exec m e) machine_inv.
Proof.
  intros (Hwf & Href & Hst) Hen%enabled_inflight.
  destruct e; simpl in *;
    try (destruct Hen as (c & Hc); rewrite Hc; simpl; pose proof (Href _ _ Hc) as Hrc); apply wp_bind.
  - eapply wp_mono; [by apply dp_lookup_ok|]. intros [[s' c'] p] (Hk & Hr & Es & Eu).
    apply wp_ret. split_and!; [apply Hk | by eapply put_refs | by apply stats_inv_lookup].
  - eapply wp_mono; [by apply dp_update_ok|]. intros [s' c'] (Hk & Hr & Es & Eu).
    apply wp_ret. split_and!; [apply Hk | by eapply put_refs | by eapply stats_inv_update].
  - eapply wp_mono; [by apply dp_spec_update_ok|]. intros [s' c'] (Hk & Hr & Es & Eu).
    apply wp_ret. split_and!; [apply Hk | by eapply put_refs | eapply stats_inv_other; eauto].
  - eapply wp_mono; [by apply dp_recover_ok|]. intros [s' c'] (Hk & Hr & Es & Eu).
    apply wp_ret. split_and!; [apply Hk | by eapply put_refs | eapply stats_inv_other; eauto].
  - eapply wp_mono; [by apply dp_flush_ok|]. intros [s' c'] (Hk & Hr & Es & Eu).
    apply wp_ret. split_and!; [apply Hk | by eapply put_refs | eapply stats_inv_other; eauto].
Qed.

Lemma initial_inv s : dp_wf s → dp_stats s = init_stats → machine_inv (mk_machine s ∅).
Proof.
  intros Hwf E. split_and!; [done| |].
  - intros i c. simpl. by rewrite lookup_empty.
  - unfold stats_inv. simpl. rewrite E. split; [simpl; lia|].
    unfold pending. rewrite map_filter_empty, map_size_empty. simpl. lia.
Qed.

Lemma reachable_inv s m :
  dp_wf s → dp_stats s = init_stats → rtc step (mk_machine s ∅) m → machine_inv m.
Proof.
  intros Hwf E Hr. remember (mk_machine s ∅) as m0 eqn:Em.
  assert (machine_inv m0) as H0 by (subst; by apply initial_inv). clear Em E Hwf.
  induction Hr as [|m0 m1 m2 (e & Hen & Hex) _ IH]; [done|].
  apply IH. eapply wp_ok; [exact Hex|]. by apply exec_safe.
Qed.
End safe.

Section history.
Context {H : Type} `{HP : !HistPredictor S C H} `{HOK : !HistPredictorOk S C H}.

(** Operations on other containers leave the saved history of [i] alone. *)
Lemma exec_saved m e m' i c : exec m e = Ok m' → hp_on (m_pred m) → ev_target e ≠ i →
  m_inflight m !! i = Some c →
  m_inflight m' !! i = Some c ∧ same_history_format (m_pred m) (m_pred m').
Proof.
  intros He Hon Hne Hi. destruct e as [j a r|j a p r|j a p|j o|j]; simpl in *;
    repeat match goal with
    | H : rbind _ _ = Ok _ |- _ => apply bind_Ok_inv in H as (? & ? & H)
    | H : Ok _ = Ok _ |- _ => injection H as <-
    | x : _ * _ |- _ => destruct x
    end; simpl; (rewrite lookup_insert_ne by done; split; [done|]).
  - by edestruct hp_lookup_ok as (_ & _ & ?).
  - by edestruct hp_update_ok as (_ & ?).
  - by edestruct hp_spec_update_ok as (_ & ?).
  - by edestruct hp_recover_ok as (_ & ?).
  - by edestruct hp_flush_ok as (_ & ?).
Qed.

Lemma exec_all_saved es m m' i c : exec_all m es = Ok m' → hp_on (m_pred m) →
  Forall (λ e, ev_target e ≠ i) es → m_inflight m !! i = Some c →
  m_inflight m' !! i = Some c ∧ same_history_format (m_pred m) (m_pred m').
Proof.
  revert m. induction es as [|e es IH]; intros m He Hon Hes Hi; simpl in *.
  { by injection He as <-. }
  apply bind_Ok_inv in He as (m1 & E & He). inversion_clear Hes.
  destruct (exec_saved _ _ _ _ _ E Hon ltac:(done) Hi) as (Hi1 & Hon1 & Hs1 & Hf1).
  destruct (IH m1 He Hon1 ltac:(done) Hi1) as (? & ? & Hs & Hf). unfold same_history_format in *. split_and!; try done; congruence.
Qed.

Lemma exec_lookup_saved m i a r m' : exec m (ELookup i a r) = Ok m' → hp_on (m_pred m) →
  ∃ c, m_inflight m' !! i = Some c ∧ hp_saved (m_pred m) c = hp_hist (m_pred m) ∧
       same_history_format (m_pred m) (m_pred m').
Proof.
  simpl. intros He Hon. apply bind_Ok_inv in He as ([[s' c'] p] & E & He).
  injection He as <-. simpl. exists c'. rewrite lookup_insert_eq.
  apply hp_lookup_ok in E as (_ & ? & ?); [|done]. by split_and!.
Qed.

Lemma exec_recover_hist m i o c m' : exec m (ERecover i o) = Ok m' → hp_on (m_pred m) →
  m_inflight m !! i = Some c →
  hp_hist (m_pred m') = hp_shift (m_pred m) (hp_saved (m_pred m) c) o.
Proof.
  simpl. intros He Hon Hi. rewrite Hi in He. simpl in He.
  apply bind_Ok_inv in He as ([s' c'] & E & He). injection He as <-. simpl.
  by apply hp_recover_ok in E as (? & _).
Qed.

Lemma exec_flush_hist m i c m' : exec m (EFlush i) = Ok m' → hp_on (m_pred m) →
  m_inflight m !! i = Some c → hp_hist (m_pred m') = hp_saved (m_pred m) c.
Proof.
  simpl. intros He Hon Hi. rewrite Hi in He. simpl in He.
  apply bind_Ok_inv in He as ([s' c'] & E & He). injection He as <-. simpl.
  by apply hp_flush_ok in E as (? & _).
Qed.
End history.
End machine.

(** No interleaving of predictor operations faults: from a freshly constructed
    predictor, whatever operations have been made through whatever containers,
    every further enabled operation runs without fault, and the statistics
    satisfy hits <= updates <= lookups. *)
Lemma interface_interleavings_safe {S C : Type} `{OK : DirPredictorOk S C}
    (s : S) (m : machine S C) (e : event) :
  dp_wf s → dp_stats s = init_stats →
  rtc step (mk_machine s ∅) m →
  enabled m e = true →
  ∃ m', exec m e = Ok m' ∧ machine_inv m'.
Proof.
  intros Hwf E Hr Hen. apply wp_exists, exec_safe; [by eapply reachable_inv|done].
Qed.

(** Misprediction recovery is exact: a branch is looked up in container [i];
    after any sequence of operations on other containers (the wrong path and
    the commit of older branches), recovering with the actual outcome leaves
    exactly the history that the lookup saw with that outcome pushed, and
    flushing leaves exactly the history that the lookup saw. *)
Lemma interface_recovery_exact {S C H : Type} `{HOK : HistPredictorOk S C H}
    (m0 m1 m2 : machine S C) (i : nat) (a : bp_args) (rnd : Z) (es : list event) :
  hp_on (m_pred m0) →
  exec m0 (ELookup i a rnd) = Ok m1 →
  exec_all m1 es = Ok m2 → Forall (λ e, ev_target e ≠ i) es →
  (∀ o m3, exec m2 (ERecover i o) = Ok m3 →
     hp_hist (m_pred m3) = hp_shift (m_pred m0) (hp_hist (m_pred m0)) o) ∧
  (∀ m3, exec m2 (EFlush i) = Ok m3 → hp_hist (m_pred m3) = hp_hist (m_pred m0)).
Proof.
  intros Hon E1 E2 Hes.
  destruct (exec_lookup_saved _ _ _ _ _ E1 Hon) as (c & Hc & Hs & Hon1 & Hsv & Hsh).
  destruct (exec_all_saved _ _ _ _ _ E2 Hon1 Hes Hc) as (Hc2 & Hon2 & Hsv2 & Hsh2). split.
  - intros o m3 E3. rewrite (exec_recover_hist _ _ _ _ _ E3 Hon2 Hc2).
    by rewrite Hsh2, Hsh, Hsv2, Hsv, Hs.
  - intros m3 E3. rewrite (exec_flush_hist _ _ _ _ E3 Hon2 Hc2). by rewrite Hsv2, Hsv.
Qed.
