(* ===== verification/BPredGlobalHist.v ===== *)
(** * BPredGlobalHist: predictors with a table of branch history registers

    The two-level, Bi-Mode, YAGS and skewed predictors (and the COLT fusion)
    keep the same table of [int] history registers, push predictions into it
    speculatively, and repair it after a misprediction only when it has a single
    (global) register.  The interface [BhtPredictor] says so; from it every such
    predictor gets the recoverable-history laws of [HistPredictorOk], with the
    history read up to [history_mask]. *)

From S2P Require Import Prelude BPredBase.

(** [bhr = ((bhr<<1)|our_pred)&history_mask] through the pointer of the container *)
Definition bht_spec_update (bht : list Z) (p : option Z) (mask : Z) (b : bool)
  : result (list Z) :=
  let* i := deref p in
  let* h := aget bht i in
  aset bht i (Z.land (bhr_push h b) mask).

(** [if(bht_size == 1) bht[0] = (sc->lookup_bhr<<1)|outcome;] *)
Definition bht_recover (bht_size : Z) (bht : list Z) (lookup_bhr : Z) (outcome : bool)
  : result (list Z) :=
  if bht_size =? 1 then aset bht 0 (bhr_push lookup_bhr outcome) else Ok bht.

(** [if(bht_size == 1) bht[0] = sc->lookup_bhr;] *)
Definition bht_flush (bht_size : Z) (bht : list Z) (lookup_bhr : Z) : result (list Z) :=
  if bht_size =? 1 then aset bht 0 lookup_bhr else Ok bht.

Lemma wp_bht_spec_update bht p i mask b (Q : list Z → Prop) :
  p = Some i → 0 ≤ i < Z.of_nat (length bht) →
  (∀ bht', length bht' = length bht → Q bht') → wp (bht_spec_update bht p mask b) Q.
Proof.
  intros -> Hi HQ. unfold bht_spec_update. simpl. wp_go. apply HQ. apply length_insert.
Qed.

Lemma wp_bht_recover n bht h o (Q : list Z → Prop) :
  Z.of_nat (length bht) = n → (∀ bht', length bht' = length bht → Q bht') →
  wp (bht_recover n bht h o) Q.
Proof.
  intros Hn HQ. unfold bht_recover. destruct (Z.eqb_spec n 1); [wp_array|simpl]; apply HQ;
    [apply length_insert|done].
Qed.

Lemma wp_bht_flush n bht h (Q : list Z → Prop) :
  Z.of_nat (length bht) = n → (∀ bht', length bht' = length bht → Q bht') →
  wp (bht_flush n bht h) Q.
Proof.
  intros Hn HQ. unfold bht_flush. destruct (Z.eqb_spec n 1); [wp_array|simpl]; apply HQ;
    [apply length_insert|done].
Qed.

Class BhtPredictor (S C : Type) `{DP : !DirPredictor S C} := {
  bp_bht_size : S → Z;
  bp_history_mask : S → Z;
  bp_bht : S → list Z;
  bp_lookup_bhr : C → Z
}.

(** The two states have the same table geometry. *)
Definition same_bht_cfg {S C} `{BP : BhtPredictor S C} (s s' : S) : Prop :=
  bp_bht_size s' = bp_bht_size s ∧ bp_history_mask s' = bp_history_mask s.

Class BhtPredictorOk (S C : Type) `{BP : BhtPredictor S C} := {
  bp_lookup_ok : ∀ s c a rnd s' c' p, dp_lookup s c a rnd = Ok (s', c', p) →
    same_bht_cfg s s' ∧ bp_bht s' = bp_bht s ∧
    ∃ i, aget (bp_bht s) i = Ok (bp_lookup_bhr c');
  bp_update_ok : ∀ s c a p rnd s' c', dp_update s c a p rnd = Ok (s', c') →
    same_bht_cfg s s' ∧ bp_bht s' = bp_bht s;
  bp_spec_update_ok : ∀ s c a p s' c', dp_spec_update s c a p = Ok (s', c') →
    same_bht_cfg s s' ∧
    ∃ q, bht_spec_update (bp_bht s) q (bp_history_mask s) p = Ok (bp_bht s');
  bp_recover_ok : ∀ s c o s' c', dp_recover s c o = Ok (s', c') →
    same_bht_cfg s s' ∧
    bht_recover (bp_bht_size s) (bp_bht s) (bp_lookup_bhr c) o = Ok (bp_bht s');
  bp_flush_ok : ∀ s c s' c', dp_flush s c = Ok (s', c') →
    same_bht_cfg s s' ∧
    bht_flush (bp_bht_size s) (bp_bht s) (bp_lookup_bhr c) = Ok (bp_bht s')
}.

(** The recoverable history of a predictor with a single register. *)
#[export] Instance bht_hist {S C} `{BP : BhtPredictor S C} : HistPredictor S C Z := {
  hp_on s := bp_bht_size s = 1 ∧ length (bp_bht s) = 1%nat ∧
             ∃ k, 0 ≤ k ≤ 30 ∧ bp_history_mask s = 2 ^ k - 1;
  hp_hist s := Z.land (default 0 (head (bp_bht s))) (bp_history_mask s);
  hp_saved s c := Z.land (bp_lookup_bhr c) (bp_history_mask s);
  hp_shift s h b := Z.land (bhr_push h b) (bp_history_mask s)
}.

Section hist.
Context {S C : Type} `{BP : BhtPredictor S C}.

Lemma bht_format_same (s s' : S) : hp_on s → same_bht_cfg s s' →
  length (bp_bht s') = length (bp_bht s) → same_history_format s s'.
Proof. unfold same_history_format. simpl. intros Hon [-> ->] ->. done. Qed.

Lemma bht_spec_update_single bht q k b bht' : length bht = 1%nat →
  bht_spec_update bht q (2 ^ k - 1) b = Ok bht' →
  bht' = [Z.land (bhr_push (default 0 (head bht)) b) (2 ^ k - 1)].
Proof.
  unfold bht_spec_update. intros Hl E. inv_ok. inv_arrays.
  rewrite single_insert by done.
  by match goal with H : bht !! _ = Some _ |- _ => rewrite (single_lookup _ _ _ 0 Hl H) end.
Qed.

Lemma bht_recover_single bht h o bht' : length bht = 1%nat →
  bht_recover 1 bht h o = Ok bht' → bht' = [bhr_push h o].
Proof. unfold bht_recover. simpl. intros Hl E. inv_arrays. by destruct bht as [|? [|]]. Qed.

Lemma bht_flush_single bht h bht' : length bht = 1%nat →
  bht_flush 1 bht h = Ok bht' → bht' = [h].
Proof. unfold bht_flush. simpl. intros Hl E. inv_arrays. by destruct bht as [|? [|]]. Qed.

#[export] Instance bht_hist_ok `{BOK : !BhtPredictorOk S C} : HistPredictorOk S C Z.
Proof.
  split; intros *; intros Hon E; pose proof Hon as (Hb & Hl & k & Hk & Em); simpl.
  - apply bp_lookup_ok in E as (Hc & Eb & i & Hi). pose proof Hc as [_ ->]. rewrite Eb.
    apply aget_inv in Hi as [_ Hi]. rewrite (single_lookup _ _ _ 0 Hl Hi).
    split_and!; [done..|]. apply bht_format_same; by rewrite ?Eb.
  - apply bp_update_ok in E as (Hc & Eb). pose proof Hc as [_ ->]. rewrite Eb.
    split; [done|]. apply bht_format_same; by rewrite ?Eb.
  - apply bp_spec_update_ok in E as (Hc & q & Eb). pose proof Hc as [_ ->]. rewrite Em in *.
    apply bht_spec_update_single in Eb; [|done].
    split; [|apply bht_format_same; by rewrite ?Eb]. rewrite Eb. simpl.
    by rewrite bhr_push_land, <- Z.land_assoc, Z.land_diag by lia.
  - apply bp_recover_ok in E as (Hc & Eb). pose proof Hc as [_ ->]. rewrite Em, Hb in *.
    apply bht_recover_single in Eb; [|done].
    split; [|apply bht_format_same; by rewrite ?Eb]. rewrite Eb. simpl.
    by rewrite bhr_push_land by lia.
  - apply bp_flush_ok in E as (Hc & Eb). pose proof Hc as [_ ->]. rewrite Em, Hb in *.
    apply bht_flush_single in Eb; [|done].
    split; [|apply bht_format_same; by rewrite ?Eb]. by rewrite Eb.
Qed.
End hist.

Lemma same_bht_cfg_refl {S C} `{BP : BhtPredictor S C} (s : S) : same_bht_cfg s s.
Proof. done. Qed.
#[export] Hint Resolve same_bht_cfg_refl : xio.

(** The operations above leave the geometry alone and touch the table only
    through the three functions: discharge the [BhtPredictorOk] laws. *)
Ltac solve_bht_ok unfold_ops :=
  split; intros *; simpl; unfold_ops; intros E; inv_ok; simpl in *;
  (split; [done | first [done | by eexists | split; [done|by eexists]]]).
