(* ===== verification/BPred2bC.v ===== *)
(** * BPred2bC: the bimodal predictor of src/xiosim/ZCOMPS-bpred/bpred-2bc.cpp

    A table of two-bit counters indexed by the low bits of the branch address. *)

From S2P Require Import Prelude SatCounter BPredBase.

Module bpred_2bC.

(** Source: src/xiosim/ZCOMPS-bpred/bpred-2bc.cpp:21-25 bpred_2bC_sc_t. *)
Record sc : Type := mk_sc { current_ctr : option Z; updated : bool }.

(** Source: src/xiosim/ZCOMPS-bpred/bpred-2bc.cpp:27-31 bpred_2bC_t. *)
Record t : Type := mk {
  stats : dstats;
  num_entries : Z;
  entry_mask : Z;
  table : list my2bc_t;
  bits : Z
}.

Definition with_stats (s : t) (st : dstats) : t :=
  mk st (num_entries s) (entry_mask s) (table s) (bits s).
Definition with_table (s : t) (l : list my2bc_t) : t :=
  mk (stats s) (num_entries s) (entry_mask s) l (bits s).

(** Source: src/xiosim/ZCOMPS-bpred/bpred-2bc.cpp:36-58 bpred_2bC_t::bpred_2bC_t. *)
Definition create (arg_num_entries : Z) : result t :=
  let* _ := guard_or (check_ppow2 arg_num_entries) Fatal in
  Ok (mk init_stats arg_num_entries (arg_num_entries - 1)
        (weak_init <$> seqZ 0 arg_num_entries) (arg_num_entries * 2)).

(** Source: src/xiosim/ZCOMPS-bpred/bpred-2bc.cpp:67-74 bpred_2bC_t::lookup. *)
Definition lookup (s : t) (c : sc) (a : bp_args) : result (t * sc * bool) :=
  let i := Z.land (PC a) (entry_mask s) in
  let s := with_stats s (count_lookup (stats s)) in
  let* ctr := aget (table s) i in
  Ok (s, mk_sc (Some i) false, dir_of ctr).

(** Source: src/xiosim/ZCOMPS-bpred/bpred-2bc.cpp:77-87 bpred_2bC_t::update. *)
Definition update (s : t) (c : sc) (a : bp_args) (our_pred : bool) : result (t * sc) :=
  let st := stats_after_update (stats s) (updated c) (outcome a) our_pred in
  let* i := deref (current_ctr c) in
  let* ctr := aget (table s) i in
  let* table' := aset (table s) i (MY2BC_UPDATE ctr (outcome a)) in
  Ok (with_table (with_stats s st) table', mk_sc (current_ctr c) true).

(** Source: src/xiosim/ZCOMPS-bpred/bpred-2bc.cpp:90-96 bpred_2bC_t::get_cache. *)
Definition get_cache : sc := mk_sc None false.

#[export] Instance predictor : DirPredictor t sc := {
  dp_stats := stats;
  dp_updated := updated;
  dp_lookup s c a _ := lookup s c a;
  dp_update s c a p _ := update s c a p;
  dp_spec_update s c _ _ := Ok (with_stats s (base_spec_update (stats s)), c);
  dp_recover := base_recover;
  dp_flush := base_flush;
  dp_get_cache _ := get_cache;
  dp_reset_stats s := with_stats s (BPredBase.reset_stats (stats s));
  dp_with_stats := with_stats
}.

(** ** Invariant *)

Definition wf (s : t) : Prop :=
  1 ≤ num_entries s ∧ entry_mask s = num_entries s - 1 ∧
  Z.of_nat (length (table s)) = num_entries s ∧ Forall ctr_ok (table s).

Definition ref (s : t) (c : sc) : Prop :=
  ∃ i, current_ctr c = Some i ∧ 0 ≤ i < num_entries s.

Lemma bpred_2bC_create_ok n s : create n = Ok s → wf s ∧ stats s = init_stats.
Proof.
  unfold create. intros E. inv_ok. split; [|done].
  match goal with H : check_ppow2 n = true |- _ => apply check_ppow2_pos in H end.
  unfold wf. simpl. rewrite length_fmap, length_seqZ. split_and!; try lia.
  apply Forall_fmap, Forall_true. intros. apply weak_init_ok.
Qed.

Lemma keeps_stats s st : wf s → keeps wf ref s (with_stats s st).
Proof. done. Qed.

Lemma keeps_table s i x : wf s → ctr_ok x →
  keeps wf ref s (with_table s (<[i := x]> (table s))).
Proof.
  intros (? & ? & ? & ?) ?. split; [|done].
  unfold wf. simpl. rewrite length_insert. split_and!; try done. by apply Forall_insert.
Qed.

#[export] Instance predictor_ok : DirPredictorOk t sc.
Proof.
  refine {| dp_wf := wf; dp_ref := ref |}; simpl; [done|done|..].
  - intros s c a _ Hwf. pose proof Hwf as (Hn & Hm & Hl & Hc).
    pose proof (land_mask_range (PC a) (num_entries s) Hn). rewrite <- Hm in *.
    apply wp_bind, wp_aget; [simpl; lia|]. intros x _. simpl.
    split_and!; try done. eexists. simpl. eauto.
  - intros s c a p _ Hwf (i & Hi & Hr). pose proof Hwf as (Hn & Hm & Hl & Hc).
    unfold update. rewrite Hi. simpl.
    apply wp_bind, wp_aget; [lia|]. intros x Hx.
    apply wp_bind, wp_aset; [lia|]. simpl.
    split_and!; try done.
    + apply (keeps_table (with_stats s _)); [done|auto with xio].
    + exists i. simpl. auto.
  - intros s c a p Hwf Hr. done.
  - done.
  - done.
Defined.

(** The counter a branch address selects. *)
Definition counter_at (s : t) (pc : Z) : option my2bc_t :=
  table s !! Z.to_nat (Z.land pc (entry_mask s)).

(** A lookup predicts by the selected counter and leaves the table alone; an
    update trains exactly that counter. *)
Lemma bpred_2bC_functional s c a s1 c1 p our_pred s2 c2 :
  wf s → lookup s c a = Ok (s1, c1, p) →
  update s1 c1 a our_pred = Ok (s2, c2) →
  table s1 = table s ∧
  ∃ x, counter_at s (PC a) = Some x ∧ p = dir_of x ∧
       counter_at s2 (PC a) = Some (MY2BC_UPDATE x (outcome a)) ∧
       ∀ pc, Z.land pc (entry_mask s) ≠ Z.land (PC a) (entry_mask s) →
             counter_at s2 pc = counter_at s pc.
Proof.
  intros (Hn & Hm & _ & _) E1 E2. unfold lookup in E1. unfold update in E2. inv_ok.
  simpl in *. inv_ok. split; [done|].
  repeat match goal with
  | H : aget _ _ = Ok _ |- _ => apply aget_inv in H as []
  | H : aset _ _ _ = Ok _ |- _ => apply aset_inv in H as [? ->]
  end.
  match goal with H1 : ?l !! ?i = Some _, H2 : ?l !! ?i = Some _ |- _ =>
    rewrite H1 in H2; injection H2 as -> end.
  eexists. split_and!; [eassumption | done | | ]; unfold counter_at; simpl.
  - by apply list_lookup_insert_eq; lia.
  - intros pc Hne. rewrite list_lookup_insert_ne; [done|].
    pose proof (land_mask_range pc (num_entries s) Hn). rewrite <- Hm in *. lia.
Qed.

End bpred_2bC.
