(* ===== verification/BPred2lev.v ===== *)
(** * BPred2lev: the two-level predictors of src/xiosim/ZCOMPS-bpred/bpred-2lev.cpp

    A table of branch history registers (BHT) selects, together with the branch
    address, a two-bit counter of the pattern history table (PHT).  With one
    BHR this is a global-history predictor (GAg, gshare), and only then is the
    history repaired after a misprediction. *)

From S2P Require Import Prelude SatCounter BPredBase BPredGlobalHist.

Module bpred_2lev.

(** Source: src/xiosim/ZCOMPS-bpred/bpred-2lev.cpp:25-31 bpred_2lev_sc_t. *)
Record sc : Type := mk_sc {
  current_ctr : option Z;
  bhr : option Z;
  lookup_bhr : Z;
  updated : bool
}.

(** Source: src/xiosim/ZCOMPS-bpred/bpred-2lev.cpp:35-44 bpred_2lev_t.
    The members the constructor fixes. *)
Record cfg : Type := mk_cfg {
  bht_size : Z;
  bht_mask : Z;
  pht_size : Z;
  pht_mask : Z;
  history_length : Z;
  history_mask : Z;
  Xor : bool;
  xorshift : Z;
  bits : Z
}.

(** Source: src/xiosim/ZCOMPS-bpred/bpred-2lev.cpp:37-40 bpred_2lev_t. *)
Record t : Type := mk {
  conf : cfg;
  stats : dstats;
  bht : list Z;
  pht : list my2bc_t
}.

Definition with_stats (s : t) (st : dstats) : t := mk (conf s) st (bht s) (pht s).
Definition with_bht (s : t) (l : list Z) : t := mk (conf s) (stats s) l (pht s).
Definition with_pht (s : t) (l : list my2bc_t) : t := mk (conf s) (stats s) (bht s) l.

(** Source: src/xiosim/ZCOMPS-bpred/bpred-2lev.cpp:49-92 bpred_2lev_t::bpred_2lev_t.
    [xorshift] is not assigned when [Xor] is 0, and not read either. *)
Definition create (arg_bht_size arg_pht_size arg_history_length arg_Xor : Z) : result t :=
  let* _ := guard_or (check_ppow2 arg_bht_size) Fatal in
  let* _ := guard_or (check_ppow2 arg_pht_size) Fatal in
  let* _ := guard_or (0 <=? arg_history_length) Fatal in
  let* _ := guard_or ((arg_Xor =? 0) || (arg_Xor =? 1)) Fatal in
  Ok (mk (mk_cfg arg_bht_size (arg_bht_size - 1) arg_pht_size (arg_pht_size - 1)
            arg_history_length (history_mask_of arg_history_length)
            (negb (arg_Xor =? 0)) (xorshift_of arg_pht_size arg_history_length)
            (arg_bht_size * arg_history_length + arg_pht_size * 2))
         init_stats
         (replicate (Z.to_nat arg_bht_size) 0)
         (weak_init <$> seqZ 0 arg_pht_size)).

(** The PHT index of a branch address under a history. *)
Definition l2_index (k : cfg) (pc h : Z) : Z :=
  Z.land (if Xor k then xor_index pc h (xorshift k)
          else concat_index pc h (history_length k)) (pht_mask k).

(** Source: src/xiosim/ZCOMPS-bpred/bpred-2lev.cpp:102-127 bpred_2lev_t::lookup. *)
Definition lookup (s : t) (c : sc) (a : bp_args) : result (t * sc * bool) :=
  let l1index := Z.land (PC a) (bht_mask (conf s)) in
  let* h := aget (bht s) l1index in
  let l2index := l2_index (conf s) (PC a) h in
  let* ctr := aget (pht s) l2index in
  Ok (with_stats s (count_lookup (stats s)),
      mk_sc (Some l2index) (Some l1index) h false, dir_of ctr).

(** Source: src/xiosim/ZCOMPS-bpred/bpred-2lev.cpp:130-142 bpred_2lev_t::update. *)
Definition update (s : t) (c : sc) (a : bp_args) (our_pred : bool) : result (t * sc) :=
  let* i := deref (current_ctr c) in
  let* ctr := aget (pht s) i in
  let* pht' := aset (pht s) i (MY2BC_UPDATE ctr (outcome a)) in
  let st := stats_after_update (stats s) (updated c) (outcome a) our_pred in
  Ok (with_stats (with_pht s pht') st, mk_sc (current_ctr c) (bhr c) (lookup_bhr c) true).

(** Source: src/xiosim/ZCOMPS-bpred/bpred-2lev.cpp:145-152 bpred_2lev_t::spec_update. *)
Definition spec_update (s : t) (c : sc) (our_pred : bool) : result (t * sc) :=
  let s := with_stats s (count_spec_update (stats s)) in
  let* bht' := bht_spec_update (bht s) (bhr c) (history_mask (conf s)) our_pred in
  Ok (with_bht s bht', c).

(** Source: src/xiosim/ZCOMPS-bpred/bpred-2lev.cpp:154-159 bpred_2lev_t::recover. *)
Definition recover (s : t) (c : sc) (outcome : bool) : result (t * sc) :=
  let* bht' := bht_recover (bht_size (conf s)) (bht s) (lookup_bhr c) outcome in
  Ok (with_bht s bht', c).

(** Source: src/xiosim/ZCOMPS-bpred/bpred-2lev.cpp:161-166 bpred_2lev_t::flush. *)
Definition flush (s : t) (c : sc) : result (t * sc) :=
  let* bht' := bht_flush (bht_size (conf s)) (bht s) (lookup_bhr c) in
  Ok (with_bht s bht', c).

(** Source: src/xiosim/ZCOMPS-bpred/bpred-2lev.cpp:169-175 bpred_2lev_t::get_cache. *)
Definition get_cache : sc := mk_sc None None 0 false.

#[export] Instance predictor : DirPredictor t sc := {
  dp_stats := stats;
  dp_updated := updated;
  dp_lookup s c a _ := lookup s c a;
  dp_update s c a p _ := update s c a p;
  dp_spec_update s c _ p := spec_update s c p;
  dp_recover := recover;
  dp_flush := flush;
  dp_get_cache _ := get_cache;
  dp_reset_stats s := with_stats s (BPredBase.reset_stats (stats s));
  dp_with_stats := with_stats
}.

(** ** Invariant *)

Definition wf_cfg (k : cfg) : Prop :=
  1 ≤ bht_size k ∧ bht_mask k = bht_size k - 1 ∧
  1 ≤ pht_size k ∧ pht_mask k = pht_size k - 1.

Definition wf (s : t) : Prop :=
  wf_cfg (conf s) ∧
  Z.of_nat (length (bht s)) = bht_size (conf s) ∧
  Z.of_nat (length (pht s)) = pht_size (conf s) ∧ Forall ctr_ok (pht s).

Definition ref (s : t) (c : sc) : Prop :=
  (∃ i, current_ctr c = Some i ∧ 0 ≤ i < pht_size (conf s)) ∧
  (∃ i, bhr c = Some i ∧ 0 ≤ i < bht_size (conf s)).

Lemma bpred_2lev_create_ok b p h x s :
  create b p h x = Ok s → wf s ∧ stats s = init_stats.
Proof.
  unfold create. intros E. inv_ok. split; [|done].
  repeat match goal with H : check_ppow2 _ = true |- _ => apply check_ppow2_pos in H end.
  unfold wf, wf_cfg. simpl. rewrite length_fmap, length_seqZ, length_replicate.
  split_and!; try lia. apply Forall_fmap, Forall_true. intros. apply weak_init_ok.
Qed.

Lemma lev2_keeps_bht s l : wf s → length l = length (bht s) → keeps wf ref s (with_bht s l).
Proof. intros (? & ? & ? & ?) E. split; [|done]. unfold wf. simpl. by rewrite E. Qed.

Lemma keeps_pht s i x : wf s → ctr_ok x → keeps wf ref s (with_pht s (<[i := x]> (pht s))).
Proof.
  intros (? & ? & ? & ?) ?. split; [|done].
  unfold wf. simpl. rewrite length_insert. split_and!; try done. by apply Forall_insert.
Qed.

#[export] Instance predictor_ok : DirPredictorOk t sc.
Proof.
  refine {| dp_wf := wf; dp_ref := ref |}; simpl; [done|done|..].
  - intros s c a _ Hwf. pose proof Hwf as ((Hb & Em & Hp & Ep) & Lb & Lp & Hc).
    pose proof (land_mask_range (PC a) _ Hb) as R1. rewrite <- Em in R1. unfold lookup.
    apply wp_bind. wp_array. apply wp_bind. unfold l2_index.
    match goal with |- context [Z.land ?z (pht_mask _)] =>
      pose proof (land_mask_range z _ Hp) as R2 end. rewrite <- Ep in R2.
    wp_array. split_and!; try done; unfold ref; simpl; eauto 6.
  - intros s c a p _ Hwf Hr. pose proof Hr as ((i & Hi & ?) & _).
    pose proof Hwf as (_ & Lb & Lp & Hc). unfold update. rewrite Hi. simpl. wp_go.
    split_and!; try done; [apply (keeps_pht (with_stats s _)); auto with xio|].
    split; simpl; [by eauto|apply Hr].
  - intros s c a p Hwf Hr. pose proof Hr as (_ & (i & Hi & ?)). pose proof Hwf as (_ & Lb & _).
    apply wp_bind. apply (wp_bht_spec_update _ _ i); simpl; [done|lia|]. intros l El.
    split_and!; try done. by apply (lev2_keeps_bht (with_stats s _)).
  - intros s c o Hwf Hr. pose proof Hwf as (_ & Lb & _).
    apply wp_bind, wp_bht_recover; [done|]. intros l El. simpl.
    split_and!; try done. by apply lev2_keeps_bht.
  - intros s c Hwf Hr. pose proof Hwf as (_ & Lb & _).
    apply wp_bind, wp_bht_flush; [done|]. intros l El. simpl.
    split_and!; try done. by apply lev2_keeps_bht.
Defined.

(** ** Global history *)

#[export] Instance bht_pred : BhtPredictor t sc := {
  bp_bht_size s := bht_size (conf s);
  bp_history_mask s := history_mask (conf s);
  bp_bht := bht;
  bp_lookup_bhr := lookup_bhr
}.

#[export] Instance bht_ok : BhtPredictorOk t sc.
Proof. solve_bht_ok ltac:(unfold lookup, update, spec_update, recover, flush). Qed.

End bpred_2lev.
