(* ===== verification/BPredBimode.v ===== *)
(** * BPredBimode: the Bi-Mode predictor of src/xiosim/ZCOMPS-bpred/bpred-bimode.cpp

    A choice table indexed by the branch address selects one of two pattern
    history tables, one biased towards not-taken and one towards taken. *)

From S2P Require Import Prelude SatCounter BPredBase BPredGlobalHist.

Module bpred_bimode.

(** Source: src/xiosim/ZCOMPS-bpred/bpred-bimode.cpp:26-34 bpred_bimode_sc_t.
    [pred_ctr] points into [pht[select]]. *)
Record sc : Type := mk_sc {
  bhr : option Z;
  select_ctr : option Z;
  pred_ctr : option (Z * Z);
  updated : bool;
  lookup_bhr : Z
}.

(** Source: src/xiosim/ZCOMPS-bpred/bpred-bimode.cpp:36-48 bpred_bimode_t.
    The members the constructor fixes. *)
Record cfg : Type := mk_cfg {
  bht_size : Z;
  bht_mask : Z;
  pht_size : Z;
  pht_mask : Z;
  history_length : Z;
  history_mask : Z;
  Xor : bool;
  xorshift : Z;
  bits : Z
}.

(** Source: src/xiosim/ZCOMPS-bpred/bpred-bimode.cpp:38-44 bpred_bimode_t. *)
Record t : Type := mk {
  conf : cfg;
  stats : dstats;
  bht : list Z;
  pht : list (list my2bc_t);
  pht_meta : list my2bc_t
}.

Definition with_stats (s : t) (st : dstats) : t :=
  mk (conf s) st (bht s) (pht s) (pht_meta s).
Definition with_bht (s : t) (l : list Z) : t :=
  mk (conf s) (stats s) l (pht s) (pht_meta s).
Definition with_pht (s : t) (l : list (list my2bc_t)) : t :=
  mk (conf s) (stats s) (bht s) l (pht_meta s).
Definition with_meta (s : t) (l : list my2bc_t) : t :=
  mk (conf s) (stats s) (bht s) (pht s) l.

(** Source: src/xiosim/ZCOMPS-bpred/bpred-bimode.cpp:53-105 bpred_bimode_t::bpred_bimode_t. *)
Definition create (arg_bht_size arg_pht_size arg_history_length arg_Xor : Z) : result t :=
  let* _ := guard_or (check_ppow2 arg_bht_size) Fatal in
  let* _ := guard_or (check_ppow2 arg_pht_size) Fatal in
  let* _ := guard_or (0 <=? arg_history_length) Fatal in
  let* _ := guard_or ((arg_Xor =? 0) || (arg_Xor =? 1)) Fatal in
  Ok (mk (mk_cfg arg_bht_size (arg_bht_size - 1) arg_pht_size (arg_pht_size - 1)
            arg_history_length (history_mask_of arg_history_length)
            (negb (arg_Xor =? 0)) (xorshift_of arg_pht_size arg_history_length)
            (arg_bht_size * arg_history_length + arg_pht_size * 6))
         init_stats
         (replicate (Z.to_nat arg_bht_size) 0)
         [replicate (Z.to_nat arg_pht_size) MY2BC_WEAKLY_NT;
          replicate (Z.to_nat arg_pht_size) MY2BC_WEAKLY_TAKEN]
         (weak_init <$> seqZ 0 arg_pht_size)).

Definition l2_index (k : cfg) (pc h : Z) : Z :=
  Z.land (if Xor k then xor_index pc h (xorshift k)
          else concat_index pc h (history_length k)) (pht_mask k).

(** Source: src/xiosim/ZCOMPS-bpred/bpred-bimode.cpp:119-150 bpred_bimode_t::lookup. *)
Definition lookup (s : t) (c : sc) (a : bp_args) : result (t * sc * bool) :=
  let l1index := Z.land (PC a) (bht_mask (conf s)) in
  let* h := aget (bht s) l1index in
  let l2index := l2_index (conf s) (PC a) h in
  let mi := Z.land (PC a) (pht_mask (conf s)) in
  let* sel := aget (pht_meta s) mi in
  let select := MY2BC_DIR sel in
  let* ctr := aget2 (pht s) select l2index in
  Ok (with_stats s (count_lookup (stats s)),
      mk_sc (Some l1index) (Some mi) (Some (select, l2index)) false h, dir_of ctr).

(** Source: src/xiosim/ZCOMPS-bpred/bpred-bimode.cpp:153-173 bpred_bimode_t::update.
    The choice counter is not trained when it chose against the outcome but the
    chosen table predicted it. *)
Definition update (s : t) (c : sc) (a : bp_args) (our_pred : bool) : result (t * sc) :=
  let* si := deref (select_ctr c) in
  let* pij := of_option NullDeref (pred_ctr c) in
  let* sel := aget (pht_meta s) si in
  let* ctr := aget2 (pht s) pij.1 pij.2 in
  let select := dir_of sel in
  let pred := dir_of ctr in
  let* pht' := aset2 (pht s) pij.1 pij.2 (MY2BC_UPDATE ctr (outcome a)) in
  let* meta' :=
    (if negb (Bool.eqb pred (outcome a) && negb (Bool.eqb select (outcome a)))
     then aset (pht_meta s) si (MY2BC_UPDATE sel (outcome a))
     else Ok (pht_meta s)) in
  let st := stats_after_update (stats s) (updated c) (outcome a) our_pred in
  Ok (with_stats (with_meta (with_pht s pht') meta') st,
      mk_sc (bhr c) (select_ctr c) (pred_ctr c) true (lookup_bhr c)).

(** Source: src/xiosim/ZCOMPS-bpred/bpred-bimode.cpp:176-182 bpred_bimode_t::spec_update. *)
Definition spec_update (s : t) (c : sc) (our_pred : bool) : result (t * sc) :=
  let s := with_stats s (count_spec_update (stats s)) in
  let* bht' := bht_spec_update (bht s) (bhr c) (history_mask (conf s)) our_pred in
  Ok (with_bht s bht', c).

(** Source: src/xiosim/ZCOMPS-bpred/bpred-bimode.cpp:185-191 bpred_bimode_t::recover. *)
Definition recover (s : t) (c : sc) (outcome : bool) : result (t * sc) :=
  let* bht' := bht_recover (bht_size (conf s)) (bht s) (lookup_bhr c) outcome in
  Ok (with_bht s bht', c).

(** Source: src/xiosim/ZCOMPS-bpred/bpred-bimode.cpp:194-200 bpred_bimode_t::flush. *)
Definition flush (s : t) (c : sc) : result (t * sc) :=
  let* bht' := bht_flush (bht_size (conf s)) (bht s) (lookup_bhr c) in
  Ok (with_bht s bht', c).

(** Source: src/xiosim/ZCOMPS-bpred/bpred-bimode.cpp:203-209 bpred_bimode_t::get_cache. *)
Definition get_cache : sc := mk_sc None None None false 0.

#[export] Instance predictor : DirPredictor t sc := {
  dp_stats := stats;
  dp_updated := updated;
  dp_lookup s c a _ := lookup s c a;
  dp_update s c a p _ := update s c a p;
  dp_spec_update s c _ p := spec_update s c p;
  dp_recover := recover;
  dp_flush := flush;
  dp_get_cache _ := get_cache;
  dp_reset_stats s := with_stats s (BPredBase.reset_stats (stats s));
  dp_with_stats := with_stats
}.

(** ** Invariant *)

Definition wf_cfg (k : cfg) : Prop :=
  1 ≤ bht_size k ∧ bht_mask k = bht_size k - 1 ∧
  1 ≤ pht_size k ∧ pht_mask k = pht_size k - 1.

Definition wf (s : t) : Prop :=
  wf_cfg (conf s) ∧
  Z.of_nat (length (bht s)) = bht_size (conf s) ∧
  length (pht s) = 2%nat ∧ Forall (row_ok (pht_size (conf s)) ctr_ok) (pht s) ∧
  Z.of_nat (length (pht_meta s)) = pht_size (conf s) ∧ Forall ctr_ok (pht_meta s).

Definition ref (s : t) (c : sc) : Prop :=
  (∃ i, bhr c = Some i ∧ 0 ≤ i < bht_size (conf s)) ∧
  (∃ i, select_ctr c = Some i ∧ 0 ≤ i < pht_size (conf s)) ∧
  (∃ i j, pred_ctr c = Some (i, j) ∧ 0 ≤ i < 2 ∧ 0 ≤ j < pht_size (conf s)).

Lemma bpred_bimode_create_ok b p h x s :
  create b p h x = Ok s → wf s ∧ stats s = init_stats.
Proof.
  unfold create. intros E. inv_ok. split; [|done].
  repeat match goal with H : check_ppow2 _ = true |- _ => apply check_ppow2_pos in H end.
  pose proof (weak_table_ok p ltac:(lia)) as [? ?].
  pose proof weak_states_ok as (? & ? & _).
  unfold wf, wf_cfg. simpl. rewrite length_replicate.
  split_and!; try done; try lia.
  apply Forall_cons_2; [apply row_ok_replicate; [lia|done]|].
  apply Forall_singleton. apply row_ok_replicate; [lia|done].
Qed.

Lemma bimode_keeps_bht s l : wf s → length l = length (bht s) → keeps wf ref s (with_bht s l).
Proof. intros (? & ? & ?) E. split; [|done]. unfold wf. simpl. by rewrite E. Qed.

Lemma MY2BC_DIR_range x : 0 ≤ MY2BC_DIR x < 2.
Proof. unfold MY2BC_DIR. pose proof (land_bound x 1). lia. Qed.

Lemma bpred_bimode_update_safe s c a p : wf s → ref s c →
  wp (update s c a p) (λ '(s', c'), keeps wf ref s s' ∧ ref s' c' ∧
    stats s' = stats_after_update (stats s) (updated c) (outcome a) p ∧ updated c' = true).
Proof.
  intros Hwf (Hbhr & (i & Hi & ?) & (u & j & Hj & ? & ?)).
  pose proof Hwf as (Hk & Lb & Lp & Hp & Lm & Hm). unfold update. rewrite Hi, Hj. simpl.
  apply wp_bind. wp_array. apply wp_bind.
  eapply wp_aget2; [exact Hp|lia|lia|]. intros y _ Hy. simpl.
  apply wp_bind. eapply wp_aset2; [exact Hp|lia|lia|auto with xio|].
  intros pht' _ Hl' Hp'. simpl. apply wp_bind.
  eapply (wp_mono _ (λ meta', Z.of_nat (length meta') = pht_size (conf s) ∧ Forall ctr_ok meta')).
  { destruct (negb _); [|done]. wp_array. rewrite length_insert.
    split; [done|]. apply Forall_insert; auto with xio. }
  intros meta' [Lm' Hm']. simpl. split_and!; try done.
  - split; [|done]. unfold wf. simpl. split_and!; try done. by rewrite Hl'.
  - unfold ref. simpl. split_and!; eauto 6.
Qed.

#[export] Instance predictor_ok : DirPredictorOk t sc.
Proof.
  refine {| dp_wf := wf; dp_ref := ref |}; simpl; [done|done|..].
  - intros s c a _ Hwf. pose proof Hwf as ((Hb & Em & Hp & Ep) & Lb & L2 & Hr & Lm & Hc).
    pose proof (land_mask_range (PC a) _ Hb) as R1. rewrite <- Em in R1.
    pose proof (land_mask_range (PC a) _ Hp) as R3. rewrite <- Ep in R3. unfold lookup.
    apply wp_bind. wp_array. apply wp_bind. wp_array. apply wp_bind. unfold l2_index.
    match goal with |- context [Z.land (if ?b then ?u else ?v) _] =>
      pose proof (land_mask_range (if b then u else v) _ Hp) as R2 end. rewrite <- Ep in R2.
    match goal with |- context [MY2BC_DIR ?y] => pose proof (MY2BC_DIR_range y) end.
    eapply wp_aget2; [exact Hr|lia|lia|]. intros y _ Hy. simpl.
    split_and!; try done. unfold ref. simpl. split_and!; eauto 8.
  - intros. by apply bpred_bimode_update_safe.
  - intros s c a p Hwf Hr. pose proof Hr as ((i & Hi & ?) & _). pose proof Hwf as (_ & Lb & _).
    apply wp_bind. apply (wp_bht_spec_update _ _ i); simpl; [done|lia|]. intros l El.
    split_and!; try done. by apply (bimode_keeps_bht (with_stats s _)).
  - intros s c o Hwf Hr. pose proof Hwf as (_ & Lb & _).
    apply wp_bind, wp_bht_recover; [done|]. intros l El. simpl.
    split_and!; try done. by apply bimode_keeps_bht.
  - intros s c Hwf Hr. pose proof Hwf as (_ & Lb & _).
    apply wp_bind, wp_bht_flush; [done|]. intros l El. simpl.
    split_and!; try done. by apply bimode_keeps_bht.
Defined.

(** ** Global history *)

#[export] Instance bht_pred : BhtPredictor t sc := {
  bp_bht_size s := bht_size (conf s);
  bp_history_mask s := history_mask (conf s);
  bp_bht := bht;
  bp_lookup_bhr := lookup_bhr
}.

#[export] Instance bht_ok : BhtPredictorOk t sc.
Proof. solve_bht_ok ltac:(unfold lookup, update, spec_update, recover, flush). Qed.

End bpred_bimode.
