(* ===== verification/BPredYags.v ===== *)
(** * BPredYags: the YAGS predictor of src/xiosim/ZCOMPS-bpred/bpred-yags.cpp

    A choice table of two-bit counters, and two tagged caches that hold the
    branches that go against their choice: the not-taken cache is consulted
    when the choice is taken, the taken cache when it is not taken. *)

From S2P Require Import Prelude SatCounter BPredBase BPredGlobalHist.

Module bpred_yags.

(** Source: src/xiosim/ZCOMPS-bpred/bpred-yags.cpp:26-29 yags_cache_t.
    [tag] is an [unsigned char]. *)
Record entry : Type := mk_entry { tag : Z; ctr : my2bc_t }.

(** Source: src/xiosim/ZCOMPS-bpred/bpred-yags.cpp:31-41 bpred_yags_sc_t.
    A pointer to a cache entry: which cache ([true] for [T_cache]) and where. *)
Record sc : Type := mk_sc {
  pht_ctr : option Z;
  cache_entry : option (bool * Z);
  bhr : option Z;
  tag_match : bool;
  pred : bool;
  choice : bool;
  lookup_bhr : Z;
  updated : bool
}.

(** Source: src/xiosim/ZCOMPS-bpred/bpred-yags.cpp:45-63 bpred_yags_t.
    The members the constructor fixes. *)
Record cfg : Type := mk_cfg {
  bht_size : Z;
  bht_mask : Z;
  pht_size : Z;
  pht_mask : Z;
  tag_width : Z;
  tag_mask : Z;
  cache_size : Z;
  cache_mask : Z;
  history_length : Z;
  history_mask : Z;
  Xor : bool;
  xorshift : Z;
  bits : Z
}.

(** Source: src/xiosim/ZCOMPS-bpred/bpred-yags.cpp:45-57 bpred_yags_t. *)
Record t : Type := mk {
  conf : cfg;
  stats : dstats;
  bht : list Z;
  pht : list my2bc_t;
  T_cache : list entry;
  NT_cache : list entry
}.

Definition with_stats (s : t) (st : dstats) : t :=
  mk (conf s) st (bht s) (pht s) (T_cache s) (NT_cache s).
Definition with_bht (s : t) (l : list Z) : t :=
  mk (conf s) (stats s) l (pht s) (T_cache s) (NT_cache s).
Definition with_pht (s : t) (l : list my2bc_t) : t :=
  mk (conf s) (stats s) (bht s) l (T_cache s) (NT_cache s).

(** The cache a pointer points into. *)
Definition cache_of (s : t) (taken : bool) : list entry :=
  if taken then T_cache s else NT_cache s.
Definition with_cache (s : t) (taken : bool) (l : list entry) : t :=
  if taken then mk (conf s) (stats s) (bht s) (pht s) l (NT_cache s)
  else mk (conf s) (stats s) (bht s) (pht s) (T_cache s) l.

(** Source: src/xiosim/ZCOMPS-bpred/bpred-yags.cpp:66-126 bpred_yags_t::bpred_yags_t. *)
Definition create (arg_bht_size arg_pht_size arg_history_length arg_Xor arg_cache_size
    arg_tag_width : Z) : result t :=
  let* _ := guard_or (check_ppow2 arg_bht_size) Fatal in
  let* _ := guard_or (check_ppow2 arg_pht_size) Fatal in
  let* _ := guard_or (check_ppow2 arg_cache_size) Fatal in
  let* _ := guard_or (0 <=? arg_history_length) Fatal in
  let* _ := guard_or ((arg_Xor =? 0) || (arg_Xor =? 1)) Fatal in
  Ok (mk (mk_cfg arg_bht_size (arg_bht_size - 1) arg_pht_size (arg_pht_size - 1)
            arg_tag_width (history_mask_of arg_tag_width)
            arg_cache_size (arg_cache_size - 1)
            arg_history_length (history_mask_of arg_history_length)
            (negb (arg_Xor =? 0)) (xorshift_of arg_cache_size arg_history_length)
            (arg_bht_size * arg_history_length + arg_pht_size * 2
             + (arg_tag_width + 2) * arg_cache_size * 2))
         init_stats
         (replicate (Z.to_nat arg_bht_size) 0)
         (weak_init <$> seqZ 0 arg_pht_size)
         (replicate (Z.to_nat arg_cache_size) (mk_entry 0 MY2BC_WEAKLY_TAKEN))
         (replicate (Z.to_nat arg_cache_size) (mk_entry 0 MY2BC_WEAKLY_NT))).

Definition l2_index (k : cfg) (pc h : Z) : Z :=
  Z.land (if Xor k then xor_index pc h (xorshift k)
          else concat_index pc h (history_length k)) (cache_mask k).

(** [PC & tag_mask], an [md_addr_t]. *)
Definition pc_tag (k : cfg) (pc : Z) : Z := Z.land pc (u64 (tag_mask k)).

(** Source: src/xiosim/ZCOMPS-bpred/bpred-yags.cpp:138-173 bpred_yags_t::lookup. *)
Definition lookup (s : t) (c : sc) (a : bp_args) : result (t * sc * bool) :=
  let l1index := Z.land (PC a) (bht_mask (conf s)) in
  let pi := Z.land (PC a) (pht_mask (conf s)) in
  let* pc := aget (pht s) pi in
  let choice := dir_of pc in
  let* h := aget (bht s) l1index in
  let l2index := l2_index (conf s) (PC a) h in
  let* e := aget (cache_of s (negb choice)) l2index in
  let tag_match := tag e =? pc_tag (conf s) (PC a) in
  let pred := if tag_match then dir_of (ctr e) else choice in
  Ok (with_stats s (count_lookup (stats s)),
      mk_sc (Some pi) (Some (negb choice, l2index)) (Some l1index) tag_match pred choice h false,
      pred).

(** Source: src/xiosim/ZCOMPS-bpred/bpred-yags.cpp:176-207 bpred_yags_t::update. *)
Definition update (s : t) (c : sc) (a : bp_args) (our_pred : bool) : result (t * sc) :=
  let* s :=
    (if tag_match c || xorb (choice c) (outcome a) then
       let* q := of_option NullDeref (cache_entry c) in
       let* e := aget (cache_of s q.1) q.2 in
       let tag' := if tag_match c then tag e else u8 (pc_tag (conf s) (PC a)) in
       let* cache' := aset (cache_of s q.1) q.2
                        (mk_entry tag' (MY2BC_UPDATE (ctr e) (outcome a))) in
       Ok (with_cache s q.1 cache')
     else Ok s) in
  let* pht' :=
    (if negb (Bool.eqb (pred c) (outcome a) && negb (Bool.eqb (choice c) (outcome a))) then
       let* pi := deref (pht_ctr c) in
       let* x := aget (pht s) pi in
       aset (pht s) pi (MY2BC_UPDATE x (outcome a))
     else Ok (pht s)) in
  let st := stats_after_update (stats s) (updated c) (outcome a) our_pred in
  Ok (with_stats (with_pht s pht') st,
      mk_sc (pht_ctr c) (cache_entry c) (bhr c) (tag_match c) (pred c) (choice c)
        (lookup_bhr c) true).

(** Source: src/xiosim/ZCOMPS-bpred/bpred-yags.cpp:210-216 bpred_yags_t::spec_update. *)
Definition spec_update (s : t) (c : sc) (our_pred : bool) : result (t * sc) :=
  let s := with_stats s (count_spec_update (stats s)) in
  let* bht' := bht_spec_update (bht s) (bhr c) (history_mask (conf s)) our_pred in
  Ok (with_bht s bht', c).

(** Source: src/xiosim/ZCOMPS-bpred/bpred-yags.cpp:219-224 bpred_yags_t::recover. *)
Definition recover (s : t) (c : sc) (outcome : bool) : result (t * sc) :=
  let* bht' := bht_recover (bht_size (conf s)) (bht s) (lookup_bhr c) outcome in
  Ok (with_bht s bht', c).

(** Source: src/xiosim/ZCOMPS-bpred/bpred-yags.cpp:227-232 bpred_yags_t::flush. *)
Definition flush (s : t) (c : sc) : result (t * sc) :=
  let* bht' := bht_flush (bht_size (conf s)) (bht s) (lookup_bhr c) in
  Ok (with_bht s bht', c).

(** Source: src/xiosim/ZCOMPS-bpred/bpred-yags.cpp:235-241 bpred_yags_t::get_cache. *)
Definition get_cache : sc := mk_sc None None None false false false 0 false.

#[export] Instance predictor : DirPredictor t sc := {
  dp_stats := stats;
  dp_updated := updated;
  dp_lookup s c a _ := lookup s c a;
  dp_update s c a p _ := update s c a p;
  dp_spec_update s c _ p := spec_update s c p;
  dp_recover := recover;
  dp_flush := flush;
  dp_get_cache _ := get_cache;
  dp_reset_stats s := with_stats s (BPredBase.reset_stats (stats s));
  dp_with_stats := with_stats
}.

(** ** Invariant *)

Definition wf_cfg (k : cfg) : Prop :=
  1 ≤ bht_size k ∧ bht_mask k = bht_size k - 1 ∧
  1 ≤ pht_size k ∧ pht_mask k = pht_size k - 1 ∧
  1 ≤ cache_size k ∧ cache_mask k = cache_size k - 1.

Definition entry_ok (e : entry) : Prop := 0 ≤ tag e < 256 ∧ ctr_ok (ctr e).

Definition wf (s : t) : Prop :=
  wf_cfg (conf s) ∧
  Z.of_nat (length (bht s)) = bht_size (conf s) ∧
  row_ok (pht_size (conf s)) ctr_ok (pht s) ∧
  ∀ b, row_ok (cache_size (conf s)) entry_ok (cache_of s b).

Definition ref (s : t) (c : sc) : Prop :=
  (∃ i, pht_ctr c = Some i ∧ 0 ≤ i < pht_size (conf s)) ∧
  (∃ b i, cache_entry c = Some (b, i) ∧ 0 ≤ i < cache_size (conf s)) ∧
  (∃ i, bhr c = Some i ∧ 0 ≤ i < bht_size (conf s)).

Lemma bpred_yags_create_ok b p h x cs tw s :
  create b p h x cs tw = Ok s → wf s ∧ stats s = init_stats.
Proof.
  unfold create. intros E. inv_ok. split; [|done].
  repeat match goal with H : check_ppow2 _ = true |- _ => apply check_ppow2_pos in H end.
  pose proof weak_states_ok as (? & ? & _).
  unfold wf, wf_cfg. simpl. rewrite length_replicate. split_and!; try lia.
  - apply weak_table_ok. lia.
  - intros [|]; (apply row_ok_replicate; [lia|]; split; simpl; [lia|done]).
Qed.

Lemma yags_keeps_bht s l : wf s → length l = length (bht s) → keeps wf ref s (with_bht s l).
Proof. intros (? & ? & ? & ?) E. split; [|done]. unfold wf. simpl. by rewrite E. Qed.

Lemma with_cache_frame s b l :
  conf (with_cache s b l) = conf s ∧ bht (with_cache s b l) = bht s ∧
  pht (with_cache s b l) = pht s ∧ stats (with_cache s b l) = stats s.
Proof. by destruct b. Qed.

Lemma with_cache_wf s b l :
  wf s → row_ok (cache_size (conf s)) entry_ok l → wf (with_cache s b l).
Proof.
  intros (Hk & Lb & Hp & Hca) Hl. destruct (with_cache_frame s b l) as (Ec & Eb & Ep & _).
  unfold wf. rewrite Ec, Eb, Ep. split_and!; try done.
  intros b'. pose proof (Hca b'). by destruct b, b'.
Qed.

Lemma with_pht_wf s l : wf s → row_ok (pht_size (conf s)) ctr_ok l → wf (with_pht s l).
Proof. by intros (? & ? & ? & ?) ?. Qed.

(** The cache part of an update. *)
Lemma bpred_yags_cache_update_safe s c a : wf s → ref s c →
  wp (if tag_match c || xorb (choice c) (outcome a) then
        let* q := of_option NullDeref (cache_entry c) in
        let* e := aget (cache_of s q.1) q.2 in
        let tag' := if tag_match c then tag e else u8 (pc_tag (conf s) (PC a)) in
        let* cache' := aset (cache_of s q.1) q.2
                         (mk_entry tag' (MY2BC_UPDATE (ctr e) (outcome a))) in
        Ok (with_cache s q.1 cache')
      else Ok s) (λ s', wf s' ∧ conf s' = conf s ∧ stats s' = stats s).
Proof.
  intros Hwf (_ & (b & j & Hj & ?) & _). pose proof Hwf as (_ & _ & _ & Hca).
  pose proof (Hca b) as [Lc Hc]. rewrite Hj. destruct (_ || _); [|done]. simpl.
  apply wp_bind. wp_array. apply wp_bind. wp_array.
  match goal with |- context [with_cache s b ?l] =>
    pose proof (with_cache_frame s b l) as (Ec & _ & _ & Es) end.
  split_and!; [apply with_cache_wf; [done|]|exact Ec|exact Es].
  apply row_ok_insert; [done|]. split; simpl; [|auto with xio].
  destruct (tag_match c); [match goal with H : entry_ok _ |- _ => apply H end|]. apply (wrap_u_range 8). lia.
Qed.

Lemma bpred_yags_update_safe s c a p : wf s → ref s c →
  wp (update s c a p) (λ '(s', c'), keeps wf ref s s' ∧ ref s' c' ∧
    stats s' = stats_after_update (stats s) (updated c) (outcome a) p ∧ updated c' = true).
Proof.
  intros Hwf Hr. unfold update. apply wp_bind.
  eapply wp_mono; [by apply bpred_yags_cache_update_safe|].
  intros s1 (Hwf1 & Ec & Es). pose proof Hwf1 as (_ & _ & [Lp Hp] & _). rewrite Ec in *.
  destruct Hr as ((i & Hi & ?) & Hce & Hbhr). apply wp_bind.
  eapply (wp_mono _ (row_ok (pht_size (conf s)) ctr_ok)).
  { destruct (negb _); [|done]. rewrite Hi. simpl. apply wp_bind. wp_array. wp_array.
    apply row_ok_insert; auto with xio. done. }
  intros l' Hl'. simpl. split_and!; [split| | |done].
  - apply (with_pht_wf s1); [done|by rewrite Ec].
  - intros c'. unfold ref. simpl. by rewrite Ec.
  - unfold ref. simpl. rewrite Ec. split_and!; eauto 6.
  - by rewrite Es.
Qed.

#[export] Instance predictor_ok : DirPredictorOk t sc.
Proof.
  refine {| dp_wf := wf; dp_ref := ref |}; simpl; [done|done|..].
  - intros s c a _ Hwf.
    pose proof Hwf as ((Hb & Em & Hp & Ep & Hs & Es) & Lb & [Lp Hc] & Hca).
    pose proof (land_mask_range (PC a) _ Hb) as R1. rewrite <- Em in R1.
    pose proof (land_mask_range (PC a) _ Hp) as R3. rewrite <- Ep in R3. unfold lookup.
    apply wp_bind. wp_array. apply wp_bind. wp_array. apply wp_bind. unfold l2_index.
    match goal with |- context [Z.land (if ?b then ?u else ?v) _] =>
      pose proof (land_mask_range (if b then u else v) _ Hs) as R2 end. rewrite <- Es in R2.
    match goal with |- context [cache_of s ?b] => pose proof (Hca b) as [Lc He] end.
    wp_array. split_and!; try done. unfold ref. simpl. split_and!; eauto 8.
  - intros. by apply bpred_yags_update_safe.
  - intros s c a p Hwf Hr. pose proof Hr as (_ & _ & (i & Hi & ?)). pose proof Hwf as (_ & Lb & _).
    apply wp_bind. apply (wp_bht_spec_update _ _ i); simpl; [done|lia|]. intros l El.
    split_and!; try done. by apply (yags_keeps_bht (with_stats s _)).
  - intros s c o Hwf Hr. pose proof Hwf as (_ & Lb & _).
    apply wp_bind, wp_bht_recover; [done|]. intros l El. simpl.
    split_and!; try done. by apply yags_keeps_bht.
  - intros s c Hwf Hr. pose proof Hwf as (_ & Lb & _).
    apply wp_bind, wp_bht_flush; [done|]. intros l El. simpl.
    split_and!; try done. by apply yags_keeps_bht.
Defined.

#[export] Instance bht_pred : BhtPredictor t sc := {
  bp_bht_size s := bht_size (conf s);
  bp_history_mask s := history_mask (conf s);
  bp_bht := bht;
  bp_lookup_bhr := lookup_bhr
}.

Lemma bpred_yags_update_frame s c a p s' c' : update s c a p = Ok (s', c') →
  conf s' = conf s ∧ bht s' = bht s.
Proof.
  unfold update. intros E. inv_ok; simpl;
    match goal with
    | |- context [with_cache ?s ?b ?l] => destruct (with_cache_frame s b l) as (-> & -> & _)
    | _ => idtac
    end; done.
Qed.

#[export] Instance bht_ok : BhtPredictorOk t sc.
Proof.
  split; intros *; simpl; intros E;
    [|apply bpred_yags_update_frame in E as [??]; by unfold same_bht_cfg; simpl; split_and!; congruence|..];
    unfold lookup, spec_update, recover, flush in E; inv_ok; simpl in *;
    (split; [done | first [done | by eexists | split; [done|by eexists]]]).
Qed.

(** ** Exceptions only

    A branch that follows its choice never occupies a cache entry: an update
    writes the cache only when the lookup hit or the outcome went against the
    choice, and then the entry written is tagged with the branch. *)
Lemma bpred_yags_allocates_exceptions s c a p s' c' :
  update s c a p = Ok (s', c') → tag_match c = false → choice c = outcome a →
  T_cache s' = T_cache s ∧ NT_cache s' = NT_cache s.
Proof.
  unfold update. intros E Htm Hch. rewrite Htm, Hch, xorb_nilpotent in E. by inv_ok.
Qed.

(** Once the configured tags are wider than the stored [unsigned char], no
    lookup whose tag needs the extra bits can hit. *)
Lemma bpred_yags_wide_tag_misses s c a s' c' p :
  wf s → 256 ≤ pc_tag (conf s) (PC a) → lookup s c a = Ok (s', c', p) →
  tag_match c' = false.
Proof.
  intros (_ & _ & _ & Hca) Hw E. unfold lookup in E. inv_ok. inv_arrays. simpl.
  match goal with H : cache_of s ?b !! _ = Some ?e |- _ =>
    pose proof (Forall_lookup_1 _ _ _ _ (proj2 (Hca b)) H) as [Ht _] end.
  apply Z.eqb_neq. lia.
Qed.

End bpred_yags.
