(* ===== verification/BPredSkewed.v ===== *)
(** * BPredSkewed: the skewed predictor of src/xiosim/ZCOMPS-bpred/bpred-skewed.cpp

    Three tables of counters read through three different hashes of address and
    history; the prediction is meant to be the majority of the three. *)

From S2P Require Import Prelude SatCounter BPredBase BPredGlobalHist.

Module bpred_skewed.

(** Source: src/xiosim/ZCOMPS-bpred/bpred-skewed.cpp:26-33 bpred_skewed_sc_t.
    [pht_ctr] is the array of the three counter pointers, into [pht[0]],
    [pht[1]] and [pht[2]]. *)
Record sc : Type := mk_sc {
  pht_ctr : option (Z * Z * Z);
  bhr : option Z;
  pred : bool;
  lookup_bhr : Z;
  updated : bool
}.

(** Source: src/xiosim/ZCOMPS-bpred/bpred-skewed.cpp:37-50 bpred_skewed_t.
    The members the constructor fixes. *)
Record cfg : Type := mk_cfg {
  partial_update : bool;
  enhanced : bool;
  double_bim : bool;
  bht_size : Z;
  bht_mask : Z;
  pht_size : Z;
  pht_mask : Z;
  history_length : Z;
  history_mask : Z;
  half_length : Z;
  half_mask : Z;
  high_mask : Z;
  bits : Z
}.

(** Source: src/xiosim/ZCOMPS-bpred/bpred-skewed.cpp:40-45 bpred_skewed_t. *)
Record t : Type := mk {
  conf : cfg;
  stats : dstats;
  bht : list Z;
  pht0 : list my2bc_t;
  pht1 : list my2bc_t;
  pht2 : list my2bc_t
}.

Definition with_stats (s : t) (st : dstats) : t :=
  mk (conf s) st (bht s) (pht0 s) (pht1 s) (pht2 s).
Definition with_bht (s : t) (l : list Z) : t :=
  mk (conf s) (stats s) l (pht0 s) (pht1 s) (pht2 s).
Definition with_phts (s : t) (l0 l1 l2 : list my2bc_t) : t :=
  mk (conf s) (stats s) (bht s) l0 l1 l2.

(** [(!(i&1))?MY2BC_WEAKLY_TAKEN:MY2BC_WEAKLY_NT] *)
Definition weak_init_inv (i : Z) : my2bc_t :=
  if Z.land i 1 =? 0 then MY2BC_WEAKLY_TAKEN else MY2BC_WEAKLY_NT.

(** Source: src/xiosim/ZCOMPS-bpred/bpred-skewed.cpp:55-118 bpred_skewed_t::bpred_skewed_t. *)
Definition create (arg_bht_size arg_pht_size arg_history_length arg_partial_update
    arg_enhanced arg_double_bim : Z) : result t :=
  let* _ := guard_or (check_ppow2 arg_bht_size) Fatal in
  let* _ := guard_or (check_ppow2 arg_pht_size) Fatal in
  let* _ := guard_or (0 <=? arg_history_length) Fatal in
  let* _ := guard_or ((arg_enhanced =? 0) || (arg_enhanced =? 1)) Fatal in
  let* _ := guard_or ((arg_double_bim =? 0) || (arg_double_bim =? 1)) Fatal in
  let* _ := guard_or ((arg_partial_update =? 0) || (arg_partial_update =? 1)) Fatal in
  let dbl := negb (arg_double_bim =? 0) in
  let tbl := weak_init <$> seqZ 0 arg_pht_size in
  Ok (mk (mk_cfg (negb (arg_partial_update =? 0)) (negb (arg_enhanced =? 0)) dbl
            arg_bht_size (arg_bht_size - 1) arg_pht_size (arg_pht_size - 1)
            arg_history_length (history_mask_of arg_history_length)
            (Z.log2 arg_pht_size) (arg_pht_size - 1) (Z.shiftr arg_pht_size 1)
            (arg_bht_size * arg_history_length + arg_pht_size * (if dbl then 8 else 6)))
         init_stats
         (replicate (Z.to_nat arg_bht_size) 0)
         (if dbl then tbl ++ tbl else tbl)
         (weak_init_inv <$> seqZ 0 arg_pht_size)
         tbl).

(** The skewing function and its inverse on [half_length]-bit values,
    [((v>>1)|((v&high_mask) ^ ((v&1) << (half_length-1))))] and
    [((v<<1)|(((v&high_mask) ^ ((v&(high_mask>>1))<<1))>>(half_length-1)))]. *)
Definition skew_H (k : cfg) (v : Z) : Z :=
  Z.lor (Z.shiftr v 1)
    (Z.lxor (Z.land v (high_mask k)) (i32 (Z.shiftl (Z.land v 1) (half_length k - 1)))).
Definition skew_Hinv (k : cfg) (v : Z) : Z :=
  Z.lor (i32 (Z.shiftl v 1))
    (Z.shiftr (Z.lxor (Z.land v (high_mask k))
                 (i32 (Z.shiftl (Z.land v (Z.shiftr (high_mask k) 1)) 1)))
       (half_length k - 1)).

(** The three table indices computed by a lookup. *)
Definition l2_indices (k : cfg) (pc h : Z) : Z * Z * Z :=
  let l2index_base := concat_index pc h (history_length k) in
  let v2 := Z.land (Z.shiftr l2index_base (half_length k)) (half_mask k) in
  let v1 := Z.land l2index_base (half_mask k) in
  let f0 := if negb (enhanced k)
            then Z.lxor (Z.lxor (skew_H k v1) (skew_Hinv k v2)) v2 else i32 pc in
  let f1 := Z.lxor (Z.lxor (skew_H k v1) (skew_Hinv k v2)) v1 in
  let f2 := Z.lxor (Z.lxor (skew_H k v2) (skew_Hinv k v1)) v2 in
  (Z.land f0 (if double_bim k then Z.lor (i32 (Z.shiftl (pht_mask k) 1)) 1 else pht_mask k),
   Z.land f1 (pht_mask k), Z.land f2 (pht_mask k)).

#[local] Opaque l2_indices.

(** Assignment of an [int] to a [bool]. *)
Definition bool_of_int (x : Z) : bool := negb (x =? 0).

(** The prediction, a [bool] to which directions are added and which is then
    shifted: [pred = d0; pred += d1; pred += d2; pred >>= 1;]. *)
Definition vote (c0 c1 c2 : my2bc_t) : bool :=
  let pred := bool_of_int (MY2BC_DIR c0) in
  let pred := bool_of_int (Z.b2z pred + MY2BC_DIR c1) in
  let pred := bool_of_int (Z.b2z pred + MY2BC_DIR c2) in
  bool_of_int (Z.shiftr (Z.b2z pred) 1).

(** Source: src/xiosim/ZCOMPS-bpred/bpred-skewed.cpp:131-188 bpred_skewed_t::lookup. *)
Definition lookup (s : t) (c : sc) (a : bp_args) : result (t * sc * bool) :=
  let l1index := Z.land (PC a) (bht_mask (conf s)) in
  let* h := aget (bht s) l1index in
  let '(i0, i1, i2) := l2_indices (conf s) (PC a) h in
  let* c0 := aget (pht0 s) i0 in
  let* c1 := aget (pht1 s) i1 in
  let* c2 := aget (pht2 s) i2 in
  let pred := vote c0 c1 c2 in
  Ok (with_stats s (count_lookup (stats s)),
      mk_sc (Some (i0, i1, i2)) (Some l1index) pred h false, pred).

(** Source: src/xiosim/ZCOMPS-bpred/bpred-skewed.cpp:191-217 bpred_skewed_t::update.
    A partial update trains only the counters that agreed with the outcome. *)
Definition update (s : t) (c : sc) (a : bp_args) (our_pred : bool) : result (t * sc) :=
  let* q := of_option NullDeref (pht_ctr c) in
  let '(i0, i1, i2) := q in
  let partial := Bool.eqb (pred c) (outcome a) && partial_update (conf s) in
  let train (l : list my2bc_t) (i : Z) :=
    let* x := aget l i in
    if partial && negb (Bool.eqb (dir_of x) (outcome a)) then Ok l
    else aset l i (MY2BC_UPDATE x (outcome a)) in
  let* l0 := train (pht0 s) i0 in
  let* l1 := train (pht1 s) i1 in
  let* l2 := train (pht2 s) i2 in
  let st := stats_after_update (stats s) (updated c) (outcome a) our_pred in
  Ok (with_stats (with_phts s l0 l1 l2) st,
      mk_sc (pht_ctr c) (bhr c) (pred c) (lookup_bhr c) true).

(** Source: src/xiosim/ZCOMPS-bpred/bpred-skewed.cpp:220-226 bpred_skewed_t::spec_update. *)
Definition spec_update (s : t) (c : sc) (our_pred : bool) : result (t * sc) :=
  let s := with_stats s (count_spec_update (stats s)) in
  let* bht' := bht_spec_update (bht s) (bhr c) (history_mask (conf s)) our_pred in
  Ok (with_bht s bht', c).

(** Source: src/xiosim/ZCOMPS-bpred/bpred-skewed.cpp:229-234 bpred_skewed_t::recover. *)
Definition recover (s : t) (c : sc) (outcome : bool) : result (t * sc) :=
  let* bht' := bht_recover (bht_size (conf s)) (bht s) (lookup_bhr c) outcome in
  Ok (with_bht s bht', c).

(** Source: src/xiosim/ZCOMPS-bpred/bpred-skewed.cpp:237-242 bpred_skewed_t::flush. *)
Definition flush (s : t) (c : sc) : result (t * sc) :=
  let* bht' := bht_flush (bht_size (conf s)) (bht s) (lookup_bhr c) in
  Ok (with_bht s bht', c).

(** Source: src/xiosim/ZCOMPS-bpred/bpred-skewed.cpp:245-251 bpred_skewed_t::get_cache. *)
Definition get_cache : sc := mk_sc None None false 0 false.

#[export] Instance predictor : DirPredictor t sc := {
  dp_stats := stats;
  dp_updated := updated;
  dp_lookup s c a _ := lookup s c a;
  dp_update s c a p _ := update s c a p;
  dp_spec_update s c _ p := spec_update s c p;
  dp_recover := recover;
  dp_flush := flush;
  dp_get_cache _ := get_cache;
  dp_reset_stats s := with_stats s (BPredBase.reset_stats (stats s));
  dp_with_stats := with_stats
}.

(** ** Invariant *)

(** The size of [pht[0]]. *)
Definition pht0_size (k : cfg) : Z := if double_bim k then 2 * pht_size k else pht_size k.

Definition wf_cfg (k : cfg) : Prop :=
  1 ≤ bht_size k ∧ bht_mask k = bht_size k - 1 ∧
  1 ≤ pht_size k < 2 ^ 30 ∧ pht_mask k = pht_size k - 1.

Definition wf (s : t) : Prop :=
  wf_cfg (conf s) ∧
  Z.of_nat (length (bht s)) = bht_size (conf s) ∧
  row_ok (pht0_size (conf s)) ctr_ok (pht0 s) ∧
  row_ok (pht_size (conf s)) ctr_ok (pht1 s) ∧
  row_ok (pht_size (conf s)) ctr_ok (pht2 s).

Definition ref (s : t) (c : sc) : Prop :=
  (∃ i0 i1 i2, pht_ctr c = Some (i0, i1, i2) ∧ 0 ≤ i0 < pht0_size (conf s) ∧
     0 ≤ i1 < pht_size (conf s) ∧ 0 ≤ i2 < pht_size (conf s)) ∧
  (∃ i, bhr c = Some i ∧ 0 ≤ i < bht_size (conf s)).

Lemma weak_init_inv_table n : 0 ≤ n → row_ok n ctr_ok (weak_init_inv <$> seqZ 0 n).
Proof.
  intros. split; [rewrite length_fmap, length_seqZ; lia|].
  apply Forall_fmap, Forall_true. intros i. unfold compose, weak_init_inv.
  pose proof weak_states_ok as (? & ? & _). by destruct (_ =? _).
Qed.

Lemma bpred_skewed_create_ok b p h pu en db s : p < 2 ^ 30 →
  create b p h pu en db = Ok s → wf s ∧ stats s = init_stats.
Proof.
  unfold create. intros Hp E. inv_ok. split; [|done].
  repeat match goal with H : check_ppow2 _ = true |- _ => apply check_ppow2_pos in H end.
  pose proof (weak_table_ok p ltac:(lia)) as [L F].
  pose proof (weak_init_inv_table p ltac:(lia)).
  unfold wf, wf_cfg, pht0_size. simpl. rewrite length_replicate.
  split_and!; try done; try lia. destruct (negb (db =? 0)); split; try done.
  - rewrite length_app. lia.
  - by apply Forall_app.
Qed.

Lemma l2_indices_range k pc h i0 i1 i2 : wf_cfg k → l2_indices k pc h = (i0, i1, i2) →
  0 ≤ i0 < pht0_size k ∧ 0 ≤ i1 < pht_size k ∧ 0 ≤ i2 < pht_size k.
Proof.
  intros (_ & _ & Hp & Em). unfold pht0_size. with_strategy transparent [l2_indices] unfold l2_indices. intros [= <- <- <-].
  split; [|split; rewrite Em; apply land_mask_range; lia].
  destruct (double_bim k); [|rewrite Em; apply land_mask_range; lia].
  replace (Z.lor (i32 (Z.shiftl (pht_mask k) 1)) 1) with (2 * pht_size k - 1);
    [apply land_mask_range; lia|].
  assert (Z.shiftl (pht_mask k) 1 = 2 * pht_mask k) as E
    by (rewrite Z.shiftl_mul_pow2; lia).
  rewrite i32_small by lia. change 1 with (Z.b2z true) at 3. rewrite lor_shiftl_bit.
  simpl. lia.
Qed.

Lemma skewed_keeps_bht s l : wf s → length l = length (bht s) → keeps wf ref s (with_bht s l).
Proof. intros (? & ? & ?) E. split; [|done]. unfold wf. simpl. by rewrite E. Qed.

Lemma bpred_skewed_update_safe s c a p : wf s → ref s c →
  wp (update s c a p) (λ '(s', c'), keeps wf ref s s' ∧ ref s' c' ∧
    stats s' = stats_after_update (stats s) (updated c) (outcome a) p ∧ updated c' = true).
Proof.
  intros (Hk & Lb & H0 & H1 & H2) ((i0 & i1 & i2 & Hi & ? & ? & ?) & Hbhr).
  unfold update. rewrite Hi. simpl.
  assert (∀ n l i, row_ok n ctr_ok l → 0 ≤ i < n →
    wp (let* x := aget l i in
        if Bool.eqb (pred c) (outcome a) && partial_update (conf s) &&
           negb (Bool.eqb (dir_of x) (outcome a))
        then Ok l else aset l i (MY2BC_UPDATE x (outcome a))) (row_ok n ctr_ok)) as Htrain.
  { intros n l i [L F] ?. apply wp_bind. wp_array. destruct (_ && _); [done|].
    wp_array. apply row_ok_insert; [done|auto with xio]. }
  apply wp_bind. eapply wp_mono; [by apply Htrain|]. intros l0 Hl0.
  apply wp_bind. eapply wp_mono; [by apply Htrain|]. intros l1 Hl1.
  apply wp_bind. eapply wp_mono; [by apply Htrain|]. intros l2 Hl2. simpl.
  split_and!; try done. unfold ref. simpl. split; eauto 8.
Qed.

#[export] Instance predictor_ok : DirPredictorOk t sc.
Proof.
  refine {| dp_wf := wf; dp_ref := ref |}; simpl; [done|done|..].
  - intros s c a _ Hwf. pose proof Hwf as (Hk & Lb & [L0 F0] & [L1 F1] & [L2 F2]).
    pose proof (land_mask_range (PC a) _ (proj1 Hk)) as R1.
    rewrite <- (proj1 (proj2 Hk)) in R1. unfold lookup. apply wp_bind. wp_array.
    match goal with |- context [l2_indices ?k ?u ?h] =>
      destruct (l2_indices k u h) as [[i0 i1] i2] eqn:E end.
    apply l2_indices_range in E as (? & ? & ?); [|done].
    apply wp_bind. wp_array. apply wp_bind. wp_array. apply wp_bind. wp_array.
    split_and!; try done. unfold ref. simpl. split; eauto 8.
  - intros. by apply bpred_skewed_update_safe.
  - intros s c a p Hwf Hr. pose proof Hr as (_ & (i & Hi & ?)). pose proof Hwf as (_ & Lb & _).
    apply wp_bind. apply (wp_bht_spec_update _ _ i); simpl; [done|lia|]. intros l El.
    split_and!; try done. by apply (skewed_keeps_bht (with_stats s _)).
  - intros s c o Hwf Hr. pose proof Hwf as (_ & Lb & _).
    apply wp_bind, wp_bht_recover; [done|]. intros l El. simpl.
    split_and!; try done. by apply skewed_keeps_bht.
  - intros s c Hwf Hr. pose proof Hwf as (_ & Lb & _).
    apply wp_bind, wp_bht_flush; [done|]. intros l El. simpl.
    split_and!; try done. by apply skewed_keeps_bht.
Defined.

#[export] Instance bht_pred : BhtPredictor t sc := {
  bp_bht_size s := bht_size (conf s);
  bp_history_mask s := history_mask (conf s);
  bp_bht := bht;
  bp_lookup_bhr := lookup_bhr
}.

#[export] Instance bht_ok : BhtPredictorOk t sc.
Proof. solve_bht_ok ltac:(unfold lookup, update, spec_update, recover, flush). Qed.

(** ** The vote *)

Lemma bool_of_int_shiftr b : bool_of_int (Z.shiftr (Z.b2z b) 1) = false.
Proof. by destruct b. Qed.

(** The skewed predictor never predicts taken: the three directions are
    summed in a [bool], so the sum saturates at 1 and the shift that should
    take the majority always yields 0, whatever the counters hold. *)
Theorem skewed_never_predicts_taken s c a s' c' p :
  lookup s c a = Ok (s', c', p) → p = false.
Proof.
  unfold lookup. intros E. inv_ok.
  inv_ok. apply bool_of_int_shiftr.
Qed.

Lemma skewed_never_predicts_taken_witness :
  ∃ s s' c' p, create 1 4 2 0 0 0 = Ok s ∧
    lookup (with_phts s [3; 3; 3; 3] [3; 3; 3; 3] [3; 3; 3; 3]) get_cache (mk_args 5 9 9 true)
      = Ok (s', c', p) ∧ p = false.
Proof.
  eexists _, _, _, _. split; [vm_compute; reflexivity|]. split; [vm_compute; reflexivity|].
  eapply (skewed_never_predicts_taken
    (mk (mk_cfg false false false 1 0 4 3 2 3 2 3 2 26) init_stats [0] [3; 3; 3; 3] [3; 3; 3; 3] [3; 3; 3; 3])
    get_cache (mk_args 5 9 9 true)).
  vm_compute. reflexivity.
Defined.

(** ** The skewing functions are inverse to each other *)

Definition skew_cfg_ok (k : cfg) (n : Z) : Prop :=
  half_length k = n ∧ half_mask k = 2 ^ n - 1 ∧ high_mask k = 2 ^ (n - 1).

Lemma shiftl_1_small v n : 0 ≤ v < 2 ^ n → 0 ≤ n ≤ 30 → i32 (Z.shiftl v 1) = Z.shiftl v 1.
Proof.
  intros Hv Hn. rewrite Z.shiftl_mul_pow2 by lia.
  assert (2 ^ n ≤ 2 ^ 30) by (apply Z.pow_le_mono_r; lia). rewrite i32_small; lia.
Qed.

Lemma land_pow2_range v k : 0 ≤ k → 0 ≤ Z.land v (2 ^ k) < 2 ^ (k + 1).
Proof.
  intros. assert (0 < 2 ^ k) by (by apply Z.pow_pos_nonneg).
  pose proof (land_bound v (2 ^ k)). rewrite Z.pow_add_r by lia. lia.
Qed.

Lemma skew_H_bits k n v i : skew_cfg_ok k n → 2 ≤ n ≤ 30 → 0 ≤ v < 2 ^ n → 0 ≤ i →
  Z.testbit (skew_H k v) i =
  Z.testbit v (i + 1) || ((i =? n - 1) && xorb (Z.testbit v (n - 1)) (Z.testbit v 0)).
Proof.
  intros (El & Em & Eh) Hn Hv Hi. unfold skew_H. rewrite El, Eh.
  replace (i32 (Z.shiftl (Z.land v 1) (n - 1))) with (Z.shiftl (Z.land v 1) (n - 1)).
  2:{ pose proof (land_bound v 1 ltac:(lia)). rewrite Z.shiftl_mul_pow2 by lia.
      assert (0 < 2 ^ (n - 1) ≤ 2 ^ 29)
        by (split; [apply Z.pow_pos_nonneg|apply Z.pow_le_mono_r]; lia).
      rewrite i32_small; nia. }
  rewrite Z.lor_spec, Z.lxor_spec, Z.land_spec, Z.shiftr_spec, Z.shiftl_spec by lia.
  f_equal. rewrite testbit_pow2 by lia. destruct (Z.eqb_spec i (n - 1)) as [->|Hne]; simpl.
  - rewrite Z.sub_diag, andb_true_r. f_equal. rewrite Z.land_spec.
    change (Z.testbit 1 0) with true. by rewrite andb_true_r.
  - rewrite andb_false_r. simpl. destruct (decide (i < n - 1)).
    + by rewrite Z.testbit_neg_r by lia.
    + change 1 with (2 ^ 0). by rewrite Z.land_spec, testbit_pow2,
        (proj2 (Z.eqb_neq _ _)), andb_false_r by lia.
Qed.

Lemma skew_H_range k n v : skew_cfg_ok k n → 2 ≤ n ≤ 30 → 0 ≤ v < 2 ^ n →
  0 ≤ skew_H k v < 2 ^ n.
Proof.
  intros Hk Hn Hv. assert (skew_H k v = skew_H k v mod 2 ^ n) as ->;
    [|apply Z.mod_pos_bound, Z.pow_pos_nonneg; lia].
  apply Z.bits_inj'. intros i Hi. destruct (Z.ltb_spec i n).
  - by rewrite Z.mod_pow2_bits_low by lia.
  - rewrite Z.mod_pow2_bits_high by lia. rewrite (skew_H_bits k n) by done.
    rewrite (testbit_above v n) by lia. by rewrite (proj2 (Z.eqb_neq i (n - 1))) by lia.
Qed.

Lemma skew_Hinv_bits k n v i : skew_cfg_ok k n → 2 ≤ n ≤ 30 → 0 ≤ v < 2 ^ n → 0 ≤ i →
  Z.testbit (skew_Hinv k v) i =
  Z.testbit v (i - 1) || ((i =? 0) && xorb (Z.testbit v (n - 1)) (Z.testbit v (n - 2))).
Proof.
  intros (El & Em & Eh) Hn Hv Hi. unfold skew_Hinv. rewrite El, Eh.
  replace (Z.shiftr (2 ^ (n - 1)) 1) with (2 ^ (n - 2)).
  2:{ rewrite Z.shiftr_div_pow2, <- Z.pow_sub_r by lia. f_equal. lia. }
  rewrite (shiftl_1_small v n) by lia.
  rewrite (shiftl_1_small _ (n - 1)) by
    (first [lia | replace (n - 1) with (n - 2 + 1) by lia; apply land_pow2_range; lia]).
  rewrite Z.lor_spec, Z.shiftr_spec, Z.lxor_spec, Z.land_spec, !Z.shiftl_spec by lia.
  f_equal. rewrite Z.land_spec, !testbit_pow2 by lia. destruct (Z.eqb_spec i 0) as [->|Hne]; simpl.
  - replace (0 + (n - 1)) with (n - 1) by lia. replace (n - 1 - 1) with (n - 2) by lia.
    by rewrite !Z.eqb_refl, !andb_true_r.
  - rewrite (proj2 (Z.eqb_neq (i + (n - 1)) (n - 1))), (proj2 (Z.eqb_neq (i + (n - 1) - 1) (n - 2)))
      by lia. by rewrite !andb_false_r.
Qed.

(** C25. The two hash primitives of the skewed predictor are inverse to each
    other on table-index-wide values: for tables of 4 to 2^30 entries,
    [Hinv(H(v))], masked to the index width, is [v]; so [H] permutes the
    indices, which is what makes two branches that conflict in one table
    separate in the others. *)
Theorem skew_hash_inverse k n v : skew_cfg_ok k n → 2 ≤ n ≤ 30 → 0 ≤ v < 2 ^ n →
  Z.land (skew_Hinv k (skew_H k v)) (half_mask k) = v.
Proof.
  intros Hk Hn Hv. pose proof Hk as (El & Em & Eh). rewrite Em.
  apply Z.bits_inj'. intros i Hi. rewrite testbit_land_low by lia.
  rewrite (skew_Hinv_bits k n) by (try done; by apply skew_H_range).
  destruct (Z.ltb_spec i n); [|by rewrite andb_false_r, (testbit_above v n) by lia].
  rewrite andb_true_r. destruct (Z.eqb_spec i 0) as [->|].
  - rewrite Z.testbit_neg_r by lia. simpl. rewrite !(skew_H_bits k n) by (try done; lia).
    rewrite (testbit_above v n (n - 1 + 1)) by lia.
    rewrite Z.eqb_refl, (proj2 (Z.eqb_neq (n - 2) (n - 1))) by lia.
    replace (n - 2 + 1) with (n - 1) by lia. simpl.
    by destruct (Z.testbit v (n - 1)), (Z.odd v).
  - simpl. rewrite orb_false_r, (skew_H_bits k n) by (try done; lia).
    rewrite (proj2 (Z.eqb_neq (i - 1) (n - 1))) by lia.
    replace (i - 1 + 1) with i by lia. by rewrite andb_false_l, orb_false_r.
Qed.

Lemma skew_hash_inverse_witness :
  Z.land (skew_Hinv (mk_cfg false false false 1 0 16 15 2 3 4 15 8 0)
            (skew_H (mk_cfg false false false 1 0 16 15 2 3 4 15 8 0) 13)) 15 = 13.
Proof.
  apply (skew_hash_inverse (mk_cfg false false false 1 0 16 15 2 3 4 15 8 0) 4 13);
    [repeat split | lia | lia].
Defined.

End bpred_skewed.
