(* ===== verification/BPredPerceptron.v ===== *)
(** * BPredPerceptron: the perceptron predictor of
    src/xiosim/ZCOMPS-bpred/bpred-perceptron.cpp

    A table of perceptrons (rows of [short] weights) indexed by the branch
    address; the prediction is the sign of the dot product of the weights with
    the global history read as +1/-1.  The history is a pair of [uint64_t]:
    [bhr] holds the 64 most recent outcomes, [bhr_old] the 64 before them. *)

From S2P Require Import Prelude BPredBase.

Module bpred_perceptron.

(** Source: src/xiosim/ZCOMPS-bpred/bpred-perceptron.cpp:26-34 bpred_perceptron_sc_t.
    [top_entry] points at a row of [top]. *)
Record sc : Type := mk_sc {
  top_entry : option Z;
  sum : Z;
  lookup_bhr : Z;
  lookup_bhr_old : Z;
  updated : bool
}.

(** Source: src/xiosim/ZCOMPS-bpred/bpred-perceptron.cpp:41-49 bpred_perceptron_t.
    The members the constructor fixes. *)
Record cfg : Type := mk_cfg {
  top_size : Z;
  top_mask : Z;
  weight_width : Z;
  weight_max : Z;
  weight_min : Z;
  theta : Z;
  history_length : Z;
  bits : Z
}.

(** Source: src/xiosim/ZCOMPS-bpred/bpred-perceptron.cpp:38-43 bpred_perceptron_t. *)
Record t : Type := mk {
  conf : cfg;
  stats : dstats;
  bhr : Z;
  bhr_old : Z;
  top : list (list Z)
}.

Definition with_stats (s : t) (st : dstats) : t := mk (conf s) st (bhr s) (bhr_old s) (top s).
Definition with_bhr (s : t) (h h_old : Z) : t := mk (conf s) (stats s) h h_old (top s).
Definition with_top (s : t) (l : list (list Z)) : t :=
  mk (conf s) (stats s) (bhr s) (bhr_old s) l.

(** [theta = (int) rint(floor(1.93*history_length + 14.0));]  The source computes
    the product in double precision; its rounding error (relative 2^-54) is too
    small to move the product below an integer value, so the floor is the
    rational one. *)
Definition theta_of (history_length : Z) : Z := 193 * history_length / 100 + 14.

(** Source: src/xiosim/ZCOMPS-bpred/bpred-perceptron.cpp:55-102 bpred_perceptron_t::bpred_perceptron_t. *)
Definition create (arg_history_length arg_top_size : Z) : result t :=
  let* _ := guard_or (0 <=? arg_history_length) Fatal in
  let* _ := guard_or (check_ppow2 arg_top_size) Fatal in
  let theta := theta_of arg_history_length in
  let weight_width :=
    if theta =? Z.shiftl 1 (Z.log2 theta) then Z.log2 theta + 2 else Z.log2 theta + 1 in
  Ok (mk (mk_cfg arg_top_size (arg_top_size - 1) weight_width
            (Z.shiftl 1 (weight_width - 1) - 1) (- Z.shiftl 1 (weight_width - 1))
            theta arg_history_length
            (arg_history_length + arg_top_size * (arg_history_length + 1) * weight_width))
         init_stats 0 0
         (replicate (Z.to_nat arg_top_size) (replicate (Z.to_nat (1 + arg_history_length)) 0))).

(** [BIPOLAR(x)] *)
Definition BIPOLAR (x : Z) : Z := Z.shiftl x 1 - 1.

(** The [i]-th most recent outcome: [(bhr>>i)&1] or [(bhr_old>>(i-64))&1]. *)
Definition hist_bit (h h_old i : Z) : Z :=
  if i <? 64 then Z.land (Z.shiftr h i) 1 else Z.land (Z.shiftr h_old (i - 64)) 1.

(** Source: src/xiosim/ZCOMPS-bpred/bpred-perceptron.cpp:116-141 bpred_perceptron_t::lookup. *)
Definition lookup (s : t) (c : sc) (a : bp_args) : result (t * sc * bool) :=
  let top_index := Z.land (PC a) (top_mask (conf s)) in
  let* row := aget (top s) top_index in
  let* w0 := aget row 0 in
  let* sum := for_range 0 (history_length (conf s)) (λ i sum,
    let* w := aget row (i + 1) in
    Ok (i32 (sum + w * BIPOLAR (hist_bit (bhr s) (bhr_old s) i)))) w0 in
  let pred := 0 <=? sum in
  Ok (with_stats s (count_lookup (stats s)),
      mk_sc (Some top_index) sum (bhr s) (bhr_old s) false, pred).

(** [if(w < weight_max) w++;] and [if(w > weight_min) w--;] *)
Definition train_weight (k : cfg) (up : bool) (w : Z) : Z :=
  if up then (if w <? weight_max k then i16 (w + 1) else w)
  else (if weight_min k <? w then i16 (w - 1) else w).

(** Source: src/xiosim/ZCOMPS-bpred/bpred-perceptron.cpp:144-175 bpred_perceptron_t::update. *)
Definition update (s : t) (c : sc) (a : bp_args) (our_pred : bool) : result (t * sc) :=
  let* s :=
    (if negb (Bool.eqb (0 <=? sum c) (outcome a))
        || ((sum c <? theta (conf s)) && (- theta (conf s) <? sum c)) then
       let* r := deref (top_entry c) in
       let* row := aget (top s) r in
       let* w0 := aget row 0 in
       let* row := aset row 0 (train_weight (conf s) (outcome a) w0) in
       let* row := for_range 0 (history_length (conf s)) (λ i row,
         let* w := aget row (i + 1) in
         let hb := hist_bit (lookup_bhr c) (lookup_bhr_old c) i in
         aset row (i + 1) (train_weight (conf s) (hb =? Z.b2z (outcome a)) w)) row in
       let* top' := aset (top s) r row in
       Ok (with_top s top')
     else Ok s) in
  let st := stats_after_update (stats s) (updated c) (outcome a) our_pred in
  Ok (with_stats s st,
      mk_sc (top_entry c) (sum c) (lookup_bhr c) (lookup_bhr_old c) true).

(** Source: src/xiosim/ZCOMPS-bpred/bpred-perceptron.cpp:178-184 bpred_perceptron_t::spec_update. *)
Definition spec_update (s : t) (c : sc) (our_pred : bool) : result (t * sc) :=
  Ok (with_bhr (with_stats s (count_spec_update (stats s)))
        (Z.lor (u64 (Z.shiftl (bhr s) 1)) (Z.b2z our_pred))
        (Z.lor (u64 (Z.shiftl (bhr_old s) 1)) (Z.land (Z.shiftr (bhr s) 63) 1)), c).

(** Source: src/xiosim/ZCOMPS-bpred/bpred-perceptron.cpp:187-192 bpred_perceptron_t::recover.
    The low bit of [bhr_old] is the comparison [sc->lookup_bhr<1]. *)
Definition recover (s : t) (c : sc) (outcome : bool) : result (t * sc) :=
  Ok (with_bhr s
        (Z.lor (u64 (Z.shiftl (lookup_bhr c) 1)) (Z.b2z outcome))
        (Z.lor (u64 (Z.shiftl (lookup_bhr_old c) 1)) (Z.b2z (lookup_bhr c <? 1))), c).

(** Source: src/xiosim/ZCOMPS-bpred/bpred-perceptron.cpp:195-200 bpred_perceptron_t::flush. *)
Definition flush (s : t) (c : sc) : result (t * sc) :=
  Ok (with_bhr s (lookup_bhr c) (lookup_bhr_old c), c).

(** Source: src/xiosim/ZCOMPS-bpred/bpred-perceptron.cpp:220-226 bpred_perceptron_t::get_cache. *)
Definition get_cache : sc := mk_sc None 0 0 0 false.

#[export] Instance predictor : DirPredictor t sc := {
  dp_stats := stats;
  dp_updated := updated;
  dp_lookup s c a _ := lookup s c a;
  dp_update s c a p _ := update s c a p;
  dp_spec_update s c _ p := spec_update s c p;
  dp_recover := recover;
  dp_flush := flush;
  dp_get_cache _ := get_cache;
  dp_reset_stats s := with_stats s (BPredBase.reset_stats (stats s));
  dp_with_stats := with_stats
}.

(** ** Invariant: every weight stays within its width

    Histories of up to 128 outcomes: the two 64-bit registers hold no more. *)

Definition weight_ok (k : cfg) (w : Z) : Prop := weight_min k ≤ w ≤ weight_max k.

Definition wf_cfg (k : cfg) : Prop :=
  1 ≤ top_size k ∧ top_mask k = top_size k - 1 ∧ 0 ≤ history_length k ≤ 128 ∧
  - 1024 ≤ weight_min k ≤ 0 ∧ 0 ≤ weight_max k < 1024.

Definition wf (s : t) : Prop :=
  wf_cfg (conf s) ∧
  row_ok (top_size (conf s))
    (row_ok (1 + history_length (conf s)) (weight_ok (conf s))) (top s).

Definition ref (s : t) (c : sc) : Prop :=
  ∃ r, top_entry c = Some r ∧ 0 ≤ r < top_size (conf s).

Lemma weight_bound_pow e : 0 ≤ e ≤ 10 → 0 < 2 ^ e ≤ 1024.
Proof.
  intros. split; [apply Z.pow_pos_nonneg; lia|].
  change 1024 with (2 ^ 10). apply Z.pow_le_mono_r; lia.
Qed.

Lemma theta_of_log2 h : 0 ≤ h ≤ 128 → 3 ≤ Z.log2 (theta_of h) ≤ 8.
Proof.
  intros. assert (14 ≤ theta_of h ≤ 511).
  { unfold theta_of. assert (0 ≤ 193 * h / 100 < 300); [|lia].
    split; [apply Z.div_pos|apply Z.div_lt_upper_bound]; lia. }
  split; [change 3 with (Z.log2 14)|change 8 with (Z.log2 511)]; apply Z.log2_le_mono; lia.
Qed.

Lemma bpred_perceptron_create_ok h n s : h ≤ 128 → create h n = Ok s →
  wf s ∧ stats s = init_stats.
Proof.
  unfold create. intros Hh E. apply bind_Ok_inv in E as (u1 & G1 & E).
  apply bind_Ok_inv in E as (u2 & G2 & E). injection E as <-. split; [|done].
  unfold guard_or in *. destruct (0 <=? h) eqn:Eh; [|done].
  destruct (check_ppow2 n) eqn:En; [|done]. apply check_ppow2_pos in En.
  apply Z.leb_le in Eh. pose proof (theta_of_log2 h ltac:(lia)).
  set (w := if _ =? _ then _ else _).
  assert (4 ≤ w ≤ 10) as Hw by (subst w; destruct (_ =? _); lia).
  pose proof (weight_bound_pow (w - 1) ltac:(lia)).
  unfold wf, wf_cfg. simpl. rewrite !shiftl_1_l by lia. split; [split_and!; lia|].
  apply row_ok_replicate; [lia|]. apply row_ok_replicate; [lia|].
  unfold weight_ok. simpl. lia.
Qed.

Lemma perceptron_train_weight_ok k up w : wf_cfg k → weight_ok k w → weight_ok k (train_weight k up w).
Proof.
  unfold wf_cfg, weight_ok, train_weight. intros ? Hw.
  destruct up; [destruct (Z.ltb_spec w (weight_max k))|destruct (Z.ltb_spec (weight_min k) w)];
    rewrite ?i16_small; lia.
Qed.

Lemma hist_bit_cases h h_old i : hist_bit h h_old i = 0 ∨ hist_bit h h_old i = 1.
Proof.
  unfold hist_bit. destruct (_ <? _);
    [pose proof (land_bound (Z.shiftr h i) 1)|pose proof (land_bound (Z.shiftr h_old (i - 64)) 1)];
    lia.
Qed.

Lemma BIPOLAR_cases h h_old i :
  BIPOLAR (hist_bit h h_old i) = 1 ∨ BIPOLAR (hist_bit h h_old i) = -1.
Proof. destruct (hist_bit_cases h h_old i) as [-> | ->]; [by right|by left]. Qed.

(** The dot product of a row with the history, over the integers. *)
Fixpoint dot (row : list Z) (h h_old : Z) (n : nat) : Z :=
  match n with
  | O => default 0 (row !! 0%nat)
  | S n => dot row h h_old n +
           default 0 (row !! S n) * BIPOLAR (hist_bit h h_old (Z.of_nat n))
  end.

Lemma dot_bound k row h h_old n : wf_cfg k → Forall (weight_ok k) row →
  (n < length row)%nat → Z.abs (dot row h h_old n) ≤ 1024 * (Z.of_nat n + 1).
Proof.
  intros Hk Hrow. induction n as [|n IH]; intros Hn; simpl.
  - destruct row as [|w row]; [simpl in Hn; lia|]. inversion_clear Hrow.
    unfold weight_ok, wf_cfg in *. simpl. lia.
  - destruct (lookup_lt_is_Some_2 row (S n) Hn) as [w Hw]. rewrite Hw. simpl.
    pose proof (Forall_lookup_1 _ _ _ _ Hrow Hw). unfold weight_ok, wf_cfg in *.
    specialize (IH ltac:(lia)).
    destruct (BIPOLAR_cases h h_old (Z.of_nat n)) as [-> | ->]; lia.
Qed.

(** The loop of a lookup computes the dot product: no partial sum leaves [int]. *)
Lemma lookup_sum_dot k row h h_old n w0 : wf_cfg k → Forall (weight_ok k) row →
  0 ≤ n < Z.of_nat (length row) → n ≤ 128 → row !! 0%nat = Some w0 →
  for_range 0 n (λ i sum, let* w := aget row (i + 1) in
    Ok (i32 (sum + w * BIPOLAR (hist_bit h h_old i)))) w0 = Ok (dot row h h_old (Z.to_nat n)).
Proof.
  intros Hk Hrow Hn Hn128 H0.
  enough (wp (for_range 0 n (λ i sum, let* w := aget row (i + 1) in
    Ok (i32 (sum + w * BIPOLAR (hist_bit h h_old i)))) w0)
    (λ x, x = dot row h h_old (Z.to_nat n))) as Hwp
    by (apply wp_exists in Hwp as (x & -> & ->); done).
  apply (wp_for_range (λ i x, x = dot row h h_old (Z.to_nat i))); [lia|simpl; by rewrite H0| |done].
  intros i x Hi ->. apply wp_bind, wp_aget; [lia|]. intros w Hw. simpl.
  replace (Z.to_nat (i + 1)) with (S (Z.to_nat i)) in * by lia. simpl.
  rewrite Hw, Z2Nat.id by lia. simpl. apply i32_small.
  pose proof (dot_bound k row h h_old (S (Z.to_nat i)) Hk Hrow ltac:(lia)) as B.
  simpl in B. rewrite Hw, Z2Nat.id in B by lia. simpl in B. lia.
Qed.

(** The row after training, weight by weight. *)
Definition trained (k : cfg) (h h_old : Z) (o : bool) (row row' : list Z) : Prop :=
  length row' = length row ∧
  ∀ j : nat, row' !! j = (λ w,
    train_weight k (match j with O => o | S j => hist_bit h h_old (Z.of_nat j) =? Z.b2z o end) w)
    <$> row !! j.

Lemma update_row_trained k h h_old o row n :
  Z.of_nat (length row) = 1 + n → 0 ≤ n →
  wp (let* w0 := aget row 0 in
      let* row := aset row 0 (train_weight k o w0) in
      for_range 0 n (λ i row,
         let* w := aget row (i + 1) in
         aset row (i + 1) (train_weight k (hist_bit h h_old i =? Z.b2z o) w)) row)
     (trained k h h_old o row).
Proof.
  intros Hl Hn. apply wp_bind, wp_aget; [lia|]. intros w0 H0. apply wp_bind.
  apply wp_aset; [lia|]. change (Z.to_nat 0) with 0%nat in *.
  apply (wp_for_cells (λ i w, train_weight k (hist_bit h h_old i =? Z.b2z o) w));
    rewrite ?length_insert; try lia.
  intros l' Hl' Hj. split; [done|]. intros j. rewrite Hj.
  destruct j as [|j].
  - rewrite decide_False by lia. rewrite list_lookup_insert_eq by lia. by rewrite H0.
  - rewrite list_lookup_insert_ne by done. case_decide as Hd.
    + replace (Z.of_nat (S j) - 1) with (Z.of_nat j) by lia. done.
    + assert (row !! S j = None) as -> by (apply lookup_ge_None; lia). done.
Qed.

Lemma trained_row_ok k h h_old o n row row' : wf_cfg k →
  trained k h h_old o row row' → row_ok n (weight_ok k) row → row_ok n (weight_ok k) row'.
Proof.
  intros Hk [Hl Hj] [Hn HF]. split; [by rewrite Hl|].
  apply Forall_lookup. intros j w'. rewrite Hj. intros Hw.
  apply fmap_Some in Hw as (w & Hw & ->). apply perceptron_train_weight_ok; [done|].
  by eapply Forall_lookup_1.
Qed.

(** What an update does to the table. *)
Definition update_post (s : t) (c : sc) (a : bp_args) (s' : t) : Prop :=
  conf s' = conf s ∧ stats s' = stats s ∧ bhr s' = bhr s ∧ bhr_old s' = bhr_old s ∧
  (top s' = top s ∨
   ∃ r row row', top_entry c = Some r ∧ top s !! Z.to_nat r = Some row ∧
     trained (conf s) (lookup_bhr c) (lookup_bhr_old c) (outcome a) row row' ∧
     top s' = <[Z.to_nat r := row']> (top s)).

Lemma bpred_perceptron_update_safe s c a p : wf s → ref s c →
  wp (update s c a p) (λ '(s', c'), wf s' ∧ ref s' c' ∧ conf s' = conf s ∧
    stats s' = stats_after_update (stats s) (updated c) (outcome a) p ∧ updated c' = true).
Proof.
  intros (Hk & [Lt Ht]) (r & Hr & Hi). unfold update. apply wp_bind.
  apply (wp_mono _ (λ s', wf s' ∧ conf s' = conf s ∧ stats s' = stats s)).
  2:{ intros s' (Hwf & Ec & Es). simpl. rewrite Es. split_and!; try done.
      exists r. simpl. by rewrite Ec. }
  destruct (_ || _); [|done]. rewrite Hr. simpl.
  apply wp_bind. apply (wp_aget_Forall _ _ _ _ Ht); [lia|]. intros row Hrow Hok.
  pose proof (update_row_trained (conf s) (lookup_bhr c) (lookup_bhr_old c) (outcome a) row
    (history_length (conf s)) (proj1 Hok) ltac:(apply Hk)) as Hup.
  apply wp_bind_inv in Hup. apply wp_bind. eapply wp_mono; [exact Hup|]. intros w0 Hup0.
  apply wp_bind_inv in Hup0. apply wp_bind. eapply wp_mono; [exact Hup0|]. intros row1 Hup1.
  apply wp_bind. eapply wp_mono; [exact Hup1|]. intros row' Htr. apply wp_bind.
  wp_array. split_and!; try done.
  split; [done|]. simpl. apply row_ok_insert; [done|].
  by eapply trained_row_ok.
Qed.

#[export] Instance predictor_ok : DirPredictorOk t sc.
Proof.
  refine {| dp_wf := wf; dp_ref := ref |}; simpl; [done|done|..].
  - intros s c a _ Hwf. pose proof Hwf as (Hk & [Lt Ht]).
    pose proof Hk as (Hs & Em & Hh & _).
    pose proof (land_mask_range (PC a) _ Hs) as R. rewrite <- Em in R. unfold lookup.
    apply wp_bind. apply (wp_aget_Forall _ _ _ _ Ht); [lia|]. intros row Hrow [Hn HF].
    apply wp_bind. apply wp_aget; [lia|]. intros w0 Hw0.
    apply wp_bind. rewrite (lookup_sum_dot (conf s)) by (try done; lia). simpl.
    split_and!; try done. eexists. simpl. eauto.
  - intros s c a p _ Hwf Hr. eapply wp_mono; [by apply bpred_perceptron_update_safe|].
    intros [s' c'] (Hwf' & Hr' & Ec & Es & Eu). split_and!; try done.
    split; [done|]. intros c0 (r & ? & ?). exists r. by rewrite Ec.
  - done.
  - done.
  - done.
Defined.

(** ** Global history, up to 64 outcomes *)

#[export] Instance hist : HistPredictor t sc Z := {
  hp_on s := history_length (conf s) ≤ 64;
  hp_hist := bhr;
  hp_saved _ c := lookup_bhr c;
  hp_shift _ h b := Z.lor (u64 (Z.shiftl h 1)) (Z.b2z b)
}.

Lemma update_frame s c a p s' c' : update s c a p = Ok (s', c') →
  conf s' = conf s ∧ bhr s' = bhr s.
Proof. unfold update. intros E. by inv_ok. Qed.

#[export] Instance hist_ok : HistPredictorOk t sc Z.
Proof.
  split; intros *; intros Hon E; simpl in *.
  - unfold lookup in E. by inv_ok.
  - apply update_frame in E as [Ec Eb]. unfold same_history_format. simpl. by rewrite Ec, Eb.
  - unfold spec_update in E. by inv_ok.
  - unfold recover in E. by inv_ok.
  - unfold flush in E. by inv_ok.
Qed.

(** ** What training does to the prediction *)

Lemma train_dot_mono k row row' h h_old o n : wf_cfg k → Forall (weight_ok k) row →
  trained k h h_old o row row' → (n < length row)%nat →
  if o then dot row h h_old n ≤ dot row' h h_old n
  else dot row' h h_old n ≤ dot row h h_old n.
Proof.
  intros Hk HF [Hl Hj]. unfold wf_cfg in Hk. induction n as [|n IH]; intros Hn; simpl.
  - rewrite Hj. destruct (lookup_lt_is_Some_2 row 0 Hn) as [w Hw]. rewrite Hw. simpl.
    pose proof (Forall_lookup_1 _ _ _ _ HF Hw). unfold weight_ok, train_weight in *.
    destruct o; [destruct (Z.ltb_spec w (weight_max k))|destruct (Z.ltb_spec (weight_min k) w)];
      rewrite ?i16_small; lia.
  - rewrite Hj. destruct (lookup_lt_is_Some_2 row (S n) Hn) as [w Hw]. rewrite Hw. simpl.
    pose proof (Forall_lookup_1 _ _ _ _ HF Hw). specialize (IH ltac:(lia)).
    unfold weight_ok, train_weight in *.
    destruct (hist_bit_cases h h_old (Z.of_nat n)) as [-> | ->], o; simpl;
      repeat match goal with |- context [?x <? ?y] => destruct (Z.ltb_spec x y) end;
      change (BIPOLAR 0) with (-1); change (BIPOLAR 1) with 1; rewrite ?i16_small; lia.
Qed.

End bpred_perceptron.
