(* ===== verification/BPredTageHist.v ===== *)
(** * BPredTageHist: the 512-bit global history of the TAGE predictor

    src/xiosim/ZCOMPS-bpred/bpred-tage.cpp keeps the history as eight
    [uint64_t] words, shifts them word by word, and folds a prefix of the
    history into a table index chunk by chunk.  The specification is the
    512-bit number [hist_val]: shifting is [2 * val + bit] modulo [2^512], and
    the folded hash is the exclusive or of the consecutive [hash_length]-bit
    slices of that number. *)

From S2P Require Import Prelude.

Module tage_hist.

(** Source: src/xiosim/ZCOMPS-bpred/bpred-tage.cpp:31-31 bpred_tage_hist_t.
    Word 0 holds the most recent outcomes. *)
Definition hist_t : Type := list Z.

(** The words of [H] shifted left by one, [c] entering at the bottom. *)
Fixpoint hist_shift (c : Z) (H : hist_t) : hist_t :=
  match H with
  | [] => []
  | h :: t => Z.lor (u64 (Z.shiftl h 1)) c :: hist_shift (Z.land (Z.shiftr h 63) 1) t
  end.

(** Source: src/xiosim/ZCOMPS-bpred/bpred-tage.cpp:56-66 bpred_tage_hist_update. *)
Definition hist_update (H : hist_t) (outcome : bool) : hist_t :=
  hist_shift (Z.land (Z.b2z outcome) 1) H.

(** The loop variables of the hash. *)
Record hash_state : Type := mk_hash { h_result : Z; h_row : Z; h_pos : Z }.

(** One iteration of the hash. *)
Definition hash_step (H : hist_t) (hash_length mask : Z) (st : hash_state) : result hash_state :=
  let '(mk_hash result row pos) := st in
  let* w := aget H row in
  let result := i32 (Z.lxor result (Z.land (Z.shiftr w pos) mask)) in
  if 64 <? pos + hash_length then
    let row := row + 1 in
    let pos := Z.land (pos + hash_length) 63 in
    let* w := aget H row in
    Ok (mk_hash (i32 (Z.lxor result (Z.land (u64 (Z.shiftl w (hash_length - pos))) mask))) row pos)
  else
    let pos := pos + hash_length in
    if 63 <? pos then Ok (mk_hash result (row + 1) (Z.land pos 63))
    else Ok (mk_hash result row pos).

(** Source: src/xiosim/ZCOMPS-bpred/bpred-tage.cpp:80-107 bpred_tage_hist_hash. *)
Definition hist_hash (H : hist_t) (hist_length hash_length : Z) : result Z :=
  let mask := i32 (i32 (Z.shiftl 1 hash_length) - 1) in
  let* _ := guard_or (negb (hash_length =? 0)) DivByZero in
  let* st := for_range 0 (Z.quot hist_length hash_length)
               (λ _ st, hash_step H hash_length mask st) (mk_hash 0 0 0) in
  Ok (h_result st).

(** ** Specification *)

(** The words as one number, word 0 least significant. *)
Fixpoint hist_val (H : hist_t) : Z :=
  match H with [] => 0 | h :: t => h + 2 ^ 64 * hist_val t end.

Definition word_ok (h : Z) : Prop := 0 ≤ h < 2 ^ 64.
Definition hist_ok (H : hist_t) : Prop := length H = 8%nat ∧ Forall word_ok H.

Lemma hist_val_range H : Forall word_ok H → 0 ≤ hist_val H < 2 ^ (64 * Z.of_nat (length H)).
Proof.
  induction 1 as [|h H Hh _ IH]; [done|]. simpl length. simpl hist_val.
  replace (64 * Z.of_nat (S (length H))) with (64 + 64 * Z.of_nat (length H)) by lia.
  rewrite Z.pow_add_r by lia. unfold word_ok in Hh. nia.
Qed.

Lemma shift_word h c : word_ok h → 0 ≤ c ≤ 1 →
  Z.lor (u64 (Z.shiftl h 1)) c + 2 ^ 64 * Z.land (Z.shiftr h 63) 1 = 2 * h + c.
Proof.
  intros Hh Hc. unfold word_ok in Hh.
  assert (Z.lor (u64 (Z.shiftl h 1)) c = (2 * h) mod 2 ^ 64 + c) as ->.
  { assert (c = 0 ∨ c = 1) as [-> | ->] by lia.
    - by rewrite Z.lor_0_r, Z.add_0_r, Z.shiftl_mul_pow2, Z.mul_comm by lia.
    - unfold u64, wrap_u. rewrite Z.shiftl_mul_pow2, Z.mul_comm by lia. change (2 ^ 1) with 2.
      assert ((2 * h) mod 2 ^ 64 = Z.shiftl (h mod 2 ^ 63) 1) as ->.
      { rewrite Z.shiftl_mul_pow2, (Z.mul_comm _ (2 ^ 1)) by lia.
        change (2 ^ 64) with (2 ^ 1 * 2 ^ 63). change (2 ^ 1) with 2.
        apply Zmult_mod_distr_l. }
      change 1 with (Z.b2z true) at 2. rewrite lor_shiftl_bit. simpl.
      rewrite Z.shiftl_mul_pow2 by lia. lia. }
  change 1 with (2 ^ 1 - 1) at 1. rewrite land_pow2_mask by lia.
  rewrite Z.shiftr_div_pow2 by lia. rewrite (Z.mod_small (h / 2 ^ 63)).
  2:{ split; [apply Z.div_pos|apply Z.div_lt_upper_bound]; lia. }
  pose proof (Z.div_mod h (2 ^ 63) ltac:(lia)).
  assert ((2 * h) mod 2 ^ 64 = 2 * (h mod 2 ^ 63)) as ->; [|lia].
  change (2 ^ 64) with (2 * 2 ^ 63). apply Zmult_mod_distr_l.
Qed.

Lemma shift_carry h : 0 ≤ Z.land (Z.shiftr h 63) 1 ≤ 1.
Proof. apply land_bound. lia. Qed.

Lemma lor_word_ok h c : 0 ≤ c ≤ 1 → word_ok (Z.lor (u64 (Z.shiftl h 1)) c).
Proof.
  intros Hc. unfold word_ok. pose proof (u64_range (Z.shiftl h 1)) as Hr.
  assert (Z.lor (u64 (Z.shiftl h 1)) c = Z.lor (u64 (Z.shiftl h 1)) c mod 2 ^ 64) as ->;
    [|by apply Z.mod_pos_bound].
  apply Z.bits_inj'. intros n Hn. destruct (Z.ltb_spec n 64).
  - by rewrite Z.mod_pow2_bits_low.
  - rewrite Z.mod_pow2_bits_high, Z.lor_spec by lia.
    rewrite (testbit_above _ 64) by lia. rewrite (testbit_above c 1) by lia. done.
Qed.

Lemma hist_shift_ok c H : 0 ≤ c ≤ 1 → Forall word_ok (hist_shift c H).
Proof.
  revert c. induction H as [|h H IH]; intros c Hc; simpl; constructor.
  - by apply lor_word_ok.
  - apply IH, shift_carry.
Qed.

Lemma hist_shift_length c H : length (hist_shift c H) = length H.
Proof. revert c. induction H; intros; simpl; auto. Qed.

(** The carry out of the top word is what the modulus drops. *)
Lemma hist_shift_val H c : Forall word_ok H → 0 ≤ c ≤ 1 →
  hist_val (hist_shift c H) = (2 * hist_val H + c) mod 2 ^ (64 * Z.of_nat (length H)).
Proof.
  intros HF Hc. symmetry. set (N := 64 * Z.of_nat (length H)).
  enough (∃ k, 2 * hist_val H + c = hist_val (hist_shift c H) + k * 2 ^ N) as (k & ->).
  { rewrite Z.mod_add by (apply Z.pow_nonzero; lia). apply Z.mod_small.
    subst N. rewrite <- (hist_shift_length c). apply hist_val_range, hist_shift_ok. done. }
  subst N. revert c Hc. induction HF as [|h H Hh _ IH]; intros c Hc.
  { exists c. simpl. lia. }
  destruct (IH (Z.land (Z.shiftr h 63) 1) (shift_carry h)) as (k & Hk). exists k.
  simpl hist_shift. simpl hist_val. simpl length.
  replace (64 * Z.of_nat (S (length H))) with (64 + 64 * Z.of_nat (length H)) by lia.
  rewrite Z.pow_add_r by lia. pose proof (shift_word h c Hh Hc). lia.
Qed.

Lemma b2z_land b : Z.land (Z.b2z b) 1 = Z.b2z b.
Proof. by destruct b. Qed.

Lemma b2z_range b : 0 ≤ Z.b2z b ≤ 1.
Proof. destruct b; simpl; lia. Qed.

Lemma hist_update_ok H o : hist_ok H → hist_ok (hist_update H o).
Proof.
  intros [Hl _]. split; [by unfold hist_update; rewrite hist_shift_length|].
  apply hist_shift_ok. rewrite b2z_land. apply b2z_range.
Qed.

(** C21. Shifting an outcome into TAGE's eight-word history is exactly
    [2 * history + outcome] on the 512-bit history, the oldest outcome being
    dropped: no outcome is lost or duplicated at a word boundary. *)
Theorem tage_hist_update_is_shift H o : hist_ok H →
  hist_val (hist_update H o) = (2 * hist_val H + Z.b2z o) mod 2 ^ 512.
Proof.
  intros [Hl HF]. unfold hist_update. rewrite b2z_land, hist_shift_val by
    (try done; apply b2z_range). by rewrite Hl.
Qed.

Lemma tage_hist_update_is_shift_witness :
  hist_val (hist_update [2 ^ 63; 0; 0; 0; 0; 0; 0; 0] true) = 2 ^ 64 + 1.
Proof.
  rewrite (tage_hist_update_is_shift [2 ^ 63; 0; 0; 0; 0; 0; 0; 0] true).
  - vm_compute. reflexivity.
  - split; [reflexivity|]. repeat constructor; try (vm_compute; discriminate); vm_compute; reflexivity.
Defined.

(** The exclusive or of the first [n] slices of [l] bits of [v]. *)
Fixpoint fold_slices (v l : Z) (n : nat) : Z :=
  match n with
  | O => 0
  | S n => Z.lxor (fold_slices v l n) (Z.shiftr v (Z.of_nat n * l) mod 2 ^ l)
  end.

(** Bit [i] of the history is bit [i mod 64] of word [i / 64]. *)
Lemma hist_val_testbit H i : Forall word_ok H → 0 ≤ i →
  Z.testbit (hist_val H) i = Z.testbit (default 0 (H !! Z.to_nat (i / 64))) (i mod 64).
Proof.
  intros HF. revert i. induction HF as [|h H Hh HF IH]; intros i Hi; simpl.
  { by rewrite !Z.bits_0. }
  assert (h + 2 ^ 64 * hist_val H = Z.lor h (Z.shiftl (hist_val H) 64)) as ->.
  { rewrite <- Z.lxor_lor, <- Z.add_nocarry_lxor.
    - rewrite Z.shiftl_mul_pow2 by lia. lia.
    - apply Z.bits_inj'. intros n Hn. rewrite Z.land_spec, Z.bits_0, Z.shiftl_spec by lia.
      destruct (Z.ltb_spec n 64); [by rewrite (Z.testbit_neg_r _ (n - 64)), andb_false_r by lia|].
      by rewrite (testbit_above h 64) by (unfold word_ok in Hh; lia).
    - apply Z.bits_inj'. intros n Hn. rewrite Z.land_spec, Z.bits_0, Z.shiftl_spec by lia.
      destruct (Z.ltb_spec n 64); [by rewrite (Z.testbit_neg_r _ (n - 64)), andb_false_r by lia|].
      by rewrite (testbit_above h 64) by (unfold word_ok in Hh; lia). }
  rewrite Z.lor_spec, Z.shiftl_spec by lia. destruct (Z.ltb_spec i 64).
  - rewrite Z.div_small, Z.mod_small by lia. simpl.
    by rewrite (Z.testbit_neg_r _ (i - 64)), orb_false_r by lia.
  - rewrite (testbit_above h 64) by (unfold word_ok in Hh; lia). simpl.
    rewrite IH by lia.
    assert (1 ≤ i / 64) by (apply Z.div_le_lower_bound; lia).
    replace (Z.to_nat (i / 64)) with (S (Z.to_nat ((i - 64) / 64))).
    2:{ replace (i - 64) with (i + (-1) * 64) by lia. rewrite Z.div_add by lia. lia. }
    simpl. f_equal. replace (i - 64) with (i + (-1) * 64) by lia. by rewrite Z.mod_add by lia.
Qed.

Lemma land_ones_bound x l : 0 ≤ l ≤ 30 → 0 ≤ x mod 2 ^ l < 2 ^ 31.
Proof.
  intros. pose proof (Z.mod_pos_bound x (2 ^ l) ltac:(apply Z.pow_pos_nonneg; lia)).
  assert (2 ^ l ≤ 2 ^ 30) by (apply Z.pow_le_mono_r; lia). lia.
Qed.

Lemma lxor_range a b n : 0 ≤ n → 0 ≤ a < 2 ^ n → 0 ≤ b < 2 ^ n → 0 ≤ Z.lxor a b < 2 ^ n.
Proof.
  intros Hn Ha Hb. assert (Z.lxor a b = Z.lxor a b mod 2 ^ n) as ->;
    [|by apply Z.mod_pos_bound, Z.pow_pos_nonneg].
  apply Z.bits_inj'. intros i Hi. destruct (Z.ltb_spec i n).
  - by rewrite Z.mod_pow2_bits_low.
  - rewrite Z.mod_pow2_bits_high, Z.lxor_spec by lia. by rewrite !(testbit_above _ n) by lia.
Qed.

Lemma fold_slices_range v l n : 0 ≤ l → 0 ≤ fold_slices v l n < 2 ^ l.
Proof.
  intros Hl. assert (0 < 2 ^ l) by (by apply Z.pow_pos_nonneg).
  induction n; simpl; [lia|]. apply lxor_range; [done|done|]. by apply Z.mod_pos_bound.
Qed.

(** The loop variables before iteration [i]: [row] and [pos] locate bit [i * l]. *)
Definition hash_inv (H : hist_t) (l i : Z) (st : hash_state) : Prop :=
  h_result st = fold_slices (hist_val H) l (Z.to_nat i) ∧
  h_row st = (i * l) / 64 ∧ h_pos st = (i * l) mod 64.

Lemma slice_one_word H l p w : Forall word_ok H → 0 ≤ p → 0 ≤ l → p mod 64 + l ≤ 64 →
  H !! Z.to_nat (p / 64) = Some w →
  Z.shiftr w (p mod 64) mod 2 ^ l = Z.shiftr (hist_val H) p mod 2 ^ l.
Proof.
  intros HF Hp Hl Hle Hw. apply Z.bits_inj'. intros n Hn.
  destruct (Z.ltb_spec n l); [|by rewrite !Z.mod_pow2_bits_high by lia].
  pose proof (Z.mod_pos_bound p 64 ltac:(lia)).
  rewrite !Z.mod_pow2_bits_low, !Z.shiftr_spec by lia.
  rewrite hist_val_testbit by (done || lia). pose proof (Z.div_mod p 64 ltac:(lia)).
  replace (n + p) with (n + p mod 64 + p / 64 * 64) by lia.
  rewrite Z.div_add, Z.mod_add by lia.
  rewrite (Z.div_small (n + p mod 64)), (Z.mod_small (n + p mod 64)) by lia.
  rewrite Z.add_0_l, Hw. done.
Qed.

Lemma slice_two_words H l p w w' : Forall word_ok H → 0 ≤ p → 0 ≤ l ≤ 64 → 64 < p mod 64 + l →
  H !! Z.to_nat (p / 64) = Some w → H !! Z.to_nat (p / 64 + 1) = Some w' →
  Z.lxor (Z.shiftr w (p mod 64) mod 2 ^ l) (u64 (Z.shiftl w' (64 - p mod 64)) mod 2 ^ l) =
  Z.shiftr (hist_val H) p mod 2 ^ l.
Proof.
  intros HF Hp Hl Hlt Hw Hw'. apply Z.bits_inj'. intros n Hn. rewrite Z.lxor_spec.
  destruct (Z.ltb_spec n l); [|by rewrite !Z.mod_pow2_bits_high by lia].
  pose proof (Z.mod_pos_bound p 64 ltac:(lia)).
  rewrite !Z.mod_pow2_bits_low by lia. unfold u64, wrap_u. rewrite Z.mod_pow2_bits_low by lia.
  rewrite !Z.shiftr_spec, Z.shiftl_spec by lia.
  rewrite hist_val_testbit by (done || lia). pose proof (Z.div_mod p 64 ltac:(lia)).
  replace (n + p) with (n + p mod 64 + p / 64 * 64) by lia.
  rewrite Z.div_add, Z.mod_add by lia.
  pose proof (Forall_lookup_1 _ _ _ _ HF Hw) as Hok.
  destruct (Z.ltb_spec (n + p mod 64) 64).
  - rewrite (Z.div_small (n + p mod 64)), (Z.mod_small (n + p mod 64)) by lia.
    rewrite Z.add_0_l, Hw. simpl.
    by rewrite (Z.testbit_neg_r w'), xorb_false_r by lia.
  - rewrite (testbit_above w 64) by (unfold word_ok in Hok; lia).
    replace (n + p mod 64) with (n + p mod 64 - 64 + 1 * 64) by lia.
    rewrite Z.div_add, Z.mod_add by lia.
    rewrite (Z.div_small (n + p mod 64 - 64)), (Z.mod_small (n + p mod 64 - 64)) by lia.
    replace (0 + 1 + p / 64) with (p / 64 + 1) by lia. rewrite Hw'. simpl.
    f_equal. lia.
Qed.

Lemma land_63 x : Z.land x 63 = x mod 64.
Proof. change 63 with (2 ^ 6 - 1). by rewrite land_pow2_mask by lia. Qed.

Lemma hash_step_inv H l i st : hist_ok H → 1 ≤ l ≤ 30 → 0 ≤ i → (i + 1) * l ≤ 512 →
  hash_inv H l i st → wp (hash_step H l (2 ^ l - 1) st) (hash_inv H l (i + 1)).
Proof.
  intros [HL HF] Hl Hi Hle (Hr & Hrow & Hpos). destruct st as [r row pos]. simpl in *. subst.
  set (p := i * l) in *. assert (0 ≤ p) by (subst p; lia).
  assert ((i + 1) * l = p + l) as E by (subst p; lia).
  pose proof (Z.div_mod p 64 ltac:(lia)). pose proof (Z.mod_pos_bound p 64 ltac:(lia)).
  assert (0 ≤ p / 64 < 8) by (split; [apply Z.div_pos|apply Z.div_lt_upper_bound]; lia).
  pose proof (fold_slices_range (hist_val H) l (Z.to_nat i) ltac:(lia)) as Hfr.
  assert (2 ^ l ≤ 2 ^ 30) by (apply Z.pow_le_mono_r; lia).
  apply wp_bind, wp_aget; [lia|]. intros w Hw. simpl. rewrite land_pow2_mask by lia.
  pose proof (Z.mod_pos_bound (Z.shiftr w (p mod 64)) (2 ^ l) ltac:(lia)) as Hs.
  pose proof (lxor_range _ _ l ltac:(lia) Hfr Hs) as Hx.
  assert (Z.to_nat (i + 1) = S (Z.to_nat i)) as Ei by lia.
  destruct (Z.ltb_spec 64 (p mod 64 + l)).
  - assert ((p + l) / 64 = p / 64 + 1 ∧ (p + l) mod 64 = p mod 64 + l - 64) as [Ed Em].
    { replace (p + l) with (p mod 64 + l - 64 + (p / 64 + 1) * 64) by lia.
      rewrite Z.div_add, Z.mod_add, Z.div_small, Z.mod_small by lia. lia. }
    apply wp_bind, wp_aget; [lia|]. intros w' Hw'. simpl.
    unfold hash_inv. simpl. rewrite E, Ed, Em, land_63, Ei. simpl.
    assert ((p mod 64 + l) mod 64 = p mod 64 + l - 64) as ->.
    { replace (p mod 64 + l) with (p mod 64 + l - 64 + 1 * 64) by lia.
      rewrite Z.mod_add, Z.mod_small by lia. lia. }
    split; [|done]. rewrite land_pow2_mask by lia.
    replace (l - (p mod 64 + l - 64)) with (64 - p mod 64) by lia.
    rewrite (i32_small (Z.lxor (fold_slices _ _ _) _)) by lia.
    rewrite Z.lxor_assoc, (slice_two_words H) by (done || lia).
    replace (Z.of_nat (Z.to_nat i) * l) with p by (subst p; lia).
    apply i32_small. pose proof (Z.mod_pos_bound (Z.shiftr (hist_val H) p) (2 ^ l) ltac:(lia)) as Hs2.
    pose proof (lxor_range _ _ l ltac:(lia) Hfr Hs2). lia.
  - rewrite (i32_small (Z.lxor (fold_slices _ _ _) _)) by lia.
    rewrite (slice_one_word H) by (done || lia).
    destruct (Z.ltb_spec 63 (p mod 64 + l)); unfold hash_inv; simpl;
      rewrite E, Ei, ?land_63; simpl;
      replace (Z.of_nat (Z.to_nat i) * l) with p by (subst p; lia); (split; [done|]).
    + assert (p mod 64 + l = 64) as -> by lia.
      replace (p + l) with (0 + (p / 64 + 1) * 64) by lia.
      rewrite Z.div_add, Z.mod_add by lia. done.
    + replace (p + l) with (p mod 64 + l + p / 64 * 64) by lia.
      rewrite Z.div_add, Z.mod_add by lia.
      rewrite (Z.div_small (p mod 64 + l)), (Z.mod_small (p mod 64 + l)) by lia. lia.
Qed.

Lemma hist_hash_total H L l : hist_ok H → 1 ≤ l ≤ 30 → 0 ≤ L ≤ 512 →
  hist_hash H L l = Ok (fold_slices (hist_val H) l (Z.to_nat (L / l))).
Proof.
  intros HH Hl HL. unfold hist_hash.
  assert (i32 (i32 (Z.shiftl 1 l) - 1) = 2 ^ l - 1) as ->.
  { rewrite shiftl_1_l by lia. assert (0 < 2 ^ l ≤ 2 ^ 30)
      by (split; [apply Z.pow_pos_nonneg|apply Z.pow_le_mono_r]; lia).
    rewrite (i32_small (2 ^ l)) by lia. apply i32_small. lia. }
  rewrite (proj2 (Z.eqb_neq l 0)) by lia. simpl. rewrite Z.quot_div_nonneg by lia.
  assert (0 ≤ L / l) by (apply Z.div_pos; lia).
  assert (L / l * l ≤ L) by (pose proof (Z.mul_div_le L l); lia).
  enough (wp (for_range 0 (L / l) (λ _ st, hash_step H l (2 ^ l - 1) st) (mk_hash 0 0 0))
    (hash_inv H l (L / l))) as Hwp
    by (apply wp_exists in Hwp as (st & -> & (E & _ & _)); simpl; by rewrite E).
  apply (wp_for_range (hash_inv H l)); [done|done| |done].
  intros i st Hi Hst. apply hash_step_inv; try done; try lia. nia.
Qed.

(** C20. TAGE's folded history hash never reads outside the eight history words
    and computes the exclusive or of the consecutive [log_size]-bit slices of
    the most recent [hist_length] outcomes, also where a slice straddles two
    words.  (Outcomes past the last whole slice are left out, as in the code.) *)
Theorem tage_hist_hash_folds_slices H L l : hist_ok H → 1 ≤ l ≤ 30 → 0 ≤ L ≤ 512 →
  hist_hash H L l = Ok (fold_slices (hist_val H) l (Z.to_nat (L / l))) ∧
  0 ≤ fold_slices (hist_val H) l (Z.to_nat (L / l)) < 2 ^ l.
Proof.
  intros. split; [by apply hist_hash_total|apply fold_slices_range; lia].
Qed.

Lemma tage_hist_hash_folds_slices_witness :
  hist_hash [2 ^ 63 + 5; 3; 0; 0; 0; 0; 0; 0] 75 9 = Ok 2.
Proof.
  destruct (tage_hist_hash_folds_slices [2 ^ 63 + 5; 3; 0; 0; 0; 0; 0; 0] 75 9) as [E _];
    [|lia|lia|].
  - split; [reflexivity|]. repeat constructor; try (vm_compute; discriminate); vm_compute; reflexivity.
  - rewrite E. vm_compute. reflexivity.
Defined.

End tage_hist.
