(* ===== verification/BPredTage.v ===== *)
(** * BPredTage: the TAGE predictor of src/xiosim/ZCOMPS-bpred/bpred-tage.cpp

    A bimodal table [T[0]] and [num_tables-1] tagged tables indexed by the
    address hashed with geometrically longer history prefixes.  The matching
    table with the longest history provides the prediction, the next matching
    one the alternate prediction.  The history arithmetic is in BPredTageHist. *)

From S2P Require Import Prelude SatCounter BPredBase BPredTageHist.
Import tage_hist.

Module bpred_tage.

(** Source: src/xiosim/ZCOMPS-bpred/bpred-tage.cpp:28-29 TAGE_MAX_TABLES. *)
Definition TAGE_MAX_HIST : Z := 512.
Definition TAGE_MAX_TABLES : Z := 16.

(** Source: src/xiosim/ZCOMPS-bpred/bpred-tage.cpp:33-38 bpred_tage_ent_t. *)
Record ent : Type := mk_ent { tag : Z; ctr : Z; u : Z }.

(** Source: src/xiosim/ZCOMPS-bpred/bpred-tage.cpp:40-52 bpred_tage_sc_t.
    [index] holds the first [num_tables] entries of the array; [current_ctr] is
    never used. *)
Record sc : Type := mk_sc {
  lookup_bhr : hist_t;
  index : list Z;
  provider : Z;
  provpred : bool;
  alt : Z;
  altpred : bool;
  used_alt : bool;
  provnew : bool;
  updated : bool
}.

(** Source: src/xiosim/ZCOMPS-bpred/bpred-tage.cpp:111-122 bpred_tage_t.
    The members the constructor fixes. *)
Record cfg : Type := mk_cfg {
  num_tables : Z;
  table_size : Z;
  log_size : Z;
  table_mask : Z;
  tag_width : Z;
  tag_mask : Z;
  bim_size : Z;
  bim_mask : Z;
  Hlen : list Z;
  bits : Z
}.

(** Source: src/xiosim/ZCOMPS-bpred/bpred-tage.cpp:123-128 bpred_tage_t. *)
Record t : Type := mk {
  conf : cfg;
  stats : dstats;
  T : list (list ent);
  pwin : Z;
  Tuses : list Z;
  bhr : hist_t
}.

Definition with_stats (s : t) (st : dstats) : t :=
  mk (conf s) st (T s) (pwin s) (Tuses s) (bhr s).
Definition with_T (s : t) (l : list (list ent)) : t :=
  mk (conf s) (stats s) l (pwin s) (Tuses s) (bhr s).
Definition with_pwin (s : t) (p : Z) : t :=
  mk (conf s) (stats s) (T s) p (Tuses s) (bhr s).
Definition with_Tuses (s : t) (l : list Z) : t :=
  mk (conf s) (stats s) (T s) (pwin s) l (bhr s).
Definition with_bhr (s : t) (h : hist_t) : t :=
  mk (conf s) (stats s) (T s) (pwin s) (Tuses s) h.

(** The history lengths: [Hlen[0]] is 0, then a geometric series of ratio
    [alpha], and the last one is [arg_last_length].  With one table the last
    assignment is outside the array. *)
Definition make_Hlen (num_tables alpha first_length last_length : Z) : result (list Z) :=
  let* l := for_range 1 (num_tables - 1) (λ i l,
              aset l i (first_length * alpha ^ (i - 1)))
              (replicate (Z.to_nat num_tables) 0) in
  aset l (if num_tables - 1 <? 1 then 1 else num_tables - 1) last_length.

(** Source: src/xiosim/ZCOMPS-bpred/bpred-tage.cpp:138-226 bpred_tage_t::bpred_tage_t.
    [alpha], the integer part of [exp((log(last)-log(first))/(num_tables-2))], is
    an argument: the source takes it from the C math library. *)
Definition create (alpha : Z) (arg_num_tables arg_bim_size arg_table_size arg_tag_width
    arg_first_length arg_last_length : Z) : result t :=
  let* _ := guard_or (check_ppow2 arg_bim_size) Fatal in
  let* _ := guard_or (check_ppow2 arg_table_size) Fatal in
  let* _ := guard_or (0 <? arg_num_tables) Fatal in
  let* _ := guard_or (0 <? arg_tag_width) Fatal in
  let* _ := guard_or (0 <? arg_first_length) Fatal in
  let* _ := guard_or (0 <? arg_last_length) Fatal in
  let* _ := guard_or (arg_first_length <? arg_last_length) Fatal in
  let* _ := guard_or (arg_num_tables <? TAGE_MAX_TABLES) Fatal in
  let* _ := guard_or (arg_last_length <=? TAGE_MAX_HIST) Fatal in
  let* Hlen := make_Hlen arg_num_tables alpha arg_first_length arg_last_length in
  Ok (mk (mk_cfg arg_num_tables arg_table_size (Z.log2 arg_table_size) (arg_table_size - 1)
            arg_tag_width (i32 (i32 (Z.shiftl 1 arg_tag_width) - 1))
            arg_bim_size (arg_bim_size - 1) Hlen
            (arg_bim_size * 2 + (arg_num_tables - 1) * (2 + 3 + arg_tag_width) * arg_table_size
             + arg_last_length + 4))
         init_stats
         (replicate (Z.to_nat arg_bim_size) (mk_ent 0 MY2BC_WEAKLY_TAKEN 0)
          :: replicate (Z.to_nat (arg_num_tables - 1))
               (replicate (Z.to_nat arg_table_size) (mk_ent 0 4 0)))
         15
         (replicate (Z.to_nat arg_num_tables) 0)
         (replicate 8 0)).

(** Source: src/xiosim/ZCOMPS-bpred/bpred-tage.cpp:245-251 bpred_tage_t::lookup.
    [sc->index[i]] for every table: the address, hashed with the history. *)
Definition compute_index (s : t) (pc : Z) : result (list Z) :=
  for_range 0 (num_tables (conf s)) (λ i acc,
    if i =? 0 then Ok (acc ++ [i32 pc])
    else
      let* len := aget (Hlen (conf s)) i in
      let* h := hist_hash (bhr s) len (log_size (conf s)) in
      Ok (acc ++ [i32 (Z.lxor pc (u64 h))])) [].

(** [T[i][sc->index[i]&table_mask]] *)
Definition ent_at (s : t) (index : list Z) (i : Z) : result ent :=
  let* x := aget index i in aget2 (T s) i (Z.land x (table_mask (conf s))).

Definition pc_tag (k : cfg) (pc : Z) : Z := Z.land pc (u64 (tag_mask k)).

(** Source: src/xiosim/ZCOMPS-bpred/bpred-tage.cpp:261-262 bpred_tage_t::lookup.
    [((unsigned)ent->tag) == (PC&tag_mask)] *)
Definition tag_match (s : t) (pc : Z) (index : list Z) (i : Z) : result bool :=
  let* e := ent_at s index i in Ok (u32 (tag e) =? pc_tag (conf s) pc).

(** Source: src/xiosim/ZCOMPS-bpred/bpred-tage.cpp:241-310 bpred_tage_t::lookup. *)
Definition lookup (s : t) (c : sc) (a : bp_args) : result (t * sc * bool) :=
  let* index := compute_index s (PC a) in
  let* hit := find_down (num_tables (conf s) - 1) 0 (tag_match s (PC a) index) in
  let* prov :=
    match hit with
    | Some i =>
        let* e := ent_at s index i in
        let provnew := (u e =? 0) && ((ctr e =? 4) || (ctr e =? 3)) in
        Ok (i, 4 <=? ctr e, provnew, (pwin s <? 8) || negb provnew)
    | None => Ok (0, false, false, false)
    end in
  let '(provider, provpred, provnew, pwin_hit) := prov in
  let* alt_hit :=
    match hit with
    | Some i => find_down (i - 1) 0 (tag_match s (PC a) index)
    | None => Ok None
    end in
  let* altp :=
    match alt_hit with
    | Some j => let* e := ent_at s index j in Ok (j, 4 <=? ctr e)
    | None =>
        let* x := aget index 0 in
        let* e := aget2 (T s) 0 (Z.land x (bim_mask (conf s))) in
        Ok (0, dir_of (ctr e))
    end in
  Ok (with_stats s (count_lookup (stats s)),
      mk_sc (bhr s) index provider provpred altp.1 altp.2 (negb pwin_hit) provnew false,
      if pwin_hit then provpred else altp.2).

(** ** The parts of an update *)

(** Source: src/xiosim/ZCOMPS-bpred/bpred-tage.cpp:322-328 bpred_tage_t::update. *)
Definition count_use (s : t) (c : sc) : result t :=
  let* k := (if used_alt c then Ok (alt c)
             else let* _ := guard_or (negb (provider c =? 0)) AssertFail in Ok (provider c)) in
  let* n := aget (Tuses s) k in
  let* l := aset (Tuses s) k (n + 1) in
  Ok (with_Tuses s l).

(** Source: src/xiosim/ZCOMPS-bpred/bpred-tage.cpp:331-346 bpred_tage_t::update. *)
Definition train_pwin (s : t) (c : sc) (outcome : bool) : t :=
  if provnew c && negb (Bool.eqb (altpred c) (provpred c)) then
    if Bool.eqb (altpred c) outcome then (if pwin s <? 15 then with_pwin s (pwin s + 1) else s)
    else (if 0 <? pwin s then with_pwin s (pwin s - 1) else s)
  else s.

(** A table above the provider whose entry is not useful. *)
Definition free_entry (s : t) (c : sc) (i : Z) : result bool :=
  let* e := ent_at s (index c) i in Ok (u e =? 0).

Definition RAND_INT_MAX : Z := 2 ^ 31 - 1.

(** Source: src/xiosim/ZCOMPS-bpred/bpred-tage.cpp:348-388 bpred_tage_t::update.
    Allocation of a new entry after a misprediction; [r] is the value drawn
    from [rand_int] when there are two candidates. *)
Definition allocate (s : t) (c : sc) (a : bp_args) (our_pred : bool) (r : Z) : result t :=
  let n := num_tables (conf s) in
  if negb (Bool.eqb our_pred (outcome a)) && (provider c <? n - 1) then
    let* first := find_range (provider c + 1) n (free_entry s c) in
    match first with
    | Some i =>
        let* second := find_range (i + 1) n (free_entry s c) in
        let i := match second with
                 | Some j => if RAND_INT_MAX / 3 <? r then j else i
                 | None => i
                 end in
        let* x := aget (index c) i in
        let* T' := aset2 (T s) i (Z.land x (table_mask (conf s)))
                     (mk_ent (i32 (pc_tag (conf s) (PC a))) (3 + Z.b2z (outcome a)) 0) in
        Ok (with_T s T')
    | None =>
        let* T' := for_range (provider c + 1) n (λ i T,
          let* x := aget (index c) i in
          amodify2 T i (Z.land x (table_mask (conf s)))
            (λ e, if 0 <? u e then mk_ent (tag e) (ctr e) (u e - 1) else e)) (T s) in
        Ok (with_T s T')
    end
  else Ok s.

(** Source: src/xiosim/ZCOMPS-bpred/bpred-tage.cpp:390-401 bpred_tage_t::update.
    The periodic reset of the useful bits, alternating between the two bits. *)
Definition reset_u (s : t) : t :=
  let n := updates (stats s) in
  if Z.land n (Z.shiftl 1 18 - 1) =? 0 then
    let mask := if Z.land n (Z.shiftl 1 18) =? 0 then Z.lnot 1 else Z.lnot 2 in
    match T s with
    | [] => s
    | T0 :: Ts =>
        with_T s (T0 :: map (map (λ e, mk_ent (tag e) (ctr e) (Z.land (u e) mask))) Ts)
    end
  else s.

(** [if(ctr < 7) ctr++;] and [if(ctr > 0) ctr--;] *)
Definition step_ctr (o : bool) (e : ent) : ent :=
  mk_ent (tag e)
    (if o then (if ctr e <? 7 then ctr e + 1 else ctr e)
     else (if 0 <? ctr e then ctr e - 1 else ctr e)) (u e).

(** [if(u < 3) u++;] and [if(u > 0) u--;] *)
Definition step_u (up : bool) (e : ent) : ent :=
  mk_ent (tag e) (ctr e)
    (if up then (if u e <? 3 then u e + 1 else u e)
     else (if 0 <? u e then u e - 1 else u e)).

(** Source: src/xiosim/ZCOMPS-bpred/bpred-tage.cpp:403-418 bpred_tage_t::update. *)
Definition train_provider (s : t) (c : sc) (outcome : bool) : result t :=
  if (provider c =? 0) || ((alt c =? 0) && used_alt c) then
    let* x := aget (index c) 0 in
    let* T' := amodify2 (T s) 0 (Z.land x (bim_mask (conf s)))
                 (λ e, mk_ent (tag e) (MY2BC_UPDATE (ctr e) outcome) (u e)) in
    Ok (with_T s T')
  else
    let* x := aget (index c) (provider c) in
    let* T' := amodify2 (T s) (provider c) (Z.land x (table_mask (conf s))) (step_ctr outcome) in
    Ok (with_T s T').

(** Source: src/xiosim/ZCOMPS-bpred/bpred-tage.cpp:420-433 bpred_tage_t::update.
    Also when the provider is [T[0]], whose rows have [bim_size] entries. *)
Definition train_u (s : t) (c : sc) (outcome : bool) : result t :=
  if negb (Bool.eqb (provpred c) (altpred c)) then
    let* x := aget (index c) (provider c) in
    let* T' := amodify2 (T s) (provider c) (Z.land x (table_mask (conf s)))
                 (step_u (Bool.eqb (provpred c) outcome)) in
    Ok (with_T s T')
  else Ok s.

Definition set_updated (c : sc) : sc :=
  mk_sc (lookup_bhr c) (index c) (provider c) (provpred c) (alt c) (altpred c)
    (used_alt c) (provnew c) true.

(** Source: src/xiosim/ZCOMPS-bpred/bpred-tage.cpp:313-437 bpred_tage_t::update. *)
Definition update (s : t) (c : sc) (a : bp_args) (our_pred : bool) (r : Z) : result (t * sc) :=
  if negb (updated c) then
    let s := with_stats s (count_update (stats s) (Bool.eqb our_pred (outcome a))) in
    let* s := count_use s c in
    let s := train_pwin s c (outcome a) in
    let* s := allocate s c a our_pred r in
    let s := reset_u s in
    let* s := train_provider s c (outcome a) in
    let* s := train_u s c (outcome a) in
    Ok (s, set_updated c)
  else Ok (s, c).

(** Source: src/xiosim/ZCOMPS-bpred/bpred-tage.cpp:440-444 bpred_tage_t::spec_update. *)
Definition spec_update (s : t) (c : sc) (our_pred : bool) : result (t * sc) :=
  Ok (with_bhr (with_stats s (count_spec_update (stats s))) (hist_update (bhr s) our_pred), c).

(** Source: src/xiosim/ZCOMPS-bpred/bpred-tage.cpp:446-452 bpred_tage_t::recover. *)
Definition recover (s : t) (c : sc) (outcome : bool) : result (t * sc) :=
  Ok (with_bhr s (hist_update (lookup_bhr c) outcome), c).

(** Source: src/xiosim/ZCOMPS-bpred/bpred-tage.cpp:454-459 bpred_tage_t::flush. *)
Definition flush (s : t) (c : sc) : result (t * sc) := Ok (with_bhr s (lookup_bhr c), c).

(** Source: src/xiosim/ZCOMPS-bpred/bpred-tage.cpp:478-484 bpred_tage_t::get_cache. *)
Definition get_cache : sc := mk_sc (replicate 8 0) [] 0 false 0 false false false false.

#[export] Instance predictor : DirPredictor t sc := {
  dp_stats := stats;
  dp_updated := updated;
  dp_lookup s c a _ := lookup s c a;
  dp_update := update;
  dp_spec_update s c _ p := spec_update s c p;
  dp_recover := recover;
  dp_flush := flush;
  dp_get_cache _ := get_cache;
  dp_reset_stats s := with_stats s (BPredBase.reset_stats (stats s));
  dp_with_stats := with_stats
}.

(** ** Invariant *)

(** The [u] update of an entry of [T[0]] masks with [table_mask], so [T[0]] must
    be at least as large as the tagged tables. *)
Definition wf_cfg (k : cfg) : Prop :=
  1 ≤ num_tables k ∧ 1 ≤ log_size k ≤ 30 ∧
  1 ≤ table_size k ∧ table_mask k = table_size k - 1 ∧
  table_size k ≤ bim_size k ∧ bim_mask k = bim_size k - 1 ∧
  row_ok (num_tables k) (λ L, 0 ≤ L ≤ 512) (Hlen k).

Definition rows (k : cfg) (i : nat) : Z := if decide (i = 0%nat) then bim_size k else table_size k.

(** [T[0]] holds two-bit counters, the tagged tables three-bit ones. *)
Definition ent_ok (i : nat) (e : ent) : Prop :=
  0 ≤ u e ≤ 3 ∧ if decide (i = 0%nat) then ctr_ok (ctr e) else 0 ≤ ctr e ≤ 7.

Definition wf (s : t) : Prop :=
  wf_cfg (conf s) ∧
  Z.of_nat (length (T s)) = num_tables (conf s) ∧ ragged (rows (conf s)) ent_ok (T s) ∧
  Z.of_nat (length (Tuses s)) = num_tables (conf s) ∧
  0 ≤ pwin s ≤ 15 ∧ hist_ok (bhr s).

Definition ref (s : t) (c : sc) : Prop :=
  Z.of_nat (length (index c)) = num_tables (conf s) ∧
  0 ≤ provider c < num_tables (conf s) ∧ 0 ≤ alt c < num_tables (conf s) ∧
  (used_alt c = false → provider c ≠ 0) ∧ hist_ok (lookup_bhr c).

(** What the parts of an update leave alone. *)
Definition evolves (s s' : t) : Prop :=
  wf s' ∧ conf s' = conf s ∧ stats s' = stats s ∧ bhr s' = bhr s.

Lemma tage_evolves_keeps s s' : evolves s s' → keeps wf ref s s'.
Proof. intros (? & E & _ & _). split; [done|]. intros c. unfold ref. by rewrite E. Qed.

Lemma evolves_T s l : wf s → length l = length (T s) → ragged (rows (conf s)) ent_ok l →
  evolves s (with_T s l).
Proof. intros (? & HT & ? & ?) El ?. unfold evolves, wf. simpl. by rewrite El. Qed.

Lemma rows_mask k x i : wf_cfg k → 0 ≤ Z.land x (table_mask k) < rows k i.
Proof.
  intros (_ & _ & H1 & -> & H2 & _). pose proof (land_mask_range x _ H1).
  unfold rows. case_decide; lia.
Qed.

Lemma rows_bim_mask k x : wf_cfg k → 0 ≤ Z.land x (bim_mask k) < rows k 0.
Proof.
  intros (_ & _ & H1 & _ & H2 & -> & _). pose proof (land_mask_range x (bim_size k)).
  unfold rows. simpl. lia.
Qed.

(** ** The reference: what TAGE is meant to predict *)

(** The address of the branch, hashed with the part of the history that table [i] looks at. *)
Definition hashed (s : t) (pc i : Z) : Z :=
  if i =? 0 then pc
  else Z.lxor pc (fold_slices (hist_val (bhr s)) (log_size (conf s)) (Z.to_nat (default 0 (Hlen (conf s) !! Z.to_nat i) / log_size (conf s)))).

(** The entry of the branch in table [i]; an index is an [int]. *)
Definition entry (s : t) (pc i : Z) : ent :=
  let size := if i =? 0 then bim_size (conf s) else table_size (conf s) in
  default (mk_ent 0 0 0) (T s !! Z.to_nat i ≫= λ row, row !! Z.to_nat (Z.land (i32 (hashed s pc i)) (size - 1))).

Definition matches (s : t) (pc i : Z) : bool := u32 (tag (entry s pc i)) =? pc_tag (conf s) pc.

(** Not useful so far and with a weak counter, as an allocation leaves an entry. *)
Definition is_new (e : ent) : bool := (u e =? 0) && ((ctr e =? 3) || (ctr e =? 4)).

Definition direction (s : t) (pc i : Z) : bool :=
  if i =? 0 then dir_of (ctr (entry s pc 0)) else 4 <=? ctr (entry s pc i).

Fixpoint downto (n : nat) : list Z := match n with O => [] | S m => Z.of_nat n :: downto m end.

(** The tagged tables whose entry has the tag of the branch, longest history first. *)
Definition matching (s : t) (pc : Z) : list Z := filter (λ i, matches s pc i = true) (downto (Z.to_nat (num_tables (conf s) - 1))).

(** The provider, the alternate (0: the bimodal table) and the prediction. *)
Definition predict (s : t) (pc : Z) : Z * Z * bool :=
  match matching s pc with
  | [] => (0, 0, direction s pc 0)
  | i :: l =>
      let j := default 0 (head l) in
      (i, j, if is_new (entry s pc i) && (8 <=? pwin s) then direction s pc j else direction s pc i)
  end.

Lemma downto_match (f : Z → bool) hi k : 0 ≤ k ≤ Z.of_nat hi → (0 < k → f k = true) → (∀ j, k < j ≤ Z.of_nat hi → f j = false) →
  filter (λ i, f i = true) (downto hi) = if k =? 0 then [] else k :: filter (λ i, f i = true) (downto (Z.to_nat (k - 1))).
Proof.
  intros Hk Hf Hn. induction hi as [|hi IH].
  { assert (k = 0) as -> by lia. done. }
  cbn [downto]. destruct (Z.eqb_spec k (Z.of_nat (S hi))) as [->|Hne].
  - rewrite filter_cons_True by (apply Hf; lia). rewrite (proj2 (Z.eqb_neq _ 0)) by lia. by replace (Z.to_nat (Z.of_nat (S hi) - 1)) with hi by lia.
  - rewrite filter_cons_False by (rewrite Hn by lia; done). apply IH; [lia|]. intros. apply Hn. lia.
Qed.

(** The indices of a lookup are the hashes, cut to 32 bits. *)
Definition indexed (s : t) (pc : Z) (l : list Z) : Prop :=
  Z.of_nat (length l) = num_tables (conf s) ∧ ∀ i x, l !! i = Some x → x = i32 (hashed s pc (Z.of_nat i)).

Lemma compute_index_ok s pc : wf s → wp (compute_index s pc) (indexed s pc).
Proof.
  intros ((Hn & Hl & _ & _ & _ & _ & [LH FH]) & _ & _ & _ & _ & Hh).
  apply (wp_for_range (λ i l, Z.of_nat (length l) = i ∧ ∀ j x, l !! j = Some x → x = i32 (hashed s pc (Z.of_nat j)))); [lia|done| |done].
  intros i l Hi [Hlen Hx].
  assert (∀ y, y = i32 (hashed s pc i) → Z.of_nat (length (l ++ [y])) = i + 1 ∧ ∀ j x, (l ++ [y]) !! j = Some x → x = i32 (hashed s pc (Z.of_nat j))) as Hsnoc.
  { intros y ->. rewrite length_app. simpl. split; [lia|]. intros j x [Hj|[Hj E]]%lookup_app_Some; [by apply Hx|].
    apply list_lookup_singleton_Some in E as [Ej <-]. do 2 f_equal. lia. }
  destruct (Z.eqb_spec i 0) as [->|Hn0]; [by apply Hsnoc|].
  apply wp_bind, (wp_aget_Forall _ _ _ _ FH); [lia|]. intros L EL HL. rewrite hist_hash_total by done. cbn [rbind wp]. apply Hsnoc. unfold hashed. rewrite (proj2 (Z.eqb_neq i 0)) by done.
  rewrite EL. simpl. do 2 f_equal.
  pose proof (fold_slices_range (hist_val (bhr s)) (log_size (conf s)) (Z.to_nat (L / log_size (conf s))) ltac:(lia)).
  apply u64_small. assert (2 ^ log_size (conf s) ≤ 2 ^ 30) by (apply Z.pow_le_mono_r; lia). lia.
Qed.

Lemma wp_ent_at s idx i (Q : ent → Prop) : wf s →
  Z.of_nat (length idx) = num_tables (conf s) → 0 ≤ i < num_tables (conf s) →
  (∀ e, ent_at s idx i = Ok e → ent_ok (Z.to_nat i) e → Q e) → wp (ent_at s idx i) Q.
Proof.
  intros (Hk & LT & HT & _) Hi Hr HQ. unfold ent_at in *.
  destruct (aget_ok idx i ltac:(lia)) as (x & _ & E). rewrite E in *. simpl in *.
  eapply wp_aget2_ragged; [done|lia|by apply rows_mask|]. auto.
Qed.

Lemma wp_modify_table s x i f (Q : list (list ent) → Prop) : wf s →
  0 ≤ i < num_tables (conf s) →
  (∀ e, ent_ok (Z.to_nat i) e → ent_ok (Z.to_nat i) (f e)) →
  (∀ l, evolves s (with_T s l) → Q l) →
  wp (amodify2 (T s) i (Z.land x (table_mask (conf s))) f) Q.
Proof.
  intros Hwf Hi Hf HQ. pose proof Hwf as (Hk & LT & HT & _).
  eapply wp_amodify2_ragged; [done|lia|by apply rows_mask|done|].
  intros l El Hl. apply HQ, evolves_T; done.
Qed.

(** A match of [find_down (n-1) 0] is a tagged table. *)
Lemma wp_matching s pc idx hi (Q : option Z → Prop) : wf s →
  Z.of_nat (length idx) = num_tables (conf s) → 0 ≤ hi < num_tables (conf s) →
  (∀ i, 0 < i ≤ hi → tag_match s pc idx i = Ok true →
        (∀ j, i < j ≤ hi → tag_match s pc idx j = Ok false) → Q (Some i)) →
  ((∀ j, 0 < j ≤ hi → tag_match s pc idx j = Ok false) → Q None) →
  wp (find_down hi 0 (tag_match s pc idx)) Q.
Proof.
  intros Hwf Hi Hhi HS HN. apply wp_find_down; [lia| |done|done].
  intros i Hir. unfold tag_match. apply wp_bind, wp_ent_at; [done|done|lia|done].
Qed.

(** ** Lookups *)

(** [k] is the longest-history tagged table up to [hi] whose tag matches, 0
    when there is none. *)
Definition longest_match (s : t) (pc : Z) (idx : list Z) (hi k : Z) : Prop :=
  0 ≤ k ≤ hi ∧ (0 < k → tag_match s pc idx k = Ok true) ∧
  ∀ j, k < j ≤ hi → tag_match s pc idx j = Ok false.

(** What table [k] predicts: the bimodal table by its two-bit counter, a
    tagged table by the top bit of its three-bit counter. *)
Definition table_pred (s : t) (idx : list Z) (k : Z) : result bool :=
  if k =? 0 then
    let* x := aget idx 0 in
    let* e := aget2 (T s) 0 (Z.land x (bim_mask (conf s))) in Ok (dir_of (ctr e))
  else let* e := ent_at s idx k in Ok (4 <=? ctr e).

(** The provider of [c]: the last table in the lookup's order that matched. *)
Definition lookup_spec (s : t) (pc : Z) (c : sc) (p : bool) : Prop :=
  longest_match s pc (index c) (num_tables (conf s) - 1) (provider c) ∧
  (if provider c =? 0 then alt c = 0
   else longest_match s pc (index c) (provider c - 1) (alt c) ∧
        table_pred s (index c) (provider c) = Ok (provpred c) ∧
        ∃ e, ent_at s (index c) (provider c) = Ok e ∧ provnew c = is_new e) ∧
  table_pred s (index c) (alt c) = Ok (altpred c) ∧
  used_alt c = (provider c =? 0) || ((8 <=? pwin s) && provnew c) ∧
  p = if used_alt c then altpred c else provpred c.

Lemma wp_bimodal s idx (Q : Z * bool → Prop) : wf s →
  Z.of_nat (length idx) = num_tables (conf s) →
  (∀ b, table_pred s idx 0 = Ok b → Q (0, b)) →
  wp (let* x := aget idx 0 in
      let* e := aget2 (T s) 0 (Z.land x (bim_mask (conf s))) in Ok (0, dir_of (ctr e))) Q.
Proof.
  intros (Hk & LT & HT & _) Hi HQ. pose proof Hk as (Hn & _). unfold table_pred in HQ. simpl in HQ.
  destruct (aget_ok idx 0 ltac:(lia)) as (x & _ & E). rewrite E in *. simpl in *.
  apply wp_bind. eapply wp_aget2_ragged; [done|lia|by apply rows_bim_mask|].
  intros e Ee _. rewrite Ee in *. apply HQ. done.
Qed.

Lemma lookup_meets_spec s c a : wf s →
  wp (lookup s c a) (λ '(s', c', p),
    s' = with_stats s (count_lookup (stats s)) ∧ ref s c' ∧ updated c' = false ∧
    lookup_bhr c' = bhr s ∧ indexed s (PC a) (index c') ∧ lookup_spec s (PC a) c' p).
Proof.
  intros Hwf. pose proof Hwf as ((Hn & _) & _ & _ & _ & _ & Hh).
  unfold lookup. apply wp_bind. eapply wp_mono; [by apply compute_index_ok|].
  intros idx Hidx. pose proof Hidx as [Hi _]. apply wp_bind, wp_matching; [done|done|lia| |].
  - intros i Hir Hm Hnone. simpl. apply wp_bind, wp_bind, wp_ent_at; [done|done|lia|].
    intros e Ee _. apply wp_ret. apply wp_bind.
    assert (∃ x, ent_at s idx i = Ok x ∧ (u e =? 0) && ((ctr e =? 4) || (ctr e =? 3)) = is_new x) as Hnew.
    { exists e. split; [done|]. unfold is_new. f_equal. apply orb_comm. }
    assert (table_pred s idx i = Ok (4 <=? ctr e)) as Ep.
    { unfold table_pred. rewrite (proj2 (Z.eqb_neq i 0)), Ee by lia. done. }
    assert (longest_match s (PC a) idx (num_tables (conf s) - 1) i) as Hlm by
      (split_and!; [lia..|done|done]).
    assert (∀ b, negb ((pwin s <? 8) || negb b) = (8 <=? pwin s) && b) as Hneg.
    { intros b. rewrite Z.leb_antisym. by destruct (pwin s <? 8), b. }
    assert (∀ b x y : bool, (if b then x else y) = (if negb b then y else x)) as Hif
      by (by intros [|]).
    apply wp_matching; [done|done|lia| |]; [intros j Hj Hmj Hnj|intros Hnj];
      simpl; apply wp_bind.
    + apply wp_bind, wp_ent_at; [done|done|lia|]. intros ej Ej _. simpl. unfold ref, lookup_spec. simpl.
      rewrite (proj2 (Z.eqb_neq i 0)) by lia. split_and!; try (done || lia || apply Hneg || apply Hif).
      * split; [lia|done].
      * unfold table_pred. rewrite (proj2 (Z.eqb_neq j 0)), Ej by lia. done.
    + apply wp_bimodal; [done|done|]. intros b Eb. simpl. unfold ref, lookup_spec. simpl.
      rewrite (proj2 (Z.eqb_neq i 0)) by lia. split_and!; try (done || lia || apply Hneg || apply Hif).
      split; [lia|]. split; [lia|]. intros. apply Hnj. lia.
  - intros Hnone. simpl. apply wp_bind, wp_bimodal; [done|done|]. intros b Eb.
    simpl. unfold ref, lookup_spec. simpl. split_and!; try (done || lia).
    split; [lia|]. split; [lia|]. intros. apply Hnone. lia.
Qed.

(** ** Updates *)

Lemma tage_evolves_trans s1 s2 s3 : evolves s1 s2 → evolves s2 s3 → evolves s1 s3.
Proof. intros (? & ? & ? & ?) (? & ? & ? & ?). unfold evolves. split_and!; congruence. Qed.

Lemma tage_evolves_refl s : wf s → evolves s s.
Proof. done. Qed.

Lemma tage_ref_evolves s s' c : evolves s s' → ref s c → ref s' c.
Proof. intros (_ & E & _ & _). unfold ref. by rewrite E. Qed.

Lemma count_use_ok s c : wf s → ref s c → wp (count_use s c) (evolves s).
Proof.
  intros Hwf (_ & Hp & Ha & Hu & _). pose proof Hwf as (? & ? & ? & LU & ?). unfold count_use.
  apply wp_bind. apply (wp_mono _ (λ k, 0 ≤ k < num_tables (conf s))).
  { destruct (used_alt c); [done|]. apply wp_bind, wp_guard; [|done].
    by rewrite (proj2 (Z.eqb_neq _ _)) by auto. }
  intros k Hk. wp_go. unfold evolves, wf. simpl. by rewrite length_insert.
Qed.

Lemma train_pwin_ok s c o : wf s → evolves s (train_pwin s c o).
Proof.
  intros Hwf. pose proof Hwf as (? & ? & ? & ? & ? & ?). unfold train_pwin.
  repeat case_match; try done; unfold evolves, wf; simpl; split_and!; try done; lia.
Qed.

Lemma wp_free_entry s c i : wf s → ref s c → 0 ≤ i < num_tables (conf s) →
  wp (free_entry s c i) (λ _, True).
Proof. intros ? (? & _) ?. apply wp_bind, wp_ent_at; done. Qed.

(** The fallback of an allocation: age the entries above the provider. *)
Lemma age_entries_ok s c lo : wf s → ref s c → 0 ≤ lo ≤ num_tables (conf s) →
  wp (for_range lo (num_tables (conf s)) (λ i T,
        let* x := aget (index c) i in
        amodify2 T i (Z.land x (table_mask (conf s)))
          (λ e, if 0 <? u e then mk_ent (tag e) (ctr e) (u e - 1) else e)) (T s))
     (λ T', evolves s (with_T s T')).
Proof.
  intros Hwf (Hi & _) Hlo.
  apply (wp_for_range (λ _ T', evolves s (with_T s T'))); [lia|by destruct s| |done].
  intros i T' Hr Hev. apply wp_bind. wp_array.
  apply (wp_modify_table (with_T s T')); [apply Hev|simpl; lia| |].
  - intros e [Hu Hc]. destruct (Z.ltb_spec 0 (u e)); [|done]. split; simpl; [lia|done].
  - intros l Hl. exact (tage_evolves_trans _ _ _ Hev Hl).
Qed.

Lemma allocate_ok s c a p r : wf s → ref s c → wp (allocate s c a p r) (evolves s).
Proof.
  intros Hwf Hr. pose proof Hr as (Hi & Hp & _). pose proof Hwf as (Hk & LT & HT & _).
  unfold allocate. destruct (_ && (_ <? _)) eqn:E; [|done].
  apply andb_prop in E as [_ E%Z.ltb_lt].
  apply wp_bind, wp_find_range; [lia|intros; apply wp_free_entry; done || lia| |].
  - intros i Hir _ _. apply wp_bind.
    apply (wp_mono _ (λ o, ∀ j, o = Some j → i < j < num_tables (conf s))).
    { apply wp_find_range; [lia|intros; apply wp_free_entry; done || lia| |done].
      intros j Hj _ _ ? [= <-]. lia. }
    intros second Hs.
    set (k := match second with Some j => if RAND_INT_MAX / 3 <? r then j else i | None => i end).
    assert (0 < k < num_tables (conf s)) as Hkr.
    { subst k. destruct second as [j|]; [|lia]. specialize (Hs j eq_refl).
      by destruct (_ <? r); lia. }
    simpl. fold k. apply wp_bind. wp_array. apply wp_bind.
    eapply wp_aset2_ragged; [done|lia|by apply rows_mask| |].
    + unfold ent_ok. simpl. rewrite decide_False by lia. destruct (outcome a); simpl; lia.
    + intros l El Hl. by apply evolves_T.
  - intros _. apply wp_bind. eapply wp_mono; [apply age_entries_ok; done || lia|]. done.
Qed.

Lemma land_u x m : 0 ≤ x ≤ 3 → 0 ≤ Z.land x m ≤ 3.
Proof.
  intros Hx. rewrite Z.land_comm. pose proof (land_bound m x). lia.
Qed.

Lemma reset_u_ok s : wf s → evolves s (reset_u s).
Proof.
  intros Hwf. pose proof Hwf as (? & LT & HT & ?). unfold reset_u.
  destruct (_ =? 0); [|done]. destruct (T s) as [|T0 Ts] eqn:ET; [done|].
  apply evolves_T; [done|rewrite ET; simpl; by rewrite length_map|].
  intros i row Hrow. destruct i as [|i]; simpl in Hrow; [by apply HT|].
  rewrite list_lookup_fmap in Hrow. destruct (Ts !! i) as [row0|] eqn:E; [|done].
  injection Hrow as <-. destruct (HT (S i) row0 E) as [Hl HF].
  split; [by rewrite length_map|]. apply Forall_fmap. eapply Forall_impl; [|exact HF].
  intros e [Hu Hc]. split; simpl; [|done].
  destruct (_ =? 0); apply land_u; lia.
Qed.

Lemma step_ctr_ok i o e : (0 < i)%nat → ent_ok i e → ent_ok i (step_ctr o e).
Proof.
  unfold ent_ok. intros Hi. rewrite !decide_False by lia. simpl. intros [? ?].
  split; [done|]. destruct o.
  - destruct (Z.ltb_spec (ctr e) 7); lia.
  - destruct (Z.ltb_spec 0 (ctr e)); lia.
Qed.

Lemma step_u_ok i up e : ent_ok i e → ent_ok i (step_u up e).
Proof.
  intros [Hu Hc]. split; [|done]. simpl. destruct up.
  - destruct (Z.ltb_spec (u e) 3); lia.
  - destruct (Z.ltb_spec 0 (u e)); lia.
Qed.

Lemma tage_train_provider_ok s c o : wf s → ref s c → wp (train_provider s c o) (evolves s).
Proof.
  intros Hwf (Hi & Hp & Ha & _). pose proof Hwf as (Hk & LT & HT & _). pose proof Hk as (? & _).
  unfold train_provider. destruct (_ || _) eqn:E; apply wp_bind; wp_array; apply wp_bind.
  - eapply wp_amodify2_ragged; [done|lia|by apply rows_bim_mask| |].
    + intros e [Hu _]. split; [done|]. simpl. apply MY2BC_UPDATE_ok.
    + intros l El Hl. by apply evolves_T.
  - apply orb_false_elim in E as [E%Z.eqb_neq _].
    apply wp_modify_table; [done|lia| |by intros l Hl].
    intros e He. apply step_ctr_ok; [lia|done].
Qed.

Lemma train_u_ok s c o : wf s → ref s c → wp (train_u s c o) (evolves s).
Proof.
  intros Hwf (Hi & Hp & _). unfold train_u. destruct (negb _); [|done].
  apply wp_bind. wp_array. apply wp_bind, wp_modify_table; [done|done| |by intros l Hl].
  intros e. apply step_u_ok.
Qed.

Lemma tage_update_ok s c a p r : wf s → ref s c →
  wp (update s c a p r) (λ '(s', c'),
    wf s' ∧ conf s' = conf s ∧ bhr s' = bhr s ∧ lookup_bhr c' = lookup_bhr c ∧ ref s' c' ∧
    stats s' = stats_after_update (stats s) (updated c) (outcome a) p ∧ updated c' = true).
Proof.
  intros Hwf Hr. unfold update, stats_after_update.
  destruct (updated c) eqn:Eu; [by split_and!|]. simpl.
  set (s0 := with_stats s _).
  assert (wf s0 ∧ ref s0 c) as [H0 R0] by done.
  apply wp_bind. eapply wp_mono; [by apply count_use_ok|]. intros s1 E1.
  pose proof (train_pwin_ok s1 c (outcome a) (proj1 E1)) as E2.
  apply (tage_evolves_trans _ _ _ E1) in E2. apply wp_bind.
  eapply wp_mono; [apply allocate_ok; [apply E2|by eapply tage_ref_evolves]|].
  intros s3 E3. apply (tage_evolves_trans _ _ _ E2) in E3.
  pose proof (reset_u_ok s3 (proj1 E3)) as E4. apply (tage_evolves_trans _ _ _ E3) in E4.
  apply wp_bind. eapply wp_mono; [apply tage_train_provider_ok; [apply E4|by eapply tage_ref_evolves]|].
  intros s5 E5. apply (tage_evolves_trans _ _ _ E4) in E5.
  apply wp_bind. eapply wp_mono; [apply train_u_ok; [apply E5|by eapply tage_ref_evolves]|].
  intros s6 E6. apply (tage_evolves_trans _ _ _ E5) in E6. simpl.
  pose proof (tage_ref_evolves _ _ _ E6 R0). destruct E6 as (? & -> & -> & ->). by split_and!.
Qed.

Lemma keeps_bhr s h : wf s → hist_ok h → keeps wf ref s (with_bhr s h).
Proof. intros (? & ? & ? & ? & ? & ?) ?. split; [|done]. by repeat (split; [done|]). Qed.

#[export] Instance predictor_ok : DirPredictorOk t sc.
Proof.
  refine {| dp_wf := wf; dp_ref := ref |}; simpl; [done|done|..].
  - intros s c a _ Hwf. eapply wp_mono; [by apply lookup_meets_spec|].
    intros [[s' c'] p] (-> & Hr & Hu & _). done.
  - intros s c a p r Hwf Hr. eapply wp_mono; [by apply tage_update_ok|].
    intros [s' c'] (? & E & _ & _ & ? & ? & ?). split_and!; try done. split; [done|].
    intros ?. unfold ref. by rewrite E.
  - intros s c a p Hwf Hr. split_and!; try done.
    apply (keeps_bhr (with_stats s _)); [done|]. apply hist_update_ok, Hwf.
  - intros s c o Hwf Hr. split_and!; try done. apply keeps_bhr; [done|]. apply hist_update_ok, Hr.
  - intros s c Hwf Hr. split_and!; try done. apply keeps_bhr; [done|]. apply Hr.
Defined.

#[export] Instance hist : HistPredictor t sc hist_t := {
  hp_on _ := True;
  hp_hist := bhr;
  hp_saved _ := lookup_bhr;
  hp_shift _ := hist_update
}.

Lemma update_bhr s c a p r s' c' : update s c a p r = Ok (s', c') → bhr s' = bhr s.
Proof.
  unfold update. destruct (negb _); [|by intros [= <- <-]]. intros E.
  apply bind_Ok_inv in E as (s1 & E1 & E). apply bind_Ok_inv in E as (s3 & E3 & E).
  apply bind_Ok_inv in E as (s5 & E5 & E). apply bind_Ok_inv in E as (s6 & E6 & E).
  injection E as <- <-.
  assert (bhr s6 = bhr s5) as -> by (unfold train_u in E6; by inv_ok).
  assert (bhr s5 = bhr (reset_u s3)) as -> by (unfold train_provider in E5; by inv_ok).
  assert (bhr (reset_u s3) = bhr s3) as -> by (unfold reset_u; by repeat case_match).
  assert (bhr s3 = bhr (train_pwin s1 c (outcome a))) as ->.
  { unfold allocate in E3. inv_ok; [|done].
    match goal with H : match ?x with _ => _ end = Ok _ |- _ => destruct x; by inv_ok end. }
  assert (bhr (train_pwin s1 c (outcome a)) = bhr s1) as -> by
    (unfold train_pwin; by repeat case_match).
  unfold count_use in E1. by inv_ok.
Qed.

#[export] Instance hist_laws : HistPredictorOk t sc hist_t.
Proof.
  split; intros *; simpl; intros _ E.
  - unfold lookup in E. inv_ok.
    repeat match goal with
    | H : match ?x with _ => _ end = Ok _ |- _ => destruct x
    | H : (let '(_, _) := ?x in _) = Ok _ |- _ => destruct x
    end; inv_ok; done.
  - by apply update_bhr in E.
  - unfold spec_update in E. by inv_ok.
  - unfold recover in E. by inv_ok.
  - unfold flush in E. by inv_ok.
Qed.

(** ** Construction *)

Lemma make_Hlen_ok n alpha first last : 2 ≤ n → 1 ≤ first → 1 ≤ alpha → last ≤ 512 →
  first * alpha ^ (n - 3) ≤ last → 1 ≤ last →
  wp (make_Hlen n alpha first last) (row_ok n (λ L, 0 ≤ L ≤ 512)).
Proof.
  intros Hn Hf Ha Hl Hlast Hpos. apply wp_bind.
  apply (wp_for_range (λ _ l, row_ok n (λ L, 0 ≤ L ≤ 512) l)); [lia| | |].
  - apply row_ok_replicate; lia.
  - intros i l Hi [Hlen HF]. wp_array. apply row_ok_insert; [done|].
    assert (0 < alpha ^ (i - 1) ≤ alpha ^ (n - 3)).
    { split; [apply Z.pow_pos_nonneg|apply Z.pow_le_mono_r]; lia. }
    nia.
  - intros l [Hlen HF]. destruct (Z.ltb_spec (n - 1) 1); [lia|].
    apply wp_aset; [lia|]. apply row_ok_insert; [done|lia].
Qed.

(** The constructor establishes the invariant when there is a tagged table,
    the tagged tables are not larger than [T[0]], and [alpha] is the integer
    part of the ratio: [first * alpha^(num_tables-3) <= last]. *)
Lemma bpred_tage_create_ok alpha n b ts tw f l s :
  create alpha n b ts tw f l = Ok s →
  2 ≤ n → 2 ≤ ts ≤ b → ts ≤ 2 ^ 30 → 1 ≤ alpha → f * alpha ^ (n - 3) ≤ l →
  wf s ∧ stats s = init_stats.
Proof.
  unfold create. intros E Hn Hts Hts2 Ha Hf. inv_ok. split; [|done].
  match goal with H : make_Hlen _ _ _ _ = Ok ?L |- _ => rename H into EH; rename L into Hl end.
  assert (row_ok n (λ L, 0 ≤ L ≤ 512) Hl) as HL by
    (eapply wp_ok; [exact EH|]; unfold TAGE_MAX_HIST in *; apply make_Hlen_ok; lia).
  pose proof (check_ppow2_spec b ltac:(done)) as (kb & Hkb & ->).
  pose proof (check_ppow2_spec ts ltac:(done)) as (kt & Hkt & ->).
  assert (1 ≤ Z.log2 (2 ^ kt) ≤ 30) by (split; [apply Z.log2_le_pow2|apply Z.log2_le_mono in Hts2;
    rewrite (Z.log2_pow2 30) in Hts2 by lia]; lia).
  unfold wf, wf_cfg. simpl. rewrite !length_replicate. split_and!; try done; try lia; try apply HL.
  - intros [|i] row Hrow; simpl in Hrow.
    + injection Hrow as <-. unfold rows. simpl. apply row_ok_replicate; [lia|].
      split; simpl; [lia|]. apply weak_states_ok.
    + apply lookup_replicate in Hrow as [-> _]. unfold rows. simpl.
      apply row_ok_replicate; [lia|]. split; simpl; lia.
  - split; [done|]. change (Forall word_ok (replicate 8 0)). by apply Forall_replicate.
Qed.

(** A single table: [Hlen[1]] of a one-element array is written. *)
Lemma bpred_tage_one_table_out_of_bounds alpha b ts tw f l : check_ppow2 b = true →
  check_ppow2 ts = true → 0 < tw → 0 < f → f < l → l ≤ 512 →
  create alpha 1 b ts tw f l = Fault OutOfBounds.
Proof.
  intros Hb Ht ????. unfold create. rewrite Hb, Ht. simpl.
  rewrite !(proj2 (Z.ltb_lt _ _)) by lia. simpl. by rewrite (proj2 (Z.leb_le l _)) by (unfold TAGE_MAX_HIST; lia).
Qed.

(** ** The lookup is the reference *)

Section reference.
Context (s : t) (pc : Z) (idx : list Z) (Hwf : wf s) (Hidx : indexed s pc idx).

(** What a lookup reads by its indices. *)
Lemma row_entry i size e : 0 ≤ i < num_tables (conf s) → size = (if i =? 0 then bim_size (conf s) else table_size (conf s)) →
  (let* x := aget idx i in aget2 (T s) i (Z.land x (size - 1))) = Ok e → e = entry s pc i.
Proof using Hidx.
  intros Hi Es E. destruct Hidx as [Hl Hx]. apply bind_Ok_inv in E as (x & Ex & E). apply aget_inv in Ex as [_ Ex].
  apply Hx in Ex. rewrite Z2Nat.id in Ex by lia. subst x. unfold aget2 in E. apply bind_Ok_inv in E as (row & Er & E).
  apply aget_inv in Er as [_ Er]. apply aget_inv in E as [_ E]. unfold entry. rewrite <- Es, Er. simpl. by rewrite E.
Qed.

Lemma ent_at_entry i e : 0 < i < num_tables (conf s) → ent_at s idx i = Ok e → e = entry s pc i.
Proof using Hwf Hidx.
  intros Hi E. apply (row_entry i (table_size (conf s))); [lia|by rewrite (proj2 (Z.eqb_neq i 0)) by lia|].
  destruct Hwf as ((_ & _ & _ & Em & _) & _). unfold ent_at in E. by rewrite Em in E.
Qed.

Lemma tag_match_matches i b : 0 < i < num_tables (conf s) → tag_match s pc idx i = Ok b → b = matches s pc i.
Proof using Hwf Hidx.
  intros Hi E. unfold tag_match in E. apply bind_Ok_inv in E as (e & Ee & E). injection E as <-. unfold matches. by rewrite (ent_at_entry i e Hi Ee).
Qed.

Lemma table_pred_direction k b : 0 ≤ k < num_tables (conf s) → table_pred s idx k = Ok b → b = direction s pc k.
Proof using Hwf Hidx.
  intros Hk E. unfold table_pred in E. unfold direction. destruct (Z.eqb_spec k 0) as [->|Hn].
  - apply bind_Ok_inv in E as (x & Ex & E). apply bind_Ok_inv in E as (e & Ee & E). injection E as <-.
    rewrite <- (row_entry 0 (bim_size (conf s)) e); [done|lia|done|]. destruct Hwf as ((_ & _ & _ & _ & _ & Em & _) & _). rewrite Ex. simpl. by rewrite <- Em.
  - apply bind_Ok_inv in E as (e & Ee & E). injection E as <-. by rewrite <- (ent_at_entry k e) by (done || lia).
Qed.

Lemma longest_match_first hi k : 0 ≤ hi < num_tables (conf s) → longest_match s pc idx hi k →
  filter (λ i, matches s pc i = true) (downto (Z.to_nat hi)) = if k =? 0 then [] else k :: filter (λ i, matches s pc i = true) (downto (Z.to_nat (k - 1))).
Proof using Hwf Hidx.
  intros Hhi (Hk & Hm & Hn). apply (downto_match (matches s pc)); [lia| |].
  - intros Hpos. symmetry. apply tag_match_matches; [lia|by apply Hm].
  - intros j Hj. symmetry. apply tag_match_matches; [lia|apply Hn; lia].
Qed.
End reference.

(** C19. A TAGE lookup never faults, and it is the reference [predict]: in each tagged table
    the entry is the one at the address hashed with the folded history of the length of that
    table; the provider is the table of longest history whose entry has the tag of the branch
    (none: 0), the alternate the next such table, or the bimodal one; the direction of a table
    is the sign of its counter; and the prediction is the provider's, unless its entry is new
    (not useful and weak, as an allocation leaves it) and alternates of new entries have been
    doing better (pwin >= 8). What the update needs is remembered: the history, the indices of
    the entries, and whether the provider is new. *)
Theorem tage_lookup_longest_match s c a : wf s →
  ∃ c' p, lookup s c a = Ok (with_stats s (count_lookup (stats s)), c', p) ∧
    (provider c', alt c', p) = predict s (PC a) ∧ altpred c' = direction s (PC a) (alt c') ∧
    (0 < provider c' → provpred c' = direction s (PC a) (provider c') ∧ provnew c' = is_new (entry s (PC a) (provider c'))) ∧
    lookup_bhr c' = bhr s ∧
    ∀ i, 0 < i < num_tables (conf s) → ent_at s (index c') i = Ok (entry s (PC a) i).
Proof.
  intros Hwf. pose proof (lookup_meets_spec s c a Hwf) as H. apply wp_exists in H as ([[s' c'] p] & E & -> & _ & _ & Hb & Hi & H1 & H2 & H3 & H4 & ->).
  exists c'. eexists. split; [exact E|]. pose proof H1 as (Hp & _). pose proof Hwf as ((Hn & _) & _).
  pose proof (longest_match_first s (PC a) (index c') Hwf Hi (num_tables (conf s) - 1) (provider c') ltac:(lia) H1) as Hf. fold (matching s (PC a)) in Hf.
  assert (∀ i, 0 < i < num_tables (conf s) → ent_at s (index c') i = Ok (entry s (PC a) i)) as Hent.
  { intros i Hir. enough (wp (ent_at s (index c') i) (λ e, e = entry s (PC a) i)) as Hw by (by apply wp_exists in Hw as (e & -> & ->)).
    apply wp_ent_at; [done|apply Hi|lia|]. intros e Ee _. by apply (ent_at_entry s (PC a) (index c')). }
  unfold predict. rewrite Hf. destruct (Z.eqb_spec (provider c') 0) as [Ep|Hne].
  - apply (table_pred_direction s (PC a) (index c') Hwf Hi) in H3; [|rewrite H2; lia].
    rewrite H4, H3, Ep, H2. split; [done|]. split; [done|]. split; [lia|]. done.
  - destruct H2 as (Ha & Hprov & e & Ee & Enew). pose proof Ha as (Har & _).
    rewrite (longest_match_first s (PC a) (index c') Hwf Hi (provider c' - 1) (alt c') ltac:(lia) Ha).
    apply (table_pred_direction s (PC a) (index c') Hwf Hi) in H3; [|lia]. apply (table_pred_direction s (PC a) (index c') Hwf Hi) in Hprov; [|lia].
    rewrite (ent_at_entry s (PC a) (index c') Hwf Hi (provider c') e ltac:(lia) Ee) in Enew. rewrite H4, <- Enew, <- Hprov. cbn [orb].
    assert (default 0 (head (if alt c' =? 0 then [] else alt c' :: filter (λ i, matches s (PC a) i = true) (downto (Z.to_nat (alt c' - 1))))) = alt c') as ->
      by (by destruct (Z.eqb_spec (alt c') 0) as [->|]).
    rewrite <- H3, andb_comm. done.
Qed.

(** All entries of fresh tables have tag 0 and are new: branch 64 takes the alternate. *)
Lemma tage_lookup_longest_match_witness :
  ∃ s c' p, create 2 4 8 4 5 2 16 = Ok s ∧
    lookup s get_cache (mk_args 64 0 0 true) = Ok (with_stats s (count_lookup (stats s)), c', p) ∧
    (provider c', alt c', p) = predict s 64 ∧ provider c' = 3 ∧ alt c' = 2 ∧ provnew c' = true.
Proof.
  destruct (create 2 4 8 4 5 2 16) as [s|] eqn:E; [|discriminate E].
  assert (wf s) as Hwf by (apply (bpred_tage_create_ok _ _ _ _ _ _ _ _ E); done).
  destruct (tage_lookup_longest_match s get_cache (mk_args 64 0 0 true) Hwf) as (c' & p & El & Ep & _).
  exists s, c', p. split_and!; [done|exact El|exact Ep|..];
    (injection E as <-; vm_compute in El; injection El as <- _; reflexivity).
Defined.

End bpred_tage.
