(* ===== verification/BPredPath.v ===== *)
(** * BPredPath: the path-based neural predictors
    src/xiosim/ZCOMPS-bpred/bpred-pathneural.cpp and bpred-pwl.cpp

    Both keep, next to a table of 64-bit history registers, the circular buffer
    of the addresses of the last branches, and sum one [short] weight per
    outcome of the history, chosen by the address of the branch it belongs to
    (pathneural), and by the address of the predicted branch as well (pwl).
    [path_kernel] holds what the two classes have in common, parametrised by the
    row of weights used for an address of the path ([row_of]); pathneural also
    counts the weights it reads and writes. *)

From S2P Require Import Prelude Misc BPredBase BPredPerceptron.

Module path_kernel.

(** Source: src/xiosim/ZCOMPS-bpred/bpred-pathneural.cpp:26-36 MAX_PATHNEURAL_PATH. *)
Definition MAX_PATHNEURAL_PATH : Z := 128.

Record sc : Type := mk_sc {
  bhr : option Z;
  lookup_bhr : Z;
  lookup_path : list Z;
  lookup_PC : Z;
  sum : Z;
  updated : bool
}.

(** The members the constructors fix; [pc_bits] and [pc_mask] are pwl's. *)
Record cfg : Type := mk_cfg {
  pc_bits : Z;
  pc_mask : Z;
  bht_size : Z;
  bht_mask : Z;
  history_length : Z;
  history_mask : Z;
  top_size : Z;
  top_mask : Z;
  weight_max : Z;
  weight_min : Z;
  theta : Z;
  bits : Z
}.

Record t : Type := mk {
  conf : cfg;
  stats : dstats;
  bht : list Z;
  top : list (list Z);
  path : list Z;
  path_head : Z;
  weights_read : Z;
  weights_written : Z
}.

Definition with_stats (s : t) (st : dstats) : t :=
  mk (conf s) st (bht s) (top s) (path s) (path_head s) (weights_read s) (weights_written s).
Definition with_bht (s : t) (l : list Z) : t :=
  mk (conf s) (stats s) l (top s) (path s) (path_head s) (weights_read s) (weights_written s).
Definition with_top (s : t) (l : list (list Z)) : t :=
  mk (conf s) (stats s) (bht s) l (path s) (path_head s) (weights_read s) (weights_written s).
Definition with_path (s : t) (l : list Z) (h : Z) : t :=
  mk (conf s) (stats s) (bht s) (top s) l h (weights_read s) (weights_written s).
Definition with_weights (s : t) (r w : Z) : t :=
  mk (conf s) (stats s) (bht s) (top s) (path s) (path_head s) r w.

Definition initial (k : cfg) : t :=
  mk k init_stats (replicate (Z.to_nat (bht_size k)) 0)
    (replicate (Z.to_nat (top_size k)) (replicate (Z.to_nat (1 + history_length k)) 0))
    (replicate (Z.to_nat MAX_PATHNEURAL_PATH) 0) 0 0 0.

(** [x%top_size] on [md_addr_t]. *)
Definition row_mod (k : cfg) (x : Z) : result Z :=
  if u64 (top_size k) =? 0 then Fault DivByZero else Ok (x mod u64 (top_size k)).

(** [top[(PC&top_mask)%top_size]], the row of the bias weight. *)
Definition bias_row (k : cfg) (pc : Z) : result Z := row_mod k (Z.land pc (u64 (top_mask k))).

(** The slot of the [i]-th most recent branch of the path. *)
Definition slot (head i : Z) : Z :=
  Z.rem (head - i + MAX_PATHNEURAL_PATH) MAX_PATHNEURAL_PATH.

(** The [i]-th most recent branch address. *)
Definition window (s : t) (i : Z) : result Z := aget (path s) (slot (path_head s) i).

(** [((h >> i) & 1) ? 1:-1] *)
Definition hist_dir (h i : Z) : Z := if Z.testbit h i then 1 else -1.

(** A weight goes up by one below [weight_max], down by one above [weight_min]. *)
Definition train_weight (k : cfg) (up : bool) (w : Z) : Z :=
  if up then (if w <? weight_max k then i16 (w + 1) else w)
  else (if weight_min k <? w then i16 (w - 1) else w).

Section kernel.
(** The row of weights for the predicted branch and an address of the path. *)
Variable row_of : cfg → Z → Z → result Z.
(** Whether the class counts the weights it touches. *)
Variable counts : bool.

Definition dot (s : t) (pc h w0 : Z) : result Z :=
  for_range 0 (history_length (conf s)) (λ i sum,
    let* addr := window s i in
    let* r := row_of (conf s) pc addr in
    let* w := aget2 (top s) r (i + 1) in
    Ok (i32 (sum + hist_dir h i * w))) w0.

Definition save_path (s : t) (lp : list Z) : result (list Z) :=
  let n := history_length (conf s) in
  for_range 0 n (λ i lp, let* addr := window s i in aset lp (n - i - 1) addr) lp.

(** The container's array is overwritten below [history_length] and never read
    above it: the model starts from a zeroed one. *)
Definition lookup (s : t) (c : sc) (a : bp_args) : result (t * sc * bool) :=
  let l1index := Z.land (PC a) (bht_mask (conf s)) in
  let* r0 := bias_row (conf s) (PC a) in
  let* w0 := aget2 (top s) r0 0 in
  let* h := aget (bht s) l1index in
  let* sum := dot s (PC a) h w0 in
  let* lp := save_path s (replicate (Z.to_nat MAX_PATHNEURAL_PATH) 0) in
  let s := if counts then with_weights s (weights_read s + (1 + history_length (conf s)))
                            (weights_written s) else s in
  Ok (with_stats s (count_lookup (stats s)), mk_sc (Some l1index) h lp (PC a) sum false, 0 <=? sum).

(** The training of the weights of an update. *)
Definition train (s : t) (c : sc) (a : bp_args) : result (list (list Z)) :=
  let n := history_length (conf s) in
  let* r0 := bias_row (conf s) (PC a) in
  let* top := amodify2 (top s) r0 0 (train_weight (conf s) (outcome a)) in
  for_range 0 n (λ i top,
    let* addr := aget (lookup_path c) (n - 1 - i) in
    let* r := row_of (conf s) (PC a) addr in
    amodify2 top r (i + 1)
      (train_weight (conf s) (Bool.eqb (Z.testbit (lookup_bhr c) i) (outcome a)))) top.

Definition update (s : t) (c : sc) (a : bp_args) (our_pred : bool) : result (t * sc) :=
  let s := with_stats s (stats_after_update (stats s) (updated c) (outcome a) our_pred) in
  let c := mk_sc (bhr c) (lookup_bhr c) (lookup_path c) (lookup_PC c) (sum c) true in
  if negb (Bool.eqb (0 <=? sum c) (outcome a))
     || ((- theta (conf s) <? sum c) && (sum c <? theta (conf s))) then
    let* top' := train s c a in
    let s := with_top s top' in
    Ok (if counts then with_weights s (weights_read s)
                         (weights_written s + (1 + history_length (conf s))) else s, c)
  else Ok (s, c).

(** Pushes [outcome], not the prediction. *)
Definition spec_update (s : t) (c : sc) (a : bp_args) : result (t * sc) :=
  let s := with_stats s (count_spec_update (stats s)) in
  let* i := deref (bhr c) in
  let* h := aget (bht s) i in
  let* bht' := aset (bht s) i
    (Z.land (Z.lor (u64 (Z.shiftl h 1)) (Z.b2z (outcome a))) (history_mask (conf s))) in
  let head := modinc (path_head s) MAX_PATHNEURAL_PATH in
  let* path' := aset (path s) head (PC a) in
  Ok (with_path (with_bht s bht') path' head, c).

Definition restore_path (s : t) (c : sc) : result (list Z) :=
  for_range 0 (history_length (conf s)) (λ i p,
    let* addr := aget (lookup_path c) i in aset p i addr) (path s).

Definition recover (s : t) (c : sc) (outcome : bool) : result (t * sc) :=
  let* i := deref (bhr c) in
  let* bht' := aset (bht s) i (Z.lor (u64 (Z.shiftl (lookup_bhr c) 1)) (Z.b2z outcome)) in
  let* path' := restore_path s c in
  let head := modinc (history_length (conf s) - 1) MAX_PATHNEURAL_PATH in
  let* path' := aset path' head (lookup_PC c) in
  Ok (with_path (with_bht s bht') path' head, c).

Definition flush (s : t) (c : sc) : result (t * sc) :=
  let* i := deref (bhr c) in
  let* bht' := aset (bht s) i (lookup_bhr c) in
  let* path' := restore_path s c in
  Ok (with_path (with_bht s bht') path' (history_length (conf s) - 1), c).

Definition get_cache : sc :=
  mk_sc None 0 (replicate (Z.to_nat MAX_PATHNEURAL_PATH) 0) 0 0 false.

(** ** Invariant *)

Definition weight_ok (w : Z) : Prop := -128 ≤ w ≤ 127.

Definition wf_cfg (k : cfg) : Prop :=
  1 ≤ bht_size k ∧ bht_mask k = bht_size k - 1 ∧ 0 ≤ history_length k ≤ 128 ∧
  1 ≤ top_size k < 2 ^ 31 ∧ weight_max k = 127 ∧ weight_min k = -128.

Definition wf (s : t) : Prop :=
  wf_cfg (conf s) ∧
  Z.of_nat (length (bht s)) = bht_size (conf s) ∧
  row_ok (top_size (conf s)) (row_ok (1 + history_length (conf s)) weight_ok) (top s) ∧
  length (path s) = 128%nat ∧
  -1 ≤ path_head s < 128 ∧ (0 < history_length (conf s) → 0 ≤ path_head s).

Definition ref (s : t) (c : sc) : Prop :=
  (∃ i, bhr c = Some i ∧ 0 ≤ i < bht_size (conf s)) ∧ length (lookup_path c) = 128%nat.

(** [row_of] picks a row of the table. *)
Hypothesis row_of_ok : ∀ k pc addr, wf_cfg k → wp (row_of k pc addr) (λ r, 0 ≤ r < top_size k).

Lemma row_mod_ok k x : wf_cfg k → 0 ≤ x → wp (row_mod k x) (λ r, 0 ≤ r < top_size k).
Proof.
  intros (_ & _ & _ & Ht & _) Hx. unfold row_mod. rewrite u64_small by lia.
  rewrite (proj2 (Z.eqb_neq _ _)) by lia. simpl. apply Z.mod_pos_bound. lia.
Qed.

Lemma bias_row_ok k pc : wf_cfg k → wp (bias_row k pc) (λ r, 0 ≤ r < top_size k).
Proof. intros. apply row_mod_ok; [done|]. apply Z.land_nonneg. right. apply u64_range. Qed.

Lemma slot_range head i : 0 ≤ head < 128 → 0 ≤ i < 128 → 0 ≤ slot head i < 128.
Proof.
  intros. unfold slot, MAX_PATHNEURAL_PATH.
  rewrite Z.rem_mod_nonneg by lia. apply Z.mod_pos_bound. lia.
Qed.

Lemma window_get s i : wf s → 0 ≤ i < history_length (conf s) → wp (window s i) (λ _, True).
Proof.
  intros (Hk & _ & _ & Hp & Hh1 & Hh2) Hi. unfold window. destruct Hk as (_ & _ & Hh & _).
  pose proof (slot_range (path_head s) i ltac:(lia) ltac:(lia)). by wp_array.
Qed.

Lemma wp_weight s r j (Q : Z → Prop) : wf s → 0 ≤ r < top_size (conf s) →
  0 ≤ j ≤ history_length (conf s) → (∀ w, weight_ok w → Q w) → wp (aget2 (top s) r j) Q.
Proof.
  intros (_ & _ & [Lt Ht] & _) Hr Hj HQ. eapply wp_aget2; [exact Ht|lia|lia|]. auto.
Qed.

(** No partial sum leaves [int]. *)
Lemma dot_ok s pc h w0 : wf s → weight_ok w0 → wp (dot s pc h w0) (λ _, True).
Proof.
  intros Hwf Hw0. pose proof Hwf as ((_ & _ & Hh & _) & _).
  apply (wp_for_range (λ i x, Z.abs x ≤ 128 * (i + 1))); [lia| | |done].
  - unfold weight_ok in Hw0. lia.
  - intros i x Hi Hx. apply wp_bind. eapply wp_mono; [by apply window_get|]. intros addr _.
    apply wp_bind. eapply wp_mono; [apply row_of_ok, Hwf|]. intros r Hr. apply wp_bind.
    apply wp_weight; [done|done|lia|]. intros w Hw. unfold weight_ok in Hw. simpl.
    unfold hist_dir. destruct (Z.testbit h i); rewrite i32_small; lia.
Qed.

(** What [save_path] leaves in the container. *)
Lemma save_path_ok s lp : wf s → length lp = 128%nat →
  wp (save_path s lp) (λ lp', length lp' = 128%nat ∧
    ∀ i, 0 ≤ i < history_length (conf s) →
      aget lp' (history_length (conf s) - 1 - i) = window s i).
Proof.
  intros Hwf Hl. pose proof Hwf as ((_ & _ & Hh & _) & _). unfold save_path.
  set (n := history_length (conf s)) in *.
  apply (wp_for_range (λ i lp', length lp' = 128%nat ∧
    ∀ j, 0 ≤ j < i → aget lp' (n - 1 - j) = window s j)); [lia|split; [done|lia]| |done].
  intros i lp' Hi [Hl' Hj]. apply wp_bind.
  pose proof (window_get s i Hwf ltac:(lia)) as Hw. apply wp_exists in Hw as (addr & Ea & _).
  rewrite Ea. simpl. apply wp_exists.
  destruct (aset lp' (n - i - 1) addr) as [lp2|] eqn:E.
  2:{ rewrite aset_ok in E by lia. done. }
  exists lp2. split; [done|]. split; [by rewrite (length_aset _ _ _ _ E)|].
  intros j Hji. destruct (decide (j = i)) as [->|Hne].
  - rewrite Ea. replace (n - 1 - i) with (n - i - 1) by lia. by eapply aget_aset_eq.
  - rewrite (aget_aset_ne _ _ (n - 1 - j) _ _ E) by lia. apply Hj. lia.
Qed.

Lemma path_lookup_ok s c a : wf s →
  wp (lookup s c a) (λ '(s', c', _),
    wf s' ∧ conf s' = conf s ∧ bht s' = bht s ∧ stats s' = count_lookup (stats s) ∧
    ref s c' ∧ updated c' = false ∧ lookup_PC c' = PC a ∧
    bhr c' = Some (Z.land (PC a) (bht_mask (conf s))) ∧
    aget (bht s) (Z.land (PC a) (bht_mask (conf s))) = Ok (lookup_bhr c') ∧
    ∀ i, 0 ≤ i < history_length (conf s) →
      aget (lookup_path c') (history_length (conf s) - 1 - i) = window s i).
Proof.
  intros Hwf. pose proof Hwf as (Hk & Lb & _). pose proof Hk as (Hb & Em & Hh & _).
  pose proof (land_mask_range (PC a) _ Hb) as R. rewrite <- Em in R. unfold lookup.
  apply wp_bind. eapply wp_mono; [apply bias_row_ok, Hwf|]. intros r0 Hr0.
  apply wp_bind, wp_weight; [done|done|lia|]. intros w0 Hw0.
  apply wp_bind. destruct (aget_ok (bht s) (Z.land (PC a) (bht_mask (conf s))) ltac:(lia)) as (h & _ & Eh).
  rewrite Eh. simpl. apply wp_bind. eapply wp_mono; [by apply dot_ok|]. intros sum _.
  apply wp_bind. eapply wp_mono; [by apply save_path_ok|]. intros lp [Hl Hw]. simpl.
  split_and!; try by destruct counts.
  split; [|done]. eexists. simpl. eauto.
Qed.

Lemma path_train_weight_ok k up w : wf_cfg k → weight_ok w → weight_ok (train_weight k up w).
Proof.
  unfold wf_cfg, weight_ok, train_weight. intros (_ & _ & _ & _ & -> & ->) Hw.
  destruct up; [destruct (Z.ltb_spec w 127)|destruct (Z.ltb_spec (-128) w)];
    rewrite ?i16_small; lia.
Qed.

Lemma wp_train_weight s top r j up (Q : list (list Z) → Prop) : wf s →
  row_ok (top_size (conf s)) (row_ok (1 + history_length (conf s)) weight_ok) top →
  0 ≤ r < top_size (conf s) → 0 ≤ j ≤ history_length (conf s) →
  (∀ top', row_ok (top_size (conf s)) (row_ok (1 + history_length (conf s)) weight_ok) top' →
           Q top') →
  wp (amodify2 top r j (train_weight (conf s) up)) Q.
Proof.
  intros Hwf [Lt Ht] Hr Hj HQ. apply wp_bind. eapply wp_aget2; [exact Ht|lia|lia|].
  intros w _ Hw. eapply wp_aset2; [exact Ht|lia|lia|apply path_train_weight_ok, Hw; apply Hwf|].
  intros l' _ El Hl. apply HQ. split; [by rewrite El|done].
Qed.

Lemma path_train_ok s c a : wf s → ref s c →
  wp (train s c a)
    (row_ok (top_size (conf s)) (row_ok (1 + history_length (conf s)) weight_ok)).
Proof.
  intros Hwf [_ Hl]. pose proof Hwf as ((_ & _ & Hh & _) & _ & Ht & _). unfold train.
  apply wp_bind. eapply wp_mono; [apply bias_row_ok, Hwf|]. intros r0 Hr0.
  apply wp_bind, wp_train_weight; [done|done|done|lia|]. intros top1 Ht1.
  apply (wp_for_range (λ _ top, row_ok (top_size (conf s))
    (row_ok (1 + history_length (conf s)) weight_ok) top)); [lia|done| |done].
  intros i top2 Hi Ht2. apply wp_bind. wp_array. apply wp_bind.
  eapply wp_mono; [apply row_of_ok, Hwf|]. intros r Hr.
  apply wp_train_weight; [done|done|done|lia|done].
Qed.
Lemma path_update_ok s c a p : wf s → ref s c →
  wp (update s c a p) (λ '(s', c'), wf s' ∧ ref s' c' ∧ conf s' = conf s ∧ bht s' = bht s ∧
    stats s' = stats_after_update (stats s) (updated c) (outcome a) p ∧ updated c' = true).
Proof.
  intros Hwf Hr. unfold update. destruct (_ || _); [|by split_and!]. apply wp_bind.
  eapply wp_mono; [by apply path_train_ok|]. intros top' Ht. simpl.
  pose proof Hwf as (? & ? & ? & ? & ? & ?). by destruct counts.
Qed.

Lemma path_spec_update_ok s c a : wf s → ref s c →
  wp (spec_update s c a) (λ '(s', c'), wf s' ∧ ref s' c' ∧ conf s' = conf s ∧
    stats s' = count_spec_update (stats s) ∧ c' = c).
Proof.
  intros Hwf Hr. pose proof Hwf as (Hk & Lb & Ht & Lp & Hh1 & Hh2). pose proof Hr as ((i & Hi & ?) & ?).
  unfold spec_update. rewrite Hi. simpl. apply wp_bind. wp_array. apply wp_bind. wp_array.
  assert (0 ≤ modinc (path_head s) MAX_PATHNEURAL_PATH < 128).
  { unfold modinc, MAX_PATHNEURAL_PATH. rewrite i32_small by lia. destruct (Z.eqb_spec (path_head s + 1) 128); lia. }
  apply wp_bind. wp_array. split; [|by split_and!].
  unfold wf. simpl. rewrite !length_insert. split_and!; try done; lia.
Qed.

(** [restore_path] copies the saved addresses to the front of the buffer. *)
Lemma restore_path_ok s c : wf s → ref s c →
  wp (restore_path s c) (λ p, length p = 128%nat ∧
    ∀ i, 0 ≤ i < history_length (conf s) → aget p i = aget (lookup_path c) i).
Proof.
  intros Hwf [_ Hl]. pose proof Hwf as ((_ & _ & Hh & _) & _ & _ & Lp & _). unfold restore_path.
  apply (wp_for_range (λ i p, length p = 128%nat ∧
    ∀ j, 0 ≤ j < i → aget p j = aget (lookup_path c) j)); [lia|split; [done|lia]| |done].
  intros i p Hi [Lp' Hj]. apply wp_bind.
  destruct (aget_ok (lookup_path c) i ltac:(lia)) as (addr & _ & Ea). rewrite Ea. simpl.
  apply wp_exists. destruct (aset p i addr) as [p2|] eqn:E; [|rewrite aset_ok in E by lia; done].
  exists p2. split; [done|]. split; [by rewrite (length_aset _ _ _ _ E)|].
  intros j Hji. destruct (decide (j = i)) as [->|Hne].
  - rewrite Ea. by eapply aget_aset_eq.
  - rewrite (aget_aset_ne _ _ j _ _ E) by lia. apply Hj. lia.
Qed.

Lemma slot_front n i : 0 ≤ i < n → n ≤ 128 → slot (n - 1) i = n - 1 - i.
Proof.
  intros. unfold slot, MAX_PATHNEURAL_PATH. rewrite Z.rem_mod_nonneg by lia.
  replace (n - 1 - i + 128) with (n - 1 - i + 1 * 128) by lia.
  rewrite Z.mod_add, Z.mod_small; lia.
Qed.

Lemma path_flush_ok s c : wf s → ref s c →
  wp (flush s c) (λ '(s', c'), wf s' ∧ c' = c ∧ conf s' = conf s ∧ stats s' = stats s ∧
    (∀ i, bhr c = Some i → aget (bht s') i = Ok (lookup_bhr c)) ∧
    ∀ i, 0 ≤ i < history_length (conf s) →
      window s' i = aget (lookup_path c) (history_length (conf s) - 1 - i)).
Proof.
  intros Hwf Hr. pose proof Hwf as (Hk & Lb & Ht & Lp & Hh1 & Hh2).
  pose proof Hr as ((i & Hi & ?) & Hl). pose proof Hk as (_ & _ & Hh & _).
  unfold flush. rewrite Hi. simpl. rewrite aset_ok by lia. simpl.
  apply wp_bind. eapply wp_mono; [by apply restore_path_ok|]. intros p [Lp' Hp]. simpl.
  split_and!; try done.
  - unfold wf. simpl. rewrite length_insert. split_and!; try done; lia.
  - intros j [= <-]. eapply aget_aset_eq. by apply aset_ok; lia.
  - intros j Hj. unfold window. simpl. rewrite slot_front by lia. apply Hp. lia.
Qed.

(** The buffer after [recover]: the branch itself in front of the saved path. *)
Lemma recover_window n (p p' : list Z) pc i : 0 ≤ n ≤ 128 → length p = 128%nat →
  aset p (modinc (n - 1) MAX_PATHNEURAL_PATH) pc = Ok p' → 0 ≤ i < n →
  aget p' (slot (modinc (n - 1) MAX_PATHNEURAL_PATH) i) =
  if i =? 0 then Ok pc else aget p (n - 1 - (i - 1)).
Proof.
  intros Hn Hp E Hi.
  assert (slot (modinc (n - 1) MAX_PATHNEURAL_PATH) i =
          if i =? 0 then modinc (n - 1) MAX_PATHNEURAL_PATH else n - i) as ->.
  { rewrite modinc_mod by (unfold MAX_PATHNEURAL_PATH; lia).
    replace (n - 1 + 1) with n by lia. unfold slot, MAX_PATHNEURAL_PATH.
    destruct (decide (n = 128)) as [->|].
    - change (128 mod 128) with 0. destruct (Z.eqb_spec i 0) as [->|]; [done|].
      rewrite Z.rem_mod_nonneg, Z.mod_small; lia.
    - rewrite (Z.mod_small n) by lia. rewrite Z.rem_mod_nonneg by lia.
      replace (n - i + 128) with (n - i + 1 * 128) by lia. rewrite Z.mod_add, Z.mod_small by lia.
      destruct (Z.eqb_spec i 0); lia. }
  destruct (Z.eqb_spec i 0) as [->|]; [by eapply aget_aset_eq|].
  replace (n - 1 - (i - 1)) with (n - i) by lia. eapply aget_aset_ne; [exact E|].
  rewrite modinc_mod by (unfold MAX_PATHNEURAL_PATH; lia). replace (n - 1 + 1) with n by lia.
  unfold MAX_PATHNEURAL_PATH. destruct (decide (n = 128)) as [->|];
    [change (128 mod 128) with 0; lia|rewrite Z.mod_small; lia].
Qed.

Lemma path_recover_ok s c o : wf s → ref s c →
  wp (recover s c o) (λ '(s', c'), wf s' ∧ c' = c ∧ conf s' = conf s ∧ stats s' = stats s ∧
    (∀ i, bhr c = Some i →
       aget (bht s') i = Ok (Z.lor (u64 (Z.shiftl (lookup_bhr c) 1)) (Z.b2z o))) ∧
    ∀ i, 0 ≤ i < history_length (conf s) →
      window s' i = if i =? 0 then Ok (lookup_PC c)
                    else aget (lookup_path c) (history_length (conf s) - 1 - (i - 1))).
Proof.
  intros Hwf Hr. pose proof Hwf as (Hk & Lb & Ht & Lp & Hh1 & Hh2).
  pose proof Hr as ((i & Hi & ?) & Hl). pose proof Hk as (_ & _ & Hh & _).
  unfold recover. rewrite Hi. simpl. rewrite aset_ok by lia. simpl.
  apply wp_bind. eapply wp_mono; [by apply restore_path_ok|]. intros p [Lp' Hp].
  set (n := history_length (conf s)) in *.
  assert (0 ≤ modinc (n - 1) MAX_PATHNEURAL_PATH < 128).
  { unfold modinc, MAX_PATHNEURAL_PATH. rewrite i32_small by lia.
    destruct (Z.eqb_spec (n - 1 + 1) 128); lia. }
  destruct (aset p (modinc (n - 1) MAX_PATHNEURAL_PATH) (lookup_PC c)) as [p'|] eqn:E;
    [|rewrite aset_ok in E by lia; done]. simpl. split_and!; try done.
  - unfold wf. simpl. rewrite length_insert, (length_aset _ _ _ _ E). split_and!; try done; lia.
  - intros j [= <-]. eapply aget_aset_eq. by apply aset_ok; lia.
  - intros j Hj. unfold window. simpl. rewrite (recover_window _ _ _ _ _ Hh Lp' E Hj).
    destruct (Z.eqb_spec j 0); [done|]. apply Hp. lia.
Qed.

Lemma initial_ok k : wf_cfg k → wf (initial k).
Proof.
  intros Hk. pose proof Hk as (? & ? & ? & ? & _). unfold wf, initial. simpl.
  rewrite !length_replicate. split_and!; try done; try lia.
  apply row_ok_replicate; [lia|]. apply row_ok_replicate; [lia|]. unfold weight_ok. lia.
Qed.

(** The predictor with this [row_of] satisfies the interface. *)
Definition path_predictor : DirPredictor t sc := {|
  dp_stats := stats;
  dp_updated := updated;
  dp_lookup s c a _ := lookup s c a;
  dp_update s c a p _ := update s c a p;
  dp_spec_update s c a _ := spec_update s c a;
  dp_recover := recover;
  dp_flush := flush;
  dp_get_cache _ := get_cache;
  dp_reset_stats s := with_stats s (BPredBase.reset_stats (stats s));
  dp_with_stats := with_stats
|}.

Lemma path_keeps_conf s s' : wf s' → conf s' = conf s → keeps wf ref s s'.
Proof. intros Hwf E. split; [done|]. intros c. unfold ref. by rewrite E. Qed.

Lemma path_predictor_ok : @DirPredictorOk t sc path_predictor.
Proof.
  refine {| dp_wf := wf; dp_ref := ref |}; simpl; [done|done|..].
  - intros s c a _ Hwf. eapply wp_mono; [by apply path_lookup_ok|].
    intros [[s' c'] p] (Hwf' & Ec & _ & Es & Hr & Hu & _).
    split_and!; [by apply path_keeps_conf|unfold ref in *; by rewrite Ec|done..].
  - intros s c a p _ Hwf Hr. eapply wp_mono; [by apply path_update_ok|].
    intros [s' c'] (Hwf' & Hr' & Ec & _ & Es & Hu). split_and!; try done. by apply path_keeps_conf.
  - intros s c a p Hwf Hr. eapply wp_mono; [by apply path_spec_update_ok|].
    intros [s' c'] (Hwf' & Hr' & Ec & Es & ->). split_and!; try done. by apply path_keeps_conf.
  - intros s c o Hwf Hr. eapply wp_mono; [by apply path_recover_ok|].
    intros [s' c'] (Hwf' & -> & Ec & Es & _). split_and!; try done; [by apply path_keeps_conf|].
    unfold ref. by rewrite Ec.
  - intros s c Hwf Hr. eapply wp_mono; [by apply path_flush_ok|].
    intros [s' c'] (Hwf' & -> & Ec & Es & _). split_and!; try done; [by apply path_keeps_conf|].
    unfold ref. by rewrite Ec.
Defined.

(** Recovery and flush give back the path and the history the lookup saw,
    whatever well-formed state [s2] the predictor is in by then. *)
Lemma recovery_exact s c a s1 c1 p s2 o : wf s → wf s2 → conf s2 = conf s →
  lookup s c a = Ok (s1, c1, p) →
  (∃ s3, recover s2 c1 o = Ok (s3, c1) ∧ conf s3 = conf s ∧
     (∀ i, 0 ≤ i < history_length (conf s) →
        window s3 i = if i =? 0 then Ok (PC a) else window s (i - 1)) ∧
     ∀ h, aget (bht s) (Z.land (PC a) (bht_mask (conf s))) = Ok h →
       aget (bht s3) (Z.land (PC a) (bht_mask (conf s))) =
       Ok (Z.lor (u64 (Z.shiftl h 1)) (Z.b2z o))) ∧
  (∃ s3, flush s2 c1 = Ok (s3, c1) ∧ conf s3 = conf s ∧
     (∀ i, 0 ≤ i < history_length (conf s) → window s3 i = window s i) ∧
     aget (bht s3) (Z.land (PC a) (bht_mask (conf s))) =
     aget (bht s) (Z.land (PC a) (bht_mask (conf s)))).
Proof.
  intros Hwf Hwf2 E2 El. pose proof (path_lookup_ok s c a Hwf) as Hl.
  apply (wp_ok _ _ _ El) in Hl as (_ & _ & _ & _ & Hr & _ & EP & Eb & Eh & Hw).
  assert (ref s2 c1) as Hr2 by (unfold ref in *; by rewrite E2). split.
  - pose proof (path_recover_ok s2 c1 o Hwf2 Hr2) as (x & E & Hx)%wp_exists.
    destruct x as [s3 c3]. destruct Hx as (_ & -> & E3 & _ & Hb & Hp). rewrite E2 in *.
    exists s3. split_and!; [done|congruence| |].
    + intros i Hi. rewrite Hp, EP by done. destruct (Z.eqb_spec i 0); [done|]. apply Hw. lia.
    + intros h Hh. rewrite (Hb _ Eb). congruence.
  - pose proof (path_flush_ok s2 c1 Hwf2 Hr2) as (x & E & Hx)%wp_exists.
    destruct x as [s3 c3]. destruct Hx as (_ & -> & E3 & _ & Hb & Hp). rewrite E2 in *.
    exists s3. split_and!; [done|congruence| |].
    + intros i Hi. rewrite Hp by done. by apply Hw.
    + rewrite (Hb _ Eb). congruence.
Qed.
End kernel.
End path_kernel.

Module bpred_pathneural.
Import path_kernel.

(** Source: src/xiosim/ZCOMPS-bpred/bpred-pathneural.cpp:28-36 bpred_pathneural_sc_t. *)
Definition sc : Type := path_kernel.sc.

(** Source: src/xiosim/ZCOMPS-bpred/bpred-pathneural.cpp:38-58 bpred_pathneural_t. *)
Definition t : Type := path_kernel.t.

(** [top[(addr&top_mask)%top_size]] *)
Definition row_of (k : cfg) (pc addr : Z) : result Z :=
  row_mod k (Z.land addr (u64 (top_mask k))).

(** Source: src/xiosim/ZCOMPS-bpred/bpred-pathneural.cpp:62-123 bpred_pathneural_t::bpred_pathneural_t.
    [lg] is [ceil(log(arg_top_size)/log(2.0))], computed by the C math library.
    The floor of [1.93*arg_history_length + 14.0] is exact ([theta_of]). *)
Definition create (lg : Z) (arg_bht_size arg_history_length arg_top_size : Z) : result t :=
  let* _ := guard_or (check_ppow2 arg_bht_size) Fatal in
  let* _ := guard_or (0 <=? arg_history_length) Fatal in
  Ok (initial (mk_cfg 0 0 arg_bht_size (arg_bht_size - 1) arg_history_length
    (u64 (u64 (Z.shiftl 1 arg_history_length) - 1)) arg_top_size (i32 (i32 (Z.shiftl 1 lg) - 1))
    (Z.shiftl 1 7 - 1) (- Z.shiftl 1 7) (bpred_perceptron.theta_of arg_history_length)
    (arg_bht_size * arg_history_length + arg_top_size * (arg_history_length + 1) * 8
     + arg_history_length * Z.log2 arg_top_size))).

(** Source: src/xiosim/ZCOMPS-bpred/bpred-pathneural.cpp:136-166 bpred_pathneural_t::lookup. *)
Definition lookup : t → sc → bp_args → result (t * sc * bool) := path_kernel.lookup row_of true.

(** Source: src/xiosim/ZCOMPS-bpred/bpred-pathneural.cpp:169-203 bpred_pathneural_t::update. *)
Definition update : t → sc → bp_args → bool → result (t * sc) := path_kernel.update row_of true.

(** Source: src/xiosim/ZCOMPS-bpred/bpred-pathneural.cpp:206-214 bpred_pathneural_t::spec_update. *)
Definition spec_update : t → sc → bp_args → result (t * sc) := path_kernel.spec_update.

(** Source: src/xiosim/ZCOMPS-bpred/bpred-pathneural.cpp:217-227 bpred_pathneural_t::recover. *)
Definition recover : t → sc → bool → result (t * sc) := path_kernel.recover.

(** Source: src/xiosim/ZCOMPS-bpred/bpred-pathneural.cpp:230-237 bpred_pathneural_t::flush. *)
Definition flush : t → sc → result (t * sc) := path_kernel.flush.

(** Source: src/xiosim/ZCOMPS-bpred/bpred-pathneural.cpp:263-269 bpred_pathneural_t::get_cache. *)
Definition get_cache : sc := path_kernel.get_cache.

Lemma pathneural_row_of_ok k pc addr : wf_cfg k → wp (row_of k pc addr) (λ r, 0 ≤ r < top_size k).
Proof. intros. apply row_mod_ok; [done|]. apply Z.land_nonneg. right. apply u64_range. Qed.

#[export] Instance predictor : DirPredictor t sc := path_predictor row_of true.
#[export] Instance predictor_ok : DirPredictorOk t sc := path_predictor_ok row_of true pathneural_row_of_ok.

Lemma bpred_pathneural_create_ok lg b h n s : create lg b h n = Ok s → h ≤ 128 → 1 ≤ n < 2 ^ 31 →
  wf s ∧ stats s = init_stats.
Proof.
  unfold create. intros E ??. inv_ok. split; [|done].
  match goal with H : check_ppow2 _ = true |- _ => apply check_ppow2_pos in H end.
  apply initial_ok. unfold wf_cfg. simpl. split_and!; try done; lia.
Qed.

(** The table size is not checked: with none the first lookup divides by zero. *)
Lemma bpred_pathneural_empty_table_divides lg b h s c a :
  create lg b h 0 = Ok s → lookup s c a = Fault DivByZero.
Proof. unfold create. intros E. by inv_ok. Qed.

(** The speculative update pushes the actual outcome instead of the prediction. *)
Lemma bpred_pathneural_spec_update_uses_outcome s c a i h : wf s → bhr c = Some i →
  aget (bht s) i = Ok h →
  ∃ s' c', spec_update s c a = Ok (s', c') ∧
    aget (bht s') i =
    Ok (Z.land (Z.lor (u64 (Z.shiftl h 1)) (Z.b2z (outcome a))) (history_mask (conf s))).
Proof.
  intros (_ & _ & _ & Lp & Hh & _) Hi Eh. unfold spec_update, path_kernel.spec_update.
  rewrite Hi. simpl. rewrite Eh. simpl. pose proof (aget_inv _ _ _ Eh) as [? _].
  rewrite aset_ok by lia. simpl.
  assert (0 ≤ modinc (path_head s) MAX_PATHNEURAL_PATH < 128).
  { unfold modinc, MAX_PATHNEURAL_PATH. rewrite i32_small by lia.
    destruct (Z.eqb_spec (path_head s + 1) 128); lia. }
  rewrite (aset_ok (path s)) by lia. simpl. eexists _, _. split; [done|].
  eapply aget_aset_eq. by apply aset_ok; lia.
Qed.

End bpred_pathneural.

Module bpred_pwl.
Import path_kernel.

(** Source: src/xiosim/ZCOMPS-bpred/bpred-pwl.cpp:30-38 bpred_pwl_sc_t. *)
Definition sc : Type := path_kernel.sc.

(** Source: src/xiosim/ZCOMPS-bpred/bpred-pwl.cpp:40-60 bpred_pwl_t. *)
Definition t : Type := path_kernel.t.

(** [top[(((addr&top_mask)<<pc_bits)^(PC&pc_mask))%top_size]] *)
Definition row_of (k : cfg) (pc addr : Z) : result Z :=
  row_mod k (Z.lxor (u64 (Z.shiftl (Z.land addr (u64 (top_mask k))) (pc_bits k)))
                    (Z.land pc (u64 (pc_mask k)))).

(** [floor(2.14*(arg_history_length+1) + 20.58)] *)
Definition theta_of (h : Z) : Z := (214 * (h + 1) + 2058) / 100.

(** Source: src/xiosim/ZCOMPS-bpred/bpred-pwl.cpp:64-126 bpred_pwl_t::bpred_pwl_t.
    [lg] is [ceil(log(arg_top_size)/log(2.0))], computed by the C math library. *)
Definition create (lg : Z) (arg_bht_size arg_history_length arg_top_size arg_pc_bits : Z)
  : result t :=
  let* _ := guard_or (check_ppow2 arg_bht_size) Fatal in
  let* _ := guard_or (0 <=? arg_history_length) Fatal in
  Ok (initial (mk_cfg arg_pc_bits (history_mask_of arg_pc_bits)
    arg_bht_size (arg_bht_size - 1) arg_history_length
    (u64 (u64 (Z.shiftl 1 arg_history_length) - 1)) arg_top_size (i32 (i32 (Z.shiftl 1 lg) - 1))
    (Z.shiftl 1 7 - 1) (- Z.shiftl 1 7) (theta_of arg_history_length)
    (arg_bht_size * arg_history_length + arg_top_size * (arg_history_length + 1) * 8
     + arg_history_length * Z.log2 arg_top_size))).

(** Source: src/xiosim/ZCOMPS-bpred/bpred-pwl.cpp:139-167 bpred_pwl_t::lookup. *)
Definition lookup : t → sc → bp_args → result (t * sc * bool) := path_kernel.lookup row_of false.

(** Source: src/xiosim/ZCOMPS-bpred/bpred-pwl.cpp:170-204 bpred_pwl_t::update. *)
Definition update : t → sc → bp_args → bool → result (t * sc) := path_kernel.update row_of false.

(** Source: src/xiosim/ZCOMPS-bpred/bpred-pwl.cpp:207-215 bpred_pwl_t::spec_update. *)
Definition spec_update : t → sc → bp_args → result (t * sc) := path_kernel.spec_update.

(** Source: src/xiosim/ZCOMPS-bpred/bpred-pwl.cpp:218-229 bpred_pwl_t::recover. *)
Definition recover : t → sc → bool → result (t * sc) := path_kernel.recover.

(** Source: src/xiosim/ZCOMPS-bpred/bpred-pwl.cpp:232-240 bpred_pwl_t::flush. *)
Definition flush : t → sc → result (t * sc) := path_kernel.flush.

(** Source: src/xiosim/ZCOMPS-bpred/bpred-pwl.cpp:260-266 bpred_pwl_t::get_cache. *)
Definition get_cache : sc := path_kernel.get_cache.

Lemma pwl_row_of_ok k pc addr : wf_cfg k → wp (row_of k pc addr) (λ r, 0 ≤ r < top_size k).
Proof.
  intros. apply row_mod_ok; [done|]. apply Z.lxor_nonneg.
  split; intros _; [apply Z.land_nonneg; right|]; apply u64_range.
Qed.

#[export] Instance predictor : DirPredictor t sc := path_predictor row_of false.
#[export] Instance predictor_ok : DirPredictorOk t sc := path_predictor_ok row_of false pwl_row_of_ok.

Lemma bpred_pwl_create_ok lg b h n pb s : create lg b h n pb = Ok s → h ≤ 128 → 1 ≤ n < 2 ^ 31 →
  wf s ∧ stats s = init_stats.
Proof.
  unfold create. intros E ??. inv_ok. split; [|done].
  match goal with H : check_ppow2 _ = true |- _ => apply check_ppow2_pos in H end.
  apply initial_ok. unfold wf_cfg. simpl. split_and!; try done; lia.
Qed.

(** The path-based predictors recover exactly: when a branch looked up in
    the state [s] is recovered in any later well-formed state [s2] of the same
    predictor, the circular path buffer reads as the path the lookup saw with
    the branch itself in front, and its history register as the history the
    lookup saw with the actual outcome pushed; after a flush both read exactly
    as at the lookup.  Neither operation faults. *)
Theorem path_recovery_exact s c a s1 c1 p s2 o : wf s → wf s2 → conf s2 = conf s →
  lookup s c a = Ok (s1, c1, p) →
  (∃ s3, recover s2 c1 o = Ok (s3, c1) ∧ conf s3 = conf s ∧
     (∀ i, 0 ≤ i < history_length (conf s) →
        window s3 i = if i =? 0 then Ok (PC a) else window s (i - 1)) ∧
     ∀ h, aget (bht s) (Z.land (PC a) (bht_mask (conf s))) = Ok h →
       aget (bht s3) (Z.land (PC a) (bht_mask (conf s))) =
       Ok (Z.lor (u64 (Z.shiftl h 1)) (Z.b2z o))) ∧
  (∃ s3, flush s2 c1 = Ok (s3, c1) ∧ conf s3 = conf s ∧
     (∀ i, 0 ≤ i < history_length (conf s) → window s3 i = window s i) ∧
     aget (bht s3) (Z.land (PC a) (bht_mask (conf s))) =
     aget (bht s) (Z.land (PC a) (bht_mask (conf s)))).
Proof. apply recovery_exact, pwl_row_of_ok. Qed.

Lemma path_recovery_exact_witness :
  ∃ s s1 c1 s2 s3 p a, create 4 4 8 16 2 = Ok s ∧ lookup s get_cache a = Ok (s1, c1, p) ∧
    spec_update s1 c1 a = Ok (s2, c1) ∧ recover s2 c1 false = Ok (s3, c1) ∧
    window s3 0 = Ok (PC a) ∧ window s3 1 = window s 0.
Proof.
  destruct (create 4 4 8 16 2) as [s|] eqn:E; [|discriminate E].
  pose proof (bpred_pwl_create_ok _ _ _ _ _ _ E ltac:(lia) ltac:(lia)) as [Hwf _].
  set (a := mk_args 1234 0 0 true).
  destruct (lookup s get_cache a) as [[[s1 c1] p]|] eqn:El;
    [|injection E as <-; vm_compute in El; discriminate El].
  destruct (spec_update s1 c1 a) as [[s2 c2]|] eqn:Es;
    [|injection E as <-; vm_compute in El; injection El as <- <- _; vm_compute in Es; discriminate Es].
  pose proof (path_lookup_ok row_of false pwl_row_of_ok s get_cache a Hwf) as Hl.
  apply (wp_ok _ _ _ El) in Hl as (Hwf1 & E1 & _ & _ & Hr & _).
  assert (ref s1 c1) as Hr1 by (unfold ref in *; by rewrite E1).
  pose proof (path_spec_update_ok s1 c1 a Hwf1 Hr1) as Hs.
  apply (wp_ok _ _ _ Es) in Hs as (Hwf2 & _ & E2 & _ & ->).
  destruct (path_recovery_exact s get_cache a s1 c1 p s2 false Hwf Hwf2 ltac:(congruence) El)
    as [(s3 & Er & _ & Hw & _) _].
  exists s, s1, c1, s2, s3, p, a. split_and!; try done.
  - rewrite (Hw 0); [done|]. injection E as <-. simpl. lia.
  - rewrite (Hw 1); [done|]. injection E as <-. simpl. lia.
Defined.

End bpred_pwl.
