(* ===== verification/BPredBlg.v ===== *)
(** * BPredBlg: the BLG predictor of src/xiosim/ZCOMPS-bpred/bpred-blg.cpp

    Three serially connected stages: a bimodal table [B], a tagged
    local-history stage [L] indexed by the local history and [B]'s prediction,
    and a tagged global stage [G] indexed by the path register [stew] and [L]'s
    prediction.  A local history is in shift mode (its top bit set: the last
    outcomes) or in count mode (a direction and a run length).

    Shift amounts: the constructor accepts [L_hist_len] = 1, for which the
    source shifts by -1; the theorems assume 2 <= L_hist_len <= 31. *)

From S2P Require Import Prelude SatCounter BPredBase.

Module bpred_blg.

(** Source: src/xiosim/ZCOMPS-bpred/bpred-blg.cpp:30-50 bpred_blg_sc_t.
    The members [PC] and [G_tag] are [sc_PC] and [sc_G_tag] here. *)
Record sc : Type := mk_sc {
  sc_PC : Z;
  lookup_stew : Z;
  lookup_L_hist : Z;
  B_index : Z;
  L_index : Z;
  L_hist_index : Z;
  G_index : Z;
  B_pred : bool;
  L_pred : bool;
  G_pred : bool;
  G_hit : bool;
  L_hit : bool;
  sc_G_tag : Z;
  updated : bool
}.

(** Source: src/xiosim/ZCOMPS-bpred/bpred-blg.cpp:54-70 bpred_blg_t.
    The members the constructor fixes. *)
Record cfg : Type := mk_cfg {
  B_size : Z;
  B_mask : Z;
  L_size : Z;
  L_mask : Z;
  L_hist_len : Z;
  L_hist_size : Z;
  L_hist_mask : Z;
  G_size : Z;
  G_mask : Z;
  G_tag_size : Z;
  L_tag_shamt : Z;
  L_tag_mask : Z;
  G_tag_shamt : Z;
  G_tag_mask : Z;
  bits : Z
}.

(** Source: src/xiosim/ZCOMPS-bpred/bpred-blg.cpp:72-79 bpred_blg_t. *)
Record t : Type := mk {
  conf : cfg;
  stats : dstats;
  B : list my2bc_t;
  L_hist : list Z;
  L : list my2bc_t;
  L_tag : list Z;
  G : list my2bc_t;
  G_tag : list Z;
  stew : Z
}.

Definition with_stats (s : t) (st : dstats) : t :=
  mk (conf s) st (B s) (L_hist s) (L s) (L_tag s) (G s) (G_tag s) (stew s).
Definition with_B (s : t) (l : list my2bc_t) : t :=
  mk (conf s) (stats s) l (L_hist s) (L s) (L_tag s) (G s) (G_tag s) (stew s).
Definition with_L_hist (s : t) (l : list Z) : t :=
  mk (conf s) (stats s) (B s) l (L s) (L_tag s) (G s) (G_tag s) (stew s).
Definition with_L (s : t) (l : list my2bc_t) : t :=
  mk (conf s) (stats s) (B s) (L_hist s) l (L_tag s) (G s) (G_tag s) (stew s).
Definition with_L_tag (s : t) (l : list Z) : t :=
  mk (conf s) (stats s) (B s) (L_hist s) (L s) l (G s) (G_tag s) (stew s).
Definition with_G (s : t) (l : list my2bc_t) (tags : list Z) : t :=
  mk (conf s) (stats s) (B s) (L_hist s) (L s) (L_tag s) l tags (stew s).
Definition with_stew (s : t) (x : Z) : t :=
  mk (conf s) (stats s) (B s) (L_hist s) (L s) (L_tag s) (G s) (G_tag s) x.

(** The initial counter of the local pattern [i]. *)
Definition L_init (len i : Z) : my2bc_t :=
  if Z.testbit i (len - 1) then
    (if Z.testbit i 0 then MY2BC_WEAKLY_TAKEN else MY2BC_WEAKLY_NT)
  else (if Z.testbit i (len - 2) then MY2BC_WEAKLY_TAKEN else MY2BC_WEAKLY_NT).

(** Source: src/xiosim/ZCOMPS-bpred/bpred-blg.cpp:83-164 bpred_blg_t::bpred_blg_t. *)
Definition create (arg_B_size arg_L_size arg_L_hist_len arg_L_hist_size arg_L_tag_size
    arg_G_size arg_G_tag_size : Z) : result t :=
  let* _ := guard_or (check_ppow2 arg_B_size) Fatal in
  let* _ := guard_or (check_ppow2 arg_L_size) Fatal in
  let* _ := guard_or (check_ppow2 arg_L_hist_size) Fatal in
  let* _ := guard_or (0 <? arg_L_hist_len) Fatal in
  let* _ := guard_or (0 <? arg_L_tag_size) Fatal in
  let* _ := guard_or (check_ppow2 arg_G_size) Fatal in
  let* _ := guard_or (0 <? arg_G_tag_size) Fatal in
  Ok (mk (mk_cfg arg_B_size (arg_B_size - 1) arg_L_size (arg_L_size - 1) arg_L_hist_len
            arg_L_hist_size (arg_L_hist_size - 1) arg_G_size (arg_G_size - 1) arg_G_tag_size
            (Z.log2 arg_L_size) (history_mask_of arg_L_tag_size)
            (Z.log2 arg_G_size) (history_mask_of arg_G_tag_size)
            (arg_B_size * 2 + arg_L_size * 2 + arg_L_hist_size * (arg_L_hist_len + arg_L_tag_size)
             + arg_G_size * (2 + arg_G_tag_size)))
         init_stats
         (replicate (Z.to_nat arg_B_size) MY2BC_WEAKLY_TAKEN)
         (replicate (Z.to_nat arg_L_hist_size) 0)
         (L_init arg_L_hist_len <$> seqZ 0 arg_L_size)
         (replicate (Z.to_nat arg_L_hist_size) 0)
         (replicate (Z.to_nat arg_G_size) MY2BC_WEAKLY_TAKEN)
         (replicate (Z.to_nat arg_G_size) 0)
         0).

(** [(PC>>L_tag_shamt)&L_tag_mask], an [md_addr_t] *)
Definition L_tag_of (k : cfg) (pc : Z) : Z :=
  Z.land (Z.shiftr pc (L_tag_shamt k)) (u64 (L_tag_mask k)).

(** [((((PC << L_hist_len) | hist) << 1) | B_pred) & L_mask] *)
Definition L_index_of (k : cfg) (pc hist : Z) (B_pred : bool) : Z :=
  Z.land (Z.lor (u64 (Z.shiftl (Z.lor (u64 (Z.shiftl pc (L_hist_len k))) (u64 hist)) 1))
                (Z.b2z B_pred)) (L_mask k).

(** Source: src/xiosim/ZCOMPS-bpred/bpred-blg.cpp:178-207 bpred_blg_t::lookup. *)
Definition lookup (s : t) (c : sc) (a : bp_args) : result (t * sc * bool) :=
  let k := conf s in
  let Bi := Z.land (PC a) (B_mask k) in
  let* Bc := aget (B s) Bi in
  let B_pred := dir_of Bc in
  let Lhi := Z.land (u64 (Z.shiftl (PC a) 1)) (L_hist_mask k) in
  let* hist := aget (L_hist s) Lhi in
  let Li := L_index_of k (PC a) hist B_pred in
  let* ltag := aget (L_tag s) Lhi in
  let L_hit := L_tag_of k (PC a) =? u32 ltag in
  let* Lc := aget (L s) Li in
  let L_pred := if L_hit then dir_of Lc else B_pred in
  let temp := i32 (Z.lor (u64 (Z.shiftl (Z.lxor (PC a) (u64 (stew s))) 1)) (Z.b2z L_pred)) in
  let tag := Z.land temp (G_tag_mask k) in
  let Gi := Z.land (Z.lxor (Z.shiftr temp (G_tag_size k)) tag) (G_mask k) in
  let* Gc := aget (G s) Gi in
  let* gtag := aget (G_tag s) Gi in
  let G_pred := dir_of Gc in
  let G_hit := tag =? gtag in
  Ok (with_stats s (count_lookup (stats s)),
      mk_sc (PC a) (stew s) hist Bi Li Lhi Gi B_pred L_pred G_pred G_hit L_hit tag false,
      if G_hit then G_pred else if L_hit then L_pred else B_pred).

(** The counter that provided the prediction. *)
Definition train_provider (s : t) (c : sc) (o : bool) : result t :=
  if G_hit c then
    let* l := amodify (G s) (G_index c) (λ x, MY2BC_UPDATE x o) in Ok (with_G s l (G_tag s))
  else if L_hit c then
    let* l := amodify (L s) (L_index c) (λ x, MY2BC_UPDATE x o) in Ok (with_L s l)
  else
    let* l := amodify (B s) (B_index c) (λ x, MY2BC_UPDATE x o) in Ok (with_B s l).

(** Source: src/xiosim/ZCOMPS-bpred/bpred-blg.cpp:241-252 bpred_blg_t::update.
    The local history of a newly allocated entry, from [B]'s counter. *)
Definition hist_init (k : cfg) (Bc : my2bc_t) (o : bool) (hist : Z) : Z :=
  let h :=
    if (Bc =? MY2BC_STRONG_NT) && o then i32 0xfffffff1
    else if (Bc =? MY2BC_WEAKLY_NT) && o then i32 0xffffffe3
    else if (Bc =? MY2BC_WEAKLY_TAKEN) && negb o then 0x1c
    else if (Bc =? MY2BC_STRONG_TAKEN) && negb o then 0x0e
    else hist in
  Z.lor (Z.land h (i32 (Z.shiftl 1 (L_hist_len k - 1)) - 1)) (i32 (Z.shiftl 1 (L_hist_len k - 1))).

Definition weak_dir (o : bool) : my2bc_t := if o then MY2BC_WEAKLY_TAKEN else MY2BC_WEAKLY_NT.

(** Source: src/xiosim/ZCOMPS-bpred/bpred-blg.cpp:236-259 bpred_blg_t::update. *)
Definition allocate_L (s : t) (c : sc) (a : bp_args) : result t :=
  let* tags := aset (L_tag s) (L_hist_index c) (i32 (L_tag_of (conf s) (PC a))) in
  let* Bc := aget (B s) (B_index c) in
  let* hist := aget (L_hist s) (L_hist_index c) in
  let hist := hist_init (conf s) Bc (outcome a) hist in
  let* hists := aset (L_hist s) (L_hist_index c) hist in
  let* l := aset (L s) (L_index_of (conf s) (PC a) hist (B_pred c)) (weak_dir (outcome a)) in
  Ok (with_L (with_L_hist (with_L_tag s tags) hists) l).

(** Source: src/xiosim/ZCOMPS-bpred/bpred-blg.cpp:261-263 bpred_blg_t::update. *)
Definition allocate_G (s : t) (c : sc) (o : bool) : result t :=
  let* tags := aset (G_tag s) (G_index c) (sc_G_tag c) in
  let* l := aset (G s) (G_index c) (weak_dir o) in
  Ok (with_G s l tags).

(** Source: src/xiosim/ZCOMPS-bpred/bpred-blg.cpp:210-276 bpred_blg_t::update. *)
Definition update (s : t) (c : sc) (a : bp_args) (our_pred : bool) : result (t * sc) :=
  if updated c then Ok (s, c)
  else
    let* s := train_provider s c (outcome a) in
    let* s :=
      (if negb (Bool.eqb our_pred (outcome a)) && negb (G_hit c) then
         let* s := (if L_hit c then Ok s else allocate_L s c a) in
         allocate_G s c (outcome a)
       else Ok s) in
    Ok (with_stats s (count_update (stats s) (Bool.eqb our_pred (outcome a))),
        mk_sc (sc_PC c) (lookup_stew c) (lookup_L_hist c) (B_index c) (L_index c)
          (L_hist_index c) (G_index c) (B_pred c) (L_pred c) (G_pred c) (G_hit c) (L_hit c)
          (sc_G_tag c) true).

(** Source: src/xiosim/ZCOMPS-bpred/bpred-blg.cpp:294-331 bpred_blg_t::spec_update.
    The step of a local history, in shift mode or in count mode; [recover] has
    the same code. *)
Definition L_hist_step (len hist : Z) (b : bool) : Z :=
  if Z.testbit hist (len - 1) then
    let hist := Z.lor (i32 (Z.shiftl hist 1)) (Z.b2z b) in
    let tmp := Z.land hist (i32 (Z.shiftl 1 (len - 1)) - 1) in
    if (tmp =? 0) || (Z.lnot tmp =? 0) then (if b then i32 (Z.shiftl 1 (len - 2)) else 0)
    else Z.land (Z.lor hist (i32 (Z.shiftl 1 (len - 1)))) (i32 (i32 (Z.shiftl 1 len) - 1))
  else
    let dir := Z.testbit hist (len - 2) in
    if Bool.eqb dir b then
      let count := Z.land hist (i32 (Z.shiftl 1 (len - 2)) - 1) + 1 in
      let count := if Z.shiftr count (len - 2) =? 0 then count else count - 1 in
      Z.lor (i32 (Z.shiftl (Z.b2z dir) (len - 2))) count
    else Z.lor (if b then 1 else Z.lnot 1) (i32 (Z.shiftl 1 (len - 1))).

(** Source: src/xiosim/ZCOMPS-bpred/bpred-blg.cpp:280-335 bpred_blg_t::spec_update. *)
Definition spec_update (s : t) (c : sc) (a : bp_args) (our_pred : bool) : result (t * sc) :=
  let s := with_stats s (count_spec_update (stats s)) in
  let s := with_stew s (i32 (Z.lor (u64 (Z.shiftl (Z.lxor (u64 (stew s)) (PC a)) 1))
                                   (Z.b2z our_pred))) in
  let* ltag := aget (L_tag s) (L_hist_index c) in
  if L_tag_of (conf s) (PC a) =? u32 ltag then
    let* hists := amodify (L_hist s) (L_hist_index c)
                    (λ h, L_hist_step (L_hist_len (conf s)) h our_pred) in
    Ok (with_L_hist s hists, c)
  else Ok (s, c).

(** Source: src/xiosim/ZCOMPS-bpred/bpred-blg.cpp:337-390 bpred_blg_t::recover. *)
Definition recover (s : t) (c : sc) (outcome : bool) : result (t * sc) :=
  let s := with_stew s (i32 (Z.lor (u64 (Z.shiftl (Z.lxor (u64 (lookup_stew c)) (sc_PC c)) 1))
                                   (Z.b2z outcome))) in
  let* ltag := aget (L_tag s) (L_hist_index c) in
  if L_tag_of (conf s) (sc_PC c) =? u32 ltag then
    let* hists := aset (L_hist s) (L_hist_index c)
                    (L_hist_step (L_hist_len (conf s)) (lookup_L_hist c) outcome) in
    Ok (with_L_hist s hists, c)
  else Ok (s, c).

(** Source: src/xiosim/ZCOMPS-bpred/bpred-blg.cpp:392-401 bpred_blg_t::flush. *)
Definition flush (s : t) (c : sc) : result (t * sc) :=
  let s := with_stew s (i32 (Z.lxor (u64 (lookup_stew c)) (sc_PC c))) in
  let* ltag := aget (L_tag s) (L_hist_index c) in
  if L_tag_of (conf s) (sc_PC c) =? u32 ltag then
    let* hists := aset (L_hist s) (L_hist_index c) (lookup_L_hist c) in
    Ok (with_L_hist s hists, c)
  else Ok (s, c).

(** Source: src/xiosim/ZCOMPS-bpred/bpred-blg.cpp:404-410 bpred_blg_t::get_cache. *)
Definition get_cache : sc :=
  mk_sc 0 0 0 0 0 0 0 false false false false false 0 false.

#[export] Instance predictor : DirPredictor t sc := {
  dp_stats := stats;
  dp_updated := updated;
  dp_lookup s c a _ := lookup s c a;
  dp_update s c a p _ := update s c a p;
  dp_spec_update := spec_update;
  dp_recover := recover;
  dp_flush := flush;
  dp_get_cache _ := get_cache;
  dp_reset_stats s := with_stats s (BPredBase.reset_stats (stats s));
  dp_with_stats := with_stats
}.

(** ** Invariant *)

Definition wf_cfg (k : cfg) : Prop :=
  1 ≤ B_size k ∧ B_mask k = B_size k - 1 ∧
  1 ≤ L_size k ∧ L_mask k = L_size k - 1 ∧
  1 ≤ L_hist_size k ∧ L_hist_mask k = L_hist_size k - 1 ∧
  1 ≤ G_size k ∧ G_mask k = G_size k - 1.

Definition any (_ : Z) : Prop := True.

Definition wf (s : t) : Prop :=
  let k := conf s in
  wf_cfg k ∧ row_ok (B_size k) ctr_ok (B s) ∧ row_ok (L_size k) ctr_ok (L s) ∧
  row_ok (L_hist_size k) any (L_hist s) ∧ row_ok (L_hist_size k) any (L_tag s) ∧
  row_ok (G_size k) ctr_ok (G s) ∧ row_ok (G_size k) any (G_tag s).

Definition ref (s : t) (c : sc) : Prop :=
  let k := conf s in
  0 ≤ B_index c < B_size k ∧ 0 ≤ L_index c < L_size k ∧
  0 ≤ L_hist_index c < L_hist_size k ∧ 0 ≤ G_index c < G_size k.

Definition evolves (s s' : t) : Prop := wf s' ∧ conf s' = conf s ∧ stats s' = stats s.

Lemma blg_evolves_trans s1 s2 s3 : evolves s1 s2 → evolves s2 s3 → evolves s1 s3.
Proof. intros (? & ? & ?) (? & ? & ?). unfold evolves. split_and!; congruence. Qed.

Lemma blg_ref_evolves s s' c : evolves s s' → ref s c → ref s' c.
Proof. intros (_ & E & _). unfold ref. by rewrite E. Qed.

Lemma blg_evolves_keeps s s' : wf s' → conf s' = conf s → keeps wf ref s s'.
Proof. intros ? E. split; [done|]. intros c. unfold ref. by rewrite E. Qed.

(** Field by field: a new value of a table of the right shape keeps the invariant. *)
Ltac solve_evolves :=
  match goal with H : wf _ |- evolves _ _ =>
    destruct H as (? & ? & ? & ? & ? & ? & ?);
    unfold evolves, wf; simpl; by repeat (split; [done|])
  end.

Lemma L_table_ok len n : 0 ≤ n → row_ok n ctr_ok (L_init len <$> seqZ 0 n).
Proof.
  intros. pose proof weak_states_ok as (? & ? & _). split; [rewrite length_fmap, length_seqZ; lia|].
  apply Forall_fmap, Forall_true. intros i. simpl. unfold L_init. by repeat case_match.
Qed.

Lemma bpred_blg_create_ok b l hl hs lt g gt s :
  create b l hl hs lt g gt = Ok s → wf s ∧ stats s = init_stats.
Proof.
  unfold create. intros E. inv_ok. split; [|done].
  repeat match goal with H : check_ppow2 _ = true |- _ => apply check_ppow2_pos in H end.
  unfold wf, wf_cfg. simpl. pose proof weak_states_ok as (? & ? & _).
  split; [split_and!; lia|].
  repeat (split; [first [apply row_ok_replicate; (done || lia) | apply L_table_ok; lia]|]).
  apply row_ok_replicate; [lia|done].
Qed.

Lemma weak_dir_ok o : ctr_ok (weak_dir o).
Proof. pose proof weak_states_ok as (? & ? & _). by destruct o. Qed.

Lemma blg_train_provider_ok s c o : wf s → ref s c → wp (train_provider s c o) (evolves s).
Proof.
  intros Hwf (? & ? & ? & ?). pose proof Hwf as (? & HB & HL & ? & ? & HG & ?).
  unfold train_provider. destruct (G_hit c); [|destruct (L_hit c)]; apply wp_bind;
    (eapply wp_amodify_row; [eassumption|done|intros; apply MY2BC_UPDATE_ok|]);
    intros l Hl; simpl; solve_evolves.
Qed.

Lemma L_index_range k pc h b : wf_cfg k → 0 ≤ L_index_of k pc h b < L_size k.
Proof. intros (_ & _ & ? & E & _). unfold L_index_of. rewrite E. by apply land_mask_range. Qed.

Lemma allocate_L_ok s c a : wf s → ref s c → wp (allocate_L s c a) (evolves s).
Proof.
  intros Hwf (? & ? & ? & ?). pose proof Hwf as (? & HB & HL & HH & HT & HG & ?).
  unfold allocate_L. apply wp_bind.
  eapply wp_aset_row; [exact HT|done|done|]. intros tags Ht. apply wp_bind.
  eapply wp_aget_row; [exact HB|done|]. intros Bc _. apply wp_bind.
  eapply wp_aget_row; [exact HH|done|]. intros h _. apply wp_bind.
  eapply wp_aset_row; [exact HH|done|done|]. intros hists Hh. apply wp_bind.
  eapply wp_aset_row; [exact HL|by apply L_index_range|apply weak_dir_ok|].
  intros l Hl. simpl. solve_evolves.
Qed.

Lemma allocate_G_ok s c o : wf s → ref s c → wp (allocate_G s c o) (evolves s).
Proof.
  intros Hwf (? & ? & ? & ?). pose proof Hwf as (? & HB & HL & HH & HT & HG & HGt).
  unfold allocate_G. apply wp_bind.
  eapply wp_aset_row; [exact HGt|done|done|]. intros tags Ht. apply wp_bind.
  eapply wp_aset_row; [exact HG|done|apply weak_dir_ok|]. intros l Hl. simpl. solve_evolves.
Qed.

Lemma blg_update_ok s c a p : wf s → ref s c →
  wp (update s c a p) (λ '(s', c'), wf s' ∧ conf s' = conf s ∧ ref s' c' ∧
    stats s' = stats_after_update (stats s) (updated c) (outcome a) p ∧ updated c' = true).
Proof.
  intros Hwf Hr. unfold update, stats_after_update. destruct (updated c) eqn:Eu; [done|].
  apply wp_bind. eapply wp_mono; [by apply blg_train_provider_ok|]. intros s1 E1.
  pose proof (blg_ref_evolves _ _ _ E1 Hr) as R1. apply wp_bind.
  apply (wp_mono _ (evolves s)).
  - destruct (_ && _); [|done]. apply wp_bind. apply (wp_mono _ (evolves s)).
    + destruct (L_hit c); [done|]. eapply wp_mono; [apply allocate_L_ok; [apply E1|done]|].
      intros s2 E2. by eapply blg_evolves_trans.
    + intros s2 E2. eapply wp_mono; [apply allocate_G_ok; [apply E2|by eapply blg_ref_evolves]|].
      intros s3 E3. by eapply blg_evolves_trans.
  - intros s3 E3. simpl. pose proof (blg_ref_evolves _ _ _ E3 Hr) as R3. destruct E3 as (? & -> & ->).
    by split_and!.
Qed.

(** The local-history part of [spec_update], [recover] and [flush]. *)
Lemma wp_L_hist_write s c pc (f : Z → Z) x (b : bool) : wf s → ref s c →
  wp (let* ltag := aget (L_tag s) (L_hist_index c) in
      if L_tag_of (conf s) pc =? u32 ltag then
        let* hists := (if b then amodify (L_hist s) (L_hist_index c) f
                       else aset (L_hist s) (L_hist_index c) x) in
        Ok (with_L_hist s hists, c)
      else Ok (s, c)) (λ '(s', c'), evolves s s' ∧ c' = c ∧ stew s' = stew s).
Proof.
  intros Hwf (? & ? & ? & ?). pose proof Hwf as (? & HB & HL & HH & HT & HG & HGt).
  apply wp_bind. eapply wp_aget_row; [exact HT|done|]. intros ltag _.
  destruct (_ =? _); [|done]. apply wp_bind. destruct b.
  - eapply wp_amodify_row; [exact HH|done|done|]. intros l Hl. simpl. split; [solve_evolves|done].
  - eapply wp_aset_row; [exact HH|done|done|]. intros l Hl. simpl. split; [solve_evolves|done].
Qed.

Lemma with_stew_ok s x : wf s → wf (with_stew s x).
Proof. done. Qed.

#[export] Instance predictor_ok : DirPredictorOk t sc.
Proof.
  refine {| dp_wf := wf; dp_ref := ref |}; simpl; [done|done|..].
  - intros s c a _ Hwf. pose proof Hwf as (Hk & HB & HL & HH & HT & HG & HGt).
    pose proof Hk as (? & EB & ? & EL & ? & EH & ? & EG). unfold lookup.
    pose proof (land_mask_range (PC a) (B_size (conf s))) as RB. rewrite <- EB in RB.
    pose proof (land_mask_range (u64 (Z.shiftl (PC a) 1)) (L_hist_size (conf s))) as RH.
    rewrite <- EH in RH.
    apply wp_bind. eapply wp_aget_row; [exact HB|auto|]. intros Bc _.
    apply wp_bind. eapply wp_aget_row; [exact HH|auto|]. intros h _.
    apply wp_bind. eapply wp_aget_row; [exact HT|auto|]. intros ltag _.
    pose proof (L_index_range (conf s) (PC a) h (dir_of Bc) Hk) as RL.
    apply wp_bind. eapply wp_aget_row; [exact HL|done|]. intros Lc _.
    set (x := Z.lxor _ _) at 1.
    pose proof (land_mask_range x (G_size (conf s))) as RG. rewrite <- EG in RG. subst x.
    apply wp_bind. eapply wp_aget_row; [exact HG|auto|]. intros Gc _.
    apply wp_bind. eapply wp_aget_row; [exact HGt|auto|]. intros gtag _. simpl.
    split_and!; try done. unfold ref. simpl. auto.
  - intros s c a p _ Hwf Hr. eapply wp_mono; [by apply blg_update_ok|].
    intros [s' c'] (? & ? & ? & ? & ?). split_and!; try done. by apply blg_evolves_keeps.
  - intros s c a p Hwf Hr. unfold spec_update. cbv zeta. set (s1 := with_stew _ _).
    eapply wp_mono; [apply (wp_L_hist_write s1 c (PC a)
      (λ h, L_hist_step (L_hist_len (conf s1)) h p) 0 true); done|].
    intros [s' c'] ((? & E & Es) & -> & _).
    split_and!; try done; [by apply blg_evolves_keeps|unfold ref; by rewrite E].
  - intros s c o Hwf Hr. unfold recover. cbv zeta. set (s1 := with_stew _ _).
    eapply wp_mono; [apply (wp_L_hist_write s1 c (sc_PC c) id
      (L_hist_step (L_hist_len (conf s1)) (lookup_L_hist c) o) false); done|].
    intros [s' c'] ((? & E & Es) & -> & _).
    split_and!; try done; [by apply blg_evolves_keeps|unfold ref; by rewrite E].
  - intros s c Hwf Hr. unfold flush. cbv zeta. set (s1 := with_stew _ _).
    eapply wp_mono; [apply (wp_L_hist_write s1 c (sc_PC c) id (lookup_L_hist c) false); done|].
    intros [s' c'] ((? & E & Es) & -> & _).
    split_and!; try done; [by apply blg_evolves_keeps|unfold ref; by rewrite E].
Defined.

(** ** Where the code and its comments part *)

(** In shift mode only a run of not-taken outcomes ever switches a local
    history to count mode: the test for a run of taken outcomes, [(~tmp)==0] on
    the masked [tmp], never holds.  So whenever the step leaves shift mode the
    outcome was not taken and the new history is 0. *)
Theorem blg_count_mode_only_not_taken len hist b : 2 ≤ len ≤ 31 →
  Z.testbit hist (len - 1) = true → Z.testbit (L_hist_step len hist b) (len - 1) = false →
  b = false ∧ L_hist_step len hist b = 0.
Proof.
  intros Hlen Hs. unfold L_hist_step. rewrite Hs.
  assert (∀ n, 0 ≤ n ≤ 30 → i32 (Z.shiftl 1 n) = 2 ^ n) as Hp.
  { intros n Hn. rewrite shiftl_1_l by lia. apply i32_small.
    split; [|apply Z.pow_lt_mono_r; lia]. pose proof (Z.pow_nonneg 2 n). lia. }
  rewrite (Hp (len - 1)), (Hp (len - 2)) by lia.
  set (x := Z.lor _ (Z.b2z b)). set (tmp := Z.land x (2 ^ (len - 1) - 1)).
  assert (0 < 2 ^ (len - 1)) by (apply Z.pow_pos_nonneg; lia).
  assert (0 ≤ tmp) as Ht by (apply Z.land_nonneg; lia).
  assert ((Z.lnot tmp =? 0) = false) as -> by (apply Z.eqb_neq; unfold Z.lnot; lia).
  rewrite orb_false_r. destruct (Z.eqb_spec tmp 0) as [Et|].
  - destruct b; [|done]. exfalso.
    assert (Z.testbit tmp 0 = true) as Hb; [|by rewrite Et, Z.bits_0 in Hb].
    subst tmp. rewrite testbit_land_low by lia. rewrite (proj2 (Z.ltb_lt 0 _)), andb_true_r by lia.
    subst x. by rewrite Z.lor_spec, orb_true_r.
  - rewrite Z.land_spec, Z.lor_spec, testbit_pow2, Z.eqb_refl, orb_true_r by lia. simpl.
    intros Hm. exfalso. destruct (decide (len = 31)) as [->|]; [vm_compute in Hm; done|].
    rewrite (Hp len) in Hm by lia. rewrite i32_small in Hm.
    + assert (2 ^ len - 1 = Z.ones len) as E by (rewrite Z.ones_equiv; lia).
      rewrite E, Z.ones_spec_low in Hm by lia. done.
    + assert (2 ^ len ≤ 2 ^ 30) by (apply Z.pow_le_mono_r; lia).
      assert (0 < 2 ^ len) by (apply Z.pow_pos_nonneg; lia). lia.
Qed.

Lemma blg_count_mode_only_not_taken_witness :
  L_hist_step 4 8 false = 0 ∧ Z.testbit (L_hist_step 4 8 false) 3 = false.
Proof.
  destruct (blg_count_mode_only_not_taken 4 8 false ltac:(lia) eq_refl eq_refl) as [_ E].
  split; [exact E|by rewrite E].
Defined.

(** A flush leaves the path register at the saved value exclusive-or the branch
    address, not at the saved value. *)
Lemma bpred_blg_flush_stew s c : wf s → ref s c →
  wp (flush s c) (λ '(s', _), stew s' = i32 (Z.lxor (u64 (lookup_stew c)) (sc_PC c))).
Proof.
  intros Hwf Hr. unfold flush. cbv zeta. set (s1 := with_stew _ _).
  eapply wp_mono; [apply (wp_L_hist_write s1 c (sc_PC c) id (lookup_L_hist c) false); done|].
  by intros [s' c'] (_ & _ & ->).
Qed.

(** The history initialisation reads [B]'s counter after it was trained: the
    test for a strongly not-taken counter on a taken outcome never holds. *)
Lemma bpred_blg_dead_history_init x : ctr_ok x →
  MY2BC_UPDATE x true ≠ MY2BC_STRONG_NT ∧ MY2BC_UPDATE x false ≠ MY2BC_STRONG_TAKEN.
Proof. intros H. case_ctr x H; split; vm_compute; discriminate. Qed.

End bpred_blg.
