(* ===== verification/BPredAlloyed.v ===== *)
(** * BPredAlloyed: the alloyed perceptron predictor of
    src/xiosim/ZCOMPS-bpred/bpred-alloyedperceptron.cpp

    A perceptron over a global and a per-address local history: two tables of
    weight rows ([top], [ltop]) share the row index of the branch, the last
    weight of [ltop] is the bias. *)

From S2P Require Import Prelude BPredBase.

Module bpred_alloyedperceptron.

(** Source: src/xiosim/ZCOMPS-bpred/bpred-alloyedperceptron.cpp:29-37 bpred_alloyedperceptron_sc_t.
    [top_entry] and [ltop_entry] point at rows, [lbhr] into [bht]. *)
Record sc : Type := mk_sc {
  top_entry : option Z;
  ltop_entry : option Z;
  lbhr : option Z;
  sum : Z;
  lookup_bhr : Z;
  updated : bool
}.

(** Source: src/xiosim/ZCOMPS-bpred/bpred-alloyedperceptron.cpp:41-60 bpred_alloyedperceptron_t.
    The members the constructor fixes. *)
Record cfg : Type := mk_cfg {
  bht_size : Z;
  bht_mask : Z;
  top_size : Z;
  weight_width : Z;
  weight_max : Z;
  weight_min : Z;
  threshold : Z;
  ghistory_length : Z;
  ghistory_mask : Z;
  lhistory_length : Z;
  lhistory_mask : Z;
  bits : Z
}.

(** Source: src/xiosim/ZCOMPS-bpred/bpred-alloyedperceptron.cpp:42-52 bpred_alloyedperceptron_t. *)
Record t : Type := mk {
  conf : cfg;
  stats : dstats;
  bht : list Z;
  bhr : Z;
  top : list (list Z);
  ltop : list (list Z)
}.

Definition with_stats (s : t) (st : dstats) : t :=
  mk (conf s) st (bht s) (bhr s) (top s) (ltop s).
Definition with_hist (s : t) (l : list Z) (h : Z) : t :=
  mk (conf s) (stats s) l h (top s) (ltop s).
Definition with_weights (s : t) (g l : list (list Z)) : t :=
  mk (conf s) (stats s) (bht s) (bhr s) g l.

(** [(int)rint(floor(1.93*(n+1) + 14.0))] with [n] the two history lengths; the
    double-precision floor is the rational one. *)
Definition threshold_of (n : Z) : Z := 193 * (n + 1) / 100 + 14.

(** [(((uint64_t)1)<<n)-1] *)
Definition mask64 (n : Z) : Z := u64 (u64 (Z.shiftl 1 n) - 1).

(** Source: src/xiosim/ZCOMPS-bpred/bpred-alloyedperceptron.cpp:65-125 bpred_alloyedperceptron_t::bpred_alloyedperceptron_t. *)
Definition create (arg_ghistory_length arg_bht_size arg_lhistory_length arg_top_size : Z)
  : result t :=
  let* _ := guard_or (check_ppow2 arg_bht_size) Fatal in
  let* _ := guard_or (0 <=? arg_ghistory_length) Fatal in
  let* _ := guard_or (0 <=? arg_lhistory_length) Fatal in
  let* _ := guard_or (0 <=? arg_top_size) Fatal in
  let threshold := threshold_of (arg_ghistory_length + arg_lhistory_length) in
  let weight_width :=
    if threshold =? Z.shiftl 1 (Z.log2 threshold) then Z.log2 threshold + 2
    else Z.log2 threshold + 1 in
  Ok (mk (mk_cfg arg_bht_size (arg_bht_size - 1) arg_top_size weight_width
            (Z.shiftl 1 (weight_width - 1) - 1) (- Z.shiftl 1 (weight_width - 1)) threshold
            arg_ghistory_length (mask64 arg_ghistory_length)
            arg_lhistory_length (mask64 arg_lhistory_length)
            (arg_ghistory_length + arg_bht_size * arg_lhistory_length
             + arg_top_size * (arg_ghistory_length + arg_lhistory_length + 1) * weight_width))
         init_stats (replicate (Z.to_nat arg_bht_size) 0) 0
         (replicate (Z.to_nat arg_top_size) (replicate (Z.to_nat arg_ghistory_length) 0))
         (replicate (Z.to_nat arg_top_size) (replicate (Z.to_nat (arg_lhistory_length + 1)) 0))).

(** [x1 = ((h>>i)&1); y1 = ((x1-1)^w)+(1-x1);] the weight, negated in two's
    complement when the history bit is 0. *)
Definition signed_weight (h i w : Z) : Z :=
  let x1 := Z.land (Z.shiftr h i) 1 in Z.lxor (x1 - 1) w + (1 - x1).

(** [sum += y1] over the first [n] weights of a row. *)
Definition add_row (row : list Z) (h n sum : Z) : result Z :=
  for_range 0 n (λ i sum, let* w := aget row i in Ok (i32 (sum + signed_weight h i w))) sum.

(** Source: src/xiosim/ZCOMPS-bpred/bpred-alloyedperceptron.cpp:142-191 bpred_alloyedperceptron_t::lookup. *)
Definition lookup (s : t) (c : sc) (a : bp_args) : result (t * sc * bool) :=
  let k := conf s in
  let l1index := Z.land (PC a) (bht_mask k) in
  let* _ := guard_or (negb (u64 (top_size k) =? 0)) DivByZero in
  let top_index := i32 (PC a mod u64 (top_size k)) in
  let* grow := aget (top s) top_index in
  let* lrow := aget (ltop s) top_index in
  let* lh := aget (bht s) l1index in
  let* sum := add_row grow (bhr s) (ghistory_length k) 0 in
  let* sum := add_row lrow lh (lhistory_length k) sum in
  let* w0 := aget lrow (lhistory_length k) in
  let sum := i32 (sum + w0) in
  Ok (with_stats s (count_lookup (stats s)),
      mk_sc (Some top_index) (Some top_index) (Some l1index) sum (bhr s) false, 0 <=? sum).

(** Up by one below [weight_max], down by one above [weight_min]. *)
Definition train_weight (k : cfg) (diff w : Z) : Z :=
  if 0 <? diff then (if w <? weight_max k then i16 (w + 1) else w)
  else (if weight_min k <? w then i16 (w - 1) else w).

(** Source: src/xiosim/ZCOMPS-bpred/bpred-alloyedperceptron.cpp:223-262 bpred_alloyedperceptron_t::update.
    The training of the two rows; [t] is the outcome as +1 or -1. *)
Definition train (s : t) (c : sc) (t : Z) : result (list (list Z) * list (list Z)) :=
  let k := conf s in
  let* g := deref (top_entry c) in
  let* l := deref (ltop_entry c) in
  let* li := deref (lbhr c) in
  let* lh := aget (bht s) li in
  let* top' := for_range 0 (ghistory_length k) (λ i top,
    amodify2 top g i (train_weight k (signed_weight (lookup_bhr c) i t))) (top s) in
  let* ltop' := for_range 0 (lhistory_length k + 1) (λ i ltop,
    amodify2 ltop l i (train_weight k
      (if i <? lhistory_length k then signed_weight lh i t else t))) (ltop s) in
  Ok (top', ltop').

(** Source: src/xiosim/ZCOMPS-bpred/bpred-alloyedperceptron.cpp:195-266 bpred_alloyedperceptron_t::update. *)
Definition update (s : t) (c : sc) (a : bp_args) (our_pred : bool) : result (t * sc) :=
  let k := conf s in
  let t := 2 * Z.b2z (outcome a) - 1 in
  let y_out := Z.b2z (threshold k <? sum c) - Z.b2z (sum c <? - threshold k) in
  let* w := (if y_out =? t then Ok (top s, ltop s) else train s c t) in
  let* li := deref (lbhr c) in
  let* lh := aget (bht s) li in
  let* bht' := aset (bht s) li
    (Z.land (Z.lor (u64 (Z.shiftl lh 1)) (Z.b2z (outcome a))) (lhistory_mask k)) in
  let bhr' := Z.land (Z.lor (u64 (Z.shiftl (bhr s) 1)) (Z.b2z (outcome a))) (ghistory_mask k) in
  Ok (with_hist (with_weights (with_stats s
        (stats_after_update (stats s) (updated c) (outcome a) our_pred)) w.1 w.2) bht' bhr',
      mk_sc (top_entry c) (ltop_entry c) (lbhr c) (sum c) (lookup_bhr c) true).

(** Source: src/xiosim/ZCOMPS-bpred/bpred-alloyedperceptron.cpp:269-273 bpred_alloyedperceptron_t::spec_update. *)
Definition spec_update (s : t) (c : sc) (our_pred : bool) : result (t * sc) :=
  Ok (with_hist (with_stats s (count_spec_update (stats s))) (bht s)
        (Z.lor (u64 (Z.shiftl (bhr s) 1)) (Z.b2z our_pred)), c).

(** Source: src/xiosim/ZCOMPS-bpred/bpred-alloyedperceptron.cpp:276-280 bpred_alloyedperceptron_t::recover. *)
Definition recover (s : t) (c : sc) (outcome : bool) : result (t * sc) :=
  Ok (with_hist s (bht s) (Z.lor (u64 (Z.shiftl (lookup_bhr c) 1)) (Z.b2z outcome)), c).

(** Source: src/xiosim/ZCOMPS-bpred/bpred-alloyedperceptron.cpp:283-287 bpred_alloyedperceptron_t::flush. *)
Definition flush (s : t) (c : sc) : result (t * sc) :=
  Ok (with_hist s (bht s) (lookup_bhr c), c).

(** Source: src/xiosim/ZCOMPS-bpred/bpred-alloyedperceptron.cpp:307-313 bpred_alloyedperceptron_t::get_cache. *)
Definition get_cache : sc := mk_sc None None None 0 0 false.

#[export] Instance predictor : DirPredictor t sc := {
  dp_stats := stats;
  dp_updated := updated;
  dp_lookup s c a _ := lookup s c a;
  dp_update s c a p _ := update s c a p;
  dp_spec_update s c _ p := spec_update s c p;
  dp_recover := recover;
  dp_flush := flush;
  dp_get_cache _ := get_cache;
  dp_reset_stats s := with_stats s (BPredBase.reset_stats (stats s));
  dp_with_stats := with_stats
}.

(** ** Invariant *)

Definition weight_ok (w : Z) : Prop := -1024 ≤ w ≤ 1023.

Definition wf_cfg (k : cfg) : Prop :=
  1 ≤ bht_size k ∧ bht_mask k = bht_size k - 1 ∧ 1 ≤ top_size k < 2 ^ 31 ∧
  0 ≤ ghistory_length k ≤ 64 ∧ 0 ≤ lhistory_length k ≤ 64 ∧
  -1024 ≤ weight_min k ∧ weight_max k ≤ 1023.

Definition wf (s : t) : Prop :=
  let k := conf s in
  wf_cfg k ∧ Z.of_nat (length (bht s)) = bht_size k ∧
  row_ok (top_size k) (row_ok (ghistory_length k) weight_ok) (top s) ∧
  row_ok (top_size k) (row_ok (lhistory_length k + 1) weight_ok) (ltop s).

Definition ref (s : t) (c : sc) : Prop :=
  (∃ r, top_entry c = Some r ∧ ltop_entry c = Some r ∧ 0 ≤ r < top_size (conf s)) ∧
  (∃ i, lbhr c = Some i ∧ 0 ≤ i < bht_size (conf s)).

(** The branch-free negation is the negation. *)
Lemma signed_weight_spec h i w : 0 ≤ i →
  signed_weight h i w = if Z.testbit h i then w else - w.
Proof.
  intros Hi. unfold signed_weight. assert (Z.land (Z.shiftr h i) 1 = Z.b2z (Z.testbit h i)) as ->.
  { change 1 with (2 ^ 1 - 1). apply Z.bits_inj'. intros n Hn.
    rewrite testbit_land_low, Z.shiftr_spec by lia. destruct (Z.ltb_spec n 1).
    - replace n with 0 by lia. rewrite Z.add_0_l, andb_true_r. by destruct (Z.testbit h i).
    - rewrite andb_false_r. symmetry. apply (testbit_above _ 1); [|lia].
      destruct (Z.testbit h i); simpl; lia. }
  destruct (Z.testbit h i); simpl; [rewrite Z.lxor_0_l|rewrite Z.lxor_m1_l; unfold Z.lnot]; lia.
Qed.

Lemma add_row_ok row h n sum : Forall weight_ok row → 0 ≤ n ≤ Z.of_nat (length row) → n ≤ 64 →
  Z.abs sum ≤ 65536 → wp (add_row row h n sum) (λ x, Z.abs x ≤ Z.abs sum + 1024 * n).
Proof.
  intros HF Hn Hn64 Hs.
  apply (wp_for_range (λ i x, Z.abs x ≤ Z.abs sum + 1024 * i)); [lia|lia| |done].
  intros i x Hi Hx. apply wp_bind. wp_array. rewrite signed_weight_spec by lia.
  match goal with H : weight_ok _ |- _ => unfold weight_ok in H end.
  destruct (Z.testbit h i); rewrite i32_small; lia.
Qed.

Lemma alloyed_train_weight_ok k d w : wf_cfg k → weight_ok w → weight_ok (train_weight k d w).
Proof.
  unfold wf_cfg, weight_ok, train_weight. intros (_ & _ & _ & _ & _ & ? & ?) Hw.
  destruct (_ <? d); [destruct (Z.ltb_spec w (weight_max k))|destruct (Z.ltb_spec (weight_min k) w)];
    rewrite ?i16_small; lia.
Qed.

(** Training a row, weight by weight, keeps the table's shape and the width of
    its weights. *)
Lemma train_rows_ok k n m (top : list (list Z)) r d : wf_cfg k →
  row_ok n (row_ok m weight_ok) top → 0 ≤ r < n → 0 ≤ m →
  wp (for_range 0 m (λ i top, amodify2 top r i (train_weight k (d i))) top)
     (row_ok n (row_ok m weight_ok)).
Proof.
  intros Hk Ht Hr Hm.
  apply (wp_for_range (λ _ top, row_ok n (row_ok m weight_ok) top)); [lia|done| |done].
  intros i top' Hi [Lt HF]. apply wp_bind. eapply wp_aget2; [exact HF|lia|lia|]. intros w _ Hw.
  eapply wp_aset2; [exact HF|lia|lia|by apply alloyed_train_weight_ok|].
  intros l' _ El Hl. split; [by rewrite El|done].
Qed.

Lemma alloyed_train_ok s c t : wf s → ref s c →
  wp (train s c t) (λ w, row_ok (top_size (conf s)) (row_ok (ghistory_length (conf s)) weight_ok) w.1 ∧
    row_ok (top_size (conf s)) (row_ok (lhistory_length (conf s) + 1) weight_ok) w.2).
Proof.
  intros (Hk & Lb & Ht & Hl) ((r & Er & El & Hr) & (i & Ei & Hi)). pose proof Hk as (? & ? & ? & ? & ? & _).
  unfold train. rewrite Er, El, Ei. simpl. apply wp_bind. wp_array.
  apply wp_bind. eapply wp_mono; [apply (train_rows_ok _ _ _ _ _ _ Hk Ht Hr); lia|].
  intros g' Hg. apply wp_bind.
  eapply wp_mono; [apply (train_rows_ok _ _ _ _ _ _ Hk Hl Hr); lia|]. intros l' Hl'. done.
Qed.

Lemma alloyed_keeps_conf s s' : wf s' → conf s' = conf s → keeps wf ref s s'.
Proof. intros Hwf E. split; [done|]. intros c. unfold ref. by rewrite E. Qed.

Lemma bpred_alloyed_create_ok g b l n s : create g b l n = Ok s → 1 ≤ n < 2 ^ 31 →
  g ≤ 64 → l ≤ 64 → wf s ∧ stats s = init_stats.
Proof.
  unfold create. intros E Hn Hg Hl. inv_ok. split; [|done].
  repeat match goal with H : check_ppow2 _ = true |- _ => apply check_ppow2_pos in H end.
  assert (14 ≤ threshold_of (g + l) < 512) as Hth.
  { unfold threshold_of. assert (0 ≤ 193 * (g + l + 1) / 100 < 400); [|lia].
    split; [apply Z.div_pos|apply Z.div_lt_upper_bound]; lia. }
  assert (3 ≤ Z.log2 (threshold_of (g + l)) ≤ 8) as Hlog.
  { split; [change 3 with (Z.log2 14)|change 8 with (Z.log2 511)]; apply Z.log2_le_mono; lia. }
  match goal with |- context [if ?b then ?x else ?y] => set (w := if b then x else y) end.
  assert (4 ≤ w ≤ 10) as Hw by (subst w; destruct (_ =? _); lia).
  assert (2 ^ (w - 1) ≤ 2 ^ 9) by (apply Z.pow_le_mono_r; lia).
  unfold wf, wf_cfg. simpl. rewrite !shiftl_1_l by lia. rewrite length_replicate.
  split; [split_and!; lia|]. split; [lia|].
  split; (apply row_ok_replicate; [lia|]; apply row_ok_replicate; [lia|unfold weight_ok; lia]).
Qed.

#[export] Instance predictor_ok : DirPredictorOk t sc.
Proof.
  refine {| dp_wf := wf; dp_ref := ref |}; simpl; [done|done|..].
  - intros s c a _ Hwf. pose proof Hwf as (Hk & Lb & [Lt Ht] & [Ll Hl]).
    pose proof Hk as (Hb & Em & Hn & Hg & Hlh & _).
    pose proof (land_mask_range (PC a) _ Hb) as R1. rewrite <- Em in R1. unfold lookup.
    rewrite u64_small by lia. apply wp_bind, wp_guard; [by rewrite (proj2 (Z.eqb_neq _ _)) by lia|].
    pose proof (Z.mod_pos_bound (PC a) (top_size (conf s)) ltac:(lia)) as R2.
    rewrite i32_small by lia.
    apply wp_bind. apply (wp_aget_Forall _ _ _ _ Ht); [lia|]. intros grow _ [Ng Fg].
    apply wp_bind. apply (wp_aget_Forall _ _ _ _ Hl); [lia|]. intros lrow _ [Nl Fl].
    apply wp_bind. wp_array. apply wp_bind.
    eapply wp_mono; [apply (add_row_ok grow); (done || simpl; lia)|]. intros s1 H1. simpl in H1.
    apply wp_bind. eapply wp_mono; [apply (add_row_ok lrow); (done || simpl; lia)|].
    intros s2 H2. apply wp_bind. wp_array.
    split_and!; try done. unfold ref. simpl. split; eauto 6.
  - intros s c a p _ Hwf Hr. pose proof Hwf as (Hk & Lb & Ht & Hl).
    pose proof Hr as ((r & Er & El & Hri) & (i & Ei & Hi)). unfold update. apply wp_bind.
    apply (wp_mono _ (λ w,
      row_ok (top_size (conf s)) (row_ok (ghistory_length (conf s)) weight_ok) w.1 ∧
      row_ok (top_size (conf s)) (row_ok (lhistory_length (conf s) + 1) weight_ok) w.2)).
    { destruct (_ =? _); [by split|]. by apply alloyed_train_ok. }
    intros w [Hw1 Hw2]. rewrite Ei. simpl. apply wp_bind. wp_array. apply wp_bind. wp_array.
    split; [|split; [split; eauto|done]]. apply alloyed_keeps_conf; [|done].
    unfold wf. simpl. by rewrite length_insert.
  - done.
  - done.
  - done.
Defined.

(** The global history is shifted once more by every update: a branch that was
    speculatively pushed is pushed again when it commits. *)
Lemma bpred_alloyed_update_pushes_again s c a p s' c' : update s c a p = Ok (s', c') →
  bhr s' = Z.land (Z.lor (u64 (Z.shiftl (bhr s) 1)) (Z.b2z (outcome a))) (ghistory_mask (conf s)).
Proof. unfold update. intros E. by inv_ok. Qed.

(** An empty table is accepted, and divides by zero at the first lookup. *)
Lemma bpred_alloyed_empty_table_divides g b l s c a :
  create g b l 0 = Ok s → lookup s c a = Fault DivByZero.
Proof. unfold create. intros E. by inv_ok. Qed.

End bpred_alloyedperceptron.
