(* ===== verification/BPredStatic.v ===== *)
(** * BPredStatic: the predictors without tables, src/xiosim/ZCOMPS-bpred/
    bpred-taken.cpp, bpred-nottaken.cpp, bpred-btfnt.cpp, bpred-perfect.cpp,
    bpred-random.cpp and bpred-magic.cpp

    Their state is the statistics of the base class (and a counter of taken
    branches for random and magic); they keep no history. *)

From S2P Require Import Prelude BPredBase.

Module bpred_static.

(** Source: src/xiosim/ZCOMPS-bpred/bpred-taken.cpp:31-36 bpred_taken_t::lookup. *)
Definition taken_lookup (a : bp_args) : bool := true.

(** Source: src/xiosim/ZCOMPS-bpred/bpred-nottaken.cpp:31-36 bpred_nottaken_t::lookup. *)
Definition nottaken_lookup (a : bp_args) : bool := false.

(** Source: src/xiosim/ZCOMPS-bpred/bpred-btfnt.cpp:32-37 bpred_btfnt_t::lookup. *)
Definition btfnt_lookup (a : bp_args) : bool := tPC a <? PC a.

(** Source: src/xiosim/ZCOMPS-bpred/bpred-perfect.cpp:31-36 bpred_perfect_t::lookup. *)
Definition perfect_lookup (a : bp_args) : bool := outcome a.

(** The value drawn from [random()] decides, when the class draws one. *)
(** Source: src/xiosim/ZCOMPS-bpred/bpred-random.cpp:35-41 bpred_random_t::lookup. *)
Definition random_lookup (rnd : Z) (a : bp_args) : bool := negb (Z.land rnd 1 =? 0).

(** [below rnd] is the test [random()/float(RAND_MAX) < hit_rate].
    Source: src/xiosim/ZCOMPS-bpred/bpred-magic.cpp:38-49 bpred_magic_t::lookup. *)
Definition magic_lookup (below : Z → bool) (rnd : Z) (a : bp_args) : bool :=
  if below rnd then outcome a else negb (outcome a).

(** Which of the classes an object belongs to. *)
Inductive kind : Type :=
  | taken | nottaken | btfnt | perfect | random | magic (below : Z → bool).

(** [num_taken] is random's and magic's; their constructors leave it
    uninitialised, its first value is an argument of [create]. *)
Record t : Type := mk { class : kind; stats : dstats; num_taken : Z }.

Definition create (k : kind) (garbage : Z) : t := mk k init_stats garbage.

Definition lookup (s : t) (c : bpred_sc_t) (a : bp_args) (rnd : Z) : result (t * bpred_sc_t * bool) :=
  Ok (mk (class s) (count_lookup (stats s)) (num_taken s), mk_bpred_sc false,
      match class s with
      | taken => taken_lookup a
      | nottaken => nottaken_lookup a
      | btfnt => btfnt_lookup a
      | perfect => perfect_lookup a
      | random => random_lookup rnd a
      | magic below => magic_lookup below rnd a
      end).

(** Source: src/xiosim/ZCOMPS-bpred/bpred-random.cpp:44-54 bpred_random_t::update.
    The others have the update of the base class (magic the same as random). *)
Definition update (s : t) (c : bpred_sc_t) (a : bp_args) (our_pred : bool)
  : result (t * bpred_sc_t) :=
  let counts := match class s with random | magic _ => true | _ => false end in
  let n := if counts && outcome a && negb (frozen (stats s)) && negb (sc_updated c)
           then num_taken s + 1 else num_taken s in
  let '(st, c') := base_update (stats s) c a our_pred in
  Ok (mk (class s) st n, c').

(** Source: src/xiosim/ZCOMPS-bpred/bpred-random.cpp:71-75 bpred_random_t::reset_stats. *)
Definition random_reset_stats (s : t) : t := mk (class s) (BPredBase.reset_stats (stats s)) 0.

#[export] Instance predictor : DirPredictor t bpred_sc_t := {
  dp_stats := stats;
  dp_updated := sc_updated;
  dp_lookup := lookup;
  dp_update s c a p _ := update s c a p;
  dp_spec_update s c _ _ := Ok (mk (class s) (base_spec_update (stats s)) (num_taken s), c);
  dp_recover := base_recover;
  dp_flush := base_flush;
  dp_get_cache _ := base_get_cache;
  dp_reset_stats s :=
    match class s with
    | random => random_reset_stats s
    | _ => mk (class s) (BPredBase.reset_stats (stats s)) (num_taken s)
    end;
  dp_with_stats s st := mk (class s) st (num_taken s)
}.

#[export] Instance predictor_ok : DirPredictorOk t bpred_sc_t.
Proof.
  refine {| dp_wf := λ _, True; dp_ref := λ _ _, True |}; simpl; try done.
  { intros s _. by destruct (class s). }
  intros s c a p _ _ _. unfold update, base_update, stats_after_update.
  by destruct (sc_updated c) eqn:E.
Defined.

(** The prediction a lookup returns, when the container is updated with it and
    the statistics are not frozen, counts as a hit exactly when it is right. *)
Lemma perfect_predictor_always_hits s c a rnd s1 c1 p s2 c2 :
  class s = perfect → frozen (stats s) = false →
  lookup s c a rnd = Ok (s1, c1, p) → update s1 c1 a p = Ok (s2, c2) →
  num_hits (stats s2) = num_hits (stats s) + 1 ∧ updates (stats s2) = updates (stats s) + 1.
Proof.
  destruct s as [k [h l u su f] n]. unfold lookup, update. simpl. intros -> -> [= <- <- <-] E.
  unfold perfect_lookup in E. simpl in E. rewrite eqb_reflx in E. by injection E as <- <-.
Qed.

End bpred_static.
