(* ===== verification/FusionBase.v ===== *)
(** * FusionBase: the interface of the meta-predictors

    [fusion_t] of src/xiosim/zesto-bpred.h: a meta-predictor combines the
    directions of the component predictors ([preds]) into one.  [Fusion] is the
    virtual interface, [FusionOk] what every implementation promises to
    [bpred_t]: no fault, the containers stay valid, the statistics count. *)

From S2P Require Import Prelude BPredBase.

(** Source: src/xiosim/zesto-bpred.cpp:316-331 fusion_t::update. *)
Definition fusion_base_update (st : dstats) (sc : bpred_sc_t) (preds : list bool) (a : bp_args)
    (our_pred : bool) : dstats * bpred_sc_t :=
  if negb (sc_updated sc) then
    (count_update st (Bool.eqb our_pred (outcome a)), mk_bpred_sc true)
  else (st, sc).

(** Source: src/xiosim/zesto-bpred.cpp:333-345 fusion_t::spec_update. *)
Definition fusion_base_spec_update (st : dstats) : dstats := count_spec_update st.

(** Source: src/xiosim/zesto-bpred.cpp:347-352 fusion_t::recover. *)
Definition fusion_base_recover {S C : Type} (s : S) (sc : C) (outcome : bool) : result (S * C) :=
  Ok (s, sc).

(** Source: src/xiosim/zesto-bpred.cpp:354-357 fusion_t::flush. *)
Definition fusion_base_flush {S C : Type} (s : S) (sc : C) : result (S * C) := Ok (s, sc).

(** Source: src/xiosim/zesto-bpred.cpp:307-314 fusion_t::init. *)
Definition fusion_init : dstats := mk_dstats 0 0 0 0 false.

(** Source: src/xiosim/zesto-bpred.cpp:391-397 fusion_t::reset_stats. *)
Definition fusion_reset_stats (st : dstats) : dstats := mk_dstats 0 0 0 0 (frozen st).

(** Source: src/xiosim/zesto-bpred.cpp:399-405 fusion_t::get_cache. *)
Definition fusion_base_get_cache : bpred_sc_t := mk_bpred_sc false.

(** Source: src/xiosim/zesto-bpred.h:255-316 fusion_t. *)
Class Fusion (S C : Type) := {
  fu_stats : S → dstats;
  fu_num_pred : S → Z;
  fu_updated : C → bool;
  fu_lookup : S → C → list bool → bp_args → Z → result (S * C * bool);
  fu_update : S → C → list bool → bp_args → bool → result (S * C);
  fu_spec_update : S → C → list bool → bp_args → bool → result (S * C);
  fu_recover : S → C → bool → result (S * C);
  fu_flush : S → C → result (S * C);
  fu_get_cache : S → C;
  fu_reset_stats : S → S;
  fu_with_stats : S → dstats → S
}.

Class FusionOk (S C : Type) `{FU : !Fusion S C} := {
  fu_wf : S → Prop;
  fu_ref : S → C → Prop;
  fu_reset_ok : ∀ s, fu_wf s → keeps fu_wf fu_ref s (fu_reset_stats s) ∧
    fu_num_pred (fu_reset_stats s) = fu_num_pred s ∧
    fu_stats (fu_reset_stats s) = fusion_reset_stats (fu_stats s);
  fu_with_stats_ok : ∀ s st, fu_wf s → keeps fu_wf fu_ref s (fu_with_stats s st) ∧
    fu_num_pred (fu_with_stats s st) = fu_num_pred s ∧ fu_stats (fu_with_stats s st) = st;
  fu_lookup_ok : ∀ s c preds a rnd, fu_wf s → Z.of_nat (length preds) = fu_num_pred s →
    wp (fu_lookup s c preds a rnd) (λ '(s', c', _),
      keeps fu_wf fu_ref s s' ∧ fu_num_pred s' = fu_num_pred s ∧ fu_ref s' c' ∧
      fu_stats s' = count_lookup (fu_stats s) ∧ fu_updated c' = false);
  fu_update_ok : ∀ s c preds a our_pred, fu_wf s → fu_ref s c →
    Z.of_nat (length preds) = fu_num_pred s →
    wp (fu_update s c preds a our_pred) (λ '(s', c'),
      keeps fu_wf fu_ref s s' ∧ fu_num_pred s' = fu_num_pred s ∧ fu_ref s' c' ∧
      fu_stats s' = stats_after_update (fu_stats s) (fu_updated c) (outcome a) our_pred ∧
      fu_updated c' = true);
  fu_spec_update_ok : ∀ s c preds a our_pred, fu_wf s → fu_ref s c →
    Z.of_nat (length preds) = fu_num_pred s →
    wp (fu_spec_update s c preds a our_pred) (λ '(s', c'),
      keeps fu_wf fu_ref s s' ∧ fu_num_pred s' = fu_num_pred s ∧ fu_ref s' c' ∧
      fu_stats s' = count_spec_update (fu_stats s) ∧ fu_updated c' = fu_updated c);
  fu_recover_ok : ∀ s c o, fu_wf s → fu_ref s c →
    wp (fu_recover s c o) (λ '(s', c'),
      keeps fu_wf fu_ref s s' ∧ fu_num_pred s' = fu_num_pred s ∧ fu_ref s' c' ∧
      fu_stats s' = fu_stats s ∧ fu_updated c' = fu_updated c);
  fu_flush_ok : ∀ s c, fu_wf s → fu_ref s c →
    wp (fu_flush s c) (λ '(s', c'),
      keeps fu_wf fu_ref s s' ∧ fu_num_pred s' = fu_num_pred s ∧ fu_ref s' c' ∧
      fu_stats s' = fu_stats s ∧ fu_updated c' = fu_updated c)
}.

(** The direction of component [i]. *)
Definition pred_at (preds : list bool) (i : Z) : result bool := aget preds i.

Lemma base_update_stats st c preds a p :
  (fusion_base_update st c preds a p).1 = stats_after_update st (sc_updated c) (outcome a) p ∧
  sc_updated (fusion_base_update st c preds a p).2 = true.
Proof. unfold fusion_base_update, stats_after_update. by destruct (sc_updated c) eqn:E. Qed.
