(* ===== verification/FusionTables.v ===== *)
(** * FusionTables: the meta-predictors without tables, and those of two-bit counters

    Without tables: fusion-singleton.cpp, fusion-random.cpp and fusion-oracle.cpp of
    src/xiosim/ZCOMPS-fusion.

    With tables: the McFarling, multi-hybrid and priority meta-predictors
    (src/xiosim/ZCOMPS-fusion/fusion-mcfarling.cpp, fusion-multihybrid.cpp,
    fusion-priority.cpp).

    Tables of two-bit counters, indexed by the branch address, that learn which
    component to follow. *)

From S2P Require Import Prelude SatCounter BPredBase FusionBase.

Module fusion_simple.

(** Source: src/xiosim/ZCOMPS-fusion/fusion-singleton.cpp:31-36 fusion_singleton_t::lookup. *)
Definition singleton_lookup (preds : list bool) : result bool := aget preds 0.

(** [random()%num_pred] *)
(** Source: src/xiosim/ZCOMPS-fusion/fusion-random.cpp:33-39 fusion_random_t::lookup. *)
Definition random_lookup (num_pred : Z) (preds : list bool) (rnd : Z) : result bool :=
  if num_pred =? 0 then Fault DivByZero else aget preds (Z.rem rnd num_pred).

(** The oracle picks a component that is right, when there is one.
    Source: src/xiosim/ZCOMPS-fusion/fusion-oracle.cpp:39-56 fusion_oracle_t::lookup. *)
Definition oracle_lookup (num_pred : Z) (preds : list bool) (a : bp_args) : result bool :=
  let* i := find_range 0 num_pred (λ i, let* p := aget preds i in Ok (Bool.eqb p (outcome a))) in
  Ok (match i with Some _ => outcome a | None => negb (outcome a) end).

Inductive kind : Type := singleton | random | oracle.

(** [random()] returns a nonnegative [long]: [rnd mod 2^31]. *)
Record t : Type := mk { class : kind; num_pred : Z; stats : dstats }.

(** The constructors; singleton sets [num_pred] to 1. *)
Definition create (k : kind) (arg_num_pred : Z) : t :=
  mk k (match k with singleton => 1 | _ => arg_num_pred end) fusion_init.

Definition lookup (s : t) (c : bpred_sc_t) (preds : list bool) (a : bp_args) (rnd : Z)
  : result (t * bpred_sc_t * bool) :=
  let* p := match class s with
            | singleton => singleton_lookup preds
            | random => random_lookup (num_pred s) preds (rnd mod 2 ^ 31)
            | oracle => oracle_lookup (num_pred s) preds a
            end in
  Ok (mk (class s) (num_pred s) (count_lookup (stats s)), mk_bpred_sc false, p).

(** Source: src/xiosim/ZCOMPS-fusion/fusion-oracle.cpp:61-69 fusion_oracle_t::update.
    The same as the base class's, which the other two have. *)
Definition update (s : t) (c : bpred_sc_t) (preds : list bool) (a : bp_args) (our_pred : bool)
  : result (t * bpred_sc_t) :=
  let x := fusion_base_update (stats s) c preds a our_pred in
  Ok (mk (class s) (num_pred s) x.1, x.2).

#[export] Instance meta : Fusion t bpred_sc_t := {
  fu_stats := stats;
  fu_num_pred := num_pred;
  fu_updated := sc_updated;
  fu_lookup := lookup;
  fu_update := update;
  fu_spec_update s c _ _ _ :=
    Ok (mk (class s) (num_pred s) (fusion_base_spec_update (stats s)), c);
  fu_recover := fusion_base_recover;
  fu_flush := fusion_base_flush;
  fu_get_cache _ := fusion_base_get_cache;
  fu_reset_stats s := mk (class s) (num_pred s) (fusion_reset_stats (stats s));
  fu_with_stats s st := mk (class s) (num_pred s) st
}.

Definition wf (s : t) : Prop := 1 ≤ num_pred s.

Lemma oracle_lookup_spec n preds a : Z.of_nat (length preds) = n →
  oracle_lookup n preds a =
  Ok (if bool_decide (outcome a ∈ preds) then outcome a else negb (outcome a)).
Proof.
  intros Hn. enough (wp (oracle_lookup n preds a)
    (λ p, p = if bool_decide (outcome a ∈ preds) then outcome a else negb (outcome a))) as H
    by (apply wp_exists in H as (p & -> & ->); done).
  unfold oracle_lookup. apply wp_bind, wp_find_range; [lia| | |].
  - intros i Hi. apply wp_bind. by wp_array.
  - intros i Hi E _. simpl. apply bind_Ok_inv in E as (p & Ep & E). injection E as E.
    apply eqb_prop in E as ->. apply aget_inv in Ep as [_ Ep].
    rewrite bool_decide_true; [done|]. by eapply list_elem_of_lookup_2.
  - intros Hno. simpl. rewrite bool_decide_false; [done|].
    intros (i & Hi)%list_elem_of_lookup_1. pose proof (lookup_lt_Some _ _ _ Hi).
    specialize (Hno (Z.of_nat i) ltac:(lia)). unfold aget in Hno.
    rewrite (proj2 (Z.ltb_ge _ _)), Nat2Z.id, Hi in Hno by lia. simpl in Hno.
    by rewrite eqb_reflx in Hno.
Qed.

#[export] Instance meta_ok : FusionOk t bpred_sc_t.
Proof.
  refine {| fu_wf := wf; fu_ref := λ _ _, True |}; simpl; try done.
  - intros s c preds a rnd Hwf Hn. unfold wf in Hwf. apply wp_bind.
    apply (wp_mono _ (λ _, True)); [|done].
    destruct (class s).
    + unfold singleton_lookup. by wp_array.
    + unfold random_lookup. rewrite (proj2 (Z.eqb_neq _ _)) by lia.
      pose proof (Z.mod_pos_bound rnd (2 ^ 31) ltac:(lia)).
      pose proof (Z.rem_bound_pos (rnd mod 2 ^ 31) (num_pred s) ltac:(lia) ltac:(lia)). by wp_array.
    + by rewrite oracle_lookup_spec.
  - intros s c preds a p Hwf _ Hn. simpl.
    destruct (base_update_stats (stats s) c preds a p) as [-> ->]. done.
Defined.

End fusion_simple.

Module fusion_mcfarling.

(** Source: src/xiosim/ZCOMPS-fusion/fusion-mcfarling.cpp:22-25 fusion_mcfarling_t. *)
Record t : Type := mk {
  stats : dstats;
  num_pred : Z;
  meta_size : Z;
  meta_mask : Z;
  meta : list my2bc_t;
  bits : Z
}.

Definition with_stats (s : t) (st : dstats) : t :=
  mk st (num_pred s) (meta_size s) (meta_mask s) (meta s) (bits s).

(** Source: src/xiosim/ZCOMPS-fusion/fusion-mcfarling.cpp:30-52 fusion_mcfarling_t::fusion_mcfarling_t. *)
Definition create (arg_num_pred arg_meta_size : Z) : result t :=
  let* _ := guard_or (check_ppow2 arg_meta_size) Fatal in
  let* _ := guard_or (arg_num_pred =? 2) Fatal in
  Ok (mk fusion_init arg_num_pred arg_meta_size (arg_meta_size - 1)
        (replicate (Z.to_nat arg_meta_size) 0) (arg_meta_size * 2)).

(** Source: src/xiosim/ZCOMPS-fusion/fusion-mcfarling.cpp:61-69 fusion_mcfarling_t::lookup. *)
Definition lookup (s : t) (c : bpred_sc_t) (preds : list bool) (a : bp_args)
  : result (t * bpred_sc_t * bool) :=
  let index := Z.land (PC a) (meta_mask s) in
  let* ctr := aget (meta s) index in
  let* p := aget preds (MY2BC_DIR ctr) in
  Ok (mk (count_lookup (stats s)) (num_pred s) (meta_size s) (meta_mask s) (meta s) (bits s),
      mk_bpred_sc false, p).

(** Source: src/xiosim/ZCOMPS-fusion/fusion-mcfarling.cpp:72-90 fusion_mcfarling_t::update. *)
Definition update (s : t) (c : bpred_sc_t) (preds : list bool) (a : bp_args) (our_pred : bool)
  : result (t * bpred_sc_t) :=
  let index := Z.land (PC a) (meta_mask s) in
  let st := stats_after_update (stats s) (sc_updated c) (outcome a) our_pred in
  let* p0 := aget preds 0 in
  let* p1 := aget preds 1 in
  let* meta' :=
    (if xorb p0 p1 then
       amodify (meta s) index (λ x, MY2BC_UPDATE x (Bool.eqb p1 (outcome a)))
     else Ok (meta s)) in
  Ok (mk st (num_pred s) (meta_size s) (meta_mask s) meta' (bits s), mk_bpred_sc true).

#[export] Instance meta_pred : Fusion t bpred_sc_t := {
  fu_stats := stats;
  fu_num_pred := num_pred;
  fu_updated := sc_updated;
  fu_lookup s c preds a _ := lookup s c preds a;
  fu_update := update;
  fu_spec_update s c _ _ _ :=
    Ok (mk (fusion_base_spec_update (stats s)) (num_pred s) (meta_size s) (meta_mask s) (meta s)
          (bits s), c);
  fu_recover := fusion_base_recover;
  fu_flush := fusion_base_flush;
  fu_get_cache _ := fusion_base_get_cache;
  fu_reset_stats s := with_stats s (fusion_reset_stats (stats s));
  fu_with_stats := with_stats
}.

Definition wf (s : t) : Prop :=
  num_pred s = 2 ∧ 1 ≤ meta_size s ∧ meta_mask s = meta_size s - 1 ∧
  row_ok (meta_size s) ctr_ok (meta s).

Lemma fusion_mcfarling_create_ok n m s : create n m = Ok s → wf s ∧ stats s = init_stats.
Proof.
  unfold create. intros E. inv_ok. split; [|done].
  match goal with H : check_ppow2 _ = true |- _ => apply check_ppow2_pos in H end.
  match goal with H : (_ =? 2) = true |- _ => apply Z.eqb_eq in H end.
  unfold wf. simpl. split_and!; try done; try lia. apply row_ok_replicate; [lia|done].
Qed.

Lemma dir_range x : 0 ≤ MY2BC_DIR x ≤ 1.
Proof. apply land_bound. lia. Qed.

Lemma mcfarling_index_range s pc : wf s → 0 ≤ Z.land pc (meta_mask s) < meta_size s.
Proof. intros (_ & H & -> & _). by apply land_mask_range. Qed.

#[export] Instance meta_ok : FusionOk t bpred_sc_t.
Proof.
  refine {| fu_wf := wf; fu_ref := λ _ _, True |}; simpl; try done.
  - intros s c preds a _ Hwf Hn. pose proof (mcfarling_index_range s (PC a) Hwf).
    pose proof Hwf as (H2 & _ & _ & Hm). unfold lookup.
    apply wp_bind. eapply wp_aget_row; [exact Hm|done|]. intros x _.
    pose proof (dir_range x). apply wp_bind. by wp_array.
  - intros s c preds a p Hwf _ Hn. pose proof (mcfarling_index_range s (PC a) Hwf).
    pose proof Hwf as (H2 & ? & ? & Hm). unfold update.
    apply wp_bind. wp_array. apply wp_bind. wp_array. apply wp_bind.
    apply (wp_mono _ (row_ok (meta_size s) ctr_ok)); [|done]. destruct (xorb _ _); [|done].
    eapply wp_amodify_row; [exact Hm|done|intros; apply MY2BC_UPDATE_ok|done].
Defined.

End fusion_mcfarling.

Module fusion_multihybrid.

(** Source: src/xiosim/ZCOMPS-fusion/fusion-multihybrid.cpp:24-33 meta_selection. *)
Definition meta_selection : list (list (list Z)) :=
  [[[0; 0]; [1; 1]]; [[2; 3]; [2; 3]]].

(** Source: src/xiosim/ZCOMPS-fusion/fusion-multihybrid.cpp:37-43 fusion_multihybrid_t. *)
Record t : Type := mk {
  stats : dstats;
  num_pred : Z;
  meta_size : Z;
  meta_mask : Z;
  meta : list (list my2bc_t);
  meta_direction : Z;
  bits : Z
}.

Definition with_stats (s : t) (st : dstats) : t :=
  mk st (num_pred s) (meta_size s) (meta_mask s) (meta s) (meta_direction s) (bits s).

(** Source: src/xiosim/ZCOMPS-fusion/fusion-multihybrid.cpp:48-83 fusion_multihybrid_t::fusion_multihybrid_t. *)
Definition create (arg_num_pred arg_meta_size : Z) : result t :=
  let* _ := guard_or (check_ppow2 arg_meta_size) Fatal in
  let* _ := guard_or (arg_num_pred =? 4) Fatal in
  let odd i := negb (Z.land i 1 =? 0) in
  Ok (mk fusion_init arg_num_pred arg_meta_size (arg_meta_size - 1)
        [replicate (Z.to_nat arg_meta_size) 3;
         (λ i, if odd i then MY2BC_WEAKLY_NT else MY2BC_WEAKLY_TAKEN) <$> seqZ 0 arg_meta_size;
         (λ i, if odd i then MY2BC_WEAKLY_TAKEN else MY2BC_WEAKLY_NT) <$> seqZ 0 arg_meta_size]
        0 (arg_meta_size * 7)).

(** Source: src/xiosim/ZCOMPS-fusion/fusion-multihybrid.cpp:95-108 fusion_multihybrid_t::lookup. *)
Definition lookup (s : t) (c : bpred_sc_t) (preds : list bool) (a : bp_args)
  : result (t * bpred_sc_t * bool) :=
  let index := Z.land (PC a) (meta_mask s) in
  let* m0 := aget2 (meta s) 0 index in
  let* m1 := aget2 (meta s) 1 index in
  let* m2 := aget2 (meta s) 2 index in
  let* row := aget meta_selection (Z.shiftr m0 2) in
  let* dir := aget2 row (MY2BC_DIR m1) (MY2BC_DIR m2) in
  let* p := aget preds dir in
  Ok (mk (count_lookup (stats s)) (num_pred s) (meta_size s) (meta_mask s) (meta s) dir (bits s),
      mk_bpred_sc false, p).

(** Source: src/xiosim/ZCOMPS-fusion/fusion-multihybrid.cpp:111-150 fusion_multihybrid_t::update. *)
Definition update (s : t) (c : bpred_sc_t) (preds : list bool) (a : bp_args) (our_pred : bool)
  : result (t * bpred_sc_t) :=
  let index := Z.land (PC a) (meta_mask s) in
  let st := stats_after_update (stats s) (sc_updated c) (outcome a) our_pred in
  let* m1 := aget2 (meta s) 1 index in
  let* m2 := aget2 (meta s) 2 index in
  let* lo := aget preds (MY2BC_DIR m1) in
  let* hi := aget preds (2 + MY2BC_DIR m2) in
  let* meta :=
    (if xorb lo hi then
       amodify2 (meta s) 0 index (λ x,
         if Bool.eqb hi (outcome a) then (if x <? 7 then x + 1 else x)
         else (if 0 <? x then x - 1 else x))
     else Ok (meta s)) in
  let* p0 := aget preds 0 in
  let* p1 := aget preds 1 in
  let* meta :=
    (if xorb p0 p1 then amodify2 meta 1 index (λ x, MY2BC_UPDATE x (Bool.eqb p1 (outcome a)))
     else Ok meta) in
  let* p2 := aget preds 2 in
  let* p3 := aget preds 3 in
  let* meta :=
    (if xorb p2 p3 then amodify2 meta 2 index (λ x, MY2BC_UPDATE x (Bool.eqb p3 (outcome a)))
     else Ok meta) in
  Ok (mk st (num_pred s) (meta_size s) (meta_mask s) meta (meta_direction s) (bits s),
      mk_bpred_sc true).

#[export] Instance meta_pred : Fusion t bpred_sc_t := {
  fu_stats := stats;
  fu_num_pred := num_pred;
  fu_updated := sc_updated;
  fu_lookup s c preds a _ := lookup s c preds a;
  fu_update := update;
  fu_spec_update s c _ _ _ := Ok (with_stats s (fusion_base_spec_update (stats s)), c);
  fu_recover := fusion_base_recover;
  fu_flush := fusion_base_flush;
  fu_get_cache _ := fusion_base_get_cache;
  fu_reset_stats s := with_stats s (fusion_reset_stats (stats s));
  fu_with_stats := with_stats
}.

(** The top-level counter is a three-bit one, the other two are two-bit. *)
Definition meta_ok_at (i : nat) (x : Z) : Prop := if decide (i = 0%nat) then 0 ≤ x ≤ 7 else ctr_ok x.

Definition meta_table_ok (n : Z) (l : list (list my2bc_t)) : Prop :=
  length l = 3%nat ∧ ragged (λ _, n) meta_ok_at l.

Definition wf (s : t) : Prop :=
  num_pred s = 4 ∧ 1 ≤ meta_size s ∧ meta_mask s = meta_size s - 1 ∧
  meta_table_ok (meta_size s) (meta s).

Lemma fusion_multihybrid_create_ok n m s : create n m = Ok s → wf s ∧ stats s = init_stats.
Proof.
  unfold create. intros E. inv_ok. split; [|done].
  match goal with H : check_ppow2 _ = true |- _ => apply check_ppow2_pos in H end.
  match goal with H : (_ =? 4) = true |- _ => apply Z.eqb_eq in H end.
  pose proof weak_states_ok as (? & ? & _).
  unfold wf. simpl. split_and!; try done; try lia.
  split; [done|]. intros i row Hi. destruct i as [|[|[|]]]; simpl in Hi; try done; injection Hi as <-.
  - apply row_ok_replicate; [lia|]. unfold meta_ok_at. simpl. lia.
  - split; [rewrite length_fmap, length_seqZ; lia|].
    apply Forall_fmap, Forall_true. intros x. unfold meta_ok_at. simpl. by destruct (negb _).
  - split; [rewrite length_fmap, length_seqZ; lia|].
    apply Forall_fmap, Forall_true. intros x. unfold meta_ok_at. simpl. by destruct (negb _).
Qed.

Lemma wp_meta_get n l i j (Q : Z → Prop) : meta_table_ok n l → 0 ≤ i < 3 → 0 ≤ j < n →
  (∀ x, aget2 l i j = Ok x → meta_ok_at (Z.to_nat i) x → Q x) → wp (aget2 l i j) Q.
Proof. intros [Hl HR] Hi Hj HQ. eapply wp_aget2_ragged; [exact HR|lia|done|done]. Qed.

Lemma wp_meta_modify n l i j f (b : bool) (Q : list (list Z) → Prop) : meta_table_ok n l →
  0 ≤ i < 3 → 0 ≤ j < n → (∀ x, meta_ok_at (Z.to_nat i) x → meta_ok_at (Z.to_nat i) (f x)) →
  (∀ l', meta_table_ok n l' → Q l') → wp (if b then amodify2 l i j f else Ok l) Q.
Proof.
  intros Hl Hi Hj Hf HQ. destruct b; [|by apply HQ]. destruct Hl as [Hl HR].
  eapply wp_amodify2_ragged; [exact HR|lia|done|done|].
  intros l' El Hl'. apply HQ. split; [lia|done].
Qed.

Lemma dir_cases x : MY2BC_DIR x = 0 ∨ MY2BC_DIR x = 1.
Proof. pose proof (land_bound x 1). unfold MY2BC_DIR. lia. Qed.

(** The component a lookup follows: the top-level counter chooses between the
    pairs 0/1 and 2/3, the pair's counter between its two members. *)
Lemma lookup_selects s c preds a : wf s → Z.of_nat (length preds) = 4 →
  wp (lookup s c preds a) (λ '(s', c', p),
    s' = mk (count_lookup (stats s)) (num_pred s) (meta_size s) (meta_mask s) (meta s)
           (meta_direction s') (bits s) ∧ c' = mk_bpred_sc false ∧
    ∃ m0 m1 m2, aget2 (meta s) 0 (Z.land (PC a) (meta_mask s)) = Ok m0 ∧
      aget2 (meta s) 1 (Z.land (PC a) (meta_mask s)) = Ok m1 ∧
      aget2 (meta s) 2 (Z.land (PC a) (meta_mask s)) = Ok m2 ∧
      aget preds (if m0 <? 4 then MY2BC_DIR m1 else 2 + MY2BC_DIR m2) = Ok p).
Proof.
  intros Hwf Hn. pose proof Hwf as (H4 & Hs & Em & Hm). unfold lookup.
  pose proof (land_mask_range (PC a) _ Hs) as R. rewrite <- Em in R.
  apply wp_bind, (wp_meta_get _ _ _ _ _ Hm); [lia|done|]. intros m0 E0 H0.
  apply wp_bind, (wp_meta_get _ _ _ _ _ Hm); [lia|done|]. intros m1 E1 _.
  apply wp_bind, (wp_meta_get _ _ _ _ _ Hm); [lia|done|]. intros m2 E2 _.
  unfold meta_ok_at in H0. simpl in H0.
  assert (Z.shiftr m0 2 = if m0 <? 4 then 0 else 1) as ->.
  { rewrite Z.shiftr_div_pow2 by lia. change (2 ^ 2) with 4. destruct (Z.ltb_spec m0 4).
    - apply Z.div_small. lia.
    - symmetry. apply (Z.div_unique _ _ _ (m0 - 4)); lia. }
  assert (∀ d, 0 ≤ d < 4 → wp (aget preds d) (λ p, aget preds d = Ok p)) as Hp.
  { intros d Hd. destruct (aget_ok preds d ltac:(lia)) as (p & _ & E). by rewrite E. }
  destruct (m0 <? 4) eqn:E4, (dir_cases m1) as [D1|D1], (dir_cases m2) as [D2|D2];
    rewrite D1, D2; simpl;
    (apply wp_bind; eapply wp_mono; [apply Hp; lia|]); intros p Ep; simpl;
    (split_and!; [done|done|]); exists m0, m1, m2; rewrite E4, ?D1, ?D2; by split_and!.
Qed.

#[export] Instance meta_ok : FusionOk t bpred_sc_t.
Proof.
  refine {| fu_wf := wf; fu_ref := λ _ _, True |}; simpl; try done.
  - intros s c preds a _ Hwf Hn. eapply wp_mono; [apply lookup_selects; [done|]|].
    { destruct Hwf as (E & _). lia. }
    intros [[s' c'] p] (-> & -> & _). done.
  - intros s c preds a p Hwf _ Hn. pose proof Hwf as (H4 & Hs & Em & Hm). unfold update.
    pose proof (land_mask_range (PC a) _ Hs) as R. rewrite <- Em in R.
    apply wp_bind, (wp_meta_get _ _ _ _ _ Hm); [lia|done|]. intros m1 _ _.
    apply wp_bind, (wp_meta_get _ _ _ _ _ Hm); [lia|done|]. intros m2 _ _.
    pose proof (dir_cases m1). pose proof (dir_cases m2).
    apply wp_bind. wp_array. apply wp_bind. wp_array. apply wp_bind.
    apply (wp_meta_modify (meta_size s)); [done|lia|done| |].
    { unfold meta_ok_at. simpl. intros y ?. destruct (Bool.eqb _ _);
        [destruct (Z.ltb_spec y 7)|destruct (Z.ltb_spec 0 y)]; lia. }
    intros l0 Hl0. apply wp_bind. wp_array. apply wp_bind. wp_array. apply wp_bind.
    apply (wp_meta_modify (meta_size s)); [done|lia|done|intros; apply MY2BC_UPDATE_ok|].
    intros l1 Hl1. apply wp_bind. wp_array. apply wp_bind. wp_array. apply wp_bind.
    apply (wp_meta_modify (meta_size s)); [done|lia|done|intros; apply MY2BC_UPDATE_ok|].
    intros l2 Hl2. done.
Defined.

End fusion_multihybrid.

Module fusion_priority.

(** Source: src/xiosim/ZCOMPS-fusion/fusion-priority.cpp:21-25 fusion_priority_t. *)
Record t : Type := mk {
  stats : dstats;
  num_pred : Z;
  meta_size : Z;
  meta_mask : Z;
  meta : list (list my2bc_t);
  bits : Z
}.

Definition with_stats (s : t) (st : dstats) : t :=
  mk st (num_pred s) (meta_size s) (meta_mask s) (meta s) (bits s).
Definition with_meta (s : t) (l : list (list my2bc_t)) : t :=
  mk (stats s) (num_pred s) (meta_size s) (meta_mask s) l (bits s).

(** Source: src/xiosim/ZCOMPS-fusion/fusion-priority.cpp:30-60 fusion_priority_t::fusion_priority_t. *)
Definition create (arg_num_pred arg_meta_size : Z) : result t :=
  let* _ := guard_or (check_ppow2 arg_meta_size) Fatal in
  Ok (mk fusion_init arg_num_pred arg_meta_size (arg_meta_size - 1)
        (replicate (Z.to_nat arg_meta_size) (replicate (Z.to_nat arg_num_pred) 3))
        (arg_meta_size * arg_num_pred * 2)).

(** Source: src/xiosim/ZCOMPS-fusion/fusion-priority.cpp:76-98 fusion_priority_t::lookup.
    Without a break the loop ends with [i] = [num_pred]. *)
Definition lookup (s : t) (c : bpred_sc_t) (preds : list bool) (a : bp_args)
  : result (t * bpred_sc_t * bool) :=
  let* row := aget (meta s) (Z.land (PC a) (meta_mask s)) in
  let* i := find_range 0 (num_pred s) (λ i, let* x := aget row i in Ok (x =? MY2BC_STRONG_TAKEN)) in
  let* p := aget preds (default (num_pred s) i) in
  Ok (with_stats s (count_lookup (stats s)), mk_bpred_sc false, p).

(** One of the two training loops of an update. *)
Definition train_row (f : my2bc_t → bool → my2bc_t) (n : Z) (preds : list bool)
    (row : list my2bc_t) : result (list my2bc_t) :=
  for_range 0 n (λ i row, let* p := aget preds i in amodify row i (λ x, f x p)) row.

(** Source: src/xiosim/ZCOMPS-fusion/fusion-priority.cpp:102-138 fusion_priority_t::update. *)
Definition update (s : t) (c : bpred_sc_t) (preds : list bool) (a : bp_args) (our_pred : bool)
  : result (t * bpred_sc_t) :=
  let index := Z.land (PC a) (meta_mask s) in
  let st := stats_after_update (stats s) (sc_updated c) (outcome a) our_pred in
  let* row := aget (meta s) index in
  let* hit := find_range 0 (num_pred s) (λ i,
    let* x := aget row i in let* p := aget preds i in
    Ok ((x =? MY2BC_STRONG_TAKEN) && Bool.eqb p (outcome a))) in
  let* row' :=
    match hit with
    | Some _ =>
        train_row (λ x p, MY2BC_COND_DEC x (negb (Bool.eqb p (outcome a)))) (num_pred s) preds row
    | None =>
        train_row (λ x p, MY2BC_COND_INC x (Bool.eqb p (outcome a))) (num_pred s) preds row
    end in
  let* meta' := aset (meta s) index row' in
  Ok (with_stats (with_meta s meta') st, mk_bpred_sc true).

#[export] Instance meta_pred : Fusion t bpred_sc_t := {
  fu_stats := stats;
  fu_num_pred := num_pred;
  fu_updated := sc_updated;
  fu_lookup s c preds a _ := lookup s c preds a;
  fu_update := update;
  fu_spec_update s c _ _ _ := Ok (with_stats s (fusion_base_spec_update (stats s)), c);
  fu_recover := fusion_base_recover;
  fu_flush := fusion_base_flush;
  fu_get_cache _ := fusion_base_get_cache;
  fu_reset_stats s := with_stats s (fusion_reset_stats (stats s));
  fu_with_stats := with_stats
}.

(** The source's comment: there will always be a three. *)
Definition prow_ok (n : Z) (row : list my2bc_t) : Prop := row_ok n ctr_ok row ∧ (3 : my2bc_t) ∈ row.

Definition wf (s : t) : Prop :=
  1 ≤ num_pred s ∧ 1 ≤ meta_size s ∧ meta_mask s = meta_size s - 1 ∧
  row_ok (meta_size s) (prow_ok (num_pred s)) (meta s).

Lemma fusion_priority_create_ok n m s : 1 ≤ n → create n m = Ok s → wf s ∧ stats s = init_stats.
Proof.
  unfold create. intros Hn E. inv_ok. split; [|done].
  match goal with H : check_ppow2 _ = true |- _ => apply check_ppow2_pos in H end.
  unfold wf. simpl. split_and!; try done; try lia.
  apply row_ok_replicate; [lia|]. split; [by apply row_ok_replicate; [lia|]|].
  destruct (Z.to_nat n) eqn:E; [lia|]. apply list_elem_of_here.
Qed.

Lemma train_row_zip (f : my2bc_t → bool → my2bc_t) n preds row : Z.of_nat (length row) = n → Z.of_nat (length preds) = n →
  train_row f n preds row = Ok (zip_with f row preds).
Proof.
  intros Hr Hp. enough (wp (train_row f n preds row) (λ r, r = zip_with f row preds)) as H
    by (apply wp_exists in H as (r & -> & ->); done).
  apply (wp_for_range (λ i r, length r = length row ∧ ∀ j : nat, r !! j =
    if decide (Z.of_nat j < i) then zip_with f row preds !! j else row !! j)); [lia| | |].
  - split; [done|]. intros j. by rewrite decide_False by lia.
  - intros i r Hi [Hl Hj]. apply wp_bind, wp_aget; [lia|]. intros p Ep.
    apply wp_bind, wp_aget; [lia|]. intros x Ex. rewrite Hj, decide_False in Ex by lia.
    apply wp_aset; [lia|]. split; [by rewrite length_insert|]. intros j.
    destruct (decide (j = Z.to_nat i)) as [->|Hne].
    + rewrite list_lookup_insert_eq, decide_True by lia.
      by rewrite lookup_zip_with, Ex, Ep.
    + rewrite list_lookup_insert_ne by done. rewrite Hj.
      destruct (decide (Z.of_nat j < i)), (decide (Z.of_nat j < i + 1)); (done || lia).
  - intros r [Hl Hj]. apply list_eq. intros j. rewrite Hj. case_decide; [done|].
    rewrite !(proj2 (lookup_ge_None _ j)); [done|rewrite length_zip_with; lia|lia].
Qed.

Lemma cond_three p : MY2BC_COND_INC 3 p = 3 ∧ MY2BC_COND_DEC 3 false = 3.
Proof. by destruct p. Qed.

Lemma zip_row_ok (f : my2bc_t → bool → my2bc_t) n preds row : (∀ x p, ctr_ok (f x p)) → Z.of_nat (length row) = n →
  Z.of_nat (length preds) = n → row_ok n ctr_ok (zip_with f row preds).
Proof.
  intros Hf Hr Hp. split; [rewrite length_zip_with; lia|].
  apply Forall_lookup. intros j x Hx. rewrite lookup_zip_with in Hx.
  destruct (row !! j); [|done]. destruct (preds !! j); [|done]. by injection Hx as <-.
Qed.

Lemma update_row_ok n preds row o hit : prow_ok n row → Z.of_nat (length preds) = n →
  (∀ i, hit = Some i → row !! Z.to_nat i = Some (3 : my2bc_t) ∧ preds !! Z.to_nat i = Some o) →
  prow_ok n (match hit with
             | Some _ => zip_with (λ x p, MY2BC_COND_DEC x (negb (Bool.eqb p o))) row preds
             | None => zip_with (λ x p, MY2BC_COND_INC x (Bool.eqb p o)) row preds
             end).
Proof.
  intros [[Hl HF] H3] Hp Hhit. split.
  - destruct hit; apply zip_row_ok; auto with xio.
  - destruct hit as [i|].
    + destruct (Hhit i eq_refl) as [Hri Hpi].
      apply (list_elem_of_lookup_2 _ (Z.to_nat i)). rewrite lookup_zip_with, Hri, Hpi. simpl.
      by rewrite eqb_reflx.
    + apply list_elem_of_lookup_1 in H3 as (j & Hj).
      pose proof (lookup_lt_Some _ _ _ Hj).
      destruct (lookup_lt_is_Some_2 preds j ltac:(lia)) as (p & Hpj).
      apply (list_elem_of_lookup_2 _ j). rewrite lookup_zip_with, Hj, Hpj. simpl.
      f_equal. apply cond_three.
Qed.

Lemma priority_update_ok s c preds a p : wf s → Z.of_nat (length preds) = num_pred s →
  wp (update s c preds a p) (λ '(s', c'), wf s' ∧ num_pred s' = num_pred s ∧
    stats s' = stats_after_update (stats s) (sc_updated c) (outcome a) p ∧ sc_updated c' = true).
Proof.
  intros (Hn & Hs & Em & Hm) Hp. unfold update.
  pose proof (land_mask_range (PC a) _ Hs) as R. rewrite <- Em in R.
  apply wp_bind. eapply wp_aget_row; [exact Hm|done|]. intros row Hrow.
  pose proof Hrow as [[Hl _] _].
  apply wp_bind. apply (wp_mono _ (λ hit, ∀ i, hit = Some i →
    row !! Z.to_nat i = Some (3 : my2bc_t) ∧ preds !! Z.to_nat i = Some (outcome a))).
  { apply wp_find_range; [lia| | |done].
    - intros i Hi. apply wp_bind. wp_array. apply wp_bind. by wp_array.
    - intros i Hi E _ ? [= <-]. inv_ok. inv_arrays.
      match goal with H : _ && _ = true |- _ =>
        apply andb_prop in H as [->%Z.eqb_eq ->%eqb_prop] end. done. }
  intros hit Hhit. apply wp_bind. rewrite !train_row_zip by lia.
  pose proof (update_row_ok _ _ _ _ _ Hrow Hp Hhit) as Hr'.
  destruct hit; simpl; (apply wp_bind; eapply wp_aset_row; [exact Hm|done|exact Hr'|]);
    intros m' Hm'; done.
Qed.

Lemma lookup_first_three s c preds a : wf s → Z.of_nat (length preds) = num_pred s →
  wp (lookup s c preds a) (λ '(s', c', p), s' = with_stats s (count_lookup (stats s)) ∧
    c' = mk_bpred_sc false ∧
    ∃ row i, aget (meta s) (Z.land (PC a) (meta_mask s)) = Ok row ∧ 0 ≤ i < num_pred s ∧
      aget row i = Ok MY2BC_STRONG_TAKEN ∧
      (∀ j, 0 ≤ j < i → aget row j ≠ Ok MY2BC_STRONG_TAKEN) ∧ aget preds i = Ok p).
Proof.
  intros (Hn & Hs & Em & Hm) Hp. unfold lookup.
  pose proof (land_mask_range (PC a) _ Hs) as R. rewrite <- Em in R.
  destruct Hm as [Lm Fm].
  destruct (aget_ok (meta s) _ ltac:(rewrite Lm; exact R)) as (row & Hrow & Erow).
  pose proof (Forall_lookup_1 _ _ _ _ Fm Hrow) as [[Hl _] H3].
  rewrite Erow. simpl. apply wp_bind, wp_find_range; [lia| | |].
  - intros i Hi. apply wp_bind. by wp_array.
  - intros i Hi E Hno. inv_ok. match goal with H : _ = true |- _ => apply Z.eqb_eq in H as -> end.
    simpl. destruct (aget_ok preds i ltac:(lia)) as (p & _ & Ep). rewrite Ep. simpl.
    split_and!; [done|done|]. exists row, i. split_and!; try done; try lia.
    intros j Hj Ej. specialize (Hno j Hj). by rewrite Ej in Hno.
  - intros Hno. exfalso. apply list_elem_of_lookup_1 in H3 as (j & Hj).
    pose proof (lookup_lt_Some _ _ _ Hj). specialize (Hno (Z.of_nat j) ltac:(lia)).
    unfold aget in Hno. rewrite (proj2 (Z.ltb_ge _ _)), Nat2Z.id, Hj in Hno by lia. done.
Qed.

#[export] Instance meta_ok : FusionOk t bpred_sc_t.
Proof.
  refine {| fu_wf := wf; fu_ref := λ _ _, True |}; simpl; try done.
  - intros s c preds a _ Hwf Hn. eapply wp_mono; [by apply lookup_first_three|].
    intros [[s' c'] p] (-> & -> & _). done.
  - intros s c preds a p Hwf _ Hn. eapply wp_mono; [by apply priority_update_ok|].
    intros [s' c'] (? & ? & ? & ?). done.
Defined.

(** One update, whatever its arguments. *)
Definition trains (n : Z) (s1 s2 : t) : Prop :=
  ∃ c preds a p c', Z.of_nat (length preds) = n ∧ update s1 c preds a p = Ok (s2, c').

Lemma trained_wf n s s' : rtc (trains n) s s' → wf s → num_pred s = n → wf s' ∧ num_pred s' = n.
Proof.
  induction 1 as [|s s1 s2 (c & preds & a & p & c' & Hp & Eu) _ IH]; [done|].
  intros Hwf En. rewrite <- En in Hp. pose proof (priority_update_ok s c preds a p Hwf Hp) as Hu.
  apply (wp_ok _ _ _ Eu) in Hu as (Hwf1 & E1 & _). apply IH; [done|congruence].
Qed.

(** The priority meta-predictor's lookup loop always ends through its break,
    as its comment claims: after the construction and any sequence of updates
    (whatever the component predictions), every row holds a counter at 3, so a
    lookup never reads past the predictions, and it follows the first component
    whose counter is 3. *)
Theorem priority_always_a_three n m s s' :
  1 ≤ n → create n m = Ok s →
  rtc (trains n) s s' →
  ∀ c preds a, Z.of_nat (length preds) = n →
  ∃ p row i, lookup s' c preds a = Ok (with_stats s' (count_lookup (stats s')), mk_bpred_sc false, p) ∧
    aget (meta s') (Z.land (PC a) (meta_mask s')) = Ok row ∧ 0 ≤ i < n ∧
    aget row i = Ok MY2BC_STRONG_TAKEN ∧
    (∀ j, 0 ≤ j < i → aget row j ≠ Ok MY2BC_STRONG_TAKEN) ∧ aget preds i = Ok p.
Proof.
  intros Hn E Hr. assert (num_pred s = n) as En by (unfold create in E; by inv_ok).
  apply fusion_priority_create_ok in E as [Hwf _]; [|done].
  destruct (trained_wf n s s' Hr Hwf En) as [Hwf' En']. clear Hr Hwf En.
  intros c preds a Hp. rewrite <- En' in *.
  apply (lookup_first_three s' c preds a Hwf') in Hp as (x & E & Hx)%wp_exists.
  destruct x as [[s2 c2] p]. destruct Hx as (-> & -> & row & i & H). eauto.
Qed.

Lemma priority_always_a_three_witness :
  ∃ s s' c', create 3 2 = Ok s ∧
    update s (mk_bpred_sc false) [true; false; true] (mk_args 1 0 0 false) true = Ok (s', c') ∧
    lookup s' c' [true; false; true] (mk_args 1 0 0 false) =
      Ok (with_stats s' (count_lookup (stats s')), mk_bpred_sc false, false).
Proof.
  destruct (create 3 2) as [s|] eqn:E; [|discriminate E].
  destruct (update s (mk_bpred_sc false) [true; false; true] (mk_args 1 0 0 false) true)
    as [[s' c']|] eqn:Eu; [|injection E as <-; vm_compute in Eu; discriminate Eu].
  destruct (priority_always_a_three 3 2 s s' ltac:(lia) E) with (c := c') (preds := [true; false; true])
    (a := mk_args 1 0 0 false) as (p & row & i & El & Er & Hi & Hrow & Hno & Hp); [|done|].
  { apply rtc_once. exists (mk_bpred_sc false), [true; false; true], (mk_args 1 0 0 false), true, c'.
    split; [done|exact Eu]. }
  exists s, s', c'. split_and!; [done|exact Eu|].
  injection E as <-. vm_compute in Eu. injection Eu as <- <-. vm_compute. reflexivity.
Defined.

End fusion_priority.
