(* ===== verification/FusionColt.v ===== *)
(** * FusionColt: the COLT meta-predictor of
    src/xiosim/ZCOMPS-fusion/fusion-colt.cpp

    A table of [counter_width]-bit counters indexed by the branch address, a
    history register and the concatenation of the component predictions.  The
    counters are held in [char]s: with eight bits the upper half of their range
    is negative. *)

From S2P Require Import Prelude BPredBase BPredGlobalHist FusionBase.

Module fusion_colt.

(** Source: src/xiosim/ZCOMPS-fusion/fusion-colt.cpp:23-29 fusion_colt_sc_t. *)
Record sc : Type := mk_sc {
  current_ctr : option Z;
  bhr : option Z;
  lookup_bhr : Z;
  updated : bool
}.

(** Source: src/xiosim/ZCOMPS-fusion/fusion-colt.cpp:33-46 fusion_colt_t.
    The members the constructor fixes; [xorshift] it leaves uninitialised. *)
Record cfg : Type := mk_cfg {
  num_pred : Z;
  meta_size : Z;
  meta_mask : Z;
  counter_width : Z;
  counter_shift : Z;
  counter_max : Z;
  history_size : Z;
  history_mask : Z;
  bhr_mask : Z;
  xorshift : Z;
  xormask : Z;
  xor2shift : Z;
  bits : Z
}.

(** Source: src/xiosim/ZCOMPS-fusion/fusion-colt.cpp:48-49 fusion_colt_t. *)
Record t : Type := mk {
  conf : cfg;
  stats : dstats;
  history : list Z;
  ftable : list Z
}.

Definition with_stats (s : t) (st : dstats) : t := mk (conf s) st (history s) (ftable s).
Definition with_history (s : t) (l : list Z) : t := mk (conf s) (stats s) l (ftable s).
Definition with_ftable (s : t) (l : list Z) : t := mk (conf s) (stats s) (history s) l.

(** [(i&1)?((1<<(counter_width-1))-1):(1<<(counter_width-1))], stored in a [char] *)
Definition counter_init (w i : Z) : Z :=
  i8 (if Z.testbit i 0 then Z.shiftl 1 (w - 1) - 1 else Z.shiftl 1 (w - 1)).

(** Source: src/xiosim/ZCOMPS-fusion/fusion-colt.cpp:54-100 fusion_colt_t::fusion_colt_t.
    [garbage] is the value of the uninitialised [xorshift]. *)
Definition create (garbage : Z) (arg_num_pred arg_meta_size arg_counter_width arg_history_size
    arg_bhr_width : Z) : result t :=
  let* _ := guard_or (check_ppow2 arg_meta_size) Fatal in
  let* _ := guard_or (check_ppow2 arg_history_size) Fatal in
  let* _ := guard_or (0 <=? arg_bhr_width) Fatal in
  let* _ := guard_or ((0 <? arg_counter_width) && (arg_counter_width <=? 8)) Fatal in
  Ok (mk (mk_cfg arg_num_pred arg_meta_size (arg_meta_size - 1)
            arg_counter_width (arg_counter_width - 1) (Z.shiftl 1 arg_counter_width - 1)
            arg_history_size (arg_history_size - 1) (history_mask_of arg_bhr_width)
            garbage (Z.shiftr (arg_meta_size - 1) arg_num_pred)
            (Z.log2 arg_meta_size - arg_num_pred)
            (arg_meta_size * arg_counter_width + arg_history_size * arg_bhr_width))
         fusion_init (replicate (Z.to_nat arg_history_size) 0)
         (counter_init arg_counter_width <$> seqZ 0 arg_meta_size)).

(** Source: src/xiosim/ZCOMPS-fusion/fusion-colt.cpp:109-134 fusion_colt_t::lookup. *)
Definition lookup (s : t) (c : sc) (preds : list bool) (a : bp_args) : result (t * sc * bool) :=
  let k := conf s in
  let hi := Z.land (PC a) (history_mask k) in
  let* h := aget (history s) hi in
  let* pred_cat := for_range 0 (num_pred k) (λ i cat,
    let* p := aget preds i in Ok (Z.lor cat (i32 (Z.shiftl (Z.b2z p) i)))) 0 in
  let index := i32 (Z.lor
    (Z.land (Z.lxor (PC a) (u64 (i32 (Z.shiftl h (xorshift k))))) (u64 (xormask k)))
    (u64 (i32 (Z.shiftl pred_cat (xor2shift k))))) in
  let ci := Z.land index (meta_mask k) in
  let* ctr := aget (ftable s) ci in
  Ok (with_stats s (count_lookup (stats s)), mk_sc (Some ci) (Some hi) h false,
      Z.testbit ctr (counter_shift k)).

(** Source: src/xiosim/ZCOMPS-fusion/fusion-colt.cpp:148-157 fusion_colt_t::update.
    The counter moves towards the outcome. *)
Definition train_counter (k : cfg) (o : bool) (ctr : Z) : Z :=
  if o then (if ctr <? counter_max k then i8 (ctr + 1) else ctr)
  else (if 0 <? ctr then i8 (ctr - 1) else ctr).

(** Source: src/xiosim/ZCOMPS-fusion/fusion-colt.cpp:137-158 fusion_colt_t::update. *)
Definition update (s : t) (c : sc) (preds : list bool) (a : bp_args) (our_pred : bool)
  : result (t * sc) :=
  let st := stats_after_update (stats s) (updated c) (outcome a) our_pred in
  let* i := deref (current_ctr c) in
  let* l := amodify (ftable s) i (train_counter (conf s) (outcome a)) in
  Ok (with_stats (with_ftable s l) st, mk_sc (current_ctr c) (bhr c) (lookup_bhr c) true).

(** Source: src/xiosim/ZCOMPS-fusion/fusion-colt.cpp:161-168 fusion_colt_t::spec_update. *)
Definition spec_update (s : t) (c : sc) (our_pred : bool) : result (t * sc) :=
  let s := with_stats s (count_spec_update (stats s)) in
  let* l := bht_spec_update (history s) (bhr c) (bhr_mask (conf s)) our_pred in
  Ok (with_history s l, c).

(** Source: src/xiosim/ZCOMPS-fusion/fusion-colt.cpp:171-176 fusion_colt_t::recover. *)
Definition recover (s : t) (c : sc) (outcome : bool) : result (t * sc) :=
  let* l := bht_recover (history_size (conf s)) (history s) (lookup_bhr c) outcome in
  Ok (with_history s l, c).

(** Source: src/xiosim/ZCOMPS-fusion/fusion-colt.cpp:179-184 fusion_colt_t::flush. *)
Definition flush (s : t) (c : sc) : result (t * sc) :=
  let* l := bht_flush (history_size (conf s)) (history s) (lookup_bhr c) in
  Ok (with_history s l, c).

(** Source: src/xiosim/ZCOMPS-fusion/fusion-colt.cpp:187-193 fusion_colt_t::get_cache. *)
Definition get_cache : sc := mk_sc None None 0 false.

#[export] Instance meta_pred : Fusion t sc := {
  fu_stats := stats;
  fu_num_pred s := num_pred (conf s);
  fu_updated := updated;
  fu_lookup s c preds a _ := lookup s c preds a;
  fu_update := update;
  fu_spec_update s c _ _ p := spec_update s c p;
  fu_recover := recover;
  fu_flush := flush;
  fu_get_cache _ := get_cache;
  fu_reset_stats s := with_stats s (fusion_reset_stats (stats s));
  fu_with_stats := with_stats
}.

(** ** Invariant *)

Definition wf_cfg (k : cfg) : Prop :=
  0 ≤ num_pred k ∧ 1 ≤ meta_size k ∧ meta_mask k = meta_size k - 1 ∧
  1 ≤ history_size k ∧ history_mask k = history_size k - 1 ∧
  1 ≤ counter_width k ≤ 8 ∧ counter_shift k = counter_width k - 1 ∧
  counter_max k = 2 ^ counter_width k - 1.

(** Up to seven bits the counters are within their width; eight do not fit. *)
Definition counter_ok (k : cfg) (x : Z) : Prop :=
  -128 ≤ x < 128 ∧ (counter_width k ≤ 7 → 0 ≤ x ≤ counter_max k).

Definition wf (s : t) : Prop :=
  wf_cfg (conf s) ∧ Z.of_nat (length (history s)) = history_size (conf s) ∧
  row_ok (meta_size (conf s)) (counter_ok (conf s)) (ftable s).

Definition ref (s : t) (c : sc) : Prop :=
  (∃ i, current_ctr c = Some i ∧ 0 ≤ i < meta_size (conf s)) ∧
  (∃ i, bhr c = Some i ∧ 0 ≤ i < history_size (conf s)).

Lemma pow_width w : 1 ≤ w ≤ 8 → 2 ^ w = 2 * 2 ^ (w - 1) ∧ 1 ≤ 2 ^ (w - 1) ≤ 128 ∧
  (w ≤ 7 → 2 ^ (w - 1) ≤ 64).
Proof.
  intros Hw. split; [rewrite <- Z.pow_succ_r by lia; f_equal; lia|].
  split; [split|intros ?].
  - pose proof (Z.pow_pos_nonneg 2 (w - 1)). lia.
  - change 128 with (2 ^ 7). apply Z.pow_le_mono_r; lia.
  - change 64 with (2 ^ 6). apply Z.pow_le_mono_r; lia.
Qed.

Lemma counter_init_ok k i : wf_cfg k → counter_ok k (counter_init (counter_width k) i).
Proof.
  intros (_ & _ & _ & _ & _ & Hw & _ & Em). unfold counter_init, counter_ok.
  destruct (pow_width _ Hw) as (E2 & Hp & Hp7).
  rewrite shiftl_1_l by lia. split; [apply (wrap_s_range 8); lia|].
  intros H7. specialize (Hp7 H7). destruct (Z.testbit i 0); rewrite i8_small; lia.
Qed.

Lemma train_counter_ok k o x : wf_cfg k → counter_ok k x → counter_ok k (train_counter k o x).
Proof.
  intros (_ & _ & _ & _ & _ & Hw & _ & Em) [Hr Hx]. unfold train_counter, counter_ok.
  destruct (pow_width _ Hw) as (E2 & Hp & Hp7).
  destruct o; [destruct (Z.ltb_spec x (counter_max k))|destruct (Z.ltb_spec 0 x)]; try done;
    (split; [apply (wrap_s_range 8); lia|]); intros H7; specialize (Hx H7); specialize (Hp7 H7);
    rewrite i8_small; lia.
Qed.

Lemma fusion_colt_create_ok g n m w h b s : 0 ≤ n → create g n m w h b = Ok s →
  wf s ∧ stats s = init_stats.
Proof.
  unfold create. intros Hn E. inv_ok. split; [|done].
  repeat match goal with H : check_ppow2 _ = true |- _ => apply check_ppow2_pos in H end.
  match goal with H : (_ && _) = true |- _ => apply andb_prop in H as [?%Z.ltb_lt ?%Z.leb_le] end.
  unfold wf. simpl. rewrite length_replicate. rewrite shiftl_1_l by lia.
  match goal with |- context [mk_cfg ?a ?b ?c ?d ?e ?f ?g ?h ?i ?j ?k ?l ?m] =>
    set (k0 := mk_cfg a b c d e f g h i j k l m) end.
  assert (wf_cfg k0) as Hk by (unfold wf_cfg; simpl; split_and!; lia).
  split; [done|]. split; [lia|]. split; [rewrite length_fmap, length_seqZ; lia|].
  apply Forall_fmap, Forall_true. intros i. by apply (counter_init_ok k0).
Qed.

Lemma colt_keeps_conf s s' : wf s' → conf s' = conf s → keeps wf ref s s'.
Proof. intros Hwf E. split; [done|]. intros c. unfold ref. by rewrite E. Qed.

Lemma with_history_wf s l : wf s → length l = length (history s) → wf (with_history s l).
Proof. intros (? & ? & ?) E. unfold wf. simpl. by rewrite E. Qed.

#[export] Instance meta_ok : FusionOk t sc.
Proof.
  refine {| fu_wf := wf; fu_ref := ref |}; simpl; [done|done|..].
  - intros s c preds a _ Hwf Hn. pose proof Hwf as (Hk & Lh & Hf).
    pose proof Hk as (? & Hm & Em & Hh & Eh & _).
    pose proof (land_mask_range (PC a) _ Hh) as R1. rewrite <- Eh in R1. unfold lookup.
    apply wp_bind. wp_array. apply wp_bind.
    apply (wp_for_range (λ _ _, True)); [lia|done| |].
    { intros i b Hi _. apply wp_bind. by wp_array. }
    intros cat _. match goal with |- context [Z.land ?x (meta_mask _)] =>
      pose proof (land_mask_range x _ Hm) as R2 end. rewrite <- Em in R2.
    apply wp_bind. eapply wp_aget_row; [exact Hf|done|]. intros ctr _. simpl.
    split_and!; try done. unfold ref. simpl. eauto 8.
  - intros s c preds a p Hwf Hr Hn. pose proof Hwf as (Hk & Lh & Hf).
    pose proof Hr as ((i & Ei & Hi) & Hb). unfold update. rewrite Ei. simpl. apply wp_bind.
    eapply wp_amodify_row; [exact Hf|done|intros; by apply train_counter_ok|]. intros l Hl. simpl.
    split; [by apply colt_keeps_conf|]. split; [done|]. split; [|done]. split; simpl; eauto.
  - intros s c preds a p Hwf Hr Hn. pose proof Hr as (_ & (i & Ei & Hi)).
    pose proof Hwf as (_ & Lh & _).
    apply wp_bind. apply (wp_bht_spec_update _ _ i); simpl; [done|lia|]. intros l El.
    split_and!; try done. apply colt_keeps_conf; [|done]. by apply (with_history_wf (with_stats s _)).
  - intros s c o Hwf Hr. pose proof Hwf as (_ & Lh & _).
    apply wp_bind, wp_bht_recover; [done|]. intros l El. simpl. split_and!; try done.
    apply colt_keeps_conf; [|done]. by apply with_history_wf.
  - intros s c Hwf Hr. pose proof Hwf as (_ & Lh & _).
    apply wp_bind, wp_bht_flush; [done|]. intros l El. simpl. split_and!; try done.
    apply colt_keeps_conf; [|done]. by apply with_history_wf.
Defined.

(** ** The counters *)

(** Up to seven bits an update is a saturating step. *)
Lemma train_counter_saturates k o x : wf_cfg k → counter_width k ≤ 7 → counter_ok k x →
  train_counter k o x = if o then Z.min (counter_max k) (x + 1) else Z.max 0 (x - 1).
Proof.
  intros (_ & _ & _ & _ & _ & Hw & _ & Em) H7 [Hr Hx]. specialize (Hx H7).
  destruct (pow_width _ Hw) as (E2 & Hp & Hp7). specialize (Hp7 H7).
  unfold train_counter. destruct o.
  - destruct (Z.ltb_spec x (counter_max k)); rewrite ?i8_small; lia.
  - destruct (Z.ltb_spec 0 x); rewrite ?i8_small; lia.
Qed.

(** With the widest counters the constructor accepts (8 bits) COLT cannot
    unlearn: the [char] that holds a counter predicting taken is negative, so
    the guard of the decrement never holds, and updating it with a not-taken
    outcome leaves the whole table as it was. *)
Theorem colt_8bit_counter_stuck_taken s c preds a p s1 c1 our_pred :
  wf s → counter_width (conf s) = 8 → Z.of_nat (length preds) = num_pred (conf s) →
  lookup s c preds a = Ok (s1, c1, p) → p = true → outcome a = false →
  ∃ s2 c2, update s1 c1 preds a our_pred = Ok (s2, c2) ∧ ftable s2 = ftable s.
Proof.
  intros Hwf E8 Hn El -> Ho. pose proof Hwf as (Hk & _ & [Lf Ff]).
  pose proof Hk as (_ & _ & _ & _ & _ & _ & Es & _).
  unfold lookup in El. apply bind_Ok_inv in El as (h & _ & El).
  apply bind_Ok_inv in El as (cat & _ & El). apply bind_Ok_inv in El as (ctr & Ec & El).
  injection El as <- <- Hp. pose proof Ec as Ec'. apply aget_inv in Ec' as [Hi Hc].
  assert (ctr < 0) as Hneg.
  { destruct (Z.ltb_spec ctr 0); [done|]. exfalso.
    pose proof (Forall_lookup_1 _ _ _ _ Ff Hc) as [Hr _].
    assert (Z.testbit ctr (8 - 1) = false) as Eb by (apply (testbit_above ctr 7); simpl; lia).
    rewrite Es, E8, Eb in Hp. done. }
  unfold update. simpl. unfold amodify. rewrite Ec. simpl. rewrite Ho. unfold train_counter.
  rewrite (proj2 (Z.ltb_ge 0 ctr)) by lia. rewrite aset_ok by done. simpl.
  eexists _, _. split; [done|]. simpl. by apply list_insert_id.
Qed.

Lemma colt_8bit_counter_stuck_taken_witness :
  ∃ s s1 c1 s2 c2, create 0 1 2 8 1 1 = Ok s ∧
    lookup s get_cache [false] (mk_args 0 0 0 false) = Ok (s1, c1, true) ∧
    update s1 c1 [false] (mk_args 0 0 0 false) true = Ok (s2, c2) ∧ ftable s2 = ftable s.
Proof.
  destruct (create 0 1 2 8 1 1) as [s|] eqn:E; [|discriminate E].
  pose proof (fusion_colt_create_ok 0 1 2 8 1 1 s ltac:(lia) E) as [Hwf _].
  set (a := mk_args 0 0 0 false).
  destruct (lookup s get_cache [false] a) as [[[s1 c1] p]|] eqn:El;
    [|injection E as <-; vm_compute in El; discriminate El].
  assert (p = true) as Hp by (injection E as <-; vm_compute in El; injection El as _ _ <-; reflexivity).
  destruct (colt_8bit_counter_stuck_taken s get_cache [false] a p s1 c1 true Hwf) as (s2 & c2 & Eu & Ef);
    try done; [injection E as <-; reflexivity..|].
  exists s, s1, c1, s2, c2. rewrite Hp in El. split_and!; done.
Defined.

End fusion_colt.
