(* ===== verification/RAS.v ===== *)
(** * RAS: the return address stack predictors of src/xiosim/ZCOMPS-ras/
    (ras-stack.cpp, ras-multistack.cpp, ras-perfect.cpp)

    [Ras] is the virtual interface [RAS_t] of src/xiosim/zesto-bpred.h: [push]
    and [pop] are speculative (front end), [real_push] and [real_pop] are made at
    commit, a checkpoint taken at lookup ([recover_state]) repairs the stack
    after a misprediction ([recover]). *)

From S2P Require Import Prelude Misc.

(** Source: src/xiosim/zesto-bpred.h:409-413 RAS_t.
    The statistics of the base class. *)
Record ras_stats : Type := mk_ras_stats {
  ras_num_hits : Z;
  num_pushes : Z;
  num_pops : Z;
  num_recovers : Z;
  ras_frozen : bool
}.

(** Source: src/xiosim/zesto-bpred.cpp:634-642 RAS_t::init. *)
Definition ras_init : ras_stats := mk_ras_stats 0 0 0 0 false.

(** Source: src/xiosim/zesto-bpred.cpp:709-715 RAS_t::reset_stats. *)
Definition ras_reset_stats (st : ras_stats) : ras_stats := mk_ras_stats 0 0 0 0 (ras_frozen st).

(** [BPRED_STAT(num_recovers++;)] *)
Definition count_recover (st : ras_stats) : ras_stats :=
  if ras_frozen st then st
  else mk_ras_stats (ras_num_hits st) (num_pushes st) (num_pops st) (num_recovers st + 1) (ras_frozen st).

(** Source: src/xiosim/zesto-bpred.h:400-459 RAS_t.
    [K] is the checkpoint, a null pointer in the classes that have none. *)
Class Ras (S K : Type) := {
  rs_stats : S → ras_stats;
  rs_with_stats : S → ras_stats → S;
  rs_push : S → Z → result S;
  rs_pop : S → Z → result (S * Z);
  rs_recover : S → K → result S;
  rs_recover_state : S → K → result K;
  rs_real_push : S → Z → result S;
  rs_real_pop : S → result (S * Z);
  rs_get_state : S → K
}.

(** [s'] is well formed and the checkpoints valid in [s] are valid in [s']. *)
Definition ras_keeps {S K : Type} (wf : S → Prop) (ref : S → K → Prop) (s s' : S) : Prop :=
  wf s' ∧ ∀ k, ref s k → ref s' k.

Class RasOk (S K : Type) `{RS : !Ras S K} := {
  rs_wf : S → Prop;
  rs_ref : S → K → Prop;
  rs_push_ok : ∀ s x, rs_wf s → wp (rs_push s x) (ras_keeps rs_wf rs_ref s);
  rs_pop_ok : ∀ s o, rs_wf s → wp (rs_pop s o) (λ '(s', _), ras_keeps rs_wf rs_ref s s');
  rs_recover_ok : ∀ s k, rs_wf s → rs_ref s k → wp (rs_recover s k) (ras_keeps rs_wf rs_ref s);
  rs_recover_state_ok : ∀ s k, rs_wf s → wp (rs_recover_state s k) (rs_ref s);
  rs_real_push_ok : ∀ s x, rs_wf s → wp (rs_real_push s x) (ras_keeps rs_wf rs_ref s);
  rs_real_pop_ok : ∀ s, rs_wf s → wp (rs_real_pop s) (λ '(s', _), ras_keeps rs_wf rs_ref s s');
  rs_with_stats_ok : ∀ s st, rs_wf s → ras_keeps rs_wf rs_ref s (rs_with_stats s st)
}.

(** Source: src/xiosim/zesto-bpred.cpp:644-651 RAS_t::push. *)
Definition base_push {S : Type} (s : S) (x : Z) : result S := Ok s.

(** Source: src/xiosim/zesto-bpred.cpp:653-660 RAS_t::real_push. *)
Definition base_real_push {S : Type} (s : S) (x : Z) : result S := Ok s.

(** Source: src/xiosim/zesto-bpred.cpp:662-669 RAS_t::real_pop. *)
Definition base_real_pop {S : Type} (s : S) : result (S * Z) := Ok (s, 0).

(** Source: src/xiosim/zesto-bpred.cpp:676-678 RAS_t::recover_state. *)
Definition base_recover_state {S K : Type} (s : S) (k : K) : result K := Ok k.

Module RAS_perfect.

(** Source: src/xiosim/ZCOMPS-ras/ras-perfect.cpp:15-25 RAS_perfect_t. *)
Record t : Type := mk { stats : ras_stats }.

(** Source: src/xiosim/ZCOMPS-ras/ras-perfect.cpp:36-39 RAS_perfect_t::pop. *)
Definition pop (s : t) (oPC : Z) : result (t * Z) := Ok (s, oPC).

(** Source: src/xiosim/ZCOMPS-ras/ras-perfect.cpp:42-45 RAS_perfect_t::recover. *)
Definition recover (s : t) (k : unit) : result t := Ok (mk (count_recover (stats s))).

#[export] Instance ras : Ras t unit := {
  rs_stats := stats;
  rs_with_stats s st := mk st;
  rs_push := base_push;
  rs_pop := pop;
  rs_recover := recover;
  rs_recover_state := base_recover_state;
  rs_real_push := base_real_push;
  rs_real_pop := base_real_pop;
  rs_get_state _ := tt
}.

#[export] Instance ras_ok : RasOk t unit.
Proof. by refine {| rs_wf := λ _, True; rs_ref := λ _ _, True |}. Defined.

End RAS_perfect.

Module RAS_stack.

(** Source: src/xiosim/ZCOMPS-ras/ras-stack.cpp:26-30 RAS_stack_t. *)
Record t : Type := mk { stats : ras_stats; stack : list Z; size : Z; head : Z }.

(** Source: src/xiosim/ZCOMPS-ras/ras-stack.cpp:20-24 RAS_stack_chkpt_t. *)
Record chkpt : Type := mk_chkpt { pos : Z }.

(** Source: src/xiosim/ZCOMPS-ras/ras-stack.cpp:35-52 RAS_stack_t::RAS_stack_t. *)
Definition create (arg_num_entries : Z) : t :=
  mk ras_init (replicate (Z.to_nat arg_num_entries) 0) arg_num_entries 0.

(** Source: src/xiosim/ZCOMPS-ras/ras-stack.cpp:66-70 RAS_stack_t::push. *)
Definition push (s : t) (ftPC : Z) : result t :=
  let head' := modinc (head s) (size s) in
  let* stack' := aset (stack s) head' ftPC in
  Ok (mk (stats s) stack' (size s) head').

(** Source: src/xiosim/ZCOMPS-ras/ras-stack.cpp:73-79 RAS_stack_t::pop. *)
Definition pop (s : t) : result (t * Z) :=
  let* predPC := aget (stack s) (head s) in
  Ok (mk (stats s) (stack s) (size s) (moddec (head s) (size s)), predPC).

(** Source: src/xiosim/ZCOMPS-ras/ras-stack.cpp:82-88 RAS_stack_t::recover. *)
Definition recover (s : t) (cp : chkpt) : result t :=
  Ok (mk (count_recover (stats s)) (stack s) (size s) (pos cp)).

(** Source: src/xiosim/ZCOMPS-ras/ras-stack.cpp:91-95 RAS_stack_t::recover_state. *)
Definition recover_state (s : t) (cp : chkpt) : result chkpt := Ok (mk_chkpt (head s)).

(** Source: src/xiosim/ZCOMPS-ras/ras-stack.cpp:98-104 RAS_stack_t::get_state. *)
Definition get_state : chkpt := mk_chkpt 0.

#[export] Instance ras : Ras t chkpt := {
  rs_stats := stats;
  rs_with_stats s st := mk st (stack s) (size s) (head s);
  rs_push := push;
  rs_pop s _ := pop s;
  rs_recover := recover;
  rs_recover_state := recover_state;
  rs_real_push := base_real_push;
  rs_real_pop := base_real_pop;
  rs_get_state _ := get_state
}.

Definition wf (s : t) : Prop :=
  1 ≤ size s < 2 ^ 31 ∧ Z.of_nat (length (stack s)) = size s ∧ 0 ≤ head s < size s.

Definition ref (s : t) (cp : chkpt) : Prop := 0 ≤ pos cp < size s.

Lemma RAS_stack_create_ok n : 1 ≤ n < 2 ^ 31 → wf (create n).
Proof. intros. unfold wf, create. simpl. rewrite length_replicate. lia. Qed.

#[export] Instance ras_ok : RasOk t chkpt.
Proof.
  refine {| rs_wf := wf; rs_ref := ref |}; simpl; try done.
  - intros s x (Hs & Hl & Hh). pose proof (modinc_range (head s) (size s) Hh ltac:(lia)).
    apply wp_bind. wp_array. split; [|done]. unfold wf. simpl. rewrite length_insert. lia.
  - intros s _ (Hs & Hl & Hh). pose proof (moddec_range (head s) (size s) Hh ltac:(lia)).
    apply wp_bind. wp_array. split; [|done]. unfold wf. simpl. lia.
  - intros s cp (Hs & Hl & Hh) Hr. split; [|done]. unfold wf. simpl. done.
  - intros s cp (Hs & Hl & Hh). done.
Defined.

(** ** The circular buffer as a bounded stack *)

(** The [i]-th address from the top. *)
Definition view (s : t) (i : Z) : result Z := aget (stack s) ((head s - i) mod size s).

Lemma view_push s x s' : wf s → push s x = Ok s' →
  wf s' ∧ size s' = size s ∧ head s' = (head s + 1) mod size s ∧
  ∀ i, 0 ≤ i < size s → view s' i = if i =? 0 then Ok x else view s (i - 1).
Proof.
  intros (Hs & Hl & Hh) E. pose proof (modinc_range (head s) (size s) Hh ltac:(lia)) as Hr.
  unfold push in E. inv_ok. inv_arrays. unfold wf, view. simpl. rewrite length_insert.
  rewrite modinc_mod in * by lia. split_and!; try done; try lia. intros i Hi.
  unfold aget. rewrite !(proj2 (Z.ltb_ge _ 0)) by (apply Z.mod_pos_bound; lia).
  rewrite Zminus_mod_idemp_l. replace (head s + 1 - i) with (head s - (i - 1)) by lia.
  destruct (Z.eqb_spec i 0) as [->|Hne].
  - replace (head s - (0 - 1)) with (head s + 1) by lia. by rewrite list_lookup_insert_eq by lia.
  - rewrite list_lookup_insert_ne; [done|].
    pose proof (Z.mod_pos_bound (head s - (i - 1)) (size s) ltac:(lia)). intros E.
    assert ((head s + 1) mod size s = (head s - (i - 1)) mod size s) as E' by lia.
    assert ((head s + 1 - (head s - (i - 1))) mod size s = 0) as E0.
    { rewrite Zminus_mod, E', Z.sub_diag. by apply Z.mod_0_l; lia. }
    replace (head s + 1 - (head s - (i - 1))) with i in E0 by lia.
    rewrite Z.mod_small in E0; lia.
Qed.

Lemma view_pop s s' x : wf s → pop s = Ok (s', x) →
  wf s' ∧ size s' = size s ∧ head s' = (head s - 1) mod size s ∧
  view s 0 = Ok x ∧ stack s' = stack s ∧ ∀ i, view s' i = view s (i + 1).
Proof.
  intros (Hs & Hl & Hh) E. pose proof (moddec_range (head s) (size s) Hh ltac:(lia)) as Hr.
  unfold pop in E. apply bind_Ok_inv in E as (y & Ey & E). injection E as <- <-.
  unfold wf, view. simpl. rewrite moddec_mod in * by lia. split_and!; try done; try lia.
  - rewrite Z.sub_0_r, Z.mod_small by lia. done.
  - intros i. rewrite Zminus_mod_idemp_l. do 2 f_equal. lia.
Qed.

Fixpoint push_all (s : t) (xs : list Z) : result t :=
  match xs with [] => Ok s | x :: xs => let* s' := push s x in push_all s' xs end.

(** [k] pops, the addresses in the order they come. *)
Fixpoint pop_n (s : t) (k : nat) : result (t * list Z) :=
  match k with
  | O => Ok (s, [])
  | S k => let* x := pop s in let* y := pop_n x.1 k in Ok (y.1, x.2 :: y.2)
  end.

Lemma push_all_view s xs : wf s →
  wp (push_all s xs) (λ s', wf s' ∧ size s' = size s ∧
    ∀ i, 0 ≤ i < size s → i < Z.of_nat (length xs) →
      view s' i = of_option OutOfBounds (reverse xs !! Z.to_nat i)).
Proof.
  revert s. induction xs as [|x xs IH] using rev_ind; intros s Hwf.
  { split_and!; try done. simpl. lia. }
  assert (push_all s (xs ++ [x]) = let* s' := push_all s xs in push s' x) as ->.
  { clear IH Hwf. revert s. induction xs as [|y xs IH]; intros s; simpl; [by destruct (push s x)|].
    destruct (push s y); simpl; [apply IH|done]. }
  apply wp_bind. eapply wp_mono; [by apply IH|]. intros s1 (Hwf1 & Es & Hv).
  pose proof (rs_push_ok s1 x Hwf1) as (s2 & E2 & _)%wp_exists. simpl in E2. rewrite E2. simpl.
  apply view_push in E2 as (Hwf2 & Es2 & _ & Hv2); [|done]. split_and!; [done|congruence|].
  intros i Hi Hlen. rewrite Hv2 by lia. rewrite reverse_app. simpl.
  destruct (Z.eqb_spec i 0) as [->|]; [done|].
  rewrite length_app in Hlen. simpl in Hlen. rewrite Hv by lia.
  replace (Z.to_nat i) with (S (Z.to_nat (i - 1))) by lia. done.
Qed.

Lemma pop_n_view s k : wf s → Z.of_nat k ≤ size s →
  wp (pop_n s k) (λ '(s', ys), length ys = k ∧
    ∀ i : nat, (i < k)%nat → of_option OutOfBounds (ys !! i) = view s (Z.of_nat i)).
Proof.
  revert s. induction k as [|k IH]; intros s Hwf Hk; simpl; [split; [done|lia]|].
  pose proof (rs_pop_ok s 0 Hwf) as (p & Ep & Hp)%wp_exists.
  destruct p as [s1 x]. simpl in Ep. rewrite Ep. simpl.
  apply view_pop in Ep as (Hwf1 & Es1 & _ & Ev & _ & Hv); [|done].
  apply wp_bind. eapply wp_mono; [apply IH; [done|lia]|]. intros [s2 ys] [Hl Hys]. simpl.
  split; [lia|]. intros [|i] Hi; simpl; [change (Z.of_nat 0) with 0; by rewrite Ev|].
  rewrite Hys, Hv by lia. f_equal. lia.
Qed.

(** C22. The return address stack is a bounded LIFO: after any sequence of calls
    [xs], however deep, the next [k] returns get the addresses of the last [k]
    calls in reverse order, as long as [k] is at most the size of the stack and
    the number of calls.  No operation faults. *)
Theorem ras_stack_lifo s xs k : wf s → Z.of_nat k ≤ size s → (k ≤ length xs)%nat →
  ∃ s1 s2, push_all s xs = Ok s1 ∧ pop_n s1 k = Ok (s2, take k (reverse xs)).
Proof.
  intros Hwf Hk Hlen. pose proof (push_all_view s xs Hwf) as (s1 & E1 & Hwf1 & Es & Hv)%wp_exists.
  pose proof (pop_n_view s1 k Hwf1 ltac:(lia)) as (p & E2 & Hp)%wp_exists.
  destruct p as [s2 ys]. destruct Hp as [Hl Hys]. exists s1, s2. split; [done|]. rewrite E2.
  do 2 f_equal. apply list_eq. intros i. destruct (decide (i < k)%nat).
  - rewrite lookup_take_lt by done. specialize (Hys i ltac:(done)).
    rewrite Hv, Nat2Z.id in Hys by lia.
    destruct (lookup_lt_is_Some_2 ys i ltac:(lia)) as (y & Ey).
    destruct (lookup_lt_is_Some_2 (reverse xs) i) as (z & Ez); [rewrite length_reverse; lia|].
    rewrite Ey, Ez in *. simpl in Hys. congruence.
  - rewrite !(proj2 (lookup_ge_None _ i)); [done|rewrite length_take; lia|lia].
Qed.

Lemma ras_stack_lifo_witness :
  ∃ s1 s2, push_all (create 4) [10; 20; 30; 40; 50; 60] = Ok s1 ∧ pop_n s1 4 = Ok (s2, [60; 50; 40; 30]).
Proof.
  apply (ras_stack_lifo (create 4) [10; 20; 30; 40; 50; 60] 4);
    [apply RAS_stack_create_ok; lia | vm_compute; discriminate | simpl; lia].
Defined.

(** ** Repair after a misprediction *)

(** What the front end does on a path: calls and returns. *)
Inductive ras_op : Type := OpPush (x : Z) | OpPop.

Definition run_op (s : t) (o : ras_op) : result t :=
  match o with OpPush x => push s x | OpPop => let* y := pop s in Ok y.1 end.

Fixpoint run_ops (s : t) (os : list ras_op) : result t :=
  match os with [] => Ok s | o :: os => let* s' := run_op s o in run_ops s' os end.

(** The call depth relative to the start stays between 0 and [m]. *)
Fixpoint depth_within (m d : Z) (os : list ras_op) : bool :=
  match os with
  | [] => true
  | OpPush _ :: os => (d + 1 <=? m) && depth_within m (d + 1) os
  | OpPop :: os => (0 <=? d - 1) && depth_within m (d - 1) os
  end.

(** Only the slots of the relative depths [1..m] are written. *)
Lemma run_ops_slots s0 m os s d : wf s → size s = size s0 → m ≤ size s0 → 0 ≤ d →
  head s = (head s0 + d) mod size s0 → depth_within m d os = true →
  wp (run_ops s os) (λ s', wf s' ∧ size s' = size s0 ∧
    ∀ i, 0 ≤ i < size s0 - m →
      aget (stack s') ((head s0 - i) mod size s0) = aget (stack s) ((head s0 - i) mod size s0)).
Proof.
  revert s d. induction os as [|o os IH]; intros s d Hwf Es Hm Hd Hh Hdep; [done|].
  pose proof Hwf as (Hs & Hl & Hhr). simpl. apply wp_bind. destruct o as [x|]; simpl in *.
  - apply andb_prop in Hdep as [Hd1%Z.leb_le Hdep].
    pose proof (rs_push_ok s x Hwf) as (s1 & E1 & _)%wp_exists. simpl in E1. rewrite E1. simpl.
    pose proof E1 as E1'. apply view_push in E1' as (Hwf1 & Es1 & Eh1 & _); [|done].
    eapply wp_mono; [apply (IH s1 (d + 1)); try done; try lia; try congruence|].
    { rewrite Eh1, Hh, Es, Zplus_mod_idemp_l. f_equal. lia. }
    intros s' (Hwf' & Es' & Hv). split_and!; try done. intros i Hi. rewrite Hv by done.
    unfold push in E1. inv_ok. inv_arrays. simpl. unfold aget.
    pose proof (Z.mod_pos_bound (head s0 - i) (size s0) ltac:(lia)).
    rewrite (proj2 (Z.ltb_ge _ 0)) by lia. rewrite list_lookup_insert_ne; [done|].
    rewrite modinc_mod, Hh, Es, Zplus_mod_idemp_l by lia.
    pose proof (Z.mod_pos_bound (head s0 + d + 1) (size s0) ltac:(lia)). intros E.
    assert ((head s0 + d + 1) mod size s0 = (head s0 - i) mod size s0) as E' by lia.
    assert ((head s0 + d + 1 - (head s0 - i)) mod size s0 = 0) as E0
      by (rewrite Zminus_mod, E', Z.sub_diag; apply Z.mod_0_l; lia).
    replace (head s0 + d + 1 - (head s0 - i)) with (d + 1 + i) in E0 by lia.
    rewrite Z.mod_small in E0; lia.
  - apply andb_prop in Hdep as [Hd1%Z.leb_le Hdep].
    pose proof (rs_pop_ok s 0 Hwf) as (p & Ep & _)%wp_exists. destruct p as [s1 x]. simpl in Ep.
    rewrite Ep. simpl. apply view_pop in Ep as (Hwf1 & Es1 & Eh1 & _ & Est & _); [|done].
    rewrite <- Est. apply (IH s1 (d - 1)); try done; try lia; try congruence.
    rewrite Eh1, Hh, Es, Zminus_mod_idemp_l. f_equal. lia.
Qed.

(** Repairing the return address stack after a misprediction: when the wrong
    path never returned past the point of the misprediction and was at most [m]
    calls deep, restoring the checkpointed position gives back the top
    [size - m] return addresses exactly as they were at the checkpoint. *)
Theorem ras_stack_recover s cp cp' os m :
  wf s → m ≤ size s → depth_within m 0 os = true → recover_state s cp = Ok cp' →
  ∃ s1 s2, run_ops s os = Ok s1 ∧ recover s1 cp' = Ok s2 ∧
    ∀ i, 0 ≤ i < size s - m → view s2 i = view s i.
Proof.
  intros Hwf Hm Hd [= <-]. pose proof Hwf as (Hs & Hl & Hh).
  assert (head s = (head s + 0) mod size s) as E0 by (rewrite Z.add_0_r, Z.mod_small; lia).
  pose proof (run_ops_slots s m os s 0 Hwf eq_refl Hm ltac:(lia) E0 Hd)
    as (s1 & E1 & Hwf1 & Es & Hv)%wp_exists.
  eexists s1, _. split; [done|]. split; [done|]. intros i Hi. unfold view. simpl. rewrite Es.
  by apply Hv.
Qed.

Lemma ras_stack_recover_witness :
  ∃ s s1 s2, push_all (create 4) [10; 20; 30] = Ok s ∧
    run_ops s [OpPush 99; OpPop] = Ok s1 ∧ recover s1 (mk_chkpt (head s)) = Ok s2 ∧
    view s2 0 = Ok 30 ∧ view s2 2 = Ok 10.
Proof.
  destruct (push_all (create 4) [10; 20; 30]) as [s|] eqn:E; [|discriminate E].
  assert (wf s) as Hwf.
  { pose proof (push_all_view (create 4) [10; 20; 30] (RAS_stack_create_ok 4 ltac:(lia))) as H.
    by apply (wp_ok _ _ _ E) in H as [? _]. }
  assert (size s = 4) as Es by (injection E as <-; reflexivity).
  destruct (ras_stack_recover s get_state (mk_chkpt (head s)) [OpPush 99; OpPop] 1 Hwf) as (s1 & s2 & E1 & E2 & Hv);
    [lia|reflexivity|reflexivity|].
  exists s, s1, s2. split_and!; [done|exact E1|exact E2|..]; rewrite Hv by lia;
    injection E as <-; reflexivity.
Defined.

(** Without the depth condition the repair is partial: a return followed by a
    call on the wrong path overwrites the top of the stack. *)
Lemma RAS_stack_pop_push_corrupts :
  (let* s := push_all (create 4) [10; 20] in
   let* s1 := run_ops s [OpPop; OpPush 99] in
   let* s2 := recover s1 (mk_chkpt (head s)) in
   let* before := view s 0 in
   let* after := view s2 0 in Ok (before, after)) = Ok (20, 99).
Proof. vm_compute. reflexivity. Qed.

(** The size is not checked: with an empty stack the first return is out of bounds. *)
Lemma RAS_stack_empty_pop : pop (create 0) = Fault OutOfBounds.
Proof. reflexivity. Qed.

End RAS_stack.

Module RAS_multistack.

(** Source: src/xiosim/ZCOMPS-ras/ras-multistack.cpp:26-29 stack_entry_t. *)
Record stack_entry_t : Type := mk_entry { addr : Z; valid : bool }.

(** Source: src/xiosim/ZCOMPS-ras/ras-multistack.cpp:31-39 RAS_multistack_t. *)
Record t : Type := mk {
  stats : ras_stats;
  spec_stack : list stack_entry_t;
  real_stack : list Z;
  spec_size : Z;
  real_size : Z;
  spec_head : Z;
  real_head : Z;
  spec_to_real_head : Z
}.

(** Source: src/xiosim/ZCOMPS-ras/ras-multistack.cpp:44-69 RAS_multistack_t::RAS_multistack_t.
    [real_stack] is allocated with [spec_size] entries. *)
Definition create (arg_num_spec_entries arg_num_real_entries : Z) : t :=
  mk ras_init (replicate (Z.to_nat arg_num_spec_entries) (mk_entry 0 false))
    (replicate (Z.to_nat arg_num_spec_entries) 0) arg_num_spec_entries arg_num_real_entries 0 0 0.

(** Source: src/xiosim/ZCOMPS-ras/ras-multistack.cpp:84-88 RAS_multistack_t::real_push. *)
Definition real_push (s : t) (ftPC : Z) : result t :=
  let head' := modinc (real_head s) (real_size s) in
  let* l := aset (real_stack s) head' ftPC in
  Ok (mk (stats s) (spec_stack s) l (spec_size s) (real_size s) (spec_head s) head'
        (spec_to_real_head s)).

(** Source: src/xiosim/ZCOMPS-ras/ras-multistack.cpp:91-97 RAS_multistack_t::real_pop. *)
Definition real_pop (s : t) : result (t * Z) :=
  let* predPC := aget (real_stack s) (real_head s) in
  Ok (mk (stats s) (spec_stack s) (real_stack s) (spec_size s) (real_size s) (spec_head s)
        (moddec (real_head s) (real_size s)) (spec_to_real_head s), predPC).

(** Source: src/xiosim/ZCOMPS-ras/ras-multistack.cpp:101-107 RAS_multistack_t::push. *)
Definition push (s : t) (ftPC : Z) : result t :=
  let head' := modinc (spec_head s) (spec_size s) in
  let* l := aset (spec_stack s) head' (mk_entry ftPC true) in
  Ok (mk (stats s) l (real_stack s) (spec_size s) (real_size s) head' (real_head s)
        (modinc (spec_to_real_head s) (real_size s))).

(** Source: src/xiosim/ZCOMPS-ras/ras-multistack.cpp:111-122 RAS_multistack_t::pop. *)
Definition pop (s : t) : result (t * Z) :=
  let* e := aget (spec_stack s) (spec_head s) in
  let* predPC := (if valid e then Ok (addr e) else aget (real_stack s) (spec_to_real_head s)) in
  Ok (mk (stats s) (spec_stack s) (real_stack s) (spec_size s) (real_size s)
        (moddec (spec_head s) (spec_size s)) (real_head s)
        (moddec (spec_to_real_head s) (real_size s)), predPC).

(** Source: src/xiosim/ZCOMPS-ras/ras-multistack.cpp:126-134 RAS_multistack_t::recover. *)
Definition recover (s : t) (k : unit) : result t :=
  let* l := for_range 0 (spec_size s) (λ i l,
              amodify l i (λ e, mk_entry (addr e) false)) (spec_stack s) in
  Ok (mk (count_recover (stats s)) l (real_stack s) (spec_size s) (real_size s) (spec_head s)
        (real_head s) (real_head s)).

#[export] Instance ras : Ras t unit := {
  rs_stats := stats;
  rs_with_stats s st := mk st (spec_stack s) (real_stack s) (spec_size s) (real_size s)
                          (spec_head s) (real_head s) (spec_to_real_head s);
  rs_push := push;
  rs_pop s _ := pop s;
  rs_recover := recover;
  rs_recover_state := base_recover_state;
  rs_real_push := real_push;
  rs_real_pop := real_pop;
  rs_get_state _ := tt
}.

(** The real stack must not be larger than the speculative one. *)
Definition wf (s : t) : Prop :=
  1 ≤ real_size s ∧ real_size s ≤ spec_size s < 2 ^ 31 ∧
  Z.of_nat (length (spec_stack s)) = spec_size s ∧
  Z.of_nat (length (real_stack s)) = spec_size s ∧
  0 ≤ spec_head s < spec_size s ∧ 0 ≤ real_head s < real_size s ∧
  0 ≤ spec_to_real_head s < real_size s.

Lemma RAS_multistack_create_ok n m : 1 ≤ m ≤ n → n < 2 ^ 31 → wf (create n m).
Proof. intros. unfold wf, create. simpl. rewrite !length_replicate. lia. Qed.

(** Recovery invalidates every speculative entry. *)
Lemma recover_spec s k : wf s →
  wp (recover s k) (λ s', wf s' ∧ Forall (λ e, valid e = false) (spec_stack s') ∧
    real_stack s' = real_stack s ∧ real_size s' = real_size s ∧
    real_head s' = real_head s ∧ spec_to_real_head s' = real_head s).
Proof.
  intros (? & ? & Ls & Lr & ? & ? & ?). unfold recover. apply wp_bind.
  apply (wp_for_range (λ i l, length l = length (spec_stack s) ∧
    ∀ j e, Z.of_nat j < i → l !! j = Some e → valid e = false)); [lia|split; [done|lia]| |].
  - intros i l Hi [Hl Hj]. apply wp_bind. wp_array. wp_array.
    split; [by rewrite length_insert|]. intros j e Hji He.
    destruct (decide (j = Z.to_nat i)) as [->|].
    + rewrite list_lookup_insert_eq in He by lia. by injection He as <-.
    + rewrite list_lookup_insert_ne in He by done. apply (Hj j e); [lia|done].
  - intros l [Hl Hj]. simpl. unfold wf. simpl. rewrite Hl. split_and!; try done; try lia.
    apply Forall_lookup. intros j e He. apply (Hj j e); [|done].
    apply lookup_lt_Some in He. lia.
Qed.

#[export] Instance ras_ok : RasOk t unit.
Proof.
  refine {| rs_wf := wf; rs_ref := λ _ _, True |}; simpl; try done.
  - intros s x (? & ? & ? & ? & ? & ? & ?).
    pose proof (modinc_range (spec_head s) (spec_size s) ltac:(lia) ltac:(lia)).
    pose proof (modinc_range (spec_to_real_head s) (real_size s) ltac:(lia) ltac:(lia)).
    apply wp_bind. wp_array. split; [|done]. unfold wf. simpl. rewrite length_insert. lia.
  - intros s _ (? & ? & ? & ? & ? & ? & ?).
    pose proof (moddec_range (spec_head s) (spec_size s) ltac:(lia) ltac:(lia)).
    pose proof (moddec_range (spec_to_real_head s) (real_size s) ltac:(lia) ltac:(lia)).
    apply wp_bind. wp_array. apply wp_bind. apply (wp_mono _ (λ _, True)).
    { destruct (valid _); [done|]. by wp_array. }
    intros p _. simpl. split; [|done]. unfold wf. simpl. lia.
  - intros s k Hwf _. eapply wp_mono; [by apply recover_spec|]. intros s' [? _]. done.
  - intros s x (? & ? & ? & ? & ? & ? & ?).
    pose proof (modinc_range (real_head s) (real_size s) ltac:(lia) ltac:(lia)).
    apply wp_bind. wp_array. split; [|done]. unfold wf. simpl. rewrite length_insert. lia.
  - intros s (? & ? & ? & ? & ? & ? & ?).
    pose proof (moddec_range (real_head s) (real_size s) ltac:(lia) ltac:(lia)).
    apply wp_bind. wp_array. split; [|done]. unfold wf. simpl. lia.
Defined.

Fixpoint pop_n (s : t) (k : nat) : result (list Z) :=
  match k with
  | O => Ok []
  | S k => let* x := pop s in let* ys := pop_n x.1 k in Ok (x.2 :: ys)
  end.

Fixpoint real_pop_n (s : t) (k : nat) : result (list Z) :=
  match k with
  | O => Ok []
  | S k => let* x := real_pop s in let* ys := real_pop_n x.1 k in Ok (x.2 :: ys)
  end.

Lemma pop_n_invalid k s r : wf s → wf r → Forall (λ e, valid e = false) (spec_stack s) →
  real_stack s = real_stack r → real_size s = real_size r →
  spec_to_real_head s = real_head r → pop_n s k = real_pop_n r k.
Proof.
  revert s r. induction k as [|k IH]; intros s r Hs Hr HF Est Esz Eh; [done|]. simpl.
  pose proof (rs_pop_ok s 0 Hs) as (x & Ex & Hx)%wp_exists.
  pose proof (rs_real_pop_ok r Hr) as (y & Ey & Hy)%wp_exists.
  destruct x as [s1 x], y as [r1 y]. destruct Hx as [Hs1 _], Hy as [Hr1 _]. simpl in Ex, Ey.
  rewrite Ex, Ey. simpl. unfold pop in Ex. unfold real_pop in Ey.
  apply bind_Ok_inv in Ex as (e & Ee & Ex). apply aget_inv in Ee as [_ Ee].
  rewrite (Forall_lookup_1 _ _ _ _ HF Ee) in Ex. rewrite Est, Eh in Ex.
  apply bind_Ok_inv in Ex as (v & Ev & Ex). rewrite Ev in Ey. simpl in Ey.
  injection Ex as <- <-. injection Ey as <- <-.
  rewrite (IH _ _ Hs1 Hr1); simpl; try done; [congruence].
Qed.

(** C23. After a misprediction the two-stack predictor predicts from the committed
    calls alone: the next [k] speculative returns get exactly the addresses that
    the committed stack would return, whatever the wrong path pushed. *)
Theorem multistack_recover_resyncs s k s1 n : wf s → recover s k = Ok s1 →
  ∃ xs, pop_n s1 n = Ok xs ∧ real_pop_n s n = Ok xs.
Proof.
  intros Hwf E. pose proof (recover_spec s k Hwf) as Hs.
  apply (wp_ok _ _ _ E) in Hs as (Hwf1 & HF & Est & Esz & _ & Eh).
  rewrite (pop_n_invalid n s1 s Hwf1 Hwf HF Est Esz Eh).
  enough (∃ xs, real_pop_n s n = Ok xs) as (xs & ->) by eauto.
  clear -Hwf. revert s Hwf. induction n as [|n IH]; intros s Hwf; [by eexists|]. simpl.
  pose proof (rs_real_pop_ok s Hwf) as (y & Ey & Hy)%wp_exists. destruct y as [r y].
  simpl in Ey. rewrite Ey. simpl. destruct (IH r) as (xs & ->); [apply Hy|]. by eexists.
Qed.

Lemma multistack_recover_resyncs_witness :
  ∃ s s1, real_push (create 4 4) 10 = Ok s ∧ recover s tt = Ok s1 ∧ pop_n s1 1 = Ok [10].
Proof.
  destruct (real_push (create 4 4) 10) as [s|] eqn:E; [|discriminate E].
  assert (wf s) as Hwf.
  { pose proof (rs_real_push_ok (create 4 4) 10 (RAS_multistack_create_ok 4 4 ltac:(lia) ltac:(lia))) as H.
    by apply (wp_ok _ _ _ E) in H as [? _]. }
  destruct (recover s tt) as [s1|] eqn:Er; [|injection E as <-; vm_compute in Er; discriminate Er].
  destruct (multistack_recover_resyncs s tt s1 1 Hwf Er) as (xs & Ex & Erx).
  exists s, s1. split_and!; [done|done|]. rewrite Ex. injection E as <-. vm_compute in Erx.
  by injection Erx as <-.
Defined.

(** A real stack larger than the speculative one is written out of bounds: it
    is allocated with [spec_size] entries. *)
Lemma RAS_multistack_real_stack_overflow x : real_push (create 1 2) x = Fault OutOfBounds.
Proof. reflexivity. Qed.

End RAS_multistack.
