(* ===== verification/BTBList.v ===== *)
(** * BTBList: the doubly linked sets of the branch target buffers

    btb-btac.cpp and btb-2levbtac.cpp keep every set as a doubly linked list of
    entries in most-recently-used order, [set[i]] pointing at its front.  The
    entries are allocated once; a lookup walks the list, an update moves an
    entry to the front by pointer surgery.  Here the entries live in a heap
    indexed by pointers; the refinement relates the heap to the sequences of
    pointers it represents. *)

From S2P Require Import Prelude.

Module btb_list.

(** Source: src/xiosim/ZCOMPS-btb/btb-btac.cpp:25-31 BTB_btac_Entry_t. *)
Record entry : Type := mk_entry {
  e_PC : Z;
  e_target : Z;
  e_prev : option Z;
  e_next : option Z
}.

(** The allocated entries and the array [set] of the fronts. *)
Record sets : Type := mk_sets { heap : list entry; heads : list (option Z) }.

Definition set_next (n : option Z) (e : entry) : entry := mk_entry (e_PC e) (e_target e) (e_prev e) n.
Definition set_prev (n : option Z) (e : entry) : entry := mk_entry (e_PC e) (e_target e) n (e_next e).
Definition set_target (x : Z) (e : entry) : entry := mk_entry (e_PC e) x (e_prev e) (e_next e).
Definition set_PC (x : Z) (e : entry) : entry := mk_entry x (e_target e) (e_prev e) (e_next e).

(** [while(p) { if(stop) break; pos++; p = p->next; }]: the pointer at the
    break, null when the list ends.  The fuel is the number of entries: only a
    cyclic list outlives it. *)
Fixpoint walk (fuel : nat) (h : list entry) (stop : Z → entry → bool) (pos : Z) (p : option Z)
  : result (option Z) :=
  match p with
  | None => Ok None
  | Some i =>
      match fuel with
      | O => Fault Diverge
      | S fuel =>
          let* e := aget h i in
          if stop pos e then Ok (Some i) else walk fuel h stop (pos + 1) (e_next e)
      end
  end.

Definition walk_set (s : sets) (stop : Z → entry → bool) (p : option Z) : result (option Z) :=
  walk (length (heap s)) (heap s) stop 0 p.

(** Source: src/xiosim/ZCOMPS-btb/btb-btac.cpp:192-202 BTB_btac_t::update.
    Put entry [p] to the front of set [si]; nothing to do when it is there. *)
Definition to_front (s : sets) (si p : Z) : result sets :=
  let* e := aget (heap s) p in
  match e_prev e with
  | None => Ok s
  | Some q =>
      let* h := amodify (heap s) q (set_next (e_next e)) in
      let* e := aget h p in
      let* h := match e_next e with
                | Some r => amodify h r (set_prev (e_prev e))
                | None => Ok h
                end in
      let* front := aget (heads s) si in
      let* f := deref front in
      let* h := amodify h f (set_prev (Some p)) in
      let* h := amodify h p (λ e, set_next front (set_prev None e)) in
      let* hs := aset (heads s) si (Some p) in
      Ok (mk_sets h hs)
  end.

(** Source: src/xiosim/ZCOMPS-btb/btb-btac.cpp:83-100 BTB_btac_t::BTB_btac_t.
    The entries of set [i] are allocated as [i*num_ways .. i*num_ways+num_ways-1],
    each pushed in front of the previous one. *)
Definition init_entry (num_ways p : Z) : entry :=
  mk_entry 0 0 (if p mod num_ways =? num_ways - 1 then None else Some (p + 1))
    (if p mod num_ways =? 0 then None else Some (p - 1)).

Definition init_sets (num_entries num_ways : Z) : sets :=
  mk_sets (init_entry num_ways <$> seqZ 0 (num_entries * num_ways))
    ((λ i, Some (i * num_ways + (num_ways - 1))) <$> seqZ 0 num_entries).

(** ** List segments *)

(** The entries [xs], linked from [first], preceded by [prev], followed by [last]. *)
Fixpoint seg (h : list entry) (prev first : option Z) (xs : list Z) (last : option Z) : Prop :=
  match xs with
  | [] => first = last
  | x :: xs => first = Some x ∧
      ∃ e, aget h x = Ok e ∧ e_prev e = prev ∧ seg h (Some x) (e_next e) xs last
  end.

Definition last_or (prev : option Z) (xs : list Z) : option Z :=
  match list.last xs with Some x => Some x | None => prev end.

Lemma seg_app h a b xs ys c :
  seg h a b (xs ++ ys) c ↔ ∃ m, seg h a b xs m ∧ seg h (last_or a xs) m ys c.
Proof.
  revert a b. induction xs as [|x xs IH]; intros a b; simpl.
  - split; [by eexists|by intros (m & <- & ?)].
  - assert (last_or (Some x) xs = last_or a (x :: xs)) as Hl.
    { unfold last_or. rewrite last_cons. by destruct (list.last xs). }
    split.
    + intros (-> & e & He & Hp & (m & H1 & H2)%IH). exists m. rewrite Hl in H2. eauto 8.
    + intros (m & (-> & e & He & Hp & H1) & H2). split; [done|]. exists e.
      split_and!; [done..|]. apply IH. exists m. by rewrite Hl.
Qed.

Lemma seg_frame h h' a b xs c : (∀ x, x ∈ xs → aget h' x = aget h x) →
  seg h a b xs c → seg h' a b xs c.
Proof.
  revert a b. induction xs as [|x xs IH]; intros a b Hf; simpl; [done|].
  intros (-> & e & He & Hp & H). split; [done|]. exists e.
  rewrite Hf by apply list_elem_of_here. split_and!; [done..|].
  apply IH; [|done]. intros y Hy. apply Hf. by apply list_elem_of_further.
Qed.

Lemma seg_in h a b xs c x : seg h a b xs c → x ∈ xs → ∃ e, aget h x = Ok e.
Proof.
  revert a b. induction xs as [|y xs IH]; intros a b; simpl; [intros _ []%not_elem_of_nil|].
  intros (-> & e & He & _ & H) [->|Hx]%elem_of_cons; [eauto|by eapply IH].
Qed.

(** Writing one entry. *)
Definition hset (h : list entry) (p : Z) (e : entry) : list entry := <[Z.to_nat p := e]> h.

Lemma aget_hset_eq h p e0 e : aget h p = Ok e0 → aget (hset h p e) p = Ok e.
Proof.
  intros [Hp _]%aget_inv. unfold aget, hset. rewrite (proj2 (Z.ltb_ge p 0)) by lia.
  by rewrite list_lookup_insert_eq by lia.
Qed.

Lemma aget_hset_ne h p e x : 0 ≤ p → x ≠ p → aget (hset h p e) x = aget h x.
Proof.
  intros Hp Hne. unfold aget, hset. destruct (Z.ltb_spec x 0); [done|].
  by rewrite list_lookup_insert_ne by lia.
Qed.

Lemma amodify_hset h p f e : aget h p = Ok e → amodify h p f = Ok (hset h p (f e)).
Proof.
  intros E. unfold amodify. rewrite E. simpl. apply aget_inv in E as [? _]. by apply aset_ok.
Qed.

Lemma seg_hset_out h a b xs c p e0 e : aget h p = Ok e0 → p ∉ xs →
  seg h a b xs c → seg (hset h p e) a b xs c.
Proof.
  intros [Hp _]%aget_inv Hx. apply seg_frame. intros x Hin.
  apply aget_hset_ne; [lia|]. by intros ->.
Qed.

(** Relinking the last entry of a segment. *)
Lemma seg_set_last h a b xs q m m' e : NoDup (xs ++ [q]) → aget h q = Ok e →
  seg h a b (xs ++ [q]) m → seg (hset h q (set_next m' e)) a b (xs ++ [q]) m'.
Proof.
  intros Hnd Eq (m1 & H1 & H2)%seg_app. apply seg_app. exists m1. split.
  - eapply seg_hset_out; [done| |done]. apply list.NoDup_app in Hnd as (_ & Hd & _).
    intros Hq. by apply (Hd q Hq), list_elem_of_here.
  - simpl in *. destruct H2 as (-> & e' & Ee & Hp & _). rewrite Eq in Ee. injection Ee as <-.
    split; [done|]. eexists. split; [by eapply aget_hset_eq|]. done.
Qed.

(** Relinking the first entry of a segment. *)
Lemma seg_set_first h a a' x xs c e : NoDup (x :: xs) → aget h x = Ok e →
  seg h a (Some x) (x :: xs) c → seg (hset h x (set_prev a' e)) a' (Some x) (x :: xs) c.
Proof.
  intros [Hx Hnd]%list.NoDup_cons Ex (_ & e' & Ee & Hp & H). rewrite Ex in Ee. injection Ee as <-.
  split; [done|]. eexists. split; [by eapply aget_hset_eq|]. split; [done|]. simpl.
  by eapply seg_hset_out.
Qed.

(** The part of an entry a list operation does not touch. *)
Definition data (e : entry) : Z * Z := (e_PC e, e_target e).

Definition same_data (h h' : list entry) : Prop :=
  length h' = length h ∧ ∀ x e, aget h x = Ok e → ∃ e', aget h' x = Ok e' ∧ data e' = data e.

Lemma same_data_refl h : same_data h h.
Proof. split; eauto. Qed.

Lemma same_data_trans h1 h2 h3 : same_data h1 h2 → same_data h2 h3 → same_data h1 h3.
Proof.
  intros [L1 H1] [L2 H2]. split; [congruence|]. intros x e (e2 & E2 & D2)%H1.
  apply H2 in E2 as (e3 & E3 & D3). exists e3. split; [done|congruence].
Qed.

Lemma same_data_hset h p e e' : aget h p = Ok e → data e' = data e → same_data h (hset h p e').
Proof.
  intros Ep Hd. split; [apply length_insert|]. intros x ex Ex.
  destruct (decide (x = p)) as [->|Hne].
  - rewrite Ep in Ex. injection Ex as <-. exists e'. split; [by eapply aget_hset_eq|done].
  - exists ex. apply aget_inv in Ep as [? _]. by rewrite aget_hset_ne by lia.
Qed.

(** ** Walking *)

(** The first entry of [xs] at which the walk stops. *)
Fixpoint find_ptr (h : list entry) (stop : Z → entry → bool) (pos : Z) (xs : list Z) : option Z :=
  match xs with
  | [] => None
  | x :: xs =>
      match aget h x with
      | Ok e => if stop pos e then Some x else find_ptr h stop (pos + 1) xs
      | Fault _ => None
      end
  end.

Lemma walk_find fuel h stop pos a b xs : seg h a b xs None → (length xs ≤ fuel)%nat →
  walk fuel h stop pos b = Ok (find_ptr h stop pos xs).
Proof.
  revert fuel pos a b. induction xs as [|x xs IH]; intros fuel pos a b; simpl.
  - intros -> _. by destruct fuel.
  - intros (-> & e & He & _ & H) Hl. destruct fuel as [|fuel]; [lia|]. simpl. rewrite He. simpl.
    destruct (stop pos e); [done|]. eapply IH; [done|lia].
Qed.

Lemma seg_length h a b xs c : NoDup xs → seg h a b xs c → (length xs ≤ length h)%nat.
Proof.
  intros Hnd Hs. rewrite <- (Nat2Z.id (length h)), <- (length_seqZ 0).
  apply submseteq_length, NoDup_submseteq; [done|]. intros x Hx. apply elem_of_seqZ.
  destruct (seg_in _ _ _ _ _ _ Hs Hx) as (e & [He _]%aget_inv). lia.
Qed.

Lemma find_ptr_elem h stop pos xs x : find_ptr h stop pos xs = Some x →
  x ∈ xs ∧ ∃ e k, aget h x = Ok e ∧ stop k e = true.
Proof.
  revert pos. induction xs as [|y xs IH]; intros pos; simpl; [done|].
  destruct (aget h y) as [e|] eqn:E; [|done]. destruct (stop pos e) eqn:Es.
  - intros [= ->]. split; [apply list_elem_of_here|eauto].
  - intros [? ?]%IH. split; [by apply list_elem_of_further|done].
Qed.

(** ** Moving to the front *)

Lemma seg_nonempty_first h a b xs c : seg h a b xs c →
  match xs with [] => b = c | x :: _ => b = Some x end.
Proof. destruct xs; [done|]. by intros [? _]. Qed.

(** Unlinking [p]: its neighbours point at each other. *)
Lemma unlink_spec h a b l0 q p r e : NoDup ((l0 ++ [q]) ++ p :: r) →
  seg h a b ((l0 ++ [q]) ++ p :: r) None → aget h p = Ok e →
  wp (let* h1 := amodify h q (set_next (e_next e)) in
      let* e1 := aget h1 p in
      match e_next e1 with
      | Some x => amodify h1 x (set_prev (e_prev e1))
      | None => Ok h1
      end) (λ h', seg h' a b ((l0 ++ [q]) ++ r) None ∧ same_data h h' ∧ aget h' p = Ok e ∧
        ∀ x, x ∉ (l0 ++ [q]) ++ p :: r → aget h' x = aget h x).
Proof.
  intros Hnd Hs He. apply list.NoDup_app in Hnd as (Hndl & Hdis & [Hpr Hndr]%list.NoDup_cons).
  apply seg_app in Hs as (m & H1 & H2). simpl in H2. destruct H2 as (-> & e' & Ee & Hp & H2).
  rewrite He in Ee. injection Ee as <-.
  assert (q ∈ l0 ++ [q]) as Hq by (apply elem_of_app; right; apply list_elem_of_here).
  assert (q ≠ p) as Hqp by (intros ->; by apply (Hdis p Hq), list_elem_of_here).
  assert (p ∉ l0 ++ [q]) as Hpl by (intros Hpl; by apply (Hdis p Hpl), list_elem_of_here).
  destruct (seg_in _ _ _ _ _ _ H1 Hq) as (eq & Eq). pose proof Eq as [Hqr _]%aget_inv.
  rewrite (amodify_hset _ _ _ _ Eq). simpl.
  pose proof (seg_set_last _ _ _ _ _ _ (e_next e) _ Hndl Eq H1) as H1'.
  rewrite aget_hset_ne, He by (lia || done). simpl.
  assert (q ∉ r) as Hqr' by (intros Hin; apply (Hdis q Hq); by apply list_elem_of_further).
  pose proof (seg_hset_out _ _ _ _ _ _ _ (set_next (e_next e) eq) Eq Hqr' H2) as H2'.
  assert (last_or a (l0 ++ [q]) = Some q) as Hla by (unfold last_or; by rewrite last_snoc).
  rewrite Hla in Hp. rewrite Hp.
  pose proof (same_data_hset h q eq (set_next (e_next e) eq) Eq eq_refl) as Hd.
  destruct r as [|x r].
  - simpl in H2'. rewrite H2' in Hd, H1' |- *. simpl. split_and!.
    + by rewrite app_nil_r.
    + done.
    + by rewrite aget_hset_ne by (lia || done).
    + intros y Hy. apply aget_hset_ne; [lia|]. intros ->. apply Hy, elem_of_app. by left.
  - pose proof (seg_nonempty_first _ _ _ _ _ H2') as Ex. rewrite Ex in *.
    destruct (seg_in _ _ _ _ _ x H2' ltac:(apply list_elem_of_here)) as (ex & Ex').
    rewrite (amodify_hset _ _ _ _ Ex'). simpl. pose proof Ex' as [Hxr _]%aget_inv.
    pose proof (seg_set_first _ _ (Some q) _ _ _ _ Hndr Ex' H2') as H2''.
    assert (x ≠ p) as Hxp by (intros ->; by apply Hpr, list_elem_of_here).
    split_and!.
    + apply seg_app. exists (Some x). split; [|by rewrite Hla].
      eapply seg_hset_out; [done| |done]. intros Hin. by apply (Hdis x Hin), list_elem_of_further, list_elem_of_here.
    + eapply same_data_trans; [done|]. by eapply same_data_hset.
    + rewrite !aget_hset_ne by (lia || done). done.
    + intros y Hy. rewrite aget_hset_ne; [|lia|].
      * apply aget_hset_ne; [lia|]. intros ->. apply Hy, elem_of_app. by left.
      * intros ->. apply Hy, elem_of_app. right. by apply list_elem_of_further, list_elem_of_here.
Qed.

Lemma to_front_spec s si p l r hd : aget (heads s) si = Ok hd → NoDup (l ++ p :: r) →
  seg (heap s) None hd (l ++ p :: r) None →
  wp (to_front s si p) (λ s',
    aget (heads s') si = Ok (Some p) ∧ seg (heap s') None (Some p) (p :: l ++ r) None ∧
    same_data (heap s) (heap s') ∧
    (∀ x, x ∉ l ++ p :: r → aget (heap s') x = aget (heap s) x) ∧
    (∀ j, j ≠ si → aget (heads s') j = aget (heads s) j) ∧ length (heads s') = length (heads s)).
Proof.
  intros Hh Hnd Hs.
  assert (p ∈ l ++ p :: r) as Hpin by (apply elem_of_app; right; apply list_elem_of_here).
  destruct (seg_in _ _ _ _ _ _ Hs Hpin) as (e & He). unfold to_front. rewrite He. simpl.
  destruct l as [|x0 l0] using rev_ind; [|clear IHl0; rename x0 into q].
  - simpl in Hs. destruct Hs as (-> & e' & Ee & Hp & Hs). rewrite He in Ee. injection Ee as <-.
    rewrite Hp. simpl. split; [done|]. split; [split; [done|]; by exists e|].
    split; [apply same_data_refl|]. done.
  - pose proof Hs as Hs'. apply seg_app in Hs' as (m & _ & H2). simpl in H2.
    destruct H2 as (-> & e' & Ee & Hp & _). rewrite He in Ee. injection Ee as <-.
    unfold last_or in Hp. rewrite last_snoc in Hp. rewrite Hp.
    pose proof (unlink_spec _ _ _ _ _ _ _ _ Hnd Hs He) as Hu.
    apply wp_bind_inv in Hu. apply wp_bind. eapply wp_mono; [exact Hu|]. intros h1 Hu1.
    apply wp_bind_inv in Hu1. apply wp_bind. eapply wp_mono; [exact Hu1|]. intros e1 Hu2.
    apply wp_bind. eapply wp_mono; [exact Hu2|]. intros h2 (Hs2 & Hd2 & Ep2 & Hf2).
    clear Hu Hu1 Hu2. rewrite Hh. simpl.
    pose proof Hnd as Hnd'. apply list.NoDup_app in Hnd' as (Hndl & Hdis & [Hpr Hndr]%list.NoDup_cons).
    assert (NoDup ((l0 ++ [q]) ++ r)) as Hndn.
    { apply list.NoDup_app. split_and!; try done. intros y Hy Hyr.
      apply (Hdis y Hy). by apply list_elem_of_further. }
    assert (p ∉ (l0 ++ [q]) ++ r) as Hpn.
    { intros [Hin|Hin]%elem_of_app; [|done]. by apply (Hdis p Hin), list_elem_of_here. }
    destruct ((l0 ++ [q]) ++ r) as [|f ys] eqn:Eys; [by destruct l0|].
    pose proof (seg_nonempty_first _ _ _ _ _ Hs2) as ->. simpl.
    destruct (seg_in _ _ _ _ _ f Hs2 ltac:(apply list_elem_of_here)) as (ef & Ef).
    rewrite (amodify_hset _ _ _ _ Ef). simpl. pose proof Ef as [Hfr _]%aget_inv.
    pose proof (seg_set_first _ _ (Some p) _ _ _ _ Hndn Ef Hs2) as Hs3.
    assert (p ≠ f) as Hpf by (intros ->; by apply Hpn, list_elem_of_here).
    assert (aget (hset h2 f (set_prev (Some p) ef)) p = Ok e) as Ep3
      by (by rewrite aget_hset_ne by (lia || done)).
    rewrite (amodify_hset _ _ _ _ Ep3). simpl. pose proof Ep3 as [Hpr' _]%aget_inv.
    pose proof Hh as [Hsi _]%aget_inv. rewrite aset_ok by done. simpl. split_and!.
    + eapply aget_aset_eq. by apply aset_ok.
    + done.
    + eexists. split; [by eapply aget_hset_eq|]. split; [done|].
      by apply (seg_hset_out _ (Some p) (Some f) (f :: ys) None p e).
    + eapply same_data_trans; [done|]. eapply same_data_trans; by eapply same_data_hset.
    + intros x Hx. assert (x ≠ p) by (by intros ->).
      assert (x ≠ f).
      { intros ->. apply Hx. assert (f ∈ (l0 ++ [q]) ++ r) as Hin by (rewrite Eys; apply list_elem_of_here).
        apply elem_of_app in Hin as [?|?]; apply elem_of_app; [by left|right; by apply list_elem_of_further]. }
      rewrite !aget_hset_ne by (lia || done). by apply Hf2.
    + intros j Hj. eapply aget_aset_ne; [by apply aset_ok|congruence].
    + apply length_insert.
Qed.

(** ** All the sets *)

(** The heap represents the sequences [xss], one per set, disjoint. *)
Definition rep (s : sets) (xss : list (list Z)) : Prop :=
  length xss = length (heads s) ∧
  (∀ i xs, xss !! i = Some xs →
     xs ≠ [] ∧ NoDup xs ∧ ∃ hd, heads s !! i = Some hd ∧ seg (heap s) None hd xs None) ∧
  (∀ i j xs ys x, xss !! i = Some xs → xss !! j = Some ys → x ∈ xs → x ∈ ys → i = j).

Lemma rep_set s xss i : rep s xss → 0 ≤ i < Z.of_nat (length (heads s)) →
  ∃ xs hd, xss !! Z.to_nat i = Some xs ∧ xs ≠ [] ∧ NoDup xs ∧ aget (heads s) i = Ok hd ∧
    seg (heap s) None hd xs None.
Proof.
  intros (Hl & Hx & _) Hi. destruct (lookup_lt_is_Some_2 xss (Z.to_nat i) ltac:(lia)) as (xs & Exs).
  destruct (Hx _ _ Exs) as (Hne & Hnd & hd & Ehd & Hs). exists xs, hd. split_and!; try done.
  unfold aget. rewrite (proj2 (Z.ltb_ge _ _)), Ehd by lia. done.
Qed.

Lemma rep_to_front s xss i p l r : rep s xss → xss !! i = Some (l ++ p :: r) →
  wp (to_front s (Z.of_nat i) p) (λ s', rep s' (<[i := p :: l ++ r]> xss) ∧
    same_data (heap s) (heap s') ∧ length (heads s') = length (heads s)).
Proof.
  intros (Hl & Hx & Hd) Ei. pose proof (Hx _ _ Ei) as (_ & Hnd & hd & Ehd & Hs).
  pose proof (lookup_lt_Some _ _ _ Ei) as Hi.
  assert (aget (heads s) (Z.of_nat i) = Ok hd) as Eh.
  { unfold aget. by rewrite (proj2 (Z.ltb_ge _ _)), Nat2Z.id, Ehd by lia. }
  eapply wp_mono; [by eapply to_front_spec|]. intros s' (Eh' & Hs' & Hsd & Hfr & Hho & Hhl).
  assert (∀ x, x ∈ p :: l ++ r ↔ x ∈ l ++ p :: r) as Hperm.
  { intros x. rewrite elem_of_cons, !elem_of_app, elem_of_cons. tauto. }
  assert (NoDup (p :: l ++ r)) as Hnd'.
  { by rewrite Permutation_middle. }
  split; [|done]. split; [by rewrite length_insert, Hhl|split].
  - intros j xs Hj. destruct (decide (j = i)) as [->|Hne].
    + rewrite list_lookup_insert_eq in Hj by done. injection Hj as <-.
      split; [done|]. split; [done|]. exists (Some p). split; [|done].
      apply aget_inv in Eh' as [_ Eh']. by rewrite Nat2Z.id in Eh'.
    + rewrite list_lookup_insert_ne in Hj by done.
      destruct (Hx _ _ Hj) as (Hxne & Hxnd & hd' & Ehd' & Hs2). split; [done|]. split; [done|].
      exists hd'. pose proof (lookup_lt_Some _ _ _ Ehd') as Hjl. split.
      * specialize (Hho (Z.of_nat j) ltac:(lia)). unfold aget in Hho.
        rewrite !(proj2 (Z.ltb_ge _ _)), !Nat2Z.id, Ehd' in Hho by lia.
        by destruct (heads s' !! j) as [z|]; simpl in Hho; [injection Hho as ->|discriminate Hho].
      * eapply seg_frame; [|exact Hs2]. intros x Hin. apply Hfr. intros Hin2.
        by apply Hne, (Hd j i xs (l ++ p :: r) x).
  - intros a b xs ys x Ha Hb Hxa Hxb.
    assert (∀ c zs, <[i:=p :: l ++ r]> xss !! c = Some zs → x ∈ zs →
              ∃ zs', xss !! c = Some zs' ∧ x ∈ zs') as Hold.
    { intros c zs Hc Hz. destruct (decide (c = i)) as [->|].
      - rewrite list_lookup_insert_eq in Hc by done. injection Hc as <-.
        exists (l ++ p :: r). split; [done|]. by apply Hperm.
      - rewrite list_lookup_insert_ne in Hc by done. eauto. }
    destruct (Hold _ _ Ha Hxa) as (xs' & ? & ?). destruct (Hold _ _ Hb Hxb) as (ys' & ? & ?).
    by apply (Hd a b xs' ys' x).
Qed.

(** Rewriting the data of an entry leaves the lists as they are. *)
Definition same_links (e e' : entry) : Prop := e_prev e' = e_prev e ∧ e_next e' = e_next e.

Lemma seg_links h a b xs c p e e' : aget h p = Ok e → same_links e e' →
  seg h a b xs c → seg (hset h p e') a b xs c.
Proof.
  intros Ep [Hp Hn]. revert a b. induction xs as [|x xs IH]; intros a b; simpl; [done|].
  intros (-> & ex & Ex & Epx & H). split; [done|]. destruct (decide (x = p)) as [->|].
  - rewrite Ep in Ex. injection Ex as <-. exists e'. split; [by eapply aget_hset_eq|].
    split; [congruence|]. rewrite Hn. by apply IH.
  - exists ex. pose proof Ep as [? _]%aget_inv. rewrite aget_hset_ne by (lia || done).
    split_and!; [done..|]. by apply IH.
Qed.

Lemma rep_write s xss p e e' : rep s xss → aget (heap s) p = Ok e → same_links e e' →
  rep (mk_sets (hset (heap s) p e') (heads s)) xss.
Proof.
  intros (Hl & Hx & Hd) Ep Hln. split_and!; [done| |done]. intros i xs Hi.
  destruct (Hx _ _ Hi) as (? & ? & hd & ? & ?). split_and!; try done. exists hd.
  split; [done|]. by eapply seg_links.
Qed.

(** ** The initial sets *)

(** [b+n-1, ..., b] *)
Fixpoint down (b : Z) (n : nat) : list Z :=
  match n with O => [] | S n => b + Z.of_nat n :: down b n end.

Lemma down_elem b n x : x ∈ down b n ↔ b ≤ x < b + Z.of_nat n.
Proof.
  induction n as [|n IH]; simpl.
  - split; [by intros []%not_elem_of_nil|lia].
  - rewrite elem_of_cons, IH. lia.
Qed.

Lemma down_NoDup b n : NoDup (down b n).
Proof.
  induction n as [|n IH]; simpl; [apply NoDup_nil_2|].
  apply list.NoDup_cons. split; [|done]. rewrite down_elem. lia.
Qed.

Lemma init_aget n w x : 0 ≤ x < n * w →
  aget (heap (init_sets n w)) x = Ok (init_entry w x).
Proof.
  intros Hx. unfold aget. simpl. rewrite (proj2 (Z.ltb_ge _ _)) by lia.
  rewrite list_lookup_fmap, lookup_seqZ_lt by lia. simpl. do 2 f_equal. lia.
Qed.

Lemma init_seg n w i (k : nat) : 0 ≤ i < n → 1 ≤ w → Z.of_nat k ≤ w →
  seg (heap (init_sets n w)) (if Z.of_nat k =? w then None else Some (i * w + Z.of_nat k))
    (match k with O => None | S _ => Some (i * w + (Z.of_nat k - 1)) end) (down (i * w) k) None.
Proof.
  intros Hi Hw. induction k as [|k IH]; intros Hk; [done|].
  specialize (IH ltac:(lia)). cbn [down seg]. split; [do 2 f_equal; lia|].
  exists (init_entry w (i * w + Z.of_nat k)). split; [apply init_aget; nia|].
  assert ((i * w + Z.of_nat k) mod w = Z.of_nat k) as Em.
  { rewrite Z.add_comm, Z.mod_add, Z.mod_small; lia. }
  unfold init_entry. cbn [e_prev e_next]. rewrite Em. split.
  - destruct (Z.eqb_spec (Z.of_nat k) (w - 1)), (Z.eqb_spec (Z.of_nat (S k)) w); try lia; [done|].
    f_equal. lia.
  - rewrite (proj2 (Z.eqb_neq (Z.of_nat k) w)) in IH by lia. destruct k as [|k]; [done|].
    rewrite (proj2 (Z.eqb_neq (Z.of_nat (S k)) 0)) by lia.
    replace (i * w + Z.of_nat (S k) - 1) with (i * w + (Z.of_nat (S k) - 1)) by lia. exact IH.
Qed.

Lemma init_rep n w : 1 ≤ n → 1 ≤ w →
  rep (init_sets n w) ((λ i, down (i * w) (Z.to_nat w)) <$> seqZ 0 n).
Proof.
  intros Hn Hw. split_and!.
  - simpl. by rewrite !length_fmap.
  - intros i xs Hi. rewrite list_lookup_fmap in Hi. apply fmap_Some in Hi as (z & Hz & ->).
    apply lookup_seqZ in Hz as [-> Hz]. split; [|split; [apply down_NoDup|]].
    { destruct (Z.to_nat w) eqn:E; [lia|done]. }
    exists (Some (Z.of_nat i * w + (w - 1))). split.
    { simpl. rewrite list_lookup_fmap, lookup_seqZ_lt by lia. done. }
    pose proof (init_seg n w (Z.of_nat i) (Z.to_nat w) ltac:(lia) Hw ltac:(lia)) as H.
    rewrite Z2Nat.id, Z.eqb_refl in H by lia. destruct (Z.to_nat w) eqn:E; [lia|].
    rewrite Z.add_0_l. exact H.
  - intros i j xs ys x Hi Hj Hx Hy. rewrite list_lookup_fmap in Hi, Hj.
    apply fmap_Some in Hi as (a & Ha & ->). apply fmap_Some in Hj as (b & Hb & ->).
    apply lookup_seqZ in Ha as [-> Ha]. apply lookup_seqZ in Hb as [-> Hb].
    apply down_elem in Hx. apply down_elem in Hy.
    rewrite !Z2Nat.id in * by lia. nia.
Qed.

(** ** What a set holds *)

(** The data of the entries of a list, front to back. *)
Fixpoint collect (fuel : nat) (h : list entry) (p : option Z) : result (list (Z * Z)) :=
  match p with
  | None => Ok []
  | Some i =>
      match fuel with
      | O => Fault Diverge
      | S fuel => let* e := aget h i in let* l := collect fuel h (e_next e) in Ok (data e :: l)
      end
  end.

(** The (tag, target) pairs of set [i], most recently used first. *)
Definition set_contents (s : sets) (i : Z) : result (list (Z * Z)) :=
  let* p := aget (heads s) i in collect (length (heap s)) (heap s) p.

Definition data_at (h : list entry) (x : Z) : Z * Z :=
  match aget h x with Ok e => data e | Fault _ => (0, 0) end.

Lemma collect_seg fuel h a b xs : seg h a b xs None → (length xs ≤ fuel)%nat →
  collect fuel h b = Ok (data_at h <$> xs).
Proof.
  revert fuel a b. induction xs as [|x xs IH]; intros fuel a b; simpl.
  - intros -> _. by destruct fuel.
  - intros (-> & e & He & _ & H) Hl. destruct fuel as [|fuel]; [lia|]. simpl. rewrite He. simpl.
    rewrite (IH fuel _ _ H) by lia. simpl. unfold data_at at 2. by rewrite He.
Qed.

Lemma contents_rep s xss i xs : rep s xss → 0 ≤ i → xss !! Z.to_nat i = Some xs →
  set_contents s i = Ok (data_at (heap s) <$> xs).
Proof.
  intros Hrep Hi Exs. pose proof Hrep as (Hl & _). pose proof (lookup_lt_Some _ _ _ Exs).
  destruct (rep_set s xss i Hrep ltac:(lia)) as (xs' & hd & Exs' & _ & Hnd & Ehd & Hs).
  rewrite Exs in Exs'. injection Exs' as <-. unfold set_contents. rewrite Ehd. simpl.
  eapply collect_seg; [done|]. by eapply seg_length.
Qed.

Lemma same_data_at h h' x : same_data h h' → data_at h' x = data_at h x.
Proof.
  intros [Hl H]. unfold data_at. destruct (aget h x) as [e|f] eqn:E.
  - destruct (H _ _ E) as (e' & -> & ->). done.
  - destruct (aget h' x) eqn:E'; [|done]. exfalso.
    apply aget_inv in E' as [Hx _]. destruct (aget_ok h x ltac:(lia)) as (y & _ & Ey). congruence.
Qed.

Lemma data_at_hset h p e e' x : aget h p = Ok e →
  data_at (hset h p e') x = if decide (x = p) then data e' else data_at h x.
Proof.
  intros Ep. unfold data_at. case_decide as Hx.
  - subst. by erewrite aget_hset_eq.
  - apply aget_inv in Ep as [? _]. by rewrite aget_hset_ne by lia.
Qed.

(** Finding an entry by tag. *)
Definition has_tag (tag : Z) (_ : Z) (e : entry) : bool := e_PC e =? tag.

Lemma find_tag_split h a b xs c tag pos : seg h a b xs c →
  match find_ptr h (has_tag tag) pos xs with
  | Some p => ∃ l r, xs = l ++ p :: r ∧ (data_at h p).1 = tag ∧
                Forall (λ x, (data_at h x).1 ≠ tag) l
  | None => Forall (λ x, (data_at h x).1 ≠ tag) xs
  end.
Proof.
  revert a b pos. induction xs as [|x xs IH]; intros a b pos; simpl; [constructor|].
  intros (_ & e & He & _ & Hs). rewrite He. unfold has_tag at 1.
  assert (data_at h x = data e) as Ed by (unfold data_at; by rewrite He).
  destruct (Z.eqb_spec (e_PC e) tag) as [Et|Hne].
  - exists [], xs. rewrite Ed. split_and!; [done|done|constructor].
  - specialize (IH _ _ (pos + 1) Hs). destruct (find_ptr _ _ _ _) as [p|].
    + destruct IH as (l & r & -> & Ht & HF). exists (x :: l), r.
      split_and!; [done|done|]. constructor; [by rewrite Ed|done].
    + constructor; [by rewrite Ed|done].
Qed.

End btb_list.
