(* ===== verification/BTB.v ===== *)
(** * BTB: the branch target buffers of src/xiosim/ZCOMPS-btb/
    (btb-btac.cpp, btb-2levbtac.cpp, btb-perfect.cpp)

    [Btb] is the virtual interface [BTB_t] of src/xiosim/zesto-bpred.h.  A btac
    is a set-associative cache of targets, its sets linked lists in
    most-recently-used order (BTBList); the two-level one indexes it with a
    branch history as well.  The abstract specification of a set is a list of
    (tag, target) pairs, updated by move-to-front with eviction of the last. *)

From S2P Require Import Prelude BPredBase BPredGlobalHist BTBList.

(** Source: src/xiosim/zesto-bpred.h:333-338 BTB_t. *)
Record btb_stats : Type := mk_btb_stats {
  btb_hits : Z;
  btb_lookups : Z;
  btb_updates : Z;
  btb_spec_updates : Z;
  num_nt : Z;
  btb_frozen : bool
}.

(** Source: src/xiosim/zesto-bpred.cpp:469-478 BTB_t::init. *)
Definition btb_init : btb_stats := mk_btb_stats 0 0 0 0 0 false.

(** Source: src/xiosim/zesto-bpred.cpp:546-553 BTB_t::reset_stats. *)
Definition btb_reset_stats (st : btb_stats) : btb_stats := mk_btb_stats 0 0 0 0 0 (btb_frozen st).

Definition btb_count_lookup (st : btb_stats) : btb_stats :=
  if btb_frozen st then st
  else mk_btb_stats (btb_hits st) (btb_lookups st + 1) (btb_updates st) (btb_spec_updates st)
         (num_nt st) (btb_frozen st).

(** [BPRED_STAT(updates++;) BPRED_STAT(num_hits += oPC == our_target;)] *)
Definition btb_count_update (st : btb_stats) (hit : bool) : btb_stats :=
  if btb_frozen st then st
  else mk_btb_stats (btb_hits st + Z.b2z hit) (btb_lookups st) (btb_updates st + 1)
         (btb_spec_updates st) (num_nt st) (btb_frozen st).

Definition btb_count_nt (st : btb_stats) : btb_stats :=
  if btb_frozen st then st
  else mk_btb_stats (btb_hits st) (btb_lookups st) (btb_updates st) (btb_spec_updates st)
         (num_nt st + 1) (btb_frozen st).

(** Source: src/xiosim/zesto-bpred.cpp:480-492 BTB_t::spec_update. *)
Definition btb_count_spec_update (st : btb_stats) : btb_stats :=
  if btb_frozen st then st
  else mk_btb_stats (btb_hits st) (btb_lookups st) (btb_updates st) (btb_spec_updates st + 1)
         (num_nt st) (btb_frozen st).

(** Source: src/xiosim/zesto-bpred.cpp:494-500 BTB_t::recover. *)
Definition btb_base_recover {S C : Type} (s : S) (c : C) (outcome : bool) : result (S * C) := Ok (s, c).

(** Source: src/xiosim/zesto-bpred.cpp:502-505 BTB_t::flush. *)
Definition btb_base_flush {S C : Type} (s : S) (c : C) : result (S * C) := Ok (s, c).

(** Source: src/xiosim/zesto-bpred.h:324-392 BTB_t. *)
Class Btb (S C : Type) := {
  bt_stats : S → btb_stats;
  bt_with_stats : S → btb_stats → S;
  bt_lookup : S → C → bp_args → bool → result (S * C * Z);
  bt_update : S → C → bp_args → Z → bool → Z → result (S * C);
  bt_spec_update : S → C → bp_args → bool → result (S * C);
  bt_recover : S → C → bool → result (S * C);
  bt_flush : S → C → result (S * C);
  bt_get_cache : S → C
}.

Class BtbOk (S C : Type) `{BT : !Btb S C} := {
  bt_wf : S → Prop;
  bt_ref : S → C → Prop;
  bt_with_stats_ok : ∀ s st, bt_wf s → keeps bt_wf bt_ref s (bt_with_stats s st);
  bt_lookup_ok : ∀ s c a p, bt_wf s →
    wp (bt_lookup s c a p) (λ '(s', c', _), keeps bt_wf bt_ref s s' ∧ bt_ref s' c');
  bt_update_ok : ∀ s c a t p rnd, bt_wf s → bt_ref s c →
    wp (bt_update s c a t p rnd) (λ '(s', c'), keeps bt_wf bt_ref s s' ∧ bt_ref s' c');
  bt_spec_update_ok : ∀ s c a p, bt_wf s → bt_ref s c →
    wp (bt_spec_update s c a p) (λ '(s', c'), keeps bt_wf bt_ref s s' ∧ bt_ref s' c');
  bt_recover_ok : ∀ s c o, bt_wf s → bt_ref s c →
    wp (bt_recover s c o) (λ '(s', c'), keeps bt_wf bt_ref s s' ∧ bt_ref s' c');
  bt_flush_ok : ∀ s c, bt_wf s → bt_ref s c →
    wp (bt_flush s c) (λ '(s', c'), keeps bt_wf bt_ref s s' ∧ bt_ref s' c')
}.

Module BTB_perfect.

(** Source: src/xiosim/ZCOMPS-btb/btb-perfect.cpp:15-25 BTB_perfect_t. *)
Record t : Type := mk { stats : btb_stats }.

(** Source: src/xiosim/ZCOMPS-btb/btb-perfect.cpp:31-41 BTB_perfect_t::lookup. *)
Definition lookup (s : t) (c : bpred_sc_t) (a : bp_args) (our_pred : bool)
  : result (t * bpred_sc_t * Z) :=
  Ok (mk (btb_count_lookup (stats s)), mk_bpred_sc false,
      if our_pred && outcome a then oPC a else if our_pred then tPC a else 0).

(** Source: src/xiosim/ZCOMPS-btb/btb-perfect.cpp:44-52 BTB_perfect_t::update. *)
Definition update (s : t) (c : bpred_sc_t) (a : bp_args) (our_target : Z) (our_pred : bool)
  : result (t * bpred_sc_t) :=
  if negb (sc_updated c) then
    Ok (mk (btb_count_update (stats s) (oPC a =? our_target)), mk_bpred_sc true)
  else Ok (s, c).

#[export] Instance btb : Btb t bpred_sc_t := {
  bt_stats := stats;
  bt_with_stats s st := mk st;
  bt_lookup := lookup;
  bt_update s c a t p _ := update s c a t p;
  bt_spec_update s c _ _ := Ok (mk (btb_count_spec_update (stats s)), c);
  bt_recover := btb_base_recover;
  bt_flush := btb_base_flush;
  bt_get_cache _ := base_get_cache
}.

#[export] Instance btb_ok : BtbOk t bpred_sc_t.
Proof.
  refine {| bt_wf := λ _, True; bt_ref := λ _ _, True |}; try done.
  intros s c a t p r _ _. simpl. unfold update. by destruct (negb _).
Defined.

End BTB_perfect.

(** ** What the two btac classes share *)

Module btac_kernel.
Import btb_list.

Record cfg : Type := mk_cfg {
  num_entries : Z;
  num_ways : Z;
  tag_width : Z;
  tag_mask : Z;
  tag_shift : Z;
  replacement_policy : Z;
  btac_mask : Z
}.

(** The characters of the replacement policy. *)
Definition char_l : Z := 108.
Definition char_r : Z := 114.
Definition tolower (c : Z) : Z := if (65 <=? c) && (c <=? 90) then c + 32 else c.

(** [(PC>>tag_shift)&tag_mask] *)
Definition tag_of (k : cfg) (pc : Z) : Z := Z.land (Z.shiftr pc (tag_shift k)) (u64 (tag_mask k)).

(** The walk of a lookup: the entry of set [si] with the branch's tag. *)
Definition find_entry (k : cfg) (s : sets) (si pc : Z) : result (option Z) :=
  let* p := aget (heads s) si in walk_set s (has_tag (tag_of k pc)) p.

(** Where the walk for a victim stops. *)
Definition is_victim (k : cfg) (randpos : Z) (pos : Z) (e : entry) : bool :=
  ((replacement_policy k =? char_l) && bool_decide (e_next e = None))
  || ((replacement_policy k =? char_r) && (pos =? randpos)).

(** A hit: the new target, and to the front.  A miss: the victim's new target
    and tag, and to the front; there must be a victim. *)
Definition write_entry (k : cfg) (s : sets) (si : Z) (p : option Z) (a : bp_args) (rnd : Z)
  : result sets :=
  match p with
  | Some p =>
      let* h := amodify (heap s) p (set_target (oPC a)) in
      to_front (mk_sets h (heads s)) si p
  | None =>
      let* front := aget (heads s) si in
      let randpos := if replacement_policy k =? char_r then Z.rem (rnd mod 2 ^ 31) (num_ways k) else 0 in
      let* v := walk_set s (is_victim k randpos) front in
      let* p := of_option AssertFail v in
      let* h := amodify (heap s) p (set_target (oPC a)) in
      let* h := amodify h p (set_PC (tag_of k (PC a))) in
      to_front (mk_sets h (heads s)) si p
  end.

Definition wf_cfg (k : cfg) : Prop :=
  1 ≤ num_entries k ∧ 1 ≤ num_ways k < 2 ^ 31 ∧ btac_mask k = num_entries k - 1 ∧
  (replacement_policy k = char_l ∨ replacement_policy k = char_r).

(** Set [i] owns the entries [i*num_ways .. (i+1)*num_ways-1]. *)
Definition own (k : cfg) (i x : Z) : Prop := i * num_ways k ≤ x < (i + 1) * num_ways k.

Definition sets_ok (k : cfg) (s : sets) (xss : list (list Z)) : Prop :=
  rep s xss ∧ Z.of_nat (length (heads s)) = num_entries k ∧
  ∀ i xs, xss !! i = Some xs →
    Z.of_nat (length xs) = num_ways k ∧ ∀ x, x ∈ xs ↔ own k (Z.of_nat i) x.

Lemma sets_get k s xss i : sets_ok k s xss → 0 ≤ i < num_entries k →
  ∃ xs hd, xss !! Z.to_nat i = Some xs ∧ NoDup xs ∧ aget (heads s) i = Ok hd ∧
    seg (heap s) None hd xs None ∧ Z.of_nat (length xs) = num_ways k ∧ (∀ x, x ∈ xs ↔ own k i x) ∧
    (length xs ≤ length (heap s))%nat.
Proof.
  intros (Hrep & Hl & Hown) Hi.
  destruct (rep_set s xss i Hrep ltac:(lia)) as (xs & hd & Exs & _ & Hnd & Ehd & Hs).
  destruct (Hown _ _ Exs) as [Hlen Hx]. rewrite Z2Nat.id in Hx by lia.
  exists xs, hd. split_and!; try done; try apply Hx. by eapply seg_length.
Qed.

Lemma find_entry_ok k s xss i pc : sets_ok k s xss → 0 ≤ i < num_entries k →
  wp (find_entry k s i pc) (λ p, ∀ x, p = Some x → own k i x).
Proof.
  intros Hok Hi. destruct (sets_get _ _ _ _ Hok Hi) as (xs & hd & _ & _ & Ehd & Hs & _ & Hx & Hle).
  unfold find_entry, walk_set. rewrite Ehd. simpl. rewrite (walk_find _ _ _ _ _ _ _ Hs Hle). simpl.
  intros x Ex. apply Hx. by apply find_ptr_elem in Ex as [? _].
Qed.

(** The last entry of the list, for the LRU policy. *)
Lemma find_last h a b xs x pos stop : seg h a b (xs ++ [x]) None →
  (∀ k e, stop k e = bool_decide (e_next e = None)) → find_ptr h stop pos (xs ++ [x]) = Some x.
Proof.
  intros Hs Hst. revert a b pos Hs. induction xs as [|y xs IH]; intros a b pos Hs; simpl in *.
  - destruct Hs as (_ & e & He & _ & Hn). rewrite He, Hst, bool_decide_true by done. done.
  - destruct Hs as (_ & e & He & _ & Hs). rewrite He, Hst.
    apply seg_nonempty_first in Hs as Hf. destruct (xs ++ [x]) as [|z zs] eqn:E; [by destruct xs|].
    rewrite bool_decide_false by congruence. rewrite <- E in *. by eapply IH.
Qed.

(** The entry at position [r], for the random policy. *)
Lemma find_pos h a b xs c stop r pos : seg h a b xs c → (∀ k e, stop k e = (k =? r)) →
  pos ≤ r < pos + Z.of_nat (length xs) → find_ptr h stop pos xs = xs !! Z.to_nat (r - pos).
Proof.
  intros Hs Hst. revert a b pos Hs. induction xs as [|y xs IH]; intros a b pos Hs Hr; simpl in *; [lia|].
  destruct Hs as (_ & e & He & _ & Hs). rewrite He, Hst. destruct (Z.eqb_spec pos r) as [->|Hne].
  - by rewrite Z.sub_diag.
  - rewrite (IH _ _ _ Hs) by lia. by replace (Z.to_nat (r - pos)) with (S (Z.to_nat (r - (pos + 1)))) by lia.
Qed.

(** The policies the constructor lets through in lower case always find a victim. *)
Lemma victim_exists k h hd xs rnd : wf_cfg k → seg h None hd xs None →
  Z.of_nat (length xs) = num_ways k →
  ∃ p, find_ptr h (is_victim k (if replacement_policy k =? char_r
                                then Z.rem (rnd mod 2 ^ 31) (num_ways k) else 0)) 0 xs = Some p ∧
    p ∈ xs ∧ (replacement_policy k = char_l → list.last xs = Some p).
Proof.
  intros (_ & Hw & _ & Hpol) Hs Hl. destruct Hpol as [El|Er].
  - rewrite El. destruct xs as [|x xs _] using rev_ind; [simpl in Hl; lia|]. exists x. split_and!.
    + eapply find_last; [done|]. intros q e. unfold is_victim. rewrite El. simpl.
      by rewrite orb_false_r.
    + apply elem_of_app. right. apply list_elem_of_here.
    + intros _. by rewrite last_snoc.
  - rewrite Er. simpl. pose proof (Z.mod_pos_bound rnd (2 ^ 31) ltac:(lia)).
    pose proof (Z.rem_bound_pos (rnd mod 2 ^ 31) (num_ways k) ltac:(lia) ltac:(lia)).
    set (r := Z.rem _ _) in *.
    destruct (lookup_lt_is_Some_2 xs (Z.to_nat r) ltac:(lia)) as (p & Ep). exists p. split_and!.
    + erewrite find_pos; [by rewrite Z.sub_0_r|done| |lia].
      intros q e. unfold is_victim. by rewrite Er.
    + by eapply list_elem_of_lookup_2.
    + intros El. exfalso. unfold char_l, char_r in *. lia.
Qed.

(** Moving an entry to the front, then its place and its data. *)
Lemma sets_to_front k s xss i l p r : sets_ok k s xss → xss !! Z.to_nat i = Some (l ++ p :: r) → 0 ≤ i →
  wp (to_front s i p) (λ s', sets_ok k s' (<[Z.to_nat i := p :: l ++ r]> xss) ∧
    (∀ x, data_at (heap s') x = data_at (heap s) x) ∧ length (heap s') = length (heap s)).
Proof.
  intros (Hrep & Hl & Hown) Ei Hi. rewrite <- (Z2Nat.id i) at 1 by done.
  eapply wp_mono; [by eapply rep_to_front|]. intros s' (Hrep' & Hsd & Hhl).
  split; [|split; [by intros x; apply same_data_at|by destruct Hsd]]. split; [done|].
  split; [by rewrite Hhl|]. intros j xs Hj. destruct (decide (j = Z.to_nat i)) as [->|].
  - rewrite list_lookup_insert_eq in Hj by (by eapply lookup_lt_Some). injection Hj as <-.
    destruct (Hown _ _ Ei) as [Hlen Hx]. split.
    + rewrite <- Hlen. simpl. rewrite !length_app. simpl. lia.
    + intros x. rewrite <- Hx, elem_of_cons, !elem_of_app, elem_of_cons. tauto.
  - rewrite list_lookup_insert_ne in Hj by done. by apply Hown.
Qed.

Lemma sets_write k s xss p e e' : sets_ok k s xss → aget (heap s) p = Ok e → same_links e e' →
  sets_ok k (mk_sets (hset (heap s) p e') (heads s)) xss.
Proof. intros (Hrep & Hl & Hown) Ep Hln. split; [by eapply rep_write|done]. Qed.

(** What [write_entry] does to the pointer sequences and to the data. *)
Lemma write_entry_at k s xss i p e e' l r : sets_ok k s xss → 0 ≤ i →
  xss !! Z.to_nat i = Some (l ++ p :: r) → aget (heap s) p = Ok e → same_links e e' →
  wp (to_front (mk_sets (hset (heap s) p e') (heads s)) i p) (λ s',
    sets_ok k s' (<[Z.to_nat i := p :: l ++ r]> xss) ∧ length (heap s') = length (heap s) ∧
    (∀ x, data_at (heap s') x = if decide (x = p) then data e' else data_at (heap s) x)).
Proof.
  intros Hok Hi Ei Ep Hln. eapply wp_mono.
  - eapply (sets_to_front k); [by eapply sets_write|done..].
  - intros s' (Hok' & Hd & Hl). simpl in *. split; [done|]. split.
    + by rewrite Hl; unfold hset; rewrite length_insert.
    + intros x. rewrite Hd. by apply (data_at_hset _ _ e).
Qed.

(** The entry a [write_entry] writes. *)
Definition written (k : cfg) (s : sets) (xs : list Z) (p : option Z) (rnd : Z) : option Z :=
  match p with
  | Some p => Some p
  | None => find_ptr (heap s) (is_victim k (if replacement_policy k =? char_r
                               then Z.rem (rnd mod 2 ^ 31) (num_ways k) else 0)) 0 xs
  end.

Lemma write_entry_spec k s xss i xs p a rnd : wf_cfg k → sets_ok k s xss → 0 ≤ i < num_entries k →
  xss !! Z.to_nat i = Some xs → (∀ x, p = Some x → x ∈ xs) →
  wp (write_entry k s i p a rnd) (λ s', ∃ v l r, written k s xs p rnd = Some v ∧ xs = l ++ v :: r ∧
    sets_ok k s' (<[Z.to_nat i := v :: l ++ r]> xss) ∧ length (heap s') = length (heap s) ∧
    (∀ x, data_at (heap s') x = if decide (x = v)
       then (match p with Some _ => (data_at (heap s) v).1 | None => tag_of k (PC a) end, oPC a)
       else data_at (heap s) x)).
Proof.
  intros Hwf Hok Hi Exs Hp.
  destruct (sets_get _ _ _ _ Hok Hi) as (xs' & hd & Exs' & _ & Ehd & Hs & Hlen & Hx & Hle).
  rewrite Exs in Exs'. injection Exs' as <-. unfold write_entry. destruct p as [p|].
  - destruct (seg_in _ _ _ _ _ p Hs (Hp p eq_refl)) as (e & Ep).
    rewrite (amodify_hset _ _ _ _ Ep). simpl.
    destruct (list_elem_of_split xs p (Hp p eq_refl)) as (l & r & ->).
    eapply wp_mono; [eapply (write_entry_at k _ _ _ _ e); [done|lia|done|done|by split]|]. intros s' (Hok' & Hl' & Hd).
    exists p, l, r. split_and!; try done. intros x. rewrite Hd. case_decide; [|done].
    unfold data_at. by rewrite Ep.
  - rewrite Ehd. simpl. unfold walk_set. rewrite (walk_find _ _ _ _ _ _ _ Hs Hle). simpl.
    destruct (victim_exists k _ _ _ rnd Hwf Hs Hlen) as (v & Ev & Hv & _). rewrite Ev. simpl.
    destruct (seg_in _ _ _ _ _ v Hs Hv) as (e & Ep).
    rewrite (amodify_hset _ _ _ _ Ep). simpl.
    rewrite (amodify_hset _ _ _ (set_target (oPC a) e)) by (by eapply aget_hset_eq). simpl.
    assert (hset (hset (heap s) v (set_target (oPC a) e)) v (set_PC (tag_of k (PC a)) (set_target (oPC a) e))
            = hset (heap s) v (set_PC (tag_of k (PC a)) (set_target (oPC a) e))) as ->
      by (unfold hset; by rewrite list_insert_insert_eq).
    destruct (list_elem_of_split xs v Hv) as (l & r & ->).
    eapply wp_mono; [eapply (write_entry_at k _ _ _ _ e); [done|lia|done|done|by split]|]. intros s' (Hok' & Hl' & Hd).
    exists v, l, r. split_and!; done.
Qed.

Lemma write_entry_ok k s xss i p a rnd : wf_cfg k → sets_ok k s xss → 0 ≤ i < num_entries k →
  (∀ x, p = Some x → own k i x) →
  wp (write_entry k s i p a rnd) (λ s', ∃ xss', sets_ok k s' xss').
Proof.
  intros Hwf Hok Hi Hp.
  destruct (sets_get _ _ _ _ Hok Hi) as (xs & hd & Exs & _ & _ & _ & _ & Hx & _).
  eapply wp_mono; [eapply write_entry_spec; [done..|]|].
  - intros x Ex. by apply Hx, Hp.
  - intros s' (v & l & r & _ & _ & Hok' & _). eauto.
Qed.

(** ** The abstract sets: (tag, target) pairs in most-recently-used order *)

Fixpoint assoc (tag : Z) (l : list (Z * Z)) : option Z :=
  match l with
  | [] => None
  | (t, x) :: l => if t =? tag then Some x else assoc tag l
  end.

Fixpoint remove_tag (tag : Z) (l : list (Z * Z)) : list (Z * Z) :=
  match l with
  | [] => []
  | (t, x) :: l => if t =? tag then l else (t, x) :: remove_tag tag l
  end.

(** The target of [tag] becomes [x]: move to front, or evict the last. *)
Definition mru_update (tag x : Z) (l : list (Z * Z)) : list (Z * Z) :=
  (tag, x) :: match assoc tag l with Some _ => remove_tag tag l | None => removelast l end.

Lemma assoc_split tag (f : Z → Z * Z) l p r : (f p).1 = tag → Forall (λ x, (f x).1 ≠ tag) l →
  assoc tag (f <$> l ++ p :: r) = Some (f p).2 ∧
  remove_tag tag (f <$> l ++ p :: r) = f <$> (l ++ r).
Proof.
  intros Ep. induction 1 as [|x l Hx _ [IH1 IH2]]; simpl.
  - destruct (f p) as [t y] eqn:E. simpl in *. by rewrite (proj2 (Z.eqb_eq t tag)).
  - destruct (f x) as [t y] eqn:E. simpl in *. rewrite (proj2 (Z.eqb_neq t tag)) by done.
    split; [exact IH1|f_equal; exact IH2].
Qed.

Lemma assoc_none tag (f : Z → Z * Z) l : Forall (λ x, (f x).1 ≠ tag) l →
  assoc tag (f <$> l) = None.
Proof.
  induction 1 as [|x l Hx _ IH]; [done|]. simpl. destruct (f x) as [t y]. simpl in *.
  by rewrite (proj2 (Z.eqb_neq t tag)).
Qed.

Lemma NoDup_split_unique {A} (x : A) l r l' r' : NoDup (l ++ x :: r) →
  l ++ x :: r = l' ++ x :: r' → l = l' ∧ r = r'.
Proof.
  revert l'. induction l as [|y l IH]; intros [|y' l'] Hnd E; simpl in *;
    apply list.NoDup_cons in Hnd as [Hy Hnd].
  - by injection E.
  - injection E as -> ->. exfalso. apply Hy, elem_of_app. right. apply list_elem_of_here.
  - injection E as -> E. exfalso. apply Hy, elem_of_app. right. apply list_elem_of_here.
  - injection E as -> E. by destruct (IH _ Hnd E) as [-> ->].
Qed.

Lemma removelast_fmap_snoc {A B} (f : A → B) l x : removelast (f <$> l ++ [x]) = f <$> l.
Proof. rewrite fmap_app. by rewrite removelast_app, app_nil_r by done. Qed.

(** The walk of a lookup finds what the abstract set holds. *)
Lemma find_entry_assoc k s xss i pc l : sets_ok k s xss → 0 ≤ i < num_entries k →
  set_contents s i = Ok l →
  ∃ p, find_entry k s i pc = Ok p ∧ (data_at (heap s) <$> p) ≫= (λ d, Some d.2) = assoc (tag_of k pc) l.
Proof.
  intros Hok Hi El. destruct (sets_get _ _ _ _ Hok Hi) as (xs & hd & Exs & _ & Ehd & Hs & _ & _ & Hle).
  destruct Hok as (Hrep & _). rewrite (contents_rep s xss i xs Hrep ltac:(lia) Exs) in El.
  injection El as <-. unfold find_entry, walk_set. rewrite Ehd. simpl.
  rewrite (walk_find _ _ _ _ _ _ _ Hs Hle). eexists. split; [done|].
  pose proof (find_tag_split _ _ _ _ _ (tag_of k pc) 0 Hs) as Hf.
  destruct (find_ptr _ _ _ _) as [p|]; simpl.
  - destruct Hf as (l & r & -> & Et & HF). by destruct (assoc_split _ _ _ _ r Et HF) as [-> _].
  - by rewrite assoc_none.
Qed.

(** A write through the container of the walk is [mru_update] under LRU. *)
Lemma write_entry_mru k s xss i pc a l p rnd : wf_cfg k → replacement_policy k = char_l →
  sets_ok k s xss → 0 ≤ i < num_entries k → PC a = pc → set_contents s i = Ok l →
  find_entry k s i pc = Ok p →
  wp (write_entry k s i p a rnd) (λ s',
    set_contents s' i = Ok (mru_update (tag_of k pc) (oPC a) l) ∧
    ∀ j, 0 ≤ j < num_entries k → j ≠ i → set_contents s' j = set_contents s j).
Proof.
  intros Hwf Hlru Hok Hi Epc El Efe.
  destruct (sets_get _ _ _ _ Hok Hi) as (xs & hd & Exs & Hnd & Ehd & Hs & Hlen & Hx & Hle).
  pose proof Hok as (Hrep & Hheads & Hown).
  rewrite (contents_rep s xss i xs Hrep ltac:(lia) Exs) in El. injection El as <-.
  unfold find_entry, walk_set in Efe. rewrite Ehd in Efe. simpl in Efe.
  rewrite (walk_find _ _ _ _ _ _ _ Hs Hle) in Efe. injection Efe as Ep.
  pose proof (find_tag_split _ _ _ _ _ (tag_of k pc) 0 Hs) as Hf. rewrite Ep in Hf.
  eapply wp_mono; [eapply write_entry_spec; [done..|]|].
  { intros x ->. by apply find_ptr_elem in Ep as [? _]. }
  intros s' (v & l & r & Ev & -> & Hok' & Hlh & Hd). split.
  - assert (v ∉ l ++ r) as Hv by (by apply list.NoDup_cons; rewrite Permutation_middle).
    destruct Hok' as (Hrep' & _).
    rewrite (contents_rep s' _ i (v :: l ++ r) Hrep') by
      (lia || (apply list_lookup_insert_eq; by eapply lookup_lt_Some)).
    f_equal. cbn [fmap list_fmap]. unfold mru_update.
    assert (data_at (heap s') <$> (l ++ r) = data_at (heap s) <$> (l ++ r)) as ->.
    { apply list_fmap_ext. intros j x Hj. rewrite Hd, decide_False; [done|].
      intros ->. by apply Hv, (list_elem_of_lookup_2 _ j). }
    rewrite Hd, decide_True by done. destruct p as [p|].
    + simpl in Ev. injection Ev as ->. destruct Hf as (l' & r' & Elr & Et & HF).
      destruct (assoc_split _ _ _ _ r' Et HF) as [Ea Er]. rewrite <- Elr in Ea, Er.
      rewrite Ea, Er, Et. do 2 f_equal.
      by destruct (NoDup_split_unique _ _ _ _ _ Hnd Elr) as [-> ->].
    + rewrite Epc. rewrite assoc_none by done. do 2 f_equal.
      destruct (victim_exists k _ _ _ rnd Hwf Hs Hlen) as (v' & Ev' & _ & Hlast).
      simpl in Ev. rewrite Ev in Ev'. injection Ev' as <-. specialize (Hlast Hlru).
      destruct r as [|y r _] using rev_ind.
      * by rewrite app_nil_r, removelast_fmap_snoc.
      * exfalso. rewrite app_comm_cons, app_assoc, last_snoc in Hlast. injection Hlast as ->.
        apply Hv. apply elem_of_app. right. apply elem_of_app. right. apply list_elem_of_here.
  - intros j Hj Hne. destruct (sets_get _ _ _ _ Hok Hj) as (ys & hd' & Eys & _ & _ & _ & _ & Hy & _).
    destruct Hok' as (Hrep' & _).
    rewrite (contents_rep s' _ j ys Hrep'), (contents_rep s xss j ys Hrep);
      [|lia|done|lia|by rewrite list_lookup_insert_ne by lia].
    f_equal. apply list_fmap_ext. intros m x Hm. rewrite Hd, decide_False; [done|]. intros ->.
    assert (own k j v) as Ho1 by (by eapply Hy, list_elem_of_lookup_2).
    assert (own k i v) as Ho2 by (apply Hx, elem_of_app; right; apply list_elem_of_here).
    unfold own in *. destruct Hwf as (_ & Hw & _). nia.
Qed.

End btac_kernel.

Module BTB_btac.
Import btb_list btac_kernel.

(** Source: src/xiosim/ZCOMPS-btb/btb-btac.cpp:33-38 BTB_btac_sc_t.
    [sc_set] is the number of the set, [sc_p] the entry. *)
Record sc : Type := mk_sc { sc_p : option Z; sc_set : option Z; updated : bool }.

(** Source: src/xiosim/ZCOMPS-btb/btb-btac.cpp:40-49 BTB_btac_t. *)
Record t : Type := mk { conf : cfg; stats : btb_stats; set : sets }.

Definition with_stats (s : t) (st : btb_stats) : t := mk (conf s) st (set s).
Definition with_set (s : t) (x : sets) : t := mk (conf s) (stats s) x.

(** The members both constructors compute in the same way. *)
Definition make_cfg (num_entries num_ways tag_width policy : Z) : cfg :=
  mk_cfg num_entries num_ways tag_width (i32 (i32 (Z.shiftl 1 tag_width) - 1))
    (Z.log2 num_entries) policy (num_entries - 1).

(** Source: src/xiosim/ZCOMPS-btb/btb-btac.cpp:53-106 BTB_btac_t::BTB_btac_t. *)
Definition create (arg_num_entries arg_num_ways arg_tag_width arg_policy : Z) : result t :=
  let* _ := guard_or (check_ppow2 arg_num_entries) Fatal in
  let* _ := guard_or (1 <=? arg_num_ways) Fatal in
  let* _ := guard_or ((tolower arg_policy =? char_l) || (tolower arg_policy =? char_r)) Fatal in
  Ok (mk (make_cfg arg_num_entries arg_num_ways arg_tag_width arg_policy) btb_init
        (init_sets arg_num_entries arg_num_ways)).

Definition index (s : t) (a : bp_args) : Z := Z.land (PC a) (btac_mask (conf s)).

(** Source: src/xiosim/ZCOMPS-btb/btb-btac.cpp:125-148 BTB_btac_t::lookup. *)
Definition lookup (s : t) (c : sc) (a : bp_args) : result (t * sc * Z) :=
  let* p := find_entry (conf s) (set s) (index s a) (PC a) in
  let s := with_stats s (btb_count_lookup (stats s)) in
  match p with
  | Some q =>
      let* e := aget (heap (set s)) q in
      Ok (s, mk_sc p (Some (index s a)) false, e_target e)
  | None => Ok (s, mk_sc None (Some (index s a)) false, 0)
  end.

(** Source: src/xiosim/ZCOMPS-btb/btb-btac.cpp:151-244 BTB_btac_t::update. *)
Definition update (s : t) (c : sc) (a : bp_args) (our_target : Z) (our_pred : bool) (rnd : Z)
  : result (t * sc) :=
  if negb (outcome a) then Ok (with_stats s (btb_count_nt (stats s)), c)
  else
    let st := if updated c then stats s else btb_count_update (stats s) (oPC a =? our_target) in
    let* '(p, si) :=
      if negb our_pred then
        let* p := find_entry (conf s) (set s) (index s a) (PC a) in Ok (p, Some (index s a))
      else Ok (sc_p c, sc_set c) in
    let* i := deref si in
    let* set' := write_entry (conf s) (set s) i p a rnd in
    Ok (with_set (with_stats s st) set', mk_sc p si true).

(** Source: src/xiosim/ZCOMPS-btb/btb-btac.cpp:247-253 BTB_btac_t::get_cache. *)
Definition get_cache : sc := mk_sc None None false.

#[export] Instance btb : Btb t sc := {
  bt_stats := stats;
  bt_with_stats := with_stats;
  bt_lookup s c a _ := lookup s c a;
  bt_update := update;
  bt_spec_update s c _ _ := Ok (with_stats s (btb_count_spec_update (stats s)), c);
  bt_recover := btb_base_recover;
  bt_flush := btb_base_flush;
  bt_get_cache _ := get_cache
}.

Definition wf (s : t) : Prop := wf_cfg (conf s) ∧ ∃ xss, sets_ok (conf s) (set s) xss.

(** The entry of a filled container belongs to its set. *)
Definition ref (s : t) (c : sc) : Prop :=
  ∃ i, sc_set c = Some i ∧ 0 ≤ i < num_entries (conf s) ∧ ∀ x, sc_p c = Some x → own (conf s) i x.

Lemma btac_index_range s a : wf s → 0 ≤ index s a < num_entries (conf s).
Proof. intros [(? & ? & Em & _) _]. unfold index. rewrite Em. by apply land_mask_range. Qed.

Lemma find_ref s a : wf s → wp (find_entry (conf s) (set s) (index s a) (PC a))
  (λ p, ∀ u, ref s (mk_sc p (Some (index s a)) u)).
Proof.
  intros Hwf. pose proof Hwf as [_ (xss & Hok)]. pose proof (btac_index_range _ a Hwf).
  eapply wp_mono; [by eapply find_entry_ok|]. intros p Hp u. eexists; split_and!; try done; lia.
Qed.

Lemma btac_lookup_ok s c a : wf s →
  wp (lookup s c a) (λ '(s', c', _), keeps wf ref s s' ∧ ref s' c').
Proof.
  intros Hwf. unfold lookup. apply wp_bind. eapply wp_mono; [by apply find_ref|].
  intros p Hr. destruct p as [q|]; simpl; [|split; [done|apply Hr]].
  destruct (Hr false) as (i & Ei & Hi & Ho). injection Ei as <-. simpl in *.
  pose proof Hwf as [Hc (xss & Hok)].
  destruct (sets_get _ _ _ _ Hok Hi) as (xs & hd & _ & _ & _ & Hs & _ & Hx & _).
  destruct (seg_in _ _ _ _ _ q Hs ltac:(apply Hx, Ho; done)) as (e & Ee). rewrite Ee. simpl.
  split; [done|apply Hr].
Qed.

Lemma btac_update_ok s c a t p rnd : wf s → ref s c →
  wp (update s c a t p rnd) (λ '(s', c'), keeps wf ref s s' ∧ ref s' c').
Proof.
  intros Hwf Hr. unfold update. destruct (outcome a); [|by simpl]. simpl.
  assert (wp (if negb p then let* q := find_entry (conf s) (set s) (index s a) (PC a) in
                             Ok (q, Some (index s a)) else Ok (sc_p c, sc_set c))
    (λ '(q, si), ref s (mk_sc q si true))) as Hp.
  { destruct p; simpl; [done|]. apply wp_bind. eapply wp_mono; [by apply find_ref|]. simpl. auto. }
  apply wp_bind. eapply wp_mono; [exact Hp|]. intros [q si] Hr'.
  destruct Hr' as (i & Ei & Hi & Ho). simpl in Ei, Ho. rewrite Ei. simpl.
  destruct Hwf as [Hc (xss & Hok)]. apply wp_bind.
  eapply wp_mono; [by eapply write_entry_ok|]. intros s' (xss' & Hok'). simpl.
  split; [split; [by split; [|exists xss']|done]|]. by exists i.
Qed.

#[export] Instance btb_ok : BtbOk t sc.
Proof.
  refine {| bt_wf := wf; bt_ref := ref |}.
  - done.
  - intros. by apply btac_lookup_ok.
  - intros. by apply btac_update_ok.
  - done.
  - done.
  - done.
Defined.

Lemma sets_ok_init n w k : 1 ≤ n → 1 ≤ w → num_entries k = n → num_ways k = w →
  ∃ xss, sets_ok k (init_sets n w) xss.
Proof.
  intros Hn Hw En Ew. exists ((λ i, down (i * w) (Z.to_nat w)) <$> seqZ 0 n).
  split; [by apply init_rep|]. split; [simpl; rewrite length_fmap, length_seqZ; lia|].
  intros i xs Hi. rewrite list_lookup_fmap in Hi. apply fmap_Some in Hi as (z & Hz & ->).
  apply lookup_seqZ in Hz as [-> Hz]. rewrite Z.add_0_l. split.
  - assert (∀ b m, length (down b m) = m) as -> by (intros b; induction m; simpl; congruence). lia.
  - intros x. rewrite down_elem. unfold own. rewrite Ew. lia.
Qed.

Lemma btac_create_ok n w tw pol s : create n w tw pol = Ok s → w < 2 ^ 31 →
  pol = char_l ∨ pol = char_r → wf s.
Proof.
  unfold create. intros E Hw Hpol. inv_ok.
  match goal with H : check_ppow2 n = true |- _ => apply check_ppow2_pos in H end.
  split; [split_and!; simpl; lia || done|]. by apply sets_ok_init; simpl; lia || done.
Qed.

(** What set [i] holds, most recently used first. *)
Definition contents (s : t) (i : Z) : result (list (Z * Z)) := set_contents (set s) i.

Lemma contents_ok s i : wf s → 0 ≤ i < num_entries (conf s) → ∃ l, contents s i = Ok l.
Proof.
  intros [_ (xss & Hok)] Hi. destruct (sets_get _ _ _ _ Hok Hi) as (xs & hd & Exs & _).
  destruct Hok as (Hrep & _). eexists. unfold contents.
  apply (contents_rep (set s) xss i xs Hrep); [lia|done].
Qed.

(** A lookup returns what the set's list holds for the tag and leaves the entry
    the walk found in the container. *)
Lemma lookup_contents s c a l : wf s → contents s (index s a) = Ok l →
  wp (lookup s c a) (λ '(s', c', x), x = default 0 (assoc (tag_of (conf s) (PC a)) l) ∧
    set s' = set s ∧ conf s' = conf s ∧ sc_set c' = Some (index s a) ∧
    find_entry (conf s) (set s) (index s a) (PC a) = Ok (sc_p c')).
Proof.
  intros Hwf El. pose proof (btac_index_range _ a Hwf) as Hi. pose proof Hwf as [_ (xss & Hok)].
  destruct (find_entry_assoc _ _ _ _ (PC a) l Hok Hi El) as (p & Ep & Ea).
  pose proof (btac_lookup_ok s c a Hwf) as Hs. unfold lookup in *. rewrite Ep in *. simpl in *.
  destruct p as [q|]; simpl in *; [|by rewrite <- Ea].
  apply wp_bind_inv in Hs. apply wp_bind. destruct (aget (heap (set s)) q) as [e|] eqn:Eq; [|done].
  simpl. split; [|done]. rewrite <- Ea. simpl. unfold data_at. by rewrite Eq.
Qed.

(** C18. A branch target buffer with the LRU policy is, per set, a list of (tag,
    target) pairs in most-recently-used order: on every reachable (well formed)
    state a lookup returns the target the list holds for the branch's tag (0 when
    there is none), and the update with a taken outcome that follows it moves the
    pair to the front with the new target, or replaces the last pair of the list;
    no other set changes.  The linked-list surgery never faults, whether the
    container's pointer is used ([our_pred]) or the set is walked again. *)
Theorem btac_lru_refines_mru_list s c a our_target our_pred rnd l :
  wf s → replacement_policy (conf s) = char_l → outcome a = true → contents s (index s a) = Ok l →
  wp (let* '(s1, c1, x) := lookup s c a in
      let* '(s2, c2) := update s1 c1 a our_target our_pred rnd in Ok (x, s2))
    (λ '(x, s2), x = default 0 (assoc (tag_of (conf s) (PC a)) l) ∧
       contents s2 (index s a) = Ok (mru_update (tag_of (conf s) (PC a)) (oPC a) l) ∧
       ∀ j, 0 ≤ j < num_entries (conf s) → j ≠ index s a → contents s2 j = contents s j).
Proof.
  intros Hwf Hlru Ho El. apply wp_bind. eapply wp_mono; [by apply lookup_contents|].
  intros [[s1 c1] x] (-> & Es & Ec & Eset & Ef). unfold update. rewrite Ho. simpl.
  assert ((if negb our_pred then
             let* p := find_entry (conf s1) (set s1) (index s1 a) (PC a) in Ok (p, Some (index s1 a))
           else Ok (sc_p c1, sc_set c1)) = Ok (sc_p c1, Some (index s a))) as ->.
  { unfold index. rewrite Es, Ec. destruct our_pred; simpl; [by rewrite Eset|].
    unfold index in Ef. by rewrite Ef. }
  simpl. rewrite Es, Ec. pose proof (btac_index_range _ a Hwf) as Hi. pose proof Hwf as [Hc (xss & Hok)].
  do 2 apply wp_bind. eapply wp_mono; [by eapply write_entry_mru|]. intros s2 (E1 & E2). done.
Qed.

Lemma btac_lru_refines_mru_list_witness : ∃ s, create 2 2 8 char_l = Ok s ∧
  wp (let* '(s1, c1, x) := lookup s get_cache (mk_args 4 0 200 true) in
      let* '(s2, c2) := update s1 c1 (mk_args 4 0 200 true) 0 false 0 in Ok (x, s2))
    (λ '(x, s2), x = 0 ∧ contents s2 0 = Ok [(2, 200); (0, 0)]).
Proof.
  eexists. split; [vm_compute; reflexivity|]. eapply wp_mono.
  - eapply (btac_lru_refines_mru_list _ _ _ _ _ _ [(0, 0); (0, 0)]);
      [|done|done|vm_compute; reflexivity].
    apply (btac_create_ok 2 2 8 char_l); [vm_compute; reflexivity|lia|by left].
  - intros [x s2] (-> & E & _). split; [done|exact E].
Defined.

(** The constructor accepts the policies 'L' and 'R' ([tolower]), the update
    compares with the lower-case letters only: the first miss fails the assertion. *)
Lemma btac_uppercase_policy_asserts t x p rnd :
  (let* s := create 1 1 8 (char_l - 32) in
   let* '(s, c, _) := lookup s get_cache (mk_args 1 0 t true) in
   update s c (mk_args 1 0 t true) x p rnd) = Fault AssertFail.
Proof. destruct p; vm_compute; reflexivity. Qed.

End BTB_btac.

(** ** The two-level BTB *)

Module BTB_2levbtac.
Import btb_list btac_kernel.

(** Source: src/xiosim/ZCOMPS-btb/btb-2levbtac.cpp:35-42 BTB_2levbtac_sc_t. *)
Record sc : Type := mk_sc {
  sc_p : option Z;
  sc_set : option Z;
  bhr : option Z;
  lookup_bhr : Z;
  updated : bool
}.

(** Source: src/xiosim/ZCOMPS-btb/btb-2levbtac.cpp:46-63 BTB_2levbtac_t. *)
Record t : Type := mk {
  conf : cfg;
  bht_size : Z;
  hist_width : Z;
  Xor : bool;
  xorshift : Z;
  stats : btb_stats;
  set : sets;
  bht : list Z
}.

Definition with_stats (s : t) (st : btb_stats) : t :=
  mk (conf s) (bht_size s) (hist_width s) (Xor s) (xorshift s) st (set s) (bht s).
Definition with_set (s : t) (x : sets) : t :=
  mk (conf s) (bht_size s) (hist_width s) (Xor s) (xorshift s) (stats s) x (bht s).
Definition with_bht (s : t) (x : list Z) : t :=
  mk (conf s) (bht_size s) (hist_width s) (Xor s) (xorshift s) (stats s) (set s) x.

(** Source: src/xiosim/ZCOMPS-btb/btb-2levbtac.cpp:69-149 BTB_2levbtac_t::BTB_2levbtac_t. *)
Definition create (arg_bht_size arg_hist_width arg_Xor arg_num_entries arg_num_ways arg_tag_width
                   arg_policy : Z) : result t :=
  let* _ := guard_or (check_ppow2 arg_bht_size) Fatal in
  let* _ := guard_or (check_ppow2 arg_num_entries) Fatal in
  let* _ := guard_or (1 <=? arg_num_ways) Fatal in
  let* _ := guard_or ((arg_Xor =? 0) || (arg_Xor =? 1)) Fatal in
  let* _ := guard_or ((tolower arg_policy =? char_l) || (tolower arg_policy =? char_r)) Fatal in
  Ok (mk (BTB_btac.make_cfg arg_num_entries arg_num_ways arg_tag_width arg_policy)
        arg_bht_size arg_hist_width (negb (arg_Xor =? 0))
        (xorshift_of arg_num_entries arg_hist_width) btb_init
        (init_sets arg_num_entries arg_num_ways) (replicate (Z.to_nat arg_bht_size) 0)).

(** The set of a branch address under a history. *)
Definition l2index (s : t) (pc h : Z) : Z :=
  Z.land (if Xor s then xor_index pc h (xorshift s) else concat_index pc h (hist_width s))
    (btac_mask (conf s)).

(** Source: src/xiosim/ZCOMPS-btb/btb-2levbtac.cpp:169-210 BTB_2levbtac_t::lookup. *)
Definition lookup (s : t) (c : sc) (a : bp_args) : result (t * sc * Z) :=
  let l1index := Z.land (PC a) (bht_size s - 1) in
  let* h := aget (bht s) l1index in
  let i := l2index s (PC a) h in
  let* p := find_entry (conf s) (set s) i (PC a) in
  let s := with_stats s (btb_count_lookup (stats s)) in
  match p with
  | Some q =>
      let* e := aget (heap (set s)) q in
      Ok (s, mk_sc p (Some i) (Some l1index) h false, e_target e)
  | None => Ok (s, mk_sc None (Some i) (Some l1index) h false, 0)
  end.

(** Source: src/xiosim/ZCOMPS-btb/btb-2levbtac.cpp:213-321 BTB_2levbtac_t::update.
    Unlike the btac, the update of a not-taken branch marks the container as
    updated, and the second walk counts as a lookup. *)
Definition update (s : t) (c : sc) (a : bp_args) (our_target : Z) (our_pred : bool) (rnd : Z)
  : result (t * sc) :=
  let st := if updated c then stats s else btb_count_update (stats s) (oPC a =? our_target) in
  if negb (outcome a) then
    Ok (with_stats s (btb_count_nt st), mk_sc (sc_p c) (sc_set c) (bhr c) (lookup_bhr c) true)
  else
    let* '(st, p, si) :=
      if negb our_pred then
        let* b := deref (bhr c) in
        let* h := aget (bht s) b in
        let i := l2index s (PC a) h in
        let* p := find_entry (conf s) (set s) i (PC a) in Ok (btb_count_lookup st, p, Some i)
      else Ok (st, sc_p c, sc_set c) in
    let* i := deref si in
    let* set' := write_entry (conf s) (set s) i p a rnd in
    Ok (with_set (with_stats s st) set', mk_sc p si (bhr c) (lookup_bhr c) true).

(** Source: src/xiosim/ZCOMPS-btb/btb-2levbtac.cpp:323-330 BTB_2levbtac_t::spec_update. *)
Definition spec_update (s : t) (c : sc) (our_pred : bool) : result (t * sc) :=
  let s := with_stats s (btb_count_spec_update (stats s)) in
  let* bht' := bht_spec_update (bht s) (bhr c) (history_mask_of (hist_width s)) our_pred in
  Ok (with_bht s bht', c).

(** Source: src/xiosim/ZCOMPS-btb/btb-2levbtac.cpp:332-337 BTB_2levbtac_t::recover. *)
Definition recover (s : t) (c : sc) (outcome : bool) : result (t * sc) :=
  let* bht' := bht_recover (bht_size s) (bht s) (lookup_bhr c) outcome in
  Ok (with_bht s bht', c).

(** Source: src/xiosim/ZCOMPS-btb/btb-2levbtac.cpp:339-344 BTB_2levbtac_t::flush. *)
Definition flush (s : t) (c : sc) : result (t * sc) :=
  let* bht' := bht_flush (bht_size s) (bht s) (lookup_bhr c) in
  Ok (with_bht s bht', c).

(** Source: src/xiosim/ZCOMPS-btb/btb-2levbtac.cpp:347-353 BTB_2levbtac_t::get_cache. *)
Definition get_cache : sc := mk_sc None None None 0 false.

#[export] Instance btb : Btb t sc := {
  bt_stats := stats;
  bt_with_stats := with_stats;
  bt_lookup s c a _ := lookup s c a;
  bt_update := update;
  bt_spec_update s c _ p := spec_update s c p;
  bt_recover := recover;
  bt_flush := flush;
  bt_get_cache _ := get_cache
}.

Definition wf (s : t) : Prop :=
  wf_cfg (conf s) ∧ (∃ xss, sets_ok (conf s) (set s) xss) ∧
  1 ≤ bht_size s ∧ Z.of_nat (length (bht s)) = bht_size s.

Definition ref (s : t) (c : sc) : Prop :=
  (∃ b, bhr c = Some b ∧ 0 ≤ b < bht_size s) ∧
  ∃ i, sc_set c = Some i ∧ 0 ≤ i < num_entries (conf s) ∧ ∀ x, sc_p c = Some x → own (conf s) i x.

Lemma l2index_range s pc h : wf s → 0 ≤ l2index s pc h < num_entries (conf s).
Proof. intros [(? & ? & Em & _) _]. unfold l2index. rewrite Em. by apply land_mask_range. Qed.

Lemma l1_range s a : wf s → 0 ≤ Z.land (PC a) (bht_size s - 1) < bht_size s.
Proof. intros (_ & _ & Hb & _). by apply land_mask_range. Qed.

Lemma find_own s i pc : wf s → 0 ≤ i < num_entries (conf s) →
  wp (find_entry (conf s) (set s) i pc) (λ p, ∀ x, p = Some x → own (conf s) i x).
Proof. intros (_ & (xss & Hok) & _) Hi. by eapply find_entry_ok. Qed.

Lemma entry_ok s i q : wf s → 0 ≤ i < num_entries (conf s) → own (conf s) i q →
  ∃ e, aget (heap (set s)) q = Ok e.
Proof.
  intros (_ & (xss & Hok) & _) Hi Ho.
  destruct (sets_get _ _ _ _ Hok Hi) as (xs & hd & _ & _ & _ & Hs & _ & Hx & _).
  eapply seg_in; [done|]. by apply Hx.
Qed.

Lemma btac2_lookup_ok s c a : wf s →
  wp (lookup s c a) (λ '(s', c', _), keeps wf ref s s' ∧ ref s' c').
Proof.
  intros Hwf. pose proof (l1_range _ a Hwf) as Hb. pose proof Hwf as (_ & _ & _ & Hl).
  unfold lookup. apply wp_bind, wp_aget; [lia|]. intros h _.
  pose proof (l2index_range s (PC a) h Hwf) as Hi.
  apply wp_bind. eapply wp_mono; [by apply find_own|]. intros p Ho.
  assert (ref s (mk_sc p (Some (l2index s (PC a) h)) (Some (Z.land (PC a) (bht_size s - 1))) h false))
    as Hr by (split; by eexists).
  destruct p as [q|]; simpl; [|done].
  destruct (entry_ok _ _ _ Hwf Hi (Ho q eq_refl)) as (e & ->). done.
Qed.

Lemma btac2_update_ok s c a t p rnd : wf s → ref s c →
  wp (update s c a t p rnd) (λ '(s', c'), keeps wf ref s s' ∧ ref s' c').
Proof.
  intros Hwf Hr. unfold update. destruct (outcome a); [|by simpl]. simpl.
  set (st := if updated c then _ else _).
  assert (wp (if negb p then
      let* b := deref (bhr c) in let* h := aget (bht s) b in
      let i := l2index s (PC a) h in
      let* p := find_entry (conf s) (set s) i (PC a) in Ok (btb_count_lookup st, p, Some i)
      else Ok (st, sc_p c, sc_set c))
    (λ '(_, q, si), ref s (mk_sc q si (bhr c) (lookup_bhr c) true))) as Hp.
  { destruct p; simpl; [done|]. destruct Hr as [(b & Eb & Hb) _]. rewrite Eb. simpl.
    apply wp_bind, wp_aget; [destruct Hwf as (_ & _ & _ & Hl); lia|]. intros h _.
    apply wp_bind. eapply wp_mono; [apply find_own; [done|by apply l2index_range]|]. intros q Ho.
    simpl. split; [by eexists|]. eexists. split; [done|]. split; [by apply l2index_range|done]. }
  apply wp_bind. eapply wp_mono; [exact Hp|]. intros [[st' q] si] Hr'.
  pose proof Hr' as (_ & i & Ei & Hi & Ho). simpl in Ei, Ho. rewrite Ei in *. simpl.
  destruct Hwf as (Hc & (xss & Hok) & Hb). apply wp_bind.
  eapply wp_mono; [by eapply write_entry_ok|]. intros s' (xss' & Hok'). simpl.
  split; [|done]. split; [|done]. split; [done|]. split; [by exists xss'|done].
Qed.

Lemma btac2_keeps_bht s l : wf s → length l = length (bht s) → keeps wf ref s (with_bht s l).
Proof. intros (? & ? & ? & ?) Hl. split; [|done]. split_and!; try done. simpl. lia. Qed.

Lemma btac2_spec_update_ok s c p : wf s → ref s c →
  wp (spec_update s c p) (λ '(s', c'), keeps wf ref s s' ∧ ref s' c').
Proof.
  intros Hwf Hr. pose proof Hr as [(b & Eb & Hb) _]. unfold spec_update.
  apply wp_bind. eapply wp_bht_spec_update; [done|simpl; destruct Hwf as (_ & _ & _ & ?); lia|].
  intros bht' Hl. destruct (btac2_keeps_bht _ _ Hwf Hl) as [? Hk]. split; [split|]; [done|apply Hk|by apply Hk].
Qed.

Lemma btac2_recover_ok s c o : wf s → ref s c →
  wp (recover s c o) (λ '(s', c'), keeps wf ref s s' ∧ ref s' c').
Proof.
  intros Hwf Hr. unfold recover. apply wp_bind, wp_bht_recover; [apply Hwf|].
  intros bht' Hl. pose proof (btac2_keeps_bht _ _ Hwf Hl) as Hk. split; [done|by apply Hk].
Qed.

Lemma btac2_flush_ok s c : wf s → ref s c →
  wp (flush s c) (λ '(s', c'), keeps wf ref s s' ∧ ref s' c').
Proof.
  intros Hwf Hr. unfold flush. apply wp_bind, wp_bht_flush; [apply Hwf|].
  intros bht' Hl. pose proof (btac2_keeps_bht _ _ Hwf Hl) as Hk. split; [done|by apply Hk].
Qed.

#[export] Instance btb_ok : BtbOk t sc.
Proof.
  refine {| bt_wf := wf; bt_ref := ref |}; intros.
  - done.
  - by apply btac2_lookup_ok.
  - by apply btac2_update_ok.
  - by apply btac2_spec_update_ok.
  - by apply btac2_recover_ok.
  - by apply btac2_flush_ok.
Defined.

Lemma twolevbtac_create_ok bsz hw x n w tw pol s : create bsz hw x n w tw pol = Ok s → w < 2 ^ 31 →
  pol = char_l ∨ pol = char_r → wf s.
Proof.
  unfold create. intros E Hw Hpol. inv_ok.
  repeat match goal with H : check_ppow2 _ = true |- _ => apply check_ppow2_pos in H end.
  split; [split_and!; simpl; lia || done|].
  split; [apply BTB_btac.sets_ok_init; simpl; lia || done|]. simpl. rewrite length_replicate. lia.
Qed.

End BTB_2levbtac.
