(* ===== verification/BPred.v ===== *)
(** * BPred: the branch predictor of a core (bpred_t of src/xiosim/zesto-bpred.cpp)

    [bpred_t] combines direction predictors, a meta-predictor, one or two branch
    target buffers and a return address stack, which it only knows through their
    virtual interfaces: the section is over the type classes [DirPredictor],
    [Fusion], [Btb] and [Ras], and the safety proofs use their laws alone. *)

From S2P Require Import Prelude BPredBase FusionBase RAS BTB.

(** Source: src/xiosim/zesto-structs.h:276-288 inst_flags_t.
    The flags of an instruction that bpred_t reads. *)
Record inst_flags_t : Type := mk_flags { COND : bool; CALL : bool; RETN : bool; INDIR : bool }.

(** Source: src/xiosim/zesto-bpred.h:88-99 bpred_t. *)
Record bp_stats : Type := mk_bp_stats {
  num_lookups : Z;
  num_updates : Z;
  num_spec_updates : Z;
  num_cond : Z;
  num_call : Z;
  num_ret : Z;
  num_uncond : Z;
  num_dir_hits : Z;
  num_addr_hits : Z;
  bp_num_hits : Z;
  bp_frozen : bool
}.

(** [BPRED_STAT(...)] on the counters of [bpred_t]: add to each. *)
Definition bump (st : bp_stats) (l u su c ca r un dh ah h : Z) : bp_stats :=
  if bp_frozen st then st
  else mk_bp_stats (num_lookups st + l) (num_updates st + u) (num_spec_updates st + su)
         (num_cond st + c) (num_call st + ca) (num_ret st + r) (num_uncond st + un)
         (num_dir_hits st + dh) (num_addr_hits st + ah) (bp_num_hits st + h) (bp_frozen st).

(** The arguments of the operations of bpred_t; [rnds] are the values drawn from
    [random()]: by direction predictor [i], -1 for the fusion, -2 and -3 for the BTBs. *)
Record br_args : Type := mk_br {
  opflags : inst_flags_t;
  br : bp_args;
  fallthruPC : Z;
  rnds : Z → Z
}.

(** [BPRED_STAT(ras->num_pushes++;)], and the counters of a commited return *)
Definition ras_bump (frozen : bool) (st : ras_stats) (h pu po : Z) : ras_stats :=
  if frozen then st
  else mk_ras_stats (ras_num_hits st + h) (num_pushes st + pu) (num_pops st + po)
         (num_recovers st) (ras_frozen st).

(** [for(int i=0;i<num_pred;i++) bpreds[i]->op(sc->pcache[i], ...)] *)
Fixpoint each {P C : Type} (f : Z → P → C → result (P * C)) (i : Z) (ps : list P) (cs : list C)
  : result (list P * list C) :=
  match ps, cs with
  | [], _ => Ok ([], cs)
  | p :: ps, c :: cs =>
      let* '(p, c) := f i p c in
      let* '(ps, cs) := each f (i + 1) ps cs in Ok (p :: ps, c :: cs)
  | _ :: _, [] => Fault OutOfBounds
  end.

(** [for(...) sc->preds[i] = bpreds[i]->lookup(sc->pcache[i], ...)] *)
Fixpoint each_lookup {P C : Type} (f : Z → P → C → result (P * C * bool)) (i : Z)
    (ps : list P) (cs : list C) (bs : list bool) : result (list P * list C * list bool) :=
  match ps, cs, bs with
  | [], _, _ => Ok ([], cs, bs)
  | p :: ps, c :: cs, _ :: bs =>
      let* '(p, c, b) := f i p c in
      let* '(ps, cs, bs) := each_lookup f (i + 1) ps cs bs in Ok (p :: ps, c :: cs, b :: bs)
  | _ :: _, _, _ => Fault OutOfBounds
  end.

(** A call through [indirjmp_BTB] and [sc->indirjmp] when there is one. *)
Definition opt_btb {B C : Type} (f : B → C → result (B * C)) (b : option B) (c : option C)
  : result (option B * option C) :=
  match b with
  | None => Ok (None, c)
  | Some b => let* c := of_option NullDeref c in let* '(b, c) := f b c in Ok (Some b, Some c)
  end.

Section bpred.
Context {PS PSC FS FC BS BC RS RK : Type}.
Context `{DP : !DirPredictor PS PSC, FU : !Fusion FS FC, BT : !Btb BS BC, RA : !Ras RS RK}.

(** Source: src/xiosim/zesto-bpred.h:74-82 bpred_t. *)
Record bpred_t : Type := mk_bpred {
  bpreds : list PS;
  fusion : FS;
  ras : RS;
  dirjmp_BTB : BS;
  indirjmp_BTB : option BS;
  bstats : bp_stats
}.

(** Source: src/xiosim/zesto-bpred.h:470-489 bpred_state_cache_t. *)
Record bpred_state_cache_t : Type := mk_cache {
  preds : list bool;
  our_target : Z;
  pcache : list PSC;
  fcache : FC;
  dirjmp : BC;
  indirjmp : option BC;
  ras_checkpoint : RK;
  our_pred : bool
}.

(** Source: src/xiosim/zesto-bpred.cpp:734-779 bpred_t::bpred_t.
    From the components that the option strings name; the pool is in BPredPool. *)
Definition create (ps : list PS) (f : FS) (d : BS) (i : option BS) (r : RS) : bpred_t :=
  mk_bpred ps f r d i (mk_bp_stats 0 0 0 0 0 0 0 0 0 0 false).

(** Source: src/xiosim/zesto-bpred.cpp:1138-1156 bpred_t::get_state_cache.
    A new state cache. *)
Definition new_state_cache (b : bpred_t) : bpred_state_cache_t :=
  mk_cache (replicate (length (bpreds b)) false) 0 (dp_get_cache <$> bpreds b)
    (fu_get_cache (fusion b)) (bt_get_cache (dirjmp_BTB b)) (bt_get_cache <$> indirjmp_BTB b)
    (rs_get_state (ras b)) false.

(** [if(!dir || (predPC == 1) || (predPC == 0)) predPC = fallthruPC;] *)
Definition final_target (dir : bool) (predPC fallthru : Z) : Z :=
  if negb dir || (predPC =? 1) || (predPC =? 0) then fallthru else predPC.

(** Source: src/xiosim/zesto-bpred.cpp:793-856 bpred_t::lookup. *)
Definition lookup (b : bpred_t) (sc : bpred_state_cache_t) (x : br_args)
  : result (bpred_t * bpred_state_cache_t * Z) :=
  let a := br x in
  let st := bump (bstats b) 1 0 0 0 0 0 0 0 0 0 in
  let* '(ps, pc, preds) := each_lookup (λ i p c, dp_lookup p c a (rnds x i)) 0
                             (bpreds b) (pcache sc) (preds sc) in
  let* '(fus, fc, cond_dir) := fu_lookup (fusion b) (fcache sc) preds a (rnds x (-1)) in
  let* '(dbtb, dc, dirPC) := bt_lookup (dirjmp_BTB b) (dirjmp sc) a true in
  let* '(ibtb, ic, indirPredPC) :=
    match indirjmp_BTB b with
    | None => Ok (None, indirjmp sc, dirPC)
    | Some ib =>
        let* c := of_option NullDeref (indirjmp sc) in
        let* '(ib, c, t) := bt_lookup ib c a true in Ok (Some ib, Some c, t)
    end in
  let* '(rs, dir, predPC) :=
    if RETN (opflags x) then
      let* '(rs, t) := rs_pop (ras b) (oPC a) in Ok (rs, true, t)
    else
      let* '(rs, dir) :=
        if COND (opflags x) then Ok (ras b, cond_dir)
        else if CALL (opflags x) then let* rs := rs_push (ras b) (fallthruPC x) in Ok (rs, true)
        else Ok (ras b, true) in
      Ok (rs, dir, if dir && INDIR (opflags x) then indirPredPC else dirPC) in
  let predPC := final_target dir predPC (fallthruPC x) in
  let* k := rs_recover_state rs (ras_checkpoint sc) in
  Ok (mk_bpred ps fus rs dbtb ibtb st, mk_cache preds predPC pc fc dc ic k dir, predPC).

(** Source: src/xiosim/zesto-bpred.cpp:863-923 bpred_t::update. *)
Definition update (b : bpred_t) (sc : bpred_state_cache_t) (x : br_args)
  : result (bpred_t * bpred_state_cache_t) :=
  let a := br x in
  let dh := Bool.eqb (our_pred sc) (outcome a) in
  let ah := our_target sc =? oPC a in
  let st := bump (bstats b) 0 1 0 0 0 0 0 (Z.b2z dh) (Z.b2z ah) (Z.b2z (dh && ah)) in
  let fz := bp_frozen (bstats b) in
  if negb (RETN (opflags x)) then
    let* '(ps, pc, fus, fc, rs, st) :=
      if COND (opflags x) then
        let st := bump st 0 0 0 1 0 0 0 0 0 0 in
        let* '(ps, pc) := each (λ i p c, let* d := aget (preds sc) i in
                                 dp_update p c a d (rnds x i)) 0 (bpreds b) (pcache sc) in
        let* '(fus, fc) := fu_update (fusion b) (fcache sc) (preds sc) a (our_pred sc) in
        Ok (ps, pc, fus, fc, ras b, st)
      else if CALL (opflags x) then
        let* rs := rs_real_push (ras b) (fallthruPC x) in
        Ok (bpreds b, pcache sc, fusion b, fcache sc,
            rs_with_stats rs (ras_bump fz (rs_stats rs) 0 1 0), bump st 0 0 0 0 1 0 0 0 0 0)
      else Ok (bpreds b, pcache sc, fusion b, fcache sc, ras b, bump st 0 0 0 0 0 0 1 0 0 0) in
    match indirjmp_BTB b, INDIR (opflags x) with
    | Some ib, true =>
        let* c := of_option NullDeref (indirjmp sc) in
        let* '(ib, c) := bt_update ib c a (our_target sc) (our_pred sc) (rnds x (-3)) in
        Ok (mk_bpred ps fus rs (dirjmp_BTB b) (Some ib) st,
            mk_cache (preds sc) (our_target sc) pc fc (dirjmp sc) (Some c) (ras_checkpoint sc) (our_pred sc))
    | _, _ =>
        let* '(db, c) := bt_update (dirjmp_BTB b) (dirjmp sc) a (our_target sc) (our_pred sc)
                           (rnds x (-2)) in
        Ok (mk_bpred ps fus rs db (indirjmp_BTB b) st,
            mk_cache (preds sc) (our_target sc) pc fc c (indirjmp sc) (ras_checkpoint sc) (our_pred sc))
    end
  else
    let* '(rs, _) := rs_real_pop (ras b) in
    let rs := rs_with_stats rs (ras_bump fz (rs_stats rs) (Z.b2z ah) 0 1) in
    Ok (mk_bpred (bpreds b) (fusion b) rs (dirjmp_BTB b) (indirjmp_BTB b)
          (bump st 0 0 0 0 0 1 0 0 0 0), sc).

(** Source: src/xiosim/zesto-bpred.cpp:927-952 bpred_t::spec_update. *)
Definition spec_update (b : bpred_t) (sc : bpred_state_cache_t) (x : br_args)
  : result (bpred_t * bpred_state_cache_t) :=
  let a := br x in
  let st := bump (bstats b) 0 0 1 0 0 0 0 0 0 0 in
  if COND (opflags x) then
    let* '(ps, pc) := each (λ i p c, dp_spec_update p c a (our_pred sc)) 0 (bpreds b) (pcache sc) in
    let* '(fus, fc) := fu_spec_update (fusion b) (fcache sc) (preds sc) a (our_pred sc) in
    let* '(db, dc) := bt_spec_update (dirjmp_BTB b) (dirjmp sc) a (our_pred sc) in
    let* '(ib, ic) := opt_btb (λ ib c, bt_spec_update ib c a (our_pred sc)) (indirjmp_BTB b)
                        (indirjmp sc) in
    Ok (mk_bpred ps fus (ras b) db ib st,
        mk_cache (preds sc) (our_target sc) pc fc dc ic (ras_checkpoint sc) (our_pred sc))
  else Ok (mk_bpred (bpreds b) (fusion b) (ras b) (dirjmp_BTB b) (indirjmp_BTB b) st, sc).

(** Source: src/xiosim/zesto-bpred.cpp:960-977 bpred_t::recover. *)
Definition recover (b : bpred_t) (sc : bpred_state_cache_t) (outcome : bool)
  : result (bpred_t * bpred_state_cache_t) :=
  let* '(ps, pc) := each (λ i p c, dp_recover p c outcome) 0 (bpreds b) (pcache sc) in
  let* '(fus, fc) := fu_recover (fusion b) (fcache sc) outcome in
  let* rs := rs_recover (ras b) (ras_checkpoint sc) in
  let* '(db, dc) := bt_recover (dirjmp_BTB b) (dirjmp sc) outcome in
  let* '(ib, ic) := opt_btb (λ ib c, bt_recover ib c outcome) (indirjmp_BTB b) (indirjmp sc) in
  Ok (mk_bpred ps fus rs db ib (bstats b),
      mk_cache (preds sc) (our_target sc) pc fc dc ic (ras_checkpoint sc) (our_pred sc)).

(** Source: src/xiosim/zesto-bpred.cpp:982-997 bpred_t::flush. *)
Definition flush (b : bpred_t) (sc : bpred_state_cache_t) : result (bpred_t * bpred_state_cache_t) :=
  let* '(ps, pc) := each (λ i p c, dp_flush p c) 0 (bpreds b) (pcache sc) in
  let* '(fus, fc) := fu_flush (fusion b) (fcache sc) in
  let* rs := rs_recover (ras b) (ras_checkpoint sc) in
  let* '(db, dc) := bt_flush (dirjmp_BTB b) (dirjmp sc) in
  let* '(ib, ic) := opt_btb bt_flush (indirjmp_BTB b) (indirjmp sc) in
  Ok (mk_bpred ps fus rs db ib (bstats b),
      mk_cache (preds sc) (our_target sc) pc fc dc ic (ras_checkpoint sc) (our_pred sc)).

(** Source: src/xiosim/zesto-bpred.cpp:1063-1083 bpred_t::reset_stats. *)
Definition bpred_reset_stats (b : bpred_t) : bpred_t :=
  let btb_reset bt := bt_with_stats bt (btb_reset_stats (bt_stats bt)) in
  mk_bpred (dp_reset_stats <$> bpreds b) (fu_reset_stats (fusion b))
    (rs_with_stats (ras b) (ras_reset_stats (rs_stats (ras b))))
    (btb_reset (dirjmp_BTB b)) (btb_reset <$> indirjmp_BTB b)
    (mk_bp_stats 0 0 0 0 0 0 0 0 0 0 (bp_frozen (bstats b))).

Definition freeze_dir (st : dstats) : dstats :=
  mk_dstats (num_hits st) (lookups st) (updates st) (spec_updates st) true.
Definition freeze_btb (st : btb_stats) : btb_stats :=
  mk_btb_stats (btb_hits st) (btb_lookups st) (btb_updates st) (btb_spec_updates st) (num_nt st) true.
Definition freeze_ras (st : ras_stats) : ras_stats :=
  mk_ras_stats (ras_num_hits st) (num_pushes st) (num_pops st) (num_recovers st) true.

(** Source: src/xiosim/zesto-bpred.cpp:1086-1096 bpred_t::freeze_stats. *)
Definition freeze_stats (b : bpred_t) : bpred_t :=
  let btb_freeze bt := bt_with_stats bt (freeze_btb (bt_stats bt)) in
  let st := bstats b in
  mk_bpred ((λ p, dp_with_stats p (freeze_dir (dp_stats p))) <$> bpreds b)
    (fu_with_stats (fusion b) (freeze_dir (fu_stats (fusion b))))
    (rs_with_stats (ras b) (freeze_ras (rs_stats (ras b))))
    (btb_freeze (dirjmp_BTB b)) (btb_freeze <$> indirjmp_BTB b)
    (mk_bp_stats (num_lookups st) (num_updates st) (num_spec_updates st) (num_cond st)
       (num_call st) (num_ret st) (num_uncond st) (num_dir_hits st) (num_addr_hits st)
       (bp_num_hits st) true).
End bpred.
Arguments bpred_t PS FS BS RS : clear implicits.
Arguments bpred_state_cache_t PSC FC BC RK : clear implicits.

(** ** Safety against the interfaces *)

Section each.
Context {P C : Type} (wf : P → Prop) (ref : P → C → Prop).

Lemma each_ok f i ps cs :
  (∀ j p c, i ≤ j < i + Z.of_nat (length ps) → wf p → ref p c →
     wp (f j p c) (λ '(p', c'), keeps wf ref p p' ∧ ref p' c')) →
  Forall wf ps → Forall2 ref ps cs →
  wp (each f i ps cs) (λ '(ps', cs'), Forall2 (keeps wf ref) ps ps' ∧ Forall2 ref ps' cs').
Proof.
  revert i cs. induction ps as [|p ps IH]; intros i cs Hf Hwf Hr.
  - inversion_clear Hr. simpl. auto.
  - inversion Hr as [|? c ? cs' Hc Hcs]; subst. inversion_clear Hwf. simpl in *. apply wp_bind.
    eapply wp_mono; [apply Hf; [lia|done..]|]. intros [p' c'] [Hk Hc'].
    apply wp_bind. eapply wp_mono; [apply IH; [|done..]; intros; apply Hf; [lia|done..]|].
    intros [ps' cs''] [Hks Hcs']. split; by constructor.
Qed.

Lemma each_lookup_ok f i ps cs bs :
  (∀ j p c, wf p → wp (f j p c) (λ '(p', c', _), keeps wf ref p p' ∧ ref p' c')) →
  Forall wf ps → length cs = length ps → length bs = length ps →
  wp (each_lookup f i ps cs bs) (λ '(ps', cs', bs'),
    Forall2 (keeps wf ref) ps ps' ∧ Forall2 ref ps' cs' ∧ length bs' = length ps).
Proof.
  intros Hf. revert i cs bs. induction ps as [|p ps IH]; intros i cs bs Hwf Hc Hb.
  - apply nil_length_inv in Hc as ->. apply nil_length_inv in Hb as ->. simpl. auto.
  - destruct cs as [|c cs]; [done|]. destruct bs as [|b bs]; [done|].
    simpl in *. injection Hc as Hc. injection Hb as Hb. inversion_clear Hwf. apply wp_bind.
    eapply wp_mono; [by apply Hf|]. intros [[p' c'] b'] [Hk Hc'].
    apply wp_bind. eapply wp_mono; [by apply IH|]. intros [[ps' cs'] bs'] (Hks & Hcs & Hbs).
    simpl. split; [by constructor|]. split; [by constructor|]. by rewrite Hbs.
Qed.
End each.

Section safety.
Context {PS PSC FS FC BS BC RS RK : Type}.
Context `{DPO : DirPredictorOk PS PSC, FUO : FusionOk FS FC, BTO : BtbOk BS BC, RAO : RasOk RS RK}.
Implicit Types (b : bpred_t PS FS BS RS) (sc : bpred_state_cache_t PSC FC BC RK).

(** Every component is well formed and the meta-predictor was created for as many
    components as there are. *)
Record bp_wf b : Prop := {
  wf_bpreds : Forall dp_wf (bpreds b);
  wf_fusion : fu_wf (fusion b);
  wf_num_pred : Z.of_nat (length (bpreds b)) = fu_num_pred (fusion b);
  wf_dirjmp : bt_wf (dirjmp_BTB b);
  wf_indirjmp : ∀ ib, indirjmp_BTB b = Some ib → bt_wf ib;
  wf_ras : rs_wf (ras b)
}.

(** The state cache was allocated for this predictor. *)
Record sc_shape b sc : Prop := {
  shape_pcache : length (pcache sc) = length (bpreds b);
  shape_preds : length (preds sc) = length (bpreds b);
  shape_indirjmp : is_Some (indirjmp_BTB b) → is_Some (indirjmp sc)
}.

(** A lookup has filled the state cache: what it points at is still there. *)
Record sc_ref b sc : Prop := {
  ref_shape : sc_shape b sc;
  ref_pcache : Forall2 dp_ref (bpreds b) (pcache sc);
  ref_fcache : fu_ref (fusion b) (fcache sc);
  ref_dirjmp : bt_ref (dirjmp_BTB b) (dirjmp sc);
  ref_indirjmp : ∀ ib c, indirjmp_BTB b = Some ib → indirjmp sc = Some c → bt_ref ib c;
  ref_ras : rs_ref (ras b) (ras_checkpoint sc)
}.

(** The components after an operation: each keeps its invariant and the
    containers valid for it. *)
Record evolves b b' : Prop := {
  ev_bpreds : Forall2 (keeps dp_wf dp_ref) (bpreds b) (bpreds b');
  ev_fusion : keeps fu_wf fu_ref (fusion b) (fusion b');
  ev_num_pred : fu_num_pred (fusion b') = fu_num_pred (fusion b);
  ev_dirjmp : keeps bt_wf bt_ref (dirjmp_BTB b) (dirjmp_BTB b');
  ev_indirjmp : option_Forall2 (keeps bt_wf bt_ref) (indirjmp_BTB b) (indirjmp_BTB b');
  ev_ras : ras_keeps rs_wf rs_ref (ras b) (ras b')
}.

Lemma Forall2_keeps_refl ps : Forall dp_wf ps → Forall2 (keeps dp_wf dp_ref) ps ps.
Proof. induction 1; constructor; [by apply keeps_refl|done]. Qed.

Lemma Forall2_keeps_ref (ps ps' : list PS) (cs : list PSC) :
  Forall2 (keeps dp_wf dp_ref) ps ps' → Forall2 dp_ref ps cs → Forall2 dp_ref ps' cs.
Proof.
  intros Hk. revert cs. induction Hk as [|p p' ps ps' [_ Hk] _ IH]; intros cs Hr;
    inversion_clear Hr; constructor; auto.
Qed.

Lemma Forall2_keeps_wf (ps ps' : list PS) : Forall2 (keeps dp_wf dp_ref) ps ps' → Forall dp_wf ps'.
Proof. induction 1 as [|p p' ps ps' [? _] _ IH]; by constructor. Qed.

Lemma evolves_wf b b' : bp_wf b → evolves b b' → bp_wf b'.
Proof.
  intros [] []. split.
  - by eapply Forall2_keeps_wf.
  - by destruct ev_fusion0.
  - rewrite ev_num_pred0, <- wf_num_pred0. f_equal. symmetry. by eapply Forall2_length.
  - by destruct ev_dirjmp0.
  - intros ib Eb. rewrite Eb in ev_indirjmp0. inversion_clear ev_indirjmp0 as [? ? [? _]|]. done.
  - by destruct ev_ras0.
Qed.

Lemma evolves_shape b b' sc : evolves b b' → sc_shape b sc → sc_shape b' sc.
Proof.
  intros [] []. pose proof (Forall2_length ev_bpreds0) as El. split; [by rewrite <- El..|].
  intros [ib Eb]. rewrite Eb in ev_indirjmp0. inversion ev_indirjmp0 as [x ? _ Ex|]; subst.
  apply shape_indirjmp0. by rewrite <- Ex.
Qed.

Lemma evolves_ref b b' sc : evolves b b' → sc_ref b sc → sc_ref b' sc.
Proof.
  intros Hev [Hsh]. pose proof (evolves_shape _ _ _ Hev Hsh). destruct Hev. split; [done|..].
  - by eapply Forall2_keeps_ref.
  - by apply ev_fusion0.
  - by apply ev_dirjmp0.
  - intros ib c Eb Ec. rewrite Eb in ev_indirjmp0.
    inversion ev_indirjmp0 as [x ? [_ Hk] Ex|]; subst. by apply Hk, ref_indirjmp0.
  - by apply ev_ras0.
Qed.

Lemma evolves_refl b : bp_wf b → evolves b b.
Proof.
  intros []. split; try done; [by apply Forall2_keeps_refl|].
  destruct (indirjmp_BTB b) as [ib|]; constructor. apply keeps_refl. auto.
Qed.

Lemma evolves_trans b1 b2 b3 : evolves b1 b2 → evolves b2 b3 → evolves b1 b3.
Proof.
  intros [] []. split.
  - revert ev_bpreds1. generalize (bpreds b3). induction ev_bpreds0; intros l3 Hl;
      inversion_clear Hl; constructor; [by eapply keeps_trans|auto].
  - by eapply keeps_trans.
  - congruence.
  - by eapply keeps_trans.
  - destruct ev_indirjmp0; inversion ev_indirjmp1; subst; constructor. by eapply keeps_trans.
  - by eapply keeps_trans.
Qed.

Lemma opt_btb_ok (f : BS → BC → result (BS * BC)) ob oc :
  (∀ ib c, ob = Some ib → oc = Some c →
     wp (f ib c) (λ '(b', c'), keeps bt_wf bt_ref ib b' ∧ bt_ref b' c')) →
  (is_Some ob → is_Some oc) →
  wp (opt_btb f ob oc) (λ '(ob', oc'), option_Forall2 (keeps bt_wf bt_ref) ob ob' ∧
    (is_Some ob → is_Some oc') ∧ ∀ ib c, ob' = Some ib → oc' = Some c → bt_ref ib c).
Proof.
  intros Hf Hs. unfold opt_btb. destruct ob as [ib|]; simpl.
  - destruct (Hs ltac:(done)) as [c Ec]. rewrite Ec in *. simpl. apply wp_bind.
    eapply wp_mono; [by apply Hf|]. intros [ib' c'] [Hk Hr].
    split; [by constructor|]. split; [done|]. by intros ? ? [= <-] [= <-].
  - split; [constructor|]. split; [by intros []|done].
Qed.

(** The lookup of the optional indirect BTB. *)
Lemma opt_lookup_ok ob oc a (dirPC : Z) :
  (∀ ib, ob = Some ib → bt_wf ib) → (is_Some ob → is_Some oc) →
  wp (match ob with
      | None => Ok (None, oc, dirPC)
      | Some ib => let* c := of_option NullDeref oc in
                   let* '(ib, c, t) := bt_lookup ib c a true in Ok (Some ib, Some c, t)
      end) (λ '(ob', oc', _), option_Forall2 (keeps bt_wf bt_ref) ob ob' ∧
    (is_Some ob → is_Some oc') ∧ ∀ ib c, ob' = Some ib → oc' = Some c → bt_ref ib c).
Proof.
  intros Hw Hs. destruct ob as [ib|].
  - destruct (Hs ltac:(done)) as [c ->]. simpl. apply wp_bind.
    eapply wp_mono; [by apply bt_lookup_ok, Hw|]. intros [[ib' c'] t] [Hk Hr].
    split; [by constructor|]. split; [done|]. by intros ? ? [= <-] [= <-].
  - split; [constructor|]. split; [by intros []|done].
Qed.

(** What a lookup does to the return address stack. *)
Lemma ras_step_ok rs (f : inst_flags_t) oPC ft (cond_dir : bool) (indirPC dirPC : Z) : rs_wf rs →
  wp (if RETN f then let* '(rs, t) := rs_pop rs oPC in Ok (rs, true, t)
      else
        let* '(rs, dir) :=
          if COND f then Ok (rs, cond_dir)
          else if CALL f then let* rs := rs_push rs ft in Ok (rs, true)
          else Ok (rs, true) in
        Ok (rs, dir, if dir && INDIR f then indirPC else dirPC))
    (λ '(rs', _, _), ras_keeps rs_wf rs_ref rs rs').
Proof.
  intros Hw. destruct (RETN f).
  - apply wp_bind. eapply wp_mono; [by apply rs_pop_ok|]. by intros [rs' t].
  - destruct (COND f); [done|]. destruct (CALL f); [|done]. do 2 apply wp_bind.
    eapply wp_mono; [by apply rs_push_ok|]. done.
Qed.

Lemma bpred_lookup_ok b sc x : bp_wf b → sc_shape b sc →
  wp (lookup b sc x) (λ '(b', sc', _), evolves b b' ∧ sc_ref b' sc').
Proof.
  intros [] []. unfold lookup.
  apply wp_bind. eapply wp_mono.
  { apply (each_lookup_ok dp_wf dp_ref); [|done..]. intros j p c Hp.
    eapply wp_mono; [by apply dp_lookup_ok|]. by intros [[p' c'] d] (? & ? & _). }
  intros [[ps pc] bs] (Hps & Hpc & Hbs).
  apply wp_bind. eapply wp_mono; [apply fu_lookup_ok; [done|by rewrite Hbs]|].
  intros [[fus fc] cd] (Hf & Hn & Hfc & _).
  apply wp_bind. eapply wp_mono; [by apply bt_lookup_ok|]. intros [[db dc] dirPC] [Hd Hdc].
  apply wp_bind. eapply wp_mono; [by apply opt_lookup_ok|].
  intros [[ib ic] indirPC] (Hi & Hsome & Hic).
  apply wp_bind. eapply wp_mono; [by apply ras_step_ok|]. intros [[rs dir] predPC] Hrs.
  apply wp_bind. eapply wp_mono; [by apply rs_recover_state_ok, Hrs|]. intros k Hk.
  assert (length pc = length ps) by (by symmetry; eapply Forall2_length).
  assert (length ps = length (bpreds b)) by (by symmetry; eapply Forall2_length).
  split; split; simpl; try done. split; simpl; [congruence..|].
  intros [y Ey]. apply Hsome. inversion Hi; subst; [done|congruence].
Qed.

Lemma ras_keeps_stats (rs rs' : RS) st : ras_keeps rs_wf rs_ref rs rs' →
  ras_keeps rs_wf rs_ref rs (rs_with_stats rs' st).
Proof.
  intros [Hw Hk]. pose proof (rs_with_stats_ok rs' st Hw) as [Hw' Hk']. split; auto.
Qed.

Lemma evolves_ras b rs st : bp_wf b → ras_keeps rs_wf rs_ref (ras b) rs →
  evolves b (mk_bpred (bpreds b) (fusion b) rs (dirjmp_BTB b) (indirjmp_BTB b) st).
Proof. intros Hwf Hrs. by pose proof (evolves_refl b Hwf) as []. Qed.

Lemma bpred_update_ok b sc x : bp_wf b → sc_ref b sc →
  wp (update b sc x) (λ '(b', sc'), evolves b b' ∧ sc_ref b' sc').
Proof.
  intros Hwf Hr. pose proof Hwf as []. pose proof Hr as [[] Hpc Hfc Hdc Hic Hk]. unfold update.
destruct (RETN (opflags x)); simpl.
  { apply wp_bind. eapply wp_mono; [by apply rs_real_pop_ok|]. intros [rs v] Hrs.
    assert (∀ st1 st2, evolves b (mk_bpred (bpreds b) (fusion b) (rs_with_stats rs st1)
              (dirjmp_BTB b) (indirjmp_BTB b) st2)) as Hev.
    { intros st1 st2. by apply evolves_ras, ras_keeps_stats. }
    split; [apply Hev|]. by eapply evolves_ref. }
  apply wp_bind. eapply (wp_mono _ (λ '(ps, pc, fus, fc, rs, _),
    (Forall2 (keeps dp_wf dp_ref) (bpreds b) ps ∧ Forall2 dp_ref ps pc) ∧
    (keeps fu_wf fu_ref (fusion b) fus ∧ fu_num_pred fus = fu_num_pred (fusion b) ∧ fu_ref fus fc) ∧
    ras_keeps rs_wf rs_ref (ras b) rs)).
  { pose proof (Forall2_keeps_refl _ wf_bpreds0). destruct (COND (opflags x)).
    - apply wp_bind. eapply wp_mono.
      { apply (each_ok dp_wf dp_ref); [|done..]. intros j p c Hj Hp Hpc'.
        apply wp_bind, wp_aget; [lia|]. intros d _.
        eapply wp_mono; [by apply dp_update_ok|]. by intros [p' c'] (? & ? & _). }
      intros [ps pc] Hps. apply wp_bind.
      eapply wp_mono; [apply fu_update_ok; [done..|by rewrite shape_preds0]|].
      intros [fus fc] (? & ? & ? & _). split; [done|]. split; [by split|]. done.
    - destruct (CALL (opflags x)); [|split; [done|]; split; [split; [by apply keeps_refl|done]|done]]. apply wp_bind.
      eapply wp_mono; [by apply rs_real_push_ok|]. intros rs Hrs.
      split; [done|]. split; [split; [by apply keeps_refl|done]|]. by apply ras_keeps_stats. }
  intros [[[[[ps pc] fus] fc] rs] st'] ((Hps & Hpc') & (Hfu & Hn & Hfc') & Hrs).
  assert (length pc = length ps) by (by symmetry; eapply Forall2_length).
  assert (length ps = length (bpreds b)) by (by symmetry; eapply Forall2_length).
  assert (wp (let* '(db, c) := bt_update (dirjmp_BTB b) (dirjmp sc) (br x) (our_target sc)
                 (our_pred sc) (rnds x (-2)) in
      Ok (mk_bpred ps fus rs db (indirjmp_BTB b) st',
          mk_cache (preds sc) (our_target sc) pc fc c (indirjmp sc) (ras_checkpoint sc) (our_pred sc)))
    (λ '(b', sc'), evolves b b' ∧ sc_ref b' sc')) as Hdir.
  { apply wp_bind. eapply wp_mono; [by apply bt_update_ok|]. intros [db c] [Hd Hc].
    split; split; simpl; try done.
    - by apply (ev_indirjmp b b), evolves_refl.
    - split; simpl; [congruence..|done].
    - by apply Hrs. }
  destruct (indirjmp_BTB b) as [ib|] eqn:Ei; [|exact Hdir].
  destruct (INDIR (opflags x)); [|exact Hdir].
  destruct (shape_indirjmp0 ltac:(done)) as [c Ec]. rewrite Ec in *. simpl. apply wp_bind.
  eapply wp_mono; [apply bt_update_ok; auto|]. intros [ib' c'] [Hk' Hc'].
  split; split; simpl; try done.
  - by rewrite Ei; constructor.
  - split; simpl; try congruence. done.
  - by intros ? ? [= <-] [= <-].
  - by apply Hrs.
Qed.

(** The shape the three remaining operations share: all components step, each
    through its container. *)
Lemma assemble_ok b sc ps pc fus fc rs db dc ib ic st :
  sc_ref b sc →
  Forall2 (keeps dp_wf dp_ref) (bpreds b) ps ∧ Forall2 dp_ref ps pc →
  keeps fu_wf fu_ref (fusion b) fus ∧ fu_num_pred fus = fu_num_pred (fusion b) ∧ fu_ref fus fc →
  ras_keeps rs_wf rs_ref (ras b) rs →
  keeps bt_wf bt_ref (dirjmp_BTB b) db ∧ bt_ref db dc →
  option_Forall2 (keeps bt_wf bt_ref) (indirjmp_BTB b) ib ∧ (is_Some (indirjmp_BTB b) → is_Some ic) ∧
    (∀ y c, ib = Some y → ic = Some c → bt_ref y c) →
  evolves b (mk_bpred ps fus rs db ib st) ∧
  sc_ref (mk_bpred ps fus rs db ib st)
    (mk_cache (preds sc) (our_target sc) pc fc dc ic (ras_checkpoint sc) (our_pred sc)).
Proof.
  intros [[] _ _ _ _ Hk] [Hps Hpc] (Hfu & Hn & Hfc) Hrs [Hd Hdc] (Hi & Hs & Hic).
  assert (length pc = length ps) by (by symmetry; eapply Forall2_length).
  assert (length ps = length (bpreds b)) by (by symmetry; eapply Forall2_length).
  split; split; simpl; try done.
  - split; simpl; [congruence..|]. intros [y Ey]. apply Hs. inversion Hi; subst; [done|congruence].
  - by apply Hrs.
Qed.

Lemma bpred_spec_update_ok b sc x : bp_wf b → sc_ref b sc →
  wp (spec_update b sc x) (λ '(b', sc'), evolves b b' ∧ sc_ref b' sc').
Proof.
  intros Hwf Hr. pose proof Hwf as []. pose proof Hr as [[] Hpc Hfc Hdc Hic Hk]. unfold spec_update.
  destruct (COND (opflags x)); simpl.
  - apply wp_bind. eapply wp_mono.
    { apply (each_ok dp_wf dp_ref); [|done..]. intros j p c _ Hp Hc.
      eapply wp_mono; [by apply dp_spec_update_ok|]. by intros [p' c'] (? & ? & _). }
    intros [ps pc] Hps. apply wp_bind.
    eapply wp_mono; [apply fu_spec_update_ok; [done..|by rewrite shape_preds0]|].
    intros [fus fc] (? & ? & ? & _). apply wp_bind.
    eapply wp_mono; [by apply bt_spec_update_ok|]. intros [db dc] Hd. apply wp_bind.
    eapply wp_mono; [apply opt_btb_ok; [|done]; intros; apply bt_spec_update_ok; auto|].
    intros [ib ic] Hi. by apply assemble_ok.
  - assert (evolves b (mk_bpred (bpreds b) (fusion b) (ras b) (dirjmp_BTB b) (indirjmp_BTB b)
              (bump (bstats b) 0 0 1 0 0 0 0 0 0 0))) as Hev by (by apply evolves_ras).
    split; [done|]. by eapply evolves_ref.
Qed.

Lemma bpred_recover_ok b sc o : bp_wf b → sc_ref b sc →
  wp (recover b sc o) (λ '(b', sc'), evolves b b' ∧ sc_ref b' sc').
Proof.
  intros Hwf Hr. pose proof Hwf as []. pose proof Hr as [[] Hpc Hfc Hdc Hic Hk]. unfold recover.
  apply wp_bind. eapply wp_mono.
  { apply (each_ok dp_wf dp_ref); [|done..]. intros j p c _ Hp Hc.
    eapply wp_mono; [by apply dp_recover_ok|]. by intros [p' c'] (? & ? & _). }
  intros [ps pc] Hps. apply wp_bind. eapply wp_mono; [by apply fu_recover_ok|].
  intros [fus fc] (? & ? & ? & _). apply wp_bind. eapply wp_mono; [by apply rs_recover_ok|].
  intros rs Hrs. apply wp_bind. eapply wp_mono; [by apply bt_recover_ok|].
  intros [db dc] Hd. apply wp_bind.
  eapply wp_mono; [apply opt_btb_ok; [|done]; intros; apply bt_recover_ok; auto|].
  intros [ib ic] Hi. by apply assemble_ok.
Qed.

Lemma bpred_flush_ok b sc : bp_wf b → sc_ref b sc →
  wp (flush b sc) (λ '(b', sc'), evolves b b' ∧ sc_ref b' sc').
Proof.
  intros Hwf Hr. pose proof Hwf as []. pose proof Hr as [[] Hpc Hfc Hdc Hic Hk]. unfold flush.
  apply wp_bind. eapply wp_mono.
  { apply (each_ok dp_wf dp_ref); [|done..]. intros j p c _ Hp Hc.
    eapply wp_mono; [by apply dp_flush_ok|]. by intros [p' c'] (? & ? & _). }
  intros [ps pc] Hps. apply wp_bind. eapply wp_mono; [by apply fu_flush_ok|].
  intros [fus fc] (? & ? & ? & _). apply wp_bind. eapply wp_mono; [by apply rs_recover_ok|].
  intros rs Hrs. apply wp_bind. eapply wp_mono; [by apply bt_flush_ok|].
  intros [db dc] Hd. apply wp_bind.
  eapply wp_mono; [apply opt_btb_ok; [|done]; intros; apply bt_flush_ok; auto|].
  intros [ib ic] Hi. by apply assemble_ok.
Qed.

Lemma Forall2_keeps_fmap (f : PS → PS) ps : (∀ p, dp_wf p → keeps dp_wf dp_ref p (f p)) →
  Forall dp_wf ps → Forall2 (keeps dp_wf dp_ref) ps (f <$> ps).
Proof. intros Hf. induction 1; constructor; auto. Qed.

Lemma bpred_reset_ok b : bp_wf b → evolves b (bpred_reset_stats b).
Proof.
  intros []. split; simpl.
  - apply Forall2_keeps_fmap; [|done]. intros p Hp. by apply dp_reset_ok.
  - by apply fu_reset_ok.
  - by apply fu_reset_ok.
  - by apply bt_with_stats_ok.
  - destruct (indirjmp_BTB b); constructor. apply bt_with_stats_ok. auto.
  - by apply rs_with_stats_ok.
Qed.

Lemma bpred_freeze_ok b : bp_wf b → evolves b (freeze_stats b).
Proof.
  intros []. split; simpl.
  - apply Forall2_keeps_fmap; [|done]. intros p Hp. by apply dp_with_stats_ok.
  - by apply fu_with_stats_ok.
  - by apply fu_with_stats_ok.
  - by apply bt_with_stats_ok.
  - destruct (indirjmp_BTB b); constructor. apply bt_with_stats_ok. auto.
  - by apply rs_with_stats_ok.
Qed.

Lemma new_state_cache_shape b : sc_shape b (new_state_cache b).
Proof.
  split; simpl; [by rewrite length_fmap|by rewrite length_replicate|].
  intros [ib ->]. by eexists.
Qed.
End safety.
