(* ===== verification/BPredPool.v ===== *)
(** * BPredPool: the pool of state caches of bpred_t and the sessions of its clients

    bpred_t hands a state cache to every in-flight branch and keeps the returned
    ones in the array [bpredSCC], used as a stack.  The pool refines a free list;
    on top of it, any client that looks up before it updates and does not use a
    cache it has returned runs without fault, whatever the interleaving. *)

From S2P Require Import Prelude BPredBase FusionBase RAS BTB BPred.

(** ** The pool *)

Module bpred_pool.

(** Source: src/xiosim/zesto-bpred.h:83-86 bpred_t.
    The state caches are known by the order of their allocation: [allocated]
    have been made. *)
Record pool : Type := mk_pool {
  bpredSCC : list (option nat);
  bpredSCC_size : Z;
  bpredSCC_head : Z;
  SC_debt : Z;
  allocated : nat
}.

(** Source: src/xiosim/zesto-bpred.cpp:1115-1127 bpred_t::init_state_cache_pool. *)
Definition init_state_cache_pool (start_size : Z) : result pool :=
  if start_size <=? 0 then Fault Fatal
  else Ok (mk_pool (replicate (Z.to_nat start_size) None) start_size 0 0 0).

(** Source: src/xiosim/zesto-bpred.cpp:1132-1166 bpred_t::get_state_cache.
    The state cache and whether it is a new one. *)
Definition get_state_cache (p : pool) : result (pool * nat * bool) :=
  let* slot := aget (bpredSCC p) (bpredSCC_head p) in
  match slot with
  | None =>
      Ok (mk_pool (bpredSCC p) (bpredSCC_size p) (bpredSCC_head p) (SC_debt p + 1) (S (allocated p)),
          allocated p, true)
  | Some sc =>
      let* l := aset (bpredSCC p) (bpredSCC_head p) None in
      Ok (mk_pool l (bpredSCC_size p)
            (if 0 <? bpredSCC_head p then bpredSCC_head p - 1 else bpredSCC_head p)
            (SC_debt p) (allocated p), sc, false)
  end.

(** Source: src/xiosim/zesto-bpred.cpp:1173-1196 bpred_t::return_state_cache. *)
Definition return_state_cache (p : pool) (sc : nat) : result pool :=
  let* slot := aget (bpredSCC p) (bpredSCC_head p) in
  match slot with
  | None =>
      let* l := aset (bpredSCC p) (bpredSCC_head p) (Some sc) in
      Ok (mk_pool l (bpredSCC_size p) (bpredSCC_head p) (SC_debt p) (allocated p))
  | Some _ =>
      let '(l, size) :=
        if bpredSCC_head p =? bpredSCC_size p - 1 then
          (bpredSCC p ++ replicate (Z.to_nat (bpredSCC_size p)) None, bpredSCC_size p * 2)
        else (bpredSCC p, bpredSCC_size p) in
      let* l := aset l (bpredSCC_head p + 1) (Some sc) in
      Ok (mk_pool l size (bpredSCC_head p + 1) (SC_debt p) (allocated p))
  end.

(** Source: src/xiosim/zesto-bpred.cpp:1201-1235 bpred_t::destroy_state_cache_pool.
    The debt that the warning "Leaked state caches" prints. *)
Definition destroy_state_cache_pool (p : pool) : Z :=
  foldl (λ debt slot, match slot with Some _ => debt - 1 | None => debt end) (SC_debt p) (bpredSCC p).

(** The array holds the free list [stk], its top at [bpredSCC_head]. *)
Definition pool_rep (p : pool) (stk : list nat) : Prop :=
  bpredSCC p = (Some <$> reverse stk) ++ replicate (Z.to_nat (bpredSCC_size p) - length stk) None ∧
  1 ≤ bpredSCC_size p ∧ Z.of_nat (length stk) ≤ bpredSCC_size p ∧
  bpredSCC_head p = Z.of_nat (pred (length stk)).

Lemma pool_rep_length p stk : pool_rep p stk → Z.of_nat (length (bpredSCC p)) = bpredSCC_size p.
Proof.
  intros (-> & Hs & Hl & _). rewrite length_app, length_fmap, length_reverse, length_replicate. lia.
Qed.

Lemma init_pool_ok n : 1 ≤ n → ∃ p, init_state_cache_pool n = Ok p ∧ pool_rep p [] ∧
  SC_debt p = 0 ∧ allocated p = 0%nat.
Proof.
  intros Hn. unfold init_state_cache_pool. rewrite (proj2 (Z.leb_gt _ _)) by lia.
  eexists. split; [done|]. split; [|done]. split_and!; simpl; try lia.
  by rewrite Nat.sub_0_r.
Qed.

(** What lies at and above the top of the stack. *)
Lemma pool_slot p stk : pool_rep p stk →
  aget (bpredSCC p) (bpredSCC_head p) = Ok (head stk).
Proof.
  intros (E & Hs & Hl & Eh). unfold aget. rewrite Eh, (proj2 (Z.ltb_ge _ _)), Nat2Z.id, E by lia.
  destruct stk as [|x stk]; simpl.
  - destruct (Z.to_nat (bpredSCC_size p)) eqn:En; [lia|]. done.
  - rewrite reverse_cons, fmap_app, <- app_assoc. simpl.
    rewrite lookup_app_r, length_fmap, length_reverse, Nat.sub_diag by
      (by rewrite length_fmap, length_reverse). done.
Qed.

Lemma get_empty p : pool_rep p [] →
  ∃ p', get_state_cache p = Ok (p', allocated p, true) ∧ pool_rep p' [] ∧
    SC_debt p' = SC_debt p + 1 ∧ allocated p' = S (allocated p).
Proof.
  intros Hp. unfold get_state_cache. rewrite (pool_slot _ _ Hp). simpl. eexists. by split.
Qed.

Lemma get_top p x stk : pool_rep p (x :: stk) →
  ∃ p', get_state_cache p = Ok (p', x, false) ∧ pool_rep p' stk ∧
    SC_debt p' = SC_debt p ∧ allocated p' = allocated p.
Proof.
  intros Hp. pose proof (pool_rep_length _ _ Hp) as Hlen. unfold get_state_cache.
  rewrite (pool_slot _ _ Hp). simpl. destruct Hp as (E & Hs & Hl & Eh). simpl in *.
  rewrite aset_ok by lia. simpl. eexists. split; [done|]. split; [|done]. split_and!; simpl; try lia.
  - rewrite Eh, Nat2Z.id, E, reverse_cons, fmap_app, <- app_assoc. simpl.
    rewrite insert_app_r_alt by (by rewrite length_fmap, length_reverse).
    rewrite length_fmap, length_reverse, Nat.sub_diag. simpl. f_equal.
    replace (Z.to_nat (bpredSCC_size p) - length stk)%nat
      with (S (Z.to_nat (bpredSCC_size p) - S (length stk))) by lia. done.
  - rewrite Eh. destruct (Z.ltb_spec 0 (Z.of_nat (length stk))); lia.
Qed.

Lemma return_push p x stk : pool_rep p stk →
  ∃ p', return_state_cache p x = Ok p' ∧ pool_rep p' (x :: stk) ∧
    SC_debt p' = SC_debt p ∧ allocated p' = allocated p.
Proof.
  intros Hp. pose proof (pool_rep_length _ _ Hp) as Hlen. unfold return_state_cache.
  rewrite (pool_slot _ _ Hp). simpl. destruct Hp as (E & Hs & Hl & Eh).
  destruct stk as [|y stk]; simpl in *.
  - rewrite aset_ok by lia. simpl. eexists. split; [done|]. split; [|done].
    split_and!; simpl; try lia. rewrite Eh, E. simpl.
    destruct (Z.to_nat (bpredSCC_size p)) eqn:En; [lia|]. simpl. by rewrite Nat.sub_0_r.
  - match goal with |- context [if ?b then ?u else ?v] => set (q := if b then u else v) end.
    assert (∃ l n, q = (l, n) ∧ l = (Some <$> reverse (y :: stk)) ++ replicate (Z.to_nat n - length (y :: stk)) None
              ∧ bpredSCC_head p + 1 < n ∧ 1 ≤ n) as (l & n & -> & El & Hn & Hn1).
    { unfold q. destruct (Z.eqb_spec (bpredSCC_head p) (bpredSCC_size p - 1)) as [Eq|Hne];
        do 2 eexists; (split; [done|]); simpl; (split; [|lia]); [|done].
      rewrite E, <- app_assoc, <- replicate_add. do 2 f_equal. lia. }
    assert (Z.of_nat (length l) = n) as Hll.
    { rewrite El, length_app, length_fmap, length_reverse, length_replicate. simpl. lia. }
    rewrite aset_ok by lia. simpl. eexists. split; [done|]. split; [|done].
    split_and!; simpl; try lia. rewrite El, Eh.
    rewrite insert_app_r_alt by (rewrite length_fmap, length_reverse; simpl; lia).
    rewrite length_fmap, length_reverse. simpl.
    replace (Z.to_nat (Z.of_nat (length stk) + 1) - S (length stk))%nat with 0%nat by lia.
    replace (Z.to_nat n - S (length stk))%nat with (S (Z.to_nat n - S (S (length stk)))) by lia.
    simpl. by rewrite (reverse_cons (y :: stk) x), fmap_app, <- app_assoc.
Qed.

Lemma destroy_debt p stk : pool_rep p stk →
  destroy_state_cache_pool p = SC_debt p - Z.of_nat (length stk).
Proof.
  intros (E & _). unfold destroy_state_cache_pool. rewrite E, foldl_app.
  assert (∀ n d, foldl (λ debt (slot : option nat), match slot with Some _ => debt - 1 | None => debt end)
                   d (replicate n None) = d) as -> by (induction n; intros d; simpl; auto).
  rewrite <- (length_reverse stk). clear E. generalize (SC_debt p).
  induction (reverse stk) as [|x l IH]; intros d; simpl; [lia|]. rewrite IH. lia.
Qed.

End bpred_pool.

(** ** Sessions: clients of bpred_t *)

Section sessions.
Import bpred_pool.
Context {PS PSC FS FC BS BC RS RK : Type}.
Context `{DPO : DirPredictorOk PS PSC, FUO : FusionOk FS FC, BTO : BtbOk BS BC, RAO : RasOk RS RK}.
Abbreviation predictor := (bpred_t PS FS BS RS).
Abbreviation cache := (bpred_state_cache_t PSC FC BC RK).

(** The predictor, its pool, the state caches by their number, and what the
    client holds: the caches it got, and whether a lookup has filled them. *)
Record session : Type := mk_session {
  s_bpred : predictor;
  s_pool : pool;
  s_caches : gmap nat cache;
  s_held : gmap nat bool
}.

Inductive call : Type :=
  | CGet
  | CLookup (i : nat) (x : br_args)
  | CUpdate (i : nat) (x : br_args)
  | CSpecUpdate (i : nat) (x : br_args)
  | CRecover (i : nat) (o : bool)
  | CFlush (i : nat)
  | CReturn (i : nat)
  | CResetStats
  | CFreezeStats.

(** The discipline of the clients in fetch, decode and commit: look up through a
    cache it holds, and only then use it otherwise. *)
Definition allowed (s : session) (c : call) : bool :=
  match c with
  | CGet | CResetStats | CFreezeStats => true
  | CLookup i _ | CReturn i => bool_decide (is_Some (s_held s !! i))
  | CUpdate i _ | CSpecUpdate i _ | CRecover i _ | CFlush i =>
      bool_decide (s_held s !! i = Some true)
  end.

(** An operation of bpred_t through state cache [i]. *)
Definition through (s : session) (i : nat) (op : predictor → cache → result (predictor * cache))
  : result session :=
  let* sc := of_option NullDeref (s_caches s !! i) in
  let* '(b, sc) := op (s_bpred s) sc in
  Ok (mk_session b (s_pool s) (<[i := sc]> (s_caches s)) (<[i := true]> (s_held s))).

Definition exec_call (s : session) (c : call) : result session :=
  match c with
  | CGet =>
      let* '(p, i, fresh) := get_state_cache (s_pool s) in
      let cs := if fresh then <[i := new_state_cache (s_bpred s)]> (s_caches s) else s_caches s in
      Ok (mk_session (s_bpred s) p cs (<[i := false]> (s_held s)))
  | CLookup i x => through s i (λ b sc, let* '(b, sc, _) := lookup b sc x in Ok (b, sc))
  | CUpdate i x => through s i (λ b sc, update b sc x)
  | CSpecUpdate i x => through s i (λ b sc, spec_update b sc x)
  | CRecover i o => through s i (λ b sc, recover b sc o)
  | CFlush i => through s i flush
  | CReturn i =>
      let* p := return_state_cache (s_pool s) i in
      Ok (mk_session (s_bpred s) p (s_caches s) (delete i (s_held s)))
  | CResetStats => Ok (mk_session (bpred_reset_stats (s_bpred s)) (s_pool s) (s_caches s) (s_held s))
  | CFreezeStats => Ok (mk_session (freeze_stats (s_bpred s)) (s_pool s) (s_caches s) (s_held s))
  end.

Definition session_step (s s' : session) : Prop :=
  ∃ c, allowed s c = true ∧ exec_call s c = Ok s'.

(** The free caches [stk] and the held ones partition the allocated ones. *)
Definition accounts (s : session) (stk : list nat) : Prop :=
  pool_rep (s_pool s) stk ∧ NoDup stk ∧
  (∀ i, is_Some (s_held s !! i) → i ∉ stk) ∧
  (∀ i, (i < allocated (s_pool s))%nat ↔ i ∈ stk ∨ is_Some (s_held s !! i)) ∧
  SC_debt (s_pool s) = Z.of_nat (length stk) + Z.of_nat (size (s_held s)).

Definition caches_ok (s : session) : Prop :=
  (∀ i, (i < allocated (s_pool s))%nat → ∃ sc, s_caches s !! i = Some sc ∧ sc_shape (s_bpred s) sc) ∧
  (∀ i sc, s_held s !! i = Some true → s_caches s !! i = Some sc → sc_ref (s_bpred s) sc).

Definition session_inv (s : session) : Prop :=
  bp_wf (s_bpred s) ∧ (∃ stk, accounts s stk) ∧ caches_ok s.

Lemma held_allocated s stk i : accounts s stk → is_Some (s_held s !! i) →
  (i < allocated (s_pool s))%nat.
Proof. intros (_ & _ & _ & Ha & _) Hi. apply Ha. by right. Qed.

Lemma accounts_same s stk b cs h : accounts s stk →
  (∀ i, is_Some (h !! i) ↔ is_Some (s_held s !! i)) → size h = size (s_held s) →
  accounts (mk_session b (s_pool s) cs h) stk.
Proof.
  intros (Hp & Hnd & Hd & Ha & Hdebt) Hh Hsz. split_and!; simpl; try done.
  - intros i Hi. by apply Hd, Hh.
  - intros i. by rewrite Ha, Hh.
  - by rewrite Hsz.
Qed.

(** The caches after the predictor evolved. *)
Lemma caches_evolve s b : caches_ok s → evolves (s_bpred s) b →
  caches_ok (mk_session b (s_pool s) (s_caches s) (s_held s)).
Proof.
  intros [Hs Hr] Hev. split; simpl.
  - intros i (sc & ? & ?)%Hs. exists sc. split; [done|]. by eapply evolves_shape.
  - intros i sc ??. eapply evolves_ref; [done|]. by eapply Hr.
Qed.

Lemma through_ok s i op : session_inv s → is_Some (s_held s !! i) →
  (∀ sc, s_caches s !! i = Some sc → sc_shape (s_bpred s) sc →
     wp (op (s_bpred s) sc) (λ '(b, sc'), evolves (s_bpred s) b ∧ sc_ref b sc')) →
  wp (through s i op) session_inv.
Proof.
  intros (Hwf & (stk & Hacc) & Hc) Hi Hop. unfold through.
  destruct (proj1 Hc i (held_allocated _ _ _ Hacc Hi)) as (sc & Esc & Hsh). rewrite Esc. simpl.
  apply wp_bind. eapply wp_mono; [by apply Hop|]. intros [b sc'] [Hev Hr].
  destruct (caches_evolve _ _ Hc Hev) as [Hc1 Hc2]. simpl in *.
  split; [by eapply evolves_wf|]. split.
  - exists stk. apply accounts_same; [done| |].
    + intros j. rewrite lookup_insert. case_decide; [subst; split; [done|by intros]|done].
    + destruct Hi as [v Hv]. rewrite map_size_insert, Hv. done.
  - split; simpl.
    + intros j Hj. rewrite lookup_insert. case_decide; [|by apply Hc1].
      exists sc'. split; [done|]. by apply ref_shape.
    + intros j sc2. rewrite !lookup_insert. case_decide; [by intros _ [= <-]|]. apply Hc2.
Qed.

(** Getting a cache: never one that the client holds. *)
Lemma get_ok s : session_inv s →
  wp (exec_call s CGet) (λ s', session_inv s' ∧
    ∃ i, s_held s !! i = None ∧ s_held s' = <[i := false]> (s_held s)).
Proof.
  intros (Hwf & (stk & Hacc) & Hc1 & Hc2). pose proof Hacc as (Hp & Hnd & Hd & Ha & Hdebt). simpl.
  destruct stk as [|x stk].
  - destruct (get_empty _ Hp) as (p' & -> & Hp' & Ed & Ea). simpl.
    assert (s_held s !! allocated (s_pool s) = None) as Hn.
    { apply eq_None_not_Some. intros Hi. pose proof (held_allocated _ _ _ Hacc Hi). lia. }
    split; [|by eexists]. split; [done|]. split.
    + exists []. split_and!; simpl; [done|constructor|by intros ? _ ?%not_elem_of_nil| |].
      * intros i. rewrite Ea, lookup_insert. case_decide as Hi.
        { subst. split; [by right|lia]. }
        rewrite <- Ha. lia.
      * rewrite Ed, map_size_insert, Hn. simpl in *. lia.
    + split; simpl.
      * intros i Hi. rewrite lookup_insert. case_decide.
        { eexists. split; [done|]. apply new_state_cache_shape. }
        apply Hc1. lia.
      * intros i sc. rewrite !lookup_insert. case_decide; [done|]. apply Hc2.
  - destruct (get_top _ _ _ Hp) as (p' & -> & Hp' & Ed & Ea). simpl.
    assert (s_held s !! x = None) as Hn.
    { apply eq_None_not_Some. intros Hi. by apply (Hd x Hi), list_elem_of_here. }
    apply list.NoDup_cons in Hnd as [Hx Hnd]. split; [|by eexists]. split; [done|]. split.
    + exists stk. split_and!; simpl; [done|done| | |].
      * intros i. rewrite lookup_insert. case_decide as Hi; [by subst|]. intros Hs.
        specialize (Hd i Hs). by intros ?%(list_elem_of_further i x).
      * intros i. rewrite Ea, Ha, elem_of_cons, lookup_insert. case_decide as Hi.
        { subst. split; [by right|by left; left]. }
        split; [intros [[?|?]|?]|intros [?|?]]; auto; congruence.
      * rewrite Ed, map_size_insert, Hn. simpl in *. lia.
    + split; simpl.
      * intros i Hi. apply Hc1. lia.
      * intros i sc. rewrite lookup_insert. case_decide; [done|]. apply Hc2.
Qed.

Lemma return_ok s i : session_inv s → is_Some (s_held s !! i) →
  wp (exec_call s (CReturn i)) session_inv.
Proof.
  intros (Hwf & (stk & Hacc) & Hc1 & Hc2) Hi. pose proof Hacc as (Hp & Hnd & Hd & Ha & Hdebt). simpl.
  destruct (return_push _ i _ Hp) as (p' & -> & Hp' & Ed & Ea). simpl.
  split; [done|]. split.
  - exists (i :: stk). split_and!; simpl; [done| | | |].
    + apply list.NoDup_cons. split; [by apply Hd|done].
    + intros j. rewrite lookup_delete. case_decide; [by intros []|].
      intros Hj [->|?]%elem_of_cons; [done|]. by apply (Hd j Hj).
    + intros j. rewrite Ea, Ha, elem_of_cons, lookup_delete. case_decide as Hj.
      { subst. split; [by left; left|by right]. }
      split; [intros [?|?]|intros [[?|?]|?]]; auto; congruence.
    + destruct Hi as [v Hv]. rewrite Ed, map_size_delete, Hv.
      assert (size (s_held s) ≠ 0%nat) by (intros Hz%map_size_empty_inv; by rewrite Hz, lookup_empty in Hv).
      lia.
  - split; simpl.
    + intros j Hj. apply Hc1. lia.
    + intros j sc. rewrite lookup_delete. case_decide; [done|]. apply Hc2.
Qed.

(** One call. *)
Lemma exec_call_ok s c : session_inv s → allowed s c = true → wp (exec_call s c) session_inv.
Proof.
  intros Hinv Hal. pose proof Hinv as (Hwf & (stk & Hacc) & Hc).
  destruct c; simpl in Hal; try apply bool_decide_eq_true in Hal.
  - eapply wp_mono; [by apply get_ok|]. by intros s' [? _].
  - apply through_ok; [done..|]. intros sc _ Hsh. apply wp_bind.
    eapply wp_mono; [by apply bpred_lookup_ok|]. by intros [[b sc'] t].
  - apply through_ok; [done|by rewrite Hal|]. intros sc Esc _.
    apply bpred_update_ok; [done|]. by eapply (proj2 Hc).
  - apply through_ok; [done|by rewrite Hal|]. intros sc Esc _.
    apply bpred_spec_update_ok; [done|]. by eapply (proj2 Hc).
  - apply through_ok; [done|by rewrite Hal|]. intros sc Esc _.
    apply bpred_recover_ok; [done|]. by eapply (proj2 Hc).
  - apply through_ok; [done|by rewrite Hal|]. intros sc Esc _.
    apply bpred_flush_ok; [done|]. by eapply (proj2 Hc).
  - by apply return_ok.
  - pose proof (bpred_reset_ok _ Hwf) as Hev. split; [by eapply evolves_wf|].
    split; [by exists stk; apply accounts_same|by apply caches_evolve].
  - pose proof (bpred_freeze_ok _ Hwf) as Hev. split; [by eapply evolves_wf|].
    split; [by exists stk; apply accounts_same|by apply caches_evolve].
Qed.

Lemma session_start_ok b p n : bp_wf b → 1 ≤ n → init_state_cache_pool n = Ok p →
  session_inv (mk_session b p ∅ ∅).
Proof.
  intros Hwf Hn Ep. destruct (init_pool_ok n Hn) as (p' & Ep' & Hp & Ed & Ea).
  rewrite Ep in Ep'. injection Ep' as <-. split; [done|]. split.
  - exists []. split_and!; simpl; [done|constructor|by intros ? _ ?%not_elem_of_nil| |].
    + intros i. rewrite Ea, lookup_empty. split; [lia|]. by intros [?%not_elem_of_nil|[? ?]].
    + by rewrite Ed, map_size_empty.
  - split; simpl; [rewrite Ea; lia|]. intros i sc. by rewrite lookup_empty.
Qed.

Lemma reachable_session_inv s s' : session_inv s → rtc session_step s s' → session_inv s'.
Proof.
  induction 2 as [|s1 s2 s3 (c & Hal & He) _ IH]; [done|]. apply IH.
  eapply wp_ok; [exact He|]. by apply exec_call_ok.
Qed.
End sessions.
Arguments session PS PSC FS FC BS BC RS RK : clear implicits.

(** ** Calls and returns through the predictor *)

Section calls.
#[local] Existing Instances RAS_stack.ras RAS_stack.ras_ok.
Context {PS PSC FS FC BS BC : Type}.
Context `{DPO : DirPredictorOk PS PSC, FUO : FusionOk FS FC, BTO : BtbOk BS BC}.
Abbreviation predictor := (bpred_t PS FS BS RAS_stack.t).
Abbreviation cache := (bpred_state_cache_t PSC FC BC RAS_stack.chkpt).

(** What a lookup does to the stack, and the target it predicts for a return. *)
Lemma lookup_ras (b b' : predictor) (sc sc' : cache) x t : lookup b sc x = Ok (b', sc', t) →
  (if RETN (opflags x) then
     ∃ p, RAS_stack.pop (ras b) = Ok (ras b', p) ∧ t = final_target true p (fallthruPC x)
   else if negb (COND (opflags x)) && CALL (opflags x) then
     RAS_stack.push (ras b) (fallthruPC x) = Ok (ras b')
   else ras b' = ras b) ∧
  ras_checkpoint sc' = RAS_stack.mk_chkpt (RAS_stack.head (ras b')).
Proof.
  unfold lookup. intros E.
  repeat match goal with
  | H : rbind _ _ = Ok _ |- _ => apply bind_Ok_inv in H as (? & ? & H)
  | p : _ * _ |- _ => destruct p
  end.
  unfold rs_recover_state, rs_pop, rs_push in *. simpl in *. unfold RAS_stack.recover_state in *.
  destruct (RETN (opflags x)); [inv_ok; split; [by eexists|done]|].
  destruct (COND (opflags x)); [inv_ok; by split|].
  destruct (CALL (opflags x)); inv_ok; by split.
Qed.

Lemma recover_ras (b b' : predictor) (sc sc' : cache) o : recover b sc o = Ok (b', sc') →
  RAS_stack.recover (ras b) (ras_checkpoint sc) = Ok (ras b').
Proof.
  unfold recover. intros E.
  repeat match goal with
  | H : rbind _ _ = Ok _ |- _ => apply bind_Ok_inv in H as (? & ? & H)
  | p : _ * _ |- _ => destruct p
  end. inv_ok. done.
Qed.

(** The front end runs down a path: a lookup per branch. *)
Fixpoint lookup_path (b : predictor) (path : list (cache * br_args)) : result predictor :=
  match path with
  | [] => Ok b
  | (sc, x) :: path => let* '(b, _, _) := lookup b sc x in lookup_path b path
  end.

(** The instruction does not push a return address. *)
Definition no_push (x : br_args) : bool :=
  RETN (opflags x) || COND (opflags x) || negb (CALL (opflags x)).

Lemma lookup_path_ok b path : bp_wf b → Forall (λ p, sc_shape b p.1) path →
  Forall (λ p, no_push p.2 = true) path →
  wp (lookup_path b path) (λ b', evolves b b' ∧
    RAS_stack.stack (ras b') = RAS_stack.stack (ras b) ∧ RAS_stack.size (ras b') = RAS_stack.size (ras b)).
Proof.
  revert b. induction path as [|[sc x] path IH]; intros b Hwf Hsh Hp; simpl.
  { split; [by apply evolves_refl|done]. }
  inversion Hsh as [|? ? Hs Hsh']; inversion Hp as [|? ? Hx Hp']; subst; simpl in *.
  pose proof (bpred_lookup_ok _ _ x Hwf Hs) as ([[b1 sc1] t] & E & Hev & _)%wp_exists.
  rewrite E. simpl. apply lookup_ras in E as [E _].
  assert (RAS_stack.stack (ras b1) = RAS_stack.stack (ras b) ∧
          RAS_stack.size (ras b1) = RAS_stack.size (ras b)) as [Es Ez].
  { unfold no_push in Hx. destruct (RETN (opflags x)); [|destruct (COND (opflags x)), (CALL (opflags x))];
      simpl in *; try done; try by rewrite E.
    destruct E as (p & E & _). apply bind_Ok_inv in E as (v & _ & E). by injection E as <- _. }
  eapply wp_mono; [apply IH; [by eapply evolves_wf| |done]|].
  - eapply Forall_impl; [|exact Hsh']. intros p. by apply evolves_shape.
  - intros b2 (Hev2 & -> & ->). split; [by eapply evolves_trans|]. by rewrite Es, Ez.
Qed.
End calls.

