(* ===== verification/Dispatch.v ===== *)
(** * Dispatch: virtual calls, as sums of the classes that implement an interface

    bpred_t calls its components through pointers to the base classes.  Here a
    component is a value of the sum of the implementing classes, and a call
    dispatches on the summand.  The sum of two lawful implementations is lawful,
    so the theorems about clients hold for any mix of components.

    A state container belongs to the class that allocated it.  A lookup through
    a container of another class starts from a fresh one; the other operations
    fault (the code would cast the pointer to the wrong class). *)

From S2P Require Import Prelude BPredBase FusionBase RAS BTB.

(** The operation of one summand, as an operation of the sum. *)
Definition in_l {S1 S2 C1 C2 : Type} (x : S1 * C1) : (S1 + S2) * (C1 + C2) := (inl x.1, inl x.2).
Definition in_r {S1 S2 C1 C2 : Type} (x : S2 * C2) : (S1 + S2) * (C1 + C2) := (inr x.1, inr x.2).

Definition as_l {C1 C2 : Type} (c : C1 + C2) : result C1 :=
  match c with inl c => Ok c | inr _ => Fault NullDeref end.
Definition as_r {C1 C2 : Type} (c : C1 + C2) : result C2 :=
  match c with inr c => Ok c | inl _ => Fault NullDeref end.

Definition left_or {C1 C2 : Type} (d : C1) (c : C1 + C2) : C1 :=
  match c with inl c => c | inr _ => d end.
Definition right_or {C1 C2 : Type} (d : C2) (c : C1 + C2) : C2 :=
  match c with inr c => c | inl _ => d end.

Section dispatch.
Context {S1 C1 S2 C2 : Type}.

(** Dispatch a call that may use a container of the component's own class only. *)
Definition dispatch (f1 : S1 → C1 → result (S1 * C1)) (f2 : S2 → C2 → result (S2 * C2))
    (s : S1 + S2) (c : C1 + C2) : result ((S1 + S2) * (C1 + C2)) :=
  match s with
  | inl s => let* c := as_l c in rmap in_l (f1 s c)
  | inr s => let* c := as_r c in rmap in_r (f2 s c)
  end.

(** Dispatch a lookup. *)
Definition dispatch_lookup {B : Type} (g1 : S1 → C1) (g2 : S2 → C2)
    (f1 : S1 → C1 → result (S1 * C1 * B)) (f2 : S2 → C2 → result (S2 * C2 * B))
    (s : S1 + S2) (c : C1 + C2) : result ((S1 + S2) * (C1 + C2) * B) :=
  match s with
  | inl s => rmap (λ x, (in_l x.1, x.2)) (f1 s (left_or (g1 s) c))
  | inr s => rmap (λ x, (in_r x.1, x.2)) (f2 s (right_or (g2 s) c))
  end.

Definition sum_wf (w1 : S1 → Prop) (w2 : S2 → Prop) (s : S1 + S2) : Prop :=
  match s with inl s => w1 s | inr s => w2 s end.

Definition sum_ref (r1 : S1 → C1 → Prop) (r2 : S2 → C2 → Prop) (s : S1 + S2) (c : C1 + C2) : Prop :=
  match s, c with inl s, inl c => r1 s c | inr s, inr c => r2 s c | _, _ => False end.

Section laws.
Context (w1 : S1 → Prop) (w2 : S2 → Prop) (r1 : S1 → C1 → Prop) (r2 : S2 → C2 → Prop).

Lemma keeps_inl s s' : keeps w1 r1 s s' → keeps (sum_wf w1 w2) (sum_ref r1 r2) (inl s) (inl s').
Proof. intros [Hw Hk]. split; [done|]. intros [c|c]; simpl; auto. Qed.

Lemma keeps_inr s s' : keeps w2 r2 s s' → keeps (sum_wf w1 w2) (sum_ref r1 r2) (inr s) (inr s').
Proof. intros [Hw Hk]. split; [done|]. intros [c|c]; simpl; auto. Qed.

Lemma dispatch_ok f1 f2 s c (Q : (S1 + S2) * (C1 + C2) → Prop) :
  sum_ref r1 r2 s c →
  (∀ s1 c1, s = inl s1 → c = inl c1 → r1 s1 c1 → wp (f1 s1 c1) (λ x, Q (in_l x))) →
  (∀ s2 c2, s = inr s2 → c = inr c2 → r2 s2 c2 → wp (f2 s2 c2) (λ x, Q (in_r x))) →
  wp (dispatch f1 f2 s c) Q.
Proof.
  intros Hr H1 H2. destruct s as [s|s], c as [c|c]; try done; simpl in *.
  - specialize (H1 s c eq_refl eq_refl Hr). by destruct (f1 s c).
  - specialize (H2 s c eq_refl eq_refl Hr). by destruct (f2 s c).
Qed.

Lemma dispatch_lookup_ok {B} g1 g2 f1 f2 s c (Q : (S1 + S2) * (C1 + C2) * B → Prop) :
  (∀ s1 c1, s = inl s1 → wp (f1 s1 c1) (λ x, Q (in_l x.1, x.2))) →
  (∀ s2 c2, s = inr s2 → wp (f2 s2 c2) (λ x, Q (in_r x.1, x.2))) →
  wp (dispatch_lookup g1 g2 f1 f2 s c) Q.
Proof.
  intros H1 H2. destruct s as [s|s]; simpl.
  - specialize (H1 s (left_or (g1 s) c) eq_refl). by destruct (f1 _ _).
  - specialize (H2 s (right_or (g2 s) c) eq_refl). by destruct (f2 _ _).
Qed.
End laws.
End dispatch.

(** ** Direction predictors *)

#[export] Instance sum_predictor {S1 C1 S2 C2} `{!DirPredictor S1 C1, !DirPredictor S2 C2}
  : DirPredictor (S1 + S2) (C1 + C2) := {
  dp_stats s := match s with inl s => dp_stats s | inr s => dp_stats s end;
  dp_updated c := match c with inl c => dp_updated c | inr c => dp_updated c end;
  dp_lookup s c a rnd := dispatch_lookup dp_get_cache dp_get_cache
    (λ s c, dp_lookup s c a rnd) (λ s c, dp_lookup s c a rnd) s c;
  dp_update s c a p rnd := dispatch (λ s c, dp_update s c a p rnd) (λ s c, dp_update s c a p rnd) s c;
  dp_spec_update s c a p := dispatch (λ s c, dp_spec_update s c a p) (λ s c, dp_spec_update s c a p) s c;
  dp_recover s c o := dispatch (λ s c, dp_recover s c o) (λ s c, dp_recover s c o) s c;
  dp_flush s c := dispatch dp_flush dp_flush s c;
  dp_get_cache s := match s with inl s => inl (dp_get_cache s) | inr s => inr (dp_get_cache s) end;
  dp_reset_stats s := match s with inl s => inl (dp_reset_stats s) | inr s => inr (dp_reset_stats s) end;
  dp_with_stats s st := match s with inl s => inl (dp_with_stats s st) | inr s => inr (dp_with_stats s st) end
}.

#[export] Instance sum_predictor_ok {S1 C1 S2 C2}
  `{!DirPredictor S1 C1, !DirPredictor S2 C2, O1 : !DirPredictorOk S1 C1, O2 : !DirPredictorOk S2 C2}
  : DirPredictorOk (S1 + S2) (C1 + C2).
Proof.
  refine {| dp_wf := sum_wf dp_wf dp_wf; dp_ref := sum_ref dp_ref dp_ref |}; simpl.
  - intros [s|s] Hw; destruct (dp_reset_ok s Hw); auto using keeps_inl, keeps_inr.
  - intros [s|s] st Hw; destruct (dp_with_stats_ok s st Hw); auto using keeps_inl, keeps_inr.
  - intros s c a rnd Hw. eapply dispatch_lookup_ok; intros s1 c1 ->;
      (eapply wp_mono; [by apply dp_lookup_ok|]); intros [[s' c'] p] (? & ? & ? & ?);
      simpl; auto using keeps_inl, keeps_inr.
  - intros s c a p rnd Hw Hr. eapply dispatch_ok; [done|..]; intros s1 c1 -> -> ?;
      (eapply wp_mono; [by apply dp_update_ok|]); intros [s' c'] (? & ? & ? & ?);
      simpl; auto using keeps_inl, keeps_inr.
  - intros s c a p Hw Hr. eapply dispatch_ok; [done|..]; intros s1 c1 -> -> ?;
      (eapply wp_mono; [by apply dp_spec_update_ok|]); intros [s' c'] (? & ? & ? & ?);
      simpl; auto using keeps_inl, keeps_inr.
  - intros s c o Hw Hr. eapply dispatch_ok; [done|..]; intros s1 c1 -> -> ?;
      (eapply wp_mono; [by apply dp_recover_ok|]); intros [s' c'] (? & ? & ? & ?);
      simpl; auto using keeps_inl, keeps_inr.
  - intros s c Hw Hr. eapply dispatch_ok; [done|..]; intros s1 c1 -> -> ?;
      (eapply wp_mono; [by apply dp_flush_ok|]); intros [s' c'] (? & ? & ? & ?);
      simpl; auto using keeps_inl, keeps_inr.
Defined.

(** The recoverable history of the summand; [None] is what a container of another
    class saves. *)
#[export] Instance sum_hist {S1 C1 H1 S2 C2 H2}
  `{DP1 : !DirPredictor S1 C1, DP2 : !DirPredictor S2 C2, HP1 : !HistPredictor S1 C1 H1, HP2 : !HistPredictor S2 C2 H2}
  : HistPredictor (S1 + S2) (C1 + C2) (option (H1 + H2)) := {
  hp_on s := match s with inl s => hp_on s | inr s => hp_on s end;
  hp_hist s := match s with inl s => Some (inl (hp_hist s)) | inr s => Some (inr (hp_hist s)) end;
  hp_saved s c :=
    match s with
    | inl s => match c with inl c => Some (inl (hp_saved s c)) | inr _ => None end
    | inr s => match c with inr c => Some (inr (hp_saved s c)) | inl _ => None end
    end;
  hp_shift s h b :=
    match s with
    | inl s => match h with Some (inl h) => Some (inl (hp_shift s h b)) | _ => None end
    | inr s => match h with Some (inr h) => Some (inr (hp_shift s h b)) | _ => None end
    end
}.

Section sum_hist_laws.
Context {S1 C1 H1 S2 C2 H2 : Type}.
Context `{DP1 : !DirPredictor S1 C1, DP2 : !DirPredictor S2 C2,
          HP1 : !HistPredictor S1 C1 H1, HP2 : !HistPredictor S2 C2 H2}.

Lemma format_inl (s s' : S1) : same_history_format s s' →
  same_history_format (S := S1 + S2) (C := C1 + C2) (inl s) (inl s').
Proof. intros (Hon & Hs & Hsh). split; [done|]. simpl. by rewrite Hs, Hsh. Qed.

Lemma format_inr (s s' : S2) : same_history_format s s' →
  same_history_format (S := S1 + S2) (C := C1 + C2) (inr s) (inr s').
Proof. intros (Hon & Hs & Hsh). split; [done|]. simpl. by rewrite Hs, Hsh. Qed.

Lemma dispatch_inv f1 f2 (s s' : S1 + S2) (c c' : C1 + C2) : dispatch f1 f2 s c = Ok (s', c') →
  (∃ s1 c1 s1' c1', s = inl s1 ∧ c = inl c1 ∧ s' = inl s1' ∧ c' = inl c1' ∧ f1 s1 c1 = Ok (s1', c1')) ∨
  (∃ s2 c2 s2' c2', s = inr s2 ∧ c = inr c2 ∧ s' = inr s2' ∧ c' = inr c2' ∧ f2 s2 c2 = Ok (s2', c2')).
Proof.
  destruct s as [s|s], c as [c|c]; simpl; try done.
  - destruct (f1 s c) as [[s1 c1]|] eqn:E; intros [= <- <-]. left. by repeat eexists.
  - destruct (f2 s c) as [[s1 c1]|] eqn:E; intros [= <- <-]. right. by repeat eexists.
Qed.

Lemma dispatch_lookup_inv {B} g1 g2 f1 f2 (s s' : S1 + S2) (c c' : C1 + C2) (b : B) :
  dispatch_lookup g1 g2 f1 f2 s c = Ok (s', c', b) →
  (∃ s1 c1 s1' c1', s = inl s1 ∧ s' = inl s1' ∧ c' = inl c1' ∧ f1 s1 c1 = Ok (s1', c1', b)) ∨
  (∃ s2 c2 s2' c2', s = inr s2 ∧ s' = inr s2' ∧ c' = inr c2' ∧ f2 s2 c2 = Ok (s2', c2', b)).
Proof.
  destruct s as [s|s]; simpl.
  - destruct (f1 _ _) as [[[s1 c1] b']|] eqn:E; intros [= <- <- <-]. left. by repeat eexists.
  - destruct (f2 _ _) as [[[s1 c1] b']|] eqn:E; intros [= <- <- <-]. right. by repeat eexists.
Qed.

#[export] Instance sum_hist_ok `{O1 : !HistPredictorOk S1 C1 H1, O2 : !HistPredictorOk S2 C2 H2}
  : HistPredictorOk (S1 + S2) (C1 + C2) (option (H1 + H2)).
Proof.
  split; intros *; simpl; intros Hon E;
    first [apply dispatch_lookup_inv in E | apply dispatch_inv in E];
    destruct E as [E|E]; destruct E as (? & ? & ? & ? & E);
    repeat match type of E with _ ∧ _ => destruct E as [? E] end; subst.
  - pose proof (hp_lookup_ok _ _ _ _ _ _ _ Hon E) as (-> & -> & ?).
    split; [done|]. split; [done|]. by apply format_inl.
  - pose proof (hp_lookup_ok _ _ _ _ _ _ _ Hon E) as (-> & -> & ?).
    split; [done|]. split; [done|]. by apply format_inr.
  - pose proof (hp_update_ok _ _ _ _ _ _ _ Hon E) as (-> & ?). split; [done|]. by apply format_inl.
  - pose proof (hp_update_ok _ _ _ _ _ _ _ Hon E) as (-> & ?). split; [done|]. by apply format_inr.
  - pose proof (hp_spec_update_ok _ _ _ _ _ _ Hon E) as (-> & ?). split; [done|]. by apply format_inl.
  - pose proof (hp_spec_update_ok _ _ _ _ _ _ Hon E) as (-> & ?). split; [done|]. by apply format_inr.
  - pose proof (hp_recover_ok _ _ _ _ _ Hon E) as (-> & ?). split; [done|]. by apply format_inl.
  - pose proof (hp_recover_ok _ _ _ _ _ Hon E) as (-> & ?). split; [done|]. by apply format_inr.
  - pose proof (hp_flush_ok _ _ _ _ Hon E) as (-> & ?). split; [done|]. by apply format_inl.
  - pose proof (hp_flush_ok _ _ _ _ Hon E) as (-> & ?). split; [done|]. by apply format_inr.
Qed.
End sum_hist_laws.

(** ** Meta-predictors *)

#[export] Instance sum_fusion {S1 C1 S2 C2} `{!Fusion S1 C1, !Fusion S2 C2}
  : Fusion (S1 + S2) (C1 + C2) := {
  fu_stats s := match s with inl s => fu_stats s | inr s => fu_stats s end;
  fu_num_pred s := match s with inl s => fu_num_pred s | inr s => fu_num_pred s end;
  fu_updated c := match c with inl c => fu_updated c | inr c => fu_updated c end;
  fu_lookup s c ps a rnd := dispatch_lookup fu_get_cache fu_get_cache
    (λ s c, fu_lookup s c ps a rnd) (λ s c, fu_lookup s c ps a rnd) s c;
  fu_update s c ps a p := dispatch (λ s c, fu_update s c ps a p) (λ s c, fu_update s c ps a p) s c;
  fu_spec_update s c ps a p :=
    dispatch (λ s c, fu_spec_update s c ps a p) (λ s c, fu_spec_update s c ps a p) s c;
  fu_recover s c o := dispatch (λ s c, fu_recover s c o) (λ s c, fu_recover s c o) s c;
  fu_flush s c := dispatch fu_flush fu_flush s c;
  fu_get_cache s := match s with inl s => inl (fu_get_cache s) | inr s => inr (fu_get_cache s) end;
  fu_reset_stats s := match s with inl s => inl (fu_reset_stats s) | inr s => inr (fu_reset_stats s) end;
  fu_with_stats s st := match s with inl s => inl (fu_with_stats s st) | inr s => inr (fu_with_stats s st) end
}.

#[export] Instance sum_fusion_ok {S1 C1 S2 C2}
  `{!Fusion S1 C1, !Fusion S2 C2, O1 : !FusionOk S1 C1, O2 : !FusionOk S2 C2}
  : FusionOk (S1 + S2) (C1 + C2).
Proof.
  refine {| fu_wf := sum_wf fu_wf fu_wf; fu_ref := sum_ref fu_ref fu_ref |}; simpl.
  - intros [s|s] Hw; destruct (fu_reset_ok s Hw) as (? & ? & ?); auto using keeps_inl, keeps_inr.
  - intros [s|s] st Hw; destruct (fu_with_stats_ok s st Hw) as (? & ? & ?); auto using keeps_inl, keeps_inr.
  - intros s c ps a rnd Hw Hn. eapply dispatch_lookup_ok; intros s1 c1 ->;
      (eapply wp_mono; [by apply fu_lookup_ok|]); intros [[s' c'] p] (? & ? & ? & ? & ?);
      simpl; auto 6 using keeps_inl, keeps_inr.
  - intros s c ps a p Hw Hr Hn. eapply dispatch_ok; [done|..]; intros s1 c1 -> -> ?;
      (eapply wp_mono; [by apply fu_update_ok|]); intros [s' c'] (? & ? & ? & ? & ?);
      simpl; auto 6 using keeps_inl, keeps_inr.
  - intros s c ps a p Hw Hr Hn. eapply dispatch_ok; [done|..]; intros s1 c1 -> -> ?;
      (eapply wp_mono; [by apply fu_spec_update_ok|]); intros [s' c'] (? & ? & ? & ? & ?);
      simpl; auto 6 using keeps_inl, keeps_inr.
  - intros s c o Hw Hr. eapply dispatch_ok; [done|..]; intros s1 c1 -> -> ?;
      (eapply wp_mono; [by apply fu_recover_ok|]); intros [s' c'] (? & ? & ? & ? & ?);
      simpl; auto 6 using keeps_inl, keeps_inr.
  - intros s c Hw Hr. eapply dispatch_ok; [done|..]; intros s1 c1 -> -> ?;
      (eapply wp_mono; [by apply fu_flush_ok|]); intros [s' c'] (? & ? & ? & ? & ?);
      simpl; auto 6 using keeps_inl, keeps_inr.
Defined.

(** ** Branch target buffers *)

#[export] Instance sum_btb {S1 C1 S2 C2} `{!Btb S1 C1, !Btb S2 C2} : Btb (S1 + S2) (C1 + C2) := {
  bt_stats s := match s with inl s => bt_stats s | inr s => bt_stats s end;
  bt_with_stats s st := match s with inl s => inl (bt_with_stats s st) | inr s => inr (bt_with_stats s st) end;
  bt_lookup s c a p := dispatch_lookup bt_get_cache bt_get_cache
    (λ s c, bt_lookup s c a p) (λ s c, bt_lookup s c a p) s c;
  bt_update s c a t p rnd := dispatch (λ s c, bt_update s c a t p rnd) (λ s c, bt_update s c a t p rnd) s c;
  bt_spec_update s c a p := dispatch (λ s c, bt_spec_update s c a p) (λ s c, bt_spec_update s c a p) s c;
  bt_recover s c o := dispatch (λ s c, bt_recover s c o) (λ s c, bt_recover s c o) s c;
  bt_flush s c := dispatch bt_flush bt_flush s c;
  bt_get_cache s := match s with inl s => inl (bt_get_cache s) | inr s => inr (bt_get_cache s) end
}.

#[export] Instance sum_btb_ok {S1 C1 S2 C2}
  `{!Btb S1 C1, !Btb S2 C2, O1 : !BtbOk S1 C1, O2 : !BtbOk S2 C2} : BtbOk (S1 + S2) (C1 + C2).
Proof.
  refine {| bt_wf := sum_wf bt_wf bt_wf; bt_ref := sum_ref bt_ref bt_ref |}; simpl.
  - intros [s|s] st Hw; pose proof (bt_with_stats_ok s st Hw); auto using keeps_inl, keeps_inr.
  - intros s c a p Hw. eapply dispatch_lookup_ok; intros s1 c1 ->;
      (eapply wp_mono; [by apply bt_lookup_ok|]); intros [[s' c'] t] [? ?];
      simpl; auto using keeps_inl, keeps_inr.
  - intros s c a t p rnd Hw Hr. eapply dispatch_ok; [done|..]; intros s1 c1 -> -> ?;
      (eapply wp_mono; [by apply bt_update_ok|]); intros [s' c'] [? ?];
      simpl; auto using keeps_inl, keeps_inr.
  - intros s c a p Hw Hr. eapply dispatch_ok; [done|..]; intros s1 c1 -> -> ?;
      (eapply wp_mono; [by apply bt_spec_update_ok|]); intros [s' c'] [? ?];
      simpl; auto using keeps_inl, keeps_inr.
  - intros s c o Hw Hr. eapply dispatch_ok; [done|..]; intros s1 c1 -> -> ?;
      (eapply wp_mono; [by apply bt_recover_ok|]); intros [s' c'] [? ?];
      simpl; auto using keeps_inl, keeps_inr.
  - intros s c Hw Hr. eapply dispatch_ok; [done|..]; intros s1 c1 -> -> ?;
      (eapply wp_mono; [by apply bt_flush_ok|]); intros [s' c'] [? ?];
      simpl; auto using keeps_inl, keeps_inr.
Defined.

(** ** Return address stacks *)

#[export] Instance sum_ras {S1 K1 S2 K2} `{!Ras S1 K1, !Ras S2 K2} : Ras (S1 + S2) (K1 + K2) := {
  rs_stats s := match s with inl s => rs_stats s | inr s => rs_stats s end;
  rs_with_stats s st := match s with inl s => inl (rs_with_stats s st) | inr s => inr (rs_with_stats s st) end;
  rs_push s x := match s with inl s => rmap inl (rs_push s x) | inr s => rmap inr (rs_push s x) end;
  rs_pop s o :=
    match s with
    | inl s => rmap (λ x, (inl x.1, x.2)) (rs_pop s o)
    | inr s => rmap (λ x, (inr x.1, x.2)) (rs_pop s o)
    end;
  rs_recover s k :=
    match s with
    | inl s => let* k := as_l k in rmap inl (rs_recover s k)
    | inr s => let* k := as_r k in rmap inr (rs_recover s k)
    end;
  rs_recover_state s k :=
    match s with
    | inl s => rmap inl (rs_recover_state s (left_or (rs_get_state s) k))
    | inr s => rmap inr (rs_recover_state s (right_or (rs_get_state s) k))
    end;
  rs_real_push s x := match s with inl s => rmap inl (rs_real_push s x) | inr s => rmap inr (rs_real_push s x) end;
  rs_real_pop s :=
    match s with
    | inl s => rmap (λ x, (inl x.1, x.2)) (rs_real_pop s)
    | inr s => rmap (λ x, (inr x.1, x.2)) (rs_real_pop s)
    end;
  rs_get_state s := match s with inl s => inl (rs_get_state s) | inr s => inr (rs_get_state s) end
}.

Lemma wp_rmap {A B} (f : A → B) (r : result A) (Q : B → Prop) : wp r (λ a, Q (f a)) → wp (rmap f r) Q.
Proof. by destruct r. Qed.

#[export] Instance sum_ras_ok {S1 K1 S2 K2}
  `{!Ras S1 K1, !Ras S2 K2, O1 : !RasOk S1 K1, O2 : !RasOk S2 K2} : RasOk (S1 + S2) (K1 + K2).
Proof.
  refine {| rs_wf := sum_wf rs_wf rs_wf; rs_ref := sum_ref rs_ref rs_ref |}; simpl.
  - intros [s|s] x Hw; apply wp_rmap; (eapply wp_mono; [by apply rs_push_ok|]); simpl;
      intros s' Hk; [by apply keeps_inl|by apply keeps_inr].
  - intros [s|s] o Hw; apply wp_rmap; (eapply wp_mono; [by apply rs_pop_ok|]); simpl;
      intros [s' t] Hk; [by apply keeps_inl|by apply keeps_inr].
  - intros [s|s] [k|k] Hw Hr; try done; apply wp_rmap; (eapply wp_mono; [by apply rs_recover_ok|]); simpl;
      intros s' Hk; [by apply keeps_inl|by apply keeps_inr].
  - intros [s|s] k Hw; apply wp_rmap; (eapply wp_mono; [by apply rs_recover_state_ok|]); done.
  - intros [s|s] x Hw; apply wp_rmap; (eapply wp_mono; [by apply rs_real_push_ok|]); simpl;
      intros s' Hk; [by apply keeps_inl|by apply keeps_inr].
  - intros [s|s] Hw; apply wp_rmap; (eapply wp_mono; [by apply rs_real_pop_ok|]); simpl;
      intros [s' t] Hk; [by apply keeps_inl|by apply keeps_inr].
  - intros [s|s] st Hw; pose proof (rs_with_stats_ok s st Hw); [by apply keeps_inl|by apply keeps_inr].
Defined.
