(* ===== verification/BPredAll.v ===== *)
(** * BPredAll: the branch predictor with the components of the repository

    The sums of the direction predictors (src/xiosim/ZCOMPS-bpred), the
    meta-predictors (ZCOMPS-fusion), the branch target buffers (ZCOMPS-btb) and
    the return address stacks (ZCOMPS-ras), and the theorems about the clients of
    the interfaces, which hold for every mix of them. *)

From S2P Require Import Prelude SatCounter BPredBase BPredProtocol BPredGlobalHist BPred2bC BPred2lev BPredBimode BPredYags BPredSkewed BPredPerceptron BPredTageHist BPredTage BPredPath BPredBlg BPredAlloyed BPredStatic FusionBase FusionTables FusionColt RAS BTBList BTB BPred BPredPool Dispatch.

Declare Scope sum_scope.
Open Scope sum_scope.
Notation "p '⊕d' q" := (@sum_predictor _ _ _ _ p q) (at level 60, right associativity) : sum_scope.
Notation "p '⊕o' q" := (@sum_predictor_ok _ _ _ _ _ _ p q) (at level 60, right associativity) : sum_scope.

(** ** The classes *)

Definition dir_state : Type :=
  bpred_2bC.t + (bpred_2lev.t + (bpred_bimode.t + (bpred_yags.t + (bpred_skewed.t +
  (bpred_perceptron.t + (bpred_tage.t + (bpred_pathneural.t + (bpred_pwl.t + (bpred_blg.t +
  (bpred_alloyedperceptron.t + bpred_static.t)))))))))).

Definition dir_cache : Type :=
  bpred_2bC.sc + (bpred_2lev.sc + (bpred_bimode.sc + (bpred_yags.sc + (bpred_skewed.sc +
  (bpred_perceptron.sc + (bpred_tage.sc + (bpred_pathneural.sc + (bpred_pwl.sc + (bpred_blg.sc +
  (bpred_alloyedperceptron.sc + bpred_sc_t)))))))))).

#[export] Instance dir_predictor : DirPredictor dir_state dir_cache :=
  bpred_2bC.predictor ⊕d bpred_2lev.predictor ⊕d bpred_bimode.predictor ⊕d bpred_yags.predictor ⊕d
  bpred_skewed.predictor ⊕d bpred_perceptron.predictor ⊕d bpred_tage.predictor ⊕d
  bpred_pathneural.predictor ⊕d bpred_pwl.predictor ⊕d bpred_blg.predictor ⊕d
  bpred_alloyedperceptron.predictor ⊕d bpred_static.predictor.

#[export] Instance dir_predictor_ok : DirPredictorOk dir_state dir_cache :=
  bpred_2bC.predictor_ok ⊕o bpred_2lev.predictor_ok ⊕o bpred_bimode.predictor_ok ⊕o
  bpred_yags.predictor_ok ⊕o bpred_skewed.predictor_ok ⊕o bpred_perceptron.predictor_ok ⊕o
  bpred_tage.predictor_ok ⊕o bpred_pathneural.predictor_ok ⊕o bpred_pwl.predictor_ok ⊕o
  bpred_blg.predictor_ok ⊕o bpred_alloyedperceptron.predictor_ok ⊕o bpred_static.predictor_ok.

(** The predictors that repair their history after a misprediction. *)
Definition hist_state : Type :=
  bpred_2lev.t + (bpred_bimode.t + (bpred_yags.t + (bpred_skewed.t +
  (bpred_perceptron.t + bpred_tage.t)))).
Definition hist_cache : Type :=
  bpred_2lev.sc + (bpred_bimode.sc + (bpred_yags.sc + (bpred_skewed.sc +
  (bpred_perceptron.sc + bpred_tage.sc)))).
Definition history : Type :=
  option (Z + option (Z + option (Z + option (Z + option (Z + tage_hist.hist_t))))).

#[export] Instance hist_predictor : DirPredictor hist_state hist_cache :=
  bpred_2lev.predictor ⊕d bpred_bimode.predictor ⊕d bpred_yags.predictor ⊕d bpred_skewed.predictor ⊕d
  bpred_perceptron.predictor ⊕d bpred_tage.predictor.

Notation "p '⊕h' q" := (@sum_hist _ _ _ _ _ _ _ _ p q) (at level 60, right associativity) : sum_scope.
Notation "p '⊕k' q" := (@sum_hist_ok _ _ _ _ _ _ _ _ _ _ p q) (at level 60, right associativity) : sum_scope.

#[export] Instance hist_history : HistPredictor hist_state hist_cache history :=
  bht_hist (BP := bpred_2lev.bht_pred) ⊕h bht_hist (BP := bpred_bimode.bht_pred) ⊕h
  bht_hist (BP := bpred_yags.bht_pred) ⊕h bht_hist (BP := bpred_skewed.bht_pred) ⊕h
  bpred_perceptron.hist ⊕h bpred_tage.hist.

#[export] Instance hist_history_ok : HistPredictorOk hist_state hist_cache history :=
  bht_hist_ok (BOK := bpred_2lev.bht_ok) ⊕k bht_hist_ok (BOK := bpred_bimode.bht_ok) ⊕k
  bht_hist_ok (BOK := bpred_yags.bht_ok) ⊕k bht_hist_ok (BOK := bpred_skewed.bht_ok) ⊕k
  bpred_perceptron.hist_ok ⊕k bpred_tage.hist_laws.

(** The meta-predictors. *)
Definition fusion_state : Type :=
  fusion_simple.t + (fusion_mcfarling.t + (fusion_multihybrid.t + (fusion_priority.t + fusion_colt.t))).
Definition fusion_cache : Type :=
  bpred_sc_t + (bpred_sc_t + (bpred_sc_t + (bpred_sc_t + fusion_colt.sc))).

#[export] Instance any_fusion : Fusion fusion_state fusion_cache :=
  @sum_fusion _ _ _ _ fusion_simple.meta (@sum_fusion _ _ _ _ fusion_mcfarling.meta_pred
    (@sum_fusion _ _ _ _ fusion_multihybrid.meta_pred
      (@sum_fusion _ _ _ _ fusion_priority.meta_pred fusion_colt.meta_pred))).

#[export] Instance any_fusion_ok : FusionOk fusion_state fusion_cache :=
  @sum_fusion_ok _ _ _ _ _ _ fusion_simple.meta_ok (@sum_fusion_ok _ _ _ _ _ _ fusion_mcfarling.meta_ok
    (@sum_fusion_ok _ _ _ _ _ _ fusion_multihybrid.meta_ok
      (@sum_fusion_ok _ _ _ _ _ _ fusion_priority.meta_ok fusion_colt.meta_ok))).

(** The branch target buffers. *)
Definition btb_state : Type := BTB_perfect.t + (BTB_btac.t + BTB_2levbtac.t).
Definition btb_cache : Type := bpred_sc_t + (BTB_btac.sc + BTB_2levbtac.sc).

#[export] Instance any_btb : Btb btb_state btb_cache :=
  @sum_btb _ _ _ _ BTB_perfect.btb (@sum_btb _ _ _ _ BTB_btac.btb BTB_2levbtac.btb).
#[export] Instance any_btb_ok : BtbOk btb_state btb_cache :=
  @sum_btb_ok _ _ _ _ _ _ BTB_perfect.btb_ok (@sum_btb_ok _ _ _ _ _ _ BTB_btac.btb_ok BTB_2levbtac.btb_ok).

(** The return address stacks. *)
Definition ras_state : Type := RAS_perfect.t + (RAS_stack.t + RAS_multistack.t).
Definition ras_chkpt : Type := unit + (RAS_stack.chkpt + unit).

#[export] Instance any_ras : Ras ras_state ras_chkpt :=
  @sum_ras _ _ _ _ RAS_perfect.ras (@sum_ras _ _ _ _ RAS_stack.ras RAS_multistack.ras).
#[export] Instance any_ras_ok : RasOk ras_state ras_chkpt :=
  @sum_ras_ok _ _ _ _ _ _ RAS_perfect.ras_ok (@sum_ras_ok _ _ _ _ _ _ RAS_stack.ras_ok RAS_multistack.ras_ok).

(** The predictor of a core, with any of the components. *)
Definition core_bpred : Type := bpred_t dir_state fusion_state btb_state ras_state.
Definition core_session : Type :=
  session dir_state dir_cache fusion_state fusion_cache btb_state btb_cache ras_state ras_chkpt.

(** ** The theorems *)

(** C16. No interleaving of the operations of a direction predictor faults (no
    access out of the tables, no null pointer, no division by zero): from any
    well-formed predictor of the repository with cleared statistics, whatever
    lookups, updates, speculative updates, recoveries and flushes were made through
    whatever containers, the next operation on a looked-up branch runs, and the
    statistics satisfy hits <= updates <= lookups, with every branch that is still
    to be trained accounted for by a lookup. *)
Theorem predictor_interleavings_safe (s : dir_state) (m : machine dir_state dir_cache) (e : event) :
  dp_wf s → dp_stats s = init_stats → rtc step (mk_machine s ∅) m → enabled m e = true →
  ∃ m', exec m e = Ok m' ∧ dp_wf (m_pred m') ∧
    let st := dp_stats (m_pred m') in
    num_hits st ≤ updates st ≤ lookups st ∧
    (frozen st = false → updates st + Z.of_nat (pending (m_inflight m')) ≤ lookups st).
Proof.
  intros Hwf Est Hr Hen.
  destruct (interface_interleavings_safe s m e Hwf Est Hr Hen) as (m' & E & Hw & _ & Hst).
  by exists m'.
Qed.

(** A gshare predictor with a 4-bit history and 16 counters. *)
Definition gshare_4 : result dir_state := rmap (inr ∘ inl) (bpred_2lev.create 1 16 4 1).

Lemma predictor_interleavings_safe_witness : ∃ s m m' x,
  gshare_4 = Ok s ∧ exec (mk_machine s ∅) (ELookup 0 (mk_args 5 0 0 true) 0) = Ok m ∧
  enabled m (EUpdate 0 (mk_args 5 0 0 true) true 0) = true ∧
  exec m (EUpdate 0 (mk_args 5 0 0 true) true 0) = Ok m' ∧
  lookups (dp_stats (m_pred m')) = x ∧ updates (dp_stats (m_pred m')) ≤ x.
Proof.
  destruct (bpred_2lev.create 1 16 4 1) as [t|] eqn:Et; [|vm_compute in Et; done].
  destruct (bpred_2lev.bpred_2lev_create_ok _ _ _ _ _ Et) as [Hwf Est].
  destruct (exec (mk_machine (inr (inl t) : dir_state) ∅) (ELookup 0 (mk_args 5 0 0 true) 0)) as [m|] eqn:Em;
    [|injection Et as <-; vm_compute in Em; done].
  destruct (predictor_interleavings_safe (inr (inl t)) m (EUpdate 0 (mk_args 5 0 0 true) true 0) Hwf Est)
    as (m' & E & _ & Hst).
  - apply rtc_once. by eexists (ELookup 0 _ _).
  - injection Et as <-. vm_compute in Em. injection Em as <-. reflexivity.
  - exists (inr (inl t)), m, m', (lookups (dp_stats (m_pred m'))). unfold gshare_4. rewrite Et.
    split_and!; [done|done| |done|done|apply Hst].
    injection Et as <-. vm_compute in Em. injection Em as <-. reflexivity.
Defined.

(** The configuration repairs its history; the history; pushing an outcome into it. *)
Definition recovers_history (s : hist_state) : Prop := hp_on (H := history) s.
Definition history_of (s : hist_state) : history := hp_hist s.
Definition history_push (s : hist_state) (h : history) (b : bool) : history := hp_shift s h b.

(** C14. Misprediction recovery is exact.  A branch is looked up through container
    [i]; then any operations are made through other containers (the wrong path is
    looked up and pushed into the history, older branches commit).  Recovering [i]
    with the actual outcome leaves exactly the history the lookup saw with that
    outcome pushed, and flushing [i] exactly the history the lookup saw.  It holds
    for the two-level, Bi-Mode, YAGS and skewed predictors with one global history
    register (up to the bits the history mask drops), for the perceptron with at
    most 64 bits of history and for TAGE. *)
Theorem misprediction_recovery_exact (m0 m1 m2 : machine hist_state hist_cache) (i : nat)
    (a : bp_args) (rnd : Z) (es : list event) :
  recovers_history (m_pred m0) → exec m0 (ELookup i a rnd) = Ok m1 → exec_all m1 es = Ok m2 →
  Forall (λ e, ev_target e ≠ i) es →
  (∀ o m3, exec m2 (ERecover i o) = Ok m3 →
     history_of (m_pred m3) = history_push (m_pred m0) (history_of (m_pred m0)) o) ∧
  (∀ m3, exec m2 (EFlush i) = Ok m3 → history_of (m_pred m3) = history_of (m_pred m0)).
Proof. apply interface_recovery_exact. Qed.

(** gshare: a branch predicted taken, a wrong path of two branches, recovery with
    not taken: the history 0 of the lookup, shifted by a 0. *)
Lemma misprediction_recovery_exact_witness : ∃ s m1 m2 m3,
  rmap inl (bpred_2lev.create 1 16 4 1) = Ok s ∧
  exec (mk_machine (s : hist_state) ∅) (ELookup 0 (mk_args 5 0 0 false) 0) = Ok m1 ∧
  exec_all m1 [ELookup 1 (mk_args 9 0 0 true) 0; ESpecUpdate 1 (mk_args 9 0 0 true) true;
               ELookup 2 (mk_args 3 0 0 true) 0; ESpecUpdate 2 (mk_args 3 0 0 true) true] = Ok m2 ∧
  history_of (m_pred m2) = Some (inl 3) ∧
  exec m2 (ERecover 0 false) = Ok m3 ∧ history_of (m_pred m3) = Some (inl 0).
Proof.
  destruct (rmap inl (bpred_2lev.create 1 16 4 1) : result hist_state) as [s|] eqn:Es;
    [|vm_compute in Es; done].
  destruct (exec (mk_machine (s : hist_state) ∅) (ELookup 0 (mk_args 5 0 0 false) 0)) as [m1|] eqn:E1;
    [|vm_compute in Es; injection Es as <-; vm_compute in E1; done].
  destruct (exec_all m1 [ELookup 1 (mk_args 9 0 0 true) 0; ESpecUpdate 1 (mk_args 9 0 0 true) true;
               ELookup 2 (mk_args 3 0 0 true) 0; ESpecUpdate 2 (mk_args 3 0 0 true) true]) as [m2|] eqn:E2;
    [|vm_compute in Es; injection Es as <-; vm_compute in E1; injection E1 as <-; vm_compute in E2; done].
  destruct (exec m2 (ERecover 0 false)) as [m3|] eqn:E3;
    [|vm_compute in Es; injection Es as <-; vm_compute in E1; injection E1 as <-;
      vm_compute in E2; injection E2 as <-; vm_compute in E3; done].
  assert (recovers_history s) as Hon.
  { vm_compute in Es. injection Es as <-. split; [done|]. split; [done|]. by exists 4. }
  destruct (misprediction_recovery_exact (mk_machine s ∅) m1 m2 0 _ _ _ Hon E1 E2) as [Hr _].
  { by repeat constructor. }
  exists s, m1, m2, m3. specialize (Hr _ _ E3). split_and!; try done.
  - vm_compute in Es; injection Es as <-; vm_compute in E1; injection E1 as <-;
      vm_compute in E2; injection E2 as <-. reflexivity.
  - rewrite Hr. vm_compute in Es. injection Es as <-. reflexivity.
Defined.

(** C13. No client of a core's branch predictor can make it fault, as long as it
    looks a branch up through a state cache that it got and has not returned
    before it uses the cache otherwise.  The predictor may have any of the
    repository's components, each well formed, and the meta-predictor must be made
    for as many predictors as there are; the sessions interleave calls for any
    number of branches, including stat resets and freezes. *)
Theorem bpred_sessions_safe (b : core_bpred) (n : Z) (p : bpred_pool.pool) (s : core_session) (c : call) :
  bp_wf b → 1 ≤ n → bpred_pool.init_state_cache_pool n = Ok p →
  rtc session_step (mk_session b p ∅ ∅) s → allowed s c = true →
  ∃ s', exec_call s c = Ok s' ∧ bp_wf (s_bpred s').
Proof.
  intros Hwf Hn Ep Hr Hal. pose proof (session_start_ok _ _ _ Hwf Hn Ep) as H0.
  pose proof (reachable_session_inv _ _ H0 Hr) as Hs.
  pose proof (exec_call_ok _ _ Hs Hal) as (s' & E & Hw & _)%wp_exists. by exists s'.
Qed.

(** A predictor with one gshare, a perfect BTB and a 4-entry return address stack. *)
Definition small_bpred (t : bpred_2lev.t) : core_bpred :=
  create [inr (inl t)] (inl (fusion_simple.mk fusion_simple.singleton 1 fusion_init))
    (inl (BTB_perfect.mk btb_init)) None (inr (inl (RAS_stack.create 4))).

Lemma small_bpred_wf t : bpred_2lev.wf t → bp_wf (small_bpred t).
Proof.
  intros Hwf. split; simpl; try done. by apply Forall_singleton.
Qed.

Lemma bpred_sessions_safe_witness : ∃ t p s1 s2,
  bpred_2lev.create 1 16 4 1 = Ok t ∧ bpred_pool.init_state_cache_pool 32 = Ok p ∧
  exec_call (mk_session (small_bpred t) p ∅ ∅ : core_session) CGet = Ok s1 ∧
  exec_call s1 (CLookup 0 (mk_br (mk_flags true false false false) (mk_args 5 64 64 true) 6 (λ _, 0))) = Ok s2.
Proof.
  destruct (bpred_2lev.create 1 16 4 1) as [t|] eqn:Et; [|vm_compute in Et; done].
  destruct (bpred_2lev.bpred_2lev_create_ok _ _ _ _ _ Et) as [Hwf _].
  destruct (bpred_pool.init_pool_ok 32 ltac:(lia)) as (p & Ep & _).
  destruct (exec_call (mk_session (small_bpred t) p ∅ ∅ : core_session) CGet) as [s1|] eqn:E1;
    [|vm_compute in Ep; injection Ep as <-; vm_compute in E1; done].
  destruct (bpred_sessions_safe (small_bpred t) 32 p s1
    (CLookup 0 (mk_br (mk_flags true false false false) (mk_args 5 64 64 true) 6 (λ _, 0))))
    as (s2 & E2 & _); [by apply small_bpred_wf|lia|done| | |].
  - apply rtc_once. by exists CGet.
  - vm_compute in Ep. injection Ep as <-. vm_compute in E1. injection E1 as <-. reflexivity.
  - by exists t, p, s1, s2.
Defined.

(** C17. The pool of state caches neither shares nor loses one: at any point of
    any session, the state cache that [get_state_cache] hands out is one that no
    client holds, and if the pool were destroyed now, the leak it would report is
    exactly the number of state caches that clients still hold. *)
Theorem state_caches_not_shared (b : core_bpred) (n : Z) (p : bpred_pool.pool) (s : core_session) :
  bp_wf b → 1 ≤ n → bpred_pool.init_state_cache_pool n = Ok p →
  rtc session_step (mk_session b p ∅ ∅) s →
  (∃ p' i fresh, bpred_pool.get_state_cache (s_pool s) = Ok (p', i, fresh) ∧ s_held s !! i = None) ∧
  bpred_pool.destroy_state_cache_pool (s_pool s) = Z.of_nat (size (s_held s)).
Proof.
  intros Hwf Hn Ep Hr. pose proof (session_start_ok _ _ _ Hwf Hn Ep) as H0.
  pose proof (reachable_session_inv _ _ H0 Hr) as Hs. split.
  - pose proof (get_ok s Hs) as (s' & E & _ & i & Hi & Eh)%wp_exists. simpl in E.
    apply bind_Ok_inv in E as ([[p' j] fresh] & E & Es). injection Es as <-. simpl in Eh.
    exists p', j, fresh. split; [done|]. apply (f_equal (.!! i)) in Eh.
    rewrite lookup_insert_eq, lookup_insert in Eh. case_decide; [by subst|congruence].
  - destruct Hs as (_ & (stk & Hp & _ & _ & _ & Hdebt) & _).
    rewrite (bpred_pool.destroy_debt _ _ Hp). lia.
Qed.

Lemma state_caches_not_shared_witness : ∃ t p s1,
  bpred_2lev.create 1 16 4 1 = Ok t ∧ bpred_pool.init_state_cache_pool 32 = Ok p ∧
  exec_call (mk_session (small_bpred t) p ∅ ∅ : core_session) CGet = Ok s1 ∧
  bpred_pool.destroy_state_cache_pool (s_pool s1) = 1.
Proof.
  destruct (bpred_2lev.create 1 16 4 1) as [t|] eqn:Et; [|vm_compute in Et; done].
  destruct (bpred_2lev.bpred_2lev_create_ok _ _ _ _ _ Et) as [Hwf _].
  destruct (bpred_pool.init_pool_ok 32 ltac:(lia)) as (p & Ep & _).
  destruct (exec_call (mk_session (small_bpred t) p ∅ ∅ : core_session) CGet) as [s1|] eqn:E1;
    [|vm_compute in Ep; injection Ep as <-; vm_compute in E1; done].
  destruct (state_caches_not_shared (small_bpred t) 32 p s1) as [_ Hd];
    [by apply small_bpred_wf|lia|done| |].
  - apply rtc_once. by exists CGet.
  - exists t, p, s1. split_and!; try done. rewrite Hd.
    vm_compute in Ep. injection Ep as <-. vm_compute in E1. injection E1 as <-. reflexivity.
Defined.

(** ** Return prediction through the whole predictor *)

(** The predictor of a core whose stack is the circular one. *)
Definition stack_bpred : Type := bpred_t dir_state fusion_state btb_state RAS_stack.t.
Definition stack_cache : Type := bpred_state_cache_t dir_cache fusion_cache btb_cache RAS_stack.chkpt.

#[local] Existing Instances RAS_stack.ras RAS_stack.ras_ok.

(** The lookups of a call, of a branch, of the wrong path behind the branch, the
    recovery of the branch, and the lookup of the return. *)
Definition call_branch_return (b : stack_bpred) (sc_call sc_br sc_ret : stack_cache)
    (call branch ret : br_args) (path : list (stack_cache * br_args)) : result Z :=
  let* '(b, _, _) := lookup b sc_call call in
  let* '(b, sc_br, _) := lookup b sc_br branch in
  let* b := lookup_path b path in
  let* '(b, _) := recover b sc_br (outcome (br branch)) in
  let* '(_, _, target) := lookup b sc_ret ret in Ok target.

(** The two lemmas on the circular stack: what is pushed lies at the head. *)
Lemma push_top s x s' : RAS_stack.push s x = Ok s' →
  aget (RAS_stack.stack s') (RAS_stack.head s') = Ok x.
Proof.
  unfold RAS_stack.push. intros E. apply bind_Ok_inv in E as (l & El & E). injection E as <-.
  simpl. by eapply aget_aset_eq.
Qed.

Lemma pop_top s s' x p : aget (RAS_stack.stack s) (RAS_stack.head s) = Ok x →
  RAS_stack.pop s = Ok (s', p) → p = x.
Proof. unfold RAS_stack.pop. intros -> E. by injection E as _ <-. Qed.

(** C15. A call's return address survives the wrong path.  A call is looked up,
    then a branch, then any number of instructions of the branch's wrong path, each
    of them possibly a return that pops the stack, but none a call; when the branch
    recovers, the lookup of the return predicts the instruction after the call
    (unless that is address 0 or 1, which bpred_t reads as "no target").  It holds
    for every mix of direction predictors, meta-predictor and BTBs, with the
    circular return address stack, and whatever its contents and size. *)
Theorem return_survives_wrong_path (b : stack_bpred) (sc_call sc_br sc_ret : stack_cache)
    (call branch ret : br_args) (path : list (stack_cache * br_args)) :
  bp_wf b → sc_shape b sc_call → sc_shape b sc_br → sc_shape b sc_ret →
  Forall (λ p, sc_shape b p.1) path → Forall (λ p, no_push p.2 = true) path →
  RETN (opflags call) = false → COND (opflags call) = false → CALL (opflags call) = true →
  RETN (opflags branch) = false → COND (opflags branch) = true → RETN (opflags ret) = true →
  fallthruPC call ≠ 0 → fallthruPC call ≠ 1 →
  wp (call_branch_return b sc_call sc_br sc_ret call branch ret path) (λ target, target = fallthruPC call).
Proof.
  intros Hwf Hs1 Hs2 Hs3 Hpath Hnp Hc1 Hc2 Hc3 Hb1 Hb2 Hr H0 H1. unfold call_branch_return.
  pose proof (bpred_lookup_ok b sc_call call Hwf Hs1) as ([[b1 c1] t1] & E1 & Hev1 & _)%wp_exists.
  pose proof (evolves_wf _ _ Hwf Hev1) as Hwf1. rewrite E1. simpl.
  apply lookup_ras in E1 as [E1 _]. rewrite Hc1, Hc2, Hc3 in E1. simpl in E1. apply push_top in E1.
  pose proof (bpred_lookup_ok b1 sc_br branch Hwf1 (evolves_shape _ _ _ Hev1 Hs2))
    as ([[b2 c2] t2] & E2 & Hev2 & Href2)%wp_exists.
  pose proof (evolves_wf _ _ Hwf1 Hev2) as Hwf2. rewrite E2. simpl.
  pose proof (evolves_trans _ _ _ Hev1 Hev2) as Hev12.
  apply lookup_ras in E2 as [E2 Ek]. rewrite Hb1, Hb2 in E2. simpl in E2.
  assert (Forall (λ p, sc_shape b2 p.1) path) as Hpath2.
  { eapply Forall_impl; [|exact Hpath]. intros p. by apply evolves_shape. }
  pose proof (lookup_path_ok b2 path Hwf2 Hpath2 Hnp) as (b3 & E3 & Hev3 & Es & _)%wp_exists.
  pose proof (evolves_wf _ _ Hwf2 Hev3) as Hwf3. rewrite E3. simpl.
  pose proof (bpred_recover_ok b3 c2 (outcome (br branch)) Hwf3 (evolves_ref _ _ _ Hev3 Href2))
    as ([b4 c4] & E4 & Hev4 & _)%wp_exists.
  pose proof (evolves_wf _ _ Hwf3 Hev4) as Hwf4. rewrite E4. simpl.
  apply recover_ras in E4. injection E4 as E4.
  pose proof (evolves_trans _ _ _ (evolves_trans _ _ _ Hev12 Hev3) Hev4) as Hev.
  pose proof (bpred_lookup_ok b4 sc_ret ret Hwf4 (evolves_shape _ _ _ Hev Hs3))
    as ([[b5 c5] t5] & E5 & _)%wp_exists.
  rewrite E5. simpl. apply lookup_ras in E5 as [E5 _]. rewrite Hr in E5. destruct E5 as (p & Ep & ->).
  assert (p = fallthruPC call) as ->.
  { eapply pop_top; [|exact Ep]. rewrite <- E4. simpl. by rewrite Es, Ek, E2. }
  unfold final_target. by rewrite (proj2 (Z.eqb_neq _ _) H0), (proj2 (Z.eqb_neq _ _) H1).
Qed.

Lemma return_survives_wrong_path_witness : ∃ t b,
  bpred_2lev.create 1 16 4 1 = Ok t ∧
  b = create [inr (inl t)] (inl (fusion_simple.mk fusion_simple.singleton 1 fusion_init))
        (inl (BTB_perfect.mk btb_init)) None (RAS_stack.create 2) ∧
  let x f := mk_br f (mk_args 5 64 64 true) 6 (λ _, 0) in
  wp (call_branch_return b (new_state_cache b) (new_state_cache b) (new_state_cache b)
        (x (mk_flags false true false false)) (x (mk_flags true false false false))
        (x (mk_flags false false true false))
        [(new_state_cache b, x (mk_flags false false true false));
         (new_state_cache b, x (mk_flags false false true false))]) (λ target, target = 6).
Proof.
  destruct (bpred_2lev.create 1 16 4 1) as [t|] eqn:Et; [|vm_compute in Et; done].
  destruct (bpred_2lev.bpred_2lev_create_ok _ _ _ _ _ Et) as [Hwf _].
  eexists t, _. split; [done|]. split; [reflexivity|]. intros x.
  apply return_survives_wrong_path; try done; try apply new_state_cache_shape.
  - split; simpl; try done. by apply Forall_singleton.
  - apply Forall_cons_2; [|apply Forall_cons_2; [|by apply Forall_nil]]; apply new_state_cache_shape.
  - by repeat apply Forall_cons_2.
Defined.
