(* ===== verification/MemDep.v ===== *)
(** * MemDep: the memory dependence predictors of src/xiosim/ZCOMPS-memdep

    Before a load issues past stores whose addresses are not known, the execute stage asks
    the predictor of its core whether it may.  [MemDep] is the interface (memdep_t of
    zesto-memdep.h); [MemDepLaws] is what the stage relies on: an answer always comes,
    the predictor stays usable, and a load with nothing to wait for is never held back. *)

From S2P Require Import Prelude Misc.

(** Source: src/xiosim/zesto-memdep.h:66-77 memdep_t.
    The statistics of the base class; the core, the name and the type are left out. *)
Record memdep_stats : Type := mk_memdep_stats { lookups : Z; updates : Z; frozen : bool }.

(** Source: src/xiosim/zesto-memdep.cpp:67-73 init. *)
Definition memdep_init : memdep_stats := mk_memdep_stats 0 0 false.

(** [MEMDEP_STAT(lookups++;)].
    Source: src/xiosim/zesto-memdep.h:64-64 MEMDEP_STAT. *)
Definition count_lookup (st : memdep_stats) : memdep_stats :=
  if frozen st then st else mk_memdep_stats (i64 (lookups st + 1)) (updates st) (frozen st).

(** The [update] of the base class only counts.
    Source: src/xiosim/zesto-memdep.cpp:84-87 memdep_t::update. *)
Definition count_update (st : memdep_stats) : memdep_stats :=
  if frozen st then st else mk_memdep_stats (lookups st) (i64 (updates st + 1)) (frozen st).

(** Source: src/xiosim/zesto-memdep.cpp:105-108 freeze_stats. *)
Definition memdep_freeze_stats (st : memdep_stats) : memdep_stats :=
  mk_memdep_stats (lookups st) (updates st) true.

(** What a lookup is told about the stores before the load. *)
Record stores : Type := mk_stores { sta_unknown : bool; conflict_exists : bool; partial_match : bool }.

(** No earlier store stands in the way of the load. *)
Definition stores_clear (q : stores) : Prop := sta_unknown q = false ∧ partial_match q = false.

(** The virtual operations; [sim_cycle] is the clock of the core.
    Source: src/xiosim/zesto-memdep.h:79-90 memdep_t. *)
Class MemDep (P : Type) : Type := {
  md_lookup : P → Z → Z → stores → result (P * bool);
  md_update : P → Z → Z → result P
}.

Class MemDepLaws (P : Type) `{MemDep P} : Type := {
  md_ok : P → Prop;
  md_lookup_ok p now PC q : md_ok p →
    wp (md_lookup p now PC q) (λ '(p', go), md_ok p' ∧ (stores_clear q → go = true));
  md_update_ok p now PC : md_ok p → wp (md_update p now PC) md_ok
}.

(** ** Predictors without a table *)

Module memdep_simple.

Inductive kind : Type := blind | none | oracle.

Record t : Type := mk { class : kind; stats : memdep_stats }.

(** Source: src/xiosim/ZCOMPS-memdep/memdep-blind.cpp:25-29 memdep_blind_t::lookup. *)
Definition blind_lookup (q : stores) : bool := true.

(** Source: src/xiosim/ZCOMPS-memdep/memdep-none.cpp:28-32 memdep_none_t::lookup. *)
Definition none_lookup (q : stores) : bool := negb (sta_unknown q) && negb (partial_match q).

(** Source: src/xiosim/ZCOMPS-memdep/memdep-oracle.cpp:27-31 memdep_oracle_t::lookup. *)
Definition oracle_lookup (q : stores) : bool :=
  (negb (conflict_exists q) && negb (partial_match q)) || negb (sta_unknown q).

Definition answer (k : kind) : stores → bool :=
  match k with blind => blind_lookup | none => none_lookup | oracle => oracle_lookup end.

Definition lookup (p : t) (now PC : Z) (q : stores) : result (t * bool) :=
  Ok (mk (class p) (count_lookup (stats p)), answer (class p) q).

Definition update (p : t) (now PC : Z) : result t := Ok (mk (class p) (count_update (stats p))).

#[global] Instance simple_memdep : MemDep t := { md_lookup := lookup; md_update := update }.
#[global] Instance simple_laws : MemDepLaws t.
Proof.
  refine {| md_ok _ := True |}; [|done]. intros [k st] now PC [u c m] _. split; [done|].
  intros [E1 E2]; simpl in *; subst. by destruct k, c.
Qed.

(** [none] is the strictest and [blind] the most permissive; the oracle holds a load back
    only when an earlier store in conflict with it, or overlapping it in part, has an
    address that is not known. *)
Lemma answers_ordered q : (none_lookup q = true → oracle_lookup q = true) ∧
  (oracle_lookup q = true → blind_lookup q = true).
Proof. by destruct q as [[] [] []]. Qed.

Lemma oracle_waits_for_conflict q : oracle_lookup q = false ↔
  sta_unknown q = true ∧ (conflict_exists q = true ∨ partial_match q = true).
Proof. unfold oracle_lookup. destruct q as [[] [] []]; simpl; intuition congruence. Qed.

End memdep_simple.

(** ** The load wait table *)

Module memdep_lwt.

(** Source: src/xiosim/ZCOMPS-memdep/memdep-lwt.cpp:19-27 memdep_lwt_t.
    [array] is a table of bytes, zero for "do not wait". *)
Record t : Type := mk {
  stats : memdep_stats;
  num_entries : Z;
  array : list Z;
  reset_interval : Z;
  last_reset : Z;
  mask : Z
}.

(** The table is allocated with the size of a pointer per entry.
    Source: src/xiosim/ZCOMPS-memdep/memdep-lwt.cpp:30-55 memdep_lwt_t. *)
Definition create (arg_num_entries arg_reset_interval : Z) : result t :=
  let* _ := guard_or (check_ppow2 arg_num_entries) Fatal in
  let* _ := guard_or (1 <=? arg_reset_interval) Fatal in
  Ok (mk memdep_init arg_num_entries (replicate (Z.to_nat (8 * arg_num_entries)) 0) arg_reset_interval 0
        (arg_num_entries - 1)).

(** [memset] of the entries. *)
Definition clear (n : Z) (l : list Z) : list Z := replicate (Z.to_nat n) 0 ++ drop (Z.to_nat n) l.

(** The table forgets what it learnt when an interval has passed.
    Source: src/xiosim/ZCOMPS-memdep/memdep-lwt.cpp:70-74 memdep_lwt_t::lookup. *)
Definition reset (p : t) (now : Z) : result t :=
  if reset_interval p <=? i64 (now - last_reset p) then
    let* _ := guard_or (negb (reset_interval p =? 0)) DivByZero in
    Ok (mk (stats p) (num_entries p) (clear (num_entries p) (array p)) (reset_interval p)
          (i64 (now - Z.rem now (reset_interval p))) (mask p))
  else Ok p.

Definition with_stats (p : t) (st : memdep_stats) : t :=
  mk st (num_entries p) (array p) (reset_interval p) (last_reset p) (mask p).
Definition with_array (p : t) (l : list Z) : t :=
  mk (stats p) (num_entries p) l (reset_interval p) (last_reset p) (mask p).

(** Source: src/xiosim/ZCOMPS-memdep/memdep-lwt.cpp:64-80 memdep_lwt_t::lookup. *)
Definition lookup (p : t) (now PC : Z) (q : stores) : result (t * bool) :=
  let index := i32 (Z.land PC (mask p)) in
  let* p := reset (with_stats p (count_lookup (stats p))) now in
  let* x := aget (array p) index in
  Ok (p, if negb (x =? 0) then negb (sta_unknown q) else true).

(** Source: src/xiosim/ZCOMPS-memdep/memdep-lwt.cpp:83-95 memdep_lwt_t::update. *)
Definition update (p : t) (now PC : Z) : result t :=
  let* p := reset (with_stats p (count_update (stats p))) now in
  let index := i32 (Z.land PC (mask p)) in
  let* l := aset (array p) index 1 in
  Ok (with_array p l).

(** *** The invariant *)

Definition ok (p : t) : Prop := 1 ≤ num_entries p < 2 ^ 31 ∧ mask p = num_entries p - 1 ∧
  1 ≤ reset_interval p ∧ num_entries p ≤ Z.of_nat (length (array p)).

Lemma lwt_create_ok n r : n < 2 ^ 31 → wp (create n r) ok ∨ create n r = Fault Fatal.
Proof.
  intros Hn. unfold create. destruct (check_ppow2 n) eqn:E; [|by right]. simpl.
  destruct (Z.leb_spec 1 r); [left|by right]. apply check_ppow2_pos in E. unfold ok. simpl.
  rewrite length_replicate. lia.
Qed.

Lemma index_range p PC : ok p → i32 (Z.land PC (mask p)) = Z.land PC (mask p) ∧
  0 ≤ Z.land PC (mask p) < num_entries p.
Proof.
  intros (Hn & -> & _). pose proof (land_mask_range PC (num_entries p)). rewrite i32_small; lia.
Qed.

Lemma length_clear n l : 0 ≤ n ≤ Z.of_nat (length l) → length (clear n l) = length l.
Proof. intros. unfold clear. rewrite length_app, length_replicate, length_drop. lia. Qed.

Lemma reset_ok p now : ok p → wp (reset p now) (λ p', ok p' ∧ mask p' = mask p ∧ num_entries p' = num_entries p).
Proof.
  intros (H1 & H2 & H3 & H4). unfold reset. destruct (_ <=? _); [|done].
  rewrite (proj2 (Z.eqb_neq _ _)) by lia. simpl. unfold ok. simpl. rewrite length_clear by lia. done.
Qed.

#[global] Instance lwt_memdep : MemDep t := { md_lookup := lookup; md_update := update }.
#[global] Instance lwt_laws : MemDepLaws t.
Proof.
  refine {| md_ok := ok |}.
  - intros p now PC q Hp. simpl. unfold lookup. destruct (index_range p PC Hp) as [-> Hi].
    apply wp_bind. eapply wp_mono; [by apply reset_ok|]. intros p' (Hp' & Em & En). simpl in *.
    pose proof Hp' as (? & ? & ? & ?).
    apply wp_bind, wp_aget; [lia|]. intros x _. split; [done|]. intros [E _].
    rewrite E. by destruct (negb _).
  - intros p now PC Hp. simpl. unfold update. apply wp_bind.
    eapply wp_mono; [by apply reset_ok|]. intros p' [Hp' _]. destruct (index_range p' PC Hp') as [-> Hi].
    pose proof Hp' as (? & ? & ? & ?).
    apply wp_bind, wp_aset; [lia|]. unfold ok. simpl. rewrite length_insert. done.
Qed.

(** *** The table as a log of updates *)

(** An operation of the core, with its cycle. *)
Inductive op : Type := Lookup (now PC : Z) (q : stores) | Update (now PC : Z).

Definition op_cycle (o : op) : Z := match o with Lookup c _ _ => c | Update c _ => c end.

(** The state and the answers after a sequence of operations. *)
Fixpoint run (p : t) (l : list op) : result (t * list bool) :=
  match l with
  | [] => Ok (p, [])
  | Lookup c PC q :: l =>
      let* '(p, go) := lookup p c PC q in
      let* '(p, gs) := run p l in Ok (p, go :: gs)
  | Update c PC :: l => let* p := update p c PC in run p l
  end.

(** The reference: the log of the updates so far, the latest first.  A load waits for unknown
    stores when an update in the same interval of the clock named an instruction with the
    same low bits. *)
Definition log : Type := list (Z * Z).

Definition waits (k r : Z) (lg : log) (now PC : Z) : bool :=
  existsb (λ '(c, pc), (c / r =? now / r) && (pc mod 2 ^ k =? PC mod 2 ^ k)) lg.

Fixpoint answers (k r : Z) (lg : log) (l : list op) : list bool :=
  match l with
  | [] => []
  | Lookup c PC q :: l => (negb (waits k r lg c PC) || negb (sta_unknown q)) :: answers k r lg l
  | Update c PC :: l => answers k r ((c, PC) :: lg) l
  end.

(** The clock does not run backwards, from [now] on. *)
Fixpoint clocked (now : Z) (l : list op) : Prop :=
  match l with [] => True | o :: l => now ≤ op_cycle o < 2 ^ 63 ∧ clocked (op_cycle o) l end.

(** The table stands for the log, the clock being at [now]. *)
Record stands_for (k : Z) (p : t) (lg : log) (now : Z) : Prop := {
  sf_ok : ok p;
  sf_size : num_entries p = 2 ^ k;
  sf_now : 0 ≤ last_reset p ≤ now;
  sf_epoch : last_reset p mod reset_interval p = 0;
  sf_old c pc : (c, pc) ∈ lg → c / reset_interval p ≤ last_reset p / reset_interval p;
  sf_bits i : 0 ≤ i < 2 ^ k →
    ∃ x, array p !! Z.to_nat i = Some x ∧
      (x ≠ 0 ↔ ∃ c pc, (c, pc) ∈ lg ∧ c / reset_interval p = last_reset p / reset_interval p ∧ pc mod 2 ^ k = i)
}.

Lemma epoch_start now r : 0 ≤ now → 1 ≤ r → (now - now mod r) mod r = 0 ∧ (now - now mod r) / r = now / r ∧ 0 ≤ now - now mod r ≤ now.
Proof.
  intros. replace (now - now mod r) with (now / r * r) by (pose proof (Z.div_mod now r); lia).
  rewrite Z.mod_mul, Z.div_mul by lia. pose proof (Z.div_mod now r). pose proof (Z.mod_pos_bound now r).
  pose proof (Z.div_pos now r). nia.
Qed.

Lemma same_epoch last now r : 1 ≤ r → last mod r = 0 → last ≤ now → now - last < r → now / r = last / r.
Proof.
  intros Hr Hm Hl Hd. pose proof (Z.div_mod last r). symmetry.
  apply (Z.div_unique_pos now r (last / r) (now - last)); lia.
Qed.

Lemma later_epoch last now r : 1 ≤ r → r ≤ now - last → last / r < now / r.
Proof.
  intros Hr Hd. apply Z.lt_le_trans with ((last + 1 * r) / r); [rewrite Z.div_add; lia|apply Z.div_le_mono; lia].
Qed.

(** After the reset the table is that of the interval of the clock. *)
Lemma reset_stands k p lg now c : stands_for k p lg now → now ≤ c < 2 ^ 63 →
  wp (reset p c) (λ p', stands_for k p' lg c ∧ last_reset p' / reset_interval p' = c / reset_interval p' ∧
    reset_interval p' = reset_interval p).
Proof.
  intros [Hok Hsz Hn He Ho Hb] Hc. pose proof Hok as (H1 & H2 & H3 & H4). unfold reset, i64.
  rewrite (wrap_s_small 64 (c - _)) by lia.
  destruct (Z.leb_spec (reset_interval p) (c - last_reset p)) as [Hge|Hlt].
  - rewrite (proj2 (Z.eqb_neq _ _)) by lia. simpl.
    rewrite Z.rem_mod_nonneg by lia. pose proof (epoch_start c (reset_interval p)) as (E1 & E2 & E3); [lia..|].
    pose proof (later_epoch (last_reset p) c (reset_interval p)) as Hlate.
    rewrite wrap_s_small by lia. split; [|done].
    split; simpl; [|done|done|done| |].
    + unfold ok. simpl. rewrite length_clear by lia. done.
    + intros c0 pc Hin. rewrite E2. specialize (Ho _ _ Hin). lia.
    + intros i Hi. exists 0. split.
      * unfold clear. rewrite lookup_app_l by (rewrite length_replicate; lia).
        apply lookup_replicate_2. lia.
      * split; [done|]. intros (c0 & pc & Hin & E0 & _). specialize (Ho _ _ Hin). lia.
  - simpl. rewrite (same_epoch (last_reset p) c) by lia. split; [|done]. split; try done. lia.
Qed.

Lemma stands_lookup k p lg now PC q c : stands_for k p lg now → 0 ≤ k → now ≤ c < 2 ^ 63 →
  wp (lookup p c PC q) (λ '(p', go), stands_for k p' lg c ∧ reset_interval p' = reset_interval p ∧
    go = (negb (waits k (reset_interval p) lg c PC) || negb (sta_unknown q))).
Proof.
  intros Hs Hk Hc. unfold lookup.
  assert (stands_for k (with_stats p (count_lookup (stats p))) lg now) as Hs1 by (by destruct Hs; split).
  pose proof (index_range p PC (sf_ok _ _ _ _ Hs)) as [-> Hi]. pose proof (sf_size _ _ _ _ Hs) as Esz.
  pose proof (sf_ok _ _ _ _ Hs) as (_ & Em & _). rewrite Em, Esz, land_pow2_mask in * by done.
  apply wp_bind. eapply wp_mono; [by eapply reset_stands|].
  intros p' (Hs' & Ee & Er). simpl in Er. destruct (sf_bits _ _ _ _ Hs' (PC mod 2 ^ k)) as (x & Hx & Hb); [lia|].
  rewrite (aget_lookup _ _ x) by (done || lia). simpl. split; [done|]. split; [done|].
  replace (waits _ _ _ _ _) with (negb (x =? 0)); [by destruct (negb _), (sta_unknown q)|].
  symmetry. apply Bool.eq_true_iff_eq. rewrite Ee in Hb. unfold waits.
  rewrite negb_true_iff, Z.eqb_neq, Hb, existsb_exists, <- Er. split.
  - intros ([c0 pc] & Hin & [E1 E2]%andb_true_iff). exists c0, pc. rewrite list_elem_of_In. split_and!; [done|lia|lia].
  - intros (c0 & pc & Hin%list_elem_of_In & E1 & E2). exists (c0, pc). split; [done|].
    apply andb_true_iff. lia.
Qed.

Lemma stands_update k p lg now PC c : stands_for k p lg now → 0 ≤ k → now ≤ c < 2 ^ 63 →
  wp (update p c PC) (λ p', stands_for k p' ((c, PC) :: lg) c ∧ reset_interval p' = reset_interval p).
Proof.
  intros Hs Hk Hc. unfold update.
  assert (stands_for k (with_stats p (count_update (stats p))) lg now) as Hs1 by (by destruct Hs; split).
  apply wp_bind. eapply wp_mono; [by eapply reset_stands|].
  intros p' (Hs' & Ee & Er). simpl in Er. destruct Hs' as [Hok Hsz Hn He Ho Hb].
  pose proof (index_range p' PC Hok) as [-> Hi]. pose proof Hok as (H1 & Em & H3 & H4).
  rewrite Em, Hsz, land_pow2_mask in * by done.
  apply wp_bind, wp_aset; [lia|]. split; [|done]. split; simpl; [|done|lia|done| |].
  - unfold ok. simpl. rewrite length_insert, Hsz, Em. lia.
  - intros c0 pc [[= -> ->]|Hin]%elem_of_cons; [lia|eauto].
  - intros i Hr. destruct (Hb i Hr) as (x & Hx & Hbx). destruct (decide (i = PC mod 2 ^ k)) as [->|Hne].
    + exists 1. rewrite list_lookup_insert_eq by (apply lookup_lt_Some in Hx; lia). split; [done|].
      split; [|done]. intros _. exists c, PC. rewrite elem_of_cons. eauto.
    + exists x. rewrite list_lookup_insert_ne by lia. split; [done|]. rewrite Hbx. split.
      * intros (c0 & pc & Hin & ?). exists c0, pc. rewrite elem_of_cons. eauto.
      * intros (c0 & pc & [[= -> ->]|Hin]%elem_of_cons & E1 & E2); [by subst|]. eauto.
Qed.

Lemma run_stands k l : 0 ≤ k → ∀ p lg now, stands_for k p lg now → clocked now l →
  wp (run p l) (λ '(_, gs), gs = answers k (reset_interval p) lg l).
Proof.
  intros Hk. induction l as [|o l IH]; intros p lg now Hs Hl; [done|]. destruct Hl as [Ho Hl].
  destruct o as [c PC q|c PC]; simpl in Ho, Hl |- *; apply wp_bind.
  - eapply wp_mono; [by eapply stands_lookup|]. intros [p' go] (Hs' & Er & ->).
    apply wp_bind. eapply wp_mono; [by eapply IH|]. intros [p2 gs] ->. simpl. by rewrite Er.
  - eapply wp_mono; [by eapply stands_update|]. intros p' (Hs' & Er). rewrite <- Er. by eapply IH.
Qed.

Lemma create_stands n r : n < 2 ^ 31 → 1 ≤ r → check_ppow2 n = true →
  wp (create n r) (λ p, stands_for (Z.log2 n) p [] 0 ∧ reset_interval p = r).
Proof.
  intros Hn Hr E. destruct (lwt_create_ok n r Hn) as [Hok|Hf]; unfold create in *;
    rewrite E, (proj2 (Z.leb_le 1 r)) in * by lia; [|done]. simpl in *. split; [|done].
  destruct (check_ppow2_spec n E) as (k & Hk & ->). rewrite Z.log2_pow2 by done.
  split; simpl; [done|done|lia|by apply Z.mod_0_l; lia|by intros ?? ?%elem_of_nil|].
  intros i Hi. exists 0. split; [apply lookup_replicate_2; lia|]. split; [done|].
  by intros (c & pc & ?%elem_of_nil & _).
Qed.

(** C37. The load wait table is exact up to its size: through any sequence of lookups and
    updates whose clock does not run backwards, a load is held back precisely when some
    earlier store address is unknown and an update in the same reset interval of the clock
    named an instruction with the same low bits; the lazy reset of the table, done at
    whatever operation comes first after the interval has passed, forgets neither more nor
    less than that. *)
Theorem lwt_refines_interval_log n r l :
  n < 2 ^ 31 → 1 ≤ r → check_ppow2 n = true → clocked 0 l →
  wp (let* p := create n r in run p l) (λ '(_, gs), gs = answers (Z.log2 n) r [] l).
Proof.
  intros Hn Hr E Hl. apply wp_bind. eapply wp_mono; [by apply create_stands|].
  intros p (Hs & <-). eapply run_stands; [apply Z.log2_nonneg|done..].
Qed.

Definition unknown : stores := mk_stores true false false.
Definition demo : list op :=
  [Lookup 3 5 unknown; Update 4 5; Lookup 9 13 unknown; Lookup 9 6 unknown; Lookup 12 5 unknown;
   Update 19 5; Lookup 20 5 unknown].

Lemma lwt_refines_interval_log_witness :
  clocked 0 demo ∧ answers 3 10 [] demo = [true; false; true; true; true] ∧
  wp (let* p := create 8 10 in run p demo) (λ '(_, gs), gs = answers 3 10 [] demo).
Proof.
  assert (clocked 0 demo) as H by (simpl; lia).
  split; [exact H|]. split; [reflexivity|]. apply (lwt_refines_interval_log 8 10); [lia|lia|reflexivity|exact H].
Defined.

End memdep_lwt.
