(* ===== verification/CacheSet.v ===== *)
(** * CacheSet: one set of a cache of src/xiosim/zesto-cache.cpp

    The lines of a set are one chunk of memory, line [i] being way [i] forever;
    the set's recency list links them ([next]), and [cp->blocks[index]] points at
    the first of the list.  A pointer to a line is its index in the chunk, so
    [cp->blocks[index][k]] is the line [k] after the one pointed at.

    The abstract view of a set is the list of its lines in list order, without
    the pointers. *)

From S2P Require Import Prelude Misc.

(** Source: src/xiosim/zesto-cache.h:75-75 cache_command. *)
Inductive cache_command : Set :=
  | CACHE_NOP | CACHE_READ | CACHE_WRITE | CACHE_WRITEBACK | CACHE_PREFETCH | CACHE_WAIT | CACHE_SIGNAL.
(** Source: src/xiosim/zesto-cache.h:76-76 repl_policy_t. *)
Inductive repl_policy_t : Set :=
  | REPLACE_LRU | REPLACE_MRU | REPLACE_RANDOM | REPLACE_NMRU | REPLACE_PLRU | REPLACE_CLOCK.
(** Source: src/xiosim/zesto-cache.h:78-78 write_policy_t. *)
Inductive write_policy_t : Set := WRITE_THROUGH | WRITE_BACK.
(** Source: src/xiosim/zesto-cache.h:77-77 alloc_policy_t. *)
Inductive alloc_policy_t : Set := WRITE_ALLOC | NO_WRITE_ALLOC.

#[export] Instance cache_command_eq_dec : EqDecision cache_command.
Proof. solve_decision. Defined.
#[export] Instance repl_policy_eq_dec : EqDecision repl_policy_t.
Proof. solve_decision. Defined.
#[export] Instance write_policy_eq_dec : EqDecision write_policy_t.
Proof. solve_decision. Defined.
#[export] Instance alloc_policy_eq_dec : EqDecision alloc_policy_t.
Proof. solve_decision. Defined.

Module cache_set.

(** Source: src/xiosim/zesto-cache.h:91-103 cache_line_t.
    [core] is the number of the originating core, -1 for the null pointer. *)
Record line : Type := mk_line {
  tag : Z;
  core : Z;
  way : Z;
  meta : Z;
  valid : bool;
  dirty : bool;
  prefetched : bool;
  prefetch_used : bool;
  next : option Z
}.

Definition with_next (n : option Z) (l : line) : line :=
  mk_line (tag l) (core l) (way l) (meta l) (valid l) (dirty l) (prefetched l) (prefetch_used l) n.
Definition with_meta (m : Z) (l : line) : line :=
  mk_line (tag l) (core l) (way l) m (valid l) (dirty l) (prefetched l) (prefetch_used l) (next l).
Definition with_dirty (d : bool) (l : line) : line :=
  mk_line (tag l) (core l) (way l) (meta l) (valid l) d (prefetched l) (prefetch_used l) (next l).
(** [p->valid = p->dirty = false] *)
Definition invalidated (l : line) : line :=
  mk_line (tag l) (core l) (way l) (meta l) false false (prefetched l) (prefetch_used l) (next l).
Definition with_used (l : line) : line :=
  mk_line (tag l) (core l) (way l) (meta l) (valid l) (dirty l) (prefetched l) true (next l).

(** The chunk of lines and [cp->blocks[index]]. *)
Record cset : Type := mk_cset { lines : list line; first : Z }.

(** The parameters of the cache the set operations read. *)
Record cfg : Type := mk_cfg {
  sets : Z;
  assoc : Z;
  log2_assoc : Z;
  addr_shift : Z;
  replacement_policy : repl_policy_t;
  write_policy : write_policy_t;
  read_only : bool
}.

(** Source: src/xiosim/zesto-cache.cpp:246-262 cache_create.
    A new set: line [j] is followed by line [j+1]. *)
Definition new_line (assoc j : Z) : line :=
  mk_line 0 (-1) j 0 false false false false (if j =? assoc - 1 then None else Some (j + 1)).
Definition new_set (assoc : Z) : cset := mk_cset (new_line assoc <$> seqZ 0 assoc) 0.

(** [while(p) { if(stop) break; prev = p; p = p->next; }]: [prev] and [p] at the
    end of the walk.  The fuel is the number of lines. *)
Fixpoint scan (fuel : nat) (ls : list line) (stop : line → bool) (prev p : option Z)
  : result (option Z * option Z) :=
  match p with
  | None => Ok (prev, None)
  | Some i =>
      match fuel with
      | O => Fault Diverge
      | S fuel =>
          let* l := aget ls i in
          if stop l then Ok (prev, Some i) else scan fuel ls stop (Some i) (next l)
      end
  end.

Definition scan_set (s : cset) (stop : line → bool) : result (option Z * option Z) :=
  scan (length (lines s)) (lines s) stop None (Some (first s)).

(** Source: src/xiosim/zesto-cache.cpp:925-934 cache_is_hit.
    Line [p], found behind [prev], to the front of the list. *)
Definition to_front (s : cset) (prev : option Z) (p : Z) : result cset :=
  match prev with
  | None => Ok s
  | Some q =>
      let* l := aget (lines s) p in
      let* ls := amodify (lines s) q (with_next (next l)) in
      let* ls := amodify ls p (with_next (Some (first s))) in
      Ok (mk_cset ls p)
  end.

(** [while(prev->next) prev = prev->next;] *)
Fixpoint last_of (fuel : nat) (ls : list line) (p : Z) : result Z :=
  match fuel with
  | O => Fault Diverge
  | S fuel =>
      let* l := aget ls p in
      match next l with None => Ok p | Some q => last_of fuel ls q end
  end.

(** Source: src/xiosim/zesto-cache.cpp:935-955 cache_is_hit.
    Line [p] to the end of the list (the MRU policy). *)
Definition to_back (s : cset) (prev : option Z) (p : Z) : result cset :=
  let* l := aget (lines s) p in
  match next l with
  | None => Ok s
  | Some n =>
      let* s := match prev with
                | Some q => let* ls := amodify (lines s) q (with_next (Some n)) in Ok (mk_cset ls (first s))
                | None => Ok (mk_cset (lines s) n)
                end in
      let* e := last_of (length (lines s)) (lines s) n in
      let* ls := amodify (lines s) e (with_next (Some p)) in
      let* ls := amodify ls p (with_next None) in
      Ok (mk_cset ls (first s))
  end.

(** Source: src/xiosim/zesto-cache.cpp:908-913 cache_is_hit.
    A node of the tree on the way to the leaf [way], in the [int] of the bits. *)
Definition plru_step (log2 way i bitmask : Z) : Z :=
  let pos := Z.shiftr way (log2 - i) + i32 (Z.shiftl 1 i) in
  if Z.land (Z.shiftr way (log2 - i - 1)) 1 =? 1
  then Z.lor bitmask (i32 (Z.shiftl 1 pos))
  else Z.land bitmask (Z.lnot (i32 (Z.shiftl 1 pos))).

(** Source: src/xiosim/zesto-cache.cpp:905-914 cache_is_hit.
    The bits after a use of [way]. *)
Definition plru_touch (log2 way bitmask : Z) : Z :=
  foldl (λ bm i, plru_step log2 way i bm) bitmask (seqZ 0 log2).

(** Source: src/xiosim/zesto-cache.cpp:1190-1197 cache_get_evictee.
    The way the bits point away from. *)
Definition plru_victim (log2 bitmask : Z) : Z :=
  let node := foldl (λ node _, Z.shiftl node 1 + (if Z.land (Z.shiftr bitmask node) 1 =? 0 then 1 else 0))
                1 (seqZ 0 log2) in
  Z.land node (Z.lnot (i32 (Z.shiftl 1 log2))).

(** Source: src/xiosim/zesto-cache.cpp:902-916 cache_is_hit.
    The bits live in the [meta] of the line that is first in the list. *)
Definition plru_update (k : cfg) (s : cset) (p : Z) : result cset :=
  let* l := aget (lines s) p in
  let* f := aget (lines s) (first s) in
  let bm := plru_touch (log2_assoc k) (way l) (i32 (meta f)) in
  let* ls := amodify (lines s) (first s) (with_meta (u64 bm)) in
  Ok (mk_cset ls (first s)).

(** Source: src/xiosim/zesto-cache.cpp:900-963 cache_is_hit.
    The replacement state after a use of line [p], found behind [prev]; [ref]
    says whether the clock policy sets the referenced bit. *)
Definition promote (k : cfg) (s : cset) (prev : option Z) (p : Z) (ref : bool) : result cset :=
  match replacement_policy k with
  | REPLACE_PLRU => let* s := plru_update k s p in to_front s prev p
  | REPLACE_RANDOM | REPLACE_LRU | REPLACE_NMRU => to_front s prev p
  | REPLACE_MRU => to_back s prev p
  | REPLACE_CLOCK =>
      if ref then
        let* l := aget (lines s) p in
        let* ls := amodify (lines s) (first s) (λ f, with_meta (Z.lor (meta f) (u64 (Z.shiftl 1 (way l)))) f) in
        Ok (mk_cset ls (first s))
      else Ok s
  end.

Definition is_write (cmd : cache_command) : bool :=
  match cmd with CACHE_WRITE | CACHE_WRITEBACK => true | _ => false end.

(** [p->valid && (p->tag == block_addr)] *)
Definition holds (block : Z) (l : line) : bool := valid l && (tag l =? block).

(** Source: src/xiosim/zesto-cache.cpp:872-980 cache_is_hit.
    On the set of the block: the line that is hit, if any.  [magic] is the outcome
    of the random draw against the magic hit rate, when one is configured. *)
Definition is_hit (k : cfg) (magic : option bool) (cmd : cache_command) (block : Z) (s : cset)
  : result (cset * option Z) :=
  match magic with
  | Some hit => Ok (s, if hit then Some (first s) else None)
  | None =>
      let* '(prev, p) := scan_set s (holds block) in
      match p with
      | None => Ok (s, None)
      | Some p =>
          let* s := if decide (cmd = CACHE_WRITEBACK) then Ok s else promote k s prev p true in
          if is_write cmd then
            let* _ := guard_or (negb (read_only k)) AssertFail in
            if decide (write_policy k = WRITE_BACK) then
              let* ls := amodify (lines s) p (with_dirty true) in
              Ok (mk_cset ls (first s), Some p)
            else Ok (s, Some p)
          else Ok (s, Some p)
      end
  end.

(** Source: src/xiosim/zesto-cache.cpp:984-1003 cache_peek. *)
Definition peek (block : Z) (s : cset) : result (option Z) :=
  let* '(_, p) := scan_set s (holds block) in Ok p.

(** Source: src/xiosim/zesto-cache.cpp:1009-1104 cache_insert_block. *)
Definition insert_block (k : cfg) (cmd : cache_command) (block c : Z) (s : cset) : result cset :=
  let* '(prev, p) := scan_set s (λ l, negb (valid l)) in
  let* p := of_option AssertFail p in
  let* ls := amodify (lines s) p (λ l,
    mk_line block c (way l) (meta l) true (is_write cmd)
      (if decide (cmd = CACHE_PREFETCH) then true else prefetched l) (prefetch_used l) (next l)) in
  let s := mk_cset ls (first s) in
  if decide (cmd = CACHE_WRITEBACK) then Ok s else promote k s prev p false.

(** Source: src/xiosim/zesto-cache.cpp:1149-1150 cache_get_evictee.
    [for(i=0;i<pos;i++) p = p->next;] *)
Fixpoint advance (n : nat) (ls : list line) (p : option Z) : result (option Z) :=
  match n with
  | O => Ok p
  | S n => let* i := deref p in let* l := aget ls i in advance n ls (next l)
  end.

(** Source: src/xiosim/zesto-cache.cpp:1209-1239 cache_get_evictee.
    The walk of the clock hand.  [n] counts the lines it may still look at before
    the code gives up. *)
Fixpoint clock (k : cfg) (n : nat) (s : cset) : result (cset * Z) :=
  match n with
  | O => Fault Fatal
  | S n =>
      let* h := aget (lines s) (first s + 1) in
      let hand := meta h in
      let p := first s + hand in
      let* ls := amodify (lines s) (first s + 1) (with_meta (u64 (modinc hand (assoc k)))) in
      let* l := aget ls p in
      let clear f := with_meta (Z.land (meta f) (u64 (Z.lnot (Z.shiftl 1 (way l))))) f in
      if negb (valid l) then
        let* ls := amodify ls (first s) clear in Ok (mk_cset ls (first s), p)
      else
        let* f := aget ls (first s) in
        if Z.land (Z.shiftr (meta f) (way l)) 1 =? 0 then Ok (mk_cset ls (first s), p)
        else let* ls := amodify ls (first s) clear in clock k n (mk_cset ls (first s))
  end.

(** Source: src/xiosim/zesto-cache.cpp:1108-1245 cache_get_evictee.
    [None] is the null pointer; [rnd] the value of [random()]. *)
Definition get_evictee (k : cfg) (rnd : Z) (s : cset) : result (cset * option Z) :=
  match replacement_policy k with
  | REPLACE_LRU | REPLACE_MRU =>
      let* '(_, p) := scan_set s (λ l, bool_decide (next l = None) || negb (valid l)) in
      let* p := of_option Fatal p in Ok (s, Some p)
  | REPLACE_RANDOM =>
      let* '(_, p) := scan_set s (λ l, negb (valid l)) in
      match p with
      | Some p => Ok (s, Some p)
      | None =>
          let* _ := guard_or (negb (assoc k =? 0)) DivByZero in
          let* p := advance (Z.to_nat (Z.rem (rnd mod 2 ^ 31) (assoc k))) (lines s) (Some (first s)) in
          Ok (s, p)
      end
  | REPLACE_NMRU =>
      let* '(_, p) := scan_set s (λ l, negb (valid l)) in
      match p with
      | Some p => Ok (s, Some p)
      | None =>
          if 1 <? assoc k then
            let* f := aget (lines s) (first s) in
            let* p := advance (Z.to_nat (Z.rem (rnd mod 2 ^ 31) (assoc k - 1))) (lines s) (next f) in
            Ok (s, p)
          else Ok (s, None)
      end
  | REPLACE_PLRU =>
      let* f := aget (lines s) (first s) in
      let bitmask := i32 (meta f) in
      let* '(_, p) := scan_set s (λ l, negb (valid l)) in
      match p with
      | Some p => Ok (s, Some p)
      | None =>
          let w := plru_victim (log2_assoc k) bitmask in
          let* '(_, p) := scan_set s (λ l, way l =? w) in Ok (s, p)
      end
  | REPLACE_CLOCK =>
      let* '(s, p) := clock k (Z.to_nat (20 * assoc k + 1)) s in Ok (s, Some p)
  end.


(** Source: src/xiosim/sim-loop.cpp:491-492 simulate_warmup.
    Invalidate the line [p] and insert the block. *)
Definition overwrite (k : cfg) (cmd : cache_command) (block c : Z) (s : cset) (p : Z) : result cset :=
  let* ls := amodify (lines s) p invalidated in insert_block k cmd block c (mk_cset ls (first s)).

(** What became of a fill: the block was there already; its line was taken from
    the evictee, given as it was; or the evictee is dirty and there is no MSHR to
    write it back, and the fill waits. *)
Inductive fill_outcome : Type := Present | Filled (evictee : line) | NoMSHR.

(** Source: src/xiosim/zesto-cache.cpp:2053-2082 cache_process_fills.
    The fill of one block.  [wb_available] answers for the MSHRs whether a line can
    be written back; the caller hands the dirty evictee to them. *)
Definition fill_block (k : cfg) (wb_available : Z → bool) (rnd : Z) (cmd : cache_command) (block c : Z)
    (s : cset) : result (cset * fill_outcome) :=
  let* hit := peek block s in
  match hit with
  | Some _ => Ok (s, Present)
  | None =>
      let* '(s, p) := get_evictee k rnd s in
      let* p := deref p in
      let* l := aget (lines s) p in
      if valid l && dirty l && bool_decide (write_policy k = WRITE_BACK) &&
         negb (wb_available (u64 (Z.shiftl (tag l) (addr_shift k))))
      then Ok (s, NoMSHR)
      else
        let* s := overwrite k cmd block c s p in
        Ok (s, Filled l)
  end.

(** [const int index = block_addr & (cp->sets-1)] *)
Definition set_index (k : cfg) (block : Z) : Z := Z.land block (sets k - 1).

(** Source: src/xiosim/sim-loop.cpp:489-493 simulate_warmup.
    The access of a set; the boolean is the hit. *)
Definition access (k : cfg) (magic : option bool) (rnd : Z) (cmd : cache_command) (block c : Z) (s : cset)
    : result (cset * bool) :=
  let* '(s, hit) := is_hit k magic cmd block s in
  match hit with
  | Some _ => Ok (s, true)
  | None =>
      let* '(s, p) := get_evictee k rnd s in
      let* p := deref p in
      let* s := overwrite k cmd block c s p in
      Ok (s, false)
  end.

(** Source: src/xiosim/sim-loop.cpp:484-494 simulate_warmup.
    One access of the cache warm-up, on [cp->blocks]. *)
Definition simulate_warmup (k : cfg) (magic : option bool) (rnd : Z) (is_write : bool) (paddr c : Z)
    (blocks : list cset) : result (list cset * bool) :=
  let cmd := if is_write then CACHE_WRITE else CACHE_READ in
  let block := Z.shiftr paddr (addr_shift k) in
  let* s := aget blocks (set_index k block) in
  let* '(s, hit) := access k magic rnd cmd block c s in
  let* blocks := aset blocks (set_index k block) s in
  Ok (blocks, hit).

(** ** The recency list *)

(** The lines [xs], linked from [p], followed by [e]. *)
Fixpoint chain (ls : list line) (p : option Z) (xs : list Z) (e : option Z) : Prop :=
  match xs with
  | [] => p = e
  | x :: xs => p = Some x ∧ ∃ l, aget ls x = Ok l ∧ chain ls (next l) xs e
  end.

Lemma chain_app ls p xs ys e : chain ls p (xs ++ ys) e ↔ ∃ m, chain ls p xs m ∧ chain ls m ys e.
Proof.
  revert p. induction xs as [|x xs IH]; intros p; simpl.
  - split; [by eexists|by intros (m & <- & ?)].
  - split.
    + intros (-> & l & El & (m & H1 & H2)%IH). eauto 8.
    + intros (m & (-> & l & El & H1) & H2). split; [done|]. exists l. split; [done|]. apply IH. eauto.
Qed.

Lemma chain_first ls p x xs e : chain ls p (x :: xs) e → p = Some x.
Proof. by intros [? _]. Qed.

Lemma chain_in ls p xs e x : chain ls p xs e → x ∈ xs → ∃ l, aget ls x = Ok l.
Proof.
  revert p. induction xs as [|y xs IH]; intros p; simpl; [intros _ []%not_elem_of_nil|].
  intros (-> & l & El & H) [->|Hx]%elem_of_cons; [eauto|by eapply IH].
Qed.

(** Overwriting a line. *)
Definition lset (ls : list line) (p : Z) (l : line) : list line := <[Z.to_nat p := l]> ls.

Lemma aget_lset_eq ls p l0 l : aget ls p = Ok l0 → aget (lset ls p l) p = Ok l.
Proof.
  intros [Hp _]%aget_inv. unfold aget, lset. rewrite (proj2 (Z.ltb_ge p 0)) by lia.
  by rewrite list_lookup_insert_eq by lia.
Qed.

Lemma aget_lset_ne ls p l0 l x : aget ls p = Ok l0 → x ≠ p → aget (lset ls p l) x = aget ls x.
Proof.
  intros [Hp _]%aget_inv Hne. unfold aget, lset. destruct (Z.ltb_spec x 0); [done|].
  by rewrite list_lookup_insert_ne by lia.
Qed.

Lemma amodify_lset ls p f l : aget ls p = Ok l → amodify ls p f = Ok (lset ls p (f l)).
Proof. intros E. unfold amodify. rewrite E. simpl. apply aget_inv in E as [? _]. by apply aset_ok. Qed.

Lemma chain_frame ls ls' p xs e :
  (∀ x l, x ∈ xs → aget ls x = Ok l → ∃ l', aget ls' x = Ok l' ∧ next l' = next l) →
  chain ls p xs e → chain ls' p xs e.
Proof.
  revert p. induction xs as [|x xs IH]; intros p Hf; simpl; [done|].
  intros (-> & l & El & H). split; [done|].
  destruct (Hf x l ltac:(apply list_elem_of_here) El) as (l' & El' & En). exists l'.
  split; [done|]. rewrite En. apply IH; [|done]. intros y m Hy. apply Hf. by apply list_elem_of_further.
Qed.

(** A write outside the list, or one that keeps the link. *)
Lemma chain_lset_out ls p l0 l q xs e : aget ls p = Ok l0 → p ∉ xs → chain ls q xs e →
  chain (lset ls p l) q xs e.
Proof.
  intros Ep Hp. apply chain_frame. intros x m Hx Em. exists m.
  by rewrite (aget_lset_ne _ _ _ _ _ Ep) by (by intros ->).
Qed.

Lemma chain_lset_data ls p l0 l q xs e : aget ls p = Ok l0 → next l = next l0 → chain ls q xs e →
  chain (lset ls p l) q xs e.
Proof.
  intros Ep Hn. apply chain_frame. intros x m Hx Em. destruct (decide (x = p)) as [->|Hne].
  - exists l. rewrite Ep in Em. injection Em as <-. split; [by eapply aget_lset_eq|done].
  - exists m. by rewrite (aget_lset_ne _ _ _ _ _ Ep).
Qed.

(** Relinking the last line of a list. *)
Lemma chain_relink ls q l0 p xs m m' : NoDup (xs ++ [q]) → aget ls q = Ok l0 →
  chain ls p (xs ++ [q]) m → chain (lset ls q (with_next m' l0)) p (xs ++ [q]) m'.
Proof.
  intros Hnd Eq (m1 & H1 & H2)%chain_app. apply chain_app. exists m1. split.
  - eapply chain_lset_out; [done| |done]. apply list.NoDup_app in Hnd as (_ & Hd & _).
    intros Hq. by apply (Hd q Hq), list_elem_of_here.
  - simpl in *. destruct H2 as (-> & l & El & _). split; [done|].
    eexists. split; [by eapply aget_lset_eq|done].
Qed.

(** A line without its link. *)
Definition data (l : line) : line := with_next None l.

(** The lines at [xs], without their links; what a line holds is what [data_at] says. *)
Definition data_at (ls : list line) (x : Z) : line :=
  match aget ls x with Ok l => data l | Fault _ => new_line 0 0 end.

Lemma data_at_ok ls x l : aget ls x = Ok l → data_at ls x = data l.
Proof. unfold data_at. by intros ->. Qed.

Lemma data_at_lset ls p l0 l x : aget ls p = Ok l0 →
  data_at (lset ls p l) x = if decide (x = p) then data l else data_at ls x.
Proof.
  intros Ep. case_decide as Hx.
  - subst. apply data_at_ok. by eapply aget_lset_eq.
  - unfold data_at. by rewrite (aget_lset_ne _ _ _ _ _ Ep).
Qed.

(** The set [s] links the lines [xs], every line once. *)
Definition rep (s : cset) (xs : list Z) : Prop :=
  chain (lines s) (Some (first s)) xs None ∧ NoDup xs ∧
  (∀ x, x ∈ xs ↔ 0 ≤ x < Z.of_nat (length (lines s))).

(** The lines in list order: the abstract view. *)
Definition view (s : cset) (xs : list Z) : list line := data_at (lines s) <$> xs.

Lemma rep_length s xs : rep s xs → length xs = length (lines s).
Proof.
  intros (_ & Hnd & Hx).
  assert (xs ≡ₚ seqZ 0 (Z.of_nat (length (lines s)))) as Hp.
  { apply NoDup_Permutation; [done|apply NoDup_seqZ|]. intros x. rewrite Hx, elem_of_seqZ. lia. }
  rewrite Hp, length_seqZ. lia.
Qed.

Lemma rep_get s xs x : rep s xs → x ∈ xs → ∃ l, aget (lines s) x = Ok l.
Proof. intros (Hc & _) Hx. by eapply chain_in. Qed.

End cache_set.
