(* ===== verification/CacheRepl.v ===== *)
(** * CacheRepl: the replacement policies of the caches

    What the operations of CacheSet do to the list of a set: hits, insertions and
    victims under every policy. *)

From S2P Require Import Prelude Misc CacheSet.

Module cache_repl.
Import cache_set.

Definition last_or (prev : option Z) (xs : list Z) : option Z :=
  match list.last xs with Some x => Some x | None => prev end.

Lemma last_or_cons prev x xs : last_or (Some x) xs = last_or prev (x :: xs).
Proof. unfold last_or. rewrite last_cons. by destruct (list.last xs). Qed.

Lemma last_or_snoc prev xs x : last_or prev (xs ++ [x]) = Some x.
Proof. unfold last_or. by rewrite last_snoc. Qed.

(** A walk stops at the first line that satisfies [stop]. *)
Lemma scan_chain fuel ls stop prev p xs : chain ls p xs None → (length xs ≤ fuel)%nat →
  (∃ l x r m, xs = l ++ x :: r ∧ aget ls x = Ok m ∧ stop m = true ∧
     (∀ y n, y ∈ l → aget ls y = Ok n → stop n = false) ∧
     scan fuel ls stop prev p = Ok (last_or prev l, Some x)) ∨
  ((∀ y n, y ∈ xs → aget ls y = Ok n → stop n = false) ∧
   scan fuel ls stop prev p = Ok (last_or prev xs, None)).
Proof.
  revert fuel prev p. induction xs as [|x xs IH]; intros fuel prev p; simpl.
  - intros -> _. right. split; [by intros ?? []%not_elem_of_nil|by destruct fuel].
  - intros (-> & m & Em & H) Hl. destruct fuel as [|fuel]; [lia|]. simpl. rewrite Em. simpl.
    destruct (stop m) eqn:Es.
    { left. exists [], x, xs, m. split_and!; try done. by intros ?? []%not_elem_of_nil. }
    assert (∀ y n, y = x → aget ls y = Ok n → stop n = false) as Hx by (intros y n ->; congruence).
    destruct (IH fuel (Some x) (next m) H ltac:(lia)) as
      [(l & y & r & n & -> & En & Hn & Hl' & E)|(Hl' & E)].
    + left. exists (x :: l), y, r, n. rewrite E, <- last_or_cons. split_and!; try done.
      intros z nz [->|Hz]%elem_of_cons; [by apply Hx|by apply Hl'].
    + right. rewrite E, <- last_or_cons. split; [|done].
      intros z nz [->|Hz]%elem_of_cons; [by apply Hx|by apply Hl'].
Qed.

(** On a set. *)
Lemma scan_set_ok s xs stop : rep s xs →
  (∃ l x r m, xs = l ++ x :: r ∧ aget (lines s) x = Ok m ∧ stop m = true ∧
     (∀ y n, y ∈ l → aget (lines s) y = Ok n → stop n = false) ∧
     scan_set s stop = Ok (last_or None l, Some x)) ∨
  ((∀ y n, y ∈ xs → aget (lines s) y = Ok n → stop n = false) ∧
   scan_set s stop = Ok (last_or None xs, None)).
Proof. intros Hr. apply scan_chain; [apply Hr|]. by rewrite (rep_length _ _ Hr). Qed.

(** ** Moving lines *)

(** The same lines up to their links. *)
Definition frame (s s' : cset) : Prop :=
  length (lines s') = length (lines s) ∧ ∀ x, data_at (lines s') x = data_at (lines s) x.

#[export] Instance frame_preorder : PreOrder frame.
Proof.
  split; [done|]. intros s1 s2 s3 [L1 H1] [L2 H2]. split; [congruence|]. intros x. by rewrite H2.
Qed.

Lemma rep_perm s s' xs xs' : rep s xs → xs' ≡ₚ xs → length (lines s') = length (lines s) →
  chain (lines s') (Some (first s')) xs' None → rep s' xs'.
Proof.
  intros (_ & Hnd & Hx) Hp Hl Hc. split; [done|]. split; [by rewrite Hp|].
  intros x. by rewrite Hp, Hx, Hl.
Qed.

Lemma to_front_ok s l p r : rep s (l ++ p :: r) →
  wp (to_front s (last_or None l) p) (λ s', rep s' (p :: l ++ r) ∧ frame s s').
Proof.
  intros Hrep. pose proof Hrep as (Hc & Hnd & Hx).
  destruct l as [|q l0 _] using rev_ind; [by simpl|].
  rewrite last_or_snoc. unfold to_front.
  apply chain_app in Hc as (m & H1 & (-> & lp & Ep & H2)).
  apply list.NoDup_app in Hnd as (Hndl & Hdis & [Hpr Hndr]%list.NoDup_cons).
  assert (q ∈ l0 ++ [q]) as Hq by (apply elem_of_app; right; apply list_elem_of_here).
  assert (q ≠ p) as Hqp by (intros ->; by apply (Hdis p Hq), list_elem_of_here).
  assert (p ∉ l0 ++ [q]) as Hpl by (intros Hpl; by apply (Hdis p Hpl), list_elem_of_here).
  assert (q ∉ r) as Hqr by (intros Hqr; by apply (Hdis q Hq), list_elem_of_further).
  destruct (chain_in _ _ _ _ _ H1 Hq) as (lq & Eq).
  rewrite Ep. simpl. rewrite (amodify_lset _ _ _ _ Eq). simpl.
  assert (aget (lset (lines s) q (with_next (next lp) lq)) p = Ok lp) as Ep'
    by (by rewrite (aget_lset_ne _ _ _ _ _ Eq) by congruence).
  rewrite (amodify_lset _ _ _ _ Ep'). simpl.
  set (ls1 := lset (lines s) q _) in *. split.
  - apply (rep_perm s _ ((l0 ++ [q]) ++ p :: r)); [done|by rewrite Permutation_middle| |].
    + simpl. unfold ls1, lset. by rewrite !length_insert.
    + simpl. split; [done|]. eexists. split; [by eapply aget_lset_eq|]. simpl.
      apply (chain_lset_out _ _ lp); [done| |].
      { intros [?|?]%elem_of_app; [by apply Hpl|by apply Hpr]. }
      apply chain_app. exists (next lp). split.
      * unfold ls1. eapply chain_relink; [done|done|exact H1].
      * unfold ls1. by eapply chain_lset_out.
  - split; simpl; [unfold ls1, lset; by rewrite !length_insert|].
    intros x. rewrite (data_at_lset _ _ lp) by done. case_decide as Hxp.
    + subst. by rewrite (data_at_ok _ _ lp).
    + unfold ls1. rewrite (data_at_lset _ _ lq) by done. case_decide; [|done].
      subst. by rewrite (data_at_ok _ _ lq).
Qed.

Lemma last_of_ok fuel ls p xs x : chain ls (Some p) (xs ++ [x]) None →
  (length xs < fuel)%nat → last_of fuel ls p = Ok x.
Proof.
  revert fuel p. induction xs as [|y xs IH]; intros fuel p; simpl.
  - intros ([= ->] & l & El & Hn) Hf. destruct fuel as [|fuel]; [lia|]. simpl. rewrite El. simpl.
    by rewrite Hn.
  - intros ([= ->] & l & El & H) Hf. destruct fuel as [|fuel]; [lia|]. simpl. rewrite El. simpl.
    destruct (next l) as [q|] eqn:En.
    + apply IH; [done|lia].
    + destruct xs; simpl in H; by destruct H as [? _].
Qed.


Lemma frame_lset s ls p l l' f : ls = lines s → aget ls p = Ok l → data l' = data l →
  frame s (mk_cset (lset ls p l') f).
Proof.
  intros -> Ep Hd. split; simpl; [by unfold lset; rewrite length_insert|].
  intros x. rewrite (data_at_lset _ _ l) by done. case_decide; [|done].
  subst. by rewrite (data_at_ok _ _ l).
Qed.

(** Unlinking line [p], which has a successor. *)
Lemma unlink_ok s l p n r lp : rep s (l ++ p :: n :: r) → aget (lines s) p = Ok lp →
  wp (match last_or None l with
      | Some q => let* ls := amodify (lines s) q (with_next (Some n)) in Ok (mk_cset ls (first s))
      | None => Ok (mk_cset (lines s) n)
      end) (λ s1, chain (lines s1) (Some (first s1)) (l ++ n :: r) None ∧
        chain (lines s1) (Some n) (n :: r) None ∧
        aget (lines s1) p = Ok lp ∧ frame s s1).
Proof.
  intros (Hc & Hnd & Hx) Ep. apply chain_app in Hc as (m & H1 & (-> & lp' & Ep' & H2)).
  rewrite Ep in Ep'. injection Ep' as <-. pose proof (chain_first _ _ _ _ _ H2) as En. rewrite En in H2.
  destruct l as [|q l0 _] using rev_ind.
  - simpl. done.
  - rewrite last_or_snoc. apply list.NoDup_app in Hnd as (Hndl & Hdis & _).
    assert (q ∈ l0 ++ [q]) as Hq by (apply elem_of_app; right; apply list_elem_of_here).
    destruct (chain_in _ _ _ _ _ H1 Hq) as (lq & Eq). rewrite (amodify_lset _ _ _ _ Eq). simpl.
    assert (q ∉ p :: n :: r) as Hqr by (by apply Hdis).
    assert (chain (lset (lines s) q (with_next (Some n) lq)) (Some n) (n :: r) None) as H2'.
    { eapply chain_lset_out; [done| |done]. intros Hin. by apply Hqr, list_elem_of_further. }
    split; [|split; [exact H2'|split]].
    + apply chain_app. exists (Some n). split; [|exact H2']. by eapply chain_relink.
    + simpl. rewrite (aget_lset_ne _ _ _ _ _ Eq); [done|]. intros ->. apply Hqr, list_elem_of_here.
    + by eapply (frame_lset s).
Qed.

Lemma to_back_ok s l p r : rep s (l ++ p :: r) →
  wp (to_back s (last_or None l) p) (λ s', rep s' (l ++ r ++ [p]) ∧ frame s s').
Proof.
  intros Hrep. pose proof (rep_length _ _ Hrep) as Hlen. pose proof Hrep as (Hc & Hnd & Hx).
  apply chain_app in Hc as (m & H1 & (-> & lp & Ep & H2)).
  unfold to_back. rewrite Ep. simpl. destruct r as [|n r].
  { simpl in H2. rewrite H2. simpl. done. }
  rewrite (chain_first _ _ _ _ _ H2). apply wp_bind.
  eapply wp_mono; [by eapply unlink_ok|]. intros s1 (Hc1 & Hcn & Ep1 & Hf1).
  assert (p ∉ l ++ n :: r) as Hp.
  { rewrite <- Permutation_middle in Hnd. by apply list.NoDup_cons in Hnd as [? _]. }
  assert (length (n :: r) < length (lines s1))%nat as Hfuel.
  { destruct Hf1 as [-> _]. rewrite <- Hlen, length_app. simpl. lia. }
  destruct (exists_last (l := n :: r) ltac:(done)) as (r0 & e & Er). rewrite Er in *.
  rewrite (last_of_ok _ _ _ r0 e Hcn) by (rewrite length_app in Hfuel; simpl in Hfuel; lia). simpl.
  assert (NoDup (l ++ r0 ++ [e])) as Hnd'.
  { rewrite <- Permutation_middle in Hnd. by apply list.NoDup_cons in Hnd as [_ ?]. }
  assert (e ∈ l ++ r0 ++ [e]) as He.
  { rewrite app_assoc. apply elem_of_app. right. apply list_elem_of_here. }
  destruct (chain_in _ _ _ _ _ Hc1 He) as (le & Ee). rewrite (amodify_lset _ _ _ _ Ee). simpl.
  assert (aget (lset (lines s1) e (with_next (Some p) le)) p = Ok lp) as Ep2.
  { rewrite (aget_lset_ne _ _ _ _ _ Ee); [done|]. intros ->. by apply Hp. }
  rewrite (amodify_lset _ _ _ _ Ep2). simpl.
  assert (frame s1 (mk_cset (lset (lines s1) e (with_next (Some p) le)) (first s1))) as Hf2
    by (by eapply (frame_lset s1)).
  assert (frame s (mk_cset (lset (lset (lines s1) e (with_next (Some p) le)) p (with_next None lp)) (first s1))) as Hf.
  { etrans; [exact Hf1|]. etrans; [exact Hf2|].
    eapply (frame_lset (mk_cset (lset (lines s1) e (with_next (Some p) le)) (first s1))); done. }
  split; [|exact Hf]. apply (rep_perm s _ (l ++ p :: r0 ++ [e])); [done| |by destruct Hf|].
  - by rewrite (Permutation_app_comm (r0 ++ [e]) [p]).
  - simpl. rewrite !app_assoc. apply chain_app. exists (Some p). split.
    + eapply chain_lset_out; [done|by rewrite <- app_assoc|]. rewrite app_assoc in Hc1, Hnd'.
      by eapply chain_relink.
    + simpl. split; [done|]. eexists. split; [by eapply aget_lset_eq|done].
Qed.


(** ** What a set holds *)

(** A line without its link and its replacement state: the block it holds. *)
Definition blk (l : line) : line := with_meta 0 (data l).
Definition blk_at (ls : list line) (x : Z) : line := blk (data_at ls x).

(** The same blocks in the same ways. *)
Definition same_blocks (s s' : cset) : Prop :=
  length (lines s') = length (lines s) ∧ ∀ x, blk_at (lines s') x = blk_at (lines s) x.

Lemma frame_same_blocks s s' : frame s s' → same_blocks s s'.
Proof. intros [Hl Hd]. split; [done|]. intros x. unfold blk_at. by rewrite Hd. Qed.

#[export] Instance same_blocks_equiv : Equivalence same_blocks.
Proof.
  split; [done|by intros s s' [Hl Hb]; split|].
  intros s1 s2 s3 [L1 H1] [L2 H2]. split; [congruence|]. intros x. by rewrite H2.
Qed.

Lemma blk_at_ok ls x l : aget ls x = Ok l → blk_at ls x = blk l.
Proof. intros E. unfold blk_at. by rewrite (data_at_ok _ _ l). Qed.

Lemma same_blocks_get s s' x l : same_blocks s s' → aget (lines s) x = Ok l →
  ∃ l', aget (lines s') x = Ok l' ∧ blk l' = blk l.
Proof.
  intros [Hl Hb] E. pose proof E as [Hx _]%aget_inv.
  destruct (aget_ok (lines s') x ltac:(lia)) as (l' & _ & E'). exists l'. split; [done|].
  specialize (Hb x). by rewrite (blk_at_ok _ _ _ E), (blk_at_ok _ _ _ E') in Hb.
Qed.

Lemma rep_same_links s s' xs : rep s xs → length (lines s') = length (lines s) →
  first s' = first s → (∀ x l, aget (lines s) x = Ok l → ∃ l', aget (lines s') x = Ok l' ∧ next l' = next l) →
  rep s' xs.
Proof.
  intros (Hc & Hnd & Hx) Hl Hf Hn. split_and!; [|done|by intros x; rewrite Hl, Hx].
  rewrite Hf. eapply chain_frame; [|done]. intros x l _. apply Hn.
Qed.

(** A write of one line that keeps its link. *)
Lemma rep_lset s xs p l l' : rep s xs → aget (lines s) p = Ok l → next l' = next l →
  rep (mk_cset (lset (lines s) p l') (first s)) xs.
Proof.
  intros Hrep Ep Hn. eapply rep_same_links; [done| |done|]; simpl; [by unfold lset; rewrite length_insert|].
  intros x m Em. destruct (decide (x = p)) as [->|Hne].
  - exists l'. rewrite Ep in Em. injection Em as <-. split; [by eapply aget_lset_eq|done].
  - exists m. by rewrite (aget_lset_ne _ _ _ _ _ Ep).
Qed.

(** A write of the replacement state of a line. *)
Lemma set_meta_ok s xs p l m : rep s xs → aget (lines s) p = Ok l →
  rep (mk_cset (lset (lines s) p (with_meta m l)) (first s)) xs ∧
  same_blocks s (mk_cset (lset (lines s) p (with_meta m l)) (first s)).
Proof.
  intros Hrep Ep. split; [by eapply rep_lset|]. split; simpl; [by unfold lset; rewrite length_insert|].
  intros x. unfold blk_at. rewrite (data_at_lset _ _ l) by done. case_decide; [|done].
  subst. by rewrite (data_at_ok _ _ l).
Qed.

(** The invariant of a set: the list links every line, and every line knows its
    way.  The clock policy never reorders the list, and keeps its hand, a way, in
    the replacement state of line 1. *)
Record set_ok (k : cfg) (s : cset) (xs : list Z) : Prop := {
  ok_rep : rep s xs;
  ok_len : Z.of_nat (length (lines s)) = assoc k;
  ok_way : ∀ x l, aget (lines s) x = Ok l → way l = x;
  ok_clock : replacement_policy k = REPLACE_CLOCK →
    first s = 0 ∧ ∃ h, aget (lines s) 1 = Ok h ∧ 0 ≤ meta h < assoc k
}.

(** The configurations whose policy works. *)
Definition cfg_ok (k : cfg) : Prop :=
  1 ≤ assoc k < 2 ^ 31 ∧
  (replacement_policy k = REPLACE_NMRU → 2 ≤ assoc k) ∧
  (replacement_policy k = REPLACE_PLRU → 0 ≤ log2_assoc k ≤ 5 ∧ assoc k = 2 ^ log2_assoc k) ∧
  (replacement_policy k = REPLACE_CLOCK → 2 ≤ assoc k ≤ 64).

Lemma way_blk l l' : blk l' = blk l → way l' = way l.
Proof. intros E. by apply (f_equal way) in E. Qed.

Lemma valid_blk l l' : blk l' = blk l → valid l' = valid l.
Proof. intros E. by apply (f_equal valid) in E. Qed.

(** The new set. *)
Lemma new_set_chain n (i : nat) : 0 ≤ n → Z.of_nat i ≤ n →
  chain (lines (new_set n)) (if Z.of_nat i =? n then None else Some (Z.of_nat i)) (seqZ (Z.of_nat i) (n - Z.of_nat i)) None.
Proof.
  intros Hn Hi. remember (Z.to_nat (n - Z.of_nat i)) as m eqn:Em. revert i Hi Em.
  induction m as [|m IH]; intros i Hi Em.
  - replace (Z.of_nat i) with n by lia. rewrite Z.eqb_refl, seqZ_nil by lia. done.
  - rewrite (proj2 (Z.eqb_neq _ _)) by lia. rewrite seqZ_cons by lia. split; [done|].
    exists (new_line n (Z.of_nat i)). split.
    + unfold aget. rewrite (proj2 (Z.ltb_ge _ _)) by lia. simpl.
      by rewrite list_lookup_fmap, lookup_seqZ_lt, Nat2Z.id by lia.
    + specialize (IH (S i) ltac:(lia) ltac:(lia)). simpl.
      replace (Z.succ (Z.of_nat i)) with (Z.of_nat (S i)) by lia.
      replace (Z.pred (n - Z.of_nat i)) with (n - Z.of_nat (S i)) by lia.
      destruct (Z.eqb_spec (Z.of_nat i) (n - 1)), (Z.eqb_spec (Z.of_nat (S i)) n); try lia; [done|].
      replace (Z.of_nat i + 1) with (Z.of_nat (S i)) by lia. exact IH.
Qed.

Lemma new_set_ok k : cfg_ok k → set_ok k (new_set (assoc k)) (seqZ 0 (assoc k)).
Proof.
  intros (Ha & _ & _ & Hclk).
  assert (Z.of_nat (length (lines (new_set (assoc k)))) = assoc k) as Hl
    by (simpl; rewrite length_fmap, length_seqZ; lia).
  assert (∀ x l, aget (lines (new_set (assoc k))) x = Ok l → l = new_line (assoc k) x) as Hget.
  { intros x l [Hx E]%aget_inv. rewrite Hl in Hx. simpl in E.
    rewrite list_lookup_fmap, lookup_seqZ_lt in E by lia. injection E as <-. f_equal. lia. }
  split.
  - split_and!.
    + pose proof (new_set_chain (assoc k) 0 ltac:(lia) ltac:(lia)) as H.
      rewrite (proj2 (Z.eqb_neq _ _)) in H by lia. by rewrite Z.sub_0_r in H.
    + apply NoDup_seqZ.
    + intros x. rewrite elem_of_seqZ, Hl. lia.
  - done.
  - intros x l ->%Hget. done.
  - intros Hpol. specialize (Hclk Hpol). split; [done|].
    destruct (aget_ok (lines (new_set (assoc k))) 1 ltac:(lia)) as (h & _ & E).
    exists h. split; [done|]. apply Hget in E as ->. simpl. lia.
Qed.


(** ** Victims *)

(** Walking [n] links along the list. *)
Lemma advance_ok ls p xs n : chain ls p xs None → (n < length xs)%nat → advance n ls p = Ok (xs !! n).
Proof.
  revert p xs. induction n as [|n IH]; intros p [|x xs] Hc Hn; simpl in *; try lia.
  - by destruct Hc as [-> _].
  - destruct Hc as (-> & l & El & Hc). simpl. rewrite El. simpl. apply IH; [done|lia].
Qed.

(** The lines of the set are all valid. *)
Definition full (s : cset) (xs : list Z) : Prop :=
  ∀ x l, x ∈ xs → aget (lines s) x = Ok l → valid l = true.

Lemma scan_invalid s xs : rep s xs →
  (∃ p l, scan_set s (λ l, negb (valid l)) = Ok (p) ∧ p.2 = Some l ∧ l ∈ xs ∧
     ∃ m, aget (lines s) l = Ok m ∧ valid m = false) ∨
  (full s xs ∧ ∃ p, scan_set s (λ l, negb (valid l)) = Ok (p, None)).
Proof.
  intros Hr. destruct (scan_set_ok _ _ (λ l, negb (valid l)) Hr) as
    [(l & x & r & m & -> & Em & Hv & _ & ->)|[Hall ->]].
  - left. eexists _, x. split_and!; [done|done| |].
    + apply elem_of_app. right. apply list_elem_of_here.
    + exists m. split; [done|]. by destruct (valid m).
  - right. split; [|by eexists]. intros x l Hx El. specialize (Hall _ _ Hx El). by destruct (valid l).
Qed.

(** The last of the list, or an invalid line before it. *)
Lemma lru_victim_ok s xs : rep s xs → xs ≠ [] →
  ∃ p v, scan_set s (λ l, bool_decide (next l = None) || negb (valid l)) = Ok (p, Some v) ∧ v ∈ xs ∧
    ((∃ m, aget (lines s) v = Ok m ∧ valid m = false) ∨ list.last xs = Some v).
Proof.
  intros Hr Hne. destruct (scan_set_ok _ _ (λ l, bool_decide (next l = None) || negb (valid l)) Hr) as
    [(l & x & r & m & -> & Em & Hv & _ & ->)|[Hall _]].
  - eexists _, x. split; [done|]. split; [apply elem_of_app; right; apply list_elem_of_here|].
    apply orb_true_iff in Hv as [Hn%bool_decide_eq_true|Hv].
    + right. destruct Hr as (Hc & _). apply chain_app in Hc as (q & _ & (_ & m' & Em' & Hc)).
      rewrite Em in Em'. injection Em' as <-. rewrite Hn in Hc. destruct r as [|y r].
      * by rewrite last_snoc.
      * by destruct Hc as [? _].
    + left. exists m. split; [done|]. by destruct (valid m).
  - exfalso. destruct (exists_last Hne) as (l & x & ->).
    destruct (rep_get _ _ x Hr ltac:(apply elem_of_app; right; apply list_elem_of_here)) as (m & Em).
    specialize (Hall x m ltac:(apply elem_of_app; right; apply list_elem_of_here) Em).
    apply orb_false_iff in Hall as [Hn%bool_decide_eq_false _]. apply Hn.
    destruct Hr as (Hc & _). apply chain_app in Hc as (q & _ & (_ & m' & Em' & Hc)).
    rewrite Em in Em'. by injection Em' as <-.
Qed.

(** The tree: the node reached after [i] steps, and the way of a leaf. *)
Lemma plru_victim_range k bm : 0 ≤ k ≤ 30 → 0 ≤ plru_victim k bm < 2 ^ k.
Proof.
  intros Hk. unfold plru_victim.
  set (f := λ node (_ : Z), Z.shiftl node 1 + (if Z.land (Z.shiftr bm node) 1 =? 0 then 1 else 0)).
  assert (∀ n : nat, 2 ^ Z.of_nat n ≤ foldl f 1 (seqZ 0 (Z.of_nat n)) < 2 ^ (Z.of_nat n + 1)) as Hf.
  { induction n as [|n IH]; [simpl; lia|].
    replace (Z.of_nat (S n)) with (Z.of_nat n + 1) by lia.
    rewrite (seqZ_app 0 (Z.of_nat n) 1), foldl_app by lia. simpl foldl.
    rewrite Z.add_0_l. unfold f at 1 3. rewrite Z.shiftl_mul_pow2 by lia.
    rewrite !Z.pow_add_r in * by lia. change (2 ^ 1) with 2 in *.
    destruct (_ =? 0); lia. }
  specialize (Hf (Z.to_nat k)). rewrite Z2Nat.id in Hf by lia.
  rewrite i32_small by (rewrite shiftl_1_l by lia; split;
    [pose proof (Z.pow_pos_nonneg 2 k); lia|apply Z.pow_lt_mono_r; lia]).
  rewrite shiftl_1_l by lia. set (node := foldl f 1 (seqZ 0 k)) in *.
  assert (Z.land node (Z.lnot (2 ^ k)) = node mod 2 ^ k) as ->; [|apply Z.mod_pos_bound; lia].
  apply Z.bits_inj'. intros i Hi. rewrite Z.land_spec, Z.lnot_spec, Z.pow2_bits_eqb by lia.
  rewrite Z.testbit_mod_pow2 by lia.
  destruct (Z.ltb_spec i k), (Z.eqb_spec k i); simpl; try lia;
    rewrite ?andb_false_r, ?andb_true_r; try done.
  apply (testbit_above node (k + 1)); lia.
Qed.

Lemma land_1_testbit m w : 0 ≤ w → (Z.land (Z.shiftr m w) 1 =? 0) = negb (Z.testbit m w).
Proof.
  intros Hw. rewrite (land_pow2_mask _ 1) by lia. change (2 ^ 1) with 2.
  rewrite <- Z.bit0_mod, Z.shiftr_spec, Z.add_0_l by lia. by destruct (Z.testbit m w).
Qed.

(** The descent keeps the bits it has chosen. *)
Lemma plru_descent f (xs : list Z) node : (∀ n i, f n i = 2 * n ∨ f n i = 2 * n + 1) →
  foldl f node xs / 2 ^ Z.of_nat (length xs) = node.
Proof.
  intros Hf. revert node. induction xs as [|x xs IH]; intros node; [apply Z.div_1_r|].
  simpl length. rewrite Nat2Z.inj_succ, Z.pow_succ_r, Z.mul_comm, <- Z.div_div by lia.
  simpl. rewrite IH. symmetry. destruct (Hf node x) as [-> | ->].
  - apply (Z.div_unique _ _ _ 0); lia.
  - apply (Z.div_unique _ _ _ 1); lia.
Qed.

(** At every level of the tree the bit on the way to [v] points away from [v]: the node at
    level [i] has number [2 ^ i] plus the first [i] bits of the way. *)
Definition points_away (log2 bitmask v : Z) : Prop :=
  0 ≤ v < 2 ^ log2 ∧ ∀ i, 0 ≤ i < log2 → Z.testbit v (log2 - 1 - i) = negb (Z.testbit bitmask (2 ^ i + Z.shiftr v (log2 - i))).

Section descent.
Variables (bm k : Z).
Hypothesis Hk : 0 ≤ k ≤ 30.

Let f (node _ : Z) : Z := Z.shiftl node 1 + (if Z.land (Z.shiftr bm node) 1 =? 0 then 1 else 0).
Let node (i : Z) : Z := foldl f 1 (seqZ 0 i).

Lemma plru_node_next i : 0 ≤ i → node (i + 1) = 2 * node i + (if Z.land (Z.shiftr bm (node i)) 1 =? 0 then 1 else 0).
Proof using.
  intros Hi. unfold node. rewrite (seqZ_app 0 i 1), foldl_app by lia. simpl foldl. unfold f at 1. rewrite Z.shiftl_mul_pow2 by lia. lia.
Qed.

Lemma plru_node_range i : 0 ≤ i → 2 ^ i ≤ node i < 2 ^ (i + 1).
Proof using.
  intros Hi. pattern i. apply natlike_ind; [by unfold node; simpl; lia| |done]. intros j Hj IH. unfold Z.succ. rewrite plru_node_next by done.
  rewrite !Z.pow_add_r in * by lia. change (2 ^ 1) with 2 in *. destruct (_ =? 0); lia.
Qed.

Lemma plru_node_prefix i : 0 ≤ i ≤ k → node i = node k / 2 ^ (k - i).
Proof using.
  intros Hi. unfold node at 2. replace k with (i + (k - i)) at 1 by lia. rewrite seqZ_app, foldl_app by lia. fold (node i).
  rewrite <- (plru_descent f (seqZ (0 + i) (k - i)) (node i)) at 1.
  - by rewrite length_seqZ, Z2Nat.id by lia.
  - intros n j. unfold f. rewrite Z.shiftl_mul_pow2 by lia. change (2 ^ 1) with 2. case_match; lia.
Qed.

Lemma plru_victim_node : plru_victim k bm = node k - 2 ^ k.
Proof using Hk.
  pose proof (plru_node_range k ltac:(lia)) as Hn. rewrite Z.pow_add_r in Hn by lia. change (2 ^ 1) with 2 in Hn. unfold plru_victim. fold f. fold (node k).
  rewrite i32_small by (rewrite shiftl_1_l by lia; split;
    [pose proof (Z.pow_pos_nonneg 2 k); lia|apply Z.pow_lt_mono_r; lia]).
  rewrite shiftl_1_l by lia. transitivity (node k mod 2 ^ k).
  - apply Z.bits_inj'. intros i Hi. rewrite Z.land_spec, Z.lnot_spec, Z.pow2_bits_eqb by lia. rewrite Z.testbit_mod_pow2 by lia.
    destruct (Z.ltb_spec i k), (Z.eqb_spec k i); simpl; try lia; rewrite ?andb_false_r, ?andb_true_r; try done.
    apply (testbit_above (node k) (k + 1)); [rewrite Z.pow_add_r by lia; change (2 ^ 1) with 2|]; lia.
  - symmetry. apply (Z.mod_unique _ _ 1); lia.
Qed.

Lemma plru_victim_away : points_away k bm (plru_victim k bm).
Proof using Hk.
  rewrite plru_victim_node. set (v := node k - 2 ^ k). pose proof (plru_node_range k ltac:(lia)) as Hn. rewrite Z.pow_add_r in Hn by lia. change (2 ^ 1) with 2 in Hn.
  split; [lia|].
  assert (∀ i, 0 ≤ i ≤ k → node i = 2 ^ i + Z.shiftr v (k - i)) as Hnode.
  { intros i Hi. rewrite plru_node_prefix, Z.shiftr_div_pow2 by lia. replace (node k) with (v + 2 ^ i * 2 ^ (k - i)).
    - rewrite Z.div_add by (apply Z.pow_nonzero; lia). lia.
    - rewrite <- Z.pow_add_r by lia. replace (i + (k - i)) with k by lia. lia. }
  intros i Hi. rewrite <- Hnode by lia. pose proof (Hnode (i + 1) ltac:(lia)) as H1. rewrite plru_node_next in H1 by lia.
  pose proof (plru_node_range i ltac:(lia)). pose proof (Z.pow_pos_nonneg 2 i ltac:(lia) ltac:(lia)).
  rewrite land_1_testbit in H1 by lia. replace (k - (i + 1)) with (k - 1 - i) in H1 by lia. rewrite Z.pow_add_r in H1 by lia. change (2 ^ 1) with 2 in H1.
  rewrite Z.testbit_odd. replace (Z.shiftr v (k - 1 - i)) with ((if negb (Z.testbit bm (node i)) then 1 else 0) + 2 * (node i - 2 ^ i)) by lia.
  rewrite Z.odd_add_mul_2. by destruct (Z.testbit bm (node i)).
Qed.
End descent.

(** The line of a way. *)
Lemma scan_way k s xs w : set_ok k s xs → 0 ≤ w < assoc k →
  ∃ p, scan_set s (λ l, way l =? w) = Ok (p, Some w).
Proof.
  intros [Hr Hl Hw _] Hr2. destruct (scan_set_ok _ _ (λ l, way l =? w) Hr) as
    [(l & x & r & m & -> & Em & Hv & _ & ->)|[Hall _]].
  - apply Hw in Em as E. apply Z.eqb_eq in Hv. rewrite E in Hv. subst. by eexists.
  - exfalso. assert (w ∈ xs) as Hin by (apply Hr; lia).
    destruct (rep_get _ _ _ Hr Hin) as (m & Em). specialize (Hall _ _ Hin Em).
    rewrite (Hw _ _ Em) in Hall. by rewrite Z.eqb_refl in Hall.
Qed.

(** ** The clock *)

(** The bit of way [w] in the referenced bits, which line 0 keeps. *)
Definition referenced (s : cset) (w : Z) : bool :=
  match aget (lines s) 0 with Ok f => Z.testbit (meta f) w | Fault _ => false end.

Definition hand_of (s : cset) : Z :=
  match aget (lines s) 1 with Ok h => meta h | Fault _ => 0 end.

(** Second chance, with [n] ways: from its place in [s] the hand passes [d] ways, which are
    valid and referenced, and clears their bits; it stops behind [v], which is free or has not
    been referenced since the hand was there, or has been cleared in a full turn ([d = n]). *)
Definition clock_turn (n : Z) (s s' : cset) (v : Z) : Prop :=
  let h := hand_of s in
  ∃ d, 0 ≤ d ≤ n ∧ v = (h + d) mod n ∧ hand_of s' = (v + 1) mod n ∧
    (∀ i, 0 ≤ i < d → valid (blk_at (lines s) ((h + i) mod n)) = true ∧ referenced s ((h + i) mod n) = true) ∧
    (d < n → valid (blk_at (lines s) v) = false ∨ referenced s v = false) ∧
    ∀ w, 0 ≤ w < n → referenced s' w = referenced s w && (d <? (w - h) mod n).

Lemma clear_bit m w i : 0 ≤ w < 64 → 0 ≤ i < 64 →
  Z.testbit (Z.land m (u64 (Z.lnot (Z.shiftl 1 w)))) i = Z.testbit m i && negb (i =? w).
Proof.
  intros Hw Hi. rewrite Z.land_spec. f_equal. unfold u64, wrap_u.
  rewrite Z.mod_pow2_bits_low by lia. rewrite Z.lnot_spec, shiftl_1_l, testbit_pow2 by lia. done.
Qed.


(** A write of the replacement state of line [p] keeps the invariant. *)
Lemma set_ok_meta k s xs p l m : set_ok k s xs → aget (lines s) p = Ok l →
  (replacement_policy k = REPLACE_CLOCK → p = 1 → 0 ≤ m < assoc k) →
  set_ok k (mk_cset (lset (lines s) p (with_meta m l)) (first s)) xs ∧
  same_blocks s (mk_cset (lset (lines s) p (with_meta m l)) (first s)).
Proof.
  intros [Hr Hl Hw Hclk] Ep Hm. destruct (set_meta_ok _ _ _ _ m Hr Ep) as [Hr' Hb].
  split; [|done]. split; [done|destruct Hb as [Hb1 _]; congruence| |].
  - intros x l' El'. simpl in El'. destruct (decide (x = p)) as [->|Hne].
    + rewrite (aget_lset_eq _ _ _ _ Ep) in El'. injection El' as <-. simpl. by apply Hw.
    + rewrite (aget_lset_ne _ _ _ _ _ Ep) in El' by done. by apply Hw.
  - intros Hpol. destruct (Hclk Hpol) as (Hf & h & Eh & Hh). split; [done|]. simpl.
    destruct (decide (1 = p)) as [<-|Hne].
    + eexists. split; [by eapply aget_lset_eq|]. simpl. auto.
    + exists h. by rewrite (aget_lset_ne _ _ _ _ _ Ep).
Qed.

Section clock_hand.
Variables (k : cfg) (xs : list Z).
Hypothesis Hpol : replacement_policy k = REPLACE_CLOCK.
Hypothesis Hassoc : 2 ≤ assoc k ≤ 64.

(** The hand advances. *)
Lemma clock_advance s h : set_ok k s xs → aget (lines s) 1 = Ok h →
  let s1 := mk_cset (lset (lines s) 1 (with_meta (u64 (modinc (meta h) (assoc k))) h)) 0 in
  set_ok k s1 xs ∧ same_blocks s s1 ∧ hand_of s1 = (hand_of s + 1) mod assoc k ∧
  ∀ w, referenced s1 w = referenced s w.
Proof.
  intros Hok Eh. pose proof (ok_clock _ _ _ Hok Hpol) as (Hf & h' & Eh' & Hh).
  rewrite Eh in Eh'. injection Eh' as <-.
  pose proof (modinc_range (meta h) (assoc k) Hh ltac:(lia)).
  rewrite u64_small by lia. simpl.
  destruct (set_ok_meta k s xs 1 h (modinc (meta h) (assoc k)) Hok Eh) as [Hok' Hb]; [lia|].
  rewrite Hf in Hok', Hb. split; [done|]. split; [done|]. unfold hand_of, referenced. simpl.
  rewrite (aget_lset_eq _ _ _ _ Eh), Eh. split; [by rewrite modinc_mod by lia|].
  intros w. by rewrite (aget_lset_ne _ _ _ _ _ Eh).
Qed.

(** The referenced bit of way [w] is cleared. *)
Lemma clock_clear s w : set_ok k s xs → 0 ≤ w < assoc k →
  wp (amodify (lines s) 0 (λ f, with_meta (Z.land (meta f) (u64 (Z.lnot (Z.shiftl 1 w)))) f)) (λ ls,
    let s1 := mk_cset ls 0 in
    set_ok k s1 xs ∧ same_blocks s s1 ∧ hand_of s1 = hand_of s ∧
    ∀ i, 0 ≤ i < assoc k → referenced s1 i = referenced s i && negb (i =? w)).
Proof.
  intros Hok Hw. pose proof (ok_len _ _ _ Hok) as Hl.
  destruct (aget_ok (lines s) 0 ltac:(lia)) as (f & _ & Ef). rewrite (amodify_lset _ _ _ _ Ef). simpl.
  pose proof (ok_clock _ _ _ Hok Hpol) as (Hf & _).
  destruct (set_ok_meta k s xs 0 f (Z.land (meta f) (u64 (Z.lnot (Z.shiftl 1 w)))) Hok Ef) as [Hok' Hb]; [lia|].
  rewrite Hf in Hok', Hb. split; [done|]. split; [done|]. unfold hand_of, referenced. simpl.
  rewrite (aget_lset_eq _ _ _ _ Ef), Ef, (aget_lset_ne _ _ _ _ _ Ef) by done. split; [done|].
  intros i Hi. apply clear_bit; lia.
Qed.

(** From [s0], where the hand is at [hand_of s0], it has passed [j] ways, all of them valid and
    referenced, and cleared their bits. *)
Record turned (s0 s : cset) (j : Z) : Prop := {
  tu_ok : set_ok k s xs;
  tu_blocks : same_blocks s0 s;
  tu_hand : hand_of s = (hand_of s0 + j) mod assoc k;
  tu_passed : ∀ i, 0 ≤ i < j → valid (blk_at (lines s0) ((hand_of s0 + i) mod assoc k)) = true ∧ referenced s0 ((hand_of s0 + i) mod assoc k) = true;
  tu_bits : ∀ w, 0 ≤ w < assoc k → referenced s w = referenced s0 w && (j <=? (w - hand_of s0) mod assoc k)
}.

Lemma turn_distance h j w : 0 ≤ w < assoc k → 0 ≤ j < assoc k → w = (h + j) mod assoc k ↔ (w - h) mod assoc k = j.
Proof.
  intros Hw Hj. split.
  - intros ->. rewrite Zminus_mod_idemp_l. replace (h + j - h) with j by lia. by rewrite Z.mod_small.
  - intros <-. rewrite Zplus_mod_idemp_r. replace (h + (w - h)) with w by lia. by rewrite Z.mod_small.
Qed.

(** Two ways to say that the bits up to the hand are clear. *)
Lemma turn_bits h j w : 0 ≤ w < assoc k → 0 ≤ j ≤ assoc k →
  (j <=? (w - h) mod assoc k) && negb (w =? (h + j) mod assoc k) = (j <? (w - h) mod assoc k).
Proof.
  intros Hw Hj. pose proof (Z.mod_pos_bound (w - h) (assoc k) ltac:(lia)). destruct (decide (j = assoc k)) as [->|].
  - rewrite (proj2 (Z.leb_gt _ _)), (proj2 (Z.ltb_ge _ _)) by lia. done.
  - pose proof (turn_distance h j w Hw ltac:(lia)). destruct (Z.eqb_spec w ((h + j) mod assoc k)), (Z.leb_spec j ((w - h) mod assoc k)), (Z.ltb_spec j ((w - h) mod assoc k)); simpl; lia.
Qed.

(** The hand stops within one turn after the lines it has cleared. *)
Lemma clock_ok fuel s0 s j : turned s0 s j → 0 ≤ j ≤ assoc k → assoc k - j < Z.of_nat fuel →
  wp (clock k fuel s) (λ '(s', p), 0 ≤ p < assoc k ∧ set_ok k s' xs ∧ same_blocks s0 s' ∧ clock_turn (assoc k) s0 s' p).
Proof.
  revert s j. induction fuel as [|fuel IH]; intros s j Ht Hj Hfuel; [lia|]. pose proof Ht as [Hok Hb0 Hhand Hpass Hbits].
  pose proof (ok_clock _ _ _ Hok Hpol) as (Hf & h & Eh & Hh). pose proof (ok_len _ _ _ Hok) as Hl.
  assert (hand_of s = meta h) as Ehand by (unfold hand_of; by rewrite Eh). rewrite Ehand in Hhand.
  simpl. rewrite Hf, Z.add_0_l, Eh. simpl. rewrite (amodify_lset _ _ _ _ Eh). simpl.
  pose proof (clock_advance s h Hok Eh) as (Hok1 & Hb1 & Hh1 & Hr1). simpl in *.
  set (ls1 := lset (lines s) 1 _) in *. set (s1 := mk_cset ls1 0) in *.
  assert (Z.of_nat (length ls1) = assoc k) as Hl1 by apply (ok_len _ _ _ Hok1).
  destruct (aget_ok ls1 (meta h) ltac:(lia)) as (l & _ & El). rewrite Z.add_0_l, El. simpl.
  pose proof (ok_way _ _ _ Hok1 _ _ El) as Ew. rewrite Ew.
  pose proof (clock_clear s1 (meta h) Hok1 Hh) as Hclr. simpl in Hclr.
  assert (same_blocks s0 s1) as Hb01 by (by etrans).
  assert (valid (blk_at (lines s0) (meta h)) = valid l) as Evl.
  { destruct Hb01 as [_ Hbb]. rewrite <- Hbb. exact (f_equal valid (blk_at_ok ls1 _ _ El)). }
  assert ((meta h + 1) mod assoc k = (hand_of s0 + (j + 1)) mod assoc k) as Enext
    by (rewrite Hhand, Zplus_mod_idemp_l; f_equal; lia).
  assert (∀ s', hand_of s' = hand_of s1 → (j < assoc k → valid l = false ∨ referenced s0 (meta h) = false) →
    (∀ w, 0 ≤ w < assoc k → referenced s' w = referenced s0 w && (j <? (w - hand_of s0) mod assoc k)) → clock_turn (assoc k) s0 s' (meta h)) as Hstop.
  { intros s' E1 E2 E3. exists j. split; [done|]. split; [done|]. split; [by rewrite E1, Hh1, Ehand|]. split; [done|]. split; [|done].
    intros Hlt. by rewrite Evl; apply E2. }
  destruct (valid l) eqn:Ev; simpl.
  - destruct (aget_ok ls1 0 ltac:(lia)) as (f & _ & Ef). rewrite Ef. simpl.
    rewrite land_1_testbit by lia. assert (referenced s (meta h) = Z.testbit (meta f) (meta h)) as Eref.
    { rewrite <- Hr1. unfold referenced. simpl. by rewrite Ef. }
    rewrite <- Eref. rewrite (Hbits (meta h) Hh) in Eref |- *. destruct (referenced s0 (meta h) && _) eqn:Eb; simpl.
    + apply andb_true_iff in Eb as [Eb1 Eb2%Z.leb_le]. pose proof (Z.mod_pos_bound (meta h - hand_of s0) (assoc k) ltac:(lia)).
      apply wp_bind. eapply wp_mono; [exact Hclr|]. intros ls2 (Hok2 & Hb2 & Hh2 & Hr2).
      apply (IH _ (j + 1)); [|lia|lia]. split; [done|by etrans|by rewrite Hh2, Hh1, Ehand, Enext| |].
      * intros i Hi. destruct (decide (i = j)) as [->|]; [|apply Hpass; lia]. by rewrite <- Hhand, Evl.
      * intros w Hw. rewrite Hr2, Hr1, Hbits by done. rewrite <- andb_assoc, Hhand, turn_bits by lia. f_equal.
        destruct (Z.leb_spec (j + 1) ((w - hand_of s0) mod assoc k)), (Z.ltb_spec j ((w - hand_of s0) mod assoc k)); lia.
    + split; [lia|]. split; [done|]. split; [done|]. apply Hstop; [done| |].
      * intros Hlt. right. apply andb_false_iff in Eb as [|Eb%Z.leb_gt]; [done|]. exfalso.
        pose proof (proj1 (turn_distance (hand_of s0) j (meta h) Hh ltac:(lia)) Hhand). lia.
      * intros w Hw. rewrite Hr1, Hbits by done. rewrite <- (turn_bits (hand_of s0) j w) by done. rewrite <- Hhand, andb_assoc.
        destruct (Z.eqb_spec w (meta h)) as [->|]; [by rewrite Eb|by rewrite andb_true_r].
  - apply wp_bind. eapply wp_mono; [exact Hclr|]. intros ls2 (Hok2 & Hb2 & Hh2 & Hr2).
    split; [lia|]. split; [done|]. split; [by etrans|]. apply Hstop; [done|by left|].
    intros w Hw. rewrite Hr2, Hr1, Hbits by done. by rewrite <- andb_assoc, Hhand, turn_bits by lia.
Qed.
End clock_hand.

End cache_repl.
