(* ===== verification/CachePolicy.v ===== *)
(** * CachePolicy: what the accesses of a cache do, policy by policy

    The operations of CacheSet keep the invariant of a set, find a victim whenever
    a block has to come in, and lose no block but the victim.  Under LRU the list of
    valid blocks is the list of the last uses, so a set of [n] ways holds the [n]
    blocks used last. *)

From S2P Require Import Prelude Misc CacheSet CacheRepl.

Module cache_policy.
Import cache_set cache_repl.

(** ** Uses *)

(** The list after a use of [p]. *)
Definition order (k : cfg) (l : list Z) (p : Z) (r : list Z) : list Z :=
  match replacement_policy k with
  | REPLACE_PLRU | REPLACE_RANDOM | REPLACE_LRU | REPLACE_NMRU => p :: l ++ r
  | REPLACE_MRU => l ++ r ++ [p]
  | REPLACE_CLOCK => l ++ p :: r
  end.

Lemma order_perm k l p r : order k l p r ≡ₚ l ++ p :: r.
Proof.
  unfold order. destruct (replacement_policy k); try done; try apply Permutation_middle.
  by rewrite (Permutation_app_comm r [p]).
Qed.

(** A set whose lines have the same blocks and whose list has been rebuilt. *)
Lemma set_ok_relink k s s' xs xs' : set_ok k s xs → rep s' xs' → same_blocks s s' →
  replacement_policy k ≠ REPLACE_CLOCK → set_ok k s' xs'.
Proof.
  intros Hok Hr Hb Hn. split; [done| | |done].
  - destruct Hb as [-> _]. apply Hok.
  - intros x l El. destruct (same_blocks_get s' s x l) as (l' & El' & E); [by symmetry|done|].
    rewrite <- (way_blk _ _ E). by apply (ok_way _ _ _ Hok).
Qed.

Lemma set_ok_first k s xs : set_ok k s xs → xs ≠ [] → ∃ r, xs = first s :: r.
Proof.
  intros [(Hc & _) _ _ _] Hne. destruct xs as [|x r]; [done|]. exists r.
  by injection (chain_first _ _ _ _ _ Hc) as ->.
Qed.

Lemma set_ok_get_first k s xs : set_ok k s xs → xs ≠ [] → ∃ f, aget (lines s) (first s) = Ok f.
Proof.
  intros Hok Hne. destruct (set_ok_first _ _ _ Hok Hne) as (r & ->).
  eapply rep_get; [apply Hok|apply list_elem_of_here].
Qed.

(** The PLRU bits are one more write of a replacement state. *)
Lemma plru_update_ok k s xs p : set_ok k s xs → replacement_policy k = REPLACE_PLRU → p ∈ xs →
  wp (plru_update k s p) (λ s', set_ok k s' xs ∧ same_blocks s s').
Proof.
  intros Hok Hpol Hp. unfold plru_update.
  destruct (rep_get _ _ p (ok_rep _ _ _ Hok) Hp) as (l & El). rewrite El. simpl.
  destruct (set_ok_get_first _ _ _ Hok) as (f & Ef); [by intros ->; inversion Hp|].
  rewrite Ef. simpl. rewrite (amodify_lset _ _ _ _ Ef). simpl. by apply set_ok_meta; [..|congruence].
Qed.

Lemma promote_ok k s l p r ref : set_ok k s (l ++ p :: r) →
  wp (promote k s (last_or None l) p ref) (λ s', set_ok k s' (order k l p r) ∧ same_blocks s s').
Proof.
  intros Hok. assert (p ∈ l ++ p :: r) as Hp by (apply elem_of_app; right; apply list_elem_of_here).
  assert (l ++ p :: r ≠ []) as Hne by (by destruct l).
  assert (∀ s, set_ok k s (l ++ p :: r) → replacement_policy k ≠ REPLACE_CLOCK →
    wp (to_front s (last_or None l) p) (λ s', set_ok k s' (p :: l ++ r) ∧ same_blocks s s')) as Hfront.
  { intros t Ht Hpol. eapply wp_mono; [apply to_front_ok, Ht|]. intros s' [Hr Hf%frame_same_blocks].
    split; [by eapply set_ok_relink|done]. }
  unfold promote, order. destruct (replacement_policy k) eqn:Hpol; try (by apply Hfront).
  - eapply wp_mono; [apply to_back_ok, Hok|]. intros s' [Hr Hf%frame_same_blocks].
    split; [by eapply set_ok_relink; [..|congruence]|done].
  - apply wp_bind. eapply wp_mono; [by apply plru_update_ok|]. intros s1 [Hok1 Hb1].
    eapply wp_mono; [by apply Hfront|]. intros s' [Hok' Hb']. split; [done|by etrans].
  - destruct ref; [|done]. destruct (rep_get _ _ p (ok_rep _ _ _ Hok) Hp) as (lp & El). rewrite El. simpl.
    destruct (set_ok_get_first _ _ _ Hok Hne) as (f & Ef).
    rewrite (amodify_lset _ _ _ _ Ef). simpl. apply set_ok_meta; [done|done|].
    destruct (ok_clock _ _ _ Hok Hpol) as [-> _]. lia.
Qed.

(** ** Writes of a block *)

(** Way [p] now holds the block [b]; the other ways hold what they held. *)
Definition upd (s s' : cset) (p : Z) (b : line) : Prop :=
  length (lines s') = length (lines s) ∧
  ∀ x, blk_at (lines s') x = if decide (x = p) then b else blk_at (lines s) x.

Lemma write_ok k s xs p l l' : set_ok k s xs → aget (lines s) p = Ok l →
  way l' = way l → next l' = next l → meta l' = meta l →
  set_ok k (mk_cset (lset (lines s) p l') (first s)) xs ∧
  upd s (mk_cset (lset (lines s) p l') (first s)) p (blk l').
Proof.
  intros [Hr Hl Hw Hclk] Ep Hway Hnext Hmeta.
  assert (∀ x m, aget (lset (lines s) p l') x = Ok m → ∃ m', aget (lines s) x = Ok m' ∧ way m = way m') as Hget.
  { intros x m Em. destruct (decide (x = p)) as [->|Hne].
    - rewrite (aget_lset_eq _ _ _ _ Ep) in Em. injection Em as <-. by exists l.
    - rewrite (aget_lset_ne _ _ _ _ _ Ep) in Em by done. by exists m. }
  split; split; simpl; try by unfold lset; rewrite length_insert.
  - by eapply rep_lset.
  - intros x m (m' & E & ->)%Hget. by apply Hw.
  - intros Hpol. destruct (Hclk Hpol) as (Hf & h & Eh & Hh). split; [done|].
    destruct (decide (1 = p)) as [<-|Hne].
    + exists l'. split; [by eapply aget_lset_eq|]. rewrite Ep in Eh. injection Eh as ->. by rewrite Hmeta.
    + exists h. by rewrite (aget_lset_ne _ _ _ _ _ Ep).
  - intros x. unfold blk_at. rewrite (data_at_lset _ _ l) by done. by case_decide.
Qed.

Lemma upd_same_l s1 s2 s3 p b : same_blocks s1 s2 → upd s2 s3 p b → upd s1 s3 p b.
Proof. intros [L1 H1] [L2 H2]. split; [congruence|]. intros x. by rewrite H2, H1. Qed.

Lemma upd_same_r s1 s2 s3 p b : upd s1 s2 p b → same_blocks s2 s3 → upd s1 s3 p b.
Proof. intros [L1 H1] [L2 H2]. split; [congruence|]. intros x. by rewrite H2, H1. Qed.

Lemma upd_here s p b : b = blk_at (lines s) p → upd s s p b.
Proof. intros ->. split; [done|]. intros x. by case_decide; subst. Qed.

Lemma holds_blk block l : holds block (blk l) = holds block l.
Proof. done. Qed.

Lemma blk_blk l : blk (blk l) = blk l.
Proof. done. Qed.

(** ** Lookups *)

(** The block a hit leaves. *)
Definition hit_block (k : cfg) (cmd : cache_command) (b : line) : line :=
  if is_write cmd && bool_decide (write_policy k = WRITE_BACK) then with_dirty true b else b.

Definition used_order (k : cfg) (cmd : cache_command) (l : list Z) (p : Z) (r : list Z) : list Z :=
  if decide (cmd = CACHE_WRITEBACK) then l ++ p :: r else order k l p r.

Lemma used_order_perm k cmd l p r : used_order k cmd l p r ≡ₚ l ++ p :: r.
Proof. unfold used_order. case_decide; [done|apply order_perm]. Qed.

Definition first_at (s : cset) (f : line → bool) (l : list Z) (p : Z) : Prop :=
  f (blk_at (lines s) p) = true ∧ ∀ x, x ∈ l → f (blk_at (lines s) x) = false.

(** A walk for a property of the blocks. *)
Lemma scan_blk s xs f : rep s xs → (∀ l, f (blk l) = f l) →
  (∃ l x r, xs = l ++ x :: r ∧ first_at s f l x ∧ scan_set s f = Ok (last_or None l, Some x)) ∨
  ((∀ x, x ∈ xs → f (blk_at (lines s) x) = false) ∧ scan_set s f = Ok (last_or None xs, None)).
Proof.
  intros Hr Hf. assert (∀ l : list Z, (∀ y, y ∈ l → y ∈ xs) →
    (∀ y n, y ∈ l → aget (lines s) y = Ok n → f n = false) → ∀ x, x ∈ l → f (blk_at (lines s) x) = false) as Hl.
  { intros l Hin H x Hx. destruct (rep_get _ _ x Hr (Hin x Hx)) as (m & Em).
    rewrite (blk_at_ok _ _ _ Em), Hf. by eapply H. }
  destruct (scan_set_ok _ _ f Hr) as [(l & x & r & m & -> & Em & Hv & Hpre & E)|[Hall E]].
  - left. exists l, x, r. split; [done|]. split; [|done]. split.
    + by rewrite (blk_at_ok _ _ _ Em), Hf.
    + apply Hl; [|done]. intros y Hy. apply elem_of_app. by left.
  - right. split; [|done]. by apply Hl.
Qed.

(** A hit uses the line of the block; a miss changes nothing. *)
Lemma is_hit_ok k cmd block s xs : set_ok k s xs → is_write cmd && read_only k = false →
  wp (is_hit k None cmd block s) (λ '(s', h),
    (h = None ∧ s' = s ∧ ∀ x, x ∈ xs → holds block (blk_at (lines s) x) = false) ∨
    (∃ l p r, xs = l ++ p :: r ∧ h = Some p ∧ first_at s (holds block) l p ∧
       set_ok k s' (used_order k cmd l p r) ∧ upd s s' p (hit_block k cmd (blk_at (lines s) p)))).
Proof.
  intros Hok Hro. unfold is_hit.
  destruct (scan_blk s xs (holds block) (ok_rep _ _ _ Hok) ltac:(done)) as [(l & p & r & -> & Hat & ->)|[Hno ->]];
    simpl; [|by left].
  apply wp_bind. apply (wp_mono _ (λ s1, set_ok k s1 (used_order k cmd l p r) ∧ same_blocks s s1)).
  { unfold used_order. case_decide; [done|by apply promote_ok]. }
  intros s1 [Hok1 Hb1]. unfold hit_block.
  destruct (is_write cmd); simpl in *.
  - rewrite Hro. simpl. case_decide as Hw; [rewrite bool_decide_true by done|rewrite bool_decide_false by done]; simpl.
    + destruct (rep_get s1 (used_order k cmd l p r) p (ok_rep _ _ _ Hok1)) as (lp & Ep).
      { rewrite used_order_perm. apply elem_of_app. right. apply list_elem_of_here. }
      rewrite (amodify_lset _ _ _ _ Ep). simpl. right. exists l, p, r. split; [done|].
      destruct (write_ok k s1 (used_order k cmd l p r) p lp (with_dirty true lp) Hok1 Ep) as [Hok' Hu]; [done..|].
      repeat (split; [done|]). eapply upd_same_l; [exact Hb1|].
      destruct Hb1 as [_ <-]. by rewrite (blk_at_ok _ _ _ Ep).
    + right. exists l, p, r. repeat (split; [done|]). eapply upd_same_r; [by apply upd_here|done].
  - right. exists l, p, r. repeat (split; [done|]). eapply upd_same_r; [by apply upd_here|done].
Qed.

(** ** Insertions *)

(** The block that an insertion leaves on a line that held [b]. *)
Definition new_block (cmd : cache_command) (block c : Z) (b : line) : line :=
  mk_line block c (way b) 0 true (is_write cmd)
    (if decide (cmd = CACHE_PREFETCH) then true else prefetched b) (prefetch_used b) None.

(** An insertion takes the first line that is not valid. *)
Lemma insert_block_ok k cmd block c s xs v : set_ok k s xs → v ∈ xs → valid (blk_at (lines s) v) = false →
  wp (insert_block k cmd block c s) (λ s', ∃ l p r, xs = l ++ p :: r ∧
    first_at s (λ b, negb (valid b)) l p ∧ set_ok k s' (used_order k cmd l p r) ∧
    upd s s' p (new_block cmd block c (blk_at (lines s) p))).
Proof.
  intros Hok Hv Hinv. unfold insert_block.
  destruct (scan_blk s xs (λ b, negb (valid b)) (ok_rep _ _ _ Hok) ltac:(done)) as [(l & p & r & -> & Hat & ->)|[Hno _]].
  2: { specialize (Hno v Hv). by rewrite Hinv in Hno. }
  simpl. destruct (rep_get s (l ++ p :: r) p (ok_rep _ _ _ Hok)) as (lp & Ep).
  { apply elem_of_app. right. apply list_elem_of_here. }
  rewrite (amodify_lset _ _ _ _ Ep). simpl.
  set (lp' := mk_line _ _ _ _ _ _ _ _ _).
  destruct (write_ok k s (l ++ p :: r) p lp lp' Hok Ep) as [Hok1 Hu]; [done..|].
  assert (blk lp' = new_block cmd block c (blk_at (lines s) p)) as E.
  { by rewrite (blk_at_ok _ _ _ Ep). }
  rewrite E in Hu. case_decide as Hwb.
  - simpl. exists l, p, r. split; [done|]. split; [done|]. unfold used_order. by rewrite decide_True.
  - eapply wp_mono; [by apply promote_ok|]. intros s' [Hok' Hb']. exists l, p, r.
    split; [done|]. split; [done|]. unfold used_order. rewrite decide_False by done.
    split; [done|]. by eapply upd_same_r.
Qed.

(** ** Victims *)

(** [v] is the first free line of the list. *)
Definition first_free (s : cset) (xs : list Z) (v : Z) : Prop :=
  ∃ l r, xs = l ++ v :: r ∧ valid (blk_at (lines s) v) = false ∧ ∀ x, x ∈ l → valid (blk_at (lines s) x) = true.

(** Which line of a full set goes: [rnd] is the value of [random()].  The clock has the
    specification [clock_turn] instead. *)
Definition policy_victim (k : cfg) (rnd : Z) (s : cset) (xs : list Z) (v : Z) : Prop :=
  let r := rnd mod 2 ^ 31 in
  match replacement_policy k with
  | REPLACE_LRU | REPLACE_MRU => list.last xs = Some v
  | REPLACE_RANDOM => xs !! Z.to_nat (r mod assoc k) = Some v
  | REPLACE_NMRU => xs !! S (Z.to_nat (r mod (assoc k - 1))) = Some v
  | REPLACE_PLRU => ∃ f, aget (lines s) (first s) = Ok f ∧ points_away (log2_assoc k) (i32 (meta f)) v
  | REPLACE_CLOCK => False (* see [evictee_ok] *)
  end.

(** The victim, and what the search for it does to the set: the clock turns its hand, the other
    policies take the first free line, and their victim when the set is full. *)
Definition evictee_ok (k : cfg) (rnd : Z) (s s' : cset) (xs : list Z) (v : Z) : Prop :=
  if decide (replacement_policy k = REPLACE_CLOCK) then clock_turn (assoc k) s s' v
  else s' = s ∧ (first_free s xs v ∨ full s xs ∧ policy_victim k rnd s xs v).

Lemma full_blk s xs : rep s xs → (∀ x, x ∈ xs → negb (valid (blk_at (lines s) x)) = false) → full s xs.
Proof.
  intros Hr H x l Hx El. specialize (H x Hx). rewrite (blk_at_ok _ _ _ El) in H.
  by apply negb_false_iff in H.
Qed.

Lemma lru_victim s xs : rep s xs → xs ≠ [] →
  ∃ q v, scan_set s (λ l, bool_decide (next l = None) || negb (valid l)) = Ok (q, Some v) ∧ v ∈ xs ∧
    (first_free s xs v ∨ full s xs ∧ list.last xs = Some v).
Proof.
  intros Hr Hne. destruct (scan_set_ok _ _ (λ l, bool_decide (next l = None) || negb (valid l)) Hr) as
    [(l & x & r & m & -> & Em & Hv & Hpre & ->)|[Hall _]].
  2: { exfalso. destruct (lru_victim_ok _ _ Hr Hne) as (q & v & E & Hv & _).
       destruct (scan_set_ok _ _ (λ l, bool_decide (next l = None) || negb (valid l)) Hr) as
         [(l & x & r & m & -> & Em & Hs & _ & _)|[_ E']]; [|by rewrite E in E'].
       specialize (Hall x m ltac:(apply elem_of_app; right; apply list_elem_of_here) Em). congruence. }
  eexists _, x. split; [done|]. split; [apply elem_of_app; right; apply list_elem_of_here|].
  destruct (valid m) eqn:Evm; [right|left].
  2: { exists l, r. split; [done|]. split; [by rewrite (blk_at_ok _ _ _ Em)|]. intros y Hy.
       destruct (rep_get _ _ y Hr ltac:(apply elem_of_app; by left)) as (n & En). specialize (Hpre _ _ Hy En).
       apply orb_false_iff in Hpre as [_ Hpre]. rewrite (blk_at_ok _ _ _ En). by apply negb_false_iff in Hpre. }
  simpl in Hv. rewrite orb_false_r in Hv. apply bool_decide_eq_true in Hv as Hn.
  destruct Hr as (Hc & _). pose proof Hc as (q & _ & (_ & m' & Em' & Hr))%chain_app.
  rewrite Em in Em'. injection Em' as <-. rewrite Hn in Hr.
  destruct r as [|y r]; [|by destruct Hr]. split; [|by rewrite last_snoc].
  intros y n [Hy|Hy%list_elem_of_singleton]%elem_of_app En; [|subst; congruence].
  specialize (Hpre _ _ Hy En). apply orb_false_iff in Hpre as [_ H]. by apply negb_false_iff in H.
Qed.

(** The other policies look for a free line first. *)
Lemma free_or s xs (r : result (cset * option Z)) (Q : cset * option Z → Prop) : rep s xs →
  (∀ p, p ∈ xs → first_free s xs p → Q (s, Some p)) →
  (full s xs → wp r Q) →
  wp (let* '(_, p) := scan_set s (λ l, negb (valid l)) in
      match p with Some p => Ok (s, Some p) | None => r end) Q.
Proof.
  intros Hr Hfree Hfull.
  destruct (scan_blk s xs (λ l, negb (valid l)) Hr ltac:(done)) as [(l & p & q & -> & [Hp Hl] & ->)|[Hno ->]]; simpl.
  - apply Hfree; [apply elem_of_app; right; apply list_elem_of_here|]. exists l, q. split; [done|]. split; [by apply negb_true_iff|].
    intros x Hx. apply negb_false_iff. by apply Hl.
  - apply Hfull. by apply full_blk.
Qed.

Lemma advance_first s xs n : rep s xs → 0 ≤ n < Z.of_nat (length xs) →
  advance (Z.to_nat n) (lines s) (Some (first s)) = Ok (xs !! Z.to_nat n).
Proof. intros (Hc & _) Hn. apply advance_ok; [done|lia]. Qed.

(** Every policy finds a victim. *)
Lemma get_evictee_ok k rnd s xs : cfg_ok k → set_ok k s xs →
  wp (get_evictee k rnd s) (λ '(s', p), ∃ v, p = Some v ∧ v ∈ xs ∧
    set_ok k s' xs ∧ same_blocks s s' ∧ evictee_ok k rnd s s' xs v).
Proof.
  intros (Ha & Hnmru & Hplru & Hclk) Hok. pose proof (ok_rep _ _ _ Hok) as Hr.
  pose proof (ok_len _ _ _ Hok) as Hl. pose proof (rep_length _ _ Hr) as Hlen.
  assert (xs ≠ []) as Hne by (intros ->; simpl in Hlen; lia).
  destruct (decide (replacement_policy k = REPLACE_CLOCK)) as [Hpol|Hpol].
  { unfold get_evictee, evictee_ok. rewrite Hpol. specialize (Hclk Hpol). apply wp_bind.
    eapply wp_mono; [apply (clock_ok k xs Hpol Hclk _ s s 0); [|lia|lia]|].
    - split; [done|done| |intros i ?; lia|].
      + pose proof (ok_clock _ _ _ Hok Hpol) as (_ & h & Eh & Hh). unfold hand_of. rewrite Eh, Z.add_0_r. by rewrite Z.mod_small.
      + intros w Hw. pose proof (Z.mod_pos_bound (w - hand_of s) (assoc k) ltac:(lia)). by rewrite (proj2 (Z.leb_le 0 _)), andb_true_r by lia.
    - intros [s' v] (Hv & Hok' & Hb & Hturn). simpl. exists v. split; [done|]. split; [apply Hr; lia|]. done. }
  pose (Q := λ '(s', p), ∃ v, p = Some v ∧ v ∈ xs ∧ set_ok k s' xs ∧ same_blocks s s' ∧ evictee_ok k rnd s s' xs v).
  assert (∀ v, v ∈ xs → first_free s xs v ∨ full s xs ∧ policy_victim k rnd s xs v → Q (s, Some v)) as HQ.
  { intros v Hv H. exists v. unfold evictee_ok. by rewrite decide_False. }
  assert (∀ v, v ∈ xs → first_free s xs v → Q (s, Some v)) as Hfree by (intros; apply HQ; auto).
  assert (∀ v, full s xs → v ∈ xs → policy_victim k rnd s xs v → Q (s, Some v)) as Hpick by (intros; apply HQ; auto).
  unfold get_evictee. unfold policy_victim in Hpick.
  assert (wp (let* '(_, p) := scan_set s (λ l, bool_decide (next l = None) || negb (valid l)) in
      let* p := of_option Fatal p in Ok (s, Some p)) Q ∨
      (replacement_policy k ≠ REPLACE_LRU ∧ replacement_policy k ≠ REPLACE_MRU)) as Hlru.
  { destruct (lru_victim s xs Hr Hne) as (q & v & -> & Hv & Hor). simpl.
    destruct (replacement_policy k) eqn:Epol; auto; left; (destruct Hor as [?|[??]]; [by apply Hfree|by apply Hpick]). }
  pose proof (Z.mod_pos_bound rnd (2 ^ 31) ltac:(lia)) as Hrnd.
  destruct (replacement_policy k) eqn:Epol; try (by destruct Hlru as [|[]]).
  - apply (free_or s xs); [done|done|]. intros Hfull.
    rewrite (proj2 (Z.eqb_neq _ _)) by lia. simpl. rewrite Z.rem_mod_nonneg by lia.
    pose proof (Z.mod_pos_bound (rnd mod 2 ^ 31) (assoc k) ltac:(lia)) as Hi.
    rewrite (advance_first s xs) by (done || lia). simpl.
    destruct (xs !! _) as [v|] eqn:Ev; [|apply lookup_ge_None in Ev; lia].
    apply Hpick; [done|by eapply list_elem_of_lookup_2|done].
  - apply (free_or s xs); [done|done|]. intros Hfull. specialize (Hnmru eq_refl).
    rewrite (proj2 (Z.ltb_lt _ _)) by lia. rewrite Z.rem_mod_nonneg by lia.
    pose proof (Z.mod_pos_bound (rnd mod 2 ^ 31) (assoc k - 1) ltac:(lia)) as Hi.
    destruct Hr as (Hc & Hnd & _). destruct xs as [|x r]; [done|]. destruct Hc as (Hx & f & Ef & Hc). injection Hx as ->. rewrite Ef.
    simpl in Hlen |- *. rewrite (advance_ok _ _ r) by (done || lia). simpl.
    destruct (r !! _) as [v|] eqn:Ev; [|apply lookup_ge_None in Ev; lia].
    assert (v ∈ r) as Hv by by eapply list_elem_of_lookup_2.
    apply Hpick; [done|by apply list_elem_of_further|done].
  - specialize (Hplru eq_refl) as [Hlog Hpow]. destruct (set_ok_get_first _ _ _ Hok Hne) as (f & Ef).
    rewrite Ef. simpl. apply (free_or s xs); [done|done|]. intros Hfull.
    pose proof (plru_victim_away (i32 (meta f)) (log2_assoc k) ltac:(lia)) as Haway. pose proof (proj1 Haway) as Hrange.
    destruct (scan_way k s xs _ Hok ltac:(rewrite Hpow; eassumption)) as (q & ->). simpl.
    apply Hpick; [done|apply Hr; lia|by exists f].
Qed.

(** ** Contents *)

(** The valid blocks of a set, in list order. *)
Definition held (s : cset) (x : Z) : list line :=
  if valid (blk_at (lines s) x) then [blk_at (lines s) x] else [].
Definition contents (s : cset) (xs : list Z) : list line := xs ≫= held s.

Lemma contents_app s xs ys : contents s (xs ++ ys) = contents s xs ++ contents s ys.
Proof. apply bind_app. Qed.

Lemma contents_cons s x xs : contents s (x :: xs) = held s x ++ contents s xs.
Proof. done. Qed.

Lemma contents_snoc s xs x : contents s (xs ++ [x]) = contents s xs ++ held s x.
Proof. rewrite contents_app. f_equal. apply app_nil_r. Qed.

#[export] Instance contents_perm s : Proper ((≡ₚ) ==> (≡ₚ)) (contents s).
Proof. intros xs ys. apply bind_Permutation. Qed.

Lemma contents_ext s s' xs : (∀ x, x ∈ xs → blk_at (lines s') x = blk_at (lines s) x) → contents s' xs = contents s xs.
Proof.
  intros H. induction xs as [|x xs IH]; [done|]. rewrite !contents_cons, IH by set_solver.
  f_equal. unfold held. by rewrite H by set_solver.
Qed.

Lemma contents_same s s' xs : same_blocks s s' → contents s' xs = contents s xs.
Proof. intros [_ H]. by apply contents_ext. Qed.

Lemma held_upd s s' p b : upd s s' p b → held s' p = if valid b then [b] else [].
Proof. intros [_ H]. unfold held. rewrite H. by rewrite decide_True. Qed.

Lemma contents_upd_out s s' p b xs : upd s s' p b → p ∉ xs → contents s' xs = contents s xs.
Proof.
  intros [_ H] Hp. apply contents_ext. intros x Hx. rewrite H. rewrite decide_False; [done|by intros ->].
Qed.

(** A write of a block on a line, around which the others stay as they are. *)
Lemma contents_upd s s' p b l r : upd s s' p b → NoDup (l ++ p :: r) →
  contents s' l = contents s l ∧ contents s' r = contents s r ∧
  held s' p = if valid b then [b] else [].
Proof.
  intros Hu Hnd. assert (p ∉ l ++ r) as [Hl Hr]%not_elem_of_app.
  { rewrite <- Permutation_middle in Hnd. by apply list.NoDup_cons in Hnd as [? _]. }
  split_and!; [by eapply contents_upd_out|by eapply contents_upd_out|by eapply held_upd].
Qed.

Lemma set_ok_nodup k s xs : set_ok k s xs → NoDup xs.
Proof. intros Hok. apply (ok_rep _ _ _ Hok). Qed.

Lemma set_ok_perm_elem k s xs xs' x : set_ok k s xs → set_ok k s xs' → x ∈ xs → x ∈ xs'.
Proof. intros [(_ & _ & H1) _ _ _] [(_ & _ & H2) _ _ _]. by rewrite H1, H2. Qed.

(** The block goes on a line that was free: nothing else changes. *)
Lemma insert_contents k cmd block c s xs v : set_ok k s xs → v ∈ xs → valid (blk_at (lines s) v) = false →
  wp (insert_block k cmd block c s) (λ s', ∃ l p r xs', xs = l ++ p :: r ∧ xs' = used_order k cmd l p r ∧
    set_ok k s' xs' ∧
    let b := new_block cmd block c (blk_at (lines s) p) in
    contents s xs = contents s l ++ contents s r ∧ contents s' l = contents s l ∧
    contents s' r = contents s r ∧ held s' p = [b]).
Proof.
  intros Hok Hv Hinv. eapply wp_mono; [by eapply insert_block_ok|].
  intros s' (l & p & r & -> & [Hp _] & Hok' & Hu). exists l, p, r, (used_order k cmd l p r).
  destruct (contents_upd _ _ _ _ _ _ Hu (set_ok_nodup _ _ _ Hok)) as (Hl & Hr & Hh).
  repeat (split; [done|]). split; [|done].
  rewrite contents_app, contents_cons. unfold held. apply negb_true_iff in Hp. by rewrite Hp.
Qed.

(** The write over the victim [v], the list around which is [u] and [t]. *)
Lemma overwrite_split k cmd block c s u v t : set_ok k s (u ++ v :: t) →
  wp (overwrite k cmd block c s v) (λ s', ∃ l p r b, set_ok k s' (used_order k cmd l p r) ∧
    contents s u ++ contents s t = contents s' l ++ contents s' r ∧
    held s' p = [new_block cmd block c b]).
Proof.
  intros Hok. assert (v ∈ u ++ v :: t) as Hv by (apply elem_of_app; right; apply list_elem_of_here).
  unfold overwrite. destruct (rep_get _ _ v (ok_rep _ _ _ Hok) Hv) as (l & El).
  rewrite (amodify_lset _ _ _ _ El). simpl.
  destruct (write_ok k s _ v l (invalidated l) Hok El) as [Hok1 Hu]; [done..|].
  set (s1 := mk_cset _ _) in *.
  assert (valid (blk_at (lines s1) v) = false) as Hinv.
  { destruct Hu as [_ Hu]. rewrite Hu. by rewrite decide_True. }
  eapply wp_mono; [by eapply (insert_contents k cmd block c s1 _ v)|].
  intros s' (l' & p & r & xs' & Exs & -> & Hok' & E1 & El' & Er' & Ep').
  exists l', p, r, (blk_at (lines s1) p). split; [done|]. split; [|done].
  destruct (contents_upd _ _ _ _ _ _ Hu (set_ok_nodup _ _ _ Hok)) as (Hu1 & Ht1 & Hh).
  rewrite El', Er', <- E1, contents_app, contents_cons, Hu1, Ht1, Hh. done.
Qed.

Lemma overwrite_ok k cmd block c s xs v : set_ok k s xs → v ∈ xs →
  wp (overwrite k cmd block c s v) (λ s', ∃ xs' rest b, set_ok k s' xs' ∧
    contents s xs ≡ₚ held s v ++ rest ∧
    contents s' xs' ≡ₚ new_block cmd block c b :: rest).
Proof.
  intros Hok (u & t & ->)%list_elem_of_split.
  eapply wp_mono; [by apply overwrite_split|]. intros s' (l & p & r & b & Hok' & E & Ep).
  exists (used_order k cmd l p r), (contents s u ++ contents s t), b. split; [done|]. split.
  - rewrite contents_app, contents_cons. by rewrite Permutation_app_swap_app.
  - rewrite used_order_perm, contents_app, contents_cons, Ep, E. simpl. by rewrite Permutation_middle.
Qed.

(** ** Fills *)

(** No block is there twice. *)
Definition tags (s : cset) (xs : list Z) : list Z := tag <$> contents s xs.
Definition unique (s : cset) (xs : list Z) : Prop := NoDup (tags s xs).

#[export] Instance tags_perm s : Proper ((≡ₚ) ==> (≡ₚ)) (tags s).
Proof. intros xs ys E. unfold tags. by rewrite E. Qed.

Lemma tags_elem s xs block : block ∈ tags s xs ↔ ∃ x, x ∈ xs ∧ holds block (blk_at (lines s) x) = true.
Proof.
  unfold tags, contents, held, holds. rewrite list_elem_of_fmap. split.
  - intros (b & -> & (x & Hb & Hx)%list_elem_of_bind). exists x. split; [done|].
    destruct (valid (blk_at (lines s) x)) eqn:Ev; [|by inversion Hb].
    apply list_elem_of_singleton in Hb as ->. by rewrite Z.eqb_refl.
  - intros (x & Hx & [Hv Ht%Z.eqb_eq]%andb_true_iff). exists (blk_at (lines s) x). split; [done|].
    apply list_elem_of_bind. exists x. split; [|done]. rewrite Hv. apply list_elem_of_here.
Qed.

Lemma tags_miss s xs block : (∀ x, x ∈ xs → holds block (blk_at (lines s) x) = false) → block ∉ tags s xs.
Proof. intros H (x & Hx & Hh)%tags_elem. by rewrite H in Hh. Qed.

Lemma peek_ok block s xs : rep s xs →
  wp (peek block s) (λ h, match h with Some _ => block ∈ tags s xs | None => block ∉ tags s xs end).
Proof.
  intros Hr. unfold peek.
  destruct (scan_blk s xs (holds block) Hr ltac:(done)) as [(l & p & r & -> & [Hp _] & ->)|[Hno ->]]; simpl.
  - apply tags_elem. exists p. split; [|done]. apply elem_of_app. right. apply list_elem_of_here.
  - by apply tags_miss.
Qed.

Lemma full_length s xs : rep s xs → full s xs → length (contents s xs) = length xs.
Proof.
  intros Hr Hf. assert (∀ ys, (∀ x, x ∈ ys → x ∈ xs) → length (contents s ys) = length ys) as H.
  { induction ys as [|y ys IH]; intros Hys; [done|]. rewrite contents_cons, length_app, IH by set_solver.
    unfold held. destruct (rep_get _ _ y Hr) as (m & Em); [apply Hys, list_elem_of_here|].
    rewrite (blk_at_ok _ _ _ Em). simpl. rewrite (Hf y m); [done|apply Hys, list_elem_of_here|done]. }
  by apply H.
Qed.

Lemma contents_length s xs : (length (contents s xs) ≤ length xs)%nat.
Proof.
  induction xs as [|x xs IH]; [done|]. rewrite contents_cons, length_app. simpl.
  unfold held. destruct (valid _); simpl; lia.
Qed.

(** The blocks after the fill of [block]: those of before, less the evictee [l]. *)
Definition swapped (cmd : cache_command) (block c : Z) (l : line) (before after : list line) : Prop :=
  ∃ rest b, before ≡ₚ (if valid l then [blk l] else []) ++ rest ∧ after ≡ₚ new_block cmd block c b :: rest.

Lemma swapped_unique cmd block c l before after : swapped cmd block c l before after →
  NoDup (tag <$> before) → block ∉ tag <$> before → NoDup (tag <$> after).
Proof.
  intros (rest & b & E1 & E2) Hnd Hno. rewrite E1, fmap_app in Hnd, Hno. rewrite E2.
  apply list.NoDup_app in Hnd as (_ & _ & Hnd). apply not_elem_of_app in Hno as [_ Hno].
  by apply list.NoDup_cons.
Qed.

Lemma same_blocks_at s s' x l : same_blocks s s' → aget (lines s') x = Ok l → blk_at (lines s) x = blk l.
Proof. intros [_ H] E. by rewrite <- H, (blk_at_ok _ _ _ E). Qed.

Section fills.
Variables (k : cfg).
Hypothesis Hk : cfg_ok k.

(** The victim of a full set is written over; one of a set with room was free. *)
Definition room (s : cset) (xs : list Z) (l : line) : Prop :=
  replacement_policy k ≠ REPLACE_CLOCK → valid l = true → length (contents s xs) = length xs.

Lemma evictee_room rnd s s' xs v : rep s xs → evictee_ok k rnd s s' xs v → room s xs (blk_at (lines s) v).
Proof.
  intros Hr Hev Hclk Hvalid. unfold evictee_ok in Hev. rewrite decide_False in Hev by done.
  destruct Hev as [_ [(l & r & _ & Hv & _)|[Hfull _]]]; [congruence|]. by apply full_length; auto.
Qed.

Lemma replace_ok rnd s xs : set_ok k s xs →
  wp (get_evictee k rnd s) (λ '(s1, p), ∃ v l, p = Some v ∧ set_ok k s1 xs ∧ same_blocks s s1 ∧
    aget (lines s1) v = Ok l ∧ room s xs l ∧
    ∀ cmd block c, wp (overwrite k cmd block c s1 v) (λ s', ∃ xs', set_ok k s' xs' ∧
      swapped cmd block c l (contents s xs) (contents s' xs'))).
Proof.
  intros Hok. eapply wp_mono; [by apply get_evictee_ok|]. intros [s1 p] (v & -> & Hv & Hok1 & Hb & Hev).
  destruct (rep_get _ _ v (ok_rep _ _ _ Hok1) Hv) as (l & El). exists v, l.
  pose proof (same_blocks_at _ _ _ _ Hb El) as Eb. repeat (split; [done|]). split.
  { apply evictee_room in Hev; [|apply Hok]. by rewrite Eb in Hev. }
  intros cmd block c. eapply wp_mono; [by apply overwrite_ok|]. intros s' (xs' & rest & b & Hok' & E1 & E2).
  exists xs'. split; [done|]. exists rest, b. split; [|done].
  rewrite <- (contents_same _ _ _ Hb), E1. unfold held. by rewrite (blk_at_ok _ _ _ El).
Qed.

(** What a fill does with the set [s], in which no block is twice. *)
Definition fill_spec (wb_available : Z → bool) (cmd : cache_command) (block c : Z) (s : cset) (xs : list Z)
    (s' : cset) (xs' : list Z) (o : fill_outcome) : Prop :=
  match o with
  | Present => s' = s ∧ block ∈ tags s xs
  | NoMSHR => contents s' xs' = contents s xs ∧
      ∃ l, blk l ∈ contents s xs ∧ dirty l = true ∧ wb_available (u64 (Z.shiftl (tag l) (addr_shift k))) = false
  | Filled l => (block ∉ tags s xs) ∧ swapped cmd block c l (contents s xs) (contents s' xs') ∧ room s xs l ∧
      (valid l = true → dirty l = true → write_policy k = WRITE_BACK →
       wb_available (u64 (Z.shiftl (tag l) (addr_shift k))) = true)
  end.

Lemma valid_contents s xs v l : rep s xs → aget (lines s) v = Ok l → valid l = true → blk l ∈ contents s xs.
Proof.
  intros (Hc & Hnd & Hx) El Hv. apply list_elem_of_bind. exists v. split.
  - unfold held. rewrite (blk_at_ok _ _ _ El). simpl. rewrite Hv. apply list_elem_of_here.
  - apply Hx. by apply aget_inv in El as [? _].
Qed.

Lemma fill_block_ok wb rnd cmd block c s xs : set_ok k s xs → unique s xs →
  wp (fill_block k wb rnd cmd block c s) (λ '(s', o), ∃ xs',
    set_ok k s' xs' ∧ unique s' xs' ∧ fill_spec wb cmd block c s xs s' xs' o).
Proof.
  intros Hok Hu. unfold fill_block. apply wp_bind. eapply wp_mono; [apply (peek_ok _ _ xs), Hok|].
  intros [h|] Hh; [by exists xs|]. apply wp_bind. eapply wp_mono; [by apply (replace_ok rnd _ xs)|].
  intros [s1 p] (v & l & -> & Hok1 & Hb & El & Hroom & Hover). simpl. rewrite El. simpl.
  destruct (valid l && dirty l && bool_decide (write_policy k = WRITE_BACK) && (negb _)) eqn:Ewb.
  - apply andb_true_iff in Ewb as [[[Ev Ed]%andb_true_iff Ep]%andb_true_iff Hwb%negb_true_iff].
    simpl. exists xs. split; [done|].
    pose proof (contents_same _ _ xs Hb) as Ec. unfold unique, tags, fill_spec. rewrite Ec.
    split; [done|]. split; [done|]. exists l. rewrite <- Ec. split_and!; [|done|done].
    by eapply valid_contents; [apply Hok1| |].
  - apply wp_bind. eapply wp_mono; [apply Hover|]. intros s' (xs' & Hok' & Hsw). exists xs'.
    split; [done|]. split; [by eapply swapped_unique|]. split; [done|]. split; [done|]. split; [done|].
    intros Ev Ed Ep. rewrite Ev, Ed, bool_decide_true in Ewb by done. by apply negb_false_iff in Ewb.
Qed.

(** A hit keeps the blocks. *)
Lemma contents_hit cmd s xs s' l p r block : xs = l ++ p :: r → set_ok k s xs →
  holds block (blk_at (lines s) p) = true →
  set_ok k s' (used_order k cmd l p r) → upd s s' p (hit_block k cmd (blk_at (lines s) p)) →
  ∃ b, tag b = block ∧ contents s xs = contents s l ++ b :: contents s r ∧
    contents s' (l ++ p :: r) = contents s l ++ hit_block k cmd b :: contents s r ∧
    contents s' l = contents s l ∧ contents s' r = contents s r ∧ held s' p = [hit_block k cmd b].
Proof.
  intros -> Hok [Hv Ht%Z.eqb_eq]%andb_true_iff Hok' Hu. exists (blk_at (lines s) p). split; [done|].
  destruct (contents_upd _ _ _ _ _ _ Hu (set_ok_nodup _ _ _ Hok)) as (Hl & Hr & Hh).
  assert (valid (hit_block k cmd (blk_at (lines s) p)) = true) as Hv'.
  { unfold hit_block. by destruct (_ && _). }
  rewrite Hv' in Hh. rewrite !contents_app, !contents_cons, Hl, Hr, Hh. unfold held. by rewrite Hv.
Qed.

End fills.

(** ** LRU *)

(** The abstract set: at most [n] blocks, the last used first. *)
Definition lru_use (n : nat) (b : Z) (l : list Z) : list Z := take n (b :: filter (λ x, x ≠ b) l).

Lemma filter_absent (b : Z) (l : list Z) : b ∉ l → filter (λ x, x ≠ b) l = l.
Proof.
  induction l as [|x l IH]; [done|]. intros [Hx Hl]%not_elem_of_cons.
  by rewrite filter_cons_True, IH by congruence.
Qed.

Lemma filter_split (b : Z) (l r : list Z) : NoDup (l ++ b :: r) → filter (λ x, x ≠ b) (l ++ b :: r) = l ++ r.
Proof.
  intros Hnd. rewrite <- Permutation_middle in Hnd.
  apply list.NoDup_cons in Hnd as [[Hl Hr]%not_elem_of_app _].
  by rewrite list.filter_app, filter_cons_False, !filter_absent by (done || by intros []).
Qed.

Section lru.
Variables (k : cfg).
Hypothesis Hk : cfg_ok k.
Hypothesis Hlru : replacement_policy k = REPLACE_LRU.

Lemma lru_order cmd l p r : cmd ≠ CACHE_WRITEBACK → used_order k cmd l p r = p :: l ++ r.
Proof. intros. unfold used_order, order. by rewrite decide_False, Hlru. Qed.

Lemma lru_overwrite cmd block c s xs v : cmd ≠ CACHE_WRITEBACK → set_ok k s xs →
  v ∈ xs → valid (blk_at (lines s) v) = false ∨ full s xs ∧ list.last xs = Some v →
  wp (overwrite k cmd block c s v) (λ s', ∃ xs', set_ok k s' xs' ∧
    tags s' xs' = take (Z.to_nat (assoc k)) (block :: tags s xs)).
Proof.
  intros Hcmd Hok Hv Hev. destruct Hk as (Ha & _).
  assert (length xs = Z.to_nat (assoc k)) as Hlen.
  { rewrite (rep_length s xs), <- (ok_len _ _ _ Hok); [lia|apply Hok]. }
  assert (∃ u t, xs = u ++ v :: t ∧
    take (Z.to_nat (assoc k)) (block :: tags s xs) = block :: tags s u ++ tags s t) as (u & t & -> & Etake).
  { destruct Hev as [Hfree|[Hfull Hlast]].
    - destruct (list_elem_of_split _ _ Hv) as (u & t & ->). exists u, t. split; [done|].
      assert (tags s (u ++ v :: t) = tags s u ++ tags s t) as ->.
      { unfold tags. rewrite contents_app, contents_cons, fmap_app. unfold held. by rewrite Hfree. }
      apply take_ge. rewrite <- Hlen, length_app. simpl. rewrite length_app. unfold tags. rewrite !length_fmap.
      pose proof (contents_length s u). pose proof (contents_length s t). lia.
    - apply last_Some in Hlast as (u & ->).
      exists u, []. split; [done|].
      rewrite app_nil_r. rewrite <- Hlen, length_app, Nat.add_comm. simpl. f_equal. unfold tags.
      rewrite contents_app, fmap_app.
      pose proof (full_length s _ (ok_rep _ _ _ Hok) Hfull) as Hfl.
      rewrite contents_app, !length_app in Hfl. pose proof (contents_length s u). pose proof (contents_length s [v]).
      simpl in *. apply take_app_length'. rewrite length_fmap. lia. }
  eapply wp_mono; [by apply overwrite_split|]. intros s' (l & p & r & b & Hok' & E & Ep).
  eexists. split; [done|]. rewrite Etake, lru_order by done. unfold tags.
  by rewrite contents_cons, Ep, contents_app, <- E, <- fmap_app.
Qed.

(** An access of an LRU set is a use of the abstract set. *)
Lemma lru_access rnd cmd block c s xs : cmd ≠ CACHE_WRITEBACK → is_write cmd && read_only k = false →
  set_ok k s xs → unique s xs →
  wp (access k None rnd cmd block c s) (λ '(s', hit), ∃ xs', set_ok k s' xs' ∧ unique s' xs' ∧
    hit = bool_decide (block ∈ tags s xs) ∧
    tags s' xs' = lru_use (Z.to_nat (assoc k)) block (tags s xs)).
Proof.
  intros Hcmd Hro Hok Hu. destruct Hk as (Ha & _).
  assert (length xs = Z.to_nat (assoc k)) as Hlen.
  { rewrite (rep_length s xs), <- (ok_len _ _ _ Hok); [lia|apply Hok]. }
  unfold access. apply wp_bind. eapply wp_mono; [by eapply (is_hit_ok _ _ _ _ xs)|].
  intros [s1 h] [(-> & -> & Hno)|(l & p & r & -> & -> & Hat & Hok1 & Hupd)].
  - pose proof (tags_miss _ _ _ Hno) as Hmiss. apply wp_bind.
    eapply wp_mono; [by apply get_evictee_ok|]. intros [s1 p] (v & -> & Hv & Hok1 & Hb & Hev). simpl.
    assert (tags s1 xs = tags s xs) as Et by (unfold tags; by rewrite (contents_same _ _ _ Hb)).
    apply wp_bind. eapply wp_mono; [apply (lru_overwrite cmd block c s1 xs); try done|].
    { unfold evictee_ok in Hev. rewrite decide_False in Hev by congruence. destruct Hev as [-> [(l & r & _ & Hf & _)|[Hf Hp]]]; [by left|right].
      split; [done|]. unfold policy_victim in Hp. by rewrite Hlru in Hp. }
    intros s' (xs' & Hok' & E). rewrite Et in E.
    assert (tags s' xs' = lru_use (Z.to_nat (assoc k)) block (tags s xs)) as E'
      by (unfold lru_use; by rewrite filter_absent).
    exists xs'. split; [done|]. split; [|by rewrite bool_decide_false].
    unfold unique. rewrite E. apply (sublist_NoDup _ (block :: tags s xs)); [by apply list.NoDup_cons|].
    apply sublist_take.
  - destruct Hat as [Hp _].
    destruct (contents_hit k cmd s _ s1 l p r block eq_refl Hok Hp Hok1 Hupd) as (b & Hb & E & _ & El & Er & Eh).
    assert (tag (hit_block k cmd b) = block) as Hb' by (unfold hit_block; by case_match).
    simpl. eexists. split; [done|]. rewrite lru_order by done. unfold unique, tags in *.
    assert (tag <$> contents s1 (p :: l ++ r) = block :: (tag <$> contents s l) ++ (tag <$> contents s r)) as Et.
    { rewrite contents_cons, contents_app, El, Er, Eh. simpl. by rewrite Hb', fmap_app. }
    rewrite Et. rewrite E, fmap_app, fmap_cons, Hb in *. split; [by rewrite <- Permutation_middle in Hu|].
    split; [rewrite bool_decide_true; [done|apply elem_of_app; right; apply list_elem_of_here]|].
    unfold lru_use. rewrite filter_split by done. symmetry. apply take_ge. simpl.
    rewrite length_app, !length_fmap. pose proof (contents_length s l). pose proof (contents_length s r).
    rewrite length_app in Hlen. simpl in Hlen. lia.
Qed.
End lru.

End cache_policy.
