(* ===== verification/CacheSafety.v ===== *)
(** * CacheSafety: the warm-up, and the operations of a set in any order

    [simulate_warmup] of src/xiosim/sim-loop.cpp runs a stream of accesses through
    the last-level cache.  With the LRU policy every set behaves as the list of the
    blocks of the set by last use, cut to the number of ways, so that a cache with
    more ways hits whenever one with fewer ways does.

    Lookups, fills and peeks of a set, under each of the six policies, in any order:
    none fails, the invariant holds throughout, no block is twice in the set.  The
    configurations are those of [cfg_ok]: between 1 and 2^31 - 1 ways; at least two
    for NMRU; a power of two up to 32 for PLRU, whose tree is an [int]; between 2 and
    64 for the clock, whose bits are one [long long].  NMRU with one way does fail
    ([nmru_direct_mapped_null]). *)

From S2P Require Import Prelude Misc CacheSet CacheRepl CachePolicy.

Module cache_warm.
Import cache_set cache_repl cache_policy.

(** Source: src/xiosim/zesto-cache.cpp:246-262 cache_create. *)
Definition new_blocks (k : cfg) : list cset := replicate (Z.to_nat (sets k)) (new_set (assoc k)).

(** An access of the stream: the value of [random()], a write or a read, the
    address, the core. *)
Record access_t : Type := mk_access { arnd : Z; awrite : bool; paddr : Z; acore : Z }.

Definition block_of (k : cfg) (a : access_t) : Z := Z.shiftr (paddr a) (addr_shift k).

(** A stream of accesses: the cache it leaves, and the hits. *)
Fixpoint warm_run (k : cfg) (trace : list access_t) (blocks : list cset) : result (list cset * list bool) :=
  match trace with
  | [] => Ok (blocks, [])
  | a :: trace =>
      let* '(blocks, hit) := simulate_warmup k None (arnd a) (awrite a) (paddr a) (acore a) blocks in
      let* '(blocks, hits) := warm_run k trace blocks in
      Ok (blocks, hit :: hits)
  end.

(** ** The abstract cache: per set, the blocks by last use *)

Definition use_stack (b : Z) (l : list Z) : list Z := b :: filter (λ x, x ≠ b) l.

Definition stack_at (stacks : list (list Z)) (i : Z) : list Z := default [] (stacks !! Z.to_nat i).

Fixpoint stack_run (k : cfg) (trace : list access_t) (stacks : list (list Z)) : list (list Z) * list bool :=
  match trace with
  | [] => (stacks, [])
  | a :: trace =>
      let b := block_of k a in
      let st := stack_at stacks (set_index k b) in
      let '(stacks, hits) := stack_run k trace (<[Z.to_nat (set_index k b) := use_stack b st]> stacks) in
      (stacks, bool_decide (b ∈ take (Z.to_nat (assoc k)) st) :: hits)
  end.

Lemma take_filter n (b : Z) (l : list Z) : NoDup l →
  take n (filter (λ x, x ≠ b) (take (S n) l)) = take n (filter (λ x, x ≠ b) l).
Proof.
  revert n. induction l as [|x l IH]; intros n; [done|]. intros [Hx Hnd]%list.NoDup_cons.
  change (take (S n) (x :: l)) with (x :: take n l). destruct (decide (x = b)) as [->|Hne].
  - rewrite !filter_cons_False by (by intros []). rewrite !filter_absent; [by rewrite take_take, Nat.min_id|done|].
    intros H. apply Hx. by eapply elem_of_sublist; [|apply sublist_take].
  - rewrite !filter_cons_True by done. destruct n as [|n]; [done|].
    change (take (S n) (?y :: ?z)) with (y :: take n z). f_equal. by apply IH.
Qed.

Lemma lru_use_take n b l : NoDup l → (1 ≤ n)%nat → lru_use n b (take n l) = take n (use_stack b l).
Proof.
  intros Hnd Hn. destruct n as [|n]; [lia|]. unfold lru_use, use_stack.
  rewrite !firstn_cons. f_equal. by apply take_filter.
Qed.

Lemma use_stack_nodup b l : NoDup l → NoDup (use_stack b l).
Proof.
  intros Hnd. apply list.NoDup_cons. split; [|by apply list.NoDup_filter].
  by intros [H _]%list_elem_of_filter.
Qed.

(** ** Refinement *)

Section lru.
Variables (k : cfg).
Hypothesis Hk : cfg_ok k.
Hypothesis Hsets : 1 ≤ sets k.
Hypothesis Hlru : replacement_policy k = REPLACE_LRU.
Hypothesis Hrw : read_only k = false.

(** A set holds the blocks of its stack that were used last. *)
Definition set_rep (s : cset) (st : list Z) : Prop :=
  NoDup st ∧ ∃ xs, set_ok k s xs ∧ unique s xs ∧ tags s xs = take (Z.to_nat (assoc k)) st.

Definition blocks_rep (blocks : list cset) (stacks : list (list Z)) : Prop :=
  Forall2 set_rep blocks stacks ∧ Z.of_nat (length blocks) = sets k.

Lemma set_index_range b : 0 ≤ set_index k b < sets k.
Proof. by apply land_mask_range. Qed.

Lemma warmup_ok a blocks stacks : blocks_rep blocks stacks →
  let b := block_of k a in
  let st := stack_at stacks (set_index k b) in
  wp (simulate_warmup k None (arnd a) (awrite a) (paddr a) (acore a) blocks) (λ '(blocks', hit),
    blocks_rep blocks' (<[Z.to_nat (set_index k b) := use_stack b st]> stacks) ∧
    hit = bool_decide (b ∈ take (Z.to_nat (assoc k)) st)).
Proof.
  intros [Hrep Hlen]. simpl. unfold simulate_warmup. fold (block_of k a).
  set (b := block_of k a). pose proof (set_index_range b) as Hi. set (i := set_index k b) in *.
  destruct (aget_ok blocks i ltac:(lia)) as (s & Es & ->). simpl.
  destruct (Forall2_lookup_l _ _ _ _ _ Hrep Es) as (st & Est & Hnd & xs & Hok & Hu & Et).
  unfold stack_at. rewrite Est. simpl. destruct Hk as (Ha & _).
  apply wp_bind. eapply wp_mono.
  { apply (lru_access k Hk Hlru (arnd a) _ b (acore a) s xs); [by destruct (awrite a)| |done|done].
    rewrite Hrw. apply andb_false_r. }
  intros [s' hit] (xs' & Hok' & Hu' & -> & Et'). apply wp_bind, wp_aset; [lia|]. simpl.
  rewrite Et in *. split; [|done]. split; [|by rewrite length_insert].
  apply Forall2_insert; [done|]. split; [by apply use_stack_nodup|]. exists xs'.
  split; [done|]. split; [done|]. rewrite Et'. apply lru_use_take; [done|lia].
Qed.

Lemma new_set_tags : tags (new_set (assoc k)) (seqZ 0 (assoc k)) = [].
Proof.
  unfold tags, contents. assert (∀ xs, (∀ x, x ∈ xs → 0 ≤ x < assoc k) → xs ≫= held (new_set (assoc k)) = []) as H;
    [|rewrite H; [done|]; intros x; rewrite elem_of_seqZ; lia].
  induction xs as [|x xs IH]; intros Hx; [done|]. rewrite bind_cons, IH by (intros y Hy; by apply Hx, list_elem_of_further).
  specialize (Hx x ltac:(apply list_elem_of_here)). unfold held, blk_at, data_at.
  assert (aget (lines (new_set (assoc k))) x = Ok (new_line (assoc k) x)) as ->; [|done].
  unfold aget. rewrite (proj2 (Z.ltb_ge x 0)) by lia. simpl.
  by rewrite list_lookup_fmap, lookup_seqZ_lt, Z2Nat.id by lia.
Qed.

Lemma new_blocks_rep : blocks_rep (new_blocks k) (replicate (Z.to_nat (sets k)) []).
Proof.
  split; [|unfold new_blocks; rewrite length_replicate; lia].
  apply Forall2_replicate. split; [apply NoDup_nil_2|]. exists (seqZ 0 (assoc k)).
  split; [by apply new_set_ok|]. unfold unique. rewrite new_set_tags, take_nil. split; [apply NoDup_nil_2|done].
Qed.

Lemma warm_run_ok trace blocks stacks : blocks_rep blocks stacks →
  wp (warm_run k trace blocks) (λ '(blocks', hits),
    blocks_rep blocks' (stack_run k trace stacks).1 ∧ hits = (stack_run k trace stacks).2).
Proof.
  revert blocks stacks. induction trace as [|a trace IH]; intros blocks stacks Hrep; [done|].
  simpl. apply wp_bind. eapply wp_mono; [by apply warmup_ok|]. intros [blocks1 hit] [Hrep1 ->].
  apply wp_bind. eapply wp_mono; [by apply IH|]. intros [blocks2 hits] [Hrep2 ->].
  simpl. by destruct (stack_run _ _ _).
Qed.
End lru.

(** ** More ways *)

Lemma stack_run_independent k1 k2 trace stacks : sets k1 = sets k2 → addr_shift k1 = addr_shift k2 →
  (stack_run k1 trace stacks).1 = (stack_run k2 trace stacks).1.
Proof.
  intros Hs Ha. revert stacks. induction trace as [|a trace IH]; intros stacks; [done|]. simpl.
  assert (block_of k1 a = block_of k2 a) as <- by (unfold block_of; by rewrite Ha).
  assert (set_index k1 (block_of k1 a) = set_index k2 (block_of k1 a)) as <- by (unfold set_index; by rewrite Hs).
  set (st := <[_ := _]> stacks). specialize (IH st). by destruct (stack_run k1 _ _), (stack_run k2 _ _).
Qed.

Lemma stack_run_hits k1 k2 trace stacks : sets k1 = sets k2 → addr_shift k1 = addr_shift k2 →
  assoc k1 ≤ assoc k2 →
  Forall2 (λ h1 h2, h1 = true → h2 = true) (stack_run k1 trace stacks).2 (stack_run k2 trace stacks).2.
Proof.
  intros Hs Ha Hle. revert stacks. induction trace as [|a trace IH]; intros stacks; [constructor|]. simpl.
  assert (block_of k1 a = block_of k2 a) as <- by (unfold block_of; by rewrite Ha).
  assert (set_index k1 (block_of k1 a) = set_index k2 (block_of k1 a)) as <- by (unfold set_index; by rewrite Hs).
  set (st := <[_ := _]> stacks). specialize (IH st). destruct (stack_run k1 _ _), (stack_run k2 _ _).
  simpl in *. constructor; [|done]. rewrite !bool_decide_eq_true. intros H.
  rewrite <- (Nat.min_l (Z.to_nat (assoc k1)) (Z.to_nat (assoc k2))), <- take_take in H by lia.
  by eapply elem_of_sublist; [|apply sublist_take].
Qed.

(** ** Claims *)

(** C28. The cache warm-up refines the stacks of last uses: on an LRU cache that may
    be written, a stream of accesses from the new cache runs without a fault, hits
    exactly when the block is among the [assoc] blocks of its set used last, and
    leaves in every set those blocks, most recent first. *)
Theorem warmup_refines_lru_stacks k trace :
  cfg_ok k → 1 ≤ sets k → replacement_policy k = REPLACE_LRU → read_only k = false →
  let stacks := stack_run k trace (replicate (Z.to_nat (sets k)) []) in
  wp (warm_run k trace (new_blocks k)) (λ '(blocks, hits),
    hits = stacks.2 ∧
    Forall2 (λ s st, ∃ xs, set_ok k s xs ∧ tags s xs = take (Z.to_nat (assoc k)) st) blocks stacks.1).
Proof.
  intros Hk Hsets Hlru Hrw stacks. eapply wp_mono.
  { apply (warm_run_ok k Hk Hsets Hlru Hrw trace _ (replicate (Z.to_nat (sets k)) [])). by apply new_blocks_rep. }
  intros [blocks hits] [[Hrep _] ->]. split; [done|]. eapply Forall2_impl; [|exact Hrep].
  intros s st (_ & xs & Hok & _ & Et). eauto.
Qed.

Definition kdemo (n : Z) : cfg := mk_cfg 2 n 0 6 REPLACE_LRU WRITE_BACK false.
Definition demo_trace : list access_t :=
  (λ x, mk_access 7 (Z.odd x) (Z.shiftl x 6) 0) <$> [1; 2; 3; 5; 1; 4; 7; 3; 1; 2].

Lemma warmup_refines_lru_stacks_witness :
  rmap snd (warm_run (kdemo 2) demo_trace (new_blocks (kdemo 2))) =
    Ok [false; false; false; false; false; false; false; false; false; true] ∧
  wp (warm_run (kdemo 2) demo_trace (new_blocks (kdemo 2))) (λ '(blocks, hits),
    hits = (stack_run (kdemo 2) demo_trace (replicate (Z.to_nat (sets (kdemo 2))) [])).2 ∧
    Forall2 (λ s st, ∃ xs, set_ok (kdemo 2) s xs ∧ tags s xs = take (Z.to_nat (assoc (kdemo 2))) st) blocks
      (stack_run (kdemo 2) demo_trace (replicate (Z.to_nat (sets (kdemo 2))) [])).1).
Proof.
  split; [vm_compute; reflexivity|].
  apply (warmup_refines_lru_stacks (kdemo 2) demo_trace);
    [unfold cfg_ok; simpl; repeat split; intros; try discriminate; lia|simpl; lia|reflexivity|reflexivity].
Defined.

(** C29. The inclusion property of LRU: when two LRU caches have the same sets and
    the same block size, whatever the stream of accesses (and whatever the random
    numbers drawn), the one with more ways hits at every access at which the other
    hits. *)
Theorem lru_more_ways_keep_hits k1 k2 trace :
  cfg_ok k1 → cfg_ok k2 → 1 ≤ sets k1 → sets k1 = sets k2 → addr_shift k1 = addr_shift k2 →
  assoc k1 ≤ assoc k2 →
  replacement_policy k1 = REPLACE_LRU → replacement_policy k2 = REPLACE_LRU →
  read_only k1 = false → read_only k2 = false →
  ∃ blocks1 hits1 blocks2 hits2,
    warm_run k1 trace (new_blocks k1) = Ok (blocks1, hits1) ∧
    warm_run k2 trace (new_blocks k2) = Ok (blocks2, hits2) ∧
    Forall2 (λ h1 h2, h1 = true → h2 = true) hits1 hits2.
Proof.
  intros Hk1 Hk2 Hs Es Ea Hle Hl1 Hl2 Hr1 Hr2.
  pose proof (warm_run_ok k1 Hk1 Hs Hl1 Hr1 trace _ _ (new_blocks_rep k1 Hk1 Hs)) as H1.
  pose proof (warm_run_ok k2 Hk2 ltac:(lia) Hl2 Hr2 trace _ _ (new_blocks_rep k2 Hk2 ltac:(lia))) as H2.
  apply wp_exists in H1 as ([blocks1 hits1] & E1 & _ & ->).
  apply wp_exists in H2 as ([blocks2 hits2] & E2 & _ & ->).
  do 4 eexists. split; [exact E1|]. split; [exact E2|]. rewrite Es. by apply stack_run_hits.
Qed.

Lemma lru_more_ways_keep_hits_witness :
  rmap snd (warm_run (kdemo 3) demo_trace (new_blocks (kdemo 3))) =
    Ok [false; false; false; false; true; false; false; false; true; true] ∧
  ∃ blocks1 hits1 blocks2 hits2,
    warm_run (kdemo 2) demo_trace (new_blocks (kdemo 2)) = Ok (blocks1, hits1) ∧
    warm_run (kdemo 3) demo_trace (new_blocks (kdemo 3)) = Ok (blocks2, hits2) ∧
    Forall2 (λ h1 h2, h1 = true → h2 = true) hits1 hits2.
Proof.
  split; [vm_compute; reflexivity|].
  apply (lru_more_ways_keep_hits (kdemo 2) (kdemo 3) demo_trace);
    try reflexivity; try (simpl; lia); unfold cfg_ok; simpl; repeat split; intros; try discriminate; lia.
Defined.

End cache_warm.

Module cache_safety.
Import cache_set cache_repl cache_policy.

#[local] Arguments Z.testbit : simpl never.

(** What the cache pipeline asks of a set: a lookup, a fill (with the answer of the
    MSHRs and the value of [random()]), a peek. *)
Inductive op : Type :=
  | Lookup (cmd : cache_command) (block : Z)
  | Fill (wb_available : Z → bool) (rnd : Z) (cmd : cache_command) (block c : Z)
  | Peek (block : Z).

Definition step (k : cfg) (o : op) (s : cset) : result cset :=
  match o with
  | Lookup cmd block => let* '(s, _) := is_hit k None cmd block s in Ok s
  | Fill wb rnd cmd block c => let* '(s, _) := fill_block k wb rnd cmd block c s in Ok s
  | Peek block => let* _ := peek block s in Ok s
  end.

Fixpoint run (k : cfg) (ops : list op) (s : cset) : result cset :=
  match ops with
  | [] => Ok s
  | o :: ops => let* s := step k o s in run k ops s
  end.

(** A read-only cache is asked for no write. *)
Definition op_ok (k : cfg) (o : op) : Prop :=
  match o with Lookup cmd _ => is_write cmd && read_only k = false | _ => True end.

Definition good (k : cfg) (s : cset) : Prop := ∃ xs, set_ok k s xs ∧ unique s xs.

Lemma step_ok k o s : cfg_ok k → op_ok k o → good k s → wp (step k o s) (good k).
Proof.
  intros Hk Ho (xs & Hok & Hu). destruct o as [cmd block|wb rnd cmd block c|block]; simpl.
  - apply wp_bind. eapply wp_mono; [by apply (is_hit_ok k cmd block s xs)|].
    intros [s' h] [(-> & -> & _)|(l & p & r & -> & -> & [Hp _] & Hok' & Hupd)]; [by exists xs|].
    simpl. exists (used_order k cmd l p r). split; [done|].
    destruct (contents_hit k cmd s _ s' l p r block eq_refl Hok Hp Hok' Hupd) as (b & _ & E & E' & _).
    unfold unique, tags in *. rewrite used_order_perm, E'. rewrite E in Hu.
    rewrite fmap_app, fmap_cons in *. assert (tag (hit_block k cmd b) = tag b) as ->; [|done].
    unfold hit_block. by case_match.
  - apply wp_bind. eapply wp_mono; [by apply (fill_block_ok k Hk wb rnd cmd block c s xs)|].
    intros [s' out] (xs' & Hok' & Hu' & _). by exists xs'.
  - apply wp_bind. eapply wp_mono; [apply (peek_ok _ _ xs), Hok|]. intros h _. by exists xs.
Qed.

Lemma new_set_good k : cfg_ok k → good k (new_set (assoc k)).
Proof.
  intros Hk. exists (seqZ 0 (assoc k)). split; [by apply new_set_ok|].
  unfold unique. assert (tags (new_set (assoc k)) (seqZ 0 (assoc k)) = []) as ->; [|apply NoDup_nil_2].
  destruct (tags _ _) as [|t ts] eqn:E; [done|exfalso].
  assert (t ∈ tags (new_set (assoc k)) (seqZ 0 (assoc k))) as Ht by (rewrite E; apply list_elem_of_here).
  apply tags_elem in Ht as (x & Hx & [Hv _]%andb_true_iff). revert Hv. unfold blk_at, data_at.
  destruct (aget _ _) as [l|] eqn:El; [|done]. apply aget_inv in El as [_ El].
  apply list_elem_of_lookup_2, list_elem_of_fmap in El as (j & -> & _). done.
Qed.

Lemma ops_good k ops : cfg_ok k → Forall (op_ok k) ops → wp (run k ops (new_set (assoc k))) (good k).
Proof.
  intros Hk Hops. pose proof (new_set_good k Hk) as Hg. revert Hg.
  generalize (new_set (assoc k)). induction Hops as [|o ops Ho _ IH]; intros s Hg; [done|].
  simpl. apply wp_bind. eapply wp_mono; [by apply step_ok|]. auto.
Qed.

(** C26. In the configurations of [cfg_ok] (any policy; at least two ways for NMRU, a
    power of two up to 32 ways for PLRU, between 2 and 64 ways for the clock, fewer
    than 2^31 ways for all), and when a read-only cache is asked for no write,
    lookups, fills and peeks in any order from the new set run without a fault (no
    null victim, no walk off the list, no clock that turns for ever); the recency
    list keeps every way exactly once and no block is ever twice in the set.  The
    bound on NMRU is needed: with one way its victim is null
    ([nmru_direct_mapped_null]). *)
Theorem set_operations_safe k ops : cfg_ok k → Forall (op_ok k) ops →
  wp (run k ops (new_set (assoc k))) (λ s, ∃ xs, set_ok k s xs ∧ unique s xs).
Proof. apply ops_good. Qed.

Definition kclock : cfg := mk_cfg 1 4 2 6 REPLACE_CLOCK WRITE_BACK false.
Definition demo_ops : list op :=
  [Fill (λ _, true) 5 CACHE_READ 3 0; Lookup CACHE_READ 3; Fill (λ _, true) 5 CACHE_WRITE 4 0; Peek 4;
   Fill (λ _, true) 5 CACHE_READ 5 0; Fill (λ _, true) 5 CACHE_READ 6 0; Lookup CACHE_WRITE 4;
   Fill (λ _, true) 5 CACHE_PREFETCH 7 0; Fill (λ _, false) 5 CACHE_PREFETCH 8 0].

Lemma set_operations_safe_witness :
  rmap (λ s, tag <$> lines s) (run kclock demo_ops (new_set 4)) = Ok [3; 4; 7; 8] ∧
  wp (run kclock demo_ops (new_set (assoc kclock))) (λ s, ∃ xs, set_ok kclock s xs ∧ unique s xs).
Proof.
  split; [vm_compute; reflexivity|]. apply (set_operations_safe kclock demo_ops).
  - unfold cfg_ok; simpl; repeat split; intros; try discriminate; lia.
  - repeat constructor.
Defined.

(** ** What a fill does *)

(** C27. In the configurations of [cfg_ok] (those of [set_operations_safe]) a fill loses
    nothing but the victim: in a set where no block is twice, either
    the block was there already and the set is unchanged; or a dirty victim cannot
    be written back and the blocks are unchanged; or the block has come in, the only
    block that has gone is the victim (and none when the victim's line was free),
    under every policy but the clock no valid block goes while the set has room, and
    a dirty victim of a write-back cache goes only when it can be written back. *)
Theorem fill_conserves_blocks k wb rnd cmd block c s xs :
  cfg_ok k → set_ok k s xs → unique s xs →
  wp (fill_block k wb rnd cmd block c s) (λ '(s', o), ∃ xs',
    set_ok k s' xs' ∧ unique s' xs' ∧ fill_spec k wb cmd block c s xs s' xs' o).
Proof. intros Hk. by apply fill_block_ok. Qed.

Definition kdemo : cfg := mk_cfg 1 2 1 6 REPLACE_LRU WRITE_BACK false.

Lemma kdemo_ok : cfg_ok kdemo.
Proof. unfold cfg_ok; simpl; repeat split; intros; try discriminate; lia. Defined.

Lemma fill_conserves_blocks_witness :
  wp (fill_block kdemo (λ _, true) 5 CACHE_WRITE 3 0 (new_set 2)) (λ '(s', o), ∃ xs',
    set_ok kdemo s' xs' ∧ unique s' xs' ∧
    fill_spec kdemo (λ _, true) CACHE_WRITE 3 0 (new_set 2) (seqZ 0 2) s' xs' o).
Proof.
  apply (fill_conserves_blocks kdemo (λ _, true) 5 CACHE_WRITE 3 0 (new_set 2) (seqZ 0 2) kdemo_ok).
  - apply (new_set_ok kdemo kdemo_ok).
  - apply NoDup_nil_2.
Defined.

(** C30. In the configurations of [cfg_ok] (at least two ways for NMRU, a power of two
    up to 32 ways for PLRU, between 2 and 64 ways for the clock, fewer than 2^31
    ways for all) the search for a victim finds one, changes no block, and the
    victim is the one the policy means.  All policies but the clock leave the set as
    it is and take the first free line of the recency list; in a full set LRU and
    MRU take the end of the list, RANDOM the line at position [random() % assoc], NMRU the
    line at position [1 + random() % (assoc - 1)], never the first, and PLRU the line of the
    way from which the bit of the tree points away at every node of its path.  The
    clock passes, from its hand on, the lines that are valid and referenced and
    clears their bits, and that of the line it stops at, and no others; it stops at
    the first line that is free or not referenced, or back at the hand after a full turn, and leaves its hand on the
    next way.  NMRU with one way is left out because it has no victim
    ([nmru_direct_mapped_null]). *)
Theorem victim_follows_policy k rnd s xs : cfg_ok k → set_ok k s xs →
  wp (get_evictee k rnd s) (λ '(s', p), ∃ v, p = Some v ∧ v ∈ xs ∧
    set_ok k s' xs ∧ same_blocks s s' ∧ evictee_ok k rnd s s' xs v).
Proof. apply get_evictee_ok. Qed.

(** A full set of four ways, under each of the policies; the clock passes two referenced ways. *)
Definition kpol (p : repl_policy_t) : cfg := mk_cfg 1 4 2 6 p WRITE_BACK false.
Definition policies : list repl_policy_t :=
  [REPLACE_RANDOM; REPLACE_LRU; REPLACE_MRU; REPLACE_NMRU; REPLACE_PLRU; REPLACE_CLOCK].
Definition full_ops : list op :=
  [Fill (λ _, true) 5 CACHE_READ 3 0; Fill (λ _, true) 5 CACHE_READ 4 0; Fill (λ _, true) 5 CACHE_READ 5 0;
   Fill (λ _, true) 5 CACHE_READ 6 0; Fill (λ _, true) 5 CACHE_READ 7 0; Lookup CACHE_READ 4; Lookup CACHE_READ 5].

Lemma victim_follows_policy_witness :
  ((λ p, rmap snd (let* s := run (kpol p) full_ops (new_set 4) in get_evictee (kpol p) 6 s)) <$> policies) =
    (λ v, Ok (Some v)) <$> [3; 3; 2; 1; 1; 3] ∧
  Forall (λ p, wp (run (kpol p) full_ops (new_set 4)) (λ s, ∃ xs, wp (get_evictee (kpol p) 6 s)
    (λ '(s', q), ∃ v, q = Some v ∧ v ∈ xs ∧ set_ok (kpol p) s' xs ∧ same_blocks s s' ∧
      evictee_ok (kpol p) 6 s s' xs v))) policies.
Proof.
  split; [vm_compute; reflexivity|].
  assert (∀ p, cfg_ok (kpol p)) as Hk by (intros p; unfold cfg_ok; simpl; repeat split; intros; lia).
  apply Forall_forall. intros p _. eapply wp_mono; [apply (ops_good (kpol p) full_ops (Hk p)); repeat constructor|].
  intros s (xs & Hok & _). exists xs. exact (victim_follows_policy (kpol p) 6 s xs (Hk p) Hok).
Defined.

(** ** The tree *)

Lemma plru_step_bit1 k w i bm : 0 ≤ w → 1 ≤ i < k → k ≤ 5 →
  Z.testbit (plru_step k w i bm) 1 = Z.testbit bm 1.
Proof.
  intros Hw Hi Hk. unfold plru_step.
  rewrite (i32_small (Z.shiftl 1 i)) by (rewrite shiftl_1_l by lia; split;
    [pose proof (Z.pow_pos_nonneg 2 i); lia|apply Z.pow_lt_mono_r; lia]).
  rewrite (shiftl_1_l i) by lia.
  assert (2 ≤ 2 ^ i) by (change 2 with (2 ^ 1) at 1; apply Z.pow_le_mono_r; lia).
  assert (0 ≤ Z.shiftr w (k - i)) by (apply Z.shiftr_nonneg; lia).
  set (pos := Z.shiftr w (k - i) + 2 ^ i). assert (2 ≤ pos) by (unfold pos; lia).
  assert (Z.testbit (i32 (Z.shiftl 1 pos)) 1 = false) as Hb.
  { rewrite shiftl_1_l by lia. rewrite <- (Z.mod_pow2_bits_low _ 32) by lia.
    unfold i32. rewrite wrap_s_mod, Z.mod_pow2_bits_low by lia. rewrite testbit_pow2 by lia.
    apply Z.eqb_neq. lia. }
  case_match; [by rewrite Z.lor_spec, Hb, orb_false_r|].
  by rewrite Z.land_spec, Z.lnot_spec, Hb, andb_true_r by lia.
Qed.

Lemma plru_step_top k w bm : 1 ≤ k ≤ 5 → 0 ≤ w < 2 ^ k →
  Z.testbit (plru_step k w 0 bm) 1 = Z.testbit w (k - 1).
Proof.
  intros Hk Hw. unfold plru_step. rewrite Z.sub_0_r.
  rewrite (Z.shiftr_div_pow2 w k), Z.div_small by lia. change (0 + i32 (Z.shiftl 1 0)) with 1.
  change (i32 (Z.shiftl 1 1)) with 2.
  rewrite (land_pow2_mask _ 1) by lia. change (2 ^ 1) with 2. rewrite <- Z.bit0_mod, Z.shiftr_spec by lia.
  rewrite Z.add_0_l. destruct (Z.testbit w (k - 1)); simpl.
  - rewrite Z.lor_spec. apply orb_true_r.
  - rewrite Z.land_spec. apply andb_false_r.
Qed.

Lemma plru_touch_top k w bm : 1 ≤ k ≤ 5 → 0 ≤ w < 2 ^ k →
  Z.testbit (plru_touch k w bm) 1 = Z.testbit w (k - 1).
Proof.
  intros Hk Hw. unfold plru_touch. rewrite seqZ_cons by lia. simpl.
  rewrite <- (plru_step_top k w bm) by done. generalize (plru_step k w 0 bm).
  assert (∀ xs bm', (∀ i, i ∈ xs → 1 ≤ i < k) →
    Z.testbit (foldl (λ bm i, plru_step k w i bm) bm' xs) 1 = Z.testbit bm' 1) as H.
  { induction xs as [|i xs IH]; intros bm' Hxs; [done|]. simpl.
    rewrite IH by (intros j Hj; by apply Hxs, list_elem_of_further).
    apply plru_step_bit1; [lia|apply Hxs, list_elem_of_here|lia]. }
  intros bm'. apply H. intros i Hi%elem_of_seqZ. lia.
Qed.

Lemma plru_victim_top k bm : 1 ≤ k ≤ 5 → Z.testbit (plru_victim k bm) (k - 1) = negb (Z.testbit bm 1).
Proof.
  intros Hk. unfold plru_victim. rewrite Z.land_spec, Z.lnot_spec by lia.
  rewrite i32_small by (rewrite shiftl_1_l by lia; split;
    [pose proof (Z.pow_pos_nonneg 2 k); lia|apply Z.pow_lt_mono_r; lia]).
  rewrite shiftl_1_l, testbit_pow2 by lia. rewrite (proj2 (Z.eqb_neq (k - 1) k)), andb_true_r by lia.
  rewrite seqZ_cons by lia. simpl foldl.
  set (f := λ node (_ : Z), Z.shiftl node 1 + (if Z.land (Z.shiftr bm node) 1 =? 0 then 1 else 0)).
  change (Z.shiftl 1 1) with 2. set (n1 := 2 + _).
  assert (foldl f n1 (seqZ (Z.succ 0) (Z.pred k)) / 2 ^ (k - 1) = n1) as Hd.
  { rewrite <- (plru_descent f (seqZ (Z.succ 0) (Z.pred k)) n1) at 2.
    - f_equal. f_equal. rewrite length_seqZ. lia.
    - intros n i. unfold f. rewrite Z.shiftl_mul_pow2 by lia. change (2 ^ 1) with 2. case_match; lia. }
  rewrite <- (Z.add_0_l (k - 1)), <- Z.shiftr_spec, Z.shiftr_div_pow2, Hd by lia.
  unfold n1. rewrite (land_pow2_mask _ 1) by lia. change (2 ^ 1) with 2. rewrite <- Z.bit0_mod, Z.shiftr_spec by lia.
  rewrite Z.add_0_l. by destruct (Z.testbit bm 1).
Qed.

(** The tree of the pseudo-LRU points away from the way that was used last:
    whatever the bits were, after a use of way [w] the way that the bits name as the
    victim is another one. *)
Theorem plru_tree_spares_last_use k w bm : 1 ≤ k ≤ 5 → 0 ≤ w < 2 ^ k →
  0 ≤ plru_victim k (plru_touch k w bm) < 2 ^ k ∧ plru_victim k (plru_touch k w bm) ≠ w.
Proof.
  intros Hk Hw. split; [apply plru_victim_range; lia|]. intros E.
  pose proof (plru_victim_top k (plru_touch k w bm) Hk) as H.
  rewrite E, plru_touch_top in H by done. by destruct (Z.testbit w (k - 1)).
Qed.

Lemma plru_tree_spares_last_use_witness :
  plru_victim 3 (plru_touch 3 5 0) = 3 ∧
  0 ≤ plru_victim 3 (plru_touch 3 5 0) < 2 ^ 3 ∧ plru_victim 3 (plru_touch 3 5 0) ≠ 5.
Proof. split; [reflexivity|]. apply (plru_tree_spares_last_use 3 5 0); lia. Defined.

(** ** Where the policies fail *)

Definition kplru : cfg := mk_cfg 1 2 1 6 REPLACE_PLRU WRITE_BACK false.

(** The bits of the tree are kept with whatever line is first in the recency
    list, and every use changes that line: in a two-way PLRU set the victim after two
    insertions is the block inserted last. *)
Theorem plru_evicts_most_recent a b c rnd : a ≠ b →
  wp (let* s := run kplru [Fill (λ _, true) rnd CACHE_READ a c; Fill (λ _, true) rnd CACHE_READ b c] (new_set 2) in
      let* '(s, p) := get_evictee kplru rnd s in
      let* p := deref p in aget (lines s) p) (λ l, valid l = true ∧ tag l = b).
Proof.
  intros Hab. unfold run, step, fill_block. simpl. unfold peek, scan_set, holds. simpl.
  rewrite (proj2 (Z.eqb_neq a b)) by done. vm_compute. done.
Qed.

Lemma plru_evicts_most_recent_witness :
  wp (let* s := run kplru [Fill (λ _, true) 5 CACHE_READ 3 0; Fill (λ _, true) 5 CACHE_READ 4 0] (new_set 2) in
      let* '(s, p) := get_evictee kplru 5 s in
      let* p := deref p in aget (lines s) p) (λ l, valid l = true ∧ tag l = 4).
Proof. apply (plru_evicts_most_recent 3 4 0 5). lia. Defined.

(** C40. NMRU with one way has no victim in a full set: the second block to come in
    dereferences a null pointer. *)
Theorem nmru_direct_mapped_null k a b c rnd wb : assoc k = 1 → replacement_policy k = REPLACE_NMRU → a ≠ b →
  run k [Fill wb rnd CACHE_READ a c; Fill wb rnd CACHE_READ b c] (new_set 1) = Fault NullDeref.
Proof.
  intros Ha Hp Hab. unfold run, step, fill_block, get_evictee, overwrite, insert_block, promote.
  rewrite Hp, Ha. simpl. unfold peek, scan_set, holds. simpl.
  rewrite (proj2 (Z.eqb_neq a b)) by done. reflexivity.
Qed.

Lemma nmru_direct_mapped_null_witness :
  run (mk_cfg 4 1 0 6 REPLACE_NMRU WRITE_BACK false)
    [Fill (λ _, true) 5 CACHE_READ 3 0; Fill (λ _, true) 5 CACHE_READ 7 0] (new_set 1) = Fault NullDeref.
Proof. apply nmru_direct_mapped_null; [reflexivity|reflexivity|lia]. Defined.

End cache_safety.
