(* ===== verification/CacheHeap.v ===== *)
(** * CacheHeap: the event heaps of a cache bank

    The access pipe and the fill pipe of a bank of src/xiosim/zesto-cache.cpp are
    binary heaps on the cycle at which an entry leaves, in an array whose slot 0 is
    not used.  The two copies of the code (cache_heap and fill_heap) are the
    same; they are one definition here, over the interface [HeapNode] of what they
    need of an entry, and CacheMSHR gives the two instances.

    The abstract queue is the multiset of the entries ([entries n l]): an insertion
    adds one, a removal takes one with the least exit time. *)

From S2P Require Import Prelude.

(** Source: src/xiosim/host.h:13-14 TICK_T_MAX.
    The largest [tick_t], an [int64_t]. *)
Definition TICK_T_MAX : Z := 2 ^ 63 - 1.

(** What the heaps need of an entry: when it leaves, whether it is in use, and how a
    slot is freed. *)
Class HeapNode (A : Type) : Type := {
  exit_time : A → Z;
  live : A → bool;
  erase : A → A;
  erase_time a : exit_time (erase a) = TICK_T_MAX;
  erase_live a : live (erase a) = false
}.

Module cache_heap.

#[local] Ltac Zify.zify_post_hook ::= Z.to_euclidean_division_equations.

Section heap.
Context {A : Type} `{HeapNode A}.
Implicit Types (l : list A) (x y : A).

(** [memswap(&pipe[i],&pipe[j],sizeof( *pipe))] *)
Definition swap (l : list A) (i j : Z) : result (list A) :=
  let* x := aget l i in
  let* y := aget l j in
  let* l := aset l i y in
  aset l j x.

(** Source: src/xiosim/zesto-cache.cpp:1249-1271 cache_heap_balance.
    The fuel bounds the steps up; the position halves with each. *)
Fixpoint balance_at (fuel : nat) (l : list A) (pos : Z) : result (list A) :=
  match fuel with
  | O => Fault Diverge
  | S fuel =>
      if 1 <? pos then
        let parent := Z.shiftr pos 1 in
        let* p := aget l parent in
        let* c := aget l pos in
        if exit_time c <? exit_time p then
          let* l := swap l parent pos in balance_at fuel l parent
        else Ok l
      else Ok l
  end.

Definition heap_balance (l : list A) (insert_position : Z) : result (list A) :=
  balance_at (S (Z.to_nat insert_position)) l insert_position.

(** Source: src/xiosim/zesto-cache.cpp:1293-1338 cache_heap_remove.
    The way down, with [pipe_num - 1] entries left. *)
Fixpoint sink_at (fuel : nat) (l : list A) (pipe_num pos : Z) : result (list A) :=
  match fuel with
  | O => Fault Diverge
  | S fuel =>
      let Lindex := Z.shiftl pos 1 in
      let Rindex := Z.shiftl pos 1 + 1 in
      let* me := aget l pos in
      let myValue := exit_time me in
      let* Lvalue := if Lindex <? pipe_num then rmap exit_time (aget l Lindex) else Ok TICK_T_MAX in
      let* Rvalue := if Rindex <? pipe_num then rmap exit_time (aget l Rindex) else Ok TICK_T_MAX in
      if ((Lvalue <? myValue) && negb (Lvalue =? TICK_T_MAX)) ||
         ((Rvalue <? myValue) && negb (Rvalue =? TICK_T_MAX))
      then
        if Rvalue =? TICK_T_MAX then swap l Lindex pos
        else if (Lvalue <? myValue) && (Lvalue <? Rvalue) then
          let* l := swap l Lindex pos in sink_at fuel l pipe_num Lindex
        else
          let* l := swap l Rindex pos in sink_at fuel l pipe_num Rindex
      else Ok l
  end.

(** Source: src/xiosim/zesto-cache.cpp:1275-1339 cache_heap_remove. *)
Definition heap_remove (l : list A) (pipe_num : Z) : result (list A) :=
  if pipe_num =? 1 then amodify l 1 erase
  else
    let* last := aget l pipe_num in
    let* l := aset l 1 last in
    let* l := amodify l pipe_num erase in
    sink_at (Z.to_nat pipe_num) l pipe_num 1.

(** The entries in the first [n] slots. *)
Definition entries (n : Z) (l : list A) : list A := omap (λ i, l !! Z.to_nat i) (seqZ 1 n).

(** The time of a slot; no entry leaves before the one above it. *)
Definition key (l : list A) (i : Z) : Z := match aget l i with Ok x => exit_time x | Fault _ => 0 end.

Definition ordered (n : Z) (l : list A) : Prop := ∀ i, 2 ≤ i ≤ n → key l (i / 2) ≤ key l i.

(** The entries up to [n] are in use with a time that has been set; the slots after
    them are free. *)
Definition in_use (x : A) : Prop := live x = true ∧ exit_time x < TICK_T_MAX.

Record heap_ok (n : Z) (l : list A) : Prop := {
  heap_len : 0 ≤ n < Z.of_nat (length l);
  heap_used : Forall in_use (entries n l);
  heap_free : ∀ i x, n < i → aget l i = Ok x → live x = false;
  heap_ordered : ordered n l
}.

(** ** Exchanges *)

Lemma aget_insert l i j x : 0 ≤ i < Z.of_nat (length l) →
  aget (<[Z.to_nat i := x]> l) j = if j =? i then Ok x else aget l j.
Proof.
  intros Hi. unfold aget. destruct (Z.ltb_spec j 0); [by rewrite (proj2 (Z.eqb_neq _ _)) by lia|].
  destruct (Z.eqb_spec j i) as [->|Hne].
  - by rewrite list_lookup_insert_eq by lia.
  - by rewrite list_lookup_insert_ne by lia.
Qed.

Definition exch (i j k : Z) : Z := if k =? i then j else if k =? j then i else k.

Lemma swap_ok l i j : 0 ≤ i < Z.of_nat (length l) → 0 ≤ j < Z.of_nat (length l) →
  wp (swap l i j) (λ l', length l' = length l ∧ ∀ k, aget l' k = aget l (exch i j k)).
Proof.
  intros Hi Hj. unfold swap, exch.
  destruct (aget_ok l i Hi) as (x & _ & Ex), (aget_ok l j Hj) as (y & _ & Ey).
  rewrite Ex, Ey. simpl. rewrite aset_ok by done. simpl. rewrite aset_ok by (by rewrite length_insert).
  simpl. split; [by rewrite !length_insert|]. intros k.
  rewrite !aget_insert by (by rewrite ?length_insert).
  destruct (Z.eqb_spec k j), (Z.eqb_spec k i); subst; congruence.
Qed.

Lemma exch_range i j k n : 1 ≤ i ≤ n → 1 ≤ j ≤ n → 1 ≤ k ≤ n → 1 ≤ exch i j k ≤ n.
Proof. intros. unfold exch. repeat case_match; lia. Qed.

Lemma exch_exch i j k : exch i j (exch i j k) = k.
Proof.
  unfold exch. destruct (Z.eqb_spec k i) as [->|Hi].
  - destruct (Z.eqb_spec j i) as [->|]; [done|]. by rewrite Z.eqb_refl.
  - destruct (Z.eqb_spec k j) as [->|Hj]; [by rewrite Z.eqb_refl|].
    by rewrite !(proj2 (Z.eqb_neq _ _)).
Qed.

(** An exchange of two entries keeps the multiset. *)
Lemma entries_exch n l l' i j : 1 ≤ i ≤ n → 1 ≤ j ≤ n → length l' = length l →
  (∀ k, aget l' k = aget l (exch i j k)) → entries n l' ≡ₚ entries n l.
Proof.
  intros Hi Hj Hl Hg. unfold entries.
  assert (∀ k, 1 ≤ k ≤ n → l' !! Z.to_nat k = l !! Z.to_nat (exch i j k)) as Hk.
  { intros k Hk. pose proof (exch_range i j k n Hi Hj Hk). specialize (Hg k). unfold aget in Hg.
    rewrite !(proj2 (Z.ltb_ge _ 0)) in Hg by lia. destruct (l' !! _), (l !! _); simpl in Hg; congruence. }
  assert (seqZ 1 n ≡ₚ exch i j <$> seqZ 1 n) as Hp.
  { apply NoDup_Permutation; [apply NoDup_seqZ| |].
    - apply NoDup_fmap_2_strong; [|apply NoDup_seqZ]. intros a b _ _ E.
      by rewrite <- (exch_exch i j a), E, exch_exch.
    - intros k. rewrite list_elem_of_fmap. setoid_rewrite elem_of_seqZ. split.
      + intros Hk'. exists (exch i j k). rewrite exch_exch. split; [done|].
        pose proof (exch_range i j k n). lia.
      + intros (k' & -> & Hk'). pose proof (exch_range i j k' n). lia. }
  rewrite Hp at 2. apply reflexive_eq, list_omap_ext.
  apply Forall2_fmap_r, Forall_Forall2_diag, list.Forall_forall. intros k Hin%elem_of_seqZ. apply Hk. lia.
Qed.

(** [l'] has the entries of [l] in other slots up to [n]. *)
Definition shuffled (n : Z) (l l' : list A) : Prop :=
  length l' = length l ∧ entries n l' ≡ₚ entries n l ∧ ∀ k, n < k → aget l' k = aget l k.

#[local] Instance shuffled_preorder n : PreOrder (shuffled n).
Proof.
  split; [done|]. intros l1 l2 l3 (L1 & P1 & G1) (L2 & P2 & G2).
  split; [congruence|]. split; [by rewrite P2|]. intros k Hk. by rewrite G2, G1.
Qed.

Lemma swap_shuffled n l i j : 1 ≤ i ≤ n → 1 ≤ j ≤ n → n < Z.of_nat (length l) →
  wp (swap l i j) (λ l', shuffled n l l' ∧ ∀ k, key l' k = key l (exch i j k)).
Proof.
  intros Hi Hj Hn. eapply wp_mono; [apply swap_ok; lia|]. intros l' [Hl Hg]. split.
  - split; [done|]. split; [by apply (entries_exch n l l' i j)|]. intros k Hk. rewrite Hg. unfold exch.
    by rewrite (proj2 (Z.eqb_neq k i)), (proj2 (Z.eqb_neq k j)) by lia.
  - intros k. unfold key. by rewrite Hg.
Qed.

Lemma key_ok l i : 0 ≤ i < Z.of_nat (length l) → ∃ x, aget l i = Ok x ∧ exit_time x = key l i.
Proof. intros Hi. destruct (aget_ok l i Hi) as (x & _ & E). exists x. unfold key. by rewrite E. Qed.

(** ** The way up *)

(** In order but for [pos], which may leave before its parent. *)
Definition up_ok (n : Z) (l : list A) (pos : Z) : Prop :=
  (∀ i, 2 ≤ i ≤ n → i ≠ pos → key l (i / 2) ≤ key l i) ∧
  (∀ c, 2 ≤ c ≤ n → c / 2 = pos → 2 ≤ pos → key l (pos / 2) ≤ key l c).

Lemma half_bounds pos : 2 ≤ pos → 1 ≤ pos / 2 < pos.
Proof. lia. Qed.

Lemma up_step n l l' pos : 2 ≤ pos ≤ n → up_ok n l pos → key l pos < key l (pos / 2) →
  (∀ k, key l' k = key l (exch (pos / 2) pos k)) → up_ok n l' (pos / 2).
Proof.
  intros Hpos [Hord Hgr] Hlt Hk. pose proof (half_bounds pos ltac:(lia)).
  assert (2 ≤ pos / 2 → key l (pos / 2 / 2) ≤ key l (pos / 2)) as Hpar by (intros; apply Hord; lia).
  split; intros i Hi.
  - intros Hne. pose proof (half_bounds i ltac:(lia)). rewrite !Hk. unfold exch.
    destruct (decide (i = pos)) as [->|]; [rewrite !Z.eqb_refl; case_match; lia|].
    specialize (Hord i Hi ltac:(done)). specialize (Hgr i Hi).
    rewrite (proj2 (Z.eqb_neq i (pos / 2))), (proj2 (Z.eqb_neq i pos)) by lia.
    destruct (Z.eqb_spec (i / 2) (pos / 2)) as [E|]; [rewrite E in Hord; lia|].
    destruct (Z.eqb_spec (i / 2) pos); [apply Hgr; lia|lia].
  - intros E Hp. pose proof (half_bounds (pos / 2) Hp). rewrite !Hk. unfold exch.
    rewrite (proj2 (Z.eqb_neq (pos / 2 / 2) (pos / 2))), (proj2 (Z.eqb_neq (pos / 2 / 2) pos)) by lia.
    destruct (Z.eqb_spec i (pos / 2)) as [->|]; [lia|].
    destruct (Z.eqb_spec i pos) as [->|]; [by apply Hpar|].
    specialize (Hord i Hi ltac:(done)). rewrite E in Hord. specialize (Hpar Hp). lia.
Qed.

Lemma balance_at_ok fuel n l pos : 1 ≤ pos ≤ n → n < Z.of_nat (length l) → up_ok n l pos →
  pos < Z.of_nat fuel → wp (balance_at fuel l pos) (λ l', shuffled n l l' ∧ ordered n l').
Proof.
  revert l pos. induction fuel as [|fuel IH]; intros l pos Hpos Hn Hup Hfuel; [lia|]. simpl.
  destruct (Z.ltb_spec 1 pos) as [Hgt|Hle].
  - change (Z.shiftr pos 1) with (Z.div2 pos). rewrite Z.div2_div.
    pose proof (half_bounds pos ltac:(lia)).
    destruct (key_ok l (pos / 2) ltac:(lia)) as (p & -> & Ep). simpl.
    destruct (key_ok l pos ltac:(lia)) as (c & -> & Ec). simpl. rewrite Ep, Ec.
    destruct (Z.ltb_spec (key l pos) (key l (pos / 2))) as [Hlt|Hge].
    + apply wp_bind. eapply wp_mono; [apply (swap_shuffled n); lia|]. intros l1 [Hs Hk].
      pose proof Hs as (Hl & _). eapply wp_mono.
      { apply IH; [lia|lia| |lia]. apply (up_step n l l1 pos); [lia|done..]. }
      intros l2 [Hs2 Ho]. split; [by etrans|done].
    + split; [reflexivity|]. intros i Hi. destruct (decide (i = pos)) as [->|]; [done|]. by apply Hup.
  - split; [reflexivity|]. intros i Hi. apply Hup; lia.
Qed.

(** ** The way down *)

(** In order but for the children of [pos]. *)
Definition down_ok (n : Z) (l : list A) (pos : Z) : Prop :=
  (∀ i, 2 ≤ i ≤ n → i / 2 ≠ pos → key l (i / 2) ≤ key l i) ∧
  (∀ c, 2 ≤ c ≤ n → c / 2 = pos → 2 ≤ pos → key l (pos / 2) ≤ key l c).

(** [c], the child that leaves first, goes up. *)
Lemma down_step n l l' pos c : 1 ≤ pos → c = 2 * pos ∨ c = 2 * pos + 1 → c ≤ n →
  down_ok n l pos → key l c < key l pos →
  (∀ i, 2 ≤ i ≤ n → i / 2 = pos → key l c ≤ key l i) →
  (∀ k, key l' k = key l (exch c pos k)) → down_ok n l' c.
Proof.
  intros Hpos Hc Hcn [Hord Hgr] Hlt Hmin Hk. assert (c / 2 = pos) as Ec by lia.
  split; intros i Hi.
  - intros Hne. pose proof (half_bounds i ltac:(lia)). rewrite !Hk. unfold exch.
    rewrite (proj2 (Z.eqb_neq (i / 2) c)) by done.
    destruct (Z.eqb_spec i c) as [->|]; [rewrite Ec, Z.eqb_refl; lia|].
    destruct (Z.eqb_spec (i / 2) pos) as [E|E].
    + rewrite (proj2 (Z.eqb_neq i pos)) by lia. by apply Hmin.
    + destruct (Z.eqb_spec i pos) as [->|]; [|by apply Hord]. apply (Hgr c); lia.
  - intros E Hp. rewrite !Hk. unfold exch. rewrite Ec, (proj2 (Z.eqb_neq pos c)), Z.eqb_refl by lia.
    rewrite (proj2 (Z.eqb_neq i c)), (proj2 (Z.eqb_neq i pos)) by lia.
    rewrite <- E. apply Hord; [done|lia].
Qed.

Lemma down_leaf n l pos : down_ok n l pos → n < 2 * pos → ordered n l.
Proof. intros [Hord _] Hn i Hi. apply Hord; [done|lia]. Qed.

(** What the code reads for a child. *)
Lemma child_ok n l i : 1 ≤ i → n + 1 < Z.of_nat (length l) ∨ n < Z.of_nat (length l) →
  (if i <? n + 1 then rmap exit_time (aget l i) else Ok TICK_T_MAX) =
  Ok (if i <? n + 1 then key l i else TICK_T_MAX).
Proof.
  intros Hi Hn. destruct (Z.ltb_spec i (n + 1)); [|done].
  destruct (key_ok l i ltac:(lia)) as (x & -> & E). simpl. by rewrite E.
Qed.

Lemma sink_at_ok fuel n l pos : 1 ≤ pos ≤ n → n < Z.of_nat (length l) → down_ok n l pos →
  (∀ i, 1 ≤ i ≤ n → key l i < TICK_T_MAX) → n + 1 - pos < Z.of_nat fuel →
  wp (sink_at fuel l (n + 1) pos) (λ l', shuffled n l l' ∧ ordered n l').
Proof.
  revert l pos. induction fuel as [|fuel IH]; intros l pos Hpos Hn Hdown Hmax Hfuel; [lia|]. simpl.
  change (Z.shiftl pos 1) with (2 * pos).
  destruct (key_ok l pos ltac:(lia)) as (me & -> & Eme). simpl.
  rewrite (child_ok n l (2 * pos)), (child_ok n l (2 * pos + 1)) by lia. simpl. rewrite Eme.
  pose proof (Hmax pos Hpos).
  assert (∀ c, c = 2 * pos ∨ c = 2 * pos + 1 → c ≤ n → key l c < key l pos →
    (∀ i, 2 ≤ i ≤ n → i / 2 = pos → key l c ≤ key l i) →
    wp (swap l c pos) (λ l', shuffled n l l' ∧ down_ok n l' c ∧ ∀ i, 1 ≤ i ≤ n → key l' i < TICK_T_MAX)) as Hswap.
  { intros c Hc Hcn Hlt Hmin. eapply wp_mono; [apply (swap_shuffled n); lia|]. intros l1 [Hs Hk].
    split; [done|]. split; [by apply (down_step n l l1 pos c); [lia|..]|]. intros i Hi. rewrite Hk. apply Hmax, exch_range; lia. }
  assert (∀ c, c = 2 * pos ∨ c = 2 * pos + 1 → c ≤ n → key l c < key l pos →
    (∀ i, 2 ≤ i ≤ n → i / 2 = pos → key l c ≤ key l i) →
    wp (let* l' := swap l c pos in sink_at fuel l' (n + 1) c) (λ l', shuffled n l l' ∧ ordered n l')) as Hgo.
  { intros c Hc Hcn Hlt Hmin. apply wp_bind. eapply wp_mono; [by apply Hswap|].
    intros l1 (Hs & Hd & Hm). pose proof Hs as (Hl & _).
    eapply wp_mono; [apply IH; [lia|lia|done|done|lia]|]. intros l2 [Hs2 Ho]. split; [by etrans|done]. }
  assert (∀ i, 2 ≤ i ≤ n → i / 2 = pos → i = 2 * pos ∨ i = 2 * pos + 1) as Hchild by lia.
  assert ((2 * pos ≤ n → key l pos ≤ key l (2 * pos)) → (2 * pos + 1 ≤ n → key l pos ≤ key l (2 * pos + 1)) →
    shuffled n l l ∧ ordered n l) as Hstop.
  { intros H1 H2. split; [reflexivity|]. intros i Hi. destruct (decide (i / 2 = pos)) as [E|]; [|by apply Hdown].
    rewrite E. destruct (Hchild i Hi E) as [-> | ->]; [apply H1|apply H2]; lia. }
  destruct (Z.ltb_spec (2 * pos) (n + 1)) as [HL|HL], (Z.ltb_spec (2 * pos + 1) (n + 1)) as [HR|HR]; try lia.
  - pose proof (Hmax (2 * pos) ltac:(lia)). pose proof (Hmax (2 * pos + 1) ltac:(lia)).
    rewrite !(proj2 (Z.eqb_neq _ TICK_T_MAX)), !andb_true_r by lia.
    destruct (Z.ltb_spec (key l (2 * pos)) (key l pos)), (Z.ltb_spec (key l (2 * pos + 1)) (key l pos));
      simpl; try (destruct (Z.ltb_spec (key l (2 * pos)) (key l (2 * pos + 1))));
      try (apply Hgo; [lia|lia|lia|intros i Hi Ei; destruct (Hchild i Hi Ei) as [-> | ->]; lia]); try lia.
    all: by apply Hstop; lia.
  - pose proof (Hmax (2 * pos) ltac:(lia)). rewrite Z.eqb_refl, andb_false_r, orb_false_r.
    rewrite (proj2 (Z.eqb_neq _ TICK_T_MAX)), andb_true_r by lia.
    destruct (Z.ltb_spec (key l (2 * pos)) (key l pos)).
    + eapply wp_mono; [apply Hswap; [lia|lia|done|]|].
      { intros i Hi Ei. destruct (Hchild i Hi Ei) as [-> | ->]; lia. }
      intros l1 (Hs & Hd & _). split; [done|]. eapply down_leaf; [done|lia].
    + apply Hstop; lia.
  - rewrite Z.eqb_refl, !andb_false_r. simpl. split; [reflexivity|]. eapply down_leaf; [done|lia].
Qed.

(** ** Insertion and removal *)

Lemma entries_snoc n l x : 0 ≤ n → aget l (n + 1) = Ok x → entries (n + 1) l = entries n l ++ [x].
Proof.
  intros Hn [Hi E]%aget_inv. unfold entries. rewrite seqZ_app by lia. rewrite omap_app. f_equal.
  rewrite (seqZ_cons (1 + n) 1), seqZ_nil by lia.
  replace (1 + n) with (n + 1) by lia. csimpl. by rewrite E.
Qed.

Lemma entries_cons n l x : 1 ≤ n → aget l 1 = Ok x →
  entries n l = x :: omap (λ i, l !! Z.to_nat i) (seqZ 2 (n - 1)).
Proof.
  intros Hn [Hi E]%aget_inv. unfold entries. rewrite seqZ_cons by lia.
  change (Z.succ 1) with 2. replace (Z.pred n) with (n - 1) by lia. csimpl. by rewrite E.
Qed.

Lemma entries_ext n l l' : (∀ k, 1 ≤ k ≤ n → l' !! Z.to_nat k = l !! Z.to_nat k) → entries n l' = entries n l.
Proof.
  intros Hk. apply list_omap_ext, Forall_Forall2_diag, list.Forall_forall.
  intros k Hin%elem_of_seqZ. apply Hk. lia.
Qed.

Lemma entries_insert n l i x : n < i → entries n (<[Z.to_nat i := x]> l) = entries n l.
Proof. intros Hi. apply entries_ext. intros k Hk. by rewrite list_lookup_insert_ne by lia. Qed.

Lemma entries_elem n l x : x ∈ entries n l ↔ ∃ i, 1 ≤ i ≤ n ∧ aget l i = Ok x.
Proof.
  unfold entries. rewrite list_elem_of_omap. split.
  - intros (i & Hi%elem_of_seqZ & E). exists i. split; [lia|]. unfold aget.
    rewrite (proj2 (Z.ltb_ge i 0)) by lia. by rewrite E.
  - intros (i & Hi & [_ E]%aget_inv). exists i. rewrite elem_of_seqZ. split; [lia|done].
Qed.

Lemma in_use_key n l i : Forall in_use (entries n l) → 1 ≤ i ≤ n → n < Z.of_nat (length l) → key l i < TICK_T_MAX.
Proof.
  intros Hu Hi Hn. destruct (key_ok l i ltac:(lia)) as (x & E & <-).
  assert (x ∈ entries n l) as Hx by (apply entries_elem; eauto).
  rewrite list.Forall_forall in Hu. by apply Hu in Hx as [_ ?].
Qed.

Lemma root_least n l i : ordered n l → 1 ≤ i ≤ n → key l 1 ≤ key l i.
Proof.
  intros Ho. induction (Z.lt_wf 0 i) as [i _ IH]. intros Hi. destruct (decide (i = 1)) as [->|]; [done|].
  pose proof (half_bounds i ltac:(lia)). etrans; [apply (IH (i / 2)); lia|apply Ho; lia].
Qed.

(** An entry comes in. *)
Definition heap_insert (l : list A) (n : Z) (x : A) : result (list A) :=
  let* l := aset l (n + 1) x in heap_balance l (n + 1).

Lemma heap_insert_ok n l x : heap_ok n l → n + 1 < Z.of_nat (length l) → in_use x →
  wp (heap_insert l n x) (λ l', heap_ok (n + 1) l' ∧ length l' = length l ∧
    entries (n + 1) l' ≡ₚ x :: entries n l).
Proof.
  intros [Hlen Hu Hfree Ho] Hn Hx. unfold heap_insert. rewrite aset_ok by lia. simpl.
  set (l1 := <[Z.to_nat (n + 1) := x]> l).
  assert (length l1 = length l) as Hl1 by apply length_insert.
  assert (∀ k, aget l1 k = if k =? n + 1 then Ok x else aget l k) as Hg by (intros k; apply aget_insert; lia).
  assert (entries (n + 1) l1 = entries n l ++ [x]) as He.
  { rewrite (entries_snoc n l1 x) by (lia || by rewrite Hg, Z.eqb_refl). f_equal. apply entries_insert. lia. }
  assert (up_ok (n + 1) l1 (n + 1)) as Hup.
  { assert (∀ k, k ≠ n + 1 → key l1 k = key l k) as Hk.
    { intros k Hk. unfold key. by rewrite Hg, (proj2 (Z.eqb_neq _ _)). }
    split; [|lia]. intros i Hi Hne. pose proof (half_bounds i ltac:(lia)).
    rewrite !Hk by lia. apply Ho. lia. }
  eapply wp_mono; [apply (balance_at_ok _ (n + 1)); [lia|lia|done|lia]|].
  intros l' [(Hl' & Hp & Hk) Ho']. split; [|split; [congruence|]].
  - split; [lia| | |done].
    + rewrite Hp, He. apply Forall_app. by split; [|constructor].
    + intros i y Hi Ey. rewrite Hk, Hg, (proj2 (Z.eqb_neq _ _)) in Ey by lia. apply (Hfree i y); [lia|done].
  - by rewrite Hp, He, <- Permutation_cons_append.
Qed.

(** The removal takes out the root, which is the entry that leaves first. *)
Lemma heap_remove_ok n l : heap_ok n l → 1 ≤ n →
  wp (heap_remove l n) (λ l', heap_ok (n - 1) l' ∧ length l' = length l ∧
    ∃ x, aget l 1 = Ok x ∧ entries n l ≡ₚ x :: entries (n - 1) l' ∧
      Forall (λ y, exit_time x ≤ exit_time y) (entries n l)).
Proof.
  intros [Hlen Hu Hfree Ho] Hn. destruct (key_ok l 1 ltac:(lia)) as (x & Ex & Kx).
  assert (Forall (λ y, exit_time x ≤ exit_time y) (entries n l)) as Hmin.
  { apply list.Forall_forall. intros y (i & Hi & Ey)%entries_elem. rewrite Kx.
    replace (exit_time y) with (key l i) by (unfold key; by rewrite Ey). by apply (root_least n). }
  unfold heap_remove. destruct (Z.eqb_spec n 1) as [->|Hne].
  - unfold amodify. rewrite Ex. simpl. rewrite aset_ok by lia. simpl. split; [|split; [apply length_insert|]].
    + split; [rewrite length_insert; lia|constructor| |intros i ?; lia].
      intros i y Hi. rewrite aget_insert by lia. case_match; [intros [= <-]; apply erase_live|].
      apply Hfree. lia.
    + exists x. split; [done|]. split; [|done]. by rewrite (entries_cons 1 l x).
  - destruct (aget_ok l n ltac:(lia)) as (last & _ & El). rewrite El. simpl. rewrite aset_ok by lia. simpl.
    unfold amodify. rewrite aget_insert by lia. rewrite (proj2 (Z.eqb_neq n 1)), El by done. simpl.
    rewrite aset_ok by (rewrite length_insert; lia). simpl.
    set (l1 := <[Z.to_nat 1 := last]> l). set (l2 := <[Z.to_nat n := erase last]> l1).
    assert (length l1 = length l) as Hl1 by apply length_insert.
    assert (length l2 = length l) as Hl2 by (unfold l2; by rewrite length_insert).
    assert (∀ k, aget l2 k = if k =? n then Ok (erase last) else if k =? 1 then Ok last else aget l k) as Hg.
    { intros k. unfold l2, l1. by rewrite !aget_insert by (rewrite ?length_insert; lia). }
    assert (entries n l ≡ₚ x :: entries (n - 1) l2) as Hp.
    { rewrite (entries_cons (n - 1) l2 last); [|lia|by rewrite Hg, (proj2 (Z.eqb_neq 1 n)) by lia].
      replace n with (n - 1 + 1) at 1 by lia.
      rewrite (entries_snoc (n - 1) l last); [|lia|by replace (n - 1 + 1) with n by lia].
      rewrite (entries_cons (n - 1) l x) by (lia || done). simpl. constructor. rewrite <- Permutation_cons_append.
      constructor. apply reflexive_eq, list_omap_ext, Forall_Forall2_diag, list.Forall_forall.
      intros k Hk%elem_of_seqZ. unfold l2, l1. by rewrite !list_lookup_insert_ne by lia. }
    assert (Forall in_use (entries (n - 1) l2)) as Hu2 by (rewrite Hp in Hu; by apply list.Forall_cons in Hu as [_ ?]).
    assert (down_ok (n - 1) l2 1) as Hd.
    { assert (∀ k, k ≠ n → k ≠ 1 → key l2 k = key l k) as Hk.
      { intros k H1 H2. unfold key. by rewrite Hg, !(proj2 (Z.eqb_neq _ _)). }
      split; [|lia]. intros i Hi Hne'. rewrite !Hk by lia. apply Ho. lia. }
    replace n with (n - 1 + 1) at 2 by lia. eapply wp_mono.
    { apply (sink_at_ok _ (n - 1)); [lia|lia|done| |lia]. intros i Hi. apply (in_use_key (n - 1)); [done|lia|lia]. }
    intros l' [(Hl' & Hp' & Hk) Ho']. split; [|split; [congruence|]].
    + split; [lia|by rewrite Hp'| |done]. intros i y Hi Ey. rewrite Hk, Hg in Ey by lia.
      destruct (Z.eqb_spec i n); [injection Ey as <-; apply erase_live|].
      rewrite (proj2 (Z.eqb_neq i 1)) in Ey by lia. apply (Hfree i y); [lia|done].
    + exists x. split; [done|]. split; [|done]. by rewrite Hp'.
Qed.

(** ** Runs *)

(** What a client does to a heap of [n] entries; the guards are those of
    [cache_fillable] and of the processing loops ([pipe_num > 0]). *)
Inductive op : Type := Insert (x : A) | Remove.

Fixpoint run (size : Z) (l : list A) (n : Z) (ops : list op) : result (list A * Z * list A) :=
  match ops with
  | [] => Ok (l, n, [])
  | Insert x :: ops =>
      if n <? size then let* l := heap_insert l n x in run size l (n + 1) ops else run size l n ops
  | Remove :: ops =>
      if 0 <? n then
        let* x := aget l 1 in
        let* l := heap_remove l n in
        let* '(l, n, out) := run size l (n - 1) ops in Ok (l, n, x :: out)
      else run size l n ops
  end.

(** The abstract queue: a multiset that gives back an entry that leaves first. *)
Inductive queue_run (size : Z) : list A → list op → list A → list A → Prop :=
  | run_done q q' : q ≡ₚ q' → queue_run size q [] [] q'
  | run_insert q x ops out q' : Z.of_nat (length q) < size → queue_run size (x :: q) ops out q' →
      queue_run size q (Insert x :: ops) out q'
  | run_full q x ops out q' : size ≤ Z.of_nat (length q) → queue_run size q ops out q' →
      queue_run size q (Insert x :: ops) out q'
  | run_remove q q1 x ops out q' : q ≡ₚ x :: q1 → Forall (λ y, exit_time x ≤ exit_time y) q →
      queue_run size q1 ops out q' → queue_run size q (Remove :: ops) (x :: out) q'
  | run_empty ops out q' : queue_run size [] ops out q' → queue_run size [] (Remove :: ops) out q'.

Lemma queue_run_perm size q1 ops out q' : queue_run size q1 ops out q' → ∀ q2, q1 ≡ₚ q2 → queue_run size q2 ops out q'.
Proof.
  induction 1 as [q q' E|q x ops out q' Hlt _ IH|q x ops out q' Hge _ IH|q q1 x ops out q' E Hmin H1 IH|ops out q' _ IH];
    intros q2 E2.
  - constructor. by rewrite <- E2.
  - apply run_insert; [by rewrite <- E2|]. apply IH. by rewrite E2.
  - apply run_full; [by rewrite <- E2|by apply IH].
  - eapply run_remove; [by rewrite <- E2|by rewrite <- E2|exact H1].
  - apply Permutation_nil in E2 as ->. constructor. by apply IH.
Qed.

Lemma entries_length n l : 0 ≤ n → n < Z.of_nat (length l) → Z.of_nat (length (entries n l)) = n.
Proof.
  intros Hn Hl. replace n with (Z.of_nat (Z.to_nat n)) in * by lia. generalize dependent (Z.to_nat n). clear n.
  intros n _ Hl. induction n as [|n IH]; [done|].
  destruct (aget_ok l (Z.of_nat n + 1)) as (x & _ & E); [lia|].
  rewrite Nat2Z.inj_succ, <- Z.add_1_r, (entries_snoc _ _ x), length_app by (lia || done).
  specialize (IH ltac:(lia)). simpl. lia.
Qed.

(** C32. The event heaps are priority queues: any run of guarded insertions and removals,
    in any interleaving and with any ties, never leaves the array, terminates, keeps the
    heap in order, and gives back exactly what a multiset would that always yields an
    entry with the least exit time. *)
Theorem heap_refines_priority_queue size l n ops : heap_ok n l → size < Z.of_nat (length l) →
  Forall (λ o, match o with Insert x => in_use x | Remove => True end) ops →
  wp (run size l n ops) (λ '(l', n', out), heap_ok n' l' ∧ queue_run size (entries n l) ops out (entries n' l')).
Proof.
  intros Hok Hsize Hops. revert l n Hok Hsize. induction Hops as [|o ops Ho Hops IH]; intros l n Hok Hsize.
  { simpl. split; [done|]. by constructor. }
  assert (Z.of_nat (length (entries n l)) = n) as Hlen by (apply entries_length; apply Hok).
  destruct o as [x|]; simpl.
  - destruct (Z.ltb_spec n size) as [Hlt|Hge].
    + eapply wp_bind, wp_mono; [apply heap_insert_ok; [done|lia|done]|]. intros l1 (Hok1 & Hl1 & Hp1).
      eapply wp_mono; [apply IH; [done|lia]|]. intros [[l' n'] out] [Hok' Hr]. split; [done|].
      apply run_insert; [lia|]. by eapply queue_run_perm.
    + eapply wp_mono; [by apply IH|]. intros [[l' n'] out] [Hok' Hr]. split; [done|]. apply run_full; [lia|done].
  - destruct (Z.ltb_spec 0 n) as [Hlt|Hge].
    + destruct (aget_ok l 1) as (x & _ & Ex); [pose proof (heap_len _ _ Hok); lia|]. rewrite Ex. simpl.
      eapply wp_bind, wp_mono; [apply heap_remove_ok; [done|lia]|]. intros l1 (Hok1 & Hl1 & x' & Ex' & Hp1 & Hmin).
      rewrite Ex in Ex'. injection Ex' as <-.
      eapply wp_bind, wp_mono; [apply IH; [done|lia]|]. intros [[l' n'] out] [Hok' Hr]. simpl. split; [done|].
      by eapply run_remove.
    + eapply wp_mono; [by apply IH|]. intros [[l' n'] out] [Hok' Hr]. split; [done|].
      assert (n = 0) as -> by (pose proof (heap_len _ _ Hok); lia). by constructor.
Qed.

End heap.

(** Entries that are just their times. *)
#[local] Program Instance demo_node : HeapNode (option Z) :=
  { exit_time a := default TICK_T_MAX a; live a := bool_decide (a ≠ None); erase _ := None }.
Next Obligation. done. Qed.
Next Obligation. done. Qed.

Definition demo_ops : list (op (A := option Z)) :=
  [Insert (Some 9); Insert (Some 4); Insert (Some 6); Remove; Insert (Some 4); Insert (Some 5); Remove; Remove].

Lemma heap_refines_priority_queue_witness :
  run 3 (replicate 5 None) 0 demo_ops = Ok ([None; Some 9; None; None; None], 1, [Some 4; Some 4; Some 6]) ∧
  queue_run 3 [] demo_ops [Some 4; Some 4; Some 6] [Some 9].
Proof.
  assert (heap_ok 0 (replicate 5 (None : option Z))) as Hok.
  { split; [vm_compute; intuition congruence|constructor| |intros i ?; lia].
    intros i x _ E. apply aget_inv in E as [_ E]. by apply lookup_replicate in E as [-> _]. }
  assert (Forall (λ o : op, match o with Insert x => in_use x | Remove => True end) demo_ops) as Hops.
  { unfold demo_ops, in_use, TICK_T_MAX. repeat constructor. }
  pose proof (heap_refines_priority_queue 3 _ 0 demo_ops Hok ltac:(vm_compute; reflexivity) Hops) as H.
  assert (run 3 (replicate 5 None) 0 demo_ops = Ok ([None; Some 9; None; None; None], 1, [Some 4; Some 4; Some 6])) as E
    by (vm_compute; reflexivity).
  rewrite E in H. split; [done|]. exact (proj2 H).
Defined.

End cache_heap.
