(* ===== verification/Dram.v ===== *)
(** * Dram: the timing models of main memory

    The interface of zesto-dram.h and its models: a constant latency
    (dram-simplescalar.cpp), an SDRAM with row buffers and one data bus
    (dram-simplesdram.cpp) and the same with unlimited bandwidth
    (dram-simplesdram-infbw.cpp).  The command-line times are floating-point
    nanoseconds; here the model starts from the cycle counts computed from them.  The
    claim: on the data bus of the SDRAM no two bursts overlap. *)

From S2P Require Import Prelude Misc CacheSet CacheHeap.

(** What the models read of the uncore: the width of the front-side bus. *)
Record fsb_t : Type := mk_fsb { fsb_width : Z; fsb_bits : Z; fsb_DDR : bool }.

(** Source: src/xiosim/zesto-dram.h:68-85 dram_t.
    An access at cycle [now] returns its latency. *)
Class Dram (D : Type) : Type := {
  dram_access : D → Z → cache_command → Z → Z → result (D * Z);
  dram_refresh : D → Z → result D
}.

(** What a memory controller relies on: accesses of at least a byte do not fail, at any
    time from the last access on. *)
Class DramLaws (D : Type) `{Dram D} : Type := {
  dram_ok : Z → D → Prop;
  dram_later t t' d : t ≤ t' → dram_ok t d → dram_ok t' d;
  dram_access_ok t d cmd addr size : 0 ≤ t → 1 ≤ size < 2 ^ 20 → dram_ok t d →
    wp (dram_access d t cmd addr size) (λ '(d', lat), dram_ok t d' ∧ 0 ≤ lat < 2 ^ 32);
  dram_refresh_ok t d : 0 ≤ t → dram_ok t d → wp (dram_refresh d t) (dram_ok t)
}.

(** Source: src/xiosim/zesto-dram.h:71-75 dram_t.
    The statistics of the base class. *)
Record dram_stats : Type := mk_dram_stats {
  total_accesses : Z;
  total_latency : Z;
  best_latency : Z;
  worst_latency : Z;
  total_burst : Z
}.

(** Source: src/xiosim/zesto-dram.cpp:73-80 init. *)
Definition dram_init_stats : dram_stats := mk_dram_stats 0 0 0 0 0.

Definition INT_MAX : Z := 2 ^ 31 - 1.
Definition with_best (v : Z) (s : dram_stats) : dram_stats :=
  mk_dram_stats (total_accesses s) (total_latency s) v (worst_latency s) (total_burst s).

(** Source: src/xiosim/ZCOMPS-dram/dram-simplesdram.cpp:233-239 access. *)
Definition count_access (lat chunks : Z) (s : dram_stats) : dram_stats :=
  mk_dram_stats (total_accesses s + 1) (total_latency s + lat) (if lat <? best_latency s then lat else best_latency s)
    (if worst_latency s <? lat then lat else worst_latency s) (total_burst s + chunks).

(** Source: src/xiosim/ZCOMPS-dram/dram-simplesdram.cpp:181-181 access.
    The length of a burst, rounded up. *)
Definition burst (u : fsb_t) (bsize : Z) : Z := Z.shiftr (i32 (bsize + (fsb_width u - 1))) (fsb_bits u).

Definition ddr (u : fsb_t) (chunks : Z) : Z := if fsb_DDR u then Z.shiftr chunks 1 else chunks.

(** A bus whose number of bits is that of its width. *)
Record fsb_ok (u : fsb_t) : Prop := { u_bits : 0 ≤ fsb_bits u < 20; u_width : fsb_width u = 2 ^ fsb_bits u }.

Lemma burst_ok u bsize : fsb_ok u → 1 ≤ bsize < 2 ^ 20 → 1 ≤ burst u bsize < 2 ^ 20 ∧ 0 ≤ ddr u (burst u bsize) < 2 ^ 20.
Proof.
  intros [Hb Hw] Hs. unfold burst. rewrite Hw. pose proof (Z.pow_pos_nonneg 2 (fsb_bits u) ltac:(lia) ltac:(lia)) as Hp.
  pose proof (Z.pow_le_mono_r 2 (fsb_bits u) 20 ltac:(lia) ltac:(lia)) as Hle.
  rewrite i32_small by lia. rewrite Z.shiftr_div_pow2 by lia.
  assert (1 ≤ (bsize + (2 ^ fsb_bits u - 1)) / 2 ^ fsb_bits u < 2 ^ 20) as Hc.
  { replace (bsize + (2 ^ fsb_bits u - 1)) with (bsize - 1 + 1 * 2 ^ fsb_bits u) by lia. rewrite Z.div_add by lia.
    pose proof (Z.div_pos (bsize - 1) (2 ^ fsb_bits u) ltac:(lia) Hp).
    pose proof (Z.div_le_upper_bound (bsize - 1) (2 ^ fsb_bits u) (bsize - 1) Hp ltac:(nia)). lia. }
  split; [done|]. unfold ddr. destruct (fsb_DDR u); [|lia]. rewrite Z.shiftr_div_pow2 by lia. change (2 ^ 1) with 2.
  set (q := _ / 2 ^ fsb_bits u) in *. pose proof (Z.div_pos q 2 ltac:(lia) ltac:(lia)).
  pose proof (Z.div_le_upper_bound q 2 q ltac:(lia) ltac:(lia)). lia.
Qed.

(** ** Constant latency *)

Module dram_simplescalar.

(** Source: src/xiosim/ZCOMPS-dram/dram-simplescalar.cpp:40-44 dram_simplescalar_t. *)
Record t : Type := mk { bus : fsb_t; latency : Z; chunk_latency : Z; stats : dram_stats }.

(** Source: src/xiosim/ZCOMPS-dram/dram-simplescalar.cpp:49-64 dram_simplescalar_t.
    [arg_latency] in cycles. *)
Definition create (u : fsb_t) (arg_latency : Z) : t := mk u arg_latency 1 (with_best INT_MAX dram_init_stats).

(** Source: src/xiosim/ZCOMPS-dram/dram-simplescalar.cpp:67-82 access. *)
Definition access (d : t) (now : Z) (cmd : cache_command) (baddr bsize : Z) : result (t * Z) :=
  let chunks := burst (bus d) bsize in
  let* _ := guard_or (0 <? chunks) AssertFail in
  let lat := i32 (latency d + ddr (bus d) (chunk_latency d * chunks)) in
  Ok (mk (bus d) (latency d) (chunk_latency d) (count_access lat chunks (stats d)), u32 lat).

#[global] Instance simplescalar_dram : Dram t := { dram_access := access; dram_refresh d _ := Ok d }.

Definition ok (d : t) : Prop := fsb_ok (bus d) ∧ chunk_latency d = 1 ∧ 0 ≤ latency d < 2 ^ 30.

#[global] Program Instance simplescalar_laws : DramLaws t := { dram_ok _ := ok }.
Next Obligation. done. Qed.
Next Obligation.
  intros t d cmd addr size _ Hs (Hu & Hc & Hl). simpl. unfold access. rewrite Hc, Z.mul_1_l.
  destruct (burst_ok (bus d) size Hu Hs) as [Hb Hd]. rewrite (proj2 (Z.ltb_lt 0 _)) by lia. simpl.
  split; [by split|]. by apply wrap_u_range.
Qed.
Next Obligation. done. Qed.

End dram_simplescalar.

(** ** SDRAM *)

Module dram_simplesdram.

(** Source: src/xiosim/ZCOMPS-dram/dram-simplesdram.cpp:62-67 dram_simplesdram_bank_t. *)
Record bank_t : Type := mk_bank { current_row : Z; when_available : Z; when_precharge_ready : Z }.

(** Source: src/xiosim/ZCOMPS-dram/dram-simplesdram.cpp:71-93 dram_simplesdram_t.
    The numbers of ranks, banks and rows, the times in cycles, and the fields of an
    address. *)
Record cfg : Type := mk_cfg {
  bus : fsb_t;
  num_ranks : Z;
  num_banks : Z;
  num_rows : Z;
  c_RAS : Z;
  c_RCD : Z;
  c_CAS : Z;
  c_WR : Z;
  c_RP : Z;
  c_refresh : Z;
  rank_shift : Z;
  rank_mask : Z;
  bank_shift : Z;
  bank_mask : Z;
  row_shift : Z;
  row_mask : Z
}.

(** Source: src/xiosim/ZCOMPS-dram/dram-simplesdram.cpp:59-99 dram_simplesdram_t. *)
Record t : Type := mk {
  conf : cfg;
  row_buffer_hits : Z;
  refresh_rank : Z;
  refresh_bank : Z;
  refresh_row : Z;
  last_refresh : Z;
  array : list (list bank_t);
  when_command_bus_ready : Z;
  when_data_bus_ready : Z;
  stats : dram_stats
}.

(** Source: src/xiosim/ZCOMPS-dram/dram-simplesdram.cpp:140-153 dram_simplesdram_t.
    The fields of a 33-bit address. *)
Definition layout (u : fsb_t) (ranks banks RAS RCD CAS WR RP refresh : Z) : cfg :=
  let offset_bits := Z.log2 (fsb_width u) in
  let col_bits := 12 - offset_bits in
  let bank_bits := Z.log2 banks in
  let rank_bits := Z.log2 ranks in
  let row_bits := 33 - rank_bits - bank_bits - col_bits - offset_bits in
  mk_cfg u ranks banks (Z.shiftl 1 row_bits) RAS RCD CAS WR RP refresh
    (12 + bank_bits + row_bits) (Z.shiftl 1 rank_bits - 1) 12 (Z.shiftl 1 bank_bits - 1)
    (12 + bank_bits) (Z.shiftl 1 row_bits - 1).

(** Source: src/xiosim/ZCOMPS-dram/dram-simplesdram.cpp:103-163 dram_simplesdram_t. *)
Definition create (k : cfg) : t :=
  mk k 0 0 0 0 0 (replicate (Z.to_nat (num_ranks k)) (replicate (Z.to_nat (num_banks k)) (mk_bank 0 0 0))) 0 0
    (with_best INT_MAX dram_init_stats).

(** The rank, bank and row of an address. *)
Definition rank_of (k : cfg) (a : Z) : Z := Z.land (Z.shiftr a (rank_shift k)) (rank_mask k).
Definition bank_of (k : cfg) (a : Z) : Z := Z.land (Z.shiftr a (bank_shift k)) (bank_mask k).
Definition row_of (k : cfg) (a : Z) : Z := Z.land (Z.shiftr a (row_shift k)) (row_mask k).

(** Source: src/xiosim/ZCOMPS-dram/dram-simplesdram.cpp:195-226 access.
    What an access of a bank takes: the cycle when it is done and the bank after it.
    [tick_t] values that run out wrap around. *)
Definition command (k : cfg) (start bus_ready data_lat : Z) (cmd : cache_command) (row : Z) (b : bank_t) : Z * bank_t * bool :=
  let lat := c_CAS k + data_lat in
  if current_row b =? row then
    let done := Z.max (start + lat) (bus_ready + data_lat) in
    (done, mk_bank (current_row b) done
       (if decide (cmd = CACHE_WRITE) then i64 (done + c_WR k + c_RP k) else when_precharge_ready b), true)
  else
    let lat := lat + c_RCD k in
    let start := Z.max (start + c_RP k) (when_precharge_ready b) in
    let done := Z.max (start + lat) (bus_ready + data_lat) in
    (done, mk_bank row done
       (match cmd with
        | CACHE_READ | CACHE_PREFETCH => i64 (start + c_RAS k + c_RP k)
        | CACHE_WRITE => i64 (done + c_WR k + c_RP k)
        | _ => when_precharge_ready b
        end), false).

(** Source: src/xiosim/ZCOMPS-dram/dram-simplesdram.cpp:179-242 access. *)
Definition access (d : t) (now : Z) (cmd : cache_command) (baddr bsize : Z) : result (t * Z) :=
  let k := conf d in
  let chunks := burst (bus k) bsize in
  let start := Z.max (when_command_bus_ready d) now in
  let* _ := guard_or (0 <? chunks) AssertFail in
  let data_lat := ddr (bus k) chunks in
  let* b := aget2 (array d) (rank_of k baddr) (bank_of k baddr) in
  let '(done, b, hit) := command k start (when_data_bus_ready d) data_lat cmd (row_of k baddr) b in
  let* l := aset2 (array d) (rank_of k baddr) (bank_of k baddr) b in
  let lat := i32 (done - now) in
  Ok (mk k (if hit : bool then row_buffer_hits d + 1 else row_buffer_hits d) (refresh_rank d) (refresh_bank d) (refresh_row d)
        (last_refresh d) l (when_command_bus_ready d + 1) done (count_access lat chunks (stats d)), u32 lat).

(** Source: src/xiosim/ZCOMPS-dram/dram-simplesdram.cpp:266-282 refresh.
    The refresh of a row of a bank. *)
Definition refresh_bank_row (k : cfg) (now row : Z) (b : bank_t) : bank_t :=
  if current_row b =? row then
    mk_bank (current_row b) (now + c_WR k) (i64 (TICK_T_MAX + c_WR k + c_RP k))
  else
    let done := Z.max now (when_precharge_ready b) + c_CAS k + c_RCD k in
    mk_bank row done (i64 (done + c_WR k + c_RP k)).

(** Source: src/xiosim/ZCOMPS-dram/dram-simplesdram.cpp:245-288 refresh. *)
Definition refresh (d : t) (now : Z) : result t :=
  let k := conf d in
  if c_refresh k <=? 0 then Ok d
  else if c_refresh k <=? now - last_refresh d then
    let rank := refresh_rank d in
    let bank := refresh_bank d in
    let row := refresh_row d in
    let rank' := modinc rank (num_ranks k) in
    let bank' := if rank' =? 0 then modinc bank (num_banks k) else bank in
    let row' := if (rank' =? 0) && (bank' =? 0) then modinc row (num_rows k) else row in
    let* b := aget2 (array d) rank bank in
    let* l := aset2 (array d) rank bank (refresh_bank_row k now row b) in
    Ok (mk k (row_buffer_hits d) rank' bank' row' now l (when_command_bus_ready d + 1) (when_data_bus_ready d) (stats d))
  else Ok d.

#[global] Instance simplesdram_dram : Dram t := { dram_access := access; dram_refresh := refresh }.

(** ** Safety *)

(** Times that are no negative numbers, and rows and banks within a 33-bit address. *)
Record cfg_ok (k : cfg) : Prop := {
  k_bus : fsb_ok (bus k);
  k_ranks : 1 ≤ num_ranks k < 2 ^ 20;
  k_banks : 1 ≤ num_banks k < 2 ^ 20;
  k_rows : 1 ≤ num_rows k < 2 ^ 31;
  k_rank_mask : ∃ n, 0 ≤ n ∧ rank_mask k = 2 ^ n - 1 ∧ 2 ^ n ≤ num_ranks k;
  k_bank_mask : ∃ n, 0 ≤ n ∧ bank_mask k = 2 ^ n - 1 ∧ 2 ^ n ≤ num_banks k;
  k_times : 0 ≤ c_RAS k ∧ 0 ≤ c_RCD k ∧ 0 ≤ c_CAS k ∧ 0 ≤ c_WR k ∧ 0 ≤ c_RP k
}.

Lemma layout_ok u ranks banks RAS RCD CAS WR RP refresh : fsb_ok u → 1 ≤ ranks → 1 ≤ banks → Z.log2 ranks + Z.log2 banks ≤ 18 →
  0 ≤ RAS → 0 ≤ RCD → 0 ≤ CAS → 0 ≤ WR → 0 ≤ RP → cfg_ok (layout u ranks banks RAS RCD CAS WR RP refresh).
Proof.
  intros Hu Hr Hb Hl H1 H2 H3 H4 H5. pose proof (Z.log2_nonneg ranks). pose proof (Z.log2_nonneg banks).
  destruct (Z.log2_spec ranks ltac:(lia)) as [Lr Ur], (Z.log2_spec banks ltac:(lia)) as [Lb Ub].
  pose proof (Z.pow_le_mono_r 2 (Z.succ (Z.log2 ranks)) 19 ltac:(lia) ltac:(lia)).
  pose proof (Z.pow_le_mono_r 2 (Z.succ (Z.log2 banks)) 19 ltac:(lia) ltac:(lia)).
  unfold layout. set (o := Z.log2 (fsb_width u)). replace (33 - _ - _ - (12 - o) - o) with (21 - Z.log2 ranks - Z.log2 banks) by lia.
  split; cbn [bus num_ranks num_banks num_rows rank_mask bank_mask c_RAS c_RCD c_CAS c_WR c_RP]; try done; try lia.
  - rewrite shiftl_1_l by lia. pose proof (Z.pow_le_mono_r 2 (21 - Z.log2 ranks - Z.log2 banks) 21 ltac:(lia) ltac:(lia)).
    pose proof (Z.pow_pos_nonneg 2 (21 - Z.log2 ranks - Z.log2 banks) ltac:(lia) ltac:(lia)). lia.
  - exists (Z.log2 ranks). by rewrite shiftl_1_l by lia.
  - exists (Z.log2 banks). by rewrite shiftl_1_l by lia.
Qed.

Record ok (d : t) : Prop := {
  ok_cfg : cfg_ok (conf d);
  ok_ranks : Z.of_nat (length (array d)) = num_ranks (conf d);
  ok_banks : Forall (row_ok (num_banks (conf d)) (λ _, True)) (array d);
  ok_refresh : 0 ≤ refresh_rank d < num_ranks (conf d) ∧ 0 ≤ refresh_bank d < num_banks (conf d) ∧ 0 ≤ refresh_row d < num_rows (conf d)
}.

Lemma sdram_create_ok k : cfg_ok k → ok (create k).
Proof.
  intros Hk. pose proof Hk as [_ Hr Hb Hw _ _ _]. split; simpl; try done; try lia.
  - rewrite length_replicate. lia.
  - apply Forall_replicate, row_ok_replicate; [lia|done].
Qed.

Lemma field_range x n s : 0 ≤ n → 0 ≤ Z.land (Z.shiftr x s) (2 ^ n - 1) < 2 ^ n.
Proof. intros Hn. rewrite land_pow2_mask by done. apply Z.mod_pos_bound. by apply Z.pow_pos_nonneg. Qed.

Lemma place_ok d a : ok d → 0 ≤ rank_of (conf d) a < num_ranks (conf d) ∧ 0 ≤ bank_of (conf d) a < num_banks (conf d).
Proof.
  intros [[_ _ _ _ (n & Hn & En & Ln) (m & Hm & Em & Lm) _] _ _ _]. unfold rank_of, bank_of. rewrite En, Em.
  pose proof (field_range a n (rank_shift (conf d)) Hn). pose proof (field_range a m (bank_shift (conf d)) Hm). lia.
Qed.

(** An access, with the cycle it is done, the length of its burst and the bank it finds. *)
Lemma access_done d now cmd a size : ok d → 1 ≤ size < 2 ^ 20 →
  wp (access d now cmd a size) (λ '(d', lat), ok d' ∧ conf d' = conf d ∧ 0 ≤ lat < 2 ^ 32 ∧
    let data := ddr (bus (conf d)) (burst (bus (conf d)) size) in
    (0 ≤ when_data_bus_ready d' - now < 2 ^ 31 → lat = when_data_bus_ready d' - now) ∧
    when_data_bus_ready d + data ≤ when_data_bus_ready d' ∧ now + c_CAS (conf d) + data ≤ when_data_bus_ready d').
Proof.
  intros Hok Hs. pose proof Hok as [Hk Hr Hb Href]. unfold access.
  destruct (burst_ok (bus (conf d)) size (k_bus _ Hk) Hs) as [Hburst Hddr]. rewrite (proj2 (Z.ltb_lt 0 _)) by lia. cbn [guard_or rbind].
  destruct (place_ok d a Hok) as [Hrank Hbank]. set (data := ddr _ _) in *.
  apply wp_bind. eapply wp_aget2; [exact Hb|lia|exact Hbank|]. intros b _ _.
  destruct (command _ _ _ _ _ _ b) as [[done b'] hit] eqn:Ec.
  assert (when_data_bus_ready d + data ≤ done ∧ now + c_CAS (conf d) + data ≤ done) as [Hd1 Hd2].
  { destruct (k_times _ Hk) as (_ & T1 & _ & _ & T2). unfold command in Ec. destruct (_ =? _); injection Ec as <- <- <-; lia. }
  apply wp_bind. eapply wp_aset2; [exact Hb|lia|exact Hbank|done|]. intros l _ Hl1 Hl2. simpl.
  split; [by split; simpl; [|rewrite Hl1| |]|]. split; [done|]. split; [by apply wrap_u_range|]. split; [|done].
  intros Hlt. rewrite i32_small by lia. unfold u32. apply wrap_u_small. lia.
Qed.

Lemma refresh_ok d now : ok d → wp (refresh d now) ok.
Proof.
  intros Hok. pose proof Hok as [Hk Hr Hb (R1 & R2 & R3)]. unfold refresh. case_match; [done|]. case_match; [|done].
  apply wp_bind. eapply wp_aget2; [exact Hb|lia|exact R2|]. intros b _ _.
  apply wp_bind. eapply wp_aset2; [exact Hb|lia|exact R2|done|]. intros l _ Hl1 Hl2. simpl.
  destruct (k_ranks _ Hk), (k_banks _ Hk), (k_rows _ Hk).
  split; simpl; [done|by rewrite Hl1|done|]. split; [apply modinc_range; lia|].
  split; [case_match; [apply modinc_range; lia|done]|case_match; [apply modinc_range; lia|done]].
Qed.

#[global] Program Instance simplesdram_laws : DramLaws t := { dram_ok _ := ok }.
Next Obligation. done. Qed.
Next Obligation.
  intros t d cmd addr size _ Hs Hok. eapply wp_mono; [by apply access_done|]. intros [d' lat] (? & _ & ? & _). done.
Qed.
Next Obligation. intros t d _. apply refresh_ok. Qed.

(** ** The data bus *)

(** Accesses one after the other, with the cycles in which each has the data bus. *)
Record request : Type := mk_request { r_now : Z; r_cmd : cache_command; r_paddr : Z; r_bytes : Z }.

Fixpoint transfers (d : t) (rs : list request) : result (list (Z * Z)) :=
  match rs with
  | [] => Ok []
  | r :: rs =>
      let* '(d', _) := access d (r_now r) (r_cmd r) (r_paddr r) (r_bytes r) in
      let* l := transfers d' rs in
      Ok ((when_data_bus_ready d' - ddr (bus (conf d)) (burst (bus (conf d)) (r_bytes r)), when_data_bus_ready d') :: l)
  end.

Lemma transfers_ok rs d : ok d → Forall (λ r, 1 ≤ r_bytes r < 2 ^ 20) rs →
  wp (transfers d rs) (λ l, length l = length rs ∧ Forall (λ '(s, e), when_data_bus_ready d ≤ s ∧ s ≤ e) l ∧
    (∀ i r s e, rs !! i = Some r → l !! i = Some (s, e) → r_now r + c_CAS (conf d) ≤ s) ∧
    ∀ i j s e s' e', (i < j)%nat → l !! i = Some (s, e) → l !! j = Some (s', e') → e ≤ s').
Proof.
  intros Hok Hrs. revert d Hok. induction Hrs as [|r rs Hr Hrs IH]; intros d Hok; cbn [transfers]; [done|].
  eapply wp_bind, wp_mono; [by apply access_done|]. intros [d' lat] (Hok' & Hc & _ & _ & Hd1 & Hd2).
  eapply wp_bind, wp_mono; [by apply IH|]. intros l (Hlen & Hfrom & Hcas & Hord). cbn [wp].
  destruct (burst_ok (bus (conf d)) (r_bytes r) (k_bus _ (ok_cfg _ Hok)) Hr) as [_ Hddr].
  set (data := ddr _ _) in *. split; [simpl; lia|]. split.
  { constructor; [lia|]. eapply list.Forall_impl; [exact Hfrom|]. intros [s e]. lia. }
  split.
  - intros [|i] r' s e; simpl; [intros [= <-] [= <- <-]; lia|]. intros E1 E2. rewrite <- Hc. by eapply Hcas.
  - intros [|i] [|j] s e s' e' Hij; simpl; try lia.
    + intros [= <- <-] E. pose proof (Forall_lookup_1 _ _ _ _ Hfrom E) as Hf. simpl in Hf. lia.
    + apply Hord. lia.
Qed.

(** C35. The data bus carries one burst at a time.  However many accesses are made, at
    whatever times, to whatever banks and rows: none fails, each gets the data bus for
    its burst no earlier than the column latency after it was made, and the bursts
    follow each other, each starting when the one before has ended. *)
Theorem bursts_never_overlap rs d : ok d → Forall (λ r, 1 ≤ r_bytes r < 2 ^ 20) rs →
  wp (transfers d rs) (λ l, length l = length rs ∧
    (∀ i r s e, rs !! i = Some r → l !! i = Some (s, e) → r_now r + c_CAS (conf d) ≤ s) ∧
    ∀ i j s e s' e', (i < j)%nat → l !! i = Some (s, e) → l !! j = Some (s', e') → e ≤ s').
Proof. intros Hok Hrs. eapply wp_mono; [by apply transfers_ok|]. intros l (? & _ & ? & ?). done. Qed.

(** One rank of four banks; three lines, two of them in one row. *)
Definition demo : t := create (layout (mk_fsb 8 3 true) 1 4 20 7 7 5 7 0).
Definition demo_requests : list request :=
  [mk_request 100 CACHE_READ 4096 64; mk_request 101 CACHE_READ 4160 64; mk_request 102 CACHE_WRITE 2097152 64].

Lemma sdram_demo_ok : ok demo.
Proof. apply sdram_create_ok, layout_ok; try done; vm_compute; intuition congruence. Qed.

Lemma bursts_never_overlap_witness :
  transfers demo demo_requests = Ok [(107, 111); (111, 115); (123, 127)] ∧
  wp (transfers demo demo_requests) (λ l, length l = length demo_requests ∧
    (∀ i r s e, demo_requests !! i = Some r → l !! i = Some (s, e) → r_now r + c_CAS (conf demo) ≤ s) ∧
    ∀ i j s e s' e', (i < j)%nat → l !! i = Some (s, e) → l !! j = Some (s', e') → e ≤ s').
Proof.
  split; [vm_compute; reflexivity|]. apply (bursts_never_overlap demo_requests demo sdram_demo_ok).
  repeat constructor; vm_compute; intuition congruence.
Defined.

(** A hit of the open row is done no later than an access that opens a row. *)
Lemma hit_no_later k start ready data cmd row b : cfg_ok k → row ≠ current_row b →
  (command k start ready data cmd (current_row b) b).1.1 ≤ (command k start ready data cmd row b).1.1.
Proof.
  intros [_ _ _ _ _ _ (_ & H1 & _ & _ & H2)] Hne. unfold command. rewrite Z.eqb_refl, (proj2 (Z.eqb_neq _ _)) by done. simpl. lia.
Qed.

(** The refresh of an open row adds to the largest time there is, so that the bank counts
    as precharged long ago. *)
Lemma refresh_of_open_row k now row b : current_row b = row → 1 ≤ c_WR k + c_RP k < 2 ^ 62 → 0 ≤ c_WR k → 0 ≤ c_RP k →
  when_precharge_ready (refresh_bank_row k now row b) < 0.
Proof.
  intros <- H1 H2 H3. unfold refresh_bank_row. rewrite Z.eqb_refl. simpl. unfold i64, wrap_s, TICK_T_MAX.
  replace (2 ^ 63 - 1 + c_WR k + c_RP k + 2 ^ (64 - 1)) with (c_WR k + c_RP k - 1 + 1 * 2 ^ 64) by lia.
  rewrite Z.mod_add by done. rewrite Z.mod_small by lia. lia.
Qed.

End dram_simplesdram.

(** ** SDRAM with unlimited bandwidth *)

(** The fields and the constructor of this class are those of the class above; neither
    bus is ever taken, and a hit waits for the access that opened the row. *)
Module dram_simplesdram_infbw.
Import dram_simplesdram.

(** Source: src/xiosim/ZCOMPS-dram/dram-simplesdram-infbw.cpp:58-98 dram_simplesdram_infbw_t. *)
Record infbw : Type := mk_infbw { sdram : dram_simplesdram.t }.

(** Source: src/xiosim/ZCOMPS-dram/dram-simplesdram-infbw.cpp:198-233 access. *)
Definition command (k : cfg) (now start bus_ready data_lat : Z) (cmd : cache_command) (row : Z) (b : bank_t) : Z * bank_t * bool :=
  if current_row b =? row then
    let time_till_avail := if now <? when_available b then when_available b - now else 0 in
    let done := Z.max (start + c_CAS k + time_till_avail) (bus_ready + data_lat) in
    (done, mk_bank (current_row b) (when_available b)
       (if decide (cmd = CACHE_WRITE) then i64 (done + c_WR k + c_RP k) else when_precharge_ready b), true)
  else
    let lat := c_CAS k + c_RCD k in
    let start := Z.max (start + c_RP k) (when_precharge_ready b) in
    let done := Z.max (start + lat) (bus_ready + data_lat) in
    (done, mk_bank row done
       (match cmd with
        | CACHE_READ | CACHE_PREFETCH => i64 (start + c_RAS k + c_RP k)
        | CACHE_WRITE => i64 (done + c_WR k + c_RP k)
        | _ => when_precharge_ready b
        end), false).

(** Source: src/xiosim/ZCOMPS-dram/dram-simplesdram-infbw.cpp:180-249 access. *)
Definition access (m : infbw) (now : Z) (cmd : cache_command) (baddr bsize : Z) : result (infbw * Z) :=
  let d := sdram m in
  let k := conf d in
  let chunks := burst (bus k) bsize in
  let start := Z.max (when_command_bus_ready d) now in
  let* _ := guard_or (0 <? chunks) AssertFail in
  let* b := aget2 (array d) (rank_of k baddr) (bank_of k baddr) in
  let '(done, b, hit) := command k now start (when_data_bus_ready d) (ddr (bus k) chunks) cmd (row_of k baddr) b in
  let* l := aset2 (array d) (rank_of k baddr) (bank_of k baddr) b in
  let lat := i32 (done - now) in
  Ok (mk_infbw (mk k (if hit : bool then row_buffer_hits d + 1 else row_buffer_hits d) (refresh_rank d) (refresh_bank d) (refresh_row d)
        (last_refresh d) l (when_command_bus_ready d) (when_data_bus_ready d) (count_access lat chunks (stats d))), u32 lat).

(** Source: src/xiosim/ZCOMPS-dram/dram-simplesdram-infbw.cpp:274-289 refresh. *)
Definition refresh_bank_row (k : cfg) (now row : Z) (b : bank_t) : bank_t :=
  if current_row b =? row then
    mk_bank (current_row b) (when_available b) (i64 (TICK_T_MAX + c_WR k + c_RP k))
  else
    let done := Z.max now (when_precharge_ready b) + c_CAS k + c_RCD k in
    mk_bank row done (i64 (done + c_WR k + c_RP k)).

(** Source: src/xiosim/ZCOMPS-dram/dram-simplesdram-infbw.cpp:252-295 refresh. *)
Definition refresh (m : infbw) (now : Z) : result infbw :=
  let d := sdram m in
  let k := conf d in
  if c_refresh k <=? 0 then Ok m
  else if c_refresh k <=? now - last_refresh d then
    let rank := refresh_rank d in
    let bank := refresh_bank d in
    let row := refresh_row d in
    let rank' := modinc rank (num_ranks k) in
    let bank' := if rank' =? 0 then modinc bank (num_banks k) else bank in
    let row' := if (rank' =? 0) && (bank' =? 0) then modinc row (num_rows k) else row in
    let* b := aget2 (array d) rank bank in
    let* l := aset2 (array d) rank bank (refresh_bank_row k now row b) in
    Ok (mk_infbw (mk k (row_buffer_hits d) rank' bank' row' now l (when_command_bus_ready d) (when_data_bus_ready d) (stats d)))
  else Ok m.

#[global] Instance infbw_dram : Dram infbw := { dram_access := access; dram_refresh := refresh }.

Lemma access_safe m now cmd a size : ok (sdram m) → 1 ≤ size < 2 ^ 20 →
  wp (access m now cmd a size) (λ '(m', lat), ok (sdram m') ∧ 0 ≤ lat < 2 ^ 32).
Proof.
  intros Hok Hs. pose proof Hok as [Hk Hr Hb Href]. unfold access.
  destruct (burst_ok (bus (conf (sdram m))) size (k_bus _ Hk) Hs) as [Hburst _]. rewrite (proj2 (Z.ltb_lt 0 _)) by lia. cbn [guard_or rbind].
  destruct (place_ok (sdram m) a Hok) as [Hrank Hbank].
  apply wp_bind. eapply wp_aget2; [exact Hb|lia|exact Hbank|]. intros b _ _. destruct (command _ _ _ _ _ _ _ b) as [[done b'] hit].
  apply wp_bind. eapply wp_aset2; [exact Hb|lia|exact Hbank|done|]. intros l _ Hl1 Hl2. simpl.
  split; [by split; simpl; [|rewrite Hl1| |]|by apply wrap_u_range].
Qed.

Lemma refresh_safe m now : ok (sdram m) → wp (refresh m now) (λ m', ok (sdram m')).
Proof.
  intros Hok. pose proof Hok as [Hk Hr Hb (R1 & R2 & R3)]. unfold refresh. case_match; [done|]. case_match; [|done].
  apply wp_bind. eapply wp_aget2; [exact Hb|lia|exact R2|]. intros b _ _.
  apply wp_bind. eapply wp_aset2; [exact Hb|lia|exact R2|done|]. intros l _ Hl1 Hl2. simpl.
  destruct (k_ranks _ Hk), (k_banks _ Hk), (k_rows _ Hk).
  split; simpl; [done|by rewrite Hl1|done|]. split; [apply modinc_range; lia|].
  split; [case_match; [apply modinc_range; lia|done]|case_match; [apply modinc_range; lia|done]].
Qed.

#[global] Program Instance infbw_laws : DramLaws infbw := { dram_ok _ m := ok (sdram m) }.
Next Obligation. done. Qed.
Next Obligation. intros t m cmd addr size _ Hs Hok. by apply access_safe. Qed.
Next Obligation. intros t m _. apply refresh_safe. Qed.

End dram_simplesdram_infbw.
