(* ===== verification/MemCtrl.v ===== *)
(** * MemCtrl: the simple memory controller

    MC-simple.cpp: a ring of requests that are sent to the DRAM, the open page first
    or in order, answered one per cycle when the bus is free, and retired from the head.
    The DRAM is any model of the interface of Dram; the answer (fill_arrived of the cache
    and bus_use) is an operation of the environment.  The claims: the ring does what a
    plain list of requests would do, and no request is lost, answered twice or starved.

    Its runs: MC-simple.cpp with a recording requester and any DRAM of the interface of Dram, cycle
    after cycle, with requests arriving at the end of a cycle as the last-level cache sends
    them.  The claims: the requests that were accepted are the ones answered and the ones
    still in the ring, each once; and a free bus answers every accepted request within a
    bounded number of cycles, whatever arrives after it. *)

From S2P Require Import Prelude Misc Memory CacheSet CacheHeap Dram.

Module mc.

(** Source: src/xiosim/zesto-MC.h:69-87 MC_action_t.
    Pointers are the numbers of the objects they point to. *)
Record MC_action : Type := mk_action {
  valid : bool;
  op : option Z;
  action_id : Z;
  addr : Z;
  linesize : Z;
  MSHR_bank : Z;
  MSHR_index : Z;
  cmd : cache_command;
  prev_cp : option Z;
  cb : option Z;
  get_action_id : option Z;
  when_enqueued : Z;
  when_started : Z;
  when_finished : Z;
  when_returned : Z
}.

Definition no_action : MC_action := mk_action false None 0 0 0 0 0 CACHE_NOP None None None 0 0 0 0.

Definition with_times (s f r : Z) (a : MC_action) : MC_action :=
  mk_action (valid a) (op a) (action_id a) (addr a) (linesize a) (MSHR_bank a) (MSHR_index a) (cmd a) (prev_cp a) (cb a)
    (get_action_id a) (when_enqueued a) s f r.
Definition with_start (s f : Z) (a : MC_action) : MC_action := with_times s f (when_returned a) a.
Definition with_return (t : Z) (a : MC_action) : MC_action := with_times (when_started a) (when_finished a) t a.
Definition invalidated (a : MC_action) : MC_action :=
  mk_action false (op a) (action_id a) (addr a) (linesize a) (MSHR_bank a) (MSHR_index a) (cmd a) (prev_cp a) (cb a)
    (get_action_id a) (when_enqueued a) (when_started a) (when_finished a) (when_returned a).

(** Source: src/xiosim/ZCOMPS-MC/MC-simple.cpp:27-37 MC_simple_t. *)
Record t : Type := mk {
  RQ_size : Z;
  RQ_num : Z;
  RQ_head : Z;
  RQ_tail : Z;
  RQ : list MC_action;
  FIFO_scheduling : bool;
  last_request : Z;
  next_available_time : Z;
  accesses : Z;
  dram_cycles : Z;
  service_cycles : Z
}.

(** Source: src/xiosim/ZCOMPS-MC/MC-simple.cpp:41-51 MC_simple_t. *)
Definition create (size : Z) (fifo : bool) : t := mk size 0 0 0 (replicate (Z.to_nat size) no_action) fifo 0 0 0 0 0.

Definition with_RQ (l : list MC_action) (m : t) : t :=
  mk (RQ_size m) (RQ_num m) (RQ_head m) (RQ_tail m) l (FIFO_scheduling m) (last_request m) (next_available_time m)
    (accesses m) (dram_cycles m) (service_cycles m).

(** The rest of the uncore: the front-side bus, and the cache that is answered. *)
Class MCEnv (E : Type) : Type := {
  fsb_free : E → bool;
  respond : E → MC_action → result E
}.

(** Source: src/xiosim/ZCOMPS-MC/MC-simple.cpp:58-61 enqueuable. *)
Definition enqueuable (m : t) : bool := RQ_num m <? RQ_size m.

(** Source: src/xiosim/ZCOMPS-MC/MC-simple.cpp:64-90 enqueue. *)
Definition enqueue (m : t) (now : Z) (r : MC_action) : result t :=
  let* _ := guard_or (RQ_num m <? RQ_size m) AssertFail in
  let* old := aget (RQ m) (RQ_tail m) in
  let* _ := guard_or (negb (valid old)) AssertFail in
  let* l := aset (RQ m) (RQ_tail m)
    (mk_action true (op r) (action_id r) (addr r) (linesize r) (MSHR_bank r) (MSHR_index r) (cmd r) (prev_cp r) (cb r)
       (get_action_id r) now TICK_T_MAX TICK_T_MAX TICK_T_MAX) in
  Ok (mk (RQ_size m) (RQ_num m + 1) (RQ_head m) (modinc (RQ_tail m) (RQ_size m)) l (FIFO_scheduling m) (last_request m)
        (next_available_time m) (accesses m + 1) (dram_cycles m) (service_cycles m)).

Definition page (r : MC_action) : Z := Z.shiftr (addr r) PAGE_SHIFT.

(** Source: src/xiosim/ZCOMPS-MC/MC-simple.cpp:109-134 step.
    The search for a request to send, [n] entries from [idx] on; [req] is the one found
    so far, with its page. *)
Fixpoint scan (n : nat) (m : t) (idx : Z) (req : option (Z * Z)) : result (option (Z * Z)) :=
  match n with
  | O => Ok req
  | S n =>
      let* r := aget (RQ m) idx in
      let* _ := guard_or (valid r) AssertFail in
      let next req := scan n m (modinc idx (RQ_size m)) req in
      if when_started r =? TICK_T_MAX then
        match req with
        | None => if FIFO_scheduling m || (page r =? last_request m) then Ok (Some (idx, page r)) else next (Some (idx, page r))
        | Some _ => if page r =? last_request m then Ok (Some (idx, page r)) else next req
        end
      else next req
  end.

Section step.
Context {D : Type} `{Dram D} {E : Type} `{MCEnv E}.

(** Source: src/xiosim/ZCOMPS-MC/MC-simple.cpp:104-145 step.
    A request is sent to the DRAM. *)
Definition send (now : Z) (m : t) (d : D) : result (t * D) :=
  if next_available_time m <=? now then
    let* req := scan (Z.to_nat (RQ_num m)) m (RQ_head m) None in
    match req with
    | None => Ok (m, d)
    | Some (i, req_page) =>
        let* r := aget (RQ m) i in
        let* '(d, lat) := dram_access d now (cmd r) (addr r) (linesize r) in
        let* l := aset (RQ m) i (with_start now (now + lat) r) in
        Ok (mk (RQ_size m) (RQ_num m) (RQ_head m) (RQ_tail m) l (FIFO_scheduling m) req_page (now + 1) (accesses m)
              (dram_cycles m + lat) (service_cycles m), d)
    end
  else Ok (m, d).

(** Source: src/xiosim/ZCOMPS-MC/MC-simple.cpp:147-168 step.
    The requests that the DRAM has completed are answered, [n] entries from [idx] on. *)
Fixpoint answer (n : nat) (now : Z) (m : t) (e : E) (idx : Z) : result (t * E) :=
  match n with
  | O => Ok (m, e)
  | S n =>
      let* r := aget (RQ m) idx in
      let next m := answer n now m e (modinc idx (RQ_size m)) in
      if (when_finished r <=? now) && (when_returned r =? TICK_T_MAX) && (bool_decide (prev_cp r = None) || fsb_free e) then
        let* l := aset (RQ m) idx (with_return now r) in
        let m := mk (RQ_size m) (RQ_num m) (RQ_head m) (RQ_tail m) l (FIFO_scheduling m) (last_request m)
                   (next_available_time m) (accesses m) (dram_cycles m) (service_cycles m + (now - when_enqueued r)) in
        match prev_cp r with
        | Some _ => let* e := respond e (with_return now r) in Ok (m, e)
        | None => next m
        end
      else next m
  end.

(** Source: src/xiosim/ZCOMPS-MC/MC-simple.cpp:170-181 step.
    The request at the head leaves when it has been answered. *)
Definition retire (now : Z) (m : t) : result t :=
  let* r := aget (RQ m) (RQ_head m) in
  if valid r && (when_returned r <=? now) then
    let* l := aset (RQ m) (RQ_head m) (invalidated r) in
    let* _ := guard_or (0 <=? RQ_num m - 1) AssertFail in
    Ok (mk (RQ_size m) (RQ_num m - 1) (modinc (RQ_head m) (RQ_size m)) (RQ_tail m) l (FIFO_scheduling m) (last_request m)
          (next_available_time m) (accesses m) (dram_cycles m) (service_cycles m))
  else Ok m.

(** Source: src/xiosim/ZCOMPS-MC/MC-simple.cpp:93-183 step. *)
Definition step (now : Z) (m : t) (d : D) (e : E) : result (t * D * E) :=
  if 0 <? RQ_num m then
    let* '(m, d) := send now m d in
    let* '(m, e) := answer (Z.to_nat (RQ_num m)) now m e (RQ_head m) in
    let* m := retire now m in
    Ok (m, d, e)
  else Ok (m, d, e).

(** Source: src/xiosim/ZCOMPS-MC/MC-ideal.cpp:31-34 enqueuable. *)
Definition ideal_enqueuable : bool := true.

(** Source: src/xiosim/ZCOMPS-MC/MC-ideal.cpp:37-48 enqueue.
    The ideal controller keeps nothing and answers at once; its state is the number of
    accesses. *)
Definition ideal_enqueue (accesses : Z) (e : E) (r : MC_action) : result (Z * E) :=
  let* e := match prev_cp r with Some _ => respond e r | None => Ok e end in
  Ok (accesses + 1, e).

(** ** The list the ring stands for *)

Definition queue (m : t) : list MC_action := ring.window (RQ m) (RQ_size m) (RQ_head m) (RQ_num m).

Definition waiting (r : MC_action) : Prop := when_started r = TICK_T_MAX.
Definition ready (now : Z) (r : MC_action) : Prop := when_finished r ≤ now ∧ when_returned r = TICK_T_MAX.

(** The request to send: the first one that waits for the open page, or the first one. *)
Definition pick (fifo : bool) (last : Z) (q : list MC_action) : option (nat * MC_action) :=
  match (if fifo then None else list_find (λ r, waiting r ∧ page r = last) q) with
  | Some x => Some x
  | None => list_find waiting q
  end.

(** The controller with a list for its ring. *)
Record spec : Type := mk_spec { s_queue : list MC_action; s_last : Z; s_avail : Z }.

Definition abstract (m : t) : spec := mk_spec (queue m) (last_request m) (next_available_time m).

Definition spec_send (fifo : bool) (now : Z) (s : spec) (d : D) : result (spec * D) :=
  if s_avail s <=? now then
    match pick fifo (s_last s) (s_queue s) with
    | None => Ok (s, d)
    | Some (i, r) =>
        let* '(d, lat) := dram_access d now (cmd r) (addr r) (linesize r) in
        Ok (mk_spec (<[i := with_start now (now + lat) r]> (s_queue s)) (page r) (now + 1), d)
    end
  else Ok (s, d).

Definition spec_answer (now : Z) (s : spec) (e : E) : result (spec * E) :=
  match (if fsb_free e then list_find (ready now) (s_queue s) else None) with
  | Some (i, r) =>
      let* e := respond e (with_return now r) in
      Ok (mk_spec (<[i := with_return now r]> (s_queue s)) (s_last s) (s_avail s), e)
  | None => Ok (s, e)
  end.

Definition spec_retire (now : Z) (s : spec) : spec :=
  match s_queue s with
  | r :: q => if when_returned r <=? now then mk_spec q (s_last s) (s_avail s) else s
  | [] => s
  end.

Definition spec_step (fifo : bool) (now : Z) (s : spec) (d : D) (e : E) : result (spec * D * E) :=
  let* '(s, d) := spec_send fifo now s d in
  let* '(s, e) := spec_answer now s e in
  Ok (spec_retire now s, d, e).

(** ** The ring does what the list does *)

Record entry_ok (r : MC_action) : Prop := {
  e_valid : valid r = true;
  e_prev : prev_cp r ≠ None;
  e_size : 1 ≤ linesize r < 2 ^ 20
}.

Record ok (m : t) : Prop := {
  ok_ring : ring.ring_ok (RQ m) (RQ_size m) (RQ_head m) (RQ_num m) (RQ_tail m);
  ok_entries : Forall entry_ok (queue m);
  ok_free : ring.free (λ r, valid r = false) (RQ m) (RQ_size m) (RQ_head m) (RQ_num m)
}.

Lemma mc_entry_at m j r : ok m → queue m !! j = Some r →
  aget (RQ m) (ring.slot (RQ_size m) (RQ_head m) (Z.of_nat j)) = Ok r ∧ 0 ≤ Z.of_nat j < RQ_num m ∧ entry_ok r.
Proof.
  intros [Hr He _] Ej. pose proof (Forall_lookup_1 _ _ _ _ He Ej) as Hok. pose proof (lookup_lt_Some _ _ _ Ej) as Hlt.
  pose proof (ring.window_length _ _ _ _ _ Hr) as Hlen. unfold queue in *.
  assert (0 ≤ Z.of_nat j < RQ_num m) as Hj by lia. split; [|done].
  rewrite <- (Nat2Z.id j), (ring.window_lookup _ _ _ _ _ _ Hr Hj) in Ej.
  apply aget_lookup; [|done]. pose proof Hr as [Hs _ _ Hh _]. apply ring.slot_in_range; done.
Qed.

(** An entry changes its times. *)
Lemma update_ok m j r r' q lr na ac dc sc : ok m → queue m !! j = Some r → entry_ok r' →
  let m' := mk (RQ_size m) (RQ_num m) (RQ_head m) (RQ_tail m) q (FIFO_scheduling m) lr na ac dc sc in
  q = <[Z.to_nat (ring.slot (RQ_size m) (RQ_head m) (Z.of_nat j)) := r']> (RQ m) →
  ok m' ∧ queue m' = <[j := r']> (queue m).
Proof.
  intros Hok Ej Hr' m' ->. destruct (mc_entry_at m j r Hok Ej) as (_ & Hj & _). pose proof Hok as [Hr He Hf].
  destruct (ring.window_insert _ _ _ _ _ _ r' Hr Hj) as [Hring Hw].
  assert (queue m' = <[j := r']> (queue m)) as Hq by (unfold queue, m'; simpl; by rewrite Hw, Nat2Z.id).
  split; [|done]. split; [done|rewrite Hq; by apply Forall_insert|by eapply ring.free_insert].
Qed.

Lemma aset_slot m j r r' : ok m → queue m !! j = Some r →
  aset (RQ m) (ring.slot (RQ_size m) (RQ_head m) (Z.of_nat j)) r' =
  Ok (<[Z.to_nat (ring.slot (RQ_size m) (RQ_head m) (Z.of_nat j)) := r']> (RQ m)).
Proof.
  intros [[Hs Hl _ Hh _] _ _] _. apply aset_ok. pose proof (ring.slot_in_range _ (RQ_head m) Hs (Z.of_nat j)). lia.
Qed.

Lemma find_cons (P : MC_action → Prop) `{∀ x, Decision (P x)} r l :
  list_find P (r :: l) = if decide (P r) then Some (0%nat, r) else prod_map S id <$> list_find P l.
Proof. done. Qed.

(** The scan of the entries behind [pre]. *)
Lemma scan_ok m l pre req : ok m → queue m = pre ++ l → (FIFO_scheduling m = true → req = None) →
  scan (length l) m (ring.slot (RQ_size m) (RQ_head m) (Z.of_nat (length pre))) req =
    Ok (match (match req with None => pick (FIFO_scheduling m) (last_request m) l
                         | Some _ => list_find (λ r, waiting r ∧ page r = last_request m) l end) with
        | Some (i, r) => Some (ring.slot (RQ_size m) (RQ_head m) (Z.of_nat (length pre + i)), page r)
        | None => req
        end).
Proof.
  intros Hok. revert pre req. induction l as [|r l IH]; intros pre req Eq Hfifo.
  { destruct req; [done|]. unfold pick. by destruct (FIFO_scheduling m). }
  assert (queue m !! length pre = Some r) as Er by (rewrite Eq, lookup_app_r, Nat.sub_diag by lia; done).
  destruct (mc_entry_at m _ r Hok Er) as (G & _ & [Hv _ _]). cbn [scan length]. rewrite G. cbn [rbind]. rewrite Hv. cbn [guard_or rbind].
  rewrite ring.modinc_slot by apply Hok.
  replace (Z.of_nat (length pre) + 1) with (Z.of_nat (length (pre ++ [r]))) by (rewrite length_app; simpl; lia).
  assert (queue m = (pre ++ [r]) ++ l) as Eq' by by rewrite <- app_assoc.
  assert (∀ i, length (pre ++ [r]) + i = length pre + S i)%nat as Elen by (intros i; rewrite length_app; simpl; lia).
  assert (∀ o : option (nat * MC_action), match o with Some (i, x) => Some (ring.slot (RQ_size m) (RQ_head m) (Z.of_nat (length (pre ++ [r]) + i)), page x) | None => req end =
    match prod_map S id <$> o with Some (i, x) => Some (ring.slot (RQ_size m) (RQ_head m) (Z.of_nat (length pre + i)), page x) | None => req end) as Eo.
  { intros [[i x]|]; [|done]. simpl. by rewrite Elen. }
  destruct (Z.eqb_spec (when_started r) TICK_T_MAX) as [Hw|Hw].
  - destruct req as [x|].
    + destruct (FIFO_scheduling m); [by specialize (Hfifo eq_refl)|]. rewrite find_cons.
      destruct (Z.eqb_spec (page r) (last_request m)) as [Hp|Hp].
      * rewrite decide_True by done. by rewrite Nat.add_0_r.
      * rewrite decide_False by by intros []. rewrite (IH (pre ++ [r]) (Some x) Eq' ltac:(done)). by rewrite Eo.
    + unfold pick. destruct (FIFO_scheduling m) eqn:Ef; simpl orb.
      * rewrite find_cons, decide_True by done. by rewrite Nat.add_0_r.
      * rewrite !find_cons. destruct (Z.eqb_spec (page r) (last_request m)) as [Hp|Hp].
        -- rewrite decide_True by done. by rewrite Nat.add_0_r.
        -- rewrite decide_False, decide_True by (done || by intros []). rewrite (IH (pre ++ [r]) (Some _) Eq' ltac:(done)).
           destruct (list_find _ l) as [[i x]|]; simpl; [by rewrite Elen|by rewrite Nat.add_0_r].
  - rewrite (IH (pre ++ [r]) req Eq' Hfifo). f_equal. destruct req as [x|].
    + rewrite Eo, find_cons, decide_False by by intros []. done.
    + rewrite Eo. unfold pick. rewrite !find_cons, !decide_False by (done || by intros []).
      destruct (FIFO_scheduling m); [done|]. by destruct (list_find (λ r, waiting r ∧ page r = last_request m) l) as [[i x]|].
Qed.

Lemma queue_slots m : ok m → length (queue m) = Z.to_nat (RQ_num m).
Proof. intros Hok. pose proof (ring.window_length _ _ _ _ _ (ok_ring _ Hok)). unfold queue. lia. Qed.

Lemma pick_spec fifo last q i r : pick fifo last q = Some (i, r) → q !! i = Some r ∧ waiting r.
Proof.
  unfold pick. intros Hp. assert (list_find (λ r, waiting r ∧ page r = last) q = Some (i, r) ∨ list_find waiting q = Some (i, r)) as [Hf|Hf].
  { destruct fifo; [by right|]. case_match; [|by right]. injection Hp as ->. by left. }
  all: by apply list_find_Some in Hf as (? & ? & _); intuition.
Qed.

(** The states correspond. *)
Definition refines (m : t) (s : spec) : Prop := ok m ∧ abstract m = s.

(** What does not change. *)
Definition same (m m' : t) : Prop := RQ_size m' = RQ_size m ∧ FIFO_scheduling m' = FIFO_scheduling m.

Lemma send_refines now m d : ok m →
  sim (λ '(m', d') '(s', d''), refines m' s' ∧ d' = d'' ∧ same m m' ∧ RQ_num m' = RQ_num m)
    (send now m d) (spec_send (FIFO_scheduling m) now (abstract m) d).
Proof.
  intros Hok. unfold send, spec_send. simpl. case_match; [|done].
  pose proof (scan_ok m (queue m) [] None Hok eq_refl ltac:(done)) as Hs. rewrite queue_slots in Hs by done. simpl length in Hs.
  rewrite ring.slot_0 in Hs by apply Hok. rewrite Hs. cbn [rbind].
  destruct (pick _ _ _) as [[i r]|] eqn:Ep; [|done]. apply pick_spec in Ep as [Er Hw]. simpl plus.
  destruct (mc_entry_at m i r Hok Er) as (G & Hi & Hr). rewrite G. cbn [rbind].
  eapply sim_bind; [apply sim_refl|]. intros [d1 lat] ? <-. rewrite (aset_slot m i r) by done. cbn [rbind sim].
  edestruct (update_ok m i r (with_start now (now + lat) r)) as [Hok' Hq]; [done|exact Er|by destruct Hr; split|reflexivity|].
  split; [split; [exact Hok'|]|done]. unfold abstract. simpl. f_equal. exact Hq.
Qed.

(** The answers to the entries behind [pre]. *)
Lemma answer_ok now m e l pre : ok m → queue m = pre ++ l →
  sim (λ '(m', e') '(q, e''), ok m' ∧ queue m' = q ∧ e' = e'' ∧ last_request m' = last_request m ∧
      next_available_time m' = next_available_time m ∧ RQ_num m' = RQ_num m ∧ same m m')
    (answer (length l) now m e (ring.slot (RQ_size m) (RQ_head m) (Z.of_nat (length pre))))
    (match (if fsb_free e then list_find (ready now) l else None) with
     | Some (i, r) => let* e := respond e (with_return now r) in Ok (<[(length pre + i)%nat := with_return now r]> (queue m), e)
     | None => Ok (queue m, e)
     end).
Proof.
  intros Hok. revert pre. induction l as [|r l IH]; intros pre Eq.
  { simpl. by destruct (fsb_free e). }
  assert (queue m !! length pre = Some r) as Er by (rewrite Eq, lookup_app_r, Nat.sub_diag by lia; done).
  destruct (mc_entry_at m _ r Hok Er) as (G & _ & Hr). cbn [answer length]. rewrite G. cbn [rbind].
  rewrite ring.modinc_slot by apply Hok.
  replace (Z.of_nat (length pre) + 1) with (Z.of_nat (length (pre ++ [r]))) by (rewrite length_app; simpl; lia).
  specialize (IH (pre ++ [r]) ltac:(by rewrite <- app_assoc)).
  rewrite (bool_decide_false (prev_cp r = None)) by apply Hr. simpl orb.
  destruct (fsb_free e); [|by rewrite andb_false_r]. rewrite andb_true_r, find_cons.
  destruct (decide (ready now r)) as [[Hf Hn]|Hn].
  - rewrite (proj2 (Z.leb_le _ _)), (proj2 (Z.eqb_eq _ _)) by done. cbn [andb].
    rewrite (aset_slot m (length pre) r) by done. cbn [rbind]. destruct (prev_cp r) eqn:Epr; [|by destruct Hr].
    eapply sim_bind; [apply sim_refl|]. intros e1 ? <-. cbn [sim].
    edestruct (update_ok m (length pre) r (with_return now r)) as [Hok' Hq]; [done|exact Er|by destruct Hr; split|reflexivity|].
    rewrite Nat.add_0_r. split; [exact Hok'|]. split; [exact Hq|done].
  - assert ((when_finished r <=? now) && (when_returned r =? TICK_T_MAX) = false) as ->.
    { apply not_true_iff_false. intros [H1%Z.leb_le H2%Z.eqb_eq]%andb_true_iff. by apply Hn. }
    destruct (list_find (ready now) l) as [[i x]|]; simpl; [|done].
    replace (length pre + S i)%nat with (length (pre ++ [r]) + i)%nat by (rewrite length_app; simpl; lia). done.
Qed.

Lemma retire_refines now m : ok m → 1 ≤ RQ_num m → wp (retire now m) (λ m', refines m' (spec_retire now (abstract m)) ∧ same m m').
Proof.
  intros Hok Hn. pose proof Hok as [Hr He Hf]. pose proof Hr as [Hs Hl Hnum Hh Ht]. unfold retire, spec_retire, abstract at 1. simpl.
  destruct (ring.window_pop _ _ _ _ _ Hr Hn) as (_ & r & Gr & Eq). fold (queue m) in Eq. rewrite Gr, Eq. cbn [rbind].
  assert (entry_ok r) as Hre by (rewrite Eq in He; by apply list.Forall_cons in He as [? _]).
  rewrite (e_valid _ Hre). cbn [andb]. destruct (when_returned r <=? now); [|split; [split; [done|unfold abstract; by rewrite Eq]|done]].
  apply aget_inv in Gr as [Hhead _]. rewrite aset_ok by lia. cbn [rbind]. rewrite (proj2 (Z.leb_le _ _)) by lia. cbn [guard_or rbind wp].
  destruct (ring.window_insert _ _ _ _ _ 0 (invalidated r) Hr ltac:(lia)) as [Hr' Hw]. rewrite ring.slot_0 in Hr', Hw by done.
  destruct (ring.window_pop _ _ _ _ _ Hr' Hn) as (Hr2 & x & _ & Eq2). rewrite Hw in Eq2. fold (queue m) in Eq2. rewrite Eq in Eq2.
  simpl in Eq2. injection Eq2 as _ Eq2. split; [|done]. split.
  - split; simpl; [done|unfold queue; simpl; rewrite <- Eq2; rewrite Eq in He; by apply list.Forall_cons in He as [_ ?]|].
    by eapply ring.free_pop.
  - unfold abstract, queue at 1. simpl. by rewrite <- Eq2.
Qed.

Lemma answer_refines now m e : ok m →
  sim (λ '(m', e') '(s, e''), refines m' s ∧ e' = e'' ∧ RQ_num m' = RQ_num m ∧ same m m')
    (answer (Z.to_nat (RQ_num m)) now m e (RQ_head m)) (spec_answer now (abstract m) e).
Proof.
  intros Hok. pose proof (answer_ok now m e (queue m) [] Hok eq_refl) as Ha. simpl length in Ha.
  rewrite queue_slots in Ha by done. rewrite ring.slot_0 in Ha by apply Hok. unfold spec_answer. simpl in *.
  destruct (if fsb_free e then _ else _) as [[i r]|]; [destruct (respond e _) as [e1|]|]; simpl in *;
    destruct (answer _ _ _ _ _) as [[m' e']|]; simpl in *; try done;
    destruct Ha as (Hok' & Hq & He & Hl & Hna & Hn & Hf); split_and?; try done;
    (split; [done|]; unfold abstract; by rewrite Hq, Hl, Hna).
Qed.

Lemma step_refines now m d e : ok m →
  sim (λ '(m', d', e') '(s, d'', e''), refines m' s ∧ d' = d'' ∧ e' = e'' ∧ same m m')
    (step now m d e) (spec_step (FIFO_scheduling m) now (abstract m) d e).
Proof.
  intros Hok. unfold step, spec_step. destruct (Z.ltb_spec 0 (RQ_num m)) as [Hn|Hn].
  2: { assert (queue m = []) as Eq by (apply length_zero_iff_nil; rewrite (queue_slots m Hok); lia).
       unfold spec_send, abstract, spec_answer, spec_retire. rewrite Eq. unfold pick. simpl.
       destruct (FIFO_scheduling m), (_ <=? now); simpl; destruct (fsb_free e); simpl; split_and?; try done; (split; [done|]); unfold abstract; by rewrite Eq. }
  eapply sim_bind; [by apply send_refines|]. intros [m1 d1] [s1 d1'] ([Hok1 <-] & <- & [Es1 Ef1] & En).
  eapply sim_bind; [by apply answer_refines|]. intros [m2 e2] [s2 e2'] ([Hok2 <-] & <- & En2 & [Es2 Ef2]).
  pose proof (retire_refines now m2 Hok2 ltac:(lia)) as Hr. apply wp_exists in Hr as (m3 & E3 & Hr & [Es3 Ef3]).
  rewrite E3. simpl. repeat (split; [done|]). split; congruence.
Qed.

(** A request as it is when it arrives. *)
Definition fresh (now : Z) (r : MC_action) : MC_action :=
  mk_action true (op r) (action_id r) (addr r) (linesize r) (MSHR_bank r) (MSHR_index r) (cmd r) (prev_cp r) (cb r)
    (get_action_id r) now TICK_T_MAX TICK_T_MAX TICK_T_MAX.

Lemma enqueue_refines now m r : ok m → enqueuable m = true → prev_cp r ≠ None → 1 ≤ linesize r < 2 ^ 20 →
  wp (enqueue m now r) (λ m', refines m' (mk_spec (queue m ++ [fresh now r]) (last_request m) (next_available_time m)) ∧ same m m').
Proof.
  intros Hok Hroom%Z.ltb_lt Hp Hsz. pose proof Hok as [Hr He Hf]. pose proof Hr as [Hs Hl Hn Hh Ht]. unfold enqueue.
  rewrite (proj2 (Z.ltb_lt _ _)) by done. cbn [guard_or rbind].
  destruct (ring.slot_get _ _ _ _ _ (RQ_num m) Hr) as (old & _ & G). rewrite Ht, G. cbn [rbind].
  rewrite (Hf (RQ_num m) old) by (done || lia). cbn [negb guard_or rbind].
  pose proof (ring.slot_in_range _ (RQ_head m) Hs (RQ_num m)). rewrite aset_ok by lia. cbn [rbind wp].
  destruct (ring.window_push _ _ _ _ _ (fresh now r) Hr Hroom) as [Hr' Hw]. rewrite Ht in Hr', Hw.
  split; [|done]. split; [|unfold abstract; f_equal; exact Hw]. split; simpl; [done| |].
  - unfold queue. simpl. fold (fresh now r). rewrite Hw. apply list.Forall_app. split; [done|]. apply list.Forall_singleton. by split.
  - rewrite <- Ht. by eapply ring.free_push.
Qed.

Lemma mc_create_ok size fifo : 1 ≤ size < 2 ^ 31 → ok (create size fifo) ∧ queue (create size fifo) = [].
Proof.
  intros Hs. split; [|done]. split; simpl; [by apply ring.ring_create|done|].
  intros j r _ G. apply aget_inv in G as [_ G]. by apply lookup_replicate in G as [-> _].
Qed.

End step.
End mc.

Module mc_run.
Import mc.

(** A request without the times that the controller writes. *)
Definition asked (r : MC_action) : MC_action := with_times 0 0 0 r.

(** The requester: whether the bus is free, and the answers it got. *)
Record requester : Type := mk_requester { bus_free : bool; answered : list MC_action }.

#[export] Instance requester_env : MCEnv requester := {
  fsb_free := bus_free;
  respond e r := Ok (mk_requester false (answered e ++ [asked r]))
}.

(** What happens in a cycle: whether the bus is free, and the requests that arrive. *)
Record tick : Type := mk_tick { t_bus : bool; t_requests : list MC_action }.

Definition request_ok (r : MC_action) : Prop := prev_cp r ≠ None ∧ 1 ≤ linesize r < 2 ^ 20.
Definition tick_ok (k : tick) : Prop := Forall request_ok (t_requests k).

Section run.
Context {D : Type} `{HL : DramLaws D}.

Record world : Type := mk_world {
  w_mc : t;
  w_dram : D;
  w_answered : list MC_action;
  w_accepted : list MC_action
}.

Definition start (size : Z) (fifo : bool) (d : D) : world := mk_world (create size fifo) d [] [].

(** A request is sent when the controller has room for it. *)
Definition arrive (now : Z) (w : world) (r : MC_action) : result world :=
  if enqueuable (w_mc w) then
    let* m := enqueue (w_mc w) now r in
    Ok (mk_world m (w_dram w) (w_answered w) (w_accepted w ++ [asked (fresh now r)]))
  else Ok w.

Fixpoint arrivals (now : Z) (rs : list MC_action) (w : world) : result world :=
  match rs with
  | [] => Ok w
  | r :: rs => let* w := arrive now w r in arrivals now rs w
  end.

(** Source: src/xiosim/sim-loop.cpp:142-144 simulate. *)
Definition cycle (now : Z) (k : tick) (w : world) : result world :=
  let* d := dram_refresh (w_dram w) now in
  let* '(m, d, e) := step now (w_mc w) d (mk_requester (t_bus k) (w_answered w)) in
  arrivals now (t_requests k) (mk_world m d (answered e) (w_accepted w)).

Fixpoint run (now : Z) (ks : list tick) (w : world) : result world :=
  match ks with
  | [] => Ok w
  | k :: ks => let* w := cycle now k w in run (now + 1) ks w
  end.

(** ** Books *)

Definition returned (r : MC_action) : Prop := when_returned r ≠ TICK_T_MAX.

(** The requests that left are the first ones that were accepted, and each request is
    answered when it has the time of its return. *)
Definition books (acc ans : list MC_action) (q : list MC_action) : Prop :=
  ∃ ret, acc = ret ++ (asked <$> q) ∧ ans ≡ₚ ret ++ (asked <$> filter returned q).

Lemma insert_split {A} (q : list A) i r r' : q !! i = Some r →
  ∃ a b, length a = i ∧ q = a ++ r :: b ∧ <[i := r']> q = a ++ r' :: b.
Proof.
  intros Hi. exists (take i q), (drop (S i) q). pose proof (lookup_lt_Some _ _ _ Hi).
  split; [rewrite length_take; lia|]. split; [by rewrite take_drop_middle|].
  by rewrite insert_take_drop.
Qed.

Lemma asked_insert (q : list MC_action) i r r' : q !! i = Some r → asked r' = asked r → asked <$> <[i := r']> q = asked <$> q.
Proof.
  intros Hi Er. destruct (insert_split q i r r' Hi) as (a & b & _ & -> & ->). rewrite !fmap_app, !fmap_cons. by rewrite Er.
Qed.

Lemma books_send acc ans q i r s f : q !! i = Some r → books acc ans q → books acc ans (<[i := with_start s f r]> q).
Proof.
  intros Hi (ret & Ha & Hn). exists ret. rewrite (asked_insert q i r) by done. split; [done|]. rewrite Hn. f_equiv.
  destruct (insert_split q i r (with_start s f r) Hi) as (a & b & _ & -> & ->). rewrite !list.filter_app, !filter_cons.
  destruct (decide (returned r)) as [Hr|Hr]; [rewrite (decide_True (P:=returned (with_start s f r))) by done|
    rewrite (decide_False (P:=returned (with_start s f r))) by done]; by rewrite !fmap_app.
Qed.

Lemma books_answer acc ans q i r now : q !! i = Some r → ¬ returned r → now ≠ TICK_T_MAX → books acc ans q →
  books acc (ans ++ [asked r]) (<[i := with_return now r]> q).
Proof.
  intros Hi Hr Ht (ret & Ha & Hn). exists ret. rewrite (asked_insert q i r) by done. split; [done|]. rewrite Hn.
  destruct (insert_split q i r (with_return now r) Hi) as (a & b & _ & -> & ->). rewrite !list.filter_app.
  rewrite filter_cons_False, filter_cons_True by done. rewrite !fmap_app, fmap_cons. rewrite <- !app_assoc. do 2 f_equiv.
  by rewrite Permutation_app_comm.
Qed.

Lemma books_retire acc ans q r : returned r → books acc ans (r :: q) → books acc ans q.
Proof.
  intros Hr (ret & Ha & Hn). exists (ret ++ [asked r]). rewrite fmap_cons in Ha. rewrite filter_cons_True, fmap_cons in Hn by done.
  by rewrite <- !app_assoc.
Qed.

Lemma books_arrive acc ans q l : Forall (λ r, ¬ returned r) l → books acc ans q → books (acc ++ (asked <$> l)) ans (q ++ l).
Proof.
  intros Hl (ret & -> & Hn). exists ret. rewrite fmap_app, <- app_assoc. split; [done|]. rewrite Hn, list.filter_app.
  assert (filter returned l = []) as ->; [|by rewrite app_nil_r].
  induction Hl as [|r l Hr _ IH]; [done|]. by rewrite filter_cons_False.
Qed.

(** Each accepted request is answered or waits in the ring. *)
Lemma books_split acc ans q : books acc ans q → acc ≡ₚ ans ++ (asked <$> filter (λ r, ¬ returned r) q).
Proof.
  intros (ret & -> & ->). rewrite <- app_assoc. f_equiv. rewrite <- fmap_app. f_equiv. symmetry.
  induction q as [|r q IH]; [done|]. rewrite !filter_cons. destruct (decide (returned r)) as [Hr|Hr].
  - rewrite decide_False by (intros Hn; by apply Hn). simpl. by rewrite IH.
  - rewrite decide_True by done. rewrite <- Permutation_middle. by rewrite IH.
Qed.

(** ** Times *)

(** The DRAM states of the run, whose accesses take at most [L] cycles. *)
Variables (L : Z) (B : D → Prop).

Definition bounded_dram : Prop := 0 ≤ L ∧
  (∀ d now cmd addr size, B d → 0 ≤ now → 1 ≤ size < 2 ^ 20 → dram_ok now d →
     wp (dram_access d now cmd addr size) (λ '(d', lat), B d' ∧ lat ≤ L)) ∧
  ∀ d now, B d → 0 ≤ now → dram_ok now d → wp (dram_refresh d now) B.

Hypothesis HB : bounded_dram.

(** The times of an entry before the cycle [now]. *)
Record timed (now : Z) (r : MC_action) : Prop := {
  t_returned : returned r → when_returned r < now;
  t_waiting : waiting r → when_finished r = TICK_T_MAX ∧ when_returned r = TICK_T_MAX;
  t_started : ¬ waiting r → when_finished r < now + L
}.

Lemma timed_later now r : timed now r → timed (now + 1) r.
Proof. intros [H1 H2 H3]. split; [intros Hr%H1; lia|done|intros Hs%H3; lia]. Qed.

Lemma not_returned r : ¬ returned r → when_returned r = TICK_T_MAX.
Proof. unfold returned. intros Hn. by destruct (decide (when_returned r = TICK_T_MAX)). Qed.

(** The entries that were sent. *)
Definition started (q : list MC_action) : Z := Z.of_nat (length (filter (λ r, ¬ waiting r) q)).

Lemma started_insert (q : list MC_action) i r r' : q !! i = Some r → waiting r → ¬ waiting r' → started (<[i := r']> q) = started q + 1.
Proof.
  intros Hi Hr Hr'. destruct (insert_split q i r r' Hi) as (a & b & _ & -> & ->). unfold started. rewrite !list.filter_app.
  rewrite filter_cons_True by done. rewrite filter_cons_False by (intros Hn; by apply Hn). rewrite !length_app. simpl. lia.
Qed.

Lemma started_same (q : list MC_action) i r r' : q !! i = Some r → when_started r' = when_started r → started (<[i := r']> q) = started q.
Proof.
  intros Hi Hr. destruct (insert_split q i r r' Hi) as (a & b & _ & -> & ->). unfold started. rewrite !list.filter_app, !filter_cons.
  destruct (decide (waiting r)) as [Hw|Hw].
  - rewrite !decide_False; [done|intros Hn; by apply Hn|]. unfold waiting in *. rewrite Hr. intros Hn. by apply Hn.
  - rewrite !decide_True; [by rewrite !length_app|done|]. unfold waiting in *. by rewrite Hr.
Qed.

Lemma started_arrive q l : Forall waiting l → started (q ++ l) = started q.
Proof.
  intros Hl. unfold started. rewrite list.filter_app, length_app. assert (filter (λ r, ¬ waiting r) l = []) as ->; [|simpl; lia].
  induction Hl as [|r l Hr _ IH]; [done|]. rewrite filter_cons_False; [done|]. intros Hn. by apply Hn.
Qed.

Lemma started_le q : 0 ≤ started q ≤ Z.of_nat (length q).
Proof. unfold started. pose proof (length_filter (λ r, ¬ waiting r) q). lia. Qed.

(** What is left until the head of the ring leaves, in cycles on a free bus: first it is
    sent, then it is finished, then it is answered. *)
Definition due (size now : Z) (q : list MC_action) : Z :=
  match q with
  | [] => 0
  | r :: _ => if decide (waiting r) then size - started q + L
              else if decide (returned r) then 0 else Z.max 0 (when_finished r - now)
  end.

Lemma due_bound size now q : Forall (timed now) q → Z.of_nat (length q) ≤ size → 0 ≤ due size now q ≤ size + L.
Proof.
  intros Ht Hs. destruct HB as [HL0 _]. pose proof (started_le q) as Hst. destruct q as [|r q]; simpl due; [simpl in *; lia|].
  apply list.Forall_cons in Ht as [[_ _ Hr] _]. case_decide as Hw; [lia|]. specialize (Hr Hw). case_decide; lia.
Qed.

(** ** One cycle, on lists *)

Definition done_in (size now : Z) (acc ans : list MC_action) (s : spec) : Prop :=
  Forall (timed now) (s_queue s) ∧ s_avail s ≤ now ∧ books acc ans (s_queue s) ∧ Z.of_nat (length (s_queue s)) ≤ size ∧
  Forall entry_ok (s_queue s).

Lemma pick_none fifo last q r : r ∈ q → waiting r → pick fifo last q ≠ None.
Proof.
  intros Hr Hw Hp. unfold pick in Hp. assert (list_find waiting q = None) as Hn by (destruct fifo; [done|by case_match]).
  apply list_find_None in Hn. by eapply list.Forall_forall in Hn.
Qed.

(** The first entry, and how it changed: not at all, or at the end of the list. *)
Lemma insert_head {A} (r : A) q i x : ∃ y l, <[i := x]> (r :: q) = y :: l ∧ (i = 0%nat ∧ y = x ∨ i ≠ 0%nat ∧ y = r).
Proof. destruct i; simpl; eauto 8. Qed.

(** How a part of a cycle treats the head: the head that is due is answered or can be, and
    every other one gets closer. *)
Definition advances (size now : Z) (q q' : list MC_action) : Prop :=
  ∀ r l, q = r :: l → ∃ r' l', q' = r' :: l' ∧ (due size now q = 0 → returned r' ∨ ready now r') ∧
    (due size now q ≠ 0 → due size (now + 1) q' ≤ due size now q - 1).

Lemma head_due size now q : 0 ≤ now < TICK_T_MAX → Forall (timed now) q → Z.of_nat (length q) ≤ size →
  (∀ r l, q = r :: l → ¬ waiting r) → advances size now q q.
Proof.
  intros Hn Ht Hs Hw r l ->. specialize (Hw r l eq_refl). exists r, l. split; [done|]. simpl due. destruct (decide (waiting r)); [done|].
  destruct (decide (returned r)) as [Hr|Hr]; [by split; [left|]|]. split; [|lia]. intros Hd. right. split; [lia|by apply not_returned].
Qed.

Lemma sent_due size now lat q i r : 0 ≤ now < TICK_T_MAX → 0 ≤ lat ≤ L → Forall (timed now) q → Z.of_nat (length q) ≤ size →
  q !! i = Some r → waiting r → advances size now q (<[i := with_start now (now + lat) r]> q).
Proof.
  intros Hn Hlat Ht Hs Hi Hw x l ->. set (y := with_start now (now + lat) r).
  assert (¬ waiting y) as Hy by (unfold waiting; simpl; lia).
  pose proof (started_insert (x :: l) i r y Hi Hw Hy) as Hst. pose proof (started_le (<[i := y]> (x :: l))) as Hle. rewrite length_insert in Hle.
  destruct (insert_head x l i y) as (z & l' & Ez & Hz). rewrite Ez in *. exists z, l'. split; [done|]. apply list.Forall_cons in Ht as [Hx _].
  destruct Hz as [[-> ->]|[Hi0 ->]].
  - injection Hi as ->. destruct (t_waiting _ _ Hx Hw) as [_ Hr]. simpl due. destruct (decide (waiting r)); [|done].
    destruct (decide (waiting y)); [done|]. split; [lia|]. destruct (decide (returned y)) as [Hy'|_]; [by destruct Hy'|]. unfold y. simpl when_finished. lia.
  - simpl due. destruct (decide (waiting x)) as [Hwx|Hwx]; [split; lia|].
    destruct (decide (returned x)) as [Hr|Hr]; [by split; [left|]|]. split; [|lia].
    intros Hd. right. split; [lia|by apply not_returned].
Qed.

(** A request is sent. *)
Lemma send_step size fifo now acc ans s d : 0 ≤ now < TICK_T_MAX → dram_ok now d → B d → done_in size now acc ans s →
  wp (spec_send fifo now s d) (λ '(s', d'), dram_ok now d' ∧ B d' ∧ done_in size (now + 1) acc ans s' ∧
    length (s_queue s') = length (s_queue s) ∧ advances size now (s_queue s) (s_queue s')).
Proof.
  intros Hn Hd Hb (Ht & Ha & Hbk & Hs & He). unfold spec_send. rewrite (proj2 (Z.leb_le _ _)) by done.
  assert (Forall (timed (now + 1)) (s_queue s)) as Ht' by (eapply list.Forall_impl; [exact Ht|apply timed_later]).
  destruct (pick _ _ _) as [[i r]|] eqn:Ep.
  - apply pick_spec in Ep as [Hi Hw]. destruct HB as (_ & Hacc & _). pose proof (Forall_lookup_1 _ _ _ _ He Hi) as Hr.
    eapply wp_bind, wp_mono; [apply wp_and; [apply Hacc|apply dram_access_ok]|]; try done; try lia; try apply Hr.
    intros [d' lat] ([Hb' Hlat] & Hd' & Hlat'). cbn [wp s_queue s_avail]. rewrite length_insert. split; [done|]. split; [done|].
    split; [|split; [done|by apply sent_due; [|lia|..]]]. split_and!; simpl; [|lia|by apply books_send|by rewrite length_insert|].
    + apply Forall_insert; [done|]. pose proof (Forall_lookup_1 _ _ _ _ Ht' Hi) as [T1 T2 T3].
      split; simpl; [done|unfold waiting; simpl; lia|lia].
    + apply Forall_insert; [done|]. by destruct Hr; split.
  - simpl. split; [done|]. split; [done|]. split; [by split_and!; [|lia|..]|]. split; [done|]. apply head_due; try done.
    intros r l Eq Hw. apply (pick_none fifo (s_last s) (s_queue s) r); [rewrite Eq; by left|done|done].
Qed.

(** A request is answered. *)
Lemma answer_step size now acc ans bus s : 0 ≤ now < TICK_T_MAX → done_in size (now + 1) acc ans s →
  wp (spec_answer now s (mk_requester bus ans)) (λ '(s', e'), done_in size (now + 1) acc (answered e') s' ∧
    length (s_queue s') = length (s_queue s) ∧
    (bus = true → ∀ r l, s_queue s = r :: l → ∃ r' l', s_queue s' = r' :: l' ∧ (returned r ∨ ready now r → returned r') ∧
       due size (now + 1) (s_queue s') ≤ Z.max 0 (due size (now + 1) (s_queue s)))).
Proof.
  intros Hn (Ht & Ha & Hbk & Hs & He). unfold spec_answer. simpl fsb_free.
  destruct bus; simpl; [|done].
  destruct (list_find (ready now) (s_queue s)) as [[i r]|] eqn:Ef; simpl.
  - apply list_find_Some in Ef as (Hi & Hr & Hmin). rewrite length_insert. set (y := with_return now r).
    split; [split_and!; simpl; [|done| |by rewrite length_insert|]|split; [done|]].
    + apply Forall_insert; [done|]. pose proof (Forall_lookup_1 _ _ _ _ Ht Hi) as [T1 T2 T3]. destruct Hr as [Hf Hr].
      split; simpl; [lia| |done]. intros Hw%T2. lia.
    + apply (books_answer acc ans (s_queue s) i r now); [done|intros Hn'; by apply Hn', Hr|lia|done].
    + apply Forall_insert; [done|]. pose proof (Forall_lookup_1 _ _ _ _ He Hi) as Hr'. by destruct Hr'; split.
    + intros _ x l Eq. rewrite Eq in *. pose proof (started_same (x :: l) i r y Hi eq_refl) as Hst.
      destruct (insert_head x l i y) as (z & l' & Ez & Hz). rewrite Ez in *. exists z, l'. split; [done|].
      destruct Hz as [[-> ->]|[Hi0 ->]].
      * assert (returned y) as Hy by (unfold returned; simpl; lia). split; [done|]. injection Hi as ->. simpl due.
        destruct (decide (waiting y)) as [Hw|_]; [|destruct (decide (returned y)); [lia|done]].
        apply list.Forall_cons in Ht as [[_ Ht _] _]. destruct (Ht Hw), Hr. lia.
      * split; [|simpl due; rewrite Hst; lia]. intros [Hx|Hx]; [done|]. exfalso. by apply (Hmin 0%nat x); [|lia|].
  - split; [done|]. split; [done|]. intros _ x l Eq. exists x, l. split; [done|]. split; [|lia]. intros [Hx|Hx]; [done|].
    exfalso. apply list_find_None in Ef. rewrite Eq in Ef. by apply list.Forall_cons in Ef as [? _].
Qed.

(** The head leaves, or stays because it has not been answered. *)
Lemma retire_step size now acc ans s : 0 ≤ now < TICK_T_MAX → done_in size (now + 1) acc ans s →
  done_in size (now + 1) acc ans (spec_retire now s) ∧
  ((∃ r l, s_queue s = r :: l ∧ returned r ∧ s_queue (spec_retire now s) = l) ∨
   (spec_retire now s = s ∧ ∀ r l, s_queue s = r :: l → ¬ returned r)).
Proof.
  intros Hn (Ht & Ha & Hbk & Hs & He). unfold spec_retire. destruct (s_queue s) as [|r l] eqn:Eq; [split; [split_and!; by rewrite ?Eq|by right]|].
  apply list.Forall_cons in Ht as [Hr Ht], He as [Hre He]. destruct (Z.leb_spec (when_returned r) now) as [Hret|Hret].
  - assert (returned r) as Hr' by (unfold returned; lia). simpl. split; [|left; by exists r, l].
    split_and!; simpl; try done; [by eapply books_retire|simpl in Hs; lia].
  - split; [split_and!; rewrite ?Eq; try done; by constructor|]. right. split; [done|]. intros ? ? [= <- <-] H1%(t_returned _ _ Hr). lia.
Qed.

(** A cycle of the list. *)
Lemma spec_cycle size fifo now acc ans bus s d : 0 ≤ now < TICK_T_MAX → dram_ok now d → B d → done_in size now acc ans s →
  wp (spec_step fifo now s d (mk_requester bus ans)) (λ '(s', d', e'), dram_ok now d' ∧ B d' ∧ done_in size (now + 1) acc (answered e') s' ∧
    (length (s_queue s') ≤ length (s_queue s))%nat ∧
    (bus = true → s_queue s ≠ [] → (length (s_queue s') < length (s_queue s))%nat ∨
       s_queue s' ≠ [] ∧ due size (now + 1) (s_queue s') ≤ due size now (s_queue s) - 1)).
Proof.
  intros Hn Hd Hb Hdone. unfold spec_step. eapply wp_bind, wp_mono; [by apply (send_step size)|].
  intros [s1 d1] (Hd1 & Hb1 & Hdone1 & Hlen1 & Hadv). eapply wp_bind, wp_mono; [by apply (answer_step size)|].
  intros [s2 e2] (Hdone2 & Hlen2 & Hans). cbn [wp]. destruct (retire_step size now acc (answered e2) s2 Hn Hdone2) as [Hdone3 Hret].
  split; [done|]. split; [done|]. split; [done|]. destruct Hdone as (Ht & _ & _ & Hs & _), Hdone1 as (Ht1 & _ & _ & Hs1 & _).
  pose proof (due_bound size now _ Ht Hs). pose proof (due_bound size (now + 1) _ Ht1 Hs1).
  destruct Hret as [(r & l & Eq & _ & El)|[El Hno]]; rewrite El.
  - assert (length l < length (s_queue s))%nat by (rewrite <- Hlen1, <- Hlen2, Eq; simpl; lia). split; [lia|by left].
  - split; [lia|]. intros Hbus Hq. right. destruct (s_queue s) as [|r l] eqn:Eq; [done|].
    destruct (Hadv r l eq_refl) as (r1 & l1 & Eq1 & Hz & Hnz). destruct (Hans Hbus r1 l1 Eq1) as (r2 & l2 & Eq2 & Hr2 & Hdue).
    split; [by rewrite Eq2|]. destruct (decide (due size now (r :: l) = 0)) as [Ez|Ez]; [|specialize (Hnz Ez); lia].
    destruct (Hno r2 l2 Eq2). auto.
Qed.

(** ** Runs *)

Record good (size : Z) (fifo : bool) (now : Z) (w : world) : Prop := {
  g_mc : ok (w_mc w);
  g_size : RQ_size (w_mc w) = size;
  g_fifo : FIFO_scheduling (w_mc w) = fifo;
  g_dram : dram_ok now (w_dram w);
  g_bound : B (w_dram w);
  g_done : done_in size now (w_accepted w) (w_answered w) (abstract (w_mc w))
}.

Definition ring_of (w : world) : list MC_action := queue (w_mc w).

Lemma start_good size fifo d : 1 ≤ size < 2 ^ 31 → dram_ok 0 d → B d → good size fifo 0 (start size fifo d).
Proof.
  intros Hs Hd Hb. destruct (mc_create_ok size fifo Hs) as [Hok Hq]. split; try done. split_and!; simpl; rewrite ?Hq; try done; simpl; [|lia].
  by exists [].
Qed.

(** Requests arrive behind the ones in the ring. *)
Lemma arrivals_good size fifo now rs w : 0 ≤ now → Forall request_ok rs → good size fifo (now + 1) w →
  wp (arrivals now rs w) (λ w', good size fifo (now + 1) w' ∧
    ∃ l, ring_of w' = ring_of w ++ l ∧ w_accepted w' = w_accepted w ++ (asked <$> l) ∧ Forall waiting l).
Proof.
  intros Hn Hrs. revert w. induction Hrs as [|r rs [Hp Hsz] Hrs IH]; intros w Hg; cbn [arrivals].
  { split; [done|]. exists []. by rewrite !app_nil_r. }
  pose proof Hg as [Hok Hsize Hfifo Hd Hb Hdone]. unfold arrive. destruct (enqueuable (w_mc w)) eqn:Eroom; [|by apply IH].
  pose proof (enqueue_refines now (w_mc w) r Hok Eroom Hp Hsz) as He. apply wp_exists in He as (m & -> & [Hok' Hq] & [Es Ef]). cbn [rbind].
  destruct Hdone as (Ht & Ha & Hbk & Hlen & Hent). assert (queue m = queue (w_mc w) ++ [fresh now r]) as Hqm by (injection Hq; done).
  assert (next_available_time m = next_available_time (w_mc w)) as Hna by (injection Hq; done).
  eapply wp_mono; [apply IH; split; simpl; try done; [by rewrite Es|by rewrite Ef|]|].
  - split_and!; simpl; rewrite ?Hqm, ?Hna; [|done| | |].
    + apply list.Forall_app. split; [done|]. apply list.Forall_singleton. split; simpl; [by intros []|done|by intros []].
    + apply (books_arrive _ _ _ [fresh now r]); [|done]. apply list.Forall_singleton. by intros [].
    + rewrite length_app. apply Z.ltb_lt in Eroom. simpl. rewrite queue_slots by done. destruct Hok as [[] _ _]. lia.
    + apply list.Forall_app. split; [done|]. apply list.Forall_singleton. by split.
  - intros w' [Hg' (l & E1 & E2 & Hl)]. split; [done|]. exists (fresh now r :: l). unfold ring_of in *. simpl in *.
    rewrite E1, E2, Hqm, <- !app_assoc. split_and!; [done|done|by constructor].
Qed.

Lemma due_arrive size now q l : q ≠ [] → Forall waiting l → due size now (q ++ l) = due size now q.
Proof. intros Hq Hl. destruct q as [|r q]; [done|]. simpl due. change (r :: q ++ l) with ((r :: q) ++ l). by rewrite started_arrive. Qed.

(** The number of requests that have left the ring. *)
Definition left (w : world) : Z := Z.of_nat (length (w_accepted w)) - Z.of_nat (length (ring_of w)).

(** Cycles left, on a free bus, until [n] requests have left. *)
Definition potential (size now n : Z) (w : world) : Z :=
  if n <=? left w then 0 else (n - left w - 1) * (size + L + 1) + due size now (ring_of w) + 1.

Lemma potential_step size now n w w' : 0 ≤ due size (now + 1) (ring_of w') ≤ size + L → 0 ≤ due size now (ring_of w) → 0 ≤ size + L →
  n ≤ Z.of_nat (length (w_accepted w)) → Z.of_nat (length (w_accepted w)) ≤ Z.of_nat (length (w_accepted w')) → left w ≤ left w' →
  (ring_of w ≠ [] → left w + 1 ≤ left w' ∨ due size (now + 1) (ring_of w') ≤ due size now (ring_of w) - 1) →
  0 ≤ potential size (now + 1) n w' ≤ Z.max 0 (potential size now n w - 1).
Proof.
  intros Hd Hd0 Hb Hn Hacc Hle Hstep. unfold potential. destruct (Z.leb_spec n (left w)) as [Hw|Hw].
  { rewrite (proj2 (Z.leb_le _ _)) by lia. lia. }
  assert (ring_of w ≠ []) as Hne by (intros Eq; unfold left in Hw; rewrite Eq in Hw; simpl in Hw; lia).
  destruct (Z.leb_spec n (left w')) as [Hw'|Hw']; [nia|]. destruct (Hstep Hne) as [Hl|Hl]; nia.
Qed.

Lemma cycle_good size fifo now k w : 0 ≤ now < TICK_T_MAX → tick_ok k → good size fifo now w →
  wp (cycle now k w) (λ w', good size fifo (now + 1) w' ∧ w_accepted w `prefix_of` w_accepted w' ∧
    ∀ n, t_bus k = true → n ≤ Z.of_nat (length (w_accepted w)) →
      0 ≤ potential size (now + 1) n w' ≤ Z.max 0 (potential size now n w - 1)).
Proof.
  intros Hn Hk [Hok Hsize Hfifo Hd Hb Hdone]. unfold cycle. pose proof HB as (HL0 & _ & Href).
  eapply wp_bind, wp_mono; [apply wp_and; [apply (Href _ now)|apply (dram_refresh_ok now)]; done || lia|]. intros d [Hb' Hd'].
  pose proof (spec_cycle size fifo now _ _ (t_bus k) _ _ Hn Hd' Hb' Hdone) as Hs. apply wp_bind. rewrite <- Hfifo in Hs.
  eapply wp_mono; [eapply sim_wp; [by apply step_refines|exact Hs]|]. intros [[m d1] e1] ([[s d1'] e1'] & ([Hok1 <-] & <- & <- & [Es Ef]) & Hd1 & Hb1 & Hdone1 & Hlen & Hbus).
  eapply wp_mono; [apply (arrivals_good size fifo); [lia|exact Hk|]|].
  - split; simpl; try done; [by rewrite Es|by rewrite Ef|]. eapply dram_later; [|done]. lia.
  - intros w' [Hg (l & E1 & E2 & Hl)]. split; [done|]. unfold ring_of in E1. simpl in E1, E2, Hlen, Hbus. split; [by exists (asked <$> l)|].
    intros n Hb2 Hle. destruct Hdone as (Ht & _ & _ & Hsz & _). destruct (g_done _ _ _ _ Hg) as (Ht' & _ & _ & Hsz' & _).
    pose proof (due_bound size now _ Ht Hsz). pose proof (due_bound size (now + 1) _ Ht' Hsz').
    assert (length (queue (w_mc w')) = length (queue m) + length l)%nat as L1 by by rewrite E1, length_app.
    assert (length (w_accepted w') = length (w_accepted w) + length l)%nat as L2 by by rewrite E2, length_app, length_fmap.
    apply potential_step; unfold left, ring_of; simpl s_queue in *; try lia. intros Hne. destruct (Hbus Hb2 Hne) as [Hl1|[Hne1 Hdue]]; [lia|].
    right. by rewrite E1, due_arrive.
Qed.

Lemma run_good size fifo ks now w : 0 ≤ now → now + Z.of_nat (length ks) ≤ TICK_T_MAX → Forall tick_ok ks → good size fifo now w →
  wp (run now ks w) (λ w', good size fifo (now + Z.of_nat (length ks)) w' ∧ w_accepted w `prefix_of` w_accepted w' ∧
    ∀ n, Forall (λ k, t_bus k = true) ks → n ≤ Z.of_nat (length (w_accepted w)) → 0 ≤ potential size now n w →
      0 ≤ potential size (now + Z.of_nat (length ks)) n w' ≤ Z.max 0 (potential size now n w - Z.of_nat (length ks))).
Proof.
  intros Hn Hend Hks. revert now w Hn Hend. induction Hks as [|k ks Hk Hks IH]; intros now w Hn Hend Hg; cbn [run length].
  { rewrite Z.add_0_r. split; [done|]. split; [done|]. intros. lia. }
  cbn [length] in Hend. eapply wp_bind, wp_mono; [apply (cycle_good size fifo); [lia|done|done]|]. intros w1 (Hg1 & Hp1 & Hpot1).
  eapply wp_mono; [apply (IH (now + 1)); [lia|lia|done]|]. intros w2 (Hg2 & Hp2 & Hpot2).
  replace (now + Z.of_nat (S (length ks))) with (now + 1 + Z.of_nat (length ks)) by lia. split; [done|]. split; [by trans (w_accepted w1)|].
  intros n [Hb Hbs]%list.Forall_cons Hle H0. specialize (Hpot1 n Hb Hle). pose proof (prefix_length _ _ Hp1).
  specialize (Hpot2 n Hbs ltac:(lia) ltac:(lia)). lia.
Qed.

(** The requests that had been accepted have left when none is left to wait for. *)
Lemma potential_bound size fifo now w : good size fifo now w →
  0 ≤ potential size now (Z.of_nat (length (w_accepted w))) w ≤ size * (size + L + 1).
Proof.
  intros [_ _ _ _ _ (Ht & _ & _ & Hlen & _)]. pose proof (due_bound size now _ Ht Hlen). pose proof HB as [HL0 _].
  unfold potential, left, ring_of in *. simpl in *. case_match; nia.
Qed.

Lemma answered_all size fifo now now' w w' : good size fifo now w → good size fifo now' w' → w_accepted w `prefix_of` w_accepted w' →
  potential size now' (Z.of_nat (length (w_accepted w))) w' = 0 → w_accepted w ⊆+ w_answered w'.
Proof.
  intros _ [_ _ _ _ _ (Ht & _ & (ret & Ea & En) & Hlen & _)] [l El] Hpot. pose proof (due_bound size now' _ Ht Hlen). pose proof HB as [HL0 _].
  unfold potential, left, ring_of in *. simpl in *. rewrite Ea, length_app, length_fmap in Hpot.
  destruct (Z.leb_spec (Z.of_nat (length (w_accepted w))) (Z.of_nat (length ret + length (queue (w_mc w'))) - Z.of_nat (length (queue (w_mc w'))))) as [Hle|]; [|nia].
  rewrite En. apply submseteq_inserts_r. rewrite El in Ea. apply sublist_submseteq.
  assert (w_accepted w = take (length (w_accepted w)) ret) as ->; [|apply sublist_take].
  rewrite <- (take_app_length (w_accepted w) l) at 1. rewrite Ea. by rewrite take_app_le by lia.
Qed.

(** ** The list machine *)

Record list_world : Type := mk_list_world {
  l_spec : spec;
  l_dram : D;
  l_answered : list MC_action;
  l_accepted : list MC_action
}.

Definition list_arrive (size now : Z) (w : list_world) (r : MC_action) : list_world :=
  let s := l_spec w in
  if Z.of_nat (length (s_queue s)) <? size then
    mk_list_world (mk_spec (s_queue s ++ [fresh now r]) (s_last s) (s_avail s)) (l_dram w) (l_answered w) (l_accepted w ++ [asked (fresh now r)])
  else w.

Definition list_cycle (size : Z) (fifo : bool) (now : Z) (k : tick) (w : list_world) : result list_world :=
  let* d := dram_refresh (l_dram w) now in
  let* '(s, d, e) := spec_step fifo now (l_spec w) d (mk_requester (t_bus k) (l_answered w)) in
  Ok (fold_left (list_arrive size now) (t_requests k) (mk_list_world s d (answered e) (l_accepted w))).

Fixpoint list_run (size : Z) (fifo : bool) (now : Z) (ks : list tick) (w : list_world) : result list_world :=
  match ks with
  | [] => Ok w
  | k :: ks => let* w := list_cycle size fifo now k w in list_run size fifo (now + 1) ks w
  end.

Definition list_start (d : D) : list_world := mk_list_world (mk_spec [] 0 0) d [] [].

(** The ring stands for the list, and the rest is equal. *)
Definition matches (size : Z) (fifo : bool) (w : world) (lw : list_world) : Prop :=
  ok (w_mc w) ∧ RQ_size (w_mc w) = size ∧ FIFO_scheduling (w_mc w) = fifo ∧
  lw = mk_list_world (abstract (w_mc w)) (w_dram w) (w_answered w) (w_accepted w).

Lemma arrivals_match size fifo now rs w lw : Forall request_ok rs → matches size fifo w lw →
  sim (matches size fifo) (arrivals now rs w) (Ok (fold_left (list_arrive size now) rs lw)).
Proof.
  intros Hrs. revert w lw. induction Hrs as [|r rs [Hp Hsz] Hrs IH]; intros w lw Hm; cbn [arrivals fold_left]; [done|].
  pose proof Hm as (Hok & Es & Ef & ->). unfold arrive. unfold list_arrive at 2. simpl l_spec. simpl s_queue.
  rewrite (queue_slots _ Hok). replace (Z.of_nat (Z.to_nat (RQ_num (w_mc w))) <? size) with (enqueuable (w_mc w)).
  2: { unfold enqueuable. rewrite Es. destruct Hok as [[] _ _]. by rewrite Z2Nat.id by lia. }
  destruct (enqueuable (w_mc w)) eqn:Eroom; [|by apply IH].
  pose proof (enqueue_refines now (w_mc w) r Hok Eroom Hp Hsz) as He. apply wp_exists in He as (m & -> & [Hok' Hq] & [Es' Ef']). cbn [rbind].
  apply IH. split_and!; simpl; [done|congruence|congruence|]. by rewrite Hq.
Qed.

Lemma cycle_match size fifo now k w lw : tick_ok k → matches size fifo w lw →
  sim (matches size fifo) (cycle now k w) (list_cycle size fifo now k lw).
Proof.
  intros Hk (Hok & Es & Ef & ->). unfold cycle, list_cycle. eapply sim_bind; [apply sim_refl|]. intros d ? <-. simpl. rewrite <- Ef.
  eapply sim_bind; [by apply step_refines|]. intros [[m d1] e1] [[s d1'] e1'] ([Hok1 <-] & <- & <- & [Es1 Ef1]).
  apply arrivals_match; [exact Hk|]. split_and!; simpl; [done|congruence|congruence|done].
Qed.

Lemma run_match size fifo ks now w lw : Forall tick_ok ks → matches size fifo w lw →
  sim (matches size fifo) (run now ks w) (list_run size fifo now ks lw).
Proof.
  intros Hks. revert now w lw. induction Hks as [|k ks Hk Hks IH]; intros now w lw Hm; cbn [run list_run]; [done|].
  eapply sim_bind; [by apply cycle_match|]. intros w1 lw1 Hm1. by apply IH.
Qed.

(** C34. The ring of the controller is a list.  Whatever requests arrive, whenever the bus
    is free and whatever the DRAM does, the controller with the ring buffer and the one
    with a plain list, in which the request to send is the first one for the open page,
    or else the first one that waits, the one to answer is the first finished one, and the
    one that leaves is the first: both fail in the same way, or accept the same
    requests, give the same answers in the same order and end with the same list. *)
Theorem mc_ring_refines_list size fifo ks d : 1 ≤ size < 2 ^ 31 → Forall tick_ok ks →
  sim (λ w lw, w_accepted w = l_accepted lw ∧ w_answered w = l_answered lw ∧ ring_of w = s_queue (l_spec lw))
    (run 0 ks (start size fifo d)) (list_run size fifo 0 ks (list_start d)).
Proof.
  intros Hs Hks. eapply sim_mono; [apply run_match; [done|]|by intros w lw (_ & _ & _ & ->)].
  by destruct (mc_create_ok size fifo Hs).
Qed.

End run.

(** Every DRAM has a bound, since a latency is 32 bits wide. *)
Lemma any_dram D `{DramLaws D} : bounded_dram (2 ^ 32) (λ _ : D, True).
Proof.
  split; [done|]. split; [|intros d now _ Hn Hd; eapply wp_mono; [by eapply dram_refresh_ok|done]].
  intros d now cmd addr size _ Hn Hs Hd. eapply wp_mono; [by apply dram_access_ok|]. intros [d' lat] [_ ?]. split; [done|lia].
Qed.

(** C33. The memory controller loses and repeats no request.  Whatever DRAM is behind it,
    whatever requests arrive and whenever the bus is free: no cycle fails, and the
    requests accepted so far are those that were answered and those still
    without an answer in the ring, each as often as it was accepted. *)
Theorem mc_conserves_requests D `{DramLaws D} size fifo ks (d : D) : 1 ≤ size < 2 ^ 31 → Z.of_nat (length ks) ≤ TICK_T_MAX → Forall tick_ok ks → dram_ok 0 d →
  wp (run 0 ks (start size fifo d)) (λ w,
    w_accepted w ≡ₚ w_answered w ++ (asked <$> filter (λ r, ¬ returned r) (ring_of w)) ∧ Z.of_nat (length (ring_of w)) ≤ size).
Proof.
  intros Hs Hend Hks Hd. pose proof (start_good (2 ^ 32) (λ _, True) size fifo d Hs Hd I) as Hg.
  eapply wp_mono; [by apply (run_good _ _ (any_dram D) size fifo ks 0)|].
  intros w ([_ _ _ _ _ (_ & _ & Hbk & Hlen & _)] & _). split; [by apply books_split|done].
Qed.

(** C9. The memory controller starves no request.  Let the DRAM take at most [L] cycles
    for an access.  Every request that was accepted by some cycle has been answered after
    [size * (size + L + 1)] more cycles on a free bus, whatever arrives in the
    meantime and even when requests for the open page are sent first. *)
Theorem mc_answers_everything D `{DramLaws D} (L : Z) (B : D → Prop) size fifo ks ks' (d : D) : bounded_dram L B → 1 ≤ size < 2 ^ 31 →
  Z.of_nat (length ks) + Z.of_nat (length ks') ≤ TICK_T_MAX → Forall tick_ok ks → Forall tick_ok ks' → Forall (λ k, t_bus k = true) ks' →
  size * (size + L + 1) ≤ Z.of_nat (length ks') → dram_ok 0 d → B d →
  wp (run 0 ks (start size fifo d)) (λ w, wp (run (Z.of_nat (length ks)) ks' w) (λ w', w_accepted w ⊆+ w_answered w')).
Proof.
  intros HB Hs Hend Hks Hks' Hbus Hlen Hd Hb.
  pose proof (start_good L B size fifo d Hs Hd Hb) as Hg0.
  eapply wp_mono; [apply (run_good L B HB size fifo ks 0); [lia|lia|done|done]|]. intros w (Hg & _). rewrite Z.add_0_l in Hg.
  eapply wp_mono; [apply (run_good L B HB size fifo ks'); [lia|lia|done|exact Hg]|]. intros w' (Hg' & Hp & Hpot).
  apply (answered_all L B HB size fifo _ _ w w' Hg Hg' Hp). specialize (Hpot _ Hbus (Z.le_refl _)).
  pose proof (potential_bound L B HB size fifo _ w Hg). lia.
Qed.

(** ** A constant-latency DRAM *)

Definition dram100 : dram_simplescalar.t := dram_simplescalar.create (mk_fsb 8 3 true) 100.

Definition request (id a : Z) : MC_action :=
  mk_action false (Some id) id a 64 0 0 CACHE_READ (Some 0) (Some 0) (Some 0) 0 0 0 0.

(** Two requests for a page and one for another, which finds the ring full the first time,
    and a busy bus for a while. *)
Definition demo : list tick :=
  [mk_tick false [request 1 4096; request 2 8192]; mk_tick false [request 3 4160]] ++ replicate 105 (mk_tick false []) ++
  [mk_tick true []; mk_tick true [request 3 4160]].

Lemma dram100_ok : dram_simplescalar.ok dram100.
Proof. repeat split; vm_compute; intuition congruence. Qed.

Lemma requests_ok b l : tick_ok (mk_tick b ((λ '(id, a), request id a) <$> l)).
Proof. apply Forall_fmap, Forall_true. intros [id a]. by split. Qed.

Lemma mc_demo_ok : Forall tick_ok demo.
Proof.
  constructor; [apply (requests_ok _ [(1, 4096); (2, 8192)])|]. constructor; [apply (requests_ok _ [(3, 4160)])|].
  apply list.Forall_app. split; [apply Forall_replicate; constructor|]. constructor; [constructor|]. constructor; [apply (requests_ok _ [(3, 4160)])|constructor].
Qed.

Lemma mc_ring_refines_list_witness :
  sim (λ w lw, w_accepted w = l_accepted lw ∧ w_answered w = l_answered lw ∧ ring_of w = s_queue (l_spec lw))
    (run 0 demo (start 2 false dram100)) (list_run 2 false 0 demo (list_start dram100)) ∧
  rmap (λ lw, action_id <$> l_answered lw) (list_run 2 false 0 demo (list_start dram100)) = Ok [1; 2].
Proof. split; [apply (mc_ring_refines_list 2 false demo dram100); [done|apply mc_demo_ok]|vm_compute; reflexivity]. Defined.

Lemma mc_conserves_requests_witness :
  wp (run 0 demo (start 2 false dram100)) (λ w,
    w_accepted w ≡ₚ w_answered w ++ (asked <$> filter (λ r, ¬ returned r) (ring_of w)) ∧ Z.of_nat (length (ring_of w)) ≤ 2) ∧
  rmap (λ w, (action_id <$> w_answered w, action_id <$> ring_of w)) (run 0 demo (start 2 false dram100)) = Ok ([1; 2], [3]).
Proof.
  split; [|vm_compute; reflexivity].
  apply (mc_conserves_requests dram_simplescalar.t 2 false demo dram100); [done|vm_compute; congruence|apply mc_demo_ok|apply dram100_ok].
Defined.

(** The latency of the DRAM with the longest burst. *)
Lemma dram100_bounded : bounded_dram (100 + 2 ^ 20) (λ d, dram_simplescalar.bus d = mk_fsb 8 3 true ∧ dram_simplescalar.latency d = 100).
Proof.
  split; [done|]. split; [|by intros d now [? ?]]. intros d now cmd a size [Eb El] _ Hs (Hu & Hc & _). simpl. unfold dram_simplescalar.access.
  destruct (burst_ok _ size Hu Hs) as [Hburst Hd]. rewrite (proj2 (Z.ltb_lt 0 _)) by lia. simpl. split; [by rewrite Eb, El|].
  rewrite Hc, El, Z.mul_1_l, i32_small by lia. unfold u32. rewrite wrap_u_small by lia. lia.
Qed.

(** Requests keep arriving in every cycle. *)
Definition busy : list tick := replicate (Z.to_nat (2 * (2 + (100 + 2 ^ 20) + 1))) (mk_tick true [request 4 4096]).

Lemma busy_length : Z.of_nat (length busy) = 2 * (2 + (100 + 2 ^ 20) + 1).
Proof. unfold busy. rewrite length_replicate, Z2Nat.id; lia. Qed.

Lemma mc_answers_everything_witness :
  wp (run 0 demo (start 2 false dram100)) (λ w, wp (run (Z.of_nat (length demo)) busy w) (λ w', w_accepted w ⊆+ w_answered w')) ∧
  rmap (λ w, action_id <$> w_accepted w) (run 0 demo (start 2 false dram100)) = Ok [1; 2; 3].
Proof.
  split; [|vm_compute; reflexivity].
  apply (mc_answers_everything dram_simplescalar.t (100 + 2 ^ 20) _ 2 false demo busy dram100 dram100_bounded); rewrite ?busy_length.
  - lia.
  - vm_compute. congruence.
  - apply mc_demo_ok.
  - unfold busy. apply Forall_replicate, (requests_ok _ [(4, 4096)]).
  - unfold busy. apply Forall_replicate. reflexivity.
  - lia.
  - apply dram100_ok.
  - split; reflexivity.
Defined.

End mc_run.
