(* ===== verification/Bus.v ===== *)
(** * Bus: the buses between the caches, src/xiosim/zesto-noc.cpp

    A bus carries one transfer at a time and is used only in the cycles of its clock that
    are multiples of its ratio.  The code computes the length of a transfer in floating
    point; the quotient here is the exact one, which the doubles hold when the width is a
    power of two. *)

From S2P Require Import Prelude.

Module bus.

(** The utilisations are counted in cycles divided by the width.  [magic] is the front-side
    bus that is always free ([fsb_magic]).  The clock is an argument of the operations.
    Source: src/xiosim/zesto-noc.h:7-19 bus_t. *)
Record t : Type := mk {
  magic : bool;
  width : Z;
  ratio : Z;
  when_available : Z;
  accesses : Z;
  utilization : Z;
  prefetch_utilization : Z
}.

(** Source: src/xiosim/zesto-noc.cpp:12-22 bus_create. *)
Definition bus_create (magic : bool) (width ratio : Z) : t := mk magic width ratio 0 0 0 0.

(** The ratio is at least one.
    Source: src/xiosim/zesto-noc.cpp:60-70 bus_free. *)
Definition bus_free (b : t) (clock : Z) : bool :=
  if magic b then true
  else if negb (Z.rem clock (ratio b) =? 0) then false
  else when_available b <=? clock.

(** The conversion of a double that has been rounded down to [int]: a value that does not
    fit becomes the least integer, as the conversion instruction of x86 has it. *)
Definition int_of_double (x : Z) : Z := if (- 2 ^ 31 <=? x) && (x <? 2 ^ 31) then x else - 2 ^ 31.

(** Source: src/xiosim/zesto-noc.cpp:73-80 bus_use.
    The quotient, a double in the source, is exact here; the doubles are exact when the width
    is a power of two.  The sums of latencies are kept before the division by the width. *)
Definition bus_use (b : t) (clock transfer_size : Z) (prefetch : bool) : t :=
  let latency := transfer_size * ratio b in
  mk (magic b) (width b) (ratio b) (int_of_double ((clock * width b + latency) / width b)) (accesses b + 1)
    (utilization b + latency) (prefetch_utilization b + if prefetch then latency else 0).

(** The last cycle in which a transfer of [size] bytes, begun in cycle [clock], occupies the
    bus, plus one. *)
Definition done_at (b : t) (clock size : Z) : Z := clock + size * ratio b / width b.

Lemma bus_use_available b clock size pf : 1 ≤ width b → 0 ≤ clock → 0 ≤ size → 0 ≤ ratio b → done_at b clock size < 2 ^ 31 →
  when_available (bus_use b clock size pf) = done_at b clock size.
Proof.
  intros Hw Hc Hs Hr Hd. unfold done_at in *. simpl. unfold int_of_double.
  rewrite (Z.add_comm (_ * _)), Z.div_add, Z.add_comm in * by lia.
  assert (0 ≤ size * ratio b / width b) by (apply Z.div_pos; nia).
  rewrite (proj2 (Z.leb_le _ _)), (proj2 (Z.ltb_lt _ _)) by lia. done.
Qed.

(** Until then the bus is taken. *)
Lemma bus_taken b clock size pf t : 1 ≤ width b → 0 ≤ clock → 0 ≤ size → 0 ≤ ratio b → magic b = false →
  done_at b clock size < 2 ^ 31 → clock ≤ t < done_at b clock size → bus_free (bus_use b clock size pf) t = false.
Proof.
  intros Hw Hc Hs Hr Hm Hd Ht. unfold bus_free. rewrite bus_use_available by done. simpl. rewrite Hm.
  case_match; [done|]. apply Z.leb_gt. lia.
Qed.

(** Past the range of [int] a bus never looks taken: whatever is sent, the next transfer may
    begin in the same cycle. *)
Lemma bus_never_busy_late b clock size pf : 1 ≤ width b → 0 ≤ size → 0 ≤ ratio b → 2 ^ 31 ≤ clock →
  Z.rem clock (ratio b) = 0 → bus_free (bus_use b clock size pf) clock = true.
Proof.
  intros Hw Hs Hr Hc Hz. unfold bus_free, bus_use. simpl. case_match; [done|]. rewrite Hz. simpl.
  assert (2 ^ 31 ≤ (clock * width b + size * ratio b) / width b).
  { apply Z.div_le_lower_bound; nia. }
  unfold int_of_double. rewrite (proj2 (Z.ltb_ge _ _)), andb_false_r by lia. apply Z.leb_le. lia.
Qed.

(** *** The transfers of a run *)

(** A transfer begins in a cycle in which the bus is free. *)
Fixpoint transfers (b : t) (l : list (Z * Z * bool)) : Prop :=
  match l with
  | [] => True
  | (clock, size, pf) :: l => bus_free b clock = true ∧ 0 ≤ clock ∧ 0 ≤ size ∧ done_at b clock size < 2 ^ 31 ∧
      transfers (bus_use b clock size pf) l
  end.

(** Each transfer is over before the next one begins. *)
Fixpoint in_turn (b : t) (from : Z) (l : list (Z * Z * bool)) : Prop :=
  match l with [] => True | (clock, size, _) :: l => from ≤ clock ∧ in_turn b (done_at b clock size) l end.

Lemma transfers_in_turn b l : 1 ≤ width b → 0 ≤ ratio b → magic b = false → transfers b l → in_turn b (when_available b) l.
Proof.
  intros Hw Hr Hm. revert b Hw Hr Hm. induction l as [|[[clock size] pf] l IH]; intros b Hw Hr Hm; [done|].
  intros (Hf & Hc & Hs & Hd & Hl). simpl. split.
  - unfold bus_free in Hf. rewrite Hm in Hf. case_match; [done|]. by apply Z.leb_le.
  - specialize (IH (bus_use b clock size pf) Hw Hr Hm Hl). rewrite bus_use_available in IH by done.
    assert (∀ from l, in_turn (bus_use b clock size pf) from l ↔ in_turn b from l) as E; [|by apply E].
    clear. intros from l. revert from. induction l as [|[[c s] p] l IH]; intros from; simpl; [done|]. by rewrite IH.
Qed.

End bus.
