(* ===== verification/Buffer.v ===== *)
(** * Buffer: the pre-allocated circular queue of pintool/buffer.h

    [Buffer<T>] is the queue between the feeder and the cores and, in the oracle, the
    shadow MopQ.  Its [head_] is where elements are put in and its [tail_] where they are
    taken out.  A push has two phases, a write to the slot that [get_buffer] returns and
    [push_done]; [push] is the two.  Abstractly the queue is the list [contents]. *)

From S2P Require Import Prelude Misc.

Module buffer.
Section buffer.
Context {T : Type} (Invalidate : T → T).

(** Source: src/xiosim/pintool/buffer.h:94-99 Buffer. *)
Record t : Type := mk { numPool_ : Z; pool_ : list T; head_ : Z; tail_ : Z; size_ : Z }.

(** Source: src/xiosim/pintool/buffer.h:13-18 Buffer. *)
Definition create (size : Z) (x : T) : t := mk size (replicate (Z.to_nat size) x) 0 0 0.

(** Source: src/xiosim/pintool/buffer.h:87-87 empty. *)
Definition empty (b : t) : bool := size_ b =? 0.

(** Source: src/xiosim/pintool/buffer.h:88-88 full. *)
Definition full (b : t) : bool := size_ b =? numPool_ b.

(** Source: src/xiosim/pintool/buffer.h:24-27 get_buffer. *)
Definition get_buffer (b : t) : result T :=
  let* _ := guard_or (negb (full b)) AssertFail in aget (pool_ b) (head_ b).

(** Source: src/xiosim/pintool/buffer.h:29-38 push_done. *)
Definition push_done (b : t) : result t :=
  let* _ := guard_or (negb (full b)) AssertFail in
  let head := if i32 (head_ b + 1) =? numPool_ b then 0 else i32 (head_ b + 1) in
  let* _ := guard_or (size_ b + 1 <=? numPool_ b) AssertFail in
  Ok (mk (numPool_ b) (pool_ b) head (tail_ b) (size_ b + 1)).

(** The two phases of a push, [f] filling the slot in. *)
Definition push (b : t) (f : T → T) : result t :=
  let* x := get_buffer b in
  let* l := aset (pool_ b) (head_ b) (f x) in
  push_done (mk (numPool_ b) l (head_ b) (tail_ b) (size_ b)).

(** Source: src/xiosim/pintool/buffer.h:62-65 front. *)
Definition front (b : t) : result T :=
  let* _ := guard_or (0 <? size_ b) AssertFail in aget (pool_ b) (tail_ b).

Definition back_index (b : t) : Z := if head_ b - 1 =? -1 then numPool_ b - 1 else head_ b - 1.

(** Source: src/xiosim/pintool/buffer.h:67-75 back. *)
Definition back (b : t) : result T :=
  let* _ := guard_or (0 <? size_ b) AssertFail in aget (pool_ b) (back_index b).

(** Source: src/xiosim/pintool/buffer.h:67-75 back.
    A write through the pointer that [back] returns. *)
Definition set_back (b : t) (x : T) : result t :=
  let* _ := guard_or (0 <? size_ b) AssertFail in
  let* l := aset (pool_ b) (back_index b) x in Ok (mk (numPool_ b) l (head_ b) (tail_ b) (size_ b)).

(** Source: src/xiosim/pintool/buffer.h:40-49 pop. *)
Definition pop (b : t) : result t :=
  let* x := front b in
  let* l := aset (pool_ b) (tail_ b) (Invalidate x) in
  let tail := if i32 (tail_ b + 1) =? numPool_ b then 0 else i32 (tail_ b + 1) in
  Ok (mk (numPool_ b) l (head_ b) tail (size_ b - 1)).

(** Source: src/xiosim/pintool/buffer.h:51-60 pop_back. *)
Definition pop_back (b : t) : result t :=
  let* x := back b in
  let* l := aset (pool_ b) (back_index b) (Invalidate x) in
  Ok (mk (numPool_ b) l (back_index b) (tail_ b) (size_ b - 1)).

Definition item_index (b : t) (index : Z) : Z :=
  if numPool_ b <=? i32 (tail_ b + index) then i32 (tail_ b + index) - numPool_ b else i32 (tail_ b + index).

(** Source: src/xiosim/pintool/buffer.h:79-84 get_item. *)
Definition get_item (b : t) (index : Z) : result T := aget (pool_ b) (item_index b index).

(** Source: src/xiosim/pintool/buffer.h:79-84 get_item.
    A write through the pointer that [get_item] returns. *)
Definition set_item (b : t) (index : Z) (x : T) : result t :=
  let* l := aset (pool_ b) (item_index b index) x in Ok (mk (numPool_ b) l (head_ b) (tail_ b) (size_ b)).

(** ** The list it stands for *)

Definition contents (b : t) : list T := ring.window (pool_ b) (numPool_ b) (tail_ b) (size_ b).

Definition ok (b : t) : Prop := ring.ring_ok (pool_ b) (numPool_ b) (tail_ b) (size_ b) (head_ b).

(** The elements of the slots that are not in use. *)
Definition clean (P : T → Prop) (b : t) : Prop := ring.free P (pool_ b) (numPool_ b) (tail_ b) (size_ b).

Lemma create_clean (P : T → Prop) size x : P x → clean P (create size x).
Proof. intros Hx j y _ G. apply aget_inv in G as [_ G]. by apply lookup_replicate in G as [-> _]. Qed.

Lemma buffer_create_ok size x : 1 ≤ size < 2 ^ 31 → ok (create size x) ∧ contents (create size x) = [].
Proof. intros Hs. split; [by apply ring.ring_create|done]. Qed.

Lemma size_contents b : ok b → size_ b = Z.of_nat (length (contents b)).
Proof. intros Hok. pose proof (ring.window_length _ _ _ _ _ Hok). unfold contents. lia. Qed.

(** The index stepped by hand is that of [modinc]. *)
Lemma step_modinc x m : (if i32 (x + 1) =? m then 0 else i32 (x + 1)) = modinc x m.
Proof. done. Qed.

Lemma back_moddec b : ok b → back_index b = moddec (head_ b) (numPool_ b).
Proof.
  intros [Hs Hl Hn Ht Hh]. pose proof (ring.slot_in_range _ (tail_ b) Hs (size_ b)). unfold back_index, moddec. rewrite !i32_small by lia.
  destruct (Z.eqb_spec (head_ b - 1) (-1)), (Z.eqb_spec (head_ b) 0); lia.
Qed.

Lemma item_slot b i : ok b → 0 ≤ i < numPool_ b → numPool_ b < 2 ^ 30 → item_index b i = ring.slot (numPool_ b) (tail_ b) i.
Proof.
  intros [Hs Hl Hn Ht Hh] Hi Hmax. unfold item_index, ring.slot. rewrite !i32_small by lia. destruct (Z.leb_spec (numPool_ b) (tail_ b + i)).
  - replace (tail_ b + i) with (tail_ b + i - numPool_ b + 1 * numPool_ b) at 2 by lia. rewrite Z.mod_add, Z.mod_small; lia.
  - by rewrite Z.mod_small by lia.
Qed.

Lemma push_ok P b f : ok b → clean P b → size_ b < numPool_ b → wp (push b f) (λ b', ok b' ∧ clean P b' ∧ numPool_ b' = numPool_ b ∧
  ∃ x, P x ∧ contents b' = contents b ++ [f x]).
Proof.
  intros Hok Hfree Hroom. pose proof Hok as [Hs Hl Hn Ht Hh]. unfold push, get_buffer, full.
  rewrite (proj2 (Z.eqb_neq _ _)) by lia. cbn [negb guard_or rbind].
  destruct (ring.slot_get _ _ _ _ _ (size_ b) Hok) as (x & _ & G). rewrite <- Hh in G. rewrite G. cbn [rbind].
  pose proof (aget_inv _ _ _ G) as [Hr _]. rewrite aset_ok by lia. cbn [rbind]. unfold push_done, full. simpl.
  rewrite (proj2 (Z.eqb_neq _ _)) by lia. cbn [negb guard_or rbind]. rewrite (proj2 (Z.leb_le _ _)) by lia. cbn [guard_or rbind wp].
  rewrite step_modinc. destruct (ring.window_push _ _ _ _ _ (f x) Hok Hroom) as [Hok' Hw]. split; [exact Hok'|].
  split; [by eapply ring.free_push; [exact Hok| |]|]. split; [done|]. exists x. split; [by eapply ring.free_tail; [exact Hok| | |]|done].
Qed.

Lemma front_ok b : ok b → 1 ≤ size_ b → ∃ x l, front b = Ok x ∧ contents b = x :: l.
Proof.
  intros Hok Hn. unfold front. rewrite (proj2 (Z.ltb_lt _ _)) by lia. cbn [guard_or rbind].
  destruct (ring.window_pop _ _ _ _ _ Hok Hn) as (_ & x & G & E). eauto.
Qed.

Lemma pop_ok (P : T → Prop) b : ok b → clean P b → (∀ x, P (Invalidate x)) → 1 ≤ size_ b →
  wp (pop b) (λ b', ok b' ∧ clean P b' ∧ numPool_ b' = numPool_ b ∧ ∃ x, contents b = x :: contents b').
Proof.
  intros Hok Hfree Hinv Hn. pose proof Hok as [Hs Hl Hnum Ht Hh]. unfold pop, front. rewrite (proj2 (Z.ltb_lt _ _)) by lia. cbn [guard_or rbind].
  destruct (ring.window_pop _ _ _ _ _ Hok Hn) as (_ & x & G & E). rewrite G. cbn [rbind]. rewrite aset_ok by lia. cbn [rbind wp].
  rewrite step_modinc. destruct (ring.window_insert _ _ _ _ _ 0 (Invalidate x) Hok ltac:(lia)) as [Hok' Hw]. rewrite ring.slot_0 in Hok', Hw by done.
  destruct (ring.window_pop _ _ _ _ _ Hok' Hn) as (Hok2 & y & _ & E2). split; [exact Hok2|].
  split; [by eapply ring.free_pop|]. split; [done|]. exists x. unfold contents at 1. rewrite E. f_equal. rewrite Hw, E in E2. simpl in E2. by injection E2.
Qed.

Lemma get_item_ok b i x : ok b → numPool_ b < 2 ^ 30 → contents b !! Z.to_nat i = Some x → 0 ≤ i → get_item b i = Ok x.
Proof.
  intros Hok Hmax E Hi. pose proof (lookup_lt_Some _ _ _ E) as Hlt. pose proof (size_contents b Hok). pose proof Hok as [Hs Hl Hnum Ht Hh].
  unfold get_item. rewrite item_slot by (done || lia). apply aget_lookup; [by apply ring.slot_in_range|].
  rewrite <- E. symmetry. apply (ring.window_lookup _ _ _ _ _ _ Hok). lia.
Qed.

Lemma set_item_ok P b i x : ok b → clean P b → numPool_ b < 2 ^ 30 → 0 ≤ i < size_ b →
  wp (set_item b i x) (λ b', ok b' ∧ clean P b' ∧ numPool_ b' = numPool_ b ∧ contents b' = <[Z.to_nat i := x]> (contents b)).
Proof.
  intros Hok Hfree Hmax Hi. pose proof Hok as [Hs Hl Hnum Ht Hh]. unfold set_item. rewrite item_slot by (done || lia).
  pose proof (ring.slot_in_range _ (tail_ b) Hs i). rewrite aset_ok by lia. cbn [rbind wp].
  destruct (ring.window_insert _ _ _ _ _ i x Hok Hi) as [Hok' Hw]. split; [exact Hok'|]. split; [by eapply ring.free_insert|by split].
Qed.

Lemma back_ok b : ok b → 1 ≤ size_ b → ∃ x, back b = Ok x ∧ list.last (contents b) = Some x.
Proof.
  intros Hok Hn. unfold back. rewrite (proj2 (Z.ltb_lt _ _)), back_moddec by (done || lia). cbn [guard_or rbind].
  destruct (ring.window_squash _ _ _ _ _ Hok Hn) as (_ & x & G & E). exists x. split; [done|]. unfold contents. rewrite E. apply list.last_snoc.
Qed.

Lemma set_back_ok P b x : ok b → clean P b → 1 ≤ size_ b → wp (set_back b x) (λ b', ok b' ∧ clean P b' ∧ numPool_ b' = numPool_ b ∧
  contents b' = <[Z.to_nat (size_ b - 1) := x]> (contents b)).
Proof.
  intros Hok Hfree Hn. pose proof Hok as [Hs Hl Hnum Ht Hh]. unfold set_back. rewrite (proj2 (Z.ltb_lt _ _)), back_moddec by (done || lia). cbn [guard_or rbind].
  rewrite Hh, ring.moddec_slot by done. pose proof (ring.slot_in_range _ (tail_ b) Hs (size_ b - 1)). rewrite aset_ok by lia. cbn [rbind wp].
  destruct (ring.window_insert _ _ _ _ _ (size_ b - 1) x Hok ltac:(lia)) as [Hok' Hw]. split; [unfold ok; simpl; by rewrite <- Hh|].
  split; [|by split].
  apply (ring.free_insert _ _ _ _ _ _ (size_ b - 1) x Hok); [lia|exact Hfree].
Qed.

Lemma pop_back_ok b : ok b → 1 ≤ size_ b → wp (pop_back b) (λ b', ok b' ∧ numPool_ b' = numPool_ b ∧ ∃ x, contents b = contents b' ++ [x]).
Proof.
  intros Hok Hn. pose proof Hok as [Hs Hl Hnum Ht Hh]. unfold pop_back. destruct (back_ok b Hok Hn) as (x & -> & _). cbn [rbind].
  rewrite back_moddec by done. rewrite Hh, ring.moddec_slot by done. pose proof (ring.slot_in_range _ (tail_ b) Hs (size_ b - 1)).
  rewrite aset_ok by lia. cbn [rbind wp]. destruct (ring.window_insert _ _ _ _ _ (size_ b - 1) (Invalidate x) Hok ltac:(lia)) as [Hok' Hw].
  destruct (ring.window_squash _ _ _ _ _ Hok' Hn) as (Hok2 & y & _ & E). rewrite Hh, ring.moddec_slot in Hok2 by done. split; [exact Hok2|]. split; [done|].
  destruct (ring.window_squash _ _ _ _ _ Hok Hn) as (_ & z & _ & E0). exists z. unfold contents in *. simpl. rewrite E0. f_equal.
  symmetry. eapply (ring.window_insert_out _ _ _ _ (ring.slot (numPool_ b) (tail_ b) (size_ b - 1))); [|lia]. split; try done; lia.
Qed.

End buffer.
End buffer.
