(* ===== verification/ShadowMopQ.v ===== *)
(** * ShadowMopQ: the handshakes that the feeder has sent to a core

    shadow_MopQ.h and shadow_MopQ.cpp: every handshake is kept until its instruction
    commits, so that the oracle can execute it again after a flush.  The speculative ones
    hang off the last instruction before them.  The lookup for a Mop of the MopQ is by its
    position; when the oracle goes down a wrong path it has not seen before while it is
    replaying, the lookup makes NOPs up. *)

From S2P Require Import Prelude Misc Buffer.

Module shadow_mopq.

(** Source: src/xiosim/pintool/handshake_container.h:13-29 handshake_flags_t.
    The flags that the simulator of a core reads. *)
Record handshake_flags : Type := mk_flags {
  valid : bool;
  isFirstInsn : bool;
  brtaken : bool;
  flush_pipe : bool;
  real : bool;
  in_critical_section : bool;
  speculative : bool;
  is_profiling_start : bool;
  is_profiling_stop : bool
}.

(** Source: src/xiosim/pintool/handshake_container.h:151-171 handshake_container_t. *)
Record handshake : Type := mk_handshake {
  flags : handshake_flags;
  pc : Z;
  npc : Z;
  tpc : Z;
  rSP : Z;
  ins : list Z;
  h_asid : Z;
  mem_buffer : list (Z * Z);
  profile_id : Z
}.

(** Source: src/xiosim/pintool/handshake_container.h:35-50 Invalidate. *)
Definition Invalidate (h : handshake) : handshake :=
  mk_handshake (mk_flags false false false false true false false false false) 0 0 0 0 (replicate 15 0) 0 [] (profile_id h).

(** Source: src/xiosim/shadow_MopQ.h:10-14 shadow_Mop_t. *)
Record shadow_Mop : Type := mk_shadow { Mop : handshake; speculated : list handshake }.

(** Source: src/xiosim/shadow_MopQ.h:15-18 Invalidate. *)
Definition Invalidate_shadow (s : shadow_Mop) : shadow_Mop := mk_shadow (Invalidate (Mop s)) [].

(** Source: src/xiosim/shadow_MopQ.h:80-84 shadow_MopQ_t. *)
Record t : Type := mk { buffer_ : buffer.t (T := shadow_Mop); size_ : Z }.

Definition blank : shadow_Mop := Invalidate_shadow (mk_shadow (Invalidate (mk_handshake (mk_flags false false false false false false false false false) 0 0 0 0 [] 0 [] 0)) []).

(** Source: src/xiosim/shadow_MopQ.h:43-45 shadow_MopQ_t. *)
Definition create (buff_size : Z) : t := mk (buffer.create buff_size blank) 0.

(** Source: src/xiosim/shadow_MopQ.h:51-60 push_handshake. *)
Definition push_handshake (s : t) (h : handshake) : result t :=
  if negb (speculative (flags h)) then
    let* b := buffer.push (buffer_ s) (λ x, mk_shadow h (speculated x)) in Ok (mk b (size_ s + 1))
  else
    let* x := buffer.back (buffer_ s) in
    let* b := buffer.set_back (buffer_ s) (mk_shadow (Mop x) (speculated x ++ [h])) in Ok (mk b (size_ s + 1)).

(** Source: src/xiosim/shadow_MopQ.h:62-62 full. *)
Definition full (s : t) : bool := buffer.full (buffer_ s).

(** Source: src/xiosim/shadow_MopQ.h:64-64 empty. *)
Definition empty (s : t) : bool := buffer.empty (buffer_ s).

(** Source: src/xiosim/shadow_MopQ.h:68-68 non_spec_size. *)
Definition non_spec_size (s : t) : Z := buffer.size_ (buffer_ s).

(** Source: src/xiosim/shadow_MopQ.h:72-78 pop. *)
Definition pop (s : t) : result t :=
  let* x := buffer.front (buffer_ s) in
  let* _ := guard_or (negb (speculative (flags (Mop x)))) AssertFail in
  let n := size_ s - 1 - Z.of_nat (length (speculated x)) in
  let* b := buffer.pop Invalidate_shadow (buffer_ s) in
  let* _ := guard_or (0 <=? n) AssertFail in
  Ok (mk b n).

(** What the lookup reads of the oracle: the MopQ, and whether a flush is being replayed. *)
Record view : Type := mk_view { v_head : Z; v_size : Z; v_num : Z; v_spec_num : Z; v_non_spec_tail : Z; v_nuke : bool }.

(** Source: src/xiosim/shadow_MopQ.cpp:44-48 get_shadow_Mop.
    NOPs are made up until there are enough speculative handshakes; [diff] iterations
    are enough. *)
Fixpoint make_up (fuel : nat) (nuke : bool) (diff : Z) (fake : handshake) (l : list handshake) : result (list handshake) :=
  if Z.of_nat (length l) <=? diff then
    match fuel with
    | O => Fault Diverge
    | S fuel => let* _ := guard_or nuke AssertFail in make_up fuel nuke diff fake (l ++ [fake])
    end
  else Ok l.

(** Source: src/xiosim/shadow_MopQ.cpp:11-55 get_shadow_Mop.
    The handshake for slot [Mop_ind] of the MopQ; [fake] is the NOP to make up. *)
Definition get_shadow_Mop (s : t) (v : view) (Mop_ind : Z) (spec_mode : bool) (fake : handshake) : result (t * handshake) :=
  let from_head := Z.land (Mop_ind - v_head v) (v_size v - 1) in
  if negb spec_mode then
    let* x := buffer.get_item (buffer_ s) from_head in
    let* _ := guard_or (valid (flags (Mop x))) AssertFail in
    Ok (s, Mop x)
  else
    let* _ := guard_or (0 <? v_num v - v_spec_num v) AssertFail in
    let last_non_spec := moddec (v_non_spec_tail v) (v_size v) in
    let non_spec_from_head := Z.land (last_non_spec - v_head v) (v_size v - 1) in
    let* x := buffer.get_item (buffer_ s) non_spec_from_head in
    let diff := from_head - non_spec_from_head - 1 in
    let* _ := guard_or (0 <=? diff) AssertFail in
    let* l := make_up (S (Z.to_nat diff)) (v_nuke v) diff fake (speculated x) in
    let* b := buffer.set_item (buffer_ s) non_spec_from_head (mk_shadow (Mop x) l) in
    let* h := aget l diff in
    let* _ := guard_or (valid (flags h)) AssertFail in
    Ok (mk b (size_ s + (Z.of_nat (length l) - Z.of_nat (length (speculated x)))), h).

(** ** Invariant *)

Definition entries (s : t) : list shadow_Mop := buffer.contents (buffer_ s).

(** The handshakes of an entry are valid and on the side they belong to. *)
Record entry_ok (x : shadow_Mop) : Prop := {
  e_valid : valid (flags (Mop x)) = true;
  e_real : speculative (flags (Mop x)) = false;
  e_spec : Forall (λ h, valid (flags h) = true ∧ speculative (flags h) = true) (speculated x)
}.

Definition weight (x : shadow_Mop) : Z := 1 + Z.of_nat (length (speculated x)).
Definition weights (l : list shadow_Mop) : Z := foldr (λ x n, weight x + n) 0 l.

Record ok (s : t) : Prop := {
  ok_buffer : buffer.ok (buffer_ s);
  ok_pool : buffer.numPool_ (buffer_ s) < 2 ^ 30;
  ok_entries : Forall entry_ok (entries s);
  ok_size : size_ s = weights (entries s);
  ok_free : buffer.clean (λ x, speculated x = []) (buffer_ s)
}.

Definition capacity (s : t) : Z := buffer.numPool_ (buffer_ s).

Lemma weights_app l l' : weights (l ++ l') = weights l + weights l'.
Proof. induction l as [|x l IH]; simpl; [done|]. unfold weights in *. simpl. lia. Qed.

Lemma weights_insert l i x y : l !! i = Some x → weights (<[i := y]> l) = weights l - weight x + weight y.
Proof.
  revert i. induction l as [|z l IH]; intros [|i] E; simpl in *; try done; [injection E as ->; unfold weights; simpl; lia|].
  specialize (IH i E). unfold weights in *. simpl. lia.
Qed.

Lemma weights_nonneg l : 0 ≤ weights l.
Proof. induction l as [|x l IH]; simpl; [done|]. unfold weights, weight in *. simpl. lia. Qed.

Lemma shadow_entries_length s : ok s → non_spec_size s = Z.of_nat (length (entries s)).
Proof. intros [Hb _ _ _ _]. by apply buffer.size_contents. Qed.

Lemma shadow_create_ok n : 1 ≤ n < 2 ^ 30 → ok (create n) ∧ entries (create n) = [] ∧ capacity (create n) = n.
Proof.
  intros Hn. destruct (buffer.buffer_create_ok (T := shadow_Mop) n blank ltac:(lia)) as [Hb He]. split; [|done].
  split; simpl; [done|lia|done|done|]. by apply buffer.create_clean.
Qed.

(** A handshake of the program goes behind the others. *)
Lemma push_real_ok s h : ok s → full s = false → valid (flags h) = true → speculative (flags h) = false →
  wp (push_handshake s h) (λ s', ok s' ∧ capacity s' = capacity s ∧ entries s' = entries s ++ [mk_shadow h []]).
Proof.
  intros [Hb Hp He Hs Hf] Hroom Hv Hspec. unfold push_handshake. rewrite Hspec. cbn [negb].
  unfold full, buffer.full in Hroom. apply Z.eqb_neq in Hroom. pose proof Hb as [Hsz Hl Hn Ht Hh].
  eapply wp_bind, wp_mono; [apply (buffer.push_ok (λ x, speculated x = [])); [done|done|lia]|].
  intros b (Hb' & Hf' & En & x & Hx & Ec). rewrite Hx in Ec. cbn [wp]. split; [|by split].
  split; simpl; [done|by rewrite En| | |done]; unfold entries; simpl; rewrite Ec.
  - apply list.Forall_app. split; [done|]. apply list.Forall_singleton. by split.
  - rewrite weights_app, Hs. unfold weights, weight. simpl. unfold entries. lia.
Qed.

(** A speculative one goes to the last instruction. *)
Lemma push_spec_ok s h : ok s → entries s ≠ [] → valid (flags h) = true → speculative (flags h) = true →
  wp (push_handshake s h) (λ s', ok s' ∧ capacity s' = capacity s ∧
    ∃ l x, entries s = l ++ [x] ∧ entries s' = l ++ [mk_shadow (Mop x) (speculated x ++ [h])]).
Proof.
  intros Hok Hne Hv Hspec. pose proof (shadow_entries_length s Hok) as Hlen. destruct Hok as [Hb Hp He Hs Hf]. unfold push_handshake. rewrite Hspec. cbn [negb].
  unfold entries in *. unfold non_spec_size in Hlen. assert (1 ≤ buffer.size_ (buffer_ s)) as Hn by (destruct (buffer.contents (buffer_ s)); [done|simpl in Hlen; lia]).
  destruct (buffer.back_ok (buffer_ s) Hb Hn) as (x & -> & Ex). cbn [rbind]. set (y := mk_shadow _ _).
  eapply wp_bind, wp_mono; [by apply (buffer.set_back_ok (λ x, speculated x = []))|]. intros b (Hb' & Hf' & En & Ec). cbn [wp].
  apply list.last_Some in Ex as [l El]. rewrite El in *. rewrite length_app in Hlen. simpl in Hlen.
  replace (Z.to_nat (buffer.size_ (buffer_ s) - 1)) with (length l + 0)%nat in Ec by lia. rewrite insert_app_r in Ec. simpl in Ec.
  split; [|by split; [|exists l, x]]. apply list.Forall_app in He as [He Hx]. apply list.Forall_singleton in Hx as [X1 X2 X3].
  split; simpl; [done|by rewrite En| | |done]; unfold entries; simpl; rewrite Ec.
  - apply list.Forall_app. split; [done|]. apply list.Forall_singleton. split; simpl; [done|done|]. apply list.Forall_app. split; [done|].
    by apply list.Forall_singleton.
  - rewrite Hs, !weights_app. unfold weights, weight. simpl. rewrite length_app. simpl. lia.
Qed.

(** The oldest instruction leaves, with what hangs off it. *)
Lemma shadow_pop_ok s : ok s → entries s ≠ [] → wp (pop s) (λ s', ok s' ∧ capacity s' = capacity s ∧ ∃ x, entries s = x :: entries s').
Proof.
  intros Hok Hne. pose proof (shadow_entries_length s Hok) as Hlen. destruct Hok as [Hb Hp He Hs Hf]. unfold pop, entries, non_spec_size in *.
  assert (1 ≤ buffer.size_ (buffer_ s)) as Hn by (destruct (buffer.contents (buffer_ s)); [done|simpl in Hlen; lia]).
  destruct (buffer.front_ok (buffer_ s) Hb Hn) as (x & l & -> & El). cbn [rbind]. rewrite El in He, Hs. apply list.Forall_cons in He as [[_ X _] He].
  rewrite X. cbn [negb guard_or rbind].
  eapply wp_bind, wp_mono; [by apply (buffer.pop_ok Invalidate_shadow (λ x, speculated x = []))|].
  intros b (Hb' & Hf' & En & y & Ey). rewrite El in Ey. injection Ey as <- El'. subst l.
  change (weights (x :: buffer.contents b)) with (weight x + weights (buffer.contents b)) in Hs. pose proof (weights_nonneg (buffer.contents b)).
  rewrite (proj2 (Z.leb_le _ _)) by (unfold weight in Hs; lia). cbn [guard_or rbind wp]. split; [|split; [done|by exists x]].
  split; simpl; [done|by rewrite En|done|unfold weight in Hs; unfold entries; simpl; lia|done].
Qed.

(** ** The lookup *)

(** The position of a slot of the MopQ, whose size is a power of two. *)
Lemma from_head_slot k head j : 0 ≤ k → 0 ≤ j < 2 ^ k → Z.land (ring.slot (2 ^ k) head j - head) (2 ^ k - 1) = j.
Proof.
  intros Hk Hj. rewrite land_pow2_mask by done. unfold ring.slot. rewrite Zminus_mod_idemp_l.
  replace (head + j - head) with j by lia. by apply Z.mod_small.
Qed.

(** The MopQ of the oracle: the instructions on the right path, then those on a wrong one. *)
Record view_ok (v : view) : Prop := {
  v_pow : ∃ k, 0 ≤ k < 30 ∧ v_size v = 2 ^ k;
  v_in : 0 ≤ v_head v < v_size v;
  v_room : 0 ≤ v_spec_num v ≤ v_num v ∧ v_num v < v_size v;
  v_tail : v_non_spec_tail v = ring.slot (v_size v) (v_head v) (v_num v - v_spec_num v)
}.

Lemma lookup_real_ok s v fake x : ok s → view_ok v → entries s !! Z.to_nat (v_num v) = Some x →
  get_shadow_Mop s v (ring.slot (v_size v) (v_head v) (v_num v)) false fake = Ok (s, Mop x).
Proof.
  intros [Hb Hp He _ _] [(k & Hk & Ek) Hh Hr _] Ex. unfold get_shadow_Mop. cbn [negb]. rewrite Ek in *. rewrite from_head_slot by lia.
  rewrite (buffer.get_item_ok _ _ x) by (done || lia). cbn [rbind]. rewrite (e_valid _ (Forall_lookup_1 _ _ _ _ He Ex)). done.
Qed.

Lemma make_up_ok fuel nuke diff fake l : (nuke = true ∨ diff < Z.of_nat (length l)) → diff - Z.of_nat (length l) < Z.of_nat fuel →
  make_up fuel nuke diff fake l = Ok (l ++ replicate (Z.to_nat (diff + 1 - Z.of_nat (length l))) fake).
Proof.
  revert l. induction fuel as [|fuel IH]; intros l Hn Hf; cbn [make_up].
  - rewrite (proj2 (Z.leb_gt _ _)) by lia. replace (Z.to_nat _) with 0%nat by lia. by rewrite app_nil_r.
  - destruct (Z.leb_spec (Z.of_nat (length l)) diff) as [Hd|Hd].
    + assert (nuke = true) as -> by (destruct Hn; [done|lia]). cbn [guard_or rbind]. rewrite IH; [|by left|rewrite length_app; simpl; lia].
      rewrite <- app_assoc. do 2 f_equal. rewrite length_app. simpl length.
      replace (Z.to_nat (diff + 1 - Z.of_nat (length l))) with (S (Z.to_nat (diff + 1 - Z.of_nat (length l + 1)))) by lia. done.
    + replace (Z.to_nat _) with 0%nat by lia. by rewrite app_nil_r.
Qed.

Lemma lookup_spec_ok s v fake x : ok s → view_ok v → v_spec_num v < v_num v → entries s !! Z.to_nat (v_num v - v_spec_num v - 1) = Some x →
  valid (flags fake) = true → speculative (flags fake) = true → (v_nuke v = true ∨ v_spec_num v < Z.of_nat (length (speculated x))) →
  wp (get_shadow_Mop s v (ring.slot (v_size v) (v_head v) (v_num v)) true fake) (λ '(s', h), ok s' ∧ capacity s' = capacity s ∧
    valid (flags h) = true ∧ speculative (flags h) = true ∧ (h ∈ speculated x ∨ h = fake) ∧
    ∃ n, entries s' = <[Z.to_nat (v_num v - v_spec_num v - 1) := mk_shadow (Mop x) (speculated x ++ replicate n fake)]> (entries s) ∧
      v_spec_num v < Z.of_nat (length (speculated x ++ replicate n fake))).
Proof.
  intros [Hb Hp He Hs Hf] [(k & Hk & Ek) Hh Hr Et] Hlt Ex Hv Hsp Hn. unfold get_shadow_Mop. cbn [negb]. rewrite Et, Ek in *.
  rewrite (proj2 (Z.ltb_lt _ _)) by lia. cbn [guard_or rbind]. pose proof (Z.pow_lt_mono_r 2 k 30 ltac:(lia) ltac:(lia) ltac:(lia)).
  rewrite ring.moddec_slot by lia. rewrite !from_head_slot by lia. set (i := v_num v - v_spec_num v - 1) in *.
  rewrite (buffer.get_item_ok _ _ x) by (done || lia). cbn [rbind].
  replace (v_num v - i - 1) with (v_spec_num v) by lia. rewrite (proj2 (Z.leb_le _ _)) by lia. cbn [guard_or rbind].
  rewrite make_up_ok by (done || lia). cbn [rbind]. set (n := Z.to_nat _). set (l := speculated x ++ replicate n fake).
  pose proof (lookup_lt_Some _ _ _ Ex) as Hi. pose proof (buffer.size_contents _ Hb) as Hsz. unfold entries in Hi.
  eapply wp_bind, wp_mono; [apply (buffer.set_item_ok (λ x, speculated x = []) _ i (mk_shadow (Mop x) l)); [done|done|done|lia]|].
  intros b (Hb' & Hf' & En & Ec). cbn [wp]. destruct (Forall_lookup_1 _ _ _ _ He Ex) as [X1 X2 X3].
  assert (Forall (λ h, valid (flags h) = true ∧ speculative (flags h) = true) l) as Hl by (apply list.Forall_app; split; [done|by apply Forall_replicate]).
  assert (Z.of_nat (length l) > v_spec_num v) as Hlen by (unfold l, n; rewrite length_app, length_replicate; lia).
  destruct (aget_ok l (v_spec_num v)) as (h & Eh & ->); [lia|]. cbn [rbind]. destruct (Forall_lookup_1 _ _ _ _ Hl Eh) as [H1 H2].
  rewrite H1. cbn [guard_or rbind wp]. split; [|split_and!; [done|done|done| |exists n; split; [done|exact (Z.gt_lt _ _ Hlen)]]].
  - split; simpl; [done|by rewrite En| | |done]; unfold entries; simpl; rewrite Ec.
    + by apply Forall_insert; [|split].
    + fold (entries s). rewrite (weights_insert _ _ _ _ Ex). unfold weight. simpl. lia.
  - apply list_elem_of_lookup_2 in Eh. unfold l in Eh. apply elem_of_app in Eh as [?|Eh]; [by left|right]. by apply elem_of_replicate in Eh as [-> _].
Qed.
End shadow_mopq.
