(* ===== verification/OracleDeps.v ===== *)
(** * OracleDeps: the dataflow graph of the oracle

    The dependency tracking of zesto-oracle.cpp: the producers of every register that are
    in flight ([dep_map], the oracle's rename table), the pointers of a uop to the
    producers of its operands (idep) and back (odep).  A uop is its pointer: the slot of
    its Mop in the MopQ and its index in the flow.  What a uop decodes to and what it is
    linked to are two maps here.  The invariant: the graph is the dataflow of the list of the uops in
    flight, nothing more, and no odep node leaks. *)

From S2P Require Import Prelude.

Module oracle_deps.

Definition ptr : Type := (Z * Z)%type.

Definition XED_REG_INVALID : Z := 0.

(** Source: src/xiosim/uop_cracker.h:23-26 MAX_IDEPS. *)
Definition MAX_IDEPS : Z := 3.
Definition MAX_ODEPS : Z := 2.

(** Source: src/xiosim/zesto-structs.h:91-92 uop_t.
    The registers of a uop; [seq] is the number of its Mop. *)
Record regs : Type := mk_regs { seq : Z; idep_name : list Z; odep_name : list Z }.

(** Source: src/xiosim/zesto-structs.h:160-162 uop_t. *)
Record links : Type := mk_links { idep_uop : list (option ptr); odep_uop : list (ptr * Z) }.

Definition unlinked : links := mk_links (replicate (Z.to_nat MAX_IDEPS) None) [].

(** [debt] counts the odep nodes that are out of the pool (odep_free_pool_debt). *)
Record graph : Type := mk_graph {
  regs_of : gmap ptr regs;
  links_of : gmap ptr links;
  dep_map : gmap Z (list ptr);
  debt : Z
}.

Definition producers (m : gmap Z (list ptr)) (r : Z) : list ptr := default [] (m !! r).

Definition regs_at (g : graph) (p : ptr) : result regs := of_option NullDeref (regs_of g !! p).
Definition links_at (g : graph) (p : ptr) : result links := of_option NullDeref (links_of g !! p).

Definition with_map (m : gmap Z (list ptr)) (g : graph) : graph := mk_graph (regs_of g) (links_of g) m (debt g).
Definition with_links (p : ptr) (l : links) (g : graph) : graph := mk_graph (regs_of g) (<[p := l]> (links_of g)) (dep_map g) (debt g).

(** Source: src/xiosim/zesto-core.cpp:124-138 get_odep_link. *)
Definition get_odep_link (g : graph) : graph := mk_graph (regs_of g) (links_of g) (dep_map g) (debt g + 1).

(** Source: src/xiosim/zesto-core.cpp:140-146 return_odep_link. *)
Definition return_odep_link (g : graph) : graph := mk_graph (regs_of g) (links_of g) (dep_map g) (debt g - 1).

(** Source: src/xiosim/zesto-oracle.cpp:919-927 install_mapping. *)
Fixpoint push_producer (names : list Z) (p : ptr) (m : gmap Z (list ptr)) : gmap Z (list ptr) :=
  match names with
  | [] => m
  | r :: names => push_producer names p (if r =? XED_REG_INVALID then m else <[r := producers m r ++ [p]]> m)
  end.

(** Source: src/xiosim/zesto-oracle.cpp:919-927 install_mapping. *)
Definition install_mapping (g : graph) (p : ptr) : result graph :=
  let* u := regs_at g p in Ok (with_map (push_producer (odep_name u) p (dep_map g)) g).

(** Source: src/xiosim/zesto-oracle.cpp:930-940 commit_mapping. *)
Fixpoint pop_oldest (names : list Z) (p : ptr) (m : gmap Z (list ptr)) : result (gmap Z (list ptr)) :=
  match names with
  | [] => Ok m
  | r :: names =>
      if r =? XED_REG_INVALID then pop_oldest names p m
      else
        match producers m r with
        | [] => Fault OutOfBounds
        | q :: l =>
            let* _ := guard_or (bool_decide (q = p)) AssertFail in
            pop_oldest names p (<[r := l]> m)
        end
  end.

(** Source: src/xiosim/zesto-oracle.cpp:930-940 commit_mapping. *)
Definition commit_mapping (g : graph) (p : ptr) : result graph :=
  let* u := regs_at g p in let* m := pop_oldest (odep_name u) p (dep_map g) in Ok (with_map m g).

(** Source: src/xiosim/zesto-oracle.cpp:945-959 undo_mapping. *)
Fixpoint pop_youngest (names : list Z) (p : ptr) (m : gmap Z (list ptr)) : result (gmap Z (list ptr)) :=
  match names with
  | [] => Ok m
  | r :: names =>
      if r =? XED_REG_INVALID then pop_youngest names p m
      else
        match list.last (producers m r) with
        | None => pop_youngest names p m
        | Some q =>
            let* _ := guard_or (bool_decide (q = p)) AssertFail in
            pop_youngest names p (<[r := removelast (producers m r)]> m)
        end
  end.

(** Source: src/xiosim/zesto-oracle.cpp:945-959 undo_mapping. *)
Definition undo_mapping (g : graph) (p : ptr) : result graph :=
  let* u := regs_at g p in let* m := pop_youngest (odep_name u) p (dep_map g) in Ok (with_map m g).

(** Source: src/xiosim/zesto-oracle.cpp:976-988 install_dependencies.
    Operand [i] of [p] is linked to its producer. *)
Definition link (g : graph) (p : ptr) (i : Z) (parent : ptr) : result graph :=
  let* u := regs_at g p in
  let* v := regs_at g parent in
  let* _ := guard_or (seq v <=? seq u) AssertFail in
  let* l := links_at g p in
  let* idep := aset (idep_uop l) i (Some parent) in
  let g := with_links p (mk_links idep (odep_uop l)) g in
  let g := get_odep_link g in
  let* l := links_at g parent in
  Ok (with_links parent (mk_links (idep_uop l) ((p, i) :: odep_uop l)) g).

(** Source: src/xiosim/zesto-oracle.cpp:964-990 install_dependencies. *)
Fixpoint link_operands (names : list Z) (i : Z) (p : ptr) (g : graph) : result graph :=
  match names with
  | [] => Ok g
  | r :: names =>
      let* g := if r =? XED_REG_INVALID then Ok g
                else match list.last (producers (dep_map g) r) with None => Ok g | Some parent => link g p i parent end in
      link_operands names (i + 1) p g
  end.

(** Source: src/xiosim/zesto-oracle.cpp:964-990 install_dependencies. *)
Definition install_dependencies (g : graph) (p : ptr) : result graph :=
  let* u := regs_at g p in link_operands (idep_name u) 0 p g.

(** Source: src/xiosim/zesto-oracle.cpp:998-1011 undo_dependencies.
    The walk over the odep list of the parent: the first node of the child and its
    operand is taken out. *)
Fixpoint unlink_odep (l : list (ptr * Z)) (p : ptr) (i : Z) : option (list (ptr * Z)) :=
  match l with
  | [] => None
  | x :: l => if decide (x = (p, i)) then Some l else match unlink_odep l p i with Some l => Some (x :: l) | None => None end
  end.

(** Source: src/xiosim/zesto-oracle.cpp:993-1018 undo_dependencies. *)
Definition undo_operand (i : Z) (p : ptr) (g : graph) : result graph :=
  let* l := links_at g p in
  let* parent := aget (idep_uop l) i in
  match parent with
  | None => Ok g
  | Some parent =>
      let* lp := links_at g parent in
      match unlink_odep (odep_uop lp) p i with
      | None => Fault AssertFail
      | Some odep =>
          let g := return_odep_link (with_links parent (mk_links (idep_uop lp) odep) g) in
          let* l := links_at g p in
          let* idep := aset (idep_uop l) i None in
          Ok (with_links p (mk_links idep (odep_uop l)) g)
      end
  end.

(** Source: src/xiosim/zesto-oracle.cpp:993-1018 undo_dependencies. *)
Definition undo_dependencies (g : graph) (p : ptr) : result graph := for_range 0 MAX_IDEPS (λ i g, undo_operand i p g) g.

(** Source: src/xiosim/zesto-oracle.cpp:1021-1038 commit_dependencies. *)
Fixpoint clear_children (l : list (ptr * Z)) (p : ptr) (g : graph) : result graph :=
  match l with
  | [] => Ok g
  | (c, i) :: l =>
      let* lc := links_at g c in
      let* q := aget (idep_uop lc) i in
      let* _ := guard_or (bool_decide (q = Some p)) AssertFail in
      let* idep := aset (idep_uop lc) i None in
      clear_children l p (return_odep_link (with_links c (mk_links idep (odep_uop lc)) g))
  end.

(** Source: src/xiosim/zesto-oracle.cpp:1021-1038 commit_dependencies. *)
Definition commit_dependencies (g : graph) (p : ptr) : result graph :=
  let* l := links_at g p in
  let* g := clear_children (odep_uop l) p g in
  let* l := links_at g p in
  Ok (with_links p (mk_links (idep_uop l) []) g).

(** ** The rename table *)

(** What a uop with outputs [names] adds to the producers of [r]. *)
Definition writes (names : list Z) (r : Z) (p : ptr) : list ptr := (λ _, p) <$> filter (λ x, x = r) names.

Lemma writes_skip names p r : r ≠ XED_REG_INVALID → writes (XED_REG_INVALID :: names) r p = writes names r p.
Proof. intros Hr. unfold writes. by rewrite filter_cons_False. Qed.

Lemma writes_cons names p r : writes (r :: names) r p = p :: writes names r p.
Proof. unfold writes. by rewrite filter_cons_True. Qed.

Lemma writes_ne names p r r' : r' ≠ r → writes (r' :: names) r p = writes names r p.
Proof. intros Hr. unfold writes. by rewrite filter_cons_False. Qed.

(** All its entries are the uop. *)
Lemma writes_snoc names p r : writes names r p ++ [p] = p :: writes names r p.
Proof. unfold writes. induction (filter _ _) as [|x l IH]; [done|]. simpl. f_equal. exact IH. Qed.

Lemma elem_of_writes names r p q : q ∈ writes names r p → q = p.
Proof. unfold writes. by intros (? & -> & _)%list_elem_of_fmap. Qed.

Lemma producers_insert m r l r' : producers (<[r := l]> m) r' = if decide (r = r') then l else producers m r'.
Proof. unfold producers. case_decide as E; [by rewrite E, lookup_insert_eq|by rewrite lookup_insert_ne]. Qed.

Lemma push_producer_ok names p m r : r ≠ XED_REG_INVALID → producers (push_producer names p m) r = producers m r ++ writes names r p.
Proof.
  intros Hr. revert m. induction names as [|r' names IH]; intros m; cbn [push_producer]; [by rewrite app_nil_r|].
  rewrite IH. destruct (Z.eqb_spec r' XED_REG_INVALID) as [->|Hr']; [by rewrite writes_skip|].
  rewrite producers_insert. case_decide as E; [subst r'; by rewrite writes_cons, <- app_assoc|by rewrite writes_ne].
Qed.

Lemma pop_oldest_ok names p m f : (∀ r, r ≠ XED_REG_INVALID → producers m r = writes names r p ++ f r) →
  wp (pop_oldest names p m) (λ m', ∀ r, r ≠ XED_REG_INVALID → producers m' r = f r).
Proof.
  revert m. induction names as [|r' names IH]; intros m Hm; cbn [pop_oldest]; [done|].
  destruct (Z.eqb_spec r' XED_REG_INVALID) as [->|Hr']; [apply IH; intros r Hr; by rewrite Hm, writes_skip|].
  pose proof (Hm r' Hr') as Er. rewrite writes_cons in Er. rewrite Er. simpl. rewrite bool_decide_true by done. cbn [guard_or rbind].
  apply IH. intros r Hr. rewrite producers_insert. case_decide as E; [by subst|]. by rewrite Hm, writes_ne.
Qed.

Lemma removelast_snoc {A} (l : list A) x : removelast (l ++ [x]) = l.
Proof. apply removelast_last. Qed.

Lemma pop_youngest_ok names p m f : (∀ r, r ≠ XED_REG_INVALID → producers m r = f r ++ writes names r p) →
  wp (pop_youngest names p m) (λ m', ∀ r, r ≠ XED_REG_INVALID → producers m' r = f r).
Proof.
  revert m. induction names as [|r' names IH]; intros m Hm; cbn [pop_youngest].
  { intros r Hr. by rewrite Hm, app_nil_r. }
  destruct (Z.eqb_spec r' XED_REG_INVALID) as [->|Hr']; [apply IH; intros r Hr; by rewrite Hm, writes_skip|].
  pose proof (Hm r' Hr') as Er. rewrite writes_cons, <- writes_snoc, app_assoc in Er. rewrite Er, list.last_snoc, removelast_snoc.
  rewrite bool_decide_true by done. cbn [guard_or rbind].
  apply IH. intros r Hr. rewrite producers_insert. case_decide as E; [by subst|]. by rewrite Hm, writes_ne.
Qed.

(** A uop that is not in the table is not looked for. *)
Lemma pop_youngest_empty names p m : (∀ r, r ≠ XED_REG_INVALID → producers m r = []) → pop_youngest names p m = Ok m.
Proof.
  intros Hm. induction names as [|r names IH]; cbn [pop_youngest]; [done|].
  destruct (Z.eqb_spec r XED_REG_INVALID) as [|Hr]; [done|]. by rewrite (Hm r Hr).
Qed.

(** ** The links *)

(** Operand [i] of [p] is linked to [q]. *)
Definition idep_of (m : gmap ptr links) (p : ptr) (i : Z) : option ptr :=
  l ← m !! p; mjoin (idep_uop l !! Z.to_nat i).

Definition operand (g : graph) (p : ptr) (i : Z) (q : ptr) : Prop := 0 ≤ i ∧ idep_of (links_of g) p i = Some q.

Definition linked (l : links) : Z := Z.of_nat (length (filter (λ x, x ≠ None) (idep_uop l))).
Definition total (m : gmap ptr links) : Z := map_fold (λ _ l n, linked l + n) 0 m.

(** The two directions of the links agree, and [debt] is their number. *)
Record consistent (g : graph) : Prop := {
  c_len p l : links_of g !! p = Some l → length (idep_uop l) = Z.to_nat MAX_IDEPS ∧ NoDup (odep_uop l);
  c_back p l c i : links_of g !! p = Some l → (c, i) ∈ odep_uop l ↔ operand g c i p;
  c_in p i q : operand g p i q → is_Some (links_of g !! q) ∧ p ≠ q;
  c_debt : debt g = total (links_of g)
}.

Lemma links_total_insert (m : gmap ptr links) p l l' : m !! p = Some l → total (<[p := l']> m) = total m - linked l + linked l'.
Proof.
  intros Hp. unfold total. rewrite <- (insert_delete_id m p l Hp) at 2. rewrite <- insert_delete_eq.
  rewrite !map_fold_insert_L by (try (intros; lia); apply lookup_delete_eq). lia.
Qed.

Lemma total_fresh (m : gmap ptr links) p l : m !! p = None → total (<[p := l]> m) = total m + linked l.
Proof. intros Hp. unfold total. rewrite map_fold_insert_L by (try (intros; lia); done). lia. Qed.

Lemma total_delete (m : gmap ptr links) p l : m !! p = Some l → total (delete p m) = total m - linked l.
Proof.
  intros Hp. rewrite <- (insert_delete_id m p l Hp) at 2. rewrite total_fresh by apply lookup_delete_eq. lia.
Qed.

Lemma linked_insert l i x y : idep_uop l !! i = Some x → ∀ o o',
  linked (mk_links (<[i := y]> (idep_uop l)) o) = linked (mk_links (idep_uop l) o') - (if decide (x ≠ None) then 1 else 0) + (if decide (y ≠ None) then 1 else 0).
Proof.
  intros Hi o o'. unfold linked. simpl. pose proof (lookup_lt_Some _ _ _ Hi). rewrite insert_take_drop by done.
  rewrite <- (take_drop_middle (idep_uop l) i x Hi) at 3. rewrite !list.filter_app, !filter_cons, !length_app.
  repeat case_decide; simpl; lia.
Qed.

Lemma idep_of_insert m p l q i : idep_of (<[p := l]> m) q i = if decide (p = q) then mjoin (idep_uop l !! Z.to_nat i) else idep_of m q i.
Proof. unfold idep_of. rewrite lookup_insert. by case_decide. Qed.

Lemma idep_of_lookup m p l i : m !! p = Some l → idep_of m p i = mjoin (idep_uop l !! Z.to_nat i).
Proof. unfold idep_of. by intros ->. Qed.

(** Operand [i] of [p] changes to [y]. *)
Lemma mjoin_insert (l : list (option ptr)) i j y : 0 ≤ i < Z.of_nat (length l) → 0 ≤ j →
  mjoin (<[Z.to_nat i := y]> l !! Z.to_nat j) = if decide (i = j) then y else mjoin (l !! Z.to_nat j).
Proof.
  intros Hi Hj. case_decide as E; [subst; rewrite list_lookup_insert_eq by lia; done|].
  by rewrite list_lookup_insert_ne by lia.
Qed.

(** A new link. *)
Definition add_edge (m : gmap ptr links) (p : ptr) (lp : links) (i : Z) (q : ptr) (lq : links) : gmap ptr links :=
  <[q := mk_links (idep_uop lq) ((p, i) :: odep_uop lq)]> (<[p := mk_links (<[Z.to_nat i := Some q]> (idep_uop lp)) (odep_uop lp)]> m).

Lemma add_edge_ok g p lp i q lq : consistent g → links_of g !! p = Some lp → links_of g !! q = Some lq → p ≠ q → 0 ≤ i < MAX_IDEPS →
  idep_of (links_of g) p i = None →
  let g' := mk_graph (regs_of g) (add_edge (links_of g) p lp i q lq) (dep_map g) (debt g + 1) in
  consistent g' ∧ (∀ c j x, operand g' c j x ↔ operand g c j x ∨ c = p ∧ j = i ∧ x = q) ∧
  ∀ c, is_Some (links_of g' !! c) ↔ is_Some (links_of g !! c).
Proof.
  intros [Hlen Hback Hin Hdebt] Hp Hq Hne Hi Hnone g'. destruct (Hlen _ _ Hp) as [Lp Np], (Hlen _ _ Hq) as [Lq Nq].
  pose proof (idep_of_lookup _ _ _ i Hp) as Eip. rewrite Hnone in Eip. change (Z.to_nat MAX_IDEPS) with 3%nat in *. unfold MAX_IDEPS in Hi.
  assert (∀ c j, 0 ≤ j → idep_of (links_of g') c j = if decide (c = p ∧ j = i) then Some q else idep_of (links_of g) c j) as Hidep.
  { intros c j Hj. unfold g', add_edge. simpl. rewrite !idep_of_insert. simpl. rewrite mjoin_insert by lia.
    destruct (decide (q = c)) as [<-|]; [rewrite decide_False by (intuition congruence); by rewrite (idep_of_lookup _ _ _ j Hq)|].
    destruct (decide (p = c)) as [<-|]; [|by rewrite decide_False by (intuition congruence)].
    destruct (decide (i = j)) as [<-|]; [by rewrite decide_True|]. rewrite decide_False by (intuition congruence). by rewrite (idep_of_lookup _ _ _ j Hp). }
  assert (∀ c j x, operand g' c j x ↔ operand g c j x ∨ c = p ∧ j = i ∧ x = q) as Hop.
  { intros c j x. unfold operand. split.
    - intros [Hj E]. rewrite Hidep in E by done. case_decide; [|by left]. right. (intuition congruence).
    - intros [[Hj E]|(-> & -> & ->)]; (split; [lia|]); rewrite Hidep by lia; [|by rewrite decide_True].
      rewrite decide_False; [done|]. intros [-> ->]. congruence. }
  assert (∀ c, is_Some (links_of g' !! c) ↔ is_Some (links_of g !! c)) as Hdom.
  { intros c. unfold g', add_edge. simpl. rewrite !lookup_insert. repeat case_decide; subst; rewrite ?Hp, ?Hq; try done; split; intros _; by eexists. }
  split; [|done]. split.
  - intros c l. unfold g', add_edge. simpl. rewrite !lookup_insert. repeat case_decide; subst.
    + intros [= <-]. simpl. split; [done|]. constructor; [|done]. rewrite Hback by done. intros [_ E]. congruence.
    + intros [= <-]. simpl. by rewrite length_insert.
    + apply Hlen.
  - intros c l x j E. rewrite Hop. unfold g', add_edge in E. simpl in E. rewrite !lookup_insert in E. repeat case_decide; subst.
    + injection E as <-. simpl. rewrite elem_of_cons, Hback by done. (intuition congruence).
    + injection E as <-. simpl. rewrite Hback by done. (intuition congruence).
    + rewrite Hback by done. (intuition congruence).
  - intros c j x. rewrite Hop, Hdom. intros [E%Hin|(-> & -> & ->)]; [done|]. split; [by eexists|done].
  - unfold g', add_edge. simpl. rewrite Hdebt.
    rewrite (links_total_insert _ q lq) by by rewrite lookup_insert_ne. rewrite (links_total_insert _ p lp) by done.
    destruct (lookup_lt_is_Some_2 (idep_uop lp) (Z.to_nat i)) as [o Ho]; [lia|].
    pose proof (linked_insert lp (Z.to_nat i) o (Some q) Ho (odep_uop lp) (odep_uop lp)) as El. rewrite Ho in Eip. simpl in Eip. subst o.
    rewrite decide_False in El by (intuition congruence). rewrite decide_True in El by done. destruct lp, lq. unfold linked in *. simpl in *. lia.
Qed.

(** A link is taken out. *)
Definition cut_edge (m : gmap ptr links) (p : ptr) (lp : links) (i : Z) (q : ptr) (lq : links) (rest : list (ptr * Z)) : gmap ptr links :=
  <[q := mk_links (idep_uop lq) rest]> (<[p := mk_links (<[Z.to_nat i := None]> (idep_uop lp)) (odep_uop lp)]> m).

Lemma cut_edge_ok g p lp i q lq rest : consistent g → links_of g !! p = Some lp → links_of g !! q = Some lq →
  operand g p i q → odep_uop lq ≡ₚ (p, i) :: rest →
  let g' := mk_graph (regs_of g) (cut_edge (links_of g) p lp i q lq rest) (dep_map g) (debt g - 1) in
  consistent g' ∧ (∀ c j x, operand g' c j x ↔ operand g c j x ∧ ¬ (c = p ∧ j = i)) ∧
  ∀ c, is_Some (links_of g' !! c) ↔ is_Some (links_of g !! c).
Proof.
  intros [Hlen Hback Hin Hdebt] Hp Hq Hpq Hperm g'. destruct (Hlen _ _ Hp) as [Lp Np], (Hlen _ _ Hq) as [Lq Nq].
  destruct (Hin _ _ _ Hpq) as [_ Hne]. destruct Hpq as [Hi0 Eip0]. pose proof (idep_of_lookup _ _ _ i Hp) as Eip. rewrite Eip0 in Eip.
  assert (Z.to_nat i < length (idep_uop lp))%nat as Hlt.
  { apply lookup_lt_is_Some_1. destruct (idep_uop lp !! Z.to_nat i); [by eexists|done]. }
  assert (∀ c j, 0 ≤ j → idep_of (links_of g') c j = if decide (c = p ∧ j = i) then None else idep_of (links_of g) c j) as Hidep.
  { intros c j Hj. unfold g', cut_edge. simpl. rewrite !idep_of_insert. simpl. rewrite mjoin_insert by lia.
    destruct (decide (q = c)) as [<-|]; [rewrite decide_False by (intuition congruence); by rewrite (idep_of_lookup _ _ _ j Hq)|].
    destruct (decide (p = c)) as [<-|]; [|by rewrite decide_False by (intuition congruence)].
    destruct (decide (i = j)) as [<-|]; [by rewrite decide_True|]. rewrite decide_False by (intuition congruence). by rewrite (idep_of_lookup _ _ _ j Hp). }
  assert (∀ c j x, operand g' c j x ↔ operand g c j x ∧ ¬ (c = p ∧ j = i)) as Hop.
  { intros c j x. unfold operand. split.
    - intros [Hj E]. rewrite Hidep in E by done. by case_decide.
    - intros [[Hj E] Hn]. split; [done|]. rewrite Hidep by lia. by rewrite decide_False. }
  assert (∀ c, is_Some (links_of g' !! c) ↔ is_Some (links_of g !! c)) as Hdom.
  { intros c. unfold g', cut_edge. simpl. rewrite !lookup_insert. repeat case_decide; subst; rewrite ?Hp, ?Hq; try done; split; intros _; by eexists. }
  rewrite Hperm in Nq. apply list.NoDup_cons in Nq as [Nin Nrest]. split; [|done]. split.
  - intros c l. unfold g', cut_edge. simpl. rewrite !lookup_insert. repeat case_decide; subst; [by intros [= <-]| |apply Hlen].
    intros [= <-]. simpl. by rewrite length_insert.
  - intros c l x j E. rewrite Hop. unfold g', cut_edge in E. simpl in E. rewrite !lookup_insert in E. repeat case_decide; subst.
    + injection E as <-. simpl. rewrite <- (Hback _ lq x j Hq), Hperm, elem_of_cons.
      split; [intros Hr; split; [by right|by intros [-> ->]]|intros [[[= -> ->]|Hr] Hn]; [by destruct Hn|done]].
    + injection E as <-. simpl. rewrite Hback by done. split; [|by intros []]. intros [Hj E]. split; [done|]. intros [-> ->]. congruence.
    + rewrite Hback by done. split; [|by intros []]. intros [Hj E']. split; [done|]. intros [-> ->]. congruence.
  - intros c j x. rewrite Hop, Hdom. intros [E _]. by apply Hin in E.
  - unfold g', cut_edge. simpl. rewrite Hdebt.
    rewrite (links_total_insert _ q lq) by by rewrite lookup_insert_ne. rewrite (links_total_insert _ p lp) by done.
    destruct (idep_uop lp !! Z.to_nat i) as [o|] eqn:Ho; [|done].
    pose proof (linked_insert lp (Z.to_nat i) o None Ho (odep_uop lp) (odep_uop lp)) as El. simpl in Eip. subst o.
    rewrite decide_True in El by done. rewrite decide_False in El by (intuition congruence). destruct lp, lq. unfold linked in *. simpl in *. lia.
Qed.

(** ** The dataflow of a list of uops *)

Section dataflow.
Variable R : gmap ptr regs.

Definition writes_of (r : Z) (p : ptr) : list ptr := match R !! p with Some u => writes (odep_name u) r p | None => [] end.

(** Operand [i] of [p] comes from [q]: of the uops before [p] in the list, [q] is the last
    one that writes the register. *)
Definition dataflow (live : list ptr) (p : ptr) (i : Z) (q : ptr) : Prop :=
  ∃ pre post u r, live = pre ++ p :: post ∧ R !! p = Some u ∧ 0 ≤ i ∧ idep_name u !! Z.to_nat i = Some r ∧ r ≠ XED_REG_INVALID ∧
    list.last (pre ≫= writes_of r) = Some q.

Lemma elem_of_writes_of r p q : q ∈ writes_of r p → q = p.
Proof. unfold writes_of. destruct (R !! p); [apply elem_of_writes|]. by intros ?%elem_of_nil. Qed.

Lemma last_writer_in r l q : list.last (l ≫= writes_of r) = Some q → q ∈ l.
Proof.
  intros [l' E]%list.last_Some. assert (q ∈ l ≫= writes_of r) as Hq by (rewrite E; apply elem_of_app; right; by left).
  apply list_elem_of_bind in Hq as (p & Hq & Hp). by apply elem_of_writes_of in Hq as ->.
Qed.

Lemma dataflow_in live p i q : dataflow live p i q → p ∈ live ∧ q ∈ live.
Proof.
  intros (pre & post & u & r & -> & _ & _ & _ & _ & Hq). rewrite !elem_of_app, elem_of_cons. split; [auto|]. left. by eapply last_writer_in.
Qed.

Lemma dataflow_snoc live p c j x : dataflow (live ++ [p]) c j x ↔
  dataflow live c j x ∨ c = p ∧ ∃ u r, R !! p = Some u ∧ 0 ≤ j ∧ idep_name u !! Z.to_nat j = Some r ∧ r ≠ XED_REG_INVALID ∧
    list.last (live ≫= writes_of r) = Some x.
Proof.
  split.
  - intros (pre & post & u & r & E & Hu). destruct post as [|y post _] using rev_ind.
    + apply app_inj_tail in E as [<- <-]. right. eauto 10.
    + rewrite app_comm_cons, app_assoc in E. apply app_inj_tail in E as [-> ->]. left. by exists pre, post, u, r.
  - intros [(pre & post & u & r & -> & Hu)|(-> & u & r & Hu)].
    + exists pre, (post ++ [p]), u, r. by rewrite <- app_assoc.
    + by exists live, [], u, r.
Qed.

Lemma writers_cons r p pre : (p :: pre) ≫= writes_of r = writes_of r p ++ (pre ≫= writes_of r).
Proof. done. Qed.

Lemma dataflow_cons live p c j x : p ∉ live → dataflow live c j x ↔ dataflow (p :: live) c j x ∧ x ≠ p.
Proof.
  intros Hp. split.
  - intros Hd. pose proof (dataflow_in _ _ _ _ Hd) as [_ Hx]. split; [|by intros ->].
    destruct Hd as (pre & post & u & r & -> & Hu & Hj & Hr & Hr0 & Hl). exists (p :: pre), post, u, r.
    rewrite writers_cons, list.last_app, Hl. done.
  - intros [(pre & post & u & r & E & Hu & Hj & Hr & Hr0 & Hl) Hx]. destruct pre as [|y pre]; [done|].
    injection E as <- ->. exists pre, post, u, r. split_and!; try done. rewrite writers_cons, list.last_app in Hl.
    destruct (list.last (pre ≫= writes_of r)); [done|]. exfalso. apply Hx. eapply elem_of_writes_of.
    apply list.last_Some in Hl as [l' ->]. apply elem_of_app. right. by left.
Qed.

End dataflow.

(** ** The graph of the uops in flight *)

Record graph_ok (live : list ptr) (g : graph) : Prop := {
  g_cons : consistent g;
  g_live : NoDup live;
  g_nodes p : p ∈ live → ∃ u, regs_of g !! p = Some u ∧ length (idep_name u) = Z.to_nat MAX_IDEPS ∧ is_Some (links_of g !! p);
  g_map r : r ≠ XED_REG_INVALID → producers (dep_map g) r = live ≫= writes_of (regs_of g) r;
  g_operands p i q : operand g p i q ↔ dataflow (regs_of g) live p i q
}.

(** Two graphs with the same uops. *)
Definition same_uops (g g' : graph) : Prop := regs_of g' = regs_of g ∧ ∀ p, is_Some (links_of g' !! p) ↔ is_Some (links_of g !! p).

Lemma same_uops_refl g : same_uops g g.
Proof. done. Qed.

Lemma same_uops_trans g1 g2 g3 : same_uops g1 g2 → same_uops g2 g3 → same_uops g1 g3.
Proof. intros [E1 H1] [E2 H2]. split; [congruence|]. intros p. by rewrite H2. Qed.

(** What an operation on the links of [p] does: the operands change by [P]. *)
Definition relinked (g g' : graph) (P : ptr → Z → ptr → Prop) : Prop :=
  consistent g' ∧ same_uops g g' ∧ dep_map g' = dep_map g ∧ ∀ c j x, operand g' c j x ↔ P c j x.

Lemma operand_fun g p i q q' : operand g p i q → operand g p i q' → q = q'.
Proof. intros [_ E] [_ E']. congruence. Qed.

Lemma operand_aget g p i l : links_of g !! p = Some l → 0 ≤ i < Z.of_nat (length (idep_uop l)) →
  ∃ o, aget (idep_uop l) i = Ok o ∧ idep_of (links_of g) p i = o.
Proof.
  intros Hp Hi. destruct (aget_ok (idep_uop l) i Hi) as (o & E & G). exists o. split; [done|].
  rewrite (idep_of_lookup _ _ _ _ Hp), E. done.
Qed.

Lemma link_ok g p i q u v : consistent g → regs_of g !! p = Some u → regs_of g !! q = Some v → seq v ≤ seq u →
  is_Some (links_of g !! p) → is_Some (links_of g !! q) → p ≠ q → 0 ≤ i < MAX_IDEPS → (∀ x, ¬ operand g p i x) →
  wp (link g p i q) (λ g', relinked g g' (λ c j x, operand g c j x ∨ c = p ∧ j = i ∧ x = q)).
Proof.
  intros Hc Hu Hv Hseq [lp Hp] [lq Hq] Hne Hi Hno. unfold link, regs_at, links_at. rewrite Hu, Hv, Hp. cbn [of_option rbind].
  rewrite (proj2 (Z.leb_le _ _)) by done. cbn [guard_or rbind]. destruct (c_len _ Hc _ _ Hp) as [Lp _]. unfold MAX_IDEPS in *.
  rewrite aset_ok by lia. cbn [rbind]. simpl. rewrite lookup_insert_ne by done. rewrite Hq. simpl.
  destruct (add_edge_ok g p lp i q lq Hc Hp Hq Hne Hi) as (Hc' & Hop & Hdom); [|by split_and!; [|split| |]].
  destruct (idep_of (links_of g) p i) as [x|] eqn:E; [|done]. destruct (Hno x). by split; [lia|].
Qed.

(** Operand [j], named [r], is linked to the last producer of [r]. *)
Definition to_link (m : gmap Z (list ptr)) (names : list Z) (lo : Z) (j : Z) (x : ptr) : Prop :=
  lo ≤ j ∧ ∃ r, names !! Z.to_nat (j - lo) = Some r ∧ r ≠ XED_REG_INVALID ∧ list.last (producers m r) = Some x.

Lemma to_link_cons m r names lo j x : to_link m (r :: names) lo j x ↔
  j = lo ∧ r ≠ XED_REG_INVALID ∧ list.last (producers m r) = Some x ∨ to_link m names (lo + 1) j x.
Proof.
  unfold to_link. split.
  - intros (Hj & r' & E & H). destruct (decide (j = lo)) as [->|Hne].
    + rewrite Z.sub_diag in E. injection E as <-. by left.
    + right. split; [lia|]. exists r'. replace (Z.to_nat (j - lo)) with (S (Z.to_nat (j - (lo + 1)))) in E by lia. done.
  - intros [(-> & H)|(Hj & r' & E & H)].
    + split; [lia|]. exists r. by rewrite Z.sub_diag.
    + split; [lia|]. exists r'. replace (Z.to_nat (j - lo)) with (S (Z.to_nat (j - (lo + 1)))) by lia. done.
Qed.

Lemma link_operands_ok names lo p u g : 0 ≤ lo → lo + Z.of_nat (length names) ≤ MAX_IDEPS → consistent g →
  regs_of g !! p = Some u → is_Some (links_of g !! p) →
  (∀ r q, r ≠ XED_REG_INVALID → q ∈ producers (dep_map g) r → q ≠ p ∧ is_Some (links_of g !! q) ∧ ∃ v, regs_of g !! q = Some v ∧ seq v ≤ seq u) →
  (∀ j x, lo ≤ j → ¬ operand g p j x) →
  wp (link_operands names lo p g) (λ g', relinked g g' (λ c j x, operand g c j x ∨ c = p ∧ to_link (dep_map g) names lo j x)).
Proof.
  revert lo g. induction names as [|r names IH]; intros lo g Hlo Hmax Hc Hu Hp Hprod Hfree; cbn [link_operands].
  { split_and!; [done|done|done|]. intros c j x. split; [by left|]. intros [?|(-> & ? & r & E & _)]; [done|]. by rewrite lookup_nil in E. }
  cbn [length] in Hmax. assert (wp (if r =? XED_REG_INVALID then Ok g else match list.last (producers (dep_map g) r) with None => Ok g | Some q => link g p lo q end)
    (λ g', relinked g g' (λ c j x, operand g c j x ∨ c = p ∧ j = lo ∧ r ≠ XED_REG_INVALID ∧ list.last (producers (dep_map g) r) = Some x))) as H1.
  { destruct (Z.eqb_spec r XED_REG_INVALID) as [->|Hr]; [split_and!; [done|done|done|]; intros; split; [by left|by intros [|(_ & _ & ? & _)]]|].
    destruct (list.last (producers (dep_map g) r)) as [q|] eqn:El; [|split_and!; [done|done|done|]; intros; split; [by left|by intros [|(_ & _ & _ & ?)]]].
    assert (q ∈ producers (dep_map g) r) as Hq by (apply list.last_Some in El as [l ->]; apply elem_of_app; right; by left).
    destruct (Hprod r q Hr Hq) as (Hne & Hlq & v & Hv & Hs). eapply wp_mono; [apply (link_ok g p lo q u v); try done; [lia|by intros x; apply Hfree]|].
    intros g' (Hc' & Hs' & Hm' & Hop). split_and!; [done|done|done|]. intros c j x. rewrite Hop.
    split; (intros [?|(-> & -> & Hx)]; [by left|right]); [by subst|]. destruct Hx as [_ [= ->]]. done. }
  eapply wp_bind, wp_mono; [exact H1|]. intros g1 (Hc1 & [Er1 Hd1] & Hm1 & Hop1).
  eapply wp_mono; [apply (IH (lo + 1) g1); [lia|lia|done|by rewrite Er1|by apply Hd1| |]|].
  - intros r' q Hr' Hq. rewrite Hm1 in Hq. destruct (Hprod r' q Hr' Hq) as (? & ? & ?). rewrite Er1, Hd1. done.
  - intros j x Hj. rewrite Hop1. intros [Ho|(_ & -> & _)]; [|lia]. by apply (Hfree j x); [lia|].
  - intros g2 (Hc2 & Hs2 & Hm2 & Hop2). split_and!; [done|by eapply same_uops_trans|congruence|].
    intros c j x. rewrite Hop2, Hop1, to_link_cons, Hm1. tauto.
Qed.

(** A uop enters at the end: its links are made, then it is added to the producers. *)
Lemma enter_ok live g p u : graph_ok live g → p ∉ live → regs_of g !! p = Some u → length (idep_name u) = Z.to_nat MAX_IDEPS →
  is_Some (links_of g !! p) → (∀ q v, q ∈ live → regs_of g !! q = Some v → seq v ≤ seq u) →
  wp (let* g := install_dependencies g p in install_mapping g p) (λ g', graph_ok (live ++ [p]) g' ∧ same_uops g g').
Proof.
  intros [Hc Hl Hn Hm Ho] Hp Hu Hlen Hlp Hseq. unfold install_dependencies, regs_at. rewrite Hu. cbn [of_option rbind].
  eapply wp_bind, wp_mono; [apply (link_operands_ok _ 0 p u g); try done; [unfold MAX_IDEPS in *; lia| |]|].
  - intros r q Hr Hq. rewrite Hm in Hq by done. apply list_elem_of_bind in Hq as (p' & Hq & Hp'). apply elem_of_writes_of in Hq as ->.
    destruct (Hn p' Hp') as (v & Hv & _ & Hl'). split; [by intros ->|]. split; [done|]. eauto.
  - intros j x _ Hx. apply Ho, dataflow_in in Hx as [Hx _]. done.
  - intros g1 (Hc1 & [Er Hd] & Em & Hop). unfold install_mapping, regs_at. rewrite Er, Hu. cbn [of_option rbind wp].
    split; [|by split]. split; simpl; rewrite ?Er.
    + destruct Hc1 as [C1 C2 C3 C4]. by split.
    + apply list.NoDup_app. split; [done|]. split; [|apply list.NoDup_singleton]. intros q Hq ->%list_elem_of_singleton. done.
    + intros q Hq. apply elem_of_app in Hq as [Hq| ->%list_elem_of_singleton]; [|by exists u; rewrite Hd].
      destruct (Hn q Hq) as (v & ? & ? & ?). exists v. by rewrite Hd.
    + intros r Hr. rewrite push_producer_ok, Em, Hm, bind_app by done. f_equal. simpl. rewrite app_nil_r. unfold writes_of. by rewrite Hu.
    + intros c j x. rewrite dataflow_snoc, <- Ho. change (operand (with_map _ g1) c j x) with (operand g1 c j x). rewrite Hop. unfold to_link.
      split; (intros [?|(-> & Hx)]; [by left|right]).
      * destruct Hx as (Hj & r & E & Hr & El). rewrite Hm in El by done. rewrite Z.sub_0_r in E. eauto 10.
      * destruct Hx as (u' & r & Eu & Hj & E & Hr & El). split; [done|]. rewrite Hu in Eu. injection Eu as <-. split; [lia|]. exists r.
        rewrite Z.sub_0_r, Hm by done. done.
Qed.

Lemma unlink_odep_ok l p i : (p, i) ∈ l → ∃ l', unlink_odep l p i = Some l' ∧ l ≡ₚ (p, i) :: l'.
Proof.
  induction l as [|x l IH]; [by intros ?%elem_of_nil|]. intros Hx. simpl. case_decide as E; [subst; by eexists|].
  apply elem_of_cons in Hx as [<-|Hx]; [done|]. destruct (IH Hx) as (l' & -> & Hl). exists (x :: l'). split; [done|].
  rewrite Hl. by rewrite Permutation_swap.
Qed.

Lemma undo_operand_ok i p g : consistent g → is_Some (links_of g !! p) → 0 ≤ i < MAX_IDEPS →
  wp (undo_operand i p g) (λ g', relinked g g' (λ c j x, operand g c j x ∧ ¬ (c = p ∧ j = i))).
Proof.
  intros Hc [lp Hp] Hi. unfold undo_operand, links_at. rewrite Hp. cbn [of_option rbind].
  destruct (c_len _ Hc _ _ Hp) as [Lp _]. unfold MAX_IDEPS in *. destruct (operand_aget g p i lp Hp) as (o & -> & Eo); [lia|]. cbn [rbind].
  destruct o as [q|].
  - assert (operand g p i q) as Hpq by (split; [lia|done]). destruct (c_in _ Hc _ _ _ Hpq) as [[lq Hq] Hne]. rewrite Hq. cbn [of_option rbind].
    destruct (unlink_odep_ok (odep_uop lq) p i) as (rest & -> & Hperm); [by apply (c_back _ Hc q lq p i Hq)|].
    simpl. rewrite lookup_insert_ne by done. rewrite Hp. cbn [of_option rbind]. rewrite aset_ok by lia. cbn [rbind wp].
    destruct (cut_edge_ok g p lp i q lq rest Hc Hp Hq Hpq Hperm) as (Hc' & Hop & Hdom).
    unfold with_links, return_odep_link. simpl. rewrite insert_insert_ne by done.
    split_and!; [exact Hc'|by split|done|exact Hop].
  - split_and!; [done|done|done|]. intros c j x. split; [|by intros []]. intros Hx. split; [done|]. intros [-> ->]. destruct Hx as [_ Hx]. congruence.
Qed.

Lemma undo_dependencies_ok p g : consistent g → is_Some (links_of g !! p) →
  wp (undo_dependencies g p) (λ g', relinked g g' (λ c j x, operand g c j x ∧ c ≠ p)).
Proof.
  intros Hc Hp. unfold undo_dependencies.
  eapply (wp_for_range (λ i g', relinked g g' (λ c j x, operand g c j x ∧ ¬ (c = p ∧ j < i)))); [done| | |].
  - split_and!; [done|done|done|]. intros c j x. split; [|by intros []]. intros Hx. split; [done|]. intros [_ Hj]. destruct Hx. lia.
  - intros i g1 Hi (Hc1 & [Er Hd] & Em & Hop). eapply wp_mono; [apply (undo_operand_ok i p g1); [done|by apply Hd|done]|].
    intros g2 (Hc2 & Hs2 & Em2 & Hop2). split_and!; [done|by eapply same_uops_trans|congruence|]. intros c j x. rewrite Hop2, Hop.
    split; [intros [[? H1] H2]; split; [done|]; intros [-> Hj]; destruct (decide (j = i)); [by apply H2|apply H1; split; [done|lia]]|].
    intros [? H1]. split; [split; [done|]|]; intros [-> Hj]; apply H1; (split; [done|lia]).
  - intros g' (Hc' & Hs' & Em' & Hop'). split_and!; [done|done|done|]. intros c j x. rewrite Hop'. split; intros [Hx Hn]; (split; [done|]).
    + intros ->. apply Hn. split; [done|]. pose proof Hx as [Hj E]. unfold idep_of in E. destruct Hp as [lp Hp]. rewrite Hp in E. simpl in E.
      destruct (c_len _ Hc _ _ Hp) as [Lp _]. destruct (idep_uop lp !! Z.to_nat j) eqn:El; [|done]. apply lookup_lt_Some in El. unfold MAX_IDEPS in *. lia.
    + by intros [-> _].
Qed.

(** The graph with the odep list of [p] as far as it is still to be walked. *)
Definition with_odep (p : ptr) (lp : links) (l : list (ptr * Z)) (g : graph) : graph := with_links p (mk_links (idep_uop lp) l) g.

Lemma clear_children_ok l p lp g : links_of g !! p = Some lp → consistent (with_odep p lp l g) →
  wp (clear_children l p g) (λ g', links_of g' !! p = Some lp ∧ dep_map g' = dep_map g ∧
    relinked (with_odep p lp l g) (with_odep p lp [] g') (λ c j x, operand (with_odep p lp l g) c j x ∧ (c, j) ∉ l)).
Proof.
  revert g. induction l as [|[c i] l IH]; intros g Hp Hc; cbn [clear_children].
  { split_and!; [done|done|]. split_and!; [done|done|done|]. intros c j x. split; [intros Hx; split; [done|by intros ?%elem_of_nil]|by intros []]. }
  set (h := with_odep p lp ((c, i) :: l) g) in *. assert (links_of h !! p = Some (mk_links (idep_uop lp) ((c, i) :: l))) as Hhp by (unfold h; simpl; apply lookup_insert_eq).
  assert (operand h c i p) as Hci by (apply (c_back _ Hc p _ c i Hhp); by left). pose proof Hci as [Hi Ei].
  assert (c ≠ p) as Hne by by apply (c_in _ Hc) in Hci as [_ ?].
  unfold idep_of in Ei. destruct (links_of h !! c) as [lc|] eqn:Hhc; [|done]. simpl in Ei. destruct (c_len _ Hc _ _ Hhc) as [Lc _].
  assert (links_of g !! c = Some lc) as Hgc by (unfold h, with_odep in Hhc; simpl in Hhc; by rewrite lookup_insert_ne in Hhc).
  destruct (idep_uop lc !! Z.to_nat i) as [o|] eqn:Eo; [|done]. simpl in Ei. subst o. pose proof (lookup_lt_Some _ _ _ Eo).
  unfold links_at. rewrite Hgc. cbn [of_option rbind]. rewrite (aget_lookup _ _ _ Hi Eo). cbn [rbind]. rewrite bool_decide_true by done. cbn [guard_or rbind].
  rewrite aset_ok by lia. cbn [rbind]. set (g1 := return_odep_link _).
  destruct (cut_edge_ok h c lc i p _ l Hc Hhc Hhp Hci) as (Hc1 & Hop1 & Hd1); [done|].
  assert (with_odep p lp l g1 = mk_graph (regs_of h) (cut_edge (links_of h) c lc i p (mk_links (idep_uop lp) ((c, i) :: l)) l) (dep_map h) (debt h - 1)) as Eg1.
  { unfold with_odep, with_links, g1, cut_edge, h. simpl. f_equal. rewrite (insert_insert_ne _ c p) by done. by rewrite insert_insert_eq. }
  rewrite <- Eg1 in Hc1, Hop1, Hd1. eapply wp_mono; [apply (IH g1)|].
  - unfold g1. simpl. by rewrite lookup_insert_ne.
  - exact Hc1.
  - intros g' (Hp' & Em & Hc' & Hs' & Em' & Hop'). split_and!; [done|exact Em|]. split_and!; [done| |exact Em|].
    + eapply same_uops_trans; [|exact Hs']. split; [done|exact Hd1].
    + intros d j x. rewrite Hop', Hop1, elem_of_cons. split; [intros [[? H1] H2]|intros [? H1]].
      * split; [done|]. intros [[= -> ->]|]; [by apply H1|done].
      * split; [split; [done|]|]; [intros [-> ->]|intros ?]; apply H1; auto.
Qed.

Lemma commit_dependencies_ok p g : consistent g → is_Some (links_of g !! p) →
  wp (commit_dependencies g p) (λ g', relinked g g' (λ c j x, operand g c j x ∧ x ≠ p)).
Proof.
  intros Hc [lp Hp]. unfold commit_dependencies, links_at. rewrite Hp. cbn [of_option rbind].
  assert (with_odep p lp (odep_uop lp) g = g) as Eg.
  { unfold with_odep, with_links. destruct g as [R m dm d]. simpl in *. f_equal. apply insert_id. by destruct lp. }
  eapply wp_bind, wp_mono; [apply (clear_children_ok (odep_uop lp) p lp g Hp); by rewrite Eg|]. rewrite Eg.
  intros g' (Hp' & Em & Hc' & Hs' & _ & Hop). rewrite Hp'. cbn [of_option rbind wp].
  split_and!; [exact Hc'|exact Hs'|exact Em|]. intros c j x. change (operand g c j x) with (operand g c j x). rewrite (Hop c j x).
  split; intros [Hx Hn]; (split; [done|]).
  - intros ->. apply Hn. by apply (c_back _ Hc _ _ _ _ Hp).
  - intros Hi%(c_back _ Hc _ _ _ _ Hp). apply Hn. by eapply operand_fun.
Qed.

(** The oldest uop commits. *)
Lemma commit_ok p live g : graph_ok (p :: live) g →
  wp (let* g := commit_mapping g p in commit_dependencies g p) (λ g', graph_ok live g' ∧ same_uops g g').
Proof.
  intros [Hc Hl Hn Hm Ho]. apply list.NoDup_cons in Hl as [Hp Hl]. destruct (Hn p) as (u & Hu & _ & Hlp); [by left|].
  unfold commit_mapping, regs_at. rewrite Hu. cbn [of_option rbind]. apply wp_bind. 
  assert (∀ r, r ≠ XED_REG_INVALID → producers (dep_map g) r = writes (odep_name u) r p ++ (live ≫= writes_of (regs_of g) r)) as Hm'.
  { intros r Hr. rewrite Hm by done. rewrite writers_cons. f_equal. unfold writes_of. by rewrite Hu. }
  eapply wp_bind, wp_mono; [by apply (pop_oldest_ok _ p _ (λ r, live ≫= writes_of (regs_of g) r))|]. intros m Hmap. cbn [wp].
  eapply wp_mono; [apply (commit_dependencies_ok p (with_map m g)); [by destruct Hc; split|done]|].
  intros g' (Hc' & [Er Hd] & Em & Hop). split; [|by split]. change (regs_of (with_map m g)) with (regs_of g) in Er. split; rewrite ?Er.
  - done.
  - done.
  - intros q Hq. destruct (Hn q) as (v & ? & ? & ?); [by right|]. exists v. split_and!; [done|done|by apply Hd].
  - intros r Hr. rewrite Em. by apply Hmap.
  - intros c j x. rewrite (dataflow_cons _ live p), <- Ho by done. apply Hop.
Qed.

(** The youngest uop is undone. *)
Lemma undo_ok p live g : graph_ok (live ++ [p]) g →
  wp (let* g := undo_mapping g p in undo_dependencies g p) (λ g', graph_ok live g' ∧ same_uops g g').
Proof.
  intros [Hc Hl Hn Hm Ho]. apply list.NoDup_app in Hl as (Hl & Hp & _).
  destruct (Hn p) as (u & Hu & _ & Hlp); [apply elem_of_app; right; by left|].
  assert (p ∉ live) as Hp' by (intros Hx; apply (Hp p Hx); by left).
  unfold undo_mapping, regs_at. rewrite Hu. cbn [of_option rbind]. apply wp_bind.
  assert (∀ r, r ≠ XED_REG_INVALID → producers (dep_map g) r = (live ≫= writes_of (regs_of g) r) ++ writes (odep_name u) r p) as Hm'.
  { intros r Hr. rewrite Hm, bind_app by done. f_equal. simpl. rewrite app_nil_r. unfold writes_of. by rewrite Hu. }
  eapply wp_bind, wp_mono; [by apply (pop_youngest_ok _ p _ (λ r, live ≫= writes_of (regs_of g) r))|]. intros m Hmap. cbn [wp].
  eapply wp_mono; [apply (undo_dependencies_ok p (with_map m g)); [by destruct Hc; split|done]|].
  intros g' (Hc' & [Er Hd] & Em & Hop). split; [|by split]. change (regs_of (with_map m g)) with (regs_of g) in Er. split; rewrite ?Er.
  - done.
  - done.
  - intros q Hq. destruct (Hn q) as (v & ? & ? & ?); [apply elem_of_app; by left|]. exists v. split_and!; [done|done|by apply Hd].
  - intros r Hr. rewrite Em. by apply Hmap.
  - intros c j x. rewrite Hop. change (operand (with_map m g) c j x) with (operand g c j x). rewrite Ho, dataflow_snoc. split.
    + intros [[Hx|[-> _]] Hne]; [done|done].
    + intros Hx. split; [by left|]. intros ->. by apply dataflow_in in Hx as [? _].
Qed.

(** Undoing a uop that has committed does nothing, when nothing else is in flight. *)
Lemma undo_committed_ok p g : graph_ok [] g → is_Some (regs_of g !! p) → is_Some (links_of g !! p) →
  wp (let* g := undo_mapping g p in undo_dependencies g p) (λ g', graph_ok [] g' ∧ same_uops g g').
Proof.
  intros [Hc Hl Hn Hm Ho] [u Hu] Hlp. unfold undo_mapping, regs_at. rewrite Hu. cbn [of_option rbind].
  rewrite pop_youngest_empty by (intros r Hr; by rewrite Hm). cbn [rbind].
  assert (with_map (dep_map g) g = g) as -> by by destruct g. eapply wp_mono; [by apply undo_dependencies_ok|].
  intros g' (Hc' & [Er Hd] & Em & Hop). split; [|by split]. split; rewrite ?Er; try done.
  - intros q Hq. by apply elem_of_nil in Hq.
  - by rewrite Em.
  - intros c j x. rewrite Hop, Ho. split; [by intros []|]. intros Hx. by apply dataflow_in in Hx as [?%elem_of_nil _].
Qed.

(** ** Uops that are not in flight *)

(** Source: src/xiosim/uop_cracker.cpp:45-45 get_uop_array.
    A new uop of the array, once its registers are known. *)
Definition alloc_uop (g : graph) (p : ptr) (u : regs) : graph :=
  mk_graph (<[p := u]> (regs_of g)) (<[p := unlinked]> (links_of g)) (dep_map g) (debt g).

(** Source: src/xiosim/uop_cracker.cpp:51-52 return_uop_array. *)
Definition free_uop (g : graph) (p : ptr) : graph := mk_graph (delete p (regs_of g)) (delete p (links_of g)) (dep_map g) (debt g).

Lemma dataflow_ext R R' live p i q : (∀ x, x ∈ live → R' !! x = R !! x) → dataflow R live p i q → dataflow R' live p i q.
Proof.
  intros E (pre & post & u & r & -> & Hu & Hi & Hr & Hr0 & Hl). exists pre, post, u, r. split_and!; try done.
  - rewrite E; [done|]. apply elem_of_app. right. by left.
  - rewrite <- Hl. f_equal. assert (∀ x, x ∈ pre → R' !! x = R !! x) as E' by (intros x Hx; apply E, elem_of_app; by left).
    clear -E'. induction pre as [|x pre IH]; [done|]. rewrite !writers_cons. f_equal; [|apply IH; intros y Hy; apply E'; by right].
    unfold writes_of. by rewrite E' by by left.
Qed.

Lemma writers_ext R R' live r : (∀ x, x ∈ live → R' !! x = R !! x) → live ≫= writes_of R' r = live ≫= writes_of R r.
Proof.
  intros E. induction live as [|x live IH]; [done|]. rewrite !writers_cons. f_equal; [|apply IH; intros y Hy; apply E; by right].
  unfold writes_of. by rewrite E by by left.
Qed.

Lemma linked_none l : (∀ i, mjoin (idep_uop l !! i) = None) → linked l = 0.
Proof.
  intros Hn. unfold linked. assert (filter (λ x, x ≠ None) (idep_uop l) = []) as ->; [|done].
  assert (Forall (λ x, x = None) (idep_uop l)) as Ha.
  { apply Forall_lookup_2. intros i x E. specialize (Hn i). rewrite E in Hn. by destruct x. }
  clear Hn. induction Ha as [|x k -> _ IH]; [done|]. rewrite filter_cons_False by (intros Hx; by apply Hx). exact IH.
Qed.

(** The links of a uop that is not in flight are empty. *)
Lemma idle_links live g p l : graph_ok live g → p ∉ live → links_of g !! p = Some l → (∀ i, mjoin (idep_uop l !! i) = None) ∧ odep_uop l = [].
Proof.
  intros [Hc _ _ _ Ho] Hp El. split.
  - intros i. destruct (mjoin (idep_uop l !! i)) as [q|] eqn:E; [|done]. exfalso.
    assert (operand g p (Z.of_nat i) q) as Hx%Ho%dataflow_in by (split; [lia|]; rewrite (idep_of_lookup _ _ _ _ El), Nat2Z.id; done). by destruct Hx.
  - destruct (odep_uop l) as [|[c i] o] eqn:E; [done|]. exfalso.
    assert ((c, i) ∈ odep_uop l) as Hx by (rewrite E; by left). apply (c_back _ Hc p l c i El), Ho, dataflow_in in Hx. by destruct Hx.
Qed.

Lemma alloc_ok live g p u : graph_ok live g → p ∉ live → links_of g !! p = None → graph_ok live (alloc_uop g p u).
Proof.
  intros [Hc Hl Hn Hm Ho] Hp Hnone. pose proof Hc as [C1 C2 C3 C4].
  assert (∀ x, x ∈ live → <[p := u]> (regs_of g) !! x = regs_of g !! x) as E by (intros x Hx; apply lookup_insert_ne; by intros <-).
  assert (∀ c i q, operand (alloc_uop g p u) c i q ↔ operand g c i q) as Hop.
  { intros c i q. unfold operand, alloc_uop. simpl. rewrite idep_of_insert. case_decide as Ep; [|done]. subst c.
    unfold idep_of. rewrite Hnone. simpl. destruct (decide (Z.to_nat i < 3)%nat) as [Hi|Hi].
    - assert (Z.to_nat i = 0 ∨ Z.to_nat i = 1 ∨ Z.to_nat i = 2)%nat as [-> | [-> | ->]] by lia; done.
    - rewrite lookup_ge_None_2 by (simpl; lia). done. }
  split.
  - split; simpl.
    + intros q l. rewrite lookup_insert. case_decide; [|apply C1]. intros [= <-]. split; [done|constructor].
    + intros q l c i. rewrite lookup_insert. rewrite Hop. case_decide as Eq; [subst q|apply C2]. intros [= <-]. simpl.
      split; [by intros ?%elem_of_nil|]. intros [[l El] _]%C3. congruence.
    + intros c i q. rewrite Hop. intros [[l El] Hne]%C3. split; [|done]. rewrite lookup_insert. case_decide; eauto.
    + rewrite total_fresh by done. rewrite C4. unfold linked. simpl. lia.
  - done.
  - intros q Hq. destruct (Hn q Hq) as (v & Hv & ? & ?). exists v. simpl. rewrite E, lookup_insert_ne by (done || by intros <-). done.
  - intros r Hr. simpl. rewrite Hm by done. symmetry. by apply writers_ext.
  - intros c i q. rewrite Hop, Ho. simpl. split; apply dataflow_ext; [done|]. intros x Hx. by rewrite E.
Qed.

Lemma free_ok live g p l : graph_ok live g → p ∉ live → links_of g !! p = Some l → graph_ok live (free_uop g p).
Proof.
  intros Hg Hp El. destruct (idle_links _ _ _ _ Hg Hp El) as [Hi0 Ho0]. pose proof Hg as [Hc Hl Hn Hm Ho]. pose proof Hc as [C1 C2 C3 C4].
  assert (∀ x, x ∈ live → delete p (regs_of g) !! x = regs_of g !! x) as E by (intros x Hx; apply lookup_delete_ne; by intros <-).
  assert (∀ c i q, operand (free_uop g p) c i q ↔ operand g c i q) as Hop.
  { intros c i q. unfold operand, free_uop, idep_of. simpl. rewrite lookup_delete. case_decide as Ep; [|done]. subst c. rewrite El. simpl. rewrite Hi0. done. }
  split.
  - split; simpl.
    + intros q l'. rewrite lookup_delete_Some. intros [_ ?]. by apply (C1 q).
    + intros q l' c i. rewrite lookup_delete_Some, Hop. intros [_ ?]. by apply C2.
    + intros c i q Hx. rewrite Hop in Hx. pose proof (C3 _ _ _ Hx) as [[l' El'] Hne]. split; [|done]. rewrite lookup_delete_ne; [by eexists|].
      intros <-. apply Ho, dataflow_in in Hx as [_ Hx]. done.
    + rewrite (total_delete _ _ _ El), C4, (linked_none l Hi0). lia.
  - done.
  - intros q Hq. destruct (Hn q Hq) as (v & Hv & ? & ?). exists v. simpl. rewrite E, lookup_delete_ne by (done || by intros <-). done.
  - intros r Hr. simpl. rewrite Hm by done. symmetry. by apply writers_ext.
  - intros c i q. rewrite Hop, Ho. simpl. split; apply dataflow_ext; [done|]. intros x Hx. by rewrite E.
Qed.

Definition empty_graph : graph := mk_graph ∅ ∅ ∅ 0.

Lemma empty_graph_ok : graph_ok [] empty_graph.
Proof.
  split; try done.
  - split; try done. intros p i q [_ Hx]. unfold idep_of in Hx. simpl in Hx. by rewrite lookup_empty in Hx.
  - constructor.
  - intros p Hp. by apply elem_of_nil in Hp.
  - intros p i q. split; [intros [_ Hx]; unfold idep_of in Hx; simpl in Hx; by rewrite lookup_empty in Hx|].
    intros Hx. by apply dataflow_in in Hx as [?%elem_of_nil _].
Qed.

(** When nothing is in flight, no odep node is out of the pool. *)
Lemma no_debt g : graph_ok [] g → debt g = 0.
Proof.
  intros Hg. rewrite (c_debt _ (g_cons _ _ Hg)). pose proof (idle_links [] g) as Hi. unfold total.
  assert (∀ p l, links_of g !! p = Some l → linked l = 0) as H0.
  { intros p l El. apply linked_none. apply (Hi p l Hg); [apply not_elem_of_nil|done]. }
  clear -H0. revert H0. induction (links_of g) as [|p l m Hp IH] using map_ind; intros H0; [done|].
  rewrite map_fold_insert_L by (try (intros; lia); done). rewrite (H0 p l) by apply lookup_insert_eq. rewrite IH; [done|].
  intros q k Eq. apply (H0 q k). rewrite lookup_insert_ne; [done|]. intros <-. congruence.
Qed.

End oracle_deps.
