(* ===== verification/Oracle.v ===== *)
(** * Oracle: the functional front end of a core

    core_oracle_t of zesto-oracle.cpp: it takes the handshakes of the feeder, turns each
    into a macro-op of the MopQ with its uops and their dependencies, on the right path or
    on a wrong one, and undoes and replays them when the pipeline flushes.

    Instruction decoding and cracking (decode.cpp, uop_cracker.cpp) are built on the XED
    library; here they are the argument [decode] of the operations.  The pipeline behind
    the oracle and the branch predictor are the interface [PipeEnv]. *)

From S2P Require Import Prelude Misc Memory Buffer ShadowMopQ OracleDeps.

Module oracle.
Import oracle_deps.

(** ** Macro-ops and uops *)

(** Source: src/xiosim/uop_cracker.h:29-39 fusion_flags_t. *)
Record fusion_flags : Type := mk_fusion_flags { LOAD_OP : bool; STA_STD : bool; LOAD_OP_ST : bool; FP_LOAD_OP : bool }.

(** Source: src/xiosim/uop_cracker.h:35-38 matches. *)
Definition matches (a b : fusion_flags) : bool :=
  (LOAD_OP a && LOAD_OP b) || (STA_STD a && STA_STD b) || (LOAD_OP_ST a && LOAD_OP_ST b) || (FP_LOAD_OP a && FP_LOAD_OP b).

(** Source: src/xiosim/zesto-structs.h:88-125 uop_t.
    What the decoder says of a uop. *)
Record uop_decode : Type := mk_uop_decode {
  d_idep : list Z;
  d_odep : list Z;
  is_imm : bool;
  is_ctrl : bool;
  is_load : bool;
  is_sta : bool;
  is_std : bool;
  is_nop : bool;
  is_lfence : bool;
  fusable : fusion_flags;
  mem_op_index : Z
}.

(** What the decoder says of an instruction. *)
Record inst : Type := mk_inst { i_trap : bool; i_ctrl : bool; i_call : bool; i_nop : bool; i_flow : list uop_decode }.

(** Source: src/xiosim/zesto-structs.h:118-125 uop_t. *)
Record fusion : Type := mk_fusion { in_fusion : bool; is_fusion_head : bool; fusion_size : Z; fusion_head : option Z; fusion_next : option Z }.

(** Source: src/xiosim/zesto-structs.h:154-168 uop_t.
    The fields that the oracle writes; the pointers of the dependencies are in
    [oracle_deps.graph]. *)
Record uop : Type := mk_uop {
  dec : uop_decode;
  uop_seq : Z;
  BOM : bool;
  EOM : bool;
  fused : fusion;
  is_light_fence : bool;
  is_magic : bool;
  is_sync_op : bool;
  is_repeated : bool;
  mem_size : Z;
  virt_addr : Z;
  phys_addr : Z;
  action_id : Z
}.

Definition new_uop (d : uop_decode) (seq : Z) : uop :=
  mk_uop d seq false false (mk_fusion false false 0 None None) false false false false 0 0 0 (-1).

(** Source: src/xiosim/zesto-structs.h:291-344 Mop_t.
    The fields that the oracle uses. *)
Record Mop : Type := mk_Mop {
  valid : bool;
  spec_mode : bool;
  o_seq : Z;
  PC : Z;
  ftPC : Z;
  pred_NPC : Z;
  NextPC : Z;
  taken_branch : bool;
  targetPC : Z;
  code : list Z;
  is_trap : bool;
  is_ctrl_Mop : bool;
  CALL : bool;
  flow_length : Z;
  last_uop_index : Z;
  uops : option (list uop);
  bpred_update : option Z;
  jeclear_action_id : Z;
  stopwatch : bool * bool * Z;
  num_uops : Z;
  num_eff_uops : Z;
  num_refs : Z;
  num_loads : Z;
  num_branches : Z
}.

(** Source: src/xiosim/zesto-structs.h:396-406 clear. *)
Definition cleared : Mop :=
  mk_Mop true false 0 0 0 0 0 false 0 [] false false false 0 0 None None 0 (false, false, 0) 0 0 0 0 0.

Definition with_valid (v : bool) (m : Mop) : Mop :=
  mk_Mop v (spec_mode m) (o_seq m) (PC m) (ftPC m) (pred_NPC m) (NextPC m) (taken_branch m) (targetPC m) (code m) (is_trap m)
    (is_ctrl_Mop m) (CALL m) (flow_length m) (last_uop_index m) (uops m) (bpred_update m) (jeclear_action_id m) (stopwatch m)
    (num_uops m) (num_eff_uops m) (num_refs m) (num_loads m) (num_branches m).
Definition with_uops (u : option (list uop)) (m : Mop) : Mop :=
  mk_Mop (valid m) (spec_mode m) (o_seq m) (PC m) (ftPC m) (pred_NPC m) (NextPC m) (taken_branch m) (targetPC m) (code m) (is_trap m)
    (is_ctrl_Mop m) (CALL m) (flow_length m) (last_uop_index m) u (bpred_update m) (jeclear_action_id m) (stopwatch m)
    (num_uops m) (num_eff_uops m) (num_refs m) (num_loads m) (num_branches m).
Definition with_bpred (b : option Z) (npc : Z) (m : Mop) : Mop :=
  mk_Mop (valid m) (spec_mode m) (o_seq m) (PC m) (ftPC m) npc (NextPC m) (taken_branch m) (targetPC m) (code m) (is_trap m)
    (is_ctrl_Mop m) (CALL m) (flow_length m) (last_uop_index m) (uops m) b (jeclear_action_id m) (stopwatch m)
    (num_uops m) (num_eff_uops m) (num_refs m) (num_loads m) (num_branches m).
Definition with_jeclear (a : Z) (m : Mop) : Mop :=
  mk_Mop (valid m) (spec_mode m) (o_seq m) (PC m) (ftPC m) (pred_NPC m) (NextPC m) (taken_branch m) (targetPC m) (code m) (is_trap m)
    (is_ctrl_Mop m) (CALL m) (flow_length m) (last_uop_index m) (uops m) (bpred_update m) a (stopwatch m)
    (num_uops m) (num_eff_uops m) (num_refs m) (num_loads m) (num_branches m).

(** ** The state *)

(** The MopQ: the macro-ops in flight, those on the right path before those on a wrong
    one. *)
Record queue : Type := mk_queue {
  MopQ : list Mop;
  MopQ_head : Z;
  MopQ_tail : Z;
  MopQ_non_spec_tail : Z;
  MopQ_num : Z;
  MopQ_size : Z;
  MopQ_spec_num : Z
}.

(** What the oracle shares with the fetch stage and the core. *)
Record front : Type := mk_front {
  active : bool;
  fetch_PC : Z;
  feeder_PC : Z;
  feeder_NPC : Z;
  prev_insn_fake : bool;
  fake_insn : bool;
  asid : Z;
  in_critical_section : bool;
  global_action_id : Z
}.

Inductive counter : Set :=
  | oracle_num_insn | oracle_total_insn | oracle_total_calls | oracle_total_uops | oracle_total_eff_uops
  | oracle_total_branches | oracle_num_branches | oracle_total_refs | oracle_num_refs | oracle_total_loads | oracle_num_loads
  | oracle_inst_undo | oracle_uop_undo | oracle_eff_uop_undo
  | handshakes_dropped | handshakes_buffered | handshake_nops_produced.

#[export] Instance counter_eq_dec : EqDecision counter.
Proof. solve_decision. Defined.

Definition stats : Type := counter → Z.
Definition bump (c : counter) (n : Z) (s : stats) : stats := λ c', if decide (c' = c) then s c' + n else s c'.

(** Source: src/xiosim/zesto-core.h:69-69 ZESTO_STAT. *)
Definition ZESTO_STAT (a : bool) (c : counter) (s : stats) : stats := if a then bump c 1 s else s.

(** Source: src/xiosim/zesto-oracle.h:138-180 core_oracle_t. *)
Record t : Type := mk {
  spec : bool;
  Mop_seq : Z;
  q : queue;
  current_Mop : option Z;
  drain_pipeline : bool;
  shadow_MopQ : shadow_mopq.t;
  deps : graph;
  consumed : bool;
  fr : front;
  stat : stats
}.

Definition with_q (x : queue) (o : t) : t :=
  mk (spec o) (Mop_seq o) x (current_Mop o) (drain_pipeline o) (shadow_MopQ o) (deps o) (consumed o) (fr o) (stat o).
Definition with_deps (x : graph) (o : t) : t :=
  mk (spec o) (Mop_seq o) (q o) (current_Mop o) (drain_pipeline o) (shadow_MopQ o) x (consumed o) (fr o) (stat o).
Definition with_shadow (x : shadow_mopq.t) (o : t) : t :=
  mk (spec o) (Mop_seq o) (q o) (current_Mop o) (drain_pipeline o) x (deps o) (consumed o) (fr o) (stat o).
Definition with_fr (x : front) (o : t) : t :=
  mk (spec o) (Mop_seq o) (q o) (current_Mop o) (drain_pipeline o) (shadow_MopQ o) (deps o) (consumed o) x (stat o).
Definition with_stat (x : stats) (o : t) : t :=
  mk (spec o) (Mop_seq o) (q o) (current_Mop o) (drain_pipeline o) (shadow_MopQ o) (deps o) (consumed o) (fr o) x.
Definition with_drain (x : bool) (o : t) : t :=
  mk (spec o) (Mop_seq o) (q o) (current_Mop o) x (shadow_MopQ o) (deps o) (consumed o) (fr o) (stat o).
Definition with_flow (s : bool) (cur : option Z) (cons : bool) (o : t) : t :=
  mk s (Mop_seq o) (q o) cur (drain_pipeline o) (shadow_MopQ o) (deps o) cons (fr o) (stat o).

Definition with_MopQ (l : list Mop) (x : queue) : queue :=
  mk_queue l (MopQ_head x) (MopQ_tail x) (MopQ_non_spec_tail x) (MopQ_num x) (MopQ_size x) (MopQ_spec_num x).

Definition with_pcs (pc fpc fnpc : Z) (f : front) : front :=
  mk_front (active f) pc fpc fnpc (prev_insn_fake f) (fake_insn f) (asid f) (in_critical_section f) (global_action_id f).
Definition with_action (a : Z) (f : front) : front :=
  mk_front (active f) (fetch_PC f) (feeder_PC f) (feeder_NPC f) (prev_insn_fake f) (fake_insn f) (asid f) (in_critical_section f) a.

(** Source: src/xiosim/zesto-oracle.cpp:99-127 core_oracle_t.
    [n] is the size of the MopQ, a power of two (get_MopQ_size). *)
Definition create (n : Z) (f : front) : t :=
  mk false 0 (mk_queue (replicate (Z.to_nat n) cleared) 0 0 0 0 n 0) None false (shadow_mopq.create n) empty_graph true f (λ _, 0).

Definition Mop_at (o : t) (i : Z) : result Mop := aget (MopQ (q o)) i.
Definition set_Mop (i : Z) (m : Mop) (o : t) : result t :=
  let* l := aset (MopQ (q o)) i m in Ok (with_q (with_MopQ l (q o)) o).


(** ** Positions *)

(** Source: src/xiosim/zesto-oracle.cpp:890-894 num_non_spec_Mops. *)
Definition num_non_spec_Mops (o : t) : result Z :=
  let result := MopQ_num (q o) - MopQ_spec_num (q o) in
  let* _ := guard_or (0 <=? result) AssertFail in Ok result.

(** Source: src/xiosim/zesto-oracle.cpp:896-900 num_Mops_before_feeder. *)
Definition num_Mops_before_feeder (o : t) : result Z :=
  let* n := num_non_spec_Mops o in
  let result := shadow_mopq.non_spec_size (shadow_MopQ o) - n in
  let* _ := guard_or (0 <=? result) AssertFail in Ok result.

(** Source: src/xiosim/zesto-oracle.h:132-132 on_nuke_recovery_path. *)
Definition on_nuke_recovery_path (o : t) : result bool := rmap (λ n, 0 <? n) (num_Mops_before_feeder o).

(** Source: src/xiosim/zesto-oracle.h:107-112 can_exec. *)
Definition can_exec (o : t) : bool :=
  bool_decide (current_Mop o = None) && negb (drain_pipeline o) && (MopQ_num (q o) <? MopQ_size (q o)).

(** Source: src/xiosim/zesto-oracle.cpp:275-280 get_oldest_Mop. *)
Definition get_oldest_Mop (o : t) : option Z := if MopQ_num (q o) =? 0 then None else Some (MopQ_head (q o)).

(** Source: src/xiosim/zesto-oracle.cpp:284-286 next_index. *)
Definition next_index (o : t) (index : Z) : Z := modinc index (MopQ_size (q o)).

(** ** Handshakes *)

(** Source: src/xiosim/zesto-oracle.cpp:838-854 get_fake_spec_handshake.
    A made-up NOP at the fetch PC. *)
Definition get_fake_spec_handshake (o : t) : shadow_mopq.handshake :=
  let pc := fetch_PC (fr o) in
  shadow_mopq.mk_handshake (shadow_mopq.mk_flags true false false false true false true false false)
    pc (u64 (pc + 3)) (u64 (pc + 3)) 0 ([15; 31; 0] ++ replicate 12 0) (asid (fr o)) [] 0.

(** Source: src/xiosim/zesto-oracle.h:79-79 buffer_result_t. *)
Inductive buffer_result_t : Set := ALL_GOOD | HANDSHAKE_NOT_NEEDED | HANDSHAKE_NOT_CONSUMED.

#[export] Instance buffer_result_eq_dec : EqDecision buffer_result_t.
Proof. solve_decision. Defined.

(** Source: src/xiosim/zesto-oracle.cpp:791-795 buffer_handshake. *)
Definition push_fake (o : t) : result t :=
  let* s := shadow_mopq.push_handshake (shadow_MopQ o) (get_fake_spec_handshake o) in
  Ok (with_stat (bump handshake_nops_produced 1 (stat o)) (with_shadow s o)).

(** Source: src/xiosim/zesto-oracle.cpp:782-835 buffer_handshake. *)
Definition buffer_handshake (o : t) (h : shadow_mopq.handshake) : result (t * buffer_result_t) :=
  let f := fr o in
  let good o :=
    let o := with_stat (bump handshakes_buffered 1 (stat o)) o in
    let* _ := guard_or (negb (shadow_mopq.full (shadow_MopQ o))) AssertFail in
    let* s := shadow_mopq.push_handshake (shadow_MopQ o) h in
    Ok (with_shadow s o, ALL_GOOD) in
  if spec o || negb (fetch_PC f =? feeder_NPC f) then
    if negb (shadow_mopq.speculative (shadow_mopq.flags h)) || negb (shadow_mopq.pc h =? fetch_PC f) then
      let* o := push_fake o in Ok (o, HANDSHAKE_NOT_CONSUMED)
    else good o
  else if shadow_mopq.speculative (shadow_mopq.flags h) then
    Ok (with_stat (bump handshakes_dropped 1 (stat o)) o, HANDSHAKE_NOT_NEEDED)
  else
    let pc := shadow_mopq.pc h in
    good (if pc =? fetch_PC f then o else with_fr (with_pcs pc (feeder_PC f) pc f) o).

(** ** Execution *)

Section exec.
Context (decode : list Z → result inst) (fusion_mode : fusion_flags).

(** Source: src/xiosim/zesto-oracle.cpp:370-392 exec.
    Uop [i] is fused with the one before it. *)
Definition fuse (i : Z) (us : list uop) : result (list uop) :=
  let* u := aget us i in
  if matches fusion_mode (fusable (dec u)) then
    let* _ := guard_or (0 <? i) AssertFail in
    let* p := aget us (i - 1) in
    let set_f (x : uop) (f : fusion) := mk_uop (dec x) (uop_seq x) (BOM x) (EOM x) f (is_light_fence x) (is_magic x) (is_sync_op x)
      (is_repeated x) (mem_size x) (virt_addr x) (phys_addr x) (action_id x) in
    let* _ := guard_or (in_fusion (fused p) || bool_decide (fusion_head (fused p) = None)) AssertFail in
    let fp := if in_fusion (fused p) then fused p else mk_fusion true true 1 (Some (i - 1)) (fusion_next (fused p)) in
    let fp := mk_fusion (in_fusion fp) (is_fusion_head fp) (fusion_size fp) (fusion_head fp) (Some i) in
    let* us := aset us (i - 1) (set_f p fp) in
    let* us := aset us i (set_f u (mk_fusion true (is_fusion_head (fused u)) (fusion_size (fused u)) (fusion_head fp) None)) in
    let* hd := deref (fusion_head fp) in
    let* h := aget us hd in
    let fh := fused h in
    aset us hd (set_f h (mk_fusion (in_fusion fh) (is_fusion_head fh) (fusion_size fh + 1) (fusion_head fh) (fusion_next fh)))
  else Ok us.

(** Source: src/xiosim/zesto-oracle.cpp:404-428 exec.
    The memory access of a uop, from the handshake. *)
Definition fill_mem (mem : memory.t) (f : front) (spec_mode : bool) (h : shadow_mopq.handshake) (u : uop) : result uop :=
  let d := dec u in
  let is_mem := is_load d || is_sta d || is_std d in
  let sync := if is_mem then fake_insn f && negb spec_mode else is_sync_op u in
  let rep := if is_mem then in_critical_section f || sync else is_repeated u in
  let light := if is_lfence d && in_critical_section f then true else is_light_fence u in
  let u := mk_uop d (uop_seq u) (BOM u) (EOM u) (fused u) light (is_magic u) sync rep (mem_size u) (virt_addr u) (phys_addr u) (action_id u) in
  if is_mem then
    let buf := shadow_mopq.mem_buffer h in
    let* _ := guard_or (negb (bool_decide (buf = []))) AssertFail in
    let* _ := guard_or ((0 <=? mem_op_index d) && (mem_op_index d <? Z.of_nat (length buf))) AssertFail in
    let* '(va, size) := aget buf (mem_op_index d) in
    let* _ := guard_or (negb (va =? 0) || spec_mode) AssertFail in
    let* pa := memory.v2p_translate mem (asid f) va in
    Ok (mk_uop d (uop_seq u) (BOM u) (EOM u) (fused u) (is_light_fence u) (is_magic u) sync rep size va pa (action_id u))
  else Ok u.

(** Source: src/xiosim/uop_cracker.cpp:30-46 get_uop_array.
    The uops of a macro-op in slot [i] come to be. *)
Fixpoint alloc_uops (i lo : Z) (seq : Z) (ds : list uop_decode) (g : graph) : graph :=
  match ds with
  | [] => g
  | d :: ds => alloc_uops i (lo + 1) seq ds (alloc_uop g (i, lo) (mk_regs seq (d_idep d) (d_odep d)))
  end.

(** Source: src/xiosim/uop_cracker.cpp:48-57 return_uop_array. *)
Fixpoint free_uops (i : Z) (n : nat) (g : graph) : graph :=
  match n with O => g | S n => free_uops i n (free_uop g (i, Z.of_nat n)) end.

(** Source: src/xiosim/zesto-oracle.cpp:434-442 exec. *)
Definition install (i : Z) (n : Z) (g : graph) : result graph :=
  for_range 0 n (λ k g, let* g := install_dependencies g (i, k) in install_mapping g (i, k)) g.

(** Source: src/xiosim/zesto-oracle.cpp:490-521 update_stats.
    The counters of a uop that is not an immediate; the histograms of the instruction
    classes of XED are left out. *)
Definition uop_stats (act spec_mode : bool) (u : uop) (s : Mop * stats) : Mop * stats :=
  let '(m, s) := s in
  let d := dec u in
  if is_imm d then (m, s)
  else
    let one (b : bool) := if b then 1 else 0 in
    let packet := negb (in_fusion (fused u)) || is_fusion_head (fused u) in
    let count (b : bool) (c : counter) (s : stats) := if b then ZESTO_STAT act c s else s in
    let s := count packet oracle_total_uops s in
    let s := ZESTO_STAT act oracle_total_eff_uops s in
    let s := count (is_ctrl d) oracle_total_branches s in
    let s := count (is_ctrl d && negb spec_mode) oracle_num_branches s in
    let ref := is_load d || is_std d in
    let s := count ref oracle_total_refs s in
    let s := count (ref && negb spec_mode) oracle_num_refs s in
    let s := count (is_load d) oracle_total_loads s in
    let s := count (is_load d && negb spec_mode) oracle_num_loads s in
    (mk_Mop (valid m) (oracle.spec_mode m) (o_seq m) (PC m) (ftPC m) (pred_NPC m) (NextPC m) (taken_branch m) (targetPC m) (code m) (is_trap m)
       (is_ctrl_Mop m) (CALL m) (flow_length m) (last_uop_index m) (uops m) (bpred_update m) (jeclear_action_id m) (stopwatch m)
       (num_uops m + one packet) (num_eff_uops m + 1) (num_refs m + one ref) (num_loads m + one (is_load d)) (num_branches m + one (is_ctrl d)), s).

(** Source: src/xiosim/zesto-oracle.cpp:482-521 update_stats. *)
Definition update_stats (act spec_mode : bool) (m : Mop) (us : list uop) (s : stats) : Mop * stats :=
  let s := if oracle.spec_mode m then s else bump oracle_num_insn 1 s in
  let s := ZESTO_STAT act oracle_total_insn s in
  let s := if CALL m then ZESTO_STAT act oracle_total_calls s else s in
  fold_left (λ s u, uop_stats act spec_mode u s) us (m, s).

(** Source: src/xiosim/zesto-oracle.cpp:329-462 exec.
    The macro-op that a handshake becomes, with its uops: decoded, sequenced, fused, with
    its memory accesses, and counted. *)
Definition make_Mop (mem : memory.t) (f : front) (spec_mode : bool) (seq requested_PC : Z) (h : shadow_mopq.handshake) (s : stats) :
  result (Mop * list uop * stats) :=
  let* d := decode (shadow_mopq.ins h) in
  let n := Z.of_nat (length (i_flow d)) in
  let fl := shadow_mopq.flags h in
  let npc := if shadow_mopq.brtaken fl then shadow_mopq.tpc h else shadow_mopq.npc h in
  let* _ := guard_or ((0 <? n) && (n <=? 64)) AssertFail in
  let us := imap (λ i u, new_uop u (Z.shiftl seq 6 + Z.of_nat i)) (i_flow d) in
  let* us := for_range 0 n fuse us in
  let* us := amodify us 0 (λ u, mk_uop (dec u) (uop_seq u) true (EOM u) (fused u) (is_light_fence u) (is_magic u) (is_sync_op u)
    (is_repeated u) (mem_size u) (virt_addr u) (phys_addr u) (action_id u)) in
  let* us := for_range 0 n (λ i us, let* u := aget us i in let* u := fill_mem mem f spec_mode h u in aset us i u) us in
  let* us := amodify us (n - 1) (λ u, mk_uop (dec u) (uop_seq u) (BOM u) true (fused u) (is_light_fence u) (is_magic u) (is_sync_op u)
    (is_repeated u) (mem_size u) (virt_addr u) (phys_addr u) (action_id u)) in
  let magic := i_nop d && fake_insn f && negb spec_mode in
  let* us := if magic then
      let* _ := guard_or (n - 1 =? 0) AssertFail in
      amodify us 0 (λ u, mk_uop (dec u) (uop_seq u) (BOM u) (EOM u) (fused u) (is_light_fence u) true (is_sync_op u)
        (is_repeated u) (mem_size u) (virt_addr u) (phys_addr u) (action_id u))
    else Ok us in
  let m := mk_Mop true spec_mode seq requested_PC (shadow_mopq.npc h) 0 npc (shadow_mopq.brtaken fl)
    (if i_ctrl d then shadow_mopq.tpc h else 0) (shadow_mopq.ins h) (i_trap d) (i_ctrl d) (i_call d) n (n - 1) None None 0
    (shadow_mopq.is_profiling_start fl, shadow_mopq.is_profiling_stop fl, shadow_mopq.profile_id h) 0 0 0 0 0 in
  let '(m, s) := update_stats (active f) spec_mode m us s in
  Ok (m, us, s).

(** Source: src/xiosim/zesto-oracle.cpp:335-345 exec.
    What the handshake changes in the fetch stage and the core. *)
Definition front_of (f : front) (h : shadow_mopq.handshake) : front :=
  let fl := shadow_mopq.flags h in
  mk_front (active f) (fetch_PC f) (shadow_mopq.pc h) (if shadow_mopq.brtaken fl then shadow_mopq.tpc h else shadow_mopq.npc h)
    (fake_insn f) (negb (shadow_mopq.real fl)) (shadow_mopq.h_asid h)
    (if shadow_mopq.real fl then in_critical_section f else shadow_mopq.in_critical_section fl) (global_action_id f).

(** Source: src/xiosim/zesto-oracle.cpp:464-471 exec. *)
Definition enqueued (l : list Mop) (spec_mode : bool) (x : queue) : queue :=
  let tail := modinc (MopQ_tail x) (MopQ_size x) in
  mk_queue l (MopQ_head x) tail (if spec_mode then MopQ_non_spec_tail x else tail) (MopQ_num x + 1) (MopQ_size x)
    (if spec_mode then MopQ_spec_num x + 1 else MopQ_spec_num x).

(** Source: src/xiosim/zesto-oracle.cpp:288-480 exec.
    The slot of the macro-op at the fetch PC: the one that has not been consumed yet, a new
    one, or none when the MopQ is full.  The assertions on the timing of the pipeline are
    left out. *)
Definition exec (o : t) (mem : memory.t) (requested_PC : Z) : result (t * option Z) :=
  let* _ := guard_or (negb (drain_pipeline o)) AssertFail in
  match current_Mop o with
  | Some i => Ok (o, Some i)
  | None =>
      let x := q o in
      if MopQ_size x <=? MopQ_num x then Ok (o, None)
      else
        let i := MopQ_tail x in
        let s := spec o || negb (requested_PC =? feeder_NPC (fr o)) in
        let nuke := match on_nuke_recovery_path o with Ok b => b | Fault _ => false end in
        let v := shadow_mopq.mk_view (MopQ_head x) (MopQ_size x) (MopQ_num x) (MopQ_spec_num x) (MopQ_non_spec_tail x) nuke in
        let* '(sh, h) := shadow_mopq.get_shadow_Mop (shadow_MopQ o) v i s (get_fake_spec_handshake o) in
        let st := bump handshake_nops_produced (shadow_mopq.size_ sh - shadow_mopq.size_ (shadow_MopQ o)) (stat o) in
        let* _ := guard_or (Bool.eqb s (shadow_mopq.speculative (shadow_mopq.flags h))) AssertFail in
        let f := front_of (fr o) h in
        let* '(m, us, st) := make_Mop mem f s (Mop_seq o) requested_PC h st in
        let g := alloc_uops i 0 (Mop_seq o) (dec <$> us) (deps o) in
        let* g := install i (flow_length m) g in
        let* l := aset (MopQ x) i (with_uops (Some us) m) in
        Ok (mk s (Mop_seq o + 1) (enqueued l s x) (Some i) (drain_pipeline o) sh g (consumed o) f st, Some i)
  end.

End exec.

(** Source: src/xiosim/zesto-oracle.cpp:537-547 consume. *)
Definition consume (o : t) (i : Z) : result t :=
  let* _ := guard_or (bool_decide (current_Mop o = Some i)) AssertFail in
  let* m := Mop_at o i in
  let o := with_flow (spec o) None true o in
  Ok (if is_trap m then with_drain true o else o).

(** ** The pipeline and the branch predictor *)

(** What the oracle calls of the other stages: the branch predictor with its state caches,
    the recovery of every stage, and the delayed recoveries of the fetch stage. *)
Class PipeEnv (E : Type) : Type := {
  bpred_flush : E → Z → result E;
  return_state_cache : E → Z → result E;
  bpred_recover : E → Z → bool → result E;
  jeclear_delay : E → bool;
  jeclear_enqueue : E → Z → Z → result E;
  commit_recover : E → Z → result E;
  exec_recover : E → Z → result E;
  alloc_recover : E → Z → result E;
  decode_recover : E → Z → result E;
  fetch_recover : E → Z → result E;
  release_uop : E → ptr → result E
}.

Section recovery.
Context {E : Type} `{PipeEnv E}.

(** Source: src/xiosim/zesto-oracle.cpp:549-566 commit_uop.
    [release_uop] clears the links of the uop in the pipeline. *)
Definition commit_uop (o : t) (e : E) (p : ptr) : result (t * E) :=
  let* e := release_uop e p in
  let* g := commit_mapping (deps o) p in
  let* g := commit_dependencies g p in
  Ok (with_deps g o, e).

(** Source: src/xiosim/zesto-structs.h:416-420 clear_uops. *)
Definition clear_uops (o : t) (i : Z) : result t :=
  let* m := Mop_at o i in
  let* _ := guard_or ((0 <? flow_length m) && (flow_length m <=? 64)) AssertFail in
  let* us := of_option NullDeref (uops m) in
  let* o := set_Mop i (with_uops None m) o in
  Ok (with_deps (free_uops i (length us) (deps o)) o).

(** Source: src/xiosim/zesto-oracle.cpp:570-597 commit. *)
Definition commit (o : t) (i : Z) : result t :=
  let x := q o in
  let* _ := guard_or (0 <? MopQ_num x) Fatal in
  let* _ := guard_or (MopQ_head x =? i) AssertFail in
  let* m := Mop_at o i in
  let* _ := guard_or (negb (spec_mode m)) AssertFail in
  let* _ := guard_or (negb (is_trap m) || (MopQ_num x =? 1)) AssertFail in
  let o := if is_trap m then with_flow (spec o) (current_Mop o) true (with_drain false o) else o in
  let* o := set_Mop i (with_valid false m) o in
  let x := q o in
  let o := with_q (mk_queue (MopQ x) (modinc (MopQ_head x) (MopQ_size x)) (MopQ_tail x) (MopQ_non_spec_tail x) (MopQ_num x - 1)
             (MopQ_size x) (MopQ_spec_num x)) o in
  let* _ := guard_or (0 <=? MopQ_num (q o)) AssertFail in
  let* o := clear_uops o i in
  let* s := shadow_mopq.pop (shadow_MopQ o) in
  Ok (with_shadow s o).

(** Source: src/xiosim/zesto-core.cpp:117-121 new_action_id.
    The 64-bit counter is not wrapped around. *)
Definition new_action_id (o : t) : t * Z :=
  let a := global_action_id (fr o) + 1 in (with_fr (with_action a (fr o)) o, a).

(** Source: src/xiosim/zesto-oracle.cpp:605-631 undo.
    Uop [k] of the macro-op in slot [i]. *)
Definition undo_uop (i : Z) (spec_mode : bool) (k : Z) (o : t) : result t :=
  let* m := Mop_at o i in
  let* us := of_option NullDeref (uops m) in
  let* u := aget us k in
  let '(o, a) := new_action_id o in
  let* us := aset us k (mk_uop (dec u) (uop_seq u) (BOM u) (EOM u) (fused u) (is_light_fence u) (is_magic u) (is_sync_op u)
    (is_repeated u) (mem_size u) (virt_addr u) (phys_addr u) a) in
  let* o := set_Mop i (with_uops (Some us) m) o in
  let act := active (fr o) in
  let s := stat o in
  let s := if EOM u then ZESTO_STAT act oracle_inst_undo (if spec_mode then s else bump oracle_num_insn (-1) s) else s in
  if is_imm (dec u) then Ok (with_stat s o)
  else
    let s := if negb (in_fusion (fused u)) || is_fusion_head (fused u) then ZESTO_STAT act oracle_uop_undo s else s in
    let s := ZESTO_STAT act oracle_eff_uop_undo s in
    let* g := undo_mapping (deps o) (i, k) in
    let* g := undo_dependencies g (i, k) in
    Ok (with_deps g (with_stat s o)).

(** The uops from [n - 1] down to 0. *)
Fixpoint undo_uops (n : nat) (i : Z) (spec_mode : bool) (o : t) : result t :=
  match n with
  | O => Ok o
  | S n => let* o := undo_uop i spec_mode (Z.of_nat n) o in undo_uops n i spec_mode o
  end.

(** Source: src/xiosim/zesto-oracle.cpp:603-634 undo. *)
Definition undo (o : t) (i : Z) : result t :=
  let* m := Mop_at o i in
  let* o := undo_uops (Z.to_nat (flow_length m)) i (spec_mode m) o in
  let '(o, a) := new_action_id o in
  let* m := Mop_at o i in
  set_Mop i (with_jeclear a m) o.

(** Source: src/xiosim/zesto-oracle.cpp:663-677 recover.
    The youngest macro-op, in slot [i], is undone and taken off the MopQ. *)
Definition squash (o : t) (e : E) (i : Z) : result (t * E) :=
  let* o := undo o i in
  let* m := Mop_at o i in
  let* o := set_Mop i (with_valid false m) o in
  let* '(o, e) := match bpred_update m with
    | Some c =>
        let* e := bpred_flush e c in
        let* e := return_state_cache e c in
        let* o := set_Mop i (with_bpred None (pred_NPC m) (with_valid false m)) o in
        Ok (o, e)
    | None => Ok (o, e)
    end in
  let x := q o in
  Ok (with_q (mk_queue (MopQ x) (MopQ_head x) i (if spec_mode m then MopQ_non_spec_tail x else i) (MopQ_num x - 1) (MopQ_size x)
        (if spec_mode m then MopQ_spec_num x - 1 else MopQ_spec_num x)) o, e).

(** Source: src/xiosim/zesto-oracle.cpp:681-685 recover.
    The uops of the macro-ops that were undone are freed, the oldest first. *)
Fixpoint clear_all (l : list Z) (o : t) : result t :=
  match l with
  | [] => Ok o
  | i :: l => let* o := clear_uops o i in clear_all l o
  end.

(** Source: src/xiosim/zesto-oracle.cpp:644-679 recover.
    The walk from slot [idx] back to slot [i]; it ends at the head at the latest, so the size of
    the MopQ is enough fuel. *)
Fixpoint recover_loop (fuel : nat) (o : t) (e : E) (i idx : Z) (dead : list Z) : result (t * E * list Z) :=
  if i =? idx then Ok (o, e, dead)
  else
    match fuel with
    | O => Fault Diverge
    | S fuel =>
        let* _ := guard_or (negb (idx =? MopQ_head (q o))) Fatal in
        let* m := Mop_at o idx in
        let o := if is_trap m then with_drain false o else o in
        let* '(o, e) := squash o e idx in
        recover_loop fuel o e i (moddec idx (MopQ_size (q o))) (idx :: dead)
    end.

(** Source: src/xiosim/zesto-oracle.cpp:637-699 recover.
    Everything after the macro-op in slot [i] is undone. *)
Definition recover (o : t) (e : E) (i : Z) : result (t * E) :=
  let x := q o in
  let* '(o, e, dead) := recover_loop (Z.to_nat (MopQ_size x)) o e i (moddec (MopQ_tail x) (MopQ_size x)) [] in
  let* o := clear_all dead o in
  let* m := Mop_at o i in
  let f := fr o in
  Ok (with_flow (spec_mode m) None true (with_fr (with_pcs (fetch_PC f) (feeder_PC f) (NextPC m) f) o), e).

(** Source: src/xiosim/zesto-oracle.cpp:702-716 pipe_recover.
    The fetch stage restarts at [New_PC]. *)
Definition pipe_recover (o : t) (e : E) (i New_PC : Z) : result (t * E) :=
  if jeclear_delay e then let* e := jeclear_enqueue e i New_PC in Ok (o, e)
  else
    let* m := Mop_at o i in
    let* e := match bpred_update m with Some c => bpred_recover e c (negb (New_PC =? ftPC m)) | None => Ok e end in
    let* '(o, e) := recover o e i in
    let* e := commit_recover e i in
    let* e := exec_recover e i in
    let* e := alloc_recover e i in
    let* e := decode_recover e i in
    let* e := fetch_recover e New_PC in
    let f := fr o in
    Ok (with_fr (with_pcs New_PC (feeder_PC f) (feeder_NPC f) f) o, e).

(** Source: src/xiosim/zesto-oracle.cpp:720-736 pipe_flush.
    Everything from the macro-op in slot [i] on is undone. *)
Definition pipe_flush (o : t) (e : E) (i : Z) : result (t * E) :=
  let x := q o in
  let prev := moddec i (MopQ_size x) in
  let* _ := guard_or ((1 <? MopQ_num x) && negb (i =? MopQ_head x)) AssertFail in
  let* p := Mop_at o prev in
  let* o := set_Mop prev (with_bpred (bpred_update p) (NextPC p) p) o in
  pipe_recover o e prev (NextPC p).

(** Source: src/xiosim/zesto-oracle.cpp:742-760 complete_flush. *)
Fixpoint flush_loop (n : nat) (o : t) (e : E) (idx : Z) (dead : list Z) : result (t * E * list Z) :=
  match n with
  | O => Ok (o, e, dead)
  | S n =>
      let* m := Mop_at o idx in
      let* _ := guard_or (valid m) AssertFail in
      let* '(o, e) := squash o e idx in
      flush_loop n o e (moddec idx (MopQ_size (q o))) (idx :: dead)
  end.

(** Source: src/xiosim/zesto-oracle.cpp:762-763 complete_flush. *)
Fixpoint pop_all (n : nat) (s : shadow_mopq.t) : result shadow_mopq.t :=
  match n with
  | O => Ok s
  | S n => if shadow_mopq.empty s then Ok s else let* s := shadow_mopq.pop s in pop_all n s
  end.

(** Source: src/xiosim/zesto-oracle.cpp:739-780 complete_flush. *)
Definition complete_flush (o : t) (e : E) : result (t * E) :=
  let x := q o in
  let* '(o, e, dead) := flush_loop (Z.to_nat (MopQ_num x)) o e (moddec (MopQ_tail x) (MopQ_size x)) [] in
  let* s := pop_all (Z.to_nat (shadow_mopq.non_spec_size (shadow_MopQ o))) (shadow_MopQ o) in
  let o := with_shadow s o in
  let* o := clear_all dead o in
  let x := q o in
  let* _ := guard_or (MopQ_head x =? MopQ_tail x) AssertFail in
  let* _ := guard_or (MopQ_head x =? MopQ_non_spec_tail x) AssertFail in
  let* _ := guard_or (shadow_mopq.empty (shadow_MopQ o)) AssertFail in
  Ok (with_flow false None true (with_drain false o), e).

End recovery.

End oracle.
