(* ===== verification/OracleInv.v ===== *)
(** * OracleInv: the invariant of the oracle

    The macro-ops of the MopQ and their uops as lists, and what the operations of Oracle do
    to them: the dataflow graph is that of the uops that have not committed, the uops
    in memory are those of the MopQ and of the macro-ops being squashed, and the
    macro-ops on the right path are those of the first handshakes of the shadow MopQ. *)

From S2P Require Import Prelude Misc Memory Buffer ShadowMopQ OracleDeps Oracle.

Module oracle_inv.
Import oracle_deps oracle.

(** ** The uops of a list of macro-ops *)

Definition ptrs (i n : Z) : list ptr := (λ k, (i, k)) <$> seqZ 0 n.

Section flow.
Variables size head : Z.

(** The uops of the macro-ops at the positions from [j] on. *)
Fixpoint flow (j : Z) (ms : list Mop) : list ptr :=
  match ms with
  | [] => []
  | m :: ms => ptrs (ring.slot size head j) (flow_length m) ++ flow (j + 1) ms
  end.

Lemma flow_app j ms ms' : flow j (ms ++ ms') = flow j ms ++ flow (j + Z.of_nat (length ms)) ms'.
Proof.
  revert j. induction ms as [|m ms IH]; intros j; simpl; [f_equal; lia|]. rewrite IH, app_assoc. do 2 f_equal. lia.
Qed.

Lemma flow_snoc ms m : flow 0 (ms ++ [m]) = flow 0 ms ++ ptrs (ring.slot size head (Z.of_nat (length ms))) (flow_length m).
Proof. rewrite flow_app. simpl. by rewrite app_nil_r. Qed.

Lemma elem_of_ptrs i n p : p ∈ ptrs i n ↔ p.1 = i ∧ 0 ≤ p.2 < n.
Proof.
  unfold ptrs. rewrite list_elem_of_fmap. destruct p as [a k]. simpl. split.
  - intros (k' & [= -> ->] & Hk%elem_of_seqZ). lia.
  - intros [-> Hk]. exists k. split; [done|]. apply elem_of_seqZ. lia.
Qed.

Lemma elem_of_flow j ms p : p ∈ flow j ms ↔
  ∃ k m, ms !! k = Some m ∧ p.1 = ring.slot size head (j + Z.of_nat k) ∧ 0 ≤ p.2 < flow_length m.
Proof.
  revert j. induction ms as [|m ms IH]; intros j; simpl.
  - split; [by intros ?%elem_of_nil|by intros (k & m & ? & _)].
  - rewrite elem_of_app, elem_of_ptrs, IH. split.
    + intros [[E Hk]|(k & m' & Em & E & Hk)]; [exists 0%nat, m; split_and!; [done|rewrite E; f_equal; lia|lia..]|].
      exists (S k), m'. split_and!; [done|rewrite E; f_equal; lia|lia..].
    + intros ([|k] & m' & Em & E & Hk); [injection Em as ->; left; split; [rewrite E; f_equal; lia|lia]|].
      right. exists k, m'. split_and!; [done|rewrite E; f_equal; lia|lia..].
Qed.

Lemma ptrs_length i n : 0 ≤ n → Z.of_nat (length (ptrs i n)) = n.
Proof. intros Hn. unfold ptrs. rewrite length_fmap, length_seqZ. lia. Qed.

Lemma ptrs_snoc i n : 0 ≤ n → ptrs i (n + 1) = ptrs i n ++ [(i, n)].
Proof. intros Hn. unfold ptrs. rewrite seqZ_app by lia. by rewrite fmap_app. Qed.

Lemma ptrs_NoDup i n : NoDup (ptrs i n).
Proof. apply NoDup_fmap; [by intros ? ? [= ->]|apply NoDup_seqZ]. Qed.

(** Only the positions count. *)
Lemma flow_length_ext j ms ms' : Forall2 (λ m m', flow_length m = flow_length m') ms ms' → flow j ms = flow j ms'.
Proof. intros H. revert j. induction H as [|m m' ms ms' E _ IH]; intros j; simpl; [done|]. by rewrite E, IH. Qed.
End flow.

(** The list after the oldest macro-op has left. *)
Lemma flow_shift size head j ms : 1 ≤ size < 2 ^ 31 → 0 ≤ head < size → flow size (modinc head size) j ms = flow size head (j + 1) ms.
Proof. intros Hs Hh. revert j. induction ms as [|m ms IH]; intros j; simpl; [done|]. by rewrite IH, ring.slot_shift. Qed.

(** ** The heap of uops *)

(** A macro-op with its uops in memory. *)
Record body_ok (m : Mop) : Prop := {
  b_flow : 1 ≤ flow_length m ≤ 64;
  b_uops : ∃ us, uops m = Some us ∧ Z.of_nat (length us) = flow_length m ∧ Forall (λ u, is_imm (dec u) = false) us
}.

(** The registers that the uops of a macro-op were decoded to. *)
Definition regs_match (g : graph) (i : Z) (m : Mop) : Prop :=
  ∀ us k u, uops m = Some us → us !! k = Some u → regs_of g !! (i, Z.of_nat k) = Some (mk_regs (o_seq m) (d_idep (dec u)) (d_odep (dec u))).

Definition pos (o : t) (j : Z) : Z := ring.slot (MopQ_size (q o)) (MopQ_head (q o)) j.
Definition mops (o : t) : list Mop := ring.window (MopQ (q o)) (MopQ_size (q o)) (MopQ_head (q o)) (MopQ_num (q o)).
Definition flow_of (o : t) (j : Z) (ms : list Mop) : list ptr := flow (MopQ_size (q o)) (MopQ_head (q o)) j ms.

(** The MopQ with the macro-ops [ms], of which [c] uops have committed; [ds] are squashed
    macro-ops whose uops are still in memory, from position [j] on. *)
Record heap_ok (o : t) (c : nat) (ms : list Mop) (j : Z) (ds : list Mop) : Prop := {
  hp_ring : ring.ring_ok (MopQ (q o)) (MopQ_size (q o)) (MopQ_head (q o)) (MopQ_num (q o)) (MopQ_tail (q o));
  hp_ms : mops o = ms;
  hp_ds k d : ds !! k = Some d → aget (MopQ (q o)) (pos o (j + Z.of_nat k)) = Ok d;
  hp_pos : MopQ_num (q o) ≤ j ∧ j + Z.of_nat (length ds) ≤ MopQ_size (q o);
  hp_body : Forall body_ok (ms ++ ds);
  hp_graph : graph_ok (drop c (flow_of o 0 ms)) (deps o);
  hp_nodes p : is_Some (links_of (deps o) !! p) ↔ p ∈ flow_of o 0 ms ++ flow_of o j ds;
  hp_regs k m : ms !! k = Some m → regs_match (deps o) (pos o (Z.of_nat k)) m;
  hp_dead k d : ds !! k = Some d → regs_match (deps o) (pos o (j + Z.of_nat k)) d;
  hp_seq p u : regs_of (deps o) !! p = Some u → seq u < Mop_seq o
}.

Lemma pos_inj o i j c ms jd ds : heap_ok o c ms jd ds → 0 ≤ i < MopQ_size (q o) → 0 ≤ j < MopQ_size (q o) → pos o i = pos o j → i = j.
Proof. intros [[Hs _ _ _ _] _ _ _ _ _ _ _ _ _] Hi Hj. by apply ring.slot_inj. Qed.

Lemma mops_length o c ms j ds : heap_ok o c ms j ds → Z.of_nat (length ms) = MopQ_num (q o).
Proof. intros [Hr <- _ _ _ _ _ _ _ _]. by apply (ring.window_length _ _ _ _ _ Hr). Qed.

Lemma mop_at o c ms j ds k m : heap_ok o c ms j ds → ms !! k = Some m → Mop_at o (pos o (Z.of_nat k)) = Ok m ∧ Z.of_nat k < MopQ_num (q o).
Proof.
  intros H Ek. pose proof (mops_length _ _ _ _ _ H) as Hlen. pose proof (lookup_lt_Some _ _ _ Ek). pose proof H as [Hr Hms _ _ _ _ _ _ _ _].
  split; [|lia]. unfold Mop_at, pos. pose proof Hr as [Hs Hl Hn Hh _]. apply aget_lookup; [by apply ring.slot_in_range|].
  rewrite <- (ring.window_lookup _ _ _ _ _ _ Hr) by lia. rewrite Nat2Z.id. fold (mops o). by rewrite Hms.
Qed.

(** The last macro-op. *)
Lemma last_at o c ms m j ds : heap_ok o c (ms ++ [m]) j ds → Mop_at o (pos o (Z.of_nat (length ms))) = Ok m ∧ Z.of_nat (length ms) + 1 = MopQ_num (q o).
Proof.
  intros H. pose proof (mops_length _ _ _ _ _ H) as Hlen. rewrite length_app in Hlen. simpl in Hlen.
  destruct (mop_at _ _ _ _ _ (length ms) m H) as [? ?]; [by rewrite lookup_app_r, Nat.sub_diag by lia|]. split; [done|lia].
Qed.

(** ** Undoing a macro-op *)

(** What undoing changes: the MopQ, the graph, the action ids and the statistics. *)
Definition upd (o : t) (l : list Mop) (g : graph) (a : Z) (s : stats) : t :=
  mk (spec o) (Mop_seq o) (with_MopQ l (q o)) (current_Mop o) (drain_pipeline o) (shadow_MopQ o) g (consumed o) (with_action a (fr o)) s.

Definition slot_set (i : Z) (m : Mop) (o : t) : list Mop := <[Z.to_nat i := m]> (MopQ (q o)).

Lemma set_Mop_ok o i m m0 : Mop_at o i = Ok m0 → set_Mop i m o = Ok (upd o (slot_set i m o) (deps o) (global_action_id (fr o)) (stat o)).
Proof.
  intros G. apply aget_inv in G as [Hi _]. unfold set_Mop. rewrite aset_ok by done. cbn [rbind]. f_equal.
  destruct o as [? ? [] ? ? ? ? ? [] ?]. done.
Qed.

Lemma Mop_at_set o i m m0 g a s : Mop_at o i = Ok m0 → Mop_at (upd o (slot_set i m o) g a s) i = Ok m.
Proof.
  intros G. apply aget_inv in G as [Hi _]. unfold Mop_at, upd, slot_set. simpl. apply aget_lookup; [lia|]. apply list_lookup_insert_eq. lia.
Qed.

Lemma slot_set_twice o i m m' g a s : slot_set i m' (upd o (slot_set i m o) g a s) = slot_set i m' o.
Proof. unfold slot_set. simpl. apply list_insert_insert_eq. Qed.

Lemma no_imm_ext us us' : dec <$> us' = dec <$> us → Forall (λ u, is_imm (dec u) = false) us → Forall (λ u, is_imm (dec u) = false) us'.
Proof.
  intros Ed Hi. change (Forall ((λ d, is_imm d = false) ∘ dec) us'). apply Forall_fmap. rewrite Ed. by apply Forall_fmap.
Qed.

Section undo.
Variables (i : Z) (sm : bool) (L : list ptr) (c : nat).
Hypothesis Hc : c = 0%nat ∨ L = [].

Lemma undo_uop_ok n o m us : Mop_at o i = Ok m → uops m = Some us → Forall (λ u, is_imm (dec u) = false) us → (n < length us)%nat →
  graph_ok (L ++ drop c (ptrs i (Z.of_nat (S n)))) (deps o) → is_Some (regs_of (deps o) !! (i, Z.of_nat n)) → is_Some (links_of (deps o) !! (i, Z.of_nat n)) →
  wp (undo_uop i sm (Z.of_nat n) o) (λ o', ∃ us' g a s, o' = upd o (slot_set i (with_uops (Some us') m) o) g a s ∧ dec <$> us' = dec <$> us ∧
    graph_ok (L ++ drop c (ptrs i (Z.of_nat n))) g ∧ same_uops (deps o) g).
Proof.
  intros G Eu Hi Hn Hg Hr Hl. unfold undo_uop. rewrite G. cbn [rbind]. rewrite Eu. cbn [of_option rbind].
  destruct (lookup_lt_is_Some_2 us n Hn) as [u En]. rewrite (aget_lookup us (Z.of_nat n) u) by (lia || by rewrite Nat2Z.id). cbn [rbind].
  unfold new_action_id. cbn beta iota zeta. rewrite aset_ok by lia. cbn [rbind]. rewrite Nat2Z.id. set (u' := mk_uop _ _ _ _ _ _ _ _ _ _ _ _ _).
  set (o1 := with_fr _ o). assert (Mop_at o1 i = Ok m) as G1 by done. rewrite (set_Mop_ok _ _ _ _ G1). cbn [rbind].
  pose proof (Forall_lookup_1 _ _ _ _ Hi En) as Himm. simpl in Himm. rewrite Himm. cbn [deps upd].
  assert (dec <$> <[n := u']> us = dec <$> us) as Ed by (rewrite list_fmap_insert; by apply list_insert_id; rewrite list_lookup_fmap, En).
  assert (ptrs i (Z.of_nat (S n)) = ptrs i (Z.of_nat n) ++ [(i, Z.of_nat n)]) as Ep by (rewrite <- ptrs_snoc by lia; f_equal; lia).
  assert (wp (let* g := undo_mapping (deps o1) (i, Z.of_nat n) in undo_dependencies g (i, Z.of_nat n))
    (λ g', graph_ok (L ++ drop c (ptrs i (Z.of_nat n))) g' ∧ same_uops (deps o) g')) as Hundo.
  { change (deps o1) with (deps o). rewrite Ep in Hg. destruct (decide (c ≤ n)%nat) as [Hle|Hgt].
    - pose proof (ptrs_length i (Z.of_nat n) ltac:(lia)). rewrite drop_app_le in Hg by lia. rewrite app_assoc in Hg. by apply undo_ok.
    - pose proof (ptrs_length i (Z.of_nat n) ltac:(lia)). destruct Hc as [->|EL]; [lia|]. rewrite EL in *. simpl in *.
      rewrite drop_ge in Hg by (rewrite length_app; simpl; lia). rewrite (drop_ge (ptrs i (Z.of_nat n))) by lia. by apply undo_committed_ok. }
  apply wp_bind_inv in Hundo. apply wp_bind. eapply wp_mono; [exact Hundo|]. intros g1 Hg1. apply wp_bind. eapply wp_mono; [exact Hg1|].
  intros g2 [H1 H2]. cbn [wp]. eexists _, g2, _, _. split_and!; [reflexivity|exact Ed|done|done].
Qed.

Lemma undo_uops_ok n o m us : Mop_at o i = Ok m → uops m = Some us → Forall (λ u, is_imm (dec u) = false) us → (n ≤ length us)%nat →
  graph_ok (L ++ drop c (ptrs i (Z.of_nat n))) (deps o) →
  (∀ k, (k < n)%nat → is_Some (regs_of (deps o) !! (i, Z.of_nat k)) ∧ is_Some (links_of (deps o) !! (i, Z.of_nat k))) →
  wp (undo_uops n i sm o) (λ o', ∃ us' g a s, o' = upd o (slot_set i (with_uops (Some us') m) o) g a s ∧ dec <$> us' = dec <$> us ∧
    graph_ok L g ∧ same_uops (deps o) g).
Proof.
  revert o m us. induction n as [|n IH]; intros o m us G Eu Hi Hn Hg Hex; cbn [undo_uops].
  { cbn [wp]. exists us, (deps o), (global_action_id (fr o)), (stat o). split_and!; [|done| |done].
    - assert (with_uops (Some us) m = m) as Em by (destruct m; simpl in *; by rewrite Eu). rewrite Em. apply aget_inv in G as [Hi' G].
      unfold upd, slot_set. rewrite list_insert_id by done. by destruct o as [? ? [] ? ? ? ? ? [] ?].
    - change (ptrs i (Z.of_nat 0)) with (@nil ptr) in Hg. by rewrite drop_nil, app_nil_r in Hg. }
  destruct (Hex n ltac:(lia)) as [Hr Hl]. eapply wp_bind, wp_mono; [by apply (undo_uop_ok n o m us)|].
  intros o1 (us1 & g1 & a1 & s1 & -> & Ed & Hg1 & Hs1). pose proof (f_equal length Ed) as Elen. rewrite !length_fmap in Elen.
  eapply wp_mono; [apply (IH _ (with_uops (Some us1) m) us1)|].
  - by eapply Mop_at_set.
  - done.
  - by eapply no_imm_ext.
  - lia.
  - done.
  - intros k Hk. destruct (Hex k ltac:(lia)). destruct Hs1 as [Er Hd]. simpl. by rewrite Er, Hd.
  - intros o2 (us2 & g2 & a2 & s2 & -> & Ed2 & Hg2 & Hs2). exists us2, g2, a2, s2. split_and!; [|congruence|done|by eapply same_uops_trans].
    rewrite slot_set_twice. done.
Qed.
End undo.

(** The macro-op in a slot is undone: its uops have left the graph. *)
Lemma undo_Mop_ok L c o i m us : (c = 0%nat ∨ L = []) → Mop_at o i = Ok m → uops m = Some us → Z.of_nat (length us) = flow_length m →
  Forall (λ u, is_imm (dec u) = false) us → graph_ok (L ++ drop c (ptrs i (flow_length m))) (deps o) →
  (∀ k, (k < length us)%nat → is_Some (regs_of (deps o) !! (i, Z.of_nat k)) ∧ is_Some (links_of (deps o) !! (i, Z.of_nat k))) →
  wp (undo o i) (λ o', ∃ us' g a s, o' = upd o (slot_set i (with_jeclear a (with_uops (Some us') m)) o) g a s ∧ dec <$> us' = dec <$> us ∧
    graph_ok L g ∧ same_uops (deps o) g).
Proof.
  intros Hc G Eu El Hi Hg Hex. unfold undo. rewrite G. cbn [rbind]. replace (Z.to_nat (flow_length m)) with (length us) by lia. rewrite <- El in Hg.
  eapply wp_bind, wp_mono; [by apply (undo_uops_ok i (spec_mode m) L c Hc _ o m us)|].
  intros o1 (us1 & g1 & a1 & s1 & -> & Ed & Hg1 & Hs1). unfold new_action_id. cbn beta iota zeta. set (o1 := upd o _ _ _ _).
  pose proof (Mop_at_set o i (with_uops (Some us1) m) m g1 a1 s1 G) as G1. fold o1 in G1. set (o2 := with_fr _ o1).
  change (Mop_at o2 i) with (Mop_at o1 i). rewrite G1. cbn [rbind]. rewrite (set_Mop_ok o2 i _ _ G1). cbn [wp].
  exists us1, g1, (global_action_id (fr o1) + 1), s1. split_and!; [|done|done|done]. by rewrite <- (slot_set_twice o i (with_uops (Some us1) m) _ g1 a1 s1).
Qed.

(** ** Squashing the youngest macro-op *)

(** The state caches that macro-ops hold. *)
Definition caches (ms : list Mop) : list Z := omap bpred_update ms.

(** What the other stages promise: [env_ok] are the state caches that are out. *)
Class PipeLaws (E : Type) `{PipeEnv E} : Type := {
  env_ok : list Z → E → Prop;
  env_perm T T' e : T ≡ₚ T' → env_ok T e → env_ok T' e;
  flush_law c T e : env_ok (c :: T) e → wp (bpred_flush e c) (env_ok (c :: T));
  return_law c T e : env_ok (c :: T) e → wp (return_state_cache e c) (env_ok T);
  recover_law c b T e : env_ok (c :: T) e → wp (bpred_recover e c b) (env_ok (c :: T));
  jeclear_law i pc T e : env_ok T e → wp (jeclear_enqueue e i pc) (env_ok T);
  commit_law i T e : env_ok T e → wp (commit_recover e i) (env_ok T);
  exec_law i T e : env_ok T e → wp (exec_recover e i) (env_ok T);
  alloc_law i T e : env_ok T e → wp (alloc_recover e i) (env_ok T);
  decode_law i T e : env_ok T e → wp (decode_recover e i) (env_ok T);
  fetch_law pc T e : env_ok T e → wp (fetch_recover e pc) (env_ok T);
  release_law p T e : env_ok T e → wp (release_uop e p) (env_ok T)
}.

Lemma caches_app ms ms' : caches (ms ++ ms') = caches ms ++ caches ms'.
Proof. apply omap_app. Qed.

(** What a squash leaves alone. *)
Record squashed (o o' : t) : Prop := {
  sq_spec : spec o' = spec o;
  sq_seq : Mop_seq o' = Mop_seq o;
  sq_current : current_Mop o' = current_Mop o;
  sq_drain : drain_pipeline o' = drain_pipeline o;
  sq_shadow : shadow_MopQ o' = shadow_MopQ o;
  sq_consumed : consumed o' = consumed o;
  sq_front : ∃ a, fr o' = with_action a (fr o);
  sq_size : MopQ_size (q o') = MopQ_size (q o);
  sq_head : MopQ_head (q o') = MopQ_head (q o)
}.

Lemma squashed_refl o : squashed o o.
Proof. split; try done. exists (global_action_id (fr o)). by destruct (fr o). Qed.

Lemma squashed_trans o1 o2 o3 : squashed o1 o2 → squashed o2 o3 → squashed o1 o3.
Proof.
  intros [? ? ? ? ? ? [a Ha] ? ?] [? ? ? ? ? ? [b Hb] ? ?]. split; try congruence. exists b. by rewrite Hb, Ha.
Qed.

(** The macro-op after its squash: not valid, its uops the same but for their action ids. *)
Record same_body (m m' : Mop) : Prop := {
  sb_flow : flow_length m' = flow_length m;
  sb_seq : o_seq m' = o_seq m;
  sb_uops : ∀ us, uops m = Some us → ∃ us', uops m' = Some us' ∧ dec <$> us' = dec <$> us
}.

Lemma same_body_ok m m' : same_body m m' → body_ok m → body_ok m'.
Proof.
  intros [Hf _ Hu] [Hb (us & Eu & El & Hi)]. split; [by rewrite Hf|]. destruct (Hu us Eu) as (us' & Eu' & Ed). exists us'.
  pose proof (f_equal length Ed) as E. rewrite !length_fmap in E. split_and!; [done|lia|by eapply no_imm_ext].
Qed.

Lemma same_body_regs g i m m' us : same_body m m' → uops m = Some us → regs_match g i m → regs_match g i m'.
Proof.
  intros [_ Hs Hu] Eu Hm us' k u' Eu' Ek. destruct (Hu us Eu) as (us1 & E1 & Ed). rewrite E1 in Eu'. injection Eu' as ->.
  assert (Some (dec u') = dec <$> us !! k) as E by (rewrite <- list_lookup_fmap, <- Ed, list_lookup_fmap, Ek; done).
  destruct (us !! k) as [u|] eqn:Eku; [|done]. injection E as E. rewrite Hs, E. by apply (Hm us).
Qed.

Lemma regs_match_ext g g' i m : regs_of g' = regs_of g → regs_match g i m → regs_match g' i m.
Proof. intros E Hm us k u Eu Ek. rewrite E. by apply (Hm us). Qed.

(** The heap when the last macro-op has been undone with [g] as its graph. *)
Lemma heap_squash o c ms m ds m' g a s nst sn : heap_ok o c (ms ++ [m]) (MopQ_num (q o)) ds → same_body m m' →
  graph_ok (drop c (flow_of o 0 ms)) g → same_uops (deps o) g →
  let i := pos o (Z.of_nat (length ms)) in
  heap_ok (with_q (mk_queue (slot_set i m' o) (MopQ_head (q o)) i nst (MopQ_num (q o) - 1) (MopQ_size (q o)) sn) (upd o (slot_set i m' o) g a s))
    c ms (MopQ_num (q o) - 1) (m' :: ds).
Proof.
  intros H Hb Hg [Er Hd] i. destruct (last_at _ _ _ _ _ _ H) as [Gm Hn]. destruct H as [Hr Hms Hds Hpos Hbody _ Hnodes Hregs Hdead Hseq].
  pose proof Hr as [Hs Hl Hnum Hh Ht]. pose proof (ring.slot_in_range _ (MopQ_head (q o)) Hs) as Hrange.
  assert (MopQ_num (q o) - 1 = Z.of_nat (length ms)) as En by lia. apply list.Forall_app in Hbody as [Hbms Hbds]. apply list.Forall_app in Hbms as [Hbms Hbm].
  apply (list.Forall_singleton body_ok) in Hbm. destruct (ring.window_squash _ _ _ _ _ Hr ltac:(lia)) as [Hr1 _].
  assert (ring.window (MopQ (q o)) (MopQ_size (q o)) (MopQ_head (q o)) (Z.of_nat (length ms)) = ms) as Hw.
  { unfold mops in Hms. destruct (ring.window_squash _ _ _ _ _ Hr ltac:(lia)) as [_ (x & _ & E)]. rewrite Hms, En in E.
    by apply app_inj_tail in E as [<- _]. }
  rewrite En in *. rewrite Ht, ring.moddec_slot, En in Hr1 by done.
  assert (∀ j, 0 ≤ j < MopQ_size (q o) → j ≠ Z.of_nat (length ms) → slot_set i m' o !! Z.to_nat (pos o j) = MopQ (q o) !! Z.to_nat (pos o j)) as Hne.
  { intros j Hj Hjn. unfold slot_set. apply list_lookup_insert_ne. intros E. apply Hjn. apply (ring.slot_inj _ (MopQ_head (q o)) Hs); [lia|lia|].
    pose proof (Hrange j). pose proof (Hrange (Z.of_nat (length ms))). unfold i, pos in E. lia. }
  split; simpl.
  - destruct Hr1 as [? Hl1 ? ? ?]. split; simpl; try done. unfold slot_set. by rewrite length_insert.
  - unfold mops. simpl. unfold slot_set, i, pos. rewrite (ring.window_insert_out _ _ _ _ _ _ _ Hr1) by lia. done.
  - intros [|k] d Ek; simpl in Ek.
    + injection Ek as <-. unfold pos. simpl. rewrite Z.add_0_r. apply aget_lookup; [apply Hrange|]. apply list_lookup_insert_eq. unfold i, pos in *. pose proof (Hrange (Z.of_nat (length ms))). lia.
    + pose proof (lookup_lt_Some _ _ _ Ek). specialize (Hds k d Ek). apply aget_inv in Hds as [? Hds]. apply aget_lookup; [apply Hrange|].
      unfold pos in *. simpl. rewrite <- Hn in Hds. replace (Z.of_nat (length ms) + Z.of_nat (S k)) with (Z.of_nat (length ms) + 1 + Z.of_nat k) by lia.
      by rewrite (Hne (Z.of_nat (length ms) + 1 + Z.of_nat k)) by lia.
  - simpl. lia.
  - apply list.Forall_app. split; [done|].
    apply list.Forall_cons. split; [by apply (same_body_ok m)|done].
  - exact Hg.
  - intros p. rewrite Hd, Hnodes. unfold flow_of. simpl. rewrite flow_snoc, <- !app_assoc. destruct Hb as [-> _ _].
    by replace (MopQ_num (q o)) with (Z.of_nat (length ms) + 1) by lia.
  - intros k x Ek. apply (regs_match_ext (deps o)); [done|]. apply (Hregs k). by apply lookup_app_l_Some.
  - intros [|k] d Ek; simpl in Ek; apply (regs_match_ext (deps o)); try done.
    + injection Ek as <-. destruct (b_uops _ Hbm) as (us & Eu & _). apply (same_body_regs _ _ m m' us); [done|done|].
      unfold pos. simpl. rewrite Z.add_0_r. apply (Hregs (length ms)). by rewrite lookup_app_r, Nat.sub_diag by lia.
    + specialize (Hdead k d Ek). unfold pos in *. simpl. rewrite <- Hn in Hdead.
      by replace (Z.of_nat (length ms) + Z.of_nat (S k)) with (Z.of_nat (length ms) + 1 + Z.of_nat k) by lia.
  - intros p u. rewrite Er. apply Hseq.
Qed.
Section squash.
Context {E : Type} `{PipeLaws E}.

Lemma caches_snoc ms m : caches (ms ++ [m]) = caches ms ++ from_option (λ c, [c]) [] (bpred_update m).
Proof. unfold caches. by rewrite omap_app. Qed.

Lemma squash_ok o e c ms m ds : heap_ok o c (ms ++ [m]) (MopQ_num (q o)) ds → env_ok (caches (ms ++ [m])) e →
  wp (squash o e (pos o (Z.of_nat (length ms)))) (λ '(o', e'), ∃ m', heap_ok o' c ms (MopQ_num (q o')) (m' :: ds) ∧ env_ok (caches ms) e' ∧ squashed o o' ∧
    MopQ_num (q o') = MopQ_num (q o) - 1 ∧
    MopQ_non_spec_tail (q o') = (if spec_mode m then MopQ_non_spec_tail (q o) else pos o (Z.of_nat (length ms))) ∧
    MopQ_spec_num (q o') = (if spec_mode m then MopQ_spec_num (q o) - 1 else MopQ_spec_num (q o))).
Proof.
  intros Hh He. destruct (last_at _ _ _ _ _ _ Hh) as [Gm Hn]. set (i := pos o (Z.of_nat (length ms))) in *. pose proof Hh as [Hr Hms Hds Hpos Hbody Hg Hnodes Hregs Hdead Hseq].
  pose proof Hbody as Hbm. apply list.Forall_app in Hbm as [Hbm _]. apply list.Forall_app in Hbm as [_ Hbm]. apply (list.Forall_singleton body_ok) in Hbm.
  destruct Hbm as [Hfl (us & Eu & El & Himm)]. unfold flow_of in Hg. rewrite flow_snoc, drop_app in Hg. fold i in Hg.
  unfold squash. eapply wp_bind, wp_mono; [apply (undo_Mop_ok (drop c (flow_of o 0 ms)) (c - length (flow_of o 0 ms)) o i m us); [|exact Gm|exact Eu|exact El|exact Himm|exact Hg|]|].
  { destruct (decide (c ≤ length (flow_of o 0 ms))%nat); [left; lia|right; apply drop_ge; lia]. }
  { intros k Hk. destruct (lookup_lt_is_Some_2 us k Hk) as [u Ek]. split.
    - assert (regs_match (deps o) i m) as Hm by (apply (Hregs (length ms)); by rewrite lookup_app_r, Nat.sub_diag by lia). eexists. by apply (Hm us).
    - apply Hnodes. apply elem_of_app. left. unfold flow_of. rewrite flow_snoc. apply elem_of_app. right. apply elem_of_ptrs. simpl. split; [done|]. lia. }
  intros o1 (us' & g & a & s & -> & Ed & Hg' & Hs). rewrite (Mop_at_set o i _ m) by done. cbn [rbind].
  rewrite (set_Mop_ok _ i _ _ (Mop_at_set o i _ m g a s Gm)). cbn [rbind]. rewrite slot_set_twice. set (m1 := with_jeclear a _).
  assert (∀ b npc l, l = slot_set i (with_bpred b npc (with_valid false m1)) o → heap_ok (with_q (mk_queue l (MopQ_head (q o)) i
    (if spec_mode m then MopQ_non_spec_tail (q o) else i) (MopQ_num (q o) - 1) (MopQ_size (q o)) (if spec_mode m then MopQ_spec_num (q o) - 1 else MopQ_spec_num (q o)))
    (upd o l g a s)) c ms (MopQ_num (q o) - 1) (with_bpred b npc (with_valid false m1) :: ds)) as Hfin.
  { intros b npc l ->. apply (heap_squash o c ms m ds); [done| |done|done]. split; try done. simpl. intros us0 E0. rewrite Eu in E0. injection E0 as <-. by exists us'. }
  rewrite caches_snoc in He. destruct (bpred_update m) as [cc|] eqn:Eb.
  - simpl in He. eapply env_perm in He; [|by rewrite Permutation_app_comm]. simpl in He.
    replace (bpred_update m1) with (Some cc) by (by rewrite <- Eb).
    apply wp_bind. apply wp_bind. eapply wp_mono; [by apply flush_law|]. intros e1 He1. apply wp_bind. eapply wp_mono; [by apply return_law|]. intros e2 He2.
    set (o2 := upd (upd o _ _ _ _) _ _ _ _). assert (Mop_at o2 i = Ok (with_valid false m1)) as G2 by (by apply (Mop_at_set o i _ m g a s)).
    rewrite (set_Mop_ok o2 i _ _ G2). cbn [rbind wp]. eexists. split; [|split; [exact He2|]].
    + apply (Hfin None (pred_NPC m1) (slot_set i (with_bpred None (pred_NPC m1) (with_valid false m1)) o2)). exact (slot_set_twice o i (with_valid false m1) _ g a s).
    + split; [|done]. split; try done. by exists a.
  - replace (bpred_update m1) with (@None Z) by (by rewrite <- Eb). simpl in He. rewrite app_nil_r in He. cbn [rbind wp].
    eexists. split; [|split; [exact He|]].
    + apply (Hfin None (pred_NPC m1) (slot_set i (with_valid false m1) o)). f_equal. destruct m; simpl in *. by subst.
    + split; [|done]. split; try done. by exists a.
Qed.
End squash.

(** ** Freeing uops *)

Lemma free_uops_ok live i n g : graph_ok live g → (∀ k, (k < n)%nat → ((i, Z.of_nat k) ∉ live) ∧ is_Some (links_of g !! (i, Z.of_nat k))) →
  let g' := free_uops i n g in
  graph_ok live g' ∧ (∀ p, is_Some (links_of g' !! p) ↔ is_Some (links_of g !! p) ∧ p ∉ ptrs i (Z.of_nat n)) ∧
  ∀ p, regs_of g' !! p = if decide (p ∈ ptrs i (Z.of_nat n)) then None else regs_of g !! p.
Proof.
  revert g. induction n as [|n IH]; intros g Hg Hk g'.
  { subst g'. cbn [free_uops]. change (ptrs i (Z.of_nat 0)) with (@nil ptr). split; [done|]. split; intros p; [split; [intros; split; [done|apply not_elem_of_nil]|by intros [? _]]|].
    rewrite decide_False by apply not_elem_of_nil. done. }
  subst g'. cbn [free_uops]. destruct (Hk n ltac:(lia)) as [Hn [l Hl]]. assert (ptrs i (Z.of_nat (S n)) = ptrs i (Z.of_nat n) ++ [(i, Z.of_nat n)]) as -> by (rewrite <- ptrs_snoc by lia; f_equal; lia).
  set (g1 := free_uop g (i, Z.of_nat n)). assert (graph_ok live g1) as Hg1 by (by eapply free_ok).
  destruct (IH g1 Hg1) as (H1 & H2 & H3).
  { intros k Hkn. destruct (Hk k ltac:(lia)) as [? Hs]. split; [done|]. simpl. rewrite lookup_delete_ne; [done|]. intros [= E]. lia. }
  split; [done|]. split; intros p.
  - rewrite H2. simpl. rewrite elem_of_app, list_elem_of_singleton. destruct (decide (p = (i, Z.of_nat n))) as [->|Hne].
    + rewrite lookup_delete_eq. split; [by intros [[? ?] _]|by intros [_ []]; right].
    + rewrite lookup_delete_ne by done. intuition.
  - rewrite H3. simpl. case_decide as Hp; case_decide as Hp'; rewrite elem_of_app, list_elem_of_singleton in Hp'; try done; [exfalso; apply Hp'; by left| |].
    + destruct Hp' as [|E]; [done|]. by rewrite E, lookup_delete_eq.
    + apply lookup_delete_ne. intros <-. apply Hp'. by right.
Qed.

(** What clearing changes. *)
Definition cleared_to (o o' : t) : Prop := ∃ l g, o' = with_deps g (with_q (with_MopQ l (q o)) o).

Lemma cleared_to_refl o : cleared_to o o.
Proof. exists (MopQ (q o)), (deps o). by destruct o as [? ? [] ? ? ? ? ? ? ?]. Qed.

Lemma cleared_to_trans o1 o2 o3 : cleared_to o1 o2 → cleared_to o2 o3 → cleared_to o1 o3.
Proof. intros (l & g & ->) (l' & g' & ->). by exists l', g'. Qed.

Lemma dead_slot o c ms j d ds k : heap_ok o c ms j (d :: ds) → 0 ≤ k < MopQ_size (q o) → pos o k = pos o j → k = j.
Proof. intros H Hk. pose proof (mops_length _ _ _ _ _ H). pose proof (hp_pos _ _ _ _ _ H) as [? Hj]. simpl in Hj. apply (pos_inj _ _ _ _ _ _ _ H); lia. Qed.

(** The uops of the oldest squashed macro-op are freed. *)
Lemma clear_uops_ok o c ms j d ds : heap_ok o c ms j (d :: ds) →
  wp (clear_uops o (pos o j)) (λ o', heap_ok o' c ms (j + 1) ds ∧ cleared_to o o').
Proof.
  intros H. pose proof (λ k, dead_slot _ _ _ _ _ _ k H) as Hslot. pose proof (mops_length _ _ _ _ _ H) as Hlen. pose proof H as [Hr Hms Hds Hpos Hbody Hg Hnodes Hregs Hdead Hseq].
  simpl in Hpos. pose proof (Hds 0%nat d eq_refl) as G. rewrite Z.add_0_r in G. unfold clear_uops, Mop_at. rewrite G. cbn [rbind].
  apply list.Forall_app in Hbody as [Hbms Hbds]. apply list.Forall_cons in Hbds as [[Hfl (us & Eu & El & _)] Hbds].
  rewrite (proj2 (Z.ltb_lt _ _)), (proj2 (Z.leb_le _ _)) by lia. cbn [andb guard_or rbind]. rewrite Eu. cbn [of_option rbind].
  pose proof G as [Hi _]%aget_inv. unfold set_Mop. rewrite aset_ok by done. cbn [rbind wp]. simpl deps.
  assert (∀ p, p ∈ flow_of o 0 ms → p.1 ≠ pos o j) as Hlive.
  { intros p (k & m & Ek & E & _)%elem_of_flow E'. apply lookup_lt_Some in Ek. assert (Z.of_nat k = j); [|lia]. apply Hslot; [lia|]. rewrite <- E', E. done. }
  assert (∀ p, p ∈ flow_of o (j + 1) ds → p.1 ≠ pos o j) as Hrest.
  { intros p (k & m & Ek & E & _)%elem_of_flow E'. apply lookup_lt_Some in Ek. assert (j + 1 + Z.of_nat k = j); [|lia]. apply Hslot; [lia|]. rewrite <- E', E. done. }
  assert (∀ k, 0 ≤ k < MopQ_size (q o) → k ≠ j → <[Z.to_nat (pos o j) := with_uops None d]> (MopQ (q o)) !! Z.to_nat (pos o k) = MopQ (q o) !! Z.to_nat (pos o k)) as Hne.
  { intros k Hk Hkj. pose proof Hr as [Hs _ _ _ _]. pose proof (ring.slot_in_range _ (MopQ_head (q o)) Hs k). apply list_lookup_insert_ne. intros E. apply Hkj, Hslot; [done|].
    unfold pos in *. lia. }
  destruct (free_uops_ok (drop c (flow_of o 0 ms)) (pos o j) (length us) (deps o) Hg) as (Hg' & Hd' & Hr').
  { intros k Hk. split; [intros Hin%(subseteq_drop c); by apply Hlive in Hin|]. apply Hnodes, elem_of_app. right. simpl. apply elem_of_app. left.
    apply elem_of_ptrs. simpl. split; [done|lia]. }
  assert (∀ i m, regs_match (deps o) i m → i ≠ pos o j → regs_match (free_uops (pos o j) (length us) (deps o)) i m) as Hkeep.
  { intros i m Hm Hij us' k u Eu' Ek. rewrite Hr', decide_False; [by apply (Hm us')|]. rewrite elem_of_ptrs. by intros [? _]. }
  split; [|by eexists _, _]. split; simpl; try done.
  - destruct Hr as [? Hl ? ? ?]. split; simpl; try done. by rewrite length_insert.
  - unfold mops. simpl. unfold pos. rewrite (ring.window_insert_out _ _ _ _ _ _ _ Hr) by lia. done.
  - intros k x Ek. pose proof (lookup_lt_Some _ _ _ Ek). specialize (Hds (S k) x Ek). replace (j + Z.of_nat (S k)) with (j + 1 + Z.of_nat k) in Hds by lia.
    unfold pos in *. simpl. apply aget_inv in Hds as [? Hds]. apply aget_lookup; [lia|]. by rewrite Hne by lia.
  - lia.
  - by apply list.Forall_app.
  - intros p. rewrite Hd', Hnodes. simpl. rewrite !elem_of_app. fold (pos o j). unfold flow_of in *. simpl. rewrite El. split.
    + intros [[?|[?|?]] ?]; [by left|done|by right].
    + intros [Hp|Hp]; (split; [eauto|]); rewrite elem_of_ptrs; intros [E _]; [by apply (Hlive p)|by apply (Hrest p)].
  - intros k m Ek. apply Hkeep; [by apply (Hregs k)|]. apply lookup_lt_Some in Ek. intros E. assert (Z.of_nat k = j); [|lia]. apply Hslot; [lia|done].
  - intros k m Ek. pose proof (lookup_lt_Some _ _ _ Ek). apply Hkeep.
    + specialize (Hdead (S k) m Ek). replace (j + Z.of_nat (S k)) with (j + 1 + Z.of_nat k) in Hdead by lia. done.
    + intros E. assert (j + 1 + Z.of_nat k = j); [|lia]. apply Hslot; [lia|done].
  - intros p u. rewrite Hr'. case_decide; [done|]. apply Hseq.
Qed.

(** The slots of [ds], the oldest first. *)
Fixpoint slots_of (o : t) (j : Z) (ds : list Mop) : list Z :=
  match ds with [] => [] | _ :: ds => pos o j :: slots_of o (j + 1) ds end.

Lemma slots_ext o o' j ds : MopQ_size (q o') = MopQ_size (q o) → MopQ_head (q o') = MopQ_head (q o) → slots_of o' j ds = slots_of o j ds.
Proof. intros Es Eh. revert j. induction ds as [|d ds IH]; intros j; simpl; [done|]. rewrite IH. unfold pos. by rewrite Es, Eh. Qed.

Lemma clear_all_ok ds o c ms j : heap_ok o c ms j ds →
  wp (clear_all (slots_of o j ds) o) (λ o', heap_ok o' c ms (j + Z.of_nat (length ds)) [] ∧ cleared_to o o').
Proof.
  revert o j. induction ds as [|d ds IH]; intros o j H; simpl.
  - rewrite Z.add_0_r. split; [done|apply cleared_to_refl].
  - eapply wp_bind, wp_mono; [by apply (clear_uops_ok o c ms j d ds)|]. intros o1 [H1 Hc]. specialize (IH o1 (j + 1) H1).
    rewrite (slots_ext o o1) in IH by (by destruct Hc as (l & g & ->)).
    eapply wp_mono; [exact IH|]. intros o2 [H2 Hc2]. split; [|by eapply cleared_to_trans].
    replace (j + Z.of_nat (S (length ds))) with (j + 1 + Z.of_nat (length ds)) by lia. done.
Qed.

Lemma heap_rest o c ms j : heap_ok o c ms j [] → heap_ok o c ms (MopQ_num (q o)) [].
Proof.
  intros [Hr Hms Hds Hpos Hbody Hg Hnodes Hregs Hdead Hseq]. split; try done. destruct Hr. simpl. lia.
Qed.

End oracle_inv.
