(* ===== verification/OracleSteps.v ===== *)
(** * OracleSteps: macro-ops entering and leaving the MopQ

    The exec of zesto-oracle.cpp decodes the handshake, fuses its uops, fills their memory
    accesses in and counts them.  Here: when the instruction fits its handshake, this
    succeeds, and what the macro-op and its uops keep of the two.

    Then what exec, commit_uop and commit of zesto-oracle.cpp do to the heap of uops and to the
    dataflow graph of OracleInv. *)

From S2P Require Import Prelude Misc Memory Buffer ShadowMopQ OracleDeps Oracle OracleInv.

Module oracle_make.
Import oracle_deps oracle.

Lemma v2p_ok m asid addr : memory.mem_ok m → memory.in_range m asid ∨ asid = memory.DO_NOT_TRANSLATE → ∃ pa, memory.v2p_translate m asid addr = Ok pa.
Proof.
  intros Hm Ha. unfold memory.v2p_translate. destruct (Z.eqb_spec asid memory.DO_NOT_TRANSLATE) as [|Hne]; [by eexists|].
  destruct Ha as [Ha|]; [|done]. rewrite memory.check_ok, memory.mapped_ok by done. cbn [rbind]. case_bool_decide; [|by eexists].
  destruct (memory.table_ok m asid Hm Ha) as (pt & cnt & -> & _). cbn [rbind]. by eexists.
Qed.

(** Replacing a uop by one of the same decoding. *)
Lemma dec_insert (us : list uop) (i : nat) u x : us !! i = Some x → dec u = dec x → dec <$> <[i := u]> us = dec <$> us.
Proof. intros Ei Ed. rewrite list_fmap_insert, Ed. apply list_insert_id. by rewrite list_lookup_fmap, Ei. Qed.

(** A read and a write that keep the decoding. *)
Lemma amodify_dec (us : list uop) i f : 0 ≤ i < Z.of_nat (length us) → (∀ u, dec (f u) = dec u) →
  wp (amodify us i f) (λ us', dec <$> us' = dec <$> us ∧ length us' = length us).
Proof.
  intros Hi Hf. unfold amodify. destruct (aget_ok us i Hi) as (x & Ex & ->). cbn [rbind]. rewrite aset_ok by done. cbn [wp].
  rewrite length_insert. split; [|done]. by apply (dec_insert _ _ _ x).
Qed.

Section make.
Context (decode : list Z → result inst) (fusion_mode : fusion_flags).

(** ** Fusion *)

(** The head of a fused uop is a uop of the macro-op. *)
Record cell_ok (n : Z) (u : uop) : Prop := {
  f_in : in_fusion (fused u) = bool_decide (is_Some (fusion_head (fused u)));
  f_head hd : fusion_head (fused u) = Some hd → 0 ≤ hd < n
}.

Definition cells_ok (ds : list uop_decode) (us : list uop) : Prop := dec <$> us = ds ∧ Forall (cell_ok (Z.of_nat (length ds))) us.

Lemma cells_insert ds us i u x : cells_ok ds us → us !! i = Some x → dec u = dec x → cell_ok (Z.of_nat (length ds)) u → cells_ok ds (<[i := u]> us).
Proof. intros [<- Hc] Ei Ed Hu. split; [by apply (dec_insert _ _ _ x)|]. by apply Forall_insert. Qed.

Lemma cells_length ds us : cells_ok ds us → length us = length ds.
Proof. intros [<- _]. by rewrite length_fmap. Qed.

Lemma fuse_ok ds us i : cells_ok ds us → 0 ≤ i < Z.of_nat (length ds) → (∀ d, i = 0 → ds !! 0%nat = Some d → matches fusion_mode (fusable d) = false) →
  wp (fuse fusion_mode i us) (cells_ok ds).
Proof.
  intros Hc Hi H0. pose proof (cells_length _ _ Hc) as Hlen. unfold fuse. destruct (aget_ok us i) as (u & Eu & ->); [lia|]. cbn [rbind].
  destruct (matches _ _) eqn:Em; [|done]. destruct (decide (i = 0)) as [->|Hne].
  { destruct Hc as [<- _]. change (Z.to_nat 0) with 0%nat in Eu. rewrite (H0 (dec u)) in Em; [done|done|]. by rewrite list_lookup_fmap, Eu. }
  rewrite (proj2 (Z.ltb_lt _ _)) by lia. cbn [guard_or rbind]. destruct (aget_ok us (i - 1)) as (p & Ep & ->); [lia|]. cbn [rbind].
  pose proof (Forall_lookup_1 _ _ _ _ (proj2 Hc) Eu) as Hu. pose proof (Forall_lookup_1 _ _ _ _ (proj2 Hc) Ep) as [Pin Phd].
  assert (in_fusion (fused p) || bool_decide (fusion_head (fused p) = None) = true) as ->.
  { rewrite Pin. destruct (fusion_head (fused p)); done. }
  cbn [guard_or rbind]. cbv zeta. set (fp := if in_fusion (fused p) then _ else _).
  assert (in_fusion fp = true ∧ ∃ hd, fusion_head fp = Some hd ∧ 0 ≤ hd < Z.of_nat (length ds)) as (Fin & hd & Fhd & Hhd).
  { unfold fp. rewrite Pin. case_bool_decide as Hs; simpl; [|split; [done|]; exists (i - 1); split; [done|lia]].
    destruct Hs as [hd Ehd]. split; [done|]. exists hd. split; [done|]. by apply Phd. }
  rewrite Fin, Fhd. cbn [in_fusion is_fusion_head fusion_size fusion_head fusion_next]. rewrite aset_ok by lia. cbn [rbind].
  match goal with |- context [<[Z.to_nat (i - 1) := ?x]> us] => set (p' := x) end.
  assert (cells_ok ds (<[Z.to_nat (i - 1) := p']> us)) as Hc1.
  { apply (cells_insert _ _ _ _ p); [done|done|done|]. split; simpl; [done|]. intros ? [= <-]. done. }
  pose proof (cells_length _ _ Hc1) as Hlen1. rewrite aset_ok by lia. cbn [rbind].
  match goal with |- context [<[Z.to_nat i := ?x]> _] => set (u' := x) end.
  assert (cells_ok ds (<[Z.to_nat i := u']> (<[Z.to_nat (i - 1) := p']> us))) as Hc2.
  { apply (cells_insert _ _ _ _ u); [done| |done|]; [by rewrite list_lookup_insert_ne by lia|]. split; simpl; [done|]. intros ? [= <-]. done. }
  pose proof (cells_length _ _ Hc2) as Hlen2. unfold deref. cbn [of_option rbind].
  destruct (aget_ok (<[Z.to_nat i := u']> (<[Z.to_nat (i - 1) := p']> us)) hd) as (h & Eh & ->); [lia|]. cbn [rbind]. rewrite aset_ok by lia. cbn [wp].
  apply (cells_insert _ _ _ _ h); [done|done|done|]. pose proof (Forall_lookup_1 _ _ _ _ (proj2 Hc2) Eh) as [G1 G2]. by split.
Qed.

(** ** Memory accesses *)

Definition is_mem (d : uop_decode) : bool := is_load d || is_sta d || is_std d.

(** The access of a uop is in the handshake. *)
Definition mem_fits (h : shadow_mopq.handshake) (d : uop_decode) : bool :=
  implb (is_mem d) ((0 <=? mem_op_index d) &&
    match shadow_mopq.mem_buffer h !! Z.to_nat (mem_op_index d) with
    | Some (va, _) => negb (va =? 0) || shadow_mopq.speculative (shadow_mopq.flags h)
    | None => false
    end).

Definition translatable (m : memory.t) (asid : Z) : Prop := memory.mem_ok m ∧ (memory.in_range m asid ∨ asid = memory.DO_NOT_TRANSLATE).

Lemma fill_mem_ok m f h u : translatable m (asid f) → mem_fits h (dec u) = true →
  wp (fill_mem m f (shadow_mopq.speculative (shadow_mopq.flags h)) h u) (λ u', dec u' = dec u).
Proof.
  intros [Hm Ha] Hf. unfold fill_mem, mem_fits, is_mem in *. cbv zeta. destruct (is_load _ || _ || _); [|done]. cbn [implb] in Hf.
  apply andb_true_iff in Hf as [Hi Hf]. destruct (_ !! _) as [[va sz]|] eqn:E; [|done]. rewrite bool_decide_false by (intros E'; by rewrite E' in E).
  cbn [negb guard_or rbind]. pose proof (lookup_lt_Some _ _ _ E). apply Z.leb_le in Hi. rewrite (proj2 (Z.leb_le _ _)), (proj2 (Z.ltb_lt _ _)) by lia.
  cbn [andb guard_or rbind]. rewrite (aget_lookup _ _ _ Hi E). cbn [rbind]. rewrite Hf. cbn [guard_or rbind].
  destruct (v2p_ok m (asid f) va Hm Ha) as [pa ->]. done.
Qed.

(** ** The macro-op *)

(** The instruction fits its handshake: the conditions that the decoder and the feeder
    keep. *)
Definition fits (h : shadow_mopq.handshake) (d : inst) : bool :=
  (1 <=? Z.of_nat (length (i_flow d))) && (Z.of_nat (length (i_flow d)) <=? 64) &&
  forallb (λ u, negb (is_imm u) && (Z.of_nat (length (d_idep u)) =? MAX_IDEPS) && mem_fits h u) (i_flow d) &&
  match i_flow d with u :: _ => negb (matches fusion_mode (fusable u)) | [] => false end &&
  implb (i_nop d) (Z.of_nat (length (i_flow d)) =? 1).

Definition next_PC (h : shadow_mopq.handshake) : Z := if shadow_mopq.brtaken (shadow_mopq.flags h) then shadow_mopq.tpc h else shadow_mopq.npc h.

(** What a macro-op keeps of the handshake and its instruction, and never changes. *)
Record made (d : inst) (h : shadow_mopq.handshake) (m : Mop) : Prop := {
  md_code : code m = shadow_mopq.ins h;
  md_next : NextPC m = next_PC h;
  md_ft : ftPC m = shadow_mopq.npc h;
  md_taken : taken_branch m = shadow_mopq.brtaken (shadow_mopq.flags h);
  md_target : targetPC m = if i_ctrl d then shadow_mopq.tpc h else 0;
  md_trap : is_trap m = i_trap d;
  md_ctrl : is_ctrl_Mop m = i_ctrl d;
  md_flow : flow_length m = Z.of_nat (length (i_flow d))
}.

(** A macro-op that has just been made. *)
Record new_Mop (sm : bool) (sq pc : Z) (m : Mop) : Prop := {
  n_valid : valid m = true;
  n_spec : spec_mode m = sm;
  n_seq : o_seq m = sq;
  n_PC : PC m = pc;
  n_cache : bpred_update m = None
}.

(** The statistics do not touch it. *)
Lemma update_stats_made act sm m us s d h sm' sq pc : made d h m → new_Mop sm' sq pc m →
  made d h (update_stats act sm m us s).1 ∧ new_Mop sm' sq pc (update_stats act sm m us s).1.
Proof.
  intros Hm Hn. unfold update_stats. set (s1 := if CALL m then _ else _). clearbody s1. revert m s1 Hm Hn.
  induction us as [|u us IH]; intros m s1 Hm Hn; cbn [fold_left]; [done|].
  assert (made d h (uop_stats act sm u (m, s1)).1 ∧ new_Mop sm' sq pc (uop_stats act sm u (m, s1)).1) as [Hm1 Hn1].
  { unfold uop_stats. destruct (is_imm (dec u)); [done|]. destruct Hm, Hn. split; by split. }
  destruct (uop_stats act sm u (m, s1)) as [m1 s2]. by apply IH.
Qed.

Lemma make_Mop_ok mem f h sq pc s d : decode (shadow_mopq.ins h) = Ok d → fits h d = true → translatable mem (asid f) →
  let sm := shadow_mopq.speculative (shadow_mopq.flags h) in
  wp (make_Mop decode fusion_mode mem f sm sq pc h s) (λ '(m, us, _), made d h m ∧ new_Mop sm sq pc m ∧ dec <$> us = i_flow d).
Proof.
  intros Hd Hfit Ht sm. unfold make_Mop. rewrite Hd. cbn [rbind]. cbv zeta. unfold fits in Hfit.
  apply andb_true_iff in Hfit as [Hfit Hnop]. apply andb_true_iff in Hfit as [Hfit H0]. apply andb_true_iff in Hfit as [Hfit Hall].
  apply andb_true_iff in Hfit as [Hn1 Hn2]. apply Z.leb_le in Hn1, Hn2. set (ds := i_flow d) in *. set (n := Z.of_nat (length ds)) in *.
  rewrite (proj2 (Z.ltb_lt 0 n)), (proj2 (Z.leb_le n 64)) by lia. cbn [andb guard_or rbind].
  apply wp_bind, (wp_for_range (λ _, cells_ok ds)); [lia| | |].
  { split; [apply list_eq; intros i; rewrite list_lookup_fmap, list_lookup_imap; by destruct (ds !! i)|]. apply list.Forall_forall.
    intros u (i & x & -> & _)%elem_of_lookup_imap_1. by split. }
  { intros i us Hi Hc. apply fuse_ok; [done|done|]. intros u _ Eu. destruct ds as [|u0 ds']; [done|]. injection Eu as ->. by apply negb_true_iff in H0. }
  intros us [Ed _]. assert (Z.of_nat (length us) = n) as En by (rewrite <- (length_fmap dec us), Ed; done).
  eapply wp_bind, wp_mono; [apply (amodify_dec us 0); [lia|done]|]. intros us1 [Ed1 El1].
  apply wp_bind, (wp_for_range (λ _ us', dec <$> us' = ds)); [lia|by rewrite Ed1| |].
  { intros i us2 Hi Ed2. assert (Z.of_nat (length us2) = n) as En2 by (rewrite <- (length_fmap dec us2), Ed2; done).
    destruct (aget_ok us2 i) as (u & Eu & ->); [lia|]. cbn [rbind]. eapply wp_bind, wp_mono; [apply fill_mem_ok; [done|]|].
    - rewrite forallb_forall in Hall. assert (In (dec u) ds) as Hin.
      { apply list_elem_of_In. rewrite <- Ed2. apply list_elem_of_fmap. exists u. split; [done|]. by eapply list_elem_of_lookup_2. }
      specialize (Hall _ Hin). by apply andb_true_iff in Hall as [_ ?].
    - intros u' Eu'. rewrite aset_ok by lia. cbn [wp]. by rewrite (dec_insert _ _ _ u). }
  intros us3 Ed3. assert (Z.of_nat (length us3) = n) as En3 by (rewrite <- (length_fmap dec us3), Ed3; done).
  eapply wp_bind, wp_mono; [apply (amodify_dec us3 (n - 1)); [lia|done]|]. intros us4 [Ed4 El4].
  apply wp_bind. eapply (wp_mono _ (λ us5, dec <$> us5 = ds)).
  { destruct (i_nop d && _ && _) eqn:Em; [|by cbn [wp]; rewrite Ed4]. apply andb_true_iff in Em as [Em _]. apply andb_true_iff in Em as [Em _].
    rewrite Em in Hnop. apply Z.eqb_eq in Hnop. rewrite (proj2 (Z.eqb_eq _ _)) by lia. cbn [guard_or rbind].
    eapply wp_mono; [apply (amodify_dec us4 0); [lia|done]|]. intros us5 [-> _]. by rewrite Ed4. }
  intros us5 Ed5. set (m0 := mk_Mop _ _ _ _ _ _ _ _ _ _ _ _ _ _ _ _ _ _ _ _ _ _ _ _).
  destruct (update_stats_made (active f) sm m0 us5 s d h sm sq pc) as [H1 H2]; [done..|].
  destruct (update_stats _ _ _ _ _) as [m st]. done.
Qed.

End make.
End oracle_make.

Module oracle_steps.
Import oracle_deps oracle oracle_inv.

(** ** New uops *)

Definition regs_for (sq : Z) (d : uop_decode) : regs := mk_regs sq (d_idep d) (d_odep d).

(** The registers of the uops of slot [i] from index [lo] on, if [p] is one of them. *)
Definition fresh_regs (i lo sq : Z) (ds : list uop_decode) (p : ptr) : option regs :=
  if decide (p.1 = i ∧ lo ≤ p.2) then regs_for sq <$> ds !! Z.to_nat (p.2 - lo) else None.

Lemma fresh_regs_cons i lo sq d ds p : fresh_regs i lo sq (d :: ds) p = if decide (p = (i, lo)) then Some (regs_for sq d) else fresh_regs i (lo + 1) sq ds p.
Proof.
  unfold fresh_regs. destruct p as [a k]. cbn [fst snd]. destruct (decide ((a, k) = (i, lo))) as [[= -> ->]|Hne].
  - rewrite (decide_True (P := i = i ∧ lo ≤ lo)), (decide_True (P := (i, lo) = (i, lo))) by (done || lia). by rewrite Z.sub_diag.
  - destruct (decide (a = i ∧ lo ≤ k)) as [[-> Hk]|H1]; destruct (decide (_ ∧ lo + 1 ≤ k)) as [[? Hk']|H2]; rewrite ?(decide_False (P := (_, k) = (i, lo))) by done; try done; [| |].
    + by replace (Z.to_nat (k - lo)) with (S (Z.to_nat (k - (lo + 1)))) by lia.
    + exfalso. apply Hne. f_equal. destruct (decide (k = lo)); [done|]. exfalso. apply H2. split; [done|lia].
    + exfalso. apply H1. lia.
Qed.

Lemma alloc_uops_ok live i lo sq ds g : graph_ok live g → (∀ k, ((i, k) ∉ live) ∧ (lo ≤ k → links_of g !! (i, k) = None)) →
  let g' := alloc_uops i lo sq ds g in
  graph_ok live g' ∧ (∀ p, is_Some (links_of g' !! p) ↔ is_Some (links_of g !! p) ∨ is_Some (fresh_regs i lo sq ds p)) ∧
  ∀ p, regs_of g' !! p = match fresh_regs i lo sq ds p with Some u => Some u | None => regs_of g !! p end.
Proof.
  revert lo g. induction ds as [|d ds IH]; intros lo g Hg Hk g'; subst g'; cbn [alloc_uops].
  { split; [done|]. unfold fresh_regs. split; intros p; case_decide; simpl; try done; split; try tauto; by intros [?|[? ?]]. }
  destruct (Hk lo) as [Hn Hl]. specialize (Hl ltac:(lia)). set (g1 := alloc_uop g (i, lo) _).
  destruct (IH (lo + 1) g1) as (H1 & H2 & H3); [by apply alloc_ok| |].
  { intros k. destruct (Hk k) as [? Hlk]. split; [done|]. intros Hkl. simpl. rewrite lookup_insert_ne; [apply Hlk; lia|]. intros [= E]. lia. }
  split; [done|]. split; intros p.
  - rewrite H2, fresh_regs_cons. simpl. destruct (decide (p = (i, lo))) as [->|Hne].
    + rewrite lookup_insert_eq. split; [intros _; right; eauto|]. intros _. left. eauto.
    + by rewrite lookup_insert_ne by done.
  - rewrite H3, fresh_regs_cons. simpl. destruct (decide (p = (i, lo))) as [->|Hne]; [|by rewrite lookup_insert_ne by done].
    unfold fresh_regs. simpl. rewrite decide_False by lia. by rewrite lookup_insert_eq.
Qed.

Lemma install_ok live i n g sq : 0 ≤ n → graph_ok live g → (∀ k, (i, k) ∉ live) →
  (∀ k, 0 ≤ k < n → is_Some (links_of g !! (i, k)) ∧ ∃ u, regs_of g !! (i, k) = Some u ∧ seq u = sq ∧ length (idep_name u) = Z.to_nat MAX_IDEPS) →
  (∀ p u, p ∈ live → regs_of g !! p = Some u → seq u ≤ sq) →
  wp (install i n g) (λ g', graph_ok (live ++ ptrs i n) g' ∧ same_uops g g').
Proof.
  intros Hn Hg Hl Hk Hs. unfold install. eapply (wp_for_range (λ k g', graph_ok (live ++ ptrs i k) g' ∧ same_uops g g')); [lia| | |by intros g' Hg'].
  - change (ptrs i 0) with (@nil ptr). rewrite app_nil_r. split; [done|apply same_uops_refl].
  - intros k g' Hkn [Hg' Hu]. pose proof Hu as [Er Hd]. destruct (Hk k Hkn) as (Hlk & u & Eu & Es & El). rewrite ptrs_snoc, app_assoc by lia.
    eapply wp_mono; [apply (enter_ok (live ++ ptrs i k) g' (i, k) u); [done| |by rewrite Er|done|by apply Hd|]|].
    + rewrite elem_of_app, elem_of_ptrs. simpl. intros [Hin|[_ ?]]; [by apply Hl in Hin|lia].
    + intros p v Hin. rewrite Er, Es. apply elem_of_app in Hin as [Hin|Hin]; [by apply Hs|]. apply elem_of_ptrs in Hin as [E1 E2].
      destruct p as [a b]. simpl in *. subst a. destruct (Hk b ltac:(lia)) as (_ & u' & Eu' & Es' & _). intros E3. enough (Some v = Some u') as [= ->] by lia. rewrite <- Eu'. by symmetry.
    + intros g2 [H1 H2]. split; [done|]. by eapply same_uops_trans.
Qed.

(** ** A macro-op joins the MopQ *)

(** The uops of a macro-op that is about to join. *)
Record joins (o : t) (m : Mop) (us : list uop) : Prop := {
  j_uops : uops m = Some us;
  j_flow : flow_length m = Z.of_nat (length us) ∧ 1 ≤ flow_length m ≤ 64;
  j_seq : o_seq m = Mop_seq o;
  j_body : Forall (λ u, is_imm (dec u) = false ∧ length (d_idep (dec u)) = Z.to_nat MAX_IDEPS) us
}.

Lemma heap_enter o c ms m us : heap_ok o c ms (MopQ_num (q o)) [] → MopQ_num (q o) < MopQ_size (q o) → (c ≤ length (flow_of o 0 ms))%nat → joins o m us →
  wp (install (MopQ_tail (q o)) (flow_length m) (alloc_uops (MopQ_tail (q o)) 0 (Mop_seq o) (dec <$> us) (deps o))) (λ g,
    ∀ s cur dr sh cons f st, let l := <[Z.to_nat (MopQ_tail (q o)) := m]> (MopQ (q o)) in
      heap_ok (mk s (Mop_seq o + 1) (enqueued l s (q o)) cur dr sh g cons f st) c (ms ++ [m]) (MopQ_num (q o) + 1) []).
Proof.
  intros H Hroom Hc [Eu [El Hfl] Es Hus]. pose proof (mops_length _ _ _ _ _ H) as Hlen. pose proof (λ i j, pos_inj o i j c ms _ [] H) as Hinj.
  pose proof H as [Hr Hms _ Hpos Hbody Hg Hnodes Hregs _ Hseq]. pose proof Hr as [Hs Hl Hnum Hh Ht]. set (i := MopQ_tail (q o)) in *.
  assert (i = pos o (Z.of_nat (length ms))) as Ei by (rewrite Hlen; done).
  assert (∀ p, p ∈ flow_of o 0 ms → p.1 ≠ i) as Hfar.
  { intros p (k & x & Ek & E & _)%elem_of_flow. rewrite E, Ei. intros E'. apply lookup_lt_Some in Ek. assert (Z.of_nat k = Z.of_nat (length ms)); [|lia].
    apply Hinj; [lia|lia|]. done. }
  assert (∀ k, (i, k) ∉ drop c (flow_of o 0 ms)) as Hfresh by (by intros k Hin%(subseteq_drop c)%Hfar).
  destruct (alloc_uops_ok (drop c (flow_of o 0 ms)) i 0 (Mop_seq o) (dec <$> us) (deps o) Hg) as (Hg1 & Hd1 & Hr1).
  { intros k. split; [done|]. intros Hk. apply eq_None_not_Some. rewrite Hnodes, app_nil_r. by intros Hin%Hfar. }
  set (g1 := alloc_uops _ _ _ _ _) in *.
  assert (∀ k u, us !! k = Some u → fresh_regs i 0 (Mop_seq o) (dec <$> us) (i, Z.of_nat k) = Some (regs_for (Mop_seq o) (dec u))) as Hnew.
  { intros k u Ek. unfold fresh_regs. simpl. rewrite decide_True by lia. rewrite Z.sub_0_r, Nat2Z.id, list_lookup_fmap, Ek. done. }
  assert (∀ p, is_Some (fresh_regs i 0 (Mop_seq o) (dec <$> us) p) ↔ p ∈ ptrs i (flow_length m)) as Hdom.
  { intros [a k]. rewrite elem_of_ptrs. unfold fresh_regs. simpl. rewrite El. case_decide as E.
    - destruct E as [-> Hk]. rewrite Z.sub_0_r, fmap_is_Some, lookup_lt_is_Some, length_fmap. lia.
    - split; [by intros [? ?]|]. intros [-> ?]. exfalso. apply E. lia. }
  eapply wp_mono; [apply (install_ok (drop c (flow_of o 0 ms)) i (flow_length m) g1 (Mop_seq o)); [lia|done|done| |]|].
  - intros k Hk. destruct (lookup_lt_is_Some_2 us (Z.to_nat k)) as [u Ek]; [lia|]. pose proof (Hnew _ _ Ek) as E. rewrite Z2Nat.id in E by lia. split.
    + apply Hd1. right. by rewrite E.
    + eexists. rewrite Hr1, E. split_and!; [done|done|]. simpl. by apply (Forall_lookup_1 _ _ _ _ Hus Ek).
  - intros p u Hin. rewrite Hr1. destruct (fresh_regs _ _ _ _ p) eqn:E.
    + assert (is_Some (fresh_regs i 0 (Mop_seq o) (dec <$> us) p)) as Hp by (by rewrite E). apply Hdom, elem_of_ptrs in Hp as [Hp _].
      apply (subseteq_drop c), Hfar in Hin. done.
    + intros Eu'. apply Hseq in Eu'. lia.
  - intros g [Hg2 [Er2 Hd2]] s cur dr sh cons f st l. subst l. destruct (ring.window_push _ _ _ _ _ m Hr Hroom) as [Hrp Hwp].
    assert (flow (MopQ_size (q o)) (MopQ_head (q o)) 0 (ms ++ [m]) = flow_of o 0 ms ++ ptrs i (flow_length m)) as Eflow by (rewrite flow_snoc, Ei; done).
    split; simpl.
    + destruct Hrp. by split.
    + unfold mops. simpl. rewrite Hwp. unfold mops in Hms. by rewrite Hms.
    + done.
    + lia.
    + rewrite app_nil_r in *. apply list.Forall_app. split; [done|]. apply (list.Forall_singleton body_ok). split; [lia|]. exists us. split_and!; [done|lia|].
      eapply list.Forall_impl; [exact Hus|]. by intros u [? _].
    + unfold flow_of at 1. simpl. rewrite Eflow, drop_app_le by done. done.
    + intros p. rewrite Hd2, Hd1, Hnodes, Hdom, !app_nil_r. unfold flow_of at 2. simpl. by rewrite Eflow, elem_of_app.
    + intros k x Ek us' k' u Eu' Ek'. unfold pos. simpl. fold (pos o (Z.of_nat k)). rewrite Er2, Hr1.
      apply lookup_app_Some in Ek as [Ek|[Hk Ek]].
      * assert (¬ is_Some (fresh_regs i 0 (Mop_seq o) (dec <$> us) (pos o (Z.of_nat k), Z.of_nat k'))) as Hno%eq_None_not_Some.
        { rewrite Hdom, elem_of_ptrs. simpl. intros [E _]. rewrite Ei in E. apply lookup_lt_Some in Ek. apply Hinj in E; lia. }
        rewrite Hno. by apply (Hregs k x Ek us').
      * apply list_lookup_singleton_Some in Ek as [Hk0 <-]. rewrite Eu in Eu'. injection Eu' as <-.
        replace (pos o (Z.of_nat k)) with i by (rewrite Ei; f_equal; lia). rewrite (Hnew _ _ Ek'), Es. done.
    + done.
    + intros p u. rewrite Er2, Hr1. destruct (fresh_regs _ _ _ _ p) as [u'|] eqn:E.
      * intros [= <-]. unfold fresh_regs in E. case_decide; [|done]. apply fmap_Some in E as (d & _ & ->). simpl. lia.
      * intros Eu'. apply Hseq in Eu'. lia.
Qed.

(** ** Uops commit in order *)

(** The heap with another graph of the same uops. *)
Lemma heap_regraph o c c' ms g : heap_ok o c ms (MopQ_num (q o)) [] → graph_ok (drop c' (flow_of o 0 ms)) g → same_uops (deps o) g →
  heap_ok (with_deps g o) c' ms (MopQ_num (q o)) [].
Proof.
  intros [Hr Hms Hds Hpos Hbody _ Hnodes Hregs _ Hseq] Hg [Er Hd]. split; simpl; try done.
  - intros p. by rewrite Hd.
  - intros k m Ek. by apply (regs_match_ext (deps o)), (Hregs k).
  - intros p u. rewrite Er. apply Hseq.
Qed.

Section commit.
Context {E : Type} `{PipeLaws E}.

Lemma commit_uop_ok o e T c ms p : heap_ok o c ms (MopQ_num (q o)) [] → env_ok T e → flow_of o 0 ms !! c = Some p →
  wp (commit_uop o e p) (λ '(o', e'), heap_ok o' (S c) ms (MopQ_num (q o')) [] ∧ env_ok T e' ∧ ∃ g, o' = with_deps g o).
Proof.
  intros Hh He Ep. unfold commit_uop. eapply wp_bind, wp_mono; [by apply release_law|]. intros e1 He1.
  pose proof (hp_graph _ _ _ _ _ Hh) as Hg. rewrite (drop_S _ _ _ Ep) in Hg. apply commit_ok in Hg. apply wp_bind_inv in Hg.
  apply wp_bind. eapply wp_mono; [exact Hg|]. intros g1 Hg1. apply wp_bind. eapply wp_mono; [exact Hg1|]. intros g2 [H1 H2]. cbn [wp].
  split; [by apply (heap_regraph o c (S c) ms g2)|]. split; [done|by exists g2].
Qed.

End commit.

(** ** The oldest macro-op leaves *)

Lemma heap_pop o m ms nst sn : heap_ok o (Z.to_nat (flow_length m)) (m :: ms) (MopQ_num (q o)) [] →
  let m' := with_valid false m in
  let l := <[Z.to_nat (MopQ_head (q o)) := m']> (MopQ (q o)) in
  let o' := with_q (mk_queue l (modinc (MopQ_head (q o)) (MopQ_size (q o))) (MopQ_tail (q o)) nst (MopQ_num (q o) - 1) (MopQ_size (q o)) sn) o in
  heap_ok o' 0 ms (MopQ_size (q o) - 1) [m'] ∧ pos o' (MopQ_size (q o) - 1) = MopQ_head (q o).
Proof.
  intros H m' l o'. pose proof (mops_length _ _ _ _ _ H) as Hlen. simpl in Hlen. pose proof (λ i j, pos_inj o i j _ _ _ _ H) as Hinj.
  pose proof H as [Hr Hms _ _ Hbody Hg Hnodes Hregs _ Hseq]. pose proof Hr as [Hs Hl Hnum Hh Ht].
  assert (MopQ_head (q o) = pos o 0) as E0 by (unfold pos; by rewrite ring.slot_0).
  assert (∀ j, pos o' j = pos o (j + 1)) as Epos by (intros j; unfold pos; simpl; by rewrite ring.slot_shift).
  assert (pos o (MopQ_size (q o)) = MopQ_head (q o)) as Efull by (unfold pos; by rewrite ring.slot_full).
  assert (∀ j, 0 < j < MopQ_size (q o) → l !! Z.to_nat (pos o j) = MopQ (q o) !! Z.to_nat (pos o j)) as Hne.
  { intros j Hj. unfold l. apply list_lookup_insert_ne. intros E. assert (0 = j); [|lia]. apply Hinj; [lia|lia|]. rewrite <- E0.
    pose proof (ring.slot_in_range _ (MopQ_head (q o)) Hs j). unfold pos in *. lia. }
  destruct (ring.window_pop _ _ _ _ _ Hr ltac:(lia)) as [Hr1 (x & Gx & Ew)]. unfold mops in Hms. rewrite Ew in Hms. injection Hms as -> Ems.
  assert (∀ j ms, flow_of o' j ms = flow_of o (j + 1) ms) as Eflow by (intros j ms'; unfold flow_of; simpl; by rewrite flow_shift).
  assert (flow_of o 0 (m :: ms) = ptrs (MopQ_head (q o)) (flow_length m) ++ flow_of o 1 ms) as Eall by (unfold flow_of; simpl; by rewrite ring.slot_0).
  apply list.Forall_app in Hbody as [Hbody _]. apply list.Forall_cons in Hbody as [Hbm Hbms]. pose proof (b_flow _ Hbm) as Hfl.
  pose proof (ptrs_length (MopQ_head (q o)) (flow_length m) ltac:(lia)) as Hpl.
  split; [|rewrite Epos, <- Efull; f_equal; lia]. split; simpl.
  - destruct Hr1. split; simpl; try done. unfold l. by rewrite length_insert.
  - unfold mops. simpl. rewrite <- Ems. apply ring.window_ext. intros j Hj. rewrite !ring.slot_shift by done. fold (pos o (j + 1)). apply Hne. lia.
  - intros [|k] d Ek; [|done]. injection Ek as <-. rewrite Z.add_0_r, Epos. replace (MopQ_size (q o) - 1 + 1) with (MopQ_size (q o)) by lia. rewrite Efull.
    apply aget_lookup; [lia|]. apply list_lookup_insert_eq. lia.
  - simpl. lia.
  - apply list.Forall_app. split; [done|]. apply (list.Forall_singleton body_ok). destruct Hbm. by split.
  - rewrite Eflow. rewrite Eall in Hg. rewrite drop_app_ge in Hg by lia. revert Hg.
    replace (Z.to_nat (flow_length m) - length (ptrs (MopQ_head (q o)) (flow_length m)))%nat with 0%nat by lia. done.
  - intros p. rewrite Hnodes, app_nil_r, Eall, !Eflow, ring.slot_shift, app_nil_r, Z.add_0_l by done.
    replace (MopQ_size (q o) - 1 + 1) with (MopQ_size (q o)) by lia. rewrite ring.slot_full, !elem_of_app by done. tauto.
  - intros k y Ek. rewrite Epos. replace (Z.of_nat k + 1) with (Z.of_nat (S k)) by lia. by apply (Hregs (S k) y).
  - intros [|k] d Ek; [|done]. injection Ek as <-. rewrite Z.add_0_r, Epos. replace (MopQ_size (q o) - 1 + 1) with (MopQ_size (q o)) by lia. rewrite Efull, E0.
    by apply (Hregs 0%nat m).
  - done.
Qed.

End oracle_steps.
