(* ===== verification/OracleOrder.v ===== *)
(** * OracleOrder: the order of the macro-ops in flight

    The invariant of the oracle: the macro-ops on the right path come before those on a
    wrong one, the first ones are those of the first handshakes of the shadow MopQ, a trap
    is the youngest macro-op, and the heap of uops is that of OracleInv.  Every operation
    of zesto-oracle.cpp, called as the pipeline calls it, preserves it. *)

From S2P Require Import Prelude Misc Memory Buffer ShadowMopQ OracleDeps Oracle OracleInv OracleSteps.

Module oracle_order.
Import oracle_deps oracle oracle_inv oracle_make oracle_steps.

Section order.
Context {E : Type} `{PipeLaws E} (decode : list Z → result inst) (fusion_mode : fusion_flags) (mem : Z → memory.t).

Definition asid_ok (a : Z) : Prop := ∀ n, translatable (mem n) a.

(** A handshake whose instruction can be decoded and fits it. *)
Definition good (h : shadow_mopq.handshake) : Prop :=
  shadow_mopq.valid (shadow_mopq.flags h) = true ∧ asid_ok (shadow_mopq.h_asid h) ∧
  ∃ d, decode (shadow_mopq.ins h) = Ok d ∧ fits fusion_mode h d = true.

(** The macro-op that a handshake became. *)
Definition from (h : shadow_mopq.handshake) (m : Mop) : Prop := ∃ d, decode (shadow_mopq.ins h) = Ok d ∧ made d h m.

Definition shadows (o : t) : list shadow_mopq.shadow_Mop := shadow_mopq.entries (shadow_MopQ o).

(** [ms] are in flight, the first [n] of them on the right path; [c] uops of the oldest one
    have committed. *)
Record ordered (o : t) (e : E) (c : nat) (ms : list Mop) (n : nat) : Prop := {
  r_heap : heap_ok o c ms (MopQ_num (q o)) [];
  r_c : (c ≤ length (flow_of o 0 (take 1 ms)))%nat;
  r_pow : ∃ k, 0 ≤ k < 30 ∧ MopQ_size (q o) = 2 ^ k;
  r_shadow : shadow_mopq.ok (shadow_MopQ o) ∧ shadow_mopq.capacity (shadow_MopQ o) = MopQ_size (q o);
  r_sides j m : ms !! j = Some m → spec_mode m = bool_decide (n ≤ j)%nat ∧ valid m = true;
  r_n : (n ≤ length ms)%nat ∧ (n = 0%nat → ms = []);
  r_num : MopQ_spec_num (q o) = Z.of_nat (length ms) - Z.of_nat n;
  r_tail : MopQ_non_spec_tail (q o) = pos o (Z.of_nat n);
  r_mode : spec o = bool_decide (n < length ms)%nat;
  r_sync j m : (j < n)%nat → ms !! j = Some m → ∃ x, shadows o !! j = Some x ∧ from (shadow_mopq.Mop x) m;
  r_depth x : (0 < n)%nat → shadows o !! (n - 1)%nat = Some x → (length ms ≤ n + length (shadow_mopq.speculated x))%nat;
  r_current : current_Mop o = None ∨
    ∃ ms' m, ms = ms' ++ [m] ∧ current_Mop o = Some (pos o (Z.of_nat (length ms'))) ∧ bpred_update m = None;
  r_trap j m : ms !! j = Some m → is_trap m = true → S j = length ms ∧ (drain_pipeline o = true ∨ current_Mop o ≠ None);
  r_drain : drain_pipeline o = true → current_Mop o = None ∧ ∃ ms' m, ms = ms' ++ [m] ∧ is_trap m = true;
  r_good : Forall (λ x, good (shadow_mopq.Mop x) ∧ Forall good (shadow_mopq.speculated x)) (shadows o);
  r_asid : asid_ok (asid (fr o));
  r_env : env_ok (caches ms) e
}.

Lemma ordered_length o e c ms n : ordered o e c ms n → Z.of_nat (length ms) = MopQ_num (q o).
Proof. intros Ho. by eapply mops_length, r_heap. Qed.

Lemma flow_take o ms j : (length (flow_of o 0 (take 1 ms)) ≤ length (flow_of o j ms))%nat.
Proof.
  destruct ms as [|m ms]; [simpl; lia|]. unfold flow_of. simpl. rewrite !length_app. simpl. unfold ptrs. rewrite !length_fmap. lia.
Qed.

(** ** A new prediction in a macro-op *)

(** Field [bpred_update] of a macro-op changes, the rest stays. *)
Definition repredict (j : nat) (b : option Z) (npc : Z) (m : Mop) (o : t) : t :=
  with_q (with_MopQ (slot_set (pos o (Z.of_nat j)) (with_bpred b npc m) o) (q o)) o.

Lemma heap_repredict o c ms j m b npc : heap_ok o c ms (MopQ_num (q o)) [] → ms !! j = Some m →
  heap_ok (repredict j b npc m o) c (<[j := with_bpred b npc m]> ms) (MopQ_num (q o)) [].
Proof.
  intros Hh Ej. pose proof (mops_length _ _ _ _ _ Hh) as Hlen. pose proof (lookup_lt_Some _ _ _ Ej) as Hj. pose proof (λ i k, pos_inj o i k _ _ _ _ Hh) as Hinj.
  pose proof Hh as [Hr Hms _ Hpos Hbody Hg Hnodes Hregs _ Hseq].
  destruct (ring.window_insert _ _ _ _ _ (Z.of_nat j) (with_bpred b npc m) Hr) as [Hr' Hw]; [lia|]. rewrite Nat2Z.id in Hw.
  assert (∀ i, flow_of o i (<[j := with_bpred b npc m]> ms) = flow_of o i ms) as Eflow.
  { intros i. unfold flow_of. apply flow_length_ext. apply Forall2_same_length_lookup. split; [by rewrite length_insert|]. intros k x y Ex Ey.
    destruct (decide (j = k)) as [<-|Hne]; [rewrite list_lookup_insert_eq in Ex by done; injection Ex as <-; rewrite Ej in Ey; by injection Ey as <-|].
    rewrite list_lookup_insert_ne in Ex by done. congruence. }
  rewrite app_nil_r in Hbody. split; simpl; try done.
  - unfold mops. simpl. unfold slot_set, pos. rewrite Hw. unfold mops in Hms. by rewrite Hms.
  - rewrite app_nil_r. apply Forall_insert; [done|]. destruct (Forall_lookup_1 _ _ _ _ Hbody Ej). by split.
  - change (flow_of (repredict j b npc m o)) with (flow_of o). by rewrite Eflow.
  - intros p. change (flow_of (repredict j b npc m o)) with (flow_of o). by rewrite Eflow.
  - intros k x Ex. change (pos (repredict j b npc m o)) with (pos o). destruct (decide (j = k)) as [<-|Hne].
    + rewrite list_lookup_insert_eq in Ex by done. injection Ex as <-. exact (Hregs j m Ej).
    + rewrite list_lookup_insert_ne in Ex by done. by apply Hregs.
Qed.

Lemma caches_insert ms j m b npc : ms !! j = Some m →
  caches (<[j := with_bpred b npc m]> ms) ≡ₚ from_option (λ x, [x]) [] b ++ caches (<[j := with_bpred None npc m]> ms).
Proof.
  intros Ej. pose proof (lookup_lt_Some _ _ _ Ej). rewrite !insert_take_drop by done. rewrite !caches_app. unfold caches. simpl.
  destruct b as [x|]; simpl; [|done]. by rewrite Permutation_middle.
Qed.

Lemma caches_without ms j m npc : ms !! j = Some m → caches ms ≡ₚ from_option (λ x, [x]) [] (bpred_update m) ++ caches (<[j := with_bpred None npc m]> ms).
Proof.
  intros Ej. pose proof (lookup_lt_Some _ _ _ Ej). assert (<[j := with_bpred (bpred_update m) (pred_NPC m) m]> ms = ms) as Em.
  { rewrite <- (list_insert_id ms j m Ej) at 2. f_equal. by destruct m. }
  rewrite <- Em at 1. rewrite (caches_insert ms j m) by done. f_equiv. rewrite !insert_take_drop by done. by rewrite !caches_app.
Qed.

Lemma ordered_repredict o e e' c ms n j m b npc : ordered o e c ms n → ms !! j = Some m → (current_Mop o = None ∨ b = None ∨ (S j < length ms)%nat) →
  env_ok (caches (<[j := with_bpred b npc m]> ms)) e' → ordered (repredict j b npc m o) e' c (<[j := with_bpred b npc m]> ms) n.
Proof.
  intros Ho Ej Hcur He. set (m' := with_bpred b npc m) in *. pose proof (lookup_lt_Some _ _ _ Ej) as Hj. pose proof Ho as [Hh Hc Hp Hs Hsd Hn Hnum Htl Hmd Hsy Hd Hcu Htr Hdr Hgd Has Hen].
  assert (∀ k x, <[j := m']> ms !! k = Some x → ∃ y, ms !! k = Some y ∧ spec_mode x = spec_mode y ∧ valid x = valid y ∧ is_trap x = is_trap y ∧ (∀ h, from h y → from h x)) as Hlk.
  { intros k x Ex. destruct (decide (j = k)) as [<-|Hne]; [|rewrite list_lookup_insert_ne in Ex by done; by exists x].
    rewrite list_lookup_insert_eq in Ex by done. injection Ex as <-. exists m. split_and!; try done. intros h (d & Ed & []). exists d. split; [done|]. by split. }
  assert (flow_of o 0 (take 1 (<[j := m']> ms)) = flow_of o 0 (take 1 ms)) as Ef.
  { destruct j as [|j], ms as [|m0 ms]; try done. simpl in Ej. injection Ej as ->. done. }
  split; rewrite ?length_insert; try done.
  - exact (heap_repredict o c ms j m b npc Hh Ej).
  - change (flow_of (repredict j b npc m o)) with (flow_of o). by rewrite Ef.
  - intros k x Ex. destruct (Hlk k x Ex) as (y & Ey & -> & -> & _). by apply Hsd.
  - split; [apply Hn|]. intros E0. apply Hn in E0. by rewrite E0.
  - intros k x Hk Ex. destruct (Hlk k x Ex) as (y & Ey & _ & _ & _ & Hf). destruct (Hsy k y Hk Ey) as (s & Es & Hfr). exists s. split; [done|]. by apply Hf.
  - destruct Hcu as [|(ms' & m1 & -> & Ec & Eb)]; [by left|]. destruct Hcur as [Hcur|Hcur]; [by left|]. right. rewrite length_app in Hj, Hcur. simpl in Hj, Hcur.
    destruct (decide (j < length ms')%nat) as [Hlt|Hge].
    + rewrite insert_app_l by done. exists (<[j := m']> ms'), m1. by rewrite length_insert.
    + destruct Hcur as [-> |]; [|lia]. rewrite insert_app_r_alt by lia. replace (j - length ms')%nat with 0%nat by lia. exists ms', m'. done.
  - intros k x Ex Et. destruct (Hlk k x Ex) as (y & Ey & _ & _ & E2 & _). rewrite E2 in Et. by apply (Htr k y).
  - intros Hd1. destruct (Hdr Hd1) as (H1 & ms' & m1 & -> & Et). split; [done|]. rewrite length_app in Hj. simpl in Hj.
    destruct (decide (j < length ms')%nat) as [Hlt|Hge].
    + rewrite insert_app_l by done. by exists (<[j := m']> ms'), m1.
    + rewrite insert_app_r_alt by lia. replace (j - length ms')%nat with 0%nat by lia. exists ms', m'. split; [done|].
      rewrite lookup_app_r in Ej by lia. replace (j - length ms')%nat with 0%nat in Ej by lia. by injection Ej as ->.
Qed.

(** ** Steps that leave the MopQ alone *)

Lemma heap_ext o o' c ms j ds : q o' = q o → deps o' = deps o → Mop_seq o' = Mop_seq o → heap_ok o c ms j ds → heap_ok o' c ms j ds.
Proof. destruct o, o'. simpl. intros -> -> -> []. by split. Qed.

(** The youngest macro-op has been consumed. *)
Lemma ordered_settle o o' e c ms n : ordered o e c ms n → q o' = q o → deps o' = deps o → Mop_seq o' = Mop_seq o →
  spec o' = spec o → shadow_MopQ o' = shadow_MopQ o → asid (fr o') = asid (fr o) → current_Mop o' = None →
  drain_pipeline o' = from_option is_trap false (list.last ms) → ordered o' e c ms n.
Proof.
  intros Ho Eq Eg Es Esp Esh Ea Ec Ed. assert (∀ j, pos o' j = pos o j) as Epos by (intros j; unfold pos; by rewrite Eq).
  assert (∀ j l, flow_of o' j l = flow_of o j l) as Efl by (intros j l; unfold flow_of; by rewrite Eq).
  destruct Ho as [Hh Hc Hp Hs Hsd Hn Hnum Htl Hmd Hsy Hd Hcu Htr Hdr Hgd Has Hen]. unfold shadows in *.
  split; unfold shadows; rewrite ?Eq, ?Epos, ?Efl, ?Esp, ?Esh, ?Ea, ?Ec; try done.
  - by eapply heap_ext.
  - by left.
  - intros j m Ej Et. destruct (Htr j m Ej Et) as [Hj _]. split; [done|]. left. rewrite Ed, list.last_lookup.
    replace (pred (length ms)) with j by lia. by rewrite Ej.
  - rewrite Ed. intros Hl. split; [done|]. destruct (list.last ms) as [m|] eqn:El; [|done]. apply list.last_Some in El as [ms' ->]. by exists ms', m.
Qed.

Lemma consume_ok o e c ms n i : ordered o e c ms n → current_Mop o = Some i →
  wp (consume o i) (λ o', ordered o' e c ms n ∧ current_Mop o' = None ∧ q o' = q o ∧ fr o' = fr o ∧ shadow_MopQ o' = shadow_MopQ o).
Proof.
  intros Ho Ei. destruct (r_current _ _ _ _ _ Ho) as [E0|(ms' & m & -> & E1 & Hb)]; [by rewrite E0 in Ei|]. rewrite E1 in Ei. injection Ei as <-.
  unfold consume. rewrite bool_decide_true by done. cbn [guard_or rbind]. destruct (last_at _ _ _ _ _ _ (r_heap _ _ _ _ _ Ho)) as [-> _]. cbn [rbind wp].
  split; [|by destruct (is_trap m)]. assert (drain_pipeline o = false) as Ed.
  { destruct (drain_pipeline o) eqn:Ed; [|done]. apply (r_drain _ _ _ _ _ Ho) in Ed as [Ed _]. by rewrite Ed in E1. }
  apply (ordered_settle o); try by destruct (is_trap m). rewrite list.last_snoc. simpl. destruct (is_trap m); [done|]. exact Ed.
Qed.

(** ** Executing the next handshake *)

Hypothesis nop_fits : ∃ d, decode ([15; 31; 0] ++ replicate 12 0) = Ok d ∧ ∀ h, fits fusion_mode h d = true.

Lemma fake_good o : asid_ok (asid (fr o)) → good (get_fake_spec_handshake o).
Proof. intros Ha. split; [done|]. split; [done|]. destruct nop_fits as (d & Ed & Hd). exists d. by split. Qed.

Lemma shadows_length o e c ms n : ordered o e c ms n → (n ≤ length (shadows o))%nat.
Proof.
  intros Ho. destruct n as [|n]; [lia|]. pose proof (r_n _ _ _ _ _ Ho) as [Hn _]. destruct (lookup_lt_is_Some_2 ms n) as [m Em]; [lia|].
  destruct (r_sync _ _ _ _ _ Ho n m ltac:(lia) Em) as (x & Ex & _). apply lookup_lt_Some in Ex. lia.
Qed.

Lemma nuke_ok o e c ms n : ordered o e c ms n → on_nuke_recovery_path o = Ok (bool_decide (n < length (shadows o))%nat).
Proof.
  intros Ho. pose proof (shadows_length _ _ _ _ _ Ho) as Hle. pose proof (ordered_length _ _ _ _ _ Ho) as Hlen. pose proof (r_n _ _ _ _ _ Ho) as [Hn _].
  unfold on_nuke_recovery_path, num_Mops_before_feeder, num_non_spec_Mops. rewrite (r_num _ _ _ _ _ Ho), <- Hlen.
  rewrite (proj2 (Z.leb_le _ _)) by lia. cbn [guard_or rbind rmap]. destruct (r_shadow _ _ _ _ _ Ho) as [Hs _].
  rewrite (shadow_mopq.shadow_entries_length _ Hs). fold (shadows o). rewrite (proj2 (Z.leb_le _ _)) by lia. cbn [guard_or rbind rmap]. f_equal.
  case_bool_decide; [apply Z.ltb_lt; lia|apply Z.ltb_ge; lia].
Qed.

(** The side on which the next macro-op is. *)
Definition going_wrong (o : t) (pc : Z) : bool := spec o || negb (pc =? feeder_NPC (fr o)).

(** The shadow MopQ has the next handshake, or a flush is being replayed and it will be made
    up. *)
Definition ready (o : t) (ms : list Mop) (n : nat) (pc : Z) : Prop :=
  if going_wrong o pc then
    (0 < n)%nat ∧ ((n < length (shadows o))%nat ∨ ∀ x, shadows o !! (n - 1)%nat = Some x → (length ms < n + length (shadow_mopq.speculated x))%nat)
  else (n < length (shadows o))%nat.

Lemma view_of o e c ms n : ordered o e c ms n → MopQ_num (q o) < MopQ_size (q o) → ∀ b,
  shadow_mopq.view_ok (shadow_mopq.mk_view (MopQ_head (q o)) (MopQ_size (q o)) (MopQ_num (q o)) (MopQ_spec_num (q o)) (MopQ_non_spec_tail (q o)) b).
Proof.
  intros Ho Hroom b. pose proof (ordered_length _ _ _ _ _ Ho) as Hlen. destruct (r_heap _ _ _ _ _ Ho) as [[Hs Hl Hn Hh Ht] _ _ _ _ _ _ _ _ _].
  pose proof (r_n _ _ _ _ _ Ho) as [Hle _]. split; simpl.
  - apply (r_pow _ _ _ _ _ Ho).
  - done.
  - rewrite (r_num _ _ _ _ _ Ho). lia.
  - rewrite (r_tail _ _ _ _ _ Ho), (r_num _ _ _ _ _ Ho), <- Hlen. unfold pos. f_equal. lia.
Qed.

(** The handshake that the shadow MopQ answers with. *)
Lemma shadow_lookup_ok o e c ms n pc : ordered o e c ms n → MopQ_num (q o) < MopQ_size (q o) → ready o ms n pc →
  let s := going_wrong o pc in
  let nuke := match on_nuke_recovery_path o with Ok b => b | Fault _ => false end in
  let v := shadow_mopq.mk_view (MopQ_head (q o)) (MopQ_size (q o)) (MopQ_num (q o)) (MopQ_spec_num (q o)) (MopQ_non_spec_tail (q o)) nuke in
  wp (shadow_mopq.get_shadow_Mop (shadow_MopQ o) v (MopQ_tail (q o)) s (get_fake_spec_handshake o)) (λ '(sh, h),
    shadow_mopq.ok sh ∧ shadow_mopq.capacity sh = shadow_mopq.capacity (shadow_MopQ o) ∧ good h ∧ shadow_mopq.speculative (shadow_mopq.flags h) = s ∧
    Forall (λ x, good (shadow_mopq.Mop x) ∧ Forall good (shadow_mopq.speculated x)) (shadow_mopq.entries sh) ∧
    shadow_mopq.Mop <$> shadow_mopq.entries sh = shadow_mopq.Mop <$> shadows o ∧
    if s then ∀ x, shadow_mopq.entries sh !! (n - 1)%nat = Some x → (length ms < n + length (shadow_mopq.speculated x))%nat
    else ∃ x, sh = shadow_MopQ o ∧ shadows o !! length ms = Some x ∧ shadow_mopq.Mop x = h).
Proof.
  intros Ho Hroom Hready. cbv zeta. rewrite (nuke_ok _ _ _ _ _ Ho). pose proof (view_of _ _ _ _ _ Ho Hroom) as Hv. pose proof (ordered_length _ _ _ _ _ Ho) as Hlen.
  destruct (r_shadow _ _ _ _ _ Ho) as [Hs Hcap]. pose proof (r_good _ _ _ _ _ Ho) as Hgd. pose proof (r_n _ _ _ _ _ Ho) as [Hn _]. pose proof (r_num _ _ _ _ _ Ho) as Hnum.
  assert (MopQ_tail (q o) = ring.slot (MopQ_size (q o)) (MopQ_head (q o)) (MopQ_num (q o))) as Et by (by destruct (hp_ring _ _ _ _ _ (r_heap _ _ _ _ _ Ho))).
  rewrite Et. unfold ready in Hready. destruct (going_wrong o pc) eqn:Es.
  - destruct Hready as [Hn0 Hdepth]. destruct (lookup_lt_is_Some_2 (shadows o) (n - 1)) as [x Ex]; [pose proof (shadows_length _ _ _ _ _ Ho); lia|].
    set (v := shadow_mopq.mk_view _ _ _ _ _ _).
    assert (Z.to_nat (shadow_mopq.v_num v - shadow_mopq.v_spec_num v - 1) = (n - 1)%nat) as Ei by (simpl; lia).
    eapply wp_mono; [apply (shadow_mopq.lookup_spec_ok _ v _ x Hs (Hv _)); [simpl; lia|by rewrite Ei|done|done|]|].
    + simpl. destruct Hdepth as [Hk|Hdp]; [left; by rewrite bool_decide_true|right; specialize (Hdp x Ex); lia].
    + intros [sh h] (H1 & H2 & H3 & H4 & Hh & k & Eent & Hlong). rewrite Ei in Eent. simpl in Hlong.
      pose proof (fake_good o (r_asid _ _ _ _ _ Ho)) as Hfake. destruct (Forall_lookup_1 _ _ _ _ Hgd Ex) as [Hgx Hgsp].
      split_and!; [done|done| |done| | |].
      * destruct Hh as [Hin| ->]; [|done]. by apply (proj1 (list.Forall_forall _ _) Hgsp).
      * rewrite Eent. apply Forall_insert; [done|]. split; [done|]. simpl. apply list.Forall_app. split; [done|]. by apply Forall_replicate.
      * rewrite Eent, list_fmap_insert. apply list_insert_id. simpl. by rewrite list_lookup_fmap, Ex.
      * intros y Ey. rewrite Eent, list_lookup_insert_eq in Ey by (by eapply lookup_lt_Some). injection Ey as <-. simpl. lia.
  - assert (length ms = n) as En.
    { unfold going_wrong in Es. apply orb_false_iff in Es as [Es _]. rewrite (r_mode _ _ _ _ _ Ho) in Es. case_bool_decide; [done|lia]. }
    destruct (lookup_lt_is_Some_2 (shadows o) n Hready) as [x Ex].
    rewrite (shadow_mopq.lookup_real_ok _ (shadow_mopq.mk_view _ _ _ _ _ _) _ x Hs (Hv _)); [|simpl; rewrite <- Hlen, Nat2Z.id, En; exact Ex]. cbn [wp].
    destruct (Forall_lookup_1 _ _ _ _ Hgd Ex) as [Hgx _]. split_and!; [done|done|done| |done|done|].
    + by apply (shadow_mopq.e_real _ (Forall_lookup_1 _ _ _ _ (shadow_mopq.ok_entries _ Hs) Ex)).
    + exists x. by rewrite En.
Qed.

Lemma exec_ok o e c ms n pc : ordered o e c ms n → drain_pipeline o = false → current_Mop o = None → MopQ_num (q o) < MopQ_size (q o) → ready o ms n pc →
  wp (exec decode fusion_mode o (mem (Mop_seq o)) pc) (λ '(o', r), ∃ m, ordered o' e c (ms ++ [m]) (if going_wrong o pc then n else S n) ∧
    current_Mop o' = r ∧ shadow_mopq.Mop <$> shadows o' = shadow_mopq.Mop <$> shadows o ∧ fetch_PC (fr o') = fetch_PC (fr o)).
Proof.
  intros Ho Hdr Hcur Hroom Hready. pose proof (ordered_length _ _ _ _ _ Ho) as Hlen. unfold exec. rewrite Hdr, Hcur. cbn [negb guard_or rbind].
  rewrite (proj2 (Z.leb_gt _ _)) by done. cbv zeta. fold (going_wrong o pc). set (s := going_wrong o pc) in *.
  eapply wp_bind, wp_mono; [exact (shadow_lookup_ok o e c ms n pc Ho Hroom Hready)|]. intros [sh h] (Hsh & Hcap & Hgood & Hspec & Hgd & Emops & Hread). fold s in Hspec, Hread.
  rewrite Hspec, eqb_reflx. cbn [guard_or rbind]. destruct Hgood as (Hv & Hasid & d & Ed & Hfit).
  set (st := bump _ _ _). pose proof (make_Mop_ok decode fusion_mode (mem (Mop_seq o)) (front_of (fr o) h) h (Mop_seq o) pc st d Ed Hfit (Hasid (Mop_seq o))) as Hmk.
  cbv zeta in Hmk. rewrite Hspec in Hmk. eapply wp_bind, wp_mono; [exact Hmk|]. intros [[m us] st'] (Hmade & [Nv Ns Nq Np Nb] & Edec). clear Hmk.
  assert (length us = length (i_flow d)) as El by (rewrite <- Edec; by rewrite length_fmap). pose proof (md_flow _ _ _ Hmade) as Hfl.
  set (m' := with_uops (Some us) m). unfold fits in Hfit. apply andb_true_iff in Hfit as [Hfit _]. apply andb_true_iff in Hfit as [Hfit _]. apply andb_true_iff in Hfit as [Hfit Hall].
  apply andb_true_iff in Hfit as [Hn1 Hn2]. apply Z.leb_le in Hn1, Hn2.
  assert (joins o m' us) as Hj.
  { split; [done|split; [simpl; lia|simpl; lia]|done|]. apply list.Forall_forall. intros u Hu. rewrite forallb_forall in Hall. assert (In (dec u) (i_flow d)) as Hin.
    { apply list_elem_of_In. rewrite <- Edec. apply list_elem_of_fmap. by exists u. }
    specialize (Hall _ Hin). apply andb_true_iff in Hall as [Hall _]. apply andb_true_iff in Hall as [H1 H2]. apply negb_true_iff in H1. apply Z.eqb_eq in H2. split; [done|lia]. }
  pose proof (heap_enter o c ms m' us (r_heap _ _ _ _ _ Ho) Hroom) as Hent. specialize (Hent ltac:(eapply Nat.le_trans; [apply (r_c _ _ _ _ _ Ho)|apply flow_take]) Hj).
  eapply wp_bind, wp_mono; [exact Hent|]. intros g Hheap. clear Hent. pose proof (hp_ring _ _ _ _ _ (r_heap _ _ _ _ _ Ho)) as [Hs Hlq Hnum Hh Ht].
  assert (MopQ_tail (q o) = pos o (Z.of_nat (length ms))) as Etail by (rewrite Hlen; exact Ht).
  pose proof (ring.slot_in_range _ (MopQ_head (q o)) Hs (MopQ_num (q o))). rewrite aset_ok by (rewrite Ht; lia). cbn [rbind wp].
  exists m'. split; [|done]. specialize (Hheap s (Some (MopQ_tail (q o))) (drain_pipeline o) sh (consumed o) (front_of (fr o) h) st').
  pose proof (r_n _ _ _ _ _ Ho) as [Hn Hn0]. set (k := if s then n else S n).
  assert (s = false → n = length ms) as Ereal.
  { intros E0. unfold s, going_wrong in E0. apply orb_false_iff in E0 as [E0 _]. rewrite (r_mode _ _ _ _ _ Ho) in E0. case_bool_decide; [done|lia]. }
  assert (s = true → (0 < n)%nat) as Ewrong by (intros E0; unfold ready in Hready; fold s in Hready; rewrite E0 in Hready; lia).
  split; simpl.
  - rewrite <- Hdr. exact Hheap.
  - destruct ms as [|m0 ms']; [|exact (r_c _ _ _ _ _ Ho)]. pose proof (r_c _ _ _ _ _ Ho) as Hc. simpl in Hc. lia.
  - apply (r_pow _ _ _ _ _ Ho).
  - split; [done|]. rewrite Hcap. apply (r_shadow _ _ _ _ _ Ho).
  - intros j x Ex. apply lookup_app_Some in Ex as [Ex|[Hge Ex]].
    + destruct (r_sides _ _ _ _ _ Ho j x Ex) as [-> ->]. split; [|done]. apply lookup_lt_Some in Ex. apply bool_decide_ext. unfold k. destruct s; [done|]. specialize (Ereal eq_refl). lia.
    + apply list_lookup_singleton_Some in Ex as [Ej <-]. simpl. rewrite Ns, Nv. split; [|done]. unfold k. destruct s; symmetry; [apply bool_decide_eq_true; lia|].
      apply bool_decide_eq_false. specialize (Ereal eq_refl). lia.
  - rewrite length_app. simpl. unfold k. destruct s; [specialize (Ewrong eq_refl)|specialize (Ereal eq_refl)]; (split; [lia|intros; lia]).
  - rewrite (r_num _ _ _ _ _ Ho), length_app. simpl. unfold k. destruct s; [lia|specialize (Ereal eq_refl); lia].
  - unfold k. destruct s; [apply (r_tail _ _ _ _ _ Ho)|]. specialize (Ereal eq_refl). rewrite Ht, ring.modinc_slot by done. unfold pos. simpl. f_equal. lia.
  - rewrite length_app. simpl. unfold k. destruct s; symmetry; [apply bool_decide_eq_true; lia|]. specialize (Ereal eq_refl). apply bool_decide_eq_false. lia.
  - unfold shadows. simpl. intros j x Hjk Ex. assert (∀ y, shadows o !! j = Some y → from (shadow_mopq.Mop y) x → ∃ z, shadow_mopq.entries sh !! j = Some z ∧ from (shadow_mopq.Mop z) x) as Htr.
    { intros y Ey Hf. pose proof (f_equal (lookup j) Emops) as E0. rewrite !list_lookup_fmap, Ey in E0. destruct (shadow_mopq.entries sh !! j) as [z|]; [|done].
      injection E0 as E0. exists z. by rewrite E0. }
    apply lookup_app_Some in Ex as [Ex|[Hge Ex]].
    + destruct (r_sync _ _ _ _ _ Ho j x) as (y & Ey & Hf); [|done|by eapply Htr]. apply lookup_lt_Some in Ex. unfold k in Hjk. destruct s; [done|specialize (Ereal eq_refl); lia].
    + apply list_lookup_singleton_Some in Ex as [Ej <-]. unfold k in Hjk. destruct s; [lia|]. destruct Hread as (y & -> & Ey & Ehy). exists y.
      replace j with (length ms) by lia. split; [done|]. rewrite Ehy. exists d. split; [done|]. destruct Hmade. by split.
  - unfold shadows. simpl. intros x Hk Ex. rewrite length_app. simpl. unfold k in *. destruct s; [specialize (Hread x Ex); lia|specialize (Ereal eq_refl); lia].
  - right. exists ms, m'. split; [done|]. rewrite Etail. done.
  - intros j x Ex Ext. rewrite length_app. simpl. apply lookup_app_Some in Ex as [Ex|[Hge Ex]].
    + destruct (r_trap _ _ _ _ _ Ho j x Ex Ext) as [_ [Hd|Hd]]; [by rewrite Hdr in Hd|done].
    + apply list_lookup_singleton_Some in Ex as [Ej <-]. split; [lia|]. by right.
  - done.
  - exact Hgd.
  - exact Hasid.
  - rewrite caches_app. unfold caches at 2. simpl. rewrite Nb, app_nil_r. apply (r_env _ _ _ _ _ Ho).
Qed.

(** ** Buffering a handshake *)

(** The shadow MopQ and the fetch stage change. *)
Lemma ordered_shadow o sh f st e c ms n : ordered o e c ms n → shadow_mopq.ok sh → shadow_mopq.capacity sh = shadow_mopq.capacity (shadow_MopQ o) →
  asid f = asid (fr o) → Forall (λ x, good (shadow_mopq.Mop x) ∧ Forall good (shadow_mopq.speculated x)) (shadow_mopq.entries sh) →
  (∀ j x, (j < n)%nat → shadows o !! j = Some x → ∃ y, shadow_mopq.entries sh !! j = Some y ∧ shadow_mopq.Mop y = shadow_mopq.Mop x ∧
    (length (shadow_mopq.speculated x) ≤ length (shadow_mopq.speculated y))%nat) →
  ordered (with_fr f (with_stat st (with_shadow sh o))) e c ms n.
Proof.
  intros Ho Hsh Hcap Ha Hgd Hk. pose proof (shadows_length _ _ _ _ _ Ho) as Hle. pose proof Ho as [Hh Hc Hp Hs Hsd Hn Hnum Htl Hmd Hsy Hd Hcu Htr Hdr _ Has Hen].
  split; simpl; try done.
  - exact (heap_ext o (with_fr f (with_stat st (with_shadow sh o))) c ms _ [] eq_refl eq_refl eq_refl Hh).
  - split; [done|]. rewrite Hcap. apply Hs.
  - intros j m Hj Em. destruct (Hsy j m Hj Em) as (x & Ex & Hf). destruct (Hk j x Hj Ex) as (y & Ey & Emop & _). exists y. by rewrite Emop.
  - intros y Hn0 Ey. destruct (lookup_lt_is_Some_2 (shadows o) (n - 1)) as [x Ex]; [lia|]. destruct (Hk (n - 1)%nat x ltac:(lia) Ex) as (y' & Ey' & _ & Hl).
    unfold shadows in Ey. simpl in Ey. rewrite Ey in Ey'. injection Ey' as <-. specialize (Hd x Hn0 Ex). lia.
  - by rewrite Ha.
Qed.

(** A handshake of the wrong path goes behind the last instruction. *)
Lemma push_wrong_ok o e c ms n h st : ordered o e c ms n → length (shadows o) = n → (0 < n)%nat → good h → shadow_mopq.speculative (shadow_mopq.flags h) = true →
  wp (shadow_mopq.push_handshake (shadow_MopQ o) h) (λ sh, let o' := with_stat st (with_shadow sh o) in ordered o' e c ms n ∧ length (shadows o') = n ∧
    shadow_mopq.Mop <$> shadows o' = shadow_mopq.Mop <$> shadows o ∧
    ∀ x, shadows o' !! (n - 1)%nat = Some x → (length ms < n + length (shadow_mopq.speculated x))%nat).
Proof.
  intros Ho Hlen Hn Hg Hsp. destruct (r_shadow _ _ _ _ _ Ho) as [Hs _]. eapply wp_mono; [apply (shadow_mopq.push_spec_ok _ h Hs); [|apply Hg|done]|].
  { intros E0. unfold shadows in Hlen. rewrite E0 in Hlen. simpl in Hlen. lia. }
  intros sh (Hsh & Hcap & l & x & E1 & E2) o'. pose proof (r_good _ _ _ _ _ Ho) as Hgd. unfold shadows in *. rewrite E1 in Hgd, Hlen. rewrite length_app in Hlen. simpl in Hlen.
  apply list.Forall_app in Hgd as [Hgl Hgx]. apply list.Forall_cons in Hgx as [[Hgx1 Hgx2] _].
  assert (∀ i, l !! i = None → (length l ≤ i)%nat) as Hl by (intros i; apply lookup_ge_None).
  assert ((l ++ [x]) !! (n - 1)%nat = Some x) as Ex by (rewrite lookup_app_r by lia; by replace (n - 1 - length l)%nat with 0%nat by lia).
  split_and!.
  - assert (with_stat st (with_shadow sh o) = with_fr (fr o) (with_stat st (with_shadow sh o))) as Eo by done. unfold o'. rewrite Eo. apply ordered_shadow; try done.
    + rewrite E2. apply list.Forall_app. split; [done|]. apply list.Forall_singleton. split; [done|]. simpl. apply list.Forall_app. split; [done|]. by apply list.Forall_singleton.
    + unfold shadows. rewrite E1, E2. intros j y Hj Ey. destruct (decide (j < length l)%nat) as [Hlt|Hge].
      * rewrite lookup_app_l in Ey by done. exists y. rewrite lookup_app_l by done. done.
      * replace j with (n - 1)%nat in * by lia. rewrite Ex in Ey. injection Ey as <-. eexists. rewrite lookup_app_r by lia. replace (n - 1 - length l)%nat with 0%nat by lia.
        split_and!; [done|done|]. simpl. rewrite length_app. lia.
  - simpl. rewrite E2, length_app. simpl. lia.
  - simpl. rewrite E1, E2, !fmap_app. done.
  - simpl. rewrite E2. intros y Ey. rewrite lookup_app_r in Ey by lia. replace (n - 1 - length l)%nat with 0%nat in Ey by lia. injection Ey as <-. simpl.
    pose proof (r_depth _ _ _ _ _ Ho x Hn) as Hd. unfold shadows in Hd. rewrite E1, Ex in Hd. specialize (Hd eq_refl). rewrite length_app. simpl. lia.
Qed.

(** The answer of [buffer_handshake], and what the shadow MopQ has then. *)
Lemma buffer_handshake_ok o e c ms n h : ordered o e c ms n → length (shadows o) = n → MopQ_num (q o) < MopQ_size (q o) → good h →
  (ms = [] → fetch_PC (fr o) = feeder_NPC (fr o)) →
  wp (buffer_handshake o h) (λ '(o', r), ordered o' e c ms n ∧ q o' = q o ∧ current_Mop o' = current_Mop o ∧ drain_pipeline o' = drain_pipeline o ∧
    shadow_mopq.Mop <$> shadows o' = (shadow_mopq.Mop <$> shadows o) ++
      (if bool_decide (r = ALL_GOOD) && negb (shadow_mopq.speculative (shadow_mopq.flags h)) then [h] else []) ∧
    (r ≠ HANDSHAKE_NOT_NEEDED → ready o' ms n (fetch_PC (fr o')))).
Proof.
  intros Ho Hlen Hroom Hg Hempty. pose proof (ordered_length _ _ _ _ _ Ho) as Hml. pose proof (r_n _ _ _ _ _ Ho) as [Hn Hn0].
  destruct (r_shadow _ _ _ _ _ Ho) as [Hs Hcap].
  assert (shadow_mopq.full (shadow_MopQ o) = false) as Hfull.
  { unfold shadow_mopq.full, buffer.full. apply Z.eqb_neq. pose proof (shadow_mopq.shadow_entries_length _ Hs) as E0. unfold shadow_mopq.non_spec_size in E0.
    unfold shadow_mopq.capacity in Hcap. rewrite E0, Hcap. unfold shadows in Hlen. lia. }
  unfold buffer_handshake. cbv zeta. fold (going_wrong o (fetch_PC (fr o))). destruct (going_wrong o (fetch_PC (fr o))) eqn:Ew.
  - assert (0 < n)%nat as Hpos.
    { destruct n; [|lia]. specialize (Hn0 eq_refl). unfold going_wrong in Ew. rewrite (Hempty Hn0), Z.eqb_refl in Ew. rewrite (r_mode _ _ _ _ _ Ho), Hn0 in Ew. done. }
    assert (∀ o', fr o' = fr o → spec o' = spec o → (∀ x, shadows o' !! (n - 1)%nat = Some x → (length ms < n + length (shadow_mopq.speculated x))%nat) →
      ready o' ms n (fetch_PC (fr o'))) as Hrd.
    { intros o' Ef Es Hd. unfold ready. unfold going_wrong in *. rewrite Ef, Es, Ew. split; [done|]. by right. }
    destruct (negb (shadow_mopq.speculative (shadow_mopq.flags h)) || _) eqn:Efake.
    + unfold push_fake. apply wp_bind, wp_bind. eapply wp_mono; [apply (push_wrong_ok o e c ms n _ (bump handshake_nops_produced 1 (stat o)) Ho Hlen Hpos (fake_good o (r_asid _ _ _ _ _ Ho)) eq_refl)|].
      intros sh (H1 & H2 & H3 & H4). cbn [wp rbind]. split_and!; try done.
      * rewrite H3. by rewrite app_nil_r.
      * intros _. by apply Hrd.
    + apply orb_false_iff in Efake as [Esp _]. apply negb_false_iff in Esp. rewrite Esp. simpl shadow_MopQ. rewrite Hfull. cbn [negb guard_or rbind].
      apply wp_bind. eapply wp_mono; [apply (push_wrong_ok o e c ms n h (bump handshakes_buffered 1 (stat o)) Ho Hlen Hpos Hg Esp)|].
      intros sh (H1 & H2 & H3 & H4). cbn [wp rbind]. split_and!; try done.
      * rewrite bool_decide_true by done. simpl. rewrite app_nil_r. exact H3.
      * intros _. by apply (Hrd (with_stat (bump handshakes_buffered 1 (stat o)) (with_shadow sh o))).
  - destruct (shadow_mopq.speculative (shadow_mopq.flags h)) eqn:Esp.
    { cbn [wp]. split_and!; try done; [|by rewrite app_nil_r].
      exact (ordered_shadow o (shadow_MopQ o) (fr o) _ e c ms n Ho Hs eq_refl eq_refl (r_good _ _ _ _ _ Ho) ltac:(intros j x _ Ex; by exists x)). }
    set (o1 := if shadow_mopq.pc h =? fetch_PC (fr o) then o else _).
    assert (∃ f, o1 = with_fr f o ∧ asid f = asid (fr o) ∧ fetch_PC f = feeder_NPC f) as (f & Ef & Ea & Epc).
    { unfold o1. case_match; [|by eexists]. exists (fr o). split_and!; [by destruct o|done|]. unfold going_wrong in Ew. apply orb_false_iff in Ew as [_ Ew].
      by apply negb_false_iff, Z.eqb_eq in Ew. }
    assert (shadow_MopQ o1 = shadow_MopQ o) as Esh by (by rewrite Ef). simpl shadow_MopQ. rewrite Esh, Hfull. cbn [negb guard_or rbind].
    apply wp_bind. eapply wp_mono; [apply (shadow_mopq.push_real_ok _ h Hs Hfull (proj1 Hg) Esp)|]. intros sh (Hsh & Hcap' & Eent). cbn [wp rbind].
    assert (shadow_mopq.entries sh = shadows o ++ [shadow_mopq.mk_shadow h []]) as Eent' by done.
    assert (with_shadow sh (with_stat (bump handshakes_buffered 1 (stat o1)) o1) = with_fr f (with_stat (bump handshakes_buffered 1 (stat o1)) (with_shadow sh o))) as -> by (by rewrite Ef).
    split_and!; try done.
    + apply ordered_shadow; try done.
      * rewrite Eent'. apply list.Forall_app. split; [apply (r_good _ _ _ _ _ Ho)|]. apply list.Forall_singleton. by split.
      * intros j x Hj Ex. exists x. rewrite Eent', lookup_app_l by lia. done.
    + unfold shadows at 1. simpl. rewrite Eent', fmap_app. done.
    + intros _. unfold ready, going_wrong. simpl. unfold going_wrong in Ew. apply orb_false_iff in Ew as [-> _]. rewrite Epc, Z.eqb_refl. simpl.
      unfold shadows. simpl. rewrite Eent', length_app. simpl. lia.
Qed.

(** ** Committing *)

Lemma head_at o e c m ms n : ordered o e c (m :: ms) n → Mop_at o (MopQ_head (q o)) = Ok m ∧ spec_mode m = false.
Proof.
  intros Ho. destruct (mop_at _ _ _ _ _ 0 m (r_heap _ _ _ _ _ Ho) eq_refl) as [G _]. destruct (r_sides _ _ _ _ _ Ho 0%nat m eq_refl) as [-> _].
  destruct (r_n _ _ _ _ _ Ho) as [_ Hn]. split; [|apply bool_decide_eq_false; intros ?; assert (n = 0%nat) as E0 by lia; by apply Hn in E0].
  unfold pos in G. pose proof (hp_ring _ _ _ _ _ (r_heap _ _ _ _ _ Ho)) as [Hs _ _ Hh _]. by rewrite ring.slot_0 in G.
Qed.

Lemma ordered_commit_uop o e c m ms n : ordered o e c (m :: ms) n → Z.of_nat c < flow_length m →
  wp (commit_uop o e (MopQ_head (q o), Z.of_nat c)) (λ '(o', e'), ordered o' e' (S c) (m :: ms) n ∧ ∃ g, o' = with_deps g o).
Proof.
  intros Ho Hc. pose proof (r_heap _ _ _ _ _ Ho) as Hh. pose proof (hp_ring _ _ _ _ _ Hh) as [Hs _ _ Hhd _].
  assert (∀ l, flow_of o 0 (m :: l) = ptrs (MopQ_head (q o)) (flow_length m) ++ flow_of o 1 l) as Ef by (intros l; unfold flow_of; simpl; by rewrite ring.slot_0).
  assert (flow_of o 0 (m :: ms) !! c = Some (MopQ_head (q o), Z.of_nat c)) as Ep.
  { rewrite Ef. apply lookup_app_l_Some. unfold ptrs. rewrite list_lookup_fmap, lookup_seqZ_lt by lia. done. }
  eapply wp_mono; [exact (commit_uop_ok o e (caches (m :: ms)) c (m :: ms) _ Hh (r_env _ _ _ _ _ Ho) Ep)|]. intros [o' e'] (Hh' & He & g & ->).
  split; [|by exists g]. destruct Ho as [_ _ Hp Hsh Hsd Hn Hnum Htl Hmd Hsy Hd Hcu Htr Hdr Hgd Has _]. split; try done.
  change (flow_of (with_deps g o)) with (flow_of o). simpl take. rewrite Ef, length_app. unfold ptrs. rewrite length_fmap, length_seqZ. lia.
Qed.

Lemma ordered_commit_ok o e m ms n : ordered o e (Z.to_nat (flow_length m)) (m :: ms) n → (n = 1%nat → ms = []) → (current_Mop o = None ∨ ms ≠ []) → bpred_update m = None →
  wp (commit o (MopQ_head (q o))) (λ o', ordered o' e 0 ms (n - 1) ∧ fr o' = fr o ∧
    ∃ h, shadow_mopq.Mop <$> shadows o = h :: (shadow_mopq.Mop <$> shadows o') ∧ from h m).
Proof.
  intros Ho Hn1 Hcons Hb. pose proof (ordered_length _ _ _ _ _ Ho) as Hlen. simpl in Hlen. destruct (head_at _ _ _ _ _ _ Ho) as [G Hspec].
  pose proof (r_n _ _ _ _ _ Ho) as [Hn Hn0]. assert (0 < n)%nat as Hpos by (destruct n; [by specialize (Hn0 eq_refl)|lia]).
  pose proof (r_heap _ _ _ _ _ Ho) as Hh. pose proof (hp_ring _ _ _ _ _ Hh) as [Hs Hl Hnum Hhd Ht].
  assert (is_trap m = true → ms = []) as Htrap.
  { intros Et. destruct (r_trap _ _ _ _ _ Ho 0%nat m eq_refl Et) as [Hl1 _]. simpl in Hl1. destruct ms; [done|simpl in Hl1; lia]. }
  unfold commit. rewrite (proj2 (Z.ltb_lt _ _)) by lia. cbn [guard_or rbind]. rewrite Z.eqb_refl. cbn [guard_or rbind]. rewrite G. cbn [rbind]. rewrite Hspec.
  cbn [negb guard_or rbind]. assert (negb (is_trap m) || (MopQ_num (q o) =? 1) = true) as ->.
  { destruct (is_trap m); [|done]. rewrite (Htrap eq_refl) in Hlen. apply Z.eqb_eq. simpl in Hlen. lia. }
  cbn [guard_or rbind]. cbv zeta. set (o1 := if is_trap m then _ else o).
  assert (q o1 = q o ∧ deps o1 = deps o ∧ shadow_MopQ o1 = shadow_MopQ o ∧ Mop_seq o1 = Mop_seq o ∧ spec o1 = spec o ∧ current_Mop o1 = current_Mop o ∧ fr o1 = fr o ∧
    drain_pipeline o1 = if is_trap m then false else drain_pipeline o) as (Eq & Eg & Esh & Esq & Esp & Ecu & Efr & Edr) by (unfold o1; by destruct (is_trap m)).
  unfold set_Mop. rewrite Eq. rewrite aset_ok by lia. cbn [rbind]. simpl q. cbn [MopQ MopQ_head MopQ_tail MopQ_non_spec_tail MopQ_num MopQ_size MopQ_spec_num with_MopQ].
  rewrite (proj2 (Z.leb_le _ _)) by lia. cbn [guard_or rbind].
  pose proof (heap_pop o1 m ms (MopQ_non_spec_tail (q o)) (MopQ_spec_num (q o))) as Hpop. cbv zeta in Hpop. rewrite Eq in Hpop.
  destruct Hpop as [Hp Epos]; [by apply (heap_ext o)|]. set (o2 := with_q _ (with_q _ o1)).
  assert (o2 = with_q (mk_queue (<[Z.to_nat (MopQ_head (q o)):=with_valid false m]> (MopQ (q o))) (modinc (MopQ_head (q o)) (MopQ_size (q o))) (MopQ_tail (q o)) (MopQ_non_spec_tail (q o))
      (MopQ_num (q o) - 1) (MopQ_size (q o)) (MopQ_spec_num (q o))) o1) as Eo2 by done. rewrite <- Eo2 in Hp, Epos. rewrite <- Epos.
  eapply wp_bind, wp_mono; [exact (clear_uops_ok o2 0 ms _ _ [] Hp)|]. intros o3 [Hh3 Hcl]. apply heap_rest in Hh3. destruct Hcl as (l & g & Eo3).
  assert (shadow_MopQ o3 = shadow_MopQ o) as Esh3 by (by rewrite Eo3, Eo2). rewrite Esh3. destruct (r_shadow _ _ _ _ _ Ho) as [Hsh Hcap].
  pose proof (shadows_length _ _ _ _ _ Ho) as Hsl. apply wp_bind. eapply wp_mono; [apply (shadow_mopq.shadow_pop_ok _ Hsh); intros E0; unfold shadows in Hsl; rewrite E0 in Hsl; simpl in Hsl; lia|].
  intros sh (Hsh' & Hcap' & x & Eent). cbn [wp].
  assert (shadows o = x :: shadow_mopq.entries sh) as Eent' by done. assert (∀ j, pos (with_shadow sh o3) j = pos o (j + 1)) as Eshift.
  { intros j. rewrite Eo3, Eo2. unfold pos. simpl. by rewrite ring.slot_shift. }
  destruct (r_sync _ _ _ _ _ Ho 0%nat m Hpos eq_refl) as (x' & Ex' & Hfrom). rewrite Eent' in Ex'. injection Ex' as <-.
  split; [|split; [by rewrite Eo3, Eo2; simpl|]; exists (shadow_mopq.Mop x); split; [by rewrite Eent'|done]].
  destruct Ho as [_ _ Hpw _ Hsd _ Hnu Htl Hmd Hsy Hd Hcu Htr Hdr Hgd Has Hen].
  assert (drain_pipeline (with_shadow sh o3) = drain_pipeline o1 ∧ current_Mop (with_shadow sh o3) = current_Mop o) as [Edr3 Ecu3] by (rewrite Eo3, Eo2; simpl; by rewrite Ecu).
  split.
  - exact (heap_ext o3 (with_shadow sh o3) 0 ms _ [] eq_refl eq_refl eq_refl Hh3).
  - lia.
  - destruct Hpw as (k & Hk & Ek). exists k. split; [done|]. rewrite Eo3, Eo2. exact Ek.
  - split; [done|]. simpl. rewrite Hcap', Hcap, Eo3, Eo2. done.
  - intros j y Ey. destruct (Hsd (S j) y Ey) as [-> ->]. split; [|done]. apply bool_decide_ext. lia.
  - simpl in Hn. split; [lia|]. intros E0. apply Hn1. lia.
  - rewrite Eo3, Eo2. simpl. rewrite Hnu. simpl. lia.
  - rewrite Eshift. rewrite Eo3, Eo2. simpl. rewrite Htl. f_equal. lia.
  - rewrite Eo3, Eo2. simpl. rewrite Esp, Hmd. simpl. apply bool_decide_ext. lia.
  - intros j y Hj Ey. destruct (Hsy (S j) y) as (z & Ez & Hf); [lia|done|]. rewrite Eent' in Ez. by exists z.
  - intros y Hj Ey. specialize (Hd y Hpos). rewrite Eent' in Hd. unfold shadows in Ey. simpl in Ey. replace (n - 1)%nat with (S (n - 1 - 1)) in Hd by lia. specialize (Hd Ey). simpl in Hd. lia.
  - rewrite Ecu3. destruct Hcu as [?|(ms' & m1 & Em & Ec & Eb)]; [by left|]. right. destruct ms' as [|m0 ms'].
    + simpl in Em. injection Em as -> ->. destruct Hcons as [Hc|]; [by rewrite Hc in Ec|done].
    + injection Em as -> ->. exists ms', m1. split_and!; [done| |done]. rewrite Eshift, Ec. simpl. do 2 f_equal. lia.
  - intros j y Ey Et. destruct (Htr (S j) y Ey Et) as [Hj Hor]. simpl in Hj. split; [lia|]. rewrite Edr3, Ecu3, Edr. destruct (is_trap m) eqn:Em; [|done].
    by rewrite (Htrap eq_refl) in Ey.
  - rewrite Edr3, Ecu3, Edr. destruct (is_trap m) eqn:Em; [done|]. intros Hd1. destruct (Hdr Hd1) as (H1 & ms' & m1 & Em1 & Et). split; [done|].
    destruct ms' as [|m0 ms']; [simpl in Em1; injection Em1 as -> _; by rewrite Em in Et|]. injection Em1 as _ ->. by exists ms', m1.
  - unfold shadows. simpl. rewrite Eent' in Hgd. by apply list.Forall_cons in Hgd as [_ ?].
  - rewrite Eo3, Eo2. simpl. by rewrite Efr.
  - unfold caches in *. simpl in Hen. by rewrite Hb in Hen.
Qed.

End order.
End oracle_order.
