(* ===== verification/OracleRecover.v ===== *)
(** * OracleRecover: undoing macro-ops

    The recovery from a mispredicted branch, the flush of a macro-op and all younger ones,
    and the flush of the whole MopQ preserve the order of OracleOrder. *)

From S2P Require Import Prelude Misc Memory Buffer ShadowMopQ OracleDeps Oracle OracleInv OracleSteps OracleOrder.

Module oracle_recover.
Import oracle_deps oracle oracle_inv oracle_make oracle_steps oracle_order.

Section recover.
Context {E : Type} `{PipeLaws E}.

(** During the walk back over the MopQ: [ms] are left, [ds] have been squashed. *)
Record walking (o : t) (e : E) (c : nat) (ms : list Mop) (n : nat) (ds : list Mop) : Prop := {
  w_heap : heap_ok o c ms (MopQ_num (q o)) ds;
  w_sides j m : ms !! j = Some m → spec_mode m = bool_decide (n ≤ j)%nat ∧ valid m = true;
  w_num : MopQ_spec_num (q o) = Z.of_nat (length ms) - Z.of_nat (n `min` length ms);
  w_tail : MopQ_non_spec_tail (q o) = pos o (Z.of_nat (n `min` length ms));
  w_env : env_ok (caches ms) e
}.

Lemma pos_squashed o o' j : squashed o o' → pos o' j = pos o j.
Proof. intros [_ _ _ _ _ _ _ Es Eh]. unfold pos. by rewrite Es, Eh. Qed.

Lemma walk_step o e c ms m n ds : walking o e c (ms ++ [m]) n ds →
  wp (squash o e (pos o (Z.of_nat (length ms)))) (λ '(o', e'), ∃ m', walking o' e' c ms n (m' :: ds) ∧ squashed o o' ∧
    MopQ_num (q o') = MopQ_num (q o) - 1).
Proof.
  intros [Hh Hsd Hnu Htl He]. destruct (Hsd (length ms) m) as [Hm _]; [by rewrite lookup_app_r, Nat.sub_diag by lia|].
  eapply wp_mono; [by apply (squash_ok o e c ms m ds)|]. intros [o' e'] (m' & Hh' & He' & Hsq & Hnum & Hnst & Hsn). exists m'. split; [|done].
  rewrite length_app in Hnu, Htl. simpl in Hnu, Htl. split; [done| | | |done].
  - intros j x Ex. apply Hsd. by apply lookup_app_l_Some.
  - rewrite Hsn, Hnu, Hm. case_bool_decide; lia.
  - rewrite Hnst, Hm, (pos_squashed _ _ _ Hsq). case_bool_decide; [rewrite Htl|]; f_equal; lia.
Qed.

(** The slot before the youngest macro-op left. *)
Lemma walk_index o e c ms n ds : walking o e c ms n ds → moddec (MopQ_tail (q o)) (MopQ_size (q o)) = pos o (Z.of_nat (length ms) - 1).
Proof.
  intros [Hh _ _ _ _]. pose proof (mops_length _ _ _ _ _ Hh) as Hlen. destruct (hp_ring _ _ _ _ _ Hh) as [Hs Hl Hn Hhd ->]. by rewrite ring.moddec_slot, <- Hlen.
Qed.

Lemma walk_dec o j : ring.ring_ok (MopQ (q o)) (MopQ_size (q o)) (MopQ_head (q o)) (MopQ_num (q o)) (MopQ_tail (q o)) → moddec (pos o j) (MopQ_size (q o)) = pos o (j - 1).
Proof. intros [Hs _ _ Hh _]. by apply ring.moddec_slot. Qed.

Definition traps (ms : list Mop) : bool := existsb is_trap ms.

Lemma squashed_drain o o' d : squashed o o' → squashed (with_drain d o) (with_drain d o').
Proof. intros []. by split. Qed.

(** The walk of [recover] from the youngest macro-op back to the last one of [keep]. *)
Lemma recover_loop_ok fuel o e c keep ms n ds : walking o e c (keep ++ ms) n ds → keep ≠ [] → (length ms < fuel)%nat →
  wp (recover_loop fuel o e (pos o (Z.of_nat (length keep) - 1)) (pos o (MopQ_num (q o) - 1)) (slots_of o (MopQ_num (q o)) ds)) (λ '(o', e', dead), ∃ ds',
    walking o' e' c keep n ds' ∧ dead = slots_of o' (MopQ_num (q o')) ds' ∧
    squashed (with_drain (if traps ms then false else drain_pipeline o) o) o').
Proof.
  revert o e ms ds. induction fuel as [|fuel IH]; intros o e ms ds Hw Hk Hf; [lia|]. pose proof (mops_length _ _ _ _ _ (w_heap _ _ _ _ _ _ Hw)) as Hlen.
  assert (0 < length keep)%nat as Hkl by (destruct keep; [done|simpl; lia]).
  pose proof (hp_ring _ _ _ _ _ (w_heap _ _ _ _ _ _ Hw)) as Hr. pose proof Hr as [Hs Hl Hn Hhd Ht]. rewrite length_app in Hlen. cbn [recover_loop].
  destruct (Z.eqb_spec (pos o (Z.of_nat (length keep) - 1)) (pos o (MopQ_num (q o) - 1))) as [Eq|Hne].
  - apply (pos_inj _ _ _ _ _ _ _ (w_heap _ _ _ _ _ _ Hw)) in Eq; [|lia|lia]. destruct ms as [|m0 ms]; [|simpl in Hlen; lia]. rewrite app_nil_r in Hw. cbn [wp].
    exists ds. split; [done|]. split; [done|]. simpl. destruct o. apply squashed_refl.
  - destruct ms as [|m0 ms0 _] using rev_ind; [exfalso; apply Hne; simpl in Hlen; f_equal; lia|]. rename m0 into m, ms0 into ms. rewrite length_app in Hlen, Hf. simpl in Hlen, Hf.
    assert (pos o (MopQ_num (q o) - 1) = pos o (Z.of_nat (length (keep ++ ms)))) as Eidx by (rewrite length_app; f_equal; lia).
    assert (negb (pos o (MopQ_num (q o) - 1) =? MopQ_head (q o)) = true) as ->.
    { apply negb_true_iff, Z.eqb_neq. intros Eq. assert (MopQ_num (q o) - 1 = 0); [|lia]. apply (pos_inj _ _ _ _ _ _ _ (w_heap _ _ _ _ _ _ Hw)); [lia|lia|].
      rewrite Eq. unfold pos. by rewrite ring.slot_0. }
    cbn [guard_or rbind]. rewrite app_assoc in Hw. rewrite Eidx. destruct (last_at _ _ _ _ _ _ (w_heap _ _ _ _ _ _ Hw)) as [-> _]. cbn [rbind]. cbv zeta.
    set (o1 := if is_trap m then with_drain false o else o). assert (o1 = with_drain (if is_trap m then false else drain_pipeline o) o) as Eo1 by (unfold o1; destruct (is_trap m), o; done).
    assert (walking o1 e c ((keep ++ ms) ++ [m]) n ds) as Hw1.
    { destruct Hw as [W1 W2 W3 W4 W5]. rewrite Eo1. split; try done. by apply (heap_ext o). }
    assert (pos o (Z.of_nat (length (keep ++ ms))) = pos o1 (Z.of_nat (length (keep ++ ms)))) as -> by (by rewrite Eo1).
    eapply wp_bind, wp_mono; [exact (walk_step _ _ _ _ _ _ _ Hw1)|]. intros [o2 e2] (m' & Hw2 & Hsq & Hnum).
    pose proof (hp_ring _ _ _ _ _ (w_heap _ _ _ _ _ _ Hw2)) as Hr2. pose proof Hsq as [_ _ _ Q4 _ _ _ Q8 Q9].
    assert (MopQ_num (q o1) = MopQ_num (q o)) as En1 by (by rewrite Eo1). assert (∀ j, pos o1 j = pos o j) as Ep1 by (intros j; by rewrite Eo1).
    specialize (IH o2 e2 ms (m' :: ds) Hw2 Hk ltac:(lia)). rewrite !(pos_squashed _ _ _ Hsq), Ep1 in IH. simpl slots_of in IH.
    rewrite Hnum, En1 in IH. replace (MopQ_num (q o) - 1 + 1) with (MopQ_num (q o)) in IH by lia.
    rewrite (slots_ext o1 o2) in IH by done. rewrite (slots_ext o o1) in IH by (by rewrite Eo1). rewrite !(pos_squashed _ _ _ Hsq), !Ep1, Eidx in IH.
    assert (moddec (pos o1 (Z.of_nat (length (keep ++ ms)))) (MopQ_size (q o2)) = pos o (MopQ_num (q o) - 1 - 1)) as ->.
    { rewrite Ep1, <- Eidx, Q8. replace (MopQ_size (q o1)) with (MopQ_size (q o)) by (by rewrite Eo1). by apply walk_dec. }
    rewrite Ep1. eapply wp_mono; [exact IH|]. intros [[o3 e3] dead] (ds' & Hw3 & Edead & Hsq3). exists ds'. split; [done|]. split; [done|].
    eapply squashed_trans; [|exact Hsq3]. unfold traps. rewrite existsb_app. simpl. rewrite orb_false_r, Q4.
    assert (with_drain (if existsb is_trap ms then false else drain_pipeline o1) o1 = with_drain (if existsb is_trap ms || is_trap m then false else drain_pipeline o) o) as <-.
    { rewrite Eo1. simpl. destruct (existsb is_trap ms); simpl; [by destruct o|]. by destruct (is_trap m), o. }
    by apply squashed_drain.
Qed.

(** The walk of [complete_flush] over the whole MopQ. *)
Lemma flush_loop_ok o e c ms n ds : walking o e c ms n ds →
  wp (flush_loop (length ms) o e (pos o (MopQ_num (q o) - 1)) (slots_of o (MopQ_num (q o)) ds)) (λ '(o', e', dead), ∃ ds',
    walking o' e' c [] n ds' ∧ dead = slots_of o' (MopQ_num (q o')) ds' ∧ squashed o o').
Proof.
  revert o e ds. induction ms as [|m ms IH] using rev_ind; intros o e ds Hw.
  { cbn [flush_loop length wp]. exists ds. split; [done|]. split; [done|apply squashed_refl]. }
  pose proof (mops_length _ _ _ _ _ (w_heap _ _ _ _ _ _ Hw)) as Hlen. rewrite length_app in *. simpl in Hlen. replace (length ms + length [m])%nat with (S (length ms)) by (simpl; lia).
  pose proof (hp_ring _ _ _ _ _ (w_heap _ _ _ _ _ _ Hw)) as Hr. cbn [flush_loop].
  assert (pos o (MopQ_num (q o) - 1) = pos o (Z.of_nat (length ms))) as -> by (f_equal; lia). destruct (last_at _ _ _ _ _ _ (w_heap _ _ _ _ _ _ Hw)) as [-> _]. cbn [rbind].
  destruct (w_sides _ _ _ _ _ _ Hw (length ms) m) as [_ ->]; [by rewrite lookup_app_r, Nat.sub_diag by lia|]. cbn [guard_or rbind].
  eapply wp_bind, wp_mono; [exact (walk_step _ _ _ _ _ _ _ Hw)|]. intros [o2 e2] (m' & Hw2 & Hsq & Hnum). specialize (IH o2 e2 (m' :: ds) Hw2).
  rewrite !(pos_squashed _ _ _ Hsq), Hnum in IH. simpl slots_of in IH. replace (MopQ_num (q o) - 1 + 1) with (MopQ_num (q o)) in IH by lia.
  pose proof Hsq as [_ _ _ _ _ _ _ Q8 Q9]. rewrite (slots_ext o o2) in IH by done. rewrite (pos_squashed _ _ _ Hsq) in IH.
  replace (MopQ_num (q o) - 1) with (Z.of_nat (length ms)) in IH by lia. rewrite Q8, walk_dec by done.
  eapply wp_mono; [exact IH|]. intros [[o3 e3] dead] (ds' & Hw3 & Edead & Hsq3). exists ds'. split; [done|]. split; [done|]. by eapply squashed_trans.
Qed.

Lemma pop_all_ok n s : shadow_mopq.ok s → Z.of_nat n = shadow_mopq.non_spec_size s →
  wp (pop_all n s) (λ s', shadow_mopq.ok s' ∧ shadow_mopq.capacity s' = shadow_mopq.capacity s ∧ shadow_mopq.entries s' = []).
Proof.
  revert s. induction n as [|n IH]; intros s Hs En; cbn [pop_all]; pose proof (shadow_mopq.shadow_entries_length _ Hs) as Hlen.
  - cbn [wp]. split_and!; [done|done|]. apply nil_length_inv. lia.
  - assert (shadow_mopq.empty s = false) as ->.
    { unfold shadow_mopq.empty, buffer.empty. unfold shadow_mopq.non_spec_size in En. apply Z.eqb_neq. lia. }
    eapply wp_bind, wp_mono; [apply (shadow_mopq.shadow_pop_ok _ Hs); intros E0; rewrite E0 in Hlen; simpl in Hlen; lia|]. intros s' (Hs' & Hc & x & Ex).
    eapply wp_mono; [apply IH; [done|]|].
    + rewrite (shadow_mopq.shadow_entries_length _ Hs'). rewrite Ex in Hlen. simpl in Hlen. lia.
    + intros s2 (H1 & H2 & H3). split_and!; [done|congruence|done].
Qed.

End recover.
(** ** Recovery *)

Section order.
Context {E : Type} `{PipeLaws E} (decode : list Z → result inst) (fusion_mode : fusion_flags) (mem : Z → memory.t).
Local Abbreviation ordered := (ordered decode fusion_mode mem).

Lemma ordered_walking o e c ms n : ordered o e c ms n → walking o e c ms n [].
Proof.
  intros Ho. destruct (r_n _ _ _ _ _ _ _ _ Ho) as [Hn _]. assert (n `min` length ms = n)%nat as Em by lia.
  split; rewrite ?Em; [apply (r_heap _ _ _ _ _ _ _ _ Ho)|apply (r_sides _ _ _ _ _ _ _ _ Ho)|apply (r_num _ _ _ _ _ _ _ _ Ho)|apply (r_tail _ _ _ _ _ _ _ _ Ho)|apply (r_env _ _ _ _ _ _ _ _ Ho)].
Qed.

Lemma traps_last o e c ms ms' n : ordered o e c (ms ++ ms') n → ms' ≠ [] → traps ms' = from_option is_trap false (list.last (ms ++ ms')).
Proof.
  intros Ho Hne. destruct ms' as [|m ms' _] using rev_ind; [done|]. rewrite app_assoc, list.last_snoc. simpl. unfold traps. rewrite existsb_app. simpl. rewrite orb_false_r.
  assert (existsb is_trap ms' = false) as ->; [|done]. apply not_true_is_false. intros (x & Hx & Et)%existsb_exists. apply list_elem_of_In, list_elem_of_lookup_1 in Hx as [j Ej].
  pose proof (lookup_lt_Some _ _ _ Ej). destruct (r_trap _ _ _ _ _ _ _ _ Ho (length ms + j)%nat x) as [Hj _]; [|done|].
  - rewrite lookup_app_r by lia. replace (length ms + j - length ms)%nat with j by lia. by apply lookup_app_l_Some.
  - rewrite !length_app in Hj. simpl in Hj. lia.
Qed.

(** No trap is in the macro-ops before the last. *)
Lemma trap_not_before o e c ms m ms' n : ordered o e c (ms ++ [m] ++ ms') n → ms' ≠ [] → is_trap m = false.
Proof.
  intros Ho Hne. apply not_true_is_false. intros Et. destruct (r_trap _ _ _ _ _ _ _ _ Ho (length ms) m) as [Hj _]; [|done|].
  - rewrite lookup_app_r, Nat.sub_diag by lia. done.
  - rewrite !length_app in Hj. destruct ms'; [done|]. simpl in Hj. lia.
Qed.

(** A macro-op that the pipeline may recover to has been consumed. *)
Definition is_consumed (o : t) (ms' : list Mop) : Prop := current_Mop o = None ∨ ms' ≠ [].

Lemma drain_after o e c ms m ms' n : ordered o e c (ms ++ [m] ++ ms') n → is_consumed o ms' →
  (if traps ms' then false else drain_pipeline o) = is_trap m.
Proof.
  intros Ho Hc. destruct ms' as [|m1 ms'].
  - simpl. rewrite app_nil_r in Ho. destruct Hc as [Hc|]; [|done]. destruct (is_trap m) eqn:Et.
    + destruct (r_trap _ _ _ _ _ _ _ _ Ho (length ms) m) as [_ [Hd|Hd]]; [by rewrite lookup_app_r, Nat.sub_diag by lia|done|done|by rewrite Hc in Hd].
    + destruct (drain_pipeline o) eqn:Ed; [|done]. destruct (r_drain _ _ _ _ _ _ _ _ Ho Ed) as (_ & l & x & Ex & Ext). apply app_inj_tail in Ex as [_ <-]. by rewrite Et in Ext.
  - rewrite (trap_not_before _ _ _ _ _ _ _ Ho) by done. destruct (traps (m1 :: ms')) eqn:Et; [done|]. destruct (drain_pipeline o) eqn:Ed; [|done].
    destruct (r_drain _ _ _ _ _ _ _ _ Ho Ed) as (_ & l & x & Ex & Ext). rewrite app_assoc in Ho. rewrite (traps_last _ _ _ _ _ _ Ho) in Et by done.
    rewrite <- app_assoc, Ex, list.last_snoc in Et. simpl in Et. by rewrite Et in Ext.
Qed.

Lemma take_1_app {A} (ms ms' : list A) m : take 1 ((ms ++ [m]) ++ ms') = take 1 (ms ++ [m]).
Proof. by destruct ms. Qed.

Lemma recover_ok o e c ms m ms' n : ordered o e c (ms ++ [m] ++ ms') n → is_consumed o ms' →
  wp (recover o e (pos o (Z.of_nat (length ms)))) (λ '(o', e'), ordered o' e' c (ms ++ [m]) (n `min` S (length ms)) ∧
    shadow_MopQ o' = shadow_MopQ o ∧ feeder_NPC (fr o') = NextPC m ∧ current_Mop o' = None ∧ ∀ j, pos o' j = pos o j).
Proof.
  intros Ho Hcons. pose proof (drain_after _ _ _ _ _ _ _ Ho Hcons) as Hdrain. rewrite app_assoc in Ho. pose proof (ordered_length _ _ _ _ _ _ _ _ Ho) as Hlen.
  pose proof (ordered_walking _ _ _ _ _ Ho) as Hw. unfold recover. rewrite (walk_index _ _ _ _ _ _ Hw), Hlen. pose proof (hp_ring _ _ _ _ _ (w_heap _ _ _ _ _ _ Hw)) as [Hs Hl Hnum Hhd Ht].
  assert (pos o (Z.of_nat (length ms)) = pos o (Z.of_nat (length (ms ++ [m])) - 1)) as -> by (f_equal; rewrite length_app; simpl; lia).
  rewrite length_app in Hlen. apply wp_bind. eapply wp_mono; [apply (recover_loop_ok (Z.to_nat (MopQ_size (q o))) o e c (ms ++ [m]) ms' n [] Hw); [by destruct ms|]|].
  { rewrite length_app in Hlen. simpl in Hlen. lia. }
  intros [[o1 e1] dead] (ds & Hw1 & -> & Hsq). pose proof Hw1 as [W1 W2 W3 W4 W5]. apply wp_bind. eapply wp_mono; [exact (clear_all_ok ds o1 c _ _ W1)|].
  intros o2 [Hh2 Hcl]. apply heap_rest in Hh2. rewrite Hdrain in Hsq. pose proof Hsq as [Q1 Q2 Q3 Q4 Q5 Q6 [a Qf] Q8 Q9]. simpl in *.
  destruct Hcl as (l & g & Eo2). assert (∀ j, pos o1 j = pos o j) as Ep1 by (intros j; unfold pos; by rewrite Q8, Q9).
  assert (∀ j, pos o2 j = pos o j) as Ep2 by (intros j; rewrite <- Ep1; by rewrite Eo2).
  assert (Z.of_nat (length (ms ++ [m])) - 1 = Z.of_nat (length ms)) as El by (rewrite length_app; simpl; lia). rewrite El.
  rewrite <- Ep2. destruct (last_at _ _ _ _ _ _ Hh2) as [-> _]. cbn [rbind wp]. rewrite length_app in *. simpl in *.
  destruct (W2 (length ms) m) as [Hspm _]; [by rewrite lookup_app_r, Nat.sub_diag by lia|].
  assert (shadow_MopQ o2 = shadow_MopQ o) as Esh by (by rewrite Eo2).
  split; [|split_and!; [done..]].
  destruct Ho as [_ Hc Hp Hsh Hsd [Hn Hn0] _ _ Hmd Hsy Hd _ Htr _ Hgd Has _]. set (o3 := with_flow _ _ _ _).
  assert (∀ j, pos o3 j = pos o j) as Ep3 by done. assert (∀ j l, flow_of o3 j l = flow_of o j l) as Ef3.
  { intros j l'. unfold flow_of, o3. rewrite Eo2. simpl. by rewrite Q8, Q9. }
  rewrite !length_app in *. simpl in *. replace (length ms + 1)%nat with (S (length ms)) in * by lia.
  assert (∀ j x, (ms ++ [m]) !! j = Some x → ((ms ++ [m]) ++ ms') !! j = Some x) as Hpre by (intros; by apply lookup_app_l_Some).
  split; rewrite ?length_app; simpl length; replace (length ms + 1)%nat with (S (length ms)) by lia.
  - exact (heap_ext o2 o3 c _ _ [] eq_refl eq_refl eq_refl Hh2).
  - rewrite Ef3. by rewrite take_1_app in Hc.
  - destruct Hp as (k & Hk & Ek). exists k. split; [done|]. unfold o3. rewrite Eo2. simpl. by rewrite Q8.
  - unfold o3. simpl. rewrite Esh, Eo2. simpl. by rewrite Q8.
  - intros j x Ex. destruct (Hsd j x (Hpre _ _ Ex)) as [-> ->]. split; [|done]. apply lookup_lt_Some in Ex. rewrite length_app in Ex. simpl in Ex. apply bool_decide_ext. lia.
  - split; [lia|]. intros E0. assert (n = 0%nat) as E1 by lia. specialize (Hn0 E1). by destruct ms.
  - unfold o3. rewrite Eo2. simpl. rewrite W3. lia.
  - unfold o3 at 1. rewrite Ep3, Eo2. simpl. by rewrite W4, Ep1.
  - unfold o3. simpl. rewrite Hspm. apply bool_decide_ext. lia.
  - unfold shadows, o3. simpl. rewrite Esh. intros j x Hj Ex. apply Hsy; [lia|]. by apply Hpre.
  - unfold shadows, o3. simpl. rewrite Esh. intros x Hn1 Ex. destruct (decide (n ≤ length ms)%nat).
    + replace (n `min` S (length ms))%nat with n in * by lia. specialize (Hd x Hn1 Ex). lia.
    + replace (n `min` S (length ms))%nat with (S (length ms)) by lia. lia.
  - by left.
  - intros j x Ex Et. destruct (Htr j x (Hpre _ _ Ex) Et) as [Hj _]. apply lookup_lt_Some in Ex as Hlt. rewrite length_app in Hlt. simpl in Hlt. split; [lia|]. left.
    unfold o3. rewrite Eo2. simpl. rewrite Q4. apply lookup_app_Some in Ex as [Ex|[_ Ex]]; [apply lookup_lt_Some in Ex; lia|].
    apply list_lookup_singleton_Some in Ex as [_ <-]. done.
  - unfold o3. rewrite Eo2. simpl. rewrite Q4. intros Et. split; [done|]. by exists ms, m.
  - unfold shadows, o3. simpl. by rewrite Esh.
  - unfold o3. rewrite Eo2. simpl. rewrite Qf. done.
  - done.
Qed.

(** The fetch stage restarts at another address. *)
Lemma ordered_pc o e c ms n pc : ordered o e c ms n →
  ordered (with_fr (with_pcs pc (feeder_PC (fr o)) (feeder_NPC (fr o)) (fr o)) o) e c ms n.
Proof. intros [Hh ? ? ? ? ? ? ? ? ? ? ? ? ? ? ? ?]. split; try done. by apply (heap_ext o). Qed.

Lemma ordered_env o e e' c ms n : ordered o e c ms n → env_ok (caches ms) e' → ordered o e' c ms n.
Proof. intros [] ?. by split. Qed.

(** After a recovery to the macro-op in slot [pos o (length ms)], or without one when the
    fetch stage delays it. *)
Definition recovered (o o' : t) (e' : E) (c : nat) (ms : list Mop) (m : Mop) (n : nat) : Prop :=
  ordered o' e' c (ms ++ [m]) (n `min` S (length ms)) ∧ shadow_MopQ o' = shadow_MopQ o ∧ feeder_NPC (fr o') = NextPC m.

Lemma recover_cache_ok o e c ms m ms' n pc : ordered o e c (ms ++ [m] ++ ms') n →
  wp (match bpred_update m with Some x => bpred_recover e x (negb (pc =? ftPC m)) | None => Ok e end) (λ e', ordered o e' c (ms ++ [m] ++ ms') n).
Proof.
  intros Ho. pose proof (r_env _ _ _ _ _ _ _ _ Ho) as He. destruct (bpred_update m) as [x|] eqn:Eb; [|done].
  assert (caches (ms ++ [m] ++ ms') ≡ₚ x :: caches ms ++ caches ms') as Ep.
  { rewrite !caches_app. unfold caches at 2. simpl. rewrite Eb. simpl. by rewrite Permutation_middle. }
  eapply wp_mono; [apply recover_law; eapply env_perm; [exact Ep|done]|]. intros e' He'. eapply ordered_env; [done|]. eapply env_perm; [by symmetry|done].
Qed.

Lemma pipe_recover_ok o e c ms m ms' n pc : ordered o e c (ms ++ [m] ++ ms') n → is_consumed o ms' →
  wp (pipe_recover o e (pos o (Z.of_nat (length ms))) pc) (λ '(o', e'),
    if jeclear_delay e then o' = o ∧ ordered o e' c (ms ++ [m] ++ ms') n else recovered o o' e' c ms m n ∧ fetch_PC (fr o') = pc ∧ current_Mop o' = None).
Proof.
  intros Ho Hc. unfold pipe_recover. destruct (jeclear_delay e).
  { eapply wp_bind, wp_mono; [apply jeclear_law, (r_env _ _ _ _ _ _ _ _ Ho)|]. intros e' He'. cbn [wp]. split; [done|]. by eapply ordered_env. }
  destruct (mop_at _ _ _ _ _ (length ms) m (r_heap _ _ _ _ _ _ _ _ Ho)) as [-> _]; [by rewrite lookup_app_r, Nat.sub_diag by lia|]. cbn [rbind].
  eapply wp_bind, wp_mono; [exact (recover_cache_ok o e c ms m ms' n pc Ho)|]. intros e1 Ho1.
  eapply wp_bind, wp_mono; [exact (recover_ok o e1 c ms m ms' n Ho1 Hc)|]. intros [o2 e2] (Ho2 & Esh & Enpc & Ecur & _). pose proof (r_env _ _ _ _ _ _ _ _ Ho2) as He2.
  eapply wp_bind, wp_mono; [by apply commit_law|]. intros e3 He3. eapply wp_bind, wp_mono; [by apply exec_law|]. intros e4 He4.
  eapply wp_bind, wp_mono; [by apply alloc_law|]. intros e5 He5. eapply wp_bind, wp_mono; [by apply decode_law|]. intros e6 He6.
  eapply wp_bind, wp_mono; [by apply fetch_law|]. intros e7 He7. cbn [wp]. split; [|done]. split; [|done]. apply ordered_pc. by eapply ordered_env.
Qed.

(** A flush of the macro-op [m']: the recovery is to [m], whose prediction is patched. *)
Lemma pipe_flush_ok o e c ms m m' ms' n : ordered o e c (ms ++ [m] ++ m' :: ms') n →
  wp (pipe_flush o e (pos o (Z.of_nat (S (length ms))))) (λ '(o', e'), let m1 := with_bpred (bpred_update m) (NextPC m) m in
    if jeclear_delay e then o' = repredict (length ms) (bpred_update m) (NextPC m) m o ∧ ordered o' e' c (ms ++ [m1] ++ m' :: ms') n
    else recovered o o' e' c ms m1 n ∧ fetch_PC (fr o') = NextPC m ∧ current_Mop o' = None).
Proof.
  intros Ho. pose proof (ordered_length _ _ _ _ _ _ _ _ Ho) as Hlen. rewrite !length_app in Hlen. simpl in Hlen.
  pose proof (hp_ring _ _ _ _ _ (r_heap _ _ _ _ _ _ _ _ Ho)) as Hr. pose proof Hr as [Hs Hl Hnum Hhd Ht].
  destruct (mop_at _ _ _ _ _ (length ms) m (r_heap _ _ _ _ _ _ _ _ Ho)) as [G _]; [by rewrite lookup_app_r, Nat.sub_diag by lia|].
  unfold pipe_flush. rewrite walk_dec by done. replace (Z.of_nat (S (length ms)) - 1) with (Z.of_nat (length ms)) by lia.
  assert ((1 <? MopQ_num (q o)) && negb (pos o (Z.of_nat (S (length ms))) =? MopQ_head (q o)) = true) as ->.
  { apply andb_true_iff. split; [apply Z.ltb_lt; lia|]. apply negb_true_iff, Z.eqb_neq. intros E0. assert (Z.of_nat (S (length ms)) = 0); [|lia].
    apply (pos_inj _ _ _ _ _ _ _ (r_heap _ _ _ _ _ _ _ _ Ho)); [lia|lia|]. rewrite E0. unfold pos. by rewrite ring.slot_0. }
  cbn [guard_or rbind]. rewrite G. cbn [rbind]. unfold set_Mop. apply aget_inv in G as [Hi Gi]. rewrite aset_ok by done. cbn [rbind].
  change (with_q (with_MopQ (<[Z.to_nat (pos o (Z.of_nat (length ms))) := with_bpred (bpred_update m) (NextPC m) m]> (MopQ (q o))) (q o)) o)
    with (repredict (length ms) (bpred_update m) (NextPC m) m o). set (m1 := with_bpred (bpred_update m) (NextPC m) m).
  assert ((ms ++ [m] ++ m' :: ms') !! length ms = Some m) as Em by (by rewrite lookup_app_r, Nat.sub_diag by lia).
  assert (<[length ms := m1]> (ms ++ [m] ++ m' :: ms') = ms ++ [m1] ++ m' :: ms') as Eins.
  { rewrite <- (Nat.add_0_r (length ms)), insert_app_r. done. }
  assert (ordered (repredict (length ms) (bpred_update m) (NextPC m) m o) e c (ms ++ [m1] ++ m' :: ms') n) as Ho1.
  { rewrite <- Eins. pose proof (r_env _ _ _ _ _ _ _ _ Ho) as He. apply ordered_repredict with (e := e); [done|done| |].
    - right. right. rewrite !length_app. simpl. lia.
    - assert (caches (<[length ms := with_bpred (bpred_update m) (NextPC m) m]> (ms ++ [m] ++ m' :: ms')) = caches (ms ++ [m] ++ m' :: ms')) as ->; [|done].
      rewrite <- (list_insert_id _ _ _ Em) at 2. rewrite !insert_take_drop by (rewrite !length_app; simpl; lia). by rewrite !caches_app. }
  assert (pos o (Z.of_nat (length ms)) = pos (repredict (length ms) (bpred_update m) (NextPC m) m o) (Z.of_nat (length ms))) as -> by done.
  eapply wp_mono; [apply (pipe_recover_ok _ e c ms m1 (m' :: ms') n (NextPC m) Ho1); by right|]. intros [o' e']. cbv zeta. destruct (jeclear_delay e); [|done].
  intros [-> Ho2]. done.
Qed.

(** ** The flush of the whole MopQ *)

Lemma complete_flush_ok o e c ms n : ordered o e c ms n →
  wp (complete_flush o e) (λ '(o', e'), ordered o' e' 0 [] 0 ∧ shadows o' = [] ∧ current_Mop o' = None ∧ drain_pipeline o' = false).
Proof.
  intros Ho. pose proof (ordered_length _ _ _ _ _ _ _ _ Ho) as Hlen. pose proof (ordered_walking _ _ _ _ _ Ho) as Hw. unfold complete_flush.
  rewrite (walk_index _ _ _ _ _ _ Hw), Hlen, <- Hlen, Nat2Z.id. rewrite Hlen at 1.
  eapply wp_bind, wp_mono; [exact (flush_loop_ok o e c ms n [] Hw)|]. intros [[o1 e1] dead] (ds & [W1 _ W3 W4 W5] & -> & Hsq). pose proof Hsq as [Q1 Q2 Q3 Q4 Q5 Q6 [a Qf] Q8 Q9].
  destruct (r_shadow _ _ _ _ _ _ _ _ Ho) as [Hs Hcap]. rewrite Q5. pose proof (shadow_mopq.shadow_entries_length _ Hs) as Esz.
  eapply wp_bind, wp_mono; [apply (pop_all_ok _ _ Hs); rewrite Esz; lia|]. intros sh (Hsh & Hcap' & Eent).
  assert (heap_ok (with_shadow sh o1) c [] (MopQ_num (q (with_shadow sh o1))) ds) as W1' by (by apply (heap_ext o1)).
  rewrite <- (slots_ext o1 (with_shadow sh o1)) by done. change (MopQ_num (q o1)) with (MopQ_num (q (with_shadow sh o1))).
  eapply wp_bind, wp_mono; [exact (clear_all_ok ds _ c [] _ W1')|]. intros o2 [Hh2 (l & g & Eo2)]. apply heap_rest in Hh2.
  pose proof (mops_length _ _ _ _ _ Hh2) as Hn2. simpl in Hn2. destruct (hp_ring _ _ _ _ _ Hh2) as [Hsz Hll Hnum Hhd Ht]. rewrite <- Hn2, ring.slot_0 in Ht by done.
  rewrite Ht, Z.eqb_refl. cbn [guard_or rbind]. assert (pos o1 0 = MopQ_head (q o2)) as Ep0.
  { unfold pos. rewrite Eo2 in *. simpl in *. by rewrite ring.slot_0. }
  rewrite Nat.min_0_r in W3, W4. assert (MopQ_non_spec_tail (q o2) = MopQ_head (q o2)) as -> by (rewrite <- Ep0, Eo2; simpl; exact W4).
  rewrite Z.eqb_refl. cbn [guard_or rbind]. assert (shadow_MopQ o2 = sh) as Esh by (by rewrite Eo2). rewrite Esh.
  assert (shadow_mopq.empty sh = true) as ->.
  { unfold shadow_mopq.empty, buffer.empty. apply Z.eqb_eq. pose proof (shadow_mopq.shadow_entries_length _ Hsh) as E0. rewrite Eent in E0. exact E0. }
  cbn [guard_or rbind wp]. assert (shadows (with_flow false None true (with_drain false o2)) = []) as Es2 by (unfold shadows; simpl; by rewrite Esh).
  split; [|by split]. destruct Ho as [_ _ Hp _ _ _ _ _ _ _ _ _ _ _ _ Has _]. split; rewrite ?Es2; simpl; try done.
  - destruct Hh2 as [B1 B2 B3 B4 B5 B6 B7 B8 B9 B10]. split; try done. simpl. change (flow_of _ 0 []) with (@nil ptr) in *. by rewrite drop_nil in *.
  - rewrite Eo2. simpl. by rewrite Q8.
  - rewrite Esh, Eo2. simpl. split; [done|]. by rewrite Hcap', Hcap, Q8.
  - rewrite Eo2. simpl. by rewrite W3.
  - rewrite Eo2. simpl. rewrite W4. done.
  - by left.
  - rewrite Eo2. simpl. rewrite Qf. done.
Qed.

End order.

End oracle_recover.
