(* ===== verification/OracleRun.v ===== *)
(** * OracleRun: sessions of the oracle

    Everything that the feeder and the pipeline do to the oracle of a core, as events in any
    order: handshakes arrive and are executed, the fetch stage consumes macro-ops and
    predicts, uops and macro-ops commit, branches and memory-order violations send the
    pipeline back, the whole MopQ is flushed.  No session faults, the oracle refines a
    queue of handshakes, and its dependence graph is the dataflow of the uops in flight. *)

From S2P Require Import Prelude Misc Memory Buffer ShadowMopQ OracleDeps Oracle OracleInv OracleSteps OracleOrder OracleRecover.

Module oracle_run.
Import oracle_deps oracle oracle_inv oracle_make oracle_steps oracle_order oracle_recover.

(** ** The fetch stage and the end of a slice *)

(** What the oracle's macro-ops meet besides [PipeEnv]: the branch predictor of the fetch
    stage and of commit, and the flush of the pipeline at the end of a slice. *)
Class FetchEnv (E : Type) : Type := {
  predict : E → Mop → result (E * option Z * Z);
  bpred_train : E → Z → Mop → result E;
  recover_all : E → result E
}.

Class FetchLaws (E : Type) `{PipeLaws E} `{FetchEnv E} : Type := {
  predict_law m T e : env_ok T e → wp (predict e m) (λ '(e', b, _), env_ok (from_option (λ x, [x]) [] b ++ T) e');
  train_law x m T e : env_ok (x :: T) e → wp (bpred_train e x m) (env_ok (x :: T));
  recover_all_law T e : env_ok T e → wp (recover_all e) (env_ok T)
}.

Section session.
Context {E : Type} `{PE : PipeEnv E, PL : !PipeLaws E, FE : !FetchEnv E, FL : !FetchLaws E} (decode : list Z → result inst) (fusion_mode : fusion_flags) (mem : Z → memory.t).

(** [committed] uops of the oldest macro-op have committed (commit_index). *)
Record machine : Type := mk_machine { orc : t; env : E; committed : nat }.

Definition with_PC (pc : Z) (o : t) : t := with_fr (with_pcs pc (feeder_PC (fr o)) (feeder_NPC (fr o)) (fr o)) o.

(** Source: src/xiosim/ZPIPE-fetch/fetch-DPM.cpp:661-688 do_fetch.
    The macro-op is taken from the oracle, its successor predicted, and the fetch PC moved
    there. *)
Definition fetch_consume (o : t) (e : E) (i : Z) : result (t * E) :=
  let* o := consume o i in
  let* m := Mop_at o i in
  let* '(e, b, npc) := predict e m in
  let* o := set_Mop i (with_bpred b npc m) o in
  Ok (with_PC npc o, e).

(** Source: src/xiosim/ZPIPE-fetch/fetch-DPM.cpp:542-549 post_fetch.
    A recovery that the fetch stage delayed. *)
Definition process_jeclear (o : t) (e : E) (i New_PC : Z) : result (t * E) :=
  let* m := Mop_at o i in
  let* e := match bpred_update m with Some c => bpred_recover e c (negb (New_PC =? ftPC m)) | None => Ok e end in
  let* '(o, e) := recover o e i in
  let* e := commit_recover e i in
  let* e := exec_recover e i in
  let* e := alloc_recover e i in
  let* e := decode_recover e i in
  let* e := fetch_recover e New_PC in
  Ok (with_PC New_PC o, e).

(** Source: src/xiosim/ZPIPE-commit/commit-DPM.cpp:386-392 step.
    All uops of the oldest macro-op have completed: the predictor learns. *)
Definition complete (o : t) (e : E) (i : Z) : result (t * E) :=
  let* m := Mop_at o i in
  match bpred_update m with
  | None => Ok (o, e)
  | Some c =>
      let* e := bpred_train e c m in
      let* e := return_state_cache e c in
      let* o := set_Mop i (with_bpred None (pred_NPC m) m) o in
      Ok (o, e)
  end.

(** Source: src/xiosim/sim-loop.cpp:469-483 sim_drain_pipe. *)
Definition sim_drain_pipe (o : t) (e : E) : result (t * E) :=
  let* '(o, e) := complete_flush o e in
  let* e := recover_all e in
  let* e := fetch_recover e (feeder_NPC (fr o)) in
  Ok (with_PC (feeder_NPC (fr o)) o, e).

(** ** Events *)

(** What a session shows: handshakes of the program are accepted, macro-ops commit, and a
    flush drops what has not. *)
Inductive label : Type := Accept (h : shadow_mopq.handshake) | Retire (m : Mop) | Drop.

Inductive event : Type :=
  | Feed (h : shadow_mopq.handshake)
  | Slice (pc : Z)
  | Consume
  | CommitUop
  | Complete
  | Commit
  | Recover (j New_PC : Z)
  | Jeclear (j New_PC : Z)
  | Flush (j : Z)
  | Drain.

Definition empty_MopQ (o : t) : bool := MopQ_num (q o) =? 0.

(** The macro-op at position [j] is there and has been consumed. *)
Definition consumed_at (o : t) (j : Z) : bool :=
  (0 <=? j) && (j <? MopQ_num (q o)) && (bool_decide (current_Mop o = None) || (j <? MopQ_num (q o) - 1)).

(** Source: src/xiosim/sim-loop.cpp:364-394 simulate_handshake.
    One round of its loop: the handshake is buffered when the oracle wants one, and the
    fetch stage executes. *)
Definition feed (s : machine) (h : shadow_mopq.handshake) : result (machine * list label) :=
  let o := orc s in
  let* nuke := on_nuke_recovery_path o in
  let* '(o, r) := if negb nuke && can_exec o then buffer_handshake o h else Ok (o, HANDSHAKE_NOT_CONSUMED) in
  let ls := if bool_decide (r = ALL_GOOD) && negb (shadow_mopq.speculative (shadow_mopq.flags h)) then [Accept h] else [] in
  if bool_decide (r = HANDSHAKE_NOT_NEEDED) || drain_pipeline o then Ok (mk_machine o (env s) (committed s), ls)
  else
    let* '(o, _) := exec decode fusion_mode o (mem (Mop_seq o)) (fetch_PC (fr o)) in
    Ok (mk_machine o (env s) (committed s), ls).

(** Source: src/xiosim/ZPIPE-commit/commit-DPM.cpp:356-362 step.
    A macro-op does not commit before its misprediction has been processed: the last one on
    the right path leaves no wrong path behind it, and the fetch PC is where the program
    goes on. *)
Definition resolved (o : t) : bool :=
  negb (MopQ_num (q o) - MopQ_spec_num (q o) =? 1) ||
  ((MopQ_spec_num (q o) =? 0) && (fetch_PC (fr o) =? feeder_NPC (fr o))).

(** The oldest macro-op, when it has been consumed. *)
Definition oldest (o : t) : result (option Mop) :=
  if consumed_at o 0 then let* m := Mop_at o (MopQ_head (q o)) in Ok (Some m) else Ok None.

Definition quiet (s : machine) (r : result (t * E)) : result (machine * list label) :=
  let* '(o, e) := r in Ok (mk_machine o e (committed s), []).

(** An event that the callers cannot bring about in a state is passed over: consuming
    without a macro-op at hand, committing what is not complete, not resolved or not there,
    recovering to a macro-op that has not been consumed, flushing one that is not there, and
    a new slice while macro-ops are in flight. *)
Definition step (s : machine) (ev : event) : result (machine * list label) :=
  let o := orc s in
  let slot j := ring.slot (MopQ_size (q o)) (MopQ_head (q o)) j in
  match ev with
  | Feed h => feed s h
  | Slice pc =>
      if empty_MopQ o && shadow_mopq.empty (shadow_MopQ o) then Ok (mk_machine (with_fr (with_pcs pc (feeder_PC (fr o)) pc (fr o)) o) (env s) (committed s), [])
      else Ok (s, [])
  | Consume => match current_Mop o with Some i => quiet s (fetch_consume o (env s) i) | None => Ok (s, []) end
  | CommitUop =>
      let* h := oldest o in
      match h with
      | Some m =>
          if Z.of_nat (committed s) <? flow_length m then
            let* '(o, e) := commit_uop o (env s) (MopQ_head (q o), Z.of_nat (committed s)) in Ok (mk_machine o e (S (committed s)), [])
          else Ok (s, [])
      | None => Ok (s, [])
      end
  | Complete =>
      let* h := oldest o in
      match h with Some _ => quiet s (complete o (env s) (MopQ_head (q o))) | None => Ok (s, []) end
  | Commit =>
      let* h := oldest o in
      match h with
      | Some m =>
          if (Z.of_nat (committed s) =? flow_length m) && bool_decide (bpred_update m = None) && resolved o then
            let* o := commit o (MopQ_head (q o)) in Ok (mk_machine o (env s) 0, [Retire m])
          else Ok (s, [])
      | None => Ok (s, [])
      end
  | Recover j pc => if consumed_at o j then quiet s (pipe_recover o (env s) (slot j) pc) else Ok (s, [])
  | Jeclear j pc => if consumed_at o j then quiet s (process_jeclear o (env s) (slot j) pc) else Ok (s, [])
  | Flush j => if (0 <=? j) && (j <? MopQ_num (q o)) then quiet s (pipe_flush o (env s) (slot j)) else Ok (s, [])
  | Drain => let* '(o, e) := sim_drain_pipe o (env s) in Ok (mk_machine o e 0, [Drop])
  end.

Fixpoint run (evs : list event) (s : machine) : result (machine * list label) :=
  match evs with
  | [] => Ok (s, [])
  | ev :: evs =>
      let* '(s, l) := step s ev in
      let* '(s, ls) := run evs s in
      Ok (s, l ++ ls)
  end.

(** The oracle at the start of a slice, which sets both PCs (sim-loop.cpp, simulate_handshake). *)
Definition start (n : Z) (f : front) (e : E) : machine :=
  mk_machine (create n (with_pcs (fetch_PC f) (feeder_PC f) (fetch_PC f) f)) e 0.

(** How a session ends: all events have happened, or the next one is a flush of the oldest
    macro-op, which fails the assertion of pipe_flush. *)
Definition ends (s : machine) (evs : list event) : Prop :=
  match evs with
  | [] => True
  | ev :: _ => ev = Flush 0 ∧ 0 < MopQ_num (q (orc s)) ∧ step s ev = Fault AssertFail
  end.

(** ** The specification: a queue of handshakes *)

(** The handshakes of the program that have not committed. *)
Definition pending (s : machine) : list shadow_mopq.handshake := shadow_mopq.Mop <$> shadows (orc s).

Inductive queue_step : list shadow_mopq.handshake → label → list shadow_mopq.handshake → Prop :=
  | q_accept l h : queue_step l (Accept h) (l ++ [h])
  | q_retire l h m : from decode h m → queue_step (h :: l) (Retire m) l
  | q_drop l : queue_step l Drop [].

Inductive queue_run : list shadow_mopq.handshake → list label → list shadow_mopq.handshake → Prop :=
  | q_nil l : queue_run l [] l
  | q_cons l l' l'' b bs : queue_step l b l' → queue_run l' bs l'' → queue_run l (b :: bs) l''.

Lemma queue_run_app l1 l2 l3 bs bs' : queue_run l1 bs l2 → queue_run l2 bs' l3 → queue_run l1 (bs ++ bs') l3.
Proof. induction 1; [done|]. intros ?. econstructor; [done|]. auto. Qed.

Lemma queue_run_1 l b l' : queue_step l b l' → queue_run l [b] l'.
Proof. intros. econstructor; [done|]. constructor. Qed.

(** ** Every event keeps the order *)

Definition good_event (ev : event) : Prop := match ev with Feed h => good decode fusion_mode mem h | _ => True end.

(** The order; and when no macro-op is in flight, the fetch stage is where the program goes
    on. *)
Definition machine_ok (s : machine) : Prop :=
  ∃ ms n, ordered decode fusion_mode mem (orc s) (env s) (committed s) ms n ∧ (ms = [] → fetch_PC (fr (orc s)) = feeder_NPC (fr (orc s))).

Lemma in_flight_ok s ms n : ordered decode fusion_mode mem (orc s) (env s) (committed s) ms n → ms ≠ [] → machine_ok s.
Proof. intros. by exists ms, n. Qed.

Lemma buffer_pcs o h o' r : buffer_handshake o h = Ok (o', r) → fetch_PC (fr o) = feeder_NPC (fr o) → fetch_PC (fr o') = feeder_NPC (fr o').
Proof.
  intros Hb Epc. assert (∀ x, push_fake o = Ok x → fr x = fr o) as Hf.
  { intros x Hx. by apply bind_Ok_inv in Hx as (? & _ & [= <-]). }
  unfold buffer_handshake in Hb. cbv zeta in Hb. rewrite Epc, Z.eqb_refl in Hb.
  repeat (case_match; simpl in Hb; try done); repeat (apply bind_Ok_inv in Hb as (? & ? & Hb)); simplify_eq; simpl; try done.
  by rewrite Hf.
Qed.

(** What a step promises. *)
Definition steps_to (s : machine) (x : machine * list label) : Prop := machine_ok x.1 ∧ queue_run (pending s) x.2 (pending x.1).

Hypothesis nop_fits : ∃ d, decode ([15; 31; 0] ++ replicate 12 0) = Ok d ∧ ∀ h, fits fusion_mode h d = true.

Lemma stay s : machine_ok s → wp (Ok (s, [])) (steps_to s).
Proof. intros Hs. split; [done|]. constructor. Qed.

Lemma quiet_ok s r : wp r (λ '(o, e), machine_ok (mk_machine o e (committed s)) ∧ shadow_mopq.Mop <$> shadows o = pending s) → wp (quiet s r) (steps_to s).
Proof.
  intros Hr. unfold quiet. eapply wp_bind, wp_mono; [exact Hr|]. intros [o e] [Hm Hp]. cbn [wp]. split; [done|]. unfold pending at 2. simpl. rewrite Hp. constructor.
Qed.

(** Executing when nothing is to be executed. *)
Lemma exec_idle o e c ms n m pc : ordered decode fusion_mode mem o e c ms n → drain_pipeline o = false → can_exec o = false →
  ∃ r, exec decode fusion_mode o m pc = Ok (o, r).
Proof.
  intros Ho Hd Hc. unfold exec. rewrite Hd. cbn [negb guard_or rbind]. destruct (current_Mop o) eqn:Ec; [by eexists|]. unfold can_exec in Hc. rewrite Ec, Hd in Hc.
  simpl in Hc. apply Z.ltb_ge in Hc. rewrite (proj2 (Z.leb_le _ _)) by done. by eexists.
Qed.

Lemma feed_ok s h : machine_ok s → good decode fusion_mode mem h → wp (feed s h) (steps_to s).
Proof.
  intros Hm Hg. pose proof Hm as (ms & n & Ho & Hpc). unfold feed. cbv zeta. pose proof (ordered_length _ _ _ _ _ _ _ _ Ho) as Hlen.
  rewrite (nuke_ok _ _ _ _ _ _ _ _ Ho). cbn [rbind]. pose proof (shadows_length _ _ _ _ _ _ _ _ Ho) as Hsl.
  destruct (can_exec (orc s)) eqn:Hcan.
  - unfold can_exec in Hcan. apply andb_true_iff in Hcan as [Hcan Hroom]. apply andb_true_iff in Hcan as [Hcur Hdr]. apply bool_decide_eq_true in Hcur.
    apply negb_true_iff in Hdr. apply Z.ltb_lt in Hroom. rewrite andb_true_r.
    assert (∀ o r ls, ordered decode fusion_mode mem o (env s) (committed s) ms n → (ms = [] → fetch_PC (fr o) = feeder_NPC (fr o)) → q o = q (orc s) → current_Mop o = None → drain_pipeline o = false →
      shadow_mopq.Mop <$> shadows o = pending s ++ ls → (r ≠ HANDSHAKE_NOT_NEEDED → ready o ms n (fetch_PC (fr o))) → queue_run (pending s) (Accept <$> ls) (pending s ++ ls) →
      wp (if bool_decide (r = HANDSHAKE_NOT_NEEDED) || drain_pipeline o then Ok (mk_machine o (env s) (committed s), Accept <$> ls)
          else let* '(o, _) := exec decode fusion_mode o (mem (Mop_seq o)) (fetch_PC (fr o)) in Ok (mk_machine o (env s) (committed s), Accept <$> ls)) (steps_to s)) as Hexec.
    { intros o r ls Ho' Hpc' Eq Ec Ed Ep Hr Hq. rewrite Ed, orb_false_r. case_bool_decide as Er.
      - cbn [wp]. split; [by exists ms, n|]. unfold pending at 2. simpl. by rewrite Ep.
      - eapply wp_bind, wp_mono; [apply (exec_ok decode fusion_mode mem nop_fits o (env s) (committed s) ms n); [done|done|done|by rewrite Eq|by apply Hr]|].
        intros [o' r'] (m & Ho2 & _ & Ep2 & _). cbn [wp]. split; [eapply in_flight_ok; [exact Ho2|by destruct ms]|]. unfold pending at 2. simpl. by rewrite Ep2, Ep. }
    case_bool_decide as Hn; cbn [negb rbind].
    + apply (Hexec _ _ []); [done|done|done|done|done|by rewrite app_nil_r|intros _|rewrite app_nil_r; constructor]. unfold ready.
      destruct (going_wrong _ _) eqn:Ew; [|done]. split; [|by left]. destruct (r_n _ _ _ _ _ _ _ _ Ho) as [_ Hn0]. destruct n; [|lia]. specialize (Hn0 eq_refl).
      unfold going_wrong in Ew. rewrite (r_mode _ _ _ _ _ _ _ _ Ho), (Hpc Hn0), Z.eqb_refl, Hn0 in Ew. done.
    + pose proof (buffer_handshake_ok decode fusion_mode mem nop_fits (orc s) (env s) (committed s) ms n h Ho ltac:(lia) Hroom Hg Hpc) as Hbuf.
      pose proof (buffer_pcs (orc s) h) as Hpcs. destruct (buffer_handshake (orc s) h) as [[o r]|]; [|done].
      specialize (Hpcs o r eq_refl). cbn [rbind]. destruct Hbuf as (Ho' & Eq & Ec & Ed & Ep & Hr). set (ls := if bool_decide (r = ALL_GOOD) && _ then [h] else []) in *.
      assert ((if bool_decide (r = ALL_GOOD) && negb (shadow_mopq.speculative (shadow_mopq.flags h)) then [Accept h] else []) = Accept <$> ls) as -> by (unfold ls; by destruct (bool_decide (r = ALL_GOOD)), (shadow_mopq.speculative (shadow_mopq.flags h))).
      apply Hexec; [done|by auto|done|congruence|congruence|done|done|]. unfold ls. destruct (bool_decide (r = ALL_GOOD)), (shadow_mopq.speculative (shadow_mopq.flags h)); simpl; rewrite ?app_nil_r;
        first [constructor; fail|apply queue_run_1; constructor].
  - rewrite andb_false_r. cbn [rbind]. rewrite !bool_decide_false by done. cbn [andb orb]. destruct (drain_pipeline (orc s)) eqn:Hd.
    + cbn [wp]. split; [by exists ms, n|]. simpl. constructor.
    + destruct (exec_idle _ _ _ _ _ (mem (Mop_seq (orc s))) (fetch_PC (fr (orc s))) Ho Hd Hcan) as [r ->]. cbn [rbind wp]. split; [by exists ms, n|]. simpl. constructor.
Qed.

Lemma fetch_consume_ok o e c ms n i : ordered decode fusion_mode mem o e c ms n → current_Mop o = Some i →
  wp (fetch_consume o e i) (λ '(o', e'), (∃ ms', ordered decode fusion_mode mem o' e' c ms' n ∧ ms' ≠ []) ∧ shadow_MopQ o' = shadow_MopQ o).
Proof.
  intros Ho Ei. unfold fetch_consume. eapply wp_bind, wp_mono; [by apply (consume_ok decode fusion_mode mem o e c ms n)|].
  intros o1 (Ho1 & Ec & Eq & Ef & Esh). destruct (r_current _ _ _ _ _ _ _ _ Ho) as [E0|(ms' & m & Ems & E1 & Eb)]; [by rewrite E0 in Ei|]. rewrite E1 in Ei. injection Ei as <-.
  assert (∀ j, pos o j = pos o1 j) as Ep by (intros j; unfold pos; by rewrite Eq). rewrite Ep. subst ms.
  destruct (last_at _ _ _ _ _ _ (r_heap _ _ _ _ _ _ _ _ Ho1)) as [G _]. rewrite G. cbn [rbind].
  eapply wp_bind, wp_mono; [apply predict_law, (r_env _ _ _ _ _ _ _ _ Ho1)|]. intros [[e1 b] npc] He1.
  unfold set_Mop. apply aget_inv in G as [Hi _]. rewrite aset_ok by done. cbn [rbind wp].
  assert ((ms' ++ [m]) !! length ms' = Some m) as Em by (by rewrite lookup_app_r, Nat.sub_diag by lia).
  split; [|exact Esh]. exists (<[length ms' := with_bpred b npc m]> (ms' ++ [m])).
  split; [|intros E0%(f_equal length); rewrite length_insert, length_app in E0; simpl in E0; lia]. apply ordered_pc.
  apply (ordered_repredict decode fusion_mode mem o1 e e1 c (ms' ++ [m]) n (length ms') m b npc); [done|done|by left|].
  eapply env_perm; [|exact He1]. rewrite (caches_insert _ _ _ b npc Em). f_equiv. rewrite (caches_without _ _ _ npc Em), Eb. done.
Qed.

Lemma complete_ok o e c m ms n : ordered decode fusion_mode mem o e c (m :: ms) n →
  wp (complete o e (MopQ_head (q o))) (λ '(o', e'), (∃ ms', ordered decode fusion_mode mem o' e' c ms' n ∧ ms' ≠ []) ∧ shadow_MopQ o' = shadow_MopQ o).
Proof.
  intros Ho. unfold complete. destruct (head_at _ _ _ _ _ _ _ _ _ Ho) as [G _]. rewrite G. cbn [rbind].
  destruct (bpred_update m) as [x|] eqn:Eb; [|cbn [wp]; split; [by eexists|done]]. pose proof (r_env _ _ _ _ _ _ _ _ Ho) as He.
  assert (caches (m :: ms) = x :: caches ms) as Ec by (unfold caches; simpl; by rewrite Eb). rewrite Ec in He.
  eapply wp_bind, wp_mono; [by apply train_law|]. intros e1 He1. eapply wp_bind, wp_mono; [by apply return_law|]. intros e2 He2.
  unfold set_Mop. apply aget_inv in G as [Hi _]. rewrite aset_ok by done. cbn [rbind wp]. split; [|done].
  pose proof (hp_ring _ _ _ _ _ (r_heap _ _ _ _ _ _ _ _ Ho)) as [Hs _ _ Hh _]. assert (MopQ_head (q o) = pos o (Z.of_nat 0)) as -> by (unfold pos; by rewrite ring.slot_0).
  exists (<[0%nat := with_bpred None (pred_NPC m) m]> (m :: ms)). split; [|done]. apply (ordered_repredict decode fusion_mode mem o e e2 c (m :: ms) n 0 m None); [done|done|by right; left|done].
Qed.

(** The macro-op at a position. *)
Lemma consumed_split o e c ms n j : ordered decode fusion_mode mem o e c ms n → consumed_at o j = true →
  ∃ ms1 m ms2, ms = ms1 ++ [m] ++ ms2 ∧ j = Z.of_nat (length ms1) ∧ is_consumed o ms2.
Proof.
  intros Ho Hc. pose proof (ordered_length _ _ _ _ _ _ _ _ Ho) as Hlen. unfold consumed_at in Hc. apply andb_true_iff in Hc as [Hc Hcur]. apply andb_true_iff in Hc as [H0 H1].
  apply Z.leb_le in H0. apply Z.ltb_lt in H1. destruct (lookup_lt_is_Some_2 ms (Z.to_nat j)) as [m Em]; [lia|]. exists (take (Z.to_nat j) ms), m, (drop (S (Z.to_nat j)) ms).
  split; [symmetry; by apply take_drop_middle|]. rewrite length_take. split; [lia|]. apply orb_true_iff in Hcur as [Hcur|Hcur].
  - left. by apply bool_decide_eq_true in Hcur.
  - right. apply Z.ltb_lt in Hcur. intros E0. apply (f_equal length) in E0. rewrite length_drop in E0. simpl in E0. lia.
Qed.

Lemma jeclear_ok o e c ms m ms' n pc : ordered decode fusion_mode mem o e c (ms ++ [m] ++ ms') n → is_consumed o ms' →
  wp (process_jeclear o e (pos o (Z.of_nat (length ms))) pc) (λ '(o', e'), recovered decode fusion_mode mem o o' e' c ms m n ∧ fetch_PC (fr o') = pc).
Proof.
  intros Ho Hc. unfold process_jeclear.
  destruct (mop_at _ _ _ _ _ (length ms) m (r_heap _ _ _ _ _ _ _ _ Ho)) as [-> _]; [by rewrite lookup_app_r, Nat.sub_diag by lia|]. cbn [rbind].
  eapply wp_bind, wp_mono; [exact (recover_cache_ok _ _ _ o e c ms m ms' n pc Ho)|]. intros e1 Ho1.
  eapply wp_bind, wp_mono; [exact (recover_ok _ _ _ o e1 c ms m ms' n Ho1 Hc)|]. intros [o2 e2] (Ho2 & Esh & Enpc & Ecur & _). pose proof (r_env _ _ _ _ _ _ _ _ Ho2) as He2.
  eapply wp_bind, wp_mono; [by apply commit_law|]. intros e3 He3. eapply wp_bind, wp_mono; [by apply exec_law|]. intros e4 He4.
  eapply wp_bind, wp_mono; [by apply alloc_law|]. intros e5 He5. eapply wp_bind, wp_mono; [by apply decode_law|]. intros e6 He6.
  eapply wp_bind, wp_mono; [by apply fetch_law|]. intros e7 He7. cbn [wp]. split; [|done]. split; [|done]. apply ordered_pc. by eapply ordered_env.
Qed.

Lemma drain_ok o e c ms n : ordered decode fusion_mode mem o e c ms n →
  wp (sim_drain_pipe o e) (λ '(o', e'), ordered decode fusion_mode mem o' e' 0 [] 0 ∧ shadows o' = [] ∧ fetch_PC (fr o') = feeder_NPC (fr o')).
Proof.
  intros Ho. unfold sim_drain_pipe. eapply wp_bind, wp_mono; [by apply (complete_flush_ok decode fusion_mode mem o e c ms n)|].
  intros [o1 e1] (Ho1 & Es & _). pose proof (r_env _ _ _ _ _ _ _ _ Ho1) as He. eapply wp_bind, wp_mono; [by apply recover_all_law|]. intros e2 He2.
  eapply wp_bind, wp_mono; [by apply fetch_law|]. intros e3 He3. cbn [wp]. split; [|done]. apply ordered_pc. by eapply ordered_env.
Qed.

Lemma oldest_ok s : machine_ok s → wp (oldest (orc s)) (λ r, match r with
  | Some m => ∃ ms n, ordered decode fusion_mode mem (orc s) (env s) (committed s) (m :: ms) n ∧ is_consumed (orc s) ms
  | None => True end).
Proof.
  intros (ms & n & Ho & _). unfold oldest. destruct (consumed_at (orc s) 0) eqn:Hc; [|done]. destruct (consumed_split _ _ _ _ _ _ Ho Hc) as (ms1 & m & ms2 & -> & H1 & H2).
  destruct ms1; [|simpl in H1; lia]. simpl in Ho. destruct (head_at _ _ _ _ _ _ _ _ _ Ho) as [-> _]. cbn [rbind wp]. by exists ms2, n.
Qed.

(** A flush of the oldest macro-op fails the assertion of pipe_flush. *)
Lemma flush_oldest s : machine_ok s → step s (Flush 0) = Ok (s, []) ∨ ends s [Flush 0].
Proof.
  intros (ms & n & Ho & _). unfold ends, step. cbv zeta. pose proof (hp_ring _ _ _ _ _ (r_heap _ _ _ _ _ _ _ _ Ho)) as [Hs _ _ Hh _].
  destruct (0 <? MopQ_num (q (orc s))) eqn:E0; [right|by left]. split; [done|]. split; [by apply Z.ltb_lt|]. simpl. unfold pipe_flush.
  by rewrite ring.slot_0, Z.eqb_refl, andb_false_r.
Qed.

Lemma flush_ok s j : machine_ok s → 1 ≤ j → wp (step s (Flush j)) (steps_to s).
Proof.
  intros Hm H1. pose proof Hm as (ms & n & Ho & _). pose proof (ordered_length _ _ _ _ _ _ _ _ Ho) as Hlen. unfold step. cbv zeta.
  destruct ((0 <=? j) && (j <? MopQ_num (q (orc s)))) eqn:Hc; [|by apply stay]. apply andb_true_iff in Hc as [_ H2]. apply Z.ltb_lt in H2.
  destruct (lookup_lt_is_Some_2 ms (Z.to_nat j)) as [m' Em']; [lia|]. destruct (lookup_lt_is_Some_2 ms (Z.to_nat j - 1)) as [m Em]; [lia|].
  assert (ms = take (Z.to_nat j - 1) ms ++ [m] ++ m' :: drop (S (Z.to_nat j)) ms) as Ems.
  { rewrite <- (drop_S _ _ _ Em'). replace (Z.to_nat j) with (S (Z.to_nat j - 1)) at 2 by lia. symmetry. by apply take_drop_middle. }
  set (ms1 := take (Z.to_nat j - 1) ms) in *. assert (j = Z.of_nat (S (length ms1))) as Ej by (unfold ms1; rewrite length_take; lia).
  rewrite Ems in Ho. rewrite Ej. apply quiet_ok. eapply wp_mono; [exact (pipe_flush_ok _ _ _ _ _ _ ms1 m m' _ n Ho)|]. intros [o e]. cbv zeta. destruct (jeclear_delay (env s)).
  - intros [-> Ho2]. split; [by eapply in_flight_ok; [exact Ho2|destruct ms1]|done].
  - intros [(Ho2 & Esh & _) _]. split; [by eapply in_flight_ok; [exact Ho2|destruct ms1]|]. unfold pending, shadows. by rewrite Esh.
Qed.

Lemma commit_event_ok s : machine_ok s → wp (step s Commit) (steps_to s).
Proof.
  intros Hm. unfold step. cbv zeta. eapply wp_bind, wp_mono; [by apply oldest_ok|]. intros [m|]; [|intros _; by apply stay]. intros (ms1 & n1 & Ho1 & Hcons).
  destruct (_ && resolved _) eqn:Hc; [|by apply stay]. apply andb_true_iff in Hc as [Hc Hsp]. apply andb_true_iff in Hc as [Hc Hb]. apply Z.eqb_eq in Hc. apply bool_decide_eq_true in Hb.
  assert (committed s = Z.to_nat (flow_length m)) as Ec by lia. rewrite Ec in Ho1. pose proof (ordered_length _ _ _ _ _ _ _ _ Ho1) as Hl1.
  unfold resolved in Hsp. rewrite (r_num _ _ _ _ _ _ _ _ Ho1) in Hsp. simpl in Hl1, Hsp.
  eapply wp_bind, wp_mono; [apply (ordered_commit_ok _ _ _ _ _ _ _ _ Ho1); [|done|done]|].
  - intros ->. destruct ms1; [done|]. simpl in *. apply orb_true_iff in Hsp as [Hsp|[Hsp _]%andb_true_iff]; [apply negb_true_iff, Z.eqb_neq in Hsp|apply Z.eqb_eq in Hsp]; lia.
  - intros o (Ho2 & Hfr & h & Eh & Hf). cbn [wp]. split; [|apply queue_run_1; unfold pending; simpl; rewrite Eh; by constructor].
    eexists _, _. split; [exact Ho2|]. simpl. intros ->. pose proof (r_n _ _ _ _ _ _ _ _ Ho1) as [Hn Hn0]. simpl in *.
    destruct n1 as [|[|]]; [by specialize (Hn0 eq_refl)| |lia]. rewrite <- Hl1 in Hsp. simpl in Hsp. apply Z.eqb_eq in Hsp. by rewrite Hfr.
Qed.

Lemma event_ok s ev : machine_ok s → good_event ev → ev ≠ Flush 0 → wp (step s ev) (steps_to s).
Proof.
  intros Hm Hg Hnot. pose proof Hm as (ms & n & Ho & Hpc). destruct ev as [h|pc| | | | |j pc|j pc|j|]; simpl in Hg.
  - by apply feed_ok.
  - unfold step. cbv zeta. destruct (_ && _); [|by apply stay]. cbn [wp]. split; [|constructor]. exists ms, n. split; [|done].
    destruct Ho as [Hh ? ? ? ? ? ? ? ? ? ? ? ? ? ? ? ?]. split; try done. by apply (heap_ext (orc s)).
  - unfold step. cbv zeta. destruct (current_Mop (orc s)) as [i|] eqn:Ei; [|by apply stay]. apply quiet_ok. eapply wp_mono; [by apply (fetch_consume_ok _ _ _ _ _ _ Ho)|].
    intros [o e] [(ms' & Ho' & Hne) Esh]. split; [by eapply in_flight_ok|]. unfold pending, shadows. by rewrite Esh.
  - unfold step. cbv zeta. eapply wp_bind, wp_mono; [by apply oldest_ok|]. intros [m|]; [|intros _; by apply stay]. intros (ms1 & n1 & Ho1 & _).
    destruct (Z.ltb_spec (Z.of_nat (committed s)) (flow_length m)) as [Hc|]; [|by apply stay].
    eapply wp_bind, wp_mono; [by apply (ordered_commit_uop _ _ _ _ _ _ _ _ _ Ho1)|]. intros [o e] [Ho2 [g ->]]. cbn [wp]. split; [by eapply in_flight_ok|constructor].
  - unfold step. cbv zeta. eapply wp_bind, wp_mono; [by apply oldest_ok|]. intros [m|]; [|intros _; by apply stay]. intros (ms1 & n1 & Ho1 & _). apply quiet_ok.
    eapply wp_mono; [exact (complete_ok _ _ _ _ _ _ Ho1)|]. intros [o e] [(ms' & Ho' & Hne) Esh]. split; [by eapply in_flight_ok|]. unfold pending, shadows. by rewrite Esh.
  - by apply commit_event_ok.
  - unfold step. cbv zeta. destruct (consumed_at (orc s) j) eqn:Hc; [|by apply stay]. destruct (consumed_split _ _ _ _ _ _ Ho Hc) as (ms1 & m & ms2 & -> & -> & Hcons). apply quiet_ok.
    eapply wp_mono; [exact (pipe_recover_ok _ _ _ _ _ _ ms1 m ms2 n pc Ho Hcons)|]. intros [o e]. destruct (jeclear_delay (env s)).
    + intros [-> Ho2]. split; [by eapply in_flight_ok; [exact Ho2|destruct ms1]|done].
    + intros [(Ho2 & Esh & _) _]. split; [by eapply in_flight_ok; [exact Ho2|destruct ms1]|]. unfold pending, shadows. by rewrite Esh.
  - unfold step. cbv zeta. destruct (consumed_at (orc s) j) eqn:Hc; [|by apply stay]. destruct (consumed_split _ _ _ _ _ _ Ho Hc) as (ms1 & m & ms2 & -> & -> & Hcons). apply quiet_ok.
    eapply wp_mono; [exact (jeclear_ok _ _ _ ms1 m ms2 n pc Ho Hcons)|]. intros [o e] [(Ho2 & Esh & _) _]. split; [by eapply in_flight_ok; [exact Ho2|destruct ms1]|].
    unfold pending, shadows. by rewrite Esh.
  - destruct (Z_le_gt_dec 1 j); [by apply flush_ok|]. unfold step. cbv zeta. destruct (Z.leb_spec 0 j); [|by apply stay]. assert (j = 0) by lia. congruence.
  - unfold step. eapply wp_bind, wp_mono; [by apply (drain_ok _ _ _ _ _ Ho)|]. intros [o e] (Ho2 & Es & Epc). cbn [wp]. split; [by exists [], 0%nat|].
    apply queue_run_1. unfold pending at 2. simpl. rewrite Es. constructor.
Qed.

(** What a session promises of the events [evs] that it does before it ends. *)
Definition session_to (evs : list event) (s : machine) : Prop :=
  ∃ evs1 evs2 s' ls, evs = evs1 ++ evs2 ∧ run evs1 s = Ok (s', ls) ∧ ends s' evs2 ∧ steps_to s (s', ls).

Lemma session_ok evs s : machine_ok s → Forall good_event evs → session_to evs s.
Proof.
  revert s. induction evs as [|ev evs IH]; intros s Hm Hg.
  { exists [], [], s, []. repeat (split; [done|]). constructor. }
  apply list.Forall_cons in Hg as [Hg1 Hg].
  assert (ends s (ev :: evs) ∨ wp (step s ev) (steps_to s)) as [Hend|Hw].
  { assert (ev = Flush 0 ∨ ev ≠ Flush 0) as [->|Hne] by (destruct ev as [| | | | | | | |j|]; try (by right); destruct (decide (j = 0)) as [->|]; [by left|right; congruence]).
    - destruct (flush_oldest s Hm) as [->|Hend]; [right; by apply stay|by left].
    - right. by apply event_ok. }
  - exists [], (ev :: evs), s, []. repeat (split; [done|]). constructor.
  - destruct (step s ev) as [[s1 l1]|] eqn:Es; [|done]. destruct Hw as [Hm1 Hq1]. simpl in Hm1, Hq1.
    destruct (IH s1 Hm1 Hg) as (evs1 & evs2 & s2 & l2 & -> & Er & Hend & Hm2 & Hq2). simpl in Hm2, Hq2.
    exists (ev :: evs1), evs2, s2, (l1 ++ l2). split; [done|]. cbn [run]. rewrite Es. cbn [rbind]. rewrite Er. split; [done|]. split; [done|].
    split; [done|]. by eapply queue_run_app.
Qed.

Lemma start_ok k f e : 0 ≤ k < 30 → asid_ok mem (asid f) → env_ok [] e → machine_ok (start (2 ^ k) f e).
Proof.
  intros Hk Ha He. exists [], 0%nat. split; [|done]. pose proof (Z.pow_lt_mono_r 2 k 30 ltac:(lia) ltac:(lia) ltac:(lia)). pose proof (Z.pow_pos_nonneg 2 k ltac:(lia) ltac:(lia)).
  destruct (shadow_mopq.shadow_create_ok (2 ^ k)) as (Hs1 & Hs2 & Hs3); [lia|]. pose proof (ring.ring_create (2 ^ k) cleared ltac:(lia)) as Hr.
  split; simpl; try done.
  - split; simpl; try done; [lia|apply empty_graph_ok|]. intros p. rewrite lookup_empty. split; [by intros [? ?]|by intros ?%elem_of_nil].
  - by exists k.
  - by left.
Qed.

Lemma start_pending k f e : pending (start (2 ^ k) f e) = [].
Proof. done. Qed.

(** ** Sessions from the start *)

(** C1. In any session, from an empty MopQ of any size a configuration allows and the start of
    a slice, no operation of the oracle faults but one: a flush of the oldest macro-op in
    flight fails the assertion of pipe_flush ([ends]), at whatever point it comes, and the
    session ends there.  Up to there the oracle refines a queue of handshakes: the handshakes
    of the program are accepted at its end, every macro-op that commits was made from the one
    at its front, wrong paths, recoveries and replays included, and only a drain drops any.
    The handshakes are those of translatable code that the decoder takes ([good]); the last
    macro-op of the right path commits when its misprediction has been processed
    ([resolved]), as the commit stage sees to. *)
Theorem oracle_refines_queue k f e evs : 0 ≤ k < 30 → asid_ok mem (asid f) → env_ok [] e → Forall good_event evs →
  ∃ evs1 evs2 s ls, evs = evs1 ++ evs2 ∧ run evs1 (start (2 ^ k) f e) = Ok (s, ls) ∧ ends s evs2 ∧ queue_run [] ls (pending s).
Proof.
  intros Hk Ha He Hg. destruct (session_ok evs _ (start_ok k f e Hk Ha He) Hg) as (evs1 & evs2 & s & ls & E0 & Er & Hend & _ & Hq).
  rewrite start_pending in Hq. by exists evs1, evs2, s, ls.
Qed.

(** C7. At every point of a session (which ends at a flush of the oldest macro-op, if one
    comes, as in C1) the dependence graph is the dataflow of the uops in
    flight: an operand points to the youngest older uop in flight that writes its register,
    the rename table lists the writers of each register in order, and when the MopQ is empty
    no uop and no link node is left behind. *)
Theorem oracle_graph_is_dataflow k f e evs : 0 ≤ k < 30 → asid_ok mem (asid f) → env_ok [] e → Forall good_event evs →
  ∃ evs1 evs2 s ls, evs = evs1 ++ evs2 ∧ run evs1 (start (2 ^ k) f e) = Ok (s, ls) ∧ ends s evs2 ∧
    let g := deps (orc s) in
    let live := drop (committed s) (flow_of (orc s) 0 (mops (orc s))) in
    (∀ p i x, operand g p i x ↔ dataflow (regs_of g) live p i x) ∧
    (∀ r, r ≠ XED_REG_INVALID → producers (dep_map g) r = live ≫= writes_of (regs_of g) r) ∧
    (MopQ_num (q (orc s)) = 0 → links_of g = ∅ ∧ debt g = 0).
Proof.
  intros Hk Ha He Hg. destruct (session_ok evs _ (start_ok k f e Hk Ha He) Hg) as (evs1 & evs2 & s & ls & E0 & Er & Hend & (ms & n & Ho & _) & _). simpl in Ho.
  exists evs1, evs2, s, ls. split; [done|]. split; [done|]. split; [done|]. pose proof (r_heap _ _ _ _ _ _ _ _ Ho) as Hh. pose proof (hp_graph _ _ _ _ _ Hh) as Hgr. cbv zeta. rewrite (hp_ms _ _ _ _ _ Hh).
  split; [apply (g_operands _ _ Hgr)|]. split; [apply (g_map _ _ Hgr)|]. intros En. pose proof (ordered_length _ _ _ _ _ _ _ _ Ho) as Hlen. destruct ms; [|simpl in Hlen; lia].
  change (flow_of (orc s) 0 []) with (@nil ptr) in Hgr. rewrite drop_nil in Hgr. split; [|by apply no_debt]. apply map_eq. intros p. rewrite lookup_empty.
  apply eq_None_not_Some. rewrite (hp_nodes _ _ _ _ _ Hh). simpl. by intros ?%elem_of_nil.
Qed.

(** C11. At every point of a session (which ends at a flush of the oldest macro-op, if one
    comes, as in C1) the macro-ops on the right path come before those on a
    wrong one, which are there exactly when the oracle speculates; the first are those of the
    first handshakes of the shadow MopQ, position by position; a trap is the youngest
    macro-op, and the pipeline drains exactly for a trap that has been consumed. *)
Theorem oracle_paths_ordered k f e evs : 0 ≤ k < 30 → asid_ok mem (asid f) → env_ok [] e → Forall good_event evs →
  ∃ evs1 evs2 s ls n, evs = evs1 ++ evs2 ∧ run evs1 (start (2 ^ k) f e) = Ok (s, ls) ∧ ends s evs2 ∧
    let o := orc s in
    Z.of_nat (length (mops o)) ≤ MopQ_size (q o) ∧ spec o = bool_decide (n < length (mops o))%nat ∧
    (∀ j m, mops o !! j = Some m → spec_mode m = bool_decide (n ≤ j)%nat ∧ (is_trap m = true → S j = length (mops o))) ∧
    (∀ j m, (j < n)%nat → mops o !! j = Some m → ∃ h, pending s !! j = Some h ∧ from decode h m) ∧
    (drain_pipeline o = true ↔ current_Mop o = None ∧ ∃ m, list.last (mops o) = Some m ∧ is_trap m = true).
Proof.
  intros Hk Ha He Hg. destruct (session_ok evs _ (start_ok k f e Hk Ha He) Hg) as (evs1 & evs2 & s & ls & E0 & Er & Hend & (ms & n & Ho & _) & _). simpl in Ho.
  exists evs1, evs2, s, ls, n. split; [done|]. split; [done|]. split; [done|]. cbv zeta.
  pose proof (r_heap _ _ _ _ _ _ _ _ Ho) as Hh. rewrite (hp_ms _ _ _ _ _ Hh). pose proof (ordered_length _ _ _ _ _ _ _ _ Ho) as Hlen.
  destruct (hp_ring _ _ _ _ _ Hh) as [_ _ Hnum _ _]. split; [lia|]. split; [apply (r_mode _ _ _ _ _ _ _ _ Ho)|]. split_and!.
  - intros j m Ej. split; [by apply (r_sides _ _ _ _ _ _ _ _ Ho)|]. intros Et. by apply (r_trap _ _ _ _ _ _ _ _ Ho j m).
  - intros j m Hj Ej. destruct (r_sync _ _ _ _ _ _ _ _ Ho j m Hj Ej) as (x & Ex & Hf). exists (shadow_mopq.Mop x). split; [|done]. unfold pending. by rewrite list_lookup_fmap, Ex.
  - split.
    { intros Hd. destruct (r_drain _ _ _ _ _ _ _ _ Ho Hd) as (Hc & ms' & m & -> & Et). split; [done|]. exists m. by rewrite list.last_snoc. }
    intros (Hc & m & El & Et). apply list.last_Some in El as [ms' ->]. destruct (r_trap _ _ _ _ _ _ _ _ Ho (length ms') m) as [_ [Hd|Hd]]; [|done|done|done].
    by rewrite lookup_app_r, Nat.sub_diag by lia.
Qed.

End session.

(** ** A small session *)

Module demo.

(** Instructions of one uop: bytes [kind; dst; src1; src2]; kind 2 is a branch, kind 3 a
    trap, and 15 the NOP. *)
Definition uop_of (k dst s1 s2 : Z) : uop_decode :=
  mk_uop_decode [s1; s2; 0] [dst; 0] false (k =? 2) false false false (k =? 15) false (mk_fusion_flags false false false false) (-1).

Definition decode (code : list Z) : result inst :=
  match code with
  | k :: d :: s1 :: s2 :: _ => if k =? 15 then Ok (mk_inst false false false true [uop_of 15 0 0 0]) else Ok (mk_inst (k =? 3) (k =? 2) false false [uop_of k d s1 s2])
  | _ => Fault AssertFail
  end.

Definition no_fusion : fusion_flags := mk_fusion_flags false false false false.

(** The state caches that are out, and the next one. *)
Definition caches_out : Type := list Z * Z.

Definition holds (e : caches_out) (c : Z) : result caches_out := let* _ := guard_or (bool_decide (c ∈ e.1)) AssertFail in Ok e.

#[export] Instance pipe_env : PipeEnv caches_out := {|
  bpred_flush := holds;
  return_state_cache e c := let* e := holds e c in Ok (filter (λ x, x ≠ c) e.1, e.2);
  bpred_recover e c _ := holds e c;
  jeclear_delay _ := false;
  jeclear_enqueue e _ _ := Ok e;
  commit_recover e _ := Ok e;
  exec_recover e _ := Ok e;
  alloc_recover e _ := Ok e;
  decode_recover e _ := Ok e;
  fetch_recover e _ := Ok e;
  release_uop e _ := Ok e
|}.

Definition out_ok (T : list Z) (e : caches_out) : Prop := e.1 ≡ₚ T ∧ NoDup T ∧ Forall (λ c, c < e.2) T.

Lemma holds_ok c T e : out_ok (c :: T) e → holds e c = Ok e.
Proof. intros (H1 & _ & _). unfold holds. by rewrite bool_decide_true by (rewrite H1; by left). Qed.

Lemma give_back c T e : out_ok (c :: T) e → wp (return_state_cache e c) (out_ok T).
Proof.
  intros He. unfold return_state_cache, pipe_env. rewrite (holds_ok c T) by done. cbn [rbind wp]. destruct He as (H1 & H2 & H3).
  apply list.NoDup_cons in H2 as [Hc Hn]. apply list.Forall_cons in H3 as [_ H3]. split; [|done]. simpl. rewrite H1, filter_cons_False by auto.
  clear H1. induction T as [|x T IH]; [done|]. rewrite filter_cons_True by (intros ->; apply Hc; by left). f_equiv. apply IH; [by intros ?; apply Hc; right|by apply list.NoDup_cons in Hn as [_ ?]|by apply list.Forall_cons in H3 as [_ ?]].
Qed.

#[export] Instance pipe_laws : PipeLaws caches_out.
Proof.
  refine {| env_ok := out_ok; return_law := give_back |}; try done.
  - intros T T' e Hp (H1 & H2 & H3). split; [by rewrite H1|]. by rewrite <- Hp.
  - intros c T e He. unfold bpred_flush, pipe_env. by rewrite (holds_ok c T).
  - intros c b T e He. unfold bpred_recover, pipe_env. by rewrite (holds_ok c T).
Defined.

#[export] Instance fetch_env : FetchEnv caches_out := {|
  predict e m := if is_ctrl_Mop m then Ok ((e.2 :: e.1, e.2 + 1), Some e.2, 100) else Ok (e, None, NextPC m);
  bpred_train e c _ := holds e c;
  recover_all e := Ok e
|}.

#[export] Instance fetch_laws : FetchLaws caches_out.
Proof.
  split; [| |done].
  - intros m T e (H1 & H2 & H3). unfold predict, fetch_env. destruct (is_ctrl_Mop m); [|done]. simpl. split; [by rewrite H1|]. split.
    + apply list.NoDup_cons. split; [|done]. intros Hin. rewrite list.Forall_forall in H3. specialize (H3 _ Hin). lia.
    + apply list.Forall_cons. split; [simpl; lia|]. eapply list.Forall_impl; [exact H3|]. intros x Hx. simpl in *. lia.
  - intros x m T e He. unfold bpred_train, fetch_env. by rewrite (holds_ok x T).
Qed.

(** A handshake at [pc]; [spec] says whether it is from a wrong path. *)
Definition shake (spec : bool) (pc npc tpc : Z) (taken : bool) (code : list Z) : shadow_mopq.handshake :=
  shadow_mopq.mk_handshake (shadow_mopq.mk_flags true false taken false true false spec false false) pc npc tpc 0 code (-1) [] 0.

Definition env0 : caches_out := ([], 0).
Definition no_memory (n : Z) : memory.t := memory.init 1 memory.initial.
Definition front0 : front := mk_front true 0 0 0 false false (-1) false 0.

(** A branch at 4 is predicted to go to 100, where a wrong path begins; it is found out, the
    right path is executed, its last macro-op is flushed and executed again from the shadow
    MopQ, and all commits. *)
Definition session : list event :=
  [Slice 0; Feed (shake false 0 4 4 false [1; 5; 0; 0]); Consume; Feed (shake false 4 8 8 false [2; 0; 5; 0]); Consume;
   Feed (shake true 100 104 104 false [1; 6; 5; 0]); Consume; Recover 1 8; Feed (shake false 8 12 12 false [1; 6; 5; 5]); Consume;
   Flush 2; Feed (shake false 12 16 16 false [1; 7; 5; 5]); Consume; CommitUop; Complete; Commit; CommitUop; Complete; Commit; CommitUop; Complete; Commit].

(** The same, but the oldest macro-op is flushed as well. *)
Definition bad_session : list event := take 10 session ++ [Flush 0; Consume].

Lemma translate n : translatable (no_memory n) (-1).
Proof. split; [by apply memory.init_ok|by right]. Qed.

Lemma nop : ∃ d, decode ([15; 31; 0] ++ replicate 12 0) = Ok d ∧ ∀ h, fits no_fusion h d = true.
Proof. eexists. split; [reflexivity|]. done. Qed.

Lemma session_good : Forall (good_event decode no_fusion no_memory) session.
Proof.
  repeat (apply list.Forall_cons; split; [first [exact I|split; [reflexivity|split; [exact translate|eexists; split; reflexivity]]]|]). apply list.Forall_nil. exact I.
Qed.

Lemma caches_ok : env_ok [] env0.
Proof. split; [done|]. split; [constructor|by apply list.Forall_nil]. Qed.

Definition final (evs : list event) : option (machine * list label) :=
  match run decode no_fusion no_memory evs (start 8 front0 env0) with Ok x => Some x | Fault _ => None end.

End demo.
Import demo.

Lemma oracle_refines_queue_witness :
  (∃ evs1 evs2 s ls, demo.session = evs1 ++ evs2 ∧ run demo.decode demo.no_fusion demo.no_memory evs1 (start (2 ^ 3) demo.front0 demo.env0) = Ok (s, ls) ∧
    ends demo.decode demo.no_fusion demo.no_memory s evs2 ∧ queue_run demo.decode [] ls (pending s)) ∧
  match demo.final demo.session with
  | Some (s, ls) => PC <$> omap (λ l, match l with Retire m => Some m | _ => None end) ls = [0; 4; 8] ∧ pending s = []
  | None => False
  end.
Proof.
  split; [|by vm_compute].
  apply (oracle_refines_queue demo.decode demo.no_fusion demo.no_memory demo.nop 3 demo.front0 demo.env0 demo.session); [lia|exact demo.translate|exact demo.caches_ok|exact demo.session_good].
Defined.

Lemma oracle_graph_is_dataflow_witness :
  (∃ evs1 evs2 s ls, take 9 demo.session = evs1 ++ evs2 ∧ run demo.decode demo.no_fusion demo.no_memory evs1 (start (2 ^ 3) demo.front0 demo.env0) = Ok (s, ls) ∧
    ends demo.decode demo.no_fusion demo.no_memory s evs2 ∧
    let g := deps (orc s) in
    let live := drop (committed s) (flow_of (orc s) 0 (mops (orc s))) in
    (∀ p i x, operand g p i x ↔ dataflow (regs_of g) live p i x) ∧
    (∀ r, r ≠ XED_REG_INVALID → producers (dep_map g) r = live ≫= writes_of (regs_of g) r) ∧
    (MopQ_num (q (orc s)) = 0 → links_of g = ∅ ∧ debt g = 0)) ∧
  match demo.final (take 9 demo.session) with
  | Some (s, _) => idep_of (links_of (deps (orc s))) (2, 0) 0 = Some (0, 0) ∧ debt (deps (orc s)) = 3
  | None => False
  end.
Proof.
  split; [|by vm_compute].
  apply (oracle_graph_is_dataflow demo.decode demo.no_fusion demo.no_memory demo.nop 3 demo.front0 demo.env0 (take 9 demo.session));
    [lia|exact demo.translate|exact demo.caches_ok|apply Forall_take, demo.session_good].
Defined.

Lemma oracle_paths_ordered_witness :
  (∃ evs1 evs2 s ls n, take 7 demo.session = evs1 ++ evs2 ∧ run demo.decode demo.no_fusion demo.no_memory evs1 (start (2 ^ 3) demo.front0 demo.env0) = Ok (s, ls) ∧
    ends demo.decode demo.no_fusion demo.no_memory s evs2 ∧
    let o := orc s in
    Z.of_nat (length (mops o)) ≤ MopQ_size (q o) ∧ spec o = bool_decide (n < length (mops o))%nat ∧
    (∀ j m, mops o !! j = Some m → spec_mode m = bool_decide (n ≤ j)%nat ∧ (is_trap m = true → S j = length (mops o))) ∧
    (∀ j m, (j < n)%nat → mops o !! j = Some m → ∃ h, pending s !! j = Some h ∧ from demo.decode h m) ∧
    (drain_pipeline o = true ↔ current_Mop o = None ∧ ∃ m, list.last (mops o) = Some m ∧ is_trap m = true)) ∧
  match demo.final (take 7 demo.session) with Some (s, _) => spec (orc s) = true ∧ length (mops (orc s)) = 3%nat | None => False end.
Proof.
  split; [|by vm_compute].
  apply (oracle_paths_ordered demo.decode demo.no_fusion demo.no_memory demo.nop 3 demo.front0 demo.env0 (take 7 demo.session));
    [lia|exact demo.translate|exact demo.caches_ok|apply Forall_take, demo.session_good].
Defined.

(** ** The flush that fails *)

(** A macro-op that violates the memory order while it is the oldest cannot be flushed: the
    assertion of pipe_flush needs one before it. *)
Lemma flush_of_oldest_faults :
  run demo.decode demo.no_fusion demo.no_memory demo.bad_session (start (2 ^ 3) demo.front0 demo.env0) = Fault AssertFail ∧
  match demo.final (take 10 demo.bad_session) with Some (s, _) => MopQ_num (q (orc s)) = 3 | None => False end.
Proof. by vm_compute. Qed.

(** ** A handshake that is not executed *)

(** When a branch on a wrong path is itself found out, the handshakes of the path it went
    stay behind the last instruction of the right path, and the lookup is by position: the
    macro-op at the new PC is made from the old path's handshake. *)
Definition second_wrong_path : list event :=
  [Slice 0; Feed (demo.shake false 0 4 4 false [2; 0; 0; 0]); Consume; Feed (demo.shake true 100 104 104 false [1; 5; 0; 0]); Consume;
   Feed (demo.shake true 104 108 108 false [1; 6; 0; 0]); Consume; Recover 1 200; Feed (demo.shake true 200 204 204 false [1; 7; 0; 0])].

Lemma stale_wrong_path_handshake :
  match demo.final second_wrong_path with
  | Some (s, _) => (λ m, (PC m, code m)) <$> list.last (mops (orc s)) = Some (200, [1; 6; 0; 0])
  | None => False
  end.
Proof. by vm_compute. Qed.

End oracle_run.
