(* ===== verification/CacheState.v ===== *)
(** * CacheState: the state of a cache of src/xiosim/zesto-cache.h

    The requests and fills that move through a cache, its pipes, its miss status
    holding registers (MSHRs) with their counts, the prefetch queue, and the flags
    that say whether there is anything to do.

    Every line remembers the core that brought its block in, and a write-back names that
    core.  No operation of a set makes up a core: what holds of the cores of the lines, and
    of the core of a new block, holds of the cores of the lines afterwards. *)

From S2P Require Import Prelude Misc CacheSet CacheHeap.

(** Source: src/xiosim/zesto-cache.h:105-105 mshr_entry_type_t. *)
Inductive mshr_entry_type_t : Set := MSHR_MISS | MSHR_WRITEBACK.

#[export] Instance mshr_entry_type_eq_dec : EqDecision mshr_entry_type_t.
Proof. solve_decision. Defined.

Module cache_state.

(** Source: src/xiosim/zesto-cache.h:107-134 cache_action_t.
    A request.  [acore] is the number of the core, -1 for the null pointer.  A function
    pointer is the identity of the function, [None] the null pointer; [op] the
    identity of the client's object; [prev_cp] that of the cache below; [MSHR_link] an
    index in the bank. *)
Record action : Type := mk_action {
  acore : Z;
  op : option Z;
  action_id : Z;
  PC : Z;
  paddr : Z;
  type : mshr_entry_type_t;
  MSHR_bank : Z;
  MSHR_index : Z;
  miss_cb_invoked : bool;
  cmd : cache_command;
  prev_cp : option Z;
  cb : option Z;
  miss_cb : option Z;
  translated_cb : option Z;
  get_action_id : option Z;
  when_enqueued : Z;
  when_started : Z;
  when_returned : Z;
  pipe_exit_time : Z;
  MSHR_link : option Z;
  MSHR_linked : bool;
  prefetcher_hint : bool
}.

(** [calloc] *)
Definition no_action : action :=
  mk_action (-1) None 0 0 0 MSHR_MISS 0 0 false CACHE_NOP None None None None None 0 0 0 0 None false false.

(** Assignments to one field. *)
Definition with_cb (v : option Z) (a : action) : action :=
  mk_action (acore a) (op a) (action_id a) (PC a) (paddr a) (type a) (MSHR_bank a) (MSHR_index a)
    (miss_cb_invoked a) (cmd a) (prev_cp a) v (miss_cb a) (translated_cb a) (get_action_id a)
    (when_enqueued a) (when_started a) (when_returned a) (pipe_exit_time a) (MSHR_link a) (MSHR_linked a)
    (prefetcher_hint a).
Definition with_exit (v : Z) (a : action) : action :=
  mk_action (acore a) (op a) (action_id a) (PC a) (paddr a) (type a) (MSHR_bank a) (MSHR_index a)
    (miss_cb_invoked a) (cmd a) (prev_cp a) (cb a) (miss_cb a) (translated_cb a) (get_action_id a)
    (when_enqueued a) (when_started a) (when_returned a) v (MSHR_link a) (MSHR_linked a) (prefetcher_hint a).
Definition with_link (l : option Z) (linked : bool) (a : action) : action :=
  mk_action (acore a) (op a) (action_id a) (PC a) (paddr a) (type a) (MSHR_bank a) (MSHR_index a)
    (miss_cb_invoked a) (cmd a) (prev_cp a) (cb a) (miss_cb a) (translated_cb a) (get_action_id a)
    (when_enqueued a) (when_started a) (when_returned a) (pipe_exit_time a) l linked (prefetcher_hint a).
Definition with_started (v : Z) (a : action) : action :=
  mk_action (acore a) (op a) (action_id a) (PC a) (paddr a) (type a) (MSHR_bank a) (MSHR_index a)
    (miss_cb_invoked a) (cmd a) (prev_cp a) (cb a) (miss_cb a) (translated_cb a) (get_action_id a)
    (when_enqueued a) v (when_returned a) (pipe_exit_time a) (MSHR_link a) (MSHR_linked a) (prefetcher_hint a).
Definition with_returned (v : Z) (a : action) : action :=
  mk_action (acore a) (op a) (action_id a) (PC a) (paddr a) (type a) (MSHR_bank a) (MSHR_index a)
    (miss_cb_invoked a) (cmd a) (prev_cp a) (cb a) (miss_cb a) (translated_cb a) (get_action_id a)
    (when_enqueued a) (when_started a) v (pipe_exit_time a) (MSHR_link a) (MSHR_linked a) (prefetcher_hint a).
Definition with_miss_cb_invoked (a : action) : action :=
  mk_action (acore a) (op a) (action_id a) (PC a) (paddr a) (type a) (MSHR_bank a) (MSHR_index a)
    true (cmd a) (prev_cp a) (cb a) (miss_cb a) (translated_cb a) (get_action_id a)
    (when_enqueued a) (when_started a) (when_returned a) (pipe_exit_time a) (MSHR_link a) (MSHR_linked a)
    (prefetcher_hint a).

(** [cb != NULL]: the request is there. *)
Definition alive (a : action) : bool := bool_decide (cb a ≠ None).

(** Source: src/xiosim/zesto-cache.cpp:1281-1282 cache_heap_remove.
    A slot of the access pipe is freed. *)
Definition erase_action (a : action) : action := with_exit TICK_T_MAX (with_cb None a).

#[export] Instance action_node : HeapNode action := {
  exit_time := pipe_exit_time;
  live := alive;
  erase := erase_action;
  erase_time _ := eq_refl;
  erase_live _ := eq_refl
}.

(** Source: src/xiosim/zesto-cache.h:136-142 cache_fill_t. *)
Record fill : Type := mk_fill {
  f_valid : bool;
  f_paddr : Z;
  f_cmd : cache_command;
  f_exit : Z;
  f_core : Z
}.

Definition no_fill : fill := mk_fill false 0 CACHE_NOP 0 0.

(** Source: src/xiosim/zesto-cache.cpp:1694-1695 fill_heap_remove.
    A slot of the fill pipe is freed. *)
Definition erase_fill (f : fill) : fill := mk_fill false (f_paddr f) (f_cmd f) TICK_T_MAX (f_core f).

#[export] Instance fill_node : HeapNode fill := {
  exit_time := f_exit;
  live := f_valid;
  erase := erase_fill;
  erase_time _ := eq_refl;
  erase_live _ := eq_refl
}.

(** Source: src/xiosim/zesto-cache.h:210-215 cache_t.
    The MSHRs, per bank, and their counts. *)
Record mshrs : Type := mk_mshrs {
  MSHR : list (list action);
  MSHR_num : list Z;
  MSHR_num_pf : list Z;
  MSHR_fill_num : list Z;
  MSHR_WB_num : list Z;
  MSHR_unprocessed_num : list Z
}.

(** Source: src/xiosim/zesto-cache.h:253-258 cache_t. *)
Record work_flags : Type := mk_flags {
  check_for_work : bool;
  check_for_MSHR_fill_work : bool;
  check_for_fill_work : bool;
  check_for_pipe_work : bool;
  check_for_MSHR_work : bool;
  check_for_MSHR_WB_work : bool
}.

(** What does not change in a cache. *)
Record params : Type := mk_params {
  kcfg : cache_set.cfg;
  allocate_policy : alloc_policy_t;
  write_combining : bool;
  banks : Z;
  bank_shift : Z;
  latency : Z;
  heap_size : Z;
  MSHR_banks : Z;
  MSHR_size : Z;
  MSHR_WB_size : Z;
  MSHR_cmd_order : option (list cache_command);
  next_latency : option Z;  (* [next_level->latency], when there is a next level *)
  is_LLC : bool;            (* [cp == uncore->LLC] *)
  self : Z;                 (* the identity of this cache *)
  prefetch_threshold : Z;
  prefetch_max : Z;
  prefetch_on_miss : bool
}.

(** Source: src/xiosim/zesto-cache.cpp:79-79 GET_BANK. *)
Definition GET_BANK (k : params) (x : Z) : Z := Z.land (Z.shiftr x (bank_shift k)) (banks k - 1).
(** Source: src/xiosim/zesto-cache.cpp:80-80 GET_MSHR_BANK. *)
Definition GET_MSHR_BANK (k : params) (x : Z) : Z := Z.land (Z.shiftr x (bank_shift k)) (MSHR_banks k - 1).

End cache_state.

Module cache_cores.
Import cache_set.

(** If there is a result, it satisfies [Q]. *)
Definition holds_of {A} (Q : A → Prop) (r : result A) : Prop := match r with Ok a => Q a | Fault _ => True end.

Lemma holds_bind {A B} (P : A → Prop) (Q : B → Prop) (r : result A) (f : A → result B) :
  holds_of P r → (∀ a, P a → holds_of Q (f a)) → holds_of Q (rbind r f).
Proof. destruct r; simpl; auto. Qed.

Lemma holds_any {A B} (Q : B → Prop) (r : result A) (f : A → result B) : (∀ a, holds_of Q (f a)) → holds_of Q (rbind r f).
Proof. destruct r; simpl; auto. Qed.

Lemma holds_wp {A} (P Q : A → Prop) (r : result A) : holds_of P r → wp r Q → wp r (λ a, Q a ∧ P a).
Proof. by destruct r. Qed.

Section cores.
Variable P : Z → Prop.

Definition from_core (l : line) : Prop := valid l = true → P (core l).
Definition from (ls : list line) : Prop := Forall from_core ls.
Definition all_from (s : cset) : Prop := from (lines s).

Lemma amodify_from ls i f : (∀ l, from_core l → from_core (f l)) → from ls → holds_of from (amodify ls i f).
Proof.
  intros Hf Hls. unfold amodify. destruct (aget ls i) as [l|] eqn:E; [|done]. simpl.
  destruct (aset ls i (f l)) as [ls'|] eqn:E'; [|done]. simpl. eapply Forall_aset; [done..|].
  apply Hf. apply aget_inv in E as [_ E]. exact (Forall_lookup_1 _ _ _ _ Hls E).
Qed.

(** A write that keeps the core, and what follows. *)
Lemma modify_then {B} (Q : B → Prop) ls i f (g : list line → result B) : (∀ l, from_core l → from_core (f l)) → from ls →
  (∀ ls', from ls' → holds_of Q (g ls')) → holds_of Q (rbind (amodify ls i f) g).
Proof. intros Hf Hls Hg. eapply holds_bind; [by apply amodify_from|done]. Qed.

Ltac step := first
  [ done
  | apply modify_then; [done|assumption|intros ? ?]
  | apply holds_any; intros ?
  | match goal with |- holds_of _ (if ?b then _ else _) => destruct b end
  | match goal with |- holds_of _ (match ?x with _ => _ end) => destruct x end
  | progress simpl ].

Lemma to_front_from s prev p : all_from s → holds_of all_from (to_front s prev p).
Proof. intros Hs. unfold to_front, all_from in *. repeat step. Qed.

Lemma to_back_from s prev p : all_from s → holds_of all_from (to_back s prev p).
Proof.
  intros Hs. unfold to_back, all_from in *. apply holds_any. intros l. destruct (next l); [|done].
  apply (holds_bind all_from); unfold all_from; [destruct prev; repeat step|].
  intros s' Hs'. repeat step.
Qed.

Lemma promote_from k s prev p ref : all_from s → holds_of all_from (promote k s prev p ref).
Proof.
  intros Hs. unfold promote. destruct (replacement_policy k); try by apply to_front_from.
  - by apply to_back_from.
  - apply (holds_bind all_from); [unfold plru_update, all_from in *; repeat step|]. intros. by apply to_front_from.
  - unfold all_from in *. repeat step.
Qed.

Lemma is_hit_from k magic cmd block s : all_from s → holds_of (λ '(s', _), all_from s') (is_hit k magic cmd block s).
Proof.
  intros Hs. unfold is_hit. destruct magic; [done|]. apply holds_any. intros [prev [p|]]; [|done].
  apply (holds_bind all_from); [case_decide; [done|by apply promote_from]|]. intros s' Hs'. unfold all_from in *.
  repeat step.
Qed.

Lemma insert_block_from k cmd block c s : P c → all_from s → holds_of all_from (insert_block k cmd block c s).
Proof.
  intros Hc Hs. unfold insert_block. apply holds_any. intros [prev p]. apply holds_any. intros q.
  apply modify_then; [by intros l _ _|done|]. intros ls' Hls'. case_decide; [done|]. by apply promote_from.
Qed.

Lemma clock_from k n s : all_from s → holds_of (λ '(s', _), all_from s') (clock k n s).
Proof.
  revert s. induction n as [|n IH]; intros s Hs; simpl; [done|]. apply holds_any. intros h.
  apply modify_then; [done|done|]. intros ls' Hls'. apply holds_any. intros l.
  destruct (negb (valid l)); [apply modify_then; [done|done|by intros]|]. apply holds_any. intros f.
  destruct (_ =? 0); [done|]. apply modify_then; [done|done|]. intros ls2 H2. by apply IH.
Qed.

Lemma get_evictee_from k rnd s : all_from s → holds_of (λ '(s', _), all_from s') (get_evictee k rnd s).
Proof.
  intros Hs. unfold get_evictee. destruct (replacement_policy k) eqn:Er.
  6: { eapply holds_bind; [by apply clock_from|]. by intros [s' p]. }
  all: apply holds_any; intros [? ?]; by repeat step.
Qed.

Lemma overwrite_from k cmd block c s p : P c → all_from s → holds_of all_from (overwrite k cmd block c s p).
Proof.
  intros Hc Hs. unfold overwrite. apply modify_then; [done|done|]. intros. by apply insert_block_from.
Qed.

(** The line that a fill evicts has its core from an earlier block. *)
Lemma fill_block_from k wb rnd cmd block c s : P c → all_from s →
  holds_of (λ '(s', o), all_from s' ∧ match o with Filled l => from_core l | _ => True end) (fill_block k wb rnd cmd block c s).
Proof.
  intros Hc Hs. unfold fill_block. apply holds_any. intros [p|]; [done|].
  eapply holds_bind; [by apply get_evictee_from|]. intros [s1 p] Hs1. apply holds_any. intros q.
  destruct (aget (lines s1) q) as [l|] eqn:El; [|done]. simpl.
  destruct (_ && _); [done|]. eapply holds_bind; [by apply overwrite_from|]. intros s2 Hs2. simpl. split; [done|].
  apply aget_inv in El as [_ El]. exact (Forall_lookup_1 _ _ _ _ Hs1 El).
Qed.

Lemma with_used_from ls first p : from ls → holds_of (λ ls', all_from (mk_cset ls' first)) (amodify ls p with_used).
Proof. intros Hls. by apply amodify_from. Qed.

Lemma new_set_from n : all_from (new_set n).
Proof. apply list.Forall_fmap, list.Forall_forall. by intros. Qed.

End cores.
End cache_cores.
