(* ===== verification/CacheMSHR.v ===== *)
(** * CacheMSHR: the miss status holding registers of a cache

    The allocation of an MSHR for a miss or a write-back, its release, and the answer
    from the next level, of src/xiosim/zesto-cache.cpp.  The counts kept beside the
    MSHRs are what they are said to be: the numbers of entries of each kind. *)

From S2P Require Import Prelude CacheSet CacheHeap CacheState.

Module cache_mshr.
Import cache_state.

Section ops.
Variable k : params.

(** Source: src/xiosim/zesto-cache.cpp:1423-1429 MSHR_available. *)
Definition MSHR_available (m : mshrs) (paddr : Z) : result bool :=
  let* n := aget (MSHR_num m) (GET_MSHR_BANK k paddr) in Ok (n <? MSHR_size k - MSHR_WB_size k).

(** Source: src/xiosim/zesto-cache.cpp:1432-1438 MSHR_WB_available. *)
Definition MSHR_WB_available (m : mshrs) (paddr : Z) : result bool :=
  let* n := aget (MSHR_WB_num m) (GET_MSHR_BANK k paddr) in Ok (n <? MSHR_WB_size k).

(** The entries of a bank, written back. *)
Definition set_entry (m : mshrs) (bank i : Z) (a : action) : result mshrs :=
  let* es := aset2 (MSHR m) bank i a in
  Ok (mk_mshrs es (MSHR_num m) (MSHR_num_pf m) (MSHR_fill_num m) (MSHR_WB_num m) (MSHR_unprocessed_num m)).

(** Changes of the counts: [n += d] and the assertion that follows. *)
Definition bump (ok : Z → bool) (l : list Z) (bank d : Z) : result (list Z) :=
  let* n := aget l bank in
  let* _ := guard_or (ok (n + d)) AssertFail in
  aset l bank (n + d).

Definition bump_num (ok : Z → bool) (bank d : Z) (m : mshrs) : result mshrs :=
  let* l := bump ok (MSHR_num m) bank d in
  Ok (mk_mshrs (MSHR m) l (MSHR_num_pf m) (MSHR_fill_num m) (MSHR_WB_num m) (MSHR_unprocessed_num m)).
Definition bump_pf (ok : Z → bool) (bank d : Z) (m : mshrs) : result mshrs :=
  let* l := bump ok (MSHR_num_pf m) bank d in
  Ok (mk_mshrs (MSHR m) (MSHR_num m) l (MSHR_fill_num m) (MSHR_WB_num m) (MSHR_unprocessed_num m)).
Definition bump_fill (ok : Z → bool) (bank d : Z) (m : mshrs) : result mshrs :=
  let* l := bump ok (MSHR_fill_num m) bank d in
  Ok (mk_mshrs (MSHR m) (MSHR_num m) (MSHR_num_pf m) l (MSHR_WB_num m) (MSHR_unprocessed_num m)).
Definition bump_WB (ok : Z → bool) (bank d : Z) (m : mshrs) : result mshrs :=
  let* l := bump ok (MSHR_WB_num m) bank d in
  Ok (mk_mshrs (MSHR m) (MSHR_num m) (MSHR_num_pf m) (MSHR_fill_num m) l (MSHR_unprocessed_num m)).
Definition bump_unprocessed (ok : Z → bool) (bank d : Z) (m : mshrs) : result mshrs :=
  let* l := bump ok (MSHR_unprocessed_num m) bank d in
  Ok (mk_mshrs (MSHR m) (MSHR_num m) (MSHR_num_pf m) (MSHR_fill_num m) (MSHR_WB_num m) l).

(** Source: src/xiosim/zesto-cache.cpp:1442-1494 MSHR_allocate.
    A free entry of the bank.  The request is never combined with another
    ([prev] stays null, the search for one is commented out); the flags the code
    sets are [mark_allocated]. *)
Definition MSHR_allocate (m : mshrs) (paddr : Z) : result (mshrs * Z) :=
  let bank := GET_MSHR_BANK k paddr in
  let* i := find_range 0 (MSHR_size k) (λ i, let* a := aget2 (MSHR m) bank i in Ok (negb (alive a))) in
  let* i := of_option Fatal i in
  let* a := aget2 (MSHR m) bank i in
  let* _ := guard_or (bool_decide (MSHR_link a = None)) AssertFail in
  let* m := set_entry m bank i (with_link None false a) in
  Ok (m, i).

Definition mark_allocated (f : work_flags) : work_flags :=
  mk_flags true (check_for_MSHR_fill_work f) (check_for_fill_work f) (check_for_pipe_work f) true true.

(** Source: src/xiosim/zesto-cache.cpp:1496-1529 MSHR_deallocate. *)
Definition MSHR_deallocate (m : mshrs) (paddr index : Z) : result mshrs :=
  let bank := GET_MSHR_BANK k paddr in
  let* a := aget2 (MSHR m) bank index in
  let* _ := guard_or (alive a) AssertFail in
  let* m := set_entry m bank index (with_cb None a) in
  let* m := if decide (type a = MSHR_WRITEBACK)
            then bump_WB (λ n, 0 <=? n) bank (-1) m else bump_num (λ n, 0 <=? n) bank (-1) m in
  let* m := if decide (cmd a = CACHE_PREFETCH) then bump_pf (λ n, 0 <=? n) bank (-1) m else Ok m in
  if decide (type a = MSHR_MISS) then bump_fill (λ n, 0 <=? n) bank (-1) m else Ok m.

(** [dummy_callback] *)
Definition dummy_callback : Z := -1.

(** Source: src/xiosim/zesto-cache.cpp:1533-1570 MSHR_WB_insert.
    The write-back of the block [tag] of [core]; [self] is this cache. *)
Definition MSHR_WB_insert (self now : Z) (m : mshrs) (tag core : Z) : result mshrs :=
  let new_addr := u64 (Z.shiftl tag (cache_set.addr_shift (kcfg k))) in
  let* '(m, i) := MSHR_allocate m new_addr in
  let bank := GET_MSHR_BANK k new_addr in
  let* a := aget2 (MSHR m) bank i in
  let* m := bump_WB (λ n, n <=? MSHR_WB_size k) bank 1 m in
  set_entry m bank i
    (mk_action core None (action_id a) 0 new_addr MSHR_WRITEBACK bank i false CACHE_WRITEBACK (Some self)
       (Some dummy_callback) None None None now (if MSHR_linked a then now else TICK_T_MAX) TICK_T_MAX TICK_T_MAX
       (MSHR_link a) (MSHR_linked a)
       (prefetcher_hint a)).

Definition mark_WB (f : work_flags) : work_flags :=
  let f := mark_allocated f in
  mk_flags true (check_for_MSHR_fill_work f) (check_for_fill_work f) (check_for_pipe_work f)
    (check_for_MSHR_work f) true.

(** Source: src/xiosim/zesto-cache.cpp:1574-1607 MSHR_insert. *)
Definition MSHR_insert (now : Z) (m : mshrs) (ca : action) : result mshrs :=
  let* '(m, i) := MSHR_allocate m (paddr ca) in
  let bank := GET_MSHR_BANK k (paddr ca) in
  let* a := aget2 (MSHR m) bank i in
  let linked := MSHR_linked a in
  let* m := set_entry m bank i
    (mk_action (acore ca) (op ca) (action_id ca) (PC ca) (paddr ca) MSHR_MISS (MSHR_bank ca) (MSHR_index ca)
       (miss_cb_invoked ca) (cmd ca) (prev_cp ca) (cb ca) (miss_cb ca) (translated_cb ca) (get_action_id ca)
       now (if linked then now else TICK_T_MAX) TICK_T_MAX (pipe_exit_time ca) (MSHR_link ca) linked
       (prefetcher_hint ca)) in
  let* m := bump_num (λ n, n <=? MSHR_size k - MSHR_WB_size k) bank 1 m in
  let* m := if linked then Ok m else bump_unprocessed (λ n, n <=? MSHR_size k) bank 1 m in
  let* m := bump_fill (λ n, n <=? MSHR_size k) bank 1 m in
  if decide (cmd ca = CACHE_PREFETCH) then bump_pf (λ n, n <=? MSHR_size k) (MSHR_bank ca) 1 m else Ok m.

(** The entries linked behind one, when it is answered. *)
Fixpoint fill_linked (fuel : nat) (m : mshrs) (bank : Z) (p : option Z) (when : Z) : result mshrs :=
  match p with
  | None => Ok m
  | Some i =>
      match fuel with
      | O => Fault Diverge
      | S fuel =>
          let* a := aget2 (MSHR m) bank i in
          let* a' := if alive a && (when_returned a =? TICK_T_MAX)
                     then let* _ := guard_or (MSHR_linked a) AssertFail in Ok (with_returned when a)
                     else Ok a in
          let* m := set_entry m bank i (with_link None false a') in
          fill_linked fuel m bank (MSHR_link a) when
      end
  end.

(** Source: src/xiosim/zesto-cache.cpp:1611-1646 fill_arrived.
    The answer of the next level; the flags the code sets are [mark_arrived]. *)
Definition fill_arrived (now : Z) (m : mshrs) (bank index delay : Z) : result mshrs :=
  let* _ := guard_or ((0 <=? index) && (index <? MSHR_size k)) AssertFail in
  let* a := aget2 (MSHR m) bank index in
  let* _ := guard_or (negb (MSHR_linked a)) AssertFail in
  let a' := if alive a then with_returned (now + delay) a else a in
  let* m := set_entry m bank index a' in
  let* m := fill_linked (Z.to_nat (MSHR_size k)) m bank (MSHR_link a') (now + delay) in
  let* a := aget2 (MSHR m) bank index in
  set_entry m bank index (with_link None (MSHR_linked a) a).

Definition mark_arrived (f : work_flags) : work_flags :=
  mk_flags true true (check_for_fill_work f) (check_for_pipe_work f) (check_for_MSHR_work f) true.

(** The next level has taken the request of an entry (what the code does when
    [send_request_upstream] has answered yes and set [when_started]). *)
Definition start_entry (now : Z) (m : mshrs) (bank index : Z) : result mshrs :=
  let* a := aget2 (MSHR m) bank index in
  set_entry m bank index (with_started now a).

End ops.

(** ** Counts *)

(** The entries of a kind. *)
Fixpoint count (P : action → bool) (es : list action) : Z :=
  match es with
  | [] => 0
  | a :: es => Z.b2z (P a) + count P es
  end.

Lemma count_nonneg P es : 0 ≤ count P es ≤ Z.of_nat (length es).
Proof. induction es as [|a es IH]; simpl; [lia|]. destruct (P a); simpl; lia. Qed.

Lemma count_insert P es i a b : es !! i = Some a →
  count P (<[i := b]> es) = count P es - Z.b2z (P a) + Z.b2z (P b).
Proof.
  revert i. induction es as [|e es IH]; intros [|i] E; simpl in *; try done.
  - injection E as ->. lia.
  - rewrite (IH i E). lia.
Qed.

Lemma count_room P es : count P es < Z.of_nat (length es) → ∃ i a, es !! i = Some a ∧ P a = false.
Proof.
  induction es as [|e es IH]; simpl; [lia|]. destruct (P e) eqn:E; simpl; intros Hlt.
  - destruct IH as (i & a & Ei & Ea); [lia|]. by exists (S i), a.
  - by exists 0%nat, e.
Qed.

Lemma count_pos P es i a : es !! i = Some a → P a = true → 1 ≤ count P es.
Proof.
  revert i. induction es as [|e es IH]; intros [|i] E Ha; simpl in *; try done.
  - injection E as ->. rewrite Ha. simpl. pose proof (count_nonneg P es). lia.
  - specialize (IH i E Ha). destruct (P e); simpl; lia.
Qed.

Lemma count_split P Q R es : (∀ a, Z.b2z (P a) = Z.b2z (Q a) + Z.b2z (R a)) →
  count P es = count Q es + count R es.
Proof. intros H. induction es as [|a es IH]; simpl; [done|]. rewrite IH, H. lia. Qed.

(** The kinds of entries. *)
Definition is_miss (a : action) : bool := alive a && bool_decide (type a = MSHR_MISS).
Definition is_wb (a : action) : bool := alive a && bool_decide (type a = MSHR_WRITEBACK).
Definition is_pf (a : action) : bool := alive a && bool_decide (cmd a = CACHE_PREFETCH).
Definition is_waiting (a : action) : bool := is_miss a && (when_started a =? TICK_T_MAX).

Lemma count_alive es : count alive es = count is_miss es + count is_wb es.
Proof.
  apply count_split. intros a. unfold is_miss, is_wb. destruct (alive a), (type a); reflexivity.
Qed.

(** ** One bank *)

Record bank : Type := mk_bank {
  b_es : list action; b_num : Z; b_pf : Z; b_fill : Z; b_wb : Z; b_un : Z
}.

Definition at_bank (m : mshrs) (b : Z) (x : bank) : Prop :=
  MSHR m !! Z.to_nat b = Some (b_es x) ∧ MSHR_num m !! Z.to_nat b = Some (b_num x) ∧
  MSHR_num_pf m !! Z.to_nat b = Some (b_pf x) ∧ MSHR_fill_num m !! Z.to_nat b = Some (b_fill x) ∧
  MSHR_WB_num m !! Z.to_nat b = Some (b_wb x) ∧ MSHR_unprocessed_num m !! Z.to_nat b = Some (b_un x).

Definition put (m : mshrs) (b : Z) (x : bank) : mshrs :=
  mk_mshrs (<[Z.to_nat b := b_es x]> (MSHR m)) (<[Z.to_nat b := b_num x]> (MSHR_num m))
    (<[Z.to_nat b := b_pf x]> (MSHR_num_pf m)) (<[Z.to_nat b := b_fill x]> (MSHR_fill_num m))
    (<[Z.to_nat b := b_wb x]> (MSHR_WB_num m)) (<[Z.to_nat b := b_un x]> (MSHR_unprocessed_num m)).

Definition lens (n : Z) (m : mshrs) : Prop :=
  Z.of_nat (length (MSHR m)) = n ∧ Z.of_nat (length (MSHR_num m)) = n ∧
  Z.of_nat (length (MSHR_num_pf m)) = n ∧ Z.of_nat (length (MSHR_fill_num m)) = n ∧
  Z.of_nat (length (MSHR_WB_num m)) = n ∧ Z.of_nat (length (MSHR_unprocessed_num m)) = n.

Lemma lens_put n m b x : lens n m → lens n (put m b x).
Proof. unfold lens, put. simpl. by rewrite !length_insert. Qed.

Lemma put_put m b x y : put (put m b x) b y = put m b y.
Proof. unfold put. simpl. by rewrite !list_insert_insert_eq. Qed.

Lemma put_at m b x : at_bank m b x → put m b x = m.
Proof.
  intros (H1 & H2 & H3 & H4 & H5 & H6). unfold put. rewrite !list_insert_id by done. by destruct m.
Qed.

Lemma at_put n m b x : lens n m → 0 ≤ b < n → at_bank (put m b x) b x.
Proof.
  intros (H1 & H2 & H3 & H4 & H5 & H6) Hb. unfold at_bank, put. simpl.
  by rewrite !list_lookup_insert_eq by lia.
Qed.

Lemma at_put_ne m b b' x y : 0 ≤ b → 0 ≤ b' → b ≠ b' → at_bank (put m b x) b' y ↔ at_bank m b' y.
Proof. intros ?? Hne. unfold at_bank, put. simpl. by rewrite !list_lookup_insert_ne by lia. Qed.

Lemma at_exists n m b : lens n m → 0 ≤ b < n → ∃ x, at_bank m b x.
Proof.
  intros (H1 & H2 & H3 & H4 & H5 & H6) Hb.
  destruct (lookup_lt_is_Some_2 (MSHR m) (Z.to_nat b)) as [es E1]; [lia|].
  destruct (lookup_lt_is_Some_2 (MSHR_num m) (Z.to_nat b)) as [n1 E2]; [lia|].
  destruct (lookup_lt_is_Some_2 (MSHR_num_pf m) (Z.to_nat b)) as [n2 E3]; [lia|].
  destruct (lookup_lt_is_Some_2 (MSHR_fill_num m) (Z.to_nat b)) as [n3 E4]; [lia|].
  destruct (lookup_lt_is_Some_2 (MSHR_WB_num m) (Z.to_nat b)) as [n4 E5]; [lia|].
  destruct (lookup_lt_is_Some_2 (MSHR_unprocessed_num m) (Z.to_nat b)) as [n5 E6]; [lia|].
  by exists (mk_bank es n1 n2 n3 n4 n5).
Qed.

Lemma at_fun m b x y : at_bank m b x → at_bank m b y → x = y.
Proof.
  intros (H1 & H2 & H3 & H4 & H5 & H6) (G1 & G2 & G3 & G4 & G5 & G6).
  destruct x, y; simpl in *. congruence.
Qed.

(** Reads and writes of a bank. *)
Section at_bank.
Variables (n : Z) (m : mshrs) (b : Z) (x : bank).
Hypothesis Hlens : lens n m.
Hypothesis Hb : 0 ≤ b < n.
Let M := put m b x.

Lemma get_entry_put i a : 0 ≤ i → b_es x !! Z.to_nat i = Some a → aget2 (MSHR M) b i = Ok a.
Proof.
  intros Hi E. destruct (at_put n m b x Hlens Hb) as (H1 & _). unfold aget2. fold M in H1.
  rewrite (aget_lookup _ _ _ (proj1 Hb) H1). simpl. by apply aget_lookup.
Qed.

Lemma set_entry_put i a a' : 0 ≤ i → b_es x !! Z.to_nat i = Some a →
  set_entry M b i a' = Ok (put m b (mk_bank (<[Z.to_nat i := a']> (b_es x)) (b_num x) (b_pf x) (b_fill x) (b_wb x) (b_un x))).
Proof.
  intros Hi E. destruct (at_put n m b x Hlens Hb) as (H1 & _). fold M in H1. unfold set_entry, aset2.
  rewrite (aget_lookup _ _ _ (proj1 Hb) H1). simpl. rewrite (aset_lookup _ _ _ _ Hi E). simpl.
  rewrite (aset_lookup _ _ _ _ (proj1 Hb) H1). simpl. unfold M, put. simpl. by rewrite list_insert_insert_eq.
Qed.

Lemma bump_at ok l c d : l !! Z.to_nat b = Some c → ok (c + d) = true → bump ok l b d = Ok (<[Z.to_nat b := c + d]> l).
Proof.
  intros E Hok. unfold bump. rewrite (aget_lookup _ _ _ (proj1 Hb) E). simpl. rewrite Hok. simpl.
  exact (aset_lookup _ _ _ _ (proj1 Hb) E).
Qed.

Ltac solve_bump :=
  intros Hok; destruct (at_put n m b x Hlens Hb) as (H1 & H2 & H3 & H4 & H5 & H6); fold M in H1, H2, H3, H4, H5, H6;
  first [rewrite (bump_at _ _ _ _ H2 Hok) | rewrite (bump_at _ _ _ _ H3 Hok) | rewrite (bump_at _ _ _ _ H4 Hok)
        | rewrite (bump_at _ _ _ _ H5 Hok) | rewrite (bump_at _ _ _ _ H6 Hok)];
  simpl; unfold M, put; simpl; by rewrite list_insert_insert_eq.

Lemma bump_num_put ok d : ok (b_num x + d) = true →
  bump_num ok b d M = Ok (put m b (mk_bank (b_es x) (b_num x + d) (b_pf x) (b_fill x) (b_wb x) (b_un x))).
Proof. unfold bump_num. solve_bump. Qed.
Lemma bump_pf_put ok d : ok (b_pf x + d) = true →
  bump_pf ok b d M = Ok (put m b (mk_bank (b_es x) (b_num x) (b_pf x + d) (b_fill x) (b_wb x) (b_un x))).
Proof. unfold bump_pf. solve_bump. Qed.
Lemma bump_fill_put ok d : ok (b_fill x + d) = true →
  bump_fill ok b d M = Ok (put m b (mk_bank (b_es x) (b_num x) (b_pf x) (b_fill x + d) (b_wb x) (b_un x))).
Proof. unfold bump_fill. solve_bump. Qed.
Lemma bump_WB_put ok d : ok (b_wb x + d) = true →
  bump_WB ok b d M = Ok (put m b (mk_bank (b_es x) (b_num x) (b_pf x) (b_fill x) (b_wb x + d) (b_un x))).
Proof. unfold bump_WB. solve_bump. Qed.
Lemma bump_unprocessed_put ok d : ok (b_un x + d) = true →
  bump_unprocessed ok b d M = Ok (put m b (mk_bank (b_es x) (b_num x) (b_pf x) (b_fill x) (b_wb x) (b_un x + d))).
Proof. unfold bump_unprocessed. solve_bump. Qed.

End at_bank.

(** ** The invariant *)

Section inv.
Variable k : params.

Definition entry_ok (b : Z) (a : action) : Prop :=
  MSHR_link a = None ∧ MSHR_linked a = false ∧
  (alive a = true → GET_MSHR_BANK k (paddr a) = b) ∧
  (is_miss a = true → when_returned a ≠ TICK_T_MAX → when_started a ≠ TICK_T_MAX).

(** The counts of a bank are those of its entries. *)
Record bank_ok (b : Z) (x : bank) : Prop := {
  bk_len : Z.of_nat (length (b_es x)) = MSHR_size k;
  bk_num : b_num x = count is_miss (b_es x);
  bk_pf : b_pf x = count is_pf (b_es x);
  bk_fill : b_fill x = count is_miss (b_es x);
  bk_wb : b_wb x = count is_wb (b_es x);
  bk_un : b_un x = count is_waiting (b_es x);
  bk_cap : b_num x ≤ MSHR_size k - MSHR_WB_size k;
  bk_wbcap : b_wb x ≤ MSHR_WB_size k;
  bk_entries : Forall (entry_ok b) (b_es x)
}.

Definition mshrs_ok (m : mshrs) : Prop :=
  lens (MSHR_banks k) m ∧ ∀ b x, 0 ≤ b < MSHR_banks k → at_bank m b x → bank_ok b x.

Definition params_ok : Prop := 1 ≤ MSHR_banks k ∧ 0 ≤ MSHR_WB_size k < MSHR_size k.

(** The entry that replaces [a] changes the counts by the difference. *)
Definition bank_set (x : bank) (i : Z) (a a' : action) : bank :=
  mk_bank (<[Z.to_nat i := a']> (b_es x))
    (b_num x - Z.b2z (is_miss a) + Z.b2z (is_miss a')) (b_pf x - Z.b2z (is_pf a) + Z.b2z (is_pf a'))
    (b_fill x - Z.b2z (is_miss a) + Z.b2z (is_miss a')) (b_wb x - Z.b2z (is_wb a) + Z.b2z (is_wb a'))
    (b_un x - Z.b2z (is_waiting a) + Z.b2z (is_waiting a')).

Lemma bank_set_ok b x i a a' : bank_ok b x → b_es x !! Z.to_nat i = Some a → entry_ok b a' →
  b_num x - Z.b2z (is_miss a) + Z.b2z (is_miss a') ≤ MSHR_size k - MSHR_WB_size k →
  b_wb x - Z.b2z (is_wb a) + Z.b2z (is_wb a') ≤ MSHR_WB_size k →
  bank_ok b (bank_set x i a a').
Proof.
  intros [Hl Hn Hp Hf Hw Hu Hc Hwc He] E Ha' Hcap Hwcap.
  split; simpl; try (rewrite (count_insert _ _ _ _ _ E); lia); try done.
  - by rewrite length_insert.
  - by apply Forall_insert.
Qed.

(** A bank that has changed in one entry. *)
Lemma mshrs_ok_put m b x : mshrs_ok m → 0 ≤ b < MSHR_banks k → bank_ok b x → mshrs_ok (put m b x).
Proof.
  intros [Hl Hm] Hb Hx. split; [by apply lens_put|]. intros b' y Hb' Hat.
  destruct (decide (b = b')) as [<-|Hne].
  - by rewrite <- (at_fun _ _ _ _ (at_put _ _ _ x Hl Hb) Hat).
  - apply (Hm b' y Hb'). by rewrite (at_put_ne m b b' x y) in Hat by lia.
Qed.

Lemma bank_range x : 1 ≤ MSHR_banks k → 0 ≤ GET_MSHR_BANK k x < MSHR_banks k.
Proof. intros. by apply land_mask_range. Qed.

Lemma mshrs_bank m p : params_ok → mshrs_ok m →
  ∃ x, at_bank m (GET_MSHR_BANK k p) x ∧ bank_ok (GET_MSHR_BANK k p) x.
Proof.
  intros [Hb _] [Hl Hm]. pose proof (bank_range p Hb). destruct (at_exists _ m _ Hl H) as (x & Hx).
  exists x. split; [done|]. by apply Hm.
Qed.

Lemma available_at m p x : 0 ≤ GET_MSHR_BANK k p → at_bank m (GET_MSHR_BANK k p) x →
  MSHR_available k m p = Ok (b_num x <? MSHR_size k - MSHR_WB_size k) ∧
  MSHR_WB_available k m p = Ok (b_wb x <? MSHR_WB_size k).
Proof.
  intros Hb (_ & H2 & _ & _ & H5 & _). unfold MSHR_available, MSHR_WB_available.
  by rewrite (aget_lookup _ _ _ Hb H2), (aget_lookup _ _ _ Hb H5).
Qed.

(** When a bank is not full there is a free entry. *)
Lemma MSHR_allocate_ok m p x : params_ok → mshrs_ok m → at_bank m (GET_MSHR_BANK k p) x →
  b_num x + b_wb x < MSHR_size k →
  ∃ i a, 0 ≤ i < MSHR_size k ∧ b_es x !! Z.to_nat i = Some a ∧ alive a = false ∧
    MSHR_allocate k m p = Ok (m, i).
Proof.
  intros Hk Hm Hx Hroom. pose proof (bank_range p (proj1 Hk)) as Hb. set (b := GET_MSHR_BANK k p) in *.
  pose proof (proj2 Hm b x Hb Hx) as Hok. destruct (count_room alive (b_es x)) as (j & e & Ej & He).
  { rewrite count_alive, <- (bk_num _ _ Hok), <- (bk_wb _ _ Hok), (bk_len _ _ Hok). done. }
  unfold MSHR_allocate. fold b.
  assert (∀ i a, 0 ≤ i → b_es x !! Z.to_nat i = Some a → aget2 (MSHR m) b i = Ok a) as Hget.
  { intros i a Hi E. rewrite <- (put_at _ _ _ Hx). by apply (get_entry_put _ _ _ _ (proj1 Hm) Hb). }
  assert (wp (find_range 0 (MSHR_size k) (λ i, let* a := aget2 (MSHR m) b i in Ok (negb (alive a))))
    (λ o, ∃ i a, o = Some i ∧ 0 ≤ i < MSHR_size k ∧ b_es x !! Z.to_nat i = Some a ∧ alive a = false)) as Hfind.
  { pose proof (bk_len _ _ Hok).
    assert (∀ i, 0 ≤ i < MSHR_size k → ∃ a, b_es x !! Z.to_nat i = Some a) as Hex.
    { intros i Hi. apply lookup_lt_is_Some_2. lia. }
    apply wp_find_range; [unfold params_ok in Hk; lia| | |].
    - intros i Hi. destruct (Hex i Hi) as (a & Ea). by rewrite (Hget i a) by (done || lia).
    - intros i Hi Et _. destruct (Hex i Hi) as (a & Ea). rewrite (Hget i a) in Et by (done || lia).
      exists i, a. injection Et as Et. apply negb_true_iff in Et. done.
    - intros Hall. exfalso. apply lookup_lt_Some in Ej as Hj.
      specialize (Hall (Z.of_nat j) ltac:(lia)). rewrite (Hget _ e) in Hall by (lia || by rewrite Nat2Z.id).
      simpl in Hall. by rewrite He in Hall. }
  apply wp_exists in Hfind as (o & -> & i & a & -> & Hi & Ea & Ha). exists i, a. simpl.
  rewrite (Hget i a) by (done || lia). simpl.
  assert (entry_ok b a) as (Hlink & Hlinked & _) by (by eapply Forall_lookup_1; [apply Hok|]).
  rewrite bool_decide_true by done. simpl.
  assert (with_link None false a = a) as -> by (destruct a; simpl in *; by subst).
  rewrite <- (put_at _ _ _ Hx) at 1. rewrite (set_entry_put _ _ _ _ (proj1 Hm) Hb i a) by (done || lia). simpl.
  rewrite list_insert_id by done. destruct x. simpl. by rewrite (put_at _ _ _ Hx).
Qed.

(** A request is put in a free entry: its counts stay below the size of the bank. *)
Lemma count_set_le b x i a a' P : bank_ok b x → b_es x !! Z.to_nat i = Some a → P a = false → P a' = true →
  count P (b_es x) + 1 ≤ MSHR_size k.
Proof.
  intros Hok E Ha Ha'. rewrite <- (bk_len _ _ Hok), <- (length_insert (b_es x) (Z.to_nat i) a').
  pose proof (count_nonneg P (<[Z.to_nat i := a']> (b_es x))) as H. rewrite (count_insert _ _ _ _ _ E), Ha, Ha' in H.
  simpl in H. lia.
Qed.

Lemma dead_kinds a : alive a = false → is_miss a = false ∧ is_pf a = false ∧ is_wb a = false ∧ is_waiting a = false.
Proof. intros Ha. unfold is_waiting, is_miss, is_pf, is_wb. by rewrite Ha. Qed.

(** What the entry of a miss holds. *)
Definition miss_entry (now : Z) (ca : action) : action :=
  mk_action (acore ca) (op ca) (action_id ca) (PC ca) (paddr ca) MSHR_MISS (MSHR_bank ca) (MSHR_index ca)
    (miss_cb_invoked ca) (cmd ca) (prev_cp ca) (cb ca) (miss_cb ca) (translated_cb ca) (get_action_id ca)
    now TICK_T_MAX TICK_T_MAX (pipe_exit_time ca) (MSHR_link ca) false (prefetcher_hint ca).

(** A request a pipe may hand to the MSHRs; a prefetch is counted in the bank that
    [MSHR_bank] names, which must be its own. *)
Definition request_ok (ca : action) : Prop :=
  alive ca = true ∧ MSHR_link ca = None ∧
  (cmd ca = CACHE_PREFETCH → MSHR_bank ca = GET_MSHR_BANK k (paddr ca)).

Definition replaced (m m' : mshrs) (b i : Z) (a a' : action) : Prop :=
  ∃ x, at_bank m b x ∧ 0 ≤ i < MSHR_size k ∧ b_es x !! Z.to_nat i = Some a ∧ m' = put m b (bank_set x i a a').

Lemma MSHR_insert_ok now m ca : params_ok → mshrs_ok m → request_ok ca →
  MSHR_available k m (paddr ca) = Ok true →
  wp (MSHR_insert k now m ca) (λ m', mshrs_ok m' ∧ ∃ i a, alive a = false ∧
    replaced m m' (GET_MSHR_BANK k (paddr ca)) i a (miss_entry now ca)).
Proof.
  intros Hk Hm (Hcb & Hlink & Hpf) Hav. destruct (mshrs_bank m (paddr ca) Hk Hm) as (x & Hx & Hok).
  pose proof (bank_range (paddr ca) (proj1 Hk)) as Hb.
  rewrite (proj1 (available_at _ _ _ (proj1 Hb) Hx)) in Hav. injection Hav as Hav%Z.ltb_lt.
  pose proof (bk_wbcap _ _ Hok) as Hwcap. destruct (MSHR_allocate_ok _ _ _ Hk Hm Hx) as (i & a & Hi & Ea & Ha & E); [lia|].
  unfold MSHR_insert. rewrite E. cbn [rbind]. set (b := GET_MSHR_BANK k (paddr ca)) in *.
  pose proof (proj1 Hm) as Hl. pose proof (put_at _ _ _ Hx) as Ep. rewrite <- Ep at 1.
  rewrite (get_entry_put _ _ _ _ Hl Hb i a) by (done || lia). cbn [rbind].
  assert (entry_ok b a) as (_ & Hlinked & _) by exact (Forall_lookup_1 _ _ _ _ (bk_entries _ _ Hok) Ea).
  rewrite Hlinked. rewrite <- Ep at 1. rewrite (set_entry_put _ _ _ _ Hl Hb i a) by (done || lia). cbn [rbind].
  fold (miss_entry now ca). destruct (dead_kinds a Ha) as (Dm & Dp & Dw & Du).
  assert (is_miss (miss_entry now ca) = true) as Nm by (unfold is_miss, alive in *; simpl; by rewrite Hcb).
  assert (is_waiting (miss_entry now ca) = true) as Nu by (unfold is_waiting; by rewrite Nm).
  assert (is_wb (miss_entry now ca) = false) as Nw by (unfold is_wb; apply andb_false_r).
  assert (is_pf (miss_entry now ca) = bool_decide (cmd ca = CACHE_PREFETCH)) as Np
    by (unfold is_pf, alive in *; simpl; by rewrite Hcb).
  pose proof (count_set_le _ _ _ _ (miss_entry now ca) is_waiting Hok Ea Du Nu) as Cu.
  pose proof (count_set_le _ _ _ _ (miss_entry now ca) is_miss Hok Ea Dm Nm) as Cm.
  rewrite (bump_num_put _ _ _ _ Hl Hb) by (apply Z.leb_le; simpl; lia). cbn [rbind b_es b_num b_pf b_fill b_wb b_un].
  rewrite (bump_unprocessed_put _ _ _ _ Hl Hb)
    by (apply Z.leb_le; simpl; rewrite (bk_un _ _ Hok); lia). cbn [rbind b_es b_num b_pf b_fill b_wb b_un].
  rewrite (bump_fill_put _ _ _ _ Hl Hb)
    by (apply Z.leb_le; simpl; rewrite (bk_fill _ _ Hok); lia). cbn [rbind b_es b_num b_pf b_fill b_wb b_un].
  assert (bank_ok b (bank_set x i a (miss_entry now ca))) as Hnew.
  { apply bank_set_ok; [done|done| |rewrite Dm, Nm; simpl; lia|rewrite Dw, Nw; simpl; lia].
    split; [done|]. split; [done|]. split; [done|]. intros _ []. done. }
  assert (∀ p, p = b_pf x + Z.b2z (bool_decide (cmd ca = CACHE_PREFETCH)) →
    put m b (mk_bank (<[Z.to_nat i := miss_entry now ca]> (b_es x)) (b_num x + 1) p (b_fill x + 1) (b_wb x) (b_un x + 1)) =
    put m b (bank_set x i a (miss_entry now ca))) as Eput.
  { intros p ->. f_equal. unfold bank_set. rewrite Dm, Dp, Dw, Du, Nm, Nu, Nw, Np. simpl. f_equal; lia. }
  assert (∀ m', m' = put m b (bank_set x i a (miss_entry now ca)) →
    mshrs_ok m' ∧ ∃ i a, alive a = false ∧ replaced m m' b i a (miss_entry now ca)) as Hend.
  { intros m' ->. split; [by apply mshrs_ok_put|]. exists i, a. split; [done|]. by exists x. }
  case_decide as Hcmd.
  - rewrite Hpf by done. fold b. rewrite bool_decide_true in Np by done.
    pose proof (count_set_le _ _ _ _ (miss_entry now ca) is_pf Hok Ea Dp Np) as Cp.
    rewrite (bump_pf_put _ _ _ _ Hl Hb) by (apply Z.leb_le; simpl; rewrite (bk_pf _ _ Hok); lia).
    apply Hend. simpl. rewrite Eput; [done|]. by rewrite bool_decide_true.
  - apply Hend. rewrite Eput; [done|]. rewrite bool_decide_false by done. simpl. lia.
Qed.

(** What the entry of a write-back holds. *)
Definition wb_addr (tag : Z) : Z := u64 (Z.shiftl tag (cache_set.addr_shift (kcfg k))).
Definition wb_entry (self now : Z) (tag core i : Z) (a : action) : action :=
  mk_action core None (action_id a) 0 (wb_addr tag) MSHR_WRITEBACK (GET_MSHR_BANK k (wb_addr tag)) i false
    CACHE_WRITEBACK (Some self) (Some dummy_callback) None None None now TICK_T_MAX TICK_T_MAX TICK_T_MAX None false
    (prefetcher_hint a).

Lemma MSHR_WB_insert_ok self now m tag core : params_ok → mshrs_ok m →
  MSHR_WB_available k m (wb_addr tag) = Ok true →
  wp (MSHR_WB_insert k self now m tag core) (λ m', mshrs_ok m' ∧ ∃ i a, alive a = false ∧
    replaced m m' (GET_MSHR_BANK k (wb_addr tag)) i a (wb_entry self now tag core i a)).
Proof.
  intros Hk Hm Hav. destruct (mshrs_bank m (wb_addr tag) Hk Hm) as (x & Hx & Hok).
  pose proof (bank_range (wb_addr tag) (proj1 Hk)) as Hb.
  rewrite (proj2 (available_at _ _ _ (proj1 Hb) Hx)) in Hav. injection Hav as Hav%Z.ltb_lt.
  pose proof (bk_cap _ _ Hok) as Hcap.
  destruct (MSHR_allocate_ok _ _ _ Hk Hm Hx) as (i & a & Hi & Ea & Ha & E); [lia|].
  unfold MSHR_WB_insert. fold (wb_addr tag). rewrite E. cbn [rbind].
  set (b := GET_MSHR_BANK k (wb_addr tag)) in *.
  pose proof (proj1 Hm) as Hl. pose proof (put_at _ _ _ Hx) as Ep. rewrite <- Ep at 1.
  rewrite (get_entry_put _ _ _ _ Hl Hb i a) by (done || lia). cbn [rbind].
  assert (entry_ok b a) as (Hlink & Hlinked & _) by exact (Forall_lookup_1 _ _ _ _ (bk_entries _ _ Hok) Ea).
  rewrite Hlink, Hlinked. set (a' := mk_action _ _ _ _ _ MSHR_WRITEBACK _ _ _ _ _ _ _ _ _ _ _ _ _ _ _ _).
  rewrite <- Ep at 1. rewrite (bump_WB_put _ _ _ _ Hl Hb) by (apply Z.leb_le; lia). cbn [rbind].
  rewrite (set_entry_put _ _ _ _ Hl Hb i a) by (done || lia). cbn [wp b_es b_num b_pf b_fill b_wb b_un].
  destruct (dead_kinds a Ha) as (Dm & Dp & Dw & Du).
  assert (mk_bank (<[Z.to_nat i := a']> (b_es x)) (b_num x) (b_pf x) (b_fill x) (b_wb x + 1) (b_un x) =
          bank_set x i a a') as ->.
  { unfold bank_set. rewrite Dm, Dp, Dw, Du. simpl. f_equal; lia. }
  split; [|exists i, a; split; [done|]; by exists x].
  apply mshrs_ok_put; [done|done|]. apply bank_set_ok; [done|done| |rewrite Dm; simpl; lia|rewrite Dw; simpl; lia].
  split; [done|]. split; [done|]. split; [done|]. intros [=].
Qed.

(** An entry that has changed and is still of the same kinds. *)
Lemma replaced_ok m m' b i a a' : mshrs_ok m → 0 ≤ b < MSHR_banks k → replaced m m' b i a a' → entry_ok b a' →
  Z.b2z (is_miss a') ≤ Z.b2z (is_miss a) → Z.b2z (is_wb a') ≤ Z.b2z (is_wb a) → mshrs_ok m'.
Proof.
  intros Hm Hb (x & Hx & Hi & E & ->) Ha' H1 H2. pose proof (proj2 Hm b x Hb Hx) as Hok.
  apply mshrs_ok_put; [done|done|]. pose proof (bk_cap _ _ Hok). pose proof (bk_wbcap _ _ Hok).
  apply bank_set_ok; [done|done|done|lia|lia].
Qed.

Lemma at_entry m b x i a : mshrs_ok m → 0 ≤ b < MSHR_banks k → at_bank m b x → b_es x !! Z.to_nat i = Some a →
  entry_ok b a.
Proof. intros Hm Hb Hx E. exact (Forall_lookup_1 _ _ _ _ (bk_entries _ _ (proj2 Hm b x Hb Hx)) E). Qed.

Lemma MSHR_deallocate_ok m p i x a : params_ok → mshrs_ok m → at_bank m (GET_MSHR_BANK k p) x →
  0 ≤ i < MSHR_size k → b_es x !! Z.to_nat i = Some a → alive a = true → is_waiting a = false →
  wp (MSHR_deallocate k m p i) (λ m', mshrs_ok m' ∧
    replaced m m' (GET_MSHR_BANK k p) i a (with_cb None a)).
Proof.
  intros Hk Hm Hx Hi Ea Ha Hu. pose proof (bank_range p (proj1 Hk)) as Hb. unfold MSHR_deallocate.
  set (b := GET_MSHR_BANK k p) in *. pose proof (proj1 Hm) as Hl. pose proof (put_at _ _ _ Hx) as Ep.
  pose proof (proj2 Hm b x Hb Hx) as Hok. pose proof (at_entry _ _ _ _ _ Hm Hb Hx Ea) as He.
  rewrite <- Ep at 1. rewrite (get_entry_put _ _ _ _ Hl Hb i a) by (done || lia). cbn [rbind].
  rewrite Ha. cbn [guard_or rbind]. rewrite <- Ep at 1.
  rewrite (set_entry_put _ _ _ _ Hl Hb i a) by (done || lia). cbn [rbind].
  set (a' := with_cb None a). assert (alive a' = false) as Ha' by done.
  destruct (dead_kinds a' Ha') as (Dm & Dp & Dw & Du).
  assert (replaced m (put m b (bank_set x i a a')) b i a a') as Hrep by by exists x.
  assert (∀ m', m' = put m b (bank_set x i a a') → mshrs_ok m' ∧ replaced m m' b i a a') as Hend.
  { intros m' ->. split; [|done]. eapply replaced_ok; [done|exact Hb|exact Hrep| | |].
    - destruct He as (? & ? & _). split; [done|]. split; [done|]. split; [congruence|]. by rewrite Dm.
    - rewrite Dm. destruct (is_miss a); simpl; lia.
    - rewrite Dw. destruct (is_wb a); simpl; lia. }
  assert (is_pf a = bool_decide (cmd a = CACHE_PREFETCH)) as Npf by (unfold is_pf; by rewrite Ha).
  assert (∀ P : action → bool, P a = true → 0 ≤ count P (b_es x) + -1) as Hge
    by (intros P HP; pose proof (count_pos P _ _ _ Ea HP); lia).
  pose proof (bk_num _ _ Hok) as En. pose proof (bk_pf _ _ Hok) as Epf.
  pose proof (bk_fill _ _ Hok) as Ef. pose proof (bk_wb _ _ Hok) as Ew.
  assert (∀ n' p' f' w', n' = b_num x - Z.b2z (is_miss a) → p' = b_pf x - Z.b2z (is_pf a) →
     f' = b_fill x - Z.b2z (is_miss a) → w' = b_wb x - Z.b2z (is_wb a) →
     put m b (mk_bank (<[Z.to_nat i := a']> (b_es x)) n' p' f' w' (b_un x)) = put m b (bank_set x i a a')) as Eput.
  { intros n' p' f' w' -> -> -> ->. unfold bank_set. rewrite Dm, Dp, Dw, Du, Hu. simpl. do 2 f_equal; lia. }
  destruct (type a) eqn:Et.
  - assert (is_miss a = true) as Nm by (unfold is_miss; rewrite Ha; by rewrite bool_decide_true).
    assert (is_wb a = false) as Nw by (unfold is_wb; rewrite Ha; by rewrite bool_decide_false by congruence).
    rewrite decide_False by done. rewrite Nm, Nw in *. pose proof (Hge is_miss Nm).
    rewrite (bump_num_put _ _ _ _ Hl Hb) by (apply Z.leb_le; cbn [b_num]; lia).
    cbn [rbind b_es b_num b_pf b_fill b_wb b_un]. destruct (decide (MSHR_MISS = MSHR_MISS)) as [_|[]]; [|done].
    destruct (decide (cmd a = CACHE_PREFETCH)) as [Hc|Hc]; cbn [rbind b_es b_num b_pf b_fill b_wb b_un].
    + rewrite bool_decide_true in Npf by done. pose proof (Hge is_pf Npf).
      rewrite (bump_pf_put _ _ _ _ Hl Hb) by (apply Z.leb_le; cbn [b_pf]; lia).
      cbn [rbind b_es b_num b_pf b_fill b_wb b_un].
      rewrite (bump_fill_put _ _ _ _ Hl Hb) by (apply Z.leb_le; cbn [b_fill]; lia).
      apply Hend, Eput; cbn [b_es b_num b_pf b_fill b_wb b_un]; rewrite ?Npf; simpl; lia.
    + rewrite bool_decide_false in Npf by done.
      rewrite (bump_fill_put _ _ _ _ Hl Hb) by (apply Z.leb_le; cbn [b_fill]; lia).
      apply Hend, Eput; cbn [b_es b_num b_pf b_fill b_wb b_un]; rewrite ?Npf; simpl; lia.
  - assert (is_wb a = true) as Nw by (unfold is_wb; rewrite Ha; by rewrite bool_decide_true).
    assert (is_miss a = false) as Nm by (unfold is_miss; rewrite Ha; by rewrite bool_decide_false by congruence).
    rewrite decide_True by done. rewrite Nm, Nw in *. pose proof (Hge is_wb Nw).
    rewrite (bump_WB_put _ _ _ _ Hl Hb) by (apply Z.leb_le; cbn [b_wb]; lia).
    cbn [rbind b_es b_num b_pf b_fill b_wb b_un]. destruct (decide (MSHR_WRITEBACK = MSHR_MISS)) as [|_]; [done|].
    destruct (decide (cmd a = CACHE_PREFETCH)) as [Hc|Hc]; cbn [rbind b_es b_num b_pf b_fill b_wb b_un].
    + rewrite bool_decide_true in Npf by done. pose proof (Hge is_pf Npf).
      rewrite (bump_pf_put _ _ _ _ Hl Hb) by (apply Z.leb_le; cbn [b_pf]; lia).
      apply Hend, Eput; cbn [b_es b_num b_pf b_fill b_wb b_un]; rewrite ?Npf; simpl; lia.
    + rewrite bool_decide_false in Npf by done.
      apply Hend, Eput; cbn [b_es b_num b_pf b_fill b_wb b_un]; rewrite ?Npf; simpl; lia.
Qed.

(** One entry read and written back. *)
Lemma set_entry_ok m b x i a a' : mshrs_ok m → 0 ≤ b < MSHR_banks k → at_bank m b x → 0 ≤ i < MSHR_size k →
  b_es x !! Z.to_nat i = Some a →
  is_miss a' = is_miss a → is_pf a' = is_pf a → is_wb a' = is_wb a → is_waiting a' = is_waiting a →
  set_entry m b i a' = Ok (put m b (bank_set x i a a')) ∧
  replaced m (put m b (bank_set x i a a')) b i a a'.
Proof.
  intros Hm Hb Hx Hi E E1 E2 E3 E4. pose proof (proj1 Hm) as Hl. split; [|by exists x].
  rewrite <- (put_at _ _ _ Hx) at 1. rewrite (set_entry_put _ _ _ _ Hl Hb i a) by (done || lia).
  do 2 f_equal. unfold bank_set. rewrite E1, E2, E3, E4. f_equal; lia.
Qed.

Lemma get_entry m b x i a : mshrs_ok m → 0 ≤ b < MSHR_banks k → at_bank m b x → 0 ≤ i →
  b_es x !! Z.to_nat i = Some a → aget2 (MSHR m) b i = Ok a.
Proof.
  intros Hm Hb Hx Hi E. rewrite <- (put_at _ _ _ Hx). by apply (get_entry_put _ _ _ _ (proj1 Hm) Hb).
Qed.

(** A request of the bank has gone to the next level. *)
Lemma start_wb_ok now m b x i a : mshrs_ok m → 0 ≤ b < MSHR_banks k → at_bank m b x → 0 ≤ i < MSHR_size k →
  b_es x !! Z.to_nat i = Some a → is_wb a = true →
  wp (start_entry now m b i) (λ m', mshrs_ok m' ∧ replaced m m' b i a (with_started now a)).
Proof.
  intros Hm Hb Hx Hi E Hw. unfold start_entry. rewrite (get_entry _ _ _ _ _ Hm Hb Hx (proj1 Hi) E). simpl.
  pose proof (at_entry _ _ _ _ _ Hm Hb Hx E) as (H1 & H2 & H3 & _).
  assert (is_miss a = false) as Nm.
  { unfold is_wb, is_miss in *. apply andb_true_iff in Hw as [_ Hw%bool_decide_eq_true].
    rewrite Hw. apply andb_false_r. }
  assert (is_miss (with_started now a) = false) as Nm' by done.
  destruct (set_entry_ok m b x i a (with_started now a)) as [-> Hrep]; try done.
  { unfold is_waiting. by rewrite Nm, Nm'. }
  simpl. split; [|done]. eapply replaced_ok; [done|exact Hb|exact Hrep| | |]; [|done|done].
  split; [done|]. split; [done|]. split; [done|]. by rewrite Nm'.
Qed.

Lemma start_miss_ok now m b x i a : mshrs_ok m → 0 ≤ b < MSHR_banks k → at_bank m b x → 0 ≤ i < MSHR_size k →
  b_es x !! Z.to_nat i = Some a → is_waiting a = true → now ≠ TICK_T_MAX →
  wp (let* m := start_entry now m b i in bump_unprocessed (λ n, 0 <=? n) b (-1) m)
    (λ m', mshrs_ok m' ∧ replaced m m' b i a (with_started now a)).
Proof.
  intros Hm Hb Hx Hi E Hw Hnow. unfold start_entry. rewrite (get_entry _ _ _ _ _ Hm Hb Hx (proj1 Hi) E). simpl.
  pose proof (at_entry _ _ _ _ _ Hm Hb Hx E) as (H1 & H2 & H3 & _). pose proof (proj2 Hm b x Hb Hx) as Hok.
  pose proof (count_pos is_waiting _ _ _ E Hw). pose proof (bk_un _ _ Hok).
  rewrite <- (put_at _ _ _ Hx) at 1. rewrite (set_entry_put _ _ _ _ (proj1 Hm) Hb i a) by (done || lia). simpl.
  rewrite (bump_unprocessed_put _ _ _ _ (proj1 Hm) Hb) by (apply Z.leb_le; simpl; lia). simpl.
  assert (is_waiting (with_started now a) = false) as Nw.
  { unfold is_waiting. simpl. rewrite (proj2 (Z.eqb_neq _ _)) by done. apply andb_false_r. }
  assert (replaced m (put m b (bank_set x i a (with_started now a))) b i a (with_started now a)) as Hrep by by exists x.
  assert (mk_bank (<[Z.to_nat i := with_started now a]> (b_es x)) (b_num x) (b_pf x) (b_fill x) (b_wb x) (b_un x + -1)
    = bank_set x i a (with_started now a)) as ->.
  { unfold bank_set. rewrite Nw, Hw. f_equal; simpl; try lia.
    all: change (is_miss (with_started now a)) with (is_miss a);
         change (is_pf (with_started now a)) with (is_pf a); change (is_wb (with_started now a)) with (is_wb a); lia. }
  split; [|done]. eapply replaced_ok; [done|exact Hb|exact Hrep| | |]; [|done|done].
  split; [done|]. split; [done|]. split; [done|]. done.
Qed.

(** The answer of the next level; an entry that has been squashed stays as it is. *)
Lemma fill_arrived_ok now delay m b x i a : mshrs_ok m → 0 ≤ b < MSHR_banks k → at_bank m b x →
  0 ≤ i < MSHR_size k → b_es x !! Z.to_nat i = Some a → is_waiting a = false →
  wp (fill_arrived k now m b i delay) (λ m', mshrs_ok m' ∧
    replaced m m' b i a (if alive a then with_returned (now + delay) a else a)).
Proof.
  intros Hm Hb Hx Hi E Hw. unfold fill_arrived. rewrite (proj2 (Z.leb_le 0 i)), (proj2 (Z.ltb_lt _ _)) by lia.
  cbn [andb guard_or rbind]. rewrite (get_entry _ _ _ _ _ Hm Hb Hx (proj1 Hi) E). cbn [rbind].
  pose proof (at_entry _ _ _ _ _ Hm Hb Hx E) as (H1 & H2 & H3 & _). rewrite H2. cbn [negb guard_or rbind].
  set (a' := if alive a then with_returned (now + delay) a else a).
  assert (MSHR_link a' = None ∧ MSHR_linked a' = false) as [L1 L2] by (unfold a'; by case_match).
  assert (is_miss a' = is_miss a ∧ is_pf a' = is_pf a ∧ is_wb a' = is_wb a ∧ is_waiting a' = is_waiting a)
    as (E1 & E2 & E3 & E4) by (unfold a'; by case_match).
  destruct (set_entry_ok m b x i a a' Hm Hb Hx Hi E E1 E2 E3 E4) as [-> Hrep]. cbn [rbind].
  set (m1 := put m b (bank_set x i a a')) in *.
  assert (fill_linked (Z.to_nat (MSHR_size k)) m1 b (MSHR_link a') (now + delay) = Ok m1) as ->
    by (rewrite L1; by destruct (Z.to_nat (MSHR_size k))). cbn [rbind].
  assert (mshrs_ok m1) as Hm1.
  { eapply replaced_ok; [done|exact Hb|exact Hrep| |by rewrite E1|by rewrite E3].
    split; [done|]. split; [done|]. split; [unfold a'; case_match; [by intros _; apply H3|intros; congruence]|].
    rewrite E1. intros Hmiss _. assert (when_started a' = when_started a) as -> by (unfold a'; by case_match).
    unfold is_waiting in Hw. rewrite Hmiss in Hw. by apply Z.eqb_neq in Hw. }
  assert (at_bank m1 b (bank_set x i a a')) as Hx1 by (by apply (at_put _ _ _ _ (proj1 Hm))).
  assert (b_es (bank_set x i a a') !! Z.to_nat i = Some a') as Ei.
  { simpl. apply list_lookup_insert_eq. by eapply lookup_lt_Some. }
  rewrite (get_entry _ _ _ _ _ Hm1 Hb Hx1 (proj1 Hi) Ei). cbn [rbind].
  assert (with_link None (MSHR_linked a') a' = a') as -> by (destruct a'; simpl in *; by subst).
  unfold m1 in *. rewrite (set_entry_put _ _ _ _ (proj1 Hm) Hb i a') by (done || lia).
  simpl. rewrite list_insert_id by done. split; [|exists x; split_and!; try done; lia]. done.
Qed.

End inv.

End cache_mshr.
