(* ===== verification/CachePipes.v ===== *)
(** * CachePipes: the banked event heaps of a cache

    [cp->pipe] with [cp->pipe_num], and [cp->fill_pipe] with [cp->fill_num], of
    src/xiosim/zesto-cache.h: a heap per bank with its number of entries.  A bank is
    inserted into and removed from as the functions of zesto-cache.cpp do; abstractly
    the banks are one multiset of entries, [queued]. *)

From S2P Require Import Prelude CacheSet CacheHeap CacheState.

Module cache_pipes.
Import cache_heap.

Section banks.
Context {A : Type} `{HeapNode A}.
Implicit Types (x : A).

(** The heaps and their numbers of entries. *)
Record pipes : Type := mk_pipes { heaps : list (list A); nums : list Z }.

(** [pipe[bank][insert_position] = x; heap_balance(pipe[bank],insert_position);
    pipe_num[bank]++] under the assertions of the code: the slot is free and inside
    the heap. *)
Definition bank_insert (heap_size : Z) (p : pipes) (bank : Z) (x : A) : result pipes :=
  let* l := aget (heaps p) bank in
  let* n := aget (nums p) bank in
  let* old := aget l (n + 1) in
  let* _ := guard_or (negb (live old)) AssertFail in
  let* _ := guard_or (n + 1 <? heap_size) AssertFail in
  let* l := heap_insert l n x in
  let* hs := aset (heaps p) bank l in
  let* ns := aset (nums p) bank (n + 1) in
  Ok (mk_pipes hs ns).

(** [heap_remove(pipe[bank],pipe_num[bank]); pipe_num[bank]--] and its assertion. *)
Definition bank_remove (p : pipes) (bank : Z) : result pipes :=
  let* l := aget (heaps p) bank in
  let* n := aget (nums p) bank in
  let* l := heap_remove l n in
  let* _ := guard_or (0 <=? n - 1) AssertFail in
  let* hs := aset (heaps p) bank l in
  let* ns := aset (nums p) bank (n - 1) in
  Ok (mk_pipes hs ns).

(** [pipe[bank][1]] *)
Definition bank_root (p : pipes) (bank : Z) : result A := let* l := aget (heaps p) bank in aget l 1.

(** ** The multiset *)

Fixpoint queued_in (hs : list (list A)) (ns : list Z) : list A :=
  match hs, ns with
  | l :: hs, n :: ns => entries n l ++ queued_in hs ns
  | _, _ => []
  end.
Definition queued (p : pipes) : list A := queued_in (heaps p) (nums p).

(** The other banks. *)
Lemma queued_in_insert hs ns i l n l' n' : hs !! i = Some l → ns !! i = Some n →
  ∃ rest, queued_in hs ns ≡ₚ entries n l ++ rest ∧ queued_in (<[i := l']> hs) (<[i := n']> ns) ≡ₚ entries n' l' ++ rest.
Proof.
  revert ns i. induction hs as [|h hs IH]; intros [|m ns] [|i] Eh En; simpl in *; try done.
  - injection Eh as ->. injection En as ->. by exists (queued_in hs ns).
  - destruct (IH ns i Eh En) as (rest & E1 & E2). exists (entries m h ++ rest).
    rewrite E1, E2. split; solve_Permutation.
Qed.

(** ** The invariant *)

Section inv.
Variables (banks heap_size latency : Z).
Hypothesis Hsize : latency < heap_size.

Definition bank_ok (l : list A) (n : Z) : Prop := heap_ok n l ∧ Z.of_nat (length l) = heap_size ∧ n ≤ latency.

Record pipes_ok (p : pipes) : Prop := {
  pipes_heaps : Z.of_nat (length (heaps p)) = banks;
  pipes_nums : Z.of_nat (length (nums p)) = banks;
  pipes_banks : Forall2 bank_ok (heaps p) (nums p)
}.

Lemma pipes_bank p b : pipes_ok p → 0 ≤ b < banks →
  ∃ l n, heaps p !! Z.to_nat b = Some l ∧ nums p !! Z.to_nat b = Some n ∧
    aget (heaps p) b = Ok l ∧ aget (nums p) b = Ok n ∧ bank_ok l n.
Proof.
  intros [Hh Hn HF] Hb. destruct (aget_ok (heaps p) b) as (l & El & Gl); [lia|].
  destruct (aget_ok (nums p) b) as (n & En & Gn); [lia|]. exists l, n. repeat (split; [done|]).
  by eapply Forall2_lookup_lr.
Qed.

Lemma pipes_put p b l n : pipes_ok p → bank_ok l n →
  pipes_ok (mk_pipes (<[Z.to_nat b := l]> (heaps p)) (<[Z.to_nat b := n]> (nums p))).
Proof.
  intros [Hh Hn HF] Hl. split; simpl; rewrite ?length_insert; try done. by apply Forall2_insert.
Qed.

(** An insertion into a bank that is not full adds the entry and no other. *)
Lemma bank_insert_ok p b x : pipes_ok p → 0 ≤ b < banks → in_use x →
  (∀ n, aget (nums p) b = Ok n → n < latency) →
  wp (bank_insert heap_size p b x) (λ p', pipes_ok p' ∧ queued p' ≡ₚ x :: queued p).
Proof.
  intros Hp Hb Hx Hroom. destruct (pipes_bank p b Hp Hb) as (l & n & El & En & Gl & Gn & Hok & Hl & Hn).
  specialize (Hroom n Gn). pose proof (heap_len _ _ Hok). unfold bank_insert. rewrite Gl, Gn. simpl.
  destruct (aget_ok l (n + 1) ltac:(lia)) as (old & _ & Eold). rewrite Eold. simpl.
  rewrite (heap_free _ _ Hok (n + 1) old ltac:(lia) Eold). simpl. rewrite (proj2 (Z.ltb_lt _ _)) by lia. simpl.
  eapply wp_bind, wp_mono; [apply heap_insert_ok; [done|lia|done]|]. intros l' (Hok' & Hl' & Hp').
  pose proof (pipes_heaps _ Hp). pose proof (pipes_nums _ Hp).
  rewrite aset_ok by lia. simpl. rewrite aset_ok by lia. simpl. split.
  - apply pipes_put; [done|]. split; [done|]. lia.
  - unfold queued. simpl. destruct (queued_in_insert _ _ _ _ _ l' (n + 1) El En) as (rest & -> & ->). by rewrite Hp'.
Qed.

(** A removal takes the root, an entry that leaves first in its bank. *)
Lemma bank_remove_ok p b n : pipes_ok p → 0 ≤ b < banks → aget (nums p) b = Ok n → n ≠ 0 →
  ∃ x, bank_root p b = Ok x ∧ in_use x ∧ x ∈ queued p ∧
    wp (bank_remove p b) (λ p', pipes_ok p' ∧ queued p ≡ₚ x :: queued p').
Proof.
  intros Hp Hb Gn' Hne. destruct (pipes_bank p b Hp Hb) as (l & n' & El & En & Gl & Gn & Hok & Hl & Hn).
  rewrite Gn in Gn'. injection Gn' as ->. pose proof (heap_len _ _ Hok).
  destruct (aget_ok l 1 ltac:(lia)) as (x & _ & Ex).
  assert (x ∈ entries n l) as Hin by (apply entries_elem; exists 1; split; [lia|done]).
  exists x. unfold bank_root. rewrite Gl. split; [done|].
  split; [exact (proj1 (list.Forall_forall _ _) (heap_used _ _ Hok) x Hin)|]. split.
  { unfold queued. destruct (queued_in_insert _ _ _ _ _ l n El En) as (rest & -> & _). apply elem_of_app. by left. }
  unfold bank_remove. rewrite Gl, Gn. simpl.
  eapply wp_bind, wp_mono; [apply heap_remove_ok; [done|lia]|]. intros l' (Hok' & Hl' & y & Ey & Hp' & _).
  rewrite Ex in Ey. injection Ey as <-. rewrite (proj2 (Z.leb_le _ _)) by lia. simpl.
  pose proof (pipes_heaps _ Hp). pose proof (pipes_nums _ Hp).
  rewrite aset_ok by lia. simpl. rewrite aset_ok by lia. simpl. split.
  - apply pipes_put; [done|]. split; [done|]. lia.
  - unfold queued. simpl. destruct (queued_in_insert _ _ _ _ _ l' (n - 1) El En) as (rest & -> & ->). by rewrite Hp'.
Qed.

(** A bank without entries. *)
Lemma queued_empty p : pipes_ok p → (∀ b, 0 ≤ b < banks → aget (nums p) b = Ok 0) → queued p = [].
Proof.
  intros [Hh Hn HF] Hz. assert (∀ b, (b < length (nums p))%nat → nums p !! b = Some 0) as Hz'.
  { intros b Hb. specialize (Hz (Z.of_nat b) ltac:(lia)). apply aget_inv in Hz as [_ Hz]. by rewrite Nat2Z.id in Hz. }
  clear -Hz' . unfold queued. destruct p as [hs ns]. simpl in *.
  revert ns Hz'. induction hs as [|l hs IH]; intros [|n ns] Hz'; simpl; try done.
  pose proof (Hz' 0%nat ltac:(simpl; lia)) as [= ->]. apply (IH ns). intros b Hb. apply (Hz' (S b)). simpl. lia.
Qed.

End inv.

(** ** All slots *)

(** A property of the slots in use and of those that have been. *)
Section slots.
Variable Q : A → Prop.
Hypothesis Qerase : ∀ x, Q x → Q (erase x).

Lemma aget_all (l : list A) i x : Forall Q l → aget l i = Ok x → Q x.
Proof. intros HQ [_ E]%aget_inv. exact (Forall_lookup_1 _ _ _ _ HQ E). Qed.

Lemma swap_all (l l' : list A) i j : Forall Q l → swap l i j = Ok l' → Forall Q l'.
Proof.
  intros HQ E. unfold swap in E. apply bind_Ok_inv in E as (x & Ex & E). apply bind_Ok_inv in E as (y & Ey & E).
  apply bind_Ok_inv in E as (l1 & E1 & E2).
  eapply Forall_aset; [exact E2| |by eapply aget_all]. eapply Forall_aset; [exact E1|done|by eapply aget_all].
Qed.

Lemma balance_all fuel (l l' : list A) pos : Forall Q l → balance_at fuel l pos = Ok l' → Forall Q l'.
Proof.
  revert l pos. induction fuel as [|fuel IH]; intros l pos HQ E; simpl in E; [done|].
  destruct (1 <? pos); [|by simplify_eq]. apply bind_Ok_inv in E as (p & _ & E). apply bind_Ok_inv in E as (c & _ & E).
  destruct (_ <? _); [|by simplify_eq]. apply bind_Ok_inv in E as (l1 & E1 & E). eapply IH; [|exact E].
  by eapply swap_all.
Qed.

Lemma sink_all fuel (l l' : list A) n pos : Forall Q l → sink_at fuel l n pos = Ok l' → Forall Q l'.
Proof.
  revert l pos. induction fuel as [|fuel IH]; intros l pos HQ E; cbn [sink_at] in E; [done|].
  apply bind_Ok_inv in E as (me & _ & E). apply bind_Ok_inv in E as (L & _ & E).
  apply bind_Ok_inv in E as (R & _ & E). destruct (_ || _); [|by simplify_eq].
  destruct (R =? TICK_T_MAX); [by eapply swap_all|].
  destruct (_ && _); apply bind_Ok_inv in E as (l1 & E1 & E); (eapply IH; [|exact E]); by eapply swap_all.
Qed.

Definition slots_all (p : pipes) : Prop := Forall (Forall Q) (heaps p).

Lemma insert_all hs p b x : slots_all p → Q x → wp (bank_insert hs p b x) (λ _, True) →
  wp (bank_insert hs p b x) slots_all.
Proof.
  intros HQ Hx H1. apply wp_exists in H1 as (p' & E & _). rewrite E. simpl. unfold bank_insert in E.
  apply bind_Ok_inv in E as (l & El & E). apply bind_Ok_inv in E as (n & _ & E).
  apply bind_Ok_inv in E as (old & _ & E). apply bind_Ok_inv in E as (_ & _ & E).
  apply bind_Ok_inv in E as (_ & _ & E). apply bind_Ok_inv in E as (l' & El' & E).
  apply bind_Ok_inv in E as (hs' & Ehs & E). apply bind_Ok_inv in E as (ns' & _ & [= <-]). unfold slots_all. simpl.
  eapply Forall_aset; [exact Ehs|done|]. unfold heap_insert in El'. apply bind_Ok_inv in El' as (l1 & E1 & E2).
  eapply balance_all; [|exact E2]. eapply Forall_aset; [exact E1| |done].
  apply aget_inv in El as [_ El]. exact (Forall_lookup_1 _ _ _ _ HQ El).
Qed.

Lemma remove_all p b : slots_all p → wp (bank_remove p b) (λ _, True) → wp (bank_remove p b) slots_all.
Proof.
  intros HQ H1. apply wp_exists in H1 as (p' & E & _). rewrite E. simpl. unfold bank_remove in E.
  apply bind_Ok_inv in E as (l & El & E). apply bind_Ok_inv in E as (n & _ & E).
  apply bind_Ok_inv in E as (l' & El' & E). apply bind_Ok_inv in E as (_ & _ & E).
  apply bind_Ok_inv in E as (hs' & Ehs & E). apply bind_Ok_inv in E as (ns' & _ & [= <-]). unfold slots_all. simpl.
  eapply Forall_aset; [exact Ehs|done|]. apply aget_inv in El as [_ El]. pose proof (Forall_lookup_1 _ _ _ _ HQ El) as Hl.
  assert (∀ (l l' : list A) i, Forall Q l → amodify l i erase = Ok l' → Forall Q l') as Hmod.
  { intros l0 l0' i H0 E. unfold amodify in E. apply bind_Ok_inv in E as (y & Ey & E).
    eapply Forall_aset; [exact E|done|]. apply Qerase. by eapply aget_all. }
  unfold heap_remove in El'. destruct (n =? 1); [by eapply Hmod|].
  apply bind_Ok_inv in El' as (last & E1 & E). apply bind_Ok_inv in E as (l1 & E2 & E). apply bind_Ok_inv in E as (l2 & E3 & E).
  eapply sink_all; [|exact E]. eapply Hmod; [|exact E3]. eapply Forall_aset; [exact E2|done|by eapply aget_all].
Qed.
End slots.

End banks.
#[global] Arguments pipes : clear implicits.
End cache_pipes.
