(* ===== verification/CachePrefetch.v ===== *)
(** * CachePrefetch: the prefetch queue, buffer and filter of a cache

    The addresses that the prefetchers of a cache of src/xiosim/zesto-cache.cpp ask
    for wait in a circular FIFO (PFF); the blocks that come in may go to a small
    buffer beside the array first; a table of two-bit counters may filter out those
    that are predicted to be useless. *)

From S2P Require Import Prelude Misc.

Module cache_prefetch.

(** ** The FIFO *)

(** Source: src/xiosim/zesto-cache.h:223-227 PFF_t.
    [r_core] is the number of the core, -1 for the null pointer. *)
Record request : Type := mk_request { r_PC : Z; r_addr : Z; r_core : Z }.

(** Source: src/xiosim/zesto-cache.h:219-227 cache_t. *)
Record fifo : Type := mk_fifo {
  PFF_size : Z;
  PFF_num : Z;
  PFF_head : Z;
  PFF_tail : Z;
  PFF : list request
}.

(** Source: src/xiosim/zesto-cache.cpp:853-856 prefetchers_create. *)
Definition fifo_create (size : Z) : fifo := mk_fifo size 0 0 0 (replicate (Z.to_nat size) (mk_request 0 0 (-1))).

(** The search of [n] slots from [index] on. *)
Fixpoint requested_from (n : nat) (q : fifo) (index addr : Z) : result bool :=
  match n with
  | O => Ok false
  | S n =>
      let* r := aget (PFF q) index in
      if r_addr r =? addr then Ok true else requested_from n q (modinc index (PFF_size q)) addr
  end.

(** Source: src/xiosim/zesto-cache.cpp:2299-2310 cache_process_pipe. *)
Definition already_requested (q : fifo) (addr : Z) : result bool :=
  requested_from (Z.to_nat (PFF_num q)) q (PFF_head q) addr.

(** Source: src/xiosim/zesto-cache.cpp:2299-2326 cache_process_pipe.
    Ask for a prefetch: nothing when it has been asked for; the oldest request
    goes when the FIFO is full. *)
Definition fifo_push (q : fifo) (r : request) : result fifo :=
  let* found := already_requested q (r_addr r) in
  if found then Ok q
  else
    let* q := if PFF_num q =? PFF_size q then
                let* _ := guard_or (0 <=? PFF_num q - 1) AssertFail in
                Ok (mk_fifo (PFF_size q) (PFF_num q - 1) (modinc (PFF_head q) (PFF_size q)) (PFF_tail q) (PFF q))
              else Ok q in
    let* l := aset (PFF q) (PFF_tail q) r in
    let* _ := guard_or (PFF_num q + 1 <=? PFF_size q) AssertFail in
    Ok (mk_fifo (PFF_size q) (PFF_num q + 1) (PFF_head q) (modinc (PFF_tail q) (PFF_size q)) l).

(** Source: src/xiosim/zesto-cache.cpp:2613-2620 cache_prefetch.
    The request at the head. *)
Definition fifo_front (q : fifo) : result request := aget (PFF q) (PFF_head q).

(** Source: src/xiosim/zesto-cache.cpp:2624-2626 cache_prefetch. *)
Definition fifo_pop (q : fifo) : result fifo :=
  let* _ := guard_or (0 <=? PFF_num q - 1) AssertFail in
  Ok (mk_fifo (PFF_size q) (PFF_num q - 1) (modinc (PFF_head q) (PFF_size q)) (PFF_tail q) (PFF q)).

(** The requests in order: the abstract queue. *)
Definition queue (q : fifo) : list request := ring.window (PFF q) (PFF_size q) (PFF_head q) (PFF_num q).

Definition fifo_ok (q : fifo) : Prop := ring.ring_ok (PFF q) (PFF_size q) (PFF_head q) (PFF_num q) (PFF_tail q).

(** The search finds the address among the first requests. *)
Lemma requested_from_ok n q addr j : fifo_ok q → 0 ≤ j →
  wp (requested_from n q (ring.slot (PFF_size q) (PFF_head q) j) addr) (λ b, b = bool_decide (addr ∈
    r_addr <$> omap (λ i, PFF q !! Z.to_nat (ring.slot (PFF_size q) (PFF_head q) i)) (seqZ j (Z.of_nat n)))).
Proof.
  intros Hq. pose proof Hq as [Hs Hl _ _ _]. revert j. induction n as [|n IH]; intros j Hj.
  - apply wp_ret. symmetry. apply bool_decide_eq_false. rewrite seqZ_nil by lia. apply not_elem_of_nil.
  - rewrite seqZ_cons by lia. replace (Z.pred (Z.of_nat (S n))) with (Z.of_nat n) by lia.
    destruct (ring.slot_get _ _ _ _ _ j Hq) as (r & Er & E). simpl. rewrite E. simpl. rewrite ring.modinc_slot by done.
    csimpl. rewrite Er. csimpl. destruct (Z.eqb_spec (r_addr r) addr) as [<-|Hne].
    + simpl. rewrite bool_decide_true; [done|]. apply list_elem_of_here.
    + eapply wp_mono; [by apply (IH (j + 1)); lia|]. intros b ->. replace (Z.succ j) with (j + 1) by lia.
      apply bool_decide_ext. rewrite elem_of_cons. split; [by right|]. intros [?|?]; [congruence|done].
Qed.

Lemma already_requested_ok q addr : fifo_ok q →
  wp (already_requested q addr) (λ b, b = bool_decide (addr ∈ r_addr <$> queue q)).
Proof.
  intros Hq. unfold already_requested, queue. pose proof Hq as [Hs _ Hn Hh _].
  pose proof (requested_from_ok (Z.to_nat (PFF_num q)) q addr 0 Hq ltac:(lia)) as H.
  by rewrite ring.slot_0, Z2Nat.id in H by lia.
Qed.

(** The abstract push. *)
Definition push_spec (size : Z) (r : request) (l : list request) : list request :=
  if bool_decide (r_addr r ∈ r_addr <$> l) then l
  else (if Z.of_nat (length l) =? size then tail l else l) ++ [r].

Lemma fifo_pop_ok q : fifo_ok q → 1 ≤ PFF_num q →
  wp (fifo_pop q) (λ q', fifo_ok q' ∧ ∃ r, fifo_front q = Ok r ∧ queue q = r :: queue q').
Proof.
  intros Hq Hn. unfold fifo_pop. rewrite (proj2 (Z.leb_le _ _)) by lia. simpl. by apply ring.window_pop.
Qed.

Lemma fifo_push_ok q r : fifo_ok q →
  wp (fifo_push q r) (λ q', fifo_ok q' ∧ queue q' = push_spec (PFF_size q) r (queue q)).
Proof.
  intros Hq. unfold fifo_push. apply wp_bind. eapply wp_mono; [by apply already_requested_ok|].
  intros b ->. unfold push_spec. case_bool_decide as Hin; [done|].
  pose proof Hq as [Hs Hl Hn Hh Ht]. unfold queue at 2. rewrite (ring.window_length _ _ _ _ _ Hq).
  apply wp_bind. apply (wp_mono _ (λ q1, fifo_ok q1 ∧ PFF_size q1 = PFF_size q ∧ PFF_num q1 < PFF_size q ∧
    queue q1 = (if PFF_num q =? PFF_size q then tail (queue q) else queue q))).
  { destruct (Z.eqb_spec (PFF_num q) (PFF_size q)) as [E|Hne]; [|split_and!; (done || lia)].
    rewrite (proj2 (Z.leb_le _ _)) by lia. simpl.
    destruct (ring.window_pop _ _ _ _ _ Hq ltac:(lia)) as (Hok & r0 & _ & Eq).
    split; [done|]. split; [done|]. split; [simpl; lia|]. unfold queue. by rewrite Eq. }
  intros q1 (Hok1 & Es & Hroom & Eq). pose proof Hok1 as [Hs1 Hl1 Hn1 Hh1 Ht1].
  pose proof (ring.slot_in_range _ (PFF_head q1) Hs1 (PFF_num q1)). rewrite aset_ok by lia. simpl.
  rewrite (proj2 (Z.leb_le _ _)) by lia. simpl.
  destruct (ring.window_push _ _ _ _ _ r Hok1 ltac:(lia)) as [Hok' Eq']. split; [done|]. rewrite <- Eq. exact Eq'.
Qed.

(** The slots, whether they wait or not. *)
(** What holds of the requests in the queue and of a new one holds after it is pushed. *)
Lemma push_spec_all (P : request → Prop) size r l : Forall P l → P r → Forall P (push_spec size r l).
Proof.
  intros Hl Hr. unfold push_spec. case_bool_decide; [done|]. apply list.Forall_app. split; [|by repeat constructor].
  case_match; [|done]. by destruct Hl.
Qed.

Lemma fifo_create_ok size : 1 ≤ size < 2 ^ 31 → fifo_ok (fifo_create size) ∧ queue (fifo_create size) = [].
Proof.
  intros Hs. split; [by apply ring.ring_create|done].
Qed.

(** The prefetch queue is a bounded queue without duplicates: a request for an
    address that is waiting changes nothing; any other goes to the end, the oldest
    making room when the queue is full; the removal takes the oldest. *)
Theorem fifo_refines_bounded_queue q r : fifo_ok q →
  wp (fifo_push q r) (λ q', fifo_ok q' ∧ queue q' = push_spec (PFF_size q) r (queue q)) ∧
  (1 ≤ PFF_num q → wp (fifo_pop q) (λ q', fifo_ok q' ∧ ∃ h, fifo_front q = Ok h ∧ queue q = h :: queue q')).
Proof. intros Hq. split; [by apply fifo_push_ok|by apply fifo_pop_ok]. Qed.

Definition demo_fifo : fifo := mk_fifo 3 3 2 2 [mk_request 0 7 0; mk_request 0 8 0; mk_request 0 6 0].

Lemma fifo_refines_bounded_queue_witness :
  rmap queue (fifo_push demo_fifo (mk_request 0 9 0)) = Ok [mk_request 0 7 0; mk_request 0 8 0; mk_request 0 9 0] ∧
  wp (fifo_push demo_fifo (mk_request 0 9 0)) (λ q', fifo_ok q' ∧
    queue q' = push_spec (PFF_size demo_fifo) (mk_request 0 9 0) (queue demo_fifo)) ∧
  (1 ≤ PFF_num demo_fifo → wp (fifo_pop demo_fifo) (λ q', fifo_ok q' ∧
    ∃ h, fifo_front demo_fifo = Ok h ∧ queue demo_fifo = h :: queue q')).
Proof.
  split; [reflexivity|]. apply (fifo_refines_bounded_queue demo_fifo (mk_request 0 9 0)).
  split; simpl; try lia; reflexivity.
Defined.

(** ** The filter *)

(** Source: src/xiosim/zesto-cache.h:149-155 prefetch_filter_t. *)
Record filter_t : Type := mk_filter {
  table : list Z;
  num_entries : Z;
  mask : Z;
  reset_interval : Z;
  last_reset : Z
}.

(** Source: src/xiosim/zesto-cache.cpp:765-784 prefetch_filter_create. *)
Definition filter_create (num_entries reset_interval : Z) : option filter_t :=
  if num_entries =? 0 then None
  else Some (mk_filter (replicate (Z.to_nat num_entries) 3) num_entries (num_entries - 1) reset_interval 0).

(** [table[i] = 3] for all; [last_reset = cycle - (cycle % reset_interval)] *)
Definition filter_reset (p : filter_t) (cycle : Z) : result filter_t :=
  let* l := for_range 0 (num_entries p) (λ i l, aset l i 3) (table p) in
  let* _ := guard_or (negb (reset_interval p =? 0)) DivByZero in
  Ok (mk_filter l (num_entries p) (mask p) (reset_interval p) (cycle - Z.rem cycle (reset_interval p))).

(** Source: src/xiosim/zesto-cache.cpp:796-812 prefetch_filter_lookup. *)
Definition filter_lookup (p : filter_t) (cycle addr : Z) : result (filter_t * bool) :=
  if last_reset p + reset_interval p <=? cycle then
    let* p := filter_reset p cycle in Ok (p, true)
  else
    let* c := aget (table p) (Z.land addr (mask p)) in
    Ok (p, 2 <=? c).

(** Source: src/xiosim/zesto-cache.cpp:815-839 prefetch_filter_update. *)
Definition filter_update (p : filter_t) (cycle addr : Z) (useful : bool) : result filter_t :=
  let index := Z.land addr (mask p) in
  let* p := if last_reset p + reset_interval p <? cycle then filter_reset p cycle else Ok p in
  let* c := aget (table p) index in
  let* l := if useful then (if c <? 3 then aset (table p) index (c + 1) else Ok (table p))
            else (if 0 <? c then aset (table p) index (c - 1) else Ok (table p)) in
  Ok (mk_filter l (num_entries p) (mask p) (reset_interval p) (last_reset p)).

(** The counters stay two-bit counters. *)
Record filter_ok (p : filter_t) : Prop := {
  filter_len : Z.of_nat (length (table p)) = num_entries p;
  filter_num : 1 ≤ num_entries p;
  filter_mask : mask p = num_entries p - 1;
  filter_interval : 1 ≤ reset_interval p;
  filter_table : Forall (λ c, 0 ≤ c ≤ 3) (table p)
}.

Lemma filter_create_ok n i p : 0 ≤ n → 1 ≤ i → filter_create n i = Some p → filter_ok p.
Proof.
  intros Hn Hi. unfold filter_create. destruct (Z.eqb_spec n 0); [done|]. intros [= <-].
  split; simpl; try lia; [rewrite length_replicate; lia|]. apply Forall_replicate. lia.
Qed.

Lemma filter_reset_ok p cycle : filter_ok p → wp (filter_reset p cycle) filter_ok.
Proof.
  intros [Hl Hn Hm Hi Ht]. unfold filter_reset. apply wp_bind.
  apply (wp_for_range (λ _ l, Z.of_nat (length l) = num_entries p ∧ Forall (λ c, 0 ≤ c ≤ 3) l)); [lia|done| |].
  - intros i l Hr [Hl' Ht']. apply wp_aset; [lia|]. split; [by rewrite length_insert|]. apply Forall_insert; [done|lia].
  - intros l [Hl' Ht']. rewrite (proj2 (Z.eqb_neq _ _)) by lia. simpl. by split.
Qed.

Lemma filter_lookup_ok p cycle addr : filter_ok p → wp (filter_lookup p cycle addr) (λ '(p', _), filter_ok p').
Proof.
  intros Hp. unfold filter_lookup. case_match.
  - apply wp_bind. eapply wp_mono; [by apply filter_reset_ok|]. done.
  - pose proof Hp as [Hl Hn Hm Hi Ht]. rewrite Hm. pose proof (land_mask_range addr (num_entries p) Hn).
    apply wp_bind, wp_aget; [lia|]. done.
Qed.

Lemma filter_update_ok p cycle addr useful : filter_ok p → wp (filter_update p cycle addr useful) filter_ok.
Proof.
  intros Hp. unfold filter_update. apply wp_bind.
  apply (wp_mono _ (λ q, filter_ok q ∧ mask q = mask p ∧ num_entries q = num_entries p)).
  { case_match; [|done]. pose proof (filter_reset_ok p cycle Hp) as H'. unfold filter_reset in *.
    destruct (for_range _ _ _ _); [|done]. simpl in *. destruct (guard_or _ _); [|done]. done. }
  intros q (Hq & Em & En). pose proof Hq as [Hl Hn Hm Hi Ht]. rewrite <- Em, Hm.
  pose proof (land_mask_range addr (num_entries q) Hn). set (i := Z.land addr (num_entries q - 1)) in *.
  apply wp_bind, (wp_aget_Forall _ _ _ _ Ht); [lia|]. intros c _ Hc. apply wp_bind.
  apply (wp_mono _ (λ l, Z.of_nat (length l) = num_entries q ∧ Forall (λ c, 0 ≤ c ≤ 3) l)); [|by intros l [? ?]; split].
  assert (∀ v, 0 ≤ v ≤ 3 → wp (aset (table q) i v) (λ l, Z.of_nat (length l) = num_entries q ∧ Forall (λ c, 0 ≤ c ≤ 3) l)).
  { intros v Hv. apply wp_aset; [lia|]. split; [by rewrite length_insert|by apply Forall_insert]. }
  destruct useful.
  - destruct (Z.ltb_spec c 3); [apply H0; lia|done].
  - destruct (Z.ltb_spec 0 c); [apply H0; lia|done].
Qed.

(** ** The buffer *)

(** The addresses of the buffer, the most recent first.  Its entries are reached
    through their list alone, so the moves of the source are moves in this list. *)

(** Source: src/xiosim/zesto-cache.cpp:736-750 prefetch_buffer_create. *)
Definition buffer_create (num_entries : Z) : list Z := replicate (Z.to_nat num_entries) (u64 (-1)).

(** The entry where the walk of an insertion stops (the block, a free entry or the
    last one), with the address it then has, and the others. *)
Fixpoint buffer_pick (shift paddr : Z) (buf : list Z) : option (Z * list Z) :=
  match buf with
  | [] => None
  | x :: r =>
      if Z.shiftr paddr shift =? Z.shiftr x shift then Some (x, r)
      else match r with
           | [] => Some (paddr, r)
           | _ => if x =? u64 (-1) then Some (paddr, r)
                  else match buffer_pick shift paddr r with
                       | Some (y, r') => Some (y, x :: r')
                       | None => None
                       end
           end
  end.

(** Source: src/xiosim/zesto-cache.cpp:1984-2012 cache_process_MSHR_fill. *)
Definition buffer_insert (shift paddr : Z) (buf : list Z) : list Z :=
  match buffer_pick shift paddr buf with Some (y, r) => y :: r | None => buf end.

(** Source: src/xiosim/zesto-cache.cpp:2200-2210 cache_process_pipe.
    The entry with the block of the address, and the others. *)
Fixpoint buffer_find (shift paddr : Z) (buf : list Z) : option (Z * list Z) :=
  match buf with
  | [] => None
  | x :: r =>
      if Z.shiftr x shift =? Z.shiftr paddr shift then Some (x, r)
      else match buffer_find shift paddr r with Some (y, r') => Some (y, x :: r') | None => None end
  end.

Lemma buffer_find_perm shift paddr buf y r : buffer_find shift paddr buf = Some (y, r) →
  Z.shiftr y shift = Z.shiftr paddr shift ∧ buf ≡ₚ y :: r.
Proof.
  revert y r. induction buf as [|x buf IH]; intros y r; simpl; [done|].
  destruct (Z.eqb_spec (Z.shiftr x shift) (Z.shiftr paddr shift)).
  - intros [= <- <-]. done.
  - destruct (buffer_find shift paddr buf) as [[y' r']|] eqn:E; [|done]. intros [= <- <-].
    destruct (IH _ _ eq_refl) as [Hy Hp]. split; [done|]. rewrite Hp. apply Permutation_swap.
Qed.

(** After an insertion the block is the first of the buffer, which keeps its size,
    and at most one other block has gone. *)
Lemma buffer_insert_ok shift paddr buf : buf ≠ [] →
  length (buffer_insert shift paddr buf) = length buf ∧
  (∃ y r old, buffer_insert shift paddr buf = y :: r ∧ Z.shiftr y shift = Z.shiftr paddr shift ∧ buf ≡ₚ old :: r).
Proof.
  intros Hne. unfold buffer_insert.
  assert (∃ y r old, buffer_pick shift paddr buf = Some (y, r) ∧ Z.shiftr y shift = Z.shiftr paddr shift ∧
    buf ≡ₚ old :: r) as (y & r & old & -> & Hy & Hp).
  { clear -Hne. induction buf as [|x buf IH]; [done|]. simpl.
    destruct (Z.eqb_spec (Z.shiftr paddr shift) (Z.shiftr x shift)); [by exists x, buf, x|].
    destruct buf as [|z buf]; [by exists paddr, [], x|].
    destruct (x =? u64 (-1)); [by exists paddr, (z :: buf), x|].
    destruct (IH ltac:(done)) as (y & r & old & -> & Hy & Hp). exists y, (x :: r), old.
    split; [done|]. split; [done|]. rewrite Hp. apply Permutation_swap. }
  split; [by rewrite Hp|]. by exists y, r, old.
Qed.

End cache_prefetch.
