(* ===== verification/Prefetch.v ===== *)
(** * Prefetch: the prefetchers of src/xiosim/ZCOMPS-prefetch

    A prefetcher is asked at the accesses of its cache for an address to prefetch (0
    for none).  [Prefetcher] is the interface the cache uses (prefetch_t of
    zesto-prefetch.h), [PrefetcherLaws] what it relies on: lookups never fail and
    keep the invariant of the tables.

    What they learn: a load that walks up memory by a constant stride is fetched ahead of by the IP
    prefetcher from its seventh access on; the context prefetcher does not use the
    successors it learns. *)

From S2P Require Import Prelude SatCounter Misc Memory.

(** Source: src/xiosim/zesto-prefetch.h:61-79 prefetch_t.
    The virtual interface: a lookup trains the tables, [latest_lookup] only reads. *)
Class Prefetcher (P : Type) : Type := {
  pf_lookup : P → Z → Z → result (P * Z);
  pf_latest_lookup : P → Z → Z → result Z
}.

Class PrefetcherLaws (P : Type) `{Prefetcher P} : Type := {
  pf_ok : P → Prop;
  pf_lookup_ok p PC paddr : pf_ok p → wp (pf_lookup p PC paddr) (λ '(p', _), pf_ok p');
  pf_latest_lookup_ok p PC paddr : pf_ok p → wp (pf_latest_lookup p PC paddr) (λ _, True)
}.

(** The default of the base class. *)
Definition no_latest {P} (_ : P) (_ _ : Z) : result Z := Ok 0.

(** ** Next line *)

Module prefetch_nextline.

(** Source: src/xiosim/ZCOMPS-prefetch/prefetch-nextline.cpp:15-29 prefetch_nextline_t. *)
Record t : Type := mk { lookups : Z; linesize : Z }.

(** Source: src/xiosim/ZCOMPS-prefetch/prefetch-nextline.cpp:32-38 lookup. *)
Definition lookup (p : t) (PC paddr : Z) : result (t * Z) :=
  Ok (mk (lookups p + 1) (linesize p), Z.land (u64 (paddr + linesize p)) (Z.lnot (linesize p - 1))).

#[global] Instance nextline_prefetcher : Prefetcher t := { pf_lookup := lookup; pf_latest_lookup := no_latest }.
#[global] Program Instance nextline_laws : PrefetcherLaws t := { pf_ok _ := True }.
Next Obligation. done. Qed.
Next Obligation. done. Qed.

(** The first byte of the line after the one of the address. *)
Lemma nextline_ok p PC paddr n : linesize p = 2 ^ n → 0 ≤ n → 0 ≤ paddr → paddr + 2 ^ n < 2 ^ 64 →
  wp (lookup p PC paddr) (λ '(_, r), r = (paddr / 2 ^ n + 1) * 2 ^ n).
Proof.
  intros Hl Hn Hp Hlt. unfold lookup. simpl. rewrite Hl, u64_small, land_lnot_mask by lia.
  assert (0 < 2 ^ n) by (apply Z.pow_pos_nonneg; lia).
  replace (paddr + 2 ^ n) with (paddr + 1 * 2 ^ n) by lia. rewrite Z.mod_add by lia.
  pose proof (Z.div_mod paddr (2 ^ n) ltac:(lia)). lia.
Qed.

End prefetch_nextline.

(** ** Stride tables *)

Module prefetch_IP.

(** Source: src/xiosim/ZCOMPS-prefetch/prefetch-IP.cpp:35-40 prefetch_IP_table_t. *)
Record entry : Type := mk_entry { last_paddr : Z; last_stride : Z; conf : my2bc_t; last_prefetch : Z }.

(** Source: src/xiosim/ZCOMPS-prefetch/prefetch-IP.cpp:24-40 prefetch_IP_t. *)
Record t : Type := mk {
  lookups : Z;
  num_entries : Z;
  mask : Z;
  last_addr_mask : Z;
  last_stride_mask : Z;
  last_prefetch_mask : Z;
  table : list entry
}.

(** Source: src/xiosim/ZCOMPS-prefetch/prefetch-IP.cpp:44-79 prefetch_IP_t. *)
Definition create (n addr_bits stride_bits prefetch_bits : Z) : result t :=
  let* _ := guard_or (check_ppow2 n) Fatal in
  Ok (mk 0 n (n - 1) (i32 (i32 (Z.shiftl 1 addr_bits) - 1)) (i32 (i32 (Z.shiftl 1 stride_bits) - 1))
        (i32 (i32 (Z.shiftl 1 prefetch_bits) - 1)) (replicate (Z.to_nat n) (mk_entry 0 0 0 0))).

(** The stride from the address an entry remembers to [paddr]. *)
Definition stride_of (p : t) (e : entry) (paddr : Z) : Z :=
  let last := Z.lor (Z.land paddr (Z.lnot (last_addr_mask p))) (last_paddr e) in
  i32 (Z.land (u64 (paddr - last)) (last_stride_mask p)).

(** The entry after an access, and the address to prefetch. *)
Definition train (p : t) (e : entry) (paddr : Z) : entry * Z :=
  let this_stride := stride_of p e paddr in
  let conf := if this_stride =? last_stride e then MY2BC_UPDATE (conf e) true else MY2BC_STRONG_NT in
  let last := Z.land paddr (last_addr_mask p) in
  if conf =? MY2BC_STRONG_TAKEN then
    let pf := u64 (paddr + this_stride) in
    let pf := if Z.land pf (last_prefetch_mask p) =? last_prefetch e then 0 else pf in
    (mk_entry last this_stride conf (Z.land pf (last_prefetch_mask p)), pf)
  else (mk_entry last this_stride conf (last_prefetch e), 0).

(** Source: src/xiosim/ZCOMPS-prefetch/prefetch-IP.cpp:89-118 lookup. *)
Definition lookup (p : t) (PC paddr : Z) : result (t * Z) :=
  let index := Z.land PC (mask p) in
  let* e := aget (table p) index in
  let '(e, pf) := train p e paddr in
  let* l := aset (table p) index e in
  Ok (mk (lookups p + 1) (num_entries p) (mask p) (last_addr_mask p) (last_stride_mask p) (last_prefetch_mask p) l, pf).

Definition ok (p : t) : Prop := 1 ≤ num_entries p ∧ mask p = num_entries p - 1 ∧
  Z.of_nat (length (table p)) = num_entries p.

Lemma IP_create_ok n a s f : wp (create n a s f) ok ∨ create n a s f = Fault Fatal.
Proof.
  unfold create. destruct (check_ppow2 n) eqn:E; [left|by right]. simpl.
  apply check_ppow2_pos in E. split; simpl; [done|]. split; [done|]. rewrite length_replicate. lia.
Qed.

#[global] Instance IP_prefetcher : Prefetcher t := { pf_lookup := lookup; pf_latest_lookup := no_latest }.
#[global] Program Instance IP_laws : PrefetcherLaws t := { pf_ok := ok }.
Next Obligation.
  intros p PC paddr (H1 & H2 & H3). simpl. unfold lookup. rewrite H2. pose proof (land_mask_range PC (num_entries p) H1).
  apply wp_bind, wp_aget; [lia|]. intros e _. destruct (train p e paddr) as [e' pf].
  apply wp_bind, wp_aset; [lia|]. split; simpl; [done|]. by rewrite length_insert.
Qed.
Next Obligation. done. Qed.

End prefetch_IP.

Module prefetch_2lev_IP.

(** Source: src/xiosim/ZCOMPS-prefetch/prefetch-2lev-IP.cpp:53-58 prefetch_IP_table_t. *)
Record entry : Type := mk_entry { last_paddr : Z; last_stride : Z; conf : my2bc_t }.

(** Source: src/xiosim/ZCOMPS-prefetch/prefetch-2lev-IP.cpp:44-58 prefetch_2lev_IP_t. *)
Record t : Type := mk {
  lookups : Z;
  num_entries : Z;
  mask : Z;
  last_addr_mask : Z;
  last_stride_mask : Z;
  table : list entry
}.

(** Source: src/xiosim/ZCOMPS-prefetch/prefetch-2lev-IP.cpp:62-94 prefetch_2lev_IP_t. *)
Definition create (n addr_bits stride_bits : Z) : result t :=
  let* _ := guard_or (check_ppow2 n) Fatal in
  Ok (mk 0 n (n - 1) (i32 (i32 (Z.shiftl 1 addr_bits) - 1)) (i32 (i32 (Z.shiftl 1 stride_bits) - 1))
        (replicate (Z.to_nat n) (mk_entry 0 0 0))).

Definition stride_of (p : t) (e : entry) (paddr : Z) : Z :=
  let last := Z.lor (Z.land paddr (Z.lnot (last_addr_mask p))) (last_paddr e) in
  i32 (Z.land (u64 (paddr - last)) (last_stride_mask p)).

(** The entry after an access with a stride that is not zero, and the address to
    prefetch. *)
Definition train (p : t) (e : entry) (paddr : Z) : entry * Z :=
  let this_stride := stride_of p e paddr in
  let last_stride := if conf e =? MY2BC_STRONG_TAKEN then last_stride e else this_stride in
  let is_correct := this_stride =? last_stride in
  let conf := if (conf e =? MY2BC_WEAKLY_NT) && is_correct then MY2BC_STRONG_TAKEN
              else MY2BC_UPDATE (conf e) is_correct in
  let e := mk_entry (Z.land paddr (last_addr_mask p)) last_stride conf in
  if conf =? MY2BC_STRONG_NT then (e, 0)
  else
    let pf := u64 (paddr + last_stride) in
    (e, if page_round_down pf =? page_round_down paddr then pf else 0).

(** Source: src/xiosim/ZCOMPS-prefetch/prefetch-2lev-IP.cpp:104-152 lookup. *)
Definition lookup (p : t) (PC paddr : Z) : result (t * Z) :=
  let index := Z.land PC (mask p) in
  let* e := aget (table p) index in
  if stride_of p e paddr =? 0 then
    Ok (mk (lookups p + 1) (num_entries p) (mask p) (last_addr_mask p) (last_stride_mask p) (table p), 0)
  else
    let '(e, pf) := train p e paddr in
    let* l := aset (table p) index e in
    Ok (mk (lookups p + 1) (num_entries p) (mask p) (last_addr_mask p) (last_stride_mask p) l, pf).

(** Source: src/xiosim/ZCOMPS-prefetch/prefetch-2lev-IP.cpp:154-160 latest_lookup. *)
Definition latest_lookup (p : t) (PC paddr : Z) : result Z :=
  let* e := aget (table p) (Z.land PC (mask p)) in Ok (u64 (last_stride e + paddr)).

Definition ok (p : t) : Prop := 1 ≤ num_entries p ∧ mask p = num_entries p - 1 ∧
  Z.of_nat (length (table p)) = num_entries p.

#[global] Instance twolev_IP_prefetcher : Prefetcher t := { pf_lookup := lookup; pf_latest_lookup := latest_lookup }.
#[global] Program Instance twolev_IP_laws : PrefetcherLaws t := { pf_ok := ok }.
Next Obligation.
  intros p PC paddr (H1 & H2 & H3). simpl. unfold lookup. rewrite H2. pose proof (land_mask_range PC (num_entries p) H1).
  apply wp_bind, wp_aget; [lia|]. intros e _. case_match; [done|]. destruct (train p e paddr) as [e' pf].
  apply wp_bind, wp_aset; [lia|]. split; simpl; [done|]. by rewrite length_insert.
Qed.
Next Obligation.
  intros p PC paddr (H1 & H2 & H3). simpl. unfold latest_lookup. rewrite H2. pose proof (land_mask_range PC (num_entries p) H1).
  apply wp_bind, wp_aget; [lia|]. done.
Qed.

(** A prefetch never leaves the page of the access. *)
Lemma lookup_same_page p PC paddr p' pf : lookup p PC paddr = Ok (p', pf) →
  pf = 0 ∨ page_round_down pf = page_round_down paddr.
Proof.
  unfold lookup. intros H. apply bind_Ok_inv in H as (e & _ & H).
  destruct (stride_of p e paddr =? 0); [injection H as _ <-; by left|].
  destruct (train p e paddr) as [e' pf0] eqn:Et. apply bind_Ok_inv in H as (l & _ & [= _ <-]).
  unfold train in Et. destruct (_ =? MY2BC_STRONG_NT) in Et; injection Et as _ <-; [by left|].
  case_match eqn:Ep; [right; by apply Z.eqb_eq|by left].
Qed.

End prefetch_2lev_IP.

(** ** Successor table *)

Module prefetch_context.

(** Source: src/xiosim/ZCOMPS-prefetch/prefetch-context.cpp:38-43 prefetch_context_table_t. *)
Record entry : Type := mk_entry { tag : Z; next_paddr : Z; conf : Z; u : Z }.

(** Source: src/xiosim/ZCOMPS-prefetch/prefetch-context.cpp:25-45 prefetch_context_t. *)
Record t : Type := mk {
  lookups : Z;
  num_entries : Z;
  mask : Z;
  tag_mask : Z;
  next_mask : Z;
  conf_max : Z;
  u_max : Z;
  table : list entry;
  last_paddr : Z
}.

(** Source: src/xiosim/ZCOMPS-prefetch/prefetch-context.cpp:50-88 prefetch_context_t. *)
Definition create (n tag_bits next_bits conf_bits u_bits : Z) : result t :=
  let* _ := guard_or (check_ppow2 n) Fatal in
  let ones b := i32 (i32 (Z.shiftl 1 b) - 1) in
  Ok (mk 0 n (n - 1) (u64 (i32 (Z.shiftl (ones tag_bits) (Z.log2 n)))) (u64 (ones next_bits)) (ones conf_bits)
        (ones u_bits) (replicate (Z.to_nat n) (mk_entry 0 0 0 0)) 0).

(** Source: src/xiosim/ZCOMPS-prefetch/prefetch-context.cpp:105-111 lookup.
    The address to prefetch, from the entry of the access. *)
Definition predict (p : t) (e : entry) (paddr : Z) : Z :=
  if (Z.land paddr (tag_mask p) =? tag e) && (conf_max p <=? conf e)
  then Z.lor (Z.land paddr (Z.lnot (next_mask p))) (Z.land (u64 (conf e)) (next_mask p)) else 0.

(** Source: src/xiosim/ZCOMPS-prefetch/prefetch-context.cpp:116-152 lookup.
    The entry of the previous access learns its successor. *)
Definition train (p : t) (e : entry) (paddr : Z) : entry :=
  if Z.land (last_paddr p) (tag_mask p) =? tag e then
    let u := if u e <? u_max p then u e + 1 else u e in
    if Z.land paddr (next_mask p) =? next_paddr e then
      mk_entry (tag e) (next_paddr e) (if conf e <? conf_max p then conf e + 1 else conf e) u
    else mk_entry (tag e) (Z.land paddr (next_mask p)) 0 (if 0 <? u then u - 1 else u)
  else if 0 <? u e then mk_entry (tag e) (next_paddr e) (conf e) (u e - 1)
  else mk_entry (Z.land (last_paddr p) (tag_mask p)) paddr 0 (u_max p).

(** Source: src/xiosim/ZCOMPS-prefetch/prefetch-context.cpp:98-157 lookup. *)
Definition lookup (p : t) (PC paddr : Z) : result (t * Z) :=
  let* e := aget (table p) (Z.land paddr (mask p)) in
  let pf := predict p e paddr in
  let index := Z.land (last_paddr p) (mask p) in
  let* e := aget (table p) index in
  let* l := aset (table p) index (train p e paddr) in
  Ok (mk (lookups p + 1) (num_entries p) (mask p) (tag_mask p) (next_mask p) (conf_max p) (u_max p) l paddr, pf).

Definition entry_ok (p : t) (e : entry) : Prop := 0 ≤ conf e ≤ conf_max p ∧ 0 ≤ u e ≤ u_max p.
Definition ok (p : t) : Prop := 1 ≤ num_entries p ∧ mask p = num_entries p - 1 ∧
  0 ≤ conf_max p < 2 ^ 31 ∧ 0 ≤ u_max p ∧ row_ok (num_entries p) (entry_ok p) (table p).

Lemma context_create_ok n tb nb cb ub : 0 ≤ cb ≤ 30 → 0 ≤ ub ≤ 30 →
  wp (create n tb nb cb ub) ok ∨ create n tb nb cb ub = Fault Fatal.
Proof.
  intros Hc Hu. unfold create. destruct (check_ppow2 n) eqn:E; [left|by right]. simpl.
  apply check_ppow2_pos in E.
  assert (∀ b, 0 ≤ b ≤ 30 → 0 ≤ i32 (i32 (Z.shiftl 1 b) - 1) < 2 ^ 31) as Hones.
  { intros b Hb. rewrite shiftl_1_l by lia. pose proof (Z.pow_pos_nonneg 2 b ltac:(lia) ltac:(lia)).
    pose proof (Z.pow_lt_mono_r 2 b 31 ltac:(lia) ltac:(lia) ltac:(lia)).
    rewrite (i32_small (2 ^ b)), i32_small by lia. lia. }
  pose proof (Hones cb Hc). pose proof (Hones ub Hu).
  split; simpl; [done|]. split; [done|]. split; [done|]. split; [lia|].
  apply row_ok_replicate; [lia|]. unfold entry_ok. simpl. lia.
Qed.

Lemma train_ok p e paddr : 0 ≤ conf_max p → 0 ≤ u_max p → entry_ok p e → entry_ok p (train p e paddr).
Proof.
  intros H0 H1 [Hc Hu]. unfold train, entry_ok.
  repeat (case_match; simpl); rewrite ?Z.ltb_lt, ?Z.ltb_ge in *; lia.
Qed.

#[global] Instance context_prefetcher : Prefetcher t := { pf_lookup := lookup; pf_latest_lookup := no_latest }.
#[global] Program Instance context_laws : PrefetcherLaws t := { pf_ok := ok }.
Next Obligation.
  intros p PC paddr (H1 & H2 & H3 & H4 & H5). simpl. unfold lookup. rewrite H2.
  pose proof (land_mask_range paddr (num_entries p) H1). pose proof (land_mask_range (last_paddr p) (num_entries p) H1).
  apply wp_bind, (wp_aget_row _ _ _ _ _ H5); [done|]. intros e _.
  apply wp_bind, (wp_aget_row _ _ _ _ _ H5); [done|]. intros e' He'.
  apply wp_bind, (wp_aset_row _ _ _ _ _ _ H5); [done|by apply train_ok; [lia|..]|]. intros l' Hl'.
  repeat (split; [done|]). exact Hl'.
Qed.
Next Obligation. done. Qed.

(** Whatever the table has learnt, a prefetch of [paddr] is always for the one address
    made of the upper bits of [paddr] and the largest confidence: the successor of an
    access, which is trained for, is never used. *)
Lemma lookup_ignores_successor p PC paddr p' pf : ok p → lookup p PC paddr = Ok (p', pf) →
  pf = 0 ∨ pf = Z.lor (Z.land paddr (Z.lnot (next_mask p))) (Z.land (conf_max p) (next_mask p)).
Proof.
  intros (H1 & H2 & H3 & H4 & [Hl Ht]) H. unfold lookup in H. apply bind_Ok_inv in H as (e & E & H).
  apply aget_inv in E as [_ E]. pose proof (Forall_lookup_1 _ _ _ _ Ht E) as [Hc _].
  apply bind_Ok_inv in H as (e' & _ & H). apply bind_Ok_inv in H as (l & _ & [= _ <-]).
  unfold predict. destruct (_ =? tag e); [|by left]. simpl. destruct (Z.leb_spec (conf_max p) (conf e)); [|by left].
  right. replace (conf e) with (conf_max p) by lia. by rewrite u64_small by lia.
Qed.

End prefetch_context.

(** ** Streams *)

Module prefetch_stream.

(** Source: src/xiosim/ZCOMPS-prefetch/prefetch-stream.cpp:22-34 prefetch_stream_t.
    The entries of a table are reached through its list alone: a table is the list
    of the last addresses, the most recent first. *)
Record t : Type := mk { lookups : Z; addr_shift : Z; upstream : list Z; downstream : list Z }.

(** Source: src/xiosim/ZCOMPS-prefetch/prefetch-stream.cpp:38-70 prefetch_stream_t. *)
Definition create (shift num_up num_down : Z) : t :=
  mk 0 shift (replicate (Z.to_nat num_up) 0) (replicate (Z.to_nat num_down) 0).

(** Source: src/xiosim/ZCOMPS-prefetch/prefetch-stream.cpp:95-104 lookup.
    The first entry of the page, and the others. *)
Fixpoint find_page (page : Z) (l : list Z) : option (Z * list Z) :=
  match l with
  | [] => None
  | x :: r => if page =? page_round_down x then Some (x, r)
              else match find_page page r with Some (y, r') => Some (y, x :: r') | None => None end
  end.

(** Source: src/xiosim/ZCOMPS-prefetch/prefetch-stream.cpp:164-182 lookup.
    The last entry is taken for a new page. *)
Definition replace_last (paddr : Z) (l : list Z) : list Z := paddr :: removelast l.

Definition up_of (p : t) (paddr x : Z) : bool := Z.shiftr paddr (addr_shift p) =? u64 (Z.shiftr x (addr_shift p) + 1).
Definition down_of (p : t) (paddr x : Z) : bool := Z.shiftr paddr (addr_shift p) =? u64 (Z.shiftr x (addr_shift p) - 1).

(** Source: src/xiosim/ZCOMPS-prefetch/prefetch-stream.cpp:80-204 lookup. *)
Definition lookup (p : t) (PC paddr : Z) : result (t * Z) :=
  let page_addr := page_round_down paddr in
  let line := i32 (Z.shiftl 1 (addr_shift p)) in
  let next l d := mk (lookups p + 1) (addr_shift p) l d in
  let* _ := guard_or (negb (bool_decide (upstream p = [])) && negb (bool_decide (downstream p = []))) OutOfBounds in
  let up := find_page page_addr (upstream p) in
  let down := find_page page_addr (downstream p) in
  let up_hit := bool_decide (up ≠ None) in
  let down_hit := bool_decide (down ≠ None) in
  let goes_up := match up with Some (x, _) => up_of p paddr x | None => false end in
  let possible_down := match up with Some (x, _) => down_of p paddr x | None => false end in
  let goes_down := match down with Some (x, _) => down_of p paddr x | None => false end in
  let possible_up := match down with Some (x, _) => up_of p paddr x | None => false end in
  match (if goes_up then up else None), (if goes_down then down else None) with
  | Some (_, r), _ => Ok (next (paddr :: r) (downstream p), u64 (paddr + line))
  | None, Some (_, r) => Ok (next (upstream p) (paddr :: r), u64 (paddr - line))
  | None, None =>
      if (negb up_hit && negb down_hit) || (negb up_hit && possible_up) then
        Ok (next (replace_last paddr (upstream p)) (downstream p), 0)
      else if negb down_hit && possible_down then
        Ok (next (upstream p) (replace_last paddr (downstream p)), 0)
      else Ok (next (upstream p) (downstream p), 0)
  end.

Lemma find_page_length page l x r : find_page page l = Some (x, r) → length l = S (length r).
Proof.
  revert x r. induction l as [|y l IH]; intros x r; simpl; [done|]. case_match; [by intros [= _ <-]|].
  destruct (find_page page l) as [[z r']|]; [|done]. intros [= _ <-]. simpl. by rewrite (IH _ _ eq_refl).
Qed.

Lemma removelast_length {A} (l : list A) : length (removelast l) = pred (length l).
Proof. induction l as [|x [|y l] IH]; [done|done|]. simpl in *. by rewrite IH. Qed.

(** The tables keep their sizes, and what is prefetched is a line next to the access. *)
Definition ok (n m : nat) (p : t) : Prop := length (upstream p) = S n ∧ length (downstream p) = S m.

Lemma lookup_ok n m p PC paddr : ok n m p →
  wp (lookup p PC paddr) (λ '(p', pf), ok n m p' ∧ addr_shift p' = addr_shift p ∧
    (pf = 0 ∨ pf = u64 (paddr + i32 (Z.shiftl 1 (addr_shift p))) ∨
     pf = u64 (paddr - i32 (Z.shiftl 1 (addr_shift p))))).
Proof.
  intros [Hu Hd]. unfold lookup.
  rewrite !bool_decide_false by (intros E; rewrite E in *; done). simpl.
  destruct (find_page (page_round_down paddr) (upstream p)) as [[x r]|] eqn:Eu,
    (find_page (page_round_down paddr) (downstream p)) as [[y r']|] eqn:Ed;
    try apply find_page_length in Eu; try apply find_page_length in Ed;
    repeat (case_match; simplify_eq); unfold ok, replace_last; simpl; rewrite ?removelast_length;
    (split; [split; lia|]); (split; [done|]); auto.
Qed.

#[global] Instance stream_prefetcher : Prefetcher t := { pf_lookup := lookup; pf_latest_lookup := no_latest }.
#[global] Program Instance stream_laws : PrefetcherLaws t := { pf_ok p := ∃ n m, ok n m p }.
Next Obligation.
  intros p PC paddr (n & m & Hok). eapply wp_mono; [by apply lookup_ok|]. intros [p' pf] (H & _). by exists n, m.
Qed.
Next Obligation. done. Qed.

(** The second line of a run of lines in a page that was not known fetches the third. *)
Lemma stream_follows n m p PC PC' paddr : ok n m p → 0 ≤ addr_shift p ≤ 30 → 0 ≤ paddr →
  paddr + 2 * 2 ^ addr_shift p < 2 ^ 64 →
  page_round_down (paddr + 2 ^ addr_shift p) = page_round_down paddr →
  find_page (page_round_down paddr) (upstream p) = None → find_page (page_round_down paddr) (downstream p) = None →
  wp (let* '(p1, _) := lookup p PC paddr in lookup p1 PC' (paddr + 2 ^ addr_shift p))
    (λ '(_, pf), pf = paddr + 2 * 2 ^ addr_shift p).
Proof.
  intros [Hu Hd] Hs H0 Hmax Hpage Eu Ed. pose proof (Z.pow_pos_nonneg 2 (addr_shift p) ltac:(lia) ltac:(lia)).
  pose proof (Z.pow_lt_mono_r 2 (addr_shift p) 31 ltac:(lia) ltac:(lia) ltac:(lia)).
  unfold lookup at 1. rewrite !bool_decide_false by (intros E; rewrite E in *; done).
  rewrite Eu, Ed. rewrite !bool_decide_false by (intros []; done). simpl. unfold lookup, replace_last. simpl.
  rewrite !bool_decide_false by (intros E; rewrite ?E in *; done). simpl.
  rewrite Hpage, Z.eqb_refl. unfold up_of. simpl.
  rewrite !Z.shiftr_div_pow2 by lia. replace (paddr + 2 ^ addr_shift p) with (paddr + 1 * 2 ^ addr_shift p) at 1 by lia.
  rewrite Z.div_add by lia. rewrite (u64_small (paddr / 2 ^ addr_shift p + 1)).
  2: { pose proof (Z.div_pos paddr (2 ^ addr_shift p) ltac:(lia) ltac:(lia)).
       pose proof (Z.div_le_upper_bound paddr (2 ^ addr_shift p) (2 ^ 64 - 2) ltac:(lia)) as Hle.
       split; [lia|]. assert (paddr / 2 ^ addr_shift p ≤ 2 ^ 64 - 2); [apply Hle; nia|lia]. }
  rewrite Z.eqb_refl. simpl. rewrite shiftl_1_l, i32_small, u64_small by lia. lia.
Qed.

End prefetch_stream.

(** ** Any prefetcher *)

(** Source: src/xiosim/zesto-prefetch.cpp:134-153 prefetch_create. *)
Inductive prefetcher : Type :=
  | PF_nextline (p : prefetch_nextline.t)
  | PF_IP (p : prefetch_IP.t)
  | PF_2lev_IP (p : prefetch_2lev_IP.t)
  | PF_context (p : prefetch_context.t)
  | PF_stream (p : prefetch_stream.t).

Definition lift {P} (C : P → prefetcher) (r : result (P * Z)) : result (prefetcher * Z) :=
  let* '(p, pf) := r in Ok (C p, pf).

#[export] Instance any_prefetcher : Prefetcher prefetcher := {
  pf_lookup q PC paddr :=
    match q with
    | PF_nextline p => lift PF_nextline (pf_lookup p PC paddr)
    | PF_IP p => lift PF_IP (pf_lookup p PC paddr)
    | PF_2lev_IP p => lift PF_2lev_IP (pf_lookup p PC paddr)
    | PF_context p => lift PF_context (pf_lookup p PC paddr)
    | PF_stream p => lift PF_stream (pf_lookup p PC paddr)
    end;
  pf_latest_lookup q PC paddr :=
    match q with
    | PF_nextline p => pf_latest_lookup p PC paddr
    | PF_IP p => pf_latest_lookup p PC paddr
    | PF_2lev_IP p => pf_latest_lookup p PC paddr
    | PF_context p => pf_latest_lookup p PC paddr
    | PF_stream p => pf_latest_lookup p PC paddr
    end
}.

Definition any_ok (q : prefetcher) : Prop :=
  match q with
  | PF_nextline p => pf_ok p
  | PF_IP p => pf_ok p
  | PF_2lev_IP p => pf_ok p
  | PF_context p => pf_ok p
  | PF_stream p => pf_ok p
  end.

Lemma lift_ok {P} `{PrefetcherLaws P} (C : P → prefetcher) p PC paddr :
  (∀ p, any_ok (C p) ↔ pf_ok p) → pf_ok p →
  wp (lift C (pf_lookup p PC paddr)) (λ '(q, _), any_ok q).
Proof.
  intros HC Hp. unfold lift. apply wp_bind. eapply wp_mono; [by apply pf_lookup_ok|].
  intros [p' pf] Hp'. by apply HC.
Qed.

#[export] Program Instance any_laws : PrefetcherLaws prefetcher := { pf_ok := any_ok }.
Next Obligation. intros [p|p|p|p|p] PC paddr Hp; by apply lift_ok. Qed.
Next Obligation.
  intros [p|p|p|p|p] PC paddr Hp.
  - exact (pf_latest_lookup_ok (P := prefetch_nextline.t) p PC paddr Hp).
  - exact (pf_latest_lookup_ok (P := prefetch_IP.t) p PC paddr Hp).
  - exact (pf_latest_lookup_ok (P := prefetch_2lev_IP.t) p PC paddr Hp).
  - exact (pf_latest_lookup_ok (P := prefetch_context.t) p PC paddr Hp).
  - exact (pf_latest_lookup_ok (P := prefetch_stream.t) p PC paddr Hp).
Qed.

Module prefetch_learn.
Import prefetch_IP.

(** The accesses of one load. *)
Fixpoint run (p : t) (PC : Z) (addrs : list Z) : result (t * list Z) :=
  match addrs with
  | [] => Ok (p, [])
  | a :: addrs =>
      let* '(p, pf) := lookup p PC a in
      let* '(p, pfs) := run p PC addrs in Ok (p, pf :: pfs)
  end.

(** The masks are those of the given numbers of bits. *)
Definition bits (p : t) (A S F : Z) : Prop :=
  last_addr_mask p = 2 ^ A - 1 ∧ last_stride_mask p = 2 ^ S - 1 ∧ last_prefetch_mask p = 2 ^ F - 1 ∧
  0 ≤ S ≤ A ∧ A ≤ 30 ∧ 0 ≤ F.

Lemma lor_low x y n : 0 ≤ n → 0 ≤ y < 2 ^ n → Z.lor (x - x mod 2 ^ n) y = x - x mod 2 ^ n + y.
Proof.
  intros Hn Hy. rewrite <- Z.lxor_lor, <- Z.add_nocarry_lxor; [done| |];
    apply Z.bits_inj'; intros i Hi; rewrite Z.land_spec, Z.bits_0;
    (destruct (Z.ltb_spec i n); [|by rewrite (testbit_above y n i), andb_false_r by lia]);
    rewrite <- land_lnot_mask, Z.land_spec, Z.lnot_spec by lia;
    rewrite Z.sub_1_r, <- Z.ones_equiv, Z.ones_spec_low by lia; by rewrite andb_false_r.
Qed.

Section stride.
Variables (p : t) (A S F a s : Z).
Hypothesis Hbits : bits p A S F.
Hypothesis Ha : 0 ≤ a.
Hypothesis Hs : 0 < s < 2 ^ S.
Hypothesis HF : s mod 2 ^ F ≠ 0.

(** The stride between two accesses, from the low bits that the table keeps. *)
Lemma stride_of_step e prev paddr : last_paddr e = prev mod 2 ^ A → 0 ≤ prev → paddr = prev + s → paddr < 2 ^ 64 →
  stride_of p e paddr = s.
Proof.
  destruct Hbits as (EA & ES & _ & HSA & HA & _). intros E Hp -> Hmax. unfold stride_of. rewrite EA, ES, E.
  assert (0 < 2 ^ A ∧ 0 < 2 ^ S) as [HpA HpS] by (split; apply Z.pow_pos_nonneg; lia).
  rewrite land_lnot_mask, lor_low by (try apply Z.mod_pos_bound; lia).
  rewrite land_pow2_mask by lia. unfold u64, wrap_u.
  assert (∀ x, (x mod 2 ^ 64) mod 2 ^ S = x mod 2 ^ S) as Hmm.
  { intros x. apply Z.mod_mod_divide. exists (2 ^ (64 - S)). rewrite <- Z.pow_add_r by lia. f_equal. lia. }
  rewrite Hmm.
  assert (∀ x, (x mod 2 ^ A) mod 2 ^ S = x mod 2 ^ S) as HmA.
  { intros x. apply Z.mod_mod_divide. exists (2 ^ (A - S)). rewrite <- Z.pow_add_r by lia. f_equal. lia. }
  replace (prev + s - (prev + s - (prev + s) mod 2 ^ A + prev mod 2 ^ A)) with
    ((prev + s) mod 2 ^ A - prev mod 2 ^ A) by lia.
  rewrite Zminus_mod, !HmA, <- Zminus_mod. replace (prev + s - prev) with s by lia.
  rewrite Z.mod_small by lia. apply i32_small.
  pose proof (Z.pow_le_mono_r 2 S 30 ltac:(lia) ltac:(lia)). lia.
Qed.

(** The entry after the accesses up to the [i]-th. *)
Record learnt (i : Z) (e : entry) : Prop := {
  l_addr : last_paddr e = (a + i * s) mod 2 ^ A;
  l_conf : ctr_ok (conf e);
  l_stride : 1 ≤ i → last_stride e = s;
  l_level : 1 ≤ i → Z.min 3 (i - 1) ≤ level (conf e);
  l_prefetch : 4 ≤ i → last_prefetch e = (a + (i + 1) * s) mod 2 ^ F ∨
    last_prefetch e = 0 ∧ (5 ≤ i → (a + (i + 1) * s) mod 2 ^ F = 0)
}.

(** Two prefetches in a row are not in the same place. *)
Lemma next_differs x : (x + s) mod 2 ^ F ≠ x mod 2 ^ F.
Proof.
  destruct Hbits as (_ & _ & _ & _ & _ & H0). assert (0 < 2 ^ F) by (apply Z.pow_pos_nonneg; lia).
  intros E. apply HF. replace s with (x + s - x) by lia. rewrite Zminus_mod, E, Z.sub_diag. apply Z.mod_0_l. lia.
Qed.

Lemma train_first e : ctr_ok (conf e) → a < 2 ^ 64 → learnt 0 (train p e a).1.
Proof.
  destruct Hbits as (EA & _ & _ & HSA & HA & _). intros Hc Hmax. unfold train. rewrite EA, land_pow2_mask by lia.
  set (c := if _ =? last_stride e then _ else _).
  assert (ctr_ok c) as Hc'.
  { unfold c. case_match; [apply MY2BC_UPDATE_ok|apply weak_states_ok]. }
  destruct (c =? MY2BC_STRONG_TAKEN); split; simpl; try lia; done || (f_equal; lia).
Qed.

Lemma train_next i e : 0 ≤ i → learnt i e → a + (i + 2) * s < 2 ^ 64 →
  learnt (i + 1) (train p e (a + (i + 1) * s)).1 ∧
  (5 ≤ i → (train p e (a + (i + 1) * s)).2 = a + (i + 2) * s).
Proof.
  intros Hi [Hla Hlc Hls Hll Hlp] Hmax. destruct Hbits as (EA & _ & EF & HSA & HA & H0).
  assert (stride_of p e (a + (i + 1) * s) = s) as Est.
  { apply (stride_of_step e (a + i * s)); [done|nia|lia|nia]. }
  assert (∀ c, (if s =? last_stride e then MY2BC_UPDATE (conf e) true else MY2BC_STRONG_NT) = c →
    ctr_ok c ∧ Z.min 3 i ≤ level c) as Hc.
  { intros c <-. destruct (Z.eqb_spec s (last_stride e)) as [|Hne].
    - split; [apply MY2BC_UPDATE_ok|]. rewrite level_update by done. unfold sat_inc.
      destruct (decide (i = 0)) as [->|]; [|specialize (Hll ltac:(lia)); lia].
      pose proof (Z.le_max_l 0 (level (conf e))). assert (0 ≤ level (conf e)); [|lia].
      unfold level. repeat case_match; lia.
    - split; [apply weak_states_ok|]. destruct (decide (i = 0)) as [->|]; [done|].
      by rewrite (Hls ltac:(lia)) in Hne. }
  unfold train. rewrite Est, EA, EF, !land_pow2_mask by lia.
  set (c := if s =? last_stride e then _ else _) in *. destruct (Hc c eq_refl) as [Hc1 Hc2].
  replace (a + (i + 1) * s + s) with (a + (i + 2) * s) by lia. rewrite u64_small by nia.
  assert (a + (i + 1 + 1) * s = a + (i + 2) * s) as E2 by lia.
  destruct (Z.eqb_spec c MY2BC_STRONG_TAKEN) as [Ec|Ec].
  - pose proof (next_differs (a + (i + 1) * s)) as Hd. replace (a + (i + 1) * s + s) with (a + (i + 2) * s) in Hd by lia.
    destruct (Z.eqb_spec ((a + (i + 2) * s) mod 2 ^ F) (last_prefetch e)) as [E|E].
    + assert (i ≤ 4) as Hi4.
      { destruct (decide (i ≤ 4)) as [|Hgt]; [done|exfalso]. destruct (Hlp ltac:(lia)) as [E'|[E' E'']]; [congruence|].
        apply Hd. rewrite E''; [congruence|lia]. }
      split; [|lia]. split; simpl; try done; [lia|]. intros _. right. rewrite Z.mod_0_l by lia. split; [done|].
      intros H5. assert (i = 4) as -> by lia. rewrite E2, E. destruct (Hlp ltac:(lia)) as [E'|[E' _]]; [|done].
      exfalso. apply Hd. rewrite E, E'. f_equal.
    + split; [|done]. split; simpl; try done; [lia|]. intros _. left. by rewrite E2.
  - assert (i < 3) as Hi3.
    { destruct (decide (i < 3)) as [|Hge]; [done|exfalso]. apply Ec. rewrite Z.min_l in Hc2 by lia.
      unfold ctr_ok in Hc1. revert Hc2. assert (c = 0 ∨ c = 1 ∨ c = 2 ∨ c = 3) as [-> | [-> | [-> | ->]]] by lia; vm_compute; done. }
    split; [|lia]. split; simpl; try done; lia.
Qed.

End stride.

(** A lookup touches the entry of its address only. *)
Lemma lookup_entry p PC paddr A S F : ok p → bits p A S F → ∀ e, table p !! Z.to_nat (Z.land PC (mask p)) = Some e →
  ∃ p', lookup p PC paddr = Ok (p', (train p e paddr).2) ∧ ok p' ∧ bits p' A S F ∧ mask p' = mask p ∧
    table p' !! Z.to_nat (Z.land PC (mask p)) = Some (train p e paddr).1.
Proof.
  intros (H1 & H2 & H3) Hb e He. pose proof (land_mask_range PC (num_entries p) H1) as Hr. rewrite <- H2 in Hr.
  unfold lookup. destruct (aget_ok (table p) (Z.land PC (mask p))) as (e0 & He0 & ->); [lia|]. simplify_eq. simpl.
  destruct (train p e paddr) as [e' pf] eqn:Et.
  rewrite aset_ok by lia. simpl. eexists. split; [reflexivity|].
  split; [split; [done|split; [done|]]; simpl; by rewrite length_insert|]. split; [exact Hb|]. split; [done|]. simpl.
  apply list_lookup_insert_eq. lia.
Qed.

(** The addresses from the [i]-th on. *)
Definition walk (a s i : Z) (n : nat) : list Z := (λ k, a + k * s) <$> seqZ i (Z.of_nat n).

Lemma walk_S a s i n : walk a s i (S n) = a + i * s :: walk a s (i + 1) n.
Proof.
  unfold walk. rewrite Nat2Z.inj_succ, seqZ_cons by lia. simpl.
  by replace (Z.pred (Z.succ (Z.of_nat n))) with (Z.of_nat n) by lia.
Qed.

Lemma run_learnt A S F a s PC n : 0 ≤ a → 0 < s < 2 ^ S → s mod 2 ^ F ≠ 0 → ∀ i p e, ok p → bits p A S F → 0 ≤ i →
  table p !! Z.to_nat (Z.land PC (mask p)) = Some e → learnt A F a s i e →
  a + (i + 1 + Z.of_nat n) * s < 2 ^ 64 →
  wp (run p PC (walk a s (i + 1) n)) (λ '(_, pfs), length pfs = n ∧
    ∀ k, (k < n)%nat → 5 ≤ i + Z.of_nat k → pfs !! k = Some (a + (i + 2 + Z.of_nat k) * s)).
Proof.
  intros Ha Hs HF. induction n as [|n IH]; intros i p e Hok Hb Hi He Hl Hmax; [split; [done|lia]|].
  rewrite walk_S. cbn [run]. destruct (train_next p A S F a s Hb Ha Hs HF i e Hi Hl ltac:(nia)) as [Hl' Hpf].
  destruct (lookup_entry p PC (a + (i + 1) * s) A S F Hok Hb e He) as (p' & -> & Hok' & Hb' & Hm & He'). simpl.
  rewrite <- Hm in He'. eapply wp_bind, wp_mono; [apply (IH (i + 1) p' _ Hok' Hb' ltac:(lia) He' Hl'); lia|].
  intros [p'' pfs] [Hlen IHk]. simpl. split; [lia|]. intros [|k] Hk H5; simpl.
  - rewrite Hpf by lia. f_equal. lia.
  - rewrite IHk by lia. f_equal. lia.
Qed.

(** A load that walks up memory by a constant stride, of fewer bits than the table
    keeps of strides, is fetched ahead of by exactly one stride from its seventh access
    on, whatever the table held before: the partial addresses and strides of the table
    lose nothing, and the filter of repeated prefetches never holds one back. *)
Theorem ip_learns_stride p A S F a s PC n : ok p → bits p A S F → Forall (λ e, ctr_ok (conf e)) (table p) →
  0 ≤ a → 0 < s < 2 ^ S → s mod 2 ^ F ≠ 0 → a + (Z.of_nat n + 1) * s < 2 ^ 64 →
  wp (run p PC (walk a s 0 n)) (λ '(_, pfs), length pfs = n ∧
    ∀ k, (6 ≤ k < n)%nat → pfs !! k = Some (a + (Z.of_nat k + 1) * s)).
Proof.
  intros Hok Hb Hc Ha Hs HF Hmax. destruct n as [|n]; [split; [done|lia]|].
  rewrite walk_S. cbn [run]. replace (a + 0 * s) with a by lia.
  destruct (lookup_lt_is_Some_2 (table p) (Z.to_nat (Z.land PC (mask p)))) as [e He].
  { destruct Hok as (H1 & H2 & H3). pose proof (land_mask_range PC _ H1). rewrite H2. lia. }
  destruct (lookup_entry p PC a A S F Hok Hb e He) as (p' & -> & Hok' & Hb' & Hm & He'). simpl.
  rewrite <- Hm in He'. eapply wp_bind, wp_mono.
  { apply (run_learnt A S F a s PC n Ha Hs HF 0 p' _ Hok' Hb' ltac:(lia) He'); [|lia].
    apply (train_first p A S F a s Hb); [|lia]. exact (Forall_lookup_1 _ _ _ _ Hc He). }
  intros [p'' pfs] [Hlen IHk]. simpl. split; [lia|]. intros [|k] Hk; simpl; [lia|].
  rewrite IHk by lia. f_equal. lia.
Qed.

(** A table of eight entries that holds something else at the place of the load. *)
Definition old_table : t :=
  mk 0 8 7 (2 ^ 20 - 1) (2 ^ 12 - 1) (2 ^ 8 - 1) (replicate 8 (mk_entry 77 3 2 5)).

Lemma ip_learns_stride_witness :
  wp (run old_table 1234 (walk 65536 136 0 20)) (λ '(_, pfs), length pfs = 20%nat ∧
    ∀ k, (6 ≤ k < 20)%nat → pfs !! k = Some (65536 + (Z.of_nat k + 1) * 136)).
Proof.
  apply (ip_learns_stride old_table 20 12 8); [split; [done|split; done]| | |..]; [|apply Forall_replicate; vm_compute; intuition congruence|..]; vm_compute; intuition congruence.
Defined.

(** A load that walks down is fetched ahead of upwards: a stride is kept as an unsigned
    number of its bits. *)
Example ip_descending_fetches_above : ∃ p' pfs, run old_table 1234 (walk 65536 (-64) 0 8) = Ok (p', pfs) ∧
  pfs !! 7%nat = Some (65536 - 7 * 64 + (4096 - 64)).
Proof. do 2 eexists. split; vm_compute; reflexivity. Qed.

(** The context prefetcher trains a successor for every address and never uses it:
    whatever its table has learnt, an access of [paddr] prefetches nothing or the address
    made of the upper bits of [paddr] and the largest confidence. *)
Theorem context_ignores_successor (p : prefetch_context.t) PC paddr : prefetch_context.ok p →
  wp (prefetch_context.lookup p PC paddr) (λ '(_, pf), pf = 0 ∨
    pf = Z.lor (Z.land paddr (Z.lnot (prefetch_context.next_mask p)))
               (Z.land (prefetch_context.conf_max p) (prefetch_context.next_mask p))).
Proof.
  intros Hok. pose proof (pf_lookup_ok p PC paddr Hok) as H. simpl in H.
  destruct (prefetch_context.lookup p PC paddr) as [[p' pf]|] eqn:E; [|done].
  by apply (prefetch_context.lookup_ignores_successor p PC paddr p').
Qed.

(** After 4096 has been followed by 8192 again and again, its access prefetches 4099. *)
Definition trained : prefetch_context.t :=
  prefetch_context.mk 0 4 3 60 4095 3 3 (replicate 4 (prefetch_context.mk_entry 0 0 0 0)) 0.

Lemma context_ignores_successor_witness :
  wp (prefetch_context.lookup trained 0 4096) (λ '(_, pf), pf = 0 ∨ pf = 4099).
Proof.
  apply (context_ignores_successor trained 0 4096).
  split; [done|]. split; [done|]. split; [done|]. split; [done|]. split; [done|].
  apply Forall_replicate. vm_compute. intuition congruence.
Defined.

End prefetch_learn.
