(* ===== verification/CacheProcess.v ===== *)
(** * CacheProcess: one cycle of a cache of src/xiosim/zesto-cache.cpp

    The whole cache ([cache_t]) and the five stages of [cache_process]: write-backs to
    the next level, fills from it, fills of the array, the access pipe, requests to the
    next level; and the prefetches that enter the pipe.

    What is around the cache is the interface [CacheEnv]: its controller
    (cache_controller_t of zesto-coherence.h) with the caches above and below it, the
    callbacks of the core, the clock of the uncore, and random().  Reads of it are
    pure, calls give a new environment. *)

From S2P Require Import Prelude Misc Memory CacheSet CacheHeap CacheState CacheMSHR CachePipes CachePrefetch Prefetch.

(** Source: src/xiosim/zesto-coherence.h:6-6 controller_response_t. *)
Inductive controller_response_t : Set := MSHR_CHECK_ARRAY | MSHR_STALL.
(** Source: src/xiosim/zesto-coherence.h:7-7 controller_array_response_t. *)
Inductive controller_array_response_t : Set := ARRAY_HIT | ARRAY_MISS.

#[export] Instance controller_response_eq_dec : EqDecision controller_response_t.
Proof. solve_decision. Defined.
#[export] Instance controller_array_response_eq_dec : EqDecision controller_array_response_t.
Proof. solve_decision. Defined.

(** Source: src/xiosim/zesto-coherence.h:9-29 cache_controller_t.
    The controller, the clients, the clock and random().  [send_request_upstream]
    gives back the entry it was handed, which it may change, and whether the request
    has gone; [draw_magic] is the outcome of the draw against the magic hit rate,
    [None] when none is configured. *)
Class CacheEnv (E : Type) : Type := {
  check_array : E → option cache_set.line → controller_array_response_t;
  check_MSHR : E → cache_state.action → controller_response_t;
  can_schedule_upstream : E → bool;
  can_schedule_downstream : E → option Z → bool;
  send_request_upstream : E → Z → Z → Z → cache_state.action → result (E * cache_state.action * bool);
  send_response_downstream : E → cache_state.action → result E;
  call_cb : E → Z → Z → result E;
  call_miss_cb : E → Z → Z → Z → result E;
  call_translated : E → Z → option Z → Z → bool;
  call_action_id : E → Z → Z → Z;
  uncore_cycle : E → Z;
  draw_magic : E → E * option bool;
  draw_random : E → E * Z
}.

Module cache_process.
Import cache_state cache_mshr cache_pipes cache_prefetch.

(** Source: src/xiosim/zesto-cache.h:71-71 BIG_LATENCY. *)
Definition BIG_LATENCY : Z := 99999.
(** Source: src/xiosim/zesto-cache.h:67-67 NO_MSHR. *)
Definition NO_MSHR : Z := -1.

(** The counters of one kind of request. *)
Record counts : Type := mk_counts { lookups : Z; misses : Z }.

(** Source: src/xiosim/zesto-cache.h:267-291 cache_t.
    The statistics that the operations update, as unbounded integers (the sampled histograms
    of PCs and the counters that nothing increments are left out). *)
Record stats : Type := mk_stats {
  loads : counts;
  stores : counts;
  writebacks : counts;
  prefetches : counts;
  prefetch_insertions : Z;
  prefetch_useful_insertions : Z;
  MSHR_occupancy : Z;
  MSHR_full_cycles : Z;
  core_lookups : list Z;
  core_misses : list Z
}.

(** Source: src/xiosim/zesto-cache.h:157-293 cache_t.
    The state; what never changes is in [params].  [PFQ] is [None] for a cache without
    prefetchers, [PF_buffer] empty for one without a prefetch buffer. *)
Record cache : Type := mk_cache {
  blocks : list cache_set.cset;
  pipe : pipes action;
  fills : pipes fill;
  regs : mshrs;
  flags : work_flags;
  start_point : Z;
  PFQ : option fifo;
  prefetchers : list prefetcher;
  PF_buffer : list Z;
  PF_filter : option filter_t;
  sim_cycle : Z;
  frozen : bool;
  stat : stats
}.

Definition with_blocks (v : list cache_set.cset) (c : cache) : cache :=
  mk_cache v (pipe c) (fills c) (regs c) (flags c) (start_point c) (PFQ c) (prefetchers c) (PF_buffer c)
    (PF_filter c) (sim_cycle c) (frozen c) (stat c).
Definition with_pipe (v : pipes action) (c : cache) : cache :=
  mk_cache (blocks c) v (fills c) (regs c) (flags c) (start_point c) (PFQ c) (prefetchers c) (PF_buffer c)
    (PF_filter c) (sim_cycle c) (frozen c) (stat c).
Definition with_fills (v : pipes fill) (c : cache) : cache :=
  mk_cache (blocks c) (pipe c) v (regs c) (flags c) (start_point c) (PFQ c) (prefetchers c) (PF_buffer c)
    (PF_filter c) (sim_cycle c) (frozen c) (stat c).
Definition with_regs (v : mshrs) (c : cache) : cache :=
  mk_cache (blocks c) (pipe c) (fills c) v (flags c) (start_point c) (PFQ c) (prefetchers c) (PF_buffer c)
    (PF_filter c) (sim_cycle c) (frozen c) (stat c).
Definition with_flags (f : work_flags → work_flags) (c : cache) : cache :=
  mk_cache (blocks c) (pipe c) (fills c) (regs c) (f (flags c)) (start_point c) (PFQ c) (prefetchers c)
    (PF_buffer c) (PF_filter c) (sim_cycle c) (frozen c) (stat c).
Definition with_PFQ (v : option fifo) (c : cache) : cache :=
  mk_cache (blocks c) (pipe c) (fills c) (regs c) (flags c) (start_point c) v (prefetchers c) (PF_buffer c)
    (PF_filter c) (sim_cycle c) (frozen c) (stat c).
Definition with_prefetchers (v : list prefetcher) (c : cache) : cache :=
  mk_cache (blocks c) (pipe c) (fills c) (regs c) (flags c) (start_point c) (PFQ c) v (PF_buffer c)
    (PF_filter c) (sim_cycle c) (frozen c) (stat c).
Definition with_buffer (v : list Z) (c : cache) : cache :=
  mk_cache (blocks c) (pipe c) (fills c) (regs c) (flags c) (start_point c) (PFQ c) (prefetchers c) v
    (PF_filter c) (sim_cycle c) (frozen c) (stat c).
Definition with_filter (v : option filter_t) (c : cache) : cache :=
  mk_cache (blocks c) (pipe c) (fills c) (regs c) (flags c) (start_point c) (PFQ c) (prefetchers c) (PF_buffer c)
    v (sim_cycle c) (frozen c) (stat c).
Definition with_stat (v : stats) (c : cache) : cache :=
  mk_cache (blocks c) (pipe c) (fills c) (regs c) (flags c) (start_point c) (PFQ c) (prefetchers c) (PF_buffer c)
    (PF_filter c) (sim_cycle c) (frozen c) v.
(** The clock and the round-robin pointer. *)
Definition with_time (cycle start : Z) (c : cache) : cache :=
  mk_cache (blocks c) (pipe c) (fills c) (regs c) (flags c) start (PFQ c) (prefetchers c) (PF_buffer c)
    (PF_filter c) cycle (frozen c) (stat c).

(** The flags of one kind of work. *)
Definition mark_pipe (f : work_flags) : work_flags :=
  mk_flags true (check_for_MSHR_fill_work f) (check_for_fill_work f) true (check_for_MSHR_work f) (check_for_MSHR_WB_work f).
Definition mark_fill (f : work_flags) : work_flags :=
  mk_flags true (check_for_MSHR_fill_work f) true (check_for_pipe_work f) (check_for_MSHR_work f) (check_for_MSHR_WB_work f).
Definition set_MSHR_WB_work (b : bool) (f : work_flags) : work_flags :=
  mk_flags (check_for_work f) (check_for_MSHR_fill_work f) (check_for_fill_work f) (check_for_pipe_work f) (check_for_MSHR_work f) b.
Definition set_MSHR_fill_work (b : bool) (f : work_flags) : work_flags :=
  mk_flags (check_for_work f) b (check_for_fill_work f) (check_for_pipe_work f) (check_for_MSHR_work f) (check_for_MSHR_WB_work f).
Definition set_fill_work (b : bool) (f : work_flags) : work_flags :=
  mk_flags (check_for_work f) (check_for_MSHR_fill_work f) b (check_for_pipe_work f) (check_for_MSHR_work f) (check_for_MSHR_WB_work f).
Definition set_pipe_work (b : bool) (f : work_flags) : work_flags :=
  mk_flags (check_for_work f) (check_for_MSHR_fill_work f) (check_for_fill_work f) b (check_for_MSHR_work f) (check_for_MSHR_WB_work f).
Definition set_MSHR_work (b : bool) (f : work_flags) : work_flags :=
  mk_flags (check_for_work f) (check_for_MSHR_fill_work f) (check_for_fill_work f) (check_for_pipe_work f) b (check_for_MSHR_WB_work f).


(** ** Statistics *)

Definition count_lookup (hit : bool) (n : counts) : counts :=
  mk_counts (lookups n + 1) (if hit then misses n else misses n + 1).

(** The counters of the request's kind. *)
Definition count_request (cmd : cache_command) (hit : bool) (s : stats) : stats :=
  let '(mk_stats ld st wb pf i u o f cl cm) := s in
  match cmd with
  | CACHE_READ => mk_stats (count_lookup hit ld) st wb pf i u o f cl cm
  | CACHE_PREFETCH => mk_stats ld st wb (count_lookup hit pf) i u o f cl cm
  | CACHE_WRITE => mk_stats ld (count_lookup hit st) wb pf i u o f cl cm
  | CACHE_WRITEBACK => mk_stats ld st (count_lookup hit wb) pf i u o f cl cm
  | _ => s
  end.

Definition count_useful (s : stats) : stats :=
  mk_stats (loads s) (stores s) (writebacks s) (prefetches s) (prefetch_insertions s)
    (prefetch_useful_insertions s + 1) (MSHR_occupancy s) (MSHR_full_cycles s) (core_lookups s) (core_misses s).

Definition count_insertion (s : stats) : stats :=
  mk_stats (loads s) (stores s) (writebacks s) (prefetches s) (prefetch_insertions s + 1)
    (prefetch_useful_insertions s) (MSHR_occupancy s) (MSHR_full_cycles s) (core_lookups s) (core_misses s).

Definition count_occupancy (occ : Z) (full : bool) (s : stats) : stats :=
  mk_stats (loads s) (stores s) (writebacks s) (prefetches s) (prefetch_insertions s)
    (prefetch_useful_insertions s) (MSHR_occupancy s + occ) (MSHR_full_cycles s + Z.b2z full)
    (core_lookups s) (core_misses s).

(** The counters of the shared cache, per core. *)
Definition count_core (core : Z) (hit : bool) (s : stats) : result stats :=
  let* cl := amodify (core_lookups s) core (Z.add 1) in
  let* cm := if hit then Ok (core_misses s) else amodify (core_misses s) core (Z.add 1) in
  Ok (mk_stats (loads s) (stores s) (writebacks s) (prefetches s) (prefetch_insertions s)
        (prefetch_useful_insertions s) (MSHR_occupancy s) (MSHR_full_cycles s) cl cm).

(** [CACHE_STAT(x)] *)
Definition cache_stat (f : stats → stats) (c : cache) : cache := if frozen c then c else with_stat (f (stat c)) c.

Section process.
Context {E : Type} `{CacheEnv E}.
Variable k : params.
Implicit Types (c : cache) (e : E) (a : action).

(** Source: src/xiosim/zesto-cache.cpp:2695-2700 cache_get_cycle. *)
Definition cache_get_cycle c e : Z := if is_LLC k then uncore_cycle e else sim_cycle c.

(** The set of a block, and the set written back. *)
Definition get_set c (block : Z) : result cache_set.cset := aget (blocks c) (cache_set.set_index (kcfg k) block).
Definition put_set c (block : Z) (s : cache_set.cset) : result cache :=
  let* l := aset (blocks c) (cache_set.set_index (kcfg k) block) s in Ok (with_blocks l c).

(** [addr >> cp->addr_shift] *)
Definition block_of (paddr : Z) : Z := Z.shiftr paddr (cache_set.addr_shift (kcfg k)).

(** Source: src/xiosim/zesto-cache.cpp:1794-1853 update_request_stats.
    [line] is the line of the block [paddr] that was hit. *)
Definition update_request_stats c a (line : option Z) (hit : bool) : result cache :=
  let* s := if is_LLC k && negb (acore a =? -1) && negb (frozen c) then count_core (acore a) hit (stat c) else Ok (stat c) in
  let c := cache_stat (count_request (cmd a) hit) (with_stat s c) in
  match line with
  | Some p =>
      if hit && bool_decide (cmd a ≠ CACHE_PREFETCH) then
        let block := block_of (paddr a) in
        let* s := get_set c block in
        let* l := aget (cache_set.lines s) p in
        if cache_set.prefetched l && negb (cache_set.prefetch_used l) then
          let* ls := amodify (cache_set.lines s) p cache_set.with_used in
          let* c := put_set c block (cache_set.mk_cset ls (cache_set.first s)) in
          Ok (cache_stat count_useful c)
        else Ok c
      else Ok c
  | None => Ok c
  end.

(** ** The pipes *)

(** Source: src/xiosim/zesto-cache.cpp:1344-1355 cache_enqueuable.
    The address has been translated (v2p_translate). *)
Definition cache_enqueuable c (paddr : Z) : result bool :=
  let* n := aget (nums (pipe c)) (GET_BANK k paddr) in Ok (n <? latency k).

(** Source: src/xiosim/zesto-cache.cpp:1359-1414 cache_enqueue.
    The fields of the slot that the code does not assign are those it had. *)
Definition cache_enqueue c e (core : Z) (prev : option Z) (cmd : cache_command) (PC paddr action_id bank index : Z)
    (op cb miss_cb translated_cb get_action_id : option Z) (hint : bool) : result cache :=
  let b := GET_BANK k paddr in
  let now := cache_get_cycle c e in
  let* l := aget (heaps (pipe c)) b in
  let* n := aget (nums (pipe c)) b in
  let* old := aget l (n + 1) in
  let* _ := guard_or (bool_decide (cb ≠ None)) AssertFail in
  let a := mk_action core op action_id PC paddr MSHR_MISS bank index false cmd prev cb miss_cb translated_cb
             get_action_id (when_enqueued old) now TICK_T_MAX (now + latency k) (MSHR_link old) (MSHR_linked old) hint in
  let* p := bank_insert (heap_size k) (pipe c) b a in
  Ok (with_flags mark_pipe (with_pipe p c)).

(** Source: src/xiosim/zesto-cache.cpp:1755-1764 cache_fillable. *)
Definition cache_fillable c (paddr : Z) : result bool :=
  let* n := aget (nums (fills c)) (GET_BANK k paddr) in Ok (n <? latency k).

(** Source: src/xiosim/zesto-cache.cpp:1767-1791 cache_fill. *)
Definition cache_fill c e (cmd : cache_command) (paddr core : Z) : result cache :=
  let b := GET_BANK k paddr in
  let* p := bank_insert (heap_size k) (fills c) b (mk_fill true paddr cmd (cache_get_cycle c e + latency k) core) in
  let* n := aget (nums p) b in
  let* _ := guard_or (n <=? latency k) AssertFail in
  Ok (with_flags mark_fill (with_fills p c)).

(** ** The callbacks *)

(** [ca->op && (ca->action_id == ca->get_action_id(ca->op))] *)
Definition still_valid e a : result bool :=
  match op a with
  | None => Ok false
  | Some o => let* f := deref (get_action_id a) in Ok (action_id a =? call_action_id e f o)
  end.

(** Source: src/xiosim/zesto-cache.cpp:2023-2024 cache_process_MSHR_fill.
    The callback of a request of the core that has not been squashed. *)
Definition invoke_cb e a : result E :=
  if bool_decide (prev_cp a = None) then
    let* valid := still_valid e a in
    match valid, cb a, op a with
    | true, Some f, Some o => call_cb e f o
    | _, _, _ => Ok e
    end
  else Ok e.

(** Source: src/xiosim/zesto-cache.cpp:2421-2435 cache_process_MSHR. *)
Definition invoke_miss_cb e a (lat : Z) : result E :=
  match miss_cb a with
  | None => Ok e
  | Some f =>
      let* valid := still_valid e a in
      match valid, op a with
      | true, Some o => call_miss_cb e f o lat
      | _, _ => Ok e
      end
  end.

(** [translated_cb && !translated_cb(op,action_id)], the TLB has not answered. *)
Definition untranslated e a : bool :=
  match translated_cb a with Some f => negb (call_translated e f (op a) (action_id a)) | None => false end.

(** ** Write-backs *)

(** [(start_point + b) & cp->MSHR_mask], with [n] banks. *)
Definition nth_bank (start b n : Z) : Z := Z.land (start + b) (n - 1).

(** The oldest entry of a bank that satisfies [ok]. *)
Definition find_oldest (m : mshrs) (bank : Z) (ok : action → result bool) : result (option Z) :=
  let* '(_, i) := for_range 0 (MSHR_size k) (λ j '(oldest, i),
      let* a := aget2 (MSHR m) bank j in
      let* b := ok a in
      Ok (if b && (when_enqueued a <? oldest) then (when_enqueued a, Some j) else (oldest, i)))
    (TICK_T_MAX, None) in
  Ok i.

Definition unsent_WB a : result bool :=
  Ok (alive a && bool_decide (type a = MSHR_WRITEBACK) && (when_started a =? TICK_T_MAX)).

(** Source: src/xiosim/zesto-cache.cpp:1870-1904 cache_process_MSHR_WB.
    The oldest write-back of a bank is offered to the next level. *)
Definition send_WB (now bank : Z) (m : mshrs) e (found : bool) : result (mshrs * E * bool) :=
  let* n := aget (MSHR_WB_num m) bank in
  if n =? 0 then Ok (m, e, found)
  else
    let* i := find_oldest m bank unsent_WB in
    match i with
    | None => Ok (m, e, found)
    | Some i =>
        let* a := aget2 (MSHR m) bank i in
        let* '(e, a, _) := send_request_upstream e now bank i a in
        let* m := set_entry m bank i a in
        Ok (m, e, true)
    end.

(** Source: src/xiosim/zesto-cache.cpp:1917-1927 cache_process_MSHR_WB.
    A write-back that the next level has answered is dropped. *)
Definition drop_WB (now bank j : Z) (m : mshrs) (found : bool) : result (mshrs * bool) :=
  let* a := aget2 (MSHR m) bank j in
  if alive a && bool_decide (type a = MSHR_WRITEBACK) && negb (when_started a =? TICK_T_MAX) then
    if when_returned a <=? now then
      let* m := MSHR_deallocate k m (paddr a) j in Ok (m, true)
    else Ok (m, true)
  else Ok (m, found).

(** Source: src/xiosim/zesto-cache.cpp:1856-1932 cache_process_MSHR_WB. *)
Definition cache_process_MSHR_WB (start : Z) c e : result (cache * E) :=
  let now := cache_get_cycle c e in
  if check_for_MSHR_WB_work (flags c) then
    let* '(m, e, found) :=
      if can_schedule_upstream e then
        for_range 0 (MSHR_banks k) (λ b '(m, e, found), send_WB now (nth_bank start b (MSHR_banks k)) m e found)
          (regs c, e, false)
      else Ok (regs c, e, check_for_MSHR_WB_work (flags c)) in
    let* '(m, found) :=
      for_range 0 (MSHR_banks k) (λ b '(m, found),
        for_range 0 (MSHR_size k) (λ j '(m, found), drop_WB now (nth_bank start b (MSHR_banks k)) j m found) (m, found))
        (m, found) in
    Ok (with_flags (set_MSHR_WB_work found) (with_regs m c), e)
  else Ok (with_flags (set_MSHR_WB_work false) c, e).

(** ** Fills from the next level *)

(** The request allocates a block when it is answered. *)
Definition allocates (cmd : cache_command) : bool :=
  match cmd with
  | CACHE_READ | CACHE_PREFETCH => true
  | CACHE_WRITE | CACHE_WRITEBACK => bool_decide (allocate_policy k = WRITE_ALLOC)
  | _ => false
  end.

(** Source: src/xiosim/zesto-cache.cpp:1977-2019 cache_process_MSHR_fill.
    The block of an answered request goes to the prefetch buffer or the fill pipe,
    unless the filter keeps it out. *)
Definition place_block c e a : result cache :=
  if MSHR_linked a then Ok c
  else
    let* '(c, insert) :=
      match PF_filter c with
      | Some f =>
          if decide (cmd a = CACHE_PREFETCH) then
            let* '(f, ok) := filter_lookup f (cache_get_cycle c e) (block_of (paddr a)) in
            Ok (with_filter (Some f) c, ok)
          else Ok (c, true)
      | None => Ok (c, true)
      end in
    if bool_decide (cmd a = CACHE_PREFETCH) && bool_decide (PF_buffer c ≠ []) && insert then
      Ok (with_buffer (buffer_insert (cache_set.addr_shift (kcfg k)) (paddr a) (PF_buffer c)) c)
    else if allocates (cmd a) && insert then cache_fill c e (cmd a) (paddr a) (acore a)
    else Ok c.

(** Source: src/xiosim/zesto-cache.cpp:1954-1958 cache_process_MSHR_fill.
    The request has been answered and its block can go into the fill pipe. *)
Definition answered c e a : result bool :=
  if bool_decide (type a = MSHR_WRITEBACK) then Ok false
  else if alive a && (when_returned a <=? cache_get_cycle c e) then cache_fillable c (paddr a) else Ok false.

(** Source: src/xiosim/zesto-cache.cpp:1944-2030 cache_process_MSHR_fill. *)
Definition fill_bank (bank : Z) c e (found : bool) : result (cache * E * bool) :=
  let* n := aget (MSHR_fill_num (regs c)) bank in
  if n =? 0 then Ok (c, e, found)
  else
    let* i := find_oldest (regs c) bank (answered c e) in
    match i with
    | None => Ok (c, e, true)
    | Some i =>
        let* a := aget2 (MSHR (regs c)) bank i in
        if alive a && (when_returned a <=? cache_get_cycle c e) && can_schedule_downstream e (prev_cp a) then
          let* c := place_block c e a in
          let* e := invoke_cb e a in
          let* e := send_response_downstream e a in
          let* m := MSHR_deallocate k (regs c) (paddr a) i in
          Ok (with_regs m c, e, true)
        else Ok (c, e, true)
    end.

(** Source: src/xiosim/zesto-cache.cpp:1935-2033 cache_process_MSHR_fill. *)
Definition cache_process_MSHR_fill (start : Z) c e : result (cache * E) :=
  let* '(c, e, found) :=
    if check_for_MSHR_fill_work (flags c) then
      for_range 0 (MSHR_banks k) (λ b '(c, e, found), fill_bank (nth_bank start b (MSHR_banks k)) c e found) (c, e, false)
    else Ok (c, e, false) in
  Ok (with_flags (set_MSHR_fill_work found) c, e).

(** ** Fills of the array *)

(** [MSHR_WB_available], whose reads of the counts cannot fail. *)
Definition wb_available c (addr : Z) : bool :=
  match MSHR_WB_available k (regs c) addr with Ok b => b | Fault _ => false end.

(** A write-back of the block [tag] of [core]. *)
Definition insert_WB c e (tag core : Z) : result cache :=
  let* m := MSHR_WB_insert k (self k) (cache_get_cycle c e) (regs c) tag core in
  Ok (with_flags mark_WB (with_regs m c)).

(** Source: src/xiosim/zesto-cache.cpp:2057-2079 cache_process_fills.
    What becomes of the line [l] that gave way to a block. *)
Definition retire_line c e (l : cache_set.line) : result cache :=
  let* c := if cache_set.valid l && cache_set.dirty l && bool_decide (cache_set.write_policy (kcfg k) = WRITE_BACK)
            then insert_WB c e (cache_set.tag l) (cache_set.core l) else Ok c in
  match PF_filter c with
  | Some f =>
      if cache_set.prefetched l then
        let* f := filter_update f (cache_get_cycle c e) (cache_set.tag l) (cache_set.prefetch_used l) in
        Ok (with_filter (Some f) c)
      else Ok c
  | None => Ok c
  end.

(** Source: src/xiosim/zesto-cache.cpp:2053-2082 cache_process_fills.
    A block comes in; the boolean says whether its fill leaves the pipe.  One value of
    random() is drawn for each, whether the policy needs it or not. *)
Definition fill_array c e (f : fill) : result (cache * E * bool) :=
  let block := block_of (f_paddr f) in
  let '(e, rnd) := draw_random e in
  let* s := get_set c block in
  let* '(s, out) := cache_set.fill_block (kcfg k) (wb_available c) rnd (f_cmd f) block (f_core f) s in
  let* c := put_set c block s in
  match out with
  | cache_set.NoMSHR => Ok (c, e, false)
  | cache_set.Present => Ok (c, e, true)
  | cache_set.Filled l =>
      let* c := retire_line c e l in
      Ok (if decide (f_cmd f = CACHE_PREFETCH) then cache_stat count_insertion c else c, e, true)
  end.

(** Source: src/xiosim/zesto-cache.cpp:2047-2089 cache_process_fills. *)
Definition fills_bank (bank : Z) c e (found : bool) : result (cache * E * bool) :=
  let* n := aget (nums (fills c)) bank in
  if n =? 0 then Ok (c, e, found)
  else
    let* f := bank_root (fills c) bank in
    if f_valid f && (f_exit f <=? cache_get_cycle c e) then
      let* '(c, e, leaves) := fill_array c e f in
      if leaves : bool then
        let* p := bank_remove (fills c) bank in Ok (with_fills p c, e, true)
      else Ok (c, e, true)
    else Ok (c, e, true).

(** Source: src/xiosim/zesto-cache.cpp:2036-2092 cache_process_fills. *)
Definition cache_process_fills (start : Z) c e : result (cache * E) :=
  let* '(c, e, found) :=
    if check_for_fill_work (flags c) then
      for_range 0 (banks k) (λ b '(c, e, found), fills_bank (nth_bank start b (banks k)) c e found) (c, e, false)
    else Ok (c, e, false) in
  Ok (with_flags (set_fill_work found) c, e).

(** ** The access pipe *)

(** Source: src/xiosim/zesto-cache.cpp:2289-2329 cache_process_pipe.
    The prefetchers of the list are asked, and what they ask for joins the FIFO. *)
Fixpoint ask_prefetchers a (ps : list prefetcher) (q : option fifo) : result (list prefetcher * option fifo) :=
  match ps with
  | [] => Ok ([], q)
  | p :: ps =>
      let* '(p, pf_addr) := if prefetcher_hint a then rmap (pair p) (pf_latest_lookup p (PC a) (paddr a))
                            else pf_lookup p (PC a) (paddr a) in
      let* q := if page_round_down pf_addr =? 0 then Ok q
                else let* f := of_option NullDeref q in
                     let* f := fifo_push f (mk_request (PC a) pf_addr (acore a)) in Ok (Some f) in
      let* '(ps, q) := ask_prefetchers a ps q in
      Ok (p :: ps, q)
  end.

(** Source: src/xiosim/zesto-cache.cpp:2287-2330 cache_process_pipe. *)
Definition prefetch_after c a (do_prefetch : bool) : result cache :=
  if do_prefetch && negb (PC a =? 0) && bool_decide (cmd a = CACHE_READ) then
    let* '(ps, q) := ask_prefetchers a (prefetchers c) (PFQ c) in
    Ok (with_PFQ q (with_prefetchers ps c))
  else Ok c.

(** Source: src/xiosim/zesto-cache.cpp:2120-2141 cache_process_pipe.
    The controller holds the request back behind the MSHR of its address. *)
Definition stalled c e a : result bool :=
  let bank := GET_MSHR_BANK k (paddr a) in
  let* j := find_range 0 (MSHR_size k) (λ j,
    let* b := aget2 (MSHR (regs c)) bank j in Ok (alive b && (paddr b =? paddr a))) in
  match j with
  | None => Ok false
  | Some j => let* b := aget2 (MSHR (regs c)) bank j in Ok (bool_decide (check_MSHR e b = MSHR_STALL))
  end.

(** Source: src/xiosim/zesto-cache.cpp:2143-2148 cache_process_pipe.
    The line of the block, if the controller lets it count as a hit. *)
Definition lookup_line c e a : result (cache * E * option Z) :=
  let block := block_of (paddr a) in
  let '(e, magic) := draw_magic e in
  let* s := get_set c block in
  let* '(s, p) := cache_set.is_hit (kcfg k) magic (cmd a) block s in
  let* c := put_set c block s in
  let* l := match p with Some p => rmap Some (aget (cache_set.lines s) p) | None => Ok None end in
  Ok (c, e, if decide (check_array e l = ARRAY_MISS) then None else p).

(** Source: src/xiosim/zesto-cache.cpp:2150-2187 cache_process_pipe.
    A hit.  The boolean says whether the request leaves the pipe. *)
Definition access_hit c e a (p : Z) : result (cache * E * bool) :=
  let needs_WB := cache_set.is_write (cmd a) && bool_decide (cache_set.write_policy (kcfg k) = WRITE_THROUGH) in
  let* room := if needs_WB then MSHR_WB_available k (regs c) (paddr a) else Ok true in
  if negb room then Ok (c, e, false)
  else if negb (can_schedule_downstream e (prev_cp a)) then Ok (c, e, false)
  else
    let* c := if needs_WB then insert_WB c e (block_of (paddr a)) (acore a) else Ok c in
    let* e := invoke_cb e a in
    let* c := update_request_stats c a (Some p) true in
    let* e := send_response_downstream e a in
    Ok (c, e, true).

(** The block [y] of the prefetch buffer gets a line of the array, when it can. *)
Definition insert_from_buffer c e a (y : Z) (rest : list Z) : result (cache * E) :=
  let block := block_of (paddr a) in
  let '(e, rnd) := draw_random e in
  let* s := get_set c block in
  let* '(s, p) := cache_set.get_evictee (kcfg k) rnd s in
  let* p := deref p in
  let* l := aget (cache_set.lines s) p in
  let* c := put_set c block s in
  let* '(c, ok) :=
    if bool_decide (cache_set.write_policy (kcfg k) = WRITE_BACK) && cache_set.valid l && cache_set.dirty l then
      let* room := MSHR_WB_available k (regs c) (paddr a) in
      if room : bool then let* c := insert_WB c e (cache_set.tag l) (cache_set.core l) in Ok (c, true) else Ok (c, false)
    else Ok (c, true) in
  let* room := if ok : bool then cache_fillable c (paddr a) else Ok false in
  if room : bool then
    let* ls := amodify (cache_set.lines s) p cache_set.invalidated in
    let* c := put_set c block (cache_set.mk_cset ls (cache_set.first s)) in
    let* c := cache_fill c e CACHE_PREFETCH y (acore a) in
    Ok (c, e)
  else Ok (with_buffer (y :: rest) c, e).

(** Source: src/xiosim/zesto-cache.cpp:2190-2252 cache_process_pipe.
    The last chance of a request that missed: the prefetch buffer. *)
Definition last_chance c e a : result (cache * E * bool) :=
  let looks := match cmd a with
               | CACHE_READ | CACHE_PREFETCH => true
               | CACHE_WRITE | CACHE_WRITEBACK => write_combining k
               | _ => false
               end in
  if looks then
    match buffer_find (cache_set.addr_shift (kcfg k)) (paddr a) (PF_buffer c) with
    | None => Ok (c, e, false)
    | Some (y, rest) => let* '(c, e) := insert_from_buffer c e a y rest in Ok (c, e, true)
    end
  else Ok (c, e, false).

(** Source: src/xiosim/zesto-cache.cpp:2188-2285 cache_process_pipe.
    A miss.  The booleans say whether the request leaves the pipe and whether it is
    in the MSHRs now. *)
Definition access_miss c e a : result (cache * E * bool * bool) :=
  let* '(c, e, hit) := last_chance c e a in
  if hit : bool then
    let* _ := guard_or (can_schedule_downstream e (prev_cp a)) AssertFail in
    let* e := invoke_cb e a in
    let* c := update_request_stats c a None true in
    let* e := send_response_downstream e a in
    Ok (c, e, true, false)
  else
    let* room := MSHR_available k (regs c) (paddr a) in
    if room : bool then
      let* m := MSHR_insert k (cache_get_cycle c e) (regs c) a in
      let* c := update_request_stats (with_flags mark_allocated (with_regs m c)) a None false in
      Ok (c, e, true, true)
    else Ok (c, e, false, false).

(** Source: src/xiosim/zesto-cache.cpp:2118-2330 cache_process_pipe.
    The request at the end of a pipe. *)
Definition access c e a : result (cache * E * bool) :=
  let* stall := stalled c e a in
  if stall : bool then Ok (c, e, false)
  else
    let* '(c, e, line) := lookup_line c e a in
    let* '(c, e, leaves, missed) :=
      match line with
      | Some p => let* '(c, e, leaves) := access_hit c e a p in Ok (c, e, leaves, false)
      | None => access_miss c e a
      end in
    if leaves : bool then
      let* c := prefetch_after c a (negb (prefetch_on_miss k) || missed) in Ok (c, e, true)
    else Ok (c, e, false).

(** Source: src/xiosim/zesto-cache.cpp:2104-2342 cache_process_pipe. *)
Definition pipe_bank (bank : Z) c e (found : bool) : result (cache * E * bool) :=
  let* n := aget (nums (pipe c)) bank in
  if n =? 0 then Ok (c, e, found)
  else
    let* a := bank_root (pipe c) bank in
    let* '(c, e, leaves) :=
      if alive a then
        if pipe_exit_time a <=? cache_get_cycle c e then access c e a else Ok (c, e, false)
      else Ok (c, e, true) in
    if leaves : bool then
      let* p := bank_remove (pipe c) bank in Ok (with_pipe p c, e, true)
    else Ok (c, e, true).

(** Source: src/xiosim/zesto-cache.cpp:2095-2345 cache_process_pipe. *)
Definition cache_process_pipe (start : Z) c e : result (cache * E) :=
  let* '(c, e, found) :=
    if check_for_pipe_work (flags c) then
      for_range 0 (banks k) (λ b '(c, e, found), pipe_bank (nth_bank start b (banks k)) c e found) (c, e, false)
    else Ok (c, e, false) in
  Ok (with_flags (set_pipe_work found) c, e).

(** ** Requests to the next level *)

(** [for (i = lo; i < lo + n; i++)] with a [break]: the boolean says whether it was
    taken. *)
Fixpoint until_loop {A} (n : nat) (lo : Z) (f : Z → A → result (A * bool)) (x : A) : result (A * bool) :=
  match n with
  | O => Ok (x, false)
  | S n => let* '(x, stop) := f lo x in if stop : bool then Ok (x, true) else until_loop n (lo + 1) f x
  end.

(** Source: src/xiosim/zesto-cache.cpp:2382-2394 cache_process_MSHR.
    A request that waits for the TLB tells the core so, once. *)
Definition notify_untranslated (bank i : Z) (m : mshrs) e a : result (mshrs * E) :=
  if negb (miss_cb_invoked a) && untranslated e a && bool_decide (miss_cb a ≠ None) then
    let* valid := still_valid e a in
    if valid : bool then
      let* m := set_entry m bank i (with_miss_cb_invoked a) in
      let* e := invoke_miss_cb e a BIG_LATENCY in
      Ok (m, e)
    else Ok (m, e)
  else Ok (m, e).

(** [!(translated_cb) || translated_cb(op,action_id)], and not sent yet *)
Definition can_go e a : bool := alive a && (when_started a =? TICK_T_MAX) && negb (untranslated e a).

(** Source: src/xiosim/zesto-cache.cpp:2369-2395 cache_process_MSHR.
    The oldest request of a bank that can go. *)
Definition oldest_request (bank : Z) (m : mshrs) e : result (mshrs * E * option Z) :=
  let* '(m, e, _, i) := for_range 0 (MSHR_size k) (λ j '(m, e, oldest, i),
      let* a := aget2 (MSHR m) bank j in
      if bool_decide (type a = MSHR_WRITEBACK) then Ok (m, e, oldest, i)
      else
        let '(oldest, i) := if can_go e a && (when_enqueued a <? oldest) then (when_enqueued a, Some j) else (oldest, i) in
        let* '(m, e) := notify_untranslated bank j m e a in
        Ok (m, e, oldest, i))
    (m, e, TICK_T_MAX, None) in
  Ok (m, e, i).

(** Source: src/xiosim/zesto-cache.cpp:2403-2438 cache_process_MSHR.
    The request is handed to the controller; the boolean says whether it has gone. *)
Definition issue (now bank i : Z) (m : mshrs) e a : result (mshrs * E * bool) :=
  if MSHR_linked a then
    let* m := set_entry m bank i (with_started now a) in
    let* m := bump_unprocessed (λ n, 0 <=? n) bank (-1) m in
    let* e := match miss_cb a with
              | None => Ok e
              | Some _ =>
                  let* valid := still_valid e a in
                  if valid : bool then let* lat := of_option NullDeref (next_latency k) in invoke_miss_cb e a lat else Ok e
              end in
    Ok (m, e, true)
  else
    let* '(e, a, sent) := send_request_upstream e now bank i a in
    let* m := set_entry m bank i a in
    if sent : bool then
      let* m := bump_unprocessed (λ n, 0 <=? n) bank (-1) m in
      let* e := invoke_miss_cb e a (default BIG_LATENCY (next_latency k)) in
      Ok (m, e, true)
    else Ok (m, e, false).

(** Source: src/xiosim/zesto-cache.cpp:2362-2441 cache_process_MSHR.
    One bank, first come first served. *)
Definition request_bank (now bank : Z) (st : mshrs * E * bool) : result (mshrs * E * bool * bool) :=
  let '(m, e, found) := st in
  let* n := aget (MSHR_num m) bank in
  if n =? 0 then Ok (m, e, found, false)
  else
    let* u := aget (MSHR_unprocessed_num m) bank in
    if u <=? 0 then Ok (m, e, true, false)
    else
      let* '(m, e, i) := oldest_request bank m e in
      match i with
      | None => Ok (m, e, true, false)
      | Some i =>
          let* a := aget2 (MSHR m) bank i in
          if alive a then
            let* '(m, e, sent) := issue now bank i m e a in Ok (m, e, true, sent)
          else Ok (m, e, true, false)
      end.

(** Source: src/xiosim/zesto-cache.cpp:2456-2543 cache_process_MSHR.
    One bank, for the requests of kind [c]. *)
Definition request_bank_of (cm : cache_command) (now bank : Z) (st : mshrs * E * bool) : result (mshrs * E * bool * bool) :=
  let '(m, e, found) := st in
  let* n := aget (MSHR_num m) bank in
  if n =? 0 then Ok (m, e, found, false)
  else
    let* u := aget (MSHR_unprocessed_num m) bank in
    if u <=? 0 then Ok (m, e, true, false)
    else
      let* i := find_oldest m bank (λ a, Ok (bool_decide (type a ≠ MSHR_WRITEBACK) && bool_decide (cmd a = cm) && can_go e a)) in
      match i with
      | None => Ok (m, e, true, false)
      | Some i =>
          let* a := aget2 (MSHR m) bank i in
          let* _ := guard_or (negb (negb (miss_cb_invoked a) && untranslated e a) || bool_decide (get_action_id a ≠ None)) AssertFail in
          let* '(m, e) := notify_untranslated bank i m e a in
          let* a := aget2 (MSHR m) bank i in
          let* _ := guard_or (bool_decide (cmd a = cm) && alive a) AssertFail in
          let* '(m, e, sent) := issue now bank i m e a in Ok (m, e, true, sent)
      end.

(** All banks, until a request has gone. *)
Definition request_banks (start : Z) (f : Z → mshrs * E * bool → result (mshrs * E * bool * bool)) (st : mshrs * E * bool)
    : result (mshrs * E * bool * bool) :=
  until_loop (Z.to_nat (MSHR_banks k)) 0 (λ b st, f (nth_bank start b (MSHR_banks k)) st) st.

(** Source: src/xiosim/zesto-cache.cpp:2447-2545 cache_process_MSHR.
    [for(c=0;c<4 && !sent_something;c++)] *)
Fixpoint request_by_kind (now start : Z) (cmds : list cache_command) (st : mshrs * E * bool) : result (mshrs * E * bool) :=
  match cmds with
  | [] => Ok st
  | cm :: cmds =>
      let* '(st, sent) := request_banks start (request_bank_of cm now) st in
      if sent : bool then Ok st else request_by_kind now start cmds st
  end.

(** Source: src/xiosim/zesto-cache.cpp:2565-2571 cache_process_MSHR.
    The occupancy of the MSHRs. *)
Definition occupancy c : result Z :=
  for_range 0 (MSHR_banks k) (λ b total,
    let* n := aget (MSHR_num (regs c)) b in let* w := aget (MSHR_WB_num (regs c)) b in Ok (total + (n + w))) 0.

(** Source: src/xiosim/zesto-cache.cpp:2348-2574 cache_process_MSHR. *)
Definition cache_process_MSHR (start : Z) c e : result (cache * E) :=
  let now := cache_get_cycle c e in
  let* '(m, e, found) :=
    if check_for_MSHR_work (flags c) then
      if can_schedule_upstream e then
        match MSHR_cmd_order k with
        | None => let* '(st, _) := request_banks start (request_bank now) (regs c, e, false) in Ok st
        | Some cmds => request_by_kind now start cmds (regs c, e, false)
        end
      else
        let* b := find_range 0 (MSHR_banks k) (λ b,
          let* n := aget (MSHR_num (regs c)) (nth_bank start b (MSHR_banks k)) in Ok (negb (n =? 0))) in
        Ok (regs c, e, bool_decide (b ≠ None))
    else Ok (regs c, e, false) in
  let c := with_flags (set_MSHR_work found) (with_regs m c) in
  let* total := occupancy c in
  Ok (cache_stat (count_occupancy total (total =? MSHR_banks k * MSHR_size k)) c, e).

(** ** The cycle *)

Definition summarize (f : work_flags) : work_flags :=
  mk_flags (check_for_MSHR_WB_work f || check_for_MSHR_fill_work f || check_for_fill_work f ||
            check_for_pipe_work f || check_for_MSHR_work f)
    (check_for_MSHR_fill_work f) (check_for_fill_work f) (check_for_pipe_work f) (check_for_MSHR_work f)
    (check_for_MSHR_WB_work f).

(** Source: src/xiosim/zesto-cache.cpp:2590-2594 cache_process. *)
Definition stages (start : Z) c e : result (cache * E) :=
  let* '(c, e) := cache_process_MSHR_WB start c e in
  let* '(c, e) := cache_process_MSHR_fill start c e in
  let* '(c, e) := cache_process_fills start c e in
  let* '(c, e) := cache_process_pipe start c e in
  cache_process_MSHR start c e.

(** Source: src/xiosim/zesto-cache.cpp:2577-2601 cache_process. *)
Definition cache_process c e : result (cache * E) :=
  let c := with_time (if is_LLC k then sim_cycle c else sim_cycle c + 1) (start_point c) c in
  if negb (check_for_work (flags c)) then Ok (c, e)
  else
    let start := start_point c in
    let c := with_time (sim_cycle c) (modinc start (banks k)) c in
    let* '(c, e) := stages start c e in
    Ok (with_flags summarize c, e).

(** Source: src/xiosim/zesto-cache.cpp:2605-2631 cache_prefetch.
    [allowed] is the state of the bus-utilisation controller, whose duty cycle is a
    floating-point number. *)
Definition cache_prefetch (allowed : bool) c e : result cache :=
  match PFQ c with
  | None => Ok c
  | Some q =>
      if allowed && negb (PFF_num q =? 0) then
        let* r := fifo_front q in
        let bank := GET_MSHR_BANK k (r_addr r) in
        let* n := aget (MSHR_num (regs c)) bank in
        let* pf := aget (MSHR_num_pf (regs c)) bank in
        if (n <? prefetch_threshold k) && (pf <? prefetch_max k) then
          let* room := cache_enqueuable c (r_addr r) in
          if room : bool then
            let* c := cache_enqueue c e (r_core r) None CACHE_PREFETCH (r_PC r) (r_addr r) (u64 (-1)) bank NO_MSHR
                        None (Some dummy_callback) None None None false in
            let* q := fifo_pop q in
            Ok (with_PFQ (Some q) c)
          else Ok c
        else Ok c
      else Ok c
  end.

End process.
End cache_process.
