(* ===== verification/CacheInv.v ===== *)
(** * CacheInv: the invariant of a cache and the contract with what is around it

    [CacheEnvLaws] is what the cache relies on: the environment takes requests and
    answers without failing, and keeps an invariant [env_ok T F] on the list [T] of the
    requests that the cache has accepted and not answered yet and the list [F] of those it
    has sent to the next level and has had no answer to.  An answer takes its request off
    the list: the same law that lets the environment own what it waits for makes losing or
    duplicating a request impossible to prove correct. *)

From S2P Require Import Prelude Misc CacheSet CacheRepl CachePolicy CacheSafety CacheHeap CacheState CacheMSHR CachePipes CachePrefetch Prefetch CacheProcess.

Module cache_inv.
Import cache_state cache_mshr cache_pipes cache_prefetch cache_process.

(** The identity of a request: what does not change from its arrival to its answer. *)
Definition body (a : action) : action :=
  mk_action (acore a) (op a) (action_id a) (PC a) (paddr a) MSHR_MISS (MSHR_bank a) (MSHR_index a) false (cmd a)
    (prev_cp a) (cb a) (miss_cb a) (translated_cb a) (get_action_id a) 0 0 0 0 None false (prefetcher_hint a).

Lemma body_with_started t a : body (with_started t a) = body a.
Proof. done. Qed.
Lemma body_with_miss_cb_invoked a : body (with_miss_cb_invoked a) = body a.
Proof. done. Qed.

(** ** The requests in the MSHRs *)

(** The entries of a kind, in all banks. *)
Definition pick (P : action → bool) (a : action) : list action := if P a then [body a] else [].
Definition picked (P : action → bool) (m : mshrs) : list action := MSHR m ≫= λ es, es ≫= pick P.

(** The misses, which are owed an answer, and the write-backs. *)
Abbreviation sel := (pick is_miss).
Abbreviation missing := (picked is_miss).
Abbreviation writing := (picked is_wb).

Lemma bind_insert {A B} (f : A → list B) (l : list A) i x y : l !! i = Some x →
  f y ++ (l ≫= f) ≡ₚ f x ++ (<[i := y]> l ≫= f).
Proof.
  revert i. induction l as [|z l IH]; intros [|i] E; simpl in *; try done.
  - injection E as ->. solve_Permutation.
  - specialize (IH i E). rewrite (app_assoc (f y)), (Permutation_app_comm (f y)), <- app_assoc, IH.
    solve_Permutation.
Qed.

Lemma bind_none {A B} (f : A → list B) (l : list A) : (∀ x, x ∈ l → f x = []) → l ≫= f = [].
Proof.
  induction l as [|x l IH]; intros Hf; [done|]. rewrite bind_cons, (Hf x) by apply list_elem_of_here.
  apply IH. intros y Hy. by apply Hf, list_elem_of_further.
Qed.

(** The entries that the next level has taken and not answered: where they are and what
    they ask for. *)
Definition flight : Type := Z * Z * Z * cache_command.
Definition in_flight (a : action) : bool :=
  alive a && negb (when_started a =? TICK_T_MAX) && (when_returned a =? TICK_T_MAX).
Definition fly (b i : Z) (a : action) : list flight := if in_flight a then [(b, i, paddr a, cmd a)] else [].
Definition flying_bank (b : nat) (es : list action) : list flight :=
  concat (imap (λ i a, fly (Z.of_nat b) (Z.of_nat i) a) es).
Definition flying (m : mshrs) : list flight := concat (imap flying_bank (MSHR m)).

Lemma imap_replace {A B} (f : nat → A → list B) (l : list A) i x y : l !! i = Some x →
  f i y ++ concat (imap f l) ≡ₚ f i x ++ concat (imap f (<[i := y]> l)).
Proof.
  revert f i. induction l as [|z l IH]; intros f [|i] E; simpl in *; try done.
  - injection E as ->. solve_Permutation.
  - specialize (IH (f ∘ S) i E). simpl in IH.
    rewrite (app_assoc (f _ y)), (Permutation_app_comm (f _ y)), <- app_assoc, IH. solve_Permutation.
Qed.

Lemma fly_out b i a : in_flight a = false → fly b i a = [].
Proof. unfold fly. by intros ->. Qed.

Lemma fly_same b i a a' : in_flight a' = in_flight a → body a' = body a → fly b i a' = fly b i a.
Proof. unfold fly, body. intros -> Hb. by injection Hb as _ _ _ _ -> _ _ ->. Qed.

Section regs.
Variable k : params.
Implicit Types m : mshrs.

(** The flights change with the entry. *)
Lemma flying_replaced m m' b i a a' : 0 ≤ b → replaced k m m' b i a a' → fly b i a' ++ flying m ≡ₚ fly b i a ++ flying m'.
Proof.
  intros Hb (x & Hx & Hi & Ea & ->). destruct Hx as (Hx & _). unfold flying, put. simpl.
  assert (∀ es, flying_bank (Z.to_nat b) es = concat (imap (λ i a, fly b (Z.of_nat i) a) es)) as Eb.
  { intros es. unfold flying_bank. by rewrite Z2Nat.id by lia. }
  pose proof (imap_replace (λ i a, fly b (Z.of_nat i) a) (b_es x) _ _ a' Ea) as E1.
  pose proof (imap_replace flying_bank (MSHR m) _ _ (<[Z.to_nat i := a']> (b_es x)) Hx) as E2.
  cbv beta in E1. rewrite Z2Nat.id in E1 by lia. rewrite !Eb in E2.
  apply (Permutation_app_inv_l (concat (imap (λ i a, fly b (Z.of_nat i) a) (b_es x)))).
  rewrite (app_assoc _ (fly b i a)), (Permutation_app_comm _ (fly b i a)), <- app_assoc, <- E2.
  rewrite (app_assoc (fly b i a)), <- E1. solve_Permutation.
Qed.

(** The other entries stay. *)
Lemma picked_replaced P m m' b i a a' : replaced k m m' b i a a' → pick P a' ++ picked P m ≡ₚ pick P a ++ picked P m'.
Proof.
  intros (x & Hx & Hi & Ea & ->). destruct Hx as (Hx & _). unfold picked, put. simpl.
  pose proof (bind_insert (pick P) (b_es x) _ _ a' Ea) as E1.
  pose proof (bind_insert (λ es, es ≫= pick P) (MSHR m) _ _ (<[Z.to_nat i := a']> (b_es x)) Hx) as E2.
  apply (Permutation_app_inv_l ((b_es x) ≫= pick P)).
  rewrite (app_assoc _ (pick P a)), (Permutation_app_comm _ (pick P a)), <- app_assoc, <- E2.
  rewrite (app_assoc (pick P a)), <- E1. solve_Permutation.
Qed.

Lemma pick_out P a : P a = false → pick P a = [].
Proof. unfold pick. by intros ->. Qed.

(** No entry of a kind. *)
Lemma picked_none P m : (∀ b i a, 0 ≤ b < MSHR_banks k → 0 ≤ i < MSHR_size k → aget2 (MSHR m) b i = Ok a → P a = false) →
  mshrs_ok k m → picked P m = [].
Proof.
  intros HP Hm. unfold picked. assert (∀ es, es ∈ MSHR m → es ≫= pick P = []) as Hes.
  { intros es [b Eb]%list_elem_of_lookup. pose proof (lookup_lt_Some _ _ _ Eb) as Hlt. pose proof Hm as [Hl _].
    assert (0 ≤ Z.of_nat b < MSHR_banks k) as Hb by (destruct Hl; lia).
    destruct (at_exists _ m (Z.of_nat b) Hl Hb) as (x & Hx). pose proof (bk_len _ _ _ (proj2 Hm _ x Hb Hx)) as Hlen.
    pose proof Hx as (Ex & _). rewrite Nat2Z.id, Eb in Ex. injection Ex as ->.
    apply bind_none. intros a [i Ei]%list_elem_of_lookup. apply pick_out.
    apply (HP (Z.of_nat b) (Z.of_nat i)); [done|apply lookup_lt_Some in Ei; lia|].
    eapply get_entry; [exact Hm|exact Hb|exact Hx|lia|by rewrite Nat2Z.id]. }
  by apply bind_none.
Qed.

(** Entry [i] of bank [b]. *)
Lemma entry_get m b i : params_ok k → mshrs_ok k m → 0 ≤ b < MSHR_banks k → 0 ≤ i < MSHR_size k →
  ∃ x a, at_bank m b x ∧ b_es x !! Z.to_nat i = Some a ∧ aget2 (MSHR m) b i = Ok a.
Proof.
  intros Hk Hm Hb Hi. destruct (at_exists _ m b (proj1 Hm) Hb) as (x & Hx).
  pose proof (bk_len _ _ _ (proj2 Hm b x Hb Hx)).
  destruct (lookup_lt_is_Some_2 (b_es x) (Z.to_nat i)) as [a Ea]; [lia|]. exists x, a.
  repeat (split; [done|]). eapply get_entry; [done|exact Hb|exact Hx|lia|done].
Qed.

Lemma entry_at m b i x a : mshrs_ok k m → 0 ≤ b < MSHR_banks k → 0 ≤ i → at_bank m b x →
  aget2 (MSHR m) b i = Ok a → b_es x !! Z.to_nat i = Some a.
Proof.
  intros Hm Hb Hi (Hx & _) E. unfold aget2 in E. rewrite (aget_lookup _ _ _ (proj1 Hb) Hx) in E. simpl in E.
  by apply aget_inv in E as [_ E].
Qed.

(** A property of all entries. *)
Definition entries_all (P : action → Prop) m : Prop := Forall (Forall P) (MSHR m).

Lemma entries_get P m b i a : entries_all P m → aget2 (MSHR m) b i = Ok a → P a.
Proof.
  intros HP E. unfold aget2 in E. apply bind_Ok_inv in E as (es & Ees & Ea).
  apply aget_inv in Ees as [_ Ees]. apply aget_inv in Ea as [_ Ea].
  exact (Forall_lookup_1 _ _ _ _ (Forall_lookup_1 _ _ _ _ HP Ees) Ea).
Qed.

Lemma entries_replaced P m m' b i a a' : entries_all P m → replaced k m m' b i a a' → P a' → entries_all P m'.
Proof.
  intros HP (x & (Hx & _) & Hi & Ea & ->) Ha'. unfold entries_all, put. simpl.
  apply Forall_insert; [done|]. apply Forall_insert; [|done]. exact (Forall_lookup_1 _ _ _ _ HP Hx).
Qed.

(** The oldest of the entries that satisfy [ok]. *)
Lemma find_oldest_ok m bank (ok : action → result bool) : params_ok k → mshrs_ok k m → 0 ≤ bank < MSHR_banks k →
  (∀ i a, 0 ≤ i < MSHR_size k → aget2 (MSHR m) bank i = Ok a → ∃ v, ok a = Ok v) →
  wp (find_oldest k m bank ok) (λ r,
    match r with
    | None => ∀ j b, 0 ≤ j < MSHR_size k → aget2 (MSHR m) bank j = Ok b → ok b = Ok true → TICK_T_MAX ≤ when_enqueued b
    | Some i => ∃ a, 0 ≤ i < MSHR_size k ∧ aget2 (MSHR m) bank i = Ok a ∧ ok a = Ok true ∧
        ∀ j b, 0 ≤ j < MSHR_size k → aget2 (MSHR m) bank j = Ok b → ok b = Ok true → when_enqueued a ≤ when_enqueued b
    end).
Proof.
  intros Hk Hm Hb Hok. unfold find_oldest. apply wp_bind.
  apply (wp_for_range (λ n '(oldest, r),
    (∀ j b, 0 ≤ j < n → aget2 (MSHR m) bank j = Ok b → ok b = Ok true → oldest ≤ when_enqueued b) ∧
    match r with
    | None => oldest = TICK_T_MAX
    | Some i => ∃ a, 0 ≤ i < n ∧ aget2 (MSHR m) bank i = Ok a ∧ ok a = Ok true ∧ when_enqueued a = oldest
    end)).
  - destruct Hk. lia.
  - split; [lia|done].
  - intros j [oldest r] Hj [Hmin Hr]. destruct (entry_get m bank j Hk Hm Hb Hj) as (x & a & _ & _ & Ea).
    rewrite Ea. simpl. destruct (Hok j a Hj Ea) as [v Ev]. rewrite Ev. simpl.
    destruct (v && (when_enqueued a <? oldest)) eqn:E.
    + apply andb_true_iff in E as [-> Hlt%Z.ltb_lt]. split; [|exists a; split; [lia|done]].
      intros j' b Hj' Eb Hb'. destruct (decide (j' = j)) as [->|]; [rewrite Ea in Eb; injection Eb as <-; lia|].
      specialize (Hmin j' b ltac:(lia) Eb Hb'). lia.
    + split; [|destruct r as [i|]; [|done]; destruct Hr as (a' & Hi & Hr); exists a'; split; [lia|done]].
      intros j' b Hj' Eb Hb'. destruct (decide (j' = j)) as [->|]; [|apply (Hmin j' b); [lia|done..]].
      rewrite Ea in Eb. injection Eb as <-. rewrite Ev in Hb'. injection Hb' as ->. by apply Z.ltb_ge in E.
  - intros [oldest r] [Hmin Hr]. simpl. destruct r as [i|]; [|by subst].
    destruct Hr as (a & Hi & Ea & Hoka & <-). by exists a.
Qed.

End regs.

(** ** The sets *)

Lemma is_hit_good kc magic cmd block s : cache_repl.cfg_ok kc → cache_set.is_write cmd && cache_set.read_only kc = false →
  cache_safety.good kc s →
  wp (cache_set.is_hit kc magic cmd block s) (λ '(s', p), cache_safety.good kc s' ∧
    match p with Some p => ∃ l, aget (cache_set.lines s') p = Ok l | None => True end).
Proof.
  intros Hk Hro Hg. destruct magic as [hit|].
  { simpl. split; [done|]. destruct hit; [|done]. destruct Hg as (xs & Hok & _).
    eapply cache_policy.set_ok_get_first; [done|]. intros ->. pose proof (cache_repl.ok_len _ _ _ Hok) as Hl.
    destruct (cache_repl.ok_rep _ _ _ Hok) as (_ & _ & Hx). destruct Hk as (Ha & _).
    by pose proof (proj2 (Hx 0) ltac:(lia)) as []%elem_of_nil. }
  pose proof (cache_safety.step_ok kc (cache_safety.Lookup cmd block) s Hk Hro Hg) as Hstep.
  destruct Hg as (xs & Hok & Hu). pose proof (cache_policy.is_hit_ok kc cmd block s xs Hok Hro) as H.
  unfold cache_safety.step in Hstep. destruct (cache_set.is_hit kc None cmd block s) as [[s' p]|]; [|done]. simpl in *.
  split; [done|]. destruct p as [p|]; [|done]. destruct H as [[[=] _]|(l & q & r & -> & [= ->] & _ & Hok' & _)].
  eapply cache_set.rep_get; [apply Hok'|]. rewrite cache_policy.used_order_perm. apply elem_of_app. right. apply list_elem_of_here.
Qed.

(** Marking a prefetched line as used. *)
Lemma with_used_good kc s p l : cache_safety.good kc s → aget (cache_set.lines s) p = Ok l →
  wp (amodify (cache_set.lines s) p cache_set.with_used)
    (λ ls, cache_safety.good kc (cache_set.mk_cset ls (cache_set.first s))).
Proof.
  intros (xs & Hok & Hu) El. rewrite (cache_set.amodify_lset _ _ _ _ El). simpl. exists xs.
  destruct (cache_policy.write_ok kc s xs p l (cache_set.with_used l) Hok El) as [Hok' Hupd]; [done..|].
  split; [done|]. unfold cache_policy.unique in *.
  assert (cache_policy.tags (cache_set.mk_cset (cache_set.lset (cache_set.lines s) p (cache_set.with_used l)) (cache_set.first s)) xs =
    cache_policy.tags s xs) as ->; [|done].
  unfold cache_policy.tags. clear Hok Hu Hok'. induction xs as [|x xs IH]; [done|].
  rewrite !cache_policy.contents_cons, !fmap_app, IH. f_equal. unfold cache_policy.held.
  destruct Hupd as [_ ->]. case_decide as E; [subst x|done]. rewrite (cache_repl.blk_at_ok _ _ _ El). simpl. by case_match.
Qed.


Lemma fill_good kc wb rnd cmd block c s : cache_repl.cfg_ok kc → cache_safety.good kc s →
  wp (cache_set.fill_block kc wb rnd cmd block c s) (λ '(s', o), cache_safety.good kc s' ∧
    match o with
    | cache_set.Filled l => cache_set.valid l = true → cache_set.dirty l = true → cache_set.write_policy kc = WRITE_BACK →
        wb (u64 (Z.shiftl (cache_set.tag l) (cache_set.addr_shift kc))) = true
    | _ => True
    end).
Proof.
  intros Hk (xs & Hok & Hu). eapply wp_mono; [by apply (cache_policy.fill_block_ok kc Hk wb rnd cmd block c s xs)|].
  intros [s' o] (xs' & Hok' & Hu' & Hspec). split; [by exists xs'|]. destruct o; [done| |done]. apply Hspec.
Qed.

(** ** The invariant *)

(** The cores of the machine, and whether a request may have none: the null pointer stands
    for the core in the last-level cache, which belongs to no core. *)
Record roster : Type := mk_roster { n_cores :> Z; nobody : bool }.
Definition anyone (n : Z) : roster := mk_roster n true.

Section inv.
Variables (k : params) (cores : roster).

(** The configurations: those of the set operations, banks, a heap with a slot for
    every stage (slot 0 is not used), one granularity for banks and blocks; a read-only
    cache writes nothing back. *)
Record config_ok : Prop := {
  c_regs : params_ok k;
  c_set : cache_repl.cfg_ok (kcfg k);
  c_sets : 1 ≤ cache_set.sets (kcfg k);
  c_banks : 1 ≤ banks k < 2 ^ 31;
  c_heap : latency k < heap_size k;
  c_latency : 0 ≤ latency k;
  c_shift : bank_shift k = cache_set.addr_shift (kcfg k);
  c_shift_pos : 0 ≤ bank_shift k;
  c_pow2 : (∃ j, 0 ≤ j ∧ banks k = 2 ^ j) ∧ ∃ j, 0 ≤ j ∧ MSHR_banks k = 2 ^ j;
  c_order : MSHR_cmd_order k ≠ Some [];
  c_read_only : cache_set.read_only (kcfg k) = true → cache_set.write_policy (kcfg k) = WRITE_THROUGH
}.

(** What the code takes for granted of a request: a read-only cache is asked for no
    write, the action id of a client's object can be read, a prefetch names its bank. *)
Definition has_id (a : action) : Prop := op a ≠ None → get_action_id a ≠ None.

(** The cores of the machine, or the null pointer where there may be none. *)
Definition core_ok (n : Z) : Prop := n = -1 ∧ nobody cores = true ∨ 0 ≤ n < cores.

(** What holds of an entry of the MSHRs. *)
Record act_ok (a : action) : Prop := {
  a_id : has_id a;
  a_time : alive a = true → when_enqueued a < TICK_T_MAX;
  a_core : alive a = true → core_ok (acore a);
  a_write : alive a = true → cache_set.is_write (cmd a) && cache_set.read_only (kcfg k) = false;
  a_addr : alive a = true → cache_set.is_write (cmd a) = true → 0 ≤ paddr a < 2 ^ 64;
  a_sent : alive a = true → when_returned a ≠ TICK_T_MAX → when_started a ≠ TICK_T_MAX
}.

Record req_ok (a : action) : Prop := {
  r_alive : alive a = true;
  r_link : MSHR_link a = None;
  r_pf : cmd a = CACHE_PREFETCH → MSHR_bank a = GET_MSHR_BANK k (paddr a);
  r_write : cache_set.is_write (cmd a) && cache_set.read_only (kcfg k) = false;
  r_id : has_id a;
  r_addr : cache_set.is_write (cmd a) = true → 0 ≤ paddr a < 2 ^ 64;
  r_core : core_ok (acore a)
}.

Definition unlinked (a : action) : Prop := MSHR_link a = None ∧ MSHR_linked a = false.

Definition prefetch_ok (ps : list prefetcher) (q : option fifo) : Prop :=
  Forall any_ok ps ∧ match q with
    | Some q => fifo_ok q ∧ Forall (λ r, core_ok (cache_prefetch.r_core r)) (cache_prefetch.queue q)
    | None => ps = []
    end.

Record cache_ok (c : cache) : Prop := {
  ok_sets : Z.of_nat (length (blocks c)) = cache_set.sets (kcfg k);
  ok_good : Forall (cache_safety.good (kcfg k)) (blocks c);
  ok_lines : Forall (cache_cores.all_from core_ok) (blocks c);
  ok_pipe : pipes_ok (banks k) (heap_size k) (latency k) (pipe c);
  ok_slots : slots_all unlinked (pipe c);
  ok_reqs : Forall req_ok (queued (pipe c));
  ok_fills : pipes_ok (banks k) (heap_size k) (latency k) (fills c);
  ok_fill_cores : Forall (λ f, core_ok (f_core f)) (queued (fills c));
  ok_regs : mshrs_ok k (regs c);
  ok_ids : entries_all act_ok (regs c);
  ok_prefetch : prefetch_ok (prefetchers c) (PFQ c);
  ok_buffer : PF_buffer c = [];
  ok_filter : match PF_filter c with Some f => filter_ok f | None => True end;
  ok_cores : is_LLC k = true →
    Z.of_nat (length (core_lookups (stat c))) = cores ∧ Z.of_nat (length (core_misses (stat c))) = cores;
  ok_start : 0 ≤ start_point c < banks k
}.

(** The requests the cache owes an answer. *)
Definition outstanding (c : cache) : list action := (body <$> queued (pipe c)) ++ missing (regs c).

(** Where there is work its flag is up: a flag that is down says that there are no
    requests in the pipe, no fills, no misses, no write-backs. *)
Record sound (c : cache) : Prop := {
  s_pipe : check_for_pipe_work (flags c) = true ∨ queued (pipe c) = [];
  s_fill : check_for_fill_work (flags c) = true ∨ queued (fills c) = [];
  s_miss : check_for_MSHR_work (flags c) = true ∨ missing (regs c) = [];
  s_WB : check_for_MSHR_WB_work (flags c) = true ∨ writing (regs c) = []
}.

End inv.

(** ** The contract *)

Class CacheEnvLaws (E : Type) `{CacheEnv E} (k : params) (cores : roster) : Type := {
  env_ok : list action → list flight → E → Prop;
  env_ok_perm T T' F F' e : T ≡ₚ T' → F ≡ₚ F' → env_ok T F e → env_ok T' F' e;
  (** a prefetch of the cache itself *)
  env_ok_prefetch T F e r : cmd r = CACHE_PREFETCH → prev_cp r = None → op r = None → env_ok T F e → env_ok (r :: T) F e;
  env_send_request T F e now b i a : env_ok T F e → alive a = true → when_started a = TICK_T_MAX → act_ok k cores a →
    GET_MSHR_BANK k (paddr a) = b → 0 ≤ i < MSHR_size k →
    wp (send_request_upstream e now b i a) (λ '(e', a', sent), env_ok T (if sent then (b, i, paddr a, cmd a) :: F else F) e' ∧
      uncore_cycle e' = uncore_cycle e ∧ a' = if sent then with_started now a else a);
  env_send_response T F e a : env_ok (body a :: T) F e → alive a = true →
    wp (send_response_downstream e a) (λ e', env_ok T F e' ∧ uncore_cycle e' = uncore_cycle e);
  env_cb T F e f o : env_ok T F e → wp (call_cb e f o) (λ e', env_ok T F e' ∧ uncore_cycle e' = uncore_cycle e);
  env_miss_cb T F e f o lat : env_ok T F e →
    wp (call_miss_cb e f o lat) (λ e', env_ok T F e' ∧ uncore_cycle e' = uncore_cycle e);
  env_magic T F e : env_ok T F e → env_ok T F (draw_magic e).1 ∧ uncore_cycle (draw_magic e).1 = uncore_cycle e;
  env_random T F e : env_ok T F e → env_ok T F (draw_random e).1 ∧ uncore_cycle (draw_random e).1 = uncore_cycle e
}.

(** What a step may do to the MSHRs without a flag. *)
Definition shrinks (m m' : mshrs) : Prop :=
  (missing m = [] → missing m' = []) ∧ (writing m = [] → writing m' = []).

#[export] Instance shrinks_preorder : PreOrder shrinks.
Proof. split; [done|]. intros m1 m2 m3 [H1 H2] [H3 H4]. split; auto. Qed.

Lemma shrinks_perm m m' : missing m ≡ₚ missing m' → writing m ≡ₚ writing m' → shrinks m m'.
Proof.
  intros H1 H2. split; intros E; rewrite E in *; by apply Permutation_nil.
Qed.

End cache_inv.
