(* ===== verification/CacheStages.v ===== *)
(** * CacheStages: every stage of a cache cycle is safe and keeps the invariant

    The stages of CacheProcess, against the contract of CacheInv: none of them fails,
    each keeps the invariant of the cache, and the requests owed an answer are the same
    before and after, but for those whose answer has gone. *)

From S2P Require Import Prelude Misc CacheSet CacheRepl CachePolicy CacheSafety CacheHeap CacheState CacheMSHR CachePipes CachePrefetch Prefetch CacheProcess CacheInv.

Module cache_stages.
Import cache_state cache_mshr cache_pipes cache_prefetch cache_process cache_inv.

Section stages.
Context {E : Type} `{CacheEnv E}.
Variables (k : params) (cores : roster).
Context {Hlaws : CacheEnvLaws E k cores}.
Hypothesis Hk : config_ok k.
Variable now : Z.
Hypothesis Hnow : 0 ≤ now ∧ now + latency k < TICK_T_MAX.
Implicit Types (c : cache) (e : E) (a : action) (m : mshrs) (T : list action).

#[local] Instance env_ok_proper : Proper ((≡ₚ) ==> (≡ₚ) ==> (=) ==> iff) (env_ok (E := E) (k := k) (cores := cores)).
Proof.
  intros T T' HT F F' HF e e' <-. split; apply env_ok_perm; done || by symmetry.
Qed.

Lemma now_max : now ≠ TICK_T_MAX.
Proof. destruct Hk. unfold TICK_T_MAX in *. lia. Qed.

Lemma now_room : now < TICK_T_MAX.
Proof. destruct Hk. lia. Qed.

Lemma nth_bank_range start b n : 1 ≤ n → 0 ≤ nth_bank start b n < n.
Proof. intros. by apply land_mask_range. Qed.

(** The banks are visited from any starting point. *)
Lemma nth_bank_cover start n bank : (∃ j, 0 ≤ j ∧ n = 2 ^ j) → 0 ≤ bank < n → ∃ b, 0 ≤ b < n ∧ nth_bank start b n = bank.
Proof.
  intros (j & Hj & ->) Hb. exists ((bank - start) mod 2 ^ j). split; [apply Z.mod_pos_bound; lia|].
  unfold nth_bank. rewrite land_pow2_mask, Z.add_mod_idemp_r by lia.
  replace (start + (bank - start)) with bank by lia. by apply Z.mod_small.
Qed.

(** ** The MSHRs *)

(** The MSHRs, on the way from [m0], in an environment that waits for [T] besides. *)
Record regs_st (T : list action) (cyc : Z) (m0 m : mshrs) (e : E) : Prop := {
  rs_ok : mshrs_ok k m;
  rs_from : shrinks m0 m;
  rs_ids : entries_all (act_ok k cores) m;
  rs_env : env_ok (T ++ missing m) (flying m) e;
  rs_cycle : uncore_cycle e = cyc
}.

Lemma entry_facts m b i a : mshrs_ok k m → 0 ≤ b < MSHR_banks k → 0 ≤ i < MSHR_size k → aget2 (MSHR m) b i = Ok a →
  ∃ x, at_bank m b x ∧ b_es x !! Z.to_nat i = Some a ∧ entry_ok k b a.
Proof.
  intros Hm Hb Hi Ea. destruct (entry_get k m b i (c_regs _ Hk) Hm Hb Hi) as (x & a' & Hx & Ea' & E').
  rewrite Ea in E'. injection E' as <-. exists x. split; [done|]. split; [done|].
  eapply at_entry; [exact Hm|exact Hb|exact Hx|exact Ea'].
Qed.

(** An entry of the same kind with the same body. *)
Lemma same_picked m m' b i a a' : replaced k m m' b i a a' → body a' = body a → is_miss a' = is_miss a → is_wb a' = is_wb a →
  missing m ≡ₚ missing m' ∧ writing m ≡ₚ writing m'.
Proof.
  intros Hrep Hbody E1 E2. pose proof (picked_replaced k is_miss _ _ _ _ _ _ Hrep) as H1.
  pose proof (picked_replaced k is_wb _ _ _ _ _ _ Hrep) as H2. unfold pick in H1, H2. rewrite E1, Hbody in H1. rewrite E2, Hbody in H2.
  apply Permutation_app_inv_l in H1, H2. done.
Qed.

(** The requests of the MSHRs, and those that are in flight. *)
Definition same_requests m m' : Prop := missing m' ≡ₚ missing m ∧ flying m' ≡ₚ flying m.

(** An entry changes and stays what it is; the environment knows already whether it has
    been sent. *)
Lemma set_sent_ok T cyc m0 m e F b i a a' : mshrs_ok k m → shrinks m0 m → entries_all (act_ok k cores) m →
  env_ok (T ++ missing m) F e → uncore_cycle e = cyc →
  0 ≤ b < MSHR_banks k → 0 ≤ i < MSHR_size k →
  aget2 (MSHR m) b i = Ok a → is_miss a' = is_miss a → is_pf a' = is_pf a → is_wb a' = is_wb a →
  is_waiting a' = is_waiting a → entry_ok k b a' → body a' = body a → act_ok k cores a' →
  (∀ F', fly b i a' ++ flying m ≡ₚ fly b i a ++ F' → F ≡ₚ F') →
  wp (set_entry m b i a') (λ m', regs_st T cyc m0 m' e ∧ aget2 (MSHR m') b i = Ok a').
Proof.
  intros Hm Hfrom Hids He Hc Hb Hi Ea E1 E2 E3 E4 Hok Hbody Hid HF.
  destruct (entry_facts m b i a Hm Hb Hi Ea) as (x & Hx & Ex & _).
  destruct (set_entry_ok k m b x i a a' Hm Hb Hx Hi Ex E1 E2 E3 E4) as [-> Hrep]. cbn [wp]. split.
  - destruct (same_picked m _ b i a a' Hrep Hbody E1 E3) as [Hmiss Hwr]. split; [| |by eapply entries_replaced| |done].
    + eapply replaced_ok; [exact Hm|exact Hb|exact Hrep|done|by rewrite E1|by rewrite E3].
    + etransitivity; [exact Hfrom|by apply shrinks_perm].
    + pose proof (HF _ (flying_replaced k _ _ _ _ _ _ (proj1 Hb) Hrep)) as HF'. by rewrite <- Hmiss, <- HF'.
  - eapply get_entry_put; [apply Hm|exact Hb|lia|]. simpl. apply list_lookup_insert_eq. by eapply lookup_lt_Some.
Qed.

Lemma set_same_ok T cyc m0 m e b i a a' : regs_st T cyc m0 m e → 0 ≤ b < MSHR_banks k → 0 ≤ i < MSHR_size k →
  aget2 (MSHR m) b i = Ok a → is_miss a' = is_miss a → is_pf a' = is_pf a → is_wb a' = is_wb a →
  is_waiting a' = is_waiting a → entry_ok k b a' → body a' = body a → in_flight a' = in_flight a → act_ok k cores a' →
  wp (set_entry m b i a') (λ m', regs_st T cyc m0 m' e ∧ aget2 (MSHR m') b i = Ok a').
Proof.
  intros [Hm Hfrom Hids He Hc] Hb Hi Ea E1 E2 E3 E4 Hok Hbody Hfl Hid.
  eapply (set_sent_ok T cyc m0 m e (flying m) b i a a'); try done.
  intros F'. rewrite (fly_same b i a a') by done. by intros ?%Permutation_app_inv_l.
Qed.

(** A request that is being sent takes off. *)
Lemma take_off b i a m F' : alive a = true → when_started a = TICK_T_MAX → act_ok k cores a →
  fly b i (with_started now a) ++ flying m ≡ₚ fly b i a ++ F' → (b, i, paddr a, cmd a) :: flying m ≡ₚ F'.
Proof.
  intros Ha Hs Hact. unfold fly, in_flight. cbn [when_started when_returned with_started]. pose proof now_max.
  change (alive (with_started now a)) with (alive a). rewrite Ha, Hs, Z.eqb_refl. cbn [andb negb].
  rewrite (proj2 (Z.eqb_neq now TICK_T_MAX)) by done.
  destruct (Z.eqb_spec (when_returned a) TICK_T_MAX) as [|Hr]; [done|]. by pose proof (a_sent _ _ _ Hact Ha Hr).
Qed.

Lemma wb_not_miss a : is_wb a = true → is_miss a = false ∧ is_waiting a = false.
Proof.
  unfold is_waiting, is_wb, is_miss. intros [Ha Ht%bool_decide_eq_true]%andb_true_iff.
  rewrite Ht, bool_decide_false by done. by rewrite andb_false_r.
Qed.

Lemma deallocate_ok m b i a : mshrs_ok k m → entries_all (act_ok k cores) m → 0 ≤ b < MSHR_banks k → 0 ≤ i < MSHR_size k →
  aget2 (MSHR m) b i = Ok a → alive a = true → is_waiting a = false → when_returned a ≠ TICK_T_MAX →
  wp (MSHR_deallocate k m (paddr a) i) (λ m', mshrs_ok k m' ∧ entries_all (act_ok k cores) m' ∧ missing m ≡ₚ sel a ++ missing m' ∧
    flying m' ≡ₚ flying m ∧ shrinks m m').
Proof.
  intros Hm Hids Hb Hi Ea Ha Hw Hret. destruct (entry_facts m b i a Hm Hb Hi Ea) as (x & Hx & Ex & _ & _ & Hbank & _).
  specialize (Hbank Ha). rewrite <- Hbank in Hx.
  eapply wp_mono; [eapply (MSHR_deallocate_ok k m (paddr a) i x a); [apply Hk|done|done|done|done|done|done]|].
  intros m' [Hm' Hrep]. split; [done|]. split.
  - eapply entries_replaced; [done|exact Hrep|]. split; try done. exact (a_id _ _ _ (entries_get _ _ _ _ _ Hids Ea)).
  - pose proof (picked_replaced k is_miss _ _ _ _ _ _ Hrep) as H1. pose proof (picked_replaced k is_wb _ _ _ _ _ _ Hrep) as H2.
    rewrite (pick_out is_miss (with_cb None a)) in H1 by done. rewrite (pick_out is_wb (with_cb None a)) in H2 by done.
    simpl in H1, H2. split; [done|]. split.
    { assert (0 ≤ GET_MSHR_BANK k (paddr a)) as Hb0 by (rewrite Hbank; lia).
      pose proof (flying_replaced k m m' _ i a (with_cb None a) Hb0 Hrep) as H3.
      rewrite !fly_out in H3; [by symmetry| |done]. unfold in_flight. by rewrite (proj2 (Z.eqb_neq _ _) Hret), andb_false_r. }
    split; intros Ee; rewrite Ee in *; [apply Permutation_nil, app_eq_nil in H1|apply Permutation_nil, app_eq_nil in H2]; intuition.
Qed.

(** The entry of a request that the next level has been offered. *)
Lemma sent_entry_ok b a : entry_ok k b a → entry_ok k b (with_started now a).
Proof. intros (H1 & H2 & H3 & H4). split; [done|]. split; [done|]. split; [done|]. intros _ _. apply now_max. Qed.

Lemma sent_act_ok a : act_ok k cores a → act_ok k cores (with_started now a).
Proof. intros []. split; try done. intros _ _. apply now_max. Qed.

(** ** Write-backs *)

(** No entry of a kind in a bank. *)
Definition none_at (P : action → bool) m (bank : Z) : Prop :=
  ∀ i a, 0 ≤ i < MSHR_size k → aget2 (MSHR m) bank i = Ok a → P a = false.

Definition unsent a : bool := alive a && bool_decide (type a = MSHR_WRITEBACK) && (when_started a =? TICK_T_MAX).
Definition started a : bool := alive a && bool_decide (type a = MSHR_WRITEBACK) && negb (when_started a =? TICK_T_MAX).

Lemma wb_split a : is_wb a = unsent a || started a.
Proof. unfold is_wb, unsent, started. by destruct (alive a), (bool_decide _), (_ =? _). Qed.

(** A bank that counts none of a kind has none. *)
Lemma count_none_at P m bank x : mshrs_ok k m → 0 ≤ bank < MSHR_banks k → at_bank m bank x → count P (b_es x) = 0 → none_at P m bank.
Proof.
  intros Hm Hb Hx H0 i a Hi Ea. pose proof (entry_at k m bank i x a Hm Hb (proj1 Hi) Hx Ea) as Ex.
  destruct (P a) eqn:EP; [|done]. pose proof (count_pos P _ _ _ Ex EP). lia.
Qed.

Lemma send_WB_ok T cyc m0 bank m e found : 0 ≤ bank < MSHR_banks k → regs_st T cyc m0 m e →
  wp (send_WB k now bank m e found) (λ '(m', e', found'), regs_st T cyc m0 m' e' ∧
    (found' = true ∨ found' = found ∧ m' = m ∧ none_at unsent m bank)).
Proof.
  intros Hb Hst. pose proof Hst as [Hm Hfrom Hids He Hc]. unfold send_WB.
  destruct (at_exists _ m bank (proj1 Hm) Hb) as (x & Hx). pose proof Hx as (_ & _ & _ & _ & Hwb & _).
  rewrite (aget_lookup _ _ _ (proj1 Hb) Hwb). simpl. destruct (Z.eqb_spec (b_wb x) 0) as [E0|].
  { split; [done|]. right. split; [done|]. split; [done|]. rewrite (bk_wb _ _ _ (proj2 Hm bank x Hb Hx)) in E0.
    intros i a Hi Ea. pose proof (count_none_at is_wb m bank x Hm Hb Hx E0 i a Hi Ea) as Hw.
    rewrite wb_split in Hw. by apply orb_false_iff in Hw as [? _]. }
  eapply wp_bind, wp_mono; [apply find_oldest_ok; [apply Hk|done|done|by eexists]|].
  intros [i|].
  2: { intros Hnone. split; [done|]. right. split; [done|]. split; [done|]. intros i a Hi Ea. destruct (unsent a) eqn:Eu; [|done].
       specialize (Hnone i a Hi Ea (f_equal Ok Eu)). pose proof (a_time _ _ _ (entries_get _ _ _ _ _ Hids Ea)) as Hen.
       apply andb_true_iff in Eu as [[Ha _]%andb_true_iff _]. specialize (Hen Ha). lia. }
  intros (a & Hi & Ea & [= Hu] & _). rewrite Ea. simpl.
  apply andb_true_iff in Hu as [Hu Hs%Z.eqb_eq]. apply andb_true_iff in Hu as [Ha Ht].
  assert (is_wb a = true) as Hw by (unfold is_wb; by rewrite Ha, Ht).
  destruct (entry_facts m bank i a Hm Hb Hi Ea) as (y & _ & _ & Hok). pose proof Hok as (_ & _ & Hbank & _).
  pose proof (entries_get _ _ _ _ _ Hids Ea) as Hact.
  eapply wp_bind, wp_mono; [by apply (env_send_request (T ++ missing m) (flying m)); try done; apply Hbank|].
  intros [[e' a'] sent] (He' & Hc' & ->). destruct (wb_not_miss a Hw) as [Nm Nw].
  eapply wp_bind, wp_mono; [eapply (set_sent_ok T cyc m0 m e' _ bank i a); try done; try congruence|].
  - by destruct sent.
  - by destruct sent.
  - by destruct sent.
  - destruct sent; [|done]. unfold is_waiting in *. change (is_miss (with_started now a)) with (is_miss a). by rewrite Nm.
  - destruct sent; [by apply sent_entry_ok|done].
  - by destruct sent.
  - destruct sent; [by apply sent_act_ok|done].
  - intros F'. destruct sent; [by apply take_off|]. by intros ?%Permutation_app_inv_l.
  - intros m' [Hst' _]. simpl. by auto.
Qed.

Lemma drop_WB_ok T cyc m0 bank j m e found : 0 ≤ bank < MSHR_banks k → 0 ≤ j < MSHR_size k → regs_st T cyc m0 m e →
  wp (drop_WB k now bank j m found) (λ '(m', found'), regs_st T cyc m0 m' e ∧
    (found' = true ∨ found' = found ∧ m' = m ∧ ∀ a, aget2 (MSHR m) bank j = Ok a → started a = false)).
Proof.
  intros Hb Hj Hst. pose proof Hst as [Hm Hfrom Hids He Hc]. unfold drop_WB.
  destruct (entry_get k m bank j (c_regs _ Hk) Hm Hb Hj) as (x & a & Hx & Ea' & Ea). rewrite Ea. simpl.
  destruct (alive a && bool_decide (type a = MSHR_WRITEBACK) && negb (when_started a =? TICK_T_MAX)) eqn:Hs.
  2: { split; [done|]. right. split; [done|]. split; [done|]. intros b [= <-]. exact Hs. }
  destruct (Z.leb_spec (when_returned a) now) as [Hret|]; [|by split; [|left]]. apply andb_true_iff in Hs as [Hw _].
  apply andb_true_iff in Hw as [Ha Ht]. assert (is_wb a = true) as Hw by (unfold is_wb; by rewrite Ha, Ht).
  destruct (wb_not_miss a Hw) as [Nm Nw].
  pose proof now_room. eapply wp_bind, wp_mono; [eapply (deallocate_ok m bank j a); done || lia|].
  intros m' (Hm' & Hids' & Hmiss & Hfly & Hshr). simpl.
  rewrite (pick_out is_miss a Nm) in Hmiss. split; [|by left].
  split; [done|by etransitivity|done|by rewrite <- Hmiss, Hfly|done].
Qed.

(** ** The state *)

(** [R] are the requests owed an answer that are not in the MSHRs: those in the pipe,
    or those in the pipe but the one that is being processed. *)
Section frame.
Variable R : list action.

Record st c e : Prop := {
  st_ok : cache_ok k cores c;
  st_env : env_ok (R ++ missing (regs c)) (flying (regs c)) e;
  st_now : cache_get_cycle k c e = now;
  st_sound : sound c
}.

Lemma st_regs c e : st c e → regs_st R (uncore_cycle e) (regs c) (regs c) e.
Proof. intros [[] He _ _]. by split. Qed.

Lemma cycle_env c e e' : uncore_cycle e' = uncore_cycle e → cache_get_cycle k c e' = cache_get_cycle k c e.
Proof. unfold cache_get_cycle. by intros ->. Qed.

Lemma sound_shrinks c m : shrinks (regs c) m → sound c → sound (with_regs m c).
Proof. intros [F1 F2] [S1 S2 S3 S4]. split; try done; simpl; [destruct S3|destruct S4]; auto. Qed.

Lemma st_with_regs c e m e' : st c e → regs_st R (uncore_cycle e) (regs c) m e' → st (with_regs m c) e'.
Proof.
  intros [[] He Hn Hs] [Hm Hf Hids He' Hc].
  split; [by split|done|by rewrite (cycle_env (with_regs m c) e)|by apply sound_shrinks].
Qed.

Lemma st_with_flags f c e : st c e → (sound c → sound (with_flags f c)) → st (with_flags f c) e.
Proof. intros [[] He Hn Hs] Hf. split; [by split|done|done|by apply Hf]. Qed.

(** Another environment that is owed the same. *)
Lemma st_new_env c e e' : st c e → env_ok (R ++ missing (regs c)) (flying (regs c)) e' → uncore_cycle e' = uncore_cycle e → st c e'.
Proof. intros [Hok He Hn Hs] He' Hc. split; [done|done| |done]. by rewrite (cycle_env c e). Qed.

(** What a change of the state may leave as it was. *)
Lemma st_change c c' e : st c e → cache_ok k cores c' → same_requests (regs c) (regs c') → sim_cycle c' = sim_cycle c →
  (sound c → sound c') → st c' e.
Proof.
  intros [Hok He Hn Hs] Hok' [Ho Hf] Hc Hs'. split; [done|by rewrite Ho, Hf| |by apply Hs'].
  unfold cache_get_cycle in *. by rewrite Hc.
Qed.

(** A change of something that is no work. *)
Lemma sound_same c c' : flags c' = flags c → pipe c' = pipe c → fills c' = fills c → regs c' = regs c → sound c → sound c'.
Proof. intros E1 E2 E3 E4 []. split; by rewrite E1, ?E2, ?E3, ?E4. Qed.

(** A kind that no bank has, whichever bank comes first. *)
Definition none_from (P : action → bool) start n m : Prop := ∀ b, 0 ≤ b < n → none_at P m (nth_bank start b (MSHR_banks k)).

Lemma send_WBs_ok T cyc m start e : regs_st T cyc m m e →
  wp (for_range 0 (MSHR_banks k) (λ b '(m, e, f), send_WB k now (nth_bank start b (MSHR_banks k)) m e f) (m, e, false))
    (λ '(m', e', f), regs_st T cyc m m' e' ∧ (f = true ∨ m' = m ∧ none_from unsent start (MSHR_banks k) m)).
Proof.
  intros Hr. destruct (c_regs _ Hk) as [Hbanks _].
  apply (wp_for_range (λ n '(m', e', f), regs_st T cyc m m' e' ∧ (f = true ∨ m' = m ∧ none_from unsent start n m))).
  - lia.
  - split; [done|]. right. split; [done|]. intros b. lia.
  - intros b [[m1 e1] f] Hb [Hm Hf]. eapply wp_mono; [by apply send_WB_ok; [by apply nth_bank_range|]|].
    intros [[m' e''] f'] [Hm' Hf']. split; [done|]. destruct Hf' as [->|(-> & -> & Hnone)]; [by left|].
    destruct Hf as [->|[-> Hf]]; [by left|]. right. split; [done|]. intros b' Hb'.
    destruct (decide (b' = b)) as [->|]; [done|]. apply Hf. lia.
  - by intros [[m' e'] f].
Qed.

Lemma drop_WBs_ok T cyc m0 m start e f : regs_st T cyc m0 m e →
  wp (for_range 0 (MSHR_banks k) (λ b '(m, f),
        for_range 0 (MSHR_size k) (λ j '(m, f), drop_WB k now (nth_bank start b (MSHR_banks k)) j m f) (m, f)) (m, f))
    (λ '(m', f'), regs_st T cyc m0 m' e ∧ (f' = true ∨ f' = f ∧ m' = m ∧ none_from started start (MSHR_banks k) m)).
Proof.
  intros Hr. destruct (c_regs _ Hk) as [Hbanks Hsize].
  set (P := λ (n s : Z) (m' : mshrs) (f' : bool), regs_st T cyc m0 m' e ∧
    (f' = true ∨ f' = f ∧ m' = m ∧ none_from started start n m ∧
      (∀ j a, 0 ≤ j < s → aget2 (MSHR m) (nth_bank start n (MSHR_banks k)) j = Ok a → started a = false))).
  apply (wp_for_range (λ n '(m', f'), P n 0 m' f')); [lia| | |].
  - split; [done|]. right. split; [done|]. split; [done|]. split; [intros b|]; lia.
  - intros b [m1 f1] Hb [Hm1 Hf1]. apply (wp_for_range (λ s '(m', f'), P b s m' f')); [lia|by split| |].
    + intros j [m2 f2] Hj [Hm2 Hf2]. eapply wp_mono; [by apply drop_WB_ok; [by apply nth_bank_range|done|]|].
      intros [m3 f3] [Hm3 Hf3]. split; [done|]. destruct Hf3 as [->|(-> & -> & Hno)]; [by left|].
      destruct Hf2 as [->|(-> & -> & Ho & Hs)]; [by left|]. right. repeat (split; [done|]). intros j' a Hj'.
      destruct (decide (j' = j)) as [->|]; [by apply Hno|]. apply Hs. lia.
    + intros [m2 f2] [Hm2 Hf2]. split; [done|]. destruct Hf2 as [->|(-> & -> & Ho & Hs)]; [by left|]. right.
      split; [done|]. split; [done|]. split; [|lia]. intros b' Hb'.
      destruct (decide (b' = b)) as [->|]; [|apply Ho; lia]. intros j a Hj. by apply Hs.
  - intros [m1 f1] [Hm1 Hf1]. split; [done|]. by destruct Hf1 as [->|(-> & -> & Ho & _)]; [left|right].
Qed.

Lemma cache_process_MSHR_WB_ok start c e : st c e →
  wp (cache_process_MSHR_WB k start c e) (λ '(c', e'), st c' e' ∧ pipe c' = pipe c).
Proof.
  intros Hst. pose proof (st_now _ _ Hst) as Hn. unfold cache_process_MSHR_WB. rewrite Hn.
  destruct (check_for_MSHR_WB_work (flags c)) eqn:Eflag.
  2: { split; [|done]. apply st_with_flags; [done|]. intros [S1 S2 S3 S4]. split; try done. simpl. rewrite Eflag in S4. by destruct S4; auto. }
  pose proof (st_regs c e Hst) as Hr. apply wp_bind.
  apply (wp_mono _ (λ '(m, e', f), regs_st R (uncore_cycle e) (regs c) m e' ∧
    (f = true ∨ m = regs c ∧ none_from unsent start (MSHR_banks k) (regs c)))).
  { case_match; [by apply send_WBs_ok|by split; [|left]]. }
  intros [[m e'] f] [Hm Hf]. eapply wp_bind, wp_mono; [by apply drop_WBs_ok|]. intros [m1 f1] [Hm1 Hf1]. simpl. split; [|done].
  apply st_with_flags; [by eapply st_with_regs|]. intros [S1 S2 S3 _]. split; try done. simpl.
  destruct Hf1 as [->|(-> & -> & Ho)]; [by left|]. destruct Hf as [->|[-> Hf]]; [by left|]. right.
  apply (picked_none k); [|apply Hm1]. intros bank i a Hbank Hi Ea.
  destruct (nth_bank_cover start _ bank (proj2 (c_pow2 _ Hk)) Hbank) as (b & Hb & <-).
  by rewrite wb_split, (Hf b Hb i a Hi Ea), (Ho b Hb i a Hi Ea).
Qed.

(** ** The callbacks *)

Lemma still_valid_ok e a : has_id a → ∃ v, still_valid e a = Ok v.
Proof.
  intros Hid. unfold still_valid. destruct (op a) as [o|] eqn:Eo; [|by eexists].
  destruct (get_action_id a) as [f|] eqn:Ef; [by eexists|]. exfalso. by apply Hid; [rewrite Eo|].
Qed.

Lemma invoke_cb_ok T F e a : has_id a → env_ok T F e →
  wp (invoke_cb e a) (λ e', env_ok T F e' ∧ uncore_cycle e' = uncore_cycle e).
Proof.
  intros Hid He. unfold invoke_cb. case_match; [|done]. destruct (still_valid_ok e a Hid) as [v ->]. simpl.
  destruct v; [|done]. destruct (cb a); [|done]. destruct (op a); [|done]. by apply env_cb.
Qed.

Lemma invoke_miss_cb_ok T F e a lat : has_id a → env_ok T F e →
  wp (invoke_miss_cb e a lat) (λ e', env_ok T F e' ∧ uncore_cycle e' = uncore_cycle e).
Proof.
  intros Hid He. unfold invoke_miss_cb. destruct (miss_cb a); [|done]. destruct (still_valid_ok e a Hid) as [v ->].
  simpl. destruct v; [|done]. destruct (op a); [|done]. by apply env_miss_cb.
Qed.

(** ** Fills from the next level *)

Lemma bank_of_range paddr : 0 ≤ GET_BANK k paddr < banks k.
Proof. apply land_mask_range. apply Hk. Qed.

Lemma fillable_ok c paddr : cache_ok k cores c → ∃ n, aget (nums (fills c)) (GET_BANK k paddr) = Ok n ∧
  cache_fillable k c paddr = Ok (n <? latency k).
Proof.
  intros Hc. destruct (pipes_bank _ _ _ _ _ (ok_fills _ _ _ Hc) (bank_of_range paddr)) as (l & n & _ & _ & _ & En & _).
  exists n. split; [done|]. unfold cache_fillable. by rewrite En.
Qed.

Lemma cache_fill_ok c e cmd paddr core : st c e → core_ok cores core → cache_fillable k c paddr = Ok true →
  wp (cache_fill k c e cmd paddr core) (λ c', st c' e ∧ regs c' = regs c ∧ pipe c' = pipe c).
Proof.
  intros Hst Hcore Hroom. pose proof Hst as [Hok He Hn Hs]. destruct (fillable_ok c paddr Hok) as (n & En & Ef).
  rewrite Ef in Hroom. injection Hroom as Hlt%Z.ltb_lt. unfold cache_fill. rewrite Hn.
  eapply wp_bind, wp_mono; [apply (bank_insert_ok (banks k) _ (latency k)); [apply Hk|apply Hok|apply bank_of_range| |]|].
  - split; [done|]. simpl. lia.
  - intros n' En'. rewrite En in En'. by injection En' as <-.
  - intros p [Hp Hq]. destruct (pipes_bank _ _ _ _ _ Hp (bank_of_range paddr)) as (l' & n' & _ & _ & _ & En' & _ & _ & Hn').
    rewrite En'. simpl. rewrite (proj2 (Z.leb_le _ _)) by done. simpl. split; [|done].
    eapply st_change; [exact Hst| |done|done|].
    + assert (Forall (λ f, core_ok cores (f_core f)) (queued p)) as Hcores by (rewrite Hq; constructor; [done|apply Hok]).
      by destruct Hok; split.
    + intros []. by split; auto.
Qed.

(** The block of a request goes where it belongs; the requests stay. *)
Lemma place_block_ok c e a : st c e → core_ok cores (acore a) → cache_fillable k c (paddr a) = Ok true →
  wp (place_block k c e a) (λ c', st c' e ∧ regs c' = regs c ∧ pipe c' = pipe c).
Proof.
  intros Hst Hcore Hroom. unfold place_block. destruct (MSHR_linked a); [done|]. apply wp_bind.
  apply (wp_mono _ (λ '(c', _), st c' e ∧ regs c' = regs c ∧ pipe c' = pipe c ∧ fills c' = fills c ∧ PF_buffer c' = [])).
  - destruct (PF_filter c) as [f|] eqn:Ef; [|by split; [|destruct Hst as [[] _ _]]].
    case_decide; [|by split; [|destruct Hst as [[] _ _]]]. pose proof Hst as [Hok _ _].
    pose proof (ok_filter _ _ _ Hok) as Hf. rewrite Ef in Hf.
    eapply wp_bind, wp_mono; [by apply filter_lookup_ok|]. intros [f' okf] Hf'. simpl.
    split; [|by destruct Hok]. eapply st_change; [done| |done|done|by apply sound_same]. by destruct Hok.
  - intros [c' insert] (Hst' & Er & Ep & Ef & Eb). rewrite Eb, andb_false_r. simpl.
    destruct (allocates k (cmd a) && insert); [|done]. eapply wp_mono; [apply cache_fill_ok; [done|done|]|].
    + unfold cache_fillable in *. by rewrite Ef.
    + intros c'' (? & -> & ->). done.
Qed.

Lemma answered_ok c e a : cache_ok k cores c → ∃ v, answered k c e a = Ok v.
Proof.
  intros Hc. unfold answered. destruct (bool_decide _); [by eexists|]. destruct (_ && _); [|by eexists].
  destruct (fillable_ok c (paddr a) Hc) as (n & _ & ->). by eexists.
Qed.

Lemma answered_inv c e a : answered k c e a = Ok true → cache_get_cycle k c e = now →
  type a ≠ MSHR_WRITEBACK ∧ alive a = true ∧ when_returned a ≤ now ∧ cache_fillable k c (paddr a) = Ok true.
Proof.
  unfold answered. intros Ha <-. destruct (bool_decide _) eqn:Et; [done|]. apply bool_decide_eq_false in Et.
  destruct (_ && _) eqn:E'; [|done]. apply andb_true_iff in E' as [? ?%Z.leb_le]. done.
Qed.

Lemma miss_kind a : type a ≠ MSHR_WRITEBACK → alive a = true → is_miss a = true.
Proof. unfold is_miss. intros Ht ->. destruct (type a); [done|done]. Qed.

(** The answer of a request that is in the MSHRs. *)
Lemma respond_ok c e b i a : st c e → 0 ≤ b < MSHR_banks k → 0 ≤ i < MSHR_size k → aget2 (MSHR (regs c)) b i = Ok a →
  is_miss a = true → is_waiting a = false → when_returned a ≠ TICK_T_MAX →
  wp (let* e := invoke_cb e a in let* e := send_response_downstream e a in
      let* m := MSHR_deallocate k (regs c) (paddr a) i in Ok (with_regs m c, e))
    (λ '(c', e'), st c' e' ∧ pipe c' = pipe c).
Proof.
  intros Hst Hb Hi Ea Hmiss Hw Hret. pose proof Hst as [Hok He Hn Hs].
  pose proof (ok_regs _ _ _ Hok) as Hm. pose proof (ok_ids _ _ _ Hok) as Hids.
  assert (alive a = true) as Ha by (by apply andb_true_iff in Hmiss as [? _]).
  pose proof (deallocate_ok (regs c) b i a Hm Hids Hb Hi Ea Ha Hw Hret) as Hd.
  apply wp_exists in Hd as (m' & Em & Hm' & Hids' & Hp & Hfly & Hshr). rewrite Em.
  assert (pick is_miss a = [body a]) as Esel by (unfold pick; by rewrite Hmiss). rewrite Esel in Hp.
  pose proof (a_id _ _ _ (entries_get _ _ _ _ _ Hids Ea)) as Hid.
  assert (env_ok (body a :: R ++ missing m') (flying m') e) as He'.
  { rewrite Hp in He. eapply env_ok_perm; [|by symmetry|exact He]. simpl. solve_Permutation. }
  eapply wp_bind, wp_mono; [by apply invoke_cb_ok|]. intros e1 [He1 Hc1].
  eapply wp_bind, wp_mono; [by apply env_send_response|]. intros e2 [He2 Hc2]. simpl.
  split; [|done]. split; [by destruct Hok; split|done| |by apply sound_shrinks].
  rewrite (cycle_env (with_regs m' c) e) by congruence. done.
Qed.

Lemma fill_bank_ok bank c e found : 0 ≤ bank < MSHR_banks k → st c e →
  wp (fill_bank k bank c e found) (λ '(c', e', _), st c' e' ∧ pipe c' = pipe c).
Proof.
  intros Hb Hst. pose proof Hst as [Hok He Hn Hs]. pose proof (ok_regs _ _ _ Hok) as Hm. unfold fill_bank.
  destruct (at_exists _ _ bank (proj1 Hm) Hb) as (x & Hx). pose proof Hx as (_ & _ & _ & Hfn & _).
  rewrite (aget_lookup _ _ _ (proj1 Hb) Hfn). simpl. case_match; [done|].
  eapply wp_bind, wp_mono; [apply find_oldest_ok; [apply Hk|done|done|intros i a _ _; by apply answered_ok]|].
  intros [i|]; [|done]. intros (a & Hi & Ea & Hans & _).
  destruct (answered_inv c e a Hans Hn) as (Ht & Ha & Hret & Hroom). rewrite Ea. simpl.
  destruct (alive a && _ && _); [|done].
  pose proof (a_core _ _ _ (entries_get _ _ _ _ _ (ok_ids _ _ _ Hok) Ea) Ha) as Hcore.
  eapply wp_bind, wp_mono; [by apply place_block_ok|]. intros c' (Hst' & Er & Ep). rewrite <- Er in Ea.
  pose proof (miss_kind a Ht Ha) as Hmiss.
  destruct (entry_facts (regs c) bank i a Hm Hb Hi) as (y & _ & _ & _ & _ & _ & Hstarted); [by rewrite <- Er|].
  assert (is_waiting a = false) as Hw.
  { unfold is_waiting. rewrite Hmiss. apply Z.eqb_neq. apply Hstarted; [done|]. pose proof now_max. destruct Hk. lia. }
  pose proof now_room. pose proof (respond_ok c' e bank i a Hst' Hb Hi Ea Hmiss Hw ltac:(lia)) as Hr.
  apply wp_bind_inv in Hr. eapply wp_bind, wp_mono; [exact Hr|]. intros e1 Hr1.
  apply wp_bind_inv in Hr1. eapply wp_bind, wp_mono; [exact Hr1|]. intros e2 Hr2.
  apply wp_bind_inv in Hr2. eapply wp_bind, wp_mono; [exact Hr2|]. intros m' [Hst2 Ep2]. split; [done|congruence].
Qed.

Lemma cache_process_MSHR_fill_ok start c e : st c e → wp (cache_process_MSHR_fill k start c e) (λ '(c', e'), st c' e' ∧ pipe c' = pipe c).
Proof.
  intros Hst. unfold cache_process_MSHR_fill. destruct (c_regs _ Hk) as [Hbanks Hsize]. apply wp_bind.
  apply (wp_mono _ (λ '(c', e', _), st c' e' ∧ pipe c' = pipe c)).
  - case_match; [|done]. apply (wp_for_range (λ _ '(c', e', _), st c' e' ∧ pipe c' = pipe c)); [lia|done| |done].
    intros b [[c' e'] f] Hb [Hst' Ep']. rewrite <- Ep'. apply fill_bank_ok; [by apply nth_bank_range|done].
  - intros [[c' e'] f] [Hst' Ep']. split; [apply st_with_flags; [done|intros []; by split]|done].
Qed.

(** ** Fills of the array *)

Lemma wb_available_inv c addr : wb_available k c addr = true → MSHR_WB_available k (regs c) addr = Ok true.
Proof. unfold wb_available. destruct (MSHR_WB_available _ _ _) as [[]|]; done. Qed.

Lemma insert_WB_ok c e tag core : st c e → core_ok cores core → cache_set.read_only (kcfg k) = false → MSHR_WB_available k (regs c) (wb_addr k tag) = Ok true →
  wp (insert_WB k c e tag core) (λ c', st c' e ∧ pipe c' = pipe c ∧ fills c' = fills c ∧ blocks c' = blocks c ∧
    stat c' = stat c ∧ PF_filter c' = PF_filter c ∧ missing (regs c') ≡ₚ missing (regs c)).
Proof.
  intros Hst Hcore Hro Hav. pose proof Hst as [Hok He Hn Hs]. pose proof (ok_regs _ _ _ Hok) as Hm.
  pose proof (ok_ids _ _ _ Hok) as Hids. unfold insert_WB.
  eapply wp_bind, wp_mono; [apply MSHR_WB_insert_ok; [apply Hk|done|done]|].
  intros m' (Hm' & i & a & Ha & Hrep). simpl.
  assert (missing m' ≡ₚ missing (regs c)) as Hp.
  { pose proof (picked_replaced k is_miss _ _ _ _ _ _ Hrep) as Hp.
    rewrite (pick_out is_miss (wb_entry _ _ _ _ _ _ _)), (pick_out is_miss a) in Hp; [by symmetry| |done].
    by destruct (dead_kinds a Ha). }
  assert (flying m' ≡ₚ flying (regs c)) as Hf.
  { pose proof (flying_replaced k _ _ _ _ _ _ (proj1 (bank_range k _ (proj1 (c_regs _ Hk)))) Hrep) as Hf.
    rewrite !fly_out in Hf; [by symmetry| |]; unfold in_flight; [by rewrite Ha|done]. }
  split; [|repeat (split; [done|]); done]. eapply st_change; [exact Hst| |done|done|].
  - assert (entries_all (act_ok k cores) m') as Hids'.
    { eapply entries_replaced; [done|exact Hrep|]. split; try done.
      - by intros [].
      - intros _. simpl. rewrite Hn. apply now_room.
      - intros _ _. simpl. apply u64_range. }
    by destruct Hok; split.
  - intros [S1 S2 _ _]. by split; auto.
Qed.

Lemma get_set_ok c block : cache_ok k cores c → ∃ s, get_set k c block = Ok s ∧ cache_safety.good (kcfg k) s ∧ cache_cores.all_from (core_ok cores) s.
Proof.
  intros []. unfold get_set, cache_set.set_index. pose proof (land_mask_range block _ (c_sets _ Hk)).
  destruct (aget_ok (blocks c) (Z.land block (cache_set.sets (kcfg k) - 1))) as (s & Es & E'); [lia|].
  exists s. split; [done|]. split; [exact (Forall_lookup_1 _ _ _ _ ok_good0 Es)|exact (Forall_lookup_1 _ _ _ _ ok_lines0 Es)].
Qed.

Lemma put_set_ok c e block s : st c e → cache_safety.good (kcfg k) s → cache_cores.all_from (core_ok cores) s →
  wp (put_set k c block s) (λ c', st c' e ∧ ∃ l, c' = with_blocks l c ∧ get_set k c' block = Ok s).
Proof.
  intros Hst Hs Hl. pose proof Hst as [[] _ _ _]. unfold put_set, get_set. pose proof (land_mask_range block _ (c_sets _ Hk)).
  set (i := cache_set.set_index (kcfg k) block) in *.
  destruct (aset (blocks c) i s) as [l|] eqn:El; [|by rewrite aset_ok in El by (unfold i, cache_set.set_index; lia)].
  simpl. split; [|exists l; split; [done|by eapply aget_aset_eq]]. eapply st_change; [exact Hst| |done|done|by apply sound_same].
  split; try done; simpl.
  - by rewrite (length_aset _ _ _ _ El).
  - by eapply Forall_aset.
  - by eapply Forall_aset.
Qed.

Lemma random_ok c e : st c e → st c (draw_random e).1.
Proof.
  intros Hst. pose proof Hst as [_ He _ _]. destruct (env_random _ _ _ He) as [He' Hc]. by eapply st_new_env.
Qed.

Lemma magic_ok c e : st c e → st c (draw_magic e).1.
Proof.
  intros Hst. pose proof Hst as [_ He _ _]. destruct (env_magic _ _ _ He) as [He' Hc]. by eapply st_new_env.
Qed.

Lemma st_stat c e f : (∀ s, core_lookups (f s) = core_lookups s ∧ core_misses (f s) = core_misses s) →
  st c e → st (cache_stat f c) e.
Proof.
  intros Hf Hst. unfold cache_stat. destruct (frozen c); [done|]. destruct (Hf (stat c)) as [E1 E2].
  eapply st_change; [exact Hst| |done|done|by apply sound_same].
  destruct (st_ok _ _ Hst). split; try done. simpl. by rewrite E1, E2.
Qed.

Lemma retire_line_ok c e l : st c e → (cache_set.valid l = true → core_ok cores (cache_set.core l)) →
  (cache_set.valid l = true → cache_set.dirty l = true → cache_set.write_policy (kcfg k) = WRITE_BACK →
   wb_available k c (wb_addr k (cache_set.tag l)) = true) →
  wp (retire_line k c e l) (λ c', st c' e ∧ fills c' = fills c ∧ pipe c' = pipe c).
Proof.
  intros Hst Hcore Hwb. unfold retire_line. apply wp_bind.
  apply (wp_mono _ (λ c', st c' e ∧ fills c' = fills c ∧ pipe c' = pipe c)).
  - destruct (cache_set.valid l && cache_set.dirty l && bool_decide _) eqn:Ed; [|done].
    apply andb_true_iff in Ed as [[Ev Edi]%andb_true_iff Ew%bool_decide_eq_true].
    eapply wp_mono; [apply insert_WB_ok; [done|by apply Hcore| |]|].
    + destruct (cache_set.read_only (kcfg k)) eqn:Ero; [|done]. rewrite (c_read_only _ Hk Ero) in Ew. done.
    + by apply wb_available_inv, Hwb.
    + intros c' (? & ? & ? & _). done.
  - intros c' (Hst' & Ef & Ep). destruct (PF_filter c') as [f|] eqn:Efil; [|done].
    destruct (cache_set.prefetched l); [|done]. pose proof (ok_filter _ _ _ (st_ok _ _ Hst')) as Hf. rewrite Efil in Hf.
    eapply wp_bind, wp_mono; [by apply filter_update_ok|]. intros f' Hf'. simpl. split; [|done].
    eapply st_change; [exact Hst'| |done|done|by apply sound_same]. by destruct (st_ok _ _ Hst').
Qed.

Lemma fill_array_ok c e f : st c e → core_ok cores (f_core f) →
  wp (fill_array k c e f) (λ '(c', e', _), st c' e' ∧ fills c' = fills c ∧ pipe c' = pipe c).
Proof.
  intros Hst Hcore. unfold fill_array. pose proof (random_ok c e Hst) as Hst1. destruct (draw_random e) as [e1 rnd]. simpl in Hst1.
  destruct (get_set_ok c (block_of k (f_paddr f)) (st_ok _ _ Hst)) as (s & -> & Hs & Hl). cbn [rbind].
  eapply wp_bind, wp_mono; [apply cache_cores.holds_wp; [by apply (cache_cores.fill_block_from (core_ok cores))|apply fill_good; [apply Hk|exact Hs]]|].
  intros [s' out] [[Hs' Hout] [Hl' Hcore']].
  eapply wp_bind, wp_mono; [by apply put_set_ok|]. intros c' (Hst' & l & -> & _). destruct out as [|l'|]; [done| |done].
  eapply wp_bind, wp_mono; [by apply retire_line_ok|]. intros c'' (Hst'' & Ef & Ep). simpl.
  case_decide; [|done]. split; [by apply st_stat|]. unfold cache_stat. by case_match.
Qed.

Lemma st_remove_fill c e f p : st c e → pipes_ok (banks k) (heap_size k) (latency k) p → queued (fills c) ≡ₚ f :: queued p →
  st (with_fills p c) e.
Proof.
  intros Hst Hp Hq. eapply st_change; [exact Hst| |done|done|].
  - pose proof (ok_fill_cores _ _ _ (st_ok _ _ Hst)) as Hc. rewrite Hq in Hc. apply list.Forall_cons in Hc as [_ Hc].
    by destruct (st_ok _ _ Hst).
  - intros [S1 S2 S3 S4]. split; try done. destruct S2 as [|Hnil]; [by left|]. rewrite Hnil in Hq.
    by apply Permutation_nil_cons in Hq.
Qed.

Lemma fills_bank_ok bank c e found : 0 ≤ bank < banks k → st c e →
  wp (fills_bank k bank c e found) (λ '(c', e', found'), (st c' e' ∧ pipe c' = pipe c) ∧
    (found' = true ∨ found' = found ∧ c' = c ∧ aget (nums (fills c)) bank = Ok 0)).
Proof.
  intros Hb Hst. unfold fills_bank. pose proof (ok_fills _ _ _ (st_ok _ _ Hst)) as Hp.
  destruct (pipes_bank _ _ _ _ _ Hp Hb) as (l & n & _ & _ & _ & En & _). rewrite En. simpl.
  destruct (Z.eqb_spec n 0) as [->|Hne]; [by split; [|right]|].
  destruct (bank_remove_ok _ _ _ _ _ n Hp Hb En Hne) as (f & Ef & _ & Hin & Hrem). rewrite Ef. simpl.
  pose proof (proj1 (list.Forall_forall _ _) (ok_fill_cores _ _ _ (st_ok _ _ Hst)) f Hin) as Hcore.
  destruct (_ && _); [|by split; [|left]]. eapply wp_bind, wp_mono; [by apply fill_array_ok|].
  intros [[c' e'] leaves] (Hst' & Efills & Ep). destruct leaves; [|by split; [|left]]. rewrite Efills.
  eapply wp_bind, wp_mono; [exact Hrem|]. intros p [Hp' Hq]. simpl. split; [|by left]. split; [|done].
  eapply st_remove_fill; [done|done|by rewrite Efills].
Qed.

Lemma cache_process_fills_ok start c e : st c e → wp (cache_process_fills k start c e) (λ '(c', e'), st c' e' ∧ pipe c' = pipe c).
Proof.
  intros Hst. unfold cache_process_fills. destruct (c_banks _ Hk) as [Hb1 Hb2]. apply wp_bind.
  apply (wp_mono _ (λ '(c', e', f), (st c' e' ∧ pipe c' = pipe c) ∧ (f = true ∨ queued (fills c') = []))).
  - destruct (check_for_fill_work (flags c)) eqn:Eflag.
    2: { split; [done|]. destruct (s_fill _ (st_sound _ _ Hst)); [congruence|by right]. }
    apply (wp_for_range (λ n '(c', e', f), (st c' e' ∧ pipe c' = pipe c) ∧
      (f = true ∨ c' = c ∧ ∀ b, 0 ≤ b < n → aget (nums (fills c)) (nth_bank start b (banks k)) = Ok 0))).
    + lia.
    + split; [done|]. right. split; [done|lia].
    + intros b [[c' e'] f] Hb [[Hst' Ep'] Hf]. rewrite <- Ep'. eapply wp_mono; [by apply fills_bank_ok; [by apply nth_bank_range|]|].
      intros [[c'' e''] f''] [Hst'' Hf'']. split; [done|]. destruct Hf'' as [->|(-> & -> & Hz)]; [by left|].
      destruct Hf as [->|[-> Hf]]; [by left|]. right. split; [done|]. intros b' Hb'.
      destruct (decide (b' = b)) as [->|]; [done|]. apply Hf. lia.
    + intros [[c' e'] f] [Hst' Hf]. split; [done|]. destruct Hf as [->|[-> Hf]]; [by left|]. right.
      eapply queued_empty; [apply (st_ok _ _ Hst)|]. intros bank Hbank.
      destruct (nth_bank_cover start _ bank (proj1 (c_pow2 _ Hk)) Hbank) as (b & Hb & <-). by apply Hf.
  - intros [[c' e'] f] [[Hst' Ep'] Hf]. split; [|done]. apply st_with_flags; [done|]. intros []. by split.
Qed.

End frame.

(** ** The access pipe *)

(** What a step of the pipe leaves to the step after it. *)
Definition same_pipe c c' : Prop := pipe c' = pipe c ∧ fills c' = fills c.

Lemma available_total m paddr : mshrs_ok k m →
  (∃ b, MSHR_available k m paddr = Ok b) ∧ (∃ b, MSHR_WB_available k m paddr = Ok b).
Proof.
  intros Hm. destruct (mshrs_bank k m paddr (c_regs _ Hk) Hm) as (x & Hx & _).
  pose proof (bank_range k paddr (proj1 (c_regs _ Hk))) as [Hb _].
  destruct (available_at k m paddr x Hb Hx) as [-> ->]. by split; eexists.
Qed.

(** The block of an address is in the bank of the address. *)
Lemma wb_bank paddr : 0 ≤ paddr < 2 ^ 64 → GET_MSHR_BANK k (wb_addr k (block_of k paddr)) = GET_MSHR_BANK k paddr.
Proof.
  intros Hp. unfold GET_MSHR_BANK, wb_addr, block_of. destruct Hk as [_ _ _ _ _ _ Es Hs]. rewrite <- Es. f_equal.
  rewrite Z.shiftl_mul_pow2, !Z.shiftr_div_pow2 by done.
  pose proof (Z.pow_pos_nonneg 2 (bank_shift k) ltac:(lia) Hs) as Hpos.
  pose proof (Z.mul_div_le paddr (2 ^ bank_shift k) Hpos). pose proof (Z.div_pos paddr (2 ^ bank_shift k) ltac:(lia) Hpos).
  rewrite u64_small by nia. by rewrite Z.div_mul by lia.
Qed.

Lemma available_addr m p p' : GET_MSHR_BANK k p = GET_MSHR_BANK k p' → MSHR_WB_available k m p = MSHR_WB_available k m p'.
Proof. unfold MSHR_WB_available. by intros ->. Qed.

(** A line that has been found is in the set of its block. *)
Definition line_ok c (block : Z) (line : option Z) : Prop :=
  match line with
  | Some p => ∃ s l, get_set k c block = Ok s ∧ aget (cache_set.lines s) p = Ok l
  | None => True
  end.

Lemma count_core_ok s core hit : Z.of_nat (length (core_lookups s)) = cores → Z.of_nat (length (core_misses s)) = cores →
  0 ≤ core < cores →
  wp (count_core core hit s) (λ s', length (core_lookups s') = length (core_lookups s) ∧ length (core_misses s') = length (core_misses s)).
Proof.
  intros H1 H2 Hc. unfold count_core, amodify. destruct (aget_ok (core_lookups s) core) as (x & _ & ->); [lia|]. simpl.
  rewrite aset_ok by lia. simpl. destruct hit; simpl; [by rewrite length_insert|].
  destruct (aget_ok (core_misses s) core) as (y & _ & ->); [lia|]. simpl. rewrite aset_ok by lia. simpl.
  by rewrite !length_insert.
Qed.

Lemma with_stat_ok R c e s : st R c e → length (core_lookups s) = length (core_lookups (stat c)) →
  length (core_misses s) = length (core_misses (stat c)) → st R (with_stat s c) e.
Proof.
  intros Hst E1 E2. eapply st_change; [exact Hst| |done|done|by apply sound_same]. destruct (st_ok _ _ _ Hst). split; try done. simpl. by rewrite E1, E2.
Qed.

Lemma cache_stat_fields f c : pipe (cache_stat f c) = pipe c ∧ fills (cache_stat f c) = fills c ∧
  regs (cache_stat f c) = regs c ∧ blocks (cache_stat f c) = blocks c.
Proof. unfold cache_stat. by case_match. Qed.

Lemma count_request_cores cmd hit s : core_lookups (count_request cmd hit s) = core_lookups s ∧
  core_misses (count_request cmd hit s) = core_misses s.
Proof. destruct s, cmd; done. Qed.

Lemma update_request_stats_ok R c e a line hit : st R c e → req_ok k cores a → line_ok c (block_of k (paddr a)) line →
  wp (update_request_stats k c a line hit) (λ c', st R c' e ∧ same_pipe c c' ∧ regs c' = regs c).
Proof.
  intros Hst Ha Hline. unfold update_request_stats. apply wp_bind.
  apply (wp_mono _ (λ s, length (core_lookups s) = length (core_lookups (stat c)) ∧ length (core_misses s) = length (core_misses (stat c)))).
  { destruct (is_LLC k && negb (acore a =? -1) && negb (frozen c)) eqn:El; [|done].
    apply andb_true_iff in El as [[El Ec%negb_true_iff%Z.eqb_neq]%andb_true_iff _].
    destruct (ok_cores _ _ _ (st_ok _ _ _ Hst) El). destruct (r_core _ _ _ Ha) as [[? _]|?]; [done|]. by apply count_core_ok. }
  intros s [E1 E2]. set (c1 := cache_stat _ _).
  assert (st R c1 e) as Hst1 by (apply st_stat; [intros; apply count_request_cores|by apply with_stat_ok]).
  destruct (cache_stat_fields (count_request (cmd a) hit) (with_stat s c)) as (Ep & Ef & Er & Eb). fold c1 in Ep, Ef, Er, Eb.
  simpl in Ep, Ef, Er, Eb. destruct line as [p|]; [|done]. destruct (hit && _); [|done]. destruct Hline as (s1 & l & Es & El).
  assert (get_set k c1 (block_of k (paddr a)) = Ok s1) as Es1 by (unfold get_set in *; by rewrite Eb).
  rewrite Es1. cbn [rbind]. rewrite El. cbn [rbind]. destruct (_ && _); [|done].
  destruct (get_set_ok c1 (block_of k (paddr a)) (st_ok _ _ _ Hst1)) as (s2 & Es2 & Hg & Hl). rewrite Es1 in Es2. injection Es2 as <-.
  eapply wp_bind, wp_mono; [apply cache_cores.holds_wp; [by apply (cache_cores.with_used_from (core_ok cores) _ (cache_set.first s1))|by eapply with_used_good]|].
  intros ls [Hls Hl'].
  eapply wp_bind, wp_mono; [by apply put_set_ok|]. intros c2 (Hst2 & bl & -> & _). simpl.
  split; [by apply st_stat|]. destruct (cache_stat_fields count_useful (with_blocks bl c1)) as (E3 & E4 & E5 & _).
  unfold same_pipe. rewrite E3, E4, E5. done.
Qed.

Lemma lookup_line_ok R c e a : st R c e → req_ok k cores a →
  wp (lookup_line k c e a) (λ '(c', e', line), st R c' e' ∧ same_pipe c c' ∧ line_ok c' (block_of k (paddr a)) line).
Proof.
  intros Hst Ha. unfold lookup_line. pose proof (magic_ok R c e Hst) as Hst1. destruct (draw_magic e) as [e1 magic]. simpl in Hst1.
  destruct (get_set_ok c (block_of k (paddr a)) (st_ok _ _ _ Hst)) as (s & -> & Hs & Hl). cbn [rbind].
  eapply wp_bind, wp_mono; [apply cache_cores.holds_wp; [by apply (cache_cores.is_hit_from (core_ok cores))|apply is_hit_good; [apply Hk|apply Ha|exact Hs]]|].
  intros [s' p] [[Hs' Hp] Hl'].
  eapply wp_bind, wp_mono; [by apply put_set_ok|]. intros c' (Hst' & bl & -> & Eg).
  destruct p as [p|]; simpl.
  - destruct Hp as (l & El). rewrite El. simpl. split; [done|]. split; [done|]. case_decide; [done|]. by exists s', l.
  - split; [done|]. split; [done|]. by case_decide.
Qed.

Lemma st_perm R R' c e : R ≡ₚ R' → st R c e → st R' c e.
Proof. intros HR [Hok He Hn Hs]. split; [done|by rewrite <- HR|done|done]. Qed.

(** A hit answers the request, or waits. *)
Lemma access_hit_ok R c e a p : st (body a :: R) c e → req_ok k cores a → line_ok c (block_of k (paddr a)) (Some p) →
  wp (access_hit k c e a p) (λ '(c', e', leaves), st (if leaves then R else body a :: R) c' e' ∧ pipe c' = pipe c).
Proof.
  intros Hst Ha Hline. unfold access_hit.
  set (needs := cache_set.is_write (cmd a) && _). destruct (available_total (regs c) (paddr a)) as [_ [room Eroom]].
  { apply Hst. }
  rewrite Eroom. assert ((if needs then Ok room else Ok true) = Ok (if needs then room else true)) as -> by by destruct needs.
  cbn [rbind]. destruct (negb _) eqn:En; [done|]. destruct (negb (can_schedule_downstream _ _)); [done|].
  apply wp_bind. apply (wp_mono _ (λ c', st (body a :: R) c' e ∧ pipe c' = pipe c ∧ blocks c' = blocks c)).
  { destruct needs eqn:Eneeds; [|done]. destruct room; [|done]. unfold needs in Eneeds.
    apply andb_true_iff in Eneeds as [Hw _]. eapply wp_mono; [apply insert_WB_ok; [exact Hst|apply Ha| |]|].
    - pose proof (r_write _ _ _ Ha) as Hro. by rewrite Hw in Hro.
    - rewrite <- Eroom. by apply available_addr, wb_bank, Ha.
    - intros c' (? & ? & _ & ? & _). done. }
  intros c1 (Hst1 & Ep1 & Eb1). pose proof Hst1 as [Hok1 He1 Hn1 _].
  eapply wp_bind, wp_mono; [apply invoke_cb_ok; [apply Ha|exact He1]|]. intros e2 [He2 Hc2].
  assert (st (body a :: R) c1 e2) as Hst2 by by eapply st_new_env.
  assert (line_ok c1 (block_of k (paddr a)) (Some p)) as Hline1.
  { destruct Hline as (s & l & Es & El). exists s, l. unfold get_set in *. by rewrite Eb1. }
  eapply wp_bind, wp_mono; [by apply update_request_stats_ok|]. intros c3 (Hst3 & [Ep3 _] & Er3).
  pose proof Hst3 as [Hok3 He3 Hn3 Hs3]. eapply wp_bind, wp_mono; [apply env_send_response; [exact He3|apply Ha]|].
  intros e4 [He4 Hc4]. simpl. split; [|congruence]. split; [done|done| |done]. by rewrite (cycle_env c3 e2).
Qed.

(** A miss takes the request to the MSHRs, or waits. *)
Lemma access_miss_ok R c e a : st (body a :: R) c e → req_ok k cores a →
  wp (access_miss k c e a) (λ '(c', e', leaves, _), st (if leaves then R else body a :: R) c' e' ∧ pipe c' = pipe c).
Proof.
  intros Hst Ha. unfold access_miss, last_chance. rewrite (ok_buffer _ _ _ (st_ok _ _ _ Hst)).
  assert (∀ b : bool, (if b then match buffer_find (cache_set.addr_shift (kcfg k)) (paddr a) [] with
      | Some (y, rest) => let* '(c, e) := insert_from_buffer k c e a y rest in Ok (c, e, true)
      | None => Ok (c, e, false) end else Ok (c, e, false)) = Ok (c, e, false)) as -> by by intros [].
  cbn [rbind]. pose proof Hst as [Hok He Hn Hs]. destruct (available_total (regs c) (paddr a)) as [[room Eroom] _]; [apply Hok|].
  rewrite Eroom. cbn [rbind]. destruct room; [|done]. rewrite Hn. pose proof (ok_regs _ _ _ Hok) as Hm.
  eapply wp_bind, wp_mono; [apply MSHR_insert_ok; [apply Hk|exact Hm| |done]|].
  { split; [apply Ha|]. split; apply Ha. }
  intros m' (Hm' & i & a0 & Ha0 & Hrep).
  pose proof (picked_replaced k is_miss _ _ _ _ _ _ Hrep) as Hp.
  assert (pick is_miss (miss_entry now a) = [body a]) as Es.
  { unfold pick. assert (is_miss (miss_entry now a) = true) as ->; [|done].
    apply miss_kind; [done|]. exact (r_alive _ _ _ Ha). }
  rewrite Es, (pick_out is_miss a0) in Hp by by destruct (dead_kinds a0 Ha0). simpl in Hp.
  assert (flying m' ≡ₚ flying (regs c)) as Hf.
  { pose proof (flying_replaced k _ _ _ _ _ _ (proj1 (bank_range k _ (proj1 (c_regs _ Hk)))) Hrep) as Hf.
    rewrite !fly_out in Hf; [by symmetry| |]; unfold in_flight; [by rewrite Ha0|by rewrite andb_false_r]. }
  set (c1 := with_flags mark_allocated (with_regs m' c)).
  assert (st R c1 e) as Hst1.
  { split; [| |done|].
    - assert (entries_all (act_ok k cores) m') as Hids'.
      { eapply entries_replaced; [exact (ok_ids _ _ _ Hok)|exact Hrep|]. split; simpl.
        - exact (r_id _ _ _ Ha).
        - intros _. apply now_room.
        - intros _. exact (r_core _ _ _ Ha).
        - intros _. exact (r_write _ _ _ Ha).
        - intros _. exact (r_addr _ _ _ Ha).
        - done. }
      by destruct Hok; split.
    - simpl. rewrite <- Hp. eapply env_ok_perm; [|by symmetry|exact He]. simpl. solve_Permutation.
    - destruct Hs as [S1 S2 _ _]. by split; auto. }
  eapply wp_bind, wp_mono; [by apply (update_request_stats_ok R)|]. intros c2 (Hst2 & [Ep2 _] & _). done.
Qed.

(** What the prefetchers ask for fits in the FIFO. *)
Definition fifo_good (f : fifo) : Prop := fifo_ok f ∧ Forall (λ r, core_ok cores (cache_prefetch.r_core r)) (queue f).

Lemma push_good f a pf : core_ok cores (acore a) → fifo_good f →
  wp (fifo_push f (mk_request (PC a) pf (acore a))) fifo_good.
Proof.
  intros Ha [Hf Hc]. eapply wp_mono; [by apply fifo_push_ok|]. intros q [Hq Eq]. split; [done|].
  rewrite Eq. by apply push_spec_all.
Qed.

Lemma ask_fifo_ok a ps f : core_ok cores (acore a) → Forall any_ok ps → fifo_good f →
  wp (ask_prefetchers a ps (Some f)) (λ '(ps', q'), Forall any_ok ps' ∧ ∃ f', q' = Some f' ∧ fifo_good f').
Proof.
  intros Ha Hps. revert f. induction Hps as [|p ps Hp Hps IH]; intros f Hf; cbn [ask_prefetchers]; [split; [done|by exists f]|].
  apply wp_bind. apply (wp_mono _ (λ '(p', _), any_ok p')).
  { destruct (prefetcher_hint a); [|exact (pf_lookup_ok p (PC a) (paddr a) Hp)].
    pose proof (pf_latest_lookup_ok p (PC a) (paddr a) Hp) as H1. by destruct (pf_latest_lookup p (PC a) (paddr a)). }
  intros [p' pf] Hp'. apply wp_bind. apply (wp_mono _ (λ q', ∃ f, q' = Some f ∧ fifo_good f)).
  { case_match; [by exists f|]. simpl. eapply wp_bind, wp_mono; [by apply push_good|]. intros f' Hf'. by exists f'. }
  intros q' (f1 & -> & Hf1). eapply wp_bind, wp_mono; [by apply IH|]. intros [ps' q''] [Hps' Hq'']. simpl.
  split; [by constructor|done].
Qed.

Lemma prefetch_after_ok R c e a b : st R c e → core_ok cores (acore a) →
  wp (prefetch_after c a b) (λ c', st R c' e ∧ same_pipe c c').
Proof.
  intros Hst Ha. unfold prefetch_after. destruct (_ && _); [|done]. destruct (ok_prefetch _ _ _ (st_ok _ _ _ Hst)) as [Hps Hq].
  apply wp_bind. apply (wp_mono _ (λ '(ps, q), prefetch_ok cores ps q)).
  - destruct (PFQ c) as [f|] eqn:Eq.
    + eapply wp_mono; [by apply ask_fifo_ok|]. intros [ps q] (Hps' & f' & -> & Hf'). done.
    + rewrite Hq. done.
  - intros [ps q] Hpq. simpl. split; [|done].
    eapply st_change; [exact Hst| |done|done|by apply sound_same]. by destruct (st_ok _ _ _ Hst).
Qed.

Lemma stalled_ok c e a : cache_ok k cores c → ∃ b, stalled k c e a = Ok b.
Proof.
  intros Hok. pose proof (ok_regs _ _ _ Hok) as Hm. pose proof (bank_range k (paddr a) (proj1 (c_regs _ Hk))) as Hb.
  destruct (c_regs _ Hk) as [_ Hsize].
  assert (wp (stalled k c e a) (λ _, True)) as Hw; [|apply wp_exists in Hw as (b & -> & _); by eexists].
  unfold stalled. apply wp_bind. apply wp_find_range; [lia| | |done].
  - intros j Hj. destruct (entry_get k _ _ j (c_regs _ Hk) Hm Hb Hj) as (_ & x & _ & _ & ->). simpl. by eexists.
  - intros j Hj _ _. destruct (entry_get k _ _ j (c_regs _ Hk) Hm Hb Hj) as (_ & x & _ & _ & ->). done.
Qed.

Lemma access_ok R c e a : st (body a :: R) c e → req_ok k cores a →
  wp (access k c e a) (λ '(c', e', leaves), st (if leaves then R else body a :: R) c' e' ∧ pipe c' = pipe c).
Proof.
  intros Hst Ha. unfold access. destruct (stalled_ok c e a (st_ok _ _ _ Hst)) as [stall ->]. cbn [rbind].
  destruct stall; [done|]. eapply wp_bind, wp_mono; [by apply (lookup_line_ok (body a :: R))|].
  intros [[c1 e1] line] (Hst1 & [Ep1 _] & Hline). apply wp_bind.
  apply (wp_mono _ (λ '(c', e', leaves, _), st (if leaves : bool then R else body a :: R) c' e' ∧ pipe c' = pipe c)).
  - destruct line as [p|].
    + eapply wp_bind, wp_mono; [by apply (access_hit_ok R)|]. intros [[c2 e2] leaves] [Hst2 Ep2]. simpl.
      split; [done|congruence].
    + eapply wp_mono; [by apply (access_miss_ok R)|]. intros [[[c2 e2] leaves] missed] [Hst2 Ep2]. split; [done|congruence].
  - intros [[[c2 e2] leaves] missed] [Hst2 Ep2]. destruct leaves; [|done].
    eapply wp_bind, wp_mono; [apply (prefetch_after_ok R); [done|apply Ha]|]. intros c3 [Hst3 [Ep3 _]]. simpl. split; [done|congruence].
Qed.

(** The requests in the pipe. *)
Definition inv c e : Prop := st (body <$> queued (pipe c)) c e.

Lemma pipe_bank_ok bank c e found : 0 ≤ bank < banks k → inv c e →
  wp (pipe_bank k bank c e found) (λ '(c', e', found'), inv c' e' ∧
    (found' = true ∨ found' = found ∧ c' = c ∧ aget (nums (pipe c)) bank = Ok 0)).
Proof.
  intros Hb Hst. unfold pipe_bank. pose proof (st_ok _ _ _ Hst) as Hok. pose proof (ok_pipe _ _ _ Hok) as Hp.
  destruct (pipes_bank _ _ _ _ _ Hp Hb) as (l & n & _ & _ & _ & En & _). rewrite En. simpl.
  destruct (Z.eqb_spec n 0) as [->|Hne]; [by split; [|right]|].
  destruct (bank_remove_ok _ _ _ _ _ n Hp Hb En Hne) as (a & Er & [Ha _] & Hin & Hrem). rewrite Er. cbn [rbind].
  simpl in Ha. rewrite Ha. destruct (_ <=? _); [|by split; [|left]].
  pose proof (proj1 (list.Forall_forall _ _) (ok_reqs _ _ _ Hok) a Hin) as Hreq.
  apply wp_exists in Hrem as (p & Erem & Hp' & Hq).
  assert (st (body a :: (body <$> queued p)) c e) as Hst1.
  { eapply st_perm; [|exact Hst]. by rewrite Hq. }
  eapply wp_bind, wp_mono; [by apply access_ok|]. intros [[c1 e1] leaves] [Hst2 Ep]. destruct leaves.
  - cbn beta iota. rewrite Ep, Erem. simpl. split; [|by left]. unfold inv. simpl.
    eapply st_change; [exact Hst2| |done|done|].
    + pose proof (st_ok _ _ _ Hst2) as Hok2.
      assert (slots_all unlinked p) as Hs.
      { pose proof (remove_all unlinked (λ x Hx, Hx) (pipe c) bank (ok_slots _ _ _ Hok)) as Hs.
        rewrite Erem in Hs. by apply Hs. }
      assert (Forall (req_ok k cores) (queued p)) as Hr.
      { pose proof (ok_reqs _ _ _ Hok) as Hr. rewrite Hq in Hr. by apply list.Forall_cons in Hr as [_ ?]. }
      by destruct Hok2; split.
    + intros [S1 S2 S3 S4]. split; try done. destruct S1 as [|Hnil]; [by left|]. rewrite <- Ep, Hnil in Hq.
      by apply Permutation_nil_cons in Hq.
  - simpl. split; [|by left]. unfold inv. rewrite Ep. eapply st_perm; [|exact Hst2]. by rewrite Hq.
Qed.

Lemma cache_process_pipe_ok start c e : inv c e → wp (cache_process_pipe k start c e) (λ '(c', e'), inv c' e').
Proof.
  intros Hst. unfold cache_process_pipe. destruct (c_banks _ Hk) as [Hb1 Hb2]. apply wp_bind.
  apply (wp_mono _ (λ '(c', e', f), inv c' e' ∧ (f = true ∨ queued (pipe c') = []))).
  - destruct (check_for_pipe_work (flags c)) eqn:Eflag.
    2: { split; [done|]. destruct (s_pipe _ (st_sound _ _ _ Hst)); [congruence|by right]. }
    apply (wp_for_range (λ n '(c', e', f), inv c' e' ∧
      (f = true ∨ c' = c ∧ ∀ b, 0 ≤ b < n → aget (nums (pipe c)) (nth_bank start b (banks k)) = Ok 0))).
    + lia.
    + split; [done|]. right. split; [done|lia].
    + intros b [[c' e'] f] Hb [Hst' Hf]. eapply wp_mono; [by apply pipe_bank_ok; [by apply nth_bank_range|]|].
      intros [[c'' e''] f''] [Hst'' Hf'']. split; [done|]. destruct Hf'' as [->|(-> & -> & Hz)]; [by left|].
      destruct Hf as [->|[-> Hf]]; [by left|]. right. split; [done|]. intros b' Hb'.
      destruct (decide (b' = b)) as [->|]; [done|]. apply Hf. lia.
    + intros [[c' e'] f] [Hst' Hf]. split; [done|]. destruct Hf as [->|[-> Hf]]; [by left|]. right.
      eapply queued_empty; [apply (st_ok _ _ _ Hst)|]. intros bank Hbank.
      destruct (nth_bank_cover start _ bank (proj1 (c_pow2 _ Hk)) Hbank) as (b & Hb & <-). by apply Hf.
  - intros [[c' e'] f] [Hst' Hf]. apply st_with_flags; [done|]. intros []. by split.
Qed.

(** ** Requests to the next level *)

Lemma set_entry_frame m b i a m' b' i' : set_entry m b i a = Ok m' → (b, i) ≠ (b', i') →
  aget2 (MSHR m') b' i' = aget2 (MSHR m) b' i'.
Proof.
  unfold set_entry. intros Es Hne. apply bind_Ok_inv in Es as (es & Ees & [= <-]). by eapply aget2_aset2_ne.
Qed.

(** A request at [i] that waits to go. *)
Definition waits m (bank i : Z) : Prop :=
  0 ≤ i < MSHR_size k ∧ ∃ a, aget2 (MSHR m) bank i = Ok a ∧ is_waiting a = true ∧ alive a = true.

Lemma notify_ok T cyc m0 m e b i a : regs_st T cyc m0 m e → 0 ≤ b < MSHR_banks k → 0 ≤ i < MSHR_size k →
  aget2 (MSHR m) b i = Ok a →
  wp (notify_untranslated b i m e a) (λ '(m', e'), regs_st T cyc m0 m' e' ∧
    (∀ j, waits m b j → waits m' b j) ∧ ∃ a', aget2 (MSHR m') b i = Ok a' ∧ (a' = a ∨ a' = with_miss_cb_invoked a)).
Proof.
  intros Hst Hb Hi Ea. pose proof (entries_get _ _ _ _ _ (rs_ids _ _ _ _ _ Hst) Ea) as Hact. pose proof (a_id _ _ _ Hact) as Hid.
  unfold notify_untranslated.
  destruct (_ && _); [|by split; [|split; [|exists a; auto]]]. destruct (still_valid_ok e a Hid) as [v ->]. cbn [rbind].
  destruct v; [|by split; [|split; [|exists a; auto]]].
  destruct (entry_facts m b i a (rs_ok _ _ _ _ _ Hst) Hb Hi Ea) as (_ & _ & _ & Hok).
  assert (wp (set_entry m b i (with_miss_cb_invoked a)) (λ m', regs_st T cyc m0 m' e ∧
    aget2 (MSHR m') b i = Ok (with_miss_cb_invoked a) ∧ ∀ j, waits m b j → waits m' b j)) as Hw.
  { pose proof (set_same_ok T cyc m0 m e b i a (with_miss_cb_invoked a) Hst Hb Hi Ea eq_refl eq_refl eq_refl eq_refl Hok eq_refl eq_refl) as Hs.
    specialize (Hs ltac:(by destruct Hact)).
    apply wp_exists in Hs as (m' & Em & Hst' & Ea'). rewrite Em. split; [done|]. split; [done|].
    intros j (Hj & y & Ey & Hyw & Hya). split; [done|]. destruct (decide (i = j)) as [->|Hne].
    - rewrite Ea in Ey. injection Ey as <-. by exists (with_miss_cb_invoked a).
    - exists y. split; [|done]. rewrite (set_entry_frame _ _ _ _ _ _ _ Em); [done|congruence]. }
  eapply wp_bind, wp_mono; [exact Hw|]. intros m' ([Hm' Hf' Hids' He' Hc'] & Ea' & Hwaits).
  eapply wp_bind, wp_mono; [by apply (invoke_miss_cb_ok (T ++ missing m') (flying m'))|]. intros e' [He2 Hc2]. simpl.
  split; [split; [done..|congruence]|]. split; [done|]. exists (with_miss_cb_invoked a). auto.
Qed.

Lemma can_go_waiting e a : type a ≠ MSHR_WRITEBACK → can_go e a = true → is_waiting a = true ∧ alive a = true.
Proof.
  unfold can_go, is_waiting. intros Ht [[Ha Hs]%andb_true_iff _]%andb_true_iff. by rewrite (miss_kind a Ht Ha), Hs.
Qed.

Lemma oldest_request_ok T cyc m0 bank m e : regs_st T cyc m0 m e → 0 ≤ bank < MSHR_banks k →
  wp (oldest_request k bank m e) (λ '(m', e', i), regs_st T cyc m0 m' e' ∧
    match i with Some i => waits m' bank i | None => True end).
Proof.
  intros Hst Hb. unfold oldest_request. destruct (c_regs _ Hk) as [_ Hsize]. apply wp_bind.
  apply (wp_for_range (λ n '(m, e, _, i), regs_st T cyc m0 m e ∧ match i with Some i => waits m bank i | None => True end)).
  - lia.
  - done.
  - intros j [[[m1 e1] oldest] i] Hj [Hst1 Hi].
    destruct (entry_get k m1 bank j (c_regs _ Hk) (rs_ok _ _ _ _ _ Hst1) Hb Hj) as (_ & a & _ & _ & Ea). rewrite Ea.
    cbn [rbind]. destruct (bool_decide (type a = MSHR_WRITEBACK)) eqn:Et; [done|]. apply bool_decide_eq_false in Et.
    destruct (can_go e1 a && (when_enqueued a <? oldest)) eqn:Eg;
      (eapply wp_bind, wp_mono; [by apply notify_ok|]; intros [m2 e2] (Hst2 & Hw & _); simpl; split; [done|]).
    + apply andb_true_iff in Eg as [Eg _]. apply Hw. split; [done|]. exists a. split; [done|]. by eapply can_go_waiting.
    + destruct i; [by apply Hw|done].
  - intros [[[m1 e1] oldest] i] Hi. done.
Qed.

Lemma issue_ok T cyc m0 bank i m e a : regs_st T cyc m0 m e → 0 ≤ bank < MSHR_banks k → 0 ≤ i < MSHR_size k →
  aget2 (MSHR m) bank i = Ok a → is_waiting a = true → alive a = true →
  wp (issue k now bank i m e a) (λ '(m', e', _), regs_st T cyc m0 m' e').
Proof.
  intros Hst Hb Hi Ea Hw Ha. pose proof Hst as [Hm Hfrom Hids He Hc]. unfold issue.
  destruct (entry_facts m bank i a Hm Hb Hi Ea) as (x & Hx & Ex & Hok). pose proof Hok as (_ & Hl & Hbank & _). rewrite Hl.
  pose proof (entries_get _ _ _ _ _ Hids Ea) as Hact. pose proof (a_id _ _ _ Hact) as Hid.
  pose proof Hw as [_ Hs0%Z.eqb_eq]%andb_true_iff.
  eapply wp_bind, wp_mono; [by apply (env_send_request (T ++ missing m) (flying m)); try done; apply Hbank|].
  intros [[e' a'] sent] (He' & Hc' & ->). destruct sent; cbn [rbind].
  - pose proof (start_miss_ok k now m bank x i a Hm Hb Hx Hi Ex Hw now_max) as Hs. unfold start_entry in Hs.
    rewrite Ea in Hs. cbn [rbind] in Hs. apply wp_bind_inv in Hs. eapply wp_bind, wp_mono; [exact Hs|].
    intros m1 Hs1. eapply wp_bind, wp_mono; [exact Hs1|]. intros m2 [Hm2 Hrep].
    destruct (same_picked m m2 bank i a (with_started now a) Hrep eq_refl eq_refl eq_refl) as [Hp Hq].
    assert (env_ok (T ++ missing m2) (flying m2) e') as He2.
    { rewrite <- Hp. eapply env_ok_perm; [done| |exact He']. apply (take_off bank i a); [done..|].
      by eapply flying_replaced; [apply Hb|]. }
    eapply wp_bind, wp_mono; [by apply invoke_miss_cb_ok|]. intros e2 [He3 Hc3]. simpl.
    split; [done| |by eapply entries_replaced; [..|by apply sent_act_ok]|done|congruence]. etransitivity; [exact Hfrom|by apply shrinks_perm].
  - eapply wp_bind, wp_mono; [apply (set_same_ok T cyc m0 m e' bank i a a); try done|].
    + by split; [done..|congruence].
    + intros m1 [Hst1 _]. done.
Qed.

Lemma nums_at m b : mshrs_ok k m → 0 ≤ b < MSHR_banks k →
  ∃ n w u, aget (MSHR_num m) b = Ok n ∧ aget (MSHR_WB_num m) b = Ok w ∧ aget (MSHR_unprocessed_num m) b = Ok u.
Proof.
  intros Hm Hb. destruct (at_exists _ m b (proj1 Hm) Hb) as (x & _ & H2 & _ & _ & H5 & H6).
  exists (b_num x), (b_wb x), (b_un x). by rewrite !(aget_lookup _ _ _ (proj1 Hb) H2), (aget_lookup _ _ _ (proj1 Hb) H5), (aget_lookup _ _ _ (proj1 Hb) H6).
Qed.

(** The three components that the requests change. *)
Definition good_st (T : list action) (cyc : Z) (m0 : mshrs) (s : mshrs * E * bool) : Prop := let '(m, e, _) := s in regs_st T cyc m0 m e.

(** A bank is found to have work, or has no requests and is left as it is. *)
Definition seen (bank : Z) (s s' : mshrs * E * bool) (stop : bool) : Prop :=
  s'.2 = true ∨ s' = s ∧ stop = false ∧ aget (MSHR_num s.1.1) bank = Ok 0.

Lemma issue_seen T cyc m0 bank i m e a s : regs_st T cyc m0 m e → 0 ≤ bank < MSHR_banks k → 0 ≤ i < MSHR_size k →
  aget2 (MSHR m) bank i = Ok a → is_waiting a = true → alive a = true →
  wp (let* '(m, e, sent) := issue k now bank i m e a in Ok (m, e, true, sent)) (λ '(s', stop), good_st T cyc m0 s' ∧ seen bank s s' stop).
Proof.
  intros Hst Hb Hi Ea Hw Ha. eapply wp_bind, wp_mono; [by apply (issue_ok T cyc m0)|].
  intros [[m2 e2] sent] Hst2. split; [done|by left].
Qed.

Lemma request_bank_ok T cyc m0 bank s : 0 ≤ bank < MSHR_banks k → good_st T cyc m0 s →
  wp (request_bank k now bank s) (λ '(s', stop), good_st T cyc m0 s' ∧ seen bank s s' stop).
Proof.
  destruct s as [[m e] found]. intros Hb Hst. unfold request_bank. simpl in Hst.
  destruct (nums_at m bank (rs_ok _ _ _ _ _ Hst) Hb) as (n & w & u & En & _ & ->). rewrite En. cbn [rbind].
  destruct (Z.eqb_spec n 0) as [->|]; [by split; [|right]|].
  case_match; [by split; [|left]|]. eapply wp_bind, wp_mono; [by apply oldest_request_ok|].
  intros [[m1 e1] [i|]] [Hst1 Hi]; [|by split; [|left]]. destruct Hi as (Hi & a & Ea & Hw & Ha). rewrite Ea. cbn [rbind]. rewrite Ha.
  by apply issue_seen.
Qed.

Lemma request_bank_of_ok T cyc m0 cm bank s : 0 ≤ bank < MSHR_banks k → good_st T cyc m0 s →
  wp (request_bank_of k cm now bank s) (λ '(s', stop), good_st T cyc m0 s' ∧ seen bank s s' stop).
Proof.
  destruct s as [[m e] found]. intros Hb Hst. unfold request_bank_of. simpl in Hst.
  destruct (nums_at m bank (rs_ok _ _ _ _ _ Hst) Hb) as (n & w & u & En & _ & ->). rewrite En. cbn [rbind].
  destruct (Z.eqb_spec n 0) as [->|]; [by split; [|right]|]. case_match; [by split; [|left]|].
  eapply wp_bind, wp_mono; [apply find_oldest_ok; [apply Hk|apply Hst|done|by eexists]|].
  intros [i|]; [|by split; [|left]]. intros (a & Hi & Ea & [= Hgo] & _). rewrite Ea. cbn [rbind].
  apply andb_true_iff in Hgo as [[Ht%bool_decide_eq_true Hcm]%andb_true_iff Hgo].
  destruct (can_go_waiting e a Ht Hgo) as [Hw Ha].
  assert (untranslated e a = false) as Hu by (apply andb_true_iff in Hgo as [_ Hgo]; by apply negb_true_iff in Hgo).
  rewrite Hu, andb_false_r. cbn [negb orb guard_or rbind]. unfold notify_untranslated. rewrite Hu, andb_false_r.
  cbn [andb rbind]. rewrite Ea. cbn [rbind]. rewrite Hcm, Ha. cbn [andb guard_or rbind]. by apply issue_seen.
Qed.

(** A loop with a [break]. *)
Lemma wp_until_loop {A} (I : Z → A → Prop) (Q : A → Prop) n lo f (x : A) : I lo x →
  (∀ i y, lo ≤ i < lo + Z.of_nat n → I i y → wp (f i y) (λ '(y', stop), if stop : bool then Q y' else I (i + 1) y')) →
  (∀ y, I (lo + Z.of_nat n) y → Q y) →
  wp (until_loop n lo f x) (λ '(y, _), Q y).
Proof.
  revert lo x. induction n as [|n IH]; intros lo x Hx Hf HQ; simpl; [apply HQ; by rewrite Z.add_0_r|].
  eapply wp_bind, wp_mono; [apply Hf; [lia|done]|]. intros [y [|]] Hy; [done|]. apply IH; [done| |].
  - intros i z Hi. apply Hf. lia.
  - intros z Hz. apply HQ. by replace (lo + Z.of_nat (S n)) with (lo + 1 + Z.of_nat n) by lia.
Qed.

(** MSHRs whose banks count no request have none. *)
Lemma no_requests m : mshrs_ok k m → (∀ bank, 0 ≤ bank < MSHR_banks k → aget (MSHR_num m) bank = Ok 0) → missing m = [].
Proof.
  intros Hm H0. apply (picked_none k); [|done]. intros bank i a Hb Hi Ea.
  destruct (entry_facts m bank i a Hm Hb Hi Ea) as (x & Hx & _). pose proof Hx as (_ & Hnum & _).
  specialize (H0 bank Hb). rewrite (aget_lookup _ _ _ (proj1 Hb) Hnum) in H0. injection H0 as H0.
  rewrite (bk_num _ _ _ (proj2 Hm bank x Hb Hx)) in H0. by apply (count_none_at is_miss m bank x Hm Hb Hx H0 i).
Qed.

(** There is work, or there are no requests. *)
Definition settled (T : list action) (cyc : Z) (m0 : mshrs) (s : mshrs * E * bool) : Prop :=
  good_st T cyc m0 s ∧ (s.2 = true ∨ missing s.1.1 = []).

Lemma request_banks_ok T cyc m0 start f s : good_st T cyc m0 s →
  (∀ bank s, 0 ≤ bank < MSHR_banks k → good_st T cyc m0 s → wp (f bank s) (λ '(s', stop), good_st T cyc m0 s' ∧ seen bank s s' stop)) →
  wp (request_banks k start f s) (λ '(s', _), settled T cyc m0 s').
Proof.
  intros Hs Hf. destruct (c_regs _ Hk) as [Hbanks _].
  apply (wp_until_loop (λ n s', good_st T cyc m0 s' ∧
    (s'.2 = true ∨ s' = s ∧ ∀ b, 0 ≤ b < n → aget (MSHR_num s.1.1) (nth_bank start b (MSHR_banks k)) = Ok 0))).
  - split; [done|]. right. split; [done|lia].
  - intros b y Hb [Hy Hseen]. eapply wp_mono; [by apply Hf; [by apply nth_bank_range|]|]. intros [y' stop] [Hy' Hs'].
    destruct Hs' as [Ht|(-> & -> & H0)]; [by destruct stop; (split; [done|]; left)|]. split; [done|].
    destruct Hseen as [|[-> Hseen]]; [by left|]. right. split; [done|]. intros b' Hb'.
    destruct (decide (b' = b)) as [->|]; [done|]. apply Hseen. lia.
  - intros y [Hy [Ht|[-> H0]]]; (split; [done|]); [by left|]. right. destruct s as [[m e] found].
    apply no_requests; [apply Hs|]. intros bank Hbank.
    destruct (nth_bank_cover start _ bank (proj2 (c_pow2 _ Hk)) Hbank) as (b & Hb & <-). apply H0. lia.
Qed.

Lemma request_by_kind_ok T cyc m0 start cmds s : (if decide (cmds = []) then settled T cyc m0 s else good_st T cyc m0 s) →
  wp (request_by_kind k now start cmds s) (settled T cyc m0).
Proof.
  revert s. induction cmds as [|cm cmds IH]; intros s Hs; simpl; [done|]. rewrite decide_False in Hs by done.
  eapply wp_bind, wp_mono; [apply (request_banks_ok T cyc m0); [done|intros; by apply request_bank_of_ok]|].
  intros [s' [|]] Hs'; [done|]. apply IH. case_decide; [done|apply Hs'].
Qed.

(** The bus is busy: only whether there is work is found out. *)
Lemma busy_ok T cyc m0 start m e : regs_st T cyc m0 m e →
  wp (find_range 0 (MSHR_banks k) (λ b, let* n := aget (MSHR_num m) (nth_bank start b (MSHR_banks k)) in Ok (negb (n =? 0))))
    (λ b, settled T cyc m0 (m, e, bool_decide (b ≠ None))).
Proof.
  intros Hr. destruct (c_regs _ Hk) as [Hbanks _].
  assert (∀ b, ∃ n, aget (MSHR_num m) (nth_bank start b (MSHR_banks k)) = Ok n) as Hn.
  { intros b. destruct (nums_at m _ (rs_ok _ _ _ _ _ Hr) (nth_bank_range start b _ Hbanks)) as (n & _ & _ & -> & _). by eexists. }
  apply wp_find_range; [lia| | |].
  - intros b Hb. destruct (Hn b) as [n ->]. by eexists.
  - intros b Hb _ _. split; [done|by left].
  - intros Hno. split; [done|]. right. apply no_requests; [apply Hr|]. intros bank Hbank.
    destruct (nth_bank_cover start _ bank (proj2 (c_pow2 _ Hk)) Hbank) as (b & Hb & <-).
    specialize (Hno b ltac:(lia)). destruct (Hn b) as [n En]. rewrite En in *. simpl in Hno. injection Hno as Hno%negb_false_iff%Z.eqb_eq.
    by subst.
Qed.

Lemma occupancy_ok c : cache_ok k cores c → ∃ n, occupancy k c = Ok n.
Proof.
  intros Hok. destruct (c_regs _ Hk) as [Hbanks _]. assert (wp (occupancy k c) (λ _, True)) as Hw.
  { apply (wp_for_range (λ _ _, True)); [lia|done| |done]. intros b t Hb _.
    by destruct (nums_at (regs c) b (ok_regs _ _ _ Hok) Hb) as (n & w & u & -> & -> & _). }
  apply wp_exists in Hw as (n & -> & _). by eexists.
Qed.

Lemma cache_process_MSHR_ok start c e : inv c e → wp (cache_process_MSHR k start c e) (λ '(c', e'), inv c' e').
Proof.
  intros Hst. pose proof (st_now _ _ _ Hst) as Hn. unfold cache_process_MSHR. rewrite Hn.
  set (T := body <$> queued (pipe c)). pose proof (st_regs _ _ _ Hst) as Hr. fold T in Hr.
  destruct (c_regs _ Hk) as [Hbanks _]. apply wp_bind.
  apply (wp_mono _ (settled T (uncore_cycle e) (regs c))).
  - destruct (check_for_MSHR_work (flags c)) eqn:Eflag.
    2: { split; [done|]. right. destruct (s_miss _ (st_sound _ _ _ Hst)); [congruence|done]. }
    case_match.
    + destruct (MSHR_cmd_order k) as [cmds|] eqn:Eo.
      { apply request_by_kind_ok. rewrite decide_False; [done|]. intros ->. by apply (c_order _ Hk). }
      eapply wp_bind, wp_mono; [apply (request_banks_ok T (uncore_cycle e) (regs c)); [done|intros; by apply request_bank_ok]|].
      by intros [s' sent].
    + eapply wp_bind, wp_mono; [by apply (busy_ok T (uncore_cycle e) (regs c))|done].
  - intros [[m' e'] found] [Hr' Hfound]. simpl in Hr', Hfound.
    assert (inv (with_flags (set_MSHR_work found) (with_regs m' c)) e') as Hst'.
    { apply st_with_flags; [by eapply st_with_regs|]. intros []. by split. }
    destruct (occupancy_ok _ (st_ok _ _ _ Hst')) as [total ->]. cbn [rbind wp].
    unfold inv. destruct (cache_stat_fields (count_occupancy total (total =? MSHR_banks k * MSHR_size k))
      (with_flags (set_MSHR_work found) (with_regs m' c))) as (-> & _). by apply st_stat.
Qed.

Lemma stages_ok start c e : inv c e → wp (stages k start c e) (λ '(c', e'), inv c' e').
Proof.
  intros Hst. unfold stages.
  eapply wp_bind, wp_mono; [by apply cache_process_MSHR_WB_ok|]. intros [c1 e1] [Hst1 Ep1]. rewrite <- Ep1 in Hst1.
  eapply wp_bind, wp_mono; [by apply cache_process_MSHR_fill_ok|]. intros [c2 e2] [Hst2 Ep2]. rewrite <- Ep2 in Hst2.
  eapply wp_bind, wp_mono; [by apply cache_process_fills_ok|]. intros [c3 e3] [Hst3 Ep3]. rewrite <- Ep3 in Hst3.
  eapply wp_bind, wp_mono; [by apply cache_process_pipe_ok|]. intros [c4 e4] Hst4. by apply cache_process_MSHR_ok.
Qed.

End stages.
End cache_stages.
