(* ===== verification/CacheRun.v ===== *)
(** * CacheRun: no request is lost

    What the clients and the next level do to a cache between its cycles, and the run
    of a cache in an environment that records what it is told: nothing fails, and every
    request that was accepted is answered exactly once or is still in the cache.

    A new cache (cache_create of zesto-cache.cpp) run for any number of cycles, with
    requests, answers of the next level and prefetches in between, in an environment
    that decides as it likes and records what it is told. *)

From S2P Require Import Prelude Misc CacheSet CacheRepl CachePolicy CacheSafety CacheHeap CacheState CacheMSHR CachePipes CachePrefetch Prefetch CacheProcess CacheInv CacheStages.

Module cache_cycle.
Import cache_state cache_mshr cache_pipes cache_prefetch cache_process cache_inv cache_stages.

(** A cache that is not to be processed has no flag up. *)
Definition rested (f : work_flags) : Prop :=
  check_for_work f = true ∨ check_for_MSHR_fill_work f = false ∧ check_for_fill_work f = false ∧
    check_for_pipe_work f = false ∧ check_for_MSHR_work f = false ∧ check_for_MSHR_WB_work f = false.

Lemma summarize_rested f : rested (summarize f).
Proof. destruct f as [w [] [] [] [] []]; (by left) || by right. Qed.

Section cycle.
Context {E : Type} `{CacheEnv E}.
Variables (k : params) (cores : roster).
Hypothesis Hk : config_ok k.
Implicit Types (c : cache) (e : E) (a : action).

(** ** What is done to a cache between its cycles *)

(** The cache between two cycles. *)
Record at_rest c : Prop := {
  t_ok : cache_ok k cores c;
  t_sound : sound c;
  t_rested : rested (flags c)
}.

(** There is nothing to do in a cache that is not to be processed. *)
Lemma asleep_empty c : at_rest c → check_for_work (flags c) = false →
  outstanding c = [] ∧ queued (fills c) = [] ∧ writing (regs c) = [].
Proof.
  intros [_ [S1 S2 S3 S4] Hr] Hw. unfold rested in Hr. destruct Hr as [|(_ & E1 & E2 & E3 & E4)]; [congruence|].
  rewrite E1, E2, E3, E4 in *. destruct S1 as [|S1], S2 as [|S2], S3 as [|S3], S4 as [|S4]; try done.
  unfold outstanding. by rewrite S1, S3.
Qed.

Definition in_time (t : Z) : Prop := 0 ≤ t ∧ t + latency k < TICK_T_MAX.

(** The cycle that [cache_process] simulates. *)
Definition next_cycle c e : Z := if is_LLC k then uncore_cycle e else sim_cycle c + 1.

(** A request as the clients hand it over. *)
Definition new_action core prev cmd PC paddr id bank index op cb miss_cb translated_cb get_action_id hint : action :=
  mk_action core op id PC paddr MSHR_MISS bank index false cmd prev cb miss_cb translated_cb get_action_id 0 0 0 0 None false hint.

(** What makes a request acceptable does not depend on what its slot held. *)
Lemma req_ok_body a a' : body a = body a' → MSHR_link a = None → req_ok k cores a' → req_ok k cores a.
Proof.
  intros Hb Hl [Ha _ Hp Hw Hid Hr Hc]. unfold body in Hb.
  injection Hb as E1 E2 E3 E4 E5 E6 E7 E8 E9 E10 E11 E12 E13 E14.
  split; unfold alive, has_id in *; rewrite ?E1, ?E2, ?E5, ?E6, ?E8, ?E10, ?E13; done.
Qed.

Lemma enqueuable_ok c paddr : cache_ok k cores c → ∃ b, cache_enqueuable k c paddr = Ok b.
Proof.
  intros Hc. unfold cache_enqueuable.
  destruct (pipes_bank _ _ _ _ _ (ok_pipe _ _ _ Hc) (bank_of_range k Hk paddr)) as (l & n & _ & _ & _ & En & _).
  rewrite En. by eexists.
Qed.

(** A request joins those that are owed an answer. *)
Lemma enqueue_ok c e core prev cmd PC paddr id bank index op cb miss_cb tr gid hint :
  let a := new_action core prev cmd PC paddr id bank index op cb miss_cb tr gid hint in
  cache_ok k cores c → sound c → req_ok k cores a → in_time (cache_get_cycle k c e) →
  cache_enqueuable k c paddr = Ok true →
  wp (cache_enqueue k c e core prev cmd PC paddr id bank index op cb miss_cb tr gid hint)
    (λ c', at_rest c' ∧ sim_cycle c' = sim_cycle c ∧ outstanding c' ≡ₚ a :: outstanding c ∧ regs c' = regs c).
Proof.
  intros a Hok Hso Ha Ht Hroom. unfold cache_enqueue.
  destruct (pipes_bank _ _ _ _ _ (ok_pipe _ _ _ Hok) (bank_of_range k Hk paddr)) as (l & n & El & En & Gl & Gn & Hbank).
  unfold cache_enqueuable in Hroom. rewrite Gn in Hroom. injection Hroom as Hlt%Z.ltb_lt. rewrite Gl, Gn. cbn [rbind].
  destruct Hbank as (Hheap & Hlen & Hn). pose proof (cache_heap.heap_len _ _ Hheap). pose proof (c_heap _ Hk).
  destruct (aget_ok l (n + 1)) as (old & Eold & Gold); [lia|]. rewrite Gold. cbn [rbind].
  pose proof (r_alive _ _ _ Ha) as Halive. assert (bool_decide (cb ≠ None) = true) as -> by exact Halive. cbn [guard_or rbind].
  assert (unlinked old) as [Hl1 Hl2].
  { eapply Forall_lookup_1; [|exact Eold]. eapply Forall_lookup_1; [exact (ok_slots _ _ _ Hok)|exact El]. }
  set (x := mk_action _ _ _ _ _ _ _ _ _ _ _ _ _ _ _ _ _ _ _ _ _ _).
  assert (body x = a) as Hx by done. assert (cache_heap.in_use x) as Hux by (split; [exact Halive|simpl; unfold in_time in Ht; lia]).
  pose proof (bank_insert_ok (banks k) _ (latency k) (c_heap _ Hk) (pipe c) _ x (ok_pipe _ _ _ Hok) (bank_of_range k Hk paddr) Hux) as Hi.
  specialize (Hi ltac:(intros n' En'; rewrite Gn in En'; by injection En' as <-)).
  pose proof (insert_all unlinked (heap_size k) (pipe c) (GET_BANK k paddr) x (ok_slots _ _ _ Hok) (conj Hl1 Hl2)) as Hs.
  destruct (bank_insert _ _ _ x) as [p|]; [|done]. specialize (Hs I). simpl in Hs. destruct Hi as [Hp Hq]. cbn [rbind wp].
  assert (outstanding (with_flags mark_pipe (with_pipe p c)) ≡ₚ a :: outstanding c) as Hout.
  { unfold outstanding. simpl. rewrite Hq. by rewrite fmap_cons, Hx. }
  split; [|split; [done|split; [exact Hout|done]]]. split.
  - assert (Forall (req_ok k cores) (queued p)) as Hr.
    { rewrite Hq. constructor; [|apply Hok]. by apply (req_ok_body x a). }
    by destruct Hok; split.
  - destruct Hso. split; try done. by left.
  - by left.
Qed.

(** Prefetches join the pipe when it has room. *)
Lemma cache_prefetch_ok c e allowed : at_rest c → in_time (cache_get_cycle k c e) →
  wp (cache_prefetch k allowed c e) (λ c', at_rest c' ∧ sim_cycle c' = sim_cycle c ∧ regs c' = regs c ∧
    (outstanding c' ≡ₚ outstanding c ∨
     ∃ r, cmd r = CACHE_PREFETCH ∧ prev_cp r = None ∧ op r = None ∧ outstanding c' ≡ₚ r :: outstanding c)).
Proof.
  intros Hi Ht. pose proof Hi as [Hok Hso _]. unfold cache_prefetch. destruct (PFQ c) as [q|] eqn:Eq; [|by repeat (split; [done|]); left].
  destruct (allowed && negb (PFF_num q =? 0)) eqn:Eg; [|by repeat (split; [done|]); left].
  apply andb_true_iff in Eg as [_ Hne%negb_true_iff%Z.eqb_neq].
  destruct (ok_prefetch _ _ _ Hok) as [Hps Hq]. rewrite Eq in Hq. destruct Hq as [Hq Hcores].
  pose proof (fifo_pop_ok q Hq ltac:(destruct Hq; lia)) as Hpop.
  destruct (fifo_pop q) as [q'|] eqn:Epop; [|done]. destruct Hpop as (Hq' & r & Er & Equ). rewrite Er. cbn [rbind].
  rewrite Equ in Hcores. apply list.Forall_cons in Hcores as [Hcore Hcores].
  destruct (mshrs_bank k (regs c) (cache_prefetch.r_addr r) (c_regs _ Hk) (ok_regs _ _ _ Hok)) as (x & (_ & H2 & H3 & _) & _).
  pose proof (bank_range k (cache_prefetch.r_addr r) (proj1 (c_regs _ Hk))) as [Hb _].
  rewrite (aget_lookup _ _ _ Hb H2), (aget_lookup _ _ _ Hb H3). cbn [rbind].
  destruct (_ && _); [|by repeat (split; [done|]); left]. destruct (enqueuable_ok c (cache_prefetch.r_addr r) Hok) as [room Eroom]. rewrite Eroom. cbn [rbind].
  destruct room; [|by repeat (split; [done|]); left].
  set (a := new_action (cache_prefetch.r_core r) None CACHE_PREFETCH (r_PC r) (cache_prefetch.r_addr r) (u64 (-1))
    (GET_MSHR_BANK k (cache_prefetch.r_addr r)) NO_MSHR None (Some dummy_callback) None None None false).
  pose proof (enqueue_ok c e (cache_prefetch.r_core r) None CACHE_PREFETCH (r_PC r) (cache_prefetch.r_addr r) (u64 (-1))
    (GET_MSHR_BANK k (cache_prefetch.r_addr r)) NO_MSHR None (Some dummy_callback) None None None false Hok Hso) as Henq.
  eapply wp_bind, wp_mono; [apply Henq|].
  - split; try done. by intros [].
  - done.
  - done.
  - intros c' ([Hok' Hs' Hr'] & Hc' & Ho' & Er'). simpl. split; [|split; [done|split; [done|right; by exists a]]].
    split; [|by apply (sound_same c')|done]. destruct (ok_prefetch _ _ _ Hok') as [Hps' _].
    assert (prefetch_ok cores (prefetchers c') (Some q')) as Hpf.
    { done. }
    by destruct Hok'; split.
Qed.

(** The answer of the next level to an entry it has been sent. *)
Definition cache_fill_arrived c e (bank index delay : Z) : result cache :=
  let* m := fill_arrived k (cache_get_cycle k c e) (regs c) bank index delay in
  Ok (with_flags mark_arrived (with_regs m c)).

Lemma returned_act_ok t a : act_ok k cores a → when_started a ≠ TICK_T_MAX → act_ok k cores (with_returned t a).
Proof. intros [] Hs. by split. Qed.

(** The entry has been answered: if it was in flight, it has landed. *)
Lemma arrived_ok c e bank index delay a : at_rest c →
  0 ≤ bank < MSHR_banks k → 0 ≤ index < MSHR_size k → aget2 (MSHR (regs c)) bank index = Ok a → is_waiting a = false →
  when_started a ≠ TICK_T_MAX → cache_get_cycle k c e + delay ≠ TICK_T_MAX →
  wp (cache_fill_arrived c e bank index delay) (λ c', at_rest c' ∧ sim_cycle c' = sim_cycle c ∧
    outstanding c' ≡ₚ outstanding c ∧ flying (regs c) ≡ₚ fly bank index a ++ flying (regs c')).
Proof.
  intros [Hok Hso Hre] Hb Hi Ea Hw Hstarted Hdelay. pose proof (ok_regs _ _ _ Hok) as Hm. unfold cache_fill_arrived.
  destruct (entry_facts k Hk (regs c) bank index a Hm Hb Hi Ea) as (x & Hx & Ex & _).
  eapply wp_bind, wp_mono; [by apply (fill_arrived_ok k _ delay (regs c) bank x index a)|]. intros m' [Hm' Hrep]. simpl.
  set (a' := if alive a then with_returned (cache_get_cycle k c e + delay) a else a) in Hrep.
  assert (body a' = body a ∧ is_miss a' = is_miss a ∧ is_wb a' = is_wb a) as (Eb & Em & Ew) by (unfold a'; by case_match).
  destruct (same_picked k (regs c) m' bank index a a' Hrep Eb Em Ew) as [Hp Hq].
  assert (outstanding (with_flags mark_arrived (with_regs m' c)) ≡ₚ outstanding c) as Ho by (unfold outstanding; simpl; by rewrite <- Hp).
  assert (flying (regs c) ≡ₚ fly bank index a ++ flying m') as Hf.
  { pose proof (flying_replaced k _ _ _ _ _ _ (proj1 Hb) Hrep) as Hf. rewrite (fly_out _ _ a') in Hf; [done|].
    unfold a', in_flight. destruct (alive a) eqn:Ea1; [|by rewrite Ea1]. cbn [when_returned with_returned].
    by rewrite (proj2 (Z.eqb_neq _ _) Hdelay), andb_false_r. }
  split; [|done]. split.
  - assert (entries_all (act_ok k cores) m') as Hids.
    { eapply entries_replaced; [exact (ok_ids _ _ _ Hok)|exact Hrep|].
      pose proof (entries_get _ _ _ _ _ (ok_ids _ _ _ Hok) Ea). unfold a'. case_match; [by apply returned_act_ok|done]. }
    by destruct Hok; split.
  - assert (shrinks (regs c) m') as Hsh by by apply shrinks_perm.
    destruct (sound_shrinks c m' Hsh Hso). split; try done; by left.
  - by left.
Qed.

Lemma in_flight_started a : in_flight a = true → when_started a ≠ TICK_T_MAX ∧ is_waiting a = false.
Proof.
  unfold in_flight, is_waiting. intros [[_ Hs%negb_true_iff]%andb_true_iff _]%andb_true_iff. rewrite Hs, andb_false_r.
  by apply Z.eqb_neq in Hs.
Qed.

Lemma same_cycle c c' e : sim_cycle c' = sim_cycle c → cache_get_cycle k c' e = cache_get_cycle k c e.
Proof. unfold cache_get_cycle. by intros ->. Qed.

(** ** A cycle *)

Context {Hlaws : CacheEnvLaws E k cores}.

(** The state between two cycles. *)
Record idle c e : Prop := {
  i_rest : at_rest c;
  i_env : env_ok (outstanding c) (flying (regs c)) e
}.

Lemma cache_process_ok c e : idle c e → in_time (next_cycle c e) →
  wp (cache_process k c e) (λ '(c', e'), idle c' e' ∧ cache_get_cycle k c' e' = next_cycle c e).
Proof.
  intros Hi Ht. unfold cache_process.
  set (c1 := with_time (if is_LLC k then sim_cycle c else sim_cycle c + 1) (start_point c) c).
  assert (idle c1 e) as Hi1 by (destruct Hi as [[[] Hs Hr] He]; split; [split; [by split|by apply (sound_same c)|done]|done]).
  assert (cache_get_cycle k c1 e = next_cycle c e) as Hc1 by (unfold cache_get_cycle, next_cycle, c1; simpl; by case_match).
  destruct (negb (check_for_work (flags c1))); [done|].
  set (c2 := with_time (sim_cycle c1) (modinc (start_point c1) (banks k)) c1).
  assert (inv k cores (next_cycle c e) c2 e) as Hi2.
  { rewrite <- Hc1. destruct Hi1 as [[Hok Hso Hr] He]. split; [|done|done|by apply (sound_same c1)]. pose proof (ok_start _ _ _ Hok) as Hs.
    destruct (c_banks _ Hk). assert (0 ≤ modinc (start_point c1) (banks k) < banks k).
    { by apply modinc_range. }
    by destruct Hok; split. }
  eapply wp_bind, wp_mono; [by apply (stages_ok k cores Hk (next_cycle c e) Ht)|].
  intros [c3 e3] [Hok3 He3 Hn3 Hs3]. simpl. split; [|done].
  split; [split; [by destruct Hok3; split|by destruct Hs3; split|apply summarize_rested]|done].
Qed.

End cycle.
End cache_cycle.

Module cache_run.
Import cache_state cache_mshr cache_pipes cache_prefetch cache_process cache_inv cache_stages cache_cycle.

(** ** The recording environment *)

(** What the environment decides; the number counts the calls it has received, so
    that it may decide differently after each. *)
Record oracle : Type := mk_oracle {
  o_array : nat → option cache_set.line → controller_array_response_t;
  o_MSHR : nat → action → controller_response_t;
  o_up : nat → bool;
  o_down : nat → option Z → bool;
  o_sent : nat → action → bool;
  o_translated : nat → Z → option Z → Z → bool;
  o_id : nat → Z → Z → Z;
  o_clock : Z;
  o_magic : nat → option bool;
  o_random : nat → Z
}.

Record world : Type := mk_world {
  w_oracle : oracle;
  w_calls : nat;
  w_accepted : list action;
  w_answered : list action
}.

Definition called (w : world) : world := mk_world (w_oracle w) (S (w_calls w)) (w_accepted w) (w_answered w).

(** A request of a client, not a prefetch of this cache. *)
Definition client (a : action) : bool :=
  negb (bool_decide (cmd a = CACHE_PREFETCH) && bool_decide (prev_cp a = None) && bool_decide (op a = None)).
Definition clients (l : list action) : list action := l ≫= λ a, if client a then [a] else [].

#[export] Instance world_env : CacheEnv world := {
  check_array w l := o_array (w_oracle w) (w_calls w) l;
  check_MSHR w a := o_MSHR (w_oracle w) (w_calls w) a;
  can_schedule_upstream w := o_up (w_oracle w) (w_calls w);
  can_schedule_downstream w p := o_down (w_oracle w) (w_calls w) p;
  send_request_upstream w now b i a :=
    let sent := o_sent (w_oracle w) (w_calls w) a in
    Ok (called w, if sent then with_started now a else a, sent);
  send_response_downstream w a :=
    Ok (mk_world (w_oracle w) (S (w_calls w)) (w_accepted w) (clients [body a] ++ w_answered w));
  call_cb w _ _ := Ok (called w);
  call_miss_cb w _ _ _ := Ok (called w);
  call_translated w f o id := o_translated (w_oracle w) (w_calls w) f o id;
  call_action_id w f o := o_id (w_oracle w) (w_calls w) f o;
  uncore_cycle w := o_clock (w_oracle w);
  draw_magic w := (called w, o_magic (w_oracle w) (w_calls w));
  draw_random w := (called w, o_random (w_oracle w) (w_calls w))
}.

(** The books of the environment agree with what the cache owes. *)
Definition books (T : list action) (w : world) : Prop := w_accepted w ≡ₚ w_answered w ++ clients T.

Lemma clients_perm T T' : T ≡ₚ T' → clients T ≡ₚ clients T'.
Proof. apply bind_Permutation. Qed.

#[export] Program Instance world_laws k cores : CacheEnvLaws world k cores := { env_ok T _ := books T }.
Next Obligation. intros k cores T T' F F' w HT HF HB. unfold books in *. by rewrite <- (clients_perm T T'). Qed.
Next Obligation.
  intros k cores T F w r Hc Hp Ho HB. unfold books, clients in *. simpl. unfold client at 1.
  by rewrite Hc, Hp, Ho, !bool_decide_true by done.
Qed.
Next Obligation. intros. by simpl. Qed.
Next Obligation.
  intros k cores T F w a HB Ha. simpl. split; [|done]. unfold books in *. simpl.
  rewrite HB. unfold clients. simpl. rewrite app_nil_r. solve_Permutation.
Qed.
Next Obligation. intros. by simpl. Qed.
Next Obligation. intros. by simpl. Qed.
Next Obligation. intros. by simpl. Qed.
Next Obligation. intros. by simpl. Qed.

(** ** A new cache *)

(** Source: src/xiosim/zesto-cache.cpp:246-317 cache_create. *)
Definition cache_create (k : params) (cores : Z) : cache :=
  let zeros := replicate (Z.to_nat (MSHR_banks k)) 0 in
  let counts := if is_LLC k then replicate (Z.to_nat cores) 0 else [] in
  mk_cache
    (replicate (Z.to_nat (cache_set.sets (kcfg k))) (cache_set.new_set (cache_set.assoc (kcfg k))))
    (mk_pipes (replicate (Z.to_nat (banks k)) (replicate (Z.to_nat (heap_size k)) no_action)) (replicate (Z.to_nat (banks k)) 0))
    (mk_pipes (replicate (Z.to_nat (banks k)) (replicate (Z.to_nat (heap_size k)) no_fill)) (replicate (Z.to_nat (banks k)) 0))
    (mk_mshrs (replicate (Z.to_nat (MSHR_banks k)) (replicate (Z.to_nat (MSHR_size k)) no_action)) zeros zeros zeros zeros zeros)
    (mk_flags true true false false false false) 0 None [] [] None 0 false
    (mk_stats (mk_counts 0 0) (mk_counts 0 0) (mk_counts 0 0) (mk_counts 0 0) 0 0 0 0 counts counts).

(** Source: src/xiosim/zesto-cache.cpp:841-868 prefetchers_create.
    The prefetchers have been created already; the watermarks of the bus controller
    are left out. *)
Definition prefetchers_create (ps : list prefetcher) (pff_size buffer_size filter_size filter_reset : Z) (c : cache) : cache :=
  with_filter (filter_create filter_size filter_reset)
    (with_buffer (buffer_create buffer_size)
      (with_PFQ (Some (fifo_create pff_size)) (with_prefetchers ps c))).


(** Empty pipes. *)
Lemma entries_0 {A} `{HeapNode A} (l : list A) : cache_heap.entries 0 l = [].
Proof. done. Qed.

Lemma queued_0 {A} `{HeapNode A} (hs : list (list A)) n : queued (mk_pipes hs (replicate n 0)) = [].
Proof.
  unfold queued. simpl. revert n. induction hs as [|l hs IH]; intros [|n]; simpl; done || apply IH.
Qed.

Lemma pipes_create_ok {A} `{HeapNode A} (x : A) n size lat : live x = false → 0 ≤ lat < size → 0 ≤ n →
  pipes_ok n size lat (mk_pipes (replicate (Z.to_nat n) (replicate (Z.to_nat size) x)) (replicate (Z.to_nat n) 0)).
Proof.
  intros Hx Hl Hn. split; simpl; rewrite ?length_replicate; try lia.
  apply Forall2_replicate. split; [|by rewrite length_replicate; lia]. split.
  - rewrite length_replicate. lia.
  - by rewrite entries_0.
  - intros i y _ E. apply aget_inv in E as [_ E]. by apply lookup_replicate in E as [-> _].
  - intros i ?. lia.
Qed.

Lemma count_none P n : P no_action = false → count P (replicate n no_action) = 0.
Proof. intros E. induction n as [|n IH]; simpl; [done|]. by rewrite E, IH. Qed.

Lemma mshrs_create_ok k : params_ok k →
  mshrs_ok k (regs (cache_create k 0)) ∧ (∀ cores, entries_all (act_ok k cores) (regs (cache_create k 0))) ∧
  missing (regs (cache_create k 0)) = [] ∧ writing (regs (cache_create k 0)) = [].
Proof.
  intros [Hb Hs]. assert (∀ P, P no_action = false → picked P (regs (cache_create k 0)) = []) as Hnone.
  { intros P HP. apply bind_none. intros es [-> _]%elem_of_replicate. apply bind_none. intros a [-> _]%elem_of_replicate.
    by apply pick_out. }
  split; [split|split].
  - unfold lens. simpl. rewrite !length_replicate. lia.
  - intros b x Hr (H1 & H2 & H3 & H4 & H5 & H6). simpl in *.
    apply lookup_replicate in H1 as [E1 _], H2 as [E2 _], H3 as [E3 _], H4 as [E4 _], H5 as [E5 _], H6 as [E6 _].
    destruct x; simpl in *; subst. split; simpl; rewrite ?count_none, ?length_replicate; try done; try lia.
    by apply Forall_replicate.
  - intros cores. apply Forall_replicate, Forall_replicate. split; [by intros []|done..].
  - split; by apply Hnone.
Qed.

Lemma cache_create_ok k (cores : roster) : config_ok k → 0 ≤ cores → cache_ok k cores (cache_create k cores) ∧ outstanding (cache_create k cores) = [] ∧ sound (cache_create k cores).
Proof.
  intros Hk Hc. destruct Hk as [Hr Hset Hsets Hbanks Hheap Hlat _ _ _ _ _]. destruct (mshrs_create_ok k Hr) as (Hm & Hids & Hmiss & Hwr).
  split; [split; simpl; rewrite ?queued_0; try done|].
  - rewrite length_replicate. lia.
  - by apply Forall_replicate, cache_safety.new_set_good.
  - apply Forall_replicate, cache_cores.new_set_from.
  - by apply pipes_create_ok; [|lia..].
  - by apply Forall_replicate, Forall_replicate.
  - by apply pipes_create_ok; [|lia..].
  - intros ->. rewrite length_replicate. lia.
  - lia.
  - split; [unfold outstanding; simpl in *; by rewrite queued_0, Hmiss|].
    split; right; simpl; [apply queued_0|apply queued_0|done|done].
Qed.

Lemma prefetchers_create_ok k cores ps pff fsize freset c : cache_ok k cores c → Forall any_ok ps →
  1 ≤ pff < 2 ^ 31 → 0 ≤ fsize → 1 ≤ freset →
  cache_ok k cores (prefetchers_create ps pff 0 fsize freset c) ∧ outstanding (prefetchers_create ps pff 0 fsize freset c) = outstanding c.
Proof.
  intros [] Hps Hpff Hf Hr. split; [|done]. split; try done; simpl.
  - split; [done|]. destruct (fifo_create_ok pff Hpff) as [Hfi ->]. done.
  - destruct (filter_create fsize freset) eqn:Ef; [|done]. by eapply filter_create_ok.
Qed.

(** ** The run *)

(** What happens to a cache: a cycle, in which the environment decides by an oracle; a
    request of a client, taken when there is room; a prefetch; the answer of the next
    level to an entry that is in flight (before the end of time). *)
Inductive event : Type :=
  | Cycle (o : oracle)
  | Request (a : action)
  | Prefetch (allowed : bool)
  | Arrive (bank index delay : Z).

Definition sent_entry (k : params) (c : cache) (bank index : Z) : bool :=
  (0 <=? bank) && (bank <? MSHR_banks k) && (0 <=? index) && (index <? MSHR_size k) &&
  match aget2 (MSHR (regs c)) bank index with Ok a => in_flight a | Fault _ => false end.

Definition step (k : params) (ev : event) (s : cache * world) : result (cache * world) :=
  let '(c, w) := s in
  match ev with
  | Cycle o => cache_process k c (mk_world o (w_calls w) (w_accepted w) (w_answered w))
  | Request a =>
      let* room := cache_enqueuable k c (paddr a) in
      if room : bool then
        let* c := cache_enqueue k c w (acore a) (prev_cp a) (cmd a) (PC a) (paddr a) (action_id a) (MSHR_bank a) (MSHR_index a)
                    (op a) (cb a) (miss_cb a) (translated_cb a) (get_action_id a) (prefetcher_hint a) in
        Ok (c, mk_world (w_oracle w) (w_calls w) (body a :: w_accepted w) (w_answered w))
      else Ok (c, w)
  | Prefetch allowed => let* c := cache_prefetch k allowed c w in Ok (c, w)
  | Arrive bank index delay =>
      if sent_entry k c bank index && (cache_get_cycle k c w + delay <? TICK_T_MAX) then let* c := cache_fill_arrived k c w bank index delay in Ok (c, w) else Ok (c, w)
  end.

Fixpoint run (k : params) (evs : list event) (s : cache * world) : result (cache * world) :=
  match evs with [] => Ok s | ev :: evs => let* s := step k ev s in run k evs s end.


Section safety.
Variables (k : params) (cores : roster).
Hypothesis Hk : config_ok k.

(** What the clients and the clock promise. *)
Definition event_ok (ev : event) : Prop :=
  match ev with
  | Request a => req_ok k cores a ∧ client a = true
  | Cycle o => is_LLC k = true → in_time k (o_clock o)
  | _ => True
  end.

(** The clock has room for [n] more cycles. *)
Definition time_ok (n : Z) (c : cache) (w : world) : Prop :=
  in_time k (cache_get_cycle k c w) ∧ (is_LLC k = false → 0 ≤ sim_cycle c ∧ sim_cycle c + n + latency k < TICK_T_MAX).

Lemma time_same n c w c' w' : cache_get_cycle k c' w' = cache_get_cycle k c w → time_ok (1 + n) c w → 0 ≤ n → time_ok n c' w'.
Proof.
  intros Ec [Ht Hs] Hn. split; [by rewrite Ec|]. intros Hl. specialize (Hs Hl). unfold cache_get_cycle in Ec.
  rewrite Hl in Ec. lia.
Qed.

Lemma idle_world c w w' : idle k cores c w → w_accepted w' = w_accepted w → w_answered w' = w_answered w → idle k cores c w'.
Proof. intros [Hr Hb] E1 E2. split; [done|]. simpl in *. unfold books in *. by rewrite E1, E2. Qed.

(** The books balance when what is owed is the same up to the prefetches of the cache. *)
Lemma idle_owed c c' w : idle k cores c w → at_rest k cores c' →
  (outstanding c' ≡ₚ outstanding c ∨
   ∃ r, cmd r = CACHE_PREFETCH ∧ prev_cp r = None ∧ op r = None ∧ outstanding c' ≡ₚ r :: outstanding c) → idle k cores c' w.
Proof.
  intros [_ Hb] Hr Ho. split; [done|]. destruct Ho as [Ho|(r & H1 & H2 & H3 & Ho)].
  - simpl in *. unfold books in *. by rewrite (clients_perm _ _ Ho).
  - pose proof (env_ok_prefetch _ _ _ r H1 H2 H3 Hb) as Hb'. simpl in *. unfold books in *. by rewrite (clients_perm _ _ Ho).
Qed.

Lemma event_step_ok n ev c w : event_ok ev → 0 ≤ n → idle k cores c w → time_ok (1 + n) c w →
  wp (step k ev (c, w)) (λ '(c', w'), idle k cores c' w' ∧ time_ok n c' w').
Proof.
  intros Hev Hn Hi Ht. pose proof Hi as [[Hok Hso _] Hb]. pose proof Ht as [Hin Hsim]. pose proof (c_latency _ Hk).
  destruct ev as [o|a|allowed|bank index delay]; cbn [step].
  - assert (in_time k (next_cycle k c (mk_world o (w_calls w) (w_accepted w) (w_answered w)))) as Hin'.
    { unfold next_cycle. destruct (is_LLC k) eqn:El; [by apply Hev|]. destruct (Hsim eq_refl). split; lia. }
    eapply wp_mono; [apply (cache_process_ok k cores Hk); [by eapply idle_world|done]|].
    intros [c' w'] [Hi' Ec]. split; [done|]. split; [by rewrite Ec|]. intros El. destruct (Hsim El).
    unfold cache_get_cycle, next_cycle in Ec. rewrite El in Ec. lia.
  - destruct Hev as [Hreq Hcl]. destruct (enqueuable_ok k cores Hk c (paddr a) Hok) as [room Eroom]. rewrite Eroom. cbn [rbind].
    destruct room; [|split; [done|by apply (time_same n c w)]].
    set (w' := mk_world (w_oracle w) (w_calls w) (body a :: w_accepted w) (w_answered w)).
    assert (books (body a :: outstanding c) w') as Hb'.
    { simpl in *. unfold books, clients in *. simpl. change (client (body a)) with (client a). rewrite Hcl, Hb. simpl.
      solve_Permutation. }
    pose proof (enqueue_ok k cores Hk c w' (acore a) (prev_cp a) (cmd a) (PC a) (paddr a) (action_id a) (MSHR_bank a) (MSHR_index a)
      (op a) (cb a) (miss_cb a) (translated_cb a) (get_action_id a) (prefetcher_hint a) Hok Hso) as He.
    eapply wp_bind, wp_mono; [apply He; [by apply (req_ok_body k cores _ a)|done|done]|].
    intros c' (Hi' & Ec & Ho & _). simpl. split; [|apply (time_same n c w); [by rewrite (same_cycle k c c' w' Ec)|done..]]. split; [done|].
    eapply env_ok_perm; [by symmetry|done|exact Hb'].
  - eapply wp_bind, wp_mono; [apply (cache_prefetch_ok k cores Hk); [apply Hi|done]|]. intros c' (Hi' & Ec & _ & Ho). simpl.
    split; [by eapply idle_owed|apply (time_same n c w); [by apply same_cycle|done..]].
  - destruct (sent_entry k c bank index && _) eqn:Es; [|split; [done|by apply (time_same n c w)]].
    apply andb_true_iff in Es as [Es Hd%Z.ltb_lt].
    unfold sent_entry in Es. repeat (apply andb_true_iff in Es as [Es ?]).
    destruct (aget2 _ _ _) as [x|] eqn:Ex; [|done]. destruct (in_flight_started x) as [Hx1 Hx2]; [done|].
    eapply wp_bind, wp_mono; [by apply (arrived_ok k cores Hk _ _ _ _ _ x); [apply Hi|lia|lia|..|lia]|].
    intros c' (Hi' & Ec & Ho & _). simpl.
    split; [eapply idle_owed; [done|done|by left]|apply (time_same n c w); [by apply same_cycle|done..]].
Qed.

Lemma run_ok evs c w : Forall event_ok evs → idle k cores c w → time_ok (Z.of_nat (length evs)) c w →
  wp (run k evs (c, w)) (λ '(c', w'), idle k cores c' w').
Proof.
  intros Hevs. revert c w. induction Hevs as [|ev evs Hev Hevs IH]; intros c w Hi Ht; simpl; [done|].
  eapply wp_bind, wp_mono; [apply (event_step_ok (Z.of_nat (length evs))); [done|lia|done|]|].
  - replace (1 + Z.of_nat (length evs)) with (Z.of_nat (length (ev :: evs))) by (simpl; lia). done.
  - intros [c' w'] [Hi' Ht']. by apply IH.
Qed.

(** A new cache, run in a new environment. *)
Lemma started_ok ps pff fsize freset evs o : 0 ≤ cores → Forall any_ok ps → 1 ≤ pff < 2 ^ 31 → 0 ≤ fsize → 1 ≤ freset →
  Forall event_ok evs → in_time k (o_clock o) → Z.of_nat (length evs) + latency k < TICK_T_MAX →
  wp (run k evs (prefetchers_create ps pff 0 fsize freset (cache_create k cores), mk_world o 0 [] []))
    (λ '(c, w), idle k cores c w).
Proof.
  intros Hc Hps Hpff Hf Hr Hevs Ho Hlen. destruct (cache_create_ok k cores Hk Hc) as (Hok & Hout & Hso).
  destruct (prefetchers_create_ok k cores ps pff fsize freset _ Hok Hps Hpff Hf Hr) as [Hok' Hout'].
  pose proof (c_latency _ Hk). apply run_ok; [done| |].
  - split; [split; [done|by apply (sound_same (cache_create k cores))|by left]|]. simpl. unfold books. by rewrite Hout', Hout.
  - split; [|intros; simpl; lia]. unfold cache_get_cycle. case_match; [done|]. split; simpl; lia.
Qed.

End safety.

(** The environment before anything has happened. *)
Definition start_world (o : oracle) : world := mk_world o 0 [] [].

(** C8. No request is lost.  A new cache without a prefetch buffer, whose configuration
    satisfies [config_ok] (a replacement policy that works, as in [cfg_ok]; banks and MSHR banks
    that are powers of two and selected by the bits above the block; a pipe longer than the
    latency; a read-only cache writes through), is run through any sequence of
    cycles, requests, prefetches and answers of the next level, in an environment that lets
    requests wait, refuses and accepts as it likes.  Requests are well-formed ([req_ok]):
    not yet linked to an MSHR, with a readable action id, from a core of the machine or none, no
    write to a read-only cache, and a prefetch names the MSHR bank of its address in this
    cache.  Nothing fails: no assertion, no null pointer, no
    index out of bounds, no MSHR missing.  And the requests that were accepted are exactly
    those that have been answered and those still in the access pipes and the MSHRs, each
    of them once: none is dropped and none is answered twice. *)
Theorem cache_conserves_requests k cores ps pff fsize freset evs o :
  config_ok k → 0 ≤ cores → Forall any_ok ps → 1 ≤ pff < 2 ^ 31 → 0 ≤ fsize → 1 ≤ freset →
  Forall (event_ok k (anyone cores)) evs → in_time k (o_clock o) → Z.of_nat (length evs) + latency k < TICK_T_MAX →
  wp (run k evs (prefetchers_create ps pff 0 fsize freset (cache_create k cores), start_world o))
    (λ '(c, w), cache_ok k (anyone cores) c ∧ w_accepted w ≡ₚ w_answered w ++ clients (outstanding c)).
Proof.
  intros. eapply wp_mono; [by apply (started_ok k (anyone cores))|]. by intros [c' w'] [[? _ _] ?].
Qed.

(** C31. No wake-up is lost, under the conditions of C8 on the configuration and the requests.  [cache_process] skips a cache whose [check_for_work] is down,
    and each of its stages is skipped when its own flag is down.  In any run of a new
    cache without a prefetch buffer, a cache that is skipped has nothing to do: no request in the access pipe, no
    block in the fill pipe, no miss and no write-back in the MSHRs; and every request that
    it accepted has been answered. *)
Theorem sleeping_cache_has_no_work k cores ps pff fsize freset evs o :
  config_ok k → 0 ≤ cores → Forall any_ok ps → 1 ≤ pff < 2 ^ 31 → 0 ≤ fsize → 1 ≤ freset →
  Forall (event_ok k (anyone cores)) evs → in_time k (o_clock o) → Z.of_nat (length evs) + latency k < TICK_T_MAX →
  wp (run k evs (prefetchers_create ps pff 0 fsize freset (cache_create k cores), start_world o))
    (λ '(c, w), check_for_work (flags c) = false → outstanding c = [] ∧ queued (fills c) = [] ∧ writing (regs c) = [] ∧
      w_accepted w ≡ₚ w_answered w).
Proof.
  intros. eapply wp_mono; [by apply (started_ok k (anyone cores))|]. intros [c w] Hi Hw.
  destruct (asleep_empty k (anyone cores) c (i_rest _ _ _ _ Hi) Hw) as (Ho & Hf & Hwr). split; [done|]. split; [done|]. split; [done|].
  pose proof (i_env _ _ _ _ Hi) as Hb. simpl in Hb. unfold books in Hb. by rewrite Ho, app_nil_r in Hb.
Qed.

(** A write-back cache of two banks with two sets of two ways each. *)
Definition small : params :=
  mk_params (cache_set.mk_cfg 4 2 1 6 REPLACE_LRU WRITE_BACK false) WRITE_ALLOC true 2 6 2 4 2 4 1 None None false 7 2 2 false.

Lemma small_ok : config_ok small.
Proof. split; try split; simpl; try lia; repeat split; simpl; intros; try done; try lia; by exists 1. Qed.

(** An environment that takes every request and has every TLB answer. *)
Definition easy : oracle :=
  mk_oracle (λ _ l, match l with Some _ => ARRAY_HIT | None => ARRAY_MISS end) (λ _ _, MSHR_CHECK_ARRAY) (λ _, true) (λ _ _, true) (λ _ _, true)
    (λ _ _ _ _, true) (λ _ _ o, o) 0 (λ _, None) (λ n, Z.of_nat n).

Definition read (id addr : Z) : action :=
  mk_action 0 (Some id) id 4096 addr MSHR_MISS 0 (-1) false CACHE_READ None (Some 1) (Some 2) None (Some 3) 0 0 0 0 None false false.
Definition write (id addr : Z) : action :=
  mk_action 0 (Some id) id 4096 addr MSHR_MISS 5 1 false CACHE_WRITE (Some 3) (Some 1) None None (Some 3) 0 0 0 0 None false false.

(** Two reads of one block; the first is answered and its block filled, so that a later
    read and a write from the cache below hit. *)
Definition demo : list event :=
  [Request (read 11 8192); Request (read 12 8192); Cycle easy; Cycle easy; Cycle easy; Cycle easy; Arrive 0 0 1; Cycle easy;
   Cycle easy; Cycle easy; Request (read 13 8200); Request (write 14 8200); Cycle easy; Cycle easy; Cycle easy; Cycle easy].

Lemma cache_conserves_requests_witness :
  rmap (λ '(c, w), (action_id <$> w_accepted w, action_id <$> w_answered w, action_id <$> outstanding c))
    (run small demo (prefetchers_create [] 4 0 0 8 (cache_create small 1), start_world easy)) =
    Ok ([14; 13; 12; 11], [14; 13; 11], [12]) ∧
  wp (run small demo (prefetchers_create [] 4 0 0 8 (cache_create small 1), start_world easy))
    (λ '(c, w), cache_ok small (anyone 1) c ∧ w_accepted w ≡ₚ w_answered w ++ clients (outstanding c)).
Proof.
  split; [vm_compute; reflexivity|].
  apply (cache_conserves_requests small 1 [] 4 0 8 demo easy small_ok); try done.
  - unfold demo. repeat apply list.Forall_cons_2; try done; (split; [|done]); split; try done; intros; vm_compute; intuition congruence.
Defined.

(** The second read is answered as well, and the cache goes to sleep. *)
Definition demo_end : list event := demo ++ [Arrive 0 1 1; Cycle easy; Cycle easy; Cycle easy; Cycle easy; Cycle easy].

Lemma demo_events : Forall (event_ok small (anyone 1)) demo_end.
Proof.
  unfold demo_end, demo. repeat apply list.Forall_cons_2; try done; (split; [|done]); split; try done; intros; vm_compute; intuition congruence.
Qed.

Lemma sleeping_cache_has_no_work_witness :
  rmap (λ '(c, w), (check_for_work (flags c), action_id <$> w_accepted w, action_id <$> w_answered w))
    (run small demo_end (prefetchers_create [] 4 0 0 8 (cache_create small 1), start_world easy)) =
    Ok (false, [14; 13; 12; 11], [12; 14; 13; 11]) ∧
  wp (run small demo_end (prefetchers_create [] 4 0 0 8 (cache_create small 1), start_world easy))
    (λ '(c, w), check_for_work (flags c) = false → outstanding c = [] ∧ queued (fills c) = [] ∧ writing (regs c) = [] ∧
      w_accepted w ≡ₚ w_answered w).
Proof.
  split; [vm_compute; reflexivity|].
  apply (sleeping_cache_has_no_work small 1 [] 4 0 8 demo_end easy small_ok); try done. apply demo_events.
Defined.

End cache_run.
