(* ===== verification/Coherence.v ===== *)
(** * Coherence: the cache controllers, and the memory hierarchy they connect

    The controllers of src/xiosim/ZCOMPS-coherence decide where the requests of a cache go:
    to the access pipe of the next level, or from the last level to the memory controller;
    and where its answers go: to the MSHR of the cache below that sent the request.  The
    hierarchy is the state they work on: all caches, the buses between them, the front-side
    bus, the memory controller with its DRAM, and the cores that own the callbacks.  Seen
    from cache [i] the rest of the hierarchy is the environment of CacheProcess. *)

From S2P Require Import Prelude Misc CacheSet CacheHeap Dram MemCtrl Bus CacheState CacheMSHR CachePipes CachePrefetch Prefetch CacheProcess CacheInv CacheStages CacheRun.

Module coherence.
Import cache_state cache_process cache_cycle.

(** ** The uncore clock as an environment

    A cache that is not being processed needs of its surroundings the clock only. *)

Record clock : Type := mk_clock { ticks : Z }.

#[export] Instance clock_env : CacheEnv clock := {
  check_array _ l := match l with None => ARRAY_MISS | Some _ => ARRAY_HIT end;
  check_MSHR _ _ := MSHR_CHECK_ARRAY;
  can_schedule_upstream _ := false;
  can_schedule_downstream _ _ := false;
  send_request_upstream e _ _ _ a := Ok (e, a, false);
  send_response_downstream e _ := Ok e;
  call_cb e _ _ := Ok e;
  call_miss_cb e _ _ _ := Ok e;
  call_translated _ _ _ _ := false;
  call_action_id _ _ _ := 0;
  uncore_cycle := ticks;
  draw_magic e := (e, None);
  draw_random e := (e, 0)
}.

(** ** The parts *)

(** Which clock a bus is locked to: that of the uncore, of a cache, or of a core. *)
Inductive clock_source : Set := Uncore | Of_cache (i : Z) | Of_core (n : Z).

(** Source: src/xiosim/ZCOMPS-coherence/const.cpp:8-36 cache_controller_const_t.
    The classes of controllers; the penalty is an [unsigned int]. *)
Inductive controller : Set := none | const (sharing_penalty : Z).

(** A cache in the hierarchy: its parameters, the next level and the bus to it, and its
    controller. *)
Record node : Type := mk_node {
  n_params : params;
  next_level : option Z;
  next_bus : option Z;
  n_controller : controller
}.

(** [cp->linesize], which is checked to be a power of two. *)
Definition linesize (k : params) : Z := 2 ^ cache_set.addr_shift (kcfg k).

(** The cores: the callbacks of the requests and random(). *)
Class Client (X : Type) : Type := {
  x_cb : X → Z → Z → X;
  x_miss_cb : X → Z → Z → Z → X;
  x_translated : X → Z → option Z → Z → bool;
  x_action_id : X → Z → Z → Z;
  x_magic : X → X * option bool;
  x_random : X → X * Z
}.

(** [writers] is the static map of the controllers: who wrote a block last.  [requests] are
    its statistics, shared and private.  [made] and [served] are the books: the requests
    that the cores have made, and those that have been answered. *)
Record hier (X D : Type) : Type := mk_hier {
  caches : list cache;
  buses : list (clock_source * bus.t);
  fsb : bus.t;
  MC : mc.t;
  dram : D;
  writers : gmap Z Z;
  requests : list (Z * Z);
  core_cycles : list Z;
  uncore_sim_cycle : Z;
  cores : X;
  made : list action;
  served : list action
}.
Arguments mk_hier {X D}.
Arguments caches {X D}.
Arguments buses {X D}.
Arguments fsb {X D}.
Arguments MC {X D}.
Arguments dram {X D}.
Arguments writers {X D}.
Arguments requests {X D}.
Arguments core_cycles {X D}.
Arguments uncore_sim_cycle {X D}.
Arguments cores {X D}.
Arguments made {X D}.
Arguments served {X D}.

Section hier.
Context {X D : Type} `{Client X} `{Dram D}.
Variables (nodes : list node) (fsb_DDR : bool).
Abbreviation hier := (hier X D).
Implicit Types (s : hier) (a : action) (i : Z).

Definition with_caches (v : list cache) s : hier :=
  mk_hier v (buses s) (fsb s) (MC s) (dram s) (writers s) (requests s) (core_cycles s) (uncore_sim_cycle s) (cores s) (made s) (served s).
Definition with_buses (v : list (clock_source * bus.t)) s : hier :=
  mk_hier (caches s) v (fsb s) (MC s) (dram s) (writers s) (requests s) (core_cycles s) (uncore_sim_cycle s) (cores s) (made s) (served s).
Definition with_fsb (v : bus.t) s : hier :=
  mk_hier (caches s) (buses s) v (MC s) (dram s) (writers s) (requests s) (core_cycles s) (uncore_sim_cycle s) (cores s) (made s) (served s).
Definition with_MC (m : mc.t) (d : D) s : hier :=
  mk_hier (caches s) (buses s) (fsb s) m d (writers s) (requests s) (core_cycles s) (uncore_sim_cycle s) (cores s) (made s) (served s).
Definition with_writers (v : gmap Z Z) s : hier :=
  mk_hier (caches s) (buses s) (fsb s) (MC s) (dram s) v (requests s) (core_cycles s) (uncore_sim_cycle s) (cores s) (made s) (served s).
Definition with_requests (v : list (Z * Z)) s : hier :=
  mk_hier (caches s) (buses s) (fsb s) (MC s) (dram s) (writers s) v (core_cycles s) (uncore_sim_cycle s) (cores s) (made s) (served s).
Definition with_clocks (v : list Z) (u : Z) s : hier :=
  mk_hier (caches s) (buses s) (fsb s) (MC s) (dram s) (writers s) (requests s) v u (cores s) (made s) (served s).
Definition with_cores (v : X) s : hier :=
  mk_hier (caches s) (buses s) (fsb s) (MC s) (dram s) (writers s) (requests s) (core_cycles s) (uncore_sim_cycle s) v (made s) (served s).
Definition with_books (m v : list action) s : hier :=
  mk_hier (caches s) (buses s) (fsb s) (MC s) (dram s) (writers s) (requests s) (core_cycles s) (uncore_sim_cycle s) (cores s) m v.

Definition the_clock s : clock := mk_clock (uncore_sim_cycle s).

(** ** Buses *)

Definition time_of s (c : clock_source) : result Z :=
  match c with
  | Uncore => Ok (uncore_sim_cycle s)
  | Of_cache i => rmap sim_cycle (aget (caches s) i)
  | Of_core n => aget (core_cycles s) n
  end.

(** [bus_free] and [bus_use] of a bus between caches. *)
Definition link_free s (b : Z) : result bool :=
  let* '(c, l) := aget (buses s) b in
  let* t := time_of s c in Ok (bus.bus_free l t).
Definition link_use s (b size : Z) (prefetch : bool) : result hier :=
  let* '(c, l) := aget (buses s) b in
  let* t := time_of s c in
  let* v := aset (buses s) b (c, bus.bus_use l t size prefetch) in
  Ok (with_buses v s).
Definition fsb_use s (size : Z) (prefetch : bool) : hier :=
  with_fsb (bus.bus_use (fsb s) (uncore_sim_cycle s) size prefetch) s.

(** The tests answer no when the code would follow a null pointer (a cache with a next
    level and no bus to it has no answer to [can_schedule_downstream]). *)
Definition or_no (r : result bool) : bool := match r with Ok b => b | Fault _ => false end.

(** ** The controllers *)

(** Source: src/xiosim/ZCOMPS-coherence/none.cpp:28-34 check_array. *)
Definition check_array (line : option cache_set.line) : controller_array_response_t :=
  match line with None => ARRAY_MISS | Some _ => ARRAY_HIT end.

(** Source: src/xiosim/ZCOMPS-coherence/none.cpp:36-41 check_MSHR. *)
Definition check_MSHR (MSHR_item : action) : controller_response_t := MSHR_CHECK_ARRAY.

(** Source: src/xiosim/ZCOMPS-coherence/none.cpp:43-48 can_schedule_upstream. *)
Definition can_schedule_upstream i s : bool :=
  or_no (let* n := aget nodes i in
         match next_level n, next_bus n with
         | Some _, None => Ok true
         | Some _, Some b => link_free s b
         | None, _ => Ok (bus.bus_free (fsb s) (uncore_sim_cycle s))
         end).

(** Source: src/xiosim/ZCOMPS-coherence/none.cpp:50-53 can_schedule_downstream. *)
Definition can_schedule_downstream s (prev_cache : option Z) : bool :=
  match prev_cache with
  | None => true
  | Some p => or_no (let* n := aget nodes p in let* b := deref (next_bus n) in link_free s b)
  end.

(** Bytes of a request on a bus: writes carry the line. *)
Definition request_size (cmd : cache_command) (line : Z) : Z := if cache_set.is_write cmd then line else 1.

(** Source: src/xiosim/ZCOMPS-coherence/const.cpp:107-121 send_request_upstream.
    A write miss names the last owner of the block, a write-back says there is none. *)
Definition track_writer (ctl : controller) a s : result hier :=
  match ctl with
  | none => Ok s
  | const _ =>
      match cmd a with
      | CACHE_WRITE =>
          let* core := if acore a =? -1 then Fault NullDeref else Ok (acore a) in
          Ok (with_writers (<[paddr a := wrap_u 32 core]> (writers s)) s)
      | CACHE_WRITEBACK => Ok (with_writers (delete (paddr a) (writers s)) s)
      | _ => Ok s
      end
  end.

(** Source: src/xiosim/ZCOMPS-coherence/const.cpp:100-139 send_request_upstream.
    The same for the class [none], without the owners (none.cpp:55-80). *)
Definition send_request_upstream i s (now bank MSHR_index : Z) a : result (hier * action * bool) :=
  let* n := aget nodes i in
  match next_level n with
  | Some up =>
      let* u := aget nodes up in
      let* c := aget (caches s) up in
      let* room := cache_enqueuable (n_params u) c (paddr a) in
      if room : bool then
        let* s := track_writer (n_controller n) a s in
        let* c := cache_enqueue (n_params u) c (the_clock s) (acore a) (Some i) (cmd a) (PC a) (paddr a) (action_id a)
                    bank MSHR_index (op a) (cb a) (miss_cb a) None (get_action_id a) false in
        let* l := aset (caches s) up c in
        let* b := deref (next_bus n) in
        let* s := link_use (with_caches l s) b (request_size (cmd a) (linesize (n_params n))) (bool_decide (cmd a = CACHE_PREFETCH)) in
        Ok (s, with_started now a, true)
      else Ok (s, a, false)
  | None =>
      if mc.enqueuable (MC s) then
        let line := linesize (n_params n) in
        let* m := mc.enqueue (MC s) (uncore_sim_cycle s)
          (mc.mk_action true (op a) (action_id a) (paddr a) line bank MSHR_index (cmd a) (Some i) (cb a) (get_action_id a) 0 0 0 0) in
        let s := fsb_use (with_MC m (dram s) s) (request_size (cmd a) (if fsb_DDR then Z.shiftr line 1 else line))
                   (bool_decide (cmd a = CACHE_PREFETCH)) in
        Ok (s, with_started now a, true)
      else Ok (s, a, false)
  end.

(** [fill_arrived] of cache [p]. *)
Definition arrive s (p bank index delay : Z) : result hier :=
  let* n := aget nodes p in
  let* c := aget (caches s) p in
  let* c := cache_fill_arrived (n_params n) c (the_clock s) bank index delay in
  let* l := aset (caches s) p c in
  Ok (with_caches l s).

(** Source: src/xiosim/ZCOMPS-coherence/const.cpp:145-159 send_response_downstream.
    A block that another core wrote last comes with a delay. *)
Definition sharing_delay i (ctl : controller) a s : result (hier * Z) :=
  match ctl with
  | none => Ok (s, 0)
  | const penalty =>
      let* shared := match writers s !! paddr a with
                     | None => Ok false
                     | Some w =>
                         if w =? wrap_u 32 (-1) then Ok false
                         else let* core := if acore a =? -1 then Fault NullDeref else Ok (acore a) in
                              Ok (negb (w =? wrap_u 32 core))
                     end in
      let* '(sh, pr) := aget (requests s) i in
      let* v := aset (requests s) i (if shared : bool then (sh + 1, pr) else (sh, pr + 1)) in
      Ok (with_requests v s, if shared then penalty else 0)
  end.

(** A request of the cores, not a prefetch that a cache asks of itself. *)
Definition of_core a : bool :=
  bool_decide (prev_cp a = None) && negb (bool_decide (cmd a = CACHE_PREFETCH) && bool_decide (op a = None)).

(** Source: src/xiosim/ZCOMPS-coherence/const.cpp:141-165 send_response_downstream.
    A request without a cache below has been answered by its callback; it is entered in the
    books. *)
Definition send_response_downstream i s a : result hier :=
  match prev_cp a with
  | None => Ok (if of_core a then with_books (made s) (cache_inv.body a :: served s) s else s)
  | Some p =>
      let* n := aget nodes i in
      let* '(s, delay) := sharing_delay i (n_controller n) a s in
      let* below := aget nodes p in
      let* b := deref (next_bus below) in
      let* s := link_use s b (if decide (cmd a = CACHE_WRITEBACK) then 1 else linesize (n_params below))
                  (bool_decide (cmd a = CACHE_PREFETCH)) in
      arrive s p (MSHR_bank a) (MSHR_index a) delay
  end.

(** ** The hierarchy, seen from one of its caches *)

Definition seen_from (i : Z) : Type := hier.

#[export] Instance seen_env (i : Z) : CacheEnv (seen_from i) := {
  CacheProcess.check_array _ l := check_array l;
  CacheProcess.check_MSHR _ a := check_MSHR a;
  CacheProcess.can_schedule_upstream s := can_schedule_upstream i s;
  CacheProcess.can_schedule_downstream s p := can_schedule_downstream s p;
  CacheProcess.send_request_upstream s now b j a := send_request_upstream i s now b j a;
  CacheProcess.send_response_downstream s a := send_response_downstream i s a;
  call_cb s f o := Ok (with_cores (x_cb (cores s) f o) s);
  call_miss_cb s f o lat := Ok (with_cores (x_miss_cb (cores s) f o lat) s);
  call_translated s f o id := x_translated (cores s) f o id;
  call_action_id s f o := x_action_id (cores s) f o;
  uncore_cycle s := uncore_sim_cycle s;
  draw_magic s := let '(x, m) := x_magic (cores s) in (with_cores x s, m);
  draw_random s := let '(x, r) := x_random (cores s) in (with_cores x s, r)
}.

(** Source: src/xiosim/ZCOMPS-MC/MC-simple.cpp:159-165 step.
    The answer of the memory controller. *)
#[export] Instance mc_env : mc.MCEnv hier := {
  mc.fsb_free s := bus.bus_free (fsb s) (uncore_sim_cycle s);
  mc.respond s r :=
    match mc.prev_cp r with
    | None => Ok s
    | Some p =>
        let* s := arrive s p (mc.MSHR_bank r) (mc.MSHR_index r) 0 in
        Ok (fsb_use s (if fsb_DDR then Z.shiftr (mc.linesize r) 1 else mc.linesize r) (bool_decide (mc.cmd r = CACHE_PREFETCH)))
    end
}.

(** ** What happens in the hierarchy *)

(** A cycle of cache [i]. *)
Definition process i s : result hier :=
  let* n := aget nodes i in
  let* c := aget (caches s) i in
  let* '(c, s') := cache_process (E := seen_from i) (n_params n) c s in
  let* l := aset (caches s') i c in
  Ok (with_caches l s').

Definition process_if (o : option Z) s : result hier := match o with Some i => process i s | None => Ok s end.

(** Source: src/xiosim/zesto-exec.cpp:235-245 step_dcaches.
    The data caches of a core, as far as they exist. *)
Definition step_dcaches (DTLB2 DTLB DL2 DL1 : option Z) s : result hier :=
  let* s := process_if DTLB2 s in
  let* s := process_if DTLB s in
  let* s := process_if DL2 s in
  process_if DL1 s.

(** A cycle of the memory controller; the DRAM is refreshed first.
    Source: src/xiosim/sim-loop.cpp:142-143 simulate. *)
Definition step_MC s : result hier :=
  let* d := dram_refresh (dram s) (uncore_sim_cycle s) in
  let* '(m, d, s) := mc.step (uncore_sim_cycle s) (MC s) d s in
  Ok (with_MC m d s).

(** A core asks cache [i], which has room or not. *)
Definition request i a s : result hier :=
  let* n := aget nodes i in
  let* c := aget (caches s) i in
  let* room := cache_enqueuable (n_params n) c (paddr a) in
  if room : bool then
    let* c := cache_enqueue (n_params n) c (the_clock s) (acore a) (prev_cp a) (cmd a) (PC a) (paddr a) (action_id a)
                (MSHR_bank a) (MSHR_index a) (op a) (cb a) (miss_cb a) (translated_cb a) (get_action_id a) (prefetcher_hint a) in
    let* l := aset (caches s) i c in
    Ok (with_books (cache_inv.body a :: made s) (served s) (with_caches l s))
  else Ok s.

(** A cache takes up a prefetch. *)
Definition prefetch i (allowed : bool) s : result hier :=
  let* n := aget nodes i in
  let* c := aget (caches s) i in
  let* c := cache_prefetch (n_params n) allowed c (the_clock s) in
  let* l := aset (caches s) i c in
  Ok (with_caches l s).

End hier.
End coherence.
