(* ===== verification/Hierarchy.v ===== *)
(** * Hierarchy: the caches, the buses and the memory controller as one system

    CacheStages proves a cache correct in any environment that keeps the contract
    [CacheEnvLaws].  Here the environment of each cache is the rest of the hierarchy: the
    caches above and below it, the controllers, the buses, the memory controller and its
    DRAM.  The invariant [hier_ok] says that the requests a cache has in flight are, one for
    one, requests that the level above owes it an answer to. *)

From S2P Require Import Prelude Misc CacheSet CacheHeap Dram MemCtrl Bus CacheState CacheMSHR CachePipes CachePrefetch Prefetch CacheProcess CacheInv CacheStages CacheRun Coherence.

Module hierarchy.
Import cache_state cache_mshr cache_pipes cache_prefetch cache_process cache_inv cache_stages cache_cycle coherence.

(** ** Lists of lists *)

(** The contribution of one element. *)
Lemma bind_split {A B} (f : A → list B) (l : list A) i x : l !! i = Some x →
  ∃ R, (l ≫= f) ≡ₚ f x ++ R ∧ ∀ y, (<[i := y]> l ≫= f) ≡ₚ f y ++ R.
Proof.
  intros E. exists ((take i l ++ drop (S i) l) ≫= f). pose proof (take_drop_middle _ _ _ E) as El. split.
  - rewrite <- El at 1. rewrite !bind_app, bind_cons. solve_Permutation.
  - intros y. rewrite insert_take_drop by (by eapply lookup_lt_Some). rewrite !bind_app, bind_cons. solve_Permutation.
Qed.

(** ** What is in flight *)

Lemma flying_inv k m b i pa cm : mshrs_ok k m → (b, i, pa, cm) ∈ flying m →
  0 ≤ b < MSHR_banks k ∧ 0 ≤ i < MSHR_size k ∧
  ∃ a, aget2 (MSHR m) b i = Ok a ∧ in_flight a = true ∧ fly b i a = [(b, i, pa, cm)].
Proof.
  intros Hm Hin. unfold flying in Hin. apply list_elem_of_In, in_concat in Hin as (l & Hl & Hin).
  apply list_elem_of_In, elem_of_lookup_imap in Hl as (bn & es & -> & Ees). unfold flying_bank in Hin.
  apply in_concat in Hin as (l & Hl & Hin). apply list_elem_of_In, elem_of_lookup_imap in Hl as (j & a & -> & Ea).
  unfold fly in Hin. destruct (in_flight a) eqn:Ef; [|done]. destruct Hin as [[= <- <- <- <-]|[]].
  pose proof (proj1 Hm) as Hlen. pose proof (lookup_lt_Some _ _ _ Ees) as Hb.
  assert (0 ≤ Z.of_nat bn < MSHR_banks k) as Hbn by (destruct Hlen; lia).
  destruct (at_exists _ m (Z.of_nat bn) Hlen Hbn) as (x & Hx).
  assert (b_es x = es) as Hes by (destruct Hx as (Ex & _); rewrite Nat2Z.id, Ees in Ex; by injection Ex).
  pose proof (bk_len _ _ _ (proj2 Hm _ x Hbn Hx)) as Hsz. rewrite Hes in Hsz.
  pose proof (lookup_lt_Some _ _ _ Ea) as Hj. split; [done|]. split; [lia|]. exists a.
  split; [|split; [done|unfold fly; by rewrite Ef]].
  eapply get_entry; [exact Hm|done|exact Hx|lia|]. by rewrite Nat2Z.id, Hes.
Qed.

Section hier.
Context {X D : Type} `{Client X} `{HL : DramLaws D}.
Variables (nodes : list node) (fsb_DDR : bool) (ncores : Z) (nclocks : nat).
Abbreviation hier := (hier X D).
Implicit Types (s : hier) (a : action).

(** The configurations, with controllers of any class: every cache is well formed; a cache
    with a next level has a bus to it, and the next level has the same MSHR banks (or the
    prefetches of the lower cache would fail the assertion of MSHR_insert on theirs) and takes
    writes if the cache does; the penalty of a controller is an [unsigned int]. *)
Record link_ok (i : Z) (n : node) (u : Z) : Prop := {
  l_other : u ≠ i;
  l_up : ∃ nu, aget nodes u = Ok nu ∧
    (cache_set.read_only (kcfg (n_params nu)) = true → cache_set.read_only (kcfg (n_params n)) = true) ∧
    ∀ p, GET_MSHR_BANK (n_params n) p = GET_MSHR_BANK (n_params nu) p;
  l_bus : next_bus n ≠ None
}.

Record node_ok (i : Z) (n : node) : Prop := {
  n_config : config_ok (n_params n);
  n_line : 0 ≤ cache_set.addr_shift (kcfg (n_params n)) < 20;
  n_penalty : match n_controller n with none => True | const p => 0 ≤ p < 2 ^ 32 end;
  n_link : match next_level n with Some u => link_ok i n u | None => True end
}.

(** There are [nb] buses. *)
Record nodes_ok (nb : nat) : Prop := {
  nodes_all i n : aget nodes i = Ok n → node_ok i n;
  nodes_buses i n b : aget nodes i = Ok n → next_bus n = Some b → 0 ≤ b < Z.of_nat nb
}.

(** A cache with a next level belongs to a core, and so do its requests; the last level
    belongs to none. *)
Definition roster_of (n : node) : roster := mk_roster ncores (bool_decide (next_level n = None)).

Lemma roster_some n u m : next_level n = Some u → core_ok (roster_of n) m → 0 ≤ m < ncores.
Proof. intros E [[_ Hm]|Hm]; [|done]. simpl in Hm. by rewrite E in Hm. Qed.

(** ** Requests on their way *)

Abbreviation lists := (list (list action)).

(** The flights of cache [j] that a request belongs to. *)
Definition up_of (j : Z) (a : action) : list flight :=
  if decide (prev_cp a = Some j) then [(MSHR_bank a, MSHR_index a, paddr a, cmd a)] else [].
Definition up_mc (j : Z) (r : mc.MC_action) : list flight :=
  if decide (mc.prev_cp r = Some j ∧ mc.when_returned r = TICK_T_MAX)
  then [(mc.MSHR_bank r, mc.MSHR_index r, mc.addr r, mc.cmd r)] else [].

(** What the caches and the memory controller owe cache [j]. *)
Definition upward (j : Z) (owed : lists) (q : list mc.MC_action) : list flight :=
  (owed ≫= λ T, T ≫= up_of j) ++ (q ≫= up_mc j).

(** The next level of [p] is [i]; [p] is a last level. *)
Definition below (p i : Z) : Prop := ∃ n, aget nodes p = Ok n ∧ next_level n = Some i.
Definition last_level (p : Z) : Prop := ∃ n, aget nodes p = Ok n ∧ next_level n = None.

(** The requests that came from another cache came from below, and have a core. *)
Definition routed_to (i : Z) (T : list action) : Prop :=
  ∀ a p, a ∈ T → prev_cp a = Some p → below p i ∧ 0 ≤ acore a.
Definition routed (owed : lists) : Prop := ∀ i T, owed !! i = Some T → routed_to (Z.of_nat i) T.
Definition mc_routed (q : list mc.MC_action) : Prop := ∀ r p, r ∈ q → mc.prev_cp r = Some p → last_level p.

(** The requests of the cores among those that the caches owe. *)
Definition cores_of (a : action) : list action := if of_core a then [a] else [].

(** The time of a cache, with room for [slack] cycles and the penalty of an answer. *)
Definition timely (slack : Z) (k : params) (t : Z) : Prop := 0 ≤ t ∧ t + slack + latency k + 2 ^ 32 < TICK_T_MAX.

Record cache_at (slack : Z) (n : node) (c : cache) (u : Z) : Prop := {
  ca_rest : at_rest (n_params n) (roster_of n) c;
  ca_time : timely slack (n_params n) (cache_get_cycle (n_params n) c (mk_clock u))
}.

(** The invariant.  [owed] are the requests that each cache owes, [fl] those it has in
    flight, [q] the queue of the memory controller; the caches that satisfy [rest] are
    between two of their cycles, the others are being processed. *)
Record hier_ok (slack : Z) (owed : lists) (fl : Z → list flight) (rest : Z → Prop) (q : list mc.MC_action) s : Prop := {
  h_caches : length (caches s) = length nodes;
  h_owed : length owed = length nodes;
  h_requests : length (requests s) = length nodes;
  h_rest j n c : aget nodes j = Ok n → aget (caches s) j = Ok c → rest j →
    cache_at slack n c (uncore_sim_cycle s) ∧ (∃ T, owed !! Z.to_nat j = Some T ∧ T ≡ₚ outstanding c) ∧ fl j ≡ₚ flying (regs c);
  h_routed : routed owed;
  h_last : mc_routed q;
  h_up j : upward j owed q ≡ₚ fl j;
  h_books : made s ≡ₚ served s ++ (owed ≫= λ T, T ≫= cores_of);
  h_clock : 0 ≤ uncore_sim_cycle s ∧ uncore_sim_cycle s + slack < TICK_T_MAX;
  h_ticks : length (core_cycles s) = nclocks;
  h_nodes : nodes_ok (length (buses s));
  h_sources c l : (c, l) ∈ buses s → match c with
    | Uncore => True
    | Of_cache i => 0 ≤ i < Z.of_nat (length nodes)
    | Of_core n => 0 ≤ n < Z.of_nat nclocks
    end
}.

(** What the invariant does not see. *)
Record quiet s s' : Prop := {
  q_caches : caches s' = caches s;
  q_requests : length (requests s') = length (requests s);
  q_made : made s' = made s;
  q_served : served s' = served s;
  q_clock : uncore_sim_cycle s' = uncore_sim_cycle s;
  q_cores : core_cycles s' = core_cycles s;
  q_buses : (buses s').*1 = (buses s).*1
}.

Lemma quiet_refl s : quiet s s.
Proof. done. Qed.

Lemma hier_quiet slack owed fl rest q s s' : quiet s s' → hier_ok slack owed fl rest q s → hier_ok slack owed fl rest q s'.
Proof.
  intros [E1 E2 E3 E4 E6 E7 E8] [].
  assert (length (buses s') = length (buses s)) as El by by rewrite <- (length_fmap fst (buses s')), E8, length_fmap.
  split; rewrite ?E1, ?E2, ?E3, ?E4, ?E6, ?E7, ?El; try done.
  - intros c l Hin. assert (c ∈ (buses s').*1) as Hc by (apply list_elem_of_fmap; by exists (c, l)).
    rewrite E8 in Hc. apply list_elem_of_fmap in Hc as ([c' l'] & -> & Hin'). exact (h_sources0 _ _ Hin').
Qed.

Lemma hier_node slack owed fl rest q s i n : hier_ok slack owed fl rest q s → aget nodes i = Ok n → node_ok i n.
Proof. intros [] E. by eapply nodes_all. Qed.

Lemma hier_cache slack owed fl rest q s i n : hier_ok slack owed fl rest q s → aget nodes i = Ok n →
  0 ≤ i < Z.of_nat (length (caches s)) ∧ ∃ c, aget (caches s) i = Ok c.
Proof.
  intros [] E. apply aget_inv in E as [Hi _]. rewrite h_caches0. split; [done|].
  destruct (aget_ok (caches s) i) as (c & _ & E); [by rewrite h_caches0|]. by exists c.
Qed.

(** ** Buses *)

Lemma hier_bus slack owed fl rest q s b : hier_ok slack owed fl rest q s → 0 ≤ b < Z.of_nat (length (buses s)) →
  ∃ c l t, aget (buses s) b = Ok (c, l) ∧ time_of s c = Ok t.
Proof.
  intros Hs Hb. destruct (aget_ok (buses s) b Hb) as ([c l] & El & E).
  pose proof (h_sources _ _ _ _ _ _ Hs c l (list_elem_of_lookup_2 _ _ _ El)) as Hc. exists c, l.
  destruct c as [|i|n]; simpl; [by eexists| |].
  - destruct (aget_ok (caches s) i) as (x & _ & ->); [rewrite (h_caches _ _ _ _ _ _ Hs); lia|]. by eexists.
  - rewrite <- (h_ticks _ _ _ _ _ _ Hs) in Hc. destruct (aget_ok (core_cycles s) n Hc) as (x & _ & ->). by eexists.
Qed.

Lemma link_use_ok slack owed fl rest q s b size pf : hier_ok slack owed fl rest q s → 0 ≤ b < Z.of_nat (length (buses s)) →
  wp (link_use s b size pf) (λ s', quiet s s' ∧ MC s' = MC s ∧ dram s' = dram s).
Proof.
  intros Hs Hb. destruct (hier_bus _ _ _ _ _ s b Hs Hb) as (c & l & t & E & Et). unfold link_use. rewrite E. cbn [rbind]. rewrite Et. cbn [rbind].
  rewrite aset_ok by lia. simpl. split; [|done]. split; try done. simpl. rewrite list_fmap_insert. simpl.
  apply list_insert_id. rewrite list_lookup_fmap. apply aget_inv in E as [_ ->]. done.
Qed.

Lemma fsb_quiet s size pf : quiet s (fsb_use s size pf).
Proof. done. Qed.

(** ** Taking a cache out and putting it back *)

(** Fewer caches at rest, and another account of what the others owe and have sent. *)
Lemma hier_change slack owed owed' fl fl' (rest rest' : Z → Prop) q q' s m v : hier_ok slack owed fl rest q s →
  (∀ j, rest' j → rest j) → length owed' = length owed →
  (∀ j, rest' j → 0 ≤ j → owed' !! Z.to_nat j = owed !! Z.to_nat j ∧ fl' j ≡ₚ fl j) →
  routed owed' → mc_routed q' →
  (∀ j, upward j owed' q' ≡ₚ fl' j) → m ≡ₚ v ++ (owed' ≫= λ T, T ≫= cores_of) →
  hier_ok slack owed' fl' rest' q' (with_books m v s).
Proof.
  intros [] Hr Hl Hs Hrouted Hlast Hup Hb. split; try done.
  - congruence.
  - intros j n c En Ec Hj. destruct (h_rest0 j n c En Ec (Hr j Hj)) as (H1 & H2 & H3).
    apply aget_inv in En as [Hj0 _]. destruct (Hs j Hj) as [-> ->]; [lia|]. done.
Qed.

(** A cache that is being processed comes to rest. *)
Lemma hier_put slack owed fl (rest : Z → Prop) q s u n c l : hier_ok slack owed fl rest q s →
  aget nodes u = Ok n → aset (caches s) u c = Ok l → cache_at slack n c (uncore_sim_cycle s) →
  (∃ T, owed !! Z.to_nat u = Some T ∧ T ≡ₚ outstanding c) → fl u ≡ₚ flying (regs c) →
  hier_ok slack owed fl (λ j, rest j ∨ j = u) q (with_caches l s).
Proof.
  intros [] En El Hc Ho Hf. split; try done; simpl.
  - by rewrite (length_aset _ _ _ _ El).
  - intros j n' c' En' Ec' Hj. destruct (decide (j = u)) as [->|Hne].
    + rewrite (aget_aset_eq _ _ _ _ El) in Ec'. injection Ec' as <-. rewrite En in En'. by injection En' as <-.
    + rewrite (aget_aset_ne _ _ _ _ _ El) in Ec' by done. apply h_rest0; [done..|]. by destruct Hj.
Qed.

Lemma hier_rest slack owed fl (rest rest' : Z → Prop) q s : (∀ j, rest' j → rest j) → hier_ok slack owed fl rest q s →
  hier_ok slack owed fl rest' q s.
Proof. intros Hr []. split; try done. intros j n c En Ec Hj. by apply h_rest0, Hr. Qed.

(** The books do not change. *)
Lemma books_same s : with_books (made s) (served s) s = s.
Proof. by destruct s. Qed.

(** An account that gains or loses a request. *)
Lemma upward_change owed i T T' q j : owed !! i = Some T →
  ∃ R, upward j owed q ≡ₚ (T ≫= up_of j) ++ R ∧ upward j (<[i := T']> owed) q ≡ₚ (T' ≫= up_of j) ++ R.
Proof.
  intros Ei. unfold upward. destruct (bind_split (λ T, T ≫= up_of j) owed i T Ei) as (R & E & HR).
  exists (R ++ (q ≫= up_mc j)). rewrite E, HR. by rewrite <- !app_assoc.
Qed.

Lemma routed_insert owed i T : routed owed → routed_to (Z.of_nat i) T → routed (<[i := T]> owed).
Proof.
  intros Ho Ht k T' Ek. apply list_lookup_insert_Some in Ek as [(<- & <- & _)|[_ Ek]]; [done|by apply Ho].
Qed.

(** *** The answer of a request lands *)

Lemma land_ok slack owed fl rest q s p n c b i pa cm d : 0 ≤ d < 2 ^ 32 → hier_ok slack owed fl (λ j, rest j ∧ j ≠ p) q s →
  aget nodes p = Ok n → aget (caches s) p = Ok c → cache_at slack n c (uncore_sim_cycle s) → 0 ≤ slack → rest p →
  (∃ T, owed !! Z.to_nat p = Some T ∧ T ≡ₚ outstanding c) → (b, i, pa, cm) :: fl p ≡ₚ flying (regs c) →
  wp (arrive nodes s p b i d) (λ s', hier_ok slack owed fl rest q s' ∧ ∃ l, s' = with_caches l s).
Proof.
  intros Hd Hs En Ec [Hr Ht] Hsl Hp (T & ET & HT) Hf. unfold arrive. rewrite En. cbn [rbind]. rewrite Ec. cbn [rbind].
  pose proof (n_config _ _ (hier_node _ _ _ _ _ _ _ _ Hs En)) as Hk.
  assert ((b, i, pa, cm) ∈ flying (regs c)) as Hin by (rewrite <- Hf; apply list_elem_of_here).
  destruct (flying_inv (n_params n) _ _ _ _ _ (ok_regs _ _ _ (t_ok _ _ _ Hr)) Hin) as (Hb & Hi & a & Ea & Hfl & Hfly).
  destruct (in_flight_started a Hfl) as [Hst Hw].
  pose proof (c_latency _ Hk). assert (cache_get_cycle (n_params n) c (the_clock s) + d ≠ TICK_T_MAX) as Ht'.
  { unfold timely, the_clock in *. lia. }
  eapply wp_bind, wp_mono; [by apply (arrived_ok (n_params n) (roster_of n) Hk c (the_clock s) b i d a)|].
  intros c' (Hr' & Ec' & Ho & Hfl'). rewrite Hfly in Hfl'. rewrite <- Hf in Hfl'. apply (Permutation_app_inv_l [_]) in Hfl'.
  destruct (hier_cache _ _ _ _ _ _ _ _ Hs En) as [Hj _].
  rewrite aset_ok by done. cbn [rbind wp]. split; [|by eexists].
  eapply (hier_rest _ _ _ (λ j, (rest j ∧ j ≠ p) ∨ j = p)); [intros j Hj'; destruct (decide (j = p)); [by right|by left]|].
  eapply hier_put; [done|exact En|by apply aset_ok| | |done].
  - split; [done|]. by rewrite (same_cycle (n_params n) c c' (mk_clock _) Ec').
  - exists T. split; [done|]. by rewrite HT, Ho.
Qed.

(** *** A request joins those that a cache owes *)

Lemma join_ok slack owed fl fl' (rest : Z → Prop) q s u n c c' T a m v : hier_ok slack owed fl rest q s → rest u →
  aget nodes u = Ok n → aget (caches s) u = Ok c → cache_at slack n c' (uncore_sim_cycle s) →
  owed !! Z.to_nat u = Some T → a :: T ≡ₚ outstanding c' → regs c' = regs c →
  (∀ p, prev_cp a = Some p → below p u ∧ 0 ≤ acore a) →
  (∀ j, up_of j a ++ fl j ≡ₚ fl' j) → (∀ j, rest j → up_of j a = []) →
  (∀ B, made s ≡ₚ served s ++ B → m ≡ₚ v ++ cores_of a ++ B) →
  hier_ok slack (<[Z.to_nat u := a :: T]> owed) fl' rest q (with_books m v (with_caches (<[Z.to_nat u := c']> (caches s)) s)).
Proof.
  intros Hs Hu En Ec Hc' ET HT Er Hp Hup Hrest Hb. apply aget_inv in En as Hun. destruct Hun as [Hu0 _].
  destruct (hier_cache _ _ _ _ _ _ _ _ Hs En) as [Hlt _]. apply lookup_lt_Some in ET as Hlto.
  destruct (h_rest _ _ _ _ _ _ Hs u n c En Ec Hu) as (_ & _ & Hfu).
  eapply (hier_rest _ _ _ (λ k, (rest k ∧ k ≠ u) ∨ k = u)).
  { intros k Hk. destruct (decide (k = u)); [by right|by left]. }
  apply (hier_put slack _ fl' (λ k, rest k ∧ k ≠ u) q (with_books m v s) u n c'); try done.
  - apply (hier_change slack owed _ fl fl' rest (λ k, rest k ∧ k ≠ u) q q s); [done|by intros k []|by rewrite length_insert|..].
    + intros j [Hj Hne] Hj0. rewrite list_lookup_insert_ne by lia. split; [done|]. by rewrite <- Hup, Hrest.
    + apply routed_insert; [apply Hs|]. intros x p [->|Hx]%elem_of_cons; rewrite Z2Nat.id by lia; [apply Hp|].
      pose proof (h_routed _ _ _ _ _ _ Hs _ _ ET) as HrT. rewrite Z2Nat.id in HrT by lia. by apply HrT.
    + apply Hs.
    + intros j. destruct (upward_change owed (Z.to_nat u) T (a :: T) q j ET) as (R & E1 & ->).
      rewrite bind_cons, <- app_assoc, <- E1, <- Hup. f_equiv. apply Hs.
    + destruct (bind_split (λ T, T ≫= cores_of) owed (Z.to_nat u) T ET) as (R & E1 & ->).
      rewrite bind_cons, <- app_assoc, <- E1. apply Hb, Hs.
  - by apply aset_ok.
  - exists (a :: T). split; [by apply list_lookup_insert_eq|done].
  - by rewrite <- Hup, (Hrest u Hu), Hfu, Er.
Qed.

(** ** The hierarchy keeps the contract of each cache *)

Definition mc_good s : Prop := mc.ok (MC s) ∧ dram_ok (uncore_sim_cycle s) (dram s).

(** What cache [i] relies on while it is processed: it owes [T] and has [F] in flight. *)
Definition seen_ok (slack i : Z) (T : list action) (F : list flight) s : Prop :=
  mc_good s ∧ ∃ owed fl, owed !! Z.to_nat i = Some T ∧ fl i ≡ₚ F ∧ hier_ok slack owed fl (λ j, j ≠ i) (mc.queue (MC s)) s.

Lemma seen_quiet slack i T F s s' : quiet s s' → MC s' = MC s → dram s' = dram s → seen_ok slack i T F s → seen_ok slack i T F s'.
Proof.
  intros Hq E1 E2 [[H1 H2] (owed & fl & H3 & H4 & H5)]. split; [split; [by rewrite E1|by rewrite E2, (q_clock _ _ Hq)]|].
  exists owed, fl. split; [done|]. split; [done|]. rewrite E1. by eapply hier_quiet.
Qed.

Lemma books_change s owed i T T' : made s ≡ₚ served s ++ (owed ≫= λ T, T ≫= cores_of) → owed !! i = Some T →
  ∃ R, made s ≡ₚ served s ++ (T ≫= cores_of) ++ R ∧ (<[i := T']> owed ≫= λ T, T ≫= cores_of) ≡ₚ (T' ≫= cores_of) ++ R.
Proof.
  intros Hb Ei. destruct (bind_split (λ T, T ≫= cores_of) owed i T Ei) as (R & E & HR). exists R. by rewrite <- E, HR.
Qed.

(** The cache owes another list, whose requests from below are the same. *)
Lemma seen_owe slack i T T' F F' s m v : 0 ≤ i → seen_ok slack i T F s → F ≡ₚ F' → routed_to i T' →
  (∀ j, T' ≫= up_of j ≡ₚ T ≫= up_of j) →
  (∀ R, made s ≡ₚ served s ++ (T ≫= cores_of) ++ R → m ≡ₚ v ++ (T' ≫= cores_of) ++ R) →
  seen_ok slack i T' F' (with_books m v s).
Proof.
  intros Hi [Hg (owed & fl & Eo & Ef & Hs)] HF Hr Hup Hb. split; [done|]. exists (<[Z.to_nat i := T']> owed), fl.
  apply lookup_lt_Some in Eo as Hlt. split; [by apply list_lookup_insert_eq|]. split; [by rewrite <- HF|].
  eapply (hier_change _ owed _ fl fl _ _ (mc.queue (MC s))); try done.
  - by rewrite length_insert.
  - intros j Hj Hj0. by rewrite list_lookup_insert_ne by lia.
  - apply routed_insert; [apply Hs|]. by rewrite Z2Nat.id.
  - apply Hs.
  - intros j. destruct (upward_change owed (Z.to_nat i) T T' (mc.queue (MC s)) j Eo) as (R & E1 & ->).
    rewrite Hup, <- E1. apply Hs.
  - destruct (books_change s owed (Z.to_nat i) T T' (h_books _ _ _ _ _ _ Hs) Eo) as (R & E1 & ->). by apply Hb.
Qed.

Lemma seen_routed slack i T F s : 0 ≤ i → seen_ok slack i T F s → routed_to i T.
Proof. intros Hi [_ (owed & fl & Eo & _ & Hs)]. pose proof (h_routed _ _ _ _ _ _ Hs _ _ Eo) as Hr. by rewrite Z2Nat.id in Hr. Qed.

Lemma seen_perm slack i T T' F F' s : 0 ≤ i → T ≡ₚ T' → F ≡ₚ F' → seen_ok slack i T F s → seen_ok slack i T' F' s.
Proof.
  intros Hi HT HF Hs. rewrite <- (books_same s). eapply seen_owe; [done|done|done| | |].
  - intros a p Ha. rewrite <- HT in Ha. by eapply seen_routed.
  - intros j. by rewrite HT.
  - intros R. by rewrite HT.
Qed.

Lemma seen_prefetch slack i T F s r : 0 ≤ i → cmd r = CACHE_PREFETCH → prev_cp r = None → op r = None →
  seen_ok slack i T F s → seen_ok slack i (r :: T) F s.
Proof.
  intros Hi Hc Hp Ho Hs. rewrite <- (books_same s). eapply seen_owe; [done|done|done| | |].
  - intros a p [->|Ha]%elem_of_cons; [by rewrite Hp|by eapply seen_routed].
  - intros j. rewrite bind_cons. unfold up_of at 1. by rewrite Hp, decide_False.
  - intros R. rewrite bind_cons. unfold cores_of at 2, of_core. by rewrite Hc, Hp, Ho, !bool_decide_true.
Qed.

Section laws.
Variables (slack i : Z) (n : node).
Hypothesis Hslack : 0 ≤ slack.
Hypothesis En : aget nodes i = Ok n.

Lemma index_nonneg : 0 ≤ i.
Proof. apply aget_inv in En as [? _]. lia. Qed.

(** The controller takes note of a write; its request has a core. *)
Lemma track_writer_ok ctl a s : 0 ≤ acore a →
  wp (track_writer ctl a s) (λ s', ∃ w, s' = with_writers w s).
Proof.
  intros Ha. assert (∃ w, s = with_writers w s) as Hs by (exists (writers s); by destruct s).
  unfold track_writer. destruct ctl; [done|]. destruct (cmd a); try done; [|by eexists].
  rewrite (proj2 (Z.eqb_neq _ _)) by lia. by eexists.
Qed.

(** A request that goes up is owed by the next level from now on. *)
Lemma send_next_ok T F s now b j a u : seen_ok slack i T F s → next_level n = Some u → alive a = true → act_ok (n_params n) (roster_of n) a →
  GET_MSHR_BANK (n_params n) (paddr a) = b →
  wp (send_request_upstream nodes fsb_DDR i s now b j a) (λ '(s', a', sent),
    seen_ok slack i T (if sent : bool then (b, j, paddr a, cmd a) :: F else F) s' ∧
    uncore_sim_cycle s' = uncore_sim_cycle s ∧ a' = if sent : bool then with_started now a else a).
Proof.
  intros Hseen Eu Ha Hact Hb. pose proof Hseen as [Hg (owed & fl & Eo & Ef & Hs)]. pose proof index_nonneg as Hi.
  destruct (hier_node _ _ _ _ _ _ _ _ Hs En) as [Hk _ _ Hl]. rewrite Eu in Hl. destruct Hl as [Hne (nu & Enu & Hro & Hbank) Hbus].
  pose proof (roster_some n u _ Eu (a_core _ _ _ Hact Ha)) as Hcore.
  destruct (hier_cache _ _ _ _ _ _ _ _ Hs Enu) as (Hu & c & Ec).
  destruct (h_rest _ _ _ _ _ _ Hs u nu c Enu Ec Hne) as ([Hr Ht] & (Tu & ETu & HTu) & Hfu).
  pose proof (n_config _ _ (hier_node _ _ _ _ _ _ _ _ Hs Enu)) as Hku.
  unfold send_request_upstream. rewrite En. cbn [rbind]. rewrite Eu, Enu. cbn [rbind]. rewrite Ec. cbn [rbind].
  destruct (enqueuable_ok (n_params nu) (roster_of nu) Hku c (paddr a) (t_ok _ _ _ Hr)) as [room Eroom]. rewrite Eroom. cbn [rbind].
  destruct room; [|done]. eapply wp_bind, wp_mono; [apply track_writer_ok; lia|]. intros s0 (w & ->).
  assert (hier_ok slack owed fl (λ j, j ≠ i) (mc.queue (MC s)) (with_writers w s)) as Hs0 by by apply (hier_quiet _ _ _ _ _ s).
  change (the_clock (with_writers w s)) with (the_clock s). change (caches (with_writers w s)) with (caches s).
  set (a' := new_action (acore a) (Some i) (cmd a) (PC a) (paddr a) (action_id a) b j (op a) (cb a) (miss_cb a) None (get_action_id a) false).
  pose proof (enqueue_ok (n_params nu) (roster_of nu) Hku c (the_clock s) (acore a) (Some i) (cmd a) (PC a) (paddr a) (action_id a) b j
    (op a) (cb a) (miss_cb a) None (get_action_id a) false (t_ok _ _ _ Hr) (t_sound _ _ _ Hr)) as He.
  eapply wp_bind, wp_mono; [apply He; [| |done]|].
  - pose proof (a_write _ _ _ Hact Ha) as Hw. destruct Hact. split; simpl; try done; try auto.
    + intros _. by rewrite <- Hb, Hbank.
    + destruct (cache_set.is_write (cmd a)); [|done]. simpl in *.
      destruct (cache_set.read_only (kcfg (n_params nu))); [by rewrite Hro in Hw|done].
    + by right.
  - pose proof (c_latency _ Hku). unfold timely, in_time, the_clock in *. lia.
  - intros c' (Hr' & Ec' & Ho & Eregs). fold a' in Ho. rewrite aset_ok by lia. cbn [rbind].
    destruct (next_bus n) as [lb|] eqn:Elb; [|done]. cbn [deref of_option rbind].
    set (s1 := with_caches _ (with_writers w s)). set (fl' := λ k, if decide (k = i) then (b, j, paddr a, cmd a) :: fl k else fl k).
    assert (hier_ok slack (<[Z.to_nat u := a' :: Tu]> owed) fl' (λ k, k ≠ i) (mc.queue (MC s)) s1) as Hs1.
    { apply (join_ok slack owed fl fl' (λ k, k ≠ i) _ (with_writers w s) u nu c c' Tu a' (made s) (served s)); try done.
      - split; [done|]. by rewrite (same_cycle (n_params nu) c c' (mk_clock _) Ec').
      - by rewrite HTu, Ho.
      - intros p [= <-]. split; [by exists n|simpl; lia].
      - intros k. unfold up_of, fl'. simpl. destruct (decide (k = i)) as [->|]; [by rewrite decide_True|].
        by rewrite decide_False by congruence.
      - intros k Hk'. unfold up_of. simpl. by rewrite decide_False by congruence. }
    pose proof (nodes_buses _ (h_nodes _ _ _ _ _ _ Hs1) i n lb En Elb) as Hlb.
    eapply wp_bind, wp_mono; [exact (link_use_ok _ _ _ _ _ s1 lb _ _ Hs1 Hlb)|]. intros s2 (Hq & E1 & E2). simpl.
    split; [|by rewrite (q_clock _ _ Hq)]. apply (seen_quiet slack i T _ s1 s2 Hq E1 E2). split; [done|].
    exists (<[Z.to_nat u := a' :: Tu]> owed), fl'. split; [|split; [|exact Hs1]].
    + apply aget_inv in Enu as [? _]. by rewrite list_lookup_insert_ne by lia.
    + unfold fl'. rewrite decide_True by done. by rewrite Ef.
Qed.

(** From the last level it goes to the memory controller. *)
Lemma send_MC_ok T F s now b j a : seen_ok slack i T F s → next_level n = None → alive a = true →
  wp (send_request_upstream nodes fsb_DDR i s now b j a) (λ '(s', a', sent),
    seen_ok slack i T (if sent : bool then (b, j, paddr a, cmd a) :: F else F) s' ∧
    uncore_sim_cycle s' = uncore_sim_cycle s ∧ a' = if sent : bool then with_started now a else a).
Proof.
  intros Hseen Eu Ha. pose proof Hseen as [[Hmc Hd] (owed & fl & Eo & Ef & Hs)].
  destruct (hier_node _ _ _ _ _ _ _ _ Hs En) as [Hk Hline _ _].
  unfold send_request_upstream. rewrite En. cbn [rbind]. rewrite Eu.
  destruct (mc.enqueuable (MC s)) eqn:Eroom; [|done]. set (r := mc.mk_action _ _ _ _ _ _ _ _ _ _ _ _ _ _ _).
  eapply wp_bind, wp_mono; [apply (mc.enqueue_refines (uncore_sim_cycle s) (MC s) r); [done|done|done|]|].
  { simpl. unfold linesize. split; [apply Z.lt_pred_le, Z.pow_pos_nonneg; lia|apply Z.pow_lt_mono_r; lia]. }
  intros m' [[Hmc' Em] _]. injection Em as Eq _ _. simpl. split; [|done].
  set (s' := fsb_use _ _ _). set (fl' := λ k, if decide (k = i) then (b, j, paddr a, cmd a) :: fl k else fl k).
  split; [done|]. exists owed, fl'. split; [done|]. split; [unfold fl'; by rewrite decide_True, Ef|].
  apply (hier_quiet slack owed fl' _ _ s s'); [done|]. simpl. rewrite Eq, <- (books_same s).
  eapply (hier_change slack owed owed fl fl' _ _ (mc.queue (MC s))); try done; try apply Hs.
  - intros k Hk' _. split; [done|]. unfold fl'. by rewrite decide_False.
  - intros x p [Hx|Hx]%elem_of_app; [by apply (h_last _ _ _ _ _ _ Hs)|]. apply list_elem_of_singleton in Hx as ->.
    intros [= <-]. by exists n.
  - intros k. unfold upward. rewrite bind_app. pose proof (h_up _ _ _ _ _ _ Hs k) as Hup. unfold upward in Hup.
    rewrite app_assoc, Hup. simpl. unfold up_mc, fl'. simpl. destruct (decide (k = i)) as [->|Hne].
    + rewrite decide_True by done. simpl. apply Permutation_app_comm.
    + rewrite decide_False by (by intros [[= ->] _]). simpl. by rewrite app_nil_r.
Qed.

(** An answer to a request of the cores goes into the books. *)
Lemma answer_core_ok T F s a : seen_ok slack i (body a :: T) F s → prev_cp a = None →
  wp (send_response_downstream nodes i s a) (λ s', seen_ok slack i T F s' ∧ uncore_sim_cycle s' = uncore_sim_cycle s).
Proof.
  intros Hseen Ep. pose proof index_nonneg as Hi. unfold send_response_downstream. rewrite Ep.
  assert (routed_to i T) as Hr by (intros x y Hx; eapply (seen_routed _ _ _ _ _ Hi Hseen); by apply list_elem_of_further).
  assert (∀ j, T ≫= up_of j ≡ₚ (body a :: T) ≫= up_of j) as Hup.
  { intros j. rewrite bind_cons. unfold up_of at 2. simpl. by rewrite Ep, decide_False. }
  change (of_core a) with (of_core (body a)). simpl. destruct (of_core (body a)) eqn:Ec; (split; [|done]).
  - eapply seen_owe; [done|exact Hseen|done..|]. intros R HR. rewrite bind_cons in HR. unfold cores_of at 1 in HR. rewrite Ec in HR.
    rewrite HR. solve_Permutation.
  - rewrite <- (books_same s). eapply seen_owe; [done|exact Hseen|done..|]. intros R HR. rewrite bind_cons in HR.
    unfold cores_of at 1 in HR. by rewrite Ec in HR.
Qed.

(** An answer is delayed by the penalty or not at all. *)
Lemma sharing_delay_ok ctl a s : 0 ≤ acore a → match ctl with none => True | const p => 0 ≤ p < 2 ^ 32 end →
  0 ≤ i < Z.of_nat (length (requests s)) →
  wp (sharing_delay i ctl a s) (λ '(s', d), quiet s s' ∧ MC s' = MC s ∧ dram s' = dram s ∧ buses s' = buses s ∧ 0 ≤ d < 2 ^ 32).
Proof.
  intros Ha Hp Hi. unfold sharing_delay. destruct ctl as [|penalty]; [done|]. apply wp_bind, (wp_mono _ (λ _, True)).
  { destruct (writers s !! paddr a); [|done]. case_match; [done|]. by rewrite (proj2 (Z.eqb_neq _ _)) by lia. }
  intros shared _. destruct (aget_ok (requests s) i Hi) as ([sh pr] & _ & ->). cbn [rbind]. rewrite aset_ok by done. simpl.
  split_and!; try done; try (by destruct shared; lia). split; try done. simpl. by rewrite length_insert.
Qed.

(** An answer to a cache below lands there. *)
Lemma answer_below_ok T F s a p : seen_ok slack i (body a :: T) F s → prev_cp a = Some p →
  wp (send_response_downstream nodes i s a) (λ s', seen_ok slack i T F s' ∧ uncore_sim_cycle s' = uncore_sim_cycle s).
Proof.
  intros Hseen Ep. pose proof Hseen as [Hg (owed & fl & Eo & Ef & Hs)]. pose proof index_nonneg as Hi.
  destruct (seen_routed _ _ _ _ _ Hi Hseen (body a) p (list_elem_of_here _ _) Ep) as [(np & Enp & Eup) Hcore].
  destruct (hier_node _ _ _ _ _ _ _ _ Hs Enp) as [_ _ _ Hl]. rewrite Eup in Hl. destruct Hl as [Hne _ Hbus].
  unfold send_response_downstream. rewrite Ep, En. cbn [rbind].
  pose proof (aget_inv _ _ _ En) as [Hi1 _]. pose proof (aget_inv _ _ _ Enp) as [Hp1 _].
  eapply wp_bind, wp_mono; [apply sharing_delay_ok; [exact Hcore|apply (n_penalty _ _ (hier_node _ _ _ _ _ _ _ _ Hs En))|by rewrite (h_requests _ _ _ _ _ _ Hs)]|].
  intros [s1 d] (Hq1 & E1 & E2 & E3 & Hd). rewrite Enp. cbn [rbind].
  destruct (next_bus np) as [lb|] eqn:Elb; [|done]. cbn [deref of_option rbind].
  pose proof (hier_quiet _ _ _ _ _ _ _ Hq1 Hs) as Hs1.
  pose proof (nodes_buses _ (h_nodes _ _ _ _ _ _ Hs1) p np lb Enp Elb) as Hlb.
  eapply wp_bind, wp_mono; [exact (link_use_ok _ _ _ _ _ s1 lb _ _ Hs1 Hlb)|]. intros s2 (Hq2 & E4 & E5). cbn [rbind].
  pose proof (hier_quiet _ _ _ _ _ _ _ Hq2 Hs1) as Hs2.
  destruct (hier_cache _ _ _ _ _ _ _ _ Hs2 Enp) as (_ & c & Ec).
  destruct (h_rest _ _ _ _ _ _ Hs2 p np c Enp Ec ltac:(congruence)) as (Hc & HT & Hfp).
  set (q := mc.queue (MC s)) in *. set (owed' := <[Z.to_nat i := T]> owed).
  set (fl' := λ k, if decide (k = p) then upward p owed' q else fl k).
  assert (∀ j, upward j owed q ≡ₚ up_of j (body a) ++ upward j owed' q) as Hup.
  { intros j. destruct (upward_change owed (Z.to_nat i) _ T q j Eo) as (R & E6 & E7). unfold owed'. by rewrite E6, E7, bind_cons, app_assoc. }
  assert (hier_ok slack owed' fl' (λ j, j ≠ i ∧ j ≠ p) q s2) as Hs3.
  { rewrite <- (books_same s2). apply (hier_change slack owed _ fl fl' (λ j, j ≠ i) _ q q s2); [done|by intros k []|by apply length_insert|..].
    - intros j [Hj Hjp] Hj0. unfold owed', fl'. rewrite list_lookup_insert_ne by lia. by rewrite decide_False.
    - apply routed_insert; [apply Hs2|]. rewrite Z2Nat.id by done. intros x y Hx.
      eapply (seen_routed _ _ _ _ _ Hi Hseen). by apply list_elem_of_further.
    - apply Hs2.
    - intros j. unfold fl'. destruct (decide (j = p)) as [->|Hj]; [done|].
      rewrite <- (h_up _ _ _ _ _ _ Hs2 j), Hup. unfold up_of. simpl. by rewrite decide_False by congruence.
    - destruct (books_change s2 owed (Z.to_nat i) _ T (h_books _ _ _ _ _ _ Hs2) Eo) as (R & E6 & E7). unfold owed'. rewrite E7.
      rewrite bind_cons in E6. unfold cores_of at 1, of_core in E6. simpl in E6. by rewrite Ep in E6. }
  eapply wp_mono; [apply (land_ok slack owed' fl' (λ j, j ≠ i) q s2 p np c (MSHR_bank a) (MSHR_index a) (paddr a) (cmd a) d); try done|].
  - destruct HT as (Tp & ETp & HTp). exists Tp. unfold owed'. by rewrite list_lookup_insert_ne by lia.
  - unfold fl'. rewrite decide_True by done. rewrite <- Hfp, <- (h_up _ _ _ _ _ _ Hs2 p), Hup. unfold up_of. simpl.
    by rewrite decide_True.
  - intros s3 (Hs4 & l & ->). split; [|simpl; by rewrite (q_clock _ _ Hq2), (q_clock _ _ Hq1)].
    split; [destruct Hg; split; simpl; [by rewrite E4, E1|by rewrite E5, E2, (q_clock _ _ Hq2), (q_clock _ _ Hq1)]|].
    exists owed', fl'. split; [apply list_lookup_insert_eq; by eapply lookup_lt_Some|]. split.
    + unfold fl'. by rewrite decide_False by congruence.
    + simpl. by rewrite E4, E1.
Qed.

Lemma seen_cores T F s x : seen_ok slack i T F s → seen_ok slack i T F (with_cores x s).
Proof. by apply seen_quiet. Qed.

(** The contract of cache [i]. *)
Definition seen_laws : CacheEnvLaws (seen_from (X := X) (D := D) i) (H := seen_env nodes fsb_DDR i) (n_params n) (roster_of n).
Proof.
  refine {| env_ok T F s := seen_ok slack i T F s |}.
  - intros T T' F F' s HT HF. apply seen_perm; [apply index_nonneg|done|done].
  - intros T F s r Hc Hp Ho. apply seen_prefetch; [apply index_nonneg|done..].
  - intros T F s now b j a Hs Ha _ Hact Hb _. simpl.
    destruct (next_level n) as [u|] eqn:Eu.
    + eapply wp_mono; [by apply (send_next_ok T F s now b j a u)|]. by intros [[s' a'] []].
    + eapply wp_mono; [by apply (send_MC_ok T F s now b j a)|]. by intros [[s' a'] []].
  - intros T F s a Hs Ha. simpl. destruct (prev_cp a) as [p|] eqn:Ep; [by eapply answer_below_ok|by apply answer_core_ok].
  - intros T F s f o Hs. simpl. split; [by apply seen_cores|done].
  - intros T F s f o lat Hs. simpl. split; [by apply seen_cores|done].
  - intros T F s Hs. simpl. destruct (x_magic _) as [x m]. split; [by apply seen_cores|done].
  - intros T F s Hs. simpl. destruct (x_random _) as [x m]. split; [by apply seen_cores|done].
Defined.

End laws.
End hier.
End hierarchy.
