(* ===== verification/HierarchyRun.v ===== *)
(** * HierarchyRun: runs of the memory hierarchy

    New caches, an empty memory controller and a DRAM, run through any sequence of cycles of
    the caches, cycles of the memory controller, requests of the cores, prefetches and ticks
    of the clocks.  Nothing fails, and no request of the cores is lost or answered twice,
    through however many levels it goes. *)

From S2P Require Import Prelude Misc CacheSet CacheHeap Dram MemCtrl Bus CacheState CacheMSHR CachePipes CachePrefetch Prefetch CacheProcess CacheInv CacheStages CacheRun Coherence Hierarchy.

Module hierarchy_run.
Import cache_state cache_mshr cache_pipes cache_prefetch cache_process cache_inv cache_stages cache_cycle cache_run coherence hierarchy.

(** What happens; the order is anyone's: sim-loop.cpp and the pipeline models fix one. *)
Inductive event (X : Type) : Type :=
  | Process (i : Z)
  | Step_MC
  | Ask (i : Z) (a : action)
  | Take_prefetch (i : Z) (allowed : bool)
  | Uncore_tick
  | Core_ticks (v : list Z) (x : X).
Arguments Process {X}.
Arguments Step_MC {X}.
Arguments Ask {X}.
Arguments Take_prefetch {X}.
Arguments Uncore_tick {X}.
Arguments Core_ticks {X}.

(** The prefetchers of a cache, and the sizes of its prefetch FIFO and filter. *)
Record options : Type := mk_options { o_prefetchers : list prefetcher; o_pff : Z; o_filter : Z; o_reset : Z }.

Section run.
Context {X D : Type} `{Client X} `{HL : DramLaws D}.
Variables (nodes : list node) (fsb_DDR : bool) (ncores : Z) (nclocks : nat).
Abbreviation hier := (hier X D).
Implicit Types (s : hier) (a : action).

Definition happen (ev : event X) s : result hier :=
  match ev with
  | Process i => process nodes fsb_DDR i s
  | Step_MC => step_MC nodes fsb_DDR s
  | Ask i a => request nodes i a s
  | Take_prefetch i allowed => prefetch nodes i allowed s
  | Uncore_tick => Ok (with_clocks (core_cycles s) (uncore_sim_cycle s + 1) s)
  | Core_ticks v x => Ok (with_clocks v (uncore_sim_cycle s) (with_cores x s))
  end.

Fixpoint run (evs : list (event X)) s : result hier :=
  match evs with [] => Ok s | ev :: evs => let* s := happen ev s in run evs s end.

(** The order in which a core processes its data caches is one of the orders. *)
Lemma step_dcaches_happens DTLB2 DTLB DL2 DL1 s :
  step_dcaches nodes fsb_DDR DTLB2 DTLB DL2 DL1 s =
  run ([DTLB2; DTLB; DL2; DL1] ≫= λ o, match o with Some i => [Process i] | None => [] end) s.
Proof.
  unfold step_dcaches. destruct DTLB2, DTLB, DL2, DL1; simpl; repeat (destruct (process _ _ _ _) as [?|]; simpl; [|done]); done.
Qed.

(** New caches, buses, controllers and clocks. *)
Definition create_cache (n : node) (o : options) : cache :=
  prefetchers_create (o_prefetchers o) (o_pff o) 0 (o_filter o) (o_reset o) (cache_create (n_params n) ncores).

Definition create (opts : list options) (bs : list (clock_source * bus.t)) (f : bus.t) (size : Z) (fifo : bool) (d : D)
    (clocks : list Z) (x : X) : hier :=
  mk_hier (zip_with create_cache nodes opts) bs f (mc.create size fifo) d ∅ (replicate (length nodes) (0, 0)) clocks 0 x [] [].

(** What the cores promise: the caches they name exist, and their requests are those that
    the cache takes. *)
Definition event_ok (ev : event X) : Prop :=
  match ev with
  | Process i | Take_prefetch i _ => 0 ≤ i < Z.of_nat (length nodes)
  | Ask i a => prev_cp a = None ∧ of_core a = true ∧ ∃ n, aget nodes i = Ok n ∧ req_ok (n_params n) (roster_of ncores n) a
  | Core_ticks v _ => length v = nclocks
  | _ => True
  end.

Definition inv (slack : Z) s : Prop :=
  mc_good s ∧ ∃ owed fl, hier_ok nodes ncores nclocks slack owed fl (λ _, True) (mc.queue (MC s)) s.

(** ** Each event keeps the invariant *)

Lemma timely_less slack slack' k t : slack' ≤ slack → timely slack k t → timely slack' k t.
Proof. unfold timely. lia. Qed.

Lemma hier_less slack slack' owed fl rest q s : slack' ≤ slack → hier_ok nodes ncores nclocks slack owed fl rest q s →
  hier_ok nodes ncores nclocks slack' owed fl rest q s.
Proof.
  intros Hle []. split; try done; [|lia]. intros j n c En Ec Hj. destruct (h_rest0 j n c En Ec Hj) as ([H1 H2] & H3).
  split; [|done]. split; [done|by eapply timely_less].
Qed.

Lemma process_ok slack i s : 0 ≤ slack → 0 ≤ i < Z.of_nat (length nodes) → inv (1 + slack) s →
  wp (process nodes fsb_DDR i s) (inv slack).
Proof.
  intros Hsl Hi [Hg (owed & fl & Hs)]. destruct (aget_ok nodes i Hi) as (n & _ & En). unfold process. rewrite En. cbn [rbind].
  destruct (hier_cache _ _ _ _ _ _ _ _ _ _ _ Hs En) as (_ & c & Ec). rewrite Ec. cbn [rbind].
  destruct (h_rest _ _ _ _ _ _ _ _ _ Hs i n c En Ec I) as ([Hr Ht] & (T & ET & HT) & Hf).
  pose proof (n_config _ _ _ (hier_node _ _ _ _ _ _ _ _ _ _ _ Hs En)) as Hk. pose proof (c_latency _ Hk) as Hlat.
  assert (seen_ok nodes ncores nclocks slack i T (fl i) s) as Hseen.
  { split; [done|]. exists owed, fl. split; [done|]. split; [done|]. eapply hier_rest; [|eapply hier_less; [|exact Hs]]; [done|lia]. }
  pose (L := seen_laws nodes fsb_DDR ncores nclocks slack i n Hsl En).
  assert (idle (H := seen_env nodes fsb_DDR i) (Hlaws := L) (n_params n) (roster_of ncores n) c s) as Hidle.
  { split; [done|]. exact (seen_perm nodes ncores nclocks slack i T _ (fl i) _ s (proj1 Hi) HT Hf Hseen). }
  assert (in_time (n_params n) (next_cycle (H := seen_env nodes fsb_DDR i) (n_params n) c s)) as Hnext.
  { pose proof (h_clock _ _ _ _ _ _ _ _ _ Hs). unfold timely, cache_get_cycle in Ht. unfold in_time, next_cycle. simpl in *.
    destruct (is_LLC (n_params n)); lia. }
  eapply wp_bind, wp_mono; [exact (cache_process_ok (Hlaws := L) (n_params n) (roster_of ncores n) Hk c s Hidle Hnext)|].
  intros [c' s'] [[Hr' [Hg' (owed' & fl' & ET' & Hf' & Hs')]] Et]. cbn [rbind].
  destruct (hier_cache _ _ _ _ _ _ _ _ _ _ _ Hs' En) as [Hi' _]. rewrite aset_ok by done. cbn [rbind wp].
  split; [done|]. exists owed', fl'.
  eapply (hier_rest _ _ _ _ _ _ (λ j, j ≠ i ∨ j = i)); [intros j _; destruct (decide (j = i)); [by right|by left]|].
  eapply hier_put; [exact Hs'|exact En|by apply aset_ok| |by eexists|done].
  split; [done|]. change (cache_get_cycle (n_params n) c' (mk_clock (uncore_sim_cycle s'))) with (cache_get_cycle (H := seen_env nodes fsb_DDR i) (n_params n) c' s').
  rewrite Et. unfold timely in *. destruct (hier_cache _ _ _ _ _ _ _ _ _ _ _ Hs En) as [_ _]. unfold in_time in Hnext.
  pose proof (h_clock _ _ _ _ _ _ _ _ _ Hs). unfold next_cycle in *. unfold cache_get_cycle in Ht. simpl in *.
  destruct (is_LLC (n_params n)); lia.
Qed.

(** A cache changed between its cycles. *)
Lemma put_back slack owed fl q s i n c' : hier_ok nodes ncores nclocks slack owed fl (λ j, j ≠ i) q s → aget nodes i = Ok n →
  cache_at ncores slack n c' (uncore_sim_cycle s) → (∃ T, owed !! Z.to_nat i = Some T ∧ T ≡ₚ outstanding c') → fl i ≡ₚ flying (regs c') →
  wp (aset (caches s) i c') (λ l, hier_ok nodes ncores nclocks slack owed fl (λ _, True) q (with_caches l s)).
Proof.
  intros Hs En Hc HT Hf. destruct (hier_cache _ _ _ _ _ _ _ _ _ _ _ Hs En) as [Hi _]. rewrite aset_ok by done. cbn [wp].
  eapply (hier_rest _ _ _ _ _ _ (λ j, j ≠ i ∨ j = i)); [intros j _; destruct (decide (j = i)); [by right|by left]|].
  eapply hier_put; [exact Hs|exact En|by apply aset_ok|done..].
Qed.

(** *** A cycle of the memory controller *)

(** The times of a request do not matter while it has not been answered. *)
Lemma upward_send owed q k r st f j : q !! k = Some r → upward j owed (<[k := mc.with_start st f r]> q) ≡ₚ upward j owed q.
Proof.
  intros Ek. unfold upward. f_equiv. destruct (bind_split (up_mc j) q k r Ek) as (R & E1 & E2). by rewrite E1, E2.
Qed.

Lemma mc_routed_insert q k r r' : mc_routed nodes q → q !! k = Some r → mc.prev_cp r' = mc.prev_cp r → mc_routed nodes (<[k := r']> q).
Proof.
  intros Hq Ek Er x p Hx Hp. apply list_elem_of_lookup in Hx as (j & Ej).
  apply list_lookup_insert_Some in Ej as [(<- & <- & _)|[_ Ej]].
  - apply (Hq r); [by eapply list_elem_of_lookup_2|by rewrite <- Er].
  - apply (Hq x); [by eapply list_elem_of_lookup_2|done].
Qed.

Lemma hier_queue slack owed fl q q' s : mc_routed nodes q' → (∀ j, upward j owed q' ≡ₚ upward j owed q) →
  hier_ok nodes ncores nclocks slack owed fl (λ _, True) q s → hier_ok nodes ncores nclocks slack owed fl (λ _, True) q' s.
Proof. intros Hq Hup []. split; try done. intros j. by rewrite Hup. Qed.

(** An answer of the memory controller. *)
Lemma mc_respond_ok slack owed fl q s k r : 0 ≤ slack → hier_ok nodes ncores nclocks slack owed fl (λ _, True) q s → q !! k = Some r →
  mc.prev_cp r ≠ None → mc.when_returned r = TICK_T_MAX →
  wp (mc.respond (MCEnv := mc_env nodes fsb_DDR) s (mc.with_return (uncore_sim_cycle s) r)) (λ s',
    (∃ fl', hier_ok nodes ncores nclocks slack owed fl' (λ _, True) (<[k := mc.with_return (uncore_sim_cycle s) r]> q) s') ∧
    MC s' = MC s ∧ dram s' = dram s ∧ uncore_sim_cycle s' = uncore_sim_cycle s).
Proof.
  intros Hsl Hs Ek Hp Hr. simpl. destruct (mc.prev_cp r) as [p|] eqn:Ep; [|done].
  destruct (h_last _ _ _ _ _ _ _ _ _ Hs r p) as (n & En & _); [by eapply list_elem_of_lookup_2|done|].
  destruct (hier_cache _ _ _ _ _ _ _ _ _ _ _ Hs En) as (_ & c & Ec).
  destruct (h_rest _ _ _ _ _ _ _ _ _ Hs p n c En Ec I) as (Hc & HT & Hf).
  set (r' := mc.with_return _ r). set (q' := <[k := r']> q).
  set (fl' := λ j, if decide (j = p) then upward p owed q' else fl j).
  assert (∀ j, upward j owed q ≡ₚ up_mc j r ++ upward j owed q') as Hup.
  { intros j. unfold upward, q'. destruct (bind_split (up_mc j) q k r Ek) as (R & E1 & E2). rewrite E1, E2.
    assert (up_mc j r' = []) as ->; [|solve_Permutation]. unfold up_mc. rewrite decide_False; [done|].
    intros [_ E]. simpl in E. pose proof (h_clock _ _ _ _ _ _ _ _ _ Hs). lia. }
  assert (hier_ok nodes ncores nclocks slack owed fl' (λ j, True ∧ j ≠ p) q' s) as Hs'.
  { rewrite <- (books_same s). apply (hier_change _ _ _ slack owed owed fl fl' (λ _, True) _ q q' s); try done; try apply Hs.
    - intros j [_ Hj] _. unfold fl'. by rewrite decide_False.
    - by apply (mc_routed_insert q k r); [apply Hs|..].
    - intros j. unfold fl'. destruct (decide (j = p)) as [->|Hj]; [done|].
      rewrite <- (h_up _ _ _ _ _ _ _ _ _ Hs j), Hup. unfold up_mc. by rewrite decide_False by (intros [? _]; congruence). }
  eapply wp_bind, wp_mono; [apply (land_ok nodes ncores nclocks slack owed fl' (λ _, True) q' s p n c (mc.MSHR_bank r) (mc.MSHR_index r) (mc.addr r) (mc.cmd r) 0); try done|].
  - unfold fl'. rewrite decide_True by done. rewrite <- Hf, <- (h_up _ _ _ _ _ _ _ _ _ Hs p), Hup. unfold up_mc. by rewrite decide_True.
  - intros s2 (Hs2 & l & ->). simpl. split; [|done]. exists fl'. eapply hier_quiet; [|exact Hs2]. done.
Qed.

(** The request that is answered leaves. *)
Lemma retire_upward now (s : mc.spec) j owed : now < TICK_T_MAX → upward j owed (mc.s_queue (mc.spec_retire now s)) ≡ₚ upward j owed (mc.s_queue s).
Proof.
  intros Hn. unfold mc.spec_retire. destruct (mc.s_queue s) as [|r q] eqn:Eq; [by rewrite Eq|].
  destruct (Z.leb_spec (mc.when_returned r) now); [|by rewrite Eq]. simpl. unfold upward. f_equiv. rewrite bind_cons.
  unfold up_mc at 2. by rewrite decide_False by (intros [_ ?]; lia).
Qed.

Lemma retire_routed now (s : mc.spec) : mc_routed nodes (mc.s_queue s) → mc_routed nodes (mc.s_queue (mc.spec_retire now s)).
Proof.
  intros Hq. unfold mc.spec_retire. destruct (mc.s_queue s) as [|r q] eqn:Eq; [by rewrite Eq|].
  case_match; [|by rewrite Eq]. intros x p Hx. apply Hq. by apply list_elem_of_further.
Qed.

Lemma step_MC_ok slack s : 0 ≤ slack → inv (1 + slack) s → wp (step_MC nodes fsb_DDR s) (inv slack).
Proof.
  intros Hsl [[Hm Hd] (owed & fl & Hs)]. pose proof (h_clock _ _ _ _ _ _ _ _ _ Hs) as Hu. set (now := uncore_sim_cycle s) in *.
  unfold step_MC. eapply wp_bind, wp_mono; [apply dram_refresh_ok; [apply Hu|exact Hd]|]. intros d Hd'. cbn [rbind].
  apply (hier_less (1 + slack) slack) in Hs; [|lia].
  eapply wp_bind, wp_mono; [eapply sim_wp; [exact (mc.step_refines (H0 := mc_env nodes fsb_DDR) now (MC s) d s Hm)|]|].
  - instantiate (1 := λ '(sp, d', s'), dram_ok now d' ∧ MC s' = MC s ∧ uncore_sim_cycle s' = now ∧
      ∃ fl', hier_ok nodes ncores nclocks slack owed fl' (λ _, True) (mc.s_queue sp) s').
    unfold mc.spec_step. eapply wp_bind.
    apply (wp_mono _ (λ '(sp, d'), dram_ok now d' ∧ Forall mc.entry_ok (mc.s_queue sp) ∧
      hier_ok nodes ncores nclocks slack owed fl (λ _, True) (mc.s_queue sp) s)).
    + unfold mc.spec_send. simpl. destruct (_ <=? _); [|by split_and!; [|apply Hm|]].
      destruct (mc.pick _ _ _) as [[k r]|] eqn:Ep; [|by split_and!; [|apply Hm|]]. apply mc.pick_spec in Ep as [Ek _].
      pose proof (Forall_lookup_1 _ _ _ _ (mc.ok_entries _ Hm) Ek) as Hr.
      eapply wp_bind, wp_mono; [apply dram_access_ok; [apply Hu|apply Hr|exact Hd']|]. intros [d' lat] [Hd2 _]. simpl.
      split; [done|]. split; [apply Forall_insert; [apply Hm|by destruct Hr; split]|].
      eapply hier_queue; [| |exact Hs]; [by eapply mc_routed_insert; [apply Hs|..]|]. intros j. by eapply upward_send.
    + intros [sp d'] (Hd2 & He & Hs2). eapply wp_bind.
      apply (wp_mono _ (λ '(sp, s'), MC s' = MC s ∧ uncore_sim_cycle s' = now ∧
        ∃ fl', hier_ok nodes ncores nclocks slack owed fl' (λ _, True) (mc.s_queue sp) s')).
      * unfold mc.spec_answer. destruct (if mc.fsb_free s then _ else _) as [[k r]|] eqn:Ef; [|by split_and!; [| |exists fl]].
        destruct (mc.fsb_free s); [|done]. apply list_find_Some in Ef as (Ek & [_ Hr] & _).
        pose proof (Forall_lookup_1 _ _ _ _ He Ek) as Her.
        eapply wp_bind, wp_mono; [eapply mc_respond_ok; [done|exact Hs2|exact Ek|apply Her|done]|].
        intros s' (Hex & E1 & _ & E2). done.
      * intros [sp' s'] (E1 & E2 & fl' & Hs'). simpl. split; [done|]. split; [done|]. split; [done|]. exists fl'.
        eapply hier_queue; [apply retire_routed, Hs'| |exact Hs']. intros j. apply retire_upward. lia.
  - intros [[m d'] s'] ([[sp d2] s2] & (Hm' & <- & <- & _) & (Hd2 & E1 & E2 & fl' & Hs')). destruct Hm' as [Hm' <-]. simpl.
    split; [split; [done|simpl; by rewrite E2]|]. exists owed, fl'. eapply hier_quiet; [|exact Hs']. done.
Qed.

(** *** Requests, prefetches and clocks *)

Lemma request_ok slack i a s : 0 ≤ slack → event_ok (Ask i a) → inv (1 + slack) s → wp (request nodes i a s) (inv slack).
Proof.
  intros Hsl (Ep & Eco & n & En & Ha) [Hg (owed & fl & Hs)]. apply (hier_less (1 + slack) slack) in Hs; [|lia].
  unfold request. rewrite En. cbn [rbind]. destruct (hier_cache _ _ _ _ _ _ _ _ _ _ _ Hs En) as (Hi & c & Ec). rewrite Ec. cbn [rbind].
  destruct (h_rest _ _ _ _ _ _ _ _ _ Hs i n c En Ec I) as ([Hr Ht] & (T & ET & HT) & Hf).
  pose proof (n_config _ _ _ (hier_node _ _ _ _ _ _ _ _ _ _ _ Hs En)) as Hk.
  destruct (enqueuable_ok (n_params n) (roster_of ncores n) Hk c (paddr a) (t_ok _ _ _ Hr)) as [room Eroom]. rewrite Eroom. cbn [rbind].
  destruct room; [|by split; [|exists owed, fl]].
  pose proof (enqueue_ok (n_params n) (roster_of ncores n) Hk c (the_clock s) (acore a) (prev_cp a) (cmd a) (PC a) (paddr a) (action_id a) (MSHR_bank a)
    (MSHR_index a) (op a) (cb a) (miss_cb a) (translated_cb a) (get_action_id a) (prefetcher_hint a) (t_ok _ _ _ Hr) (t_sound _ _ _ Hr)) as He.
  eapply wp_bind, wp_mono; [apply He; [by apply (req_ok_body (n_params n) (roster_of ncores n) _ a)| |done]|].
  { pose proof (c_latency _ Hk). unfold timely, in_time, the_clock in *. lia. }
  intros c' (Hr' & Et & Ho & Eregs). rewrite aset_ok by done. cbn [rbind wp]. split; [done|].
  exists (<[Z.to_nat i := body a :: T]> owed), fl.
  apply (join_ok nodes ncores nclocks slack owed fl fl (λ _, True) _ s i n c c' T (body a) (body a :: made s) (served s)); try done.
  - split; [done|]. by rewrite (same_cycle (n_params n) c c' (mk_clock _) Et).
  - by rewrite HT, Ho.
  - intros p Hp. simpl in Hp. congruence.
  - intros j. unfold up_of. simpl. by rewrite Ep.
  - intros j _. unfold up_of. simpl. by rewrite Ep.
  - intros B ->. unfold cores_of. change (of_core (body a)) with (of_core a). rewrite Eco. solve_Permutation.
Qed.

Lemma prefetch_ok slack i allowed s : 0 ≤ slack → 0 ≤ i < Z.of_nat (length nodes) → inv (1 + slack) s →
  wp (prefetch nodes i allowed s) (inv slack).
Proof.
  intros Hsl Hi [Hg (owed & fl & Hs)]. apply (hier_less (1 + slack) slack) in Hs; [|lia].
  destruct (aget_ok nodes i Hi) as (n & _ & En). unfold prefetch. rewrite En. cbn [rbind].
  destruct (hier_cache _ _ _ _ _ _ _ _ _ _ _ Hs En) as (_ & c & Ec). rewrite Ec. cbn [rbind].
  destruct (h_rest _ _ _ _ _ _ _ _ _ Hs i n c En Ec I) as ([Hr Ht] & (T & ET & HT) & Hf).
  pose proof (n_config _ _ _ (hier_node _ _ _ _ _ _ _ _ _ _ _ Hs En)) as Hk.
  eapply wp_bind, wp_mono; [apply (cache_prefetch_ok (n_params n) (roster_of ncores n) Hk); [done|]|].
  { pose proof (c_latency _ Hk). unfold timely, in_time, the_clock in *. lia. }
  intros c' (Hr' & Et & Eregs & Ho). assert (cache_at ncores slack n c' (uncore_sim_cycle s)) as Hc'.
  { split; [done|]. by rewrite (same_cycle (n_params n) c c' (mk_clock _) Et). }
  assert (seen_ok nodes ncores nclocks slack i T (fl i) s) as Hseen.
  { split; [done|]. exists owed, fl. split; [done|]. split; [done|]. eapply hier_rest; [|exact Hs]. done. }
  assert (∃ T', T' ≡ₚ outstanding c' ∧ seen_ok nodes ncores nclocks slack i T' (fl i) s) as (T' & HT' & [_ (owed' & fl' & ET' & Hf' & Hs')]).
  { destruct Ho as [Ho|(r & H1 & H2 & H3 & Ho)]; [exists T; by rewrite Ho|].
    exists (r :: T). split; [by rewrite Ho, HT|]. apply seen_prefetch; [apply Hi|done..]. }
  eapply wp_bind, wp_mono; [apply (put_back slack owed' fl' _ s i n c' Hs' En Hc'); [by exists T'|by rewrite Hf', Hf, Eregs]|].
  intros l Hl. split; [done|]. by exists owed', fl'.
Qed.

Lemma clocks_ok slack s v u x : uncore_sim_cycle s ≤ u ≤ uncore_sim_cycle s + 1 → length v = nclocks → 0 ≤ slack →
  inv (1 + slack) s → inv slack (with_clocks v u (with_cores x s)).
Proof.
  intros Hu Hv Hsl [[Hm Hd] (owed & fl & [])]. split; [split; [done|by eapply dram_later; [|exact Hd]; simpl; lia]|].
  exists owed, fl. split; try done; [|simpl; lia]. intros j n c En Ec Hj.
  destruct (h_rest0 j n c En Ec Hj) as ([H1 H2] & H3). split; [|done]. split; [done|]. simpl.
  unfold timely, cache_get_cycle in *. simpl in *. destruct (is_LLC (n_params n)); lia.
Qed.

Lemma happen_ok slack ev s : 0 ≤ slack → event_ok ev → inv (1 + slack) s → wp (happen ev s) (inv slack).
Proof.
  intros Hsl Hev Hs. destruct ev as [i| |i a|i allowed| |v x]; cbn [happen].
  - by apply process_ok.
  - by apply step_MC_ok.
  - by apply request_ok.
  - by apply prefetch_ok.
  - destruct Hs as [Hg (owed & fl & Hs)]. apply (clocks_ok slack s (core_cycles s) (uncore_sim_cycle s + 1) (cores s)); [lia|apply (h_ticks _ _ _ _ _ _ _ _ _ Hs)|done|]. split; [done|]. by exists owed, fl.
  - apply clocks_ok; [lia|done..].
Qed.

Lemma hier_run_ok slack evs s : 0 ≤ slack → Forall event_ok evs → inv (Z.of_nat (length evs) + slack) s → wp (run evs s) (inv slack).
Proof.
  intros Hsl Hevs. revert s. induction Hevs as [|ev evs Hev _ IH]; intros s Hs; simpl; [done|].
  eapply wp_bind, wp_mono; [apply (happen_ok (Z.of_nat (length evs) + slack)); [lia|done|]|exact IH].
  replace (1 + _) with (Z.of_nat (length (ev :: evs)) + slack) by (simpl; lia). done.
Qed.

(** *** The beginning *)

Record options_ok (o : options) : Prop := {
  oo_prefetchers : Forall any_ok (o_prefetchers o);
  oo_pff : 1 ≤ o_pff o < 2 ^ 31;
  oo_filter : 0 ≤ o_filter o;
  oo_reset : 1 ≤ o_reset o
}.

(** A configuration: well-formed levels, buses whose clocks exist. *)
Record hier_config (bs : list (clock_source * bus.t)) (opts : list options) : Prop := {
  hc_nodes : nodes_ok nodes (length bs);
  hc_opts : length opts = length nodes;
  hc_options : Forall options_ok opts;
  hc_buses c l : (c, l) ∈ bs → match c with
    | Uncore => True
    | Of_cache i => 0 ≤ i < Z.of_nat (length nodes)
    | Of_core n => 0 ≤ n < Z.of_nat nclocks
    end;
  hc_cores : 0 ≤ ncores
}.

Lemma created_ok n o : config_ok (n_params n) → options_ok o → 0 ≤ ncores →
  at_rest (n_params n) (roster_of ncores n) (create_cache n o) ∧ outstanding (create_cache n o) = [] ∧ flying (regs (create_cache n o)) = [] ∧
  sim_cycle (create_cache n o) = 0.
Proof.
  intros Hk [Hps Hpff Hf Hr] Hc. destruct (cache_create_ok (n_params n) (roster_of ncores n) Hk Hc) as (Hok & Hout & Hso).
  destruct (prefetchers_create_ok (n_params n) (roster_of ncores n) _ _ _ _ _ Hok Hps Hpff Hf Hr) as [Hok' Hout'].
  split; [split; [done|by apply (sound_same (cache_create (n_params n) ncores))|by left]|].
  split; [by rewrite <- Hout, <- Hout'|]. split; [|done].
  unfold flying. simpl. apply concat_nil_Forall, Forall_lookup. intros b l Hl. rewrite list_lookup_imap in Hl.
  apply fmap_Some in Hl as (es & [-> _]%lookup_replicate & ->). unfold flying_bank.
  apply concat_nil_Forall, Forall_lookup. intros j l Hl. rewrite list_lookup_imap in Hl.
  apply fmap_Some in Hl as (a & [-> _]%lookup_replicate & ->). done.
Qed.

Lemma create_inv opts bs f size fifo d clocks x slack : hier_config bs opts → 1 ≤ size < 2 ^ 31 → dram_ok 0 d → length clocks = nclocks →
  0 ≤ slack → slack < TICK_T_MAX → Forall (λ n, slack + latency (n_params n) + 2 ^ 32 < TICK_T_MAX) nodes →
  inv slack (create opts bs f size fifo d clocks x).
Proof.
  intros [Hn Hl Ho Hb Hc] Hs Hd Hcl Hsl Hend Hlat. destruct (mc.mc_create_ok size fifo Hs) as [Hmc Hq]. split; [done|].
  exists (replicate (length nodes) []), (λ _, []).
  assert (∀ T, T ∈ replicate (length nodes) ([] : list action) → T = []) as Hnil by (intros T [-> _]%elem_of_replicate; done).
  assert (∀ B (g : action → list B), (replicate (length nodes) [] ≫= λ T, T ≫= g) = []) as Hbind.
  { intros B g. apply bind_none. intros T ->%Hnil. done. }
  split; simpl; rewrite ?length_zip_with, ?length_replicate, ?Hl, ?Nat.min_id; try done.
  - intros j n c En Ec _. pose proof (nodes_all _ _ Hn j n En) as [Hk _ _ _]. apply aget_inv in En as [Hj En], Ec as [_ Ec]. apply lookup_zip_with_Some in Ec as (n' & o & -> & En' & Eo).
    rewrite En in En'. injection En' as <-. pose proof (Forall_lookup_1 _ _ _ _ Ho Eo) as Hoo. pose proof (Forall_lookup_1 _ _ _ _ Hlat En) as Hln. cbn beta in Hln.
    destruct (created_ok n o Hk Hoo Hc) as (Hr & E1 & E2 & E3). rewrite E1, E2. split; [split; [done|]|].
    + unfold timely, cache_get_cycle. rewrite E3. case_match; simpl; lia.
    + split; [|done]. exists []. split; [|done]. apply lookup_replicate. split; [done|lia].
  - intros i T [-> _]%lookup_replicate a p Ha. by apply elem_of_nil in Ha.
  - rewrite Hq. intros r p Hr. by apply elem_of_nil in Hr.
  - intros j. unfold upward. by rewrite Hbind, Hq.
  - by rewrite Hbind.
Qed.

(** ** What the books say *)

(** The requests of the cores that are still in the caches. *)
Definition waiting_in (cs : list cache) : list action := cs ≫= λ c, outstanding c ≫= cores_of.

(** Each cache has in flight what the others owe it. *)
Definition flights_match s : Prop := ∀ j c, aget (caches s) j = Ok c →
  flying (regs c) ≡ₚ upward j (outstanding <$> caches s) (mc.queue (MC s)).

Definition asleep s : Prop := Forall (λ c, check_for_work (flags c) = false) (caches s).

Lemma bind_lists {B} (g : action → list B) (f : list action → list B) (owed : list (list action)) (cs : list cache) :
  length owed = length cs → (∀ T T', T ≡ₚ T' → f T ≡ₚ f T') →
  (∀ j c, cs !! j = Some c → ∃ T, owed !! j = Some T ∧ T ≡ₚ outstanding c) → (owed ≫= f) ≡ₚ (cs ≫= λ c, f (outstanding c)).
Proof.
  intros Hl Hf. revert cs Hl. induction owed as [|T owed IH]; intros [|c cs] Hl Hj; [done..|]. rewrite !bind_cons.
  destruct (Hj 0%nat c eq_refl) as (T' & [= <-] & HT). rewrite (Hf _ _ HT), (IH cs); [done|by injection Hl|].
  intros j. apply (Hj (S j)).
Qed.

Lemma inv_books slack s : inv slack s →
  made s ≡ₚ served s ++ waiting_in (caches s) ∧ flights_match s ∧ (asleep s → made s ≡ₚ served s).
Proof.
  intros [Hg (owed & fl & Hs)]. assert (∀ j c, caches s !! j = Some c →
    ∃ n, aget nodes (Z.of_nat j) = Ok n ∧ aget (caches s) (Z.of_nat j) = Ok c) as Hat.
  { intros j c Ec. pose proof (lookup_lt_Some _ _ _ Ec) as Hj. rewrite (h_caches _ _ _ _ _ _ _ _ _ Hs) in Hj.
    destruct (aget_ok nodes (Z.of_nat j)) as (n & _ & En); [lia|]. exists n. split; [done|]. apply aget_lookup; [lia|by rewrite Nat2Z.id]. }
  assert (∀ j c, caches s !! j = Some c → ∃ T, owed !! j = Some T ∧ T ≡ₚ outstanding c) as HT.
  { intros j c Ec. destruct (Hat j c Ec) as (n & En & Ec'). pose proof (h_rest _ _ _ _ _ _ _ _ _ Hs _ n c En Ec' I) as (_ & HT & _).
    by rewrite Nat2Z.id in HT. }
  assert (length owed = length (caches s)) as Hl by by rewrite (h_owed _ _ _ _ _ _ _ _ _ Hs), (h_caches _ _ _ _ _ _ _ _ _ Hs).
  assert (made s ≡ₚ served s ++ waiting_in (caches s)) as Hb.
  { rewrite (h_books _ _ _ _ _ _ _ _ _ Hs). f_equiv. apply (bind_lists cores_of); [done|by intros T T' ->|done]. }
  split; [done|]. split.
  - intros j c Ec. pose proof Ec as [Hj _]%aget_inv. rewrite (h_caches _ _ _ _ _ _ _ _ _ Hs) in Hj.
    destruct (aget_ok nodes j Hj) as (n & _ & En). pose proof (h_rest _ _ _ _ _ _ _ _ _ Hs j n c En Ec I) as (_ & _ & <-).
    rewrite <- (h_up _ _ _ _ _ _ _ _ _ Hs j). unfold upward. f_equiv. rewrite list_fmap_bind.
    apply (bind_lists (up_of j)); [done|by intros T T' ->|done].
  - intros Ha. rewrite Hb. assert (waiting_in (caches s) = []) as ->; [|by rewrite app_nil_r].
    apply bind_none. intros c Hc. apply list_elem_of_lookup in Hc as (j & Ec). destruct (Hat j c Ec) as (n & En & Ec').
    pose proof (h_rest _ _ _ _ _ _ _ _ _ Hs _ n c En Ec' I) as ([Hr _] & _).
    by destruct (asleep_empty _ _ c Hr (Forall_lookup_1 _ _ _ _ Ha Ec)) as (-> & _).
Qed.

End run.

(** C39. The memory hierarchy loses no request.  Caches in any tree of levels, each with a
    controller of either class and any penalty, with buses of any clocks between them, a
    memory controller and any DRAM, are run through any sequence of cycles of single caches,
    cycles of the memory controller, requests of the cores to any cache, prefetches and ticks
    of the clocks, in which the cores answer as they like.  The conditions are those of
    [hier_config] and [event_ok]: every cache satisfies [config_ok] and has no prefetch buffer
    ([create]); a cache with a next level has a bus to it, the same MSHR banks as it (the code
    gives one bank to every cache but the last, and the shipped configurations one to the
    last), and is read-only when it is; the blocks are smaller than 2^20 bytes and the penalties fit an
    [unsigned int]; the requests are those of C8, and come from a core of the machine unless
    they go to a last level; and the run ends 2^32 cycles before the largest time.  Then
    nothing fails: no assertion, null pointer, index or full pipe.  The requests that the
    cores have made are exactly those that have been answered and those that some cache
    still owes an answer, each of them once; what a cache has sent and waits for is exactly
    what the caches above it and the memory controller still owe it; and when all caches are
    asleep every request has been answered. *)
Theorem hierarchy_conserves_requests X D `{Client X} `{DramLaws D} nodes fsb_DDR ncores opts bs f size fifo (d : D) clocks (x : X) evs :
  hier_config nodes ncores (length clocks) bs opts → 1 ≤ size < 2 ^ 31 → dram_ok 0 d →
  Forall (event_ok nodes ncores (length clocks)) evs → Z.of_nat (length evs) < TICK_T_MAX →
  Forall (λ n, Z.of_nat (length evs) + latency (n_params n) + 2 ^ 32 < TICK_T_MAX) nodes →
  wp (run nodes fsb_DDR evs (create nodes ncores opts bs f size fifo d clocks x)) (λ s,
    made s ≡ₚ served s ++ waiting_in (caches s) ∧ flights_match s ∧ (asleep s → made s ≡ₚ served s)).
Proof.
  intros Hc Hs Hd Hevs Hend Hlat. eapply wp_mono; [apply (hier_run_ok nodes fsb_DDR ncores (length clocks) 0); [done|exact Hevs|]|].
  - rewrite Z.add_0_r. apply create_inv; [exact Hc|done..|lia|done|done].
  - intros s. apply inv_books.
Qed.

(** ** Two cores *)

(** Cores that take note of nothing. *)
#[export] Instance quiet_cores : Client unit := {
  x_cb u _ _ := u;
  x_miss_cb u _ _ _ := u;
  x_translated _ _ _ _ := true;
  x_action_id _ _ o := o;
  x_magic u := (u, None);
  x_random u := (u, 0)
}.

Definition set_cfg : cache_set.cfg := cache_set.mk_cfg 4 2 1 6 REPLACE_LRU WRITE_BACK false.
Definition DL1 (core : Z) : node :=
  mk_node (mk_params set_cfg WRITE_ALLOC true 2 6 2 4 2 4 1 None (Some 2) false core 2 2 false) (Some 2) (Some core) (const 75).
Definition LLC : node := mk_node (mk_params set_cfg WRITE_ALLOC true 2 6 2 4 2 4 1 None None true 2 2 2 false) None None (const 75).
Definition two_cores : list node := [DL1 0; DL1 1; LLC].
Definition the_buses : list (clock_source * bus.t) := [(Of_cache 0, bus.bus_create false 8 1); (Of_cache 1, bus.bus_create false 8 1)].
Definition the_options : list options := replicate 3 (mk_options [] 4 0 8).

Lemma two_cores_ok : hier_config two_cores 2 2 the_buses the_options.
Proof.
  assert (config_ok (n_params (DL1 0)) ∧ config_ok (n_params (DL1 1)) ∧ config_ok (n_params LLC)) as (H0 & H1 & H2).
  { split_and!; split; try split; simpl; try lia; repeat split; simpl; intros; try done; try lia; by exists 1. }
  assert (∀ i n, aget two_cores i = Ok n → i = 0 ∧ n = DL1 0 ∨ i = 1 ∧ n = DL1 1 ∨ i = 2 ∧ n = LLC) as Hn.
  { intros i n [Hi E]%aget_inv. assert (i = 0 ∨ i = 1 ∨ i = 2) as [-> | [-> | ->]] by (simpl in Hi; lia); simpl in E; injection E as <-; auto. }
  split; [split| | | |].
  - intros i n [[-> ->]|[[-> ->]|[-> ->]]]%Hn; split; try done; (split; try done; by exists LLC).
  - intros i n b E Eb. by apply Hn in E as [[-> ->]|[[-> ->]|[-> ->]]]; simpl in *; simplify_eq.
  - done.
  - by repeat constructor.
  - intros c l Hin. unfold the_buses in Hin. rewrite !elem_of_cons in Hin. destruct Hin as [[= -> ->]|[[= -> ->]|Hin%elem_of_nil]]; done.
  - done.
Qed.

Definition load (id addr : Z) : action :=
  mk_action 1 (Some id) id 4096 addr MSHR_MISS 0 (-1) false CACHE_READ None (Some 1) (Some 2) None (Some 3) 0 0 0 0 None false false.
Definition store (id addr : Z) : action :=
  mk_action 0 (Some id) id 4096 addr MSHR_MISS 0 (-1) false CACHE_WRITE None (Some 1) None None (Some 3) 0 0 0 0 None false false.

(** A cycle of everything. *)
Definition cycle : list (event unit) := [Uncore_tick; Core_ticks [0; 0] tt; Step_MC; Process 2; Process 1; Process 0].

(** Core 0 writes a block, which core 1 reads before it is written back: the answer comes
    with the penalty. *)
Definition two_requests : list (event unit) :=
  [Ask 0 (store 12 16384)] ++ concat (replicate 150 cycle) ++ [Ask 1 (load 11 16384)] ++ concat (replicate 250 cycle).

Lemma two_requests_ok : Forall (event_ok two_cores 2 2) two_requests.
Proof.
  assert (∀ n, Forall (event_ok two_cores 2 2) (concat (replicate n cycle))) as Hc.
  { intros n. apply Forall_concat, Forall_replicate. by repeat apply list.Forall_cons_2. }
  unfold two_requests. rewrite !list.Forall_app. split_and!; try done.
  - apply list.Forall_singleton. split; [done|]. split; [done|]. exists (DL1 0). split; [done|].
    split; try done; try (intros; vm_compute; intuition congruence).
  - apply list.Forall_singleton. split; [done|]. split; [done|]. exists (DL1 1). split; [done|].
    split; try done; try (intros; vm_compute; intuition congruence).
Qed.

(** The requests made and answered, the caches that are awake, the answers of the
    controllers with and without a delay, the last writers. *)
Definition summary (s : hier unit dram_simplescalar.t) : list Z * list Z * list bool * list (Z * Z) * list (Z * Z) :=
  (action_id <$> made s, action_id <$> served s, (λ c, check_for_work (flags c)) <$> caches s, requests s, map_to_list (writers s)).

Definition two_start : hier unit dram_simplescalar.t :=
  create two_cores 2 the_options the_buses (bus.bus_create false 8 1) 4 false mc_run.dram100 [0; 0] tt.

Lemma hierarchy_conserves_requests_witness :
  rmap summary (run two_cores true two_requests two_start) =
    Ok ([11; 12], [11; 12], [false; false; false], [(0, 0); (0, 0); (1, 1)], [(16384, 0)]) ∧
  wp (run two_cores true two_requests two_start) (λ s,
    made s ≡ₚ served s ++ waiting_in (caches s) ∧ flights_match s ∧ (asleep s → made s ≡ₚ served s)).
Proof.
  split; [vm_compute; reflexivity|].
  apply (hierarchy_conserves_requests unit dram_simplescalar.t two_cores true 2); [exact two_cores_ok|done| |exact two_requests_ok|vm_compute; congruence|].
  - apply mc_run.dram100_ok.
  - repeat constructor; vm_compute; congruence.
Defined.

(** ** Levels with different banks *)

Definition banked_LLC : node := mk_node (mk_params set_cfg WRITE_ALLOC true 2 6 2 4 2 4 1 None None true 2 2 2 false) None None none.

(** The cores of the next run: a prefetch of a block whose bank is the second in the last
    level, and the only one in the cache of the core. *)
Definition prefetch_64 : action :=
  mk_action 0 (Some 7) 7 4096 64 MSHR_MISS 0 (-1) false CACHE_PREFETCH None (Some 1) None None (Some 3) 0 0 0 0 None false false.

(** A prefetch counts at the bank of the cache it comes from and is taken off at the bank of
    its address: when the levels do not have the same banks, an assertion of MSHR_deallocate
    fails. *)
Lemma prefetch_needs_same_banks :
  run [DL1 0; DL1 1; banked_LLC] true (Ask 0 prefetch_64 :: concat (replicate 150 cycle))
    (create [DL1 0; DL1 1; banked_LLC] 2 the_options the_buses (bus.bus_create false 8 1) 4 false mc_run.dram100 [0; 0] tt) =
    Fault AssertFail.
Proof. by vm_compute. Qed.

End hierarchy_run.
