(* ===== verification/Uops.v ===== *)
(** * Uops: the macro-ops and uops that the pipeline works on

    The fields of uop_t and Mop_t (zesto-structs.h) that the stages behind the oracle read
    and write.  A macro-op is its slot of the MopQ, a uop the slot and its index in the
    flow; the heap holds what they point to. *)

From S2P Require Import Prelude CacheHeap OracleDeps.

Module uops.
Export oracle_deps (ptr, MAX_IDEPS).

(** ** Records *)

(** Source: src/xiosim/zesto-structs.h:88-125 uop_t. *)
Record decode_t : Type := mk_decode {
  has_imm : bool;
  idep_name : list Z;
  odep_name : list Z;
  mem_size : Z;
  BOM : bool;
  EOM : bool;
  is_ctrl : bool;
  is_load : bool;
  is_sta : bool;
  is_std : bool;
  is_nop : bool;
  is_lfence : bool;
  is_sfence : bool;
  is_mfence : bool;
  Mop_seq : Z;
  uop_seq : Z;
  FU_class : Z;
  in_fusion : bool;
  is_fusion_head : bool;
  fusion_size : Z;
  fusion_head : option ptr;
  fusion_next : option ptr
}.

(** The indices belong to ROB, RS and LSQ, which keep them by uop.
    Source: src/xiosim/zesto-structs.h:127-134 uop_t. *)
Record alloc_t : Type := mk_alloc { port_assignment : Z }.

(** Source: src/xiosim/zesto-structs.h:136-152 uop_t. *)
Record exec_t : Type := mk_exec {
  idep_uop : list (option ptr);
  odep_uop : list (ptr * Z);
  ivalue_valid : list bool;
  ovalue_valid : bool;
  in_readyQ : bool;
  action_id : Z
}.

(** The operands of a uop according to the oracle are those of OracleDeps.
    Source: src/xiosim/zesto-structs.h:154-168 uop_t. *)
Record oracle_t : Type := mk_oracle { virt_addr : Z; o_idep_uop : list (option ptr); is_repeated : bool; is_sync_op : bool }.

(** Source: src/xiosim/zesto-structs.h:170-180 uop_t. *)
Record timing_t : Type := mk_timing {
  when_decoded : Z;
  when_allocated : Z;
  when_itag_ready : list Z;
  when_otag_ready : Z;
  when_ival_ready : list Z;
  when_ready : Z;
  when_issued : Z;
  when_exec : Z;
  when_completed : Z
}.

(** Source: src/xiosim/zesto-structs.h:83-183 uop_t. *)
Record uop : Type := mk_uop { dec : decode_t; alc : alloc_t; exe : exec_t; orc : oracle_t; tim : timing_t }.

(** Source: src/xiosim/zesto-structs.h:225-248 uop_t.
    A uop as it comes out of the pool, with what the decoder and the oracle say of it. *)
Definition new_uop (d : decode_t) (o : oracle_t) : uop :=
  mk_uop d (mk_alloc (-1))
    (mk_exec (replicate (Z.to_nat MAX_IDEPS) None) [] (replicate (Z.to_nat MAX_IDEPS) false) false false (u64 (-1)))
    o
    (mk_timing TICK_T_MAX TICK_T_MAX (replicate (Z.to_nat MAX_IDEPS) TICK_T_MAX) TICK_T_MAX (replicate (Z.to_nat MAX_IDEPS) TICK_T_MAX)
       TICK_T_MAX TICK_T_MAX TICK_T_MAX TICK_T_MAX).

(** Source: src/xiosim/zesto-structs.h:296-307 Mop_t. *)
Record M_fetch : Type := mk_M_fetch { PC : Z; pred_NPC : Z; ftPC : Z; len : Z; bpred_update : option Z }.
(** Source: src/xiosim/zesto-structs.h:309-321 Mop_t. *)
Record M_decode : Type := mk_M_decode {
  flow_length : Z;
  last_uop_index : Z;
  targetPC : Z;
  is_trap : bool;
  is_ctrl_Mop : bool;
  UNCOND : bool;
  has_rep : bool;
  last_stage_index : Z
}.
(** Source: src/xiosim/zesto-structs.h:326-330 Mop_t. *)
Record M_commit : Type := mk_M_commit { complete_index : Z; commit_index : Z; jeclear_in_flight : bool }.
(** Source: src/xiosim/zesto-structs.h:332-345 Mop_t. *)
Record M_oracle : Type := mk_M_oracle { NextPC : Z; seq : Z; zero_rep : bool; spec_mode : bool; taken_branch : bool }.
(** Source: src/xiosim/zesto-structs.h:347-355 Mop_t. *)
Record M_timing : Type := mk_M_timing {
  when_fetch_started : Z;
  when_fetched : Z;
  when_MS_started : Z;
  when_decode_started : Z;
  when_decode_finished : Z;
  when_commit_started : Z;
  when_commit_finished : Z
}.
(** Source: src/xiosim/zesto-structs.h:357-363 Mop_t. *)
Record M_stat : Type := mk_M_stat { num_uops : Z; num_eff_uops : Z; num_refs : Z; num_loads : Z; num_branches : Z }.

(** Source: src/xiosim/zesto-structs.h:291-363 Mop_t. *)
Record Mop : Type := mk_Mop {
  m_fetch : M_fetch;
  m_decode : M_decode;
  m_uop : list uop;
  m_commit : M_commit;
  m_oracle : M_oracle;
  m_timing : M_timing;
  m_stat : M_stat
}.

(** ** Writing a field *)

Definition with_alc (f : alloc_t → alloc_t) (u : uop) : uop := mk_uop (dec u) (f (alc u)) (exe u) (orc u) (tim u).
Definition with_exe (f : exec_t → exec_t) (u : uop) : uop := mk_uop (dec u) (alc u) (f (exe u)) (orc u) (tim u).
Definition with_tim (f : timing_t → timing_t) (u : uop) : uop := mk_uop (dec u) (alc u) (exe u) (orc u) (f (tim u)).

Definition set_port (x : Z) : uop → uop := with_alc (λ _, mk_alloc x).

Definition set_idep (x : list (option ptr)) : uop → uop := with_exe (λ e, mk_exec x (odep_uop e) (ivalue_valid e) (ovalue_valid e) (in_readyQ e) (action_id e)).
Definition set_odep (x : list (ptr * Z)) : uop → uop := with_exe (λ e, mk_exec (idep_uop e) x (ivalue_valid e) (ovalue_valid e) (in_readyQ e) (action_id e)).
Definition set_ivalue (x : list bool) : uop → uop := with_exe (λ e, mk_exec (idep_uop e) (odep_uop e) x (ovalue_valid e) (in_readyQ e) (action_id e)).
Definition set_queued (x : bool) (id : Z) : uop → uop := with_exe (λ e, mk_exec (idep_uop e) (odep_uop e) (ivalue_valid e) (ovalue_valid e) x id).
Definition set_action_id (id : Z) : uop → uop := with_exe (λ e, mk_exec (idep_uop e) (odep_uop e) (ivalue_valid e) (ovalue_valid e) (in_readyQ e) id).

Definition set_decoded (x : Z) : uop → uop := with_tim (λ t, mk_timing x (when_allocated t) (when_itag_ready t) (when_otag_ready t) (when_ival_ready t) (when_ready t) (when_issued t) (when_exec t) (when_completed t)).
Definition set_allocated (x : Z) : uop → uop := with_tim (λ t, mk_timing (when_decoded t) x (when_itag_ready t) (when_otag_ready t) (when_ival_ready t) (when_ready t) (when_issued t) (when_exec t) (when_completed t)).
Definition set_itag (x : list Z) : uop → uop := with_tim (λ t, mk_timing (when_decoded t) (when_allocated t) x (when_otag_ready t) (when_ival_ready t) (when_ready t) (when_issued t) (when_exec t) (when_completed t)).
Definition set_ival (x : list Z) : uop → uop := with_tim (λ t, mk_timing (when_decoded t) (when_allocated t) (when_itag_ready t) (when_otag_ready t) x (when_ready t) (when_issued t) (when_exec t) (when_completed t)).
Definition set_ready (x : Z) : uop → uop := with_tim (λ t, mk_timing (when_decoded t) (when_allocated t) (when_itag_ready t) (when_otag_ready t) (when_ival_ready t) x (when_issued t) (when_exec t) (when_completed t)).
Definition set_issued (x : Z) : uop → uop := with_tim (λ t, mk_timing (when_decoded t) (when_allocated t) (when_itag_ready t) (when_otag_ready t) (when_ival_ready t) (when_ready t) x (when_exec t) (when_completed t)).
Definition set_exec (x : Z) : uop → uop := with_tim (λ t, mk_timing (when_decoded t) (when_allocated t) (when_itag_ready t) (when_otag_ready t) (when_ival_ready t) (when_ready t) (when_issued t) x (when_completed t)).
Definition set_completed (x : Z) : uop → uop := with_tim (λ t, mk_timing (when_decoded t) (when_allocated t) (when_itag_ready t) (when_otag_ready t) (when_ival_ready t) (when_ready t) (when_issued t) (when_exec t) x).

Definition with_uops (l : list uop) (m : Mop) : Mop := mk_Mop (m_fetch m) (m_decode m) l (m_commit m) (m_oracle m) (m_timing m) (m_stat m).
Definition with_fetch (f : M_fetch → M_fetch) (m : Mop) : Mop := mk_Mop (f (m_fetch m)) (m_decode m) (m_uop m) (m_commit m) (m_oracle m) (m_timing m) (m_stat m).
Definition with_commit (f : M_commit → M_commit) (m : Mop) : Mop := mk_Mop (m_fetch m) (m_decode m) (m_uop m) (f (m_commit m)) (m_oracle m) (m_timing m) (m_stat m).
Definition with_mtiming (f : M_timing → M_timing) (m : Mop) : Mop := mk_Mop (m_fetch m) (m_decode m) (m_uop m) (m_commit m) (m_oracle m) (f (m_timing m)) (m_stat m).
Definition set_last_stage (x : Z) (m : Mop) : Mop :=
  let d := m_decode m in
  mk_Mop (m_fetch m) (mk_M_decode (flow_length d) (last_uop_index d) (targetPC d) (is_trap d) (is_ctrl_Mop d) (UNCOND d) (has_rep d) x)
    (m_uop m) (m_commit m) (m_oracle m) (m_timing m) (m_stat m).
Definition set_pred_NPC (x : Z) : Mop → Mop := with_fetch (λ f, mk_M_fetch (PC f) x (ftPC f) (len f) (bpred_update f)).
Definition set_bpred_update (x : option Z) : Mop → Mop := with_fetch (λ f, mk_M_fetch (PC f) (pred_NPC f) (ftPC f) (len f) x).
Definition set_complete_index (x : Z) : Mop → Mop := with_commit (λ c, mk_M_commit x (commit_index c) (jeclear_in_flight c)).
Definition set_commit_index (x : Z) : Mop → Mop := with_commit (λ c, mk_M_commit (complete_index c) x (jeclear_in_flight c)).
Definition set_MS_started (x : Z) : Mop → Mop := with_mtiming (λ t, mk_M_timing (when_fetch_started t) (when_fetched t) x (when_decode_started t) (when_decode_finished t) (when_commit_started t) (when_commit_finished t)).
Definition set_decode_started (x : Z) : Mop → Mop := with_mtiming (λ t, mk_M_timing (when_fetch_started t) (when_fetched t) (when_MS_started t) x (when_decode_finished t) (when_commit_started t) (when_commit_finished t)).
Definition set_decode_finished (x : Z) : Mop → Mop := with_mtiming (λ t, mk_M_timing (when_fetch_started t) (when_fetched t) (when_MS_started t) (when_decode_started t) x (when_commit_started t) (when_commit_finished t)).
Definition set_commit_started (x : Z) : Mop → Mop := with_mtiming (λ t, mk_M_timing (when_fetch_started t) (when_fetched t) (when_MS_started t) (when_decode_started t) (when_decode_finished t) x (when_commit_finished t)).
Definition set_commit_finished (x : Z) : Mop → Mop := with_mtiming (λ t, mk_M_timing (when_fetch_started t) (when_fetched t) (when_MS_started t) (when_decode_started t) (when_decode_finished t) (when_commit_started t) x).

(** ** The heap *)

(** The MopQ with the arrays of uops that its entries point to. *)
Definition heap : Type := list Mop.

Definition Mop_at (h : heap) (i : Z) : result Mop := aget h i.
Definition upd_Mop (h : heap) (i : Z) (f : Mop → Mop) : result heap := amodify h i f.

Definition uop_at (h : heap) (p : ptr) : result uop := let* m := Mop_at h p.1 in aget (m_uop m) p.2.
Definition upd_uop (h : heap) (p : ptr) (f : uop → uop) : result heap :=
  let* m := Mop_at h p.1 in
  let* l := amodify (m_uop m) p.2 f in
  aset h p.1 (with_uops l m).

(** Source: src/xiosim/zesto-structs.h:251-260 get_fusion_tail.
    The walk along [fusion_next]; a flow has at most 64 uops. *)
Fixpoint walk_tail (fuel : nat) (h : heap) (p : ptr) : result ptr :=
  match fuel with
  | O => Fault Diverge
  | S n => let* u := uop_at h p in match fusion_next (dec u) with Some q => walk_tail n h q | None => Ok p end
  end.
(** Source: src/xiosim/zesto-structs.h:251-260 get_fusion_tail. *)
Definition get_fusion_tail (h : heap) (p : ptr) : result ptr :=
  let* u := uop_at h p in
  let* _ := guard_or (in_fusion (dec u)) AssertFail in
  let* _ := guard_or (bool_decide (fusion_next (dec u) ≠ None)) AssertFail in
  walk_tail 65 h p.

(** Source: src/xiosim/zesto-structs.h:262-272 get_fusion_prev. *)
Fixpoint walk_prev (fuel : nat) (h : heap) (p q : ptr) : result ptr :=
  match fuel with
  | O => Fault Diverge
  | S n =>
      let* u := uop_at h q in
      let* next := of_option NullDeref (fusion_next (dec u)) in
      if decide (next = p) then Ok q else walk_prev n h p next
  end.
(** Source: src/xiosim/zesto-structs.h:262-272 get_fusion_prev.
    The walk starts at the head of the fused set. *)
Definition get_fusion_prev (h : heap) (p : ptr) : result (option ptr) :=
  let* u := uop_at h p in
  if negb (in_fusion (dec u)) then Ok None
  else if decide (fusion_head (dec u) = Some p) then Ok None
  else let* hd := of_option NullDeref (fusion_head (dec u)) in rmap Some (walk_prev 65 h p hd).

End uops.
