(* ===== verification/RS.v ===== *)
(** * RS: the reservation stations of exec-DPM.cpp

    The entries that wait to issue.  A fused set of uops has one entry, in the name of its
    head.  The fields of uop_t that only the reservation stations write are kept here, by
    uop.  The invariant: the array is the list of the entries with their members, those that
    have gone to execution ticked off.

    Uops join the reservation stations in program order, leave them for the functional units
    in any order, and are squashed from the youngest on.  In every sequence of these no
    assertion of RS_insert, RS_fuse_insert, RS_deallocate and ALU_exec fails, and the counts
    are those of the entries and of the uops that wait. *)

From S2P Require Import Prelude CacheHeap OracleDeps Uops.

Module rs.
Import uops.

(** Source: src/xiosim/ZPIPE-exec/exec-DPM.cpp:99-101 core_exec_DPM_t. *)
Record t : Type := mk {
  RS_size : Z;
  RS : list (option ptr);
  RS_num : Z;
  RS_eff_num : Z;
  RS_index : gmap ptr Z;
  uops_in_RS : gmap ptr Z;
  full_fusion_allocated : gmap ptr bool
}.

(** Source: src/xiosim/ZPIPE-exec/exec-DPM.cpp:215-231 core_exec_DPM_t. *)
Definition create (size : Z) : t := mk size (replicate (Z.to_nat size) None) 0 0 ∅ ∅ ∅.

Definition index_of (x : t) (p : ptr) : Z := default (-1) (RS_index x !! p).
Definition count_of (x : t) (p : ptr) : Z := default 0 (uops_in_RS x !! p).
Definition is_full (x : t) (p : ptr) : bool := default true (full_fusion_allocated x !! p).

(** Source: src/xiosim/ZPIPE-exec/exec-DPM.cpp:2233-2237 RS_available. *)
Definition RS_available (x : t) : bool := RS_num x <? RS_size x.

(** Source: src/xiosim/ZPIPE-exec/exec-DPM.cpp:2241-2262 RS_insert. *)
Definition RS_insert (x : t) (p : ptr) (d : decode_t) : result t :=
  let* free := find_range 0 (RS_size x) (λ i, let* e := aget (RS x) i in Ok (bool_decide (e = None))) in
  match free with
  | None => Fault Fatal
  | Some i =>
      let* l := aset (RS x) i (Some p) in
      Ok (mk (RS_size x) l (RS_num x + 1) (RS_eff_num x + 1) (<[p := i]> (RS_index x))
            (if in_fusion d then <[p := count_of x p + 1]> (uops_in_RS x) else uops_in_RS x) (<[p := false]> (full_fusion_allocated x)))
  end.

(** Source: src/xiosim/ZPIPE-exec/exec-DPM.cpp:2266-2274 RS_fuse_insert. *)
Definition RS_fuse_insert (x : t) (p : ptr) (d : decode_t) : result t :=
  let* hd := of_option NullDeref (fusion_head d) in
  Ok (mk (RS_size x) (RS x) (RS_num x) (RS_eff_num x + 1) (<[p := index_of x hd]> (RS_index x)) (<[hd := count_of x hd + 1]> (uops_in_RS x))
        (if decide (fusion_next d = None) then <[hd := true]> (full_fusion_allocated x) else full_fusion_allocated x)).

(** One uop less that waits.
    Source: src/xiosim/ZPIPE-exec/exec-DPM.cpp:2279-2290 RS_deallocate. *)
Definition uncount (x : t) (hd : option ptr) : result t :=
  let* _ := guard_or (0 <=? RS_eff_num x - 1) AssertFail in
  Ok (mk (RS_size x) (RS x) (RS_num x) (RS_eff_num x - 1) (RS_index x)
        (match hd with Some hd => <[hd := count_of x hd - 1]> (uops_in_RS x) | None => uops_in_RS x end) (full_fusion_allocated x)).

(** Source: src/xiosim/ZPIPE-exec/exec-DPM.cpp:2296-2298 RS_deallocate. *)
Definition free_entry (x : t) (i : Z) : result t :=
  let* l := aset (RS x) i None in
  let* _ := guard_or (0 <=? RS_num x - 1) AssertFail in
  Ok (mk (RS_size x) l (RS_num x - 1) (RS_eff_num x) (RS_index x) (uops_in_RS x) (full_fusion_allocated x)).

Definition set_index (p : ptr) (i : Z) (x : t) : t :=
  mk (RS_size x) (RS x) (RS_num x) (RS_eff_num x) (<[p := i]> (RS_index x)) (uops_in_RS x) (full_fusion_allocated x).

(** The uop is squashed; its fields are in [d], and [when_exec] is when it went to
    execution.
    Source: src/xiosim/ZPIPE-exec/exec-DPM.cpp:2276-2301 RS_deallocate. *)
Definition RS_deallocate (x : t) (p : ptr) (d : decode_t) (when_exec : Z) : result t :=
  let* _ := guard_or (index_of x p <? RS_size x) AssertFail in
  let* x := if in_fusion d && (when_exec =? TICK_T_MAX) then
              let* hd := of_option NullDeref (fusion_head d) in uncount x (Some hd) else Ok x in
  let* x := if negb (in_fusion d) then uncount x None else Ok x in
  let* _ := guard_or (negb (is_fusion_head d) || (count_of x p =? 0)) AssertFail in
  let* x := if negb (in_fusion d) || is_fusion_head d then free_entry x (index_of x p) else Ok x in
  Ok (set_index p (-1) x).

(** Source: src/xiosim/ZPIPE-exec/exec-DPM.cpp:2166-2171 ALU_exec.
    The walk over a fused set that has gone to execution. *)
Fixpoint clear_chain (fuel : nat) (h : heap) (p : ptr) (x : t) : result t :=
  match fuel with
  | O => Fault Diverge
  | S n =>
      let* u := uop_at h p in
      let x := set_index p (-1) x in
      match fusion_next (dec u) with Some q => clear_chain n h q x | None => Ok x end
  end.

(** Source: src/xiosim/ZPIPE-exec/exec-DPM.cpp:2152-2185 ALU_exec.
    A uop goes from the payload to its functional unit; the entry is free when all its
    members have.  A flow has at most 64 uops. *)
Definition leave (x : t) (h : heap) (p : ptr) (d : decode_t) : result t :=
  let* _ := guard_or ((0 <=? index_of x p) && (index_of x p <? RS_size x)) AssertFail in
  let* x := if in_fusion d then
              let* hd := of_option NullDeref (fusion_head d) in
              let x := mk (RS_size x) (RS x) (RS_num x) (RS_eff_num x) (RS_index x) (<[hd := count_of x hd - 1]> (uops_in_RS x)) (full_fusion_allocated x) in
              if count_of x hd =? 0 then let* x := free_entry x (index_of x p) in clear_chain 65 h hd x else Ok x
            else let* x := free_entry x (index_of x p) in Ok (set_index p (-1) x) in
  let* _ := guard_or (0 <=? RS_eff_num x - 1) AssertFail in
  Ok (mk (RS_size x) (RS x) (RS_num x) (RS_eff_num x - 1) (RS_index x) (uops_in_RS x) (full_fusion_allocated x)).

(** ** The entries *)

(** A slot of the array, and the uops that have it, in order; a uop is ticked off when it
    has gone to execution. *)
Record entry : Type := mk_entry { e_slot : Z; e_uops : list (ptr * bool) }.

Definition members (es : list entry) : list ptr := es ≫= λ e, (e_uops e).*1.

Definition waiting (l : list (ptr * bool)) : Z := Z.of_nat (length (filter (λ x, x.2 = false) l)).

Fixpoint total (es : list entry) : Z := match es with [] => 0 | e :: es => waiting (e_uops e) + total es end.

Definition taken (l : list (option ptr)) : Z := Z.of_nat (length (omap id l)).

Section inv.
Variable D : ptr → decode_t.

(** A fused set as far as it has been allocated: the head and its followers. *)
Fixpoint chained (hd p : ptr) (l : list ptr) : Prop :=
  match l with
  | [] => True
  | q :: l => fusion_next (D p) = Some q ∧ in_fusion (D q) = true ∧ is_fusion_head (D q) = false ∧
      fusion_head (D q) = Some hd ∧ chained hd q l
  end.

Definition packet (l : list ptr) : Prop :=
  match l with
  | [] => False
  | p :: l' => if in_fusion (D p) then is_fusion_head (D p) = true ∧ fusion_head (D p) = Some p ∧ chained p p l'
               else is_fusion_head (D p) = false ∧ l' = []
  end.

(** The count that the head of an entry keeps. *)
Definition head_count (e : entry) : Z :=
  match e_uops e with (p, _) :: _ => if in_fusion (D p) then waiting (e_uops e) else 0 | [] => 0 end.

Record entry_ok (x : t) (e : entry) : Prop := {
  eo_packet : packet (e_uops e).*1;
  eo_single : ∀ p b, e_uops e = [(p, b)] → in_fusion (D p) = false → b = false;
  eo_slot : ∃ p b l, e_uops e = (p, b) :: l ∧ aget (RS x) (e_slot e) = Ok (Some p) ∧ count_of x p = head_count e;
  eo_index : ∀ p, p ∈ (e_uops e).*1 → index_of x p = e_slot e;
  eo_rest : ∀ p, p ∈ tail (e_uops e).*1 → count_of x p = 0
}.

Record ok (x : t) (es : list entry) : Prop := {
  ok_size : 1 ≤ RS_size x < 2 ^ 31 ∧ Z.of_nat (length (RS x)) = RS_size x;
  ok_entries : Forall (entry_ok x) es;
  ok_slots : NoDup (e_slot <$> es);
  ok_members : NoDup (members es);
  ok_num : RS_num x = Z.of_nat (length es) ∧ taken (RS x) = RS_num x;
  ok_eff : RS_eff_num x = total es;
  ok_out : ∀ p, p ∉ members es → index_of x p = -1 ∧ count_of x p = 0
}.

(** ** Lists of entries *)

Lemma members_app es es' : members (es ++ es') = members es ++ members es'.
Proof. apply bind_app. Qed.

Lemma total_app es es' : total (es ++ es') = total es + total es'.
Proof. induction es as [|e es IH]; simpl; lia. Qed.

Lemma taken_insert (l : list (option ptr)) (i : nat) (a b : option ptr) : l !! i = Some a →
  taken (<[i := b]> l) = taken l - (if a is Some _ then 1 else 0) + (if b is Some _ then 1 else 0).
Proof.
  intros E. pose proof (lookup_lt_Some _ _ _ E) as Hi. rewrite <- (take_drop_middle l i a E) at 2.
  rewrite insert_take_drop by done. unfold taken. rewrite !omap_app. simpl. rewrite !length_app. destruct a, b; simpl; lia.
Qed.

Lemma taken_bound (l : list (option ptr)) : 0 ≤ taken l ≤ Z.of_nat (length l).
Proof. unfold taken. induction l as [|[] l IH]; csimpl; simpl in *; lia. Qed.

Lemma taken_full (l : list (option ptr)) : (∀ i a, l !! i = Some a → a ≠ None) → taken l = Z.of_nat (length l).
Proof.
  intros Hl. unfold taken. f_equal. induction l as [|a l IH]; [done|]. destruct a as [p|]; [|by destruct (Hl 0%nat None)].
  simpl. f_equal. apply IH. intros i b E. by apply (Hl (S i)).
Qed.

Lemma waiting_app (l l' : list (ptr * bool)) : waiting (l ++ l') = waiting l + waiting l'.
Proof. unfold waiting. rewrite list.filter_app, length_app. lia. Qed.

Lemma waiting_one (p : ptr) b : waiting [(p, b)] = if b then 0 else 1.
Proof. by destruct b. Qed.

(** Entries see of the state their slot, the index of their members and the count of their
    head. *)
Lemma entry_same x x' e : (∀ p, p ∈ (e_uops e).*1 → index_of x' p = index_of x p ∧ count_of x' p = count_of x p) →
  aget (RS x') (e_slot e) = aget (RS x) (e_slot e) → entry_ok x e → entry_ok x' e.
Proof.
  intros Hm Hs [H1 H2 (p & b & l & E & G & C) H4 H5]. split; [done|done| | |].
  - exists p, b, l. split; [done|]. split; [by rewrite Hs|]. rewrite <- C. apply Hm. rewrite E. left.
  - intros q Hq. rewrite <- (H4 q Hq). by apply Hm.
  - intros q Hq. rewrite <- (H5 q Hq). apply Hm. destruct (e_uops e).*1; [by apply elem_of_nil in Hq|by right].
Qed.

Lemma entry_members es e p : e ∈ es → p ∈ (e_uops e).*1 → p ∈ members es.
Proof. intros He Hp. apply list_elem_of_bind. by exists e. Qed.

Lemma entry_slot x e : entry_ok x e → ∃ p, aget (RS x) (e_slot e) = Ok (Some p) ∧ p ∈ (e_uops e).*1.
Proof. intros [_ _ (p & b & l & E & G & _) _ _]. exists p. split; [done|]. rewrite E. left. Qed.

Lemma rs_create_ok size : 1 ≤ size < 2 ^ 31 → ok (create size) [].
Proof.
  intros Hs. split; simpl; try done; [rewrite length_replicate; lia|constructor|constructor|].
  split; [done|]. unfold taken. clear. induction (Z.to_nat size); simpl; done.
Qed.

(** *** A uop joins *)

Lemma RS_insert_ok x es p : ok x es → RS_available x = true → p ∉ members es →
  (in_fusion (D p) = true → is_fusion_head (D p) = true ∧ fusion_head (D p) = Some p) → (in_fusion (D p) = false → is_fusion_head (D p) = false) →
  wp (RS_insert x p (D p)) (λ x', ∃ i, ok x' (es ++ [mk_entry i [(p, false)]]) ∧ RS_size x' = RS_size x).
Proof.
  intros [[Hsz Hlen] He Hsl Hme [Hnum Htk] Heff Hout] Hav Hp Hf Hnf. unfold RS_available in Hav. apply Z.ltb_lt in Hav.
  unfold RS_insert. eapply wp_bind, wp_find_range; [lia| | |].
  - intros i Hi. destruct (aget_ok (RS x) i) as (o & _ & ->); [lia|done].
  - intros i Hi Ei _. destruct (aget_ok (RS x) i) as (o & Eo & G); [lia|]. rewrite G in Ei. simpl in Ei. injection Ei as Ei%bool_decide_eq_true.
    subst o. rewrite aset_ok by lia. cbn [rbind wp]. exists i. split; [|done]. set (x' := mk _ _ _ _ _ _ _).
    destruct (Hout p Hp) as [Hpi Hpc].
    assert (∀ q, q ≠ p → index_of x' q = index_of x q ∧ count_of x' q = count_of x q) as Hsame.
    { intros q Hq. unfold index_of, count_of, x'. simpl. destruct (in_fusion (D p)); by rewrite !lookup_insert_ne. }
    assert (∀ e, e ∈ es → e_slot e ≠ i) as Hslots.
    { intros e Hin E. eapply list.Forall_forall in He; [|exact Hin]. apply entry_slot in He as (q & Gq & _). rewrite E, G in Gq. done. }
    assert (entry_ok x' (mk_entry i [(p, false)])) as Hnew.
    { split; simpl.
      - destruct (in_fusion (D p)); [by destruct Hf|by rewrite Hnf].
      - intros q b [= <- <-] _. done.
      - exists p, false, []. split; [done|]. split; [apply aget_lookup; [lia|]; apply list_lookup_insert_eq; by eapply lookup_lt_Some|].
        unfold count_of, head_count, x'. simpl. destruct (in_fusion (D p)); [by rewrite lookup_insert_eq, Hpc|done].
      - intros q ->%list_elem_of_singleton. unfold index_of, x'. simpl. by rewrite lookup_insert_eq.
      - by intros q ?%elem_of_nil. }
    assert (members (es ++ [mk_entry i [(p, false)]]) = members es ++ [p]) as Em by by rewrite members_app.
    split; simpl.
    + by rewrite length_insert.
    + apply list.Forall_app. split; [|by apply list.Forall_singleton]. apply list.Forall_forall. intros e Hin.
      eapply list.Forall_forall in He as Hee; [|exact Hin]. apply (entry_same x x'); [| |done].
      * intros q Hq. apply Hsame. intros ->. apply Hp. by eapply entry_members.
      * unfold x'. simpl. eapply aget_aset_ne; [apply aset_ok; lia|]. by apply not_eq_sym, Hslots.
    + rewrite fmap_app. apply list.NoDup_app. split; [done|]. split; [|apply NoDup_singleton]. intros j Hj ->%list_elem_of_singleton.
      apply list_elem_of_fmap in Hj as (e & E & Hin). by apply (Hslots e).
    + rewrite Em. apply list.NoDup_app. split; [done|]. split; [|apply NoDup_singleton]. by intros q Hq ->%list_elem_of_singleton.
    + rewrite length_app, (taken_insert _ _ None) by done. simpl. lia.
    + rewrite total_app, Heff. simpl. rewrite waiting_one. lia.
    + intros q. rewrite Em, not_elem_of_app, list_elem_of_singleton. intros [Hq Hne]. destruct (Hsame q Hne) as [-> ->]. by apply Hout.
  - intros Hall. exfalso. assert (taken (RS x) = Z.of_nat (length (RS x))); [|lia]. apply taken_full. intros i o Eo ->.
    pose proof (lookup_lt_Some _ _ _ Eo). specialize (Hall (Z.of_nat i) ltac:(lia)).
    rewrite (aget_lookup _ _ None) in Hall by (lia || by rewrite Nat2Z.id). done.
Qed.

(** *** An entry changes *)

Definition entries_of (i : Z) (o : option (list (ptr * bool))) : list entry :=
  match o with Some l => [mk_entry i l] | None => [] end.
Definition uops_of (o : option (list (ptr * bool))) : list ptr := match o with Some l => l.*1 | None => [] end.

Lemma members_of i o : members (entries_of i o) = uops_of o.
Proof. destruct o as [l|]; [|done]. simpl. by rewrite app_nil_r. Qed.

Lemma total_of i o : total (entries_of i o) = match o with Some l => waiting l | None => 0 end.
Proof. destruct o; simpl; lia. Qed.

(** Everything but one entry is as it was. *)
Lemma ok_replace x x' es1 e es2 new : ok x (es1 ++ e :: es2) →
  RS_size x' = RS_size x → length (RS x') = length (RS x) → (∀ i, i ≠ e_slot e → aget (RS x') i = aget (RS x) i) →
  (∀ q, q ∉ (e_uops e).*1 → q ∉ uops_of new → index_of x' q = index_of x q ∧ count_of x' q = count_of x q) →
  Forall (entry_ok x') (entries_of (e_slot e) new) → NoDup (uops_of new) →
  (∀ q, q ∈ uops_of new → q ∈ (e_uops e).*1 ∨ q ∉ members (es1 ++ e :: es2)) →
  (∀ q, q ∈ (e_uops e).*1 → q ∉ uops_of new → index_of x' q = -1 ∧ count_of x' q = 0) →
  RS_num x' = (if new is Some _ then RS_num x else RS_num x - 1) → taken (RS x') = RS_num x' →
  RS_eff_num x' = (RS_eff_num x - waiting (e_uops e) + (match new with Some l => waiting l | None => 0 end)) →
  ok x' (es1 ++ entries_of (e_slot e) new ++ es2).
Proof.
  intros [[Hsz Hlen] He Hsl Hme [Hnum Htk] Heff Hout] Es El Hget Hsame Hnew Hnd Hin Hgone En Et Ee.
  pose proof Hsl as Hsl'. rewrite fmap_app, fmap_cons in Hsl'. apply list.NoDup_app in Hsl' as (Hs1 & Hs12 & Hs2).
  apply list.NoDup_cons in Hs2 as [Hs2n Hs2].
  rewrite members_app in *. change (members (e :: es2)) with ((e_uops e).*1 ++ members es2) in *.
  apply list.NoDup_app in Hme as (Hm1 & Hm12 & Hm2). apply list.NoDup_app in Hm2 as (Hme & Hme2 & Hm2).
  assert (∀ e', e' ∈ es1 ∨ e' ∈ es2 → e_slot e' ≠ e_slot e) as Hslot.
  { intros e' [H1|H2] E.
    - apply (Hs12 (e_slot e')); [by apply list_elem_of_fmap_2|rewrite E; left].
    - apply Hs2n. rewrite <- E. by apply list_elem_of_fmap_2. }
  assert (∀ q, (q ∈ members es1 ∨ q ∈ members es2) → (q ∉ (e_uops e).*1) ∧ (q ∉ uops_of new)) as Hoth.
  { intros q Hq. assert (q ∉ (e_uops e).*1) as Hqe.
    { destruct Hq as [Hq|Hq]; intros Hqe; [by apply (Hm12 q Hq), elem_of_app; left|by apply (Hme2 q)]. }
    split; [done|]. intros Hqn. destruct (Hin q Hqn) as [|Hn]; [done|]. apply Hn. rewrite !elem_of_app. tauto. }
  assert (∀ e', e' ∈ es1 ∨ e' ∈ es2 → entry_ok x' e') as Hkeep.
  { intros e' He'. apply (entry_same x x').
    - intros q Hq. apply Hsame; apply Hoth; destruct He' as [H1|H2]; [left|right|left|right]; by eapply entry_members.
    - by apply Hget, Hslot.
    - eapply list.Forall_forall; [exact He|]. rewrite elem_of_app, elem_of_cons. tauto. }
  split.
  - by rewrite Es, El.
  - rewrite !list.Forall_app. split; [|split; [done|]]; apply list.Forall_forall; intros e' He'; apply Hkeep; auto.
  - rewrite !fmap_app. apply list.NoDup_app. split; [done|]. split.
    + intros j Hj. rewrite elem_of_app. intros [Hjn|Hj2].
      * apply (Hs12 j Hj). destruct new; [|by apply elem_of_nil in Hjn]. apply list_elem_of_singleton in Hjn as ->. left.
      * apply (Hs12 j Hj). by right.
    + destruct new; simpl; [|done]. by apply list.NoDup_cons.
  - rewrite !members_app, members_of. apply list.NoDup_app. split; [done|]. split.
    + intros q Hq. rewrite elem_of_app. intros [Hqn|Hq2]; [by apply (Hoth q (or_introl Hq))|].
      by apply (Hm12 q Hq), elem_of_app; right.
    + apply list.NoDup_app. split; [done|]. split; [|done]. intros q Hqn Hq2. by apply (Hoth q (or_intror Hq2)).
  - rewrite !length_app in *. simpl length in Hnum. split; [|done]. destruct new; simpl; lia.
  - rewrite !total_app, total_of in *. simpl in Heff. lia.
  - intros q. rewrite !members_app, members_of, !not_elem_of_app. intros (Hq1 & Hqn & Hq2).
    destruct (decide (q ∈ (e_uops e).*1)) as [Hqe|Hqe]; [by apply Hgone|].
    destruct (Hsame q Hqe Hqn) as [-> ->]. apply Hout. rewrite !not_elem_of_app. done.
Qed.

(** *** Fused sets *)

Lemma chained_in hd p l q : chained hd p l → q ∈ l → in_fusion (D q) = true ∧ is_fusion_head (D q) = false ∧ fusion_head (D q) = Some hd.
Proof.
  revert p. induction l as [|r l IH]; intros p; [by intros _ ?%elem_of_nil|]. intros (_ & H1 & H2 & H3 & Hl) [->|Hq]%elem_of_cons; [done|].
  by eapply IH.
Qed.

Lemma chained_snoc hd p l q r : list.last (p :: l) = Some q → chained hd p l → fusion_next (D q) = Some r →
  in_fusion (D r) = true → is_fusion_head (D r) = false → fusion_head (D r) = Some hd → chained hd p (l ++ [r]).
Proof.
  revert p. induction l as [|s l IH]; intros p Hq Hl Hn H1 H2 H3; simpl in *; [by simplify_eq|].
  destruct Hl as (E1 & E2 & E3 & E4 & Hl). split_and!; [done..|]. by apply IH.
Qed.

Lemma chained_app hd p l l' : chained hd p (l ++ l') → chained hd p l.
Proof. revert p. induction l as [|s l IH]; intros p; simpl; [done|]. intros (E1 & E2 & E3 & E4 & Hl). split_and!; [done..|]. by apply IH. Qed.

(** The members of an entry that is not the head's alone. *)
Lemma packet_snoc l p hd : packet l → head l = Some hd → in_fusion (D hd) = true → (∃ q, list.last l = Some q ∧ fusion_next (D q) = Some p) →
  in_fusion (D p) = true → is_fusion_head (D p) = false → fusion_head (D p) = Some hd → packet (l ++ [p]).
Proof.
  intros Hl Eh Hf (q & Eq & En) H1 H2 H3. destruct l as [|r l]; [done|]. injection Eh as ->. simpl in *. rewrite Hf in *.
  destruct Hl as (E1 & E2 & Hl). split_and!; [done..|]. by eapply chained_snoc.
Qed.

Lemma packet_app l l' : l ≠ [] → packet (l ++ l') → packet l.
Proof.
  intros Hl. destruct l as [|r l]; [done|]. simpl. destruct (in_fusion (D r)).
  - intros (E1 & E2 & Hc). split_and!; [done..|]. by eapply chained_app.
  - intros [E1 E]. split; [done|]. by destruct l.
Qed.

(** What the count of the head is to be. *)
Definition count_for (l : list (ptr * bool)) : Z :=
  match l with (p, _) :: _ => if in_fusion (D p) then waiting l else 0 | [] => 0 end.

(** *** A fused uop joins the entry of its head *)

Lemma RS_fuse_insert_ok x es e p hd : ok x (es ++ [e]) → head (e_uops e).*1 = Some hd → in_fusion (D hd) = true →
  (∃ q, list.last (e_uops e).*1 = Some q ∧ fusion_next (D q) = Some p) →
  in_fusion (D p) = true → is_fusion_head (D p) = false → fusion_head (D p) = Some hd → p ∉ members (es ++ [e]) →
  wp (RS_fuse_insert x p (D p)) (λ x', ok x' (es ++ [mk_entry (e_slot e) (e_uops e ++ [(p, false)])]) ∧ RS_size x' = RS_size x).
Proof.
  intros Hok Eh Hf Hlast H1 H2 H3 Hp. unfold RS_fuse_insert. rewrite H3. cbn [of_option rbind wp]. split; [|done]. set (x' := mk _ _ _ _ _ _ _).
  assert (e ∈ es ++ [e]) as Hine by (apply elem_of_app; right; left).
  pose proof (proj1 (list.Forall_forall _ _) (ok_entries _ _ Hok) e Hine) as [Hpk Hsi (q & b & l & El & G & C) Hix Hrest].
  rewrite El in Eh. injection Eh as ->.
  assert (hd ∈ (e_uops e).*1) as Hhd by (rewrite El; left).
  assert (p ≠ hd) as Hne by (intros ->; apply Hp; by eapply entry_members).
  destruct (ok_out _ _ Hok p Hp) as [_ Hpc].
  apply (ok_replace x x' es e [] (Some (e_uops e ++ [(p, false)]))); simpl; try done.
  - intros r Hr Hr'. rewrite fmap_app, not_elem_of_app in Hr'. destruct Hr' as [_ Hrp]. simpl in Hrp. apply not_elem_of_cons in Hrp as [Hrp _].
    unfold index_of, count_of, x'. simpl. rewrite lookup_insert_ne by done. split; [done|].
    rewrite lookup_insert_ne; [done|]. by intros ->.
  - constructor; [|constructor]. split; simpl.
    + rewrite fmap_app. apply (packet_snoc _ p hd); [done|by rewrite El|done..].
    + intros r c E. rewrite El in E. by destruct l.
    + exists hd, b, (l ++ [(p, false)]). rewrite El. split; [done|]. split; [done|]. unfold head_count in *. simpl. rewrite El in C. rewrite Hf in *.
      unfold count_of at 1, x'. simpl. rewrite lookup_insert_eq. simpl. rewrite C.
      change ((hd, b) :: l ++ [(p, false)]) with (((hd, b) :: l) ++ [(p, false)]). by rewrite waiting_app.
    + intros r. rewrite fmap_app, elem_of_app. simpl. rewrite list_elem_of_singleton. unfold index_of at 1, x'. simpl.
      destruct (decide (r = p)) as [->|Hrp]; [rewrite lookup_insert_eq; intros _; by apply Hix|].
      rewrite lookup_insert_ne by done. intros [Hr|]; [by apply Hix|done].
    + intros r. rewrite El in Hrest |- *. simpl in *. rewrite fmap_app, elem_of_app. simpl. rewrite list_elem_of_singleton. intros Hr.
      assert (r ≠ hd) as Hrh.
      { intros ->. destruct Hr as [Hr|]; [|done]. pose proof (ok_members _ _ Hok) as Hm. rewrite members_app in Hm.
        apply list.NoDup_app in Hm as (_ & _ & Hm). simpl in Hm. rewrite app_nil_r, El in Hm. simpl in Hm. by apply list.NoDup_cons in Hm as [? _]. }
      unfold count_of, x'. simpl. rewrite lookup_insert_ne by done. destruct Hr as [Hr| ->]; [by apply Hrest|done].
  - rewrite fmap_app. apply list.NoDup_app. pose proof (ok_members _ _ Hok) as Hm. rewrite members_app in Hm.
    apply list.NoDup_app in Hm as (_ & _ & Hm). simpl in Hm. rewrite app_nil_r in Hm. split; [done|]. split; [|apply NoDup_singleton].
    intros r Hr ->%list_elem_of_singleton. apply Hp. by eapply entry_members.
  - intros r. rewrite fmap_app, elem_of_app. simpl. rewrite list_elem_of_singleton. intros [?| ->]; auto.
  - intros r Hr []. rewrite fmap_app. by apply elem_of_app; left.
  - apply Hok.
  - rewrite waiting_app, waiting_one. lia.
Qed.

(** *** The youngest member of the youngest entry is squashed *)

Lemma taken_free x es e : ok x es → e ∈ es → taken (<[Z.to_nat (e_slot e) := None]> (RS x)) = RS_num x - 1 ∧
  1 ≤ RS_num x ∧ 0 ≤ e_slot e < Z.of_nat (length (RS x)).
Proof.
  intros Hok He. pose proof (proj1 (list.Forall_forall _ _) (ok_entries _ _ Hok) e He) as Hee.
  destruct (entry_slot x e Hee) as (q & G & _). apply aget_inv in G as [Hi G]. destruct (ok_num _ _ Hok) as [Hn Ht].
  rewrite (taken_insert _ _ (Some q)) by done. split; [lia|]. split; [|done]. apply list_elem_of_lookup in He as (j & Ej).
  apply lookup_lt_Some in Ej. lia.
Qed.

Lemma total_bound es e : e ∈ es → 0 ≤ waiting (e_uops e) ≤ total es.
Proof.
  intros He. assert (∀ l, 0 ≤ waiting l) as Hw by (intros l; unfold waiting; lia). split; [done|].
  assert (∀ es, 0 ≤ total es) as Ht by (induction es0 as [|e' es' IH]; simpl; [done|]; specialize (Hw (e_uops e')); lia).
  induction He as [e es|e e' es He IH]; simpl; [specialize (Ht es)|specialize (Hw (e_uops e'))]; lia.
Qed.

Lemma head_of (l : list (ptr * bool)) p b : l ≠ [] → head (l ++ [(p, b)]).*1 = head l.*1.
Proof. by destruct l. Qed.

(** What is common to the ways to squash: the count of the head and the sum have been seen
    to, the slot and the index are left. *)
Lemma free_last_ok x x1 es i p b : ok x (es ++ [mk_entry i [(p, b)]]) → RS_size x1 = RS_size x → RS x1 = RS x → RS_num x1 = RS_num x →
  RS_index x1 = RS_index x → (∀ q, q ≠ p → count_of x1 q = count_of x q) → count_of x1 p = 0 →
  RS_eff_num x1 = (RS_eff_num x - waiting [(p, b)]) →
  wp (let* x2 := free_entry x1 (index_of x1 p) in Ok (set_index p (-1) x2)) (λ x', ok x' es ∧ RS_size x' = RS_size x).
Proof.
  intros Hok E1 E2 E3 E4 Hc Hcp Ee. set (e := mk_entry i [(p, b)]) in *. assert (e ∈ es ++ [e]) as Hine by (apply elem_of_app; right; left).
  destruct (taken_free _ _ _ Hok Hine) as (Ht & Hn1 & Hi). pose proof (proj1 (list.Forall_forall _ _) (ok_entries _ _ Hok) e Hine) as [_ _ _ Hix _].
  assert (index_of x1 p = i) as -> by (unfold index_of; rewrite E4; apply Hix; left). simpl in Ht, Hi.
  unfold free_entry. rewrite E2, aset_ok by done. cbn [rbind]. rewrite E3, (proj2 (Z.leb_le _ _)) by lia. cbn [guard_or rbind wp].
  set (x' := set_index _ _ _). split; [|done]. rewrite <- (app_nil_r es).
  assert (∀ q, q ≠ p → index_of x' q = index_of x q ∧ count_of x' q = count_of x q) as Hsame.
  { intros q Hq. unfold index_of at 1, x'. simpl. rewrite E4, lookup_insert_ne by done. split; [done|]. by apply Hc. }
  apply (ok_replace x x' es e [] None Hok); simpl; try done.
  - by rewrite length_insert.
  - intros j Hj. eapply aget_aset_ne; [by apply aset_ok|done].
  - intros q Hq _. apply Hsame. intros ->. apply Hq. left.
  - constructor.
  - intros q ?%elem_of_nil. done.
  - intros q ->%list_elem_of_singleton _. split; [|exact Hcp]. unfold index_of, x'. simpl. by rewrite lookup_insert_eq.
  - lia.
Qed.

(** A member that is not the head: its entry stays. *)
Lemma drop_member_ok x x1 es i l p b hd : ok x (es ++ [mk_entry i (l ++ [(p, b)])]) → head l.*1 = Some hd →
  RS_size x1 = RS_size x → RS x1 = RS x → RS_num x1 = RS_num x → RS_index x1 = RS_index x → in_fusion (D hd) = true →
  (∀ q, q ≠ hd → count_of x1 q = count_of x q) → count_of x1 hd = waiting l → RS_eff_num x1 = (RS_eff_num x - (waiting (l ++ [(p, b)]) - waiting l)) →
  ok (set_index p (-1) x1) (es ++ [mk_entry i l]).
Proof.
  intros Hok Eh E1 E2 E3 E4 Hf Hc Hch Ee. set (e := mk_entry i (l ++ [(p, b)])) in *.
  assert (e ∈ es ++ [e]) as Hine by (apply elem_of_app; right; left).
  pose proof (proj1 (list.Forall_forall _ _) (ok_entries _ _ Hok) e Hine) as [Hpk Hsi (hd' & c & l' & El & G & C) Hix Hrest]. simpl e_uops in *. simpl e_slot in *.
  pose proof (ok_members _ _ Hok) as Hm. rewrite members_app in Hm. apply list.NoDup_app in Hm as (_ & Hdis & Hm). simpl in Hm.
  rewrite app_nil_r, fmap_app in Hm. apply list.NoDup_app in Hm as (Hml & Hmp & _).
  assert (p ∉ l.*1) as Hpl by (intros Hpl; apply (Hmp p Hpl); left).
  destruct l as [|[hd0 c0] l]; [done|]. simpl in Eh. injection Eh as ->. injection El as <- <- <-.
  assert (p ≠ hd) as Hph by (intros ->; apply Hpl; left).
  assert (∀ q, q ≠ p → index_of (set_index p (-1) x1) q = index_of x q) as Hidx.
  { intros q Hq. unfold index_of. simpl. by rewrite lookup_insert_ne, E4. }
  change (mk_entry i ((hd, c0) :: l)) with (mk_entry (e_slot e) ((hd, c0) :: l)).
  apply (ok_replace x (set_index p (-1) x1) es e [] (Some ((hd, c0) :: l)) Hok); simpl; try done.
  - by rewrite E2.
  - intros j _. by rewrite E2.
  - intros q Hq _. split; [apply Hidx|apply Hc]; intros ->; apply Hq.
    + right. rewrite fmap_app. apply elem_of_app. right. left.
    + left.
  - constructor; [|constructor]. split; simpl.
    + rewrite fmap_app in Hpk. apply (packet_app (hd :: l.*1) [p]); [done|exact Hpk].
    + intros q d [= <- <- _]. by rewrite Hf.
    + exists hd, c0, l. rewrite E2. split; [done|]. split; [done|]. unfold head_count. simpl. rewrite Hf. by rewrite <- Hch.
    + intros q Hq. rewrite Hidx; [apply Hix; simpl|].
      * rewrite fmap_app. apply elem_of_cons in Hq as [->|Hq]; [left|right]. by apply elem_of_app; left.
      * intros ->. by apply Hpl.
    + intros q Hq. change (count_of x1 q = 0). rewrite Hc; [apply Hrest; simpl; rewrite fmap_app; by apply elem_of_app; left|].
      intros ->. by apply list.NoDup_cons in Hml as [? _].
  - intros q Hq. left. apply elem_of_cons in Hq as [->|Hq]; [left|right]. rewrite fmap_app. by apply elem_of_app; left.
  - intros q Hq Hq'. assert (q = p) as ->.
    { apply elem_of_cons in Hq as [->|Hq]; [destruct Hq'; left|]. rewrite fmap_app in Hq. apply elem_of_app in Hq as [Hq|Hq]; [destruct Hq'; by right|].
      by apply list_elem_of_singleton in Hq. }
    split; [unfold index_of; simpl; by rewrite lookup_insert_eq|].
    change (count_of (set_index p (-1) x1) p) with (count_of x1 p). rewrite Hc by done.
    apply Hrest. simpl. rewrite fmap_app. apply elem_of_app. right. left.
  - rewrite E2, E3. apply Hok.
  - simpl app in Ee. lia.
Qed.

Lemma RS_deallocate_ok x es i l p b when_exec : ok x (es ++ [mk_entry i (l ++ [(p, b)])]) → (b = false ↔ when_exec = TICK_T_MAX) →
  wp (RS_deallocate x p (D p) when_exec) (λ x',
    ok x' (es ++ entries_of i (if decide (l = []) then None else Some l)) ∧ RS_size x' = RS_size x).
Proof.
  intros Hok Hb. set (e := mk_entry i (l ++ [(p, b)])) in *. assert (e ∈ es ++ [e]) as Hine by (apply elem_of_app; right; left).
  destruct (taken_free _ _ _ Hok Hine) as (_ & _ & Hi). destruct (total_bound _ _ Hine) as [_ Hw].
  pose proof (proj1 (list.Forall_forall _ _) (ok_entries _ _ Hok) e Hine) as [Hpk Hsi (hd & c & l' & El & G & C) Hix Hrest].
  rewrite <- (ok_eff _ _ Hok) in Hw. destruct (ok_size _ _ Hok) as [Hsz Hlen]. simpl e_slot in *. simpl e_uops in *.
  assert (index_of x p = i) as Hp by (apply Hix; rewrite fmap_app; apply elem_of_app; right; left).
  assert (waiting (l ++ [(p, b)]) = waiting l + (if b then 0 else 1)) as Ew by by rewrite waiting_app, waiting_one.
  assert (0 ≤ waiting l) as Hwl by (unfold waiting; lia).
  assert ((when_exec =? TICK_T_MAX) = negb b) as Ewe by (destruct b; [apply Z.eqb_neq; intros E%Hb; done|by apply Z.eqb_eq, Hb]).
  unfold RS_deallocate. rewrite Hp, Ewe. rewrite (proj2 (Z.ltb_lt _ _)) by lia. cbn [guard_or rbind].
  destruct (decide (l = [])) as [->|Hl]; simpl app in *.
  - injection El as <- <- <-. rewrite app_nil_r. simpl in Hpk. unfold head_count in C. simpl in C. destruct (in_fusion (D p)) eqn:Ef; simpl andb.
    + destruct Hpk as (E1 & E2 & _). rewrite E1, E2. destruct b; cbn [negb of_option rbind orb].
      * rewrite C, waiting_one. cbn [Z.eqb guard_or rbind]. apply (free_last_ok x x es i p true); try done. rewrite waiting_one. lia.
      * unfold uncount. rewrite (proj2 (Z.leb_le _ _)) by lia. cbn [guard_or rbind]. set (x1 := mk _ _ _ _ _ _ _).
        assert (count_of x1 p = 0) as Hc by (unfold count_of at 1, x1; simpl; rewrite lookup_insert_eq; simpl; by rewrite C).
        rewrite Hc. cbn [Z.eqb guard_or rbind]. apply (free_last_ok x x1 es i p false); try done.
        intros q Hq. unfold count_of, x1. simpl. by rewrite lookup_insert_ne.
    + destruct Hpk as (E1 & _). pose proof (Hsi p b eq_refl Ef) as ->. rewrite E1. cbn [negb orb rbind]. unfold uncount.
      rewrite (proj2 (Z.leb_le _ _)) by lia. cbn [guard_or rbind]. by apply (free_last_ok x _ es i p false).
  - destruct l as [|[hd0 c0] l]; [done|]. injection El as -> -> <-. simpl in Hpk. rewrite fmap_app in Hpk.
    destruct (in_fusion (D hd)) eqn:Ef; [|destruct Hpk as [_ E]; by destruct l]. destruct Hpk as (E1 & E2 & Hch).
    destruct (chained_in _ _ _ p Hch) as (F1 & F2 & F3); [apply elem_of_app; right; left|]. rewrite F1, F2, F3.
    unfold head_count in C. simpl in C. rewrite Ef in C.
    destruct b; cbn [negb andb of_option rbind guard_or orb wp].
    + split; [|done]. apply (drop_member_ok x x es i ((hd, c) :: l) p true hd Hok); try done. * rewrite C. simpl in Ew. lia. * simpl in *. lia.
    + unfold uncount. rewrite (proj2 (Z.leb_le _ _)) by (simpl in *; lia). cbn [guard_or rbind wp]. split; [|done].
      apply (drop_member_ok x _ es i ((hd, c) :: l) p false hd Hok); try done.
      * intros q Hq. unfold count_of. simpl. by rewrite lookup_insert_ne.
      * unfold count_of at 1. simpl. rewrite lookup_insert_eq. simpl in *. lia.
      * simpl in *. lia.
Qed.

(** *** A uop goes to execution *)

Definition tick (p : ptr) (l : list (ptr * bool)) : list (ptr * bool) := (λ x, if decide (x.1 = p) then (p, true) else x) <$> l.

Lemma tick_cons p q b l : tick p ((q, b) :: l) = (if decide (q = p) then (p, true) else (q, b)) :: tick p l.
Proof. done. Qed.

Lemma tick_fst p l : (tick p l).*1 = l.*1.
Proof. unfold tick. rewrite <- list_fmap_compose. apply list_fmap_ext. intros ? [q b] _. simpl. by destruct (decide (q = p)) as [->|]. Qed.

Lemma tick_other p l : p ∉ l.*1 → tick p l = l.
Proof.
  intros Hp. induction l as [|[q b] l IH]; [done|]. simpl in Hp. apply not_elem_of_cons in Hp as [Hne Hp].
  rewrite tick_cons, decide_False by done. by rewrite IH.
Qed.

Lemma waiting_tick p l : NoDup l.*1 → (p, false) ∈ l → waiting (tick p l) = waiting l - 1.
Proof.
  induction l as [|[q b] l IH]; [by intros _ ?%elem_of_nil|]. rewrite tick_cons. simpl. intros [Hq Hl]%list.NoDup_cons [E|Hp]%elem_of_cons.
  - injection E as <- <-. rewrite decide_True by done. rewrite tick_other by done.
    change ((p, true) :: l) with ([(p, true)] ++ l). change ((p, false) :: l) with ([(p, false)] ++ l). rewrite !waiting_app, !waiting_one. lia.
  - assert (q ≠ p) as Hne by (intros ->; apply Hq; by apply (list_elem_of_fmap_2 fst _ (p, false))). rewrite decide_False by done.
    change ((q, b) :: tick p l) with ([(q, b)] ++ tick p l). change ((q, b) :: l) with ([(q, b)] ++ l). rewrite !waiting_app, IH by done. lia.
Qed.

Lemma waiting_pos p l : (p, false) ∈ l → 1 ≤ waiting l.
Proof.
  intros Hp. unfold waiting. assert ((p, false) ∈ filter (λ x : ptr * bool, x.2 = false) l) as Hf by by apply list_elem_of_filter.
  destruct (filter _ l); [by apply elem_of_nil in Hf|]. simpl. lia.
Qed.

(** The uops of the heap are those that [D] describes. *)
Definition described (h : heap) (l : list ptr) : Prop := ∀ q, q ∈ l → ∃ u, uop_at h q = Ok u ∧ dec u = D q.

Lemma clear_chain_ok n h hd p l x : (length l < n)%nat → described h (p :: l) → chained hd p l →
  (∀ q, list.last (p :: l) = Some q → fusion_next (D q) = None) →
  ∃ m, clear_chain n h p x = Ok (mk (RS_size x) (RS x) (RS_num x) (RS_eff_num x) m (uops_in_RS x) (full_fusion_allocated x)) ∧
    ∀ q, m !! q = if decide (q ∈ p :: l) then Some (-1) else RS_index x !! q.
Proof.
  revert p l x. induction n as [|n IH]; intros p l x Hn Hd Hc Hl; [lia|]. destruct (Hd p) as (u & E & Eu); [left|]. simpl. rewrite E. cbn [rbind].
  destruct l as [|q l]; rewrite Eu.
  - rewrite (Hl p) by done. exists (<[p := -1]> (RS_index x)). split; [done|]. intros q. rewrite lookup_insert.
    case_decide as H1; case_decide as H2; try done; subst.
    + by destruct H2; left.
    + by apply list_elem_of_singleton in H2 as ->.
  - destruct Hc as (En & _ & _ & _ & Hc). rewrite En. simpl in Hn.
    destruct (IH q l (set_index p (-1) x)) as (m & -> & Hm); [lia| |done| |].
    + intros r Hr. apply Hd. by right.
    + intros r Hr. by apply Hl.
    + exists m. split; [done|]. intros r. rewrite Hm. simpl. rewrite lookup_insert.
      destruct (decide (r ∈ q :: l)) as [H1|H1]; [by rewrite decide_True by (by right)|].
      destruct (decide (p = r)) as [->|Hne]; [by rewrite decide_True by left|]. rewrite decide_False; [done|]. by intros [->|]%elem_of_cons.
Qed.

Lemma waiting_nonneg l : 0 ≤ waiting l.
Proof. unfold waiting. lia. Qed.

(** What is left of an entry, one of whose members goes to execution. *)
Definition remaining (p : ptr) (l : list (ptr * bool)) : option (list (ptr * bool)) :=
  if decide (waiting (tick p l) = 0) then None else Some (tick p l).

(** The whole of a fused set is in the entry. *)
Definition entire (l : list ptr) : Prop := ∀ q, list.last l = Some q → in_fusion (D q) = true → fusion_next (D q) = None.

(** All that [leave] does but the count of the uops that wait. *)
Lemma leave_ok_aux x x1 es1 e es2 p : ok x (es1 ++ e :: es2) → (p, false) ∈ e_uops e →
  RS_size x1 = RS_size x → RS_eff_num x1 = RS_eff_num x - 1 →
  (∀ q, q ∉ (e_uops e).*1 → index_of x1 q = index_of x q ∧ count_of x1 q = count_of x q) →
  match remaining p (e_uops e) with
  | None => RS x1 = <[Z.to_nat (e_slot e) := None]> (RS x) ∧ RS_num x1 = RS_num x - 1 ∧
      (∀ q, q ∈ (e_uops e).*1 → index_of x1 q = -1 ∧ count_of x1 q = 0)
  | Some _ => RS x1 = RS x ∧ RS_num x1 = RS_num x ∧ RS_index x1 = RS_index x ∧
      ∀ hd, head (e_uops e).*1 = Some hd → in_fusion (D hd) = true ∧ count_of x1 hd = count_of x hd - 1 ∧ ∀ q, q ≠ hd → count_of x1 q = count_of x q
  end → ok x1 (es1 ++ entries_of (e_slot e) (remaining p (e_uops e)) ++ es2).
Proof.
  intros Hok Hp Es Ee Hout Hx. assert (e ∈ es1 ++ e :: es2) as Hine by (apply elem_of_app; right; left).
  pose proof (proj1 (list.Forall_forall _ _) (ok_entries _ _ Hok) e Hine) as [Hpk Hsi (hd & b & l & El & G & C) Hix Hrest].
  destruct (taken_free _ _ _ Hok Hine) as (Ht & _ & Hi).
  assert (NoDup (e_uops e).*1) as Hnd.
  { pose proof (ok_members _ _ Hok) as Hm. rewrite members_app in Hm. apply list.NoDup_app in Hm as (_ & _ & Hm).
    change (NoDup ((e_uops e).*1 ++ members es2)) in Hm. by apply list.NoDup_app in Hm as (? & _ & _). }
  pose proof (waiting_tick p _ Hnd Hp) as Hw.
  assert (∀ l, uops_of (Some (tick p l)) = l.*1) as Hu by (intros; apply tick_fst).
  apply (ok_replace x x1 es1 e es2 (remaining p (e_uops e)) Hok Es); unfold remaining in *;
    destruct (decide (waiting (tick p (e_uops e)) = 0)) as [H0|H0]; rewrite ?Hu; try done; try (intros; by apply Hout).
  all: destruct Hx as (E1 & E2 & Hx); rewrite ?E1, ?E2; try done.
  - by rewrite length_insert.
  - intros j Hj. eapply aget_aset_ne; [by apply aset_ok|done].
  - destruct Hx as [E3 Hx]. constructor; [|constructor]. rewrite El in Hx. destruct (Hx hd eq_refl) as (Hf & Hc & Hcq). split; simpl; rewrite ?tick_fst.
    + done.
    + intros q c E Hq. assert (waiting [(q, c)] ≠ 0) as Hqc by by rewrite <- E. rewrite waiting_one in Hqc. by destruct c.
    + rewrite El, tick_cons. exists hd, (if decide (hd = p) then true else b), (tick p l). split; [by destruct (decide (hd = p)) as [->|]|].
      rewrite E1. split; [done|]. unfold head_count in *. simpl. rewrite El, tick_cons in *. rewrite Hf in C. rewrite Hc, C.
      destruct (decide (hd = p)) as [->|]; rewrite Hf; lia.
    + intros q Hq. unfold index_of. rewrite E3. by apply Hix.
    + intros q Hq. rewrite El in Hq, Hrest, Hnd. simpl in *. rewrite Hcq; [by apply Hrest|]. intros ->. by apply list.NoDup_cons in Hnd as [? _].
  - constructor.
  - intros q ?%elem_of_nil. done.
  - intros q Hq. by left.
  - intros q Hq _. by apply Hx.
  - apply Hok.
  - rewrite Ee. simpl. lia.
  - rewrite Ee. simpl. lia.
Qed.

Lemma leave_ok x es1 e es2 p h : ok x (es1 ++ e :: es2) → (p, false) ∈ e_uops e →
  described h (e_uops e).*1 → entire (e_uops e).*1 → (length (e_uops e) ≤ 64)%nat →
  wp (leave x h p (D p)) (λ x', ok x' (es1 ++ entries_of (e_slot e) (remaining p (e_uops e)) ++ es2) ∧ RS_size x' = RS_size x).
Proof.
  intros Hok Hp Hd Hent Hlen. assert (e ∈ es1 ++ e :: es2) as Hine by (apply elem_of_app; right; left).
  assert (p ∈ (e_uops e).*1) as Hpe by by apply (list_elem_of_fmap_2 fst _ (p, false)).
  pose proof (proj1 (list.Forall_forall _ _) (ok_entries _ _ Hok) e Hine) as [Hpk Hsi (hd & b & l & El & G & C) Hix Hrest].
  destruct (taken_free _ _ _ Hok Hine) as (_ & Hn1 & Hi). destruct (total_bound _ _ Hine) as [_ Hw]. rewrite <- (ok_eff _ _ Hok) in Hw.
  pose proof (waiting_pos _ _ Hp) as Hw1. destruct (ok_size _ _ Hok) as [Hsz HlR].
  assert (waiting (tick p (e_uops e)) = waiting (e_uops e) - 1) as Hwt.
  { apply waiting_tick; [|done]. pose proof (ok_members _ _ Hok) as Hm. rewrite members_app in Hm. apply list.NoDup_app in Hm as (_ & _ & Hm).
    change (NoDup ((e_uops e).*1 ++ members es2)) in Hm. by apply list.NoDup_app in Hm as (? & _ & _). }
  unfold leave. rewrite (Hix p Hpe). rewrite (proj2 (Z.leb_le _ _)), (proj2 (Z.ltb_lt _ _)) by lia. cbn [andb guard_or rbind].
  rewrite El in Hpk, Hpe, Hd, Hent, Hrest, Hlen. simpl in Hpk. unfold head_count in C. rewrite El in C. destruct (in_fusion (D hd)) eqn:Ef.
  - destruct Hpk as (E1 & E2 & Hch).
    assert (in_fusion (D p) = true ∧ fusion_head (D p) = Some hd) as [-> ->].
    { simpl in Hpe. apply elem_of_cons in Hpe as [->|Hpe]; [done|]. by destruct (chained_in _ _ _ p Hch Hpe) as (? & _ & ?). }
    cbn [of_option rbind]. rewrite <- El in C. rewrite C. set (x1 := mk _ _ _ _ _ _ _).
    assert (count_of x1 hd = waiting (e_uops e) - 1) as Hc1 by by (unfold count_of, x1; simpl; rewrite lookup_insert_eq).
    assert (∀ q, q ≠ hd → count_of x1 q = count_of x q) as Hcq by (intros q Hq; unfold count_of, x1; simpl; by rewrite lookup_insert_ne).
    rewrite Hc1. assert (∀ q, q ∉ (e_uops e).*1 → q ≠ hd) as Hnh by (intros q Hq ->; apply Hq; rewrite El; left).
    destruct (Z.eqb_spec (waiting (e_uops e) - 1) 0) as [H0|H0].
    + change (index_of x1 p) with (index_of x p). rewrite (Hix p) by by rewrite El. unfold free_entry. simpl RS. rewrite aset_ok by done. cbn [rbind]. simpl RS_num.
      rewrite (proj2 (Z.leb_le _ _)) by lia. cbn [guard_or rbind].
      edestruct (clear_chain_ok 65 h hd hd (l.*1)) as (m & -> & Hm); [|exact Hd|exact Hch| |].
      * rewrite length_fmap. simpl in Hlen. lia.
      * intros q Eq. apply (Hent q Eq). apply last_Some_elem_of in Eq. apply elem_of_cons in Eq as [->|Eq]; [done|].
        by destruct (chained_in _ _ _ q Hch Eq) as (? & _).
      * cbn [rbind]. simpl RS_eff_num. rewrite (proj2 (Z.leb_le _ _)) by lia. cbn [guard_or rbind wp]. split; [|done].
        apply (leave_ok_aux x _ es1 e es2 p); try done; simpl.
        -- intros q Hq. split; [|by apply Hcq, Hnh]. unfold index_of. simpl. rewrite Hm, decide_False; [done|]. rewrite El in Hq. exact Hq.
        -- unfold remaining. rewrite decide_True by lia. split; [done|]. split; [done|]. intros q Hq. rewrite El in Hq. split.
           ++ unfold index_of. simpl. rewrite Hm, decide_True; [done|]. exact Hq.
           ++ change (count_of x1 q = 0). destruct (decide (q = hd)) as [->|Hne]; [rewrite Hc1; lia|]. rewrite Hcq by done. apply Hrest.
              by apply elem_of_cons in Hq as [->|].
    + cbn [rbind]. simpl RS_eff_num. rewrite (proj2 (Z.leb_le _ _)) by lia. cbn [guard_or rbind wp]. split; [|done].
      apply (leave_ok_aux x _ es1 e es2 p); try done; simpl.
      * intros q Hq. split; [done|]. by apply Hcq, Hnh.
      * unfold remaining. rewrite decide_False by lia. split_and!; [done..|]. intros hd' Eh. rewrite El in Eh. injection Eh as <-. split; [done|]. split; [|exact Hcq].
        change (count_of x1 hd = count_of x hd - 1). by rewrite Hc1, C.
  - destruct Hpk as [E1 E2]. destruct l; [|done]. apply list_elem_of_singleton in Hpe as ->. simpl fst in *. rewrite Ef.
    unfold free_entry. rewrite aset_ok by done. cbn [rbind]. rewrite !(proj2 (Z.leb_le _ _)) by lia. cbn [guard_or rbind].
    simpl RS_eff_num. rewrite !(proj2 (Z.leb_le _ _)) by lia. cbn [guard_or rbind wp]. split; [|done].
    apply (leave_ok_aux x _ es1 e es2 hd); try done; simpl.
    + rewrite El. intros q Hq. split; [|done]. unfold index_of. simpl. rewrite lookup_insert_ne; [done|]. intros ->. apply Hq. left.
    + unfold remaining. rewrite (decide_True (P := waiting (tick hd (e_uops e)) = 0)) by (rewrite Hwt, El, waiting_one; by rewrite (Hsi hd b El Ef)).
      split; [done|]. split; [done|]. rewrite El. intros q ->%list_elem_of_singleton. split; [unfold index_of; simpl; by rewrite lookup_insert_eq|exact C].
Qed.

End inv.
End rs.

Module rs_run.
Import uops rs.

Inductive event : Type :=
  | dispatch (p : ptr)
  | dispatch_fused (p : ptr)
  | execute (p : ptr)
  | squash (p : ptr) (when_exec : Z).

Section run.
Variable h : heap.
(** What the decoder says of a uop; the flow of a uop does not change while it is in flight. *)
Variable D : ptr → decode_t.

(** [false]: the allocation stalls. *)
Definition code (ev : event) (x : t) : result (t * bool) :=
  match ev with
  | dispatch p => if RS_available x then let* x := RS_insert x p (D p) in Ok (x, true) else Ok (x, false)
  | dispatch_fused p => let* x := RS_fuse_insert x p (D p) in Ok (x, true)
  | execute p => let* x := leave x h p (D p) in Ok (x, true)
  | squash p when_exec => let* x := RS_deallocate x p (D p) when_exec in Ok (x, true)
  end.

(** A fused set is allocated from its head on before anything else is, and none of it
    executes before all of it is allocated. *)
Inductive enabled (es : list entry) : event → list entry → Prop :=
  | en_dispatch p i : p ∉ members es → (in_fusion (D p) = true → is_fusion_head (D p) = true ∧ fusion_head (D p) = Some p) →
      (in_fusion (D p) = false → is_fusion_head (D p) = false) → enabled es (dispatch p) (es ++ [mk_entry i [(p, false)]])
  | en_fused p hd q es' e : es = es' ++ [e] → head (e_uops e).*1 = Some hd → in_fusion (D hd) = true →
      list.last (e_uops e).*1 = Some q → fusion_next (D q) = Some p →
      in_fusion (D p) = true → is_fusion_head (D p) = false → fusion_head (D p) = Some hd → p ∉ members es →
      enabled es (dispatch_fused p) (es' ++ [mk_entry (e_slot e) (e_uops e ++ [(p, false)])])
  | en_execute p es1 e es2 : es = es1 ++ e :: es2 → (p, false) ∈ e_uops e → described D h (e_uops e).*1 → entire D (e_uops e).*1 →
      (length (e_uops e) ≤ 64)%nat → enabled es (execute p) (es1 ++ entries_of (e_slot e) (remaining p (e_uops e)) ++ es2)
  | en_squash p when_exec es' i l b : es = es' ++ [mk_entry i (l ++ [(p, b)])] → (b = false ↔ when_exec = TICK_T_MAX) →
      enabled es (squash p when_exec) (es' ++ entries_of i (if decide (l = []) then None else Some l)).

(** The slot of a new entry is the one that the code has found. *)
Inductive reach (size : Z) : t → list entry → Prop :=
  | reach_start : reach size (create size) []
  | reach_stall x es ev es' : reach size x es → enabled es ev es' → code ev x = Ok (x, false) → reach size x es
  | reach_step x es ev es' x' : reach size x es → enabled es ev es' → code ev x = Ok (x', true) →
      (∀ p, ev = dispatch p → list.last es' = Some (mk_entry (index_of x' p) [(p, false)])) → reach size x' es'.

Lemma code_ok x es ev es' : ok D x es → enabled es ev es' → wp (code ev x) (λ r,
  if r.2 then (∀ p, ev = dispatch p → list.last es' = Some (mk_entry (index_of r.1 p) [(p, false)])) → ok D r.1 es' else r.1 = x).
Proof.
  intros Hok He. destruct He as [p i Hp Hf Hn|p hd q es' e Ees Eh Hf Hq Hn H1 H2 H3 Hp|p es1 e es2 Ees Hp Hd Hent Hlen|p we es' i l b Ees Hb]; simpl.
  - destruct (RS_available x) eqn:Hav; [|done]. eapply wp_bind, wp_mono; [by apply (RS_insert_ok D x es p)|].
    intros x' (j & Hok' & _). simpl. intros Hl. specialize (Hl p eq_refl). rewrite list.last_app in Hl. simpl in Hl. injection Hl as ->.
    assert (index_of x' p = j) as ->; [|done].
    pose proof (ok_entries _ _ _ Hok') as He. apply list.Forall_app in He as [_ He]. apply list.Forall_cons in He as [He _]. apply (eo_index _ _ _ He). left.
  - subst es. eapply wp_bind, wp_mono; [apply (RS_fuse_insert_ok D x es' e p hd); eauto|]. intros x' [? _]. simpl. done.
  - subst es. eapply wp_bind, wp_mono; [by apply (leave_ok D x es1 e es2 p h)|]. intros x' [? _]. simpl. done.
  - subst es. eapply wp_bind, wp_mono; [by apply (RS_deallocate_ok D x es' i l p b we)|]. intros x' [? _]. simpl. done.
Qed.

Lemma reach_ok size x es : 1 ≤ size < 2 ^ 31 → reach size x es → ok D x es.
Proof.
  intros Hs Hr. induction Hr as [|x es ev es' Hr IH He E|x es ev es' x' Hr IH He E Hl]; [by apply rs_create_ok|done|].
  pose proof (code_ok _ _ _ _ IH He) as Hw. rewrite E in Hw. by apply Hw.
Qed.

(** C38. In every sequence of dispatches, executions and squashes that program order and
    fusion allow, the reservation stations hold one entry for each fused set or lone uop,
    RS_num counts the entries and RS_eff_num the uops that have not gone to execution, every
    uop's RS_index is the entry it shares with its set, and no assertion fails next. *)
Theorem rs_refines_entries size x es : 1 ≤ size < 2 ^ 31 → reach size x es →
  RS_num x = Z.of_nat (length es) ∧ RS_eff_num x = total es ∧
  (∀ e p, e ∈ es → p ∈ (e_uops e).*1 → index_of x p = e_slot e ∧ ∃ hd, aget (RS x) (e_slot e) = Ok (Some hd) ∧ head (e_uops e).*1 = Some hd) ∧
  (∀ p, p ∉ members es → index_of x p = -1) ∧
  ∀ ev es', enabled es ev es' → ∃ x' b, code ev x = Ok (x', b).
Proof.
  intros Hs Hr. pose proof (reach_ok _ _ _ Hs Hr) as Hok. split; [apply Hok|]. split; [apply Hok|]. split; [|split].
  - intros e p He Hp. pose proof (proj1 (list.Forall_forall _ _) (ok_entries _ _ _ Hok) e He) as [_ _ (hd & b & l & El & G & _) Hix _].
    split; [by apply Hix|]. exists hd. split; [done|]. by rewrite El.
  - intros p Hp. by apply (ok_out _ _ _ Hok).
  - intros ev es' He. pose proof (code_ok _ _ _ _ Hok He) as Hw. apply wp_exists in Hw as ([x' b] & E & _). eauto.
Qed.

End run.

(** ** A run *)

Definition demo_decode (fused head : bool) (hd next : option ptr) : decode_t :=
  mk_decode false [] [] 8 true true false false false false false false false false 1 1 0 fused head 2 hd next.

(** A lone uop, and a fused pair. *)
Definition demo_D (p : ptr) : decode_t :=
  if decide (p = (1, 0)) then demo_decode true true (Some (1, 0)) (Some (1, 1))
  else if decide (p = (1, 1)) then demo_decode true false (Some (1, 0)) None else demo_decode false false None None.

Definition demo_state : t :=
  default (create 3) (match (let* x := RS_insert (create 3) (0, 0) (demo_D (0, 0)) in let* x := RS_insert x (1, 0) (demo_D (1, 0)) in
                             RS_fuse_insert x (1, 1) (demo_D (1, 1))) with Ok x => Some x | Fault _ => None end).

Definition demo_entries : list entry := [mk_entry 0 [((0, 0), false)]; mk_entry 1 [((1, 0), false); ((1, 1), false)]].

Lemma demo_state_reached : reach [] demo_D 3 demo_state demo_entries.
Proof.
  eapply (reach_step _ _ _ _ [mk_entry 0 [((0, 0), false)]; mk_entry 1 [((1, 0), false)]] (dispatch_fused (1, 1))).
  - eapply (reach_step _ _ _ _ [mk_entry 0 [((0, 0), false)]] (dispatch (1, 0))).
    + eapply (reach_step _ _ _ _ [] (dispatch (0, 0))); [apply reach_start| |vm_compute; reflexivity|].
      * apply (en_dispatch _ _ [] (0, 0) 0); [by apply not_elem_of_nil|vm_compute; done..].
      * intros p [= <-]. reflexivity.
    + apply (en_dispatch _ _ [mk_entry 0 [((0, 0), false)]] (1, 0) 1); [by apply (bool_decide_eq_true_1 _)|vm_compute; done..].
    + vm_compute. reflexivity.
    + intros p [= <-]. reflexivity.
  - apply (en_fused _ _ _ (1, 1) (1, 0) (1, 0) [mk_entry 0 [((0, 0), false)]] (mk_entry 1 [((1, 0), false)])); try (vm_compute; reflexivity).
    by apply (bool_decide_eq_true_1 _).
  - vm_compute. reflexivity.
  - done.
Qed.

Lemma rs_refines_entries_witness : reach [] demo_D 3 demo_state demo_entries ∧ RS_num demo_state = 2 ∧ RS_eff_num demo_state = 3 ∧
  ∃ x' b, code [] demo_D (squash (1, 1) TICK_T_MAX) demo_state = Ok (x', b).
Proof.
  destruct (rs_refines_entries [] demo_D 3 demo_state demo_entries ltac:(lia) demo_state_reached) as (Hn & He & _ & _ & Hnext).
  split; [exact demo_state_reached|]. split; [exact Hn|]. split; [exact He|].
  eapply Hnext. apply (en_squash _ _ demo_entries (1, 1) TICK_T_MAX [mk_entry 0 [((0, 0), false)]] 1 [((1, 0), false)] false); [reflexivity|done].
Defined.

End rs_run.
