(* ===== verification/LSQ.v ===== *)
(** * LSQ: the load and store queues of exec-DPM.cpp

    Loads wait in the LDQ from allocation to commit.  Stores wait in the STQ: the main queue
    ends at commit, where the store is sent to the caches, the senior queue goes on until the
    caches have answered.  The answers come back through callbacks that find their entry by
    its index and tell an answer of an earlier owner of the entry by its action id. *)

From S2P Require Import Prelude Misc CacheHeap CacheSet Memory OracleDeps Uops.

Module lsq.
Import uops.

(** ** The entries *)

(** [phys_addr] is never written.
    Source: src/xiosim/ZPIPE-exec/exec-DPM.cpp:103-129 LDQ_t. *)
Record LDQ_t : Type := mk_LDQ {
  l_uop : option ptr;
  l_virt_addr : Z;
  l_first_byte_requested : bool;
  l_last_byte_requested : bool;
  first_byte_arrived : bool;
  last_byte_arrived : bool;
  repeater_first_arrived : bool;
  repeater_last_arrived : bool;
  first_repeated : bool;
  last_repeated : bool;
  l_mem_size : Z;
  l_addr_valid : bool;
  store_color : Z;
  colored_store_action_id : Z;
  hit_in_STQ : bool;
  l_when_issued : Z;
  speculative_broadcast : bool;
  partial_forward : bool
}.

(** Source: src/xiosim/ZPIPE-exec/exec-DPM.cpp:134-156 STQ_t. *)
Record STQ_t : Type := mk_STQ {
  sta : option ptr;
  std : option ptr;
  s_uop_seq : Z;
  s_virt_addr : Z;
  s_first_byte_requested : bool;
  s_last_byte_requested : bool;
  first_byte_written : bool;
  last_byte_written : bool;
  is_fence : bool;
  s_mem_size : Z;
  s_addr_valid : bool;
  value_valid : bool;
  next_load : Z;
  translation_complete : bool;
  write_complete : bool;
  s_action_id : Z
}.

(** What calloc and memzero leave. *)
Definition LDQ_zero : LDQ_t :=
  mk_LDQ None 0 false false false false false false false false 0 false 0 0 false 0 false false.
Definition STQ_zero : STQ_t :=
  mk_STQ None None 0 0 false false false false false 0 false false 0 false false 0.

Definition set_l_uop (v : option ptr) (e : LDQ_t) : LDQ_t :=
  mk_LDQ v (l_virt_addr e) (l_first_byte_requested e) (l_last_byte_requested e) (first_byte_arrived e) (last_byte_arrived e)
    (repeater_first_arrived e) (repeater_last_arrived e) (first_repeated e) (last_repeated e) (l_mem_size e) (l_addr_valid e)
    (store_color e) (colored_store_action_id e) (hit_in_STQ e) (l_when_issued e) (speculative_broadcast e) (partial_forward e).

Definition set_owners (a d : option ptr) (e : STQ_t) : STQ_t :=
  mk_STQ a d (s_uop_seq e) (s_virt_addr e) (s_first_byte_requested e) (s_last_byte_requested e) (first_byte_written e)
    (last_byte_written e) (is_fence e) (s_mem_size e) (s_addr_valid e) (value_valid e) (next_load e) (translation_complete e)
    (write_complete e) (s_action_id e).
Definition set_sta (v : option ptr) (e : STQ_t) : STQ_t := set_owners v (std e) e.
Definition set_std (v : option ptr) (e : STQ_t) : STQ_t := set_owners (sta e) v e.
Definition set_addr (a : Z) (e : STQ_t) : STQ_t :=
  mk_STQ (sta e) (std e) (s_uop_seq e) a (s_first_byte_requested e) (s_last_byte_requested e) (first_byte_written e)
    (last_byte_written e) (is_fence e) (s_mem_size e) true (value_valid e) (next_load e) (translation_complete e)
    (write_complete e) (s_action_id e).
Definition set_value (e : STQ_t) : STQ_t :=
  mk_STQ (sta e) (std e) (s_uop_seq e) (s_virt_addr e) (s_first_byte_requested e) (s_last_byte_requested e) (first_byte_written e)
    (last_byte_written e) (is_fence e) (s_mem_size e) (s_addr_valid e) true (next_load e) (translation_complete e)
    (write_complete e) (s_action_id e).
Definition set_requested (f l : bool) (e : STQ_t) : STQ_t :=
  mk_STQ (sta e) (std e) (s_uop_seq e) (s_virt_addr e) f l (first_byte_written e)
    (last_byte_written e) (is_fence e) (s_mem_size e) (s_addr_valid e) (value_valid e) (next_load e) (translation_complete e)
    (write_complete e) (s_action_id e).
Definition set_written (f l : bool) (e : STQ_t) : STQ_t :=
  mk_STQ (sta e) (std e) (s_uop_seq e) (s_virt_addr e) (s_first_byte_requested e) (s_last_byte_requested e) f
    l (is_fence e) (s_mem_size e) (s_addr_valid e) (value_valid e) (next_load e) (translation_complete e)
    (write_complete e) (s_action_id e).
Definition set_complete (tr wr : bool) (e : STQ_t) : STQ_t :=
  mk_STQ (sta e) (std e) (s_uop_seq e) (s_virt_addr e) (s_first_byte_requested e) (s_last_byte_requested e) (first_byte_written e)
    (last_byte_written e) (is_fence e) (s_mem_size e) (s_addr_valid e) (value_valid e) (next_load e) tr wr (s_action_id e).
Definition set_action_id (v : Z) (e : STQ_t) : STQ_t :=
  mk_STQ (sta e) (std e) (s_uop_seq e) (s_virt_addr e) (s_first_byte_requested e) (s_last_byte_requested e) (first_byte_written e)
    (last_byte_written e) (is_fence e) (s_mem_size e) (s_addr_valid e) (value_valid e) (next_load e) (translation_complete e)
    (write_complete e) v.

(** ** The queues *)

(** [LDQ_index] is alloc.LDQ_index of the uops.
    Source: src/xiosim/ZPIPE-exec/exec-DPM.cpp:130-132 core_exec_DPM_t. *)
Record ldq : Type := mk_ldq {
  LDQ_size : Z;
  LDQ : list LDQ_t;
  LDQ_head : Z;
  LDQ_tail : Z;
  LDQ_num : Z;
  LDQ_index : gmap ptr Z
}.

(** [STQ_index] is alloc.STQ_index of the uops.
    Source: src/xiosim/ZPIPE-exec/exec-DPM.cpp:156-162 core_exec_DPM_t. *)
Record stq : Type := mk_stq {
  STQ_size : Z;
  STQ : list STQ_t;
  STQ_head : Z;
  STQ_tail : Z;
  STQ_num : Z;
  STQ_senior_num : Z;
  STQ_senior_head : Z;
  partial_forward_throttle : bool;
  STQ_index : gmap ptr Z
}.

(** [global_action_id] is that of the core. *)
Record t : Type := mk { loads : ldq; stores : stq; global_action_id : Z }.

Definition ldq_create (size : Z) : ldq := mk_ldq size (replicate (Z.to_nat size) LDQ_zero) 0 0 0 ∅.
Definition stq_create (size : Z) : stq := mk_stq size (replicate (Z.to_nat size) STQ_zero) 0 0 0 0 0 false ∅.
(** Source: src/xiosim/ZPIPE-exec/exec-DPM.cpp:221-245 core_exec_DPM_t. *)
Definition create (ldq_size stq_size : Z) : t := mk (ldq_create ldq_size) (stq_create stq_size) 0.

Definition LDQ_index_of (q : ldq) (p : ptr) : Z := default (-1) (LDQ_index q !! p).
Definition STQ_index_of (s : stq) (p : ptr) : Z := default (-1) (STQ_index s !! p).

Definition with_LDQ (l : list LDQ_t) (q : ldq) : ldq := mk_ldq (LDQ_size q) l (LDQ_head q) (LDQ_tail q) (LDQ_num q) (LDQ_index q).
Definition with_STQ (l : list STQ_t) (s : stq) : stq :=
  mk_stq (STQ_size s) l (STQ_head s) (STQ_tail s) (STQ_num s) (STQ_senior_num s) (STQ_senior_head s) (partial_forward_throttle s) (STQ_index s).
Definition with_STQ_index (m : gmap ptr Z) (s : stq) : stq :=
  mk_stq (STQ_size s) (STQ s) (STQ_head s) (STQ_tail s) (STQ_num s) (STQ_senior_num s) (STQ_senior_head s) (partial_forward_throttle s) m.
Definition upd_STQ (s : stq) (i : Z) (f : STQ_t → STQ_t) : result stq := let* l := amodify (STQ s) i f in Ok (with_STQ l s).

(** Source: src/xiosim/zesto-core.cpp:118-121 new_action_id. *)
Definition next_action_id (g : Z) : Z := u64 (g + 1).

(** ** Loads *)

(** Source: src/xiosim/ZPIPE-exec/exec-DPM.cpp:2303-2306 LDQ_available. *)
Definition LDQ_available (q : ldq) : bool := LDQ_num q <? LDQ_size q.

(** Source: src/xiosim/ZPIPE-exec/exec-DPM.cpp:2794-2806 is_senior_STQ_entry_valid. *)
Definition is_senior_STQ_entry_valid (e : STQ_t) : bool :=
  bool_decide (sta e ≠ None) || bool_decide (std e ≠ None) || s_first_byte_requested e || s_last_byte_requested e.

(** Source: src/xiosim/ZPIPE-exec/exec-DPM.cpp:2308-2326 LDQ_insert. *)
Definition LDQ_insert (x : t) (p : ptr) (d : decode_t) : result t :=
  let q := loads x in
  let color := moddec (STQ_tail (stores x)) (STQ_size (stores x)) in
  let* e := aget (STQ (stores x)) color in
  let '(id, g) := if is_senior_STQ_entry_valid e then (s_action_id e, global_action_id x)
                  else (next_action_id (global_action_id x), next_action_id (global_action_id x)) in
  let* l := aset (LDQ q) (LDQ_tail q)
              (mk_LDQ (Some p) 0 false false false false false false false false (mem_size d) false color id false TICK_T_MAX false false) in
  Ok (mk (mk_ldq (LDQ_size q) l (LDQ_head q) (modinc (LDQ_tail q) (LDQ_size q)) (LDQ_num q + 1) (<[p := LDQ_tail q]> (LDQ_index q)))
         (stores x) g).

(** Source: src/xiosim/ZPIPE-exec/exec-DPM.cpp:2329-2336 LDQ_deallocate. *)
Definition LDQ_deallocate (q : ldq) (p : ptr) : result ldq :=
  let* l := amodify (LDQ q) (LDQ_head q) (set_l_uop None) in
  Ok (mk_ldq (LDQ_size q) l (modinc (LDQ_head q) (LDQ_size q)) (LDQ_tail q) (LDQ_num q - 1) (<[p := -1]> (LDQ_index q))).

(** Source: src/xiosim/ZPIPE-exec/exec-DPM.cpp:2338-2349 LDQ_squash. *)
Definition LDQ_squash (q : ldq) (p : ptr) : result ldq :=
  let i := LDQ_index_of q p in
  let* _ := guard_or ((0 <=? i) && (i <? LDQ_size q)) AssertFail in
  let* e := aget (LDQ q) i in
  let* _ := guard_or (bool_decide (l_uop e = Some p)) AssertFail in
  let* l := aset (LDQ q) i LDQ_zero in
  let* _ := guard_or (0 <=? LDQ_num q - 1) AssertFail in
  Ok (mk_ldq (LDQ_size q) l (LDQ_head q) (moddec (LDQ_tail q) (LDQ_size q)) (LDQ_num q - 1) (<[p := -1]> (LDQ_index q))).

(** ** Stores *)

(** Source: src/xiosim/ZPIPE-exec/exec-DPM.cpp:2350-2353 STQ_empty. *)
Definition STQ_empty (s : stq) : bool := STQ_senior_num s =? 0.

(** Source: src/xiosim/ZPIPE-exec/exec-DPM.cpp:2355-2359 STQ_available. *)
Definition STQ_available (s : stq) : bool := STQ_senior_num s <? STQ_size s.

(** Source: src/xiosim/ZPIPE-exec/exec-DPM.cpp:2361-2376 STQ_insert_sta. *)
Definition STQ_insert_sta (x : t) (p : ptr) (d : decode_t) : result t :=
  let s := stores x in
  let g := next_action_id (global_action_id x) in
  let* l := aset (STQ s) (STQ_tail s)
              (mk_STQ (Some p) None (uop_seq d) 0 false false false false (is_sfence d) (mem_size d) false false (LDQ_tail (loads x)) false false g) in
  Ok (mk (loads x)
         (mk_stq (STQ_size s) l (STQ_head s) (modinc (STQ_tail s) (STQ_size s)) (STQ_num s + 1) (STQ_senior_num s + 1) (STQ_senior_head s)
            (partial_forward_throttle s) (<[p := STQ_tail s]> (STQ_index s))) g).

(** Source: src/xiosim/ZPIPE-exec/exec-DPM.cpp:2378-2387 STQ_insert_std. *)
Definition STQ_insert_std (s : stq) (p : ptr) : result stq :=
  let i := moddec (STQ_tail s) (STQ_size s) in
  let* s := upd_STQ (with_STQ_index (<[p := i]> (STQ_index s)) s) i (set_std (Some p)) in
  let* e := aget (STQ s) i in
  let* a := of_option AssertFail (sta e) in
  let* _ := guard_or (a.1 =? p.1) AssertFail in
  Ok s.

(** Source: src/xiosim/ZPIPE-exec/exec-DPM.cpp:2389-2392 STQ_deallocate_sta. *)
Definition STQ_deallocate_sta (s : stq) : result stq := upd_STQ s (STQ_head s) (set_sta None).

Definition pop_main (s : stq) : stq :=
  mk_stq (STQ_size s) (STQ s) (modinc (STQ_head s) (STQ_size s)) (STQ_tail s) (STQ_num s - 1) (STQ_senior_num s) (STQ_senior_head s)
    (partial_forward_throttle s) (STQ_index s).

(** May the memory fence [p] leave?
    Source: src/xiosim/ZPIPE-exec/exec-DPM.cpp:2399-2414 STQ_deallocate_fence. *)
Definition mfence_waits (x : t) (h : heap) (d : decode_t) (sim_cycle : Z) : result bool :=
  if is_mfence d && (0 <? LDQ_num (loads x)) then
    let* e := aget (LDQ (loads x)) (LDQ_head (loads x)) in
    let* hp := of_option NullDeref (l_uop e) in
    let* u := uop_at h hp in
    Ok ((uop_seq (dec u) <? u64 (uop_seq d - 1)) ||
        (is_lfence (dec u) && (uop_seq (dec u) <? uop_seq d) && (sim_cycle <? when_completed (tim u))))
  else Ok false.

(** Source: src/xiosim/ZPIPE-exec/exec-DPM.cpp:2394-2425 STQ_deallocate_fence. *)
Definition STQ_deallocate_fence (x : t) (h : heap) (p : ptr) (d : decode_t) (sim_cycle : Z) : result (t * bool) :=
  let s := stores x in
  if negb (STQ_index_of s p =? STQ_senior_head s) then Ok (x, false)
  else
    let* w := mfence_waits x h d sim_cycle in
    if w then Ok (x, false)
    else
      let* s := upd_STQ s (STQ_senior_head s) (λ e, set_owners None None (set_complete true true e)) in
      Ok (mk (loads x) (pop_main s) (global_action_id x), true).

(** A store on its way to the caches: the dummy uop, and the part of a split access. *)
Record store_req : Type := mk_req {
  r_cmd : cache_command;
  r_PC : Z;
  r_addr : Z;
  r_STQ_index : Z;
  r_action_id : Z;
  r_Mop_seq : Z;
  r_uop_seq : Z;
  r_is_repeated : bool;
  r_is_sync_op : bool
}.

(** What the caches offer to committed stores: the first level data cache, the data TLB (of
    the second level, if there is one), the memory repeater, whose [true] says that the
    callback has been called at once. *)
Class StoreMem (M : Type) : Type := {
  DL1_enqueuable : M → Z → result bool;
  DTLB_enqueuable : M → Z → result bool;
  repeater_enqueuable : M → cache_command → Z → result bool;
  DL1_enqueue : M → bool → store_req → result M;
  DTLB_enqueue : M → store_req → result M;
  repeater_enqueue : M → bool → store_req → result (M * bool);
  DL1_addr_shift : M → Z
}.

(** Source: src/xiosim/zesto-cache.h:395-398 cache_single_line_access. *)
Definition cache_single_line_access (addr_shift addr size : Z) : bool :=
  Z.shiftr (u64 (addr + size - 1)) addr_shift =? Z.shiftr addr addr_shift.

(** The address is cut to an unsigned int.
    Source: src/xiosim/helix.h:23-26 is_addr_helix_signal. *)
Definition is_addr_helix_signal (addr : Z) : bool := Z.land (u32 addr) 65536 =? 0.

(** Source: src/xiosim/helix.h:28-33 is_uop_helix_signal. *)
Definition is_uop_helix_signal (d : decode_t) (o : oracle_t) : bool :=
  (is_sta d || is_std d) && is_sync_op o && is_addr_helix_signal (virt_addr o).

(** Source: src/xiosim/zesto-exec.cpp:99-105 get_STQ_request_type. *)
Definition get_STQ_request_type (o : oracle_t) : cache_command :=
  if negb (is_sync_op o) then CACHE_WRITE
  else if is_addr_helix_signal (virt_addr o) then CACHE_SIGNAL else CACHE_WAIT.

(** ** The answers of the caches *)

(** The caches have written a part of a store: the first or the last.
    Source: src/xiosim/ZPIPE-exec/exec-DPM.cpp:2664-2688 store_dl1_callback. *)
Definition part_written (split : bool) (e : STQ_t) : STQ_t :=
  let e := set_written (if split then first_byte_written e else true) (if split then true else last_byte_written e) e in
  if first_byte_written e && last_byte_written e then set_complete (translation_complete e) true e else e.

Definition in_STQ (s : stq) (i : Z) : bool := (0 <=? i) && (i <? STQ_size s).

(** Source: src/xiosim/ZPIPE-exec/exec-DPM.cpp:2690-2713 store_dl1_split_callback. *)
Definition store_dl1_callback (split : bool) (s : stq) (r : store_req) : result stq :=
  let i := r_STQ_index r in
  let* _ := guard_or (in_STQ s i) AssertFail in
  if r_is_repeated r then Ok s
  else let* e := aget (STQ s) i in
       if r_action_id r =? s_action_id e then upd_STQ s i (part_written split) else Ok s.

(** Source: src/xiosim/ZPIPE-exec/exec-DPM.cpp:2715-2729 store_dtlb_callback. *)
Definition store_dtlb_callback (s : stq) (r : store_req) : result stq :=
  let i := r_STQ_index r in
  let* _ := guard_or (in_STQ s i) AssertFail in
  let* e := aget (STQ s) i in
  if r_action_id r =? s_action_id e then upd_STQ s i (λ e, set_complete true (write_complete e) e) else Ok s.

(** Source: src/xiosim/ZPIPE-exec/exec-DPM.cpp:2731-2741 store_translated_callback. *)
Definition store_translated_callback (s : stq) (r : store_req) : result bool :=
  let i := r_STQ_index r in
  if i =? -1 then Ok true
  else let* e := aget (STQ s) i in
       if negb (r_action_id r =? s_action_id e) then Ok true
       else let* _ := guard_or (in_STQ s i) AssertFail in Ok (translation_complete e).

(** Source: src/xiosim/ZPIPE-exec/exec-DPM.cpp:2743-2790 repeater_store_callback. *)
Definition repeater_store_callback (split : bool) (s : stq) (r : store_req) (is_hit : bool) : result stq :=
  let i := r_STQ_index r in
  let* _ := guard_or (r_is_repeated r) AssertFail in
  let* _ := guard_or is_hit AssertFail in
  let* _ := guard_or (in_STQ s i) AssertFail in
  let* e := aget (STQ s) i in
  if r_action_id r =? s_action_id e then
    let* _ := guard_or (negb split || negb (r_is_sync_op r)) AssertFail in upd_STQ s i (part_written split)
  else Ok s.

(** ** A store commits *)

Section commit.
Context {M : Type} `{StoreMem M}.

(** What the code knows of the store: its place, and the fields of the uop. *)
Record store_uop : Type := mk_store_uop { u_ptr : ptr; u_dec : decode_t; u_orc : oracle_t; u_PC : Z }.

Definition request (s : stq) (u : store_uop) (id : Z) (cmd : cache_command) (addr : Z) : store_req :=
  mk_req cmd (u_PC u) addr (STQ_index_of s (u_ptr u)) id (Mop_seq (u_dec u)) (uop_seq (u_dec u)) (is_repeated (u_orc u)) (is_sync_op (u_orc u)).

(** Source: src/xiosim/ZPIPE-exec/exec-DPM.cpp:2436-2437 STQ_deallocate_std. *)
Definition send_to_dl1 (DL1_rep_req : bool) (u : store_uop) : bool := negb (is_repeated (u_orc u)) || DL1_rep_req.

(** Is there room for the first part of the access?
    Source: src/xiosim/ZPIPE-exec/exec-DPM.cpp:2441-2455 STQ_deallocate_std. *)
Definition room_for_first (m : M) (DL1_rep_req : bool) (asid : Z) (u : store_uop) : result bool :=
  let cmd := get_STQ_request_type (u_orc u) in
  let addr := virt_addr (u_orc u) in
  let* tlb := if decide (cmd = CACHE_WRITE) then DTLB_enqueuable m (page_table_address asid addr) else Ok true in
  if negb tlb then Ok false
  else
    let* dl1 := if send_to_dl1 DL1_rep_req u then DL1_enqueuable m addr else Ok true in
    if negb dl1 then Ok false
    else if is_repeated (u_orc u) then repeater_enqueuable m cmd addr else Ok true.

(** The answer of the repeater that comes before its enqueue returns. *)
Definition answered_at_once (split : bool) (s : stq) (r : store_req) (now : bool) : result stq :=
  if now then repeater_store_callback split s r true else Ok s.

(** The first part of the access, or the whole of it.
    Source: src/xiosim/ZPIPE-exec/exec-DPM.cpp:2457-2523 STQ_deallocate_std. *)
Definition send_first (s : stq) (m : M) (DL1_rep_req : bool) (asid : Z) (u : store_uop) : result (stq * M) :=
  let i := STQ_head s in
  let o := u_orc u in
  let* s := upd_STQ s i (λ e, set_complete (translation_complete e) false e) in
  let* e := aget (STQ s) i in
  let id := s_action_id e in
  let* m := if send_to_dl1 DL1_rep_req u then DL1_enqueue m false (request s u id CACHE_WRITE (virt_addr o)) else Ok m in
  let* '(s, m) :=
    if negb (is_sync_op o) then
      let* s := upd_STQ s i (λ e, set_complete false (write_complete e) e) in
      let* m := DTLB_enqueue m (mk_req CACHE_READ (u_PC u) (page_table_address asid (virt_addr o)) (STQ_index_of s (u_ptr u)) id
                                  (Mop_seq (u_dec u)) (uop_seq (u_dec u)) false false) in
      Ok (s, m)
    else let* s := upd_STQ s i (λ e, set_complete true (write_complete e) e) in Ok (s, m) in
  let* '(s, m) :=
    if is_repeated o then
      let r := request s u id (get_STQ_request_type o) (virt_addr o) in
      let* '(m, now) := repeater_enqueue m false r in
      let* s := answered_at_once false s r now in Ok (s, m)
    else Ok (s, m) in
  let* s := if is_sync_op o || cache_single_line_access (DL1_addr_shift m) (virt_addr o) (mem_size (u_dec u)) then
              upd_STQ s i (λ e, set_written (first_byte_written e) true (set_requested (s_first_byte_requested e) true e))
            else Ok s in
  let* s := upd_STQ s i (λ e, set_requested true (s_last_byte_requested e) e) in
  Ok (s, m).

(** The second part of a split access; [false] if it has to wait.
    Source: src/xiosim/ZPIPE-exec/exec-DPM.cpp:2525-2572 STQ_deallocate_std. *)
Definition send_second (s : stq) (m : M) (DL1_rep_req : bool) (u : store_uop) : result (stq * M * bool) :=
  let i := STQ_head s in
  let o := u_orc u in
  let split_addr := u64 (virt_addr o + mem_size (u_dec u)) in
  let* _ := guard_or (negb (is_sync_op o)) AssertFail in
  let* dl1 := if send_to_dl1 DL1_rep_req u then DL1_enqueuable m split_addr else Ok true in
  if negb dl1 then Ok (s, m, false)
  else
    let* rep := if is_repeated o then repeater_enqueuable m CACHE_WRITE split_addr else Ok true in
    if negb rep then Ok (s, m, false)
    else
      let* e := aget (STQ s) i in
      let id := s_action_id e in
      let r := request s u id CACHE_WRITE split_addr in
      let* m := if send_to_dl1 DL1_rep_req u then DL1_enqueue m true r else Ok m in
      let* '(s, m) :=
        if is_repeated o then
          let* '(m, now) := repeater_enqueue m true r in
          let* s := answered_at_once true s r now in Ok (s, m)
        else Ok (s, m) in
      let* s := upd_STQ s i (λ e, set_requested (s_first_byte_requested e) true e) in
      Ok (s, m, true).

(** Source: src/xiosim/ZPIPE-exec/exec-DPM.cpp:2428-2585 STQ_deallocate_std. *)
Definition STQ_deallocate_std (x : t) (m : M) (h : heap) (DL1_rep_req : bool) (asid sim_cycle : Z) (u : store_uop) : result (t * M * bool) :=
  if is_sfence (u_dec u) then
    let* '(x, b) := STQ_deallocate_fence x h (u_ptr u) (u_dec u) sim_cycle in Ok (x, m, b)
  else
    let s := stores x in
    let i := STQ_head s in
    let* room := room_for_first m DL1_rep_req asid u in
    if negb room then Ok (x, m, false)
    else
      let* e := aget (STQ s) i in
      let* '(s, m) := if negb (s_first_byte_requested e) then send_first s m DL1_rep_req asid u else Ok (s, m) in
      let* e := aget (STQ s) i in
      let* '(s, m, go) := if s_first_byte_requested e && negb (s_last_byte_requested e) then send_second s m DL1_rep_req u else Ok (s, m, true) in
      let x := mk (loads x) s (global_action_id x) in
      if negb go then Ok (x, m, false)
      else
        let* e := aget (STQ s) i in
        if s_first_byte_requested e && s_last_byte_requested e then
          let* s := upd_STQ s i (set_std None) in Ok (mk (loads x) (pop_main s) (global_action_id x), m, true)
        else Ok (x, m, false).

End commit.

(** ** The senior queue *)

Definition pop_senior (throttle : bool) (s : stq) : stq :=
  mk_stq (STQ_size s) (STQ s) (STQ_head s) (STQ_tail s) (STQ_num s) (STQ_senior_num s - 1) (modinc (STQ_senior_head s) (STQ_size s))
    throttle (STQ_index s).

(** Source: src/xiosim/ZPIPE-exec/exec-DPM.cpp:2587-2607 STQ_deallocate_senior. *)
Definition STQ_deallocate_senior (x : t) : result t :=
  let s := stores x in
  let* e := aget (STQ s) (STQ_senior_head s) in
  if write_complete e && translation_complete e then
    let g := next_action_id (global_action_id x) in
    let* s := upd_STQ s (STQ_senior_head s) (λ e, set_action_id g (set_requested false false (set_complete false false e))) in
    let s := pop_senior false s in
    let* _ := guard_or (0 <=? STQ_senior_num s) AssertFail in
    Ok (mk (loads x) s g)
  else Ok x.

(** ** Recovery *)

(** Source: src/xiosim/ZPIPE-exec/exec-DPM.cpp:2609-2623 STQ_squash_sta. *)
Definition STQ_squash_sta (s : stq) (p : ptr) : result stq :=
  let i := STQ_index_of s p in
  let* _ := guard_or (in_STQ s i) AssertFail in
  let* e := aget (STQ s) i in
  let* _ := guard_or (bool_decide (std e = None)) AssertFail in
  let* _ := guard_or (bool_decide (sta e = Some p)) AssertFail in
  let* l := aset (STQ s) i STQ_zero in
  let* _ := guard_or (0 <=? STQ_num s - 1) AssertFail in
  let* _ := guard_or (0 <=? STQ_senior_num s - 1) AssertFail in
  Ok (mk_stq (STQ_size s) l (STQ_head s) (moddec (STQ_tail s) (STQ_size s)) (STQ_num s - 1) (STQ_senior_num s - 1) (STQ_senior_head s)
        (partial_forward_throttle s) (<[p := -1]> (STQ_index s))).

(** Source: src/xiosim/ZPIPE-exec/exec-DPM.cpp:2625-2631 STQ_squash_std. *)
Definition STQ_squash_std (s : stq) (p : ptr) : result stq :=
  let i := STQ_index_of s p in
  let* _ := guard_or (in_STQ s i) AssertFail in
  let* e := aget (STQ s) i in
  let* _ := guard_or (bool_decide (std e = Some p)) AssertFail in
  upd_STQ (with_STQ_index (<[p := -1]> (STQ_index s)) s) i (set_std None).

(** Source: src/xiosim/ZPIPE-exec/exec-DPM.cpp:2637-2649 STQ_squash_senior.
    One turn of the loop. *)
Definition squash_one (x : t) : result t :=
  let s := stores x in
  let g := next_action_id (global_action_id x) in
  let* s := upd_STQ s (STQ_senior_head s) (λ _, set_action_id g STQ_zero) in
  let s := if (STQ_senior_head s =? STQ_head s) && (0 <? STQ_num s) then pop_main s else s in
  Ok (mk (loads x) (pop_senior (partial_forward_throttle s) s) g).

(** Source: src/xiosim/ZPIPE-exec/exec-DPM.cpp:2633-2650 STQ_squash_senior. *)
Fixpoint squash_loop (fuel : nat) (x : t) : result t :=
  if 0 <? STQ_senior_num (stores x) then
    match fuel with O => Fault Diverge | S n => let* x := squash_one x in squash_loop n x end
  else Ok x.
(** Source: src/xiosim/ZPIPE-exec/exec-DPM.cpp:2633-2650 STQ_squash_senior. *)
Definition STQ_squash_senior (x : t) : result t := squash_loop (Z.to_nat (STQ_size (stores x))) x.

(** ** Execution *)

(** Source: src/xiosim/ZPIPE-exec/exec-DPM.cpp:1939-1945 STQ_set_addr. *)
Definition STQ_set_addr (s : stq) (p : ptr) (addr : Z) : result stq :=
  let i := STQ_index_of s p in
  let* _ := guard_or (in_STQ s i) AssertFail in
  let* e := aget (STQ s) i in
  let* _ := guard_or (negb (s_addr_valid e)) AssertFail in
  upd_STQ s i (set_addr addr).

(** Source: src/xiosim/ZPIPE-exec/exec-DPM.cpp:1947-1952 STQ_set_data. *)
Definition STQ_set_data (s : stq) (p : ptr) : result stq :=
  let i := STQ_index_of s p in
  let* _ := guard_or (in_STQ s i) AssertFail in
  let* e := aget (STQ s) i in
  let* _ := guard_or (negb (value_valid e)) AssertFail in
  upd_STQ s i set_value.

End lsq.
