(* ===== verification/LSQInv.v ===== *)
(** * LSQInv: what the load and store queues hold

    The LDQ is the list of the loads in flight, the main STQ the list of the stores in flight,
    each with its address uop and its data uop as far as they are there. *)

From S2P Require Import Prelude Misc CacheHeap CacheSet Memory OracleDeps Uops LSQ.

Module lsq_inv.
Import uops lsq.
Export lsq.

(** ** The load queue *)

Record ldq_ok (q : ldq) (ls : list ptr) : Prop := {
  ld_ring : ring.ring_ok (LDQ q) (LDQ_size q) (LDQ_head q) (LDQ_num q) (LDQ_tail q);
  ld_uops : l_uop <$> ring.window (LDQ q) (LDQ_size q) (LDQ_head q) (LDQ_num q) = Some <$> ls;
  ld_free : ring.free (λ e, l_uop e = None) (LDQ q) (LDQ_size q) (LDQ_head q) (LDQ_num q);
  ld_index : ∀ j p, ls !! j = Some p → LDQ_index_of q p = ring.slot (LDQ_size q) (LDQ_head q) (Z.of_nat j);
  ld_out : ∀ p, p ∉ ls → LDQ_index_of q p = -1
}.

Lemma ldq_length q ls : ldq_ok q ls → Z.of_nat (length ls) = LDQ_num q.
Proof.
  intros Hok. rewrite <- (ring.window_length _ _ _ _ _ (ld_ring _ _ Hok)). f_equal.
  rewrite <- (length_fmap Some ls), <- (ld_uops _ _ Hok). by rewrite length_fmap.
Qed.

Lemma ldq_nodup q ls : ldq_ok q ls → NoDup ls.
Proof.
  intros Hok. pose proof (ldq_length _ _ Hok). destruct (ld_ring _ _ Hok). apply NoDup_alt. intros i j p Ei Ej.
  pose proof (ld_index _ _ Hok i p Ei) as Hi. rewrite (ld_index _ _ Hok j p Ej) in Hi. apply Nat2Z.inj.
  apply lookup_lt_Some in Ei, Ej. symmetry. by apply (ring.slot_inj (LDQ_size q) (LDQ_head q)); try lia.
Qed.

Lemma ldq_create_ok size : 1 ≤ size < 2 ^ 31 → ldq_ok (ldq_create size) [].
Proof.
  intros Hs. split; simpl; try done.
  - by apply ring.ring_create.
  - intros j x _ G. apply aget_inv in G as [_ G]. by apply lookup_replicate in G as [-> _].
Qed.

Lemma LDQ_insert_ok x ls p d : ldq_ok (loads x) ls → LDQ_available (loads x) = true → p ∉ ls →
  (∃ e, aget (STQ (stores x)) (moddec (STQ_tail (stores x)) (STQ_size (stores x))) = Ok e) →
  wp (LDQ_insert x p d) (λ x', ldq_ok (loads x') (ls ++ [p]) ∧ LDQ_size (loads x') = LDQ_size (loads x) ∧ stores x' = stores x ∧
    (global_action_id x' = global_action_id x ∨ global_action_id x' = next_action_id (global_action_id x))).
Proof.
  intros Hok Hav Hp [e He]. pose proof (ldq_length _ _ Hok) as Hlen. destruct Hok as [Hr Hu Hf Hi Ho]. unfold LDQ_available in Hav. apply Z.ltb_lt in Hav.
  pose proof Hr as [Hs Hl Hn Hh Ht]. pose proof (ring.slot_in_range _ (LDQ_head (loads x)) Hs (LDQ_num (loads x))) as Htr. rewrite <- Ht in Htr.
  unfold LDQ_insert. rewrite He. cbn [rbind].
  assert (∃ id g, (if is_senior_STQ_entry_valid e then (s_action_id e, global_action_id x)
    else (next_action_id (global_action_id x), next_action_id (global_action_id x))) = (id, g) ∧
    (g = global_action_id x ∨ g = next_action_id (global_action_id x))) as (id & g & -> & Hg) by (destruct (is_senior_STQ_entry_valid e); eauto).
  rewrite aset_ok by lia. cbn [rbind wp]. set (n := mk_LDQ _ _ _ _ _ _ _ _ _ _ _ _ _ _ _ _ _ _). split; [|done].
  destruct (ring.window_push _ _ _ _ _ n Hr Hav) as [Hr' Hw]. split; simpl; try done.
  - rewrite Hw, !fmap_app, Hu. done.
  - by eapply ring.free_push.
  - intros j q Hj. unfold LDQ_index_of. simpl. apply lookup_app_Some in Hj as [Hj|[Hj1 Hj]].
    + rewrite lookup_insert_ne; [by apply Hi|]. intros ->. apply Hp. by apply list_elem_of_lookup_2 in Hj.
    + apply list_lookup_singleton_Some in Hj as [Hj <-]. rewrite lookup_insert_eq. simpl. rewrite Ht. f_equal. lia.
  - intros q. rewrite not_elem_of_app, list_elem_of_singleton. intros [Hq Hne]. unfold LDQ_index_of. simpl.
    rewrite lookup_insert_ne by done. by apply Ho.
Qed.

Lemma LDQ_deallocate_ok q p ls : ldq_ok q (p :: ls) → wp (LDQ_deallocate q p) (λ q', ldq_ok q' ls ∧ LDQ_size q' = LDQ_size q).
Proof.
  intros Hok. pose proof (ldq_length _ _ Hok) as Hlen. pose proof (ldq_nodup _ _ Hok) as Hnd. destruct Hok as [Hr Hu Hf Hi Ho]. simpl in Hlen.
  apply list.NoDup_cons in Hnd as [Hpn Hnd]. pose proof Hr as [Hs Hl Hn Hh Ht].
  destruct (ring.window_pop _ _ _ _ _ Hr ltac:(lia)) as (_ & e & G & Hw).
  unfold LDQ_deallocate, amodify. rewrite G. cbn [rbind]. rewrite aset_ok by lia. cbn [rbind wp]. split; [|done].
  destruct (ring.window_insert _ _ _ _ _ 0 (set_l_uop None e) Hr ltac:(lia)) as [Hr1 Hw1]. rewrite ring.slot_0 in Hr1, Hw1 by done.
  destruct (ring.window_pop _ _ _ _ _ Hr1 ltac:(lia)) as (Hr' & e' & _ & Hw'). split; simpl; try done.
  - rewrite Hw in Hu, Hw1. rewrite Hw1 in Hw'. simpl in Hw'. injection Hw' as _ Hw'. rewrite <- Hw'. by injection Hu.
  - apply (ring.free_pop _ _ _ _ _ (LDQ_tail q)); [done|lia|done|done].
  - intros j r Hj. unfold LDQ_index_of. simpl. rewrite lookup_insert_ne.
    + rewrite ring.slot_shift by done. change (LDQ_index_of q r = ring.slot (LDQ_size q) (LDQ_head q) (Z.of_nat j + 1)). rewrite (Hi (S j) r Hj). f_equal. lia.
    + intros ->. apply Hpn. by apply list_elem_of_lookup_2 in Hj.
  - intros r Hr0. unfold LDQ_index_of. simpl. destruct (decide (r = p)) as [->|Hne]; [by rewrite lookup_insert_eq|].
    rewrite lookup_insert_ne by done. apply Ho. by rewrite not_elem_of_cons.
Qed.

Lemma LDQ_squash_ok q p ls : ldq_ok q (ls ++ [p]) → wp (LDQ_squash q p) (λ q', ldq_ok q' ls ∧ LDQ_size q' = LDQ_size q).
Proof.
  intros Hok. pose proof (ldq_length _ _ Hok) as Hlen. pose proof (ldq_nodup _ _ Hok) as Hnd. destruct Hok as [Hr Hu Hf Hi Ho].
  rewrite length_app in Hlen. simpl in Hlen. apply list.NoDup_app in Hnd as (Hnd & Hpn & _). pose proof Hr as [Hs Hl Hn Hh Ht].
  assert (LDQ_index_of q p = ring.slot (LDQ_size q) (LDQ_head q) (LDQ_num q - 1)) as Hp.
  { rewrite (Hi (length ls) p); [f_equal; lia|]. by apply list_lookup_middle. }
  pose proof (ring.slot_in_range _ (LDQ_head q) Hs (LDQ_num q - 1)) as Hsl.
  destruct (ring.window_squash _ _ _ _ _ Hr ltac:(lia)) as (Hr' & e & G & Hw). rewrite Ht, ring.moddec_slot in Hr', G by done.
  rewrite Hw, !fmap_app in Hu. simpl in Hu. apply app_inj_tail in Hu as [Hu Hue].
  unfold LDQ_squash. rewrite Hp, G. rewrite (proj2 (Z.leb_le _ _)), (proj2 (Z.ltb_lt _ _)) by lia. cbn [andb guard_or rbind].
  rewrite bool_decide_true by done. cbn [guard_or rbind]. rewrite aset_ok by lia. cbn [rbind]. rewrite (proj2 (Z.leb_le _ _)) by lia. cbn [guard_or rbind wp].
  split; [|done]. split; simpl.
  - rewrite Ht, ring.moddec_slot by done. destruct Hr'. by split; rewrite ?length_insert.
  - by rewrite (ring.window_insert_out _ _ _ _ _ _ _ Hr') by lia.
  - intros j y Hj Gy. destruct (decide (j = LDQ_num q - 1)) as [->|Hne].
    + apply aget_inv in Gy as [_ Gy]. rewrite list_lookup_insert_eq in Gy by lia. by injection Gy as <-.
    + apply (Hf j y ltac:(lia)). erewrite <- aget_aset_ne; [exact Gy|by apply aset_ok; lia|]. intros E. apply Hne. symmetry.
      by apply (ring.slot_inj (LDQ_size q) (LDQ_head q)); try lia.
  - intros j r Hj. unfold LDQ_index_of. simpl. rewrite lookup_insert_ne.
    + apply Hi. by apply lookup_app_l_Some.
    + intros ->. apply list_elem_of_lookup_2 in Hj. apply (Hpn _ Hj). by left.
  - intros r Hr0. unfold LDQ_index_of. simpl. destruct (decide (r = p)) as [->|Hne]; [by rewrite lookup_insert_eq|].
    rewrite lookup_insert_ne by done. apply Ho. rewrite not_elem_of_app, list_elem_of_singleton. done.
Qed.

(** ** The store queue *)

(** *** Requests that the caches have not answered *)

(** Who is to answer. *)
Inductive unit_t : Set := DL1_unit | DTLB_unit | repeater_unit.

#[export] Instance unit_eq_dec : EqDecision unit_t.
Proof. solve_decision. Defined.

(** [q_split]: the second part of a split access. *)
Record sent : Type := mk_sent { q_unit : unit_t; q_split : bool; q_req : store_req }.

(** The parts of a store that an answer can complete. *)
Inductive part : Set := First | Second | Translation.

#[export] Instance part_eq_dec : EqDecision part.
Proof. solve_decision. Defined.
#[export] Instance part_countable : Countable part.
Proof. apply (inj_countable' (λ p, match p with First => 0%Z | Second => 1%Z | Translation => 2%Z end) (λ z, if decide (z = 0%Z) then First else if decide (z = 1%Z) then Second else Translation)). by intros []. Defined.

(** The answer of the data cache does not count when the repeater is asked, too. *)
Definition part_of (q : sent) : option part :=
  match q_unit q with
  | DL1_unit => if r_is_repeated (q_req q) then None else Some (if q_split q then Second else First)
  | DTLB_unit => Some Translation
  | repeater_unit => Some (if q_split q then Second else First)
  end.

Definition key_of (q : sent) : option (part * Z * Z) := (λ k, (k, r_STQ_index (q_req q), r_action_id (q_req q))) <$> part_of q.

(** The entry [e] waits for this part. *)
Definition awaits (e : STQ_t) (k : part) : Prop :=
  s_first_byte_requested e = true ∧
  match k with
  | First => first_byte_written e = false
  | Second => last_byte_written e = false ∧ s_last_byte_requested e = true
  | Translation => translation_complete e = false
  end.

(** *** The entries *)

(** A store that has left the main queue. *)
Record is_old (e : STQ_t) : Prop := {
  old_sta : sta e = None;
  old_std : std e = None;
  old_sent : (s_first_byte_requested e = true ∧ s_last_byte_requested e = true) ∨
    (s_first_byte_requested e = false ∧ write_complete e = true ∧ translation_complete e = true);
  old_written : s_first_byte_requested e = true → write_complete e = first_byte_written e && last_byte_written e
}.

(** The main queue: the address uop and the data uop of each store that are there. *)
Abbreviation owners := (option ptr * option ptr)%type.

(** Which data uops are synchronization operations (is_sync_op). *)
Class uop_info : Type := sync_uop : ptr → bool.

Section inv.
Context {UI : uop_info}.

(** A store in the main queue; [hd] if it is the oldest.  Only its data uop has the caches
    written to, and then part by part if the access is split. *)
Record is_main (hd : bool) (a d : option ptr) (e : STQ_t) : Prop := {
  main_sta : sta e = a;
  main_std : std e = d;
  main_write : write_complete e = false ∧ s_last_byte_requested e = false ∧ last_byte_written e = false;
  main_fresh : s_first_byte_requested e = false → translation_complete e = false ∧ first_byte_written e = false;
  main_head : s_first_byte_requested e = true → hd = true ∧ a = None ∧ ∀ p, d = Some p → sync_uop p = false;
  main_id : 1 ≤ s_action_id e
}.

Record is_free (e : STQ_t) : Prop := {
  free_sta : sta e = None;
  free_std : std e = None;
  free_done : write_complete e = false ∧ translation_complete e = false ∧ s_first_byte_requested e = false ∧ s_last_byte_requested e = false
}.

(** The [j]th entry from the head of the senior queue on, [old] of which are not of the main
    queue. *)
Definition cell_ok (old : Z) (ss : list owners) (j : Z) (e : STQ_t) : Prop :=
  if j <? old then is_old e
  else match ss !! Z.to_nat (j - old) with Some (a, d) => is_main (j =? old) a d e | None => is_free e end.

Definition old_num (s : stq) : Z := STQ_senior_num s - STQ_num s.
Definition senior_slot (s : stq) (j : Z) : Z := ring.slot (STQ_size s) (STQ_senior_head s) j.

Record sent_ok (s : stq) (g : Z) (q : sent) : Prop := {
  q_id : 1 ≤ r_action_id (q_req q) ≤ g;
  q_index : 0 ≤ r_STQ_index (q_req q) < STQ_size s;
  q_repeated : q_unit q = repeater_unit → r_is_repeated (q_req q) = true ∧ (q_split q = true → r_is_sync_op (q_req q) = false);
  q_awaited : ∀ e k, aget (STQ s) (r_STQ_index (q_req q)) = Ok e → s_action_id e = r_action_id (q_req q) → part_of q = Some k → awaits e k
}.

Record stq_ok (s : stq) (g : Z) (qs : list sent) (ss : list owners) : Prop := {
  so_ring : ring.ring_ok (STQ s) (STQ_size s) (STQ_senior_head s) (STQ_senior_num s) (STQ_tail s);
  so_head : 0 ≤ STQ_num s ≤ STQ_senior_num s ∧ STQ_head s = senior_slot s (old_num s);
  so_len : Z.of_nat (length ss) = STQ_num s;
  so_cells : ∀ j e, 0 ≤ j < STQ_size s → aget (STQ s) (senior_slot s j) = Ok e → cell_ok (old_num s) ss j e;
  so_index : ∀ k a d p, ss !! k = Some (a, d) → a = Some p ∨ d = Some p → STQ_index_of s p = senior_slot s (old_num s + Z.of_nat k);
  so_ids : ∀ i e, aget (STQ s) i = Ok e → 0 ≤ s_action_id e ≤ g;
  so_sent : Forall (sent_ok s g) qs;
  so_keys : NoDup (omap key_of qs);
  so_live : ∀ j e k, 0 ≤ j < STQ_size s → aget (STQ s) (senior_slot s j) = Ok e → awaits e k →
    (k, senior_slot s j, s_action_id e) ∈ omap key_of qs
}.

Lemma stq_create_ok size g : 1 ≤ size < 2 ^ 31 → 0 ≤ g → stq_ok (stq_create size) g [] [].
Proof.
  intros Hs Hg. assert (∀ i e, aget (replicate (Z.to_nat size) STQ_zero) i = Ok e → e = STQ_zero) as Hz.
  { intros i e G. apply aget_inv in G as [_ G]. by apply lookup_replicate in G as [-> _]. }
  split; simpl; try done.
  - by apply ring.ring_create.
  - intros j e Hj ->%Hz. unfold cell_ok, old_num. simpl. rewrite (proj2 (Z.ltb_ge _ _)) by lia. done.
  - intros i e ->%Hz. simpl. lia.
  - constructor.
  - intros j e k _ ->%Hz [? _]. done.
Qed.

Section stq.
Variables (s : stq) (g : Z) (qs : list sent) (ss : list owners).
Hypothesis Hok : stq_ok s g qs ss.

Lemma senior_slot_range j : 0 ≤ senior_slot s j < STQ_size s.
Proof. apply ring.slot_in_range, Hok. Qed.

Lemma senior_slot_inj i j : 0 ≤ i < STQ_size s → 0 ≤ j < STQ_size s → senior_slot s i = senior_slot s j → i = j.
Proof. apply ring.slot_inj; apply Hok. Qed.

Lemma cell_at j : 0 ≤ j < STQ_size s → ∃ e, aget (STQ s) (senior_slot s j) = Ok e ∧ cell_ok (old_num s) ss j e.
Proof.
  intros Hj. destruct (ring.slot_get _ _ _ _ _ j (so_ring _ _ _ _ Hok)) as (e & _ & G). exists e. split; [done|]. by apply (so_cells _ _ _ _ Hok).
Qed.

Lemma old_num_range : 0 ≤ old_num s ∧ old_num s + STQ_num s = STQ_senior_num s ∧ STQ_senior_num s ≤ STQ_size s.
Proof. destruct (so_head _ _ _ _ Hok) as [? _]. destruct (so_ring _ _ _ _ Hok). unfold old_num. lia. Qed.

Lemma main_at k a d : ss !! k = Some (a, d) →
  ∃ e, aget (STQ s) (senior_slot s (old_num s + Z.of_nat k)) = Ok e ∧ is_main (bool_decide (k = 0%nat)) a d e ∧ old_num s + Z.of_nat k < STQ_senior_num s.
Proof.
  intros E. pose proof (lookup_lt_Some _ _ _ E). pose proof (so_len _ _ _ _ Hok). destruct old_num_range as (H1 & H2 & H3).
  destruct (cell_at (old_num s + Z.of_nat k)) as (e & G & C); [lia|]. exists e. split; [done|]. split; [|lia]. unfold cell_ok in C.
  rewrite (proj2 (Z.ltb_ge _ _)) in C by lia. replace (Z.to_nat (old_num s + Z.of_nat k - old_num s)) with k in C by lia. rewrite E in C. cbn beta iota in C.
  destruct (Z.eqb_spec (old_num s + Z.of_nat k) (old_num s)) as [?|?]; destruct (bool_decide_reflect (k = 0%nat)); (done || lia).
Qed.

(** An entry is rewritten, and keeps its action id; the main queue may begin later. *)
Lemma stq_inplace s' j e e' ss' qs' : 0 ≤ j < STQ_size s → aget (STQ s) (senior_slot s j) = Ok e → s_action_id e' = s_action_id e →
  STQ s' = <[Z.to_nat (senior_slot s j) := e']> (STQ s) → STQ_size s' = STQ_size s → STQ_senior_head s' = STQ_senior_head s →
  STQ_senior_num s' = STQ_senior_num s → STQ_tail s' = STQ_tail s → STQ_head s' = senior_slot s (old_num s') →
  0 ≤ STQ_num s' ≤ STQ_senior_num s → Z.of_nat (length ss') = STQ_num s' →
  cell_ok (old_num s') ss' j e' → (∀ i x, i ≠ j → cell_ok (old_num s) ss i x → cell_ok (old_num s') ss' i x) →
  (∀ k a d p, ss' !! k = Some (a, d) → a = Some p ∨ d = Some p → STQ_index_of s' p = senior_slot s (old_num s' + Z.of_nat k)) →
  (∀ q, q ∈ qs' → q ∈ qs ∨ (r_STQ_index (q_req q) = senior_slot s j ∧ r_action_id (q_req q) = s_action_id e ∧ 1 ≤ s_action_id e ∧
     (q_unit q = repeater_unit → r_is_repeated (q_req q) = true ∧ (q_split q = true → r_is_sync_op (q_req q) = false)))) →
  (∀ q k, q ∈ qs' → r_STQ_index (q_req q) = senior_slot s j → r_action_id (q_req q) = s_action_id e → part_of q = Some k → awaits e' k) →
  NoDup (omap key_of qs') → (∀ i x k, i ≠ senior_slot s j → (k, i, x) ∈ omap key_of qs → (k, i, x) ∈ omap key_of qs') →
  (∀ k, awaits e' k → (k, senior_slot s j, s_action_id e) ∈ omap key_of qs') →
  stq_ok s' g qs' ss'.
Proof.
  intros Hj G Eid El Esz Esh Esn Etl Ehd Hn' Hlen' Hc Hcs Hm Hq Ha Hnd Hkeep Hlive. pose proof (senior_slot_range j) as Hsj.
  pose proof Hok as [Hr [Hn Hh] Hlen Hcells Hix Hids Hsent Hkeys Hl]. pose proof Hr as [Hs Hll Hnum Hsh Ht].
  assert (∀ i, senior_slot s' i = senior_slot s i) as Ess by (intros i; unfold senior_slot; by rewrite Esz, Esh).
  assert (∀ x, aget (STQ s') (senior_slot s j) = Ok x → x = e') as Hget.
  { rewrite El. intros x Gx. apply aget_inv in Gx as [_ Gx]. rewrite list_lookup_insert_eq in Gx by lia. by injection Gx. }
  assert (∀ i, i ≠ senior_slot s j → aget (STQ s') i = aget (STQ s) i) as Hne.
  { rewrite El. intros i Hi. eapply aget_aset_ne; [by apply aset_ok; lia|congruence]. }
  split.
  - rewrite El, Esz, Esh, Esn, Etl. by split; rewrite ?length_insert.
  - rewrite Ess, Esn. done.
  - done.
  - rewrite Esz. intros i x Hi Gx. rewrite Ess in Gx. destruct (decide (i = j)) as [->|Hij].
    + by apply Hget in Gx as ->.
    + apply Hcs; [done|]. apply Hcells; [done|]. rewrite Hne in Gx; [done|]. intros E. apply Hij. by apply senior_slot_inj.
  - intros k a d p Ek Hp. rewrite Ess. by eapply Hm.
  - intros i x Gx. destruct (decide (i = senior_slot s j)) as [->|Hi].
    + apply Hget in Gx as ->. rewrite Eid. by eapply Hids.
    + rewrite Hne in Gx by done. by eapply Hids.
  - apply list.Forall_forall. intros q Hqin. destruct (Hq q Hqin) as [Hold|(E1 & E2 & E3 & E4)].
    + eapply list.Forall_forall in Hsent as [S1 S2 S3 S4]; [|exact Hold]. split; [done|by rewrite Esz|done|]. intros x k Gx.
      destruct (decide (r_STQ_index (q_req q) = senior_slot s j)) as [E|Hi].
      * rewrite E in Gx. apply Hget in Gx as ->. rewrite Eid. intros Ex. by apply Ha.
      * rewrite Hne in Gx by done. by apply S4.
    + pose proof (Hids _ _ G). split; [lia|rewrite E1, Esz; done|done|]. intros x k Gx. rewrite E1 in Gx. apply Hget in Gx as ->. intros _. by apply Ha.
  - done.
  - rewrite Esz. intros i x k Hi Gx Hx. rewrite Ess in *. destruct (decide (i = j)) as [->|Hij].
    + apply Hget in Gx as ->. rewrite Eid. by apply Hlive.
    + assert (senior_slot s i ≠ senior_slot s j) as Hsij by (intros E; apply Hij; by apply senior_slot_inj). rewrite Hne in Gx by done.
      apply Hkeep; [done|]. by apply Hl.
Qed.

(** The requests stay as they are, and so does what the entry waits for. *)
Lemma stq_inplace_quiet s' j e e' ss' : 0 ≤ j < STQ_size s → aget (STQ s) (senior_slot s j) = Ok e → s_action_id e' = s_action_id e →
  (∀ k, awaits e' k ↔ awaits e k) →
  STQ s' = <[Z.to_nat (senior_slot s j) := e']> (STQ s) → STQ_size s' = STQ_size s → STQ_senior_head s' = STQ_senior_head s →
  STQ_senior_num s' = STQ_senior_num s → STQ_tail s' = STQ_tail s → STQ_head s' = senior_slot s (old_num s') →
  0 ≤ STQ_num s' ≤ STQ_senior_num s → Z.of_nat (length ss') = STQ_num s' →
  cell_ok (old_num s') ss' j e' → (∀ i x, i ≠ j → cell_ok (old_num s) ss i x → cell_ok (old_num s') ss' i x) →
  (∀ k a d p, ss' !! k = Some (a, d) → a = Some p ∨ d = Some p → STQ_index_of s' p = senior_slot s (old_num s' + Z.of_nat k)) →
  stq_ok s' g qs ss'.
Proof.
  intros Hj G Eid Haw El Esz Esh Esn Etl Ehd Hn' Hlen' Hc Hcs Hm. apply (stq_inplace s' j e e' ss' qs); try done.
  - by left.
  - intros q k Hq E1 E2 E3. apply Haw. pose proof (proj1 (list.Forall_forall _ _) (so_sent _ _ _ _ Hok) q Hq) as [_ _ _ S].
    apply S; [by rewrite E1|done|done].
  - apply Hok.
  - intros k Hk%Haw. by eapply (so_live _ _ _ _ Hok).
Qed.

End stq.

Lemma upd_STQ_ok s i e f : aget (STQ s) i = Ok e → upd_STQ s i f = Ok (with_STQ (<[Z.to_nat i := f e]> (STQ s)) s).
Proof. intros G. unfold upd_STQ, amodify. rewrite G. cbn [rbind]. apply aget_inv in G as [? _]. by rewrite aset_ok. Qed.

(** *** Answers *)

(** What an answer for a part does. *)
Definition answer (k : part) (e : STQ_t) : STQ_t :=
  match k with First => part_written false e | Second => part_written true e | Translation => set_complete true (write_complete e) e end.

Lemma part_answer split e : part_written split e = answer (if split then Second else First) e.
Proof. by destruct split. Qed.

Lemma answer_fields k e : sta (answer k e) = sta e ∧ std (answer k e) = std e ∧ s_action_id (answer k e) = s_action_id e ∧
  s_first_byte_requested (answer k e) = s_first_byte_requested e ∧ s_last_byte_requested (answer k e) = s_last_byte_requested e.
Proof. destruct k; unfold answer, part_written; simpl; try done; by repeat case_match. Qed.

Lemma answer_written e k : let e' := answer k e in
  first_byte_written e' = (first_byte_written e || bool_decide (k = First)) ∧ last_byte_written e' = (last_byte_written e || bool_decide (k = Second)) ∧
  translation_complete e' = (translation_complete e || bool_decide (k = Translation)).
Proof.
  destruct k; unfold answer, part_written; simpl; rewrite ?orb_false_r, ?orb_true_r; try done; repeat case_match; simpl;
    rewrite ?orb_false_r, ?orb_true_r; done.
Qed.

Lemma answer_awaits e k k' : awaits (answer k e) k' ↔ awaits e k' ∧ k ≠ k'.
Proof.
  destruct (answer_fields k e) as (_ & _ & _ & E1 & E2). destruct (answer_written e k) as (E3 & E4 & E5).
  unfold awaits. rewrite E1, E2. destruct k'; rewrite ?E3, ?E4, ?E5; rewrite ?orb_false_iff, ?bool_decide_eq_false; intuition (congruence || done).
Qed.

Lemma answer_cell old ss j e k : awaits e k → cell_ok old ss j e → cell_ok old ss j (answer k e).
Proof.
  intros Hk. destruct (answer_fields k e) as (E1 & E2 & E3 & E4 & E5). destruct (answer_written e k) as (E6 & E7 & E8). unfold cell_ok. destruct (j <? old).
  - intros [H1 H2 H3 H4]. destruct Hk as [Hf Hk]. split; [by rewrite E1|by rewrite E2| |].
    + left. rewrite E4, E5. destruct H3 as [?|[? _]]; [done|congruence].
    + intros _. specialize (H4 Hf). rewrite E6, E7. destruct k; simpl in *; unfold part_written; simpl.
      * rewrite Hk in *. simpl in *. destruct (last_byte_written e); simpl; done.
      * destruct Hk as [Hk _]. rewrite Hk in *. destruct (first_byte_written e); simpl; done.
      * by rewrite !orb_false_r.
  - destruct (ss !! Z.to_nat (j - old)) as [[a d]|].
    + intros [H1 H2 (H3 & H4 & H5) H6 H7 H8]. destruct Hk as [Hf Hk]. split; [by rewrite E1|by rewrite E2| | | |by rewrite E3].
      * rewrite E5, E7, H4, H5. destruct k; simpl in *; unfold part_written; simpl; rewrite ?H5, ?andb_false_r; simpl; try done. destruct Hk; congruence.
      * rewrite E4, Hf. done.
      * by rewrite E4.
    + intros [H1 H2 (_ & _ & H3 & _)]. destruct Hk. congruence.
Qed.

Lemma key_in k i x (qs : list sent) : (k, i, x) ∈ omap key_of qs ↔ ∃ q, q ∈ qs ∧ part_of q = Some k ∧ r_STQ_index (q_req q) = i ∧ r_action_id (q_req q) = x.
Proof.
  rewrite list_elem_of_omap. split.
  - intros (q & Hq & E). exists q. split; [done|]. unfold key_of in E. destruct (part_of q); simplify_eq/=. done.
  - intros (q & Hq & E & <- & <-). exists q. split; [done|]. unfold key_of. by rewrite E.
Qed.

(** An answer that finds another store in its entry, or does not count. *)
Lemma answer_ignored s g qs1 q qs2 ss : stq_ok s g (qs1 ++ q :: qs2) ss →
  (∀ e k, aget (STQ s) (r_STQ_index (q_req q)) = Ok e → part_of q = Some k → s_action_id e ≠ r_action_id (q_req q)) →
  stq_ok s g (qs1 ++ qs2) ss.
Proof.
  intros [Hr Hh Hlen Hcells Hix Hids Hsent Hkeys Hl] Hno. split; try done.
  - apply list.Forall_app in Hsent as [? Hsent]. apply list.Forall_cons in Hsent as [_ ?]. by apply list.Forall_app.
  - rewrite omap_app in *. simpl in Hkeys. destruct (key_of q); [|done]. apply list.NoDup_app in Hkeys as (H1 & H2 & H3).
    apply list.NoDup_cons in H3 as [_ H3]. apply list.NoDup_app. split; [done|]. split; [|done]. intros x Hx Hx2. apply (H2 x Hx). by right.
  - intros j e k Hj G Hk. specialize (Hl j e k Hj G Hk). rewrite key_in in *. destruct Hl as (q' & Hq' & E1 & E2 & E3). exists q'.
    split; [|done]. rewrite elem_of_app, elem_of_cons in *. destruct Hq' as [?|[->|?]]; [by left| |by right]. exfalso.
    apply (Hno e k); [by rewrite E2|done|done].
Qed.

Lemma answer_counts s g qs1 q qs2 ss e k : stq_ok s g (qs1 ++ q :: qs2) ss → aget (STQ s) (r_STQ_index (q_req q)) = Ok e →
  part_of q = Some k → s_action_id e = r_action_id (q_req q) →
  stq_ok (with_STQ (<[Z.to_nat (r_STQ_index (q_req q)) := answer k e]> (STQ s)) s) g (qs1 ++ qs2) ss.
Proof.
  intros Hok G Ek Eid. assert (q ∈ qs1 ++ q :: qs2) as Hq by (apply elem_of_app; right; left).
  pose proof (proj1 (list.Forall_forall _ _) (so_sent _ _ _ _ Hok) q Hq) as [_ Hi _ Ha]. pose proof (Ha e k G Eid Ek) as Haw.
  destruct (ring.slot_surj (STQ_size s) (STQ_senior_head s) (ring.r_size _ _ _ _ _ (so_ring _ _ _ _ Hok)) _ Hi) as (j & Hj & Ej).
  fold (senior_slot s j) in Ej. rewrite <- Ej in G |- *.
  pose proof (so_keys _ _ _ _ Hok) as Hkeys. rewrite omap_app in Hkeys. simpl in Hkeys.
  assert (key_of q = Some (k, senior_slot s j, s_action_id e)) as Ekey by (unfold key_of; rewrite Ek, <- Ej, Eid; done). rewrite Ekey in Hkeys.
  apply list.NoDup_app in Hkeys as (Hk1 & Hk12 & Hk2). apply list.NoDup_cons in Hk2 as [Hkn Hk2].
  assert ((k, senior_slot s j, s_action_id e) ∉ omap key_of (qs1 ++ qs2)) as Hnot.
  { rewrite omap_app, not_elem_of_app. split; [intros H1; apply (Hk12 _ H1); left|done]. }
  assert (∀ x, x ∈ omap key_of (qs1 ++ q :: qs2) → x ≠ (k, senior_slot s j, s_action_id e) → x ∈ omap key_of (qs1 ++ qs2)) as Hrest.
  { intros x. rewrite !omap_app. simpl. rewrite Ekey, !elem_of_app, elem_of_cons. tauto. }
  eapply (stq_inplace s g (qs1 ++ q :: qs2) ss Hok _ j e (answer k e)); try done.
  - by apply answer_fields.
  - apply Hok.
  - apply Hok.
  - apply Hok.
  - apply answer_cell; [done|]. by apply (so_cells _ _ _ _ Hok).
  - apply Hok.
  - intros q' Hq'. left. rewrite elem_of_app in *. rewrite elem_of_cons. tauto.
  - intros q' k' Hq' E1 E2 E3. apply answer_awaits.
    assert (q' ∈ qs1 ++ q :: qs2) as Hq2 by (rewrite elem_of_app in *; rewrite elem_of_cons; tauto).
    pose proof (proj1 (list.Forall_forall _ _) (so_sent _ _ _ _ Hok) q' Hq2) as [_ _ _ Ha']. split.
    + apply Ha'; [by rewrite E1|done|done].
    + intros <-. apply Hnot. apply key_in. by exists q'.
  - rewrite omap_app. apply list.NoDup_app. split; [done|]. split; [|done]. intros x Hx Hx2. apply (Hk12 x Hx). by right.
  - intros i x k' Hne Hin. apply Hrest; [done|]. congruence.
  - intros k' [Hk' Hne]%answer_awaits. apply Hrest; [by apply (so_live _ _ _ _ Hok)|]. congruence.
Qed.

(** *** The callbacks *)

Section callbacks.
Variables (s : stq) (g : Z) (qs1 qs2 : list sent) (ss : list owners).

Lemma store_dl1_callback_ok split r : stq_ok s g (qs1 ++ mk_sent DL1_unit split r :: qs2) ss →
  wp (store_dl1_callback split s r) (λ s', stq_ok s' g (qs1 ++ qs2) ss ∧ STQ_size s' = STQ_size s).
Proof.
  intros Hok. assert (mk_sent DL1_unit split r ∈ qs1 ++ mk_sent DL1_unit split r :: qs2) as Hq by (apply elem_of_app; right; left).
  pose proof (proj1 (list.Forall_forall _ _) (so_sent _ _ _ _ Hok) _ Hq) as [_ Hi _ _]. simpl in Hi. unfold store_dl1_callback, in_STQ.
  rewrite (proj2 (Z.leb_le _ _)), (proj2 (Z.ltb_lt _ _)) by lia. cbn [andb guard_or rbind]. destruct (r_is_repeated r) eqn:Er.
  - split; [|done]. apply (answer_ignored _ _ _ _ _ _ Hok). intros e k _ Hk. unfold part_of in Hk. simpl in Hk. by rewrite Er in Hk.
  - pose proof (so_ring _ _ _ _ Hok) as [_ Hl _ _ _]. destruct (aget_ok (STQ s) (r_STQ_index r)) as (e & _ & G); [lia|]. rewrite G. cbn [rbind].
    destruct (Z.eqb_spec (r_action_id r) (s_action_id e)) as [Ea|Ea].
    + rewrite (upd_STQ_ok _ _ _ _ G). cbn [wp]. split; [|done]. rewrite part_answer. apply (answer_counts _ _ _ _ _ _ e (if split then Second else First) Hok G); [|done].
      unfold part_of. simpl. by rewrite Er.
    + split; [|done]. apply (answer_ignored _ _ _ _ _ _ Hok). intros e' k G' _. simpl in *. rewrite G in G'. congruence.
Qed.

Lemma store_dtlb_callback_ok split r : stq_ok s g (qs1 ++ mk_sent DTLB_unit split r :: qs2) ss →
  wp (store_dtlb_callback s r) (λ s', stq_ok s' g (qs1 ++ qs2) ss ∧ STQ_size s' = STQ_size s).
Proof.
  intros Hok. assert (mk_sent DTLB_unit split r ∈ qs1 ++ mk_sent DTLB_unit split r :: qs2) as Hq by (apply elem_of_app; right; left).
  pose proof (proj1 (list.Forall_forall _ _) (so_sent _ _ _ _ Hok) _ Hq) as [_ Hi _ _]. simpl in Hi. unfold store_dtlb_callback, in_STQ.
  rewrite (proj2 (Z.leb_le _ _)), (proj2 (Z.ltb_lt _ _)) by lia. cbn [andb guard_or rbind].
  pose proof (so_ring _ _ _ _ Hok) as [_ Hl _ _ _]. destruct (aget_ok (STQ s) (r_STQ_index r)) as (e & _ & G); [lia|]. rewrite G. cbn [rbind].
  destruct (Z.eqb_spec (r_action_id r) (s_action_id e)) as [Ea|Ea].
  - rewrite (upd_STQ_ok _ _ _ _ G). cbn [wp]. split; [|done]. by apply (answer_counts _ _ _ _ _ _ e Translation Hok G).
  - split; [|done]. apply (answer_ignored _ _ _ _ _ _ Hok). intros e' k G' _. simpl in *. rewrite G in G'. congruence.
Qed.

Lemma repeater_store_callback_ok split r : stq_ok s g (qs1 ++ mk_sent repeater_unit split r :: qs2) ss →
  wp (repeater_store_callback split s r true) (λ s', stq_ok s' g (qs1 ++ qs2) ss ∧ STQ_size s' = STQ_size s).
Proof.
  intros Hok. assert (mk_sent repeater_unit split r ∈ qs1 ++ mk_sent repeater_unit split r :: qs2) as Hq by (apply elem_of_app; right; left).
  pose proof (proj1 (list.Forall_forall _ _) (so_sent _ _ _ _ Hok) _ Hq) as [_ Hi Hrep _]. simpl in Hi, Hrep. destruct (Hrep eq_refl) as [Er Es].
  unfold repeater_store_callback, in_STQ.
  rewrite Er, (proj2 (Z.leb_le _ _)), (proj2 (Z.ltb_lt _ _)) by lia. cbn [andb guard_or rbind].
  pose proof (so_ring _ _ _ _ Hok) as [_ Hl _ _ _]. destruct (aget_ok (STQ s) (r_STQ_index r)) as (e & _ & G); [lia|]. rewrite G. cbn [rbind].
  destruct (Z.eqb_spec (r_action_id r) (s_action_id e)) as [Ea|Ea].
  - assert (negb split || negb (r_is_sync_op r) = true) as -> by (destruct split; [by rewrite Es|done]). cbn [guard_or rbind].
    rewrite (upd_STQ_ok _ _ _ _ G). cbn [wp]. split; [|done]. rewrite part_answer. by apply (answer_counts _ _ _ _ _ _ e (if split then Second else First) Hok G).
  - split; [|done]. apply (answer_ignored _ _ _ _ _ _ Hok). intros e' k G' _. simpl in *. rewrite G in G'. congruence.
Qed.

End callbacks.

(** *** Entries of the main queue *)

(** What does not touch the caches leaves these fields. *)
Definition same_progress (e e' : STQ_t) : Prop :=
  s_action_id e' = s_action_id e ∧ s_first_byte_requested e' = s_first_byte_requested e ∧ s_last_byte_requested e' = s_last_byte_requested e ∧
  first_byte_written e' = first_byte_written e ∧ last_byte_written e' = last_byte_written e ∧
  translation_complete e' = translation_complete e ∧ write_complete e' = write_complete e.

Lemma same_awaits e e' : same_progress e e' → ∀ k, awaits e' k ↔ awaits e k.
Proof. intros (_ & E1 & E2 & E3 & E4 & E5 & _) k. unfold awaits. by rewrite E1, E2, E3, E4, E5. Qed.

(** No new owner once the caches are asked. *)
Definition owners_left (e e' : STQ_t) : Prop := s_first_byte_requested e = true → sta e' = None ∧ (std e' = None ∨ std e' = std e).

Lemma same_main hd a d e e' : same_progress e e' → is_main hd a d e → owners_left e e' → is_main hd (sta e') (std e') e'.
Proof.
  intros (E0 & E1 & E2 & E3 & E4 & E5 & E6) [_ M2 H3 H4 H5 H6] Hs. split; [done|done|by rewrite E6, E2, E4|by rewrite E1, E5, E3| |by rewrite E0].
  rewrite E1. intros E. destruct (H5 E) as (? & ? & Hd). destruct (Hs E) as [? [->| ->]]; [done|]. rewrite M2. done.
Qed.

Lemma cell_ok_insert old ss k v i x : i ≠ old + Z.of_nat k → cell_ok old ss i x → cell_ok old (<[k := v]> ss) i x.
Proof.
  intros Hi. unfold cell_ok. destruct (Z.ltb_spec i old); [done|]. rewrite list_lookup_insert_ne; [done|]. intros ->. apply Hi. lia.
Qed.

(** The uops of the store queue. *)
Definition ptrs (ss : list owners) : list ptr := ss ≫= λ o, option_list o.1 ++ option_list o.2.

Lemma ptrs_app ss ss' : ptrs (ss ++ ss') = ptrs ss ++ ptrs ss'.
Proof. apply bind_app. Qed.

Lemma ptrs_lookup ss k a d p : ss !! k = Some (a, d) → a = Some p ∨ d = Some p → p ∈ ptrs ss.
Proof.
  intros E Hp. apply list_elem_of_bind. exists (a, d). apply list_elem_of_lookup_2 in E. simpl. rewrite elem_of_app. split; [|done].
  destruct Hp as [->| ->]; [left|right]; left.
Qed.

Lemma main_update s s' g qs ss k a d e e' : stq_ok s g qs ss → ss !! k = Some (a, d) →
  aget (STQ s) (senior_slot s (old_num s + Z.of_nat k)) = Ok e → same_progress e e' → owners_left e e' →
  s' = with_STQ_index (STQ_index s') (with_STQ (<[Z.to_nat (senior_slot s (old_num s + Z.of_nat k)) := e']> (STQ s)) s) →
  (∀ j b c p, <[k := (sta e', std e')]> ss !! j = Some (b, c) → b = Some p ∨ c = Some p → STQ_index_of s' p = senior_slot s (old_num s + Z.of_nat j)) →
  stq_ok s' g qs (<[k := (sta e', std e')]> ss).
Proof.
  intros Hok Ek G Hsame Hs Es Hix. destruct (main_at _ _ _ _ Hok _ _ _ Ek) as (e0 & G0 & Hm & Hlt). rewrite G in G0. injection G0 as <-.
  destruct (old_num_range _ _ _ _ Hok) as (H1 & H2 & H3). set (s1 := STQ_index s') in *. clearbody s1. subst s'.
  pose proof (lookup_lt_Some _ _ _ Ek) as Hk.
  apply (stq_inplace_quiet s g qs ss Hok _ (old_num s + Z.of_nat k) e e'); simpl; try done.
  - lia.
  - apply Hsame.
  - by apply same_awaits.
  - apply Hok.
  - apply Hok.
  - rewrite length_insert. apply Hok.
  - change (old_num (with_STQ_index s1 (with_STQ (<[Z.to_nat (senior_slot s (old_num s + Z.of_nat k)) := e']> (STQ s)) s))) with (old_num s).
    unfold cell_ok. rewrite (proj2 (Z.ltb_ge _ _)) by lia.
    replace (Z.to_nat (old_num s + Z.of_nat k - old_num s)) with k by lia. rewrite list_lookup_insert_eq by done.
    eapply same_main; [done| |done]. assert ((old_num s + Z.of_nat k =? old_num s) = bool_decide (k = 0%nat)) as ->; [|done].
    destruct (Z.eqb_spec (old_num s + Z.of_nat k) (old_num s)), (bool_decide_reflect (k = 0%nat)); (done || lia).
  - intros i x Hi. by apply cell_ok_insert.
Qed.

(** An entry gets a new action id, or goes back to what calloc left: answers for it that are
    still to come are ignored. *)
Lemma stq_renew s s' g g' qs ss ss' i0 e' : stq_ok s g qs ss → 0 ≤ i0 < STQ_size s → STQ s' = <[Z.to_nat i0 := e']> (STQ s) →
  STQ_size s' = STQ_size s → g ≤ g' → (s_action_id e' = 0 ∨ g < s_action_id e' ≤ g') → s_first_byte_requested e' = false →
  ring.ring_ok (STQ s') (STQ_size s') (STQ_senior_head s') (STQ_senior_num s') (STQ_tail s') →
  0 ≤ STQ_num s' ≤ STQ_senior_num s' ∧ STQ_head s' = senior_slot s' (old_num s') → Z.of_nat (length ss') = STQ_num s' →
  (∀ j x, 0 ≤ j < STQ_size s → (if decide (senior_slot s' j = i0) then x = e' else aget (STQ s) (senior_slot s' j) = Ok x) → cell_ok (old_num s') ss' j x) →
  (∀ k a d p, ss' !! k = Some (a, d) → a = Some p ∨ d = Some p → STQ_index_of s' p = senior_slot s' (old_num s' + Z.of_nat k)) →
  stq_ok s' g' qs ss'.
Proof.
  intros Hok Hi0 El Esz Hg Hid Hf Hr' Hh' Hlen' Hc' Hx'. pose proof Hok as [Hr [Hn Hh] Hlen Hcells Hix Hids Hsent Hkeys Hl]. pose proof Hr as [Hs Hll Hnum Hsh Ht].
  destruct (aget_ok (STQ s) i0) as (e0 & _ & G0); [lia|]. pose proof (Hids _ _ G0) as Hg0.
  assert (∀ x, aget (STQ s') i0 = Ok x → x = e') as Hget.
  { rewrite El. intros x Gx. apply aget_inv in Gx as [_ Gx]. rewrite list_lookup_insert_eq in Gx by lia. by injection Gx. }
  assert (∀ i, i ≠ i0 → aget (STQ s') i = aget (STQ s) i) as Hne.
  { rewrite El. intros i Hi. eapply aget_aset_ne; [by apply aset_ok; lia|congruence]. }
  split; try done.
  - rewrite Esz. intros j x Hj Gx. apply Hc'; [done|]. case_decide as E; [rewrite E in Gx; by apply Hget|]. by rewrite Hne in Gx.
  - intros i x Gx. destruct (decide (i = i0)) as [->|Hi]; [apply Hget in Gx as ->; lia|]. rewrite Hne in Gx by done. pose proof (Hids _ _ Gx). lia.
  - eapply list.Forall_impl; [exact Hsent|]. intros q [S1 S2 S3 S4]. split; [lia|by rewrite Esz|done|]. intros x k Gx Ex.
    destruct (decide (r_STQ_index (q_req q) = i0)) as [E|Hi]; [rewrite E in Gx; apply Hget in Gx as ->; exfalso; lia|]. rewrite Hne in Gx by done. by apply S4.
  - rewrite Esz. intros j x k Hj Gx Hk. destruct (decide (senior_slot s' j = i0)) as [E|Hi].
    + rewrite E in Gx. apply Hget in Gx as ->. destruct Hk. congruence.
    + rewrite Hne in Gx by done. assert (0 ≤ senior_slot s' j < STQ_size s) as Hsj by (rewrite <- Esz; apply ring.slot_in_range, Hr').
      destruct (ring.slot_surj (STQ_size s) (STQ_senior_head s) Hs _ Hsj) as (j0 & Hj0 & Ej0). fold (senior_slot s j0) in Ej0. rewrite <- Ej0 in *. by apply Hl.
Qed.

End inv.

End lsq_inv.
