(* ===== verification/LSQOps.v ===== *)
(** * LSQOps: the operations on the store queue

    Allocation, execution, commit, retirement and recovery keep the invariant of LSQInv and
    do to the list of the stores what they should; none of their assertions fails. *)

From S2P Require Import Prelude Misc CacheHeap CacheSet Memory OracleDeps Uops LSQ LSQInv.

Module lsq_ops.
Import uops lsq_inv.

Lemma next_id g : 0 ≤ g < 2 ^ 64 - 1 → next_action_id g = g + 1.
Proof. intros. unfold next_action_id. apply u64_small. lia. Qed.

Section info.
Context {UI : uop_info}.

(** ** Allocation *)

Section ops.
Variables (s : stq) (g : Z) (qs : list sent) (ss : list owners).
Hypothesis Hok : stq_ok s g qs ss.

Lemma tail_slot : STQ_tail s = senior_slot s (STQ_senior_num s).
Proof. apply Hok. Qed.

Lemma id_range : 0 ≤ g.
Proof. destruct (cell_at _ _ _ _ Hok 0) as (e & G & _); [destruct (so_ring _ _ _ _ Hok); lia|]. pose proof (so_ids _ _ _ _ Hok _ _ G). lia. Qed.

Lemma in_STQ_slot j : in_STQ s (senior_slot s j) = true.
Proof. unfold in_STQ. pose proof (senior_slot_range _ _ _ _ Hok j). rewrite (proj2 (Z.leb_le _ _)), (proj2 (Z.ltb_lt _ _)) by lia. done. Qed.

(** The slots of the main queue. *)
Lemma head_slot j : ring.slot (STQ_size s) (STQ_head s) j = senior_slot s (old_num s + j).
Proof.
  destruct (so_head _ _ _ _ Hok) as [_ ->]. unfold senior_slot, ring.slot. rewrite Zplus_mod_idemp_l. f_equal. lia.
Qed.

End ops.

Lemma STQ_insert_sta_ok x g qs ss p d : stq_ok (stores x) g qs ss → global_action_id x = g → g < 2 ^ 64 - 1 → STQ_available (stores x) = true →
  p ∉ ptrs ss →
  wp (STQ_insert_sta x p d) (λ x', stq_ok (stores x') (g + 1) qs (ss ++ [(Some p, None)]) ∧ loads x' = loads x ∧
    global_action_id x' = g + 1 ∧ STQ_size (stores x') = STQ_size (stores x)).
Proof.
  intros Hok Eg Hg Hav Hp. set (s := stores x) in *. pose proof (id_range _ _ _ _ Hok) as Hg0. pose proof (tail_slot _ _ _ _ Hok) as Ht.
  pose proof (senior_slot_range _ _ _ _ Hok (STQ_senior_num s)) as Hts. destruct (old_num_range _ _ _ _ Hok) as (H1 & H2 & H3).
  unfold STQ_available in Hav. apply Z.ltb_lt in Hav. pose proof (so_ring _ _ _ _ Hok) as Hr. pose proof Hr as [Hs Hll Hnum Hsh _].
  pose proof (so_len _ _ _ _ Hok) as Hlen. pose proof (so_head _ _ _ _ Hok) as [Hn Hh].
  unfold STQ_insert_sta. rewrite Eg, next_id by lia. fold s. rewrite aset_ok by lia. cbn [rbind wp]. set (e' := mk_STQ _ _ _ _ _ _ _ _ _ _ _ _ _ _ _ _). simpl.
  split; [|done]. set (s' := mk_stq _ _ _ _ _ _ _ _ _).
  assert (old_num s' = old_num s) as Eold by (unfold old_num, s'; simpl; lia).
  apply (stq_renew s s' g (g + 1) qs ss _ (STQ_tail s) e' Hok); simpl; try done.
  - by rewrite Ht.
  - lia.
  - lia.
  - by apply (ring.window_push _ _ _ _ _ e' Hr Hav).
  - rewrite Eold. split; [lia|]. exact Hh.
  - rewrite length_app. simpl. lia.
  - rewrite Eold. intros j y Hj Hy. change (senior_slot s' j) with (senior_slot s j) in Hy. rewrite Ht in Hy. case_decide as E.
    + apply (senior_slot_inj _ _ _ _ Hok) in E; [|lia..]. subst j y. unfold cell_ok. rewrite (proj2 (Z.ltb_ge _ _)) by lia.
      replace (Z.to_nat (STQ_senior_num s - old_num s)) with (length ss) by lia. rewrite list_lookup_middle by done. split; simpl; (done || lia).
    + apply (so_cells _ _ _ _ Hok) in Hy; [|done]. assert (j ≠ STQ_senior_num s) as Hne by (intros ->; done). unfold cell_ok in *.
      destruct (Z.ltb_spec j (old_num s)) as [|Hjo]; [done|]. destruct (decide (Z.to_nat (j - old_num s) < length ss)%nat).
      * by rewrite lookup_app_l.
      * rewrite (proj2 (lookup_ge_None ss _)) in Hy by lia.
        rewrite (proj2 (lookup_ge_None (ss ++ [(Some p, None)]) _)) by (rewrite length_app; simpl; lia). done.
  - rewrite Eold. intros k a c q Ek Hq. unfold STQ_index_of, s'. simpl. apply lookup_app_Some in Ek as [Ek|[Hk Ek]].
    + rewrite lookup_insert_ne; [by apply (so_index _ _ _ _ Hok k a c)|]. intros <-. apply Hp. by eapply ptrs_lookup.
    + apply list_lookup_singleton_Some in Ek as [Ek [= <- <-]]. destruct Hq as [[= <-]|]; [|done]. rewrite lookup_insert_eq. simpl. rewrite Ht.
      unfold senior_slot. simpl. f_equal. lia.
Qed.

Lemma STQ_insert_std_ok s g qs ss a p : stq_ok s g qs (ss ++ [(Some a, None)]) → a.1 = p.1 → p ∉ ptrs (ss ++ [(Some a, None)]) →
  wp (STQ_insert_std s p) (λ s', stq_ok s' g qs (ss ++ [(Some a, Some p)]) ∧ STQ_size s' = STQ_size s).
Proof.
  intros Hok Ea Hp. destruct (main_at _ _ _ _ Hok (length ss) (Some a) None) as (e & G & Hm & Hlt); [by apply list_lookup_middle|].
  pose proof (so_len _ _ _ _ Hok) as Hlen. rewrite length_app in Hlen. simpl in Hlen. destruct (old_num_range _ _ _ _ Hok) as (H1 & H2 & H3).
  pose proof (so_ring _ _ _ _ Hok) as Hr. pose proof Hr as [Hs Hll Hnum Hsh Ht].
  assert (moddec (STQ_tail s) (STQ_size s) = senior_slot s (old_num s + Z.of_nat (length ss))) as Ei.
  { rewrite Ht, ring.moddec_slot by done. unfold senior_slot. f_equal. lia. }
  unfold STQ_insert_std. rewrite Ei. erewrite upd_STQ_ok by exact G. cbn [rbind]. simpl STQ.
  erewrite aget_aset_eq; [|apply aset_ok; pose proof (senior_slot_range _ _ _ _ Hok (old_num s + Z.of_nat (length ss))); lia]. cbn [rbind].
  destruct Hm as [M1 M2 M3 M4 M5 M6]. simpl sta. rewrite M1. cbn [of_option rbind]. rewrite Ea, Z.eqb_refl. cbn [guard_or rbind wp]. split; [|done].
  assert (ss ++ [(Some a, Some p)] = <[length ss := (Some a, Some p)]> (ss ++ [(Some a, None)])) as Ess.
  { rewrite <- (Nat.add_0_r (length ss)) at 1. by rewrite insert_app_r. }
  rewrite Ess. replace (Some a, Some p) with (sta (set_std (Some p) e), std (set_std (Some p) e)) by (simpl; by rewrite M1).
  eapply (main_update s _ g qs _ (length ss) (Some a) None e); try done; [by apply list_lookup_middle| |].
  - intros E. by destruct (M5 E) as (_ & ? & _).
  - simpl. rewrite M1. intros j b c q Ej Hq. unfold STQ_index_of. simpl. destruct (decide (j = length ss)) as [->|Hne].
    + rewrite list_lookup_insert_eq in Ej by (rewrite length_app; simpl; lia). injection Ej as <- <-. destruct Hq as [[= <-]|[= <-]].
      * rewrite lookup_insert_ne.
        -- apply (so_index _ _ _ _ Hok (length ss) (Some a) None); [by apply list_lookup_middle|by left].
        -- intros ->. apply Hp. rewrite ptrs_app. apply elem_of_app. right. left.
      * by rewrite lookup_insert_eq.
    + rewrite list_lookup_insert_ne in Ej by done. rewrite lookup_insert_ne; [by apply (so_index _ _ _ _ Hok j b c)|]. intros ->. apply Hp. by eapply ptrs_lookup.
Qed.

(** ** Execution *)

Section update.
Variables (s : stq) (g : Z) (qs : list sent) (ss : list owners).
Hypothesis Hok : stq_ok s g qs ss.

(** A uop of the main queue finds its entry; an update that leaves the owners and what the
    caches are asked is fine. *)
Lemma update_own p k a d f : ss !! k = Some (a, d) → a = Some p ∨ d = Some p →
  (∀ e, same_progress e (f e) ∧ sta (f e) = sta e ∧ std (f e) = std e) →
  ∃ e, aget (STQ s) (STQ_index_of s p) = Ok e ∧ in_STQ s (STQ_index_of s p) = true ∧ is_main (bool_decide (k = 0%nat)) a d e ∧
    wp (upd_STQ s (STQ_index_of s p) f) (λ s', stq_ok s' g qs ss ∧ STQ_size s' = STQ_size s ∧ STQ_index s' = STQ_index s ∧ aget (STQ s') (STQ_index_of s p) = Ok (f e)).
Proof.
  intros Ek Hp Hf. destruct (main_at _ _ _ _ Hok k a d Ek) as (e & G & Hm & Hlt). rewrite (so_index _ _ _ _ Hok k a d p Ek Hp). exists e.
  split; [done|]. split; [by eapply in_STQ_slot|]. split; [done|]. rewrite (upd_STQ_ok _ _ _ _ G). cbn [wp]. split.
  - destruct (Hf e) as (H1 & H2 & H3). destruct Hm as [M1 M2 M3 M4 M5 M6].
    assert (<[k := (sta (f e), std (f e))]> ss = ss) as Ess by (rewrite H2, H3, M1, M2; by apply list_insert_id).
    rewrite <- Ess. eapply (main_update s _ g qs ss k a d e); try done.
    + intros E. rewrite H2, H3, M1. split; [by apply M5|by right].
    + intros j b c q. rewrite Ess. intros Ej Hq. by apply (so_index _ _ _ _ Hok j b c).
  - split; [done|]. split; [done|]. simpl. eapply aget_aset_eq, aset_ok. pose proof (senior_slot_range _ _ _ _ Hok (old_num s + Z.of_nat k)).
    destruct (so_ring _ _ _ _ Hok). lia.
Qed.

Lemma STQ_set_addr_ok p addr k d : ss !! k = Some (Some p, d) → (∃ e, aget (STQ s) (STQ_index_of s p) = Ok e ∧ s_addr_valid e = false) →
  wp (STQ_set_addr s p addr) (λ s', stq_ok s' g qs ss ∧ STQ_size s' = STQ_size s ∧
    ∃ e, aget (STQ s') (STQ_index_of s' p) = Ok e ∧ s_addr_valid e = true ∧ s_virt_addr e = addr).
Proof.
  intros Ek (e0 & G0 & Ev). destruct (update_own p k (Some p) d (set_addr addr) Ek) as (e & G & Hin & _ & Hw); [by left|done|].
  unfold STQ_set_addr. rewrite Hin, G0. cbn [guard_or rbind]. rewrite Ev. cbn [negb guard_or rbind]. eapply wp_mono; [exact Hw|]. intros s' (H1 & H2 & H3 & H4).
  split; [done|]. split; [done|]. unfold STQ_index_of at 1. rewrite H3. fold (STQ_index_of s p). eauto.
Qed.

Lemma STQ_set_data_ok p k a : ss !! k = Some (a, Some p) → (∃ e, aget (STQ s) (STQ_index_of s p) = Ok e ∧ value_valid e = false) →
  wp (STQ_set_data s p) (λ s', stq_ok s' g qs ss ∧ STQ_size s' = STQ_size s ∧
    ∃ e, aget (STQ s') (STQ_index_of s' p) = Ok e ∧ value_valid e = true).
Proof.
  intros Ek (e0 & G0 & Ev). destruct (update_own p k a (Some p) set_value Ek) as (e & G & Hin & _ & Hw); [by right|done|].
  unfold STQ_set_data. rewrite Hin, G0. cbn [guard_or rbind]. rewrite Ev. cbn [negb guard_or rbind]. eapply wp_mono; [exact Hw|]. intros s' (H1 & H2 & H3 & H4).
  split; [done|]. split; [done|]. unfold STQ_index_of at 1. rewrite H3. fold (STQ_index_of s p). eauto.
Qed.

End update.

(** ** Commit and recovery: one owner less *)

Lemma STQ_deallocate_sta_ok s g qs a d ss : stq_ok s g qs ((a, d) :: ss) → wp (STQ_deallocate_sta s) (λ s', stq_ok s' g qs ((None, d) :: ss) ∧ STQ_size s' = STQ_size s).
Proof.
  intros Hok. destruct (main_at _ _ _ _ Hok 0%nat a d eq_refl) as (e & G & Hm & _). destruct (so_head _ _ _ _ Hok) as [_ Hh]. rewrite Z.add_0_r in G.
  unfold STQ_deallocate_sta. rewrite Hh, (upd_STQ_ok _ _ _ _ G). cbn [wp]. split; [|done]. destruct Hm as [M1 M2 M3 M4 M5 M6].
  change ((None, d) :: ss) with (<[0%nat := (@None ptr, d)]> ((a, d) :: ss)). replace (None, d) with (sta (set_sta None e), std (set_sta None e)) by (simpl; by rewrite M2).
  eapply (main_update s _ g qs _ 0 a d e); try done; rewrite ?Z.add_0_r; try done; [by split; [|right]|]. simpl. rewrite M2.
  intros [|j] b c q Ej Hq; simpl in Ej.
  - injection Ej as <- <-. destruct Hq as [|Hq]; [done|]. apply (so_index _ _ _ _ Hok 0%nat a d); [done|by right].
  - by apply (so_index _ _ _ _ Hok (S j) b c).
Qed.

(** The data uop of the youngest store is squashed. *)
Lemma STQ_squash_std_ok s g qs a p ss : stq_ok s g qs (ss ++ [(a, Some p)]) → a ≠ Some p → p ∉ ptrs ss →
  wp (STQ_squash_std s p) (λ s', stq_ok s' g qs (ss ++ [(a, None)]) ∧ STQ_size s' = STQ_size s).
Proof.
  intros Hok Ha Hp. assert ((ss ++ [(a, Some p)]) !! length ss = Some (a, Some p)) as El by by apply list_lookup_middle.
  destruct (main_at _ _ _ _ Hok _ _ _ El) as (e & G & Hm & _).
  unfold STQ_squash_std. rewrite (so_index _ _ _ _ Hok _ a (Some p) p El) by (by right).
  rewrite (in_STQ_slot _ _ _ _ Hok), G. cbn [guard_or rbind]. destruct Hm as [M1 M2 M3 M4 M5 M6]. rewrite bool_decide_true by done. cbn [guard_or rbind].
  erewrite upd_STQ_ok by exact G. cbn [wp]. split; [|done].
  assert (ss ++ [(a, None)] = <[length ss := (a, None)]> (ss ++ [(a, Some p)])) as ->.
  { rewrite <- (Nat.add_0_r (length ss)) at 1. by rewrite insert_app_r. }
  replace (a, None) with (sta (set_std None e), std (set_std None e)) by (simpl; by rewrite M1).
  eapply (main_update s _ g qs _ (length ss) a (Some p) e); try done.
  - intros E. simpl. split; [rewrite M1; by apply M5|by left].
  - simpl. rewrite M1. intros j b c q Ej Hq. unfold STQ_index_of. simpl. destruct (decide (j = length ss)) as [->|Hne].
    + rewrite list_lookup_insert_eq in Ej by (rewrite length_app; simpl; lia). injection Ej as <- <-. destruct Hq as [->|]; [|done].
      rewrite lookup_insert_ne by congruence. apply (so_index _ _ _ _ Hok (length ss) (Some q) (Some p)); [done|by left].
    + rewrite list_lookup_insert_ne in Ej by done. rewrite lookup_insert_ne; [by apply (so_index _ _ _ _ Hok j b c)|]. intros <-. apply Hp.
      apply lookup_app_Some in Ej as [Ej|[Hj Ej]]; [by eapply ptrs_lookup|]. apply list_lookup_singleton_Some in Ej as [Ej _]. exfalso. apply Hne. lia.
Qed.

(** The address uop of the youngest store, and with it the store. *)
Lemma STQ_squash_sta_ok s g qs p ss : stq_ok s g qs (ss ++ [(Some p, None)]) → p ∉ ptrs ss →
  wp (STQ_squash_sta s p) (λ s', stq_ok s' g qs ss ∧ STQ_size s' = STQ_size s).
Proof.
  intros Hok Hp. assert ((ss ++ [(Some p, None)]) !! length ss = Some (Some p, None)) as El by by apply list_lookup_middle.
  destruct (main_at _ _ _ _ Hok _ _ _ El) as (e & G & Hm & _). pose proof (so_len _ _ _ _ Hok) as Hlen. rewrite length_app in Hlen. simpl in Hlen.
  destruct (old_num_range _ _ _ _ Hok) as (H1 & H2 & H3). pose proof (so_ring _ _ _ _ Hok) as Hr. pose proof Hr as [Hs Hll Hnum Hsh Ht].
  pose proof (id_range _ _ _ _ Hok) as Hg0. pose proof (senior_slot_range _ _ _ _ Hok (old_num s + Z.of_nat (length ss))) as Hsl.
  unfold STQ_squash_sta. rewrite (so_index _ _ _ _ Hok _ (Some p) None p El) by (by left).
  rewrite (in_STQ_slot _ _ _ _ Hok), G. cbn [guard_or rbind]. destruct Hm as [M1 M2 M3 M4 M5 M6]. rewrite !bool_decide_true by done. cbn [guard_or rbind].
  rewrite aset_ok by lia. cbn [rbind]. rewrite !(proj2 (Z.leb_le _ _)) by lia. cbn [guard_or rbind wp]. split; [|done]. set (s' := mk_stq _ _ _ _ _ _ _ _ _).
  assert (old_num s' = old_num s) as Eold by (unfold old_num, s'; simpl; lia).
  eapply (stq_renew s s' g g qs _ ss _ STQ_zero Hok); simpl; try done; try lia.
  - destruct (ring.window_squash _ _ _ _ _ Hr ltac:(lia)) as [[] _]. by split; rewrite ?length_insert.
  - rewrite Eold. split; [lia|]. apply Hok.
  - rewrite Eold. intros j y Hj Hy. change (senior_slot s' j) with (senior_slot s j) in Hy. case_decide as E.
    + apply (senior_slot_inj _ _ _ _ Hok) in E; [|lia..]. subst j y. unfold cell_ok. rewrite (proj2 (Z.ltb_ge _ _)) by lia.
      rewrite (proj2 (lookup_ge_None ss _)) by lia. done.
    + apply (so_cells _ _ _ _ Hok) in Hy; [|done]. assert (j ≠ old_num s + Z.of_nat (length ss)) as Hne by (intros ->; done). unfold cell_ok in *.
      destruct (Z.ltb_spec j (old_num s)) as [|Hjo]; [done|]. destruct (decide (Z.to_nat (j - old_num s) < length ss)%nat).
      * by rewrite lookup_app_l in Hy.
      * rewrite (proj2 (lookup_ge_None ss _)) by lia. rewrite (proj2 (lookup_ge_None (ss ++ [(Some p, None)]) _)) in Hy by (rewrite length_app; simpl; lia). done.
  - rewrite Eold. intros k a c q Ek Hq. unfold STQ_index_of, s'. simpl. rewrite lookup_insert_ne.
    + apply (so_index _ _ _ _ Hok k a c); [by apply lookup_app_l_Some|done].
    + intros <-. apply Hp. by eapply ptrs_lookup.
Qed.

(** ** The oldest store leaves the main queue *)

Lemma is_main_hd b a d e : is_main false a d e → is_main b a d e.
Proof. intros [H1 H2 H3 H4 H5 H6]. split; try done. intros E. by destruct (H5 E). Qed.

Lemma cell_ok_pop old o ss i x : i ≠ old → cell_ok old (o :: ss) i x → cell_ok (old + 1) ss i x.
Proof.
  intros Hi. unfold cell_ok. destruct (Z.ltb_spec i old); [by rewrite (proj2 (Z.ltb_lt _ _)) by lia|].
  rewrite (proj2 (Z.ltb_ge _ _)) by lia. replace (Z.to_nat (i - old)) with (S (Z.to_nat (i - (old + 1)))) by lia. simpl.
  destruct (ss !! _) as [[a d]|]; [|done]. rewrite (proj2 (Z.eqb_neq i old)) by lia. apply is_main_hd.
Qed.

Lemma pop_main_num s : old_num (pop_main s) = old_num s + 1.
Proof. unfold old_num, pop_main. simpl. lia. Qed.

(** The store at the head is done with, for the main queue. *)
Lemma pop_main_ok s g qs qs' o ss e e' : stq_ok s g qs (o :: ss) → aget (STQ s) (STQ_head s) = Ok e → s_action_id e' = s_action_id e → is_old e' →
  (∀ q, q ∈ qs' → q ∈ qs ∨ (r_STQ_index (q_req q) = STQ_head s ∧ r_action_id (q_req q) = s_action_id e ∧ 1 ≤ s_action_id e ∧
     (q_unit q = repeater_unit → r_is_repeated (q_req q) = true ∧ (q_split q = true → r_is_sync_op (q_req q) = false)))) →
  (∀ q k, q ∈ qs' → r_STQ_index (q_req q) = STQ_head s → r_action_id (q_req q) = s_action_id e → part_of q = Some k → awaits e' k) →
  NoDup (omap key_of qs') → (∀ i x k, i ≠ STQ_head s → (k, i, x) ∈ omap key_of qs → (k, i, x) ∈ omap key_of qs') →
  (∀ k, awaits e' k → (k, STQ_head s, s_action_id e) ∈ omap key_of qs') →
  stq_ok (pop_main (with_STQ (<[Z.to_nat (STQ_head s) := e']> (STQ s)) s)) g qs' ss.
Proof.
  intros Hok G Eid Ho Hq Ha Hnd Hkeep Hlive. pose proof (so_len _ _ _ _ Hok) as Hlen. simpl in Hlen. destruct (old_num_range _ _ _ _ Hok) as (H1 & H2 & H3).
  pose proof (so_ring _ _ _ _ Hok) as [Hs _ _ Hsh _]. destruct (so_head _ _ _ _ Hok) as [Hn Hh].
  assert (modinc (STQ_head s) (STQ_size s) = senior_slot s (old_num s + 1)) as Emod by (rewrite Hh; unfold senior_slot; by rewrite ring.modinc_slot).
  pose proof (pop_main_num (with_STQ (<[Z.to_nat (STQ_head s) := e']> (STQ s)) s)) as Eold. change (old_num (with_STQ _ s)) with (old_num s) in Eold.
  rewrite Hh in G, Hq, Ha, Hkeep, Hlive.
  apply (stq_inplace s g qs _ Hok _ (old_num s) e e'); simpl; try done; try lia; rewrite ?Eold.
  - by rewrite Hh.
  - by rewrite Emod.
  - unfold cell_ok. by rewrite (proj2 (Z.ltb_lt _ _)) by lia.
  - intros i x. apply cell_ok_pop.
  - intros k a d p Ek Hp. unfold STQ_index_of. simpl. change (STQ_index_of s p = senior_slot s (old_num s + 1 + Z.of_nat k)).
    rewrite (so_index _ _ _ _ Hok (S k) a d p Ek Hp). f_equal. lia.
Qed.

Lemma STQ_deallocate_fence_ok x g qs ss p d h ls sim_cycle : stq_ok (stores x) g qs ((Some p, None) :: ss) → ldq_ok (loads x) ls →
  (∀ q, head ls = Some q → ∃ u, uop_at h q = Ok u) →
  wp (STQ_deallocate_fence x h p d sim_cycle) (λ r, let '(x', done) := r in
    if done : bool then stq_ok (stores x') g qs ss ∧ loads x' = loads x ∧ global_action_id x' = global_action_id x ∧ STQ_size (stores x') = STQ_size (stores x)
    else x' = x).
Proof.
  intros Hok Hld Hh. set (s := stores x) in *. destruct (main_at _ _ _ _ Hok 0%nat (Some p) None eq_refl) as (e & G & Hm & Hlt). rewrite Z.add_0_r in *.
  unfold STQ_deallocate_fence. fold s. rewrite (so_index _ _ _ _ Hok 0%nat (Some p) None p eq_refl) by (by left). rewrite Z.add_0_r.
  destruct (Z.eqb_spec (senior_slot s (old_num s)) (STQ_senior_head s)) as [E|]; [|done]. cbn [negb].
  assert (wp (mfence_waits x h d sim_cycle) (λ _, True)) as Hw.
  { unfold mfence_waits. destruct (is_mfence d && (0 <? LDQ_num (loads x))) eqn:Eb; [|done]. apply andb_true_iff in Eb as [_ Eb%Z.ltb_lt].
    destruct (ring.window_pop _ _ _ _ _ (ld_ring _ _ Hld) ltac:(lia)) as (_ & l & Gl & Hwin). rewrite Gl. cbn [rbind].
    pose proof (ld_uops _ _ Hld) as Hu. rewrite Hwin in Hu. destruct ls as [|q ls]; [done|]. injection Hu as El _. rewrite El. cbn [of_option rbind].
    destruct (Hh q eq_refl) as (u & ->). done. }
  eapply wp_bind, wp_mono; [exact Hw|]. intros [] _; [done|]. rewrite <- E. rewrite (upd_STQ_ok _ _ _ _ G). cbn [rbind wp]. simpl.
  split; [|done]. destruct Hm as [M1 M2 (M3 & M4 & M5) M6 M7 M8]. destruct (so_head _ _ _ _ Hok) as [_ Ehd]. rewrite <- Ehd in G |- *.
  assert (s_first_byte_requested e = false) as Ef by (destruct (s_first_byte_requested e); [by destruct (M7 eq_refl) as (_ & ? & _)|done]).
  eapply (pop_main_ok s g qs qs _ ss e); try done; simpl.
  - split; simpl; try done; [right; done|]. rewrite Ef. done.
  - by left.
  - intros q k Hq E1 E2 Ek. exfalso. pose proof (proj1 (list.Forall_forall _ _) (so_sent _ _ _ _ Hok) q Hq) as [_ _ _ Ha].
    destruct (Ha e k) as [? _]; [by rewrite E1|done|done|]. congruence.
  - apply Hok.
  - intros k [Hk _]. simpl in Hk. congruence.
Qed.

(** ** The senior queue *)

Lemma cell_ok_shift old ss j x : cell_ok (old + 1) ss (j + 1) x → 0 ≤ j → cell_ok old ss j x.
Proof.
  unfold cell_ok. intros H Hj. destruct (Z.ltb_spec j old); [by rewrite (proj2 (Z.ltb_lt _ _)) in H by lia|].
  rewrite (proj2 (Z.ltb_ge _ _)) in H by lia. replace (j + 1 - (old + 1)) with (j - old) in H by lia.
  destruct (ss !! Z.to_nat (j - old)) as [[a d]|]; [|done]. destruct (Z.eqb_spec (j + 1) (old + 1)), (Z.eqb_spec j old); (done || lia).
Qed.

(** The slot of the oldest store of the senior queue is free again. *)
Lemma pop_senior_ok s g g' qs ss e' th : stq_ok s g qs ss → 1 ≤ old_num s → g ≤ g' → g < s_action_id e' ≤ g' → is_free e' →
  stq_ok (pop_senior th (with_STQ (<[Z.to_nat (STQ_senior_head s) := e']> (STQ s)) s)) g' qs ss.
Proof.
  intros Hok Hold Hg Hid Hfr. destruct (old_num_range _ _ _ _ Hok) as (H1 & H2 & H3). pose proof (so_ring _ _ _ _ Hok) as Hr. pose proof Hr as [Hs Hll Hnum Hsh Ht].
  destruct (so_head _ _ _ _ Hok) as [Hn Hh]. set (s' := pop_senior th _).
  assert (old_num s' = old_num s - 1) as Eold by (unfold old_num, s'; simpl; lia).
  assert (∀ j, senior_slot s' j = senior_slot s (j + 1)) as Ess by (intros j; unfold senior_slot, s'; simpl; by rewrite ring.slot_shift).
  assert (STQ_senior_head s = senior_slot s 0) as E0 by (unfold senior_slot; by rewrite ring.slot_0).
  apply (stq_renew s s' g g' qs ss ss (STQ_senior_head s) e' Hok); try done; try lia; try (destruct Hfr as [_ _ (? & ? & ? & ?)]; done).
  - simpl. destruct (ring.window_pop _ _ _ _ _ Hr ltac:(lia)) as ([] & _). by split; rewrite ?length_insert.
  - simpl. split; [lia|]. rewrite Ess, Eold, Hh. f_equal. lia.
  - apply Hok.
  - intros j x Hj. rewrite Ess, Eold. intros Hx. case_decide as E.
    + subst x. destruct (decide (j + 1 = STQ_size s)) as [Ej|].
      * unfold cell_ok. rewrite (proj2 (Z.ltb_ge _ _)) by lia. rewrite (proj2 (lookup_ge_None ss _)); [done|]. pose proof (so_len _ _ _ _ Hok). lia.
      * rewrite E0 in E. apply (senior_slot_inj _ _ _ _ Hok) in E; lia.
    + assert (j + 1 ≠ STQ_size s) as Hne.
      { intros Ej. apply E. rewrite Ej, E0. unfold senior_slot. by rewrite ring.slot_full, ring.slot_0. }
      apply cell_ok_shift; [|lia]. replace (old_num s - 1 + 1) with (old_num s) by lia. apply (so_cells _ _ _ _ Hok); [lia|done].
  - intros k a d p Ek Hp. rewrite Ess, Eold. change (STQ_index_of s' p) with (STQ_index_of s p). rewrite (so_index _ _ _ _ Hok k a d p Ek Hp). f_equal. lia.
Qed.

(** A store leaves when the caches have answered for all its parts. *)
Lemma STQ_deallocate_senior_ok x qs ss : stq_ok (stores x) (global_action_id x) qs ss → global_action_id x < 2 ^ 64 - 1 →
  wp (STQ_deallocate_senior x) (λ x', stq_ok (stores x') (global_action_id x') qs ss ∧ loads x' = loads x ∧ STQ_size (stores x') = STQ_size (stores x) ∧
    (x' = x ∨ (global_action_id x' = global_action_id x + 1 ∧ old_num (stores x') = old_num (stores x) - 1 ∧
      ∀ q e, q ∈ qs → aget (STQ (stores x)) (STQ_senior_head (stores x)) = Ok e → r_STQ_index (q_req q) = STQ_senior_head (stores x) →
        r_action_id (q_req q) = s_action_id e → part_of q = None))).
Proof.
  intros Hok Hg. set (s := stores x) in *. pose proof (id_range _ _ _ _ Hok) as Hg0. pose proof (so_ring _ _ _ _ Hok) as [Hs _ _ Hsh _].
  destruct (old_num_range _ _ _ _ Hok) as (H1 & H2 & H3). destruct (so_head _ _ _ _ Hok) as [Hn _].
  destruct (cell_at _ _ _ _ Hok 0) as (e & G & C); [lia|]. assert (senior_slot s 0 = STQ_senior_head s) as E0 by (unfold senior_slot; by rewrite ring.slot_0).
  rewrite E0 in G. unfold STQ_deallocate_senior. fold s. rewrite G. cbn [rbind]. destruct (write_complete e && translation_complete e) eqn:Ec.
  2: { cbn [wp]. split_and!; [done..|by left]. }
  apply andb_true_iff in Ec as [Ew Et]. unfold cell_ok in C. destruct (Z.ltb_spec 0 (old_num s)) as [Hold|].
  2: { exfalso. destruct (ss !! _) as [[a d]|]; [destruct C as [_ _ (C & _) _ _ _]|destruct C as [_ _ (C & _)]]; congruence. }
  rewrite (upd_STQ_ok _ _ _ _ G). cbn [rbind]. rewrite next_id by lia. simpl STQ_senior_num. rewrite (proj2 (Z.leb_le _ _)) by lia. cbn [guard_or rbind wp]. simpl.
  destruct C as [C1 C2 C3 C4]. split; [|split; [done|]; split; [done|]; right; split; [done|]; split].
  - apply (pop_senior_ok s (global_action_id x)); [done|lia|lia|simpl; lia|]. by split.
  - unfold old_num. simpl. lia.
  - intros q e' Hq Ge Ei Ea. injection Ge as <-. destruct (part_of q) as [k|] eqn:Ek; [|done]. exfalso.
    pose proof (proj1 (list.Forall_forall _ _) (so_sent _ _ _ _ Hok) q Hq) as [_ _ _ Ha]. destruct (Ha e k) as [Hf Hk]; [by rewrite Ei|done|done|].
    specialize (C4 Hf). rewrite Ew in C4. symmetry in C4. apply andb_true_iff in C4 as [Cf Cl]. destruct k; [congruence|destruct Hk; congruence|congruence].
Qed.

(** ** The flush of the core *)

(** The oldest store goes while it is still in the main queue. *)
Lemma pop_both_ok s g g' qs o ss e' th : stq_ok s g qs (o :: ss) → old_num s = 0 → g ≤ g' → g < s_action_id e' ≤ g' → is_free e' →
  stq_ok (pop_senior th (pop_main (with_STQ (<[Z.to_nat (STQ_senior_head s) := e']> (STQ s)) s))) g' qs ss.
Proof.
  intros Hok Hold Hg Hid Hfr. destruct (old_num_range _ _ _ _ Hok) as (H1 & H2 & H3). pose proof (so_ring _ _ _ _ Hok) as Hr. pose proof Hr as [Hs Hll Hnum Hsh Ht].
  destruct (so_head _ _ _ _ Hok) as [Hn Hh]. pose proof (so_len _ _ _ _ Hok) as Hlen. simpl in Hlen. set (s' := pop_senior th _).
  assert (old_num s' = 0) as Eold by (unfold old_num, s'; simpl; lia).
  assert (∀ j, senior_slot s' j = senior_slot s (j + 1)) as Ess by (intros j; unfold senior_slot, s'; simpl; by rewrite ring.slot_shift).
  assert (STQ_senior_head s = senior_slot s 0) as E0 by (unfold senior_slot; by rewrite ring.slot_0).
  apply (stq_renew s s' g g' qs (o :: ss) ss (STQ_senior_head s) e' Hok); try done; try lia; try (destruct Hfr as [_ _ (? & ? & ? & ?)]; done).
  - simpl. destruct (ring.window_pop _ _ _ _ _ Hr ltac:(lia)) as ([] & _). by split; rewrite ?length_insert.
  - simpl. split; [lia|]. rewrite Ess, Eold, Hh, Hold. unfold senior_slot. by rewrite ring.modinc_slot.
  - simpl. lia.
  - intros j x Hj. rewrite Ess, Eold. intros Hx. case_decide as E.
    + subst x. destruct (decide (j + 1 = STQ_size s)) as [Ej|].
      * unfold cell_ok. rewrite (proj2 (Z.ltb_ge _ _)) by lia. rewrite (proj2 (lookup_ge_None ss _)); [done|]. simpl in Hj. lia.
      * rewrite E0 in E. apply (senior_slot_inj _ _ _ _ Hok) in E; lia.
    + assert (j + 1 ≠ STQ_size s) as Hne.
      { intros Ej. apply E. rewrite Ej, E0. unfold senior_slot. by rewrite ring.slot_full, ring.slot_0. }
      apply cell_ok_shift; [|lia]. apply (cell_ok_pop 0 o); [lia|]. rewrite <- Hold. apply (so_cells _ _ _ _ Hok); [lia|done].
  - intros k a d p Ek Hp. rewrite Ess, Eold. change (STQ_index_of s' p) with (STQ_index_of s p). rewrite (so_index _ _ _ _ Hok (S k) a d p Ek Hp). f_equal. lia.
Qed.

Definition main_left (s : stq) (ss : list owners) : list owners := if old_num s =? 0 then tail ss else ss.

Lemma squash_one_ok x qs ss : stq_ok (stores x) (global_action_id x) qs ss → global_action_id x < 2 ^ 64 - 1 → 0 < STQ_senior_num (stores x) →
  wp (squash_one x) (λ x', stq_ok (stores x') (global_action_id x') qs (main_left (stores x) ss) ∧ loads x' = loads x ∧
    global_action_id x' = global_action_id x + 1 ∧ STQ_senior_num (stores x') = STQ_senior_num (stores x) - 1 ∧ STQ_size (stores x') = STQ_size (stores x)).
Proof.
  intros Hok Hg Hpos. set (s := stores x) in *. pose proof (id_range _ _ _ _ Hok) as Hg0. pose proof (so_ring _ _ _ _ Hok) as [Hs _ _ Hsh _].
  destruct (old_num_range _ _ _ _ Hok) as (H1 & H2 & H3). destruct (so_head _ _ _ _ Hok) as [Hn Hh]. pose proof (so_len _ _ _ _ Hok) as Hlen.
  destruct (cell_at _ _ _ _ Hok 0) as (e & G & C); [lia|]. assert (senior_slot s 0 = STQ_senior_head s) as E0 by (unfold senior_slot; by rewrite ring.slot_0).
  rewrite E0 in G. unfold squash_one. fold s. rewrite (upd_STQ_ok _ _ _ _ G), next_id by lia. cbn [rbind]. simpl STQ_senior_head. simpl STQ_head. simpl STQ_num.
  unfold main_left. destruct (Z.eqb_spec (old_num s) 0) as [Hz|Hz].
  - destruct ss as [|o ss]; simpl in Hlen; [lia|]. rewrite Hh, Hz, E0, Z.eqb_refl, (proj2 (Z.ltb_lt _ _)) by lia. cbn [andb wp]. split; [|done].
    apply (pop_both_ok s (global_action_id x) _ qs o ss); [done|done|simpl; lia|simpl; lia|done].
  - assert ((STQ_senior_head s =? STQ_head s) && (0 <? STQ_num s) = false) as ->.
    { apply andb_false_iff. destruct (Z.ltb_spec 0 (STQ_num s)); [left|by right]. apply Z.eqb_neq. rewrite Hh, <- E0.
      intros E%(senior_slot_inj _ _ _ _ Hok); lia. }
    cbn [wp]. split; [|done]. apply (pop_senior_ok s (global_action_id x)); [done|lia|simpl; lia|simpl; lia|done].
Qed.

Lemma squash_loop_ok n : ∀ x qs ss, stq_ok (stores x) (global_action_id x) qs ss → STQ_senior_num (stores x) ≤ Z.of_nat n →
  global_action_id x + STQ_senior_num (stores x) < 2 ^ 64 →
  wp (squash_loop n x) (λ x', stq_ok (stores x') (global_action_id x') qs [] ∧ loads x' = loads x ∧ STQ_senior_num (stores x') = 0 ∧
    global_action_id x' = global_action_id x + STQ_senior_num (stores x) ∧ STQ_size (stores x') = STQ_size (stores x)).
Proof.
  induction n as [|n IH]; intros x qs ss Hok Hn Hg; destruct (old_num_range _ _ _ _ Hok) as (H1 & H2 & H3); pose proof (so_len _ _ _ _ Hok) as Hlen;
    destruct (so_head _ _ _ _ Hok) as [Hnum _]; simpl; destruct (Z.ltb_spec 0 (STQ_senior_num (stores x))) as [Hpos|Hpos]; try lia.
  1, 3: assert (ss = []) as -> by (destruct ss; [done|simpl in Hlen; lia]); cbn [wp]; split_and!; [done|done|lia|lia|done].
  eapply wp_bind, wp_mono; [apply (squash_one_ok _ _ _ Hok); lia|]. intros x1 (Hok1 & E1 & E2 & E3 & E4).
  eapply wp_mono; [apply (IH _ _ _ Hok1); lia|]. intros x2 (Hok2 & F1 & F2 & F3 & F4). split_and!; [done|congruence|done|lia|congruence].
Qed.

Lemma STQ_squash_senior_ok x qs ss : stq_ok (stores x) (global_action_id x) qs ss → global_action_id x + STQ_size (stores x) < 2 ^ 64 →
  wp (STQ_squash_senior x) (λ x', stq_ok (stores x') (global_action_id x') qs [] ∧ loads x' = loads x ∧ STQ_empty (stores x') = true ∧
    global_action_id x ≤ global_action_id x' ≤ global_action_id x + STQ_size (stores x) ∧ STQ_size (stores x') = STQ_size (stores x)).
Proof.
  intros Hok Hg. destruct (old_num_range _ _ _ _ Hok) as (H1 & H2 & H3). destruct (so_head _ _ _ _ Hok) as [Hnum _]. pose proof (so_ring _ _ _ _ Hok) as [Hs _ _ _ _].
  eapply wp_mono; [apply (squash_loop_ok _ _ _ _ Hok); lia|]. intros x' (Hok' & E1 & E2 & E3 & E4). split_and!; [done|done| |lia|lia|done].
  unfold STQ_empty. by rewrite E2.
Qed.

End info.

End lsq_ops.
