(* ===== verification/LSQCommit.v ===== *)
(** * LSQCommit: a committed store goes to the caches

    The store at the head of the main queue asks the data cache, the data TLB and the memory
    repeater for its parts.  What they promise is the class [StoreMemLaws]. *)

From S2P Require Import Prelude Misc CacheHeap CacheSet Memory OracleDeps Uops LSQ LSQInv LSQOps.

Module lsq_commit.
Import uops lsq_inv lsq_ops.

(** What the caches promise.  [unanswered] are the requests they have accepted and not
    answered; a unit with room accepts a request, and that takes no room from the others.
    [repeater_waits] says that the repeater calls back only after its enqueue has returned;
    without it nothing is promised about the repeater, and no store may be sent there (the
    stub repeater-none calls back at once, see [repeater_must_not_answer_at_once]). *)
Class StoreMemLaws (M : Type) `{StoreMem M} : Type := {
  unanswered : M → list sent;
  mem_ok : M → Prop;
  law_DL1_room : ∀ m a, mem_ok m → wp (DL1_enqueuable m a) (λ _, True);
  law_DTLB_room : ∀ m a, mem_ok m → wp (DTLB_enqueuable m a) (λ _, True);
  law_repeater_room : ∀ m c a, mem_ok m → wp (repeater_enqueuable m c a) (λ _, True);
  law_DL1 : ∀ m b r, mem_ok m → DL1_enqueuable m (r_addr r) = Ok true →
    wp (DL1_enqueue m b r) (λ m', mem_ok m' ∧ unanswered m' ≡ₚ mk_sent DL1_unit b r :: unanswered m ∧ DL1_addr_shift m' = DL1_addr_shift m ∧
      DTLB_enqueuable m' = DTLB_enqueuable m ∧ repeater_enqueuable m' = repeater_enqueuable m);
  law_DTLB : ∀ m r, mem_ok m → DTLB_enqueuable m (r_addr r) = Ok true →
    wp (DTLB_enqueue m r) (λ m', mem_ok m' ∧ unanswered m' ≡ₚ mk_sent DTLB_unit false r :: unanswered m ∧ DL1_addr_shift m' = DL1_addr_shift m ∧
      DL1_enqueuable m' = DL1_enqueuable m ∧ repeater_enqueuable m' = repeater_enqueuable m);
  repeater_waits : Prop;
  law_repeater : ∀ m b r, repeater_waits → mem_ok m → repeater_enqueuable m (r_cmd r) (r_addr r) = Ok true →
    wp (repeater_enqueue m b r) (λ x, mem_ok x.1 ∧ x.2 = false ∧ unanswered x.1 ≡ₚ mk_sent repeater_unit b r :: unanswered m ∧
      DL1_addr_shift x.1 = DL1_addr_shift m ∧ DL1_enqueuable x.1 = DL1_enqueuable m ∧ DTLB_enqueuable x.1 = DTLB_enqueuable m)
}.

Section commit.
Context {M : Type} `{SM : StoreMem M} {SL : StoreMemLaws M}.
Variables (DL1_rep_req : bool) (asid : Z) (u : store_uop).
Hypothesis later : is_repeated (u_orc u) = true → repeater_waits.

Local Abbreviation o := (u_orc u).
Local Abbreviation d := (u_dec u).

(** ** What is asked for *)

Definition first_requests (s : stq) (id : Z) : list sent :=
  (if is_repeated o then [mk_sent repeater_unit false (request s u id (get_STQ_request_type o) (virt_addr o))] else []) ++
  (if is_sync_op o then [] else [mk_sent DTLB_unit false (mk_req CACHE_READ (u_PC u) (page_table_address asid (virt_addr o))
     (STQ_index_of s (u_ptr u)) id (Mop_seq d) (uop_seq d) false false)]) ++
  (if send_to_dl1 DL1_rep_req u then [mk_sent DL1_unit false (request s u id CACHE_WRITE (virt_addr o))] else []).

Definition second_requests (s : stq) (id : Z) : list sent :=
  let r := request s u id CACHE_WRITE (u64 (virt_addr o + mem_size d)) in
  (if is_repeated o then [mk_sent repeater_unit true r] else []) ++ (if send_to_dl1 DL1_rep_req u then [mk_sent DL1_unit true r] else []).

Definition single_line (m : M) : bool := is_sync_op o || cache_single_line_access (DL1_addr_shift m) (virt_addr o) (mem_size d).

(** The entry after the first part. *)
Definition first_entry (single : bool) (e : STQ_t) : STQ_t :=
  set_requested true (single || s_last_byte_requested e)
    (set_written (first_byte_written e) (single || last_byte_written e) (set_complete (is_sync_op o) false e)).

Section steps.
Variable s : stq.
Local Abbreviation i := (STQ_head s).
Hypothesis Hi : 0 ≤ i < Z.of_nat (length (STQ s)).

Definition at_head (e : STQ_t) : stq := with_STQ (<[Z.to_nat i := e]> (STQ s)) s.

Lemma upd_again e f : upd_STQ (at_head e) i f = Ok (at_head (f e)).
Proof.
  unfold upd_STQ, amodify, at_head. simpl STQ. erewrite aget_aset_eq by by apply aset_ok. cbn [rbind].
  rewrite aset_ok by by rewrite length_insert. cbn [rbind]. by rewrite list_insert_insert_eq.
Qed.

Lemma get_again e : aget (STQ (at_head e)) i = Ok e.
Proof. unfold at_head. simpl. by eapply aget_aset_eq, aset_ok. Qed.

Lemma room_inv m : mem_ok m → room_for_first m DL1_rep_req asid u = Ok true →
  (is_sync_op o = false → DTLB_enqueuable m (page_table_address asid (virt_addr o)) = Ok true) ∧
  (send_to_dl1 DL1_rep_req u = true → DL1_enqueuable m (virt_addr o) = Ok true) ∧
  (is_repeated o = true → repeater_enqueuable m (get_STQ_request_type o) (virt_addr o) = Ok true).
Proof.
  intros Hm. unfold room_for_first. intros E. split.
  - intros Hs. unfold get_STQ_request_type in E. rewrite Hs in E. cbn [negb] in E. rewrite decide_True in E by done.
    destruct (DTLB_enqueuable m _) as [[]|]; done.
  - destruct (if decide (get_STQ_request_type o = CACHE_WRITE) then _ else _) as [[]|]; [|done|done]. cbn [rbind negb] in E. split.
    + intros Hd. rewrite Hd in E. destruct (DL1_enqueuable m _) as [[]|]; done.
    + intros Hr. rewrite Hr in E. destruct (if send_to_dl1 DL1_rep_req u then _ else _) as [[]|]; [|done|done]. done.
Qed.

Lemma room_ok m : mem_ok m → wp (room_for_first m DL1_rep_req asid u) (λ _, True).
Proof.
  intros Hm. unfold room_for_first. eapply wp_bind, (wp_mono _ (λ _, True)).
  { case_decide; [by apply law_DTLB_room|done]. }
  intros [] _; [|done]. cbn [negb]. eapply wp_bind, (wp_mono _ (λ _, True)).
  { destruct (send_to_dl1 _ _); [by apply law_DL1_room|done]. }
  intros [] _; [|done]. cbn [negb]. destruct (is_repeated o); [by apply law_repeater_room|done].
Qed.

Lemma send_first_ok m e : mem_ok m → room_for_first m DL1_rep_req asid u = Ok true → aget (STQ s) i = Ok e →
  wp (send_first s m DL1_rep_req asid u) (λ x, x.1 = at_head (first_entry (single_line m) e) ∧ mem_ok x.2 ∧
    unanswered x.2 ≡ₚ first_requests s (s_action_id e) ++ unanswered m).
Proof.
  intros Hm (R1 & R2 & R3)%room_inv G; [|done]. unfold send_first. rewrite (upd_STQ_ok _ _ _ _ G). fold (at_head (set_complete (translation_complete e) false e)).
  cbn [rbind]. rewrite get_again. cbn [rbind]. simpl s_action_id.
  eapply wp_bind, (wp_mono _ (λ m1, mem_ok m1 ∧ unanswered m1 ≡ₚ (if send_to_dl1 DL1_rep_req u then
    [mk_sent DL1_unit false (request s u (s_action_id e) CACHE_WRITE (virt_addr o))] else []) ++ unanswered m ∧ DL1_addr_shift m1 = DL1_addr_shift m ∧
    DTLB_enqueuable m1 = DTLB_enqueuable m ∧ repeater_enqueuable m1 = repeater_enqueuable m)).
  { destruct (send_to_dl1 DL1_rep_req u); [by apply law_DL1; [|apply R2]|done]. }
  intros m1 (Hm1 & U1 & S1 & D1 & P1).
  eapply wp_bind, (wp_mono _ (λ x, x.1 = at_head (set_complete (is_sync_op o) false e) ∧ mem_ok x.2 ∧ unanswered x.2 ≡ₚ (if is_sync_op o then [] else
    [mk_sent DTLB_unit false (mk_req CACHE_READ (u_PC u) (page_table_address asid (virt_addr o)) (STQ_index_of s (u_ptr u)) (s_action_id e) (Mop_seq d) (uop_seq d) false false)]) ++
    unanswered m1 ∧ DL1_addr_shift x.2 = DL1_addr_shift m1 ∧ repeater_enqueuable x.2 = repeater_enqueuable m1)).
  { destruct (is_sync_op o); cbn [negb]; rewrite upd_again; cbn [rbind]; [done|].
    eapply wp_bind, wp_mono; [apply law_DTLB; [done|by rewrite D1; apply R1]|]. intros m2 (H1 & H2 & H3 & _ & H5). done. }
  intros [s2 m2] (E & Hm2 & U2 & S2 & P2). simpl in E, Hm2, U2, S2, P2. subst s2.
  eapply wp_bind, (wp_mono _ (λ x, x.1 = at_head (set_complete (is_sync_op o) false e) ∧ mem_ok x.2 ∧ unanswered x.2 ≡ₚ (if is_repeated o then
    [mk_sent repeater_unit false (request s u (s_action_id e) (get_STQ_request_type o) (virt_addr o))] else []) ++ unanswered m2 ∧ DL1_addr_shift x.2 = DL1_addr_shift m2)).
  { destruct (is_repeated o) eqn:Erep; [|done]. eapply wp_bind, wp_mono; [apply law_repeater; [by apply later|done|by rewrite P2, P1; apply R3]|].
    intros [m3 now] (H1 & H2 & H3 & H4 & _). simpl in *. subst now. simpl. done. }
  intros [s3 m3] (E & Hm3 & U3 & S3). simpl in E, Hm3, U3, S3. subst s3. rewrite S3, S2, S1. fold (single_line m).
  assert (unanswered m3 ≡ₚ first_requests s (s_action_id e) ++ unanswered m) as U.
  { rewrite U3, U2, U1. unfold first_requests. by rewrite <- !app_assoc. }
  destruct (single_line m); [rewrite upd_again; cbn [rbind]|cbn [rbind]]; rewrite upd_again; cbn [rbind wp]; done.
Qed.

Lemma send_second_ok m e : mem_ok m → aget (STQ s) i = Ok e → is_sync_op o = false →
  wp (send_second s m DL1_rep_req u) (λ x, let '(s', m', go) := x in mem_ok m' ∧
    if go : bool then s' = at_head (set_requested (s_first_byte_requested e) true e) ∧ unanswered m' ≡ₚ second_requests s (s_action_id e) ++ unanswered m
    else s' = s ∧ m' = m).
Proof.
  intros Hm G Hs. unfold send_second. rewrite Hs. cbn [negb guard_or rbind].
  assert (wp (if send_to_dl1 DL1_rep_req u then DL1_enqueuable m (u64 (virt_addr o + mem_size d)) else Ok true) (λ _, True)) as Hd
    by (destruct (send_to_dl1 _ _); [by apply law_DL1_room|done]).
  destruct (if send_to_dl1 DL1_rep_req u then _ else _) as [[]|] eqn:E1; [| |done]; cbn [rbind negb wp]; [|done].
  assert (wp (if is_repeated o then repeater_enqueuable m CACHE_WRITE (u64 (virt_addr o + mem_size d)) else Ok true) (λ _, True)) as Hr
    by (destruct (is_repeated o); [by apply law_repeater_room|done]).
  destruct (if is_repeated o then _ else _) as [[]|] eqn:E2; [| |done]; cbn [rbind negb wp]; [|done]. rewrite G. cbn [rbind]. unfold second_requests.
  set (r := request s u (s_action_id e) CACHE_WRITE (u64 (virt_addr o + mem_size d))).
  eapply wp_bind, (wp_mono _ (λ m1, mem_ok m1 ∧ unanswered m1 ≡ₚ (if send_to_dl1 DL1_rep_req u then [mk_sent DL1_unit true r] else []) ++ unanswered m ∧
    repeater_enqueuable m1 = repeater_enqueuable m)).
  { destruct (send_to_dl1 DL1_rep_req u); [|done]. eapply wp_mono; [by apply law_DL1|]. intros m1 (? & ? & _ & _ & ?). done. }
  intros m1 (Hm1 & U1 & P1).
  eapply wp_bind, (wp_mono _ (λ x, x.1 = s ∧ mem_ok x.2 ∧ unanswered x.2 ≡ₚ (if is_repeated o then [mk_sent repeater_unit true r] else []) ++ unanswered m1)).
  { destruct (is_repeated o) eqn:Erep; [|done]. eapply wp_bind, wp_mono; [apply law_repeater; [by apply later|done|by rewrite P1]|].
    intros [m2 now] (H1 & H2 & H3 & _). simpl in *. subst now. simpl. done. }
  intros [s2 m2] (E & Hm2 & U2). simpl in E, Hm2, U2. subst s2. rewrite (upd_STQ_ok _ _ _ _ G). cbn [rbind wp]. split; [done|]. split; [done|].
  rewrite U2, U1. by rewrite <- app_assoc.
Qed.

End steps.
End commit.

(** ** The store queue's side *)

Section queue.
Context {UI : uop_info}.

Lemma stq_perm s g qs qs' ss : qs ≡ₚ qs' → stq_ok s g qs ss → stq_ok s g qs' ss.
Proof.
  intros E [Hr Hh Hlen Hcells Hix Hids Hsent Hkeys Hl]. assert (omap key_of qs ≡ₚ omap key_of qs') as Ek by by rewrite E.
  split; try done.
  - by rewrite <- E.
  - by rewrite <- Ek.
  - intros j e k Hj G Hk. rewrite <- Ek. by apply Hl.
Qed.

(** The requests [N] have been made for the entry [e] at [i], which is now [e']. *)
Record asked (i : Z) (e e' : STQ_t) (N : list sent) : Prop := {
  as_id : s_action_id e' = s_action_id e;
  as_req : ∀ q, q ∈ N → r_STQ_index (q_req q) = i ∧ r_action_id (q_req q) = s_action_id e ∧
    (q_unit q = repeater_unit → r_is_repeated (q_req q) = true ∧ (q_split q = true → r_is_sync_op (q_req q) = false));
  as_parts : NoDup (omap part_of N);
  as_new : ∀ k, k ∈ omap part_of N → ¬ awaits e k;
  as_awaits : ∀ k, awaits e' k ↔ awaits e k ∨ k ∈ omap part_of N
}.

Lemma asked_keys i e e' N : asked i e e' N → ∀ k j x, (k, j, x) ∈ omap key_of N ↔ k ∈ omap part_of N ∧ j = i ∧ x = s_action_id e.
Proof.
  intros Ha k j x. rewrite key_in, list_elem_of_omap. split.
  - intros (q & Hq & E1 & <- & <-). destruct (as_req _ _ _ _ Ha q Hq) as (-> & -> & _). eauto.
  - intros ((q & Hq & E) & -> & ->). exists q. destruct (as_req _ _ _ _ Ha q Hq) as (-> & -> & _). done.
Qed.

Section conds.
Variables (s : stq) (g : Z) (qs : list sent) (ss : list owners) (i : Z) (e e' : STQ_t) (N : list sent).
Hypothesis Hok : stq_ok s g qs ss.
Hypothesis G : aget (STQ s) i = Ok e.
Hypothesis Hid : 1 ≤ s_action_id e.
Hypothesis Ha : asked i e e' N.

Lemma asked_old q k : q ∈ qs → r_STQ_index (q_req q) = i → r_action_id (q_req q) = s_action_id e → part_of q = Some k → awaits e k.
Proof.
  intros Hq E1 E2 Ek. pose proof (proj1 (list.Forall_forall _ _) (so_sent _ _ _ _ Hok) q Hq) as [_ _ _ S]. apply S; [by rewrite E1|done|done].
Qed.

Lemma asked_source q : q ∈ N ++ qs → q ∈ qs ∨ (r_STQ_index (q_req q) = i ∧ r_action_id (q_req q) = s_action_id e ∧ 1 ≤ s_action_id e ∧
  (q_unit q = repeater_unit → r_is_repeated (q_req q) = true ∧ (q_split q = true → r_is_sync_op (q_req q) = false))).
Proof. intros [Hq|Hq]%elem_of_app; [right|by left]. destruct (as_req _ _ _ _ Ha q Hq) as (H1 & H2 & H3). done. Qed.

Lemma asked_matched q k : q ∈ N ++ qs → r_STQ_index (q_req q) = i → r_action_id (q_req q) = s_action_id e → part_of q = Some k → awaits e' k.
Proof.
  intros [Hq|Hq]%elem_of_app E1 E2 Ek; apply (as_awaits _ _ _ _ Ha).
  - right. apply list_elem_of_omap. eauto.
  - left. by eapply asked_old.
Qed.

Lemma asked_nodup : NoDup (omap key_of (N ++ qs)).
Proof.
  rewrite omap_app. apply list.NoDup_app. split; [|split; [|apply Hok]].
  - pose proof (as_parts _ _ _ _ Ha) as Hp. pose proof (as_req _ _ _ _ Ha) as Hr. clear Ha. induction N as [|q N' IH]; [constructor|]. simpl in *.
    unfold key_of at 1. destruct (part_of q) as [k|] eqn:Ek; simpl in *.
    + apply list.NoDup_cons in Hp as [Hk Hp]. apply list.NoDup_cons. split.
      * intros (q' & Hq' & E & _)%key_in. apply Hk. apply list_elem_of_omap. eauto.
      * apply IH; [done|]. intros q' Hq'. apply Hr. by right.
    + apply IH; [done|]. intros q' Hq'. apply Hr. by right.
  - intros [[k j] x] (Hk & -> & ->)%(asked_keys _ _ _ _ Ha) (q & Hq & E1 & E2 & E3)%key_in.
    apply (as_new _ _ _ _ Ha k Hk). by eapply asked_old.
Qed.

Lemma asked_kept j x k : (k, j, x) ∈ omap key_of qs → (k, j, x) ∈ omap key_of (N ++ qs).
Proof. rewrite omap_app, elem_of_app. by right. Qed.

Lemma asked_live j k : 0 ≤ j < STQ_size s → i = senior_slot s j → awaits e' k → (k, i, s_action_id e) ∈ omap key_of (N ++ qs).
Proof.
  intros Hj Ei Hk. rewrite omap_app, elem_of_app. apply (as_awaits _ _ _ _ Ha) in Hk as [Hk|Hk]; [right|left].
  - rewrite Ei in G |- *. by apply (so_live _ _ _ _ Hok).
  - by apply (asked_keys _ _ _ _ Ha).
Qed.
End conds.

(** The store at the head makes requests and stays, or leaves. *)
Lemma ask_stay s g qs a d ss e e' N : stq_ok s g qs ((a, d) :: ss) → aget (STQ s) (STQ_head s) = Ok e → asked (STQ_head s) e e' N →
  is_main true a d e' → stq_ok (at_head s e') g (N ++ qs) ((a, d) :: ss).
Proof.
  intros Hok G Ha Hm'. destruct (main_at _ _ _ _ Hok 0%nat a d eq_refl) as (e0 & G0 & Hm & Hlt). rewrite Z.add_0_r in *.
  destruct (so_head _ _ _ _ Hok) as [Hn Hh]. destruct (old_num_range _ _ _ _ Hok) as (H1 & H2 & H3).
  assert (e0 = e) as -> by (rewrite Hh in G; rewrite G in G0; by injection G0). pose proof (main_id _ _ _ _ Hm) as Hid.
  unfold at_head. rewrite Hh in Ha, G |- *.
  apply (stq_inplace s g qs _ Hok _ (old_num s) e e'); simpl; try done; try lia.
  - apply Ha.
  - apply Hok.
  - change (old_num (with_STQ _ s)) with (old_num s). unfold cell_ok. rewrite (proj2 (Z.ltb_ge _ _)) by lia. rewrite Z.sub_diag, Z.eqb_refl. done.
  - apply Hok.
  - intros q. by eapply asked_source.
  - intros q k. by eapply asked_matched.
  - by eapply asked_nodup.
  - intros i x k _. apply asked_kept.
  - intros k Hk. eapply asked_live; [done|done|done| |done|done]. lia.
Qed.

Lemma ask_leave s g qs o ss e e' N : stq_ok s g qs (o :: ss) → aget (STQ s) (STQ_head s) = Ok e → asked (STQ_head s) e e' N →
  is_old e' → stq_ok (pop_main (at_head s e')) g (N ++ qs) ss.
Proof.
  intros Hok G Ha Ho. destruct o as [a d]. destruct (main_at _ _ _ _ Hok 0%nat a d eq_refl) as (e0 & G0 & Hm & Hlt). rewrite Z.add_0_r in *.
  destruct (so_head _ _ _ _ Hok) as [Hn Hh]. destruct (old_num_range _ _ _ _ Hok) as (H1 & H2 & H3).
  assert (e0 = e) as -> by (rewrite Hh in G; rewrite G in G0; by injection G0). pose proof (main_id _ _ _ _ Hm) as Hid.
  apply (pop_main_ok s g qs _ (a, d) ss e e'); try done.
  - apply Ha.
  - intros q. by eapply asked_source.
  - intros q k. by eapply asked_matched.
  - by apply (asked_nodup s g qs ((a, d) :: ss) (STQ_head s) e e' N Hok G).
  - intros i x k _. apply asked_kept.
  - intros k Hk. eapply (asked_live _ _ _ _ _ _ _ _ Hok G Ha (old_num s)); [lia|done|done].
Qed.

End queue.

Lemma at_head_twice s e e' : at_head (at_head s e) e' = at_head s e'.
Proof. unfold at_head. simpl. by rewrite list_insert_insert_eq. Qed.

(** ** The commit of a store *)

Section dealloc.
Context {UI : uop_info} {M : Type} `{SM : StoreMem M} {SL : StoreMemLaws M}.
Variables (DL1_rep_req : bool) (asid : Z) (u : store_uop).

Lemma request_parts s id : let r := first_requests DL1_rep_req asid u s id in
  (∀ k, k ∈ omap part_of r ↔ k = First ∨ (k = Translation ∧ is_sync_op (u_orc u) = false)) ∧ NoDup (omap part_of r).
Proof.
  unfold first_requests, send_to_dl1. destruct (is_repeated (u_orc u)) eqn:Er, (is_sync_op (u_orc u)), DL1_rep_req; simpl;
    unfold part_of, request; simpl; rewrite ?Er; simpl; split; try (intros k; rewrite ?elem_of_cons, elem_of_nil; intuition congruence);
    repeat (apply list.NoDup_cons; split; [rewrite ?elem_of_cons, elem_of_nil; intuition congruence|]); constructor.
Qed.

Lemma second_parts s id : omap part_of (second_requests DL1_rep_req u s id) = [Second].
Proof.
  unfold second_requests, send_to_dl1. destruct (is_repeated (u_orc u)) eqn:Er, DL1_rep_req; simpl; unfold part_of, request; simpl; by rewrite ?Er.
Qed.

Lemma first_requests_for s id q : q ∈ first_requests DL1_rep_req asid u s id →
  r_STQ_index (q_req q) = STQ_index_of s (u_ptr u) ∧ r_action_id (q_req q) = id ∧
  (q_unit q = repeater_unit → r_is_repeated (q_req q) = true ∧ (q_split q = true → r_is_sync_op (q_req q) = false)).
Proof.
  unfold first_requests. rewrite !elem_of_app. intros [Hq|[Hq|Hq]].
  - destruct (is_repeated (u_orc u)) eqn:Er; [|by apply elem_of_nil in Hq]. apply list_elem_of_singleton in Hq as ->. simpl. by rewrite Er.
  - destruct (is_sync_op (u_orc u)); [by apply elem_of_nil in Hq|]. apply list_elem_of_singleton in Hq as ->. done.
  - destruct (send_to_dl1 _ _); [|by apply elem_of_nil in Hq]. apply list_elem_of_singleton in Hq as ->. done.
Qed.

Lemma second_requests_for s id q : is_sync_op (u_orc u) = false → q ∈ second_requests DL1_rep_req u s id →
  r_STQ_index (q_req q) = STQ_index_of s (u_ptr u) ∧ r_action_id (q_req q) = id ∧
  (q_unit q = repeater_unit → r_is_repeated (q_req q) = true ∧ (q_split q = true → r_is_sync_op (q_req q) = false)).
Proof.
  intros Hs. unfold second_requests. rewrite !elem_of_app. intros [Hq|Hq].
  - destruct (is_repeated (u_orc u)) eqn:Er; [|by apply elem_of_nil in Hq]. apply list_elem_of_singleton in Hq as ->. simpl. by rewrite Er, Hs.
  - destruct (send_to_dl1 _ _); [|by apply elem_of_nil in Hq]. apply list_elem_of_singleton in Hq as ->. done.
Qed.

Section head.
Variables (s : stq) (e : STQ_t) (i : Z).
Hypothesis Hi : STQ_index_of s (u_ptr u) = i.
Hypothesis Hm : is_main true None (Some (u_ptr u)) e.

Lemma first_asked single : s_first_byte_requested e = false → asked i e (first_entry u single e) (first_requests DL1_rep_req asid u s (s_action_id e)).
Proof.
  intros Hf. destruct (request_parts s (s_action_id e)) as [Hp Hnd]. destruct (main_fresh _ _ _ _ Hm Hf) as [Ht Hw]. destruct (main_write _ _ _ _ Hm) as (_ & Hl & Hlw). split.
  - done.
  - intros q Hq. rewrite <- Hi. by apply first_requests_for.
  - done.
  - intros k _ [? _]. congruence.
  - intros k. rewrite Hp. unfold awaits, first_entry. simpl. rewrite Hf, Hw, Hl, Hlw.
    destruct k, single, (is_sync_op (u_orc u)); simpl; intuition (congruence || done).
Qed.

Lemma second_asked : is_sync_op (u_orc u) = false → s_first_byte_requested e = true →
  asked i e (set_requested true true e) (second_requests DL1_rep_req u s (s_action_id e)).
Proof.
  intros Hs Hf. destruct (main_write _ _ _ _ Hm) as (_ & Hl & Hlw). split.
  - done.
  - intros q Hq. rewrite <- Hi. by apply second_requests_for.
  - rewrite second_parts. apply NoDup_singleton.
  - intros k. rewrite second_parts, list_elem_of_singleton. intros -> (_ & _ & ?). congruence.
  - intros k. rewrite second_parts, list_elem_of_singleton. unfold awaits. simpl. rewrite Hf, Hl, Hlw. destruct k; intuition (congruence || done).
Qed.

Lemma first_main : s_first_byte_requested e = false → sync_uop (u_ptr u) = false → is_sync_op (u_orc u) = false →
  is_main true None (Some (u_ptr u)) (first_entry u false e).
Proof.
  intros Hf Hy Hs. destruct Hm as [M1 M2 (M3 & M4 & M5) M6 M7 M8]. split; simpl; try done. intros _. split_and!; [done..|]. intros p [= <-]. done.
Qed.

End head.

Lemma asked_trans i e e1 e2 N1 N2 : asked i e e1 N1 → asked i e1 e2 N2 → asked i e e2 (N2 ++ N1).
Proof.
  intros [A1 A2 A3 A4 A5] [B1 B2 B3 B4 B5]. split.
  - congruence.
  - rewrite A1 in B2. intros q [Hq|Hq]%elem_of_app; [by apply B2|by apply A2].
  - rewrite omap_app. apply list.NoDup_app. split; [done|]. split; [|done]. intros k Hk Hk1. apply (B4 k Hk), A5. by right.
  - intros k. rewrite omap_app, elem_of_app. intros [Hk|Hk]; [|by apply A4]. intros Hw. apply (B4 k Hk), A5. by left.
  - intros k. rewrite B5, A5, omap_app, elem_of_app. tauto.
Qed.

(** Without its data uop the entry waits for the same. *)
Lemma asked_std i e e' N : asked i e e' N → asked i e (set_std None e') N.
Proof. by intros [A1 A2 A3 A4 A5]. Qed.

Lemma gone e : sta e = None → s_first_byte_requested e = true → s_last_byte_requested e = true → write_complete e = first_byte_written e && last_byte_written e →
  is_old (set_std None e).
Proof. intros. split; simpl; try done. by left. Qed.

Lemma STQ_deallocate_std_ok x (m : M) g ss h sim_cycle : (is_repeated (u_orc u) = true → repeater_waits) → is_sfence (u_dec u) = false → sync_uop (u_ptr u) = is_sync_op (u_orc u) → mem_ok m →
  stq_ok (stores x) g (unanswered m) ((None, Some (u_ptr u)) :: ss) →
  wp (STQ_deallocate_std x m h DL1_rep_req asid sim_cycle u) (λ r, let '(x', m', done) := r in mem_ok m' ∧ loads x' = loads x ∧
    global_action_id x' = global_action_id x ∧ STQ_size (stores x') = STQ_size (stores x) ∧ 
    stq_ok (stores x') g (unanswered m') (if done : bool then ss else (None, Some (u_ptr u)) :: ss)).
Proof.
  intros Hlater Hfe Hsy Hm Hok. unfold STQ_deallocate_std. rewrite Hfe. set (s := stores x) in *.
  destruct (main_at _ _ _ _ Hok 0%nat None (Some (u_ptr u)) eq_refl) as (e & G & Hmain & Hlt). rewrite Z.add_0_r in *.
  destruct (so_head _ _ _ _ Hok) as [Hn Hh]. pose proof (so_ring _ _ _ _ Hok) as [_ Hll _ _ _].
  assert (0 ≤ STQ_head s < Z.of_nat (length (STQ s))) as Hi by (rewrite Hh, Hll; by eapply senior_slot_range).
  assert (STQ_index_of s (u_ptr u) = STQ_head s) as Hix.
  { rewrite (so_index _ _ _ _ Hok 0%nat None (Some (u_ptr u)) (u_ptr u) eq_refl) by (by right). by rewrite Z.add_0_r. }
  rewrite <- Hh in G. destruct (main_write _ _ _ _ Hmain) as (Hwc & Hlr & Hlw).
  pose proof (room_ok DL1_rep_req asid u Hlater m Hm) as Hroom. destruct (room_for_first m DL1_rep_req asid u) as [[]|] eqn:Er; [| |done]; cbn [rbind negb]; [|done].
  clear Hroom.  rewrite G. cbn [rbind]. destruct (s_first_byte_requested e) eqn:Hf; cbn [negb].
  - assert (is_sync_op (u_orc u) = false) as Hs by (rewrite <- Hsy; by destruct (main_head _ _ _ _ Hmain Hf) as (_ & _ & ->)).
    cbn [rbind]. rewrite G. cbn [rbind]. rewrite Hf, Hlr. cbn [andb negb].
    eapply wp_bind, wp_mono; [exact (send_second_ok DL1_rep_req u Hlater s m e Hm G Hs)|]. intros [[s2 m2] []] (Hm2 & Hgo); cbn [negb].
    + destruct Hgo as [-> U]. simpl stores. rewrite get_again by done. cbn [rbind]. simpl. rewrite Hf. cbn [andb].
      rewrite upd_again by done. cbn [rbind wp]. simpl.
      split_and!; [done..|]. eapply stq_perm; [symmetry; exact U|]. apply (ask_leave s g _ _ _ e (set_std None (set_requested true true e)) _ Hok G).
      * by apply asked_std, second_asked.
      * apply gone; simpl; [apply Hmain|done|done|by rewrite Hwc, Hlw, andb_false_r].
    + destruct Hgo as [-> ->]. cbn [wp]. done.
  - eapply wp_bind, wp_mono; [exact (send_first_ok DL1_rep_req asid u Hlater s Hi m e Hm Er G)|]. intros [s1 m1] (E & Hm1 & U1). simpl in E, Hm1, U1. subst s1.
    rewrite get_again by done. cbn [rbind]. set (e1 := first_entry u (single_line u m) e) in *.
    pose proof (first_asked s e (STQ_head s) Hix Hmain (single_line u m) Hf) as Ha1. fold e1 in Ha1.
    assert (s_first_byte_requested e1 = true) as Hf1 by done. assert (s_last_byte_requested e1 = single_line u m) as Hl1 by (simpl; by rewrite Hlr, orb_false_r).
    rewrite Hf1, Hl1. cbn [andb]. destruct (single_line u m) eqn:Es; cbn [negb].
    + cbn [rbind negb]. simpl stores. rewrite get_again by done. cbn [rbind]. rewrite Hf1, Hl1. cbn [andb]. rewrite upd_again by done. cbn [rbind wp]. simpl.
      split_and!; [done..|]. eapply stq_perm; [symmetry; exact U1|]. apply (ask_leave s g _ _ _ e (set_std None e1) _ Hok G); [by apply asked_std|].
      destruct (main_fresh _ _ _ _ Hmain Hf) as [_ Hfw]. apply gone; simpl; [apply Hmain|done|done|by rewrite Hfw].
    + assert (is_sync_op (u_orc u) = false) as Hs by (unfold single_line in Es; by apply orb_false_iff in Es as [-> _]).
      assert (is_main true None (Some (u_ptr u)) e1) as Hmain1 by (apply first_main; [done|done|by rewrite Hsy|done]).
      assert (0 ≤ STQ_head (at_head s e1) < Z.of_nat (length (STQ (at_head s e1)))) as Hi1 by (simpl; by rewrite length_insert).
      eapply wp_bind, wp_mono; [exact (send_second_ok DL1_rep_req u Hlater (at_head s e1) m1 e1 Hm1 (get_again s Hi e1) Hs)|].
      intros [[s2 m2] []] (Hm2 & Hgo); cbn [negb].
      * destruct Hgo as [-> U2]. rewrite at_head_twice. simpl stores. rewrite get_again by done. cbn [rbind]. cbn [s_first_byte_requested s_last_byte_requested set_requested]. rewrite Hf1. cbn [andb].
        rewrite upd_again by done. cbn [rbind wp]. simpl. split_and!; [done..|]. rewrite U1 in U2. rewrite app_assoc in U2.
        eapply stq_perm; [symmetry; exact U2|].
        apply (ask_leave s g _ _ _ e _ _ Hok G).
        -- apply asked_std. eapply asked_trans; [exact Ha1|]. by apply second_asked.
        -- apply gone; simpl; [apply Hmain|done|done|by rewrite Hlw, andb_false_r].
      * destruct Hgo as [-> ->]. cbn [wp]. simpl. split_and!; [done..|]. eapply stq_perm; [symmetry; exact U1|].
        by apply (ask_stay s g _ None (Some (u_ptr u)) ss e e1 _ Hok G).
Qed.

End dealloc.

End lsq_commit.
