(* ===== verification/LSQRun.v ===== *)
(** * LSQRun: the load and store queues are two lists

    The operations that the rest of the pipeline calls, in any order that program order
    allows, with the answers of the caches in between.  No assertion fails, the queues are
    the lists of the uops in flight, and a store leaves the store queue exactly when the
    caches have answered for all its parts. *)

From S2P Require Import Prelude Misc CacheHeap CacheSet Memory OracleDeps Uops LSQ LSQInv LSQOps LSQCommit.

Module lsq_run.
Import uops lsq_inv lsq_ops lsq_commit.

(** The caches answer in any order. *)
Class StoreMemAnswers (M : Type) `{StoreMemLaws M} : Type := {
  take : M → nat → option (sent * M);
  law_take : ∀ m n q m', mem_ok m → take m n = Some (q, m') → mem_ok m' ∧ unanswered m ≡ₚ q :: unanswered m'
}.

(** A repeater that calls back only after its enqueue has returned. *)
Class RepeaterLater (M : Type) `{StoreMemLaws M} : Prop := repeater_later : repeater_waits.

(** ** The lists *)

Record lists : Type := mk_lists { a_loads : list ptr; a_stores : list owners }.

(** What happens to the queues: allocation, execution, commit, retirement, recovery, an
    answer. *)
Inductive event : Type :=
  | load_alloc (p : ptr) (d : decode_t)
  | load_commit (p : ptr)
  | load_squash (p : ptr)
  | sta_alloc (p : ptr) (d : decode_t)
  | std_alloc (p : ptr)
  | sta_exec (p : ptr) (addr : Z)
  | std_exec (p : ptr)
  | sta_commit
  | store_commit (u : store_uop) (h : heap) (cycle : Z)
  | retire
  | std_squash (p : ptr)
  | sta_squash (p : ptr)
  | flush
  | cache_answer (n : nat).

Section run.
Context {UI : uop_info} {M : Type} `{SA : StoreMemAnswers M}.
Variables (DL1_rep_req : bool) (asid : Z).

(** *** The code *)

(** [false]: a full queue stalls the allocation, full caches stall the commit of a store.  A
    uop executes once: an address or a datum that is there is not written again, which the
    assertions of [STQ_set_addr] and [STQ_set_data] forbid (the callers look at
    when_completed and when_exec). *)
Definition code (ev : event) (w : t * M) : result (t * M * bool) :=
  let '(x, m) := w in
  let on_loads q := Ok (mk q (stores x) (global_action_id x), m, true) in
  let on_stores s := Ok (mk (loads x) s (global_action_id x), m, true) in
  match ev with
  | load_alloc p d => if LDQ_available (loads x) then let* x := LDQ_insert x p d in Ok (x, m, true) else Ok (x, m, false)
  | load_commit p => let* q := LDQ_deallocate (loads x) p in on_loads q
  | load_squash p => let* q := LDQ_squash (loads x) p in on_loads q
  | sta_alloc p d => if STQ_available (stores x) then let* x := STQ_insert_sta x p d in Ok (x, m, true) else Ok (x, m, false)
  | std_alloc p => let* s := STQ_insert_std (stores x) p in on_stores s
  | sta_exec p addr =>
      let* e := aget (STQ (stores x)) (STQ_index_of (stores x) p) in
      if s_addr_valid e then Ok (x, m, false) else let* s := STQ_set_addr (stores x) p addr in on_stores s
  | std_exec p =>
      let* e := aget (STQ (stores x)) (STQ_index_of (stores x) p) in
      if value_valid e then Ok (x, m, false) else let* s := STQ_set_data (stores x) p in on_stores s
  | sta_commit => let* s := STQ_deallocate_sta (stores x) in on_stores s
  | store_commit u h cycle => STQ_deallocate_std x m h DL1_rep_req asid cycle u
  | retire => let* x := STQ_deallocate_senior x in Ok (x, m, true)
  | std_squash p => let* s := STQ_squash_std (stores x) p in on_stores s
  | sta_squash p => let* s := STQ_squash_sta (stores x) p in on_stores s
  | flush => let* x := STQ_squash_senior x in Ok (x, m, true)
  | cache_answer n =>
      match take m n with
      | None => Ok (x, m, false)
      | Some (q, m) =>
          let* s := match q_unit q with
                    | DL1_unit => store_dl1_callback (q_split q) (stores x) (q_req q)
                    | DTLB_unit => store_dtlb_callback (stores x) (q_req q)
                    | repeater_unit => repeater_store_callback (q_split q) (stores x) (q_req q) true
                    end in
          Ok (mk (loads x) s (global_action_id x), m, true)
      end
  end.

(** *** What may happen, and what it does to the lists *)

Definition owned (a : lists) (p : ptr) : Prop := p ∈ ptrs (a_stores a).

(** Uops enter at the young end and leave at the old end, or are squashed from the young
    end; the address uop of a store before its data uop, but the other way round when they
    are squashed.  A store to repeated memory needs a repeater that answers after its enqueue
    has returned. *)
Inductive enabled (a : lists) : event → Prop :=
  | en_load_alloc p d : p ∉ a_loads a → enabled a (load_alloc p d)
  | en_load_commit p l : a_loads a = p :: l → enabled a (load_commit p)
  | en_load_squash p l : a_loads a = l ++ [p] → enabled a (load_squash p)
  | en_sta_alloc p d : ¬ owned a p → enabled a (sta_alloc p d)
  | en_std_alloc q p l : a_stores a = l ++ [(Some q, None)] → q.1 = p.1 → ¬ owned a p → enabled a (std_alloc p)
  | en_sta_exec p addr d k : a_stores a !! k = Some (Some p, d) → enabled a (sta_exec p addr)
  | en_std_exec p b k : a_stores a !! k = Some (b, Some p) → enabled a (std_exec p)
  | en_sta_commit p d l : a_stores a = (Some p, d) :: l → enabled a sta_commit
  | en_store_commit u h cycle l : (is_repeated (u_orc u) = true → repeater_waits) → is_sfence (u_dec u) = false → sync_uop (u_ptr u) = is_sync_op (u_orc u) →
      a_stores a = (None, Some (u_ptr u)) :: l → enabled a (store_commit u h cycle)
  | en_fence_commit u h cycle l : is_sfence (u_dec u) = true → a_stores a = (Some (u_ptr u), None) :: l →
      (∀ q, q ∈ a_loads a → ∃ v, uop_at h q = Ok v) → enabled a (store_commit u h cycle)
  | en_retire : enabled a retire
  | en_std_squash b p l : a_stores a = l ++ [(b, Some p)] → b ≠ Some p → p ∉ ptrs l → enabled a (std_squash p)
  | en_sta_squash p l : a_stores a = l ++ [(Some p, None)] → p ∉ ptrs l → enabled a (sta_squash p)
  | en_flush : enabled a flush
  | en_answer n : enabled a (cache_answer n).

(** The lists after the event; [b] is what the code says. *)
Definition after (a : lists) (ev : event) (b : bool) : lists :=
  let on_stores ss := mk_lists (a_loads a) ss in
  match ev with
  | load_alloc p _ => if b then mk_lists (a_loads a ++ [p]) (a_stores a) else a
  | load_commit _ => mk_lists (tail (a_loads a)) (a_stores a)
  | load_squash _ => mk_lists (removelast (a_loads a)) (a_stores a)
  | sta_alloc p _ => if b then on_stores (a_stores a ++ [(Some p, None)]) else a
  | std_alloc p => on_stores (alter (λ o : owners, (o.1, Some p)) (pred (length (a_stores a))) (a_stores a))
  | sta_commit => on_stores (alter (λ o : owners, (None, o.2)) 0%nat (a_stores a))
  | store_commit _ _ _ => if b then on_stores (tail (a_stores a)) else a
  | std_squash _ => on_stores (alter (λ o : owners, (o.1, None)) (pred (length (a_stores a))) (a_stores a))
  | sta_squash _ => on_stores (removelast (a_stores a))
  | flush => on_stores []
  | sta_exec _ _ | std_exec _ | retire | cache_answer _ => a
  end.

(** *** The queues are the lists *)

Record models (w : t * M) (a : lists) : Prop := {
  mo_loads : ldq_ok (loads w.1) (a_loads a);
  mo_stores : stq_ok (stores w.1) (global_action_id w.1) (unanswered w.2) (a_stores a);
  mo_mem : mem_ok w.2
}.

Lemma stq_later s g g' qs ss : g ≤ g' → stq_ok s g qs ss → stq_ok s g' qs ss.
Proof.
  intros Hg [Hr Hh Hlen Hcells Hix Hids Hsent Hkeys Hl]. split; try done.
  - intros i e G. pose proof (Hids i e G). lia.
  - eapply list.Forall_impl; [exact Hsent|]. intros q [S1 S2 S3 S4]. split; (done || lia).
Qed.

Definition size (w : t * M) : Z := STQ_size (stores w.1).

(** The action ids have not run out. *)
Definition ids_left (w : t * M) : Prop := global_action_id w.1 + size w < 2 ^ 64.

Definition goes_on (w : t * M) (a : lists) (ev : event) (r : t * M * bool) : Prop :=
  models r.1 (after a ev r.2) ∧ size r.1 = size w ∧ global_action_id w.1 ≤ global_action_id r.1.1 ≤ global_action_id w.1 + size w.

Lemma size_pos w a : models w a → 1 ≤ size w.
Proof. intros [_ Hs _]. destruct (so_ring _ _ _ _ Hs). unfold size. lia. Qed.

Lemma on_loads x m a ev q : models (x, m) a → ldq_ok q (a_loads (after a ev true)) → a_stores (after a ev true) = a_stores a →
  goes_on (x, m) a ev (mk q (stores x) (global_action_id x), m, true).
Proof.
  intros Hm Hq Es. pose proof (size_pos _ _ Hm). split; [|simpl; split; [done|lia]]. destruct Hm. split; simpl; [done|by rewrite Es|done].
Qed.

Lemma on_stores x m m' a ev b s : models (x, m) a → STQ_size s = STQ_size (stores x) → mem_ok m' →
  stq_ok s (global_action_id x) (unanswered m') (a_stores (after a ev b)) → a_loads (after a ev b) = a_loads a →
  goes_on (x, m) a ev (mk (loads x) s (global_action_id x), m', b).
Proof.
  intros Hm Es Hm' Hs El. pose proof (size_pos _ _ Hm). split; [|unfold size in *; simpl in *; split; [done|lia]].
  destruct Hm. split; simpl; [by rewrite El|done|done].
Qed.

Lemma stalls x m a ev : models (x, m) a → after a ev false = a → goes_on (x, m) a ev (x, m, false).
Proof. intros Hm He. pose proof (size_pos _ _ Hm). split; [cbn [fst snd]; by rewrite He|]. split; [done|]. simpl. lia. Qed.

Lemma stq_tail_slot s g qs ss : stq_ok s g qs ss → ∃ e, aget (STQ s) (moddec (STQ_tail s) (STQ_size s)) = Ok e.
Proof.
  intros Hok. destruct (so_ring _ _ _ _ Hok) as [Hs Hl Hn Hh Ht]. destruct (aget_ok (STQ s) (moddec (STQ_tail s) (STQ_size s))) as (e & _ & G); [|eauto].
  rewrite Hl. apply moddec_range; [|lia]. rewrite Ht. by apply ring.slot_in_range.
Qed.

(** The young end of the stores. *)
Lemma after_last (f : owners → owners) l o : alter f (pred (length (l ++ [o]))) (l ++ [o]) = l ++ [f o].
Proof. rewrite length_app, Nat.add_comm. simpl. rewrite <- (Nat.add_0_r (length l)) at 1. by rewrite alter_app_r. Qed.

Section step.
Variables (x : t) (m : M) (a : lists).
Hypothesis Hm : models (x, m) a.
Hypothesis Hg : ids_left (x, m).

Lemma step_facts : 1 ≤ STQ_size (stores x) ∧ 0 ≤ global_action_id x ∧ global_action_id x + STQ_size (stores x) < 2 ^ 64 ∧
  ldq_ok (loads x) (a_loads a) ∧ stq_ok (stores x) (global_action_id x) (unanswered m) (a_stores a) ∧ mem_ok m.
Proof. pose proof (size_pos _ _ Hm) as Hsz. destruct Hm as [Hm1 Hm2 Hm3]. simpl in *. split_and!; try done. by eapply id_range. Qed.

Lemma loads_step ev : enabled a ev → match ev with load_alloc _ _ | load_commit _ | load_squash _ => True | _ => False end →
  wp (code ev (x, m)) (goes_on (x, m) a ev).
Proof.
  intros He Hev. destruct step_facts as (Hs1 & Hg0 & Hg1 & Hl & Hs & Hmm).
  destruct He as [p d Hp|p l El|p l El| | | | | | | | | | | |]; try done; simpl.
  - destruct (LDQ_available (loads x)) eqn:Hav; [|by apply stalls].
    eapply wp_bind, wp_mono; [apply (LDQ_insert_ok _ _ p d Hl Hav Hp); by eapply stq_tail_slot|]. intros x' (H1 & H2 & H3 & H4).
    rewrite next_id in H4 by lia. split; [|unfold size in *; simpl in *; rewrite H3; split; [done|lia]].
    split; simpl; [done| |done]. rewrite H3. eapply stq_later; [|exact Hs]. lia.
  - rewrite El in Hl. eapply wp_bind, wp_mono; [by eapply LDQ_deallocate_ok|]. intros q [H1 H2]. apply on_loads; simpl; [done|by rewrite El|done].
  - rewrite El in Hl. eapply wp_bind, wp_mono; [by eapply LDQ_squash_ok|]. intros q [H1 H2]. apply on_loads; simpl; [done|by rewrite El, removelast_last|done].
Qed.

Lemma alloc_store_step ev : enabled a ev → match ev with sta_alloc _ _ | std_alloc _ | sta_exec _ _ | std_exec _ => True | _ => False end →
  wp (code ev (x, m)) (goes_on (x, m) a ev).
Proof.
  intros He Hev. destruct step_facts as (Hs1 & Hg0 & Hg1 & Hl & Hs & Hmm).
  destruct He as [| | |p d Hp|q p l El Eq Hp|p addr d k Ek|p b k Ek| | | | | | | |]; try done; simpl.
  - destruct (STQ_available (stores x)) eqn:Hav; [|by apply stalls].
    eapply wp_bind, wp_mono; [apply (STQ_insert_sta_ok x (global_action_id x) _ _ p d Hs eq_refl); [lia|done|done]|]. intros x' (H1 & H2 & H3 & H4).
    split; [|unfold size in *; simpl in *; split; [done|lia]]. split; simpl; [by rewrite H2|by rewrite H3|done].
  - unfold owned in Hp. rewrite El in Hs, Hp. eapply wp_bind, wp_mono; [by apply (STQ_insert_std_ok _ _ _ _ _ p Hs)|]. intros s' [H1 H2].
    apply on_stores; simpl; [done|done|done| |done]. by rewrite El, after_last.
  - destruct (update_own _ _ _ _ Hs p k (Some p) d (set_addr addr) Ek) as (e & G & _); [by left|done|]. rewrite G. cbn [rbind].
    destruct (s_addr_valid e) eqn:Ev; [by apply stalls|].
    eapply wp_bind, wp_mono; [eapply (STQ_set_addr_ok _ _ _ _ Hs p addr k d Ek); eauto|]. intros s' (H1 & H2 & _). by apply on_stores.
  - destruct (update_own _ _ _ _ Hs p k b (Some p) set_value Ek) as (e & G & _); [by right|done|]. rewrite G. cbn [rbind].
    destruct (value_valid e) eqn:Ev; [by apply stalls|].
    eapply wp_bind, wp_mono; [eapply (STQ_set_data_ok _ _ _ _ Hs p k b Ek); eauto|]. intros s' (H1 & H2 & _). by apply on_stores.
Qed.

Lemma commit_step ev : enabled a ev → match ev with sta_commit | store_commit _ _ _ | retire => True | _ => False end →
  wp (code ev (x, m)) (goes_on (x, m) a ev).
Proof.
  intros He Hev. destruct step_facts as (Hs1 & Hg0 & Hg1 & Hl & Hs & Hmm).
  destruct He as [| | | | | | |p d l El|u h cycle l Hla Hf Hy El|u h cycle l Hf El Hh| | | | |]; try done; simpl.
  - rewrite El in Hs. eapply wp_bind, wp_mono; [by eapply STQ_deallocate_sta_ok|]. intros s' [H1 H2].
    apply on_stores; simpl; [done|done|done| |done]. by rewrite El.
  - rewrite El in Hs. eapply wp_mono; [by apply (STQ_deallocate_std_ok DL1_rep_req asid u x m (global_action_id x) l h cycle)|].
    intros [[x' m'] b] (H1 & H2 & H3 & H4 & H5). destruct x' as [q' s' g']. simpl in *. subst q' g'.
    apply on_stores; simpl; [done|done|done| |by destruct b]. destruct b; simpl; by rewrite El.
  - rewrite El in Hs. unfold STQ_deallocate_std. rewrite Hf. eapply wp_bind, wp_mono.
    { eapply (STQ_deallocate_fence_ok x _ _ l (u_ptr u) (u_dec u) h _ cycle Hs Hl). intros q Hq. apply Hh. by apply head_Some_elem_of. }
    intros [x' b]. destruct b; simpl.
    + intros (H1 & H2 & H3 & H4). destruct x' as [q' s' g']. simpl in *. subst q' g'. apply on_stores; simpl; [done|done|done| |done]. by rewrite El.
    + intros ->. by apply stalls.
  - eapply wp_bind, wp_mono; [apply (STQ_deallocate_senior_ok _ _ _ Hs); unfold size in *; simpl in *; lia|]. intros x' (H1 & H2 & H3 & H4).
    split; [|unfold size in *; simpl in *; split; [done|destruct H4 as [->|(-> & _)]; lia]]. split; simpl; [by rewrite H2|done|done].
Qed.

Lemma squash_step ev : enabled a ev → match ev with std_squash _ | sta_squash _ | flush | cache_answer _ => True | _ => False end →
  wp (code ev (x, m)) (goes_on (x, m) a ev).
Proof.
  intros He Hev. destruct step_facts as (Hs1 & Hg0 & Hg1 & Hl & Hs & Hmm).
  destruct He as [| | | | | | | | | | |b p l El Hb Hp|p l El Hp| |n]; try done; simpl.
  - rewrite El in Hs. eapply wp_bind, wp_mono; [by apply (STQ_squash_std_ok _ _ _ _ _ _ Hs)|]. intros s' [H1 H2].
    apply on_stores; simpl; [done|done|done| |done]. by rewrite El, after_last.
  - rewrite El in Hs. eapply wp_bind, wp_mono; [by apply (STQ_squash_sta_ok _ _ _ _ _ Hs)|]. intros s' [H1 H2].
    apply on_stores; simpl; [done|done|done| |done]. by rewrite El, removelast_last.
  - eapply wp_bind, wp_mono; [apply (STQ_squash_senior_ok _ _ _ Hs); done|]. intros x' (H1 & H2 & _ & H4 & H5).
    split; [|unfold size in *; simpl in *; split; [done|lia]]. split; simpl; [by rewrite H2|done|done].
  - destruct (take m n) as [[q m']|] eqn:Et; [|by apply stalls]. destruct (law_take _ _ _ _ Hmm Et) as [Hm' Hp].
    apply (stq_perm _ _ _ _ _ Hp) in Hs. destruct q as [un b r].
    destruct un; simpl.
    + eapply wp_bind, wp_mono; [by apply (store_dl1_callback_ok (stores x) (global_action_id x) [] (unanswered m') (a_stores a) b r)|]. intros s' [H1 H2]. by apply on_stores.
    + eapply wp_bind, wp_mono; [by eapply (store_dtlb_callback_ok (stores x) (global_action_id x) [] (unanswered m') (a_stores a) b r)|]. intros s' [H1 H2]. by apply on_stores.
    + eapply wp_bind, wp_mono; [by apply (repeater_store_callback_ok (stores x) (global_action_id x) [] (unanswered m') (a_stores a) b r)|]. intros s' [H1 H2]. by apply on_stores.
Qed.

Lemma any_step ev : enabled a ev → wp (code ev (x, m)) (goes_on (x, m) a ev).
Proof.
  intros He. destruct ev; first [by apply loads_step|by apply alloc_store_step|by apply commit_step|by apply squash_step].
Qed.

End step.

(** ** Reachable states *)

Inductive reach (w0 : t * M) : t * M → lists → Prop :=
  | reach_start : reach w0 w0 (mk_lists [] [])
  | reach_step w a ev w' b : reach w0 w a → enabled a ev → ids_left w → code ev w = Ok (w', b) → reach w0 w' (after a ev b).

Lemma reach_models ln sn m w a : 1 ≤ ln < 2 ^ 31 → 1 ≤ sn < 2 ^ 31 → mem_ok m → unanswered m = [] → reach (create ln sn, m) w a → models w a.
Proof.
  intros Hl Hs Hm Hu Hr. induction Hr as [|w a ev w' b Hr IH He Hg E].
  - split; simpl; [by apply ldq_create_ok|rewrite Hu; by apply stq_create_ok|done].
  - destruct w as [x m']. pose proof (any_step x m' a IH Hg ev He) as Hw. rewrite E in Hw. by destruct Hw.
Qed.

Lemma main_window s g qs ss : stq_ok s g qs ss →
  (λ e, (sta e, std e)) <$> ring.window (STQ s) (STQ_size s) (STQ_head s) (STQ_num s) = ss.
Proof.
  intros Hok. destruct (so_ring _ _ _ _ Hok) as [Hs Hl Hn Hh Ht]. destruct (old_num_range _ _ _ _ Hok) as (N1 & N2 & N3). pose proof (so_len _ _ _ _ Hok) as Hlen.
  assert (ring.ring_ok (STQ s) (STQ_size s) (STQ_head s) (STQ_num s) (ring.slot (STQ_size s) (STQ_head s) (STQ_num s))) as Hr.
  { split; [done|done|lia| |done]. destruct (so_head _ _ _ _ Hok) as [_ ->]. by apply ring.slot_in_range. }
  pose proof (ring.window_length _ _ _ _ _ Hr) as Hw. apply list_eq. intros k. rewrite list_lookup_fmap.
  destruct (ss !! k) as [[b d]|] eqn:Ek.
  - pose proof (lookup_lt_Some _ _ _ Ek). rewrite <- (Nat2Z.id k), (ring.window_lookup _ _ _ _ _ _ Hr) by lia.
    destruct (main_at _ _ _ _ Hok k b d Ek) as (e & G & Hm & _). rewrite (head_slot _ _ _ _ Hok). apply aget_inv in G as [_ ->]. simpl.
    by rewrite (main_sta _ _ _ _ Hm), (main_std _ _ _ _ Hm).
  - apply lookup_ge_None in Ek. rewrite (proj2 (lookup_ge_None _ k)); [done|]. lia.
Qed.

Lemma senior_pops x e : aget (STQ (stores x)) (STQ_senior_head (stores x)) = Ok e → write_complete e && translation_complete e = true →
  1 ≤ STQ_senior_num (stores x) → ∃ s' g', STQ_senior_num s' = STQ_senior_num (stores x) - 1 ∧ STQ_deallocate_senior x = Ok (mk (loads x) s' g').
Proof.
  intros G Ec Hn. unfold STQ_deallocate_senior. rewrite G. cbn [rbind]. rewrite Ec, (upd_STQ_ok _ _ _ _ G). cbn [rbind].
  unfold pop_senior at 1. cbn [STQ_senior_num]. rewrite (proj2 (Z.leb_le _ _)) by (simpl; lia). cbn [guard_or rbind]. eexists _, _. split; [|done]. done.
Qed.

(** C5. The load queue and the main part of the store queue are the lists of the loads and of
    the stores in flight, whatever sequence of allocations, executions, commits, retirements,
    squashes, flushes and answers of the caches has led there; and no operation that program
    order allows next fails an assertion or leaves its array.  A store to repeated memory
    needs a repeater that answers after its enqueue has returned ([en_store_commit]). *)
Theorem lsq_refines_lists ln sn m w a : 1 ≤ ln < 2 ^ 31 → 1 ≤ sn < 2 ^ 31 → mem_ok m → unanswered m = [] → reach (create ln sn, m) w a →
  let q := loads w.1 in let s := stores w.1 in
  l_uop <$> ring.window (LDQ q) (LDQ_size q) (LDQ_head q) (LDQ_num q) = Some <$> a_loads a ∧
  (λ e, (sta e, std e)) <$> ring.window (STQ s) (STQ_size s) (STQ_head s) (STQ_num s) = a_stores a ∧
  ∀ ev, enabled a ev → ids_left w → ∃ w' b, code ev w = Ok (w', b).
Proof.
  intros Hl Hs Hm Hu Hr q s. pose proof (reach_models _ _ _ _ _ Hl Hs Hm Hu Hr) as Hmod. split; [apply Hmod|]. split; [by eapply main_window, Hmod|].
  intros ev He Hg. destruct w as [x m']. pose proof (any_step x m' a Hmod Hg ev He) as Hw. apply wp_exists in Hw as ([w' b] & E & _). eauto.
Qed.

(** C6. The oldest store that has committed leaves the store queue, and its entry is free for
    another store, exactly when the data cache (or the memory repeater) and the TLB have
    answered for every part of it; an answer for an earlier store of the same entry is not
    taken for one of its own.  Condition ([en_store_commit]): a store to repeated memory is
    committed only with a repeater that calls back after its enqueue has returned.  The stub
    repeater-none calls back inside it: with the stub the theorem is about the stores to
    memory that is not repeated, and a store of one line to repeated memory never leaves
    ([repeater_must_not_answer_at_once]). *)
Theorem store_leaves_iff_answered ln sn m w a : 1 ≤ ln < 2 ^ 31 → 1 ≤ sn < 2 ^ 31 → mem_ok m → unanswered m = [] → reach (create ln sn, m) w a →
  let s := stores w.1 in STQ_num s < STQ_senior_num s → ids_left w →
  wp (aget (STQ s) (STQ_senior_head s)) (λ e, wp (STQ_deallocate_senior w.1) (λ x',
    STQ_senior_num (stores x') = STQ_senior_num s - 1 ↔
    ∀ q, q ∈ unanswered w.2 → r_STQ_index (q_req q) = STQ_senior_head s → r_action_id (q_req q) = s_action_id e → part_of q = None)).
Proof.
  intros Hl Hs Hm Hu Hr s Hold Hg. pose proof (reach_models _ _ _ _ _ Hl Hs Hm Hu Hr) as Hmod. destruct w as [x m']. simpl in *.
  destruct (step_facts _ _ _ Hmod Hg) as (Hs1 & Hg0 & Hg1 & _ & Hok & _). fold s in Hok, Hs1, Hg1. destruct (old_num_range _ _ _ _ Hok) as (N1 & N2 & N3).
  destruct (cell_at _ _ _ _ Hok 0) as (e & G & C); [lia|]. pose proof (so_ring _ _ _ _ Hok) as [_ _ _ Hsh _].
  assert (senior_slot s 0 = STQ_senior_head s) as E0 by (unfold senior_slot; by rewrite ring.slot_0).
  pose proof (so_live _ _ _ _ Hok 0 e) as Hlive. rewrite E0 in *. rewrite G. cbn [wp].
  pose proof (STQ_deallocate_senior_ok x _ _ Hok ltac:(lia)) as Hw. unfold cell_ok in C. rewrite (proj2 (Z.ltb_lt _ _)) in C by (unfold old_num; lia).
  destruct C as [_ _ C3 C4]. destruct (write_complete e && translation_complete e) eqn:Ec.
  - destruct (senior_pops x e G Ec ltac:(fold s; destruct (so_head _ _ _ _ Hok); lia)) as (s' & g' & Es & E). rewrite E in Hw |- *. cbn [wp] in Hw |- *. destruct Hw as (_ & _ & _ & [Hx|(_ & _ & Hq)]).
    + exfalso. apply (f_equal (λ y, STQ_senior_num (stores y))) in Hx. simpl in Hx. lia.
    + split; [|done]. intros _ q Hq1 Hq2 Hq3. by apply (Hq q e).
  - assert (STQ_deallocate_senior x = Ok x) as -> by (unfold STQ_deallocate_senior; fold s; rewrite G; cbn [rbind]; by rewrite Ec).
    cbn [wp]. fold s. split; [lia|]. intros Hall. exfalso.
    assert (∀ k, ¬ awaits e k) as Hno.
    { intros k Hk. apply (Hlive k ltac:(lia) G) in Hk. apply key_in in Hk as (q & Hq & Ek & E1 & E2). rewrite (Hall q Hq E1 E2) in Ek. done. }
    destruct C3 as [[Cf Cl]|(_ & Cw & Ct)]; [|rewrite Cw, Ct in Ec; done]. specialize (C4 Cf). rewrite C4 in Ec.
    destruct (first_byte_written e) eqn:E1; [|by apply (Hno First)]. destruct (last_byte_written e) eqn:E2; [|by apply (Hno Second)].
    destruct (translation_complete e) eqn:E3; [done|by apply (Hno Translation)].
Qed.

End run.
(** ** A run *)

(** Caches with room for so many requests each that answer when they are told to. *)
Record pool : Type := mk_pool { p_room : Z; p_sent : list sent }.

Definition in_unit (un : unit_t) (m : pool) : Z := Z.of_nat (length (filter (λ q, q_unit q = un) (p_sent m))).
Definition accept (q : sent) (m : pool) : pool := mk_pool (p_room m) (q :: p_sent m).

#[export] Instance pool_mem : StoreMem pool := {
  DL1_enqueuable m _ := Ok (in_unit DL1_unit m <? p_room m);
  DTLB_enqueuable m _ := Ok (in_unit DTLB_unit m <? p_room m);
  repeater_enqueuable m _ _ := Ok (in_unit repeater_unit m <? p_room m);
  DL1_enqueue m b r := Ok (accept (mk_sent DL1_unit b r) m);
  DTLB_enqueue m r := Ok (accept (mk_sent DTLB_unit false r) m);
  repeater_enqueue m b r := Ok (accept (mk_sent repeater_unit b r) m, false);
  DL1_addr_shift _ := 6
}.

Lemma accept_other q un m : q_unit q ≠ un → in_unit un (accept q m) = in_unit un m.
Proof. intros Hq. unfold in_unit, accept. simpl. by rewrite filter_cons_False. Qed.

#[export, refine] Instance pool_laws : StoreMemLaws pool := { unanswered m := p_sent m; mem_ok _ := True; repeater_waits := True }.
Proof.
  all: try done; intros; simpl; split_and!; try done; by rewrite accept_other.
Defined.

#[export, refine] Instance pool_answers : StoreMemAnswers pool :=
  { take m n := (λ q, (q, mk_pool (p_room m) (delete n (p_sent m)))) <$> p_sent m !! n }.
Proof.
  intros m n q m' _ E. destruct (p_sent m !! n) as [q'|] eqn:Eq; [|done]. simpl in E. injection E as <- <-. split; [done|].
  simpl. by apply delete_Permutation.
Defined.

#[global] Instance pool_later : RepeaterLater pool.
Proof. exact I. Qed.

(** A load, and a store of eight bytes after it. *)
Definition demo_dec (ld a d : bool) (seq : Z) : decode_t :=
  mk_decode false [] [] 8 true true false ld a d false false false false seq seq 0 false false 0 None None.

#[local] Instance demo_uops : uop_info := λ _, false.

Definition demo_store (addr : Z) (repeated : bool) : store_uop :=
  mk_store_uop (1, 1) (demo_dec false false true 3) (mk_oracle addr [] repeated false) 4096.

Ltac decided := solve [vm_compute; reflexivity | unfold owned; apply (bool_decide_eq_true_1 _); vm_compute; reflexivity].

Tactic Notation "reach_by" hyp(H) uconstr(en) :=
  let H' := fresh in
  epose proof (reach_step true 0 _ _ _ _ _ _ H ltac:(apply en; decided) ltac:(vm_compute; reflexivity) ltac:(vm_compute; reflexivity)) as H';
  clear H; rename H' into H; unfold after in H; cbn -[code create] in H.

Definition demo_pool : pool := mk_pool 2 [].

Local Abbreviation demo_reach w a := (reach (M := pool) true 0 (create 2 2, demo_pool) w a).

(** A load and a store go through; the store has left the main queue, and one of its two
    answers is in. *)
Definition demo_events : list event :=
  [load_alloc (0, 0) (demo_dec true false false 1); sta_alloc (1, 0) (demo_dec false true false 2); std_alloc (1, 1);
   sta_exec (1, 0) 8192; std_exec (1, 1); load_commit (0, 0); sta_commit; store_commit (demo_store 8192 false) [] 7; cache_answer 0].

Fixpoint run_events {M : Type} `{StoreMemAnswers M} (DL1_rep_req : bool) (evs : list event) (w : t * M) : result (t * M) :=
  match evs with [] => Ok w | ev :: evs => let* r := code DL1_rep_req 0 ev w in run_events DL1_rep_req evs r.1 end.

Definition demo_state : t * pool := match run_events true demo_events (create 2 2, demo_pool) with Ok w => w | Fault _ => (create 2 2, demo_pool) end.

Lemma demo_reached : demo_reach demo_state (mk_lists [] []).
Proof.
  pose proof (reach_start true 0 (create 2 2, demo_pool)) as H.
  reach_by H (en_load_alloc _ (0, 0) (demo_dec true false false 1)).
  reach_by H (en_sta_alloc _ (1, 0) (demo_dec false true false 2)).
  reach_by H (en_std_alloc _ (1, 0) (1, 1) []).
  reach_by H (en_sta_exec _ (1, 0) 8192 (Some (1, 1)) 0).
  reach_by H (en_std_exec _ (1, 1) (Some (1, 0)) 0).
  reach_by H (en_load_commit _ (0, 0) []).
  reach_by H (en_sta_commit _ (1, 0) (Some (1, 1)) []).
  reach_by H (en_store_commit _ (demo_store 8192 false) [] 7 []).
  reach_by H (en_answer _ 0).
  exact H.
Qed.

Lemma lsq_refines_lists_witness : demo_reach demo_state (mk_lists [] []) ∧ ∃ w' b, code true 0 retire demo_state = Ok (w', b).
Proof.
  split; [exact demo_reached|].
  destruct (lsq_refines_lists true 0 2 2 demo_pool demo_state (mk_lists [] []) ltac:(lia) ltac:(lia) ltac:(vm_compute; exact I) ltac:(vm_compute; reflexivity) demo_reached) as (_ & _ & Hnext).
  apply Hnext; [constructor|vm_compute; reflexivity].
Defined.

(** ** The stub of the repeater *)

(** The caches of a core without a memory repeater. *)
Record none_pool : Type := mk_none { none_sent : list sent }.

(** Source: src/xiosim/ZCOMPS-repeater/repeater-none.cpp:39-39 repeater_none_t. *)
Definition repeater_none_enqueuable (m : none_pool) (cmd : cache_command) (addr : Z) : result bool := Ok true.
(** The callback is called at once: [true].
    Source: src/xiosim/ZCOMPS-repeater/repeater-none.cpp:40-45 repeater_none_t. *)
Definition repeater_none_enqueue (m : none_pool) (split : bool) (r : store_req) : result (none_pool * bool) := Ok (m, true).

#[local] Instance none_mem : StoreMem none_pool := {
  DL1_enqueuable _ _ := Ok true;
  DTLB_enqueuable _ _ := Ok true;
  repeater_enqueuable := repeater_none_enqueuable;
  DL1_enqueue m b r := Ok (mk_none (mk_sent DL1_unit b r :: none_sent m));
  DTLB_enqueue m r := Ok (mk_none (mk_sent DTLB_unit false r :: none_sent m));
  repeater_enqueue := repeater_none_enqueue;
  DL1_addr_shift _ := 6
}.

(** The caches answer as those of [pool]; of the repeater nothing is promised. *)
#[local, refine] Instance none_laws : StoreMemLaws none_pool := { unanswered m := none_sent m; mem_ok _ := True; repeater_waits := False }.
Proof. all: done. Defined.

#[local, refine] Instance none_answers : StoreMemAnswers none_pool :=
  { take m n := (λ q, (q, mk_none (delete n (none_sent m)))) <$> none_sent m !! n }.
Proof.
  intros m n q m' _ E. destruct (none_sent m !! n) as [q'|] eqn:Eq; [|done]. simpl in E. injection E as <- <-. split; [done|].
  simpl. by apply delete_Permutation.
Defined.

(** The run of [demo_events] on a core with the stub. *)
Definition none_state : t * none_pool := match run_events true demo_events (create 2 2, mk_none []) with Ok w => w | Fault _ => (create 2 2, mk_none []) end.

Lemma none_reached : reach true 0 (create 2 2, mk_none []) none_state (mk_lists [] []).
Proof.
  pose proof (reach_start true 0 (create 2 2, mk_none [])) as H.
  reach_by H (en_load_alloc _ (0, 0) (demo_dec true false false 1)).
  reach_by H (en_sta_alloc _ (1, 0) (demo_dec false true false 2)).
  reach_by H (en_std_alloc _ (1, 0) (1, 1) []).
  reach_by H (en_sta_exec _ (1, 0) 8192 (Some (1, 1)) 0).
  reach_by H (en_std_exec _ (1, 1) (Some (1, 0)) 0).
  reach_by H (en_load_commit _ (0, 0) []).
  reach_by H (en_sta_commit _ (1, 0) (Some (1, 1)) []).
  reach_by H (en_store_commit _ (demo_store 8192 false) [] 7 []).
  reach_by H (en_answer _ 0).
  exact H.
Qed.

(** The data cache and the TLB answer all that they were asked. *)
Fixpoint answer_all (qs : list sent) (s : stq) : result stq :=
  match qs with
  | [] => Ok s
  | q :: qs =>
      let* s := match q_unit q with
                | DL1_unit => store_dl1_callback (q_split q) s (q_req q)
                | _ => store_dtlb_callback s (q_req q)
                end in
      answer_all qs s
  end.

(** A store to repeated memory is dispatched, committed and answered. *)
Definition repeated_store : result t :=
  let* x := STQ_insert_sta (create 2 2) (1, 0) (demo_dec false true false 2) in
  let* s := STQ_insert_std (stores x) (1, 1) in
  let* s := STQ_deallocate_sta s in
  let* '(x, m, _) := STQ_deallocate_std (mk (loads x) s (global_action_id x)) (mk_none []) [] true 0 7 (demo_store 8192 true) in
  let* s := answer_all (none_sent m) (stores x) in
  Ok (mk (loads x) s (global_action_id x)).

(** The stub calls back before the store queue has noted that the access is a single line:
    the write is never complete, and the store never leaves. *)
Lemma repeater_must_not_answer_at_once :
  wp repeated_store (λ x, STQ_num (stores x) = 0 ∧ STQ_senior_num (stores x) = 1 ∧ STQ_deallocate_senior x = Ok x).
Proof. vm_compute. done. Qed.

Lemma store_leaves_iff_answered_witness : let s := stores demo_state.1 in STQ_num s < STQ_senior_num s ∧
  wp (aget (STQ s) (STQ_senior_head s)) (λ e, wp (STQ_deallocate_senior demo_state.1) (λ x',
    STQ_senior_num (stores x') = STQ_senior_num s - 1 ↔
    ∀ q, q ∈ unanswered demo_state.2 → r_STQ_index (q_req q) = STQ_senior_head s → r_action_id (q_req q) = s_action_id e → part_of q = None)) ∧
  let s := stores none_state.1 in STQ_num s < STQ_senior_num s ∧
  wp (aget (STQ s) (STQ_senior_head s)) (λ e, wp (STQ_deallocate_senior none_state.1) (λ x',
    STQ_senior_num (stores x') = STQ_senior_num s - 1 ↔
    ∀ q, q ∈ unanswered none_state.2 → r_STQ_index (q_req q) = STQ_senior_head s → r_action_id (q_req q) = s_action_id e → part_of q = None)).
Proof.
  split; [vm_compute; reflexivity|split; [|split; [vm_compute; reflexivity|]]]; [|
    apply (store_leaves_iff_answered true 0 2 2 (mk_none []) none_state (mk_lists [] []) ltac:(lia) ltac:(lia) ltac:(vm_compute; exact I) ltac:(vm_compute; reflexivity) none_reached);
    vm_compute; reflexivity].
  apply (store_leaves_iff_answered true 0 2 2 demo_pool demo_state (mk_lists [] []) ltac:(lia) ltac:(lia) ltac:(vm_compute; exact I) ltac:(vm_compute; reflexivity) demo_reached);
    vm_compute; reflexivity.
Defined.

End lsq_run.
