(* ===== verification/ROB.v ===== *)
(** * ROB: the reorder buffer of commit-DPM.cpp

    A ring of the uops in flight, one entry for a fused set of them.  Entries join at the
    tail, leave at the head when they commit and at the tail when they are squashed.  The
    entry of a fused set points to the oldest of its members that has not committed. *)

From S2P Require Import Prelude Misc CacheHeap OracleDeps Uops.

Module rob.
Import uops.

(** [ROB_index] is alloc.ROB_index of the uops.
    Source: src/xiosim/ZPIPE-commit/commit-DPM.cpp:51-55 core_commit_DPM_t. *)
Record t : Type := mk {
  ROB_size : Z;
  ROB : list (option ptr);
  ROB_head : Z;
  ROB_tail : Z;
  ROB_num : Z;
  ROB_eff_num : Z;
  ROB_index : gmap ptr Z
}.

(** Source: src/xiosim/ZPIPE-commit/commit-DPM.cpp:92-102 core_commit_DPM_t. *)
Definition create (size : Z) : t := mk size (replicate (Z.to_nat size) None) 0 0 0 0 ∅.

Definition index_of (x : t) (p : ptr) : Z := default (-1) (ROB_index x !! p).
Definition set_index (p : ptr) (i : Z) (x : t) : t :=
  mk (ROB_size x) (ROB x) (ROB_head x) (ROB_tail x) (ROB_num x) (ROB_eff_num x) (<[p := i]> (ROB_index x)).

(** Source: src/xiosim/ZPIPE-commit/commit-DPM.cpp:723-726 ROB_available. *)
Definition ROB_available (x : t) : bool := ROB_num x <? ROB_size x.

(** Source: src/xiosim/ZPIPE-commit/commit-DPM.cpp:728-728 ROB_empty. *)
Definition ROB_empty (x : t) : bool := 0 =? ROB_num x.

(** Source: src/xiosim/ZPIPE-commit/commit-DPM.cpp:732-739 ROB_insert. *)
Definition ROB_insert (x : t) (p : ptr) : result t :=
  let* l := aset (ROB x) (ROB_tail x) (Some p) in
  Ok (mk (ROB_size x) l (ROB_head x) (modinc (ROB_tail x) (ROB_size x)) (ROB_num x + 1) (ROB_eff_num x + 1) (<[p := ROB_tail x]> (ROB_index x))).

(** Source: src/xiosim/ZPIPE-commit/commit-DPM.cpp:741-744 ROB_fuse_insert. *)
Definition ROB_fuse_insert (x : t) (p : ptr) (d : decode_t) : result t :=
  let* hd := of_option NullDeref (fusion_head d) in
  Ok (mk (ROB_size x) (ROB x) (ROB_head x) (ROB_tail x) (ROB_num x) (ROB_eff_num x + 1) (<[p := index_of x hd]> (ROB_index x))).

(** Source: src/xiosim/ZPIPE-commit/commit-DPM.cpp:58-61 ROB_back. *)
Definition ROB_back (x : t) : result (option ptr) := aget (ROB x) (moddec (ROB_tail x) (ROB_size x)).

(** Source: src/xiosim/ZPIPE-commit/commit-DPM.cpp:746-753 ROB_pop_back. *)
Definition ROB_pop_back (x : t) : result t :=
  let back_ind := moddec (ROB_tail x) (ROB_size x) in
  let* l := aset (ROB x) back_ind None in
  let* _ := guard_or (0 <=? ROB_num x - 1) AssertFail in
  let* _ := guard_or (0 <=? ROB_eff_num x) AssertFail in
  Ok (mk (ROB_size x) l (ROB_head x) back_ind (ROB_num x - 1) (ROB_eff_num x) (ROB_index x)).

(** Source: src/xiosim/ZPIPE-commit/commit-DPM.cpp:755-762 ROB_pop_front. *)
Definition ROB_pop_front (x : t) : result t :=
  let* l := aset (ROB x) (ROB_head x) None in
  let* _ := guard_or (0 <=? ROB_num x - 1) AssertFail in
  let* _ := guard_or (0 <=? ROB_eff_num x - 1) AssertFail in
  Ok (mk (ROB_size x) l (modinc (ROB_head x) (ROB_size x)) (ROB_tail x) (ROB_num x - 1) (ROB_eff_num x - 1) (ROB_index x)).

(** The entry at the head goes over to the next member of its fused set.
    Source: src/xiosim/ZPIPE-commit/commit-DPM.cpp:454-456 step. *)
Definition ROB_pass_on (x : t) (next : option ptr) : result t :=
  let* l := aset (ROB x) (ROB_head x) next in
  let* _ := guard_or (0 <=? ROB_eff_num x - 1) AssertFail in
  Ok (mk (ROB_size x) l (ROB_head x) (ROB_tail x) (ROB_num x) (ROB_eff_num x - 1) (ROB_index x)).

(** A uop less, while a fused set is squashed.
    Source: src/xiosim/ZPIPE-commit/commit-DPM.cpp:686-687 recover. *)
Definition drop_eff (x : t) : t :=
  mk (ROB_size x) (ROB x) (ROB_head x) (ROB_tail x) (ROB_num x) (ROB_eff_num x - 1) (ROB_index x).

(** ** The ring is a list *)

(** [gs]: for each entry, oldest first, the members of the fused set (or the lone uop) that
    are in flight; [n] uops are counted in all. *)
Record ok (x : t) (gs : list (list ptr)) (n : Z) : Prop := {
  ok_ring : ring.ring_ok (ROB x) (ROB_size x) (ROB_head x) (ROB_num x) (ROB_tail x);
  ok_window : ring.window (ROB x) (ROB_size x) (ROB_head x) (ROB_num x) = head <$> gs;
  ok_free : ring.free (λ e, e = None) (ROB x) (ROB_size x) (ROB_head x) (ROB_num x);
  ok_sets : Forall (λ g, g ≠ []) gs;
  ok_index : ∀ k g p, gs !! k = Some g → p ∈ g → index_of x p = ring.slot (ROB_size x) (ROB_head x) (Z.of_nat k);
  ok_eff : ROB_eff_num x = n
}.

Lemma rob_create_ok size : 1 ≤ size < 2 ^ 31 → ok (create size) [] 0.
Proof.
  intros Hs. split; simpl; try done; [by apply ring.ring_create|].
  intros j e _ G. apply aget_inv in G as [_ G]. by apply lookup_replicate in G as [-> _].
Qed.

Lemma index_set_eq x p i : index_of (set_index p i x) p = i.
Proof. unfold index_of, set_index. simpl. by rewrite lookup_insert_eq. Qed.

Lemma index_set_ne x p i q : q ≠ p → index_of (set_index p i x) q = index_of x q.
Proof. intros. unfold index_of, set_index. simpl. by rewrite lookup_insert_ne. Qed.

Section ops.
Variables (x : t) (gs : list (list ptr)) (n : Z).
Hypothesis Hok : ok x gs n.

Lemma rob_num : ROB_num x = Z.of_nat (length gs).
Proof. pose proof (ring.window_length _ _ _ _ _ (ok_ring _ _ _ Hok)) as Hl. rewrite (ok_window _ _ _ Hok), length_fmap in Hl. done. Qed.

Lemma rob_room : ROB_available x = true ↔ Z.of_nat (length gs) < ROB_size x.
Proof. unfold ROB_available. rewrite Z.ltb_lt, rob_num. done. Qed.

Lemma rob_empty : ROB_empty x = true ↔ gs = [].
Proof. unfold ROB_empty. rewrite Z.eqb_eq, rob_num. destruct gs; simpl; split; (done || lia). Qed.

(** A uop that has left may forget its index. *)
Lemma set_index_ok p i : (∀ g, g ∈ gs → p ∉ g) → ok (set_index p i x) gs n.
Proof.
  intros Hp. destruct Hok as [? ? ? ? Hi ?]. split; try done. intros k g q Hk Hq. rewrite index_set_ne; [by eapply Hi|].
  intros ->. apply (Hp g); [by eapply list_elem_of_lookup_2|done].
Qed.

Lemma drop_eff_ok : ok (drop_eff x) gs (n - 1).
Proof. destruct Hok as [? ? ? ? ? <-]. by split. Qed.

Lemma ROB_insert_ok p : ROB_available x = true → (∀ g, g ∈ gs → p ∉ g) →
  wp (ROB_insert x p) (λ x', ok x' (gs ++ [[p]]) (n + 1) ∧ ROB_size x' = ROB_size x).
Proof.
  intros Hav Hp. pose proof (proj1 rob_room Hav) as Hroom. pose proof rob_num as Hnum. apply Z.ltb_lt in Hav.
  destruct Hok as [Hr Hw Hf Hg Hi He]. pose proof Hr as [Hs Hl Hn Hh Ht].
  assert (0 ≤ ROB_tail x < ROB_size x) as Hti by (rewrite Ht; by apply ring.slot_in_range).
  destruct (ring.window_push _ _ _ _ _ (Some p) Hr Hav) as [Hr' Hw'].
  unfold ROB_insert. rewrite aset_ok by lia. cbn [rbind wp]. split; [|done]. split; simpl; [done| | | | |lia].
  - by rewrite Hw', Hw, fmap_app.
  - by apply (ring.free_push _ _ _ _ _ _ _ Hr).
  - apply list.Forall_app. split; [done|]. by repeat constructor.
  - intros k g q Hk Hq. unfold index_of. simpl. apply lookup_app_Some in Hk as [Hk|[Hk1 Hk]].
    + rewrite lookup_insert_ne; [by eapply Hi|]. intros ->. apply (Hp g); [by eapply list_elem_of_lookup_2|done].
    + apply list_lookup_singleton_Some in Hk as [Hk <-]. apply list_elem_of_singleton in Hq as ->. rewrite lookup_insert_eq. simpl.
      rewrite Ht, Hnum. f_equal. lia.
Qed.

(** An empty buffer has a null pointer at its back. *)
Lemma ROB_back_ok : ROB_back x = Ok (list.last gs ≫= head).
Proof.
  pose proof rob_num as Hnum. destruct Hok as [Hr Hw Hf Hg Hi He]. pose proof Hr as [Hs Hl Hn Hh Ht]. unfold ROB_back.
  destruct (list.last gs) as [g|] eqn:El.
  - apply last_Some in El as [gs' E]. rewrite E in *. rewrite length_app in Hnum. simpl in Hnum.
    destruct (ring.window_squash _ _ _ _ _ Hr) as (_ & e & -> & Hw'); [lia|]. rewrite Hw, fmap_app in Hw'. by apply app_inj_tail in Hw' as [_ <-].
  - apply last_None in El. rewrite El in *. simpl in Hnum. rewrite Ht, ring.moddec_slot by done.
    destruct (ring.slot_get _ _ _ _ _ (ROB_num x - 1) Hr) as (e & _ & G). rewrite G. f_equal.
    apply (Hf (ROB_size x - 1) e); [lia|]. rewrite <- G. f_equal. rewrite Hnum. unfold ring.slot.
    replace (ROB_head x + (ROB_size x - 1)) with (ROB_head x + (0 - 1) + 1 * ROB_size x) by lia. by rewrite Z.mod_add by lia.
Qed.

End ops.

Lemma ROB_fuse_insert_ok x gs g p d hd n : ok x (gs ++ [g]) n → fusion_head d = Some hd → hd ∈ g → (∀ g', g' ∈ gs ++ [g] → p ∉ g') →
  wp (ROB_fuse_insert x p d) (λ x', ok x' (gs ++ [g ++ [p]]) (n + 1) ∧ ROB_size x' = ROB_size x).
Proof.
  intros [Hr Hw Hf Hg Hi He] E Hhd Hp. unfold ROB_fuse_insert. rewrite E. cbn [of_option rbind wp]. split; [|done].
  apply list.Forall_app in Hg as [Hg1 Hg2]. apply list.Forall_cons in Hg2 as [Hg2 _]. split; simpl; try done; [| | |lia].
  - rewrite Hw, !fmap_app. by destruct g.
  - apply list.Forall_app. split; [done|]. constructor; [by destruct g|done].
  - assert (∀ k g', (gs ++ [g]) !! k = Some g' → ∀ q, q ∈ g' → q ≠ p) as Hne.
    { intros k g' Hk q Hq ->. apply (Hp g'); [by eapply list_elem_of_lookup_2|done]. }
    assert ((gs ++ [g]) !! length gs = Some g) as Hlast by (by rewrite lookup_app_r, Nat.sub_diag).
    intros k g' q Hk Hq. unfold index_of at 1. simpl. apply lookup_app_Some in Hk as [Hk|[Hk1 Hk]].
    + assert ((gs ++ [g]) !! k = Some g') as Hk' by by apply lookup_app_l_Some. rewrite lookup_insert_ne by (by apply not_eq_sym, (Hne k g')). by apply (Hi k g').
    + apply list_lookup_singleton_Some in Hk as [Hk <-]. assert (k = length gs) as -> by lia. apply elem_of_app in Hq as [Hq|Hq].
      * rewrite lookup_insert_ne by (by apply not_eq_sym, (Hne _ g Hlast)). by apply (Hi _ g).
      * apply list_elem_of_singleton in Hq as ->. rewrite lookup_insert_eq. simpl. by apply (Hi _ g).
Qed.

Lemma ROB_pop_back_ok x gs g n : ok x (gs ++ [g]) n → 0 ≤ n → wp (ROB_pop_back x) (λ x', ok x' gs n ∧ ROB_size x' = ROB_size x).
Proof.
  intros Hok Hn0. pose proof (rob_num _ _ _ Hok) as Hnum. rewrite length_app in Hnum. simpl in Hnum.
  destruct Hok as [Hr Hw Hf Hg Hi He]. pose proof Hr as [Hs Hl Hn Hh Ht].
  destruct (ring.window_squash _ _ _ _ _ Hr) as (Hr' & e & G & Hw'); [lia|]. rewrite Hw, fmap_app in Hw'. apply app_inj_tail in Hw' as [Hw' _].
  assert (moddec (ROB_tail x) (ROB_size x) = ring.slot (ROB_size x) (ROB_head x) (ROB_num x - 1)) as Eb by (rewrite Ht; by apply ring.moddec_slot).
  pose proof (ring.slot_in_range (ROB_size x) (ROB_head x) Hs (ROB_num x - 1)) as Hb. rewrite Eb in Hr'.
  unfold ROB_pop_back. rewrite Eb, aset_ok by lia. cbn [rbind]. rewrite !(proj2 (Z.leb_le _ _)) by lia. cbn [guard_or rbind wp].
  split; [|done]. split; simpl; [by destruct Hr'; split; rewrite ?length_insert| | | | |done].
  - rewrite (ring.window_insert_out _ _ _ _ _ _ _ Hr') by lia. done.
  - intros j e' Hj G'. destruct (decide (j = ROB_num x - 1)) as [->|Hne].
    + apply aget_inv in G' as [_ G']. rewrite list_lookup_insert_eq in G' by lia. by injection G' as <-.
    + apply (Hf j e' ltac:(lia)). rewrite <- G'. symmetry. eapply aget_aset_ne; [apply aset_ok; lia|].
      intros E. apply Hne. eapply (ring.slot_inj (ROB_size x) (ROB_head x) Hs); [lia|lia|done].
  - by apply list.Forall_app in Hg as [? _].
  - intros k g' q Hk Hq. apply (Hi k g'); [by apply lookup_app_l_Some|done].
Qed.

Lemma ROB_pop_front_ok x gs g n : ok x (g :: gs) n → 1 ≤ n → wp (ROB_pop_front x) (λ x', ok x' gs (n - 1) ∧ ROB_size x' = ROB_size x).
Proof.
  intros Hok Hn1. pose proof (rob_num _ _ _ Hok) as Hnum. simpl in Hnum. destruct Hok as [Hr Hw Hf Hg Hi He]. pose proof Hr as [Hs Hl Hn Hh Ht].
  destruct (ring.window_pop _ _ _ _ _ Hr) as (Hr' & e & G & Hw'); [lia|]. rewrite Hw in Hw'. simpl in Hw'. injection Hw' as Ee Hw'.
  unfold ROB_pop_front. rewrite aset_ok by lia. cbn [rbind]. rewrite !(proj2 (Z.leb_le _ _)) by lia. cbn [guard_or rbind wp].
  split; [|done]. split; simpl; [by destruct Hr'; split; rewrite ?length_insert| | | | |lia].
  - assert (ROB_head x = ring.slot (ROB_size x) (modinc (ROB_head x) (ROB_size x)) (ROB_size x - 1)) as Eh.
    { rewrite ring.slot_shift by done. rewrite <- (ring.slot_full (ROB_size x) (ROB_head x)) at 1 by done. f_equal. lia. }
    rewrite Eh at 1. by rewrite (ring.window_insert_out _ _ _ _ _ _ _ Hr') by lia.
  - by apply (ring.free_pop _ _ _ _ _ _ _ Hr); [lia| |].
  - by apply list.Forall_cons in Hg as [_ ?].
  - intros k g' q Hk Hq. rewrite ring.slot_shift by done. change (index_of x q = ring.slot (ROB_size x) (ROB_head x) (Z.of_nat k + 1)).
    rewrite (Hi (S k) g' q) by done. f_equal. lia.
Qed.

Lemma ROB_pass_on_ok x gs p q g n : ok x ((p :: q :: g) :: gs) n → 1 ≤ n →
  wp (ROB_pass_on x (Some q)) (λ x', ok x' ((q :: g) :: gs) (n - 1) ∧ ROB_size x' = ROB_size x).
Proof.
  intros Hok Hn1. pose proof (rob_num _ _ _ Hok) as Hnum. simpl in Hnum. destruct Hok as [Hr Hw Hf Hg Hi He]. pose proof Hr as [Hs Hl Hn Hh Ht].
  destruct (ring.window_insert _ _ _ _ _ 0 (Some q) Hr) as [Hr' Hw']; [lia|].
  unfold ROB_pass_on. rewrite aset_ok by lia. cbn [rbind]. rewrite (proj2 (Z.leb_le _ _)) by lia. cbn [guard_or rbind wp].
  rewrite (ring.slot_0 _ _ Hh) in *. split; [|done]. split; simpl; [done| | | | |lia].
  - by rewrite Hw', Hw.
  - rewrite <- (ring.slot_0 (ROB_size x) (ROB_head x)) at 1 by done. by apply (ring.free_insert _ _ _ _ _ _ _ _ Hr); [lia|].
  - by apply list.Forall_cons in Hg as [_ ?]; constructor.
  - intros [|k] g' r Hk Hq; simpl in Hk; [|by apply (Hi (S k) g')]. injection Hk as <-. apply (Hi 0%nat (p :: q :: g)); [done|by right].
Qed.

(** The oldest entry. *)
Lemma ROB_front_ok x gs p g n : ok x ((p :: g) :: gs) n →
  aget (ROB x) (ROB_head x) = Ok (Some p) ∧ 0 < ROB_num x ∧ index_of x p = ROB_head x.
Proof.
  intros Hok. pose proof (rob_num _ _ _ Hok) as Hnum. simpl in Hnum. destruct Hok as [Hr Hw _ _ Hi _]. pose proof Hr as [Hs _ _ Hh _].
  destruct (ring.window_pop _ _ _ _ _ Hr) as (_ & e & G & Hw'); [lia|]. rewrite Hw in Hw'. simpl in Hw'. injection Hw' as <- _. split; [done|]. split; [lia|].
  rewrite (Hi 0%nat (p :: g) p) by (done || left). by apply ring.slot_0.
Qed.

End rob.
