(* ===== verification/Backend.v ===== *)
(** * Backend: allocation, commit and recovery

    The operations of alloc-DPM.cpp and commit-DPM.cpp on single uops, over the reorder
    buffer, the reservation stations, the load and store queues and the ready queues: a uop
    is dispatched, goes to a functional unit, is committed, or is squashed by a recovery. *)

From S2P Require Import Prelude Misc CacheHeap OracleDeps Uops ROB RS LSQ.

Module backend.
Import uops.

(** ** State *)

(** Source: src/xiosim/ZPIPE-exec/exec-DPM.cpp:15-21 readyQ_node_t. *)
Record node : Type := mk_node { n_uop : ptr; n_uop_seq : Z; n_action_id : Z; n_when_assigned : Z }.

(** The state of the stages behind decode; [global_action_id] of the core is kept with the
    load and store queues, [readyQ] has a queue for each port.
    Source: src/xiosim/ZPIPE-alloc/alloc-DPM.cpp:39-42 core_alloc_DPM_t. *)
Record t : Type := mk {
  mem : heap;
  rob : rob.t;
  res : rs.t;
  lsq : lsq.t;
  readyQ : list (list node);
  port_loading : list Z;
  drain_in_progress : bool
}.

(** What the configuration says; [ports fu] are the ports that have the functional unit. *)
Record knobs : Type := mk_knobs {
  ports : Z → list Z;
  num_exec_ports : Z;
  drain_flush : bool;
  branch_limit : Z;
  DL1_rep_req : bool;
  asid : Z
}.

Definition set_mem (h : heap) (c : t) : t := mk h (rob c) (res c) (lsq c) (readyQ c) (port_loading c) (drain_in_progress c).
Definition set_rob (x : rob.t) (c : t) : t := mk (mem c) x (res c) (lsq c) (readyQ c) (port_loading c) (drain_in_progress c).
Definition set_res (x : rs.t) (c : t) : t := mk (mem c) (rob c) x (lsq c) (readyQ c) (port_loading c) (drain_in_progress c).
Definition set_lsq (x : lsq.t) (c : t) : t := mk (mem c) (rob c) (res c) x (readyQ c) (port_loading c) (drain_in_progress c).
Definition set_readyQ (x : list (list node)) (c : t) : t := mk (mem c) (rob c) (res c) (lsq c) x (port_loading c) (drain_in_progress c).
Definition set_loading (x : list Z) (c : t) : t := mk (mem c) (rob c) (res c) (lsq c) (readyQ c) x (drain_in_progress c).
Definition set_drain (x : bool) (c : t) : t := mk (mem c) (rob c) (res c) (lsq c) (readyQ c) (port_loading c) x.

Definition upd (c : t) (p : ptr) (f : uop → uop) : result t := let* h := upd_uop (mem c) p f in Ok (set_mem h c).

Definition on_loads (f : lsq.ldq → result lsq.ldq) (c : t) : result t :=
  let x := lsq c in let* q := f (lsq.loads x) in Ok (set_lsq (lsq.mk q (lsq.stores x) (lsq.global_action_id x)) c).
Definition on_stores (f : lsq.stq → result lsq.stq) (c : t) : result t :=
  let x := lsq c in let* s := f (lsq.stores x) in Ok (set_lsq (lsq.mk (lsq.loads x) s (lsq.global_action_id x)) c).

(** Source: src/xiosim/zesto-core.cpp:118-121 new_action_id. *)
Definition new_action_id (c : t) : Z * t :=
  let x := lsq c in let g := lsq.next_action_id (lsq.global_action_id x) in (g, set_lsq (lsq.mk (lsq.loads x) (lsq.stores x) g) c).

(** ** Allocation *)

(** May [u] not enter the reservation stations?  NOPs, traps, fences and signals go
    straight to the reorder buffer.
    Source: src/xiosim/ZPIPE-alloc/alloc-DPM.cpp:226-228 step. *)
Definition needs_RS (u : uop) (m : Mop) : bool :=
  negb (is_nop (dec u)) && negb (is_trap (m_decode m)) && negb (is_lfence (dec u)) && negb (is_sfence (dec u)) &&
  negb (lsq.is_uop_helix_signal (dec u) (orc u)).

(** Source: src/xiosim/ZPIPE-alloc/alloc-DPM.cpp:13-21 alloc_stall_t. *)
Inductive alloc_stall : Set := ASTALL_ROB | ASTALL_LDQ | ASTALL_STQ | ASTALL_RS.

(** Source: src/xiosim/ZPIPE-alloc/alloc-DPM.cpp:173-207 step. *)
Definition stall_reason (c : t) (u : uop) : option alloc_stall :=
  let d := dec u in
  if (negb (in_fusion d) || bool_decide (fusion_head d ≠ None)) && negb (rob.ROB_available (rob c)) then Some ASTALL_ROB
  else if (is_load d || is_lfence d) && negb (lsq.LDQ_available (lsq.loads (lsq c))) then Some ASTALL_LDQ
  else if (is_sta d || is_sfence d) && negb (lsq.STQ_available (lsq.stores (lsq c))) then Some ASTALL_STQ
  else if negb (rs.RS_available (res c)) && negb (is_nop d) && negb (is_lfence d) && negb (is_sfence d) && negb (lsq.is_uop_helix_signal d (orc u))
  then Some ASTALL_RS else None.

Definition lone_or_head (d : decode_t) : bool := negb (in_fusion d) || is_fusion_head d.

(** Source: src/xiosim/ZPIPE-alloc/alloc-DPM.cpp:211-215 step. *)
Definition enter_ROB (c : t) (p : ptr) (d : decode_t) : result t :=
  let* x := if lone_or_head d then rob.ROB_insert (rob c) p else rob.ROB_fuse_insert (rob c) p d in Ok (set_rob x c).

(** Source: src/xiosim/ZPIPE-alloc/alloc-DPM.cpp:217-223 step. *)
Definition enter_LSQ (c : t) (p : ptr) (d : decode_t) : result t :=
  if is_load d || is_lfence d then let* x := lsq.LDQ_insert (lsq c) p d in Ok (set_lsq x c)
  else if is_sta d || is_sfence d then let* x := lsq.STQ_insert_sta (lsq c) p d in Ok (set_lsq x c)
  else if is_std d then on_stores (λ s, lsq.STQ_insert_std s p) c
  else Ok c.

(** Source: src/xiosim/ZPIPE-alloc/alloc-DPM.cpp:237-247 step.
    The first of the least loaded ports. *)
Fixpoint least_loaded (loading : list Z) (ps : list Z) (min_load index : Z) : result Z :=
  match ps with
  | [] => Ok index
  | port :: ps =>
      let* n := aget loading port in
      if n <? min_load then least_loaded loading ps n port else least_loaded loading ps min_load index
  end.
(** Source: src/xiosim/ZPIPE-alloc/alloc-DPM.cpp:230-249 step. *)
Definition bind_port (k : knobs) (loading : list Z) (d : decode_t) : result Z :=
  match ports k (FU_class d) with [port] => Ok port | ps => least_loaded loading ps (2 ^ 31 - 1) (-1) end.

(** Source: src/xiosim/ZPIPE-alloc/alloc-DPM.cpp:252-256 step. *)
Definition enter_RS (c : t) (p : ptr) (d : decode_t) : result t :=
  let* x := if lone_or_head d then rs.RS_insert (res c) p d else rs.RS_fuse_insert (res c) p d in Ok (set_res x c).

(** The uop takes its [j]th input from [parent], and joins its list of consumers.
    Source: src/xiosim/ZPIPE-alloc/alloc-DPM.cpp:265-281 step. *)
Definition link_input (h : heap) (p : ptr) (j : Z) (parent : option ptr) : result heap :=
  let* u := uop_at h p in
  let* l := aset (idep_uop (exe u)) j parent in
  let* h := upd_uop h p (set_idep l) in
  match parent with
  | None => Ok h
  | Some q => upd_uop h q (λ v, set_odep ((p, j) :: odep_uop (exe v)) v)
  end.
(** [parents]: the oracle's idep_uop of the uop.
    Source: src/xiosim/ZPIPE-alloc/alloc-DPM.cpp:260-282 step. *)
Fixpoint link_inputs (h : heap) (p : ptr) (j : Z) (parents : list (option ptr)) : result heap :=
  match parents with [] => Ok h | o :: os => let* h := link_input h p j o in link_inputs h p (j + 1) os end.

(** The readiness of an input.
    Source: src/xiosim/ZPIPE-alloc/alloc-DPM.cpp:299-313 step. *)
Definition read_input (h : heap) (now j : Z) (u : uop) : result uop :=
  let* parent := aget (idep_uop (exe u)) j in
  match parent with
  | Some q =>
      let* v := uop_at h q in
      let* it := aset (when_itag_ready (tim u)) j (when_otag_ready (tim v)) in
      let u := set_itag it u in
      if ovalue_valid (exe v) then
        let* iv := aset (when_ival_ready (tim u)) j (when_completed (tim v)) in
        let* vv := aset (ivalue_valid (exe u)) j true in
        Ok (set_ivalue vv (set_ival iv u))
      else Ok u
  | None =>
      let* it := aset (when_itag_ready (tim u)) j now in
      let* iv := aset (when_ival_ready (tim u)) j now in
      let* vv := aset (ivalue_valid (exe u)) j true in
      Ok (set_ivalue vv (set_ival iv (set_itag it u)))
  end.
(** Source: src/xiosim/ZPIPE-alloc/alloc-DPM.cpp:296-317 step. *)
Definition scoreboard (h : heap) (now : Z) (u : uop) : result uop :=
  let* r := for_range 0 MAX_IDEPS (λ j a,
    let* u := read_input h now j a.1 in
    let* w := aget (when_itag_ready (tim u)) j in
    Ok (u, if a.2 <? w then w else a.2)) (u, 0) in
  Ok (set_ready r.2 r.1).

(** In age order.
    Source: src/xiosim/ZPIPE-exec/exec-DPM.cpp:548-573 insert_ready_uop. *)
Fixpoint insert_node (n : node) (l : list node) : list node :=
  match l with [] => [n] | x :: l' => if n_uop_seq x <? n_uop_seq n then x :: insert_node n l' else n :: l end.

(** Source: src/xiosim/ZPIPE-exec/exec-DPM.cpp:530-574 insert_ready_uop. *)
Definition insert_ready_uop (k : knobs) (c : t) (p : ptr) (now : Z) : result t :=
  let* u := uop_at (mem c) p in
  let port := port_assignment (alc u) in
  let* _ := guard_or ((0 <=? port) && (port <? num_exec_ports k)) AssertFail in
  let* _ := guard_or (when_completed (tim u) =? TICK_T_MAX) AssertFail in
  let* _ := guard_or (when_exec (tim u) =? TICK_T_MAX) AssertFail in
  let* _ := guard_or (when_issued (tim u) =? TICK_T_MAX) AssertFail in
  let* _ := guard_or (negb (in_readyQ (exe u))) AssertFail in
  let '(id, c) := new_action_id c in
  let* q := amodify (readyQ c) port (insert_node (mk_node p (uop_seq (dec u)) id now)) in
  upd (set_readyQ q c) p (set_queued true id).

(** Source: src/xiosim/ZPIPE-alloc/alloc-DPM.cpp:230-319 step. *)
Definition to_exec (k : knobs) (c : t) (p : ptr) (d : decode_t) (parents : list (option ptr)) (now : Z) : result t :=
  let* port := bind_port k (port_loading c) d in
  let* c := upd c p (set_port port) in
  let* l := amodify (port_loading c) port (Z.add 1) in
  let* c := enter_RS (set_loading l c) p d in
  let* h := link_inputs (mem c) p 0 parents in
  let* u := uop_at h p in
  let* u := scoreboard h now u in
  let* c := upd (set_mem h c) p (λ _, u) in
  if when_ready (tim u) <? TICK_T_MAX then insert_ready_uop k c p now else Ok c.

(** Source: src/xiosim/ZPIPE-alloc/alloc-DPM.cpp:332-345 step. *)
Definition done_at_once (c : t) (p : ptr) (u : uop) (now : Z) : result t :=
  let d := dec u in
  let signal := lsq.is_uop_helix_signal d (orc u) in
  let* c := upd c p (λ u,
    let u := set_issued now (set_ready now u) in
    let u := if negb (is_lfence d) then set_completed now u else u in
    if is_lfence d || is_sfence d || signal || is_nop d then set_exec now u else u) in
  let* c := if signal && is_sta d then on_stores (λ s, lsq.STQ_set_addr s p (virt_addr (orc u))) c else Ok c in
  let* c := if signal && is_std d then on_stores (λ s, lsq.STQ_set_data s p) c else Ok c in
  let* _ := guard_or (negb (is_load d)) AssertFail in
  Ok c.

(** A uop at the end of the allocation pipe; [Some] if it has to wait there.
    Source: src/xiosim/ZPIPE-alloc/alloc-DPM.cpp:171-348 step. *)
Definition dispatch (k : knobs) (c : t) (p : ptr) (parents : list (option ptr)) (now : Z) : result (t * option alloc_stall) :=
  let* u := uop_at (mem c) p in
  if negb (when_allocated (tim u) =? TICK_T_MAX) then Ok (c, None)
  else match stall_reason c u with
  | Some r => Ok (c, Some r)
  | None =>
      let* m := Mop_at (mem c) p.1 in
      let* c := enter_ROB c p (dec u) in
      let* c := enter_LSQ c p (dec u) in
      let* c := if needs_RS u m then to_exec k c p (dec u) parents now else done_at_once c p u now in
      let* c := upd c p (set_allocated now) in
      Ok (c, None)
  end.

(** Source: src/xiosim/ZPIPE-alloc/alloc-DPM.cpp:500-504 RS_deallocate. *)
Definition alloc_RS_deallocate (c : t) (port : Z) : result t :=
  let* n := aget (port_loading c) port in
  let* _ := guard_or (0 <? n) AssertFail in
  let* l := aset (port_loading c) port (n - 1) in
  Ok (set_loading l c).

(** ** Execution *)

(** A uop goes from the payload to its functional unit.
    Source: src/xiosim/ZPIPE-exec/exec-DPM.cpp:2152-2193 ALU_exec. *)
Definition go_to_ALU (c : t) (p : ptr) (now : Z) : result t :=
  let* u := uop_at (mem c) p in
  let* x := rs.leave (res c) (mem c) p (dec u) in
  let* c := alloc_RS_deallocate (set_res x c) (port_assignment (alc u)) in
  upd c p (set_exec now).

(** ** Recovery *)

Fixpoint remove_link (p : ptr) (j : Z) (l : list (ptr * Z)) : list (ptr * Z) :=
  match l with [] => [] | x :: l' => if decide (x = (p, j)) then l' else x :: remove_link p j l' end.

(** Source: src/xiosim/ZPIPE-commit/commit-DPM.cpp:608-631 undo_dependences. *)
Definition undo_input (h : heap) (p : ptr) (j : Z) : result heap :=
  let* u := uop_at h p in
  let* parent := aget (idep_uop (exe u)) j in
  match parent with
  | None => Ok h
  | Some q =>
      let* h := upd_uop h q (λ v, set_odep (remove_link p j (odep_uop (exe v))) v) in
      let* u := uop_at h p in
      let* l := aset (idep_uop (exe u)) j None in
      upd_uop h p (set_idep l)
  end.
(** Source: src/xiosim/ZPIPE-commit/commit-DPM.cpp:607-633 undo_dependences. *)
Definition undo_dependences (h : heap) (p : ptr) : result heap :=
  let* h := for_range 0 MAX_IDEPS (λ j h, undo_input h p j) h in
  let* u := uop_at h p in
  let* _ := guard_or (bool_decide (odep_uop (exe u) = [])) AssertFail in
  Ok h.

(** Source: src/xiosim/ZPIPE-commit/commit-DPM.cpp:648-659 squash_uop. *)
Definition squash_LSQ (c : t) (p : ptr) (u : uop) : result t :=
  let d := dec u in
  let allocated := negb (when_allocated (tim u) =? TICK_T_MAX) in
  if is_load d || is_lfence d then if allocated then on_loads (λ q, lsq.LDQ_squash q p) c else Ok c
  else if is_std d then if allocated then on_stores (λ s, lsq.STQ_squash_std s p) c else Ok c
  else if is_sta d || is_sfence d then if allocated then on_stores (λ s, lsq.STQ_squash_sta s p) c else Ok c
  else Ok c.

(** Source: src/xiosim/ZPIPE-commit/commit-DPM.cpp:635-662 squash_uop. *)
Definition squash_uop (c : t) (p : ptr) : result t :=
  let '(id, c) := new_action_id c in
  let* c := upd c p (set_action_id id) in
  let* u := uop_at (mem c) p in
  let* c := if (when_exec (tim u) =? TICK_T_MAX) && negb (port_assignment (alc u) =? -1)
            then alloc_RS_deallocate c (port_assignment (alc u)) else Ok c in
  let* c := if negb (rs.index_of (res c) p =? -1)
            then let* x := rs.RS_deallocate (res c) p (dec u) (when_exec (tim u)) in Ok (set_res x c) else Ok c in
  let* c := squash_LSQ c p u in
  let* h := undo_dependences (mem c) p in
  Ok (set_mem h c).

(** The members of a fused set from [p] back to the head; a flow has at most 64 uops.
    Source: src/xiosim/ZPIPE-commit/commit-DPM.cpp:685-690 recover. *)
Fixpoint squash_back (fuel : nat) (c : t) (p : ptr) : result t :=
  match fuel with
  | O => Fault Diverge
  | S n =>
      let* u := uop_at (mem c) p in
      let c := if negb (when_allocated (tim u) =? TICK_T_MAX) then set_rob (rob.drop_eff (rob c)) c else c in
      let* c := squash_uop c p in
      let* prev := get_fusion_prev (mem c) p in
      match prev with Some q => squash_back n c q | None => Ok c end
  end.

(** The youngest entry of the reorder buffer is squashed.
    Source: src/xiosim/ZPIPE-commit/commit-DPM.cpp:681-693 recover. *)
Definition squash_entry (c : t) (back : ptr) : result t :=
  let* u := uop_at (mem c) back in
  let* dead := if in_fusion (dec u) then get_fusion_tail (mem c) back else Ok back in
  let* c := squash_back 65 c dead in
  let* x := rob.ROB_pop_back (rob c) in
  Ok (set_rob x c).

(** From the youngest entry back to the one of a uop of macro-op [i] ([None]: to the end).
    Source: src/xiosim/ZPIPE-commit/commit-DPM.cpp:680-694 recover. *)
Fixpoint recover_loop (fuel : nat) (c : t) (i : option Z) : result t :=
  let* back := rob.ROB_back (rob c) in
  match back with
  | None => Ok c
  | Some p =>
      if decide (i = Some p.1) then Ok c
      else match fuel with O => Fault Diverge | S n => let* c := squash_entry c p in recover_loop n c i end
  end.

(** Source: src/xiosim/ZPIPE-commit/commit-DPM.cpp:668-695 recover. *)
Definition recover (k : knobs) (c : t) (i : Z) : result t :=
  if rob.ROB_num (rob c) =? 0 then Ok c
  else
    let* back := rob.ROB_back (rob c) in
    let* p := of_option NullDeref back in
    let c := if drain_flush k && negb (p.1 =? i) then set_drain true c else c in
    recover_loop (Z.to_nat (rob.ROB_size (rob c))) c (Some i).

(** Source: src/xiosim/ZPIPE-exec/exec-DPM.cpp:2652-2658 recover_check_assertions. *)
Definition recover_check_assertions (c : t) : result unit :=
  let* _ := guard_or (lsq.STQ_senior_num (lsq.stores (lsq c)) =? 0) AssertFail in
  let* _ := guard_or (lsq.STQ_num (lsq.stores (lsq c)) =? 0) AssertFail in
  let* _ := guard_or (lsq.LDQ_num (lsq.loads (lsq c)) =? 0) AssertFail in
  guard_or (rs.RS_num (res c) =? 0) AssertFail.

(** Source: src/xiosim/ZPIPE-commit/commit-DPM.cpp:697-721 recover. *)
Definition recover_all (c : t) : result t :=
  let* c := if 0 <? rob.ROB_num (rob c) then recover_loop (Z.to_nat (rob.ROB_size (rob c))) c None else Ok c in
  let* x := lsq.STQ_squash_senior (lsq c) in
  let c := set_lsq x c in
  let* _ := recover_check_assertions c in
  let* _ := guard_or (rob.ROB_num (rob c) =? 0) AssertFail in
  Ok c.

(** ** Commit *)

(** What the commit stage calls: the update of the predictor with the return of its state
    cache, and the methods of the oracle for a uop and for a macro-op that commits. *)
Class CommitEnv (E : Type) : Type := {
  ce_bpred_update : E → heap → Z → result E;
  ce_commit_uop : E → ptr → result E;
  ce_commit : E → Z → result E
}.

Section commit.
Context {M E : Type} `{lsq.StoreMem M} `{CommitEnv E}.

Definition flow_step (d : decode_t) : Z := if has_imm d then 3 else 1.

(** How far the uops of a macro-op have completed: -1 if all have.
    Source: src/xiosim/ZPIPE-commit/commit-DPM.cpp:375-395 step. *)
Fixpoint complete_loop (fuel : nat) (m : Mop) (now ci : Z) : result Z :=
  let* u := aget (m_uop m) ci in
  if when_completed (tim u) <=? now then
    let ci := ci + flow_step (dec u) in
    if flow_length (m_decode m) <=? ci then Ok (-1)
    else match fuel with O => Fault Diverge | S n => complete_loop n m now ci end
  else Ok ci.

(** Source: src/xiosim/ZPIPE-commit/commit-DPM.cpp:372-396 step. *)
Definition check_complete (c : t) (e : E) (i now : Z) : result (t * E) :=
  let* m := Mop_at (mem c) i in
  let ci := complete_index (m_commit m) in
  if ci =? -1 then Ok (c, e)
  else
    let* ci := complete_loop (Z.to_nat (flow_length (m_decode m))) m now ci in
    let* h := upd_Mop (mem c) i (set_complete_index ci) in
    if (ci =? -1) && bool_decide (bpred_update (m_fetch m) ≠ None) then
      let* e := ce_bpred_update e h i in
      let* h := upd_Mop h i (set_bpred_update None) in
      Ok (set_mem h c, e)
    else Ok (set_mem h c, e).

(** Source: src/xiosim/ZPIPE-commit/commit-DPM.cpp:408-418 step.
    [false]: a store finds no room in the caches. *)
Definition leave_LSQ (k : knobs) (c : t) (m : M) (p : ptr) (u : uop) (PC now : Z) : result (t * M * bool) :=
  let d := dec u in
  if is_load d || is_lfence d then let* c := on_loads (λ q, lsq.LDQ_deallocate q p) c in Ok (c, m, true)
  else if is_sta d then let* c := on_stores lsq.STQ_deallocate_sta c in Ok (c, m, true)
  else if is_std d || is_sfence d then
    let* '(x, m, b) := lsq.STQ_deallocate_std (lsq c) m (mem c) (DL1_rep_req k) (asid k) now (lsq.mk_store_uop p d (orc u) PC) in
    Ok (set_lsq x c, m, b)
  else Ok (c, m, true).

(** Source: src/xiosim/ZPIPE-commit/commit-DPM.cpp:435-458 step. *)
Definition leave_ROB (c : t) (p : ptr) (d : decode_t) : result t :=
  let* x := if negb (in_fusion d) || bool_decide (fusion_next d = None) then rob.ROB_pop_front (rob c)
            else rob.ROB_pass_on (rob c) (fusion_next d) in
  Ok (set_rob (rob.set_index p (-1) x) c).

(** Source: src/xiosim/zesto-oracle.cpp:551-557 core_oracle_t::commit_uop. *)
Fixpoint release_consumers (h : heap) (l : list (ptr * Z)) : result heap :=
  match l with
  | [] => Ok h
  | (q, j) :: l =>
      let* v := uop_at h q in
      let* d := aset (idep_uop (exe v)) j None in
      let* h := upd_uop h q (set_idep d) in
      release_consumers h l
  end.
(** Source: src/xiosim/zesto-oracle.cpp:549-566 core_oracle_t::commit_uop. *)
Definition commit_uop (c : t) (e : E) (p : ptr) : result (t * E) :=
  let* u := uop_at (mem c) p in
  let* h := release_consumers (mem c) (odep_uop (exe u)) in
  let* h := upd_uop h p (set_odep []) in
  let* e := ce_commit_uop e p in
  Ok (set_mem h c, e).

(** The last uop of a macro-op has committed.
    Source: src/xiosim/ZPIPE-commit/commit-DPM.cpp:524-572 step. *)
Definition check_times (m : Mop) : result unit :=
  let t := m_timing m in
  if has_rep (m_decode m) then
    let* u := aget (m_uop m) 0 in
    if BOM (dec u) then
      let* _ := guard_or (negb (when_fetched t =? TICK_T_MAX)) AssertFail in
      guard_or (negb (when_fetch_started t =? TICK_T_MAX)) AssertFail
    else Ok tt
  else if negb (is_trap (m_decode m)) then
    let* _ := guard_or (negb (when_commit_finished t =? TICK_T_MAX)) AssertFail in
    let* _ := guard_or (negb (when_fetched t =? TICK_T_MAX)) AssertFail in
    guard_or (negb (when_fetch_started t =? TICK_T_MAX)) AssertFail
  else Ok tt.

(** Source: src/xiosim/ZPIPE-commit/commit-DPM.cpp:483-585 step.
    [true]: a branch has committed. *)
Definition advance (c : t) (e : E) (p : ptr) (d : decode_t) : result (t * E * bool) :=
  let* m := Mop_at (mem c) p.1 in
  let ci := commit_index (m_commit m) + flow_step d in
  if flow_length (m_decode m) <=? ci then
    let* h := upd_Mop (mem c) p.1 (set_commit_index (-1)) in
    let* _ := check_times m in
    let* e := ce_commit e p.1 in
    Ok (set_mem h c, e, is_ctrl_Mop (m_decode m))
  else
    let* h := upd_Mop (mem c) p.1 (set_commit_index ci) in
    Ok (set_mem h c, e, false).

(** Source: src/xiosim/ZPIPE-commit/commit-DPM.cpp:12-21 commit_stall_t. *)
Inductive commit_stall : Set :=
  CSTALL_NOT_READY | CSTALL_PARTIAL | CSTALL_EMPTY | CSTALL_JECLEAR_INFLIGHT | CSTALL_MAX_BRANCHES | CSTALL_STQ.

(** The uop at the head of the reorder buffer, all of whose macro-op has completed.
    Source: src/xiosim/ZPIPE-commit/commit-DPM.cpp:398-585 step. *)
Definition retire_head (k : knobs) (c : t) (m : M) (e : E) (now : Z) : result (t * M * E * option (bool * bool)) :=
  let* back := aget (rob.ROB (rob c)) (rob.ROB_head (rob c)) in
  let* p := of_option NullDeref back in
  let* u := uop_at (mem c) p in
  let* mo := Mop_at (mem c) p.1 in
  let d := dec u in
  let* _ := guard_or (when_completed (tim u) <=? now) AssertFail in
  let* _ := guard_or (rob.index_of (rob c) p =? rob.ROB_head (rob c)) AssertFail in
  let* _ := guard_or (p.2 =? commit_index (m_commit mo)) AssertFail in
  let* h := if BOM d && (when_commit_started (m_timing mo) =? TICK_T_MAX) then upd_Mop (mem c) p.1 (set_commit_started now) else Ok (mem c) in
  let* '(c, m, b) := leave_LSQ k (set_mem h c) m p u (PC (m_fetch mo)) now in
  if negb b then Ok (c, m, e, None)
  else
    let* c := if is_load d then let '(id, c) := new_action_id c in upd c p (set_action_id id) else Ok c in
    let* h := if EOM d then upd_Mop (mem c) p.1 (set_commit_finished now) else Ok (mem c) in
    let* c := leave_ROB (set_mem h c) p d in
    let* _ := guard_or (is_trap (m_decode mo) || negb (when_exec (tim u) =? TICK_T_MAX)) AssertFail in
    let* '(c, e) := commit_uop c e p in
    let* '(c, e, br) := advance c e p d in
    Ok (c, m, e, Some (in_fusion d && bool_decide (fusion_next d ≠ None), br)).

(** One turn of the commit loop: why it stops, or whether the uop was the body of a fused set
    (it does not count) and whether a branch has committed.
    Source: src/xiosim/ZPIPE-commit/commit-DPM.cpp:348-594 step. *)
Definition commit_one (k : knobs) (c : t) (m : M) (e : E) (now branches : Z) : result (t * M * E * (commit_stall + bool * bool)) :=
  if rob.ROB_num (rob c) <=? 0 then Ok (c, m, e, inl CSTALL_EMPTY)
  else
    let* hd := aget (rob.ROB (rob c)) (rob.ROB_head (rob c)) in
    let* p := of_option NullDeref hd in
    let* mo := Mop_at (mem c) p.1 in
    if jeclear_in_flight (m_commit mo) then Ok (c, m, e, inl CSTALL_JECLEAR_INFLIGHT)
    else if is_ctrl_Mop (m_decode mo) && negb (branch_limit k =? 0) && (branch_limit k <=? branches) then Ok (c, m, e, inl CSTALL_MAX_BRANCHES)
    else
      let* _ := guard_or (negb (spec_mode (m_oracle mo))) AssertFail in
      let* '(c, e) := check_complete c e p.1 now in
      let* mo := Mop_at (mem c) p.1 in
      if complete_index (m_commit mo) =? -1 then
        let* '(c, m, e, r) := retire_head k c m e now in
        Ok (c, m, e, match r with Some x => inr x | None => inl CSTALL_STQ end)
      else Ok (c, m, e, inl (if complete_index (m_commit mo) =? 0 then CSTALL_NOT_READY else CSTALL_PARTIAL)).

(** Source: src/xiosim/ZPIPE-commit/commit-DPM.cpp:345-595 step.
    The turns of the loop: the bodies of fused sets do not count. *)
Fixpoint commit_loop (fuel : nat) (k : knobs) (c : t) (m : M) (e : E) (now count branches : Z) : result (t * M * E) :=
  if count <=? 0 then Ok (c, m, e)
  else match fuel with
  | O => Fault Diverge
  | S n =>
      let* '(c, m, e, r) := commit_one k c m e now branches in
      match r with
      | inl _ => Ok (c, m, e)
      | inr (body, br) => commit_loop n k c m e now (if body then count else count - 1) (if br then branches + 1 else branches)
      end
  end.

(** Source: src/xiosim/ZPIPE-commit/commit-DPM.cpp:340-343 step. *)
Fixpoint retire_stores (n : nat) (c : t) : result t :=
  match n with O => Ok c | S n => let* x := lsq.STQ_deallocate_senior (lsq c) in retire_stores n (set_lsq x c) end.

(** [stuck]: the watchdog has found a deadlock.
    Source: src/xiosim/ZPIPE-commit/commit-DPM.cpp:324-599 step. *)
Definition step (k : knobs) (width : Z) (stuck : bool) (c : t) (m : M) (e : E) (now : Z) : result (t * M * E) :=
  if stuck then Ok (c, m, e)
  else
    let* c := retire_stores (Z.to_nat width) c in
    commit_loop (Z.to_nat (width + rob.ROB_eff_num (rob c))) k c m e now width 0.

End commit.

End backend.
