(* ===== verification/BackHeap.v ===== *)
(** * BackHeap: fused sets, and writing to the heap of uops

    The stages behind decode hold the uops in flight in program order.  [sets] cuts a list
    of uops into its fused sets: a member of a set that is not its head joins the uop in
    front of it.

    What an update of one uop or macro-op leaves as it was; what the decoder and the oracle
    say of uops, which no stage behind them changes; the flow of a macro-op. *)

From S2P Require Import Prelude CacheHeap OracleDeps Uops Backend.

Module order.
Import uops.

Section sets.
Variable body : ptr → bool.
Implicit Types (l : list ptr) (gs : list (list ptr)).

Definition join (p : ptr) gs : list (list ptr) :=
  match gs with (q :: g) :: gs' => if body q then (p :: q :: g) :: gs' else [p] :: gs | _ => [p] :: gs end.
Fixpoint sets l : list (list ptr) := match l with [] => [] | p :: l => join p (sets l) end.

Lemma sets_ne l : Forall (λ g, g ≠ []) (sets l).
Proof.
  induction l as [|p l IH]; [constructor|]. simpl. destruct (sets l) as [|[|q g] gs]; simpl; [by repeat constructor|by constructor|].
  destruct (body q); [|by constructor]. apply list.Forall_cons in IH as [_ IH]. by constructor.
Qed.

Lemma sets_concat l : concat (sets l) = l.
Proof.
  induction l as [|p l IH]; [done|]. simpl. rewrite <- IH at 2. destruct (sets l) as [|[|q g] gs]; simpl; [done|done|].
  by destruct (body q).
Qed.

Lemma sets_nil l : sets l = [] → l = [].
Proof. intros E. by rewrite <- (sets_concat l), E. Qed.

(** The head of the first set. *)
Lemma sets_cons_inv p l : ∃ g gs, sets (p :: l) = (p :: g) :: gs.
Proof. simpl. destruct (sets l) as [|[|q g] gs]; simpl; eauto. destruct (body q); eauto. Qed.

Lemma sets_cons_new p l : (∀ q, head l = Some q → body q = false) → sets (p :: l) = [p] :: sets l.
Proof.
  intros Hl. destruct l as [|q l]; [done|]. destruct (sets_cons_inv q l) as (g & gs & E). change (join p (sets (q :: l)) = [p] :: sets (q :: l)).
  rewrite E. simpl. by rewrite Hl.
Qed.

Lemma sets_cons_body p q l g gs : body q = true → sets (q :: l) = g :: gs → sets (p :: q :: l) = (p :: g) :: gs.
Proof.
  intros Hq E. destruct (sets_cons_inv q l) as (g' & gs' & E'). change (join p (sets (q :: l)) = (p :: g) :: gs).
  rewrite E in E' |- *. injection E' as -> ->. simpl. by rewrite Hq.
Qed.

Lemma join_app p gs gs' : gs ≠ [] → Forall (λ g, g ≠ []) gs → join p (gs ++ gs') = join p gs ++ gs'.
Proof. intros Hn Hg. destruct gs as [|g gs]; [done|]. simpl. apply list.Forall_cons in Hg as [Hg _]. destruct g as [|q g]; [done|]. by destruct (body q). Qed.

Lemma sets_snoc_new p l : body p = false ∨ l = [] → sets (l ++ [p]) = sets l ++ [[p]].
Proof.
  intros Hp. induction l as [|q l IH]; [done|]. destruct Hp as [Hp|]; [|done]. specialize (IH (or_introl Hp)). simpl. rewrite IH.
  destruct (sets l) as [|g gs] eqn:E; [by simpl; rewrite Hp|]. rewrite <- E. apply join_app; [by rewrite E|apply sets_ne].
Qed.

Lemma sets_snoc_body p l gs g : body p = true → sets l = gs ++ [g] → sets (l ++ [p]) = gs ++ [g ++ [p]].
Proof.
  intros Hp. revert gs g. induction l as [|q l IH]; intros gs g E; [by destruct gs|]. destruct l as [|r l].
  - simpl in E. destruct gs as [|g' gs]; [|by destruct gs]. injection E as <-. simpl. by rewrite Hp.
  - pose proof (sets_ne (q :: r :: l)) as Hne. destruct (List.exists_last (l := sets (r :: l))) as (gs' & g' & E').
    { intros En. by apply sets_nil in En. }
    change (sets ((q :: r :: l) ++ [p])) with (join q (sets ((r :: l) ++ [p]))). rewrite (IH gs' g' E').
    change (join q (sets (r :: l)) = gs ++ [g]) in E. rewrite E' in E. pose proof (sets_ne (r :: l)) as Hn'. rewrite E' in Hn'.
    destruct gs' as [|h gs'].
    + destruct (list.Forall_cons_1 _ _ _ Hn') as [Hg' _]. destruct g' as [|s g']; [done|]. simpl in E |- *. destruct (body s).
      * destruct gs as [|? gs]; [|by destruct gs]. by injection E as <-.
      * destruct gs as [|? gs]; [done|]. destruct gs as [|? gs]; [|by destruct gs]. by injection E as <- <-.
    + rewrite <- (app_comm_cons gs' [g'] h) in E, Hn'. change ((h :: gs') ++ [g' ++ [p]]) with ((h :: gs') ++ [g' ++ [p]]).
      apply list.Forall_cons in Hn' as Hh. destruct Hh as [Hh Ht].
      rewrite app_comm_cons, join_app in E by (done || by apply list.Forall_app in Ht as [? _]; constructor).
      apply app_inj_tail in E as [<- <-]. rewrite join_app by (done || by apply list.Forall_app in Ht as [? _]; constructor). done.
Qed.

(** The sets of all but the last. *)
Lemma sets_drop_last l gs g : sets l = gs ++ [g] → l = concat gs ++ g ∧ sets (concat gs) = gs.
Proof.
  intros E. split; [rewrite <- (sets_concat l) at 1; rewrite E, concat_app; simpl; by rewrite app_nil_r|].
  revert gs g E. induction l as [|p l IH]; intros gs g E; [by destruct gs|]. destruct gs as [|h gs]; [done|].
  destruct l as [|q l]; [by destruct gs|]. destruct (sets_cons_inv q l) as (g' & gs' & E'). change (join p (sets (q :: l)) = (h :: gs) ++ [g]) in E.
  destruct (body q) eqn:Eq.
  - rewrite E' in E. simpl in E. rewrite Eq in E. injection E as <- ->. specialize (IH ((q :: g') :: gs) g E'). simpl in IH |- *.
    change (sets (q :: g' ++ concat gs)) with (join q (sets (g' ++ concat gs))) in IH. simpl. rewrite IH. simpl. by rewrite Eq.
  - rewrite E' in E. simpl in E. rewrite Eq in E. injection E as <- E.
    simpl. destruct gs as [|h' gs]; [done|]. simpl in E. injection E as <- E.
    specialize (IH ((q :: g') :: gs) g). rewrite E', E in IH. specialize (IH eq_refl). simpl in IH |- *. rewrite IH. simpl. by rewrite Eq.
Qed.

Lemma sets_drop_first l g gs : sets l = g :: gs → l = g ++ concat gs ∧ sets (concat gs) = gs.
Proof.
  intros E. split; [by rewrite <- (sets_concat l) at 1; rewrite E|]. revert g E. induction l as [|p l IH]; intros g E; [done|].
  destruct l as [|q l]; [by injection E as <- <-|]. destruct (sets_cons_inv q l) as (g' & gs' & E'). change (join p (sets (q :: l)) = g :: gs) in E.
  rewrite E' in E. simpl in E. destruct (body q) eqn:Eq; injection E as <- <-; [by apply (IH (q :: g'))|].
  by rewrite <- E', sets_concat.
Qed.

(** Only the first member of a set can be no body. *)
Lemma sets_bodies l g p q g' : g ∈ sets l → g = p :: g' → q ∈ g' → body q = true.
Proof.
  revert g p g'. induction l as [|r l IH]; intros g p g' Hg -> Hq; [by apply elem_of_nil in Hg|]. simpl in Hg.
  destruct (sets l) as [|[|s h] gs] eqn:E; simpl in Hg.
  - apply list_elem_of_singleton in Hg. injection Hg as <- ->. by apply elem_of_nil in Hq.
  - apply elem_of_cons in Hg as [[= <- ->]|Hg]; [by apply elem_of_nil in Hq|]. by eapply IH.
  - destruct (body s) eqn:Es.
    + apply elem_of_cons in Hg as [[= <- ->]|Hg].
      * apply elem_of_cons in Hq as [->|Hq]; [done|]. apply (IH (s :: h) s h); [left|done|done].
      * apply (IH (p :: g') p g'); [by right|done|done].
    + apply elem_of_cons in Hg as [[= <- ->]|Hg]; [by apply elem_of_nil in Hq|]. by apply (IH (p :: g') p g').
Qed.

(** The heads of all sets but the first are no bodies. *)
Lemma sets_heads l g gs h p h' : sets l = g :: gs → h ∈ gs → h = p :: h' → body p = false.
Proof.
  revert g gs. induction l as [|r l IH]; intros g gs E Hh ->; [done|]. simpl in E. destruct (sets l) as [|[|s k] gs'] eqn:E'; simpl in E.
  - injection E as <- <-. by apply elem_of_nil in Hh.
  - pose proof (sets_ne l) as Hne. rewrite E' in Hne. by apply list.Forall_cons in Hne as [? _].
  - destruct (body s) eqn:Es; injection E as <- <-; [by apply (IH _ _ eq_refl)|]. apply elem_of_cons in Hh as [[= -> ->]|Hh]; [done|]. by apply (IH _ _ eq_refl).
Qed.

End sets.

Lemma sets_ext (b b' : ptr → bool) l : (∀ p, p ∈ l → b p = b' p) → sets b l = sets b' l.
Proof.
  induction l as [|p l IH]; intros Hb; [done|]. simpl. rewrite IH by (intros; apply Hb; by right).
  destruct (sets b' l) as [|[|q g] gs] eqn:E; try done. simpl. rewrite Hb; [done|]. right. rewrite <- (sets_concat b' l), E. left.
Qed.

End order.

Module back_heap.
Import uops backend.

(** ** What does not change *)

Definition no_decode : decode_t :=
  mk_decode false [] [] 0 false false false false false false false false false false 0 0 0 false false 0 None None.
Definition no_oracle : oracle_t := mk_oracle 0 [] false false.

Definition D (h : heap) (p : ptr) : decode_t := match uop_at h p with Ok u => dec u | Fault _ => no_decode end.
Definition O (h : heap) (p : ptr) : oracle_t := match uop_at h p with Ok u => orc u | Fault _ => no_oracle end.
Definition Mstat (h : heap) (i : Z) : option (M_decode * M_oracle) :=
  match Mop_at h i with Ok m => Some (m_decode m, m_oracle m) | Fault _ => None end.

Record alike (h h' : heap) : Prop := {
  al_D : ∀ p, D h' p = D h p;
  al_O : ∀ p, O h' p = O h p;
  al_Mop : ∀ i, Mstat h' i = Mstat h i;
  al_ok : ∀ p u, uop_at h p = Ok u → ∃ u', uop_at h' p = Ok u';
  al_len : length h' = length h
}.

Lemma D_at h p u : uop_at h p = Ok u → D h p = dec u.
Proof. unfold D. by intros ->. Qed.
Lemma O_at h p u : uop_at h p = Ok u → O h p = orc u.
Proof. unfold O. by intros ->. Qed.
Lemma Mstat_at h i m : Mop_at h i = Ok m → Mstat h i = Some (m_decode m, m_oracle m).
Proof. unfold Mstat. by intros ->. Qed.

#[export] Instance alike_pre : PreOrder alike.
Proof.
  split; [by intros h; split; eauto|]. intros h1 h2 h3 [D1 O1 M1 K1 L1] [D2 O2 M2 K2 L2]. split; intros.
  - by rewrite D2.
  - by rewrite O2.
  - by rewrite M2.
  - destruct (K1 _ _ H) as (? & E). by apply K2 in E.
  - by rewrite L2.
Qed.

(** The indices of the uops in a flow: an immediate takes two more places. *)
Fixpoint flow_from (n : nat) (h : heap) (i j len : Z) : list ptr :=
  match n with
  | 0%nat => []
  | S n => if j <? len then (i, j) :: flow_from n h i (j + flow_step (D h (i, j))) len else []
  end.
Definition flow (h : heap) (i : Z) : list ptr :=
  match Mstat h i with Some (d, _) => flow_from (Z.to_nat (flow_length d)) h i 0 (flow_length d) | None => [] end.

Lemma flow_from_ext n h h' i j len : (∀ j, D h' (i, j) = D h (i, j)) → flow_from n h' i j len = flow_from n h i j len.
Proof. intros HD. revert j. induction n as [|n IH]; intros j; [done|]. simpl. by rewrite HD, IH. Qed.

Lemma flow_alike h h' i : alike h h' → flow h' i = flow h i.
Proof. intros [HD _ HM _ _]. unfold flow. rewrite HM. destruct (Mstat h i) as [[d o]|]; [|done]. by apply flow_from_ext. Qed.

Lemma flow_from_slot n h i j len p : p ∈ flow_from n h i j len → p.1 = i ∧ j ≤ p.2 < len.
Proof.
  revert j. induction n as [|n IH]; intros j; [by intros ?%elem_of_nil|]. simpl. destruct (Z.ltb_spec j len); [|by intros ?%elem_of_nil].
  intros [->|Hp]%elem_of_cons; [simpl; lia|]. apply IH in Hp as [? Hp]. unfold flow_step in Hp. destruct (has_imm _); lia.
Qed.

Lemma flow_slot h i p : p ∈ flow h i → p.1 = i.
Proof. unfold flow. destruct (Mstat h i) as [[d o]|]; [|by intros ?%elem_of_nil]. intros Hp. by apply flow_from_slot in Hp as [? _]. Qed.

(** Consecutive uops of a flow, and its last one. *)
Lemma flow_from_next n h i j len l p : (Z.to_nat (len - j) ≤ n)%nat → flow_from n h i j len = l →
  (∀ l1 l2, l = l1 ++ p :: l2 →
    match l2 with q :: _ => q.2 = p.2 + flow_step (D h p) | [] => len ≤ p.2 + flow_step (D h p) end) ∧
  (∀ q l', l = q :: l' → q = (i, j)).
Proof.
  intros Hn <-. revert j Hn. induction n as [|n IH]; intros j Hn; [split; [intros [|] ? ?; done|done]|].
  simpl. destruct (Z.ltb_spec j len); [|split; [intros [|] ? ?; done|done]]. split; [|by intros q l' [= <- <-]].
  assert (1 ≤ flow_step (D h (i, j))) as Hs by (unfold flow_step; destruct (has_imm _); lia).
  destruct (IH (j + flow_step (D h (i, j))) ltac:(lia)) as [I1 I2]. intros l1 l2 E. destruct l1 as [|r l1].
  - injection E as <- E. destruct l2 as [|q l2]; [|by rewrite (I2 q l2 E)].
    destruct n as [|n]; [simpl in *; lia|]. simpl in E. simpl. destruct (Z.ltb_spec (j + flow_step (D h (i, j))) len); [done|lia].
  - injection E as <- E. by apply (I1 l1 l2).
Qed.

Lemma flow_next h i d o l1 p l2 : Mstat h i = Some (d, o) → flow h i = l1 ++ p :: l2 →
  match l2 with q :: _ => q.2 = p.2 + flow_step (D h p) | [] => flow_length d ≤ p.2 + flow_step (D h p) end.
Proof. intros E F. unfold flow in F. rewrite E in F. by apply (proj1 (flow_from_next (Z.to_nat (flow_length d)) h i 0 (flow_length d) _ p ltac:(lia) F) l1 l2). Qed.

Lemma flow_first h i q l : flow h i = q :: l → q = (i, 0).
Proof.
  unfold flow. destruct (Mstat h i) as [[d o]|]; [|done]. intros F. by apply (proj2 (flow_from_next (Z.to_nat (flow_length d)) h i 0 (flow_length d) _ q ltac:(lia) F) q l).
Qed.

Lemma flow_from_sorted n h i j len : NoDup (flow_from n h i j len).
Proof.
  revert j. induction n as [|n IH]; intros j; [constructor|]. simpl. destruct (Z.ltb_spec j len); [|constructor]. constructor; [|done].
  intros Hp. apply flow_from_slot in Hp as [_ Hp]. simpl in Hp. unfold flow_step in Hp. destruct (has_imm _); lia.
Qed.

Lemma flow_nodup h i : NoDup (flow h i).
Proof. unfold flow. destruct (Mstat h i) as [[d o]|]; [|constructor]. apply flow_from_sorted. Qed.

Lemma flow_inside h i d o p : Mstat h i = Some (d, o) → p ∈ flow h i → 0 ≤ p.2 < flow_length d.
Proof. unfold flow. intros ->. intros Hp. apply flow_from_slot in Hp as [_ ?]. lia. Qed.

Lemma flow_from_follow n h i j len l1 p q l2 : (Z.to_nat (len - j) ≤ n)%nat → flow_from n h i j len = l1 ++ p :: q :: l2 → p.2 < q.2.
Proof.
  intros Hn E. pose proof (proj1 (flow_from_next n h i j len _ p Hn eq_refl) l1 (q :: l2) E) as H. simpl in H.
  unfold flow_step in H. destruct (has_imm _); lia.
Qed.

(** ** Updates *)

(** Only the uop [p] is another one. *)
Record changed (h h' : heap) (p : ptr) (u' : uop) : Prop := {
  ch_at : uop_at h' p = Ok u';
  ch_ne : ∀ q, q ≠ p → uop_at h' q = uop_at h q;
  ch_Mop : ∀ i, match Mop_at h i with
                | Ok m => ∃ l, Mop_at h' i = Ok (with_uops l m)
                | Fault e => Mop_at h' i = Fault e
                end;
  ch_len : length h' = length h
}.

Lemma wp_upd_uop h p u f (Q : heap → Prop) : uop_at h p = Ok u → (∀ h', changed h h' p (f u) → Q h') → wp (upd_uop h p f) Q.
Proof.
  intros E HQ. unfold uop_at in E. apply bind_Ok_inv in E as (m & Em & Eu). unfold upd_uop. rewrite Em. cbn [rbind].
  unfold amodify. rewrite Eu. cbn [rbind]. pose proof Eu as [Hr _]%aget_inv. pose proof Em as [Hi _]%aget_inv. unfold Mop_at in *.
  destruct (aset (m_uop m) p.2 (f u)) as [l|e] eqn:El; [|by rewrite aset_ok in El by done]. cbn [rbind].
  destruct (aset h p.1 (with_uops l m)) as [h'|e] eqn:Eh; [|by rewrite aset_ok in Eh by done]. cbn [wp]. apply HQ.
  pose proof (aget_aset_eq _ _ _ _ Eh) as Gp. split.
  - unfold uop_at, Mop_at. rewrite Gp. cbn [rbind]. simpl. by eapply aget_aset_eq.
  - intros q Hq. unfold uop_at, Mop_at. destruct (decide (q.1 = p.1)) as [E1|E1].
    + rewrite E1, Gp, Em. cbn [rbind]. simpl. apply (aget_aset_ne _ _ _ _ _ El). intros E2. apply Hq. destruct p, q; simpl in *; congruence.
    + by rewrite (aget_aset_ne _ _ _ _ _ Eh) by congruence.
  - intros i. unfold Mop_at. destruct (decide (i = p.1)) as [->|Hne]; [rewrite Em, Gp; eauto|].
    rewrite (aget_aset_ne _ _ _ _ _ Eh) by done. destruct (aget h i) as [m'|] eqn:E; [|done]. exists (m_uop m'). f_equal. by destruct m'.
  - by eapply length_aset.
Qed.

Lemma changed_alike h h' p u u' : uop_at h p = Ok u → changed h h' p u' → dec u' = dec u → orc u' = orc u → alike h h'.
Proof.
  intros E [G Hne HM HL] Ed Eo. split; [| | | |done].
  - intros q. unfold D. destruct (decide (q = p)) as [->|Hq]; [by rewrite G, E|by rewrite Hne].
  - intros q. unfold O. destruct (decide (q = p)) as [->|Hq]; [by rewrite G, E|by rewrite Hne].
  - intros i. specialize (HM i). unfold Mstat. destruct (Mop_at h i) as [m|]; [by destruct HM as (l & ->)|by rewrite HM].
  - intros q v Eq. destruct (decide (q = p)) as [->|Hq]; [eauto|rewrite Hne by done; eauto].
Qed.

(** Only the macro-op [i] is another one, and it has the same uops. *)
Record Mop_changed (h h' : heap) (i : Z) (m' : Mop) : Prop := {
  mc_at : Mop_at h' i = Ok m';
  mc_ne : ∀ j, j ≠ i → Mop_at h' j = Mop_at h j;
  mc_uop : ∀ p, uop_at h' p = uop_at h p;
  mc_len : length h' = length h
}.

Lemma wp_upd_Mop h i m f (Q : heap → Prop) : Mop_at h i = Ok m → m_uop (f m) = m_uop m → (∀ h', Mop_changed h h' i (f m) → Q h') → wp (upd_Mop h i f) Q.
Proof.
  intros Em Ef HQ. unfold upd_Mop, amodify. unfold Mop_at in Em. rewrite Em. cbn [rbind]. pose proof Em as [Hi _]%aget_inv.
  destruct (aset h i (f m)) as [h'|e] eqn:Eh; [|by rewrite aset_ok in Eh by done]. cbn [wp]. apply HQ.
  pose proof (aget_aset_eq _ _ _ _ Eh) as G. assert (∀ j, j ≠ i → Mop_at h' j = Mop_at h j) as Hne.
  { intros j Hj. unfold Mop_at. by rewrite (aget_aset_ne _ _ _ _ _ Eh). }
  split; [done|done| |by eapply length_aset]. intros p. unfold uop_at. destruct (decide (p.1 = i)) as [->|Hj]; [|by rewrite Hne].
  unfold Mop_at. rewrite G, Em. cbn [rbind]. by rewrite Ef.
Qed.

Lemma Mop_changed_alike h h' i m m' : Mop_at h i = Ok m → Mop_changed h h' i m' → m_decode m' = m_decode m → m_oracle m' = m_oracle m → alike h h'.
Proof.
  intros E [G Hne HU HL] Ed Eo. split; [| | | |done].
  - intros q. unfold D. by rewrite HU.
  - intros q. unfold O. by rewrite HU.
  - intros j. unfold Mstat. destruct (decide (j = i)) as [->|Hj]; [by rewrite G, E, Ed, Eo|by rewrite Hne].
  - intros q v Eq. rewrite HU. eauto.
Qed.

End back_heap.
