(* ===== verification/BackInv.v ===== *)
(** * BackInv: the invariant of the back end

    One list of uops in program order describes all structures of the stages behind decode:
    the uops that have been dispatched and have not committed.  The reorder buffer, the
    reservation stations, the load and store queues, the loads of the ports and the links
    between consumers and producers are read off it. *)

From Stdlib Require Import Sorting.Sorted.
From stdpp Require Import sorting.
From S2P Require Import Prelude Misc CacheHeap CacheSet Memory OracleDeps Uops ROB RS LSQ LSQInv LSQOps LSQCommit LSQRun Backend BackHeap.

Module back_inv.
Import uops backend back_heap order.

(** ** Reading the heap *)

Definition no_uop : uop := new_uop no_decode no_oracle.
Definition get (h : heap) (p : ptr) : uop := match uop_at h p with Ok u => u | Fault _ => no_uop end.

Lemma get_at h p u : uop_at h p = Ok u → get h p = u.
Proof. unfold get. by intros ->. Qed.

Definition live (h : heap) (p : ptr) : Prop := uop_at h p = Ok (get h p).

Lemma live_at h p u : uop_at h p = Ok u → live h p.
Proof. unfold live, get. by intros ->. Qed.

Lemma live_D h p : live h p → D h p = dec (get h p).
Proof. apply D_at. Qed.
Lemma live_O h p : live h p → O h p = orc (get h p).
Proof. apply O_at. Qed.

Lemma live_alike h h' p : alike h h' → live h p → live h' p.
Proof. intros [_ _ _ Hk _] Hp. destruct (Hk _ _ Hp) as (u & E). by eapply live_at. Qed.

Lemma changed_get h h' p u' q : changed h h' p u' → get h' q = if decide (q = p) then u' else get h q.
Proof. intros [G Hne _ _]. unfold get. destruct (decide (q = p)) as [->|Hq]; [by rewrite G|by rewrite Hne]. Qed.

Lemma Mop_changed_get h h' i m' q : Mop_changed h h' i m' → get h' q = get h q.
Proof. intros [_ _ HU _]. unfold get. by rewrite HU. Qed.

(** ** What the decoder says *)

Definition body (h : heap) (p : ptr) : bool := in_fusion (D h p) && negb (is_fusion_head (D h p)).
Definition is_ld (h : heap) (p : ptr) : bool := is_load (D h p) || is_lfence (D h p).
Definition is_st (h : heap) (p : ptr) : bool := is_sta (D h p) || is_std (D h p) || is_sfence (D h p).
Definition trap (h : heap) (i : Z) : bool := match Mstat h i with Some (d, _) => is_trap d | None => false end.

(** The uop goes through the reservation stations. *)
Definition needs (h : heap) (p : ptr) : bool :=
  negb (is_nop (D h p)) && negb (trap h p.1) && negb (is_lfence (D h p)) && negb (is_sfence (D h p)) &&
  negb (lsq.is_uop_helix_signal (D h p) (O h p)).

Lemma needs_at h p u m : uop_at h p = Ok u → Mop_at h p.1 = Ok m → needs_RS u m = needs h p.
Proof. intros Eu Em. unfold needs_RS, needs, trap. by rewrite (D_at _ _ _ Eu), (O_at _ _ _ Eu), (Mstat_at _ _ _ Em). Qed.

Section alike.
Variables (h h' : heap).
Hypothesis Ha : alike h h'.

Lemma body_alike p : body h' p = body h p.
Proof. unfold body. by rewrite (al_D _ _ Ha). Qed.
Lemma is_ld_alike p : is_ld h' p = is_ld h p.
Proof. unfold is_ld. by rewrite (al_D _ _ Ha). Qed.
Lemma is_st_alike p : is_st h' p = is_st h p.
Proof. unfold is_st. by rewrite (al_D _ _ Ha). Qed.
Lemma trap_alike i : trap h' i = trap h i.
Proof. unfold trap. by rewrite (al_Mop _ _ Ha). Qed.
Lemma needs_alike p : needs h' p = needs h p.
Proof. unfold needs. by rewrite (al_D _ _ Ha), (al_O _ _ Ha), trap_alike. Qed.
Lemma sets_alike l : sets (body h') l = sets (body h) l.
Proof. apply sets_ext. intros. apply body_alike. Qed.
End alike.

(** A uop and the next one in the flow of a macro-op. *)
Definition linked (h : heap) (p q : ptr) : Prop :=
  if body h q then in_fusion (D h p) = true ∧ fusion_next (D h p) = Some q ∧ fusion_head (D h q) = fusion_head (D h p) ∧ needs h q = needs h p
  else in_fusion (D h p) = true → fusion_next (D h p) = None.

Record uop_wf (k : knobs) (h : heap) (p : ptr) : Prop := {
  uw_live : live h p;
  uw_ld : is_ld h p = true → is_st h p = false;
  uw_st : is_sta (D h p) = true → is_std (D h p) = false ∧ is_sfence (D h p) = false;
  uw_std : is_std (D h p) = true → is_sfence (D h p) = false;
  uw_load : is_load (D h p) = true → needs h p = true;
  uw_sync : is_sync_op (O h p) = false;
  uw_port : needs h p = true → ports k (FU_class (D h p)) ≠ [] ∧ Forall (λ x, 0 ≤ x < num_exec_ports k) (ports k (FU_class (D h p)));
  uw_head : body h p = false → if in_fusion (D h p) then fusion_head (D h p) = Some p ∧ fusion_next (D h p) ≠ None else is_fusion_head (D h p) = false
}.

(** What the decoder promises of the flow of a macro-op.  The code has no bound but that of
    the array of uops; HELIX synchronisation is left out. *)
Record flow_wf (k : knobs) (h : heap) (i : Z) : Prop := {
  fw_Mop : is_Some (Mstat h i);
  fw_uops : Forall (uop_wf k h) (flow h i);
  fw_length : (0 < length (flow h i) ≤ 64)%nat;
  fw_first : ∀ p l, flow h i = p :: l → body h p = false;
  fw_linked : ∀ l1 p q l2, flow h i = l1 ++ p :: q :: l2 → linked h p q;
  fw_last : ∀ l p, flow h i = l ++ [p] → in_fusion (D h p) = true → fusion_next (D h p) = None;
  fw_EOM : ∀ d o l p, Mstat h i = Some (d, o) → has_rep d = false → flow h i = l ++ [p] → EOM (D h p) = true;
  fw_std : ∀ l1 p l2, flow h i = l1 ++ p :: l2 → is_std (D h p) = true → ∃ q, list.last (filter (λ p, is_st h p = true) l1) = Some q ∧ is_sta (D h q) = true;
  fw_sta : ∀ l1 p l2, flow h i = l1 ++ p :: l2 → is_sta (D h p) = true → ∃ q, head (filter (λ p, is_st h p = true) l2) = Some q ∧ is_std (D h q) = true
}.

Lemma linked_alike h h' p q : alike h h' → linked h p q → linked h' p q.
Proof. intros Ha. unfold linked. by rewrite (body_alike _ _ Ha), !(al_D _ _ Ha), !(needs_alike _ _ Ha). Qed.

Lemma uop_wf_alike k h h' p : alike h h' → uop_wf k h p → uop_wf k h' p.
Proof.
  intros Ha [H1 H2 H3 H4 H5 H6 H7 H8].
  split; rewrite ?(body_alike _ _ Ha), ?(needs_alike _ _ Ha), ?(is_ld_alike _ _ Ha), ?(is_st_alike _ _ Ha), ?(al_D _ _ Ha), ?(al_O _ _ Ha); try done.
  by eapply live_alike.
Qed.

Lemma filter_st_alike h h' (l : list ptr) : alike h h' → filter (λ p, is_st h' p = true) l = filter (λ p, is_st h p = true) l.
Proof. intros Ha. apply list_filter_iff. intros p. by rewrite (is_st_alike _ _ Ha). Qed.
Lemma filter_ld_alike h h' (l : list ptr) : alike h h' → filter (λ p, is_ld h' p = true) l = filter (λ p, is_ld h p = true) l.
Proof. intros Ha. apply list_filter_iff. intros p. by rewrite (is_ld_alike _ _ Ha). Qed.

Lemma flow_wf_alike k h h' i : alike h h' → flow_wf k h i → flow_wf k h' i.
Proof.
  intros Ha [H1 H2 H3 H4 H5 H6 He H7 H8]. split; rewrite ?(flow_alike _ _ _ Ha); try done.
  - by rewrite (al_Mop _ _ Ha).
  - eapply list.Forall_impl; [exact H2|]. intros p. by apply uop_wf_alike.
  - intros. rewrite (body_alike _ _ Ha). eauto.
  - intros. eapply linked_alike; [done|]. eauto.
  - intros ? ?. rewrite (al_D _ _ Ha). eauto.
  - intros ? ? ? ?. rewrite (al_Mop _ _ Ha), (al_D _ _ Ha). eauto.
  - intros ? ? ?. rewrite (filter_st_alike _ _ _ Ha), (al_D _ _ Ha). intros E1 E2. destruct (H7 _ _ _ E1 E2) as (q & ? & ?). exists q. by rewrite (al_D _ _ Ha).
  - intros ? ? ?. rewrite (filter_st_alike _ _ _ Ha), (al_D _ _ Ha). intros E1 E2. destruct (H8 _ _ _ E1 E2) as (q & ? & ?). exists q. by rewrite (al_D _ _ Ha).
Qed.

(** ** Program order *)

Definition seq_of (h : heap) (p : ptr) : Z := uop_seq (D h p).
(** [gone]: the uops of the oldest macro-op that have committed; [infl]: those in flight
    behind dispatch; [pend]: those still to be dispatched. *)
Record program (k : knobs) (h : heap) (Q : list Z) (gone infl pend : list ptr) : Prop := {
  pr_nodup : NoDup Q;
  pr_wf : Forall (flow_wf k h) Q;
  pr_flow : gone ++ infl ++ pend = Q ≫= flow h;
  pr_gone : match Q with i :: _ => ∃ p f, flow h i = gone ++ p :: f | [] => gone = [] end;
  pr_sorted : StronglySorted Z.lt (seq_of h <$> gone ++ infl ++ pend)
}.

Lemma program_alike k h h' Q gone infl pend : alike h h' → program k h Q gone infl pend → program k h' Q gone infl pend.
Proof.
  intros Ha [H1 H2 H3 H4 H5]. assert (Q ≫= flow h' = Q ≫= flow h) as EQ by (apply list_bind_ext; [intros; by apply flow_alike|done]).
  split; [done| | | |].
  - eapply list.Forall_impl; [exact H2|]. intros i. by apply flow_wf_alike.
  - by rewrite EQ.
  - destruct Q as [|i Q]; [done|]. by rewrite (flow_alike _ _ _ Ha).
  - erewrite list_fmap_ext; [exact H5|]. intros _ p _. unfold seq_of. by rewrite (al_D _ _ Ha).
Qed.

Section program.
Context {k : knobs} {h : heap} {Q : list Z} {gone infl pend : list ptr}.
Hypothesis Hp : program k h Q gone infl pend.

Local Abbreviation whole := (gone ++ infl ++ pend).

Lemma pr_in p : p ∈ whole → p.1 ∈ Q ∧ p ∈ flow h p.1 ∧ uop_wf k h p.
Proof.
  rewrite (pr_flow _ _ _ _ _ _ Hp). intros (i & Hi & Hf)%list_elem_of_bind. pose proof (flow_slot _ _ _ Hi) as <-. split_and!; [done..|].
  pose proof (proj1 (list.Forall_forall _ _) (pr_wf _ _ _ _ _ _ Hp) _ Hf) as Hw. by apply (proj1 (list.Forall_forall _ _) (fw_uops _ _ _ Hw)).
Qed.

Lemma pr_uniq : NoDup whole.
Proof.
  apply (NoDup_fmap_1 (seq_of h)). pose proof (pr_sorted _ _ _ _ _ _ Hp) as Hs. induction Hs as [|x l Hs IH Hx]; [constructor|].
  constructor; [|done]. intros Hin. pose proof (proj1 (list.Forall_forall _ _) Hx _ Hin). lia.
Qed.

(** Two uops that follow each other, in one macro-op or not. *)
Lemma pr_follow l1 p q l2 : whole = l1 ++ p :: q :: l2 → linked h p q ∧ (body h q = true → q.1 = p.1).
Proof.
  rewrite (pr_flow _ _ _ _ _ _ Hp). pose proof (pr_wf _ _ _ _ _ _ Hp) as Hwf. clear Hp. revert l1. induction Q as [|i Q' IH]; intros l1 E; [by destruct l1|].
  apply list.Forall_cons in Hwf as [Hw Hwf]. specialize (IH Hwf). simpl in E.
  assert (∀ m, m ++ [p] = flow h i → q :: l2 = Q' ≫= flow h → linked h p q ∧ (body h q = true → q.1 = p.1)) as Hborder.
  { intros m E1 E2. assert (in_fusion (D h p) = true → fusion_next (D h p) = None) as Hl by (apply (fw_last _ _ _ Hw m); done).
    assert (body h q = false) as Hb; [|by unfold linked; rewrite Hb].
    clear - Hwf E2. destruct Q' as [|j Q'']; [done|]. apply list.Forall_cons in Hwf as [Hw' _]. simpl in E2.
    destruct (flow h j) as [|r f] eqn:Ef; [by pose proof (fw_length _ _ _ Hw') as Hl'; rewrite Ef in Hl'; simpl in Hl'; lia|].
    injection E2 as <- _. by eapply (fw_first _ _ _ Hw'). }
  apply app_eq_inv in E as [(m & E1 & E2)|(m & E1 & E2)].
  - destruct m as [|r m].
    + rewrite app_nil_r in E1. simpl in E2. by apply (IH []).
    + injection E2 as <- E2. destruct m as [|r' m].
      * by apply (Hborder l1).
      * injection E2 as <- E2. split; [by apply (fw_linked _ _ _ Hw _ _ _ _ E1)|]. intros _.
        assert (p ∈ flow h i ∧ q ∈ flow h i) as [Hip Hiq] by (rewrite E1; clear; split; set_solver). by rewrite (flow_slot _ _ _ Hip), (flow_slot _ _ _ Hiq).
  - by apply (IH m).
Qed.

Lemma pr_linked l1 p q l2 : whole = l1 ++ p :: q :: l2 → linked h p q.
Proof. intros E. by apply (pr_follow _ _ _ _ E). Qed.

(** A piece of a fused set is in one macro-op. *)
Lemma pr_set_Mop l1 p g l2 : whole = l1 ++ (p :: g) ++ l2 → Forall (λ q, body h q = true) g → Forall (λ q, q.1 = p.1) g.
Proof.
  revert l1 p. induction g as [|q g IH]; intros l1 p E Hg; [constructor|]. apply list.Forall_cons in Hg as [Hq Hg].
  pose proof (proj2 (pr_follow l1 p q (g ++ l2) E) Hq) as Eq. constructor; [done|]. rewrite <- Eq. apply (IH (l1 ++ [p])); [|done].
  by rewrite <- app_assoc.
Qed.

Lemma pr_set_length l1 p g l2 : whole = l1 ++ (p :: g) ++ l2 → Forall (λ q, body h q = true) g → (length (p :: g) ≤ 64)%nat.
Proof.
  intros E Hg. pose proof (pr_set_Mop _ _ _ _ E Hg) as HM. assert (p ∈ whole) as Hpw by (rewrite E, !elem_of_app, elem_of_cons; tauto).
  destruct (pr_in p Hpw) as (HQ & Hf & _). pose proof (proj1 (list.Forall_forall _ _) (pr_wf _ _ _ _ _ _ Hp) _ HQ) as Hw.
  etrans; [|apply (fw_length _ _ _ Hw)]. apply submseteq_length, NoDup_submseteq.
  - pose proof pr_uniq as Hn. rewrite E in Hn. apply list.NoDup_app in Hn as (_ & _ & Hn). by apply list.NoDup_app in Hn as (? & _ & _).
  - intros q Hq. assert (q ∈ whole) as Hqw by (rewrite E, !elem_of_app; tauto). destruct (pr_in q Hqw) as (_ & Hfq & _).
    apply elem_of_cons in Hq as [->|Hq]; [done|]. rewrite list.Forall_forall in HM. by rewrite <- (HM q Hq).
Qed.

(** A set of the uops in flight. *)
Lemma pr_set gs g gs' : sets (body h) infl = gs ++ g :: gs' → ∃ p g', g = p :: g' ∧ whole = (gone ++ concat gs) ++ (p :: g') ++ concat gs' ++ pend ∧
  Forall (λ q, body h q = true) g'.
Proof.
  intros E. pose proof (sets_ne (body h) infl) as Hne. rewrite E in Hne. apply list.Forall_app in Hne as [_ Hne]. apply list.Forall_cons in Hne as [Hne _].
  destruct g as [|p g]; [done|]. exists p, g. split; [done|]. split.
  - rewrite <- (sets_concat (body h) infl) at 1. rewrite E, concat_app. simpl. rewrite <- !app_assoc. simpl. by rewrite <- !app_assoc.
  - apply list.Forall_forall. intros q Hq. apply (sets_bodies (body h) infl (p :: g) p q g); [|done|done]. rewrite E. apply elem_of_app. right. left.
Qed.

(** The first and the last uop. *)
Lemma pr_first p l : whole = p :: l → body h p = false.
Proof.
  rewrite (pr_flow _ _ _ _ _ _ Hp). pose proof (pr_wf _ _ _ _ _ _ Hp) as Hwf. destruct Q as [|i Q']; [done|]. apply list.Forall_cons in Hwf as [Hw _]. simpl.
  destruct (flow h i) as [|r f] eqn:Ef; [by pose proof (fw_length _ _ _ Hw) as Hl'; rewrite Ef in Hl'; simpl in Hl'; lia|]. intros [= <- _]. by eapply (fw_first _ _ _ Hw).
Qed.

Lemma pr_last p l : whole = l ++ [p] → in_fusion (D h p) = true → fusion_next (D h p) = None.
Proof.
  rewrite (pr_flow _ _ _ _ _ _ Hp). pose proof (pr_wf _ _ _ _ _ _ Hp) as Hwf. destruct (list.last Q) as [i|] eqn:El.
  - apply last_Some in El as [Q' E]. rewrite E in *. apply list.Forall_app in Hwf as [_ Hw]. apply list.Forall_cons in Hw as [Hw _].
    rewrite bind_app. simpl. rewrite app_nil_r. destruct (list.last (flow h i)) as [r|] eqn:Ef.
    + apply last_Some in Ef as [f Ef]. rewrite Ef, app_assoc. intros [_ <-]%app_inj_tail. by apply (fw_last _ _ _ Hw _ _ Ef).
    + apply last_None in Ef. pose proof (fw_length _ _ _ Hw) as Hl. rewrite Ef in Hl. simpl in Hl. lia.
  - apply last_None in El. rewrite El. by destruct l.
Qed.

(** The youngest uop in flight behind dispatch; the oldest. *)
Lemma pr_before l1 l2 p q : whole = l1 ++ l2 → p ∈ l1 → q ∈ l2 → seq_of h p < seq_of h q.
Proof.
  intros E H1 H2. pose proof (pr_sorted _ _ _ _ _ _ Hp) as Hs. rewrite E, fmap_app in Hs.
  by eapply StronglySorted_app_1_elem_of; [exact Hs|apply list_elem_of_fmap_2..].
Qed.

Lemma pr_youngest p q l : infl = l ++ [p] → q ∈ infl → q ≠ p → seq_of h q < seq_of h p.
Proof.
  intros E Hq Hne. apply (pr_before (gone ++ l) (p :: pend)); [by rewrite E, <- !app_assoc| |left].
  rewrite E in Hq. apply elem_of_app in Hq as [Hq|Hq%list_elem_of_singleton]; [by apply elem_of_app; right|done].
Qed.

Lemma pr_oldest p q l : infl = p :: l → q ∈ infl → q ≠ p → seq_of h p < seq_of h q.
Proof.
  intros E Hq Hne. apply (pr_before (gone ++ [p]) (l ++ pend)); [by rewrite E, <- app_assoc|apply elem_of_app; right; left|].
  rewrite E in Hq. apply elem_of_cons in Hq as [|Hq]; [done|]. by apply elem_of_app; left.
Qed.

End program.

(** ** The reservation stations and the ports *)

(** The uops that have not gone to execution. *)
Definition waiting (es : list rs.entry) : list ptr := es ≫= λ e, (filter (λ x, x.2 = false) (rs.e_uops e)).*1.

Definition port_of (h : heap) (p : ptr) : Z := port_assignment (alc (get h p)).
Definition exec_at (h : heap) (p : ptr) : Z := when_exec (tim (get h p)).
Definition completed_at (h : heap) (p : ptr) : Z := when_completed (tim (get h p)).

Record exec_ok (k : knobs) (h : heap) (es : list rs.entry) (p : ptr) : Prop := {
  ex_alloc : when_allocated (tim (get h p)) ≠ TICK_T_MAX;
  ex_RS : needs h p = true → 0 ≤ port_of h p < num_exec_ports k ∧ (exec_at h p = TICK_T_MAX ↔ p ∈ waiting es) ∧
    (completed_at h p ≠ TICK_T_MAX → exec_at h p ≠ TICK_T_MAX);
  ex_none : needs h p = false → port_of h p = -1 ∧ (trap h p.1 = true ∨ exec_at h p ≠ TICK_T_MAX)
}.

Definition load_ok (h : heap) (loading : list Z) (l : list ptr) : Prop :=
  ∀ port n, aget loading port = Ok n → n = Z.of_nat (length (filter (λ p, port_of h p = port) l)).

(** A fused set that is not dispatched as a whole. *)
Definition open (h : heap) (g : list ptr) : Prop := ∃ q, list.last g = Some q ∧ in_fusion (D h q) = true ∧ fusion_next (D h q) ≠ None.

Definition members_of (e : rs.entry) : list ptr := (rs.e_uops e).*1.

(** What also holds in the middle of a recovery. *)
Record seated (k : knobs) (h : heap) (x : rs.t) (loading : list Z) (infl : list ptr) (es : list rs.entry) : Prop := {
  se_ok : rs.ok (D h) x es;
  se_members : ∀ p, p ∈ rs.members es → p ∈ infl ∧ needs h p = true;
  se_exec : Forall (exec_ok k h es) infl;
  se_ports : Z.of_nat (length loading) = num_exec_ports k;
  se_load : load_ok h loading (waiting es)
}.

(** Each entry is a fused set as far as it is in flight, in program order; it lives as long as
    one of its members waits, and until the set is there as a whole. *)
Record shaped (h : heap) (infl : list ptr) (es : list rs.entry) : Prop := {
  sh_sub : sublist (members_of <$> es) (sets (body h) infl);
  sh_alive : Forall (λ e, 1 ≤ rs.waiting (rs.e_uops e)) es;
  sh_open : ∀ gs g, sets (body h) infl = gs ++ [g] → open h g → Forall (λ p, needs h p = true) g → list.last (members_of <$> es) = Some g
}.

(** ** Consumers and producers *)

Definition ideps (h : heap) (p : ptr) : list (option ptr) := idep_uop (exe (get h p)).
Definition odeps (h : heap) (p : ptr) : list (ptr * Z) := odep_uop (exe (get h p)).

Record deps_ok (h : heap) (infl : list ptr) (p : ptr) : Prop := {
  dp_len : Z.of_nat (length (ideps h p)) = MAX_IDEPS;
  dp_nodup : NoDup (odeps h p);
  dp_out : ∀ q j, (q, j) ∈ odeps h p → q ∈ infl ∧ seq_of h p < seq_of h q ∧ 0 ≤ j ∧ ideps h q !! Z.to_nat j = Some (Some p);
  dp_in : ∀ j q, ideps h p !! j = Some (Some q) → q ∈ infl ∧ seq_of h q < seq_of h p ∧ (p, Z.of_nat j) ∈ odeps h q
}.

(** ** The stores *)

Definition owner_ok (h : heap) (o : lsq_inv.owners) : Prop :=
  match o with
  | (Some a, Some d) => is_sta (D h a) = true ∧ is_std (D h d) = true
  | (Some a, None) => is_sta (D h a) = true ∨ is_sfence (D h a) = true
  | (None, Some d) => is_std (D h d) = true
  | (None, None) => False
  end.

Record stores_ok (h : heap) (infl : list ptr) (ss : list lsq_inv.owners) : Prop := {
  ss_ptrs : lsq_inv.ptrs ss = filter (λ p, is_st h p = true) infl;
  ss_owners : Forall (owner_ok h) ss;
  ss_tail : Forall (λ o, o.1 ≠ None) (tail ss)
}.

(** ** Uops that have not been dispatched *)

Record pristine (u : uop) : Prop := {
  pu_alloc : when_allocated (tim u) = TICK_T_MAX;
  pu_issued : when_issued (tim u) = TICK_T_MAX;
  pu_exec : when_exec (tim u) = TICK_T_MAX;
  pu_completed : when_completed (tim u) = TICK_T_MAX;
  pu_port : port_assignment (alc u) = -1;
  pu_idep : idep_uop (exe u) = replicate (Z.to_nat MAX_IDEPS) None;
  pu_odep : odep_uop (exe u) = [];
  pu_queued : in_readyQ (exe u) = false;
  pu_lengths : Z.of_nat (length (when_itag_ready (tim u))) = MAX_IDEPS ∧ Z.of_nat (length (when_ival_ready (tim u))) = MAX_IDEPS ∧
    Z.of_nat (length (ivalue_valid (exe u))) = MAX_IDEPS
}.

(** ** The macro-ops *)

Definition completed (h : heap) (now : Z) (p : ptr) : Prop := completed_at h p ≤ now.

(** [cm]: the uops of the macro-op that have committed. *)
Record Mop_ok (h : heap) (now : Z) (i : Z) (cm : list ptr) (m : Mop) : Prop := {
  mo_at : Mop_at h i = Ok m;
  mo_all : complete_index (m_commit m) = -1 → Forall (completed h now) (flow h i);
  mo_some : complete_index (m_commit m) ≠ -1 → cm = [] ∧
    ∃ f1 p f2, flow h i = f1 ++ p :: f2 ∧ complete_index (m_commit m) = p.2 ∧ Forall (completed h now) f1;
  mo_next : ∃ p f, flow h i = cm ++ p :: f ∧ commit_index (m_commit m) = p.2;
  mo_fetched : when_fetched (m_timing m) ≠ TICK_T_MAX ∧ when_fetch_started (m_timing m) ≠ TICK_T_MAX
}.

Definition Mops_ok (h : heap) (now : Z) (Q : list Z) (gone : list ptr) : Prop :=
  match Q with [] => True | i :: Q' => (∃ m, Mop_ok h now i gone m) ∧ ∀ j, j ∈ Q' → ∃ m, Mop_ok h now j [] m end.

End back_inv.
