(* ===== verification/BackLinks.v ===== *)
(** * BackLinks: the links between consumers and producers

    Each uop in flight points to the uops that produce its inputs, and each of those has it
    in its list of consumers.  Dispatch adds links, a squash takes back those of the
    youngest uop, commit those to the oldest. *)

From S2P Require Import Prelude Misc CacheHeap OracleDeps Uops ROB RS LSQ Backend BackHeap BackInv.

Module back_links.
Import uops backend back_heap back_inv.

(** Only links between uops have changed. *)
Record relinked (h h' : heap) : Prop := {
  rl_alike : alike h h';
  rl_alc : ∀ q, alc (get h' q) = alc (get h q);
  rl_tim : ∀ q, tim (get h' q) = tim (get h q);
  rl_exe : ∀ q, ivalue_valid (exe (get h' q)) = ivalue_valid (exe (get h q)) ∧ ovalue_valid (exe (get h' q)) = ovalue_valid (exe (get h q)) ∧
    in_readyQ (exe (get h' q)) = in_readyQ (exe (get h q)) ∧ action_id (exe (get h' q)) = action_id (exe (get h q));
  rl_Mop : ∀ i m, Mop_at h i = Ok m → ∃ l, Mop_at h' i = Ok (with_uops l m)
}.

#[export] Instance relinked_pre : PreOrder relinked.
Proof.
  split.
  - intros h. split; try done. intros i m E. exists (m_uop m). rewrite E. by destruct m.
  - intros h1 h2 h3 [A1 B1 C1 D1 E1] [A2 B2 C2 D2 E2]. split.
    + by transitivity h2.
    + intros q. by rewrite B2.
    + intros q. by rewrite C2.
    + intros q. destruct (D1 q) as (<- & <- & <- & <-). apply D2.
    + intros i m E. destruct (E1 i m E) as (l & E'). destruct (E2 _ _ E') as (l' & ->). by exists l'.
Qed.

Lemma changed_relinked h h' p f : live h p → changed h h' p (with_exe f (get h p)) →
  (∀ e, ivalue_valid (f e) = ivalue_valid e ∧ ovalue_valid (f e) = ovalue_valid e ∧ in_readyQ (f e) = in_readyQ e ∧ action_id (f e) = action_id e) → relinked h h'.
Proof.
  intros Hl Hc Hf. split.
  - by apply (changed_alike _ _ _ _ _ Hl Hc).
  - intros q. rewrite (changed_get _ _ _ _ q Hc). by destruct (decide (q = p)) as [->|].
  - intros q. rewrite (changed_get _ _ _ _ q Hc). by destruct (decide (q = p)) as [->|].
  - intros q. rewrite (changed_get _ _ _ _ q Hc). destruct (decide (q = p)) as [->|]; [apply Hf|done].
  - intros i m E. pose proof (ch_Mop _ _ _ _ Hc i) as HM. by rewrite E in HM.
Qed.

(** The links as two functions of the uops. *)
Lemma upd_idep h p l (Q : heap → Prop) : live h p →
  (∀ h', relinked h h' → (∀ q, ideps h' q = if decide (q = p) then l else ideps h q) → (∀ q, odeps h' q = odeps h q) → Q h') → wp (upd_uop h p (set_idep l)) Q.
Proof.
  intros Hl HQ. apply (wp_upd_uop _ _ _ _ _ Hl). intros h' Hc. apply HQ.
  - by apply (changed_relinked _ _ _ _ Hl Hc).
  - intros q. unfold ideps. rewrite (changed_get _ _ _ _ q Hc). by destruct (decide (q = p)).
  - intros q. unfold odeps. rewrite (changed_get _ _ _ _ q Hc). by destruct (decide (q = p)) as [->|].
Qed.

Lemma upd_odep h p f (Q : heap → Prop) : live h p →
  (∀ h', relinked h h' → (∀ q, odeps h' q = if decide (q = p) then f (odeps h p) else odeps h q) → (∀ q, ideps h' q = ideps h q) → Q h') →
  wp (upd_uop h p (λ v, set_odep (f (odep_uop (exe v))) v)) Q.
Proof.
  intros Hl HQ. apply (wp_upd_uop _ _ _ _ _ Hl). intros h' Hc. apply HQ.
  - apply (changed_relinked _ _ _ (λ e, mk_exec (idep_uop e) (f (odep_uop e)) (ivalue_valid e) (ovalue_valid e) (in_readyQ e) (action_id e)) Hl Hc). done.
  - intros q. unfold odeps. rewrite (changed_get _ _ _ _ q Hc). by destruct (decide (q = p)).
  - intros q. unfold ideps. rewrite (changed_get _ _ _ _ q Hc). by destruct (decide (q = p)) as [->|].
Qed.

Lemma relinked_live h h' p : relinked h h' → live h p → live h' p.
Proof. intros Hr. apply live_alike, Hr. Qed.

(** ** Dispatch *)

(** The links that join the consumers of [q], from the [j]th input of [p] on. *)
Definition joins (p : ptr) (j : Z) (os : list (option ptr)) (q : ptr) (l : list (ptr * Z)) : Prop :=
  NoDup l ∧ ∀ r i, (r, i) ∈ l ↔ r = p ∧ j ≤ i ∧ os !! Z.to_nat (i - j) = Some (Some q).

Lemma joins_cons p j o os q l : joins p (j + 1) os q l → joins p j (o :: os) q (l ++ if decide (o = Some q) then [(p, j)] else []).
Proof.
  intros [Hn Hl]. assert ((p, j) ∉ l) as Hj by (rewrite Hl; lia). split.
  - apply list.NoDup_app. split; [done|]. split; [|destruct (decide _); [apply NoDup_singleton|constructor]].
    intros x Hx. destruct (decide _); [intros ->%list_elem_of_singleton; done|by intros ?%elem_of_nil].
  - intros r i. rewrite elem_of_app, Hl. split.
    + intros [(-> & Hi & E)|Hx].
      * split; [done|]. split; [lia|]. replace (Z.to_nat (i - j)) with (S (Z.to_nat (i - (j + 1)))) by lia. done.
      * destruct (decide (o = Some q)) as [->|]; [|by apply elem_of_nil in Hx]. apply list_elem_of_singleton in Hx as [= -> ->].
        split; [done|]. split; [lia|]. by rewrite Z.sub_diag.
    + intros (-> & Hi & E). destruct (decide (i = j)) as [->|Hne].
      * right. rewrite Z.sub_diag in E. simpl in E. injection E as ->. rewrite decide_True by done. left.
      * left. split; [done|]. split; [lia|]. by replace (Z.to_nat (i - j)) with (S (Z.to_nat (i - (j + 1)))) in E by lia.
Qed.

Lemma link_inputs_ok h p j os : 0 ≤ j → live h p → j + Z.of_nat (length os) = Z.of_nat (length (ideps h p)) →
  (∀ q, Some q ∈ os → live h q ∧ q ≠ p) →
  wp (link_inputs h p j os) (λ h', relinked h h' ∧ (∀ q, q ≠ p → ideps h' q = ideps h q) ∧ ideps h' p = take (Z.to_nat j) (ideps h p) ++ os ∧
    ∀ q, ∃ l, odeps h' q = l ++ odeps h q ∧ joins p j os q l).
Proof.
  revert h j. induction os as [|o os IH]; intros h j Hj Hp Hlen Ho.
  { simpl. split; [done|]. split; [done|]. simpl in Hlen. split; [rewrite app_nil_r, firstn_all2; [done|lia]|].
    intros q. exists []. split; [done|]. split; [constructor|]. intros r i. rewrite elem_of_nil. split; [done|]. intros (_ & _ & E). done. }
  simpl in Hlen. simpl link_inputs. unfold link_input. unfold live in Hp. rewrite Hp. cbn [rbind]. change (idep_uop (exe (get h p))) with (ideps h p).
  rewrite aset_ok by lia. cbn [rbind]. apply wp_bind, wp_bind. apply upd_idep; [exact Hp|]. intros h1 R1 I1 O1.
  assert (∀ h2, relinked h1 h2 → (∀ q, ideps h2 q = ideps h1 q) → (∀ q, odeps h2 q = (if decide (o = Some q) then [(p, j)] else []) ++ odeps h q) →
    wp (link_inputs h2 p (j + 1) os) (λ h', relinked h h' ∧ (∀ q, q ≠ p → ideps h' q = ideps h q) ∧ ideps h' p = take (Z.to_nat j) (ideps h p) ++ o :: os ∧
    ∀ q, ∃ l, odeps h' q = l ++ odeps h q ∧ joins p j (o :: os) q l)) as Hgo.
  { intros h2 R2 I2 O2. assert (relinked h h2) as R by by transitivity h1. assert (ideps h2 p = <[Z.to_nat j := o]> (ideps h p)) as Ep by by rewrite I2, I1, decide_True.
    eapply wp_mono; [apply (IH h2 (j + 1)); [lia|by eapply relinked_live|rewrite Ep, length_insert; lia|]|].
    - intros q Hq. destruct (Ho q) as [Hl Hne]; [by right|]. split; [by eapply relinked_live|done].
    - intros h' (R' & I' & Ip & O'). split; [by transitivity h2|]. split; [intros q Hq; by rewrite I', I2, I1, decide_False|]. split.
      + rewrite Ip, Ep. replace (Z.to_nat (j + 1)) with (S (Z.to_nat j)) by lia.
        rewrite (take_S_r _ _ o) by (apply list_lookup_insert_eq; lia). rewrite take_insert_ge by lia. by rewrite <- app_assoc.
      + intros q. destruct (O' q) as (l & E & Hl). rewrite O2 in E. eexists. split; [by rewrite E, app_assoc|]. by apply joins_cons. }
  destruct o as [q|].
  - apply (upd_odep h1 q (λ l, (p, j) :: l)); [eapply relinked_live; [done|]; apply Ho; left|]. intros h2 R2 O2 I2. apply Hgo; [done|done|].
    intros r. rewrite O2, O1. destruct (decide (r = q)) as [->|Hne]; [by rewrite decide_True|by rewrite O1, decide_False by congruence].
  - apply Hgo; [done|done|]. intros r. by rewrite O1, decide_False.
Qed.

Lemma deps_dispatch h infl p os : Forall (deps_ok h infl) infl → Forall (live h) infl → live h p → p ∉ infl →
  ideps h p = replicate (Z.to_nat MAX_IDEPS) None → odeps h p = [] → (∀ q, q ∈ infl → seq_of h q < seq_of h p) →
  Z.of_nat (length os) = MAX_IDEPS → (∀ q, Some q ∈ os → q ∈ infl) →
  wp (link_inputs h p 0 os) (λ h', relinked h h' ∧ Forall (deps_ok h' (infl ++ [p])) (infl ++ [p]) ∧ ideps h' p = os ∧
    ∀ q, q ∉ infl → q ≠ p → ideps h' q = ideps h q ∧ odeps h' q = odeps h q).
Proof.
  intros Hd Hli Hlp Hp Hip Hop Hseq Hlen Hos. rewrite list.Forall_forall in Hd, Hli.
  eapply wp_mono; [apply link_inputs_ok; [done|done|by rewrite Hip, Hlen|]|].
  { intros q Hq. split; [by apply Hli, Hos|]. intros ->. by apply Hp, Hos. }
  intros h' (R & I & Ip & O). change (take (Z.to_nat 0) (ideps h p)) with (@nil (option ptr)) in Ip. simpl in Ip. split; [done|].
  refine (conj _ (conj Ip (λ q Hq Hne, conj (I q Hne) _))); cycle 1.
  { destruct (O q) as ([|[r i] l] & -> & _ & Hl); [done|]. destruct Hq. apply Hos. destruct (proj1 (Hl r i)) as (_ & _ & E); [left|]. by eapply list_elem_of_lookup_2. }
  assert (∀ q, seq_of h' q = seq_of h q) as Hs by (intros q; unfold seq_of; by rewrite (al_D _ _ (rl_alike _ _ R))).
  assert (∀ q, q ∈ infl → q ≠ p) as Hne by by (intros q Hq ->).
  apply list.Forall_forall. intros q Hq. destruct (O q) as (l & E & Hnl & Hl). split.
  - apply elem_of_app in Hq as [Hq|Hq%list_elem_of_singleton]; [rewrite I by auto; by apply Hd|by rewrite Hq, Ip].
  - rewrite E. apply list.NoDup_app. split; [done|]. apply elem_of_app in Hq as [Hq|Hq%list_elem_of_singleton].
    + split; [|by apply Hd]. intros [r i] [-> _]%Hl Hin. apply (dp_out _ _ _ (Hd q Hq)) in Hin as [Hin _]. done.
    + rewrite Hq, Hop. split; [by intros ? _ ?%elem_of_nil|constructor].
  - intros r i. rewrite E, elem_of_app, !Hs. intros [(-> & Hi & Ei)%Hl|Hin].
    + assert (q ∈ infl) as Hqi by (apply Hos; by eapply list_elem_of_lookup_2). rewrite elem_of_app, Ip. replace (i - 0) with i in Ei by lia.
      split; [right; left|]. split; [by apply Hseq|]. by split.
    + apply elem_of_app in Hq as [Hq|Hq%list_elem_of_singleton]; [|rewrite Hq, Hop in Hin; by apply elem_of_nil in Hin].
      destruct (dp_out _ _ _ (Hd q Hq) _ _ Hin) as (H1 & H2 & H3 & H4). rewrite elem_of_app, I by auto. split; [by left|]. done.
  - intros i r Ei. rewrite !Hs. apply elem_of_app in Hq as [Hq|Hq%list_elem_of_singleton].
    + rewrite I in Ei by auto. destruct (dp_in _ _ _ (Hd q Hq) _ _ Ei) as (H1 & H2 & H3). rewrite elem_of_app. split; [by left|]. split; [done|].
      destruct (O r) as (l' & -> & _). apply elem_of_app. by right.
    + subst q. rewrite Ip in Ei. assert (r ∈ infl) as Hr by (apply Hos; by eapply list_elem_of_lookup_2). rewrite elem_of_app. split; [by left|].
      split; [by apply Hseq|]. destruct (O r) as (l' & -> & _ & Hl'). apply elem_of_app. left. apply Hl'. split; [done|]. split; [lia|].
      by replace (Z.to_nat (Z.of_nat i - 0)) with i by lia.
Qed.

(** ** Squash *)

Lemma list_filter_all {A} (P : A → Prop) `{∀ x, Decision (P x)} (l : list A) : (∀ x, x ∈ l → P x) → filter P l = l.
Proof. induction l as [|x l IH]; intros Hl; [done|]. rewrite filter_cons_True by (apply Hl; left). f_equal. apply IH. intros y Hy. apply Hl. by right. Qed.

Lemma remove_link_filter p j l : NoDup l → remove_link p j l = filter (λ x, x ≠ (p, j)) l.
Proof.
  induction l as [|x l IH]; [done|]. intros [Hx Hl]%list.NoDup_cons. simpl. destruct (decide (x = (p, j))) as [->|Hne].
  - rewrite filter_cons_False by naive_solver. symmetry. apply list_filter_all. intros y Hy ->. done.
  - rewrite filter_cons_True by done. by rewrite IH.
Qed.

(** The links of the first inputs of [p] are gone. *)
Definition kept (p : ptr) (j : Z) (x : ptr * Z) : Prop := x.1 ≠ p ∨ j ≤ x.2.

#[local] Instance kept_dec p j x : Decision (kept p j x).
Proof. unfold kept. apply _. Defined.

Lemma kept_step p j (l : list (ptr * Z)) : filter (kept p (j + 1)) l = filter (λ x, x ≠ (p, j)) (filter (kept p j) l).
Proof.
  rewrite list_filter_filter. apply list_filter_iff. intros [q i]. unfold kept. simpl. split.
  - intros [Hq|Hi]; (split; [|by auto with lia]); intros [= -> ->]; (done || lia).
  - intros [Hne [Hq|Hi]]; [by left|]. destruct (decide (q = p)) as [->|]; [|by left]. right. assert (i ≠ j) by congruence. lia.
Qed.

Lemma undo_input_ok h p j l (P : ptr → Prop) : 0 ≤ j < Z.of_nat (length (ideps h p)) → live h p → NoDup l → Forall (λ q, live h q ∧ NoDup (odeps h q)) l → p ∉ l →
  (∀ q, ideps h p !! Z.to_nat j = Some (Some q) → q ∈ l) → (∀ q, q ∈ l → (p, j) ∈ odeps h q → ideps h p !! Z.to_nat j = Some (Some q)) →
  wp (undo_input h p j) (λ h', relinked h h' ∧ (∀ q, q ≠ p → ideps h' q = ideps h q) ∧ ideps h' p = <[Z.to_nat j := None]> (ideps h p) ∧
    odeps h' p = odeps h p ∧ ∀ q, q ∈ l → odeps h' q = filter (λ x, x ≠ (p, j)) (odeps h q)).
Proof.
  intros Hj Hp Hn Hl Hpl Hin Hout. rewrite list.Forall_forall in Hl. unfold undo_input. unfold live in Hp. rewrite Hp. cbn [rbind].
  change (idep_uop (exe (get h p))) with (ideps h p). destruct (aget_ok (ideps h p) j Hj) as ([q|] & E & G); rewrite G; cbn [rbind].
  - assert (q ∈ l) as Hq by by apply Hin. assert (q ≠ p) as Hne by by intros ->.
    apply wp_bind. apply (upd_odep h q (remove_link p j)); [by apply Hl|]. intros h1 R1 O1 I1.
    assert (live h1 p) as Hp1 by by eapply relinked_live. unfold live in Hp1. rewrite Hp1. cbn [rbind]. change (idep_uop (exe (get h1 p))) with (ideps h1 p).
    rewrite I1, aset_ok by done. cbn [rbind]. apply upd_idep; [exact Hp1|]. intros h2 R2 I2 O2. split; [by transitivity h1|].
    split; [intros r Hr; by rewrite I2, decide_False, I1|]. split; [by rewrite I2, decide_True|]. split; [by rewrite O2, O1, decide_False|].
    intros r Hr. rewrite O2, O1. destruct (decide (r = q)) as [->|Hrq]; [by apply remove_link_filter, Hl|].
    symmetry. apply list_filter_all. intros x Hx ->. apply Hrq. apply (Hout r Hr) in Hx. congruence.
  - cbn [wp]. split; [done|]. split; [done|]. split; [by rewrite list_insert_id|]. split; [done|].
    intros r Hr. symmetry. apply list_filter_all. intros x Hx ->. apply (Hout r Hr) in Hx. congruence.
Qed.

Lemma undo_none h p : live h p → ideps h p = replicate (Z.to_nat MAX_IDEPS) None → odeps h p = [] → undo_dependences h p = Ok h.
Proof.
  intros Hp Hi Ho. unfold undo_dependences, for_range. change (Z.to_nat (MAX_IDEPS - 0)) with 3%nat. simpl for_loop.
  assert (∀ j, 0 ≤ j < 3 → undo_input h p j = Ok h) as E.
  { intros j Hj. unfold undo_input. unfold live in Hp. rewrite Hp. cbn [rbind]. change (idep_uop (exe (get h p))) with (ideps h p).
    rewrite Hi, (aget_lookup _ _ None); [done|lia|]. apply lookup_replicate. split; [done|]. unfold MAX_IDEPS. lia. }
  rewrite !E by lia. cbn [rbind]. rewrite !E by lia. cbn [rbind]. rewrite !E by lia. cbn [rbind]. unfold live in Hp. rewrite Hp. cbn [rbind].
  change (odep_uop (exe (get h p))) with (odeps h p). by rewrite Ho.
Qed.

Lemma deps_squash h l p : Forall (deps_ok h (l ++ [p])) (l ++ [p]) → Forall (live h) (l ++ [p]) → NoDup (l ++ [p]) → (∀ q, q ∈ l → seq_of h q < seq_of h p) →
  wp (undo_dependences h p) (λ h', relinked h h' ∧ Forall (deps_ok h' l) l).
Proof.
  intros Hd Hli Hn Hseq. apply list.NoDup_app in Hn as (Hn & Hpl & _). assert (p ∉ l) as Hp by (intros Hp; apply (Hpl p Hp); left). clear Hpl.
  rewrite list.Forall_forall in Hd. rewrite list.Forall_forall in Hli.
  assert (deps_ok h (l ++ [p]) p) as Hdp by (apply Hd, elem_of_app; right; left).
  assert (∀ q, q ∈ l → deps_ok h (l ++ [p]) q) as Hdl by (intros; by apply Hd, elem_of_app; left).
  assert (odeps h p = []) as Hop.
  { destruct (odeps h p) as [|[q j] o] eqn:E; [done|]. destruct (dp_out _ _ _ Hdp q j) as (Hq & Hs & _); [rewrite E; left|].
    apply elem_of_app in Hq as [Hq|Hq%list_elem_of_singleton]; [pose proof (Hseq q Hq); lia|subst; lia]. }
  assert (∀ j q, ideps h p !! j = Some (Some q) → q ∈ l) as Hpar.
  { intros j q E. destruct (dp_in _ _ _ Hdp j q E) as (Hq & Hs & _). apply elem_of_app in Hq as [|Hq%list_elem_of_singleton]; [done|]. subst. lia. }
  pose proof (dp_len _ _ _ Hdp) as Hlen. unfold undo_dependences. eapply wp_bind.
  apply (wp_for_range (λ j h', relinked h h' ∧ (∀ q, q ≠ p → ideps h' q = ideps h q) ∧ ideps h' p = replicate (Z.to_nat j) None ++ drop (Z.to_nat j) (ideps h p) ∧
    odeps h' p = [] ∧ ∀ q, q ∈ l → odeps h' q = filter (kept p j) (odeps h q))).
  - done.
  - split; [done|]. split; [done|]. split; [done|]. split; [done|]. intros q Hq. symmetry. apply list_filter_all. intros [r j] Hx. right.
    by apply (dp_out _ _ _ (Hdl q Hq)) in Hx as (_ & _ & ? & _).
  - intros j h' Hj (R & I & Ip & Op & Ol).
    assert (ideps h' p !! Z.to_nat j = ideps h p !! Z.to_nat j) as Ej.
    { rewrite Ip, lookup_app_r by (rewrite length_replicate; lia). rewrite length_replicate, lookup_drop. f_equal. lia. }
    eapply wp_mono; [apply (undo_input_ok h' p j l (λ _, True))|].
    + rewrite Ip, length_app, length_replicate, length_drop. lia.
    + eapply relinked_live; [done|]. apply Hli, elem_of_app. right. left.
    + done.
    + apply list.Forall_forall. intros q Hq. split; [eapply relinked_live; [done|]; by apply Hli, elem_of_app; left|].
      rewrite Ol by done. apply list.NoDup_filter. by apply Hdl.
    + done.
    + intros q. rewrite Ej. apply Hpar.
    + intros q Hq. rewrite Ol, Ej by done. intros [_ Hx]%list_elem_of_filter. by apply (dp_out _ _ _ (Hdl q Hq)) in Hx as (_ & _ & _ & ?).
    + intros h2 (R2 & I2 & Ip2 & Op2 & Ol2). split; [by transitivity h'|]. split; [intros; by rewrite I2, I|]. split.
      * rewrite Ip2, Ip. replace (Z.to_nat (j + 1)) with (S (Z.to_nat j)) by lia. rewrite replicate_S_end, <- app_assoc.
        rewrite insert_app_r_alt by (rewrite length_replicate; lia). rewrite length_replicate, Nat.sub_diag. f_equal.
        destruct (drop (Z.to_nat j) (ideps h p)) as [|o d] eqn:Ed; [apply (f_equal length) in Ed; rewrite length_drop in Ed; simpl in Ed; lia|].
        simpl. f_equal. rewrite (drop_S _ o) in Ed; [by injection Ed|]. rewrite <- (Nat.add_0_r (Z.to_nat j)), <- lookup_drop, Ed. done.
      * split; [by rewrite Op2|]. intros q Hq. by rewrite Ol2, Ol, kept_step.
  - intros h' (R & I & Ip & Op & Ol). assert (live h' p) as Hp' by (eapply relinked_live; [done|]; apply Hli, elem_of_app; right; left).
    unfold live in Hp'. rewrite Hp'. cbn [rbind]. change (odep_uop (exe (get h' p))) with (odeps h' p). rewrite Op. cbn [rbind wp guard_or]. split; [done|].
    assert (∀ q, seq_of h' q = seq_of h q) as Hs by (intros q; unfold seq_of; by rewrite (al_D _ _ (rl_alike _ _ R))).
    assert (∀ q, q ∈ l → q ≠ p) as Hne by (by intros q Hq ->).
    assert (∀ q r j, q ∈ l → (r, j) ∈ odeps h' q ↔ (r, j) ∈ odeps h q ∧ r ≠ p) as Hout.
    { intros q r j Hq. rewrite Ol, list_elem_of_filter by done. split; [|intros [? ?]; by split; [left|]].
      intros [[Hr|Hj] Hx]; [done|]. split; [done|]. intros ->. simpl in Hj. destruct (dp_out _ _ _ (Hdl q Hq) _ _ Hx) as (_ & _ & _ & E).
      apply lookup_lt_Some in E. unfold MAX_IDEPS in *. lia. }
    apply list.Forall_forall. intros q Hq. pose proof (Hdl q Hq) as [H1 H2 H3 H4]. split.
    + by rewrite I by auto.
    + rewrite Ol by done. by apply list.NoDup_filter.
    + intros r j [Hx Hr]%Hout; [|done]. destruct (H3 r j Hx) as (Hr1 & Hr2 & Hr3 & Hr4). rewrite !Hs. rewrite I by done.
      apply elem_of_app in Hr1 as [|Hr1%list_elem_of_singleton]; done.
    + intros j r E. rewrite !Hs. rewrite I in E by auto. destruct (H4 j r E) as (Hr1 & Hr2 & Hr3).
      apply elem_of_app in Hr1 as [Hr1|Hr1%list_elem_of_singleton]; [|subst; pose proof (Hseq q Hq); lia]. split; [done|]. split; [done|]. apply Hout; auto.
Qed.

(** ** Commit *)

Lemma release_ok h l : NoDup l → Forall (λ x, live h x.1 ∧ 0 ≤ x.2 < Z.of_nat (length (ideps h x.1))) l →
  wp (release_consumers h l) (λ h', relinked h h' ∧ (∀ q, odeps h' q = odeps h q) ∧ (∀ q, length (ideps h' q) = length (ideps h q)) ∧
    ∀ q j, ideps h' q !! j = if decide ((q, Z.of_nat j) ∈ l) then Some None else ideps h q !! j).
Proof.
  revert h. induction l as [|[q j] l IH]; intros h Hn Hl.
  { cbn [release_consumers wp]. split; [done|]. split; [done|]. split; [done|]. intros q j. by rewrite decide_False by (by intros ?%elem_of_nil). }
  apply list.NoDup_cons in Hn as [Hq Hn]. apply list.Forall_cons in Hl as [[Hlq Hj] Hl]. simpl in Hlq, Hj. cbn [release_consumers]. unfold live in Hlq. rewrite Hlq. cbn [rbind].
  change (idep_uop (exe (get h q))) with (ideps h q). rewrite aset_ok by done. cbn [rbind]. apply wp_bind. apply upd_idep; [exact Hlq|]. intros h1 R1 I1 O1.
  assert (∀ r, length (ideps h1 r) = length (ideps h r)) as L1 by (intros r; rewrite I1; destruct (decide (r = q)) as [->|]; [by rewrite length_insert|done]).
  eapply wp_mono; [apply IH; [done|]|].
  - eapply list.Forall_impl; [exact Hl|]. intros x [H1 H2]. rewrite L1. split; [by eapply relinked_live|done].
  - intros h' (R & O & L & I). split; [by transitivity h1|]. split; [intros; by rewrite O|]. split; [intros; by rewrite L|].
    intros r i. rewrite I. destruct (decide ((r, Z.of_nat i) ∈ l)) as [Hi|Hi]; [by rewrite decide_True by (by right)|]. rewrite I1.
    destruct (decide (r = q)) as [->|Hr].
    + destruct (decide (i = Z.to_nat j)) as [->|Hne].
      * rewrite decide_True by (rewrite Z2Nat.id by lia; left). apply list_lookup_insert_eq. lia.
      * rewrite list_lookup_insert_ne by congruence. rewrite decide_False; [done|]. intros [[= E]|]%elem_of_cons; [lia|done].
    + rewrite decide_False; [done|]. intros [[= E]|]%elem_of_cons; done.
Qed.

Lemma deps_commit h p l : Forall (deps_ok h (p :: l)) (p :: l) → Forall (live h) (p :: l) → NoDup (p :: l) → (∀ q, q ∈ l → seq_of h p < seq_of h q) →
  wp (release_consumers h (odeps h p)) (λ h1, relinked h h1 ∧ wp (upd_uop h1 p (set_odep [])) (λ h', relinked h h' ∧ Forall (deps_ok h' l) l ∧
    ∀ q, q ∉ p :: l → ideps h' q = ideps h q ∧ odeps h' q = odeps h q)).
Proof.
  intros Hd Hli [Hp Hn]%list.NoDup_cons Hseq. apply list.Forall_cons in Hd as [Hdp Hdl]. rewrite list.Forall_forall in Hdl. rewrite list.Forall_forall in Hli.
  assert (∀ q j, (q, j) ∈ odeps h p → q ∈ l) as Hin.
  { intros q j Hx. destruct (dp_out _ _ _ Hdp q j Hx) as (Hq & Hs & _). apply elem_of_cons in Hq as [->|]; [lia|done]. }
  eapply wp_mono; [apply release_ok; [apply Hdp|]|].
  - apply list.Forall_forall. intros [q j] Hx. destruct (dp_out _ _ _ Hdp q j Hx) as (Hq & _ & Hj & E). split; [by apply Hli|]. simpl.
    apply lookup_lt_Some in E. lia.
  - intros h1 (R1 & O1 & L1 & I1). split; [done|]. assert (live h1 p) as Hp1 by (eapply relinked_live; [done|]; apply Hli; left).
    apply (upd_odep h1 p (λ _, []) _ Hp1). intros h' R O I. assert (relinked h h') as Rt by by transitivity h1. split; [done|].
    assert (∀ q, q ∉ p :: l → ideps h' q = ideps h q ∧ odeps h' q = odeps h q) as Hrest.
    { intros q [Hqp Hql]%not_elem_of_cons. split; [|by rewrite O, decide_False, O1]. apply list_eq. intros j. rewrite I, I1, decide_False; [done|]. by intros ?%Hin. }
    split; [|exact Hrest]. clear Hrest.
    assert (∀ q, seq_of h' q = seq_of h q) as Hs by (intros q; unfold seq_of; by rewrite (al_D _ _ (rl_alike _ _ Rt))).
    assert (∀ q, q ∈ l → odeps h' q = odeps h q) as Ho by (intros q Hq; rewrite O, decide_False, O1 by (by intros ->); done).
    apply list.Forall_forall. intros q Hq. pose proof (Hdl q Hq) as [H1 H2 H3 H4]. split.
    + by rewrite I, L1.
    + by rewrite Ho.
    + intros r j Hx. rewrite Ho in Hx by done. destruct (H3 r j Hx) as (Hr1 & Hr2 & Hr3 & Hr4). rewrite !Hs, I, I1.
      apply elem_of_cons in Hr1 as [->|Hr1]; [pose proof (Hseq q Hq); lia|]. split_and!; [done..|].
      rewrite decide_False; [done|]. rewrite Z2Nat.id by done. intros Hx'. destruct (dp_out _ _ _ Hdp _ _ Hx') as (_ & _ & _ & E). simplify_eq. done.
    + intros j r E. rewrite I, I1 in E. destruct (decide _) as [|Hnx]; [done|]. destruct (H4 j r E) as (Hr1 & Hr2 & Hr3). rewrite !Hs.
      apply elem_of_cons in Hr1 as [->|Hr1]; [done|]. by rewrite Ho.
Qed.

End back_links.
