(* ===== verification/BackStations.v ===== *)
(** * BackStations: the reservation stations and the ports in program order

    Dispatch, execution and squash of one uop, with the counts of the ports.

    The members of a fused set agree on what the decoder says of the set; the entries of the
    reservation stations stay the sets in flight when a uop is dispatched, goes to execution
    or commits. *)

From S2P Require Import Prelude Misc CacheHeap OracleDeps Uops RS LSQ ROB Backend BackHeap BackInv.

Module back_stations.
Import uops backend back_heap order back_inv.

(** ** Other descriptions of the same uops *)

Lemma chained_ext (D D' : ptr → decode_t) hd p l : (∀ q, D' q = D q) → rs.chained D hd p l → rs.chained D' hd p l.
Proof. intros HD. revert p. induction l as [|q l IH]; intros p; simpl; [done|]. rewrite !HD. intros (H1 & H2 & H3 & H4 & Hl). split_and!; [done..|]. by apply IH. Qed.

Lemma rs_ok_ext (D D' : ptr → decode_t) x es : (∀ q, D' q = D q) → rs.ok D x es → rs.ok D' x es.
Proof.
  intros HD [H1 H2 H3 H4 H5 H6 H7]. split; try done. eapply list.Forall_impl; [exact H2|]. intros e [P1 P2 (p & b & l & P3 & P4 & P5) P6 P7]. split; try done.
  - unfold rs.packet in *. destruct (rs.e_uops e).*1 as [|q l']; [done|]. rewrite HD. destruct (in_fusion (D q)); [|done].
    destruct P1 as (? & ? & ?). split_and!; [done..|]. by eapply chained_ext.
  - intros q c. rewrite HD. apply P2.
  - exists p, b, l. split; [done|]. split; [done|]. rewrite P5. unfold rs.head_count. rewrite P3, HD. done.
Qed.

(** ** The uops that wait *)

Lemma waiting_uops_app es es' : waiting (es ++ es') = waiting es ++ waiting es'.
Proof. apply bind_app. Qed.

Lemma waiting_single i l : waiting [rs.mk_entry i l] = (filter (λ x, x.2 = false) l).*1.
Proof. unfold waiting. simpl. by rewrite app_nil_r. Qed.

Lemma waiting_member es p : p ∈ waiting es → p ∈ rs.members es.
Proof.
  intros (e & Hp & He)%list_elem_of_bind. apply list_elem_of_fmap in Hp as ([q b] & -> & [_ Hq]%list_elem_of_filter).
  apply list_elem_of_bind. exists e. split; [|done]. by apply (list_elem_of_fmap_2 fst _ (q, b)).
Qed.

Lemma waiting_elem es p : p ∈ waiting es ↔ ∃ e, e ∈ es ∧ (p, false) ∈ rs.e_uops e.
Proof.
  unfold waiting. rewrite list_elem_of_bind. split.
  - intros (e & Hp & He). exists e. split; [done|]. apply list_elem_of_fmap in Hp as ([q b] & -> & [E Hq]%list_elem_of_filter). simpl in *. by subst.
  - intros (e & He & Hp). exists e. split; [|done]. apply (list_elem_of_fmap_2 fst _ (p, false)). by apply list_elem_of_filter.
Qed.

Lemma waiting_nodup es : NoDup (rs.members es) → NoDup (waiting es).
Proof.
  induction es as [|e es IH]; [done|]. intros (H1 & H12 & H2)%list.NoDup_app. simpl. apply list.NoDup_app. split; [|split; [|by apply IH]].
  - eapply sublist_NoDup; [exact H1|]. apply fmap_sublist, sublist_filter.
  - intros p Hp Hp'%waiting_member. apply (H12 p); [|done]. apply list_elem_of_fmap in Hp as (x & -> & [_ Hx]%list_elem_of_filter). by apply list_elem_of_fmap_2.
Qed.

Lemma tick_waiting p l : NoDup l.*1 → (p, false) ∈ l → (filter (λ x : ptr * bool, x.2 = false) l).*1 ≡ₚ p :: (filter (λ x : ptr * bool, x.2 = false) (rs.tick p l)).*1.
Proof.
  induction l as [|[q b] l IH]; [by intros _ ?%elem_of_nil|]. intros [Hq Hl]%list.NoDup_cons Hp. rewrite rs.tick_cons.
  apply elem_of_cons in Hp as [[= <- <-]|Hp].
  - rewrite decide_True by done. rewrite filter_cons_True, filter_cons_False by done. simpl. by rewrite rs.tick_other.
  - assert (q ≠ p) as Hne by (intros ->; apply Hq; by apply (list_elem_of_fmap_2 fst _ (p, false))). rewrite decide_False by done. destruct b.
    + rewrite !filter_cons_False by done. by apply IH.
    + rewrite !filter_cons_True by done. simpl. rewrite (IH Hl Hp). apply Permutation_swap.
Qed.

Lemma waiting_zero l : rs.waiting l = 0 → filter (λ x : ptr * bool, x.2 = false) l = [].
Proof. unfold rs.waiting. intros H. apply length_zero_iff_nil. lia. Qed.

(** A uop goes to execution. *)
Lemma waiting_execute es1 e es2 p : NoDup (rs.members (es1 ++ e :: es2)) → (p, false) ∈ rs.e_uops e →
  waiting (es1 ++ e :: es2) ≡ₚ p :: waiting (es1 ++ rs.entries_of (rs.e_slot e) (rs.remaining p (rs.e_uops e)) ++ es2).
Proof.
  intros Hn Hp. assert (NoDup (rs.e_uops e).*1) as Hne.
  { rewrite rs.members_app in Hn. apply list.NoDup_app in Hn as (_ & _ & Hn). change (NoDup ((rs.e_uops e).*1 ++ rs.members es2)) in Hn. by apply list.NoDup_app in Hn as (? & _ & _). }
  rewrite !waiting_uops_app. change (waiting (e :: es2)) with ((filter (λ x : ptr * bool, x.2 = false) (rs.e_uops e)).*1 ++ waiting es2).
  rewrite (tick_waiting p) by done. simpl. rewrite <- Permutation_middle. f_equiv. f_equiv. f_equiv.
  unfold rs.remaining. destruct (decide (rs.waiting (rs.tick p (rs.e_uops e)) = 0)) as [E|E]; [by rewrite (waiting_zero _ E)|]. simpl. by rewrite app_nil_r.
Qed.

(** ** The loads of the ports *)

Lemma load_perm h loading l l' : l ≡ₚ l' → load_ok h loading l → load_ok h loading l'.
Proof. intros Hl Hok port n G. rewrite (Hok port n G). by rewrite Hl. Qed.

Lemma load_frame h h' loading l : (∀ p, p ∈ l → port_of h' p = port_of h p) → load_ok h loading l → load_ok h' loading l.
Proof.
  intros Hl Hok port n G. rewrite (Hok port n G). do 2 f_equal. clear Hok. induction l as [|p l IH]; [done|]. rewrite !filter_cons.
  rewrite (Hl p) by left. by rewrite IH by (intros; apply Hl; by right).
Qed.

Lemma load_join h loading l p : 0 ≤ port_of h p < Z.of_nat (length loading) → load_ok h loading l →
  wp (amodify loading (port_of h p) (Z.add 1)) (λ loading', length loading' = length loading ∧ load_ok h loading' (l ++ [p])).
Proof.
  intros Hp Hok. destruct (aget_ok loading (port_of h p) Hp) as (n & _ & G). unfold amodify. rewrite G. cbn [rbind]. rewrite aset_ok by done. cbn [wp].
  split; [by rewrite length_insert|]. intros port n' G'. rewrite list.filter_app, length_app. destruct (decide (port_of h p = port)) as [<-|Hne].
  - rewrite filter_cons_True by done. simpl. apply aget_inv in G' as [_ G']. rewrite list_lookup_insert_eq in G' by lia. injection G' as <-. rewrite (Hok _ _ G). lia.
  - rewrite filter_cons_False by done. simpl. rewrite Nat.add_0_r. apply Hok. rewrite <- G'. symmetry. eapply aget_aset_ne; [by apply aset_ok|]. done.
Qed.

Lemma load_leave h c l p : 0 ≤ port_of h p < Z.of_nat (length (port_loading c)) → load_ok h (port_loading c) (p :: l) →
  wp (alloc_RS_deallocate c (port_of h p)) (λ c', ∃ loading', c' = set_loading loading' c ∧ length loading' = length (port_loading c) ∧ load_ok h loading' l).
Proof.
  intros Hp Hok. destruct (aget_ok (port_loading c) (port_of h p) Hp) as (n & _ & G). unfold alloc_RS_deallocate. rewrite G. cbn [rbind].
  pose proof (Hok _ _ G) as En. rewrite filter_cons_True in En by done. simpl in En. rewrite (proj2 (Z.ltb_lt _ _)) by lia. cbn [guard_or rbind].
  rewrite aset_ok by done. cbn [rbind wp]. eexists. split; [done|]. split; [by rewrite length_insert|]. intros port n' G'. destruct (decide (port_of h p = port)) as [<-|Hne].
  - apply aget_inv in G' as [_ G']. rewrite list_lookup_insert_eq in G' by lia. injection G' as <-. lia.
  - assert (aget (port_loading c) port = Ok n') as G0 by (rewrite <- G'; symmetry; eapply aget_aset_ne; [by apply aset_ok|done]).
    rewrite (Hok _ _ G0). rewrite filter_cons_False by done. done.
Qed.

(** ** Entries and their fused sets *)

Lemma sublist_snoc {A} (l1 l2 : list A) x y : sublist (l1 ++ [x]) (l2 ++ [y]) → sublist l1 l2.
Proof.
  intros (k1 & k2 & E & H1 & H2)%sublist_app_r. inversion H2 as [|? ? ? H2'|? ? ? H2']; subst.
  - apply sublist_nil_r in H2' as ->. by apply app_inj_tail in E as [-> _].
  - apply sublist_nil_r in H2' as ->. rewrite app_nil_r in E. subst k1. etrans; [|exact H1]. by apply sublist_inserts_r.
Qed.

Lemma sublist_other {A} (l1 l2 : list A) x : sublist l1 (l2 ++ [x]) → x ∉ l1 → sublist l1 l2.
Proof.
  intros (k1 & k2 & -> & H1 & H2)%sublist_app_r Hx. inversion H2 as [|? ? ? H2'|? ? ? H2']; subst.
  - destruct Hx. apply elem_of_app. right. left.
  - apply sublist_nil_r in H2' as ->. by rewrite app_nil_r.
Qed.

Lemma sublist_first {A} (l1 l2 : list A) x : sublist l1 (x :: l2) → x ∉ l1 → sublist l1 l2.
Proof. intros Hl Hx. inversion Hl; subst; [destruct Hx; left|done]. Qed.

Lemma members_concat es : rs.members es = concat (members_of <$> es).
Proof. induction es as [|e es IH]; [done|]. simpl. by rewrite IH. Qed.

Lemma elem_of_concat {A} (gs : list (list A)) p : p ∈ concat gs ↔ ∃ g, g ∈ gs ∧ p ∈ g.
Proof.
  induction gs as [|g gs IH]; simpl; [split; [by intros ?%elem_of_nil|by intros (g & ?%elem_of_nil & _)]|]. rewrite elem_of_app, IH. split.
  - intros [Hp|(g' & Hg & Hp)]; [exists g; split; [left|done]|exists g'; split; [by right|done]].
  - intros (g' & [->|Hg]%elem_of_cons & Hp); [by left|right; eauto].
Qed.

Lemma members_in es gs p : sublist (members_of <$> es) gs → p ∈ rs.members es → p ∈ concat gs.
Proof. intros Hs. rewrite members_concat, !elem_of_concat. intros (g & Hg & Hp). exists g. split; [by eapply elem_of_sublist|done]. Qed.

(** ** One uop more or less *)

Definition same_time (h h' : heap) (l : list ptr) : Prop := ∀ p, p ∈ l → alc (get h' p) = alc (get h p) ∧ tim (get h' p) = tim (get h p).

Lemma exec_ok_frame k h h' es es' p : alike h h' → alc (get h' p) = alc (get h p) → tim (get h' p) = tim (get h p) → (p ∈ waiting es' ↔ p ∈ waiting es) →
  exec_ok k h es p → exec_ok k h' es' p.
Proof.
  intros Ha Ea Et Hw [H1 H2 H3]. unfold port_of, exec_at, completed_at in *.
  split; unfold port_of, exec_at, completed_at; rewrite ?(needs_alike _ _ Ha), ?(trap_alike _ _ Ha), ?Ea, ?Et, ?Hw; done.
Qed.

Section seated.
Context {k : knobs} {h : heap} {x : rs.t} {loading : list Z} {infl : list ptr} {es : list rs.entry}.
Hypothesis Hs : seated k h x loading infl es.

Lemma seated_waiting p : p ∈ waiting es → p ∈ infl ∧ needs h p = true.
Proof. intros Hp. apply (se_members _ _ _ _ _ _ Hs). by apply waiting_member. Qed.

Lemma seated_exec p : p ∈ infl → exec_ok k h es p.
Proof. apply (proj1 (list.Forall_forall _ _) (se_exec _ _ _ _ _ _ Hs)). Qed.

Lemma seated_frame h' : alike h h' → same_time h h' infl → seated k h' x loading infl es.
Proof.
  intros Ha Ht. split.
  - eapply rs_ok_ext; [exact (al_D _ _ Ha)|apply Hs].
  - intros p Hp. rewrite (needs_alike _ _ Ha). by apply Hs.
  - apply list.Forall_forall. intros p Hp. destruct (Ht p Hp). eapply exec_ok_frame; [done..|]. by apply seated_exec.
  - apply Hs.
  - eapply load_frame; [|apply Hs]. intros p Hp%seated_waiting. destruct (Ht p) as [E _]; [apply Hp|]. unfold port_of. by rewrite E.
Qed.

(** A uop is dispatched to the reservation stations. *)
Lemma seated_join h' x' loading' es' p : alike h h' → same_time h h' infl → p ∉ infl → needs h p = true → rs.ok (D h) x' es' →
  waiting es' ≡ₚ waiting es ++ [p] → (∀ q, q ∈ rs.members es' → q ∈ rs.members es ∨ q = p) →
  when_allocated (tim (get h' p)) ≠ TICK_T_MAX → exec_at h' p = TICK_T_MAX → completed_at h' p = TICK_T_MAX → 0 ≤ port_of h' p < num_exec_ports k →
  length loading' = length loading → load_ok h' loading' (waiting es ++ [p]) → seated k h' x' loading' (infl ++ [p]) es'.
Proof.
  intros Ha Ht Hp Hn Hok Hw Hm T1 T2 T3 T4 Hl Hload. split.
  - eapply rs_ok_ext; [exact (al_D _ _ Ha)|done].
  - intros q Hq. rewrite elem_of_app, list_elem_of_singleton, (needs_alike _ _ Ha). destruct (Hm q Hq) as [Hq'| ->]; [|by split; [right|]].
    destruct (se_members _ _ _ _ _ _ Hs q Hq'). by split; [left|].
  - apply list.Forall_app. split.
    + apply list.Forall_forall. intros q Hq. destruct (Ht q Hq). eapply exec_ok_frame; [done..| |by apply seated_exec].
      rewrite Hw, elem_of_app, list_elem_of_singleton. split; [intros [|E]; [done|by subst]|by left].
    + constructor; [|constructor]. split; [done| |rewrite (needs_alike _ _ Ha), Hn; done].
      intros _. split; [done|]. rewrite T2, T3, Hw, elem_of_app, list_elem_of_singleton. split; [|done]. split; [by right|done].
  - rewrite Hl. apply Hs.
  - eapply load_perm; [symmetry; exact Hw|done].
Qed.

(** A uop is dispatched that does not need them. *)
Lemma seated_pass h' p : alike h h' → same_time h h' infl → p ∉ infl → needs h p = false → when_allocated (tim (get h' p)) ≠ TICK_T_MAX →
  port_of h' p = -1 → trap h p.1 = true ∨ exec_at h' p ≠ TICK_T_MAX → seated k h' x loading (infl ++ [p]) es.
Proof.
  intros Ha Ht Hp Hn T1 T2 T3. destruct (seated_frame h' Ha Ht) as [S1 S2 S3 S4 S5]. split; try done.
  - intros q Hq. destruct (S2 q Hq). rewrite elem_of_app. by split; [left|].
  - apply list.Forall_app. split; [done|]. constructor; [|constructor]. split; [done| |].
    + rewrite (needs_alike _ _ Ha), Hn. done.
    + intros _. rewrite (trap_alike _ _ Ha). done.
Qed.

(** The youngest uop is squashed: it had left the reservation stations, or it had not been
    there. *)
Lemma seated_drop h' l p : infl = l ++ [p] → alike h h' → same_time h h' l → p ∉ rs.members es → seated k h' x loading l es.
Proof.
  intros E Ha Ht Hp. destruct Hs as [S1 S2 S3 S4 S5]. subst infl. apply list.Forall_app in S3 as [S3 _]. rewrite list.Forall_forall in S3.
  assert (∀ q, q ∈ rs.members es → q ∈ l) as Hin.
  { intros q Hq. destruct (S2 q Hq) as [[|Hq'%list_elem_of_singleton]%elem_of_app _]; [done|by subst]. }
  split.
  - eapply rs_ok_ext; [exact (al_D _ _ Ha)|done].
  - intros q Hq. rewrite (needs_alike _ _ Ha). split; [by apply Hin|by apply S2].
  - apply list.Forall_forall. intros q Hq. destruct (Ht q Hq). eapply exec_ok_frame; [done..|]. by apply S3.
  - done.
  - eapply load_frame; [|done]. intros q Hq%waiting_member. destruct (Ht q) as [Eq _]; [by apply Hin|]. unfold port_of. by rewrite Eq.
Qed.

(** The youngest uop is squashed in its entry. *)
Lemma seated_leave h' x' loading' l p es' i le b : infl = l ++ [p] → NoDup infl → es = es' ++ [rs.mk_entry i (le ++ [(p, b)])] → alike h h' → same_time h h' l →
  rs.ok (D h) x' (es' ++ rs.entries_of i (if decide (le = []) then None else Some le)) → length loading' = length loading →
  load_ok h loading' (waiting (es' ++ rs.entries_of i (if decide (le = []) then None else Some le))) →
  seated k h' x' loading' l (es' ++ rs.entries_of i (if decide (le = []) then None else Some le)).
Proof.
  intros E Hn Ees Ha Ht Hok Hl Hload. set (es2 := es' ++ rs.entries_of i _) in *.
  assert (rs.members es = rs.members es2 ++ [p]) as Em.
  { rewrite Ees. unfold es2. rewrite !rs.members_app, rs.members_of. simpl. rewrite app_nil_r, fmap_app. destruct (decide (le = [])) as [->|]; simpl; [by rewrite !app_nil_r|].
    by rewrite app_assoc. }
  assert (waiting es ≡ₚ waiting es2 ++ (if b then [] else [p])) as Ew.
  { rewrite Ees. unfold es2. rewrite !waiting_uops_app, waiting_single, list.filter_app, fmap_app. rewrite <- app_assoc. f_equiv.
    assert (waiting (rs.entries_of i (if decide (le = []) then None else Some le)) = (filter (λ x, x.2 = false) le).*1) as ->.
    { destruct (decide (le = [])) as [->|]; [done|]. apply waiting_single. }
    f_equiv. by destruct b. }
  destruct Hs as [S1 S2 S3 S4 S5]. pose proof (rs.ok_members _ _ _ S1) as Hnm. rewrite Em in Hnm. apply list.NoDup_app in Hnm as (_ & Hnm & _).
  subst infl. apply list.NoDup_app in Hn as (_ & Hn & _). apply list.Forall_app in S3 as [S3 _]. rewrite list.Forall_forall in S3.
  assert (∀ q, q ∈ rs.members es2 → q ∈ l) as Hin.
  { intros q Hq. destruct (S2 q) as [[|Hq']%elem_of_app _]; [rewrite Em; by apply elem_of_app; left|done|]. destruct (Hnm q Hq Hq'). }
  split.
  - eapply rs_ok_ext; [exact (al_D _ _ Ha)|done].
  - intros q Hq. rewrite (needs_alike _ _ Ha). split; [by apply Hin|]. apply S2. rewrite Em. by apply elem_of_app; left.
  - apply list.Forall_forall. intros q Hq. destruct (Ht q Hq). eapply exec_ok_frame; [done..| |by apply S3].
    rewrite Ew, elem_of_app. split; [by left|]. intros [|Hq']; [done|]. destruct (Hn q Hq). destruct b; [by apply elem_of_nil in Hq'|done].
  - by rewrite Hl.
  - eapply load_frame; [|done]. intros q Hq%waiting_member. destruct (Ht q) as [Eq _]; [by apply Hin|]. unfold port_of. by rewrite Eq.
Qed.

(** The oldest uop commits. *)
Lemma seated_commit h' p l : infl = p :: l → alike h h' → same_time h h' l → p ∉ rs.members es → seated k h' x loading l es.
Proof.
  intros E Ha Ht Hp. destruct Hs as [S1 S2 S3 S4 S5]. subst infl. apply list.Forall_cons in S3 as [_ S3]. rewrite list.Forall_forall in S3.
  assert (∀ q, q ∈ rs.members es → q ∈ l) as Hin.
  { intros q Hq. destruct (S2 q Hq) as [[->|]%elem_of_cons _]; done. }
  split.
  - eapply rs_ok_ext; [exact (al_D _ _ Ha)|done].
  - intros q Hq. rewrite (needs_alike _ _ Ha). split; [by apply Hin|by apply S2].
  - apply list.Forall_forall. intros q Hq. destruct (Ht q Hq). eapply exec_ok_frame; [done..|]. by apply S3.
  - done.
  - eapply load_frame; [|done]. intros q Hq%waiting_member. destruct (Ht q) as [Eq _]; [by apply Hin|]. unfold port_of. by rewrite Eq.
Qed.

(** A uop goes to a functional unit. *)
Lemma seated_execute h' x' loading' es1 e es2 p : es = es1 ++ e :: es2 → (p, false) ∈ rs.e_uops e → alike h h' →
  (∀ q, alc (get h' q) = alc (get h q)) → (∀ q, q ≠ p → tim (get h' q) = tim (get h q)) → when_allocated (tim (get h' p)) = when_allocated (tim (get h p)) →
  exec_at h' p ≠ TICK_T_MAX → rs.ok (D h) x' (es1 ++ rs.entries_of (rs.e_slot e) (rs.remaining p (rs.e_uops e)) ++ es2) →
  length loading' = length loading → load_ok h loading' (waiting (es1 ++ rs.entries_of (rs.e_slot e) (rs.remaining p (rs.e_uops e)) ++ es2)) →
  seated k h' x' loading' infl (es1 ++ rs.entries_of (rs.e_slot e) (rs.remaining p (rs.e_uops e)) ++ es2).
Proof.
  intros Ees Hp Ha Hc Ht Ta Te Hok Hl Hload. set (es' := es1 ++ rs.entries_of _ _ ++ es2) in *. destruct Hs as [S1 S2 S3 S4 S5]. rewrite list.Forall_forall in S3.
  pose proof (rs.ok_members _ _ _ S1) as Hnm. pose proof (waiting_nodup _ Hnm) as Hnw. rewrite Ees in Hnm.
  pose proof (waiting_execute es1 e es2 p Hnm Hp) as Hw. rewrite <- Ees in Hw. fold es' in Hw. rewrite Hw in Hnw. apply list.NoDup_cons in Hnw as [Hpw _].
  assert (∀ q, q ∈ rs.members es' → q ∈ rs.members es) as Hin.
  { intros q. rewrite Ees. unfold es'. rewrite !rs.members_app, rs.members_of. change (rs.members (e :: es2)) with ((rs.e_uops e).*1 ++ rs.members es2).
    rewrite !elem_of_app. intros [|[Hq|]]; [by left| |by right; right]. right. left. unfold rs.remaining in Hq. destruct (decide _); simpl in Hq; [by apply elem_of_nil in Hq|].
    by rewrite rs.tick_fst in Hq. }
  assert (p ∈ infl ∧ needs h p = true) as [Hpi Hpn].
  { apply S2. rewrite Ees, rs.members_app. apply elem_of_app. right. apply elem_of_app. left. by apply (list_elem_of_fmap_2 fst _ (p, false)). }
  split.
  - eapply rs_ok_ext; [exact (al_D _ _ Ha)|done].
  - intros q Hq. rewrite (needs_alike _ _ Ha). by apply S2, Hin.
  - apply list.Forall_forall. intros q Hq. destruct (decide (q = p)) as [->|Hne].
    + destruct (S3 p Hpi) as [X1 X2 X3]. destruct (X2 Hpn) as (Y1 & Y2 & Y3). split; [by rewrite Ta| |by rewrite (needs_alike _ _ Ha), Hpn].
      intros _. unfold port_of in *. rewrite Hc. split; [done|]. split; [|done]. split; done.
    + eapply exec_ok_frame; [done|done|by apply Ht| |by apply S3]. rewrite Hw, elem_of_cons. split; [by right|]. by intros [|].
  - by rewrite Hl.
  - eapply load_frame; [|done]. intros q _. unfold port_of. by rewrite Hc.
Qed.

End seated.

End back_stations.

Module back_shape.
Import uops backend back_heap order back_inv back_stations.

(** ** The members of a set *)

Section sets.
Context {k : knobs} {h : heap} {Q : list Z} {gone infl pend : list ptr}.
Hypothesis Hp : program k h Q gone infl pend.

Lemma set_agree l1 p g l2 : gone ++ infl ++ pend = l1 ++ (p :: g) ++ l2 → Forall (λ q, body h q = true) g →
  Forall (λ q, needs h q = needs h p ∧ fusion_head (D h q) = fusion_head (D h p)) g.
Proof.
  revert l1 p. induction g as [|q g IH]; intros l1 p E Hg; [constructor|]. apply list.Forall_cons in Hg as [Hq Hg].
  pose proof (pr_linked Hp l1 p q (g ++ l2) E) as Hl. unfold linked in Hl. rewrite Hq in Hl. destruct Hl as (_ & _ & Ef & En). constructor; [done|].
  eapply list.Forall_impl; [apply (IH (l1 ++ [p]) q); [by rewrite <- app_assoc|done]|]. intros r [E1 E2]. split; congruence.
Qed.

(** What is known of a set in flight: its first uop [p], and the others. *)
Lemma set_known gs g gs' : sets (body h) infl = gs ++ g :: gs' → ∃ p g', g = p :: g' ∧ Forall (λ q, body h q = true) g' ∧
  Forall (λ q, needs h q = needs h p ∧ fusion_head (D h q) = fusion_head (D h p)) g' ∧ Forall (λ q, q.1 = p.1) g' ∧ (length g ≤ 64)%nat.
Proof.
  intros E. destruct (pr_set (gone := gone) (pend := pend) _ _ _ E) as (p & g' & -> & Ew & Hb). exists p, g'. split_and!; try done.
  - by eapply set_agree.
  - by eapply (pr_set_Mop Hp).
  - by eapply (pr_set_length Hp).
Qed.

Lemma set_needs gs g gs' p q : sets (body h) infl = gs ++ g :: gs' → p ∈ g → q ∈ g → needs h p = needs h q.
Proof.
  intros E Hpg Hq. destruct (set_known _ _ _ E) as (r & g' & -> & _ & Hn & _). rewrite list.Forall_forall in Hn.
  assert (∀ x, x ∈ r :: g' → needs h x = needs h r) as Hr by (intros x [->|Hx]%elem_of_cons; [done|by apply Hn]). by rewrite (Hr p), (Hr q).
Qed.

Lemma set_Mop gs g gs' p q : sets (body h) infl = gs ++ g :: gs' → p ∈ g → q ∈ g → p.1 = q.1.
Proof.
  intros E Hpg Hq. destruct (set_known _ _ _ E) as (r & g' & -> & _ & _ & Hn & _). rewrite list.Forall_forall in Hn.
  assert (∀ x, x ∈ r :: g' → x.1 = r.1) as Hr by (intros x [->|Hx]%elem_of_cons; [done|by apply Hn]). by rewrite (Hr p), (Hr q).
Qed.

(** The uop at the end of a set is linked to the next one. *)
Lemma set_last g gs p : sets (body h) infl = gs ++ [g] → head pend = Some p → body h p = true →
  ∃ q, list.last g = Some q ∧ linked h q p ∧ q.1 = p.1.
Proof.
  intros E Hh Hb. destruct pend as [|p' pend']; [done|]. injection Hh as ->. destruct (pr_set (gone := gone) (pend := p :: pend') _ _ _ E) as (r & g' & -> & Ew & _).
  destruct (list.last (r :: g')) as [q|] eqn:El; [|by apply last_None in El]. exists q. split; [done|]. apply last_Some in El as [l' El].
  rewrite El, <- !app_assoc in Ew. simpl in Ew. destruct (pr_follow Hp ((gone ++ concat gs) ++ l') q p pend') as [Hl HM]; [rewrite <- !app_assoc; exact Ew|].
  split; [done|]. by rewrite HM.
Qed.

End sets.

(** ** The entries *)

Section shape.
Variables (h : heap) (infl : list ptr) (es : list rs.entry).
Hypothesis Hs : shaped h infl es.

Lemma shape_join_new p i : body h p = false ∨ infl = [] → shaped h (infl ++ [p]) (es ++ [rs.mk_entry i [(p, false)]]).
Proof.
  intros Hb. destruct Hs as [S1 S2 S3]. split; rewrite ?sets_snoc_new by done; rewrite ?fmap_app.
  - by apply sublist_app.
  - apply list.Forall_app. split; [done|]. constructor; [|constructor]. simpl. by rewrite rs.waiting_one.
  - intros gs g [_ <-]%app_inj_tail _ _. simpl. by rewrite last_snoc.
Qed.

Lemma shape_join_body p gs g : body h p = true → sets (body h) infl = gs ++ [g] → open h g → Forall (λ p, needs h p = true) g →
  ∃ es0 e, es = es0 ++ [e] ∧ members_of e = g ∧ shaped h (infl ++ [p]) (es0 ++ [rs.mk_entry (rs.e_slot e) (rs.e_uops e ++ [(p, false)])]).
Proof.
  intros Hb E Ho Hn. destruct Hs as [S1 S2 S3]. pose proof (S3 _ _ E Ho Hn) as Hl. rewrite fmap_last in Hl.
  destruct (list.last es) as [e|] eqn:El; [|done]. simpl in Hl. injection Hl as Hl. apply last_Some in El as [es0 ->]. exists es0, e. split; [done|]. split; [done|].
  assert (members_of (rs.mk_entry (rs.e_slot e) (rs.e_uops e ++ [(p, false)])) = g ++ [p]) as Em.
  { unfold members_of in *. simpl. by rewrite fmap_app, Hl. }
  rewrite E, fmap_app in S1. apply list.Forall_app in S2 as [S2 S2']. split; rewrite ?(sets_snoc_body _ _ _ _ _ Hb E).
  - rewrite fmap_app. simpl. rewrite Em. apply sublist_app; [|done]. by eapply sublist_snoc.
  - apply list.Forall_app. split; [done|]. constructor; [|constructor]. simpl. rewrite rs.waiting_app, rs.waiting_one.
    pose proof (rs.waiting_nonneg (rs.e_uops e)). lia.
  - intros gs' g' [_ <-]%app_inj_tail _ _. rewrite fmap_app. simpl. by rewrite last_snoc, <- Em.
Qed.

Lemma shape_pass p : needs h p = false → (body h p = false ∨ infl = []) ∨ (body h p = true ∧ ∃ gs g, sets (body h) infl = gs ++ [g] ∧ g ∉ members_of <$> es) →
  shaped h (infl ++ [p]) es.
Proof.
  intros Hn Hb. destruct Hs as [S1 S2 S3]. split; [|done|].
  - destruct Hb as [Hb|(Hb & gs & g & E & Hg)]; [rewrite sets_snoc_new by done; by apply sublist_inserts_r|].
    rewrite (sets_snoc_body _ _ _ _ _ Hb E). rewrite E in S1. apply sublist_inserts_r. by eapply sublist_other.
  - intros gs g E _ Hg. exfalso. assert (p ∈ g) as Hp.
    { destruct Hb as [Hb|(Hb & gs' & g' & E' & _)]; [rewrite sets_snoc_new in E by done|rewrite (sets_snoc_body _ _ _ _ _ Hb E') in E];
        apply app_inj_tail in E as [_ <-]; [left|apply elem_of_app; right; left]. }
    rewrite list.Forall_forall in Hg. rewrite (Hg p Hp) in Hn. done.
Qed.

(** The oldest uop commits: it is no member, and its set is there as a whole. *)
Lemma shape_commit p l : infl = p :: l → p ∉ rs.members es → (∀ q g gs, sets (body h) infl = (p :: q :: g) :: gs → ¬ open h (q :: g)) → shaped h l es.
Proof.
  intros -> Hp Ho. destruct Hs as [S1 S2 S3]. assert (∀ g, p ∈ g → g ∉ members_of <$> es) as Hno.
  { intros g Hg Hin. apply Hp. rewrite members_concat. apply elem_of_concat. eauto. }
  assert ((∃ q, head l = Some q ∧ body h q = true) ∨ ∀ q, head l = Some q → body h q = false) as [(q & Hq & Hb)|Hb].
  { destruct l as [|q l']; [by right|]. simpl. destruct (body h q) eqn:Eb; [by left; exists q|right; by intros ? [= <-]]. }
  - destruct l as [|q' l]; [done|]. injection Hq as ->. destruct (sets_cons_inv (body h) q l) as (g & gs & E).
    pose proof (sets_cons_body (body h) p q l _ _ Hb E) as E'. rewrite E' in *. split; [|done|].
    + rewrite E. apply sublist_cons. eapply sublist_first; [exact S1|]. apply Hno. left.
    + intros gs' g' Eg Hopen Hn. rewrite E in Eg. destruct gs' as [|g0 gs'].
      * injection Eg as <- ->. destruct (Ho q g [] eq_refl Hopen).
      * injection Eg as <- ->. by apply (S3 ((p :: q :: g) :: gs') g').
  - assert (sets (body h) (p :: l) = [p] :: sets (body h) l) as E by (by apply sets_cons_new).
    rewrite E in *. split; [|done|].
    + eapply sublist_first; [exact S1|]. apply Hno. left.
    + intros gs' g' Eg. apply (S3 ([p] :: gs')). by rewrite Eg.
Qed.

(** A uop goes to execution; its set has been dispatched as a whole. *)
Lemma shape_execute es1 e es2 p : es = es1 ++ e :: es2 → ¬ open h (members_of e) →
  shaped h infl (es1 ++ rs.entries_of (rs.e_slot e) (rs.remaining p (rs.e_uops e)) ++ es2).
Proof.
  intros Ees Ho. destruct Hs as [S1 S2 S3]. subst es. apply list.Forall_app in S2 as [S2 S2']. apply list.Forall_cons in S2' as [_ S2'].
  assert (∀ o, rs.remaining p (rs.e_uops e) = Some o → members_of (rs.mk_entry (rs.e_slot e) o) = members_of e ∧ 1 ≤ rs.waiting o) as Hr.
  { unfold rs.remaining. intros o. destruct (decide _) as [|Hne]; [done|]. intros [= <-]. unfold members_of. simpl. rewrite rs.tick_fst. split; [done|].
    pose proof (rs.waiting_nonneg (rs.tick p (rs.e_uops e))). lia. }
  rewrite fmap_app in S1. split.
  - rewrite !fmap_app. destruct (rs.remaining p (rs.e_uops e)) as [o|]; simpl.
    + destruct (Hr o eq_refl) as [-> _]. done.
    + etrans; [|exact S1]. apply sublist_app; [done|]. simpl. by apply sublist_cons.
  - apply list.Forall_app. split; [done|]. apply list.Forall_app. split; [|done]. destruct (rs.remaining p (rs.e_uops e)) as [o|]; [|constructor].
    constructor; [|constructor]. by apply Hr.
  - intros gs g E Hg Hn. pose proof (S3 gs g E Hg Hn) as Hl. rewrite !fmap_app in *. simpl in Hl. destruct (list.last es2) as [e'|] eqn:El.
    + apply last_Some in El as [es2' ->]. rewrite fmap_app in Hl. simpl in Hl. rewrite app_comm_cons, app_assoc, last_snoc in Hl.
      by rewrite fmap_app, !app_assoc; simpl; rewrite last_snoc.
    + apply last_None in El as ->. simpl in Hl. rewrite last_snoc in Hl. injection Hl as Hl. rewrite Hl in Ho. done.
Qed.

End shape.
End back_shape.
