(* ===== verification/BackState.v ===== *)
(** * BackState: the invariant of the whole back end

    The invariants of the reorder buffer, the reservation stations, the load and store
    queues and the links between uops, for one list of uops in program order.

    Then the loads and stores of the uops in flight: dispatch, squash of the youngest, commit of
    the oldest.

    Last, what program order says of single uops: the uop that is dispatched next, the oldest and the youngest in flight: the macro-op they
    belong to, the uops of its flow around them, and their fused set. *)

From S2P Require Import Prelude Misc Memory CacheSet CacheHeap OracleDeps Uops RS LSQ LSQInv LSQOps LSQCommit LSQRun ROB Backend BackHeap BackInv BackLinks BackStations.

Module back_state.
Import uops backend back_heap order back_inv back_links back_stations.

(** No uop is a HELIX synchronisation. *)
#[export] Instance no_sync : lsq_inv.uop_info := λ _, false.

(** What the rest of the core promises to the commit stage, for the macro-ops in flight: the
    oldest may commit. *)
Class CommitEnvLaws (E : Type) `{CommitEnv E} : Type := {
  ce_ok : E → list Z → Prop;
  law_bpred : ∀ e h i Q, ce_ok e (i :: Q) → wp (ce_bpred_update e h i) (λ e', ce_ok e' (i :: Q));
  law_commit_uop : ∀ e p Q, ce_ok e (p.1 :: Q) → wp (ce_commit_uop e p) (λ e', ce_ok e' (p.1 :: Q));
  law_commit : ∀ e i Q, ce_ok e (i :: Q) → wp (ce_commit e i) (λ e', ce_ok e' Q)
}.

(** ** Frames *)

(** The uops outside of [P] keep all but their links. *)
Record touched (P : ptr → Prop) (h h' : heap) : Prop := {
  to_alike : alike h h';
  to_alc : ∀ q, ¬ P q → alc (get h' q) = alc (get h q);
  to_tim : ∀ q, ¬ P q → tim (get h' q) = tim (get h q);
  to_exe : ∀ q, ¬ P q → length (ivalue_valid (exe (get h' q))) = length (ivalue_valid (exe (get h q))) ∧ in_readyQ (exe (get h' q)) = in_readyQ (exe (get h q));
  to_Mop : ∀ i m, Mop_at h i = Ok m → ∃ l, Mop_at h' i = Ok (with_uops l m)
}.

Definition same_links (h h' : heap) : Prop := ∀ q, ideps h' q = ideps h q ∧ odeps h' q = odeps h q.

#[export] Instance touched_pre P : PreOrder (touched P).
Proof.
  split.
  - intros h. split; try done. intros i m E. exists (m_uop m). rewrite E. by destruct m.
  - intros h1 h2 h3 [A1 B1 C1 D1 E1] [A2 B2 C2 D2 E2]. split.
    + by transitivity h2.
    + intros q Hq. by rewrite B2, B1.
    + intros q Hq. by rewrite C2, C1.
    + intros q Hq. destruct (D1 q Hq) as [<- <-]. by apply D2.
    + intros i m E. destruct (E1 i m E) as (l & E'). destruct (E2 _ _ E') as (l' & ->). by exists l'.
Qed.

#[export] Instance same_links_pre : PreOrder same_links.
Proof.
  split; [done|]. intros h1 h2 h3 H1 H2 q. destruct (H1 q) as [<- <-]. apply H2.
Qed.

Lemma relinked_touched P h h' : relinked h h' → touched P h h'.
Proof. intros [R1 R2 R3 R4 R5]. split; auto. intros q _. destruct (R4 q) as (-> & _ & -> & _). done. Qed.

Lemma changed_touched (P : ptr → Prop) h h' p u' : live h p → P p → changed h h' p u' → dec u' = dec (get h p) → orc u' = orc (get h p) → touched P h h'.
Proof.
  intros Hl HP Hc Ed Eo. assert (∀ q, ¬ P q → get h' q = get h q) as Eg.
  { intros q Hq. rewrite (changed_get _ _ _ _ q Hc), decide_False; [done|]. by intros ->. }
  split.
  - by apply (changed_alike _ _ _ _ _ Hl Hc).
  - intros q Hq. by rewrite Eg.
  - intros q Hq. by rewrite Eg.
  - intros q Hq. by rewrite Eg.
  - intros i m E. pose proof (ch_Mop _ _ _ _ Hc i) as HM. by rewrite E in HM.
Qed.

Lemma changed_links h h' p u' : changed h h' p u' → idep_uop (exe u') = ideps h p → odep_uop (exe u') = odeps h p → same_links h h'.
Proof. intros Hc Ei Eo q. unfold ideps, odeps. rewrite (changed_get _ _ _ _ q Hc). by destruct (decide (q = p)) as [->|]. Qed.

(** An update of a uop that leaves its links. *)
Lemma wp_upd c p f (Q : t → Prop) : live (mem c) p → dec (f (get (mem c) p)) = D (mem c) p → orc (f (get (mem c) p)) = O (mem c) p →
  idep_uop (exe (f (get (mem c) p))) = ideps (mem c) p → odep_uop (exe (f (get (mem c) p))) = odeps (mem c) p →
  (∀ h', touched (λ q, q = p) (mem c) h' → same_links (mem c) h' → get h' p = f (get (mem c) p) → Q (set_mem h' c)) → wp (upd c p f) Q.
Proof.
  intros Hl Ed Eo Ei Eout HQ. unfold upd. apply wp_bind, (wp_upd_uop _ _ _ _ _ Hl). intros h' Hc. apply HQ.
  - apply (changed_touched (λ q, q = p) _ _ p _ Hl eq_refl Hc); [by rewrite Ed, live_D|by rewrite Eo, live_O].
  - by apply (changed_links _ _ _ _ Hc).
  - rewrite (changed_get _ _ _ _ p Hc). by rewrite decide_True.
Qed.

Lemma touched_live P h h' p : touched P h h' → live h p → live h' p.
Proof. intros Ht. apply live_alike, Ht. Qed.

Lemma touched_weaken (P P' : ptr → Prop) h h' : (∀ q, P q → P' q) → touched P h h' → touched P' h h'.
Proof. intros HP [T1 T2 T3 T4 T5]. split; auto. Qed.

Lemma deps_ok_frame h h' infl p : alike h h' → same_links h h' → deps_ok h infl p → deps_ok h' infl p.
Proof.
  intros Ha Hl [H1 H2 H3 H4]. assert (∀ q, seq_of h' q = seq_of h q) as Hs by (intros q; unfold seq_of; by rewrite (al_D _ _ Ha)).
  assert (∀ q, ideps h' q = ideps h q) as HI by (intros q; by destruct (Hl q)). assert (∀ q, odeps h' q = odeps h q) as HO by (intros q; by destruct (Hl q)).
  split.
  - by rewrite HI.
  - by rewrite HO.
  - intros q j. rewrite HO, HI, !Hs. apply H3.
  - intros j q. rewrite HI, HO, !Hs. apply H4.
Qed.

Lemma stores_ok_frame h h' l ss : alike h h' → stores_ok h l ss → stores_ok h' l ss.
Proof.
  intros Ha [H1 H2 H3]. split; [by rewrite (filter_st_alike _ _ _ Ha)| |done]. eapply list.Forall_impl; [exact H2|].
  intros [[a|] [d|]]; simpl; by rewrite ?(al_D _ _ Ha).
Qed.

Lemma pristine_frame P h h' q : touched P h h' → ¬ P q → ideps h' q = ideps h q → odeps h' q = odeps h q → pristine (get h q) → pristine (get h' q).
Proof.
  intros [_ T2 T3 T4 _] Hq EI EO [H1 H2 H3 H4 H5 H6 H7 H8 H9]. unfold ideps, odeps in *. destruct (T4 q Hq) as [E1 E2].
  split; rewrite ?(T2 q Hq), ?(T3 q Hq), ?E1, ?E2; congruence.
Qed.

Lemma Mop_ok_frame h h' now now' i cm m : (∀ m, Mop_at h i = Ok m → ∃ l, Mop_at h' i = Ok (with_uops l m)) → alike h h' →
  (∀ q, q.1 = i → completed h now q → completed h' now' q) → Mop_ok h now i cm m → ∃ m', Mop_ok h' now' i cm m'.
Proof.
  intros HM Ha Hc [M1 M2 M3 M4 M5]. destruct (HM m M1) as (l & E). exists (with_uops l m).
  assert (∀ q, q ∈ flow h i → completed h now q → completed h' now' q) as Hc' by (intros q Hq; apply Hc; by eapply flow_slot).
  split; rewrite ?(flow_alike _ _ _ Ha); try done.
  - intros E1. specialize (M2 E1). rewrite list.Forall_forall in *. auto.
  - intros E1. destruct (M3 E1) as (-> & f1 & p & f2 & F1 & F2 & F3). split; [done|]. exists f1, p, f2. split_and!; [done..|].
    apply list.Forall_forall. intros q Hq. apply Hc'; [rewrite F1; by apply elem_of_app; left|]. by apply (proj1 (list.Forall_forall _ _) F3).
Qed.

Lemma Mops_ok_frame h h' now now' Q gone : (∀ i m, Mop_at h i = Ok m → ∃ l, Mop_at h' i = Ok (with_uops l m)) → alike h h' →
  (∀ q, completed h now q → completed h' now' q) → Mops_ok h now Q gone → Mops_ok h' now' Q gone.
Proof.
  intros HM Ha Hc. destruct Q as [|i Q]; [done|]. intros [(m & Hm) Hr]. split.
  - eapply (Mop_ok_frame h h'); [intros; by apply HM|done| |exact Hm]. auto.
  - intros j Hj. destruct (Hr j Hj) as (m' & Hm'). eapply (Mop_ok_frame h h'); [intros; by apply HM|done| |exact Hm']. auto.
Qed.

Lemma touched_completed h h' p now : touched (λ q, q = p) h h' → (completed h now p → completed h' now p) → ∀ q, completed h now q → completed h' now q.
Proof. intros Ht Hp q. destruct (decide (q = p)) as [->|Hq]; [done|]. unfold completed, completed_at. by rewrite (to_tim _ _ _ Ht). Qed.

Lemma touched_Mops h h' p now Q gone : touched (λ q, q = p) h h' → (completed h now p → completed h' now p) → Mops_ok h now Q gone → Mops_ok h' now Q gone.
Proof. intros Ht Hp. apply Mops_ok_frame; [apply Ht|apply Ht|]. by eapply touched_completed. Qed.

(** ** The invariant *)

Section inv.
Context {M Env : Type} `{SA : lsq_run.StoreMemAnswers M} `{RL : !lsq_run.RepeaterLater M} `{CL : CommitEnvLaws Env}.
Variable k : knobs.

Definition loads_of (h : heap) (l : list ptr) : list ptr := filter (λ p, is_ld h p = true) l.

(** [l]: the uops that are in flight, but for those that a recovery has squashed so far. *)
Record core (now : Z) (Q : list Z) (gone infl pend : list ptr) (c : t) (m : M) (l : list ptr) (es : list rs.entry) (ss : list lsq_inv.owners) : Prop := {
  co_prog : program k (mem c) Q gone infl pend;
  co_prefix : l `prefix_of` infl;
  co_seated : seated k (mem c) (res c) (port_loading c) l es;
  co_deps : Forall (deps_ok (mem c) l) l;
  co_lsq : lsq_run.models (lsq c, m) (lsq_run.mk_lists (loads_of (mem c) l) ss);
  co_stores : stores_ok (mem c) l ss;
  co_Mops : Mops_ok (mem c) now Q gone;
  co_readyQ : Z.of_nat (length (readyQ c)) = num_exec_ports k
}.

Record inv (now : Z) (Q : list Z) (gone infl pend : list ptr) (c : t) (m : M) (e : Env) (es : list rs.entry) (ss : list lsq_inv.owners) : Prop := {
  in_core : core now Q gone infl pend c m infl es ss;
  in_rob : rob.ok (rob c) (sets (body (mem c)) infl) (Z.of_nat (length infl));
  in_shape : shaped (mem c) infl es;
  in_pend : Forall (λ p, pristine (get (mem c) p)) pend;
  in_env : ce_ok e Q;
  in_now : 0 ≤ now < TICK_T_MAX;
  in_small : 64 * Z.of_nat (length Q) < 2 ^ 31 - 1
}.

(** The action ids have not run out. *)
Definition ids_left (c : t) : Prop := lsq.global_action_id (lsq c) < 2 ^ 64 - 2 ^ 32.

Lemma models_frame x m h h' l ss : alike h h' → lsq_run.models (x, m) (lsq_run.mk_lists (loads_of h l) ss) → lsq_run.models (x, m) (lsq_run.mk_lists (loads_of h' l) ss).
Proof. intros Ha [C1 C2 C3]. split; simpl in *; [|done|done]. unfold loads_of. by rewrite (filter_ld_alike _ _ _ Ha). Qed.

(** An update of the heap that leaves what the core looks at. *)
Lemma core_frame now now' Q gone infl pend c m l es ss h' : core now Q gone infl pend c m l es ss → alike (mem c) h' → same_time (mem c) h' l → same_links (mem c) h' →
  Mops_ok h' now' Q gone → core now' Q gone infl pend (set_mem h' c) m l es ss.
Proof.
  intros [C1 C2 C3 C4 C5 C6 C7 C8] Ha Ht Hl HM. split; simpl; try done.
  - by eapply program_alike.
  - by eapply seated_frame.
  - eapply list.Forall_impl; [exact C4|]. intros p. by apply deps_ok_frame.
  - by eapply models_frame.
  - by eapply stores_ok_frame.
Qed.

Section core.
Context {now : Z} {Q : list Z} {gone infl pend l : list ptr} {c : t} {m : M} {es : list rs.entry} {ss : list lsq_inv.owners}.
Hypothesis Hc : core now Q gone infl pend c m l es ss.

Lemma core_in p : p ∈ l → p ∈ gone ++ infl ++ pend.
Proof. intros Hp. destruct (co_prefix _ _ _ _ _ _ _ _ _ _ Hc) as (d & ->). set_solver. Qed.

Lemma core_wf p : p ∈ l → uop_wf k (mem c) p.
Proof. intros Hp%core_in. by apply (pr_in (co_prog _ _ _ _ _ _ _ _ _ _ Hc)). Qed.

Lemma core_live p : p ∈ l → live (mem c) p.
Proof. intros Hp. by destruct (core_wf p Hp). Qed.

Lemma core_nodup : NoDup l.
Proof.
  pose proof (pr_uniq (co_prog _ _ _ _ _ _ _ _ _ _ Hc)) as Hn. destruct (co_prefix _ _ _ _ _ _ _ _ _ _ Hc) as (d & E). rewrite E in Hn.
  apply list.NoDup_app in Hn as (_ & _ & Hn). rewrite <- app_assoc in Hn. by apply list.NoDup_app in Hn as (? & _ & _).
Qed.

End core.
End inv.

End back_state.

Module back_lsq.
Import uops backend back_heap order back_inv back_state.

#[local] Ltac use_step Hstep := apply wp_bind_inv in Hstep; apply wp_bind; eapply wp_mono; [exact Hstep|].

(** ** Who owns an entry *)

Lemma owner_std h a p : owner_ok h (a, Some p) → is_std (D h p) = true.
Proof. destruct a; simpl; [by intros [_ ?]|done]. Qed.

Section owners.
Variables (h : heap) (ss : list lsq_inv.owners).
Hypothesis Ho : Forall (owner_ok h) ss.

Lemma ptrs_last q l : lsq_inv.ptrs ss = l ++ [q] → ∃ ss0 a d, ss = ss0 ++ [(a, d)] ∧ (d = Some q ∨ (a = Some q ∧ d = None)).
Proof.
  intros E. destruct (list.last ss) as [[a d]|] eqn:El.
  - apply last_Some in El as [ss0 El]. exists ss0, a, d. split; [done|]. rewrite El in Ho. apply list.Forall_app in Ho as [_ Ho']. apply list.Forall_cons in Ho' as [Ho' _].
    rewrite El, lsq_inv.ptrs_app in E. unfold lsq_inv.ptrs at 2 in E. simpl in E. rewrite app_nil_r, app_assoc in E. destruct d as [d|]; simpl in E.
    + apply app_inj_tail in E as [_ ->]. by left.
    + rewrite app_nil_r in E. destruct a as [a|]; [|done]. simpl in E. apply app_inj_tail in E as [_ ->]. by right.
  - apply last_None in El. rewrite El in E. by destruct l.
Qed.

Lemma ptrs_first q l : lsq_inv.ptrs ss = q :: l → ∃ a d ss0, ss = (a, d) :: ss0 ∧
  ((a = Some q ∧ l = option_list d ++ lsq_inv.ptrs ss0) ∨ (a = None ∧ d = Some q ∧ l = lsq_inv.ptrs ss0)).
Proof.
  intros E. destruct ss as [|[a d] ss0]; [done|]. exists a, d, ss0. split; [done|]. apply list.Forall_cons in Ho as [Ho' _].
  unfold lsq_inv.ptrs in E. simpl in E. rewrite <- app_assoc in E. destruct a as [a|]; simpl in E; [injection E as -> <-; by left|].
  destruct d as [d|]; [|done]. simpl in E. injection E as -> <-. by right.
Qed.

End owners.

Section lsq.
Context {M : Type} `{SA : lsq_run.StoreMemAnswers M} `{RL : !lsq_run.RepeaterLater M}.
Variable k : knobs.

Local Abbreviation models h x m l ss := (lsq_run.models (x, m) (lsq_run.mk_lists (loads_of h l) ss)).

(** The queues after an operation. *)
Definition lsq_goes (n : Z) (h : heap) (c : t) (m : M) (l : list ptr) (ss : list lsq_inv.owners) (c' : t) : Prop :=
  ∃ x, c' = set_lsq x c ∧ models h x m l ss ∧ stores_ok h l ss ∧
    lsq.global_action_id (lsq c) ≤ lsq.global_action_id x ≤ lsq.global_action_id (lsq c) + n.

Lemma set_lsq_same c : set_lsq (lsq c) c = c.
Proof. by destruct c. Qed.

Section ops.
Variables (h : heap) (c : t) (m : M) (l : list ptr) (ss : list lsq_inv.owners) (p : ptr).
Hypothesis Hm : models h (lsq c) m l ss.
Hypothesis Hs : stores_ok h l ss.
Hypothesis Hw : uop_wf k h p.
Hypothesis Hws : Forall (uop_wf k h) l.
Hypothesis Hg : lsq.global_action_id (lsq c) < 2 ^ 64 - 2 ^ 31.

Lemma size_small : lsq_run.size (lsq c, m) < 2 ^ 31.
Proof. destruct Hm as [_ Hst _]. destruct (lsq_inv.so_ring _ _ _ _ Hst). unfold lsq_run.size. simpl in *. lia. Qed.

Lemma gid_pos : 0 ≤ lsq.global_action_id (lsq c).
Proof. destruct Hm as [_ Hst _]. by eapply lsq_ops.id_range. Qed.

(** What the runs of the queues say of one operation. *)
Lemma one_step rep a ev : lsq_run.enabled (M := M) (lsq_run.mk_lists (loads_of h l) ss) ev →
  wp (lsq_run.code rep a ev (lsq c, m)) (λ r, lsq_run.models r.1 (lsq_run.after (lsq_run.mk_lists (loads_of h l) ss) ev r.2) ∧
    lsq.global_action_id (lsq c) ≤ lsq.global_action_id r.1.1 ≤ lsq.global_action_id (lsq c) + 2 ^ 31).
Proof.
  intros He. pose proof size_small as Hz. eapply wp_mono; [apply (lsq_run.any_step rep a (lsq c) m _ Hm); [|exact He]|].
  - unfold lsq_run.ids_left. simpl. lia.
  - intros r (H1' & H2' & H3'). split; [done|]. simpl in *. lia.
Qed.

Lemma loads_snoc h' l' q : loads_of h' (l' ++ [q]) = if is_ld h' q then loads_of h' l' ++ [q] else loads_of h' l'.
Proof.
  unfold loads_of. rewrite list.filter_app. destruct (is_ld h' q) eqn:E.
  - by rewrite filter_cons_True.
  - rewrite filter_cons_False by (by rewrite E). by rewrite app_nil_r.
Qed.

Lemma loads_cons h' l' q : loads_of h' (q :: l') = if is_ld h' q then q :: loads_of h' l' else loads_of h' l'.
Proof. unfold loads_of. destruct (is_ld h' q) eqn:E; [by rewrite filter_cons_True|by rewrite filter_cons_False by (by rewrite E)]. Qed.

Definition stores_in (l' : list ptr) : list ptr := filter (λ p, is_st h p = true) l'.

Lemma stores_snoc l' q : stores_in (l' ++ [q]) = if is_st h q then stores_in l' ++ [q] else stores_in l'.
Proof.
  unfold stores_in. rewrite list.filter_app. destruct (is_st h q) eqn:E.
  - by rewrite filter_cons_True.
  - rewrite filter_cons_False by (by rewrite E). by rewrite app_nil_r.
Qed.

(** Dispatch. *)
Lemma enter_LSQ_ok : p ∉ l →
  (is_ld h p = true → lsq.LDQ_available (lsq.loads (lsq c)) = true) →
  (is_sta (D h p) || is_sfence (D h p) = true → lsq.STQ_available (lsq.stores (lsq c)) = true) →
  (is_std (D h p) = true → ∃ q l', stores_in l = l' ++ [q] ∧ is_sta (D h q) = true ∧ q.1 = p.1) →
  wp (enter_LSQ c p (D h p)) (λ c', ∃ ss', lsq_goes (2 ^ 31) h c m (l ++ [p]) ss' c').
Proof.
  intros Hp Hld Hst Hstd. destruct Hs as [S1 S2 S3]. unfold enter_LSQ, lsq_goes. rewrite loads_snoc. change (filter _ l) with (stores_in l) in S1.
  assert (p ∉ lsq_inv.ptrs ss) as Hown by (rewrite S1; by intros [_ ?]%list_elem_of_filter).
  assert (∀ ss', lsq_inv.ptrs ss' = (if is_st h p then lsq_inv.ptrs ss ++ [p] else lsq_inv.ptrs ss) → Forall (owner_ok h) ss' →
    Forall (λ o : lsq_inv.owners, o.1 ≠ None) (tail ss') → stores_ok h (l ++ [p]) ss') as Hok.
  { intros ss' E1 E2 E3. split; [|done..]. change (filter _ (l ++ [p])) with (stores_in (l ++ [p])). rewrite stores_snoc, E1. by destruct (is_st h p); rewrite S1. }
  fold (is_ld h p). destruct (is_ld h p) eqn:Eld.
  { pose proof (uw_ld _ _ _ Hw Eld) as Est. pose proof (one_step false 0 (lsq_run.load_alloc p (D h p)) ltac:(constructor; by intros [_ ?]%list_elem_of_filter)) as Hstep.
    simpl in Hstep. rewrite Hld in Hstep by done. use_step Hstep. intros x [X1 X2].
    exists ss, x. split; [done|]. split; [exact X1|]. split; [|exact X2]. apply Hok; [by rewrite Est|done..]. }
  destruct (is_sta (D h p) || is_sfence (D h p)) eqn:Esta.
  { pose proof (one_step false 0 (lsq_run.sta_alloc p (D h p)) ltac:(by constructor)) as Hstep. simpl in Hstep. rewrite Hst in Hstep by done.
    assert (is_st h p = true) as Est by (unfold is_st; destruct (is_sta (D h p)), (is_std (D h p)); done).
    use_step Hstep. intros x [X1 X2]. exists (ss ++ [(Some p, None)]), x. split; [done|]. split; [exact X1|]. split; [|exact X2]. apply Hok.
    - by rewrite Est, lsq_inv.ptrs_app.
    - apply list.Forall_app. split; [done|]. constructor; [|constructor]. simpl. by apply orb_true_iff.
    - destruct ss; [constructor|]. simpl. apply list.Forall_app. split; [done|]. by repeat constructor. }
  apply orb_false_iff in Esta as [Esta Esf]. destruct (is_std (D h p)) eqn:Estd.
  { destruct (Hstd eq_refl) as (q & l' & E & Hq & Eq). assert (is_st h p = true) as Est by (unfold is_st; by rewrite Estd, orb_true_r).
    rewrite E in S1. destruct (ptrs_last _ _ S2 _ _ S1) as (ss0 & a & d & Ess & Had).
    pose proof S2 as S2'. rewrite Ess in S2'. apply list.Forall_app in S2' as [S2a S2b]. apply list.Forall_cons in S2b as [S2' _].
    assert (a = Some q ∧ d = None) as [-> ->].
    { destruct Had as [->|]; [|done]. pose proof (owner_std _ _ _ S2') as Hq'.
      assert (q ∈ l) as Hql by (assert (q ∈ stores_in l) as [_ ?]%list_elem_of_filter by (rewrite E; apply elem_of_app; right; left); done).
      destruct (uw_st _ _ _ (proj1 (list.Forall_forall _ _) Hws q Hql) Hq). congruence. }
    pose proof (one_step false 0 (lsq_run.std_alloc p) ltac:(by apply (lsq_run.en_std_alloc _ q p ss0))) as Hstep. simpl in Hstep.
    rewrite Ess, lsq_run.after_last in Hstep. unfold on_stores. use_step Hstep. intros s [X1 X2].
    exists (ss0 ++ [(Some q, Some p)]). eexists. split; [done|]. split; [exact X1|]. split; [|exact X2]. apply Hok.
    - rewrite Est, Ess, !lsq_inv.ptrs_app, <- app_assoc. done.
    - apply list.Forall_app. split; [done|]. constructor; [|constructor]. simpl in *. done.
    - rewrite Ess in S3. destruct ss0 as [|o ss0]; [constructor|]. simpl in *. apply list.Forall_app in S3 as [? _]. apply list.Forall_app. split; [done|]. by repeat constructor. }
  cbn [wp]. exists ss, (lsq c). rewrite set_lsq_same. split; [done|]. split; [exact Hm|]. split; [|lia]. apply Hok; [|done..]. unfold is_st. by rewrite Esta, Estd, Esf.
Qed.

(** The youngest uop is squashed. *)
Lemma squash_LSQ_ok l' : l = l' ++ [p] → NoDup l → when_allocated (tim (get h p)) ≠ TICK_T_MAX → dec (get h p) = D h p →
  (is_std (D h p) = true → ∃ q l0, stores_in l' = l0 ++ [q] ∧ is_sta (D h q) = true) →
  wp (squash_LSQ c p (get h p)) (λ c', ∃ ss', lsq_goes 0 h c m l' ss' c').
Proof.
  intros El Hn Hal Ed Hstd. destruct Hs as [S1 S2 S3]. change (filter _ l) with (stores_in l) in S1. rewrite El, stores_snoc in S1.
  rewrite El in Hn. apply list.NoDup_app in Hn as (_ & Hn & _). assert (p ∉ l') as Hp by (intros Hp; apply (Hn p Hp); left).
  unfold squash_LSQ. rewrite Ed, (proj2 (Z.eqb_neq _ _) Hal). cbn [negb]. fold (is_ld h p).
  pose proof (one_step false 0) as Hone. rewrite El, loads_snoc in Hone. destruct (is_ld h p) eqn:Eld.
  { rewrite (uw_ld _ _ _ Hw Eld) in S1. pose proof (Hone (lsq_run.load_squash p) ltac:(by eapply lsq_run.en_load_squash)) as Hstep. simpl in Hstep.
    rewrite removelast_last in Hstep. unfold on_loads. use_step Hstep. intros q [X1 _]. exists ss. eexists. split; [done|]. split; [exact X1|]. split; [|simpl; lia]. by split. }
  destruct (is_std (D h p)) eqn:Estd.
  { assert (is_st h p = true) as Est by (unfold is_st; by rewrite Estd, orb_true_r). rewrite Est in S1. destruct (ptrs_last _ _ S2 _ _ S1) as (ss0 & a & d & Ess & Had).
    pose proof S2 as S4. rewrite Ess in S4. apply list.Forall_app in S4 as [S4 S5]. apply list.Forall_cons in S5 as [S5 _].
    assert (is_sta (D h p) = false) as Esta by (destruct (is_sta (D h p)) eqn:E; [|done]; destruct (uw_st _ _ _ Hw E); congruence).
    assert (d = Some p) as -> by (destruct Had as [|[-> ->]]; [done|]; simpl in S5; destruct S5 as [|E]; [congruence|]; rewrite (uw_std _ _ _ Hw Estd) in E; done).
    rewrite Ess, lsq_inv.ptrs_app in S1. unfold lsq_inv.ptrs at 2 in S1. simpl in S1. rewrite app_nil_r, app_assoc in S1. apply app_inj_tail in S1 as [S1 _].
    assert (p ∉ lsq_inv.ptrs ss0 ++ option_list a) as Hpp by (rewrite S1; by intros [_ ?]%list_elem_of_filter). apply not_elem_of_app in Hpp as [Hpp Hpa].
    pose proof (Hone (lsq_run.std_squash p) ltac:(eapply (lsq_run.en_std_squash _ a p ss0); [exact Ess|intros ->; apply Hpa; left|done])) as Hstep. simpl in Hstep.
    rewrite Ess, lsq_run.after_last in Hstep. unfold on_stores. use_step Hstep. intros s [X1 _]. exists (ss0 ++ [(a, None)]). eexists. split; [done|]. split; [exact X1|].
    split; [|simpl; lia]. destruct a as [a|].
    - split.
      + change (filter _ l') with (stores_in l'). rewrite <- S1, lsq_inv.ptrs_app. done.
      + apply list.Forall_app. split; [done|]. constructor; [|constructor]. simpl in *. left. apply S5.
      + rewrite Ess in S3. destruct ss0 as [|o ss0]; [constructor|]. simpl in *. apply list.Forall_app in S3 as [? _]. apply list.Forall_app. split; [done|]. by repeat constructor.
    - exfalso. destruct (Hstd eq_refl) as (q & l0 & E & Hq). rewrite E in S1. simpl in S1. rewrite app_nil_r in S1.
      destruct (ptrs_last _ _ S4 _ _ S1) as (ss1 & a' & d' & Ess' & _). rewrite Ess, Ess' in S3. rewrite <- app_assoc in S3.
      destruct ss1; simpl in S3; [|apply list.Forall_app in S3 as [_ S3]; apply list.Forall_cons in S3 as [_ S3]]; by apply list.Forall_cons in S3 as [S3 _]. }
  destruct (is_sta (D h p) || is_sfence (D h p)) eqn:Esta.
  { assert (is_st h p = true) as Est by (unfold is_st; destruct (is_sta (D h p)), (is_std (D h p)); done).
    rewrite Est in S1. destruct (ptrs_last _ _ S2 _ _ S1) as (ss0 & a & d & Ess & Had).
    pose proof S2 as S4. rewrite Ess in S4. apply list.Forall_app in S4 as [S4 S5]. apply list.Forall_cons in S5 as [S5 _].
    assert (a = Some p ∧ d = None) as [-> ->] by (destruct Had as [->|]; [|done]; rewrite (owner_std _ _ _ S5) in Estd; done).
    rewrite Ess, lsq_inv.ptrs_app in S1. unfold lsq_inv.ptrs at 2 in S1. simpl in S1. apply app_inj_tail in S1 as [S1 _].
    assert (p ∉ lsq_inv.ptrs ss0) as Hpp by (rewrite S1; by intros [_ ?]%list_elem_of_filter).
    pose proof (Hone (lsq_run.sta_squash p) ltac:(by eapply (lsq_run.en_sta_squash _ p ss0))) as Hstep. simpl in Hstep.
    rewrite Ess, removelast_last in Hstep. unfold on_stores. use_step Hstep. intros s [X1 _]. exists ss0. eexists. split; [done|]. split; [exact X1|]. split; [|simpl; lia]. split; [done..|].
    rewrite Ess in S3. destruct ss0 as [|o ss0]; [constructor|]. simpl in *. by apply list.Forall_app in S3 as [? _]. }
  cbn [wp]. exists ss, (lsq c). rewrite set_lsq_same. apply orb_false_iff in Esta as [Esta Esf]. split; [done|].
  split; [rewrite El, loads_snoc, Eld in Hm; exact Hm|]. split; [|lia]. split; [|done..]. unfold is_st in S1. by rewrite Esta, Estd, Esf in S1.
Qed.

Lemma stores_cons l' q : stores_in (q :: l') = if is_st h q then q :: stores_in l' else stores_in l'.
Proof. unfold stores_in. destruct (is_st h q) eqn:E; [by rewrite filter_cons_True|by rewrite filter_cons_False by (by rewrite E)]. Qed.

(** The oldest uop commits. *)
Lemma leave_LSQ_ok l' PC now : l = p :: l' → h = mem c → dec (get h p) = D h p → orc (get h p) = O h p →
  (is_sta (D h p) = true → ∃ q l0, stores_in l' = q :: l0 ∧ is_std (D h q) = true) →
  wp (leave_LSQ k c m p (get h p) PC now) (λ r, let '(c', m', b) := r in
    if b : bool then ∃ ss', lsq_goes 0 h c m' l' ss' c' else lsq_goes 0 h c m' l ss c').
Proof.
  intros El Eh Ed Eo Hsta. destruct Hs as [S1 S2 S3]. change (filter _ l) with (stores_in l) in S1. rewrite El, stores_cons in S1.
  unfold leave_LSQ. rewrite Ed, Eo. fold (is_ld h p). pose proof one_step as Hone. rewrite El, loads_cons in Hone.
  destruct (is_ld h p) eqn:Eld.
  { rewrite (uw_ld _ _ _ Hw Eld) in S1. pose proof (Hone false 0 (lsq_run.load_commit p) ltac:(by eapply lsq_run.en_load_commit)) as Hstep. simpl in Hstep.
    apply wp_bind. unfold on_loads. use_step Hstep. intros q [X1 _]. exists ss. eexists. split; [done|]. split; [exact X1|]. split; [|simpl; lia]. by split. }
  destruct (is_sta (D h p)) eqn:Esta.
  { assert (is_st h p = true) as Est by (unfold is_st; by rewrite Esta). rewrite Est in S1. destruct (ptrs_first _ _ S2 _ _ S1) as (a & d & ss0 & Ess & Had).
    pose proof S2 as S4. rewrite Ess in S4. apply list.Forall_cons in S4 as [S4 S5]. destruct (uw_st _ _ _ Hw Esta) as [Estd Esf].
    destruct Had as [[-> E]|(-> & -> & _)]; [|pose proof (owner_std _ _ _ S4); congruence].
    destruct (Hsta eq_refl) as (q & l0 & E' & Hq). rewrite E' in E. assert (q ∈ stores_in l') as [_ Hql]%list_elem_of_filter by (rewrite E'; left).
    assert (is_sta (D h q) = false ∧ is_sfence (D h q) = false) as [Hq1 Hq2].
    { assert (uop_wf k h q) as Hwq by (apply (proj1 (list.Forall_forall _ _) Hws); rewrite El; by right).
      split; [destruct (is_sta (D h q)) eqn:E2; [destruct (uw_st _ _ _ Hwq E2); congruence|done]|exact (uw_std _ _ _ Hwq Hq)]. }
    assert (d = Some q) as ->.
    { destruct d as [d|]; simpl in E; [by injection E as <- _|]. symmetry in E. destruct (ptrs_first _ _ S5 _ _ E) as (a' & d' & ss1 & E3 & Had).
      rewrite Ess, E3 in S3. simpl in S3. apply list.Forall_cons in S3 as [S3 _]. simpl in S3. rewrite E3 in S5. apply list.Forall_cons in S5 as [S5 _].
      destruct Had as [[-> _]|(-> & _)]; [|done]. destruct d'; simpl in S5; [destruct S5|destruct S5]; congruence. }
    pose proof (Hone false 0 lsq_run.sta_commit ltac:(by eapply lsq_run.en_sta_commit)) as Hstep. simpl in Hstep. rewrite Ess in Hstep. simpl in Hstep.
    apply wp_bind. unfold on_stores. use_step Hstep. intros s [X1 _]. exists ((None, Some q) :: ss0). eexists. split; [done|]. split; [exact X1|]. split; [|simpl; lia].
    rewrite Ess in S3. split; [|by constructor|done]. change (filter _ l') with (stores_in l'). rewrite E', E. done. }
  cbn [orb]. destruct (is_std (D h p) || is_sfence (D h p)) eqn:Estd.
  { assert (is_st h p = true) as Est by (unfold is_st; by rewrite Esta). rewrite Est in S1. destruct (ptrs_first _ _ S2 _ _ S1) as (a & d & ss0 & Ess & Had).
    pose proof S2 as S4. rewrite Ess in S4. apply list.Forall_cons in S4 as [S4 S5]. set (u := lsq.mk_store_uop p (D h p) (O h p) PC).
    destruct Hm as [Hm1 Hm2 Hm3]. simpl in Hm1, Hm2, Hm3.
    assert (lsq_run.enabled (M := M) (lsq_run.mk_lists (loads_of h l) ss) (lsq_run.store_commit u h now) ∧ stores_in l' = lsq_inv.ptrs ss0 ∧
      wp (lsq.STQ_deallocate_std (lsq c) m h (DL1_rep_req k) (asid k) now u) (λ r, lsq.global_action_id r.1.1 = lsq.global_action_id (lsq c))) as (Hen & E & Hgid).
    { destruct (is_sfence (D h p)) eqn:Esf.
      - assert (is_std (D h p) = false) as Ed' by (destruct (is_std (D h p)) eqn:E; [rewrite (uw_std _ _ _ Hw E) in Esf; done|done]).
        destruct Had as [[-> E]|(-> & -> & _)]; [|pose proof (owner_std _ _ _ S4); congruence].
        assert (d = None) as -> by (destruct d; [simpl in S4; destruct S4; congruence|done]). simpl in E.
        assert (∀ q, q ∈ loads_of h l → ∃ v, uop_at h q = Ok v) as Hlv.
        { intros q [_ Hq]%list_elem_of_filter. exists (get h q). by apply (proj1 (list.Forall_forall _ _) Hws). }
        split; [by apply (lsq_run.en_fence_commit (lsq_run.mk_lists (loads_of h l) ss) u h now ss0 Esf Ess)|]. split; [done|].
        unfold lsq.STQ_deallocate_std. simpl. rewrite Esf. rewrite Ess in Hm2.
        eapply wp_bind, wp_mono; [apply (lsq_ops.STQ_deallocate_fence_ok _ _ _ _ p (D h p) h _ now Hm2 Hm1); intros q Hq; by apply Hlv, head_Some_elem_of|].
        intros [x b] Hx. cbn [wp fst]. destruct b; [by destruct Hx as (_ & _ & ? & _)|by rewrite Hx].
      - destruct Had as [[-> E]|(-> & -> & E)]; [exfalso; destruct d; simpl in S4; [destruct S4|destruct S4]; congruence|].
        split; [by apply (lsq_run.en_store_commit (lsq_run.mk_lists (loads_of h l) ss) u h now ss0 (λ _, lsq_run.repeater_later) Esf); [symmetry; apply (uw_sync _ _ _ Hw)|exact Ess]|]. split; [done|].
        rewrite Ess in Hm2. eapply wp_mono; [apply (lsq_commit.STQ_deallocate_std_ok (DL1_rep_req k) (asid k) u (lsq c) m (lsq.global_action_id (lsq c)) ss0 h now (λ _, lsq_run.repeater_later) Esf); [symmetry; apply (uw_sync _ _ _ Hw)|done|exact Hm2]|].
        intros [[x m'] b] (_ & _ & ? & _). done. }
    rewrite El, loads_cons, Eld in Hen. pose proof (Hone (DL1_rep_req k) (asid k) _ Hen) as Hstep. cbn [lsq_run.code] in Hstep. rewrite <- Eh. apply wp_bind. eapply wp_mono; [exact (wp_and _ _ _ Hstep Hgid)|].
    intros [[x m'] b] [[X1 _] X2]. simpl in X1, X2. rewrite Ess in X1, S3. destruct b; simpl in X1.
    - exists ss0. exists x. split; [done|]. split; [exact X1|]. split; [|lia]. split; [done|done|]. simpl in S3. by destruct ss0; [|apply list.Forall_cons in S3 as [_ ?]].
    - exists x. split; [done|]. rewrite El, loads_cons, Eld, Ess. split; [exact X1|]. split; [|lia]. rewrite Ess in S1, S2. split; [|done..].
      change (filter _ (p :: l')) with (stores_in (p :: l')). by rewrite stores_cons, Est. }
  cbn [wp]. exists ss, (lsq c). rewrite set_lsq_same. apply orb_false_iff in Estd as [Estd Esf]. split; [done|].
  split; [rewrite El, loads_cons, Eld in Hm; exact Hm|]. split; [|lia]. split; [|done..]. unfold is_st in S1. by rewrite Esta, Estd, Esf in S1.
Qed.

End ops.
End lsq.
End back_lsq.

Module back_facts.
Import uops backend back_heap order back_inv back_stations back_shape back_state back_lsq.

Section program.
Context {k : knobs} {h : heap} {Q : list Z} {gone infl pend : list ptr}.
Hypothesis Hp : program k h Q gone infl pend.

(** The uop [p] is not of the macro-op that is committing. *)
Definition untouched (p : ptr) : Prop := ∀ i Q', Q = i :: Q' → p.1 = i → gone = [].

Lemma split_at {A} (l1 l1' : list A) x l2 l2' : NoDup (l1 ++ x :: l2) → l1 ++ x :: l2 = l1' ++ x :: l2' → l1 = l1' ∧ l2 = l2'.
Proof.
  intros Hn E. apply list.NoDup_app in Hn as (H1 & H12 & H2). apply list.NoDup_cons in H2 as [H2 _].
  apply app_eq_inv in E as [(m & E1 & E2)|(m & E1 & E2)].
  - destruct m as [|y m]; [rewrite app_nil_r in E1; by simplify_eq/=|]. simplify_eq/=. destruct (H12 y); [|left]. apply elem_of_app. right. left.
  - destruct m as [|y m]; [rewrite app_nil_r in E1; by simplify_eq/=|]. simplify_eq/=. destruct H2. apply elem_of_app. right. left.
Qed.

(** The older uops of its macro-op are in flight. *)
Lemma own_flow a p b : infl ++ pend = a ++ p :: b → untouched p → ∃ l0 l1 l2, a = l0 ++ l1 ∧ flow h p.1 = l1 ++ p :: l2.
Proof.
  intros E Hu. assert (p ∈ gone ++ infl ++ pend) as Hin by (rewrite E, !elem_of_app, elem_of_cons; tauto).
  destruct (pr_in Hp p Hin) as (HQ & Hf & _). apply list_elem_of_split in Hf as (l1 & l2 & Ef). apply list_elem_of_split in HQ as (Q1 & Q2 & EQ).
  pose proof (pr_uniq Hp) as Hn. pose proof (pr_flow _ _ _ _ _ _ Hp) as Ew. rewrite E, EQ, bind_app in Ew. simpl in Ew. rewrite Ef in Ew.
  rewrite E in Hn. rewrite app_assoc in Hn. rewrite app_assoc in Ew.
  assert ((gone ++ a) ++ p :: b = ((Q1 ≫= flow h) ++ l1) ++ p :: (l2 ++ (Q2 ≫= flow h))) as Ew' by (rewrite Ew, <- !app_assoc; done).
  destruct (split_at _ _ _ _ _ Hn Ew') as [E1 _]. pose proof (pr_gone _ _ _ _ _ _ Hp) as Hg. destruct Q1 as [|i Q1].
  - simpl in *. rewrite (Hu _ _ EQ eq_refl) in E1. exists [], l1, l2. by split.
  - rewrite EQ in Hg. simpl in Hg. destruct Hg as (r & f & Efi). simpl in E1. rewrite Efi, <- !app_assoc in E1. apply app_inv_head in E1.
    exists (r :: f ++ (Q1 ≫= flow h)), l1, l2. split; [|done]. rewrite E1. simpl. by rewrite <- app_assoc.
Qed.

(** A data uop of a store has its address uop in front of it. *)
Lemma own_sta a p b : infl ++ pend = a ++ p :: b → untouched p → is_std (D h p) = true →
  ∃ q l', stores_in h a = l' ++ [q] ∧ is_sta (D h q) = true ∧ q.1 = p.1.
Proof.
  intros E Hu Hs. destruct (own_flow a p b E Hu) as (l0 & l1 & l2 & -> & Ef).
  assert (p ∈ gone ++ infl ++ pend) as Hin by (rewrite E, !elem_of_app, elem_of_cons; tauto).
  destruct (pr_in Hp p Hin) as (HQ & _ & _). pose proof (proj1 (list.Forall_forall _ _) (pr_wf _ _ _ _ _ _ Hp) _ HQ) as Hw.
  destruct (fw_std _ _ _ Hw _ _ _ Ef Hs) as (q & El & Hq). apply last_Some in El as [l' El]. exists q, (stores_in h l0 ++ l').
  split; [|split; [done|]].
  - unfold stores_in. rewrite list.filter_app. rewrite <- app_assoc. f_equal. exact El.
  - assert (q ∈ l1) as Hq1 by (assert (q ∈ filter (λ p, is_st h p = true) l1) as [_ ?]%list_elem_of_filter by (rewrite El; apply elem_of_app; right; left); done).
    apply (flow_slot h). rewrite Ef. by apply elem_of_app; left.
Qed.

(** The oldest uop of all that have not committed. *)
Lemma oldest i Q' : Q = i :: Q' → ∃ p f, flow h i = gone ++ p :: f ∧ infl ++ pend = (p :: f) ++ (Q' ≫= flow h) ∧ p.1 = i.
Proof.
  intros EQ. pose proof (pr_gone _ _ _ _ _ _ Hp) as Hg. rewrite EQ in Hg. destruct Hg as (p & f & Ef). exists p, f. split; [done|].
  pose proof (pr_flow _ _ _ _ _ _ Hp) as Ew. rewrite EQ in Ew. simpl in Ew. rewrite Ef, <- app_assoc in Ew. apply app_inv_head in Ew. split; [done|].
  apply (flow_slot h). rewrite Ef. apply elem_of_app. right. left.
Qed.

Lemma some_Mop q : q ∈ infl ++ pend → ∃ i Q', Q = i :: Q'.
Proof.
  intros Hq. destruct (pr_in Hp q) as (HQ & _); [by apply elem_of_app; right|]. destruct Q as [|i Q']; [by apply elem_of_nil in HQ|eauto].
Qed.

(** The fused set that a body joins. *)
Lemma set_joined p pend' : pend = p :: pend' → untouched p → body h p = true →
  ∃ gs g q0 g' r, sets (body h) infl = gs ++ [g] ∧ g = q0 :: g' ∧ list.last g = Some r ∧ open h g ∧ fusion_next (D h r) = Some p ∧
    in_fusion (D h p) = true ∧ is_fusion_head (D h p) = false ∧ fusion_head (D h p) = Some q0 ∧ in_fusion (D h q0) = true ∧ Forall (λ q, needs h q = needs h p) g.
Proof.
  intros Ep Hu Hb. destruct (list.last infl) as [x|] eqn:El; cycle 1.
  { apply last_None in El. destruct (some_Mop p) as (i & Q' & EQ); [rewrite Ep, elem_of_app; right; left|].
    destruct (oldest i Q' EQ) as (p' & f & Ef & E & E1). rewrite El, Ep in E. injection E as <- _. pose proof (Hu i Q' EQ E1) as Eg.
    pose proof (pr_first Hp p pend') as H1. rewrite El, Ep, Eg in H1. rewrite H1 in Hb; done. }
  assert (sets (body h) infl ≠ []) as Hne by (intros E%sets_nil; by rewrite E in El).
  destruct (list.last (sets (body h) infl)) as [g|] eqn:Eg; [|by apply last_None in Eg]. apply last_Some in Eg as [gs E].
  destruct (set_known Hp _ _ _ E) as (q0 & g' & Egg & Hbo & Hag & HM & _).
  destruct (set_last Hp g gs p E ltac:(by rewrite Ep) Hb) as (r & Er & Hl & HMr). unfold linked in Hl. rewrite Hb in Hl. destruct Hl as (L1 & L2 & L3 & L4).
  assert (r ∈ g) as Hr by by apply last_Some_elem_of. assert (q0 ∈ g) as Hq0 by (rewrite Egg; left).
  assert (p.1 = q0.1) as EM by (rewrite <- HMr; by apply (set_Mop Hp _ _ _ r q0 E)).
  assert (body h q0 = false) as Hb0.
  { destruct gs as [|g0 gs].
    - simpl in E. assert (infl = g) as Ei by (rewrite <- (sets_concat (body h) infl), E; simpl; by rewrite app_nil_r).
      destruct (some_Mop p) as (i & Q' & EQ); [rewrite Ep, elem_of_app; right; left|].
      destruct (oldest i Q' EQ) as (p' & f & Ef & E' & E1). rewrite Ei, Egg in E'. injection E' as <- _.
      apply (pr_first Hp q0 (g' ++ pend)). rewrite (Hu i Q' EQ), Ei, Egg; [done|]. by rewrite EM, E1.
    - by eapply (sets_heads (body h) infl g0 (gs ++ [g]) g q0 g' E); [apply elem_of_app; right; left|]. }
  destruct (pr_in Hp q0) as (_ & _ & W0).
  { rewrite !elem_of_app. right. left. rewrite <- (sets_concat (body h) infl). apply elem_of_concat. exists g. split; [rewrite E; apply elem_of_app; right; left|done]. }
  assert (fusion_head (D h r) = fusion_head (D h q0)) as Efh.
  { rewrite Egg in Hr. apply elem_of_cons in Hr as [->|Hr]; [done|]. by destruct (proj1 (list.Forall_forall _ _) Hag r Hr). }
  assert (in_fusion (D h q0) = true) as Hif.
  { destruct g' as [|q1 g']; [rewrite Egg in Er; by injection Er as ->|]. destruct (pr_set (gone := gone) (pend := pend) _ _ _ E) as (x0 & g0 & E0 & Ew & _).
    rewrite Egg in E0. injection E0 as <- <-. pose proof (pr_linked Hp _ q0 q1 _ Ew) as Hl. unfold linked in Hl. apply list.Forall_cons in Hbo as [Hb1 _]. rewrite Hb1 in Hl. apply Hl. }
  pose proof (uw_head _ _ _ W0 Hb0) as W. rewrite Hif in W. destruct W as [W1 W2].
  unfold body in Hb. apply andb_true_iff in Hb as [Hb1 Hb2]. apply negb_true_iff in Hb2.
  exists gs, g, q0, g', r. split_and!; try done.
  - exists r. split; [done|]. split; [done|]. by rewrite L2.
  - by rewrite L3, Efh.
  - apply list.Forall_forall. intros q Hq. rewrite L4. by apply (set_needs Hp _ _ _ q r E).
Qed.

End program.

(** Once uops of a macro-op have committed, all of it has completed, so all of it has been
    dispatched. *)
Section committing.
Context {k : knobs} {h : heap} {now : Z} {Q : list Z} {gone infl pend : list ptr}.
Hypothesis Hp : program k h Q gone infl pend.
Hypothesis Hm : Mops_ok h now Q gone.
Hypothesis Hpend : Forall (λ p, pristine (get h p)) pend.
Hypothesis Hnow : now < TICK_T_MAX.

Lemma all_dispatched i m : Mop_ok h now i gone m → complete_index (m_commit m) = -1 ∨ gone ≠ [] → Forall (completed h now) (flow h i) ∧ ∀ p, p ∈ pend → p.1 ≠ i.
Proof.
  intros Hi Hc. assert (complete_index (m_commit m) = -1) as E.
  { destruct Hc as [|Hc]; [done|]. destruct (decide (complete_index (m_commit m) = -1)) as [|Hne]; [done|]. by destruct (mo_some _ _ _ _ _ Hi Hne) as [? _]. }
  pose proof (mo_all _ _ _ _ _ Hi E) as Hall. split; [done|]. intros p Hpp Ei. destruct (pr_in Hp p) as (_ & Hf & _); [rewrite !elem_of_app; tauto|].
  rewrite Ei in Hf. rewrite list.Forall_forall in Hall, Hpend. specialize (Hall p Hf). unfold completed, completed_at in Hall.
  rewrite (pu_completed _ (Hpend p Hpp)) in Hall. lia.
Qed.

Lemma next_untouched p : p ∈ pend → untouched (Q := Q) (gone := gone) p.
Proof.
  intros Hpp i Q' EQ Ei. destruct (decide (gone = [])) as [|Hne]; [done|]. exfalso. unfold Mops_ok in Hm. rewrite EQ in Hm. destruct Hm as [(m & Hi) _].
  destruct (all_dispatched i m Hi (or_intror Hne)) as [_ Hn]. by apply (Hn p).
Qed.

End committing.

End back_facts.
