(* ===== verification/BackDispatch.v ===== *)
(** * BackDispatch: a uop enters the back end

    The next uop in program order gets its places in the reorder buffer, the queues and the
    reservation stations, or it waits and nothing changes. *)

From S2P Require Import Prelude Misc CacheHeap CacheSet Memory OracleDeps Uops ROB RS LSQ LSQInv LSQOps LSQRun Backend BackHeap BackInv BackLinks BackStations BackState.

Module back_dispatch.
Import uops backend back_heap order back_inv back_links back_stations back_shape back_state back_lsq back_facts.

(** ** The parts *)

Lemma stall_none c u : stall_reason c u = None →
  (in_fusion (dec u) = false ∨ fusion_head (dec u) ≠ None → rob.ROB_available (rob c) = true) ∧
  (is_load (dec u) || is_lfence (dec u) = true → lsq.LDQ_available (lsq.loads (lsq c)) = true) ∧
  (is_sta (dec u) || is_sfence (dec u) = true → lsq.STQ_available (lsq.stores (lsq c)) = true) ∧
  (is_nop (dec u) = false → is_lfence (dec u) = false → is_sfence (dec u) = false → lsq.is_uop_helix_signal (dec u) (orc u) = false →
    rs.RS_available (res c) = true).
Proof.
  unfold stall_reason. intros E. destruct ((negb (in_fusion (dec u)) || _) && _) eqn:E1; [done|]. destruct ((is_load (dec u) || _) && _) eqn:E2; [done|].
  destruct ((is_sta (dec u) || _) && _) eqn:E3; [done|]. destruct (negb (rs.RS_available (res c)) && _ && _ && _ && _) eqn:E4; [done|]. clear E.
  apply andb_false_iff in E1, E2, E3. split_and!.
  - intros Hf. destruct E1 as [E1|E1]; [|by apply negb_false_iff]. apply orb_false_iff in E1 as [E1 E1']. apply negb_false_iff in E1. apply bool_decide_eq_false in E1'.
    destruct Hf; [congruence|done].
  - intros Hf. destruct E2 as [E2|E2]; [congruence|by apply negb_false_iff].
  - intros Hf. destruct E3 as [E3|E3]; [congruence|by apply negb_false_iff].
  - intros F1 F2 F3 F4. rewrite F1, F2, F3, F4 in E4. simpl in E4. rewrite !andb_true_r in E4. by apply negb_false_iff.
Qed.

Lemma lone_body h p : lone_or_head (D h p) = negb (body h p).
Proof. unfold lone_or_head, body. by destruct (in_fusion _), (is_fusion_head _). Qed.

Lemma not_in_set h infl g p : p ∉ infl → g ∈ sets (body h) infl → p ∉ g.
Proof. intros Hp Hg Hpg. apply Hp. rewrite <- (sets_concat (body h) infl). apply elem_of_concat. eauto. Qed.

Lemma enter_ROB_ok h c infl p n : rob.ok (rob c) (sets (body h) infl) n → p ∉ infl → (body h p = false → rob.ROB_available (rob c) = true) →
  (body h p = true → ∃ gs g q0, sets (body h) infl = gs ++ [g] ∧ fusion_head (D h p) = Some q0 ∧ q0 ∈ g) →
  wp (enter_ROB c p (D h p)) (λ c', ∃ x, c' = set_rob x c ∧ rob.ok x (sets (body h) (infl ++ [p])) (n + 1)).
Proof.
  intros Hok Hp Hav Hb. assert (∀ g, g ∈ sets (body h) infl → p ∉ g) as Hg by (intros g; by apply not_in_set).
  unfold enter_ROB. rewrite lone_body. destruct (body h p) eqn:Eb; simpl.
  - destruct (Hb eq_refl) as (gs & g & q0 & E & Ef & Hq). rewrite (sets_snoc_body _ _ _ _ _ Eb E). rewrite E in Hok, Hg.
    eapply wp_bind, wp_mono; [by apply (rob.ROB_fuse_insert_ok _ _ _ _ _ _ _ Hok Ef Hq)|]. intros x [Hx _]. by exists x.
  - rewrite sets_snoc_new by by left. eapply wp_bind, wp_mono; [by apply (rob.ROB_insert_ok _ _ _ Hok); [apply Hav|]|]. intros x [Hx _]. by exists x.
Qed.

(** The ports. *)
Lemma least_loaded_ok loading ps min index : Forall (λ x, 0 ≤ x < Z.of_nat (length loading)) ps →
  wp (least_loaded loading ps min index) (λ port, port ∈ ps ∨ (port = index ∧ Forall (λ x, ∀ n, aget loading x = Ok n → min ≤ n) ps)).
Proof.
  revert min index. induction ps as [|x ps IH]; intros min index Hps; [by right|]. apply list.Forall_cons in Hps as [Hx Hps]. simpl.
  destruct (aget_ok loading x Hx) as (n & _ & G). rewrite G. cbn [rbind]. destruct (Z.ltb_spec n min) as [Hn|Hn]; (eapply wp_mono; [by apply IH|]).
  - intros port [?|[-> _]]; left; [by right|left].
  - intros port [?|[-> Hmin]]; [left; by right|right]. split; [done|]. constructor; [|done]. intros n'. rewrite G. by intros [= <-].
Qed.

Lemma bind_port_ok k h loading p l : uop_wf k h p → needs h p = true → Z.of_nat (length loading) = num_exec_ports k → load_ok h loading l →
  Z.of_nat (length l) < 2 ^ 31 - 1 → wp (bind_port k loading (D h p)) (λ port, 0 ≤ port < num_exec_ports k).
Proof.
  intros Hw Hn Hlen Hload Hl. destruct (uw_port _ _ _ Hw Hn) as [Hne Hps]. unfold bind_port.
  assert (wp (least_loaded loading (ports k (FU_class (D h p))) (2 ^ 31 - 1) (-1)) (λ port, 0 ≤ port < num_exec_ports k)) as Hgo.
  { eapply wp_mono; [apply least_loaded_ok; by rewrite Hlen|]. intros port [Hin|[_ Hmin]]; [by apply (proj1 (list.Forall_forall _ _) Hps)|].
    exfalso. destruct (ports k (FU_class (D h p))) as [|x ps]; [done|]. apply list.Forall_cons in Hmin as [Hmin _]. apply list.Forall_cons in Hps as [Hx _].
    destruct (aget_ok loading x) as (n & _ & G); [by rewrite Hlen|]. specialize (Hmin n G). rewrite (Hload _ _ G) in Hmin.
    pose proof (list.length_filter (λ q, port_of h q = x) l). lia. }
  destruct (ports k (FU_class (D h p))) as [|x [|y ps]]; [done| |exact Hgo]. by apply list.Forall_cons in Hps as [Hx _].
Qed.

(** The scoreboard. *)
Record scored (u u' : uop) : Prop := {
  sc_dec : dec u' = dec u;
  sc_orc : orc u' = orc u;
  sc_alc : alc u' = alc u;
  sc_exe : idep_uop (exe u') = idep_uop (exe u) ∧ odep_uop (exe u') = odep_uop (exe u) ∧ in_readyQ (exe u') = in_readyQ (exe u) ∧
    length (ivalue_valid (exe u')) = length (ivalue_valid (exe u));
  sc_tim : when_allocated (tim u') = when_allocated (tim u) ∧ when_issued (tim u') = when_issued (tim u) ∧ when_exec (tim u') = when_exec (tim u) ∧
    when_completed (tim u') = when_completed (tim u) ∧ length (when_itag_ready (tim u')) = length (when_itag_ready (tim u)) ∧
    length (when_ival_ready (tim u')) = length (when_ival_ready (tim u))
}.

Definition full (h : heap) (u : uop) : Prop :=
  Z.of_nat (length (idep_uop (exe u))) = MAX_IDEPS ∧ Z.of_nat (length (when_itag_ready (tim u))) = MAX_IDEPS ∧
  Z.of_nat (length (when_ival_ready (tim u))) = MAX_IDEPS ∧ Z.of_nat (length (ivalue_valid (exe u))) = MAX_IDEPS ∧
  ∀ j q, idep_uop (exe u) !! j = Some (Some q) → live h q.

Lemma scored_full h u u' : scored u u' → full h u → full h u'.
Proof.
  intros [_ _ _ (E1 & _ & _ & E2) (_ & _ & _ & _ & E3 & E4)] (F1 & F2 & F3 & F4 & F5). unfold full. rewrite E1, E2, E3, E4. done.
Qed.

Lemma scored_trans u1 u2 u3 : scored u1 u2 → scored u2 u3 → scored u1 u3.
Proof.
  intros [A1 A2 A3 (A4 & A5 & A6 & A7) (A8 & A9 & A10 & A11 & A12 & A13)] [B1 B2 B3 (B4 & B5 & B6 & B7) (B8 & B9 & B10 & B11 & B12 & B13)].
  split; [| | |split_and!|split_and!]; congruence.
Qed.

Lemma read_input_ok h now j u : 0 ≤ j < MAX_IDEPS → full h u → wp (read_input h now j u) (scored u).
Proof.
  intros Hj (F1 & F2 & F3 & F4 & F5). unfold read_input. destruct (aget_ok (idep_uop (exe u)) j) as ([q|] & E & G); [lia| |]; rewrite G; cbn [rbind].
  - specialize (F5 _ _ E). unfold live in F5. rewrite F5. cbn [rbind]. rewrite aset_ok by lia. cbn [rbind].
    destruct (ovalue_valid _); [rewrite !aset_ok by (simpl; lia)|]; cbn [rbind wp]; split; simpl; rewrite ?length_insert; done.
  - rewrite !aset_ok by lia. cbn [rbind wp]. split; simpl; rewrite ?length_insert; done.
Qed.

Lemma scoreboard_ok h now u : full h u → wp (scoreboard h now u) (scored u).
Proof.
  intros Hf. assert (scored u u) as Hr by by split. unfold scoreboard.
  eapply wp_bind, wp_mono; [apply (wp_for_range (λ _ (a : uop * Z), scored u a.1)); [unfold MAX_IDEPS; lia|done| |exact (λ a Ha, Ha)]|].
  - intros j [v w] Hj Hv. simpl in Hv. simpl. pose proof (scored_full _ _ _ Hv Hf) as Hfv. eapply wp_bind, wp_mono; [by apply (read_input_ok h now j v Hj Hfv)|].
    intros v' Hv'. pose proof (scored_full _ _ _ Hv' Hfv) as (_ & F2 & _). destruct (aget_ok (when_itag_ready (tim v')) j) as (x & _ & G); [lia|]. rewrite G. cbn [rbind wp].
    by eapply scored_trans.
  - intros [v w] Hv. cbn [wp]. simpl in Hv. eapply scored_trans; [exact Hv|]. by split.
Qed.

(** The reservation stations. *)
Record joined_RS (h : heap) (infl : list ptr) (p : ptr) (es : list rs.entry) (x : rs.t) (es' : list rs.entry) : Prop := {
  jr_ok : rs.ok (D h) x es';
  jr_waiting : waiting es' ≡ₚ waiting es ++ [p];
  jr_members : ∀ q, q ∈ rs.members es' → q ∈ rs.members es ∨ q = p;
  jr_shape : shaped h (infl ++ [p]) es'
}.

Lemma enter_RS_ok k h c infl es p : uop_wf k h p → needs h p = true → rs.ok (D h) (res c) es → shaped h infl es → p ∉ rs.members es →
  (body h p = false → rs.RS_available (res c) = true) →
  (body h p = true → ∃ gs g q0 g' r, sets (body h) infl = gs ++ [g] ∧ g = q0 :: g' ∧ list.last g = Some r ∧ open h g ∧ fusion_next (D h r) = Some p ∧
    in_fusion (D h p) = true ∧ is_fusion_head (D h p) = false ∧ fusion_head (D h p) = Some q0 ∧ in_fusion (D h q0) = true ∧ Forall (λ q, needs h q = needs h p) g) →
  wp (enter_RS c p (D h p)) (λ c', ∃ x es', c' = set_res x c ∧ joined_RS h infl p es x es').
Proof.
  intros Hw Hn Hok Hs Hp Hav Hb. unfold enter_RS. rewrite lone_body. destruct (body h p) eqn:Eb; simpl.
  - destruct (Hb eq_refl) as (gs & g & q0 & g' & r & E & Eg & Er & Ho & Enext & F1 & F2 & F3 & F4 & Hag).
    destruct (shape_join_body h infl es Hs p gs g Eb E Ho) as (es0 & e & Ees & Em & Hs').
    { eapply list.Forall_impl; [exact Hag|]. simpl. intros q ->. done. }
    rewrite Ees in Hok, Hp. unfold members_of in Em.
    eapply wp_bind, wp_mono; [apply (rs.RS_fuse_insert_ok (D h) (res c) es0 e p q0 Hok); rewrite ?Em, ?Eg; try done|].
    { exists r. by rewrite <- Eg. }
    intros x [Hx _]. exists x. eexists. split; [done|]. split; [exact Hx| | |exact Hs'].
    + rewrite Ees, !waiting_uops_app, waiting_single, list.filter_app, fmap_app. destruct e as [i u]. rewrite waiting_single. simpl. by rewrite app_assoc.
    + intros q. rewrite Ees, !rs.members_app, !elem_of_app. intros [|Hq]; [by left; left|]. unfold rs.members in Hq. simpl in Hq. rewrite app_nil_r, fmap_app, elem_of_app in Hq.
      destruct Hq as [Hq|Hq%list_elem_of_singleton]; [left; right|by right]. unfold rs.members. simpl. by rewrite app_nil_r.
  - pose proof (uw_head _ _ _ Hw Eb) as Hh.
    eapply wp_bind, wp_mono; [apply (rs.RS_insert_ok (D h) (res c) es p Hok (Hav eq_refl) Hp)|].
    + intros E. rewrite E in Hh. split; [|apply Hh]. unfold body in Eb. rewrite E in Eb. by apply negb_false_iff in Eb.
    + intros E. by rewrite E in Hh.
    + intros x (i & Hx & _). exists x. eexists. split; [done|]. split; [exact Hx| | |apply shape_join_new; [done|by left]].
      * by rewrite waiting_uops_app, waiting_single.
      * intros q. rewrite rs.members_app, elem_of_app. unfold rs.members at 2. simpl. rewrite list_elem_of_singleton. done.
Qed.

(** The ready queue. *)
Lemma new_id_ok c : 0 ≤ lsq.global_action_id (lsq c) < 2 ^ 64 - 1 →
  new_action_id c = (lsq.global_action_id (lsq c) + 1, set_lsq (lsq.mk (lsq.loads (lsq c)) (lsq.stores (lsq c)) (lsq.global_action_id (lsq c) + 1)) c).
Proof. intros Hg. unfold new_action_id. by rewrite lsq_ops.next_id. Qed.

(** The queues and the counter of action ids. *)
Definition ids_to (y y' : lsq.t) (n : Z) : Prop :=
  lsq.loads y' = lsq.loads y ∧ lsq.stores y' = lsq.stores y ∧ lsq.global_action_id y ≤ lsq.global_action_id y' ≤ lsq.global_action_id y + n.

Lemma insert_ready_ok k c p now : live (mem c) p → 0 ≤ port_of (mem c) p < num_exec_ports k → Z.of_nat (length (readyQ c)) = num_exec_ports k →
  completed_at (mem c) p = TICK_T_MAX → exec_at (mem c) p = TICK_T_MAX → when_issued (tim (get (mem c) p)) = TICK_T_MAX → in_readyQ (exe (get (mem c) p)) = false →
  0 ≤ lsq.global_action_id (lsq c) < 2 ^ 64 - 1 →
  wp (insert_ready_uop k c p now) (λ c', ∃ h' rq y, c' = mk h' (rob c) (res c) y rq (port_loading c) (drain_in_progress c) ∧ touched (λ q, q = p) (mem c) h' ∧
    same_links (mem c) h' ∧ tim (get h' p) = tim (get (mem c) p) ∧ alc (get h' p) = alc (get (mem c) p) ∧ length rq = length (readyQ c) ∧ ids_to (lsq c) y 1).
Proof.
  intros Hl Hp HQ Ec Ee Ei Er Hg. unfold insert_ready_uop. pose proof Hl as El. unfold live in El. rewrite El. cbn [rbind].
  unfold port_of, completed_at, exec_at in *. rewrite (proj2 (Z.leb_le _ _)), (proj2 (Z.ltb_lt _ _)) by lia. rewrite Ec, Ee, Ei, Er, Z.eqb_refl. cbn [andb negb guard_or rbind].
  rewrite new_id_ok by done. unfold amodify.
  destruct (aget_ok (readyQ c) (port_assignment (alc (get (mem c) p)))) as (q & _ & G); [lia|]. simpl readyQ. rewrite G. cbn [rbind]. rewrite aset_ok by lia. cbn [rbind].
  apply wp_upd; try done; [by rewrite live_D|by rewrite live_O|]. simpl. intros h' T L E. eexists h', _, _. split; [done|]. split; [done|]. split; [done|].
  rewrite E. split; [done|]. split; [done|]. split; [apply length_insert|]. unfold ids_to. simpl. split_and!; (done || lia).
Qed.

(** ** To the reservation stations, or past them *)

(** What the dispatch of [p] leaves of [c], but for the reorder buffer. *)
Record entered (k : knobs) (c : t) (infl : list ptr) (p : ptr) (es : list rs.entry) (c' : t) (es' : list rs.entry) : Prop := {
  et_rob : rob c' = rob c;
  et_readyQ : length (readyQ c') = length (readyQ c);
  et_drain : drain_in_progress c' = drain_in_progress c;
  et_lsq : ids_to (lsq c) (lsq c') 1;
  et_heap : touched (λ q, q = p) (mem c) (mem c');
  et_links : ∀ q, q ∉ infl → q ≠ p → ideps (mem c') q = ideps (mem c) q ∧ odeps (mem c') q = odeps (mem c) q;
  et_deps : Forall (deps_ok (mem c') (infl ++ [p])) (infl ++ [p]);
  et_seated : ∀ h, touched (λ q, q = p) (mem c') h → alc (get h p) = alc (get (mem c') p) → when_allocated (tim (get h p)) ≠ TICK_T_MAX →
    exec_at h p = exec_at (mem c') p → completed_at h p = completed_at (mem c') p → seated k h (res c') (port_loading c') (infl ++ [p]) es';
  et_shape : shaped (mem c) (infl ++ [p]) es'
}.

Lemma touched_same h h' p l : touched (λ q, q = p) h h' → p ∉ l → same_time h h' l.
Proof. intros Ht Hp q Hq. assert (q ≠ p) by (by intros ->). by rewrite (to_alc _ _ _ Ht), (to_tim _ _ _ Ht). Qed.

Section enter.
Variables (k : knobs) (c : t) (infl : list ptr) (p : ptr) (es : list rs.entry).
Local Abbreviation h := (mem c).
Hypothesis Hw : uop_wf k h p.
Hypothesis Hpr : pristine (get h p).
Hypothesis Hp : p ∉ infl.
Hypothesis Hs : seated k h (res c) (port_loading c) infl es.
Hypothesis Hsh : shaped h infl es.
Hypothesis Hd : Forall (deps_ok h infl) infl.
Hypothesis Hl : Forall (live h) infl.
Hypothesis Hseq : ∀ q, q ∈ infl → seq_of h q < seq_of h p.
Hypothesis Hg : 0 ≤ lsq.global_action_id (lsq c) < 2 ^ 64 - 1.

Lemma not_member : p ∉ rs.members es.
Proof. intros Hin. by destruct (se_members _ _ _ _ _ _ Hs p Hin). Qed.

(** The links and the scoreboard. *)
Lemma score_ok {A} h1 parents now (K : heap → uop → result A) (Q : A → Prop) : touched (λ q, q = p) h h1 → same_links h h1 → tim (get h1 p) = tim (get h p) → exe (get h1 p) = exe (get h p) →
  Z.of_nat (length parents) = MAX_IDEPS → (∀ q, Some q ∈ parents → q ∈ infl) →
  (∀ h2 u, touched (λ q, q = p) h h2 → live h2 p → scored (get h2 p) u → alc (get h2 p) = alc (get h1 p) → tim (get h2 p) = tim (get h p) → in_readyQ (exe (get h2 p)) = false →
    Forall (deps_ok h2 (infl ++ [p])) (infl ++ [p]) → (∀ q, q ∉ infl → q ≠ p → ideps h2 q = ideps h q ∧ odeps h2 q = odeps h q) →
    wp (K h2 u) Q) →
  wp (let* h2 := link_inputs h1 p 0 parents in let* u := uop_at h2 p in let* u := scoreboard h2 now u in K h2 u) Q.
Proof.
  intros T1 L1 Et Ee Hlen Hpar HQ. assert (live h1 p) as Hl1 by (eapply touched_live; [exact T1|apply Hw]).
  assert (∀ q, ideps h1 q = ideps h q) as HI by (intros q; by destruct (L1 q)). assert (∀ q, odeps h1 q = odeps h q) as HO by (intros q; by destruct (L1 q)).
  assert (∀ q, seq_of h1 q = seq_of h q) as HS by (intros q; unfold seq_of; by rewrite (al_D _ _ (to_alike _ _ _ T1))).
  eapply wp_bind, wp_mono; [apply (deps_dispatch h1 infl p parents)|].
  - eapply list.Forall_impl; [exact Hd|]. intros q. apply deps_ok_frame; [apply T1|done].
  - eapply list.Forall_impl; [exact Hl|]. intros q. by eapply touched_live.
  - done.
  - done.
  - rewrite HI. apply Hpr.
  - rewrite HO. apply Hpr.
  - intros q Hq. rewrite !HS. by apply Hseq.
  - done.
  - done.
  - intros h2 (R2 & D2 & I2 & O2). assert (live h2 p) as Hl2 by (eapply relinked_live; [exact R2|done]). pose proof Hl2 as E2. unfold live in E2. rewrite E2. cbn [rbind].
    destruct (rl_exe _ _ R2 p) as (X1 & _ & X3 & _). destruct (pu_lengths _ Hpr) as (N1 & N2 & N3).
    assert (full h2 (get h2 p)) as Hfull.
    { unfold full. rewrite (rl_tim _ _ R2), X1, Et, Ee. change (idep_uop (exe (get h2 p))) with (ideps h2 p). rewrite I2. split_and!; try done.
      intros j q Ej. eapply relinked_live; [exact R2|]. eapply touched_live; [exact T1|]. apply (proj1 (list.Forall_forall _ _) Hl). apply Hpar. by eapply list_elem_of_lookup_2. }
    eapply wp_bind, wp_mono; [by apply scoreboard_ok|]. intros u Hu. apply (HQ h2 u).
    + transitivity h1; [done|]. by apply relinked_touched.
    + done.
    + done.
    + apply (rl_alc _ _ R2).
    + by rewrite (rl_tim _ _ R2).
    + rewrite X3, Ee. apply Hpr.
    + done.
    + intros q Hq1 Hq2. destruct (O2 q Hq1 Hq2) as [-> ->]. done.
Qed.

Lemma to_exec_ok parents now : needs h p = true → (body h p = false → rs.RS_available (res c) = true) →
  (body h p = true → ∃ gs g q0 g' r, sets (body h) infl = gs ++ [g] ∧ g = q0 :: g' ∧ list.last g = Some r ∧ open h g ∧ fusion_next (D h r) = Some p ∧
    in_fusion (D h p) = true ∧ is_fusion_head (D h p) = false ∧ fusion_head (D h p) = Some q0 ∧ in_fusion (D h q0) = true ∧ Forall (λ q, needs h q = needs h p) g) →
  Z.of_nat (length parents) = MAX_IDEPS → (∀ q, Some q ∈ parents → q ∈ infl) → Z.of_nat (length (readyQ c)) = num_exec_ports k →
  Z.of_nat (length (waiting es)) < 2 ^ 31 - 1 → wp (to_exec k c p (D h p) parents now) (λ c', ∃ es', entered k c infl p es c' es').
Proof.
  intros Hn Hav Hb Hlen Hpar HQ Hsmall. unfold to_exec. pose proof (uw_live _ _ _ Hw) as Hlp. pose proof not_member as Hnm.
  eapply wp_bind, wp_mono; [apply (bind_port_ok k h _ p (waiting es) Hw Hn); [apply Hs|apply Hs|done]|]. intros port Hport.
  apply wp_bind, wp_upd; [done|by rewrite live_D|by rewrite live_O|done|done|]. intros h1 T1 L1 E1. simpl port_loading.
  assert (port_of h1 p = port) as Eport by (unfold port_of; by rewrite E1). assert (∀ q, q ∈ waiting es → q ≠ p) as Hwp by (by intros q Hq%waiting_member ->).
  assert (load_ok h1 (port_loading c) (waiting es)) as Hload.
  { eapply load_frame; [|apply Hs]. intros q Hq. unfold port_of. by rewrite (to_alc _ _ _ T1) by auto. }
  eapply wp_bind, wp_mono; [rewrite <- Eport; apply (load_join h1 (port_loading c) (waiting es) p); [|done]|].
  { rewrite Eport, (se_ports _ _ _ _ _ _ Hs). done. }
  intros loading' [Hll Hload']. eapply wp_bind, wp_mono; [apply (enter_RS_ok k h _ infl es p Hw Hn); [apply Hs|done|done|exact Hav|exact Hb]|].
  intros c2 (x & es' & -> & [J1 J2 J3 J4]). simpl mem. apply (score_ok h1 parents now); [done|done|by rewrite E1|by rewrite E1|done|done|].
  intros h2 u T2 Hl2 [U1 U2 U3 U4 U5] A2 M2 R2 D2 O2. destruct U4 as (V1 & V2 & V3 & V4). destruct U5 as (W1 & W2 & W3 & W4 & W5 & W6).
  apply wp_bind, wp_upd; simpl; [done|by rewrite live_D|by rewrite live_O|done|done|]. intros h3 T3 L3 E3.
  assert (touched (λ q, q = p) h h3) as T03 by by transitivity h2.
  assert (alc (get h3 p) = alc (get h1 p)) as A3 by (rewrite E3, U3; done). destruct Hpr as [P1 P2 P3 P4 P5 P6 P7 P8 P9].
  assert (∀ c', rob c' = rob c → length (readyQ c') = length (readyQ c) → drain_in_progress c' = drain_in_progress c → ids_to (lsq c) (lsq c') 1 →
    touched (λ q, q = p) h3 (mem c') → same_links h3 (mem c') → tim (get (mem c') p) = tim u → alc (get (mem c') p) = alc u → res c' = x → port_loading c' = loading' →
    entered k c infl p es c' es') as Hfin.
  { intros c' F1 F2 F3 F4 F5 F6 F7 F8 F9 F10. assert (touched (λ q, q = p) h (mem c')) as T by by transitivity h3. split; try done.
    - intros q Hq1 Hq2. destruct (F6 q) as [-> ->]. destruct (L3 q) as [-> ->]. by apply O2.
    - eapply list.Forall_impl; [exact D2|]. intros q. apply deps_ok_frame; [etransitivity; [apply T3|apply F5]|by transitivity h3].
    - intros h' T' A' Hal Hex Hco. assert (touched (λ q, q = p) h h') as T0 by by transitivity (mem c'). rewrite F9, F10.
      assert (alc (get h' p) = alc (get h1 p)) as Ea by (rewrite A', F8, U3; done).
      apply (seated_join Hs h' x loading' es' p); try done; [apply T0|by eapply touched_same|..].
      + rewrite Hex. unfold exec_at. rewrite F7, W3, M2. done.
      + rewrite Hco. unfold completed_at. rewrite F7, W4, M2. done.
      + unfold port_of. rewrite Ea. by rewrite <- Eport in Hport.
      + eapply load_frame; [|exact Hload']. intros q Hq. unfold port_of. apply elem_of_app in Hq as [Hq|Hq%list_elem_of_singleton]; [|by rewrite Hq, Ea].
        rewrite (to_alc _ _ _ T0), (to_alc _ _ _ T1) by auto. done. }
  destruct (when_ready (tim u) <? TICK_T_MAX).
  - eapply wp_mono; [apply insert_ready_ok; simpl|].
    + by eapply touched_live.
    + unfold port_of. rewrite A3, E1. done.
    + done.
    + unfold completed_at. rewrite E3, W4, M2. done.
    + unfold exec_at. rewrite E3, W3, M2. done.
    + rewrite E3, W2, M2. done.
    + rewrite E3, V3, R2. done.
    + done.
    + intros c' (h4 & rq & y & -> & T4 & L4 & E4 & A4 & Hrq & Hy). exists es'. apply Hfin; simpl in *; try done; [by rewrite E4, E3|by rewrite A4, E3].
  - cbn [wp]. exists es'. apply Hfin; simpl; try done; [unfold ids_to; split_and!; (done || lia)|by rewrite E3|by rewrite E3].
Qed.

Lemma done_at_once_ok now : needs h p = false → 0 ≤ now < TICK_T_MAX →
  (body h p = false ∨ infl = []) ∨ (body h p = true ∧ ∃ gs g, sets (body h) infl = gs ++ [g] ∧ g ∉ members_of <$> es) →
  wp (done_at_once c p (get h p) now) (λ c', entered k c infl p es c' es).
Proof.
  intros Hn Hnow Hb. pose proof (uw_live _ _ _ Hw) as Hlp. unfold done_at_once. rewrite <- (live_D _ _ Hlp), <- (live_O _ _ Hlp).
  assert (lsq.is_uop_helix_signal (D h p) (O h p) = false) as Esig by (unfold lsq.is_uop_helix_signal; by rewrite (uw_sync _ _ _ Hw), andb_false_r).
  rewrite Esig. cbn [andb orb]. match goal with |- wp (rbind (upd c p ?f) _) _ => set (f0 := f) end.
  assert (dec (f0 (get h p)) = dec (get h p) ∧ orc (f0 (get h p)) = orc (get h p) ∧ exe (f0 (get h p)) = exe (get h p) ∧ alc (f0 (get h p)) = alc (get h p)) as (F1 & F2 & F3 & F4).
  { unfold f0. by destruct (is_lfence _), (is_sfence _), (is_nop _). }
  apply wp_bind, wp_upd; [done|by rewrite F1, live_D|by rewrite F2, live_O|by rewrite F3|by rewrite F3|].
  intros h1 T1 L1 E1. cbn [rbind]. assert (is_load (D h p) = false) as Eld.
  { destruct (is_load (D h p)) eqn:E; [|done]. rewrite (uw_load _ _ _ Hw E) in Hn. done. }
  rewrite Eld. cbn [negb guard_or rbind wp]. destruct Hpr as [P1 P2 P3 P4 P5 P6 P7 P8 P9].
  split; simpl; try done.
  - unfold ids_to. split_and!; (done || lia).
  - rewrite list.Forall_forall in Hd. apply list.Forall_forall. intros q Hq. apply (deps_ok_frame h); [apply T1|done|].
    apply elem_of_app in Hq as [Hq|Hq%list_elem_of_singleton].
    + destruct (Hd q Hq) as [D1 D2 D3 D4]. split; [done|done| |].
      * intros r j Hx. rewrite elem_of_app. destruct (D3 r j Hx) as (? & ?). split; [by left|done].
      * intros j r Hx. rewrite elem_of_app. destruct (D4 j r Hx) as (? & ?). split; [by left|done].
    + rewrite Hq. unfold ideps, odeps. split; unfold ideps, odeps; rewrite ?P6, ?P7.
      * by rewrite length_replicate.
      * constructor.
      * by intros r j ?%elem_of_nil.
      * by intros j r [? _]%lookup_replicate.
  - intros h' T' A' Hal Hex Hco. assert (touched (λ q, q = p) h h') as T0 by by transitivity h1.
    apply (seated_pass Hs h' p); try done; [apply T0|by eapply touched_same| |].
    + unfold port_of. by rewrite A', E1, F4.
    + rewrite Hex. unfold exec_at. rewrite E1. unfold f0. unfold needs in Hn. destruct (is_lfence (D h p)), (is_sfence (D h p)), (is_nop (D h p)), (trap h p.1); simpl in *;
        try (by left); try (right; simpl; lia). by rewrite Esig in Hn.
  - by apply shape_pass.
Qed.

End enter.

(** ** The whole *)

Lemma shaped_alike h h' infl es : alike h h' → shaped h infl es → shaped h' infl es.
Proof.
  intros Ha [S1 S2 S3]. split; rewrite ?(sets_alike _ _ Ha); [done|done|]. intros gs g E (q & Eq & F1 & F2) Hn. rewrite !(al_D _ _ Ha) in *.
  apply (S3 gs g E); [by exists q|]. eapply list.Forall_impl; [exact Hn|]. intros x. simpl. by rewrite (needs_alike _ _ Ha).
Qed.

Lemma program_shift k h Q gone infl p pend : program k h Q gone infl (p :: pend) → program k h Q gone (infl ++ [p]) pend.
Proof. intros [H1 H2 H3 H4 H5]. split; try done; by rewrite <- app_assoc. Qed.

Lemma pr_length k h Q gone infl pend : program k h Q gone infl pend → (length (gone ++ infl ++ pend) ≤ 64 * length Q)%nat.
Proof.
  intros [_ Hw -> _ _]. clear - Hw. induction Q as [|i Q IH]; [done|]. apply list.Forall_cons in Hw as [Hi Hw]. simpl. rewrite length_app.
  pose proof (fw_length _ _ _ Hi). transitivity (64 + 64 * length Q)%nat; [apply Nat.add_le_mono; [lia|by apply IH]|lia].
Qed.

Lemma waiting_bound k h x loading infl es : seated k h x loading infl es → (length (waiting es) ≤ length infl)%nat.
Proof.
  intros Hs. apply submseteq_length, NoDup_submseteq; [apply waiting_nodup; by eapply rs.ok_members, Hs|]. intros q Hq. by apply (seated_waiting Hs).
Qed.

Section whole.
Context {M Env : Type} `{SA : lsq_run.StoreMemAnswers M} `{RL : !lsq_run.RepeaterLater M} `{CL : CommitEnvLaws Env}.
Variable k : knobs.

Lemma models_later y y' n (m : M) a : lsq_run.models (y, m) a → ids_to y y' n → lsq_run.models (y', m) a.
Proof. intros [M1 M2 M3] (E1 & E2 & Hg). split; simpl in *; [by rewrite E1| |done]. rewrite E2. eapply lsq_run.stq_later; [|exact M2]. lia. Qed.

(** Dispatch, in program order: the uop joins those in flight, or it waits for a place and
    nothing changes. *)
Lemma dispatch_uop_ok now Q gone infl p pend c m e es ss parents : inv (M := M) (Env := Env) k now Q gone infl (p :: pend) c m e es ss → ids_left c →
  Z.of_nat (length parents) = MAX_IDEPS → (∀ q, Some q ∈ parents → q ∈ infl) →
  wp (dispatch k c p parents now) (λ r, match r.2 with None => ∃ es' ss', inv k now Q gone (infl ++ [p]) pend r.1 m e es' ss' | Some _ => r.1 = c end).
Proof.
  intros [Hc Hrob Hsh Hpend Henv Hnow Hsm] Hids Hlen Hpar. pose proof (co_prog _ _ _ _ _ _ _ _ _ _ _ Hc) as Hp. pose proof (co_seated _ _ _ _ _ _ _ _ _ _ _ Hc) as Hse.
  destruct (pr_in Hp p) as (HQ & Hf & Hw); [rewrite !elem_of_app; right; right; left|]. pose proof (uw_live _ _ _ Hw) as Hl.
  pose proof (next_untouched Hp (co_Mops _ _ _ _ _ _ _ _ _ _ _ Hc) Hpend ltac:(lia) p ltac:(left)) as Hu.
  apply list.Forall_cons in Hpend as [Hpp Hpend]. assert (p ∉ infl) as Hpi.
  { pose proof (pr_uniq Hp) as Hn. apply list.NoDup_app in Hn as (_ & _ & Hn). apply list.NoDup_app in Hn as (_ & Hn & _). intros Hin. apply (Hn p Hin). left. }
  assert (∀ q, q ∈ infl → seq_of (mem c) q < seq_of (mem c) p) as Hseq.
  { intros q Hq. apply (pr_before Hp (gone ++ infl) (p :: pend)); [by rewrite app_assoc|by apply elem_of_app; right|left]. }
  assert (0 ≤ lsq.global_action_id (lsq c)) as Hg0 by (eapply gid_pos, Hc). unfold ids_left in Hids.
  unfold dispatch. pose proof Hl as El. unfold live in El. rewrite El. cbn [rbind]. rewrite (pu_alloc _ Hpp), Z.eqb_refl. cbn [negb].
  destruct (stall_reason c (get (mem c) p)) as [r|] eqn:Est; [done|]. destruct (stall_none _ _ Est) as (A1 & A2 & A3 & A4). rewrite <- (live_D _ _ Hl), <- ?(live_O _ _ Hl) in *.
  assert (∃ mo, Mop_at (mem c) p.1 = Ok mo) as (mo & Emo).
  { pose proof (proj1 (list.Forall_forall _ _) (pr_wf _ _ _ _ _ _ Hp) _ HQ) as [[d Hd] _ _ _ _ _ _ _ _]. unfold Mstat in Hd. destruct (Mop_at (mem c) p.1); [eauto|done]. }
  rewrite Emo. cbn [rbind]. rewrite (needs_at _ _ _ _ El Emo).
  pose proof (λ H, set_joined Hp p pend eq_refl Hu H) as Hjoin.
  eapply wp_bind, wp_mono; [apply (enter_ROB_ok (mem c) c infl p _ Hrob Hpi)|].
  { intros Hb. apply A1. pose proof (uw_head _ _ _ Hw Hb) as Hh. destruct (in_fusion (D (mem c) p)); [right|by left]. destruct Hh as [-> _]. done. }
  { intros Hb. destruct (Hjoin Hb) as (gs & g & q0 & g' & r & E & Eg & _ & _ & _ & _ & _ & Ef & _). exists gs, g, q0. split_and!; [done|done|rewrite Eg; left]. }
  intros c1 (x & -> & Hrob').
  eapply wp_bind, wp_mono; [apply (enter_LSQ_ok k (mem c) (set_rob x c) m infl ss p); [apply Hc|apply Hc|done| |simpl; lia|done|exact A2|exact A3|]|].
  { apply list.Forall_forall. intros q Hq. by eapply core_wf. }
  { intros Hs. eapply (own_sta Hp infl p pend); done. }
  intros c2 (ss' & y & -> & Hmod & Hst & Hgy). simpl in Hgy.
  eapply wp_bind, (wp_mono _ (λ c3, ∃ es', entered k (set_lsq y (set_rob x c)) infl p es c3 es')).
  { destruct (needs (mem c) p) eqn:En.
    - apply (to_exec_ok k (set_lsq y (set_rob x c)) infl p es); simpl; rewrite ?En; try done; try apply Hc; try lia.
      + apply list.Forall_forall. intros q Hq. by eapply core_live.
      + intros _. unfold needs in En. rewrite !andb_true_iff, !negb_true_iff in En. apply A4; apply En.
      + pose proof (waiting_bound _ _ _ _ _ _ Hse). pose proof (pr_length _ _ _ _ _ _ Hp) as Hpl. rewrite !length_app in Hpl. lia.
    - apply (wp_mono _ (λ c3, entered k (set_lsq y (set_rob x c)) infl p es c3 es)); [|by eauto].
      apply (done_at_once_ok k (set_lsq y (set_rob x c)) infl p es); simpl; try done; try apply Hc; try lia.
      destruct (body (mem c) p) eqn:Eb; [right|by left; left]. split; [done|]. destruct (Hjoin eq_refl) as (gs & g & q0 & g' & r & E & Eg & _ & _ & _ & _ & _ & _ & _ & Hag).
      exists gs, g. split; [done|]. intros (e0 & E0 & He0)%list_elem_of_fmap. assert (q0 ∈ rs.members es) as Hq0.
      { rewrite members_concat. apply elem_of_concat. exists g. split; [rewrite E0; by apply list_elem_of_fmap_2|rewrite Eg; left]. }
      destruct (se_members _ _ _ _ _ _ Hse q0 Hq0) as [_ Hn0]. rewrite Eg in Hag. apply list.Forall_cons in Hag as [Hag _]. congruence. }
  intros c3 (es' & [F1 F2 F3 F4 F5 F6 F7 F8 F9]). simpl in *.
  apply wp_bind, wp_upd; [by eapply touched_live|by rewrite live_D by by eapply touched_live|by rewrite live_O by by eapply touched_live|done|done|].
  intros h' T' L' E'. assert (touched (λ q, q = p) (mem c) h') as T by by transitivity (mem c3). pose proof (to_alike _ _ _ T) as Ha. cbn [wp snd fst]. exists es', ss'.
  split; simpl; try done.
  - split; simpl; try done.
    + apply program_shift. by eapply program_alike.
    + apply F8; [done|by rewrite E'| |by unfold exec_at; rewrite E'|by unfold completed_at; rewrite E']. rewrite E'. simpl. lia.
    + eapply list.Forall_impl; [exact F7|]. intros q. apply deps_ok_frame; [apply T'|done].
    + eapply models_frame; [exact Ha|]. by eapply models_later.
    + by eapply stores_ok_frame.
    + eapply touched_Mops; [exact T| |apply Hc]. unfold completed, completed_at. rewrite (pu_completed _ Hpp). lia.
    + rewrite F2. apply Hc.
  - rewrite F1, (sets_alike _ _ Ha). replace (Z.of_nat (length (infl ++ [p]))) with (Z.of_nat (length infl) + 1) by (rewrite length_app; simpl; lia). done.
  - by eapply shaped_alike.
  - apply list.Forall_forall. intros q Hq. rewrite list.Forall_forall in Hpend. pose proof (pr_uniq Hp) as Hn.
    apply list.NoDup_app in Hn as (_ & _ & Hn). apply list.NoDup_app in Hn as (_ & Hn & Hn2). apply list.NoDup_cons in Hn2 as [Hn2 _].
    assert (q ≠ p) as Hqp by by intros ->. assert (q ∉ infl) as Hqi by (intros Hqi; apply (Hn q Hqi); by right).
    destruct (F6 q Hqi Hqp) as [G1 G2]. destruct (L' q) as [G3 G4]. eapply (pristine_frame (λ q, q = p) (mem c)); [done|done|congruence|congruence|by apply Hpend].
Qed.

End whole.

End back_dispatch.
