(* ===== verification/BackExec.v ===== *)
(** * BackExec: uops execute

    A uop leaves the reservation stations for its functional unit; the other writes of the
    execution stage; time goes on.

    The commit stage looks at the uops of the oldest macro-op until it finds one that has not
    completed; once all have, none of its uops is still to be dispatched. *)

From S2P Require Import Prelude Misc Memory CacheSet CacheHeap OracleDeps Uops RS LSQ LSQInv LSQOps LSQRun ROB Backend BackHeap BackInv BackLinks BackStations BackState BackDispatch.

Module back_exec.
Import uops backend back_heap order back_inv back_links back_stations back_shape back_state back_lsq back_facts back_dispatch.

Section exec.
Context {M Env : Type} `{SA : lsq_run.StoreMemAnswers M} `{RL : !lsq_run.RepeaterLater M} `{CL : CommitEnvLaws Env}.
Variable k : knobs.

(** An inv whose heap has changed, but for the structures it is about. *)
Lemma inv_heap now now' Q gone infl pend c m e es ss h' : inv (M := M) (Env := Env) k now Q gone infl pend c m e es ss → alike (mem c) h' →
  core k now' Q gone infl pend (set_mem h' c) m infl es ss → (∀ p, p ∈ pend → pristine (get (mem c) p) → pristine (get h' p)) → 0 ≤ now' < TICK_T_MAX →
  inv k now' Q gone infl pend (set_mem h' c) m e es ss.
Proof.
  intros [I1 I2 I3 I4 I5 I6 I7] Ha Hc Hp Hn. split; simpl; try done.
  - by rewrite (sets_alike _ _ Ha).
  - by eapply shaped_alike.
  - apply list.Forall_forall. intros q Hq. apply Hp; [done|]. by apply (proj1 (list.Forall_forall _ _) I4).
Qed.

Lemma pend_not_infl now Q gone infl pend c m e es ss p q : inv (M := M) (Env := Env) k now Q gone infl pend c m e es ss → p ∈ infl → q ∈ pend → q ≠ p.
Proof.
  intros Hi Hp Hq ->. pose proof (pr_uniq (co_prog _ _ _ _ _ _ _ _ _ _ _ (in_core _ _ _ _ _ _ _ _ _ _ _ Hi))) as Hn.
  apply list.NoDup_app in Hn as (_ & _ & Hn). apply list.NoDup_app in Hn as (_ & Hn & _). by apply (Hn p).
Qed.

(** A uop goes from the payload to its functional unit. *)
Lemma execute_ok now Q gone infl pend c m e es ss p g : inv (M := M) (Env := Env) k now Q gone infl pend c m e es ss →
  p ∈ waiting es → g ∈ sets (body (mem c)) infl → p ∈ g → ¬ open (mem c) g →
  wp (go_to_ALU c p now) (λ c', ∃ es', inv k now Q gone infl pend c' m e es' ss).
Proof.
  intros Hi Hpw Hg Hpg Hop. pose proof Hi as [Hc Hrob Hsh Hpend Henv Hnow Hsm]. pose proof (co_prog _ _ _ _ _ _ _ _ _ _ _ Hc) as Hp.
  pose proof (co_seated _ _ _ _ _ _ _ _ _ _ _ Hc) as Hse. pose proof (se_ok _ _ _ _ _ _ Hse) as Hok.
  destruct (seated_waiting Hse p Hpw) as [Hpi Hn]. pose proof (core_live _ Hc p Hpi) as Hl. pose proof (seated_exec Hse p Hpi) as [X1 X2 _].
  destruct (X2 Hn) as (Y1 & _). apply waiting_elem in Hpw as (e0 & He & Hp0). apply list_elem_of_split in He as (es1 & es2 & Ees).
  assert (members_of e0 ∈ sets (body (mem c)) infl) as Hme.
  { eapply elem_of_sublist; [|apply Hsh]. rewrite Ees. apply list_elem_of_fmap_2, elem_of_app. right. left. }
  assert (p ∈ members_of e0) as Hpm by (by apply (list_elem_of_fmap_2 fst _ (p, false))).
  assert (members_of e0 = g) as <-.
  { pose proof (core_nodup _ Hc) as Hnd. rewrite <- (sets_concat (body (mem c)) infl) in Hnd. apply list_elem_of_split in Hme as (l1 & l2 & E). rewrite E in Hnd, Hg.
    rewrite concat_app in Hnd. simpl in Hnd. apply list.NoDup_app in Hnd as (_ & N1 & N2). apply list.NoDup_app in N2 as (_ & N2 & _).
    apply elem_of_app in Hg as [Hg|[<-|Hg]%elem_of_cons]; [exfalso|done|exfalso].
    - apply (N1 p); [apply elem_of_concat; eauto|apply elem_of_app; by left].
    - apply (N2 p); [done|apply elem_of_concat; eauto]. }
  apply list_elem_of_split in Hme as (gs1 & gs2 & Eg). destruct (set_known Hp _ _ _ Eg) as (_ & _ & _ & _ & _ & _ & Hlen).
  unfold go_to_ALU. pose proof Hl as El. unfold live in El. rewrite El. cbn [rbind]. rewrite <- (live_D _ _ Hl). rewrite Ees in Hok.
  eapply wp_bind, wp_mono; [apply (rs.leave_ok (D (mem c)) (res c) es1 e0 es2 p (mem c) Hok Hp0)|].
  - intros q Hq. assert (q ∈ infl) as Hqi. { rewrite <- (sets_concat (body (mem c)) infl). apply elem_of_concat. exists (members_of e0). split; [rewrite Eg; apply elem_of_app; right; left|done]. }
    pose proof (core_live _ Hc q Hqi) as Hlq. exists (get (mem c) q). split; [done|]. by rewrite live_D.
  - intros q Eq Hf. destruct (fusion_next (D (mem c) q)) as [r|] eqn:Enx; [|done]. destruct Hop. exists q. by rewrite Enx.
  - unfold members_of in Hlen. by rewrite length_fmap in Hlen.
  - intros x [Hx _]. pose proof (rs.ok_members _ _ _ Hok) as Hnm. pose proof (waiting_execute es1 e0 es2 p Hnm Hp0) as Hw. rewrite <- Ees in Hw.
    eapply wp_bind, wp_mono; [apply (load_leave (mem c) (set_res x c) (waiting (es1 ++ rs.entries_of (rs.e_slot e0) (rs.remaining p (rs.e_uops e0)) ++ es2)) p)|].
    + simpl. by rewrite (se_ports _ _ _ _ _ _ Hse).
    + eapply load_perm; [exact Hw|]. apply Hse.
    + intros c2 (loading' & -> & Hll & Hload). apply wp_upd; simpl; [done|by rewrite live_D|by rewrite live_O|done|done|]. intros h' T L E.
      pose proof (to_alike _ _ _ T) as Ha. eexists. split; simpl; try done.
      * destruct Hc as [C1 C2 C3 C4 C5 C6 C7 C8]. split; simpl; try done.
        -- by eapply program_alike.
        -- apply (seated_execute Hse h' x loading' es1 e0 es2 p Ees Hp0 Ha); try done.
           ++ intros q. destruct (decide (q = p)) as [->|Hq]; [by rewrite E|by apply T].
           ++ intros q Hq. by apply T.
           ++ by rewrite E.
           ++ unfold exec_at. rewrite E. simpl. lia.
        -- eapply list.Forall_impl; [exact C4|]. intros q. apply deps_ok_frame; [apply T|done].
        -- by eapply models_frame.
        -- by eapply stores_ok_frame.
        -- eapply touched_Mops; [exact T| |done]. unfold completed, completed_at. by rewrite E.
      * by rewrite (sets_alike _ _ Ha).
      * eapply shaped_alike; [exact Ha|]. by apply (shape_execute _ _ _ Hsh).
      * apply list.Forall_forall. intros q Hq. rewrite list.Forall_forall in Hpend. destruct (L q) as [L1 L2].
        eapply pristine_frame; [exact T| |done|done|by apply Hpend]. by apply (pend_not_infl _ _ _ _ _ _ _ _ _ _ _ _ Hi).
Qed.

(** The other writes of the execution stage: uops issue, complete, broadcast their results.
    Neither their ports nor the links change, and a uop completes only after it has gone to
    a functional unit. *)
Record writes (now : Z) (infl : list ptr) (h h' : heap) : Prop := {
  wr_heap : touched (λ p, p ∈ infl) h h';
  wr_links : same_links h h';
  wr_port : ∀ p, port_of h' p = port_of h p;
  wr_alloc : ∀ p, when_allocated (tim (get h' p)) = when_allocated (tim (get h p));
  wr_exec : ∀ p, exec_at h' p = exec_at h p;
  wr_completed : ∀ p, completed h now p → completed h' now p;
  wr_order : ∀ p, p ∈ infl → needs h p = true → completed_at h' p ≠ TICK_T_MAX → exec_at h p ≠ TICK_T_MAX
}.

Lemma seated_writes now h h' x loading infl es : writes now infl h h' → seated k h x loading infl es → seated k h' x loading infl es.
Proof.
  intros [W1 W2 W3 W4 W5 W6 W7] [S1 S2 S3 S4 S5]. pose proof (to_alike _ _ _ W1) as Ha. split.
  - eapply rs_ok_ext; [exact (al_D _ _ Ha)|done].
  - intros p Hp. rewrite (needs_alike _ _ Ha). by apply S2.
  - rewrite list.Forall_forall in S3. apply list.Forall_forall. intros p Hpi. destruct (S3 p Hpi) as [X1 X2 X3]. split; rewrite ?(needs_alike _ _ Ha), ?(trap_alike _ _ Ha), ?W3, ?W4, ?W5; [done| |done].
    intros Hn. destruct (X2 Hn) as (Y1 & Y2 & _). split; [done|]. split; [done|]. by apply W7.
  - done.
  - eapply load_frame; [|exact S5]. intros; apply W3.
Qed.

Lemma writes_ok now Q gone infl pend c m e es ss h' : inv (M := M) (Env := Env) k now Q gone infl pend c m e es ss → writes now infl (mem c) h' →
  inv k now Q gone infl pend (set_mem h' c) m e es ss.
Proof.
  intros Hi Hw. pose proof (to_alike _ _ _ (wr_heap _ _ _ _ Hw)) as Ha. apply (inv_heap now now _ _ _ _ _ _ _ _ _ _ Hi Ha); [| |apply Hi].
  - destruct (in_core _ _ _ _ _ _ _ _ _ _ _ Hi) as [C1 C2 C3 C4 C5 C6 C7 C8]. split; simpl; try done.
    + by eapply program_alike.
    + by eapply seated_writes.
    + eapply list.Forall_impl; [exact C4|]. intros q. apply deps_ok_frame; [done|apply Hw].
    + by eapply models_frame.
    + by eapply stores_ok_frame.
    + eapply Mops_ok_frame; [apply Hw|done|apply Hw|done].
  - intros p Hp. destruct (wr_links _ _ _ _ Hw p) as [L1 L2]. apply (pristine_frame (λ p, p ∈ infl)); [apply Hw| |done|done].
    intros Hin. by apply (pend_not_infl _ _ _ _ _ _ _ _ _ _ _ _ Hi Hin Hp).
Qed.

(** Writes that touch neither times nor links. *)
Lemma inv_same now Q gone infl pend c m e es ss h' p : inv (M := M) (Env := Env) k now Q gone infl pend c m e es ss → p ∈ infl → touched (λ q, q = p) (mem c) h' →
  same_links (mem c) h' → tim (get h' p) = tim (get (mem c) p) → alc (get h' p) = alc (get (mem c) p) → inv k now Q gone infl pend (set_mem h' c) m e es ss.
Proof.
  intros Hi Hp T L Et Ea. assert (∀ q, tim (get h' q) = tim (get (mem c) q)) as Ht by (intros q; destruct (decide (q = p)) as [->|Hq]; [done|by apply T]).
  assert (∀ q, alc (get h' q) = alc (get (mem c) q)) as Hal by (intros q; destruct (decide (q = p)) as [->|Hq]; [done|by apply T]).
  apply (writes_ok _ _ _ _ _ _ _ _ _ _ _ Hi). unfold port_of, exec_at, completed, completed_at. split; unfold port_of, exec_at, completed, completed_at.
  - eapply touched_weaken; [|exact T]. by intros q ->.
  - done.
  - intros q. by rewrite Hal.
  - intros q. by rewrite Ht.
  - intros q. by rewrite Ht.
  - intros q. by rewrite Ht.
  - intros q Hq Hn. rewrite Ht. destruct (seated_exec (co_seated _ _ _ _ _ _ _ _ _ _ _ (in_core _ _ _ _ _ _ _ _ _ _ _ Hi)) q Hq) as [_ X2 _]. by apply X2.
Qed.

(** The uop gets a new action id. *)
Lemma renew_ok c p : live (mem c) p → 0 ≤ lsq.global_action_id (lsq c) < 2 ^ 64 - 1 →
  wp (let '(id, c) := new_action_id c in upd c p (set_action_id id)) (λ c', ∃ h' y, c' = set_mem h' (set_lsq y c) ∧ touched (λ q, q = p) (mem c) h' ∧
    same_links (mem c) h' ∧ tim (get h' p) = tim (get (mem c) p) ∧ alc (get h' p) = alc (get (mem c) p) ∧ exe (get h' p) = exe (uops.set_action_id (lsq.global_action_id (lsq c) + 1) (get (mem c) p)) ∧ ids_to (lsq c) y 1).
Proof.
  intros Hl Hg. rewrite new_id_ok by done. apply wp_upd; simpl; try done; [by rewrite live_D|by rewrite live_O|]. intros h' T L E. eexists h', _. split; [done|].
  rewrite E. split_and!; try done. unfold ids_to. simpl. split_and!; (done || lia).
Qed.

(** Time goes on. *)
Lemma tick_ok now Q gone infl pend c m e es ss : inv (M := M) (Env := Env) k now Q gone infl pend c m e es ss → now + 1 < TICK_T_MAX →
  inv k (now + 1) Q gone infl pend c m e es ss.
Proof.
  intros Hi Hn. pose proof Hi as [Hc _ _ _ _ Hnow _]. replace c with (set_mem (mem c) c) by (by destruct c).
  apply (inv_heap now (now + 1) _ _ _ _ _ _ _ _ _ _ Hi); [done| |done|lia].
  eapply (core_frame k now (now + 1)); [exact Hc|done|done|done|]. eapply Mops_ok_frame; [|done| |apply Hc].
  - intros i mo E. exists (m_uop mo). rewrite E. by destruct mo.
  - intros q. unfold completed. lia.
Qed.

End exec.
End back_exec.

Module back_complete.
Import uops backend back_heap order back_inv back_links back_stations back_shape back_state back_lsq back_facts back_dispatch back_exec.

(** ** What the commit stage leaves *)

(** The times of the uops and the branches whose recovery is under way. *)
Record settled (h h' : heap) : Prop := {
  st_alike :> alike h h';
  st_tim : ∀ q, tim (get h' q) = tim (get h q);
  st_Mop : ∀ i m, Mop_at h i = Ok m → ∃ m', Mop_at h' i = Ok m' ∧ jeclear_in_flight (m_commit m') = jeclear_in_flight (m_commit m)
}.

#[export] Instance settled_pre : PreOrder settled.
Proof.
  split.
  - intros h. split; [done|done|]. intros i m E. by exists m.
  - intros h1 h2 h3 [A1 T1 M1] [A2 T2 M2]. split.
    + by transitivity h2.
    + intros q. by rewrite T2, T1.
    + intros i m E. destruct (M1 i m E) as (m' & E' & <-). by apply M2.
Qed.

Lemma relinked_settled h h' : relinked h h' → settled h h'.
Proof. intros [R1 R2 R3 R4 R5]. split; [done|done|]. intros i m E. destruct (R5 i m E) as (l & ->). by exists (with_uops l m). Qed.

Lemma touched_settled h h' p : touched (λ q, q = p) h h' → tim (get h' p) = tim (get h p) → settled h h'.
Proof.
  intros [T1 T2 T3 T4 T5] Et. split; [done| |].
  - intros q. destruct (decide (q = p)) as [->|Hq]; [done|by apply T3].
  - intros i m E. destruct (T5 i m E) as (l & ->). by exists (with_uops l m).
Qed.

Lemma Mop_settled h h' i m m' : Mop_at h i = Ok m → Mop_changed h h' i m' → m_decode m' = m_decode m → m_oracle m' = m_oracle m →
  jeclear_in_flight (m_commit m') = jeclear_in_flight (m_commit m) → settled h h'.
Proof.
  intros E Hc Ed Eo Ej. split; [by eapply Mop_changed_alike|intros q; by rewrite (Mop_changed_get _ _ _ _ q Hc)|].
  intros j mj Emj. destruct (decide (j = i)) as [->|Hj].
  - exists m'. split; [apply Hc|]. congruence.
  - exists mj. by rewrite (mc_ne _ _ _ _ Hc).
Qed.

(** ** Macro-ops *)

Lemma Mop_changed_touched h h' i m m' : Mop_at h i = Ok m → Mop_changed h h' i m' → m_decode m' = m_decode m → m_oracle m' = m_oracle m →
  alike h h' ∧ (∀ p, get h' p = get h p) ∧ same_links h h'.
Proof.
  intros E Hc Ed Eo. assert (∀ p, get h' p = get h p) as Hg by (intros p; by eapply Mop_changed_get). split_and!; [by eapply Mop_changed_alike|done|].
  intros p. unfold ideps, odeps. by rewrite Hg.
Qed.

Lemma Mops_others h h' i m m' now Q' gone : Mop_at h i = Ok m → Mop_changed h h' i m' → m_decode m' = m_decode m → m_oracle m' = m_oracle m →
  NoDup (i :: Q') → Mops_ok h now (i :: Q') gone → ∀ j, j ∈ Q' → ∃ mj, Mop_ok h' now j [] mj.
Proof.
  intros E Hc Ed Eo [Hi _]%list.NoDup_cons [_ Hr]. destruct (Mop_changed_touched _ _ _ _ _ E Hc Ed Eo) as (Ha & Hg & _).
  intros j Hj. destruct (Hr j Hj) as (mj & Hmj). exists mj. assert (j ≠ i) as Hne by by intros ->.
  destruct Hmj as [M1 M2 M3 M4 M5]. split; rewrite ?(flow_alike _ _ _ Ha); try done.
  - by rewrite (mc_ne _ _ _ _ Hc).
  - intros Ec. specialize (M2 Ec). eapply list.Forall_impl; [exact M2|]. intros p. unfold completed, completed_at. by rewrite Hg.
  - intros Ec. destruct (M3 Ec) as (_ & f1 & p & f2 & F1 & F2 & F3). split; [done|]. exists f1, p, f2. split_and!; [done..|].
    eapply list.Forall_impl; [exact F3|]. intros q. unfold completed, completed_at. by rewrite Hg.
Qed.

Lemma Mops_change h h' i m m' now Q' gone gone' : Mop_at h i = Ok m → Mop_changed h h' i m' → m_decode m' = m_decode m → m_oracle m' = m_oracle m →
  NoDup (i :: Q') → Mops_ok h now (i :: Q') gone → Mop_ok h' now i gone' m' → Mops_ok h' now (i :: Q') gone'.
Proof. intros E Hc Ed Eo Hn HM Hm. split; [by exists m'|]. by eapply Mops_others. Qed.

(** A change of the macro-op that keeps how far it has completed and committed. *)
Lemma Mop_ok_change h h' i m m' now gone : Mop_ok h now i gone m → Mop_changed h h' i m' → m_decode m' = m_decode m → m_oracle m' = m_oracle m →
  m_commit m' = m_commit m → when_fetched (m_timing m') = when_fetched (m_timing m) → when_fetch_started (m_timing m') = when_fetch_started (m_timing m) →
  Mop_ok h' now i gone m'.
Proof.
  intros [M1 M2 M3 M4 M5] Hc Ed Eo Ec E1 E2. destruct (Mop_changed_touched _ _ _ _ _ M1 Hc Ed Eo) as (Ha & Hg & _).
  split; rewrite ?(flow_alike _ _ _ Ha), ?Ec, ?E1, ?E2; try done.
  - apply Hc.
  - intros E. eapply list.Forall_impl; [exact (M2 E)|]. intros p. unfold completed, completed_at. by rewrite Hg.
  - intros E. destruct (M3 E) as (-> & f1 & p & f2 & F1 & F2 & F3). split; [done|]. exists f1, p, f2. split_and!; [done..|].
    eapply list.Forall_impl; [exact F3|]. intros q. unfold completed, completed_at. by rewrite Hg.
Qed.

Lemma flow_from_length n h i j len : (length (flow_from n h i j len) ≤ n)%nat.
Proof. revert j. induction n as [|n IH]; intros j; simpl; [lia|]. destruct (j <? len); simpl; [|lia]. specialize (IH (j + flow_step (D h (i, j)))). lia. Qed.

(** ** The walk over the uops *)

Lemma complete_loop_ok h i m now : Mop_at h i = Ok m → Forall (live h) (flow h i) → ∀ fuel f1 p f2, flow h i = f1 ++ p :: f2 → Forall (completed h now) f1 → (length f2 ≤ fuel)%nat →
  wp (complete_loop fuel m now p.2) (λ ci, if decide (ci = -1) then Forall (completed h now) (flow h i)
    else ∃ f1 p f2, flow h i = f1 ++ p :: f2 ∧ ci = p.2 ∧ Forall (completed h now) f1).
Proof.
  intros Em Hl. pose proof (Mstat_at _ _ _ Em) as Est. induction fuel as [|fuel IH]; intros f1 p f2 Ef Hc Hlen.
  all: assert (p ∈ flow h i) as Hp by (rewrite Ef; apply elem_of_app; right; left); pose proof (proj1 (list.Forall_forall _ _) Hl p Hp) as Hlp;
    pose proof Hlp as El; unfold live, uop_at in El; rewrite (flow_slot _ _ _ Hp), Em in El; cbn [rbind] in El;
    pose proof (flow_next h i _ _ f1 p f2 Est Ef) as Hnext; pose proof (flow_inside h i _ _ p Est Hp) as Hin; rewrite (live_D _ _ Hlp) in Hnext.
  all: simpl; rewrite El; cbn [rbind]; destruct (Z.leb_spec (when_completed (tim (get h p))) now) as [Hcp|Hcp];
    [|cbn [wp]; rewrite decide_False by lia; by exists f1, p, f2].
  all: assert (Forall (completed h now) (f1 ++ [p])) as Hc' by (apply list.Forall_app; split; [done|]; by constructor).
  all: destruct f2 as [|q f2]; [rewrite (proj2 (Z.leb_le _ _)) by lia; cbn [wp]; rewrite decide_True by done; by rewrite Ef|].
  - simpl in Hlen. lia.
  - assert (q ∈ flow h i) as Hq by (rewrite Ef; apply elem_of_app; right; right; left). pose proof (flow_inside h i _ _ q Est Hq) as Hinq.
    rewrite (proj2 (Z.leb_gt _ _)) by lia. rewrite <- Hnext. apply (IH (f1 ++ [p]) q f2); [by rewrite <- app_assoc|done|simpl in Hlen; lia].
Qed.

Section commit.
Context {M Env : Type} `{SA : lsq_run.StoreMemAnswers M} `{RL : !lsq_run.RepeaterLater M} `{CL : CommitEnvLaws Env}.
Variable k : knobs.

(** An inv whose oldest macro-op has changed. *)
Lemma inv_Mop now i Q' gone infl pend c m e e' es ss mo mo' h' : inv (M := M) (Env := Env) k now (i :: Q') gone infl pend c m e es ss → Mop_at (mem c) i = Ok mo →
  Mop_changed (mem c) h' i mo' → m_decode mo' = m_decode mo → m_oracle mo' = m_oracle mo → Mop_ok h' now i gone mo' → ce_ok e' (i :: Q') →
  inv k now (i :: Q') gone infl pend (set_mem h' c) m e' es ss.
Proof.
  intros Hi E Hc Ed Eo Hm He. destruct (Mop_changed_touched _ _ _ _ _ E Hc Ed Eo) as (Ha & Hg & Hl).
  assert (inv k now (i :: Q') gone infl pend (set_mem h' c) m e es ss) as [I1 I2 I3 I4 I5 I6 I7]; [|by split].
  apply (inv_heap k now now _ _ _ _ _ _ _ _ _ _ Hi Ha); [| |apply Hi].
  - eapply core_frame; [apply Hi|done| |done|].
    + intros p _. by rewrite Hg.
    + eapply Mops_change; [exact E|exact Hc|done|done| |apply Hi|done]. apply Hi.
  - intros p _. by rewrite Hg.
Qed.

Lemma oldest_Mop now i Q' gone infl pend c m e es ss : inv (M := M) (Env := Env) k now (i :: Q') gone infl pend c m e es ss → ∃ mo, Mop_ok (mem c) now i gone mo.
Proof. intros Hi. apply (co_Mops _ _ _ _ _ _ _ _ _ _ _ (in_core _ _ _ _ _ _ _ _ _ _ _ Hi)). Qed.

(** The uops of the oldest macro-op are looked at. *)
Lemma check_complete_ok now i Q' gone infl pend c m e es ss : inv (M := M) (Env := Env) k now (i :: Q') gone infl pend c m e es ss →
  wp (check_complete c e i now) (λ r, ∃ h', r.1 = set_mem h' c ∧ settled (mem c) h' ∧ inv k now (i :: Q') gone infl pend r.1 m r.2 es ss).
Proof.
  intros Hi. destruct (oldest_Mop _ _ _ _ _ _ _ _ _ _ _ Hi) as (mo & Hmo). pose proof Hmo as [Em M2 M3 M4 M5]. pose proof (co_prog _ _ _ _ _ _ _ _ _ _ _ (in_core _ _ _ _ _ _ _ _ _ _ _ Hi)) as Hp.
  pose proof (pr_wf _ _ _ _ _ _ Hp) as Hw. apply list.Forall_cons in Hw as [Hw _].
  assert (Forall (live (mem c)) (flow (mem c) i)) as Hl by (eapply list.Forall_impl; [exact (fw_uops _ _ _ Hw)|]; intros q Hq; apply Hq).
  unfold check_complete. rewrite Em. cbn [rbind]. destruct (Z.eqb_spec (complete_index (m_commit mo)) (-1)) as [Ec|Ec].
  { cbn [wp]. exists (mem c). simpl. split; [by destruct c|]. by split. }
  destruct (M3 Ec) as (Eg & f1 & p & f2 & Ef & Ep & Hf1). rewrite Ep.
  eapply wp_bind, wp_mono; [apply (complete_loop_ok (mem c) i mo now Em Hl _ f1 p f2 Ef Hf1)|].
  { pose proof (flow_from_length (Z.to_nat (flow_length (m_decode mo))) (mem c) i 0 (flow_length (m_decode mo))) as Hlen. unfold flow in Ef. rewrite (Mstat_at _ _ _ Em) in Ef.
    rewrite Ef, length_app in Hlen. simpl in Hlen. lia. }
  intros ci Hci. cbn beta in Hci. apply wp_bind, (wp_upd_Mop _ _ mo); [done|done|]. intros h1 C1.
  destruct (Mop_changed_touched _ _ _ _ _ Em C1 eq_refl eq_refl) as (Ha & Hg & _).
  assert (Mop_ok h1 now i gone (set_complete_index ci mo)) as Hmo1.
  { split; rewrite ?(flow_alike _ _ _ Ha); simpl; try done; [apply C1| |].
    - intros E. rewrite decide_True in Hci by done. eapply list.Forall_impl; [exact Hci|]. intros q. unfold completed, completed_at. by rewrite Hg.
    - intros E. rewrite decide_False in Hci by done. split; [done|]. destruct Hci as (g1 & q & g2 & F1 & F2 & F3). exists g1, q, g2. split_and!; [done..|].
      eapply list.Forall_impl; [exact F3|]. intros r. unfold completed, completed_at. by rewrite Hg. }
  assert (∀ e', ce_ok e' (i :: Q') → inv k now (i :: Q') gone infl pend (set_mem h1 c) m e' es ss) as Hinv1.
  { intros e' He. by apply (inv_Mop _ _ _ _ _ _ _ _ _ _ _ _ _ _ _ Hi Em C1). }
  destruct ((ci =? -1) && _).
  all: pose proof (Mop_settled _ _ _ _ _ Em C1 eq_refl eq_refl eq_refl) as Hs1.
  - eapply wp_bind, wp_mono; [apply (law_bpred _ h1 i Q' (in_env _ _ _ _ _ _ _ _ _ _ _ Hi))|]. intros e' He.
    apply wp_bind, (wp_upd_Mop _ _ (set_complete_index ci mo)); [apply C1|done|]. intros h2 C2. cbn [wp fst snd].
    pose proof (Mop_settled h1 h2 _ _ _ (mc_at _ _ _ _ C1) C2 eq_refl eq_refl eq_refl) as Hs2.
    exists h2. split; [done|]. split; [by transitivity h1|]. change (set_mem h2 c) with (set_mem h2 (set_mem h1 c)).
    eapply (inv_Mop _ _ _ _ _ _ _ _ _ _ _ _ _ _ _ (Hinv1 e' He)); [apply C1|exact C2|done|done| |done].
    by apply (Mop_ok_change _ _ _ _ _ _ _ Hmo1 C2).
  - cbn [wp fst snd]. exists h1. split; [done|]. split; [done|]. apply Hinv1, Hi.
Qed.

End commit.
End back_complete.
