(* ===== verification/BackCommit.v ===== *)
(** * BackCommit: the oldest uop commits

    Once its macro-op has completed, the uop at the head of the reorder buffer leaves all
    structures; with its last uop the macro-op leaves.

    A cycle of the commit stage: stores whose data has been written leave the store queue, then uops commit until one has
    to wait or the width is used up: the loop ends, no assertion fails, and what has committed
    are the oldest uops. *)

From Stdlib Require Import Sorting.Sorted.
From stdpp Require Import sorting.
From S2P Require Import Prelude Misc Memory CacheSet CacheHeap OracleDeps Uops RS LSQ LSQInv LSQOps LSQRun ROB Backend BackHeap BackInv BackLinks BackStations BackState BackDispatch BackExec.

Module back_commit.
Import uops backend back_heap order back_inv back_links back_stations back_shape back_state back_lsq back_facts back_dispatch back_exec back_complete.

(** ** Program order *)

Lemma program_commit k h i Q' gone p infl pend f : program k h (i :: Q') gone (p :: infl) pend → flow h i = gone ++ p :: f →
  match f with [] => program k h Q' [] infl pend | _ => program k h (i :: Q') (gone ++ [p]) infl pend end.
Proof.
  intros [H1 H2 H3 H4 H5] Ef. pose proof H1 as H1'. pose proof H2 as H2'. apply list.NoDup_cons in H1' as [_ H1']. apply list.Forall_cons in H2' as [_ H2'].
  destruct f as [|q f].
  - assert (gone ++ (p :: infl) ++ pend = (gone ++ [p]) ++ infl ++ pend) as Ew by (by rewrite <- app_assoc).
    split; [done|done| | |].
    + rewrite Ew in H3. simpl in H3. rewrite Ef in H3. by apply app_inv_head in H3.
    + destruct Q' as [|j Q']; [done|]. apply list.Forall_cons in H2' as [Hw _]. pose proof (fw_length _ _ _ Hw) as Hl.
      destruct (flow h j) as [|r g]; [simpl in Hl; lia|]. by exists r, g.
    + rewrite Ew, fmap_app in H5. by apply StronglySorted_app in H5 as (_ & _ & H5).
  - split; [done|done| | |].
    + by rewrite <- app_assoc.
    + exists q, f. by rewrite <- app_assoc.
    + by rewrite <- app_assoc.
Qed.

(** ** The reorder buffer *)

Lemma leave_ROB_ok h c p l n : rob.ok (rob c) (sets (body h) (p :: l)) n → 1 ≤ n → p ∉ l →
  (∀ q, in_fusion (D h p) = true → fusion_next (D h p) = Some q → body h q = true ∧ head l = Some q) →
  (in_fusion (D h p) = false ∨ fusion_next (D h p) = None → ∀ q, head l = Some q → body h q = false) →
  wp (leave_ROB c p (D h p)) (λ c', ∃ x, c' = set_rob x c ∧ rob.ok x (sets (body h) l) (n - 1)).
Proof.
  intros Hok Hn Hp Hnext Hlast. unfold leave_ROB.
  assert (∀ x, rob.ok x (sets (body h) l) (n - 1) → rob.ok (rob.set_index p (-1) x) (sets (body h) l) (n - 1)) as Hix.
  { intros x Hx. apply rob.set_index_ok; [done|]. intros g Hg. by eapply not_in_set. }
  destruct (negb (in_fusion (D h p)) || bool_decide (fusion_next (D h p) = None)) eqn:El.
  - apply orb_true_iff in El. rewrite negb_true_iff, bool_decide_eq_true in El. rewrite (sets_cons_new _ p l) in Hok by (by apply Hlast).
    eapply wp_bind, wp_mono; [by apply (rob.ROB_pop_front_ok _ _ _ _ Hok)|]. intros x [Hx _]. eexists. split; [done|]. by apply Hix.
  - apply orb_false_iff in El as [E1 E2]. apply negb_false_iff in E1. apply bool_decide_eq_false in E2.
    destruct (fusion_next (D h p)) as [q|]; [|done]. destruct (Hnext q E1 eq_refl) as [Hb Hh]. destruct l as [|q' l]; [done|]. injection Hh as ->.
    destruct (sets_cons_inv (body h) q l) as (g & gs & E). rewrite (sets_cons_body _ p q l _ _ Hb E) in Hok. rewrite E in Hix |- *.
    eapply wp_bind, wp_mono; [by apply (rob.ROB_pass_on_ok _ _ _ _ _ _ Hok)|]. intros x [Hx _]. eexists. split; [done|]. by apply Hix.
Qed.

Section commit.
Context {M Env : Type} `{SA : lsq_run.StoreMemAnswers M} `{RL : !lsq_run.RepeaterLater M} `{CL : CommitEnvLaws Env}.
Variable k : knobs.

(** ** The oldest uop of a macro-op that has completed *)

Section oldest.
Context {now i : Z} {Q' : list Z} {gone infl pend : list ptr} {c : t} {m : M} {e : Env} {es : list rs.entry} {ss : list lsq_inv.owners} {p : ptr} {mo : Mop}.
Hypothesis Hi : inv (M := M) (Env := Env) k now (i :: Q') gone (p :: infl) pend c m e es ss.
Hypothesis Hmo : Mop_ok (mem c) now i gone mo.
Hypothesis Hci : complete_index (m_commit mo) = -1.
Local Abbreviation h := (mem c).

Local Abbreviation Hc := (in_core _ _ _ _ _ _ _ _ _ _ _ Hi).
Local Abbreviation Hp := (co_prog _ _ _ _ _ _ _ _ _ _ _ Hc).

Lemma oldest_done : Forall (completed h now) (flow h i) ∧ ∀ q, q ∈ pend → q.1 ≠ i.
Proof.
  apply (all_dispatched Hp (in_pend _ _ _ _ _ _ _ _ _ _ _ Hi) ltac:(by destruct (in_now _ _ _ _ _ _ _ _ _ _ _ Hi)) i mo Hmo). by left.
Qed.

(** The rest of its flow follows it in flight. *)
Lemma oldest_flow : p.1 = i ∧ ∃ f rest, flow h i = gone ++ p :: f ∧ infl = f ++ rest.
Proof.
  destruct (oldest Hp i Q' eq_refl) as (p' & f & Ef & E & E1). simpl in E. injection E as <- E. split; [done|].
  destruct oldest_done as [_ Hn]. symmetry in E. apply app_eq_inv in E as [(x & E2 & E3)|(x & E2 & E3)].
  - destruct x as [|q x]; [exists f, []; split; [done|]; rewrite app_nil_r in *; congruence|]. exfalso. apply (Hn q); [rewrite E3; left|].
    apply (flow_slot h). rewrite Ef, E2. set_solver.
  - exists f, x. by split.
Qed.

Lemma oldest_wf : uop_wf k h p.
Proof. apply (core_wf _ Hc). left. Qed.

Lemma infl_nodup : NoDup (p :: infl).
Proof. apply (core_nodup _ Hc). Qed.

Lemma completed_exec q : q ∈ p :: infl → completed h now q → (q ∉ waiting es) ∧ (trap h q.1 = true ∨ exec_at h q ≠ TICK_T_MAX).
Proof.
  intros Hq Hcq. pose proof (co_seated _ _ _ _ _ _ _ _ _ _ _ Hc) as Hse. pose proof (seated_exec Hse q Hq) as [_ X2 X3].
  destruct (in_now _ _ _ _ _ _ _ _ _ _ _ Hi) as [_ Hnow]. unfold completed in Hcq. destruct (needs h q) eqn:En.
  - destruct (X2 eq_refl) as (_ & Y2 & Y3). assert (exec_at h q ≠ TICK_T_MAX) as Hx by (apply Y3; lia). split; [|by right]. by intros ?%Y2.
  - split; [|by apply X3]. intros Hw. destruct (seated_waiting Hse q Hw). congruence.
Qed.

(** It has no entry in the reservation stations. *)
Lemma oldest_not_member : p ∉ rs.members es.
Proof.
  intros Hm. unfold rs.members in Hm. apply list_elem_of_bind in Hm as (e0 & Hpe & He). destruct (in_shape _ _ _ _ _ _ _ _ _ _ _ Hi) as [S1 S2 _].
  pose proof (proj1 (list.Forall_forall _ _) S2 e0 He) as Hal. simpl in Hal.
  assert (members_of e0 ∈ sets (body h) (p :: infl)) as Hg by (eapply elem_of_sublist; [|exact S1]; by apply list_elem_of_fmap_2).
  apply list_elem_of_split in Hg as (gs1 & gs2 & Eg).
  destruct (filter (λ x : ptr * bool, x.2 = false) (rs.e_uops e0)) as [|[q b] l] eqn:Ef; [unfold rs.waiting in Hal; rewrite Ef in Hal; simpl in Hal; lia|].
  assert ((q, b) ∈ filter (λ x : ptr * bool, x.2 = false) (rs.e_uops e0)) as [Eb Hq]%list_elem_of_filter by (rewrite Ef; left). simpl in Eb. subst b.
  assert (q ∈ members_of e0) as Hqm by (by apply (list_elem_of_fmap_2 fst _ (q, false))).
  assert (q ∈ p :: infl) as Hqi by (rewrite <- (sets_concat (body h) (p :: infl)), Eg; apply elem_of_concat; exists (members_of e0); split; [apply elem_of_app; right; left|done]).
  pose proof (set_Mop Hp _ _ _ q p Eg Hqm Hpe) as EM. destruct oldest_flow as [E1 _]. destruct oldest_done as [Hd _].
  assert (completed h now q) as Hcq.
  { apply (proj1 (list.Forall_forall _ _) Hd). destruct (pr_in Hp q) as (_ & Hf & _); [rewrite !elem_of_app; by right; left|]. by rewrite <- E1, <- EM. }
  destruct (completed_exec q Hqi Hcq) as [Hnw _]. apply Hnw, waiting_elem. by exists e0.
Qed.

(** The next member of its fused set is the next uop. *)
Lemma oldest_next : (∀ q, in_fusion (D h p) = true → fusion_next (D h p) = Some q → body h q = true ∧ head infl = Some q) ∧
  (in_fusion (D h p) = false ∨ fusion_next (D h p) = None → ∀ q, head infl = Some q → body h q = false).
Proof.
  destruct oldest_flow as (E1 & f & rest & Ef & Ei). assert (∀ q l, infl = q :: l → linked h p q) as Hl.
  { intros q l E. apply (pr_linked Hp gone p q (l ++ pend)). simpl. by rewrite E. }
  split.
  - intros q Hf Hn. destruct f as [|r f].
    + pose proof (pr_wf _ _ _ _ _ _ Hp) as Hw. apply list.Forall_cons in Hw as [Hw _]. pose proof (fw_last _ _ _ Hw _ _ Ef Hf). congruence.
    + specialize (Hl r (f ++ rest) Ei). unfold linked in Hl. rewrite Ei. destruct (body h r) eqn:Eb; [|specialize (Hl Hf); congruence].
      destruct Hl as (_ & Hn' & _). rewrite Hn in Hn'. injection Hn' as <-. done.
  - intros Hn q Hh. destruct infl as [|q' l]; [done|]. injection Hh as ->. specialize (Hl q l eq_refl). unfold linked in Hl.
    destruct (body h q); [|done]. destruct Hl as (F1 & F2 & _). destruct Hn; congruence.
Qed.

(** The set that is left of its own is there as a whole. *)
Lemma oldest_not_open q g gs : sets (body h) (p :: infl) = (p :: q :: g) :: gs → ¬ open h (q :: g).
Proof.
  intros Es (r & Er & Fr & Nr). destruct oldest_flow as (E1 & f & rest & Ef & Ei). destruct (pr_set (gone := gone) (pend := pend) [] _ gs Es) as (x & g0 & E0 & Ew & Hb).
  injection E0 as <- <-. pose proof (pr_set_Mop Hp _ _ _ _ Ew Hb) as HM. apply last_Some in Er as [l0 El].
  assert (p :: infl = (p :: q :: g) ++ concat gs) as Epi by (rewrite <- (sets_concat (body h) (p :: infl)), Es; done). injection Epi as Epi.
  destruct (fusion_next (D h r)) as [s|] eqn:Es'; [|done].
  assert (infl = l0 ++ r :: concat gs) as Einf by (rewrite Epi, app_comm_cons, El, <- app_assoc; done).
  assert (gone ++ (p :: infl) ++ pend = (gone ++ p :: l0) ++ r :: concat gs ++ pend) as Ew2.
  { rewrite Einf, <- app_assoc. simpl. by rewrite <- app_assoc. }
  assert (∀ y l, concat gs ++ pend = y :: l → False) as Hno.
  { intros y l Ey. assert (linked h r y) as Hl.
    { apply (pr_linked Hp (gone ++ p :: l0) r y l). by rewrite Ew2, Ey. }
    unfold linked in Hl. destruct (body h y) eqn:Eb; [|specialize (Hl Fr); congruence]. destruct (concat gs) as [|y' l'] eqn:Ec.
    - simpl in Ey. destruct oldest_done as [_ Hn]. apply (Hn y); [rewrite Ey; left|].
      destruct (pr_follow Hp (gone ++ p :: l0) r y l) as [_ HM'].
      { rewrite Ew2. simpl. by rewrite Ey. }
      rewrite (HM' Eb). rewrite <- E1. apply (proj1 (list.Forall_forall _ _) HM). change (r ∈ q :: g). rewrite El. apply elem_of_app. right. left.
    - injection Ey as -> Ey. destruct gs as [|g1 gs]; [done|]. pose proof (sets_ne (body h) (p :: infl)) as Hne. rewrite Es in Hne.
      apply list.Forall_cons in Hne as [_ Hne]. apply list.Forall_cons in Hne as [Hne _]. destruct g1 as [|y1 g1]; [done|]. simpl in Ec. injection Ec as -> Ec.
      rewrite (sets_heads (body h) (p :: infl) (p :: q :: g) ((y :: g1) :: gs) (y :: g1) y g1 Es) in Eb; [done|left|done]. }
  destruct (concat gs ++ pend) as [|y l] eqn:Ey; [|by eapply Hno].
  assert (fusion_next (D h r) = None) as Hn; [|congruence]. apply app_nil in Ey as [Ey1 Ey2].
  apply (pr_last Hp r (gone ++ p :: l0)); [|done]. by rewrite Ew2.
Qed.

(** The data uop of a store follows its address uop. *)
Lemma oldest_std : is_sta (D h p) = true → ∃ q l0, stores_in h infl = q :: l0 ∧ is_std (D h q) = true.
Proof.
  intros Hs. destruct oldest_flow as (E1 & f & rest & Ef & Ei). pose proof (pr_wf _ _ _ _ _ _ Hp) as Hw. apply list.Forall_cons in Hw as [Hw _].
  destruct (fw_sta _ _ _ Hw _ _ _ Ef Hs) as (q & Eq & Hq). destruct (filter (λ p, is_st h p = true) f) as [|q' l] eqn:El; [done|]. injection Eq as ->.
  exists q, (l ++ stores_in h rest). split; [|done]. unfold stores_in. rewrite Ei, list.filter_app, El. done.
Qed.

End oldest.
(** ** Out of the back end *)

(** The oldest uop [p] has left the load and store queues. *)
Definition leaving (now i : Z) (Q' : list Z) (gone infl pend : list ptr) (c : t) (m : M) (e : Env) (es : list rs.entry) (ss : list lsq_inv.owners) (p : ptr) (mo : Mop) : Prop :=
  (∃ y m0 ss0, inv k now (i :: Q') gone (p :: infl) pend (set_lsq y c) m0 e es ss0) ∧
  lsq_run.models (lsq c, m) (lsq_run.mk_lists (loads_of (mem c) infl) ss) ∧ stores_ok (mem c) infl ss ∧
  Mop_ok (mem c) now i gone mo ∧ complete_index (m_commit mo) = -1.

Lemma commit_links_ok now i Q' gone infl pend c0 c m e es ss p : inv (M := M) (Env := Env) k now (i :: Q') gone (p :: infl) pend c0 m e es ss → mem c0 = mem c → p.1 = i →
  wp (commit_uop c e p) (λ r, ∃ h', r.1 = set_mem h' c ∧ relinked (mem c) h' ∧ Forall (deps_ok h' infl) infl ∧
    (∀ q, q ∉ p :: infl → ideps h' q = ideps (mem c) q ∧ odeps h' q = odeps (mem c) q) ∧ ce_ok r.2 (i :: Q')).
Proof.
  intros Hi Eh Ei. pose proof (in_core _ _ _ _ _ _ _ _ _ _ _ Hi) as Hc. pose proof (co_prog _ _ _ _ _ _ _ _ _ _ _ Hc) as Hp.
  unfold commit_uop. rewrite <- Eh. pose proof (core_live _ Hc p ltac:(left)) as Hl. unfold live in Hl. rewrite Hl. cbn [rbind]. change (odep_uop (exe (get (mem c0) p))) with (odeps (mem c0) p).
  eapply wp_bind, wp_mono; [apply (deps_commit (mem c0) p infl)|].
  - apply Hc.
  - apply list.Forall_forall. intros q Hq. by apply (core_live _ Hc).
  - apply (core_nodup _ Hc).
  - intros q Hq. apply (pr_oldest Hp p q infl); [done|by right|]. pose proof (core_nodup _ Hc) as Hn. apply list.NoDup_cons in Hn as [Hn _]. by intros ->.
  - intros h1 [R1 Hw]. eapply wp_bind, wp_mono; [exact Hw|]. intros h2 (R2 & D2 & L2). rewrite <- Ei.
    eapply wp_bind, wp_mono; [apply (law_commit_uop e p Q')|]; [rewrite Ei; apply Hi|]. intros e' He. cbn [wp fst snd]. by exists h2.
Qed.

Lemma check_times_ok h i gone p f mo fw : flow_wf k h i → Mop_at h i = Ok mo → flow h i = gone ++ p :: f → fw = flow h i →
  when_fetched (m_timing mo) ≠ TICK_T_MAX ∧ when_fetch_started (m_timing mo) ≠ TICK_T_MAX →
  (has_rep (m_decode mo) = false → when_commit_finished (m_timing mo) ≠ TICK_T_MAX) → check_times mo = Ok tt.
Proof.
  intros Hw Em Ef -> [T1 T2] T3. unfold check_times. destruct (has_rep (m_decode mo)).
  - destruct (flow h i) as [|q l] eqn:Eq; [by destruct gone|]. pose proof (flow_first _ _ _ _ Eq) as ->.
    pose proof (fw_uops _ _ _ Hw) as Hu. rewrite Eq in Hu. apply list.Forall_cons in Hu as [Hu _]. pose proof (uw_live _ _ _ Hu) as Hl. unfold live, uop_at in Hl. simpl in Hl. rewrite Em in Hl. cbn [rbind] in Hl.
    rewrite Hl. cbn [rbind]. destruct (BOM _); [|done]. by rewrite !(proj2 (Z.eqb_neq _ _)).
  - destruct (is_trap (m_decode mo)); [done|]. cbn [negb]. rewrite !(proj2 (Z.eqb_neq _ _)) by (done || by apply T3). done.
Qed.

Lemma advance_past_ok now i Q' gone p f c e mo : flow_wf k (mem c) i → Mop_ok (mem c) now i gone mo → flow (mem c) i = gone ++ p :: f → p.1 = i → ce_ok e (i :: Q') →
  (f = [] → has_rep (m_decode mo) = false → when_commit_finished (m_timing mo) ≠ TICK_T_MAX) →
  wp (advance c e p (D (mem c) p)) (λ r, ∃ h' ci, r.1.1 = set_mem h' c ∧ Mop_changed (mem c) h' i (set_commit_index ci mo) ∧
    match f with [] => ce_ok r.1.2 Q' | q :: _ => ce_ok r.1.2 (i :: Q') ∧ ci = q.2 end).
Proof.
  intros Hw [M1 M2 M3 (p' & f' & Ef' & Eci) M5] Ef Ei He Hfin. rewrite Ef in Ef'. apply app_inv_head in Ef'. injection Ef' as <- <-.
  unfold advance. rewrite Ei, M1. cbn [rbind]. rewrite Eci. pose proof (flow_next _ _ _ _ gone p f (Mstat_at _ _ _ M1) Ef) as Hnext.
  destruct f as [|q f].
  - rewrite (proj2 (Z.leb_le _ _)) by done. apply wp_bind, (wp_upd_Mop _ _ mo); [done|done|]. intros h' C.
    rewrite (check_times_ok (mem c) i gone p [] mo _ Hw M1 Ef eq_refl M5) by (by apply Hfin). cbn [rbind].
    eapply wp_bind, wp_mono; [apply (law_commit e i Q' He)|]. intros e' He'. cbn [wp fst]. exists h', (-1). by split.
  - assert (q ∈ flow (mem c) i) as Hq by (rewrite Ef; apply elem_of_app; right; right; left). pose proof (flow_inside _ _ _ _ _ (Mstat_at _ _ _ M1) Hq).
    rewrite (proj2 (Z.leb_gt _ _)) by lia. apply wp_bind, (wp_upd_Mop _ _ mo); [done|done|]. intros h' C. cbn [wp fst]. rewrite <- Hnext in C. exists h', q.2. by split.
Qed.

Lemma retire_rest_ok {A} now i Q' gone infl pend c m e es ss p mo f d b (K : t * Env * bool → result A) (P : A → Prop) : leaving now i Q' gone infl pend c m e es ss p mo → flow (mem c) i = gone ++ p :: f → d = D (mem c) p →
  (f = [] → has_rep (m_decode mo) = false → when_commit_finished (m_timing mo) ≠ TICK_T_MAX) →
  b = true → (∀ r, settled (mem c) (mem r.1.1) → lsq r.1.1 = lsq c → inv k now (match f with [] => Q' | _ => i :: Q' end) (match f with [] => [] | _ => gone ++ [p] end) infl pend r.1.1 m r.1.2 es ss → wp (K r) P) →
  wp (let* c := leave_ROB c p d in let* _ := guard_or b AssertFail in let* '(c, e) := commit_uop c e p in let* r := advance c e p d in K r) P.
Proof.
  intros ((y & m0 & ss0 & Hi) & Hmod & Hst & Hmo & Hci) Ef -> Hfin -> HK. pose proof (in_core _ _ _ _ _ _ _ _ _ _ _ Hi) as Hc. pose proof (co_prog _ _ _ _ _ _ _ _ _ _ _ Hc) as Hp.
  destruct (oldest_flow Hi Hmo Hci) as [Ei _]. simpl in Hp. pose proof (in_rob _ _ _ _ _ _ _ _ _ _ _ Hi) as Hrob. simpl in Hrob.
  destruct (oldest_next Hi Hmo Hci) as [Hn1 Hn2]. pose proof (infl_nodup Hi) as Hnd. apply list.NoDup_cons in Hnd as [Hpn _].
  eapply wp_bind, wp_mono; [apply (leave_ROB_ok (mem c) c p infl _ Hrob); [lia|done|exact Hn1|exact Hn2]|]. intros c1 (x & -> & Hrob'). cbn [guard_or rbind].
  eapply wp_bind, wp_mono; [apply (commit_links_ok now i Q' gone infl pend _ (set_rob x c) m0 e es ss0 p Hi eq_refl Ei)|].
  intros [c2 e2] (h2 & Ec2 & R2 & D2 & L2 & He2). simpl in Ec2, R2, L2, He2. subst c2. pose proof (rl_alike _ _ R2) as Ha2.
  assert (∀ q, completed (mem c) now q → completed h2 now q) as Hcq by (intros q; unfold completed, completed_at; by rewrite (rl_tim _ _ R2)).
  destruct (Mop_ok_frame (mem c) h2 now now i gone mo (rl_Mop _ _ R2 i) Ha2 (λ q _, Hcq q) Hmo) as (mo2 & Hmo2).
  assert (m_decode mo2 = m_decode mo ∧ m_timing mo2 = m_timing mo ∧ m_commit mo2 = m_commit mo) as (G1 & G2 & G3).
  { destruct (rl_Mop _ _ R2 i mo (mo_at _ _ _ _ _ Hmo)) as (l & E). rewrite (mo_at _ _ _ _ _ Hmo2) in E. by injection E as ->. }
  pose proof (pr_wf _ _ _ _ _ _ Hp) as Hw. apply list.Forall_cons in Hw as [Hw _].
  rewrite <- (al_D _ _ Ha2). eapply wp_bind, wp_mono; [apply (advance_past_ok now i Q' gone p f (set_mem h2 (set_rob x c)) e2 mo2); simpl|].
  - by eapply flow_wf_alike.
  - done.
  - by rewrite (flow_alike _ _ _ Ha2).
  - done.
  - done.
  - by rewrite G1, G2.
  - intros [[c3 e3] br] (h3 & ci & E3 & C3 & Hr). simpl in E3, C3, Hr. subst c3.
    destruct (Mop_changed_touched _ _ _ _ _ (mo_at _ _ _ _ _ Hmo2) C3 eq_refl eq_refl) as (Ha3 & Hg3 & L3). assert (settled (mem c) h3) as Hset.
    { transitivity h2; [by apply relinked_settled|]. by eapply (Mop_settled _ _ _ _ _ (mo_at _ _ _ _ _ Hmo2) C3). }
    pose proof (st_alike _ _ Hset) as Ha.
    assert (∀ q, alc (get h3 q) = alc (get (mem c) q) ∧ tim (get h3 q) = tim (get (mem c) q)) as Ht by (intros q; by rewrite Hg3, (rl_alc _ _ R2), (rl_tim _ _ R2)).
    assert (Mops_ok h2 now (i :: Q') gone) as HM2 by (eapply Mops_ok_frame; [apply R2|done|exact Hcq|apply Hc]).
    pose proof (program_commit _ _ _ _ _ _ _ _ _ (program_alike _ _ _ _ _ _ _ Ha Hp) ltac:(by rewrite (flow_alike _ _ _ Ha))) as Hp'.
    apply HK; [done|done|]. simpl.
    pose proof (pr_nodup _ _ _ _ _ _ Hp) as HnQ. pose proof (in_small _ _ _ _ _ _ _ _ _ _ _ Hi) as Hsm. pose proof (in_now _ _ _ _ _ _ _ _ _ _ _ Hi) as Hnow.
    split; simpl.
    + split; simpl.
      * by destruct f.
      * done.
      * eapply (seated_commit (co_seated _ _ _ _ _ _ _ _ _ _ _ Hc) h3 p infl eq_refl Ha); [by intros q _|]. apply (oldest_not_member Hi Hmo Hci).
      * eapply list.Forall_impl; [exact D2|]. intros q. by apply deps_ok_frame.
      * by eapply models_frame.
      * by eapply stores_ok_frame.
      * pose proof (Mops_others _ _ _ _ _ _ _ _ (mo_at _ _ _ _ _ Hmo2) C3 eq_refl eq_refl HnQ HM2) as Hoth. destruct f as [|q f].
        -- destruct Q' as [|j Q']; [done|]. split; [apply Hoth; left|]. intros j' Hj'. apply Hoth. by right.
        -- split; [|done]. exists (set_commit_index ci mo2). destruct Hr as [_ ->]. destruct Hmo2 as [M1 M2 M3 M4 M5].
           split; simpl; rewrite ?(flow_alike _ _ _ Ha3); [apply C3| |by rewrite G3, Hci| |done].
           ++ intros E. eapply list.Forall_impl; [exact (M2 E)|]. intros r. unfold completed, completed_at. by rewrite Hg3.
           ++ exists q, f. split; [|done]. by rewrite (flow_alike _ _ _ Ha2), Ef, <- app_assoc.
      * apply (co_readyQ _ _ _ _ _ _ _ _ _ _ _ Hc).
    + rewrite (sets_alike _ _ Ha). simpl length in Hrob'. replace (Z.of_nat (length infl)) with (Z.of_nat (S (length infl)) - 1) by lia. done.
    + eapply shaped_alike; [exact Ha|]. eapply shape_commit; [apply (in_shape _ _ _ _ _ _ _ _ _ _ _ Hi)|done|apply (oldest_not_member Hi Hmo Hci)|].
      intros q g gs E. by apply (oldest_not_open Hi Hmo Hci q g gs).
    + apply list.Forall_forall. intros q Hq. assert (q ∉ p :: infl) as Hqn by (intros Hqi; by apply (pend_not_infl k _ _ _ _ _ _ _ _ _ _ _ _ Hi Hqi Hq)).
      destruct (L2 q Hqn) as [X1 X2]. rewrite Hg3. apply (pristine_frame (λ q, q ∈ p :: infl) (mem c)); [by apply relinked_touched|done|done|done|].
      apply (proj1 (list.Forall_forall _ _) (in_pend _ _ _ _ _ _ _ _ _ _ _ Hi) q Hq).
    + destruct f; [done|]. by destruct Hr.
    + done.
    + destruct f; simpl in *; lia.
Qed.

(** The queues have changed. *)
Lemma inv_lsq now Q gone infl pend c m m' e es ss ss' y : inv (M := M) (Env := Env) k now Q gone infl pend c m e es ss →
  lsq_run.models (y, m') (lsq_run.mk_lists (loads_of (mem c) infl) ss') → stores_ok (mem c) infl ss' → inv k now Q gone infl pend (set_lsq y c) m' e es ss'.
Proof. intros [[C1 C2 C3 C4 C5 C6 C7 C8] I2 I3 I4 I5 I6 I7] Hm Hs. by split; [split|..]. Qed.

(** The macro-op notes when it commits. *)
Lemma note_ok now i Q' gone infl pend c m e es ss mo f (b : bool) : inv (M := M) (Env := Env) k now (i :: Q') gone infl pend c m e es ss → Mop_ok (mem c) now i gone mo →
  m_decode (f mo) = m_decode mo → m_oracle (f mo) = m_oracle mo → m_commit (f mo) = m_commit mo → m_uop (f mo) = m_uop mo →
  when_fetched (m_timing (f mo)) = when_fetched (m_timing mo) → when_fetch_started (m_timing (f mo)) = when_fetch_started (m_timing mo) →
  wp (if b then upd_Mop (mem c) i f else Ok (mem c)) (λ h', settled (mem c) h' ∧ (∀ q, get h' q = get (mem c) q) ∧
    inv k now (i :: Q') gone infl pend (set_mem h' c) m e es ss ∧ Mop_ok h' now i gone (if b then f mo else mo)).
Proof.
  intros Hi Hmo F1 F2 F3 F4 F5 F6. destruct b.
  - apply (wp_upd_Mop _ _ mo); [apply Hmo|done|]. intros h' C. destruct (Mop_changed_touched _ _ _ _ _ (mo_at _ _ _ _ _ Hmo) C F1 F2) as (Ha & Hg & _).
    assert (Mop_ok h' now i gone (f mo)) as Hmo' by (by apply (Mop_ok_change _ _ _ _ _ _ _ Hmo C)). split_and!; try done.
    { eapply Mop_settled; [apply Hmo|exact C|done|done|by rewrite F3]. }
    eapply inv_Mop; [exact Hi|apply Hmo|exact C|done|done|done|apply Hi].
  - cbn [wp]. split_and!; try done. by destruct c.
Qed.

(** One turn of the commit stage: the lists after it. *)
Definition retired (now i : Z) (Q' : list Z) (gone infl pend : list ptr) (p : ptr) (c : t) (m : M) (e : Env) (es : list rs.entry) : Prop :=
  ∃ f ss, flow (mem c) i = gone ++ p :: f ∧
    inv k now (match f with [] => Q' | _ => i :: Q' end) (match f with [] => [] | _ => gone ++ [p] end) infl pend c m e es ss.

(** A load gets a new action id as it leaves. *)
Lemma leaving_renew now i Q' gone infl pend c m e es ss p mo (b : bool) : leaving now i Q' gone infl pend c m e es ss p mo →
  0 ≤ lsq.global_action_id (lsq c) < 2 ^ 64 - 1 → p.1 = i →
  wp (if b then let '(id, c) := new_action_id c in upd c p (set_action_id id) else Ok c) (λ c', ∃ mo', leaving now i Q' gone infl pend c' m e es ss p mo' ∧
    m_decode mo' = m_decode mo ∧ m_commit mo' = m_commit mo ∧ settled (mem c) (mem c') ∧ lsq.global_action_id (lsq c) ≤ lsq.global_action_id (lsq c') ≤ lsq.global_action_id (lsq c) + 1).
Proof.
  intros Hlv Hg Ei. pose proof Hlv as ((y & m0 & ss0 & Hi) & Hmod & Hst & Hmo & Hci). destruct b; [|cbn [wp]; exists mo; split_and!; (done || lia)].
  assert (live (mem c) p) as Hl by (apply (core_live _ (in_core _ _ _ _ _ _ _ _ _ _ _ Hi)); left).
  eapply wp_mono; [by apply (renew_ok c p Hl)|]. intros c' (h' & y' & -> & T & L & Et & Ea & _ & Hy). pose proof (to_alike _ _ _ T) as Ha. simpl.
  destruct (Mop_ok_frame (mem c) h' now now i gone mo (to_Mop _ _ _ T i) Ha) as (mo' & Hmo'); [|done|].
  { intros q _. apply (touched_completed _ _ p now T). unfold completed, completed_at. by rewrite Et. }
  destruct (to_Mop _ _ _ T i mo (mo_at _ _ _ _ _ Hmo)) as (l & E). rewrite (mo_at _ _ _ _ _ Hmo') in E. injection E as E.
  exists mo'. split; [|rewrite E; split_and!; (done || apply Hy || by eapply touched_settled)]. split; [|split; [|split; [|split]]]; simpl.
  - exists y, m0, ss0. by apply (inv_same k _ _ _ _ _ _ _ _ _ _ h' p Hi); [left|..].
  - eapply models_frame; [exact Ha|]. by eapply models_later.
  - by eapply stores_ok_frame.
  - done.
  - by rewrite E.
Qed.

Lemma leaving_note now i Q' gone infl pend c m e es ss p mo f (b : bool) : leaving now i Q' gone infl pend c m e es ss p mo →
  m_decode (f mo) = m_decode mo → m_oracle (f mo) = m_oracle mo → m_commit (f mo) = m_commit mo → m_uop (f mo) = m_uop mo →
  when_fetched (m_timing (f mo)) = when_fetched (m_timing mo) → when_fetch_started (m_timing (f mo)) = when_fetch_started (m_timing mo) →
  wp (if b then upd_Mop (mem c) i f else Ok (mem c)) (λ h', leaving now i Q' gone infl pend (set_mem h' c) m e es ss p (if b then f mo else mo) ∧ settled (mem c) h').
Proof.
  intros ((y & m0 & ss0 & Hi) & Hmod & Hst & Hmo & Hci) F1 F2 F3 F4 F5 F6.
  eapply wp_mono; [apply (note_ok now i Q' gone (p :: infl) pend (set_lsq y c) m0 e es ss0 mo f b Hi Hmo); done|].
  intros h' (Hset & _ & Hi' & Hmo'). pose proof (st_alike _ _ Hset) as Ha. split; [|done]. split; [|split; [|split; [|split]]]; simpl.
  - by exists y, m0, ss0.
  - by eapply models_frame.
  - by eapply stores_ok_frame.
  - done.
  - destruct b; [by rewrite F3|done].
Qed.

Lemma retire_head_ok now i Q' gone infl pend c m e es ss p mo : inv (M := M) (Env := Env) k now (i :: Q') gone (p :: infl) pend c m e es ss →
  Mop_ok (mem c) now i gone mo → complete_index (m_commit mo) = -1 → lsq.global_action_id (lsq c) < 2 ^ 64 - 2 ^ 32 →
  wp (retire_head k c m e now) (λ r, let '(c', m', e', o) := r in settled (mem c) (mem c') ∧
    lsq.global_action_id (lsq c) ≤ lsq.global_action_id (lsq c') ≤ lsq.global_action_id (lsq c) + 1 ∧
    match o with
    | None => ∃ ss', inv k now (i :: Q') gone (p :: infl) pend c' m' e' es ss'
    | Some _ => retired now i Q' gone infl pend p c' m' e' es
    end).
Proof.
  intros Hi Hmo Hci Hids. pose proof (in_core _ _ _ _ _ _ _ _ _ _ _ Hi) as Hc. pose proof (in_rob _ _ _ _ _ _ _ _ _ _ _ Hi) as Hrob.
  destruct (sets_cons_inv (body (mem c)) p infl) as (g & gs & Es). rewrite Es in Hrob. destruct (rob.ROB_front_ok _ _ _ _ _ Hrob) as (G & _ & Gix).
  destruct (oldest_flow Hi Hmo Hci) as (Ei & f & rest & Ef & Einf). pose proof (core_live _ Hc p ltac:(left)) as Hl. pose proof Hl as El. unfold live in El.
  destruct (oldest_done Hi Hmo Hci) as [Hdone _]. assert (completed (mem c) now p) as Hcp by (apply (proj1 (list.Forall_forall _ _) Hdone); rewrite Ef; apply elem_of_app; right; left).
  destruct (mo_next _ _ _ _ _ Hmo) as (p' & f' & Ef' & Eci). rewrite Ef in Ef'. apply app_inv_head in Ef'. injection Ef' as <- <-.
  assert (0 ≤ lsq.global_action_id (lsq c)) as Hg0 by (eapply gid_pos, Hc). pose proof (pr_wf _ _ _ _ _ _ (co_prog _ _ _ _ _ _ _ _ _ _ _ Hc)) as Hw. apply list.Forall_cons in Hw as [Hw _].
  destruct (in_now _ _ _ _ _ _ _ _ _ _ _ Hi) as [Hn0 Hn1].
  unfold retire_head. rewrite G. cbn [rbind of_option]. rewrite El. cbn [rbind]. rewrite Ei, (mo_at _ _ _ _ _ Hmo). cbn [rbind].
  unfold completed, completed_at in Hcp. rewrite (proj2 (Z.leb_le _ _)) by done. rewrite Gix, Eci, !Z.eqb_refl. cbn [guard_or rbind]. rewrite <- (live_D _ _ Hl).
  eapply wp_bind, wp_mono; [apply (note_ok now i Q' gone (p :: infl) pend c m e es ss mo _ _ Hi Hmo); done|].
  intros h1 (Hs1 & Hg1 & Hi1 & Hmo1). pose proof (st_alike _ _ Hs1) as Ha1. match type of Hmo1 with Mop_ok _ _ _ _ ?x => set (mo1 := x) in Hmo1 end.
  assert (m_decode mo1 = m_decode mo ∧ m_commit mo1 = m_commit mo) as [D1 D2] by (unfold mo1; by destruct (_ && _)). clearbody mo1.
  pose proof (in_core _ _ _ _ _ _ _ _ _ _ _ Hi1) as Hc1. assert (live h1 p) as Hl1 by by eapply live_alike.
  eapply wp_bind, wp_mono; [rewrite <- (Hg1 p); apply (leave_LSQ_ok k h1 (set_mem h1 c) m (p :: infl) ss p)|].
  - apply Hc1.
  - apply Hc1.
  - apply (core_wf _ Hc1). left.
  - apply list.Forall_forall. intros q. apply (core_wf _ Hc1).
  - simpl. lia.
  - done.
  - done.
  - by rewrite live_D.
  - by rewrite live_O.
  - apply (oldest_std Hi1 Hmo1). by rewrite D2.
  - intros [[c2 m2] b] Hr. destruct b; cbn [negb].
    + destruct Hr as (ss' & y & -> & Hmod & Hst & Hgy). simpl in Hgy.
      set (c2 := set_lsq y (set_mem h1 c)). assert (leaving now i Q' gone infl pend c2 m2 e es ss' p mo1) as Hlv.
      { split; [|split; [done|split; [done|split; [done|by rewrite D2]]]]. exists (lsq c), m, ss. exact Hi1. }
      eapply wp_bind, wp_mono; [apply (leaving_renew _ _ _ _ _ _ _ _ _ _ _ _ _ (is_load (D (mem c) p)) Hlv); [unfold c2; simpl; lia|done]|].
      intros c3 (mo3 & Hlv3 & D3 & D3' & Ha3 & Hg3). simpl in Ha3, Hg3.
      eapply wp_bind, wp_mono; [apply (leaving_note _ _ _ _ _ _ _ _ _ _ _ _ _ (set_commit_finished now) (EOM (D (mem c) p)) Hlv3); done|].
      intros h4 [Hlv4 Ha4]. assert (settled (mem c) h4) as Hset by (transitivity h1; [done|]; by transitivity (mem c3)). pose proof (st_alike _ _ Hset) as Ha.
      apply (retire_rest_ok _ _ _ _ _ _ _ _ _ _ _ _ _ f _ _ _ _ Hlv4); simpl.
      * by rewrite (flow_alike _ _ _ Ha).
      * by rewrite (al_D _ _ Ha).
      * intros -> Hrep. rewrite (fw_EOM _ _ _ Hw _ _ gone p (Mstat_at _ _ _ (mo_at _ _ _ _ _ Hmo))); [simpl; lia| |done].
        rewrite <- Hrep. destruct (EOM _); simpl; by rewrite D3, D1.
      * destruct (completed_exec Hi p ltac:(left) Hcp) as [_ [Htr|Hex]]; [apply orb_true_iff; left|apply orb_true_iff; right].
        -- unfold trap in Htr. rewrite Ei, (Mstat_at _ _ _ (mo_at _ _ _ _ _ Hmo)) in Htr. done.
        -- unfold exec_at in Hex. by rewrite (proj2 (Z.eqb_neq _ _) Hex).
      * intros [[c5 e5] br] Ha5 Hl5 Hfin. simpl in Ha5, Hl5, Hfin. cbn [wp]. assert (settled (mem c) (mem c5)) as Hac by by transitivity h4. split; [done|]. split; [rewrite Hl5; lia|].
        exists f, ss'. split; [|done]. by rewrite (flow_alike _ _ _ Hac).
    + cbn [wp]. destruct Hr as (y & -> & Hmod & Hst & Hgy). simpl in Hgy. split; [done|]. split; [simpl; lia|]. exists ss. by eapply inv_lsq.
Qed.

(** A macro-op that does not commit yet: its branch recovers, or a uop has not completed. *)
Definition blocked (h : heap) (now i : Z) : Prop :=
  ∃ m, Mop_at h i = Ok m ∧ (jeclear_in_flight (m_commit m) = true ∨ ¬ Forall (completed h now) (flow h i)).

Lemma settled_blocked h h' now i : settled h h' → blocked h now i → blocked h' now i.
Proof.
  intros Hs (m & E & Hb). destruct (st_Mop _ _ Hs i m E) as (m' & E' & Ej). exists m'. split; [done|]. rewrite Ej. destruct Hb as [Hb|Hb]; [by left|right].
  intros Hf. apply Hb. rewrite (flow_alike _ _ _ (st_alike _ _ Hs)) in Hf. eapply list.Forall_impl; [exact Hf|]. intros q. unfold completed, completed_at. by rewrite (st_tim _ _ Hs).
Qed.

(** One turn of the commit loop. *)
Lemma commit_one_ok now Q gone infl pend c m e es ss branches : inv (M := M) (Env := Env) k now Q gone infl pend c m e es ss →
  (∀ i d o, head Q = Some i → Mstat (mem c) i = Some (d, o) → spec_mode o = false) → lsq.global_action_id (lsq c) < 2 ^ 64 - 2 ^ 32 →
  wp (commit_one k c m e now branches) (λ r, let '(c', m', e', o) := r in settled (mem c) (mem c') ∧
    lsq.global_action_id (lsq c) ≤ lsq.global_action_id (lsq c') ≤ lsq.global_action_id (lsq c) + 1 ∧
    match o with
    | inl _ => ∃ ss', inv k now Q gone infl pend c' m' e' es ss'
    | inr _ => ∃ i Q' p infl', Q = i :: Q' ∧ infl = p :: infl' ∧ ¬ blocked (mem c) now i ∧ retired now i Q' gone infl' pend p c' m' e' es
    end).
Proof.
  intros Hi Hspec Hids. pose proof (in_core _ _ _ _ _ _ _ _ _ _ _ Hi) as Hc. pose proof (in_rob _ _ _ _ _ _ _ _ _ _ _ Hi) as Hrob.
  assert (∀ s : commit_stall, wp (Ok (c, m, e, inl s)) (λ r : t * M * Env * (commit_stall + bool * bool), let '(c', m', e', o) := r in settled (mem c) (mem c') ∧
    lsq.global_action_id (lsq c) ≤ lsq.global_action_id (lsq c') ≤ lsq.global_action_id (lsq c) + 1 ∧
    match o with inl _ => ∃ ss', inv k now Q gone infl pend c' m' e' es ss'
    | inr _ => ∃ i Q' p infl', Q = i :: Q' ∧ infl = p :: infl' ∧ ¬ blocked (mem c) now i ∧ retired now i Q' gone infl' pend p c' m' e' es end)) as Hstall.
  { intros s. cbn [wp]. split; [done|]. split; [lia|]. by exists ss. }
  unfold commit_one. destruct (Z.leb_spec (rob.ROB_num (rob c)) 0) as [_|Hnum]; [apply Hstall|].
  rewrite (rob.rob_num _ _ _ Hrob) in Hnum. destruct infl as [|p infl']; [simpl in Hnum; lia|].
  destruct (some_Mop (co_prog _ _ _ _ _ _ _ _ _ _ _ Hc) p) as (i & Q' & EQ); [left|]. subst Q.
  destruct (sets_cons_inv (body (mem c)) p infl') as (g & gs & Es). rewrite Es in Hrob. destruct (rob.ROB_front_ok _ _ _ _ _ Hrob) as (G & _ & _).
  destruct (oldest (co_prog _ _ _ _ _ _ _ _ _ _ _ Hc) i Q' eq_refl) as (p' & f & _ & E & Ei). simpl in E. injection E as <- _.
  destruct (oldest_Mop _ _ _ _ _ _ _ _ _ _ _ _ Hi) as (mo & Hmo).
  rewrite G. cbn [rbind of_option]. rewrite Ei, (mo_at _ _ _ _ _ Hmo). cbn [rbind]. destruct (jeclear_in_flight _) eqn:Ej; [apply Hstall|].
  destruct (is_ctrl_Mop _ && _ && _); [apply Hstall|]. rewrite (Hspec i _ _ eq_refl (Mstat_at _ _ _ (mo_at _ _ _ _ _ Hmo))). cbn [negb guard_or rbind].
  eapply wp_bind, wp_mono; [by apply (check_complete_ok k _ _ _ _ _ _ _ _ _ _ _ Hi)|]. intros [c1 e1] (h1 & E1 & Hs1 & Hi1). simpl in E1, Hi1. subst c1.
  destruct (oldest_Mop _ _ _ _ _ _ _ _ _ _ _ _ Hi1) as (mo1 & Hmo1). simpl mem in *. rewrite (mo_at _ _ _ _ _ Hmo1). cbn [rbind].
  destruct (Z.eqb_spec (complete_index (m_commit mo1)) (-1)) as [Eci|_]; [|cbn [wp]; split; [done|]; split; [simpl; lia|]; by exists ss].
  eapply wp_bind, wp_mono; [by apply (retire_head_ok _ _ _ _ _ _ _ _ _ _ _ _ _ Hi1 Hmo1 Eci)|]. intros [[[c2 m2] e2] [x|]] (Ha2 & Hg2 & Hr); simpl in Ha2, Hg2; cbn [wp].
  - split; [by transitivity h1|]. split; [done|]. exists i, Q', p, infl'. split; [done|]. split; [done|]. split; [|done].
    intros (m' & Em & [Hb|Hb]); rewrite (mo_at _ _ _ _ _ Hmo) in Em; injection Em as <-; [congruence|]. apply Hb.
    pose proof (mo_all _ _ _ _ _ Hmo1 Eci) as Hall. rewrite (flow_alike _ _ _ (st_alike _ _ Hs1)) in Hall. eapply list.Forall_impl; [exact Hall|].
    intros q. unfold completed, completed_at. by rewrite (st_tim _ _ Hs1).
  - split; [by transitivity h1|]. split; [done|]. done.
Qed.

End commit.
End back_commit.

Module back_step.
Import uops backend back_heap order back_inv back_state back_lsq back_facts back_dispatch back_complete back_commit.

(** ** Program order *)

(** The macro-ops in flight, and their uops: committed, in flight behind dispatch, still to be
    dispatched. *)
Record in_order : Type := mk_order { o_Mops : list Z; o_gone : list ptr; o_infl : list ptr; o_pend : list ptr }.

(** The oldest uop commits; with the last one of its flow the macro-op leaves. *)
Definition retire_uop (h : heap) (a : in_order) : in_order :=
  match o_Mops a, o_infl a with
  | i :: Q', p :: infl' =>
      if decide (length (flow h i) = S (length (o_gone a))) then mk_order Q' [] infl' (o_pend a)
      else mk_order (i :: Q') (o_gone a ++ [p]) infl' (o_pend a)
  | _, _ => a
  end.
Fixpoint retire_uops (n : nat) (h : heap) (a : in_order) : in_order :=
  match n with 0%nat => a | S n => retire_uops n h (retire_uop h a) end.

Lemma retire_uops_alike n h h' a : alike h h' → retire_uops n h' a = retire_uops n h a.
Proof.
  intros Ha. revert a. induction n as [|n IH]; intros a; [done|]. simpl. rewrite IH. f_equal. unfold retire_uop.
  destruct (o_Mops a) as [|i Q']; [done|]. by rewrite (flow_alike _ _ _ Ha).
Qed.

(** What is left in flight. *)
Lemma retire_uops_some n h a : ∃ j, (j ≤ n)%nat ∧ o_infl (retire_uops n h a) = drop j (o_infl a).
Proof.
  revert a. induction n as [|n IH]; intros a; [by exists 0%nat|]. simpl. destruct (IH (retire_uop h a)) as (j & Hj & ->).
  unfold retire_uop. destruct (o_Mops a) as [|i Q']; [exists j; split; [lia|done]|]. destruct (o_infl a) as [|p l] eqn:El; [exists 0%nat; rewrite El, !drop_nil; split; [lia|done]|].
  exists (S j). split; [lia|]. by destruct (decide _).
Qed.

Lemma retire_uops_drop n h a : (length (o_infl (retire_uops n h a)) + n = length (o_infl a))%nat → o_infl (retire_uops n h a) = drop n (o_infl a).
Proof. destruct (retire_uops_some n h a) as (j & Hj & E). rewrite E, length_drop. intros Hl. f_equal. lia. Qed.

(** A wrong path follows a macro-op that does not commit yet: its branch. *)
Definition wrong (h : heap) (i : Z) : Prop := ∃ d o, Mstat h i = Some (d, o) ∧ spec_mode o = true.
Definition shadowed (h : heap) (now : Z) (Q : list Z) : Prop :=
  ∀ Q1 i Q2, Q = Q1 ++ i :: Q2 → wrong h i → ∃ j, j ∈ Q1 ∧ blocked h now j.

Lemma shadowed_head h now i Q d o : shadowed h now (i :: Q) → Mstat h i = Some (d, o) → spec_mode o = false.
Proof.
  intros Hs E. destruct (spec_mode o) eqn:Eo; [|done]. destruct (Hs [] i Q eq_refl) as (j & Hj & _); [by exists d, o|]. by apply elem_of_nil in Hj.
Qed.

Lemma shadowed_settled h h' now Q : settled h h' → shadowed h now Q → shadowed h' now Q.
Proof.
  intros Hs Hq Q1 i Q2 E (d & o & Em & Eo). rewrite (al_Mop _ _ (st_alike _ _ Hs)) in Em. destruct (Hq Q1 i Q2 E) as (j & Hj & Hb); [by exists d, o|].
  exists j. split; [done|]. by eapply settled_blocked.
Qed.

Lemma shadowed_tail h now i Q : shadowed h now (i :: Q) → ¬ blocked h now i → shadowed h now Q.
Proof.
  intros Hs Hb Q1 j Q2 -> Hw. destruct (Hs (i :: Q1) j Q2 eq_refl Hw) as (x & Hx & Hxb). apply elem_of_cons in Hx as [->|Hx]; [done|]. eauto.
Qed.

Section step.
Context {M Env : Type} `{SA : lsq_run.StoreMemAnswers M} `{RL : !lsq_run.RepeaterLater M} `{CL : CommitEnvLaws Env}.
Variable k : knobs.

Local Abbreviation gid c := (lsq.global_action_id (lsq c)).

(** The invariant, for an order. *)
Definition holds (now : Z) (a : in_order) (c : t) (m : M) (e : Env) : Prop :=
  ∃ es ss, inv k now (o_Mops a) (o_gone a) (o_infl a) (o_pend a) c m e es ss.

Lemma retire_store_ok now a c m e : holds now a c m e → gid c < 2 ^ 64 - 1 →
  wp (lsq.STQ_deallocate_senior (lsq c)) (λ y, holds now a (set_lsq y c) m e ∧ gid c ≤ lsq.global_action_id y ≤ gid c + 1).
Proof.
  intros (es & ss & Hi) Hg. pose proof (in_core _ _ _ _ _ _ _ _ _ _ _ Hi) as Hc. destruct (co_lsq _ _ _ _ _ _ _ _ _ _ _ Hc) as [M1 M2 M3]. simpl in M1, M2, M3.
  eapply wp_mono; [by apply (lsq_ops.STQ_deallocate_senior_ok _ _ _ M2)|]. intros y (Y1 & Y2 & Y3 & Y4). split.
  - exists es, ss. eapply inv_lsq; [exact Hi| |apply Hc]. split; simpl; [by rewrite Y2|done|done].
  - destruct Y4 as [->|(-> & _)]; lia.
Qed.

Lemma retire_stores_ok n now a c m e : holds now a c m e → gid c + Z.of_nat n < 2 ^ 64 - 1 →
  wp (retire_stores n c) (λ c', holds now a c' m e ∧ mem c' = mem c ∧ gid c ≤ gid c' ≤ gid c + Z.of_nat n).
Proof.
  revert c. induction n as [|n IH]; intros c Hi Hg; [cbn [retire_stores wp]; split_and!; (done || lia)|]. cbn [retire_stores].
  eapply wp_bind, wp_mono; [apply (retire_store_ok _ _ _ _ _ Hi); lia|]. intros y [Hi' Hy].
  eapply wp_mono; [apply (IH _ Hi'); simpl; lia|]. intros c' (H1' & H2' & H3'). simpl in *. split_and!; (done || lia).
Qed.

(** What the commit loop does to the order: [n] uops have committed. *)
Definition committed (now : Z) (a : in_order) (c c' : t) (m' : M) (e' : Env) : Prop :=
  ∃ n, holds now (retire_uops n (mem c) a) c' m' e' ∧ (length (o_infl (retire_uops n (mem c) a)) + n = length (o_infl a))%nat.

Lemma commit_loop_ok fuel now a c m e count branches : holds now a c m e → shadowed (mem c) now (o_Mops a) → (length (o_infl a) < fuel)%nat → gid c + Z.of_nat fuel < 2 ^ 64 - 2 ^ 32 →
  wp (commit_loop fuel k c m e now count branches) (λ r, let '(c', m', e') := r in committed now a c c' m' e').
Proof.
  revert a c m e count branches. induction fuel as [|fuel IH]; intros a c m e count branches Hh Hs Hlen Hg; [lia|]. cbn [commit_loop].
  assert (∀ c' m' e', holds now a c' m' e' → committed now a c c' m' e') as Hstop by (intros c' m' e' Hx; exists 0%nat; simpl; split; [done|lia]).
  destruct (count <=? 0); [by apply Hstop|]. destruct Hh as (es & ss & Hi).
  eapply wp_bind, wp_mono; [apply (commit_one_ok k _ _ _ _ _ _ _ _ _ _ branches Hi); [|lia]|].
  { intros i d o Hh Em. destruct (o_Mops a) as [|j Q]; [done|]. injection Hh as ->. by apply (shadowed_head _ _ _ _ _ _ Hs Em). }
  intros [[[c' m'] e'] [s|[body br]]] (Hset & Hg' & Hx); [cbn [wp]; apply Hstop; destruct Hx as (ss' & Hi'); by exists es, ss'|].
  destruct Hx as (i & Q' & p & infl' & EQ & Einfl & Hb & f & ss' & Ef & Hi').
  assert (retire_uop (mem c) a = mk_order (match f with [] => Q' | _ => i :: Q' end) (match f with [] => [] | _ => o_gone a ++ [p] end) infl' (o_pend a)) as Er.
  { unfold retire_uop. rewrite EQ, Einfl. rewrite <- (flow_alike _ _ _ (st_alike _ _ Hset)), Ef, length_app. destruct f; simpl; [by rewrite decide_True by lia|by rewrite decide_False by lia]. }
  assert (holds now (retire_uop (mem c) a) c' m' e') as Hh' by (rewrite Er; by exists es, ss').
  eapply wp_mono; [apply (IH _ _ _ _ (if body then count else count - 1) (if br then branches + 1 else branches) Hh')|].
  - rewrite Er. simpl. apply (shadowed_settled (mem c)); [done|]. rewrite EQ in Hs. destruct f; [by eapply shadowed_tail|done].
  - rewrite Er. simpl. rewrite Einfl in Hlen. simpl in Hlen. lia.
  - lia.
  - intros [[c2 m2] e2] (n & Hh2 & En). rewrite (retire_uops_alike _ _ _ _ (st_alike _ _ Hset)) in Hh2, En. exists (S n). split; [done|].
    rewrite Er in En at 2. simpl in En |- *. rewrite Einfl. simpl. lia.
Qed.

(** A cycle of the commit stage. *)
Lemma commit_cycle_ok now a c m e width stuck : holds now a c m e → shadowed (mem c) now (o_Mops a) → 0 ≤ width < 2 ^ 31 → gid c < 2 ^ 64 - 2 ^ 34 →
  wp (step k width stuck c m e now) (λ r, let '(c', m', e') := r in committed now a c c' m' e').
Proof.
  intros Hh Hs Hwd Hg. assert (∀ c' m' e', holds now a c' m' e' → committed now a c c' m' e') as Hstop by (intros c' m' e' Hx; exists 0%nat; simpl; split; [done|lia]).
  unfold step. destruct stuck; [by apply Hstop|].
  eapply wp_bind, wp_mono; [apply (retire_stores_ok (Z.to_nat width) _ _ _ _ _ Hh); lia|]. intros c1 (Hh1 & Em & Hg1). destruct Hh1 as (es1 & ss1 & Hi1).
  pose proof (rob.ok_eff _ _ _ (in_rob _ _ _ _ _ _ _ _ _ _ _ Hi1)) as Heff. destruct (decide (width = 0)) as [->|Hne].
  - destruct (Z.to_nat (0 + _)); cbn [commit_loop wp]; apply Hstop; by exists es1, ss1.
  - pose proof (pr_length _ _ _ _ _ _ (co_prog _ _ _ _ _ _ _ _ _ _ _ (in_core _ _ _ _ _ _ _ _ _ _ _ Hi1))) as Hpl. rewrite !length_app in Hpl.
    pose proof (in_small _ _ _ _ _ _ _ _ _ _ _ Hi1) as Hsm.
    eapply wp_mono; [apply (commit_loop_ok _ now a c1 m e width 0); [by exists es1, ss1|by rewrite Em|lia|lia]|].
    intros [[c' m'] e']. unfold committed. by rewrite Em.
Qed.

End step.
End back_step.
