(* ===== verification/BackSquash.v ===== *)
(** * BackSquash: one uop is squashed

    [get_fusion_tail] finds the youngest member of a set, [get_fusion_prev] the one in front
    of a member, whatever part of the set has been dispatched.

    The youngest uop in flight gives back its places in the reservation stations and the
    queues and its links; a member of its fused set that has not been dispatched has
    nothing to give back. *)

From S2P Require Import Prelude Misc Memory CacheSet CacheHeap OracleDeps Uops RS LSQ LSQInv LSQOps LSQRun ROB Backend BackHeap BackInv BackLinks BackStations BackState BackDispatch BackExec.

Module back_walk.
Import uops backend back_heap order back_inv back_stations back_shape back_facts.

Section walk.
Variable h : heap.

Lemma walk_prev_ok hd w1 : ∀ fuel p0 p w2, rs.chained (D h) hd p0 (w1 ++ p :: w2) → NoDup (p0 :: w1 ++ p :: w2) → Forall (live h) (p0 :: w1) → (length w1 < fuel)%nat →
  ∃ q, walk_prev fuel h p p0 = Ok q ∧ list.last (p0 :: w1) = Some q.
Proof.
  induction w1 as [|q w1 IH]; intros fuel p0 p w2 Hch Hn Hl Hf.
  all: destruct fuel as [|fuel]; [simpl in Hf; lia|]; apply list.Forall_cons in Hl as [Hl0 Hl]; simpl; pose proof Hl0 as E; unfold live in E; rewrite E; cbn [rbind];
    rewrite <- (live_D _ _ Hl0); simpl in Hch; destruct Hch as (Hx & _ & _ & _ & Hch); rewrite Hx; cbn [of_option rbind].
  - rewrite decide_True by done. by exists p0.
  - rewrite decide_False; [by apply (IH fuel q p w2); [|apply list.NoDup_cons in Hn as [_ Hn]| |simpl in Hf; lia]|].
    intros ->. apply list.NoDup_cons in Hn as [_ Hn]. simpl in Hn. apply list.NoDup_cons in Hn as [Hn _]. apply Hn, elem_of_app. right. left.
Qed.

Lemma walk_tail_ok hd w : ∀ fuel p0, rs.chained (D h) hd p0 w → Forall (live h) (p0 :: w) → (length w < fuel)%nat →
  (∀ q, list.last (p0 :: w) = Some q → fusion_next (D h q) = None) → ∃ q, walk_tail fuel h p0 = Ok q ∧ list.last (p0 :: w) = Some q.
Proof.
  induction w as [|q w IH]; intros fuel p0 Hch Hl Hf Hlast.
  all: destruct fuel as [|fuel]; [simpl in Hf; lia|]; apply list.Forall_cons in Hl as [Hl0 Hl]; simpl; pose proof Hl0 as E; unfold live in E; rewrite E; cbn [rbind];
    rewrite <- (live_D _ _ Hl0).
  - rewrite (Hlast p0) by done. by exists p0.
  - simpl in Hch. destruct Hch as (-> & _ & _ & _ & Hch). apply IH; [done|done|simpl in Hf; lia|exact Hlast].
Qed.

(** A whole fused set, or a lone uop. *)
Record whole_set (q0 : ptr) (w : list ptr) : Prop := {
  ws_head : body h q0 = false;
  ws_bodies : Forall (λ q, body h q = true) w;
  ws_live : Forall (live h) (q0 :: w);
  ws_nodup : NoDup (q0 :: w);
  ws_length : (length (q0 :: w) ≤ 64)%nat;
  ws_fused : if in_fusion (D h q0) then fusion_head (D h q0) = Some q0 ∧ fusion_next (D h q0) ≠ None ∧ rs.chained (D h) q0 q0 w ∧
    (∀ q, list.last (q0 :: w) = Some q → fusion_next (D h q) = None) else w = []
}.

Section whole.
Variables (q0 : ptr) (w : list ptr).
Hypothesis Hw : whole_set q0 w.

(** The walk of a recovery starts at the youngest member. *)
Lemma dead_tail u : uop_at h q0 = Ok u → ∃ q, (if in_fusion (dec u) then get_fusion_tail h q0 else Ok q0) = Ok q ∧ list.last (q0 :: w) = Some q.
Proof.
  intros E. destruct Hw as [W1 W2 W3 W4 W5 W6]. rewrite <- (D_at _ _ _ E). destruct (in_fusion (D h q0)) eqn:Ef; [|rewrite W6; by exists q0].
  destruct W6 as (F1 & F2 & F3 & F4). unfold get_fusion_tail. rewrite E. cbn [rbind]. rewrite <- (D_at _ _ _ E), Ef. cbn [guard_or rbind].
  rewrite bool_decide_eq_true_2 by done. cbn [guard_or rbind]. apply (walk_tail_ok q0 w); [done|done|simpl in W5; lia|done].
Qed.

(** It goes on to the member in front, and ends at the head. *)
Lemma prev_member w1 p w2 : w = w1 ++ p :: w2 → ∃ q, get_fusion_prev h p = Ok (Some q) ∧ list.last (q0 :: w1) = Some q.
Proof.
  intros E. destruct Hw as [W1 W2 W3 W4 W5 W6]. assert (p ∈ w) as Hp by (rewrite E; apply elem_of_app; right; left).
  pose proof (proj1 (list.Forall_forall _ _) W3 p ltac:(by right)) as Hl. destruct (in_fusion (D h q0)) eqn:Ef; [|rewrite W6 in Hp; by apply elem_of_nil in Hp].
  destruct W6 as (F1 & F2 & F3 & F4). destruct (rs.chained_in (D h) q0 q0 w p F3 Hp) as (G1 & G2 & G3).
  unfold get_fusion_prev. pose proof Hl as El. unfold live in El. rewrite El. cbn [rbind]. rewrite <- (live_D _ _ Hl), G1. cbn [negb]. rewrite G3.
  assert (q0 ≠ p) as Hne by (intros ->; by apply list.NoDup_cons in W4 as [? _]). rewrite decide_False by congruence. cbn [of_option rbind].
  subst w. destruct (walk_prev_ok q0 w1 65 q0 p w2) as (q & Eq & Elast); [done|done| |simpl in W5; rewrite length_app in W5; simpl in W5; lia|].
  - rewrite app_comm_cons in W3. by apply list.Forall_app in W3 as [? _].
  - exists q. by rewrite Eq.
Qed.

Lemma prev_head : get_fusion_prev h q0 = Ok None.
Proof.
  destruct Hw as [W1 W2 W3 W4 W5 W6]. apply list.Forall_cons in W3 as [Hl _]. unfold get_fusion_prev. pose proof Hl as El. unfold live in El. rewrite El. cbn [rbind].
  rewrite <- (live_D _ _ Hl). destruct (in_fusion (D h q0)); [|done]. cbn [negb]. destruct W6 as [-> _]. by rewrite decide_True.
Qed.

End whole.
End walk.

Lemma whole_set_alike h h' q0 w : alike h h' → whole_set h q0 w → whole_set h' q0 w.
Proof.
  intros Ha [W1 W2 W3 W4 W5 W6]. split; rewrite ?(body_alike _ _ Ha), ?(al_D _ _ Ha); try done.
  - eapply list.Forall_impl; [exact W2|]. intros q. simpl. by rewrite (body_alike _ _ Ha).
  - eapply list.Forall_impl; [exact W3|]. intros q. by apply live_alike.
  - destruct (in_fusion (D h q0)); [|done]. destruct W6 as (F1 & F2 & F3 & F4). split_and!; try done.
    + eapply chained_ext; [|exact F3]. apply Ha.
    + intros q. rewrite (al_D _ _ Ha). apply F4.
Qed.

Section program.
Context {k : knobs} {h : heap} {Q : list Z} {gone infl pend : list ptr}.
Hypothesis Hp : program k h Q gone infl pend.

Lemma program_chained hd A p0 w B : gone ++ infl ++ pend = A ++ (p0 :: w) ++ B → Forall (λ q, body h q = true) w → fusion_head (D h p0) = Some hd → rs.chained (D h) hd p0 w.
Proof.
  revert A p0. induction w as [|q w IH]; intros A p0 E Hb Hh; [done|]. apply list.Forall_cons in Hb as [Hq Hb].
  pose proof (pr_linked Hp A p0 q (w ++ B) E) as Hl. unfold linked in Hl. rewrite Hq in Hl. destruct Hl as (L1 & L2 & L3 & _).
  unfold body in Hq. apply andb_true_iff in Hq as [Hq1 Hq2]. apply negb_true_iff in Hq2. simpl. split_and!; try done; [by rewrite L3|].
  apply (IH (A ++ [p0]) q); [by rewrite <- app_assoc|done|by rewrite L3].
Qed.

Lemma program_set A q0 w B : gone ++ infl ++ pend = A ++ (q0 :: w) ++ B → body h q0 = false → Forall (λ q, body h q = true) w →
  (∀ q, head B = Some q → body h q = false) → whole_set h q0 w.
Proof.
  intros E H0 Hb HB. assert (∀ q, q ∈ q0 :: w → live h q) as Hl.
  { intros q Hq. apply (uw_live k). apply (pr_in Hp). rewrite E, !elem_of_app. tauto. }
  destruct (pr_in Hp q0) as (_ & _ & W0); [rewrite E, !elem_of_app; right; left; left|].
  pose proof (uw_head _ _ _ W0 H0) as Hh. assert (NoDup (q0 :: w)) as Hn.
  { pose proof (pr_uniq Hp) as Hn. rewrite E in Hn. apply list.NoDup_app in Hn as (_ & _ & Hn). by apply list.NoDup_app in Hn as (? & _ & _). }
  split; try done; [by apply list.Forall_forall|by eapply (pr_set_length Hp)|]. destruct (in_fusion (D h q0)) eqn:Ef.
  - destruct Hh as [F1 F2]. split_and!; try done; [by eapply program_chained|]. intros q Eq. apply last_Some in Eq as [l El].
    assert (in_fusion (D h q) = true) as Hfq.
    { assert (q ∈ q0 :: w) as Hq by (rewrite El; apply elem_of_app; right; left). apply elem_of_cons in Hq as [->|Hq]; [done|].
      pose proof (proj1 (list.Forall_forall _ _) Hb q Hq) as Hbq. unfold body in Hbq. by apply andb_true_iff in Hbq as [? _]. }
    destruct B as [|b B].
    + apply (pr_last Hp q (A ++ l)); [|done]. by rewrite E, El, app_nil_r, app_assoc.
    + assert (linked h q b) as Hlk. { apply (pr_linked Hp (A ++ l) q b B). rewrite E, El, <- !app_assoc. done. }
      unfold linked in Hlk. rewrite (HB b eq_refl) in Hlk. by apply Hlk.
  - destruct w as [|q w]; [done|]. pose proof (pr_linked Hp A q0 q (w ++ B) E) as Hlk. unfold linked in Hlk. apply list.Forall_cons in Hb as [Hb _]. rewrite Hb in Hlk.
    destruct Hlk as [Hlk _]. congruence.
Qed.

End program.

Lemma body_prefix h (l : list ptr) : ∃ g l', l = g ++ l' ∧ Forall (λ q, body h q = true) g ∧ (∀ q, head l' = Some q → body h q = false).
Proof.
  induction l as [|p l (g & l' & -> & Hg & Hl)]; [by exists [], []|]. destruct (body h p) eqn:E.
  - exists (p :: g), l'. split; [done|]. split; [by constructor|done].
  - exists [], (p :: g ++ l'). split; [done|]. split; [constructor|]. by intros q [= <-].
Qed.

End back_walk.

Module back_squash.
Import uops backend back_heap order back_inv back_links back_stations back_state back_lsq back_facts back_dispatch back_exec.

Section squash.
Context {M Env : Type} `{SA : lsq_run.StoreMemAnswers M} `{RL : !lsq_run.RepeaterLater M} `{CL : CommitEnvLaws Env}.
Variable k : knobs.

Local Abbreviation gid c := (lsq.global_action_id (lsq c)).
Local Abbreviation tm := TICK_T_MAX.

(** A core whose uops outside of the list have changed. *)
Lemma core_outside now Q gone infl pend c (m : M) l es ss h' y p : core k now Q gone infl pend c m l es ss → touched (λ q, q = p) (mem c) h' → same_links (mem c) h' →
  tim (get h' p) = tim (get (mem c) p) → alc (get h' p) = alc (get (mem c) p) → ids_to (lsq c) y 1 → core k now Q gone infl pend (set_mem h' (set_lsq y c)) m l es ss.
Proof.
  intros Hc T L Et Ea Hy. assert (core k now Q gone infl pend (set_mem h' c) m l es ss) as [C1 C2 C3 C4 C5 C6 C7 C8].
  - eapply core_frame; [exact Hc|apply T| |exact L|].
    + intros q _. destruct (decide (q = p)) as [->|Hq]; [done|]. by rewrite (to_alc _ _ _ T), (to_tim _ _ _ T).
    + eapply touched_Mops; [exact T| |apply Hc]. unfold completed, completed_at. by rewrite Et.
  - split; try done. simpl in *. by eapply models_later.
Qed.

Lemma index_member h x es p : rs.ok (D h) x es → rs.index_of x p ≠ -1 ↔ p ∈ rs.members es.
Proof.
  intros Hok. split.
  - intros Hx. destruct (decide (p ∈ rs.members es)) as [|Hn]; [done|]. by destruct (rs.ok_out _ _ _ Hok p Hn).
  - intros Hp. apply list_elem_of_bind in Hp as (e & Hpe & He). pose proof (proj1 (list.Forall_forall _ _) (rs.ok_entries _ _ _ Hok) e He) as Heo.
    rewrite (rs.eo_index _ _ _ Heo p Hpe). destruct (rs.eo_slot _ _ _ Heo) as (q & b & l & _ & G & _). apply aget_inv in G as [G _]. lia.
Qed.

(** What is left of the entries: [p] was in none, or at the end of the last. *)
Inductive left_behind (p : ptr) : list rs.entry → list rs.entry → Prop :=
  | left_same es : p ∉ rs.members es → left_behind p es es
  | left_last es i le b : left_behind p (es ++ [rs.mk_entry i (le ++ [(p, b)])]) (es ++ rs.entries_of i (if decide (le = []) then None else Some le)).

(** Its port and its place in the reservation stations. *)
Lemma squash_RS_ok now Q gone infl pend c (m : M) l p es es' ss : core k now Q gone infl pend c m (l ++ [p]) es ss → left_behind p es es' →
  let u := get (mem c) p in
  wp (let* c2 := if (when_exec (tim u) =? tm) && negb (port_assignment (alc u) =? -1) then alloc_RS_deallocate c (port_assignment (alc u)) else Ok c in
      if negb (rs.index_of (res c2) p =? -1) then let* x := rs.RS_deallocate (res c2) p (dec u) (when_exec (tim u)) in Ok (set_res x c2) else Ok c2)
    (λ c3, ∃ x ld, c3 = set_res x (set_loading ld c) ∧ ∀ h', alike (mem c) h' → same_time (mem c) h' l → seated k h' x ld l es').
Proof.
  intros Hc Hlb u. pose proof (co_seated _ _ _ _ _ _ _ _ _ _ _ Hc) as Hse. pose proof (se_ok _ _ _ _ _ _ Hse) as Hok. pose proof (core_nodup _ Hc) as Hnd.
  pose proof (core_live _ Hc p ltac:(apply elem_of_app; right; left)) as Hl. pose proof (seated_exec Hse p ltac:(apply elem_of_app; right; left)) as [X1 X2 X3].
  assert (p ∉ waiting es → (when_exec (tim u) =? tm) && negb (port_assignment (alc u) =? -1) = false) as Hnw.
  { intros Hn. destruct (needs (mem c) p) eqn:En.
    - destruct (X2 eq_refl) as (_ & Y2 & _). apply andb_false_iff. left. apply Z.eqb_neq. intros E. by apply Hn, Y2.
    - destruct (X3 eq_refl) as [Y1 _]. apply andb_false_iff. right. apply negb_false_iff, Z.eqb_eq, Y1. }
  destruct Hlb as [es Hnm|es i le b].
  - rewrite Hnw by (by intros ?%waiting_member). cbn [rbind]. destruct (Z.eqb_spec (rs.index_of (res c) p) (-1)) as [_|E]; [|by apply (index_member _ _ _ _ Hok) in E].
    cbn [negb wp]. exists (res c), (port_loading c). split; [by destruct c|]. intros h' Ha Ht. by apply (seated_drop Hse h' l p).
  - set (es0 := es ++ [rs.mk_entry i (le ++ [(p, b)])]) in *. set (es' := es ++ rs.entries_of i _) in *.
    assert (p ∈ rs.members es0) as Hpm. { unfold es0. rewrite rs.members_app. apply elem_of_app. right. unfold rs.members. simpl. rewrite fmap_app, !elem_of_app. left. right. left. }
    assert (waiting es0 = waiting es' ++ (if b then [] else [p])) as Ew.
    { unfold es0, es'. rewrite !waiting_uops_app, waiting_single, list.filter_app, fmap_app, <- app_assoc. f_equal.
      assert (waiting (rs.entries_of i (if decide (le = []) then None else Some le)) = (filter (λ x, x.2 = false) le).*1) as -> by (destruct (decide (le = [])) as [->|]; [done|apply waiting_single]).
      f_equal. by destruct b. }
    pose proof (rs.ok_members _ _ _ Hok) as Hnm. pose proof (waiting_nodup _ Hnm) as Hnw'. destruct (se_members _ _ _ _ _ _ Hse p Hpm) as [_ Hneeds].
    destruct (X2 Hneeds) as (Y1 & Y2 & _).
    assert (b = true → p ∉ waiting es0) as Hticked.
    { intros ->. rewrite Ew, app_nil_r. intros Hin%waiting_member. revert Hin. unfold es'. rewrite rs.members_app, rs.members_of.
      unfold es0 in Hnm. rewrite rs.members_app in Hnm. apply list.NoDup_app in Hnm as (_ & N1 & N2). unfold rs.members at 1 in N2. simpl in N2. rewrite app_nil_r in N2.
      intros [Hin|Hin]%elem_of_app.
      - apply (N1 p Hin). unfold rs.members. simpl. rewrite app_nil_r, fmap_app. apply elem_of_app. right. left.
      - rewrite fmap_app in N2. apply list.NoDup_app in N2 as (_ & N2 & _). destruct (decide (le = [])); simpl in Hin; [by apply elem_of_nil in Hin|]. apply (N2 p Hin). left. }
    apply (wp_bind _ _ _), (wp_mono _ (λ c2, ∃ ld, c2 = set_loading ld c ∧ length ld = length (port_loading c) ∧ load_ok (mem c) ld (waiting es'))).
    + destruct b.
      * rewrite Hnw by by apply Hticked. cbn [wp]. rewrite app_nil_r in Ew. exists (port_loading c). split; [by destruct c|]. split; [done|]. rewrite <- Ew. apply Hse.
      * assert (p ∈ waiting es0) as Hpw by (rewrite Ew; apply elem_of_app; right; left). apply Y2 in Hpw as E. unfold exec_at in E. unfold u. rewrite E, Z.eqb_refl.
        unfold port_of in Y1. rewrite (proj2 (Z.eqb_neq _ _)) by lia. cbn [andb negb].
        apply (load_leave (mem c) c (waiting es') p); [unfold port_of; by rewrite (se_ports _ _ _ _ _ _ Hse)|]. eapply load_perm; [|apply Hse]. rewrite Ew. by rewrite Permutation_app_comm.
    + intros c2 (ld & -> & Hll & Hload). simpl res. apply (index_member _ _ _ _ Hok) in Hpm. rewrite (proj2 (Z.eqb_neq _ _) Hpm). cbn [negb].
      unfold u. rewrite <- (live_D _ _ Hl). eapply wp_bind, wp_mono; [apply (rs.RS_deallocate_ok (D (mem c)) (res c) es i le p b _ Hok)|].
      { destruct b.
        - split; [done|]. intros E. exfalso. by apply Hticked, Y2.
        - split; [|done]. intros _. apply Y2. rewrite Ew. apply elem_of_app. right. left. }
      intros x [Hx _]. cbn [wp]. exists x, ld. split; [done|]. intros h' Ha Ht. by apply (seated_leave Hse h' x ld l p es i le b eq_refl Hnd eq_refl Ha Ht).
Qed.

(** The youngest uop. *)
Lemma squash_uop_ok now Q gone infl pend c (m : M) l p es es' ss : core k now Q gone infl pend c m (l ++ [p]) es ss → left_behind p es es' →
  (is_std (D (mem c) p) = true → ∃ q l0, stores_in (mem c) l = l0 ++ [q] ∧ is_sta (D (mem c) q) = true) → gid c < 2 ^ 64 - 2 ^ 32 →
  wp (squash_uop c p) (λ c', ∃ ss', core k now Q gone infl pend c' m l es' ss' ∧ rob c' = rob c ∧ alike (mem c) (mem c') ∧ gid c ≤ gid c' ≤ gid c + 1).
Proof.
  intros Hc Hlb Hstd Hg. assert (0 ≤ gid c) as Hg0 by (eapply gid_pos, Hc). pose proof (core_live _ Hc p ltac:(apply elem_of_app; right; left)) as Hl.
  unfold squash_uop. rewrite new_id_ok by lia.
  apply wp_bind, wp_upd; [exact Hl|by rewrite live_D|by rewrite live_O|done|done|]. intros h1 T L E1.
  set (c1 := set_mem h1 _). assert (core k now Q gone infl pend c1 m (l ++ [p]) es ss) as Hc1.
  { eapply core_outside; [exact Hc|exact T|exact L|by rewrite E1|by rewrite E1|]. unfold ids_to. simpl. split_and!; (done || lia). }
  pose proof (to_alike _ _ _ T) as Ha. assert (mem c1 = h1 ∧ rob c1 = rob c ∧ gid c1 = gid c + 1) as (M1 & R1 & G1) by done. clearbody c1.
  pose proof (core_wf _ Hc1 p ltac:(apply elem_of_app; right; left)) as Hw1. pose proof (core_live _ Hc1 p ltac:(apply elem_of_app; right; left)) as Hl1.
  pose proof (seated_exec (co_seated _ _ _ _ _ _ _ _ _ _ _ Hc1) p ltac:(apply elem_of_app; right; left)) as [X1 _ _].
  pose proof Hl1 as El. unfold live in El. rewrite El. cbn [rbind].
  pose proof (squash_RS_ok _ _ _ _ _ _ _ _ _ _ _ _ Hc1 Hlb) as HRS. simpl in HRS. apply wp_bind_inv in HRS. eapply wp_bind, wp_mono; [exact HRS|].
  intros c2 H2. simpl in H2. eapply wp_bind, wp_mono; [exact H2|]. intros c3 (x & ld & -> & Hse).
  eapply wp_bind, wp_mono; [apply (squash_LSQ_ok k (mem c1) (set_res x (set_loading ld c1)) m (l ++ [p]) ss p); try done|].
  - apply Hc1.
  - apply Hc1.
  - simpl. lia.
  - apply (core_nodup _ Hc1).
  - by rewrite live_D.
  - rewrite M1, (al_D _ _ Ha). intros E. destruct (Hstd E) as (q & l0 & F1 & F2). exists q, l0. rewrite (al_D _ _ Ha). split; [|done]. unfold stores_in. by rewrite (filter_st_alike _ _ _ Ha).
  - intros c4 (ss' & y & -> & Hmod & Hst & Hy). simpl in Hy. simpl mem.
    eapply wp_bind, wp_mono; [apply (deps_squash (mem c1) l p)|].
    + apply Hc1.
    + apply list.Forall_forall. intros q. apply (core_live _ Hc1).
    + apply (core_nodup _ Hc1).
    + intros q Hq. pose proof (co_prefix _ _ _ _ _ _ _ _ _ _ _ Hc1) as [d Ed]. apply (pr_before (co_prog _ _ _ _ _ _ _ _ _ _ _ Hc1) (gone ++ l) (p :: d ++ pend)).
      * rewrite Ed, <- !app_assoc. done.
      * by apply elem_of_app; right.
      * left.
    + intros h2 (R2 & D2). cbn [wp]. pose proof (rl_alike _ _ R2) as Ha2. exists ss'. split; [|split; [done|split; [rewrite M1 in Ha2; by transitivity h1|simpl; lia]]].
      destruct Hc1 as [C1 C2 C3 C4 C5 C6 C7 C8]. split; simpl; try done.
      * by eapply program_alike.
      * destruct C2 as [d C2]. exists (p :: d). by rewrite C2, <- app_assoc.
      * apply Hse; [done|]. intros q _. by rewrite (rl_alc _ _ R2), (rl_tim _ _ R2).
      * by eapply models_frame.
      * by eapply stores_ok_frame.
      * eapply Mops_ok_frame; [apply R2|done| |exact C7]. intros q. unfold completed, completed_at. by rewrite (rl_tim _ _ R2).
Qed.

(** A member of the set that has not been dispatched. *)
Lemma squash_pristine_ok now Q gone infl pend c (m : M) l p es ss : core k now Q gone infl pend c m l es ss → live (mem c) p → p ∉ l → pristine (get (mem c) p) → gid c < 2 ^ 64 - 2 ^ 32 →
  wp (squash_uop c p) (λ c', core k now Q gone infl pend c' m l es ss ∧ rob c' = rob c ∧ touched (λ q, q = p) (mem c) (mem c') ∧ same_links (mem c) (mem c') ∧ gid c ≤ gid c' ≤ gid c + 1).
Proof.
  intros Hc Hl Hp Hpr Hg. assert (0 ≤ gid c) as Hg0 by (eapply gid_pos, Hc). unfold squash_uop. rewrite new_id_ok by lia.
  apply wp_bind, wp_upd; [exact Hl|by rewrite live_D|by rewrite live_O|done|done|]. intros h1 T L E1.
  set (c1 := set_mem h1 _). assert (core k now Q gone infl pend c1 m l es ss) as Hc1.
  { eapply core_outside; [exact Hc|exact T|exact L|by rewrite E1|by rewrite E1|]. unfold ids_to. simpl. split_and!; (done || lia). }
  assert (mem c1 = h1 ∧ rob c1 = rob c ∧ gid c1 = gid c + 1) as (M1 & R1 & G1) by done. clearbody c1.
  assert (live (mem c1) p) as Hl1 by (rewrite M1; by eapply touched_live). pose proof Hl1 as El. unfold live in El. rewrite El. cbn [rbind].
  destruct Hpr as [P1 P2 P3 P4 P5 P6 P7 P8 P9]. rewrite M1, E1. simpl. rewrite P3, P5, !Z.eqb_refl. cbn [andb negb rbind].
  pose proof (se_ok _ _ _ _ _ _ (co_seated _ _ _ _ _ _ _ _ _ _ _ Hc1)) as Hok.
  assert (rs.index_of (res c1) p = -1) as Eix.
  { apply (rs.ok_out _ _ _ Hok). intros Hin. by destruct (se_members _ _ _ _ _ _ (co_seated _ _ _ _ _ _ _ _ _ _ _ Hc1) p Hin). }
  rewrite Eix, Z.eqb_refl. cbn [negb rbind].
  assert (∀ u, when_allocated (tim u) = tm → squash_LSQ c1 p u = Ok c1) as Hsq.
  { intros u E. unfold squash_LSQ. rewrite E, Z.eqb_refl. cbn [negb]. by repeat case_match. }
  rewrite Hsq by (simpl; exact P1). cbn [rbind]. destruct (L p) as [L1 L2]. rewrite undo_none; [|done|rewrite M1, L1; exact P6|rewrite M1, L2; exact P7]. cbn [rbind wp].
  replace (set_mem (mem c1) c1) with c1 by (by destruct c1). rewrite M1. split_and!; (done || lia).
Qed.

End squash.
End back_squash.
