(* ===== verification/BackRecover.v ===== *)
(** * BackRecover: a recovery squashes the youngest uops

    The fused sets of the reorder buffer are squashed from the youngest on, each from its
    youngest member to its head, until one belongs to the macro-op that stays. *)

From stdpp Require Import sorting.
From S2P Require Import Prelude Misc CacheHeap CacheSet Memory OracleDeps Uops ROB RS LSQ LSQInv LSQOps LSQRun Backend BackHeap BackInv BackLinks BackStations BackState BackDispatch BackExec BackSquash.

Module back_recover.
Import uops backend back_heap order back_inv back_links back_stations back_shape back_state back_lsq back_facts back_dispatch back_exec back_walk back_squash.

(** ** Program order *)

(** The boundary between the uops in flight and the others is nothing that [program] sees. *)
Lemma program_resplit k h Q gone infl pend infl' pend' : program k h Q gone infl pend → infl ++ pend = infl' ++ pend' → program k h Q gone infl' pend'.
Proof. intros [H1 H2 H3 H4 H5] E. rewrite E in H3, H5. by split. Qed.

Lemma not_oldest k h Q gone l rest a x p b : program k h Q gone l rest → l ++ rest = a ++ p :: b → x ∈ a → x.1 ≠ p.1 → untouched (Q := Q) (gone := gone) p.
Proof.
  intros Hp E Hx Hne i Q' EQ Ei. exfalso. destruct (oldest Hp i Q' EQ) as (p0 & f & Ef & E' & E0).
  assert (p ∈ gone ++ l ++ rest) as Hin by (rewrite E, !elem_of_app, elem_of_cons; tauto). destruct (pr_in Hp p Hin) as (_ & Hf & _). rewrite Ei, Ef in Hf.
  pose proof (pr_uniq Hp) as Hn. apply list.NoDup_app in Hn as (_ & Hn & _).
  assert (p ∈ p0 :: f) as Hpf. { apply elem_of_app in Hf as [Hf|Hf]; [|done]. destruct (Hn p Hf). rewrite E, elem_of_app, elem_of_cons. tauto. }
  assert (x ∈ l ++ rest) as Hx' by (rewrite E; by apply elem_of_app; left). rewrite E' in Hx'. apply elem_of_app in Hx' as [Hx'|Hx'].
  - apply Hne. rewrite Ei. apply (flow_slot h). rewrite Ef. by apply elem_of_app; right.
  - assert (seq_of h p < seq_of h x) as H1.
    { apply (pr_before Hp (gone ++ p0 :: f) (Q' ≫= flow h)); [by rewrite E', app_assoc|by apply elem_of_app; right|done]. }
    assert (seq_of h x < seq_of h p) as H2.
    { apply (pr_before Hp (gone ++ a) (p :: b)); [by rewrite E, app_assoc|by apply elem_of_app; right|left]. }
    lia.
Qed.

Section recover.
Context {M Env : Type} `{SA : lsq_run.StoreMemAnswers M} `{RL : !lsq_run.RepeaterLater M} `{CL : CommitEnvLaws Env}.
Variable k : knobs.

Local Abbreviation gid c := (lsq.global_action_id (lsq c)).
Local Abbreviation tm := TICK_T_MAX.

(** ** A fused set *)

(** The members that have not been dispatched. *)
Lemma back_pristine now Q gone infl pend (m : M) l es ss q0 g' g2 : ∀ tl fuel c p p' (P : t → Prop), core k now Q gone infl pend c m l es ss → whole_set (mem c) q0 (g' ++ g2 ++ tl) →
  Forall (λ p, (p ∉ l) ∧ pristine (get (mem c) p)) g2 → gid c + Z.of_nat (length g2) < 2 ^ 64 - 2 ^ 32 → list.last (q0 :: g' ++ g2) = Some p → list.last (q0 :: g') = Some p' →
  (∀ c', core k now Q gone infl pend c' m l es ss → rob c' = rob c → alike (mem c) (mem c') → gid c ≤ gid c' ≤ gid c + Z.of_nat (length g2) → wp (squash_back fuel c' p') P) →
  wp (squash_back (fuel + length g2) c p) P.
Proof.
  induction g2 as [|r w IH] using rev_ind; intros tl fuel c p p' P Hc Hw Hg2 Hg Hl Hl' HP.
  { rewrite app_nil_r, Hl' in Hl. injection Hl as <-. rewrite Nat.add_0_r. apply HP; [done|done|done|simpl; lia]. }
  rewrite app_assoc, app_comm_cons, last_snoc in Hl. injection Hl as <-. rewrite length_app in Hg |- *. simpl in Hg |- *.
  replace (fuel + (length w + 1))%nat with (S (fuel + length w)) by lia. apply list.Forall_app in Hg2 as [Hgw Hgr]. apply list.Forall_cons in Hgr as [[Hrl Hpr] _].
  assert (live (mem c) r) as Hlr. { apply (proj1 (list.Forall_forall _ _) (ws_live _ _ _ Hw)). rewrite elem_of_cons, !elem_of_app, list_elem_of_singleton. tauto. }
  pose proof Hlr as El. unfold live in El. cbn [squash_back]. rewrite El. cbn [rbind]. rewrite (pu_alloc _ Hpr), Z.eqb_refl. cbn [negb].
  eapply wp_bind, wp_mono; [apply (squash_pristine_ok k _ _ _ _ _ _ _ _ _ _ _ Hc Hlr Hrl Hpr); lia|]. intros c' (Hc' & R' & T' & L' & G').
  pose proof (whole_set_alike _ _ _ _ (to_alike _ _ _ T') Hw) as Hw'.
  destruct (prev_member (mem c') q0 _ Hw' (g' ++ w) r tl) as (q & Eq & Elast); [by rewrite <- !app_assoc|]. rewrite Eq. cbn [rbind].
  eapply (IH (r :: tl) fuel c' q p' P Hc').
  - by rewrite <- app_assoc in Hw'.
  - pose proof (ws_nodup _ _ _ Hw) as Hn. apply list.NoDup_cons in Hn as [_ Hn]. apply list.NoDup_app in Hn as (_ & _ & Hn). apply list.NoDup_app in Hn as (Hn & _ & _).
    apply list.NoDup_app in Hn as (_ & Hn & _). rewrite list.Forall_forall in Hgw. apply list.Forall_forall. intros x Hx. destruct (Hgw x Hx) as [X1 X2]. split; [done|].
    destruct (L' x) as [L1 L2]. eapply pristine_frame; [exact T'| |done|done|done]. intros ->. apply (Hn r Hx). left.
  - lia.
  - done.
  - done.
  - intros c2 Hc2 R2 A2 G2. apply HP; [done|congruence| |rewrite length_app; simpl; lia]. transitivity (mem c'); [apply T'|done].
Qed.

(** The entry of a set in the reservation stations, if it has one. *)
Inductive entry_of_set (g : list ptr) (es0 : list rs.entry) : list rs.entry → Prop :=
  | no_entry : Forall (λ p, p ∉ rs.members es0) g → entry_of_set g es0 es0
  | last_entry i le : le.*1 = g → entry_of_set g es0 (es0 ++ [rs.mk_entry i le]).

Lemma entry_drop g p es0 es : entry_of_set (g ++ [p]) es0 es → ∃ es', left_behind p es es' ∧ (g = [] → es' = es0) ∧ (g ≠ [] → entry_of_set g es0 es').
Proof.
  intros [Hn|i le E].
  - apply list.Forall_app in Hn as [Hn Hp]. apply list.Forall_cons in Hp as [Hp _]. exists es0. split; [by constructor|]. split; [done|]. intros _. by constructor.
  - apply fmap_app_inv in E as (le' & lp & E1 & E2 & ->). destruct lp as [|[q b] [|]]; try done. injection E2 as ->. eexists. split; [apply left_last|]. split.
    + intros ->. destruct le'; [|done]. simpl. by rewrite app_nil_r.
    + intros Hne. rewrite decide_False by (intros ->; done). simpl. by constructor.
Qed.

(** The members in flight, from the youngest to the head. *)
Lemma back_dispatched now Q gone infl pend (m : M) q0 l0 es0 gs g' : ∀ tl fuel c p es ss n, core k now Q gone infl pend c m (l0 ++ q0 :: g') es ss → whole_set (mem c) q0 (g' ++ tl) →
  entry_of_set (q0 :: g') es0 es → Forall (untouched (Q := Q) (gone := gone)) (q0 :: g') → gid c + Z.of_nat (length (q0 :: g')) < 2 ^ 64 - 2 ^ 32 →
  rob.ok (rob c) gs n → (length g' < fuel)%nat → list.last (q0 :: g') = Some p →
  wp (squash_back fuel c p) (λ c', ∃ ss', core k now Q gone infl pend c' m l0 es0 ss' ∧ rob.ok (rob c') gs (n - Z.of_nat (length (q0 :: g'))) ∧
    alike (mem c) (mem c') ∧ gid c ≤ gid c' ≤ gid c + Z.of_nat (length (q0 :: g'))).
Proof.
  assert (∀ c l p es ss es', core k now Q gone infl pend c m (l ++ [p]) es ss → untouched (Q := Q) (gone := gone) p → gid c < 2 ^ 64 - 2 ^ 32 → left_behind p es es' →
    uop_at (mem c) p = Ok (get (mem c) p) ∧ negb (when_allocated (tim (get (mem c) p)) =? tm) = true ∧
    wp (squash_uop (set_rob (rob.drop_eff (rob c)) c) p) (λ c', ∃ ss', core k now Q gone infl pend c' m l es' ss' ∧ rob c' = rob.drop_eff (rob c) ∧ alike (mem c) (mem c') ∧ gid c ≤ gid c' ≤ gid c + 1)) as Hone.
  { intros c l p es ss es' Hc Hu Hg Hlb. assert (p ∈ l ++ [p]) as Hp by (apply elem_of_app; right; left). split; [by apply (core_live _ Hc)|].
    destruct (seated_exec (co_seated _ _ _ _ _ _ _ _ _ _ _ Hc) p Hp) as [X1 _ _]. split; [by rewrite (proj2 (Z.eqb_neq _ _) X1)|].
    apply (squash_uop_ok k now Q gone infl pend (set_rob (rob.drop_eff (rob c)) c) m l p es es' ss); [|done| |done].
    - destruct Hc as [C1 C2 C3 C4 C5 C6 C7 C8]. by split.
    - intros Hs. destruct (co_prefix _ _ _ _ _ _ _ _ _ _ _ Hc) as [d Ed].
      destruct (own_sta (co_prog _ _ _ _ _ _ _ _ _ _ _ Hc) l p (d ++ pend)) as (q & l' & E1 & E2 & _); [by rewrite Ed, <- !app_assoc|done|done|]. by exists q, l'. }
  induction g' as [|r w IH] using rev_ind; intros tl fuel c p es ss n Hc Hw Hes Hu Hg Hrob Hf Hl.
  - simpl in Hl. injection Hl as <-. destruct fuel as [|fuel]; [simpl in Hf; lia|]. apply list.Forall_cons in Hu as [Hu _]. simpl in Hg.
    destruct (entry_drop [] q0 es0 es Hes) as (es' & Hlb & E' & _). rewrite E' in Hlb by done. destruct (Hone c l0 q0 es ss es0 Hc Hu ltac:(lia) Hlb) as (Eu & Ea & Hwp).
    cbn [squash_back]. rewrite Eu. cbn [rbind]. rewrite Ea. eapply wp_bind, wp_mono; [exact Hwp|]. intros c' (ss' & Hc' & R' & A' & G').
    rewrite (prev_head (mem c') q0 _ (whole_set_alike _ _ _ _ A' Hw)). cbn [rbind wp]. exists ss'. split; [done|]. split; [rewrite R'; simpl; by apply rob.drop_eff_ok|]. split; [done|simpl; lia].
  - rewrite app_comm_cons, last_snoc in Hl. injection Hl as <-. rewrite app_comm_cons in Hes, Hu. rewrite app_comm_cons, length_app in Hg |- *. simpl length in Hg |- *. rewrite length_app in Hf. simpl in Hf.
    destruct fuel as [|fuel]; [lia|]. apply list.Forall_app in Hu as [Hu Hur]. apply list.Forall_cons in Hur as [Hur _].
    destruct (entry_drop (q0 :: w) r es0 es Hes) as (es' & Hlb & _ & Hes'). specialize (Hes' ltac:(done)).
    assert (core k now Q gone infl pend c m ((l0 ++ q0 :: w) ++ [r]) es ss) as Hc2 by (by rewrite <- app_assoc).
    destruct (Hone c _ r es ss es' Hc2 Hur ltac:(lia) Hlb) as (Eu & Ea & Hwp).
    cbn [squash_back]. rewrite Eu. cbn [rbind]. rewrite Ea. eapply wp_bind, wp_mono; [exact Hwp|]. intros c' (ss' & Hc' & R' & A' & G').
    pose proof (whole_set_alike _ _ _ _ A' Hw) as Hw'. destruct (prev_member (mem c') q0 _ Hw' w r tl) as (q & Eq & Elast); [by rewrite <- app_assoc|]. rewrite Eq. cbn [rbind].
    eapply wp_mono; [eapply (IH (r :: tl) fuel c' q es' ss' (n - 1) Hc')|].
    + by rewrite <- app_assoc in Hw'.
    + done.
    + done.
    + simpl length. lia.
    + rewrite R'. by apply rob.drop_eff_ok.
    + lia.
    + done.
    + intros c2 (ss2 & Hc3 & R2 & A2 & G2). exists ss2. split; [done|]. simpl length in R2, G2. split; [|split; [by transitivity (mem c')|lia]].
      replace (n - Z.of_nat (S (length w) + 1)) with (n - 1 - Z.of_nat (S (length w))) by lia. done.
Qed.

(** ** The entries of the reorder buffer *)

(** The uops [l] are left.  The uops behind them of their last set have not been
    dispatched; there is an action id for each uop that may be squashed. *)
Record left_over (now : Z) (Q : list Z) (gone infl pend : list ptr) (c : t) (m : M) (l : list ptr) (es : list rs.entry) (ss : list lsq_inv.owners) : Prop := {
  lo_core : core k now Q gone infl pend c m l es ss;
  lo_rob : rob.ok (rob c) (sets (body (mem c)) l) (Z.of_nat (length l));
  lo_sub : sublist (members_of <$> es) (sets (body (mem c)) l);
  lo_alive : Forall (λ e, 1 ≤ rs.waiting (rs.e_uops e)) es;
  lo_rest : ∃ g2 B, infl ++ pend = l ++ g2 ++ B ∧ Forall (λ q, body (mem c) q = true) g2 ∧ (∀ q, head B = Some q → body (mem c) q = false) ∧
    Forall (λ p, (p ∉ l) ∧ pristine (get (mem c) p)) g2 ∧ gid c + Z.of_nat (length l) + Z.of_nat (length g2) < 2 ^ 64 - 2 ^ 32
}.

(** The last set and its entry. *)
Lemma last_set_entry es gs g : sublist (members_of <$> es) (gs ++ [g]) → Forall (λ p, p ∉ concat gs) g →
  ∃ es0, sublist (members_of <$> es0) gs ∧ entry_of_set g es0 es ∧ es0 `sublist_of` es.
Proof.
  intros (k1 & k2 & E & S1 & S2)%sublist_app_r Hg. apply fmap_app_inv in E as (es1 & es2 & -> & -> & ->).
  inversion S2 as [|? ? ? S3 E|? ? ? S3 E]; subst.
  - apply sublist_nil_r in S3. destruct es2 as [|[i le] es2]; [done|]. injection E as E1 E2. rewrite S3 in E2. destruct es2 as [|]; [|done].
    exists es1. split; [done|]. split; [|by apply sublist_inserts_r]. by apply last_entry.
  - apply sublist_nil_r in S3. apply fmap_nil_inv in S3 as ->. rewrite app_nil_r. exists es1. split; [done|]. split; [|done]. constructor.
    eapply list.Forall_impl; [exact Hg|]. intros p Hp Hin. apply Hp. by eapply members_in.
Qed.

Lemma squash_entry_ok now Q gone infl pend c (m : M) l es ss gs q0 g' : left_over now Q gone infl pend c m l es ss → sets (body (mem c)) l = gs ++ [q0 :: g'] →
  body (mem c) q0 = false → Forall (untouched (Q := Q) (gone := gone)) (q0 :: g') →
  wp (squash_entry c q0) (λ c', ∃ es' ss', left_over now Q gone infl pend c' m (concat gs) es' ss' ∧ alike (mem c) (mem c') ∧ gid c ≤ gid c').
Proof.
  intros [Hc Hrob Hsub Hal (g2 & B & Ew & Hg2 & HB & Hpr & Hg)] Es Hb0 Hu. pose proof (co_prog _ _ _ _ _ _ _ _ _ _ _ Hc) as Hp.
  destruct (sets_drop_last _ _ _ _ Es) as [El Egs]. pose proof (program_resplit _ _ _ _ _ _ l (g2 ++ B) Hp Ew) as Hpl.
  destruct (set_known Hpl gs (q0 :: g') [] Es) as (q0' & g0 & E0 & Hbo & _ & _ & _). injection E0 as <- <-.
  assert (whole_set (mem c) q0 (g' ++ g2)) as Hw.
  { apply (program_set Hpl (gone ++ concat gs) q0 (g' ++ g2) B); [rewrite El, <- !app_assoc; simpl; by rewrite <- !app_assoc|done|by apply list.Forall_app|done]. }
  pose proof (core_nodup _ Hc) as Hn. rewrite El in Hn. apply list.NoDup_app in Hn as (_ & Hn & Hnl).
  unfold squash_entry. pose proof (proj1 (list.Forall_forall _ _) (ws_live _ _ _ Hw) q0 ltac:(left)) as Hl0. pose proof Hl0 as E0. unfold live in E0. rewrite E0. cbn [rbind].
  destruct (dead_tail _ _ _ Hw _ E0) as (dead & Ed & Elast). rewrite Ed. cbn [rbind].
  destruct (list.last (q0 :: g')) as [p'|] eqn:El'; [|by apply last_None in El']. pose proof (ws_length _ _ _ Hw) as Hlen. simpl in Hlen. rewrite length_app in Hlen.
  rewrite Es in Hsub, Hrob. destruct (last_set_entry es gs (q0 :: g') Hsub) as (es0 & Hsub0 & Hes & Hse).
  { apply list.Forall_forall. intros x Hx Hin. by apply (Hn x). }
  assert (Z.of_nat (length l) = Z.of_nat (length (concat gs)) + Z.of_nat (length (q0 :: g'))) as Hll by (rewrite El, length_app; lia).
  eapply wp_bind. replace 65%nat with (65 - length g2 + length g2)%nat by lia.
  eapply (back_pristine _ _ _ _ _ m l es ss q0 g' g2 [] _ c dead p' _ Hc); [by rewrite app_nil_r|done|lia|done|done|].
  intros c1 Hc1 R1 A1 G1. rewrite <- R1 in Hrob.
  eapply wp_mono; [eapply (back_dispatched _ _ _ _ _ m q0 (concat gs) es0 _ g' g2 _ c1 p' es ss); [by rewrite <- El|by eapply whole_set_alike|exact Hes|done|lia|exact Hrob|lia|done]|].
  intros c2 (ss' & Hc2 & R2 & A2 & G2). assert (alike (mem c) (mem c2)) as A by by transitivity (mem c1).
  eapply wp_bind, wp_mono; [apply (rob.ROB_pop_back_ok _ _ _ _ R2); lia|]. intros x [Hx _]. cbn [wp]. exists es0, ss'. split; [|split; [done|simpl; lia]].
  assert (sets (body (mem c2)) (concat gs) = gs) as Egs2 by (by rewrite (sets_alike _ _ A)). split; simpl; rewrite ?Egs2.
  - destruct Hc2 as [C1 C2 C3 C4 C5 C6 C7 C8]. by split.
  - replace (Z.of_nat (length (concat gs))) with (Z.of_nat (length l) - Z.of_nat (length (q0 :: g'))) by lia. done.
  - done.
  - rewrite list.Forall_forall in Hal |- *. intros e He. apply Hal. by eapply elem_of_sublist.
  - exists [], ((q0 :: g') ++ g2 ++ B). split; [by rewrite Ew, El, <- !app_assoc|]. split; [constructor|]. split; [intros q [= <-]; by rewrite (body_alike _ _ A)|]. split; [constructor|]. simpl length in *. lia.
Qed.

(** The youngest entries, down to one of macro-op [i]. *)
Definition stays (i : option Z) (Q : list Z) (gone l : list ptr) : Prop :=
  match i with Some i => ∃ x, x ∈ l ∧ x.1 = i | None => gone = [] end.

Lemma recover_walk_ok i fuel : ∀ now Q gone infl pend c (m : M) l es ss, left_over now Q gone infl pend c m l es ss → stays i Q gone l →
  (length (sets (body (mem c)) l) ≤ fuel)%nat →
  wp (recover_loop fuel c i) (λ c', ∃ l' d es' ss', left_over now Q gone infl pend c' m l' es' ss' ∧ l = l' ++ d ∧ alike (mem c) (mem c') ∧ (d = [] → c' = c ∧ es' = es ∧ ss' = ss) ∧
    match i with
    | Some i => (∃ x, list.last l' = Some x ∧ x.1 = i) ∧ (∀ y, head d = Some y → y.1 ≠ i ∧ body (mem c) y = false)
    | None => l' = []
    end).
Proof.
  induction fuel as [|fuel IH]; intros now Q gone infl pend c m l es ss Hlo Hst Hf.
  all: pose proof Hlo as [Hc Hrob Hsub Hal (g2 & B & Ew & Hg2 & HB & Hpr & Hg)]; pose proof (co_prog _ _ _ _ _ _ _ _ _ _ _ Hc) as Hp;
    pose proof (program_resplit _ _ _ _ _ _ l (g2 ++ B) Hp Ew) as Hpl;
    cbn [recover_loop]; rewrite (rob.ROB_back_ok _ _ _ Hrob); cbn [rbind];
    (destruct (list.last (sets (body (mem c)) l)) as [g|] eqn:Eg; [apply last_Some in Eg as [gs Eg]|apply last_None in Eg]; [|]; cbn [mbind option_bind]).
  all: try (apply sets_nil in Eg; subst l; cbn [wp]; destruct i as [i|]; [destruct Hst as (x & Hx & _); by apply elem_of_nil in Hx|]; by exists [], [], es, ss).
  all: destruct (set_known Hpl gs g [] Eg) as (q0 & g' & -> & Hbo & _ & HM & _); simpl; destruct (sets_drop_last _ _ _ _ Eg) as [El Egs].
  all: destruct (decide (i = Some q0.1)) as [->|Hne];
    [cbn [wp]; exists l, [], es, ss; split; [done|]; split; [by rewrite app_nil_r|]; split; [done|]; split; [done|]; split; [|done];
     destruct (list.last (q0 :: g')) as [x|] eqn:Ex; [|by apply last_None in Ex]; exists x; split; [rewrite El; apply last_Some in Ex as [l0 ->]; by rewrite app_assoc, last_snoc|];
     apply last_Some_elem_of in Ex; apply elem_of_cons in Ex as [->|Ex]; [done|]; by apply (proj1 (list.Forall_forall _ _) HM)|].
  { exfalso. rewrite Eg, length_app in Hf. simpl in Hf. lia. }
  assert (∀ x, x ∈ l → i = Some x.1 → x ∈ concat gs) as Hx.
  { intros x Hx Ei. rewrite El in Hx. apply elem_of_app in Hx as [|Hx]; [done|]. exfalso. apply Hne. rewrite Ei. f_equal.
    apply elem_of_cons in Hx as [->|Hx]; [done|]. by apply (proj1 (list.Forall_forall _ _) HM). }
  assert (stays i Q gone (concat gs)) as Hst'.
  { destruct i as [i|]; [|done]. destruct Hst as (x & Hxl & Ei). exists x. split; [|done]. apply Hx; [done|by rewrite Ei]. }
  assert (body (mem c) q0 = false) as Hb0.
  { destruct gs as [|g0 gs].
    - destruct i as [i|]; [destruct Hst' as (x & Hx' & _); by apply elem_of_nil in Hx'|]. simpl in Hst. subst gone. simpl in El. subst l.
      apply (pr_first Hpl q0 (g' ++ g2 ++ B)). done.
    - by eapply (sets_heads (body (mem c)) l g0 (gs ++ [q0 :: g']) (q0 :: g') q0 g' Eg); [apply elem_of_app; right; left|]. }
  eapply wp_bind, wp_mono; [apply (squash_entry_ok _ _ _ _ _ _ _ _ _ _ _ _ _ Hlo Eg Hb0)|].
  { apply list.Forall_forall. intros p Hpg. destruct i as [i|]; [|intros ? ? _ _; exact Hst]. destruct Hst' as (x & Hxg & Ei).
    assert (p.1 = q0.1) as Ep by (apply elem_of_cons in Hpg as [->|Hpg]; [done|by apply (proj1 (list.Forall_forall _ _) HM)]).
    apply list_elem_of_split in Hpg as (a & b & E). apply (not_oldest k (mem c) Q gone l (g2 ++ B) (concat gs ++ a) x p (b ++ g2 ++ B) Hpl); [|by apply elem_of_app; left|congruence].
    rewrite El, E, <- !app_assoc. done. }
  intros c1 (es1 & ss1 & Hlo1 & A1 & G1). eapply wp_mono; [eapply (IH _ _ _ _ _ _ _ _ _ _ Hlo1 Hst')|].
  { rewrite (sets_alike _ _ A1), Egs. rewrite Eg, length_app in Hf. simpl in Hf. lia. }
  intros c2 (l' & d & es2 & ss2 & Hlo2 & Ed & A2 & _ & Hend). exists l', (d ++ q0 :: g'), es2, ss2. split; [done|]. split; [by rewrite El, Ed, <- app_assoc|].
  split; [by transitivity (mem c1)|]. split; [by destruct d|]. destruct i as [i|]; [|done]. destruct Hend as [Hend1 Hend2]. split; [done|].
  intros y Hy. destruct d as [|y' d].
  - injection Hy as <-. split; [congruence|done].
  - injection Hy as ->. destruct (Hend2 y eq_refl) as [Y1 Y2]. split; [done|]. by rewrite (body_alike _ _ A1) in Y2.
Qed.

(** ** The recovery *)

(** The macro-ops that are younger than [i] are cut off. *)
Lemma program_cut h Q1 i Q2 gone infl pend X Y infl' pend' : program k h (Q1 ++ i :: Q2) gone infl pend → infl ++ pend = X ++ Y →
  (∃ x, list.last X = Some x ∧ x.1 = i) → (∀ y, head Y = Some y → y.1 ≠ i) → infl' ++ pend' = X →
  program k h (Q1 ++ [i]) gone infl' pend' ∧ Forall (λ y, y.1 ∉ Q1 ++ [i]) Y.
Proof.
  intros Hp E (x & Hx & Hxi) HY EX. pose proof Hp as [P1 P2 P3 P4 P5]. rewrite E in P3, P5. change (i :: Q2) with ([i] ++ Q2) in P1, P2, P3. rewrite (app_assoc Q1) in P1, P2, P3.
  apply last_Some in Hx as [X0 EX0]. assert (gone ++ X = (Q1 ++ [i]) ≫= flow h) as Ecut.
  { rewrite bind_app, app_assoc in P3. apply app_eq_inv in P3 as [(m & E1 & E2)|(m & E1 & E2)].
    - destruct m as [|z m] using rev_ind; [by rewrite app_nil_r in E1|]. exfalso. rewrite EX0, !app_assoc in E1. apply app_inj_tail in E1 as [_ <-].
      assert (x ∈ Q2 ≫= flow h) as Hin by (rewrite E2, !elem_of_app; left; right; left). apply list_elem_of_bind in Hin as (j & Hj%flow_slot & HQ).
      apply list.NoDup_app in P1 as (_ & P1 & _). apply (P1 i); [apply elem_of_app; right; left|]. congruence.
    - destruct m as [|y m]; [by rewrite E1, app_nil_r|]. exfalso. rewrite E2 in HY, E. specialize (HY y eq_refl).
      assert (y ∈ (Q1 ++ [i]) ≫= flow h) as Hy by (rewrite E1, !elem_of_app; right; left). rewrite bind_app in Hy. simpl in Hy. rewrite app_nil_r in Hy.
      apply elem_of_app in Hy as [Hy|Hy]; [|by apply HY, (flow_slot h)].
      assert (seq_of h x < seq_of h y) as S1.
      { apply (pr_before Hp (gone ++ X) (y :: m ++ (Q2 ≫= flow h))); [by rewrite E, app_assoc|rewrite EX0, !elem_of_app; right; right; left|left]. }
      assert (seq_of h y < seq_of h x) as S2; [|lia].
      apply (pr_before Hp (Q1 ≫= flow h) ((i :: Q2) ≫= flow h)); [by rewrite <- bind_app, <- (pr_flow _ _ _ _ _ _ Hp)|done|].
      assert (x ∈ gone ++ infl ++ pend) as Hin by (rewrite E, EX0, !elem_of_app; right; left; right; left). destruct (pr_in Hp x Hin) as (_ & Hf & _).
      simpl. rewrite elem_of_app. left. by rewrite <- Hxi. }
  split; [|rewrite app_assoc, bind_app, Ecut in P3; apply app_inv_head in P3; apply list.Forall_forall; intros y Hy Hyi; rewrite P3 in Hy;
    apply list_elem_of_bind in Hy as (j & <-%flow_slot & Hj); apply list.NoDup_app in P1 as (_ & P1 & _); by apply (P1 y.1)].
  split.
  - by apply list.NoDup_app in P1 as (? & _ & _).
  - by apply list.Forall_app in P2 as [? _].
  - by rewrite EX.
  - by destruct Q1.
  - rewrite EX. rewrite app_assoc, fmap_app in P5. by apply StronglySorted_app_1_l in P5.
Qed.

Lemma core_drain now Q gone infl pend c (m : M) l es ss b : core k now Q gone infl pend c m l es ss → core k now Q gone infl pend (set_drain b c) m l es ss.
Proof. intros [C1 C2 C3 C4 C5 C6 C7 C8]. by split. Qed.

Lemma Mops_cut h now Q1 i Q2 gone : Mops_ok h now (Q1 ++ i :: Q2) gone → Mops_ok h now (Q1 ++ [i]) gone.
Proof.
  destruct Q1 as [|j Q1]; simpl; intros [Hm Hr]; (split; [done|]).
  - by intros j ?%elem_of_nil.
  - intros j' Hj. apply Hr. rewrite elem_of_app in Hj |- *. rewrite elem_of_cons. rewrite list_elem_of_singleton in Hj. tauto.
Qed.

(** The uops of [i] that are still to be dispatched stay. *)
Lemma span_Mop i (l : list ptr) : ∃ a b, l = a ++ b ∧ Forall (λ p, p.1 = i) a ∧ (∀ y, head b = Some y → y.1 ≠ i).
Proof.
  induction l as [|p l (a & b & -> & Ha & Hb)]; [by exists [], []|]. destruct (decide (p.1 = i)) as [Ei|Ei].
  - exists (p :: a), b. split; [done|]. split; [by constructor|done].
  - exists [], (p :: a ++ b). split; [done|]. split; [constructor|]. by intros y [= <-].
Qed.

(** The uops of the macro-ops that stay. *)
Definition keep (Q : list Z) (l : list ptr) : list ptr := filter (λ p, p.1 ∈ Q) l.

Lemma keep_app Q a b : Forall (λ p, p.1 ∈ Q) a → Forall (λ p, p.1 ∉ Q) b → keep Q (a ++ b) = a.
Proof.
  intros Ha Hb. induction Ha as [|p a Hp Ha IH]; simpl; unfold keep in *.
  - induction Hb as [|p b Hp Hb IH]; [done|]. by rewrite filter_cons_False.
  - rewrite filter_cons_True by done. f_equal. exact IH.
Qed.

Definition room_for_recovery (c : t) : Prop := gid c < 2 ^ 64 - 2 ^ 33.

Lemma inv_left_over now Q gone infl pend c (m : M) (e : Env) es ss : inv k now Q gone infl pend c m e es ss → room_for_recovery c →
  left_over now Q gone infl pend c m infl es ss ∧ (length (sets (body (mem c)) infl) ≤ Z.to_nat (rob.ROB_size (rob c)))%nat.
Proof.
  intros [Hc Hrob Hsh Hpe _ _ Hsm] Hg. pose proof (pr_length _ _ _ _ _ _ (co_prog _ _ _ _ _ _ _ _ _ _ _ Hc)) as Hlen. rewrite !length_app in Hlen. split.
  - destruct Hsh as [S1 S2 S3]. split; try done. destruct (body_prefix (mem c) pend) as (g2 & B & E & Hb & HB). exists g2, B. split; [by rewrite E|]. split; [done|]. split; [done|].
    assert (length g2 ≤ length pend)%nat by (rewrite E, length_app; lia). split; [|unfold room_for_recovery in Hg; lia].
    pose proof (pr_uniq (co_prog _ _ _ _ _ _ _ _ _ _ _ Hc)) as Hn. apply list.NoDup_app in Hn as (_ & _ & Hn). apply list.NoDup_app in Hn as (_ & Hn & _).
    rewrite E in Hpe, Hn. apply list.Forall_app in Hpe as [Hpe _]. rewrite list.Forall_forall in Hpe. apply list.Forall_forall. intros p Hp. split; [|by apply Hpe].
    intros Hin. apply (Hn p Hin). by apply elem_of_app; left.
  - pose proof (rob.rob_num _ _ _ Hrob) as Hnum. destruct (rob.ok_ring _ _ _ Hrob). lia.
Qed.

Lemma recover_to_ok now Q1 i Q2 gone infl pend c (m : M) (e e' : Env) es ss : inv k now (Q1 ++ i :: Q2) gone infl pend c m e es ss → room_for_recovery c →
  (∃ x, x ∈ infl ∧ x.1 = i) → ce_ok e' (Q1 ++ [i]) →
  wp (recover k c i) (λ c', ∃ es' ss', inv k now (Q1 ++ [i]) gone (keep (Q1 ++ [i]) infl) (keep (Q1 ++ [i]) pend) c' m e' es' ss').
Proof.
  intros Hi Hg Hx He'. destruct (inv_left_over _ _ _ _ _ _ _ _ _ _ Hi Hg) as [Hlo Hf]. pose proof Hi as [Hc Hrob Hsh Hpe He Hnow Hsm].
  unfold recover. pose proof (rob.rob_num _ _ _ Hrob) as Hnum. destruct Hx as (x & Hxin & Hxi).
  destruct (list.last (sets (body (mem c)) infl)) as [g|] eqn:Eg; [|apply last_None, sets_nil in Eg; subst infl; by apply elem_of_nil in Hxin].
  apply last_Some in Eg as [gs Eg]. rewrite Eg, length_app in Hnum. simpl in Hnum. destruct (Z.eqb_spec (rob.ROB_num (rob c)) 0) as [Hz|_]; [lia|].
  rewrite (rob.ROB_back_ok _ _ _ Hrob), Eg, last_snoc. cbn [rbind mbind option_bind]. destruct (set_known (co_prog _ _ _ _ _ _ _ _ _ _ _ Hc) _ _ _ Eg) as (q0 & g' & -> & _).
  change (list.head (q0 :: g')) with (Some q0). cbn [of_option rbind]. set (c0 := if drain_flush k && negb (q0.1 =? i) then set_drain true c else c).
  assert (mem c0 = mem c ∧ left_over now (Q1 ++ i :: Q2) gone infl pend c0 m infl es ss ∧ rob.ROB_size (rob c0) = rob.ROB_size (rob c)) as (M0 & Hlo0 & Ez).
  { unfold c0. destruct (_ && _); [|done]. split; [done|]. split; [|done]. destruct Hlo as [L1 L2 L3 L4 L5]. by split; [apply core_drain|..]. }
  clearbody c0. rewrite <- M0 in *. rewrite <- Ez in Hf.
  eapply wp_mono; [apply (recover_walk_ok (Some i) _ _ _ _ _ _ _ _ _ _ _ Hlo0); [by exists x|exact Hf]|].
  intros c' (l' & d & es' & ss' & Hlo' & Ed & A & Hd0 & (z & Hz & Hzi) & Hd). pose proof Hlo' as [Hc' Hrob' Hsub' Hal' _]. pose proof (co_prog _ _ _ _ _ _ _ _ _ _ _ Hc') as Hp'.
  assert (∃ pend' Y, infl ++ pend = (l' ++ pend') ++ Y ∧ pend' `prefix_of` pend ∧ (∃ z, list.last (l' ++ pend') = Some z ∧ z.1 = i) ∧ (∀ y, head Y = Some y → y.1 ≠ i) ∧ (d ≠ [] → pend' = [])) as (pend' & Y & EY & Hpre & Hlast & HY & Hdp).
  { destruct d as [|y d].
    - rewrite app_nil_r in Ed. subst l'. destruct (span_Mop i pend) as (a & b & -> & Ha & Hb). exists a, b. split; [by rewrite app_assoc|]. split; [by exists b|]. split; [|done].
      destruct a as [|a0 a] using rev_ind; [rewrite app_nil_r; by exists z|]. rewrite app_assoc, last_snoc. exists a0. split; [done|]. apply list.Forall_app in Ha as [_ Ha].
      by apply list.Forall_cons in Ha as [? _].
    - exists [], ((y :: d) ++ pend). rewrite app_nil_r. split; [by rewrite Ed, <- app_assoc|]. split; [by apply prefix_nil|]. split; [by exists z|]. split; [|done].
      intros y' [= <-]. by apply (Hd y). }
  destruct (program_cut _ _ _ _ _ _ _ _ _ l' pend' Hp' EY Hlast HY eq_refl) as [Hcut HYn].
  assert (Forall (λ p, p.1 ∈ Q1 ++ [i]) l' ∧ Forall (λ p, p.1 ∈ Q1 ++ [i]) pend') as [Hl1 Hl2].
  { split; apply list.Forall_forall; intros p Hpl; apply (pr_in Hcut p); rewrite !elem_of_app; tauto. }
  assert (keep (Q1 ++ [i]) infl = l' ∧ keep (Q1 ++ [i]) pend = pend') as [-> ->].
  { rewrite Ed, <- !app_assoc in EY. apply app_inv_head in EY. rewrite Ed. destruct d as [|y d].
    - simpl in EY. rewrite EY. by split; apply keep_app.
    - rewrite (Hdp ltac:(done)) in *. simpl app in EY at 2. rewrite <- EY in HYn. apply list.Forall_app in HYn as [HY1 HY2]. split; [by apply keep_app|]. by apply (keep_app _ []). }
  cbn [wp]. exists es', ss'. split; [|done| | |done|done|].
  - destruct Hc' as [C1 C2 C3 C4 C5 C6 C7 C8]. split; try done. by eapply Mops_cut.
  - split; [done|done|]. intros gs' g2 Eg' Ho Hn. destruct d as [|y d].
    + destruct (Hd0 eq_refl) as (-> & -> & ->). rewrite app_nil_r in Ed. subst l'. by apply (sh_open _ _ _ Hsh gs').
    + exfalso. destruct (Hd y eq_refl) as [_ Hby]. destruct Ho as (q & Hq & Hq1 & Hq2). apply last_Some in Hq as [g0 Eg0].
      destruct (sets_drop_last _ _ _ _ Eg') as [El' _]. assert (linked (mem c') q y) as Hlk.
      { apply (pr_linked Hp' (gone ++ concat gs' ++ g0) q y (d ++ pend)). rewrite Ed, El', Eg0, <- !app_assoc. done. }
      unfold linked in Hlk. rewrite (body_alike _ _ A), Hby in Hlk. by apply Hq2, Hlk.
  - destruct d as [|y d].
    + destruct (Hd0 eq_refl) as (-> & _). destruct Hpre as [? ->]. by apply list.Forall_app in Hpe as [? _].
    + rewrite Hdp by done. constructor.
  - rewrite !length_app in Hsm |- *. simpl in *. lia.
Qed.

(** Everything is squashed, the stores that have committed but not left included. *)
Lemma recover_all_ok now Q infl pend c (m : M) (e e' : Env) es ss : inv k now Q [] infl pend c m e es ss → room_for_recovery c → ce_ok e' [] →
  wp (recover_all c) (λ c', (∃ es' ss', inv k now [] [] [] [] c' m e' es' ss') ∧ rob.ROB_empty (rob c') = true ∧ lsq.STQ_empty (lsq.stores (lsq c')) = true).
Proof.
  intros Hi Hg He'. destruct (inv_left_over _ _ _ _ _ _ _ _ _ _ Hi Hg) as [Hlo Hf]. pose proof Hi as [Hc Hrob Hsh Hpe He Hnow Hsm]. pose proof (rob.rob_num _ _ _ Hrob) as Hnum.
  assert (wp (if 0 <? rob.ROB_num (rob c) then recover_loop (Z.to_nat (rob.ROB_size (rob c))) c None else Ok c)
    (λ c', ∃ es' ss', left_over now Q [] infl pend c' m [] es' ss')) as Hloop.
  { destruct (Z.ltb_spec 0 (rob.ROB_num (rob c))) as [_|Hz].
    - eapply wp_mono; [apply (recover_walk_ok None _ _ _ _ _ _ _ _ _ _ _ Hlo eq_refl Hf)|]. intros c' (l' & d & es' & ss' & Hlo' & _ & _ & _ & ->). eauto.
    - cbn [wp]. assert (infl = []) as ->; [|eauto]. apply (sets_nil (body (mem c))). destruct (sets (body (mem c)) infl); [done|simpl in Hnum; lia]. }
  unfold recover_all. eapply wp_bind, wp_mono; [exact Hloop|]. clear Hloop. intros c1 (es1 & ss1 & [Hc1 Hrob1 Hsub1 Hal1 (g2 & B & _ & _ & _ & _ & Hg1)]).
  destruct Hc1 as [C1 C2 C3 C4 C5 C6 C7 C8]. simpl in Hsub1, Hrob1, Hg1. apply sublist_nil_r in Hsub1. destruct es1; [|done].
  destruct C5 as [L1 L2 L3]. simpl in L1, L2, L3. destruct (lsq_inv.so_ring _ _ _ _ L2) as [Hz _ _ _ _].
  eapply wp_bind, wp_mono; [apply (lsq_ops.STQ_squash_senior_ok _ _ _ L2); lia|]. intros y (Y1 & Y2 & Y3 & Y4 & _). unfold recover_check_assertions. simpl.
  unfold lsq.STQ_empty in Y3. rewrite Y3. cbn [guard_or rbind]. pose proof (lsq_inv.so_len _ _ _ _ Y1) as Hlen. simpl in Hlen. rewrite <- Hlen. cbn [guard_or rbind Z.eqb].
  rewrite <- Y2 in L1. pose proof (lsq_inv.ldq_length _ _ L1) as Hll. simpl in Hll. rewrite <- Hll. cbn [guard_or rbind Z.eqb].
  destruct (rs.ok_num _ _ _ (se_ok _ _ _ _ _ _ C3)) as [-> _]. simpl. pose proof (rob.rob_num _ _ _ Hrob1) as Hrn. simpl in Hrn. rewrite Hrn. cbn [guard_or rbind Z.eqb wp].
  unfold rob.ROB_empty, lsq.STQ_empty. simpl. rewrite Hrn, Y3. split; [|done]. exists [], []. split; simpl; [|done| |constructor|done|done|lia].
  - split; simpl; try done. split; simpl; try done; constructor.
  - split; simpl; [done|constructor|]. intros gs g E. by destruct gs.
Qed.

End recover.
End back_recover.
