(* ===== verification/BackRun.v ===== *)
(** * BackRun: the back end in program order

    The stages behind decode run: macro-ops arrive, uops are dispatched and go to execution,
    the caches answer, uops commit, mispredicted branches and nukes recover, in any order.
    At any time all structures of the back end are the same list of uops in program order,
    and nothing that may happen next fails an assertion or leaves an array.

    At the end, a run: a load that is fused with an addition, and a store after it: they arrive, are dispatched
    and executed in part.  The theorems hold in the state that is reached. *)

From stdpp Require Import sorting.
From S2P Require Import Prelude Misc Memory CacheSet CacheHeap OracleDeps Uops RS LSQ LSQInv LSQOps LSQCommit LSQRun ROB Backend BackHeap BackInv BackLinks BackStations BackState BackDispatch BackExec BackCommit BackSquash BackRecover.

Module back_run.
Import uops backend back_heap order back_inv back_links back_stations back_shape back_state back_lsq back_facts back_dispatch back_exec back_complete back_commit back_step back_walk back_squash back_recover.

(** ** Events *)

Section run.
Context {M Env : Type} `{SA : lsq_run.StoreMemAnswers M} `{RL : !lsq_run.RepeaterLater M} `{CL : CommitEnvLaws Env}.
Variable k : knobs.

Local Abbreviation gid c := (lsq.global_action_id (lsq c)).

(** [w_env]: what the commit stage calls of the rest of the core. *)
Record world : Type := mk_world { w_now : Z; w_core : t; w_mem : M; w_env : Env }.

Inductive event : Type :=
  | fetch (i : Z) (e : Env)
  | allocate (p : ptr) (parents : list (option ptr))
  | execute (p : ptr)
  | write (h : heap)
  | set_address (p : ptr) (addr : Z)
  | set_data (p : ptr)
  | answer (n : nat)
  | commit (width : Z) (stuck : bool)
  | jeclear (i : Z) (e : Env)
  | nuke (e : Env)
  | tick.

(** The code; [fetch] and the recoveries of the other stages change [w_env]. *)
Definition code (ev : event) (w : world) : result world :=
  let '(mk_world now c m e) := w in
  let queues ev := let* r := lsq_run.code (DL1_rep_req k) (asid k) ev (lsq c, m) in Ok (mk_world now (set_lsq r.1.1 c) r.1.2 e) in
  match ev with
  | fetch _ e' => Ok (mk_world now c m e')
  | allocate p parents => let* r := dispatch k c p parents now in Ok (mk_world now r.1 m e)
  | execute p => let* c := go_to_ALU c p now in Ok (mk_world now c m e)
  | write h => Ok (mk_world now (set_mem h c) m e)
  | set_address p addr => queues (lsq_run.sta_exec p addr)
  | set_data p => queues (lsq_run.std_exec p)
  | answer n => queues (lsq_run.cache_answer n)
  | commit width stuck => let* '(c, m, e) := step k width stuck c m e now in Ok (mk_world now c m e)
  | jeclear i e' => let* c := recover k c i in Ok (mk_world now c m e')
  | nuke e' => let* c := recover_all c in Ok (mk_world now c m e')
  | tick => Ok (mk_world (now + 1) c m e)
  end.

(** *** Program order *)

Fixpoint up_to (i : Z) (Q : list Z) : list Z :=
  match Q with [] => [] | j :: Q => if decide (j = i) then [j] else j :: up_to i Q end.

Lemma up_to_split i Q1 Q2 : NoDup (Q1 ++ i :: Q2) → up_to i (Q1 ++ i :: Q2) = Q1 ++ [i].
Proof.
  induction Q1 as [|j Q1 IH]; simpl; [by rewrite decide_True|]. intros [Hj Hn]%list.NoDup_cons. rewrite decide_False; [by rewrite IH|].
  intros ->. apply Hj, elem_of_app. right. left.
Qed.

(** How many uops have come or gone. *)
Definition moved (c c' : t) : nat := Z.to_nat (Z.abs (rob.ROB_eff_num (rob c') - rob.ROB_eff_num (rob c))).

Definition after (a : in_order) (ev : event) (c c' : t) : in_order :=
  match ev with
  | fetch i _ => mk_order (o_Mops a ++ [i]) (o_gone a) (o_infl a) (o_pend a ++ flow (mem c) i)
  | allocate p _ => mk_order (o_Mops a) (o_gone a) (o_infl a ++ take (moved c c') (o_pend a)) (drop (moved c c') (o_pend a))
  | commit _ _ => retire_uops (moved c c') (mem c) a
  | jeclear i _ => let Q := up_to i (o_Mops a) in mk_order Q (o_gone a) (keep Q (o_infl a)) (keep Q (o_pend a))
  | nuke _ => mk_order [] [] [] []
  | execute _ | write _ | set_address _ _ | set_data _ | answer _ | tick => a
  end.

(** A macro-op that comes from the decoders: it is younger than those in flight. *)
Record arrives (now : Z) (a : in_order) (h : heap) (i : Z) : Prop := {
  ar_new : i ∉ o_Mops a;
  ar_flow : flow_wf k h i;
  ar_pristine : Forall (λ p, pristine (get h p)) (flow h i);
  ar_sorted : Sorted.StronglySorted Z.lt (seq_of h <$> flow h i);
  ar_younger : ∀ p q, p ∈ o_gone a ++ o_infl a ++ o_pend a → q ∈ flow h i → seq_of h p < seq_of h q;
  ar_Mop : ∃ mo, Mop_ok h now i [] mo;
  ar_room : 64 * Z.of_nat (S (length (o_Mops a))) < 2 ^ 31 - 1
}.

(** What may happen next.  The next uop is dispatched, its parents are in flight;
    a uop goes to execution when its fused set has been dispatched as a whole. *)
Inductive enabled (w : world) (a : in_order) : event → Prop :=
  | en_fetch i e : arrives (w_now w) a (mem (w_core w)) i → ce_ok e (o_Mops a ++ [i]) → enabled w a (fetch i e)
  | en_allocate p pend parents : o_pend a = p :: pend → Z.of_nat (length parents) = MAX_IDEPS → (∀ q, Some q ∈ parents → q ∈ o_infl a) → enabled w a (allocate p parents)
  | en_execute p g : p ∈ g → g ∈ sets (body (mem (w_core w))) (o_infl a) → ¬ open (mem (w_core w)) g → needs (mem (w_core w)) p = true →
      exec_at (mem (w_core w)) p = TICK_T_MAX → enabled w a (execute p)
  | en_write h : writes (w_now w) (o_infl a) (mem (w_core w)) h → enabled w a (write h)
  | en_address p addr : p ∈ o_infl a → is_sta (D (mem (w_core w)) p) = true → enabled w a (set_address p addr)
  | en_data p : p ∈ o_infl a → is_std (D (mem (w_core w)) p) = true → enabled w a (set_data p)
  | en_answer n : enabled w a (answer n)
  | en_commit width stuck : 0 ≤ width < 2 ^ 31 → shadowed (mem (w_core w)) (w_now w) (o_Mops a) → enabled w a (commit width stuck)
  | en_jeclear i e : (∃ p, p ∈ o_infl a ∧ p.1 = i) → ce_ok e (up_to i (o_Mops a)) → enabled w a (jeclear i e)
  | en_nuke e : o_gone a = [] → ce_ok e [] → enabled w a (nuke e)
  | en_tick : w_now w + 1 < TICK_T_MAX → enabled w a tick.

(** The action ids have not run out. *)
Definition ids_remain (w : world) : Prop := gid (w_core w) < 2 ^ 64 - 2 ^ 34.

Definition whole (w : world) (a : in_order) : Prop := holds k (w_now w) a (w_core w) (w_mem w) (w_env w).

(** *** Every event *)

Lemma fetch_ok now a c m e i e' : holds k now a c m e → arrives now a (mem c) i → ce_ok e' (o_Mops a ++ [i]) →
  holds k now (mk_order (o_Mops a ++ [i]) (o_gone a) (o_infl a) (o_pend a ++ flow (mem c) i)) c m e'.
Proof.
  intros (es & ss & [I1 I2 I3 I4 I5 I6 I7]) [A1 A2 A3 A4 A5 (mo & A6) A7] He. exists es, ss. destruct I1 as [C1 C2 C3 C4 C5 C6 C7 C8].
  destruct a as [Q gone infl pend]. simpl in *. destruct C1 as [P1 P2 P3 P4 P5]. split; simpl; try done.
  - split; try done.
    + split.
      * apply list.NoDup_app. split; [done|]. split; [by intros j Hj ->%list_elem_of_singleton|]. apply NoDup_singleton.
      * apply list.Forall_app. split; [done|]. by constructor.
      * rewrite bind_app. simpl. by rewrite app_nil_r, <- P3, <- !app_assoc.
      * destruct Q as [|j Q]; [|done]. subst gone. simpl. pose proof (fw_length _ _ _ A2) as Hl. destruct (flow (mem c) i) as [|p f]; [simpl in Hl; lia|]. by exists p, f.
      * rewrite !app_assoc, fmap_app. apply StronglySorted_app. split; [|split; [by rewrite <- app_assoc|done]].
        intros x y (p & -> & Hp)%list_elem_of_fmap (q & -> & Hq)%list_elem_of_fmap. apply A5; [by rewrite app_assoc|done].
    + destruct Q as [|j Q]; simpl.
      * subst gone. split; [by exists mo|]. by intros j ?%elem_of_nil.
      * destruct C7 as [C7 C7']. split; [done|]. intros j' [Hj| ->%list_elem_of_singleton]%elem_of_app; [by apply C7'|by exists mo].
  - apply list.Forall_app. done.
  - rewrite length_app. simpl. lia.
Qed.

Lemma alloc_event_ok now a c m e p pend parents : holds k now a c m e → o_pend a = p :: pend → Z.of_nat (length parents) = MAX_IDEPS →
  (∀ q, Some q ∈ parents → q ∈ o_infl a) → gid c < 2 ^ 64 - 2 ^ 34 →
  wp (dispatch k c p parents now) (λ r, holds k now (after a (allocate p parents) c r.1) r.1 m e).
Proof.
  intros (es & ss & Hi) Ep Hl Hpar Hg. rewrite Ep in Hi. eapply wp_mono; [apply (dispatch_uop_ok k _ _ _ _ _ _ _ _ _ _ _ _ Hi); [unfold ids_left; lia|done|done]|].
  intros [c' [r|]]; simpl; unfold moved.
  - intros ->. rewrite Z.sub_diag. simpl. rewrite app_nil_r. exists es, ss. simpl. by rewrite Ep.
  - intros (es' & ss' & Hi'). pose proof (rob.ok_eff _ _ _ (in_rob _ _ _ _ _ _ _ _ _ _ _ Hi)) as E1. pose proof (rob.ok_eff _ _ _ (in_rob _ _ _ _ _ _ _ _ _ _ _ Hi')) as E2.
    rewrite E1, E2, length_app, Ep. simpl. replace (Z.to_nat _) with 1%nat by lia. simpl. by exists es', ss'.
Qed.

Lemma waits now Q gone infl pend c (m : M) (e : Env) es ss p : inv k now Q gone infl pend c m e es ss → p ∈ infl → needs (mem c) p = true →
  exec_at (mem c) p = TICK_T_MAX → p ∈ waiting es.
Proof.
  intros Hi Hp Hn Hx. destruct (seated_exec (co_seated _ _ _ _ _ _ _ _ _ _ _ (in_core _ _ _ _ _ _ _ _ _ _ _ Hi)) p Hp) as [_ X2 _].
  destruct (X2 Hn) as (_ & Y2 & _). by apply Y2.
Qed.

(** The entry of a store. *)
Lemma store_owner h infl ss p : stores_ok h infl ss → uop_wf k h p → p ∈ infl →
  (is_sta (D h p) = true → ∃ j d, ss !! j = Some (Some p, d)) ∧ (is_std (D h p) = true → ∃ j b, ss !! j = Some (b, Some p)).
Proof.
  intros [S1 S2 S3] Hw Hp. assert (is_sta (D h p) || is_std (D h p) = true → ∃ j b d, ss !! j = Some (b, d) ∧ owner_ok h (b, d) ∧ (b = Some p ∨ d = Some p)) as Hex.
  { intros Hs. assert (p ∈ lsq_inv.ptrs ss) as Hin.
    { rewrite S1. apply list_elem_of_filter. split; [|done]. unfold is_st. by rewrite Hs. }
    unfold lsq_inv.ptrs in Hin. apply list_elem_of_bind in Hin as ([b d] & Hbd & Ho). apply list_elem_of_lookup in Ho as Hj. destruct Hj as (j & Hj).
    exists j, b, d. split; [done|]. split; [by apply (proj1 (list.Forall_forall _ _) S2)|]. apply elem_of_app in Hbd as [Hb|Hb]; [left; destruct b|right; destruct d]; simpl in Hb;
      try (by apply elem_of_nil in Hb); by apply list_elem_of_singleton in Hb as ->. }
  split; intros Hs; destruct Hex as (j & b & d & Hj & Ho & Hbd); rewrite ?Hs, ?orb_true_r; try done.
  - destruct Hbd as [->| ->]; [eauto|]. exfalso. apply owner_std in Ho. destruct (uw_st _ _ _ Hw Hs). congruence.
  - destruct Hbd as [->| ->]; [|eauto]. exfalso. destruct d as [d|]; simpl in Ho.
    + destruct Ho as [Ho _]. destruct (uw_st _ _ _ Hw Ho). congruence.
    + destruct Ho as [Ho|Ho]; [destruct (uw_st _ _ _ Hw Ho); congruence|]. pose proof (uw_std _ _ _ Hw Hs). congruence.
Qed.

Lemma queues_ok now a c m e ev : holds k now a c m e → gid c < 2 ^ 64 - 2 ^ 34 →
  (∀ ss, stores_ok (mem c) (o_infl a) ss → lsq_run.enabled (lsq_run.mk_lists (loads_of (mem c) (o_infl a)) ss) ev ∧
    ∀ b, lsq_run.after (lsq_run.mk_lists (loads_of (mem c) (o_infl a)) ss) ev b = lsq_run.mk_lists (loads_of (mem c) (o_infl a)) ss) →
  wp (lsq_run.code (DL1_rep_req k) (asid k) ev (lsq c, m)) (λ r, holds k now a (set_lsq r.1.1 c) r.1.2 e).
Proof.
  intros (es & ss & Hi) Hg Hev. pose proof (in_core _ _ _ _ _ _ _ _ _ _ _ Hi) as Hc. destruct (Hev ss) as [Hen Haf]; [apply Hc|].
  eapply wp_mono; [apply (one_step (mem c) c m (o_infl a) ss (co_lsq _ _ _ _ _ _ _ _ _ _ _ Hc) ltac:(lia) (DL1_rep_req k) (asid k) ev Hen)|].
  intros [[y m'] b] [Hm _]. rewrite Haf in Hm. exists es, ss. eapply inv_lsq; [exact Hi|exact Hm|apply Hc].
Qed.

Lemma back_event_ok w a ev : whole w a → enabled w a ev → ids_remain w → wp (code ev w) (λ w', whole w' (after a ev (w_core w) (w_core w'))).
Proof.
  destruct w as [now c m e]. unfold whole, ids_remain. simpl. intros Hh He Hg. pose proof Hh as (es & ss & Hi). pose proof (in_core _ _ _ _ _ _ _ _ _ _ _ Hi) as Hc.
  destruct He as [i e' Ha He|p pend parents Ep Hl Hpar|p g Hpg Hgs Ho Hn Hx|h Hw|p addr Hp Hs|p Hp Hs|n|width stuck Hwd Hsh|i e' (p & Hp & Ei) He|e' Hgone He|Ht]; simpl in *.
  - by apply (fetch_ok now a c m e).
  - eapply wp_bind, wp_mono; [by apply (alloc_event_ok now a c m e p pend parents)|]. by intros r.
  - assert (p ∈ o_infl a) as Hp. { rewrite <- (sets_concat (body (mem c)) (o_infl a)). apply elem_of_concat. eauto. }
    eapply wp_bind, wp_mono; [apply (execute_ok k _ _ _ _ _ _ _ _ _ _ p g Hi); [by eapply waits|done..]|]. intros c' (es' & Hi'). by exists es', ss.
  - exists es, ss. by apply writes_ok.
  - eapply wp_bind, wp_mono; [apply (queues_ok now a c m e (lsq_run.sta_exec p addr)); [done|done|]|by intros r]. intros ss' Hss.
    destruct (store_owner _ _ _ p Hss (core_wf _ Hc p Hp) Hp) as [(j & d & Hj) _]; [done|]. split; [by eapply lsq_run.en_sta_exec|done].
  - eapply wp_bind, wp_mono; [apply (queues_ok now a c m e (lsq_run.std_exec p)); [done|done|]|by intros r]. intros ss' Hss.
    destruct (store_owner _ _ _ p Hss (core_wf _ Hc p Hp) Hp) as [_ (j & d & Hj)]; [done|]. split; [by eapply lsq_run.en_std_exec|done].
  - eapply wp_bind, wp_mono; [apply (queues_ok now a c m e (lsq_run.cache_answer n)); [done|done|]|by intros r]. intros ss' Hss. split; [by constructor|done].
  - eapply wp_bind, wp_mono; [by apply (commit_cycle_ok k now a c m e width stuck)|]. intros [[c' m'] e'] (n & Hh' & En). cbn [wp]. simpl.
    assert (moved c c' = n) as ->; [|done]. pose proof Hh' as (es' & ss' & Hi'). unfold moved.
    rewrite (rob.ok_eff _ _ _ (in_rob _ _ _ _ _ _ _ _ _ _ _ Hi)), (rob.ok_eff _ _ _ (in_rob _ _ _ _ _ _ _ _ _ _ _ Hi')). lia.
  - pose proof (co_prog _ _ _ _ _ _ _ _ _ _ _ Hc) as Hpr. destruct (pr_in Hpr p) as (HQ & _); [rewrite !elem_of_app; tauto|]. rewrite Ei in HQ.
    apply list_elem_of_split in HQ as (Q1 & Q2 & EQ). pose proof (pr_nodup _ _ _ _ _ _ Hpr) as HnQ. rewrite EQ in HnQ, Hi, He |- *. rewrite (up_to_split _ _ _ HnQ) in He |- *.
    eapply wp_bind, wp_mono; [apply (recover_to_ok k _ _ _ _ _ _ _ _ _ _ e' _ _ Hi); [unfold room_for_recovery; lia|by exists p|exact He]|]. done.
  - rewrite Hgone in Hi. eapply wp_bind, wp_mono; [apply (recover_all_ok k _ _ _ _ _ _ _ e' _ _ Hi); [unfold room_for_recovery; lia|exact He]|]. by intros c' [? _].
  - exists es, ss. by apply tick_ok.
Qed.

(** *** Reachable states *)

Record sizes : Type := mk_sizes { z_ROB : Z; z_RS : Z; z_LDQ : Z; z_STQ : Z }.
Definition sizes_ok (z : sizes) : Prop := 1 ≤ z_ROB z < 2 ^ 31 ∧ 1 ≤ z_RS z < 2 ^ 31 ∧ 1 ≤ z_LDQ z < 2 ^ 31 ∧ 1 ≤ z_STQ z < 2 ^ 31 ∧ 0 ≤ num_exec_ports k.

(** [h]: the macro-ops of the program, as the decoders will hand them over. *)
Definition start (h : heap) (z : sizes) (m : M) (e : Env) : world :=
  mk_world 0 (mk h (rob.create (z_ROB z)) (rs.create (z_RS z)) (lsq.create (z_LDQ z) (z_STQ z))
    (replicate (Z.to_nat (num_exec_ports k)) []) (replicate (Z.to_nat (num_exec_ports k)) 0) false) m e.

Definition no_uops : in_order := mk_order [] [] [] [].

Lemma back_start_ok h z m e : sizes_ok z → lsq_commit.mem_ok m → lsq_commit.unanswered m = [] → ce_ok e [] → whole (start h z m e) no_uops.
Proof.
  intros (Hr & Hs & Hl & Ht & Hk) Hm Hu He. exists [], []. split; simpl; try done.
  - split; simpl; try done.
    + split; try done; constructor.
    + split; simpl; [by apply rs.rs_create_ok|by intros p ?%elem_of_nil|done| |].
      * rewrite length_replicate. lia.
      * intros port n G. apply aget_inv in G as [_ G]. by apply lookup_replicate in G as [-> _].
    + split; simpl; [by apply lsq_inv.ldq_create_ok|rewrite Hu; by apply lsq_inv.stq_create_ok|done].
    + rewrite length_replicate. lia.
  - by apply rob.rob_create_ok.
  - split; [done|constructor|by intros [|]].
Qed.

Inductive reach (w0 : world) : world → in_order → Prop :=
  | reach_start : reach w0 w0 no_uops
  | reach_event w a ev w' : reach w0 w a → enabled w a ev → ids_remain w → code ev w = Ok w' → reach w0 w' (after a ev (w_core w) (w_core w')).

Lemma reach_whole w0 w a : whole w0 no_uops → reach w0 w a → whole w a.
Proof.
  intros H0' Hr. induction Hr as [|w a ev w' Hr IH He Hg E]; [done|]. pose proof (back_event_ok w a ev IH He Hg) as Hw. by rewrite E in Hw.
Qed.

(** ** What the structures say *)

(** All structures are read off the uops in flight: an entry of the reorder buffer for each
    fused set, the loads and the stores in the queues, an entry of the reservation stations
    for some of the sets, and each port counts the uops bound to it that wait. *)
Record read_off (c : t) (a : in_order) : Prop := {
  ro_flow : o_gone a ++ o_infl a ++ o_pend a = o_Mops a ≫= flow (mem c);
  ro_ROB : ring.window (rob.ROB (rob c)) (rob.ROB_size (rob c)) (rob.ROB_head (rob c)) (rob.ROB_num (rob c)) = head <$> sets (body (mem c)) (o_infl a);
  ro_eff : rob.ROB_eff_num (rob c) = Z.of_nat (length (o_infl a));
  ro_LDQ : let q := lsq.loads (lsq c) in
    lsq.l_uop <$> ring.window (lsq.LDQ q) (lsq.LDQ_size q) (lsq.LDQ_head q) (lsq.LDQ_num q) = Some <$> loads_of (mem c) (o_infl a);
  ro_STQ : let s := lsq.stores (lsq c) in
    lsq_inv.ptrs ((λ e, (lsq.sta e, lsq.std e)) <$> ring.window (lsq.STQ s) (lsq.STQ_size s) (lsq.STQ_head s) (lsq.STQ_num s)) = stores_in (mem c) (o_infl a);
  ro_RS : ∃ es, rs.ok (D (mem c)) (res c) es ∧ sublist (members_of <$> es) (sets (body (mem c)) (o_infl a)) ∧
    ∀ port n, aget (port_loading c) port = Ok n → n = Z.of_nat (length (filter (λ p, port_of (mem c) p = port) (waiting es)))
}.

Lemma whole_read_off w a : whole w a → read_off (w_core w) a.
Proof.
  intros (es & ss & [I1 I2 I3 I4 I5 I6 I7]). destruct I1 as [C1 C2 C3 C4 [L1 L2 L3] [S1 S2 S3] C7 C8]. simpl in L1, L2. split.
  - apply C1.
  - apply I2.
  - apply I2.
  - apply L1.
  - simpl. erewrite lsq_run.main_window by exact L2. exact S1.
  - exists es. split; [apply C3|]. split; [apply I3|]. apply C3.
Qed.

Lemma holds_read_off now a c m e : holds k now a c m e → read_off c a.
Proof. exact (λ H, whole_read_off (mk_world now c m e) a H). Qed.

(** C2. Whatever sequence of arriving macro-ops, allocations, executions, answers of the
    caches, commit cycles, recoveries from mispredicted branches and nukes has led to a
    state: the reorder buffer, the load and store queues, the reservation stations and the
    counters of the ports are all read off one list of uops in program order, which the
    allocation extends at the young end and the commit shortens at the old end; and nothing
    that may happen next fails an assertion, leaves an array or does not end.  As in all
    runs here, a memory repeater, where there is one, answers after its enqueue has returned. *)
Theorem backend_in_program_order z h m e w a : sizes_ok z → lsq_commit.mem_ok m → lsq_commit.unanswered m = [] → ce_ok e [] → reach (start h z m e) w a →
  read_off (w_core w) a ∧ ∀ ev, enabled w a ev → ids_remain w → ∃ w', code ev w = Ok w'.
Proof.
  intros Hz Hm Hu He Hr. pose proof (reach_whole _ _ _ (back_start_ok h z m e Hz Hm Hu He) Hr) as Hw. split; [by apply whole_read_off|].
  intros ev Hev Hg. pose proof (back_event_ok w a ev Hw Hev Hg) as Hwp. apply wp_exists in Hwp as (w' & E & _). eauto.
Qed.

(** C3. The recovery from a mispredicted branch (commit-DPM.cpp's recover) ends without a
    failed assertion, and what is left in every structure are exactly the uops of the
    branch and of the older macro-ops, those of its own flow that are still to be
    dispatched included. *)
Theorem jeclear_squashes_younger z h m e w a i e' : sizes_ok z → lsq_commit.mem_ok m → lsq_commit.unanswered m = [] → ce_ok e [] → reach (start h z m e) w a →
  (∃ p, p ∈ o_infl a ∧ p.1 = i) → ce_ok e' (up_to i (o_Mops a)) → ids_remain w →
  wp (recover k (w_core w) i) (λ c', let Q := up_to i (o_Mops a) in read_off c' (mk_order Q (o_gone a) (keep Q (o_infl a)) (keep Q (o_pend a)))).
Proof.
  intros Hz Hm Hu He Hr Hx He' Hg. pose proof (reach_whole _ _ _ (back_start_ok h z m e Hz Hm Hu He) Hr) as Hw.
  pose proof (back_event_ok w a (jeclear i e') Hw (en_jeclear _ _ _ _ Hx He') Hg) as Hwp. destruct w as [now c m' e2]. apply wp_bind_inv in Hwp.
  eapply wp_mono; [exact Hwp|]. intros c'. by apply holds_read_off.
Qed.

(** C4. A cycle of the commit stage ends without a failed assertion, also while uops of a
    wrong path are in flight behind their branch; what leaves are the oldest [n] uops, in
    program order, and every structure holds the others. *)
Theorem commit_retires_oldest z h m e w a width stuck : sizes_ok z → lsq_commit.mem_ok m → lsq_commit.unanswered m = [] → ce_ok e [] → reach (start h z m e) w a →
  0 ≤ width < 2 ^ 31 → shadowed (mem (w_core w)) (w_now w) (o_Mops a) → ids_remain w →
  wp (step k width stuck (w_core w) (w_mem w) (w_env w) (w_now w)) (λ r, let '(c', _, _) := r in
    ∃ n, let a' := retire_uops n (mem (w_core w)) a in o_infl a' = drop n (o_infl a) ∧ read_off c' a').
Proof.
  intros Hz Hm Hu He Hr Hwd Hsh Hg. pose proof (reach_whole _ _ _ (back_start_ok h z m e Hz Hm Hu He) Hr) as Hw.
  eapply wp_mono; [apply (commit_cycle_ok k _ a _ _ _ width stuck Hw Hsh Hwd Hg)|]. intros [[c' m'] e'] (n & Hh & En). exists n. split; [by apply retire_uops_drop|]. by eapply holds_read_off.
Qed.

(** C10. A nuke (commit-DPM.cpp's recover without a macro-op) between two macro-ops ends
    without a failed assertion: every structure is empty, and no store that had committed
    is left waiting for the caches. *)
Theorem nuke_empties z h m e w a : sizes_ok z → lsq_commit.mem_ok m → lsq_commit.unanswered m = [] → ce_ok e [] → reach (start h z m e) w a →
  o_gone a = [] → ids_remain w →
  wp (recover_all (w_core w)) (λ c', read_off c' no_uops ∧ rob.ROB_empty (rob c') = true ∧ lsq.STQ_empty (lsq.stores (lsq c')) = true).
Proof.
  intros Hz Hm Hu He Hr Hgone Hg. pose proof (reach_whole _ _ _ (back_start_ok h z m e Hz Hm Hu He) Hr) as (es & ss & Hi). rewrite Hgone in Hi.
  unfold ids_remain in Hg. eapply wp_mono; [apply (recover_all_ok k _ _ _ _ _ _ _ e _ _ Hi); [unfold room_for_recovery; lia|done]|].
  intros c' (Hh & Hx). split; [|done]. by apply (holds_read_off (w_now w) no_uops c' (w_mem w) e).
Qed.

End run.
End back_run.

Module back_demo.
Import uops backend back_heap order back_inv back_state back_lsq back_commit back_step back_recover back_run.

(** ** The rest of the core *)

(** The commit stage is told the macro-ops in flight, and checks that they commit in order. *)
#[export] Instance list_env : CommitEnv (list Z) := {
  ce_bpred_update e _ i := if decide (head e = Some i) then Ok e else Fault AssertFail;
  ce_commit_uop e p := if decide (head e = Some p.1) then Ok e else Fault AssertFail;
  ce_commit e i := match e with j :: e' => if decide (j = i) then Ok e' else Fault AssertFail | [] => Fault AssertFail end
}.

#[export, refine] Instance list_env_laws : CommitEnvLaws (list Z) := { ce_ok e Q := e = Q }.
Proof.
  - intros e h i Q ->. simpl. by rewrite decide_True.
  - intros e p Q ->. simpl. by rewrite decide_True.
  - intros e i Q ->. simpl. by rewrite decide_True.
Defined.

(** ** The program *)

Definition demo_knobs : knobs := mk_knobs (λ _, [0]) 1 false 0 true 0.

Definition demo_uop (ld a d : bool) (seq : Z) (fused fhead : bool) (fh fn : option ptr) : uop :=
  new_uop (mk_decode false [] [] 8 true true false ld a d false false false false seq seq 0 fused fhead 2 fh fn) (mk_oracle 8192 [] false false).

Definition demo_Mop (l : list uop) : Mop :=
  mk_Mop (mk_M_fetch 0 0 0 4 None) (mk_M_decode 2 1 0 false false false false 0) l (mk_M_commit 0 0 false) (mk_M_oracle 0 0 false false false)
    (mk_M_timing 0 0 TICK_T_MAX TICK_T_MAX TICK_T_MAX TICK_T_MAX TICK_T_MAX) (mk_M_stat 2 2 1 1 0).

Definition demo_heap : heap :=
  [demo_Mop [demo_uop true false false 1 true true (Some (0, 0)) (Some (0, 1)); demo_uop false false false 2 true false (Some (0, 0)) None];
   demo_Mop [demo_uop false true false 3 false false None None; demo_uop false false true 4 false false None None]].

(** A flow of two uops. *)
Lemma pair_split {A} (x y : A) l1 p q l2 : [x; y] = l1 ++ p :: q :: l2 → p = x ∧ q = y.
Proof. destruct l1 as [|? [|? [|]]]; simpl; intros E; by simplify_eq. Qed.

Lemma pair_at {A} (x y : A) l1 p l2 : [x; y] = l1 ++ p :: l2 → (l1 = [] ∧ p = x ∧ l2 = [y]) ∨ (l1 = [x] ∧ p = y ∧ l2 = []).
Proof. destruct l1 as [|? [|? [|]]]; simpl; intros E; simplify_eq; auto. Qed.

Lemma demo_uop_wf p : p ∈ [(0, 0); (0, 1); (1, 0); (1, 1)] → uop_wf demo_knobs demo_heap p.
Proof.
  intros Hp. repeat (apply elem_of_cons in Hp as [->|Hp]; [split; try done; vm_compute; try done; split; try done; by repeat constructor|]). by apply elem_of_nil in Hp.
Qed.

Lemma demo_flow_wf i : i ∈ [0; 1] → flow_wf demo_knobs demo_heap i.
Proof.
  intros Hi. assert (∃ x y, flow demo_heap i = [x; y] ∧ x ∈ [(0, 0); (0, 1); (1, 0); (1, 1)] ∧ y ∈ [(0, 0); (0, 1); (1, 0); (1, 1)] ∧ body demo_heap x = false ∧ linked demo_heap x y ∧
    fusion_next (D demo_heap y) = None ∧ EOM (D demo_heap y) = true ∧ is_std (D demo_heap x) = false ∧ is_sta (D demo_heap y) = false ∧
    (is_std (D demo_heap y) = true → filter (λ p, is_st demo_heap p = true) [x] = [x] ∧ is_sta (D demo_heap x) = true) ∧
    (is_sta (D demo_heap x) = true → filter (λ p, is_st demo_heap p = true) [y] = [y] ∧ is_std (D demo_heap y) = true) ∧ is_Some (Mstat demo_heap i)) as (x & y & E & Hx & Hy & F1 & F2 & F3 & F4 & F5 & F6 & F7 & F8 & F9).
  { repeat (apply elem_of_cons in Hi as [->|Hi]; [do 2 eexists; split; [vm_compute; reflexivity|]|]); [..|by apply elem_of_nil in Hi].
    all: do 2 (split; [apply (bool_decide_eq_true_1 _); vm_compute; reflexivity|]); vm_compute; repeat split; try done; try (intros; done); by eexists. }
  split; rewrite ?E; try done.
  - by repeat (constructor; [by apply demo_uop_wf|]).
  - simpl. lia.
  - by intros p l [= <- _].
  - intros l1 p q l2 E'. by destruct (pair_split _ _ _ _ _ _ E') as [-> ->].
  - intros l p E'. destruct (pair_at x y l p []) as [(_ & _ & Hl)|(_ & -> & _)]; [done|done|]. by rewrite F3.
  - intros d o l p _ _ E'. by destruct (pair_at x y l p []) as [(_ & _ & Hl)|(_ & -> & _)].
  - intros l1 p l2 E'. destruct (pair_at x y l1 p l2 E') as [(-> & -> & ->)|(-> & -> & ->)]; [by rewrite F5|]. intros Hs. destruct (F7 Hs) as [-> Hsta]. by exists x.
  - intros l1 p l2 E'. destruct (pair_at x y l1 p l2 E') as [(-> & -> & ->)|(-> & -> & ->)]; [|by rewrite F6]. intros Hs. destruct (F8 Hs) as [-> Hstd]. by exists y.
Qed.

Lemma demo_Mop_ok i : i ∈ [0; 1] → ∃ mo, Mop_ok demo_heap 0 i [] mo.
Proof.
  intros Hi. repeat (apply elem_of_cons in Hi as [->|Hi]; [eexists; split; [vm_compute; reflexivity|done| | |done]|]); [..|by apply elem_of_nil in Hi].
  all: try (intros _; split; [done|]; do 3 eexists; split; [vm_compute; apply (eq_refl (app [] (_ :: _)))|]; by split).
  all: do 2 eexists; split; [vm_compute; reflexivity|done].
Qed.

(** ** The run *)

#[local] Existing Instance lsq_run.pool_mem.
#[local] Existing Instance lsq_run.pool_laws.
#[local] Existing Instance lsq_run.pool_answers.

Local Abbreviation demo_world := (world (M := lsq_run.pool) (Env := list Z)).
Local Abbreviation demo_event := (event (Env := list Z)).
Local Abbreviation demo_reach := (reach (M := lsq_run.pool) (Env := list Z) demo_knobs).

Definition demo_sizes : sizes := mk_sizes 2 2 2 2.
Definition demo_start : demo_world := start demo_knobs demo_heap demo_sizes lsq_run.demo_pool [].

Definition demo_next (ev : demo_event) (s : demo_world * in_order) : demo_world * in_order :=
  match code demo_knobs ev s.1 with Ok w => (w, after s.2 ev (w_core s.1) (w_core w)) | Fault _ => s end.

Lemma demo_reach_next ev s : demo_reach demo_start s.1 s.2 → enabled demo_knobs s.1 s.2 ev → (lsq.global_action_id (lsq (w_core s.1)) <? 2 ^ 64 - 2 ^ 34) = true →
  (if code demo_knobs ev s.1 is Ok _ then true else false) = true → demo_reach demo_start (demo_next ev s).1 (demo_next ev s).2.
Proof.
  intros Hr He Hg Hc. unfold demo_next. destruct (code demo_knobs ev s.1) as [w|] eqn:E; [|done]. simpl.
  eapply reach_event; [exact Hr|exact He|by apply Z.ltb_lt in Hg|exact E].
Qed.

Definition demo_0 : demo_world * in_order := (demo_start, no_uops).
Definition demo_1 := demo_next (fetch 0 [0]) demo_0.
Definition demo_2 := demo_next (fetch 1 [0; 1]) demo_1.
Definition demo_3 := demo_next (allocate (0, 0) [None; None; None]) demo_2.
Definition demo_4 := demo_next (allocate (0, 1) [Some (0, 0); None; None]) demo_3.
Definition demo_5 := demo_next (allocate (1, 0) [None; None; None]) demo_4.
Definition demo_6 := demo_next (set_address (1, 0) 8192) demo_5.
Definition demo_7 := demo_next (execute (0, 0)) demo_6.

Lemma demo_arrives i Q pend : i ∈ [0; 1] → i ∉ Q → (length Q ≤ 1)%nat → Forall (λ p, Forall (λ q, seq_of demo_heap p < seq_of demo_heap q) (flow demo_heap i)) pend →
  arrives demo_knobs 0 (mk_order Q [] [] pend) demo_heap i.
Proof.
  intros Hi Hn Hl Hp. split; simpl.
  - done.
  - by apply demo_flow_wf.
  - repeat (apply elem_of_cons in Hi as [->|Hi]; [repeat (constructor; [split; vm_compute; (done || by split_and!)|]); constructor|]). by apply elem_of_nil in Hi.
  - repeat (apply elem_of_cons in Hi as [->|Hi]; [vm_compute; repeat constructor|]). by apply elem_of_nil in Hi.
  - intros p q Hpp Hq. rewrite list.Forall_forall in Hp. specialize (Hp p Hpp). by apply (proj1 (list.Forall_forall _ _) Hp).
  - by apply demo_Mop_ok.
  - lia.
Qed.

Ltac decided := solve [vm_compute; reflexivity | apply (bool_decide_eq_true_1 _); vm_compute; reflexivity].

Ltac parents := let q := fresh in let Hq := fresh in intros q Hq; repeat (apply elem_of_cons in Hq as [Hq|Hq]; [try discriminate Hq; injection Hq as ->; decided|]); by apply elem_of_nil in Hq.

Lemma run_demo_reached : demo_reach demo_start demo_7.1 demo_7.2.
Proof.
  assert (demo_reach demo_start demo_0.1 demo_0.2) as R by apply reach_start.
  apply (demo_reach_next (fetch 0 [0])) in R; [|apply en_fetch; [apply demo_arrives; [decided|decided|simpl; lia|constructor]|done]|decided|decided].
  apply (demo_reach_next (fetch 1 [0; 1])) in R; [|apply en_fetch; [apply (demo_arrives 1 [0] [(0, 0); (0, 1)]); [decided|decided|simpl; lia|vm_compute; repeat constructor]|done]|decided|decided].
  apply (demo_reach_next (allocate (0, 0) [None; None; None])) in R; [|apply (en_allocate _ _ _ _ [(0, 1); (1, 0); (1, 1)]); [decided|decided|parents]|decided|decided].
  apply (demo_reach_next (allocate (0, 1) [Some (0, 0); None; None])) in R; [|apply (en_allocate _ _ _ _ [(1, 0); (1, 1)]); [decided|decided|parents]|decided|decided].
  apply (demo_reach_next (allocate (1, 0) [None; None; None])) in R; [|apply (en_allocate _ _ _ _ [(1, 1)]); [decided|decided|parents]|decided|decided].
  apply (demo_reach_next (set_address (1, 0) 8192)) in R; [|apply en_address; decided|decided|decided].
  apply (demo_reach_next (execute (0, 0))) in R; [exact R| |decided|decided].
  apply (en_execute _ _ _ _ [(0, 0); (0, 1)]); [decided|decided| |decided|decided]. intros (q & Hq & _ & Hn). injection Hq as <-. by apply Hn.
Qed.

Lemma demo_config : sizes_ok demo_knobs demo_sizes ∧ lsq_commit.mem_ok lsq_run.demo_pool ∧ lsq_commit.unanswered lsq_run.demo_pool = [] ∧ ce_ok (E := list Z) [] [].
Proof. unfold sizes_ok. simpl. split_and!; (done || lia). Qed.

(** ** The theorems there *)

Lemma backend_in_program_order_witness : read_off (w_core demo_7.1) demo_7.2 ∧ ∀ ev, enabled demo_knobs demo_7.1 demo_7.2 ev → ids_remain demo_7.1 → ∃ w', code demo_knobs ev demo_7.1 = Ok w'.
Proof. destruct demo_config as (H1 & H2 & H3 & H4). exact (backend_in_program_order demo_knobs demo_sizes demo_heap _ _ _ _ H1 H2 H3 H4 run_demo_reached). Defined.

Lemma jeclear_squashes_younger_witness : wp (recover demo_knobs (w_core demo_7.1) 0) (λ c', read_off c' (mk_order [0] [] [(0, 0); (0, 1)] [])).
Proof.
  destruct demo_config as (H1 & H2 & H3 & H4).
  refine (jeclear_squashes_younger demo_knobs demo_sizes demo_heap _ _ _ _ 0 [0] H1 H2 H3 H4 run_demo_reached _ _ _).
  - exists (0, 0). split; [decided|done].
  - decided.
  - vm_compute. done.
Defined.

Lemma commit_retires_oldest_witness : wp (step demo_knobs 4 false (w_core demo_7.1) (w_mem demo_7.1) (w_env demo_7.1) (w_now demo_7.1)) (λ r, let '(c', _, _) := r in
  ∃ n, let a' := retire_uops n (mem (w_core demo_7.1)) demo_7.2 in o_infl a' = drop n [(0, 0); (0, 1); (1, 0)] ∧ read_off c' a').
Proof.
  destruct demo_config as (H1 & H2 & H3 & H4).
  refine (commit_retires_oldest demo_knobs demo_sizes demo_heap _ _ _ _ 4 false H1 H2 H3 H4 run_demo_reached _ _ _).
  - lia.
  - intros Q1 i Q2 E (d & o & Em & Eo). exfalso. assert (i ∈ [0; 1]) as Hi.
    { change (o_Mops demo_7.2 = Q1 ++ i :: Q2) in E. assert (o_Mops demo_7.2 = [0; 1]) as E' by (vm_compute; reflexivity). rewrite E' in E. rewrite E. apply elem_of_app. right. left. }
    assert (Forall (λ i, match Mstat (mem (w_core demo_7.1)) i with Some (_, o) => spec_mode o = false | None => True end) [0; 1]) as Hall by (vm_compute; repeat constructor).
    rewrite list.Forall_forall in Hall. specialize (Hall i Hi). rewrite Em in Hall. congruence.
  - vm_compute. done.
Defined.

Lemma nuke_empties_witness : wp (recover_all (w_core demo_7.1)) (λ c', read_off c' no_uops ∧ rob.ROB_empty (rob c') = true ∧ lsq.STQ_empty (lsq.stores (lsq c')) = true).
Proof.
  destruct demo_config as (H1 & H2 & H3 & H4).
  refine (nuke_empties demo_knobs demo_sizes demo_heap _ _ _ _ H1 H2 H3 H4 run_demo_reached _ _); [decided|vm_compute; done].
Defined.

(** ** Two corners *)

Definition tiny_1 := demo_next (fetch 0 [0]) (start demo_knobs demo_heap (mk_sizes 1 2 2 2) lsq_run.demo_pool [], no_uops).
Definition tiny_2 := demo_next (allocate (0, 0) [None; None; None]) tiny_1.

(** The body of a fused set takes no entry of the reorder buffer, but it waits for one: the
    allocation looks at the pointer [fusion_head], which all members have, instead of the flag
    [is_fusion_head].  With a reorder buffer of one entry that its head has taken, it waits
    for ever. *)
Theorem body_waits_for_an_entry : dispatch demo_knobs (w_core tiny_2.1) (0, 1) [Some (0, 0); None; None] 0 = Ok (w_core tiny_2.1, Some ASTALL_ROB).
Proof. vm_compute. reflexivity. Qed.

(** A nuke while a fused set has committed in part: its last uop is at the head of the reorder
    buffer, and the walk to the end of the set asserts that it has a next one. *)
Theorem nuke_of_half_a_set : squash_entry (w_core demo_4.1) (0, 1) = Fault AssertFail.
Proof. vm_compute. reflexivity. Qed.

End back_demo.
